(* ===== verification/_CoqProject ===== *)
-Q . S2P
Prelude.v
Stream.v
StreamRefine.v
StreamSafety.v
StreamFifo.v
SepLogic.v
Avl.v
AvlTree.v
AvlNode.v
AvlHeap.v
AvlSpec.v
AvlRemove.v
AvlFind.v
AvlOps.v
AvlDestroy.v
AvlCorrect.v
Bitset.v
BitsetWords.v
BitsetRep.v
BitsetLoops.v
BitsetIter.v
BitsetShift.v
BitsetCorrect.v
PtpFsm.v
PtpBmc.v
PtpForeign.v
PtpPort.v
PtpClock.v
PtpPortSpec.v
PtpClockSpec.v
FrrPrefix.v
FrrPrefixBits.v
FrrPrefixSpec.v
Heap.v
ThashSize.v
Thash.v
ThashResize.v
ThashTable.v
ThashSet.v
ThashIter.v
ThashCorrect.v
RouteTable.v
RouteTree.v
RouteKey.v
RouteHeap.v
RouteSearch.v
RouteInsert.v
RouteGet.v
RouteDelete.v
RouteIter.v
RouteSteps.v
RouteCorrect.v
Own.v
Plist.v
PlistVty.v
PlistChain.v
PlistWalk.v
PlistSlot.v
PlistTrie.v
PlistInstall.v
PlistApply.v
PlistList.v
PlistOps.v
PlistQuery.v
PlistBody.v
PlistMaster.v
PlistWorld.v
PlistSpec.v
PlistText.v
PlistSteps.v
PlistReset.v
PlistHistory.v
PlistCorrect.v
BgpOrf.v
BgpOrfRecv.v
BgpOrfKept.v
BgpOrfSend.v
BgpOrfCorrect.v
Vis.v
VisCorrect.v
