(* ===== verification/Prelude.v ===== *)
(** * Verification of the network plumbing of the Pluribus Linux userland

    The repository (src/) is the user space of a switch: the FRR routing suite,
    the precision time daemon linuxptp, and libraries of the vendor's, beside
    unchanged upstream projects.  This library models the parts that carry its
    own logic and state, in the words of the C code, and proves what makes them
    correct.  Paths below are relative to src/components/.

    ** Parts and their files

    - *Foundations.*  [Prelude]: outcomes, the state monad, machine integers,
      byte order, blocks of memory.  [SepLogic], [Heap], [Own]: memories of
      cells, allocation, and two program logics over them (an Iris [bi], and
      its form with plain propositions), with rules for computations that end
      and for computations that go wrong.
    - *Stream buffers* (frr-frr-7.2/lib/stream.c): [Stream] the functions,
      [StreamRefine] the byte queue they implement, [StreamSafety] memory
      safety and positional accesses, [StreamFifo] the queue of streams.
    - *AVL trees* (libnvavl/avl.c): [Avl] the functions on memory, [AvlTree]
      trees as values and rebalancing, [AvlNode] and [AvlHeap] trees in memory,
      [AvlSpec], [AvlRemove], [AvlFind], [AvlOps] and [AvlDestroy] the
      operations as operations on sorted lists, [AvlCorrect] the properties.
    - *Bit sets* (cbitset-0.2.1): [Bitset] the functions, [BitsetWords],
      [BitsetRep], [BitsetLoops], [BitsetIter] and [BitsetShift] what they do
      to a number with one bit per member, [BitsetCorrect] the properties.
    - *Precision time* (linuxptp-3.1): [PtpFsm] the state machines of fsm.c,
      designated_fsm.c and unicast_fsm.c; [PtpBmc] the comparison of datasets
      (bmc.c, telecom.c); [PtpForeign] the foreign masters of a port (port.c);
      [PtpPort] the port; [PtpClock] the clock, its data sets and decisions
      (clock.c, bmc.c); [PtpPortSpec] the invariant of a port and the life of
      its table of foreign masters, [PtpClockSpec] the invariant of a clock.
    - *Prefixes* (frr-frr-7.2/lib/prefix.c, jhash.c): [FrrPrefix] the
      functions, [FrrPrefixBits] prefixes as strings of bits, [FrrPrefixSpec]
      the properties.
    - *Typesafe hash tables* (lib/typesafe.h, typesafe.c): [ThashSize] the
      arithmetic of sizes, [Thash] the functions [DECLARE_HASH] generates,
      [ThashResize], [ThashTable], [ThashSet] and [ThashIter] the tables as
      sets, with the class [HashSpec] that clients are proved against,
      [ThashCorrect] the properties.
    - *Route tables* (lib/table.c, table.h): [RouteTable] the functions,
      [RouteTree] and [RouteKey] their trees and keys, [RouteHeap] tables in
      memory, [RouteSearch], [RouteInsert], [RouteGet], [RouteDelete] and
      [RouteIter] the operations, [RouteSteps] the view of a client,
      [RouteCorrect] histories and properties.  A route table uses a prefix
      and, through [HashSpec], a hash table.
    - *Prefix lists* (lib/plist.c): [Plist] lists, rules and tries; [PlistVty]
      the commands, from their arguments on, with str2prefix_ipv4 and _ipv6 of
      prefix.c; [PlistChain], [PlistWalk], [PlistSlot], [PlistTrie] and
      [PlistInstall] the tries, and rules whose walk leaves a table;
      [PlistApply] the decision; [PlistList],
      [PlistOps], [PlistQuery] and [PlistBody] one list; [PlistMaster] and
      [PlistWorld] the lists of a master and the log; [PlistSpec] the
      specification, [PlistText] and [PlistSteps] that each command meets it,
      [PlistReset] and [PlistHistory] all masters and histories,
      [PlistCorrect] the properties.
    - *Outbound route filters* (bgpd/bgp_packet.c, bgpd.c, bgp_route.c,
      lib/iana_afi.h): [BgpOrf] the ROUTE-REFRESH message, its handler and the
      check of routes; [BgpOrfRecv] and [BgpOrfSend] what is received and
      sent, [BgpOrfKept] the rules that commands make, [BgpOrfCorrect] the
      properties.  The message is built and parsed in stream buffers and its
      filters are kept in prefix lists.
    - *Visual encoding* (libnvedit-20110802-3.0/src/vis.c, unvis.c): [Vis] and
      [VisCorrect].

    ** State and operations

    A C function is a definition of the same name; a loop is a [Fixpoint] of
    its own beside it.  Stateful code lives in the monad [M S]: a function from
    the state [S] to an outcome [res], which is a result with the new state, a
    failed assertion, a [Fault] (what the C standard leaves undefined: a null
    or dangling pointer, an access outside an object, a shift by the width), or
    [NoFuel].  The state is one buffer or bit set where the code has one, and a
    finite map from addresses to cells or objects where it follows pointers.
    Integers are [Z] with the wrap-around of their width written out ([u8],
    [u16], [u32], [u64], [usz]).  What the code gets from outside it is a
    parameter with its documented laws: the allocator's choice of addresses
    ([Placement]), the comparison and hash functions of users, [inet_pton], the
    contents of fresh memory and of uninitialised locals, the outcomes of
    system calls.  What it tells the outside (hooks, route map notifications,
    packets, announcements, log of a walk) is recorded in the state.

    ** What the theorems show

    - Refinement: a whole history of calls, in any order and with any
      arguments in range, behaves as an abstract machine: streams as byte
      queues, AVL trees as sorted lists, bit sets as sets, hash tables as sets
      of objects, route tables as the nodes their clients hold, prefix lists
      as named lists of rules.
    - Equivalence and functional behaviour: the search of a prefix list's trie
      decides as its first matching rule, prefixes compare as strings of bits,
      datasets in the order of the standard, the best master is the best one,
      the roles of a port change as a table of moves says.
    - Round trips: messages through streams, bytes through vis and unvis, and a
      prefix list through a ROUTE-REFRESH message.
    - Invariants, typing and safety: clocks and ports, foreign masters, the
      links of route tables, ordered rules, no access out of bounds, all
      memory given back.
    - Errors and bounds: where the code goes wrong, as theorems that it does
      (the overrun of stream_put_labeled_prefix, that of trie_walk_affected
      for filters with bits behind their prefixes, duplicates in a hash table,
      growing a bit set without memory, filters that cannot be removed, lists
      too long for a packet, and others).
    - Termination: every theorem that a call returns excludes [NoFuel]; walks
      and iterations end.

    ** Fuel

    A loop over a structure in memory gets the number of objects in memory
    ([mem_fuel]) or one more, as no object is visited twice; the freeing of a
    route table gets it twice, as each node is entered and left once.  The
    tries have a depth of 2 or 4.  The loops over an ROUTE-REFRESH message get
    the number of its bytes, those of bit sets the number of words or bits,
    those of foreign masters the number of messages.  The dispatch of a port
    and the decoder of unvis call themselves once at most, and have 2.

    ** Not modelled

    Inside the parts: floating point in streams; builds with other settings
    (the debug assertions of avl.c, its 32-bit layout); management, signaling,
    sync and delay messages, transparent clocks and time stamping of linuxptp,
    whose outcomes enter as arguments, as do timers and sockets; flow
    specifications in prefixes; the delegate and cleanup functions of route
    tables other than the default; printing and statistics of prefix lists;
    the other messages of BGP, its event loop and its update groups.  FRR ends
    the process when memory runs out, so its allocations succeed.  A handler
    reads the clock of linuxptp once.  Locales other than C are not considered
    in vis.  A client of a route table follows its rules (it gives back each
    reference once), which is a hypothesis of its histories.

    Whole parts: the protocol daemons of FRR, their command line and event
    loop need sockets, threads and generated tables; servos and filters of
    linuxptp compute in floating point; its transports, messages and tools, the
    line editor of libnvedit, libnvmore, libnvutil and nss_nvos are input and
    output.  Open vSwitch, systemd, net-snmp, OpenSSH, LXC, wpa_supplicant,
    ipmitool, ifupdown and the bindings are upstream projects. *)

From Stdlib Require Export ZArith Lia.
From stdpp Require Export base tactics list numbers gmap.
From stdpp Require Import sorting.

#[global] Open Scope Z_scope.

(** ** Outcomes of a C computation

    [Ret a] is normal termination.  [AssertFail] is a failed [assert]
    (the process aborts).  [Fault] is an access outside the object it is
    made through, or a dereference of a null or dangling pointer: what the
    C standard leaves undefined.  [NoFuel] is only produced by the fuelled
    loops of the models, and every loop used here has a theorem that
    excludes it. *)
Inductive res (A : Type) : Type :=
  | Ret (a : A)
  | AssertFail
  | Fault
  | NoFuel.
Arguments Ret {A} a.
Arguments AssertFail {A}.
Arguments Fault {A}.
Arguments NoFuel {A}.

#[export] Instance Ret_inj A : Inj (=) (=) (@Ret A).
Proof. by intros ? ? [= ->]. Qed.

#[export] Instance res_ret : MRet res := @Ret.
#[export] Instance res_bind : MBind res := fun A B k m =>
  match m with
  | Ret a => k a
  | AssertFail => AssertFail
  | Fault => Fault
  | NoFuel => NoFuel
  end.

(** ** The state and outcome monad the models are written in *)
Definition M (S A : Type) : Type := S -> res (A * S).

#[export] Instance M_ret {S} : MRet (M S) := fun A a s => Ret (a, s).
#[export] Instance M_bind {S} : MBind (M S) := fun A B k m s =>
  match m s with
  | Ret (a, s') => k a s'
  | AssertFail => AssertFail
  | Fault => Fault
  | NoFuel => NoFuel
  end.

Definition mget {S} : M S S := fun s => Ret (s, s).
Definition mput {S} (s : S) : M S unit := fun _ => Ret (tt, s).
Definition mmodify {S} (f : S -> S) : M S unit := fun s => Ret (tt, f s).
Definition mfail {S A} : M S A := fun _ => AssertFail.
Definition mfault {S A} : M S A := fun _ => Fault.
Definition mnofuel {S A} : M S A := fun _ => NoFuel.

(** [assert(b)] *)
Definition massert {S} (b : bool) : M S unit :=
  if b then mret tt else mfail.

(** An outcome with no effect on the state. *)
Definition mlift {S A} (r : res A) : M S A := fun s =>
  match r with
  | Ret a => Ret (a, s)
  | AssertFail => AssertFail
  | Fault => Fault
  | NoFuel => NoFuel
  end.

(** [if (b) m] *)
Definition mwhen {S} (b : bool) (m : M S unit) : M S unit :=
  if b then m else mret tt.

(** [for (k = from; k < from + n; k++) body(k)] *)
Fixpoint mfor {S} (n : nat) (from : Z) (body : Z -> M S unit) : M S unit :=
  match n with
  | O => mret tt
  | S n' => body from ;; mfor n' (from + 1) body
  end.

Section monad_lemmas.
Context {S : Type}.
Implicit Types s : S.

Lemma bind_ret_eq {A B} (m : M S A) (k : A -> M S B) s a s' :
  m s = Ret (a, s') -> (m ≫= k) s = k a s'.
Proof. intros E. unfold mbind, M_bind. by rewrite E. Qed.

Lemma bind_assertfail {A B} (m : M S A) (k : A -> M S B) s :
  m s = AssertFail -> (m ≫= k) s = AssertFail.
Proof. intros E. unfold mbind, M_bind. by rewrite E. Qed.

Lemma bind_fault {A B} (m : M S A) (k : A -> M S B) s :
  m s = Fault -> (m ≫= k) s = Fault.
Proof. intros E. unfold mbind, M_bind. by rewrite E. Qed.

Lemma bind_assoc {A B C} (m : M S A) (f : A -> M S B) (g : B -> M S C) s :
  ((m ≫= f) ≫= g) s = (m ≫= (fun a => f a ≫= g)) s.
Proof. unfold mbind, M_bind. by destruct (m s) as [[? ?]| | |]. Qed.

Lemma bind_ext {A B} (m : M S A) (k1 k2 : A -> M S B) s :
  (forall a s', k1 a s' = k2 a s') -> (m ≫= k1) s = (m ≫= k2) s.
Proof. intros E. unfold mbind, M_bind. by destruct (m s) as [[? ?]| | |]. Qed.

Lemma bind_Ret_inv {A B} (m : M S A) (k : A -> M S B) s b s'' :
  (m ≫= k) s = Ret (b, s'') ->
  exists a s', m s = Ret (a, s') /\ k a s' = Ret (b, s'').
Proof.
  unfold mbind, M_bind. destruct (m s) as [[a s']| | |]; naive_solver.
Qed.

Lemma massert_true (b : bool) s : b = true -> massert b s = Ret (tt, s).
Proof. by intros ->. Qed.
Lemma massert_false (b : bool) s : b = false -> massert b s = AssertFail.
Proof. by intros ->. Qed.
End monad_lemmas.

(** Loops *)
Section loops.
Context {St : Type}.
Implicit Types s : St.

(** A loop invariant [I k s] carried from [from] to [from + n]. *)
Lemma mfor_inv (I : Z -> St -> Prop) (body : Z -> M St unit) n from s :
  I from s ->
  (forall k s1, from <= k < from + Z.of_nat n -> I k s1 ->
     exists s2, body k s1 = Ret (tt, s2) /\ I (k + 1) s2) ->
  exists s', mfor n from body s = Ret (tt, s') /\ I (from + Z.of_nat n) s'.
Proof.
  revert from s. induction n as [|n IH]; intros from s H0 Hstep.
  - exists s. split; [done|]. by replace (from + Z.of_nat 0) with from by lia.
  - destruct (Hstep from s) as (s1 & E1 & H1); [lia|done|].
    destruct (IH (from + 1) s1) as (s2 & E2 & H2); [done| |].
    + intros k s3 Hk. apply Hstep. lia.
    + exists s2. simpl. rewrite (bind_ret_eq _ _ _ _ _ E1).
      split; [done|]. by replace (from + Z.of_nat (S n))
        with (from + 1 + Z.of_nat n) by lia.
Qed.
End loops.

(** ** Machine integers *)
Definition wrap (w z : Z) : Z := z mod 2 ^ w.
Abbreviation u8 := (wrap 8).
Abbreviation u16 := (wrap 16).
Abbreviation u32 := (wrap 32).
Abbreviation u64 := (wrap 64).
(** [size_t] of the 64-bit targets the userland is built for *)
Abbreviation usz := (wrap 64).

(** The index of the lowest bit that is set *)
Fixpoint pos_ctz (p : positive) : Z :=
  match p with xO p => 1 + pos_ctz p | _ => 0 end.

Definition is_byte (b : Z) : Prop := 0 <= b < 256.
Definition in_width (w z : Z) : Prop := 0 <= z < 2 ^ w.

Lemma wrap_bounds w z : 0 <= w -> 0 <= wrap w z < 2 ^ w.
Proof. intros. apply Z.mod_pos_bound. by apply Z.pow_pos_nonneg. Qed.

Lemma wrap_small w z : 0 <= z < 2 ^ w -> wrap w z = z.
Proof. intros. by apply Z.mod_small. Qed.

Lemma wrap_idemp w z : 0 <= w -> wrap w (wrap w z) = wrap w z.
Proof. intros. apply wrap_small, wrap_bounds. done. Qed.

Lemma wrap_add_idemp_l w a b : wrap w (wrap w a + b) = wrap w (a + b).
Proof. unfold wrap. by rewrite Zplus_mod_idemp_l. Qed.

Lemma wrap_over w z : 0 <= w -> 2 ^ w <= z < 2 * 2 ^ w -> wrap w z = z - 2 ^ w.
Proof.
  intros Hw Hz. unfold wrap. rewrite <- (Z.mod_small (z - 2 ^ w) (2 ^ w)) by lia.
  rewrite <- Zminus_mod_idemp_r, Z_mod_same_full. f_equal. lia.
Qed.

Lemma testbit_wrap w z i :
  0 <= w -> Z.testbit (wrap w z) i = (i <? w) && Z.testbit z i.
Proof. intros. unfold wrap. apply Z.testbit_mod_pow2. done. Qed.

Lemma testbit_above_width w z i :
  0 <= z < 2 ^ w -> w <= i -> Z.testbit z i = false.
Proof.
  intros Hz Hi. destruct (decide (w < 0)) as [?|?].
  { rewrite Z.pow_neg_r in Hz by done. lia. }
  rewrite <- (wrap_small w z) by done. rewrite testbit_wrap by lia.
  destruct (Z.ltb_spec i w); [lia|done].
Qed.

Lemma lt_pow2_of_bits w z :
  0 <= w -> 0 <= z -> (forall i, w <= i -> Z.testbit z i = false) -> z < 2 ^ w.
Proof.
  intros Hw Hz Hb. enough (z = wrap w z) as ->.
  { by apply wrap_bounds. }
  apply Z.bits_inj'. intros i Hi. rewrite testbit_wrap by done.
  destruct (Z.ltb_spec i w); [done|]. by rewrite Hb.
Qed.

Lemma lor_bound w a b :
  0 <= w -> 0 <= a < 2 ^ w -> 0 <= b < 2 ^ w -> 0 <= Z.lor a b < 2 ^ w.
Proof.
  intros Hw Ha Hb. assert (0 <= Z.lor a b) by (apply Z.lor_nonneg; lia).
  split; [done|]. apply lt_pow2_of_bits; [done..|]. intros i Hi.
  by rewrite Z.lor_spec, !(testbit_above_width w).
Qed.

(** Bytes joined to a word: [hi << 8 | lo]. *)
Lemma lor_shiftl_add k hi lo :
  0 <= k -> 0 <= lo < 2 ^ k -> Z.lor (Z.shiftl hi k) lo = hi * 2 ^ k + lo.
Proof.
  intros Hk Hlo.
  assert (Hd : Z.land (Z.shiftl hi k) lo = 0).
  { apply Z.bits_inj'. intros i Hi.
    rewrite Z.land_spec, Z.shiftl_spec, Z.bits_0 by done.
    destruct (Z.ltb_spec i k).
    - by rewrite Z.testbit_neg_r by lia.
    - by rewrite (testbit_above_width k lo), andb_false_r. }
  rewrite <- Z.lxor_lor, <- Z.add_nocarry_lxor by done.
  by rewrite Z.shiftl_mul_pow2.
Qed.

(** ** Filters *)
Lemma filter_Forall_all {A} (P : A -> Prop) `{!forall x, Decision (P x)} l :
  Forall P l -> filter P l = l.
Proof. induction 1; [done|]. rewrite filter_cons_True by done. by f_equal. Qed.

Lemma filter_Forall_none {A} (P : A -> Prop) `{!forall x, Decision (P x)} l :
  Forall (fun x => ~ P x) l -> filter P l = [].
Proof. induction 1; [done|]. by rewrite filter_cons_False. Qed.

Lemma StronglySorted_filter {A} (R : A -> A -> Prop) (P : A -> Prop) `{!forall x, Decision (P x)} l :
  StronglySorted R l -> StronglySorted R (filter P l).
Proof.
  induction 1 as [|x l Hs IH Hf]; [constructor|].
  rewrite filter_cons. destruct (decide (P x)); [|done].
  constructor; [done|]. apply Forall_forall. intros y [_ Hy]%list_elem_of_filter.
  rewrite Forall_forall in Hf. auto.
Qed.

(** ** Memory blocks as lists *)
Section blocks.
Context {A : Type}.
Implicit Types l src : list A.

(** [p[i]] of an object holding [l]; [None] outside the object. *)
Definition block_get l (i : Z) : option A :=
  if bool_decide (0 <= i < Z.of_nat (length l)) then l !! Z.to_nat i else None.

(** [p[i] = x] *)
Definition block_set l (i : Z) (x : A) : option (list A) :=
  if bool_decide (0 <= i < Z.of_nat (length l))
  then Some (<[Z.to_nat i := x]> l) else None.

(** The [n] elements from [off], as [memcpy] reads them. *)
Definition block_read l (off n : Z) : option (list A) :=
  if bool_decide (0 <= off /\ 0 <= n /\ off + n <= Z.of_nat (length l))
  then Some (take (Z.to_nat n) (drop (Z.to_nat off) l)) else None.

(** The block after [memcpy] wrote [src] at [off]. *)
Definition block_write l (off : Z) src : option (list A) :=
  if bool_decide (0 <= off /\ off + Z.of_nat (length src) <= Z.of_nat (length l))
  then Some (take (Z.to_nat off) l ++ src ++ drop (Z.to_nat off + length src) l)
  else None.

Lemma block_get_lookup l i :
  0 <= i -> block_get l i = l !! Z.to_nat i.
Proof.
  intros Hi. unfold block_get. case_bool_decide; [done|].
  symmetry. apply lookup_ge_None. lia.
Qed.

Lemma block_get_Some l i :
  0 <= i < Z.of_nat (length l) -> is_Some (block_get l i).
Proof.
  intros. rewrite block_get_lookup by lia. apply lookup_lt_is_Some. lia.
Qed.

Lemma block_get_None l i :
  Z.of_nat (length l) <= i -> block_get l i = None.
Proof.
  intros. rewrite block_get_lookup by lia. apply lookup_ge_None. lia.
Qed.

Lemma block_set_Some l i x :
  0 <= i < Z.of_nat (length l) -> block_set l i x = Some (<[Z.to_nat i := x]> l).
Proof. intros. unfold block_set. by rewrite bool_decide_true. Qed.

Lemma block_read_Some l off n :
  0 <= off -> 0 <= n -> off + n <= Z.of_nat (length l) ->
  block_read l off n = Some (take (Z.to_nat n) (drop (Z.to_nat off) l)).
Proof. intros. unfold block_read. by rewrite bool_decide_true. Qed.

Lemma block_write_Some l off src :
  0 <= off -> off + Z.of_nat (length src) <= Z.of_nat (length l) ->
  block_write l off src =
    Some (take (Z.to_nat off) l ++ src ++ drop (Z.to_nat off + length src) l).
Proof. intros. unfold block_write. by rewrite bool_decide_true. Qed.

Lemma block_write_length l off src l' :
  block_write l off src = Some l' -> length l' = length l.
Proof.
  unfold block_write. case_bool_decide as Hb; [|done]. intros [= <-].
  rewrite !length_app, length_take, length_drop. lia.
Qed.

Lemma block_write_lookup_in l off src l' i :
  block_write l off src = Some l' -> (i < length src)%nat ->
  l' !! (Z.to_nat off + i)%nat = src !! i.
Proof.
  unfold block_write. case_bool_decide as Hb; [|done]. intros [= <-] Hi.
  rewrite lookup_app_r by (rewrite length_take; lia).
  rewrite length_take, lookup_app_l by lia. f_equal. lia.
Qed.

Lemma block_write_lookup_out l off src l' i :
  block_write l off src = Some l' ->
  (i < Z.to_nat off \/ Z.to_nat off + length src <= i)%nat ->
  l' !! i = l !! i.
Proof.
  unfold block_write. case_bool_decide as Hb; [|done]. intros [= <-] [Hi|Hi].
  - rewrite lookup_app_l by (rewrite length_take; lia).
    by rewrite lookup_take_lt by lia.
  - rewrite lookup_app_r by (rewrite length_take; lia).
    rewrite length_take, lookup_app_r by lia.
    rewrite lookup_drop. f_equal. lia.
Qed.

Lemma block_write_snoc l p bs d x :
  block_write l p bs = Some d ->
  p + Z.of_nat (length bs) < Z.of_nat (length l) ->
  block_write l p (bs ++ [x]) = Some (<[Z.to_nat p + length bs := x]> d)%nat.
Proof.
  intros Hw Hlt. assert (Hp : 0 <= p).
  { unfold block_write in Hw. case_bool_decide; [lia|done]. }
  rewrite block_write_Some in Hw by lia. injection Hw as <-.
  rewrite block_write_Some by (rewrite ?length_app; simpl; lia). f_equal.
  rewrite insert_app_r_alt by (rewrite length_take; lia). f_equal.
  rewrite length_take, insert_app_r_alt by lia. rewrite <- app_assoc. f_equal.
  replace (Z.to_nat p + length bs - Z.to_nat p `min` length l - length bs)%nat with 0%nat by lia.
  rewrite length_app, Nat.add_assoc, Nat.add_1_r. simpl.
  destruct (lookup_lt_is_Some_2 l (Z.to_nat p + length bs)) as [y Hy]; [lia|].
  by rewrite (drop_S _ y (Z.to_nat p + length bs)%nat).
Qed.

Lemma block_read_lookup l p bs i :
  0 <= p -> block_read l p (Z.of_nat (length bs)) = Some bs ->
  (i < length bs)%nat -> l !! (Z.to_nat p + i)%nat = bs !! i.
Proof.
  intros Hp Hr Hi. unfold block_read in Hr. case_bool_decide as Hb; [|done].
  injection Hr as Hr. rewrite Nat2Z.id in Hr. rewrite <- Hr.
  by rewrite lookup_take_lt, lookup_drop by done.
Qed.

Lemma block_read_write l p bs d :
  block_write l p bs = Some d ->
  block_read d p (Z.of_nat (length bs)) = Some bs.
Proof.
  intros Hw. pose proof (block_write_length _ _ _ _ Hw) as Hl.
  unfold block_write in Hw. case_bool_decide as Hb; [|done]. injection Hw as Hd.
  rewrite block_read_Some by lia. f_equal. subst d.
  rewrite drop_app_length' by (rewrite length_take; lia).
  by rewrite take_app_length' by lia.
Qed.

Lemma take_insert_snoc l n x :
  (n < length l)%nat -> take (S n) (<[n := x]> l) = take n l ++ [x].
Proof.
  intros Hn. rewrite (take_S_r _ _ x) by by apply list_lookup_insert_eq.
  rewrite take_insert_ge by lia. done.
Qed.
End blocks.

Definition of_option {S A} (o : option A) : M S A :=
  match o with Some a => mret a | None => mfault end.

(** ** Network byte order *)
Definition be_step (acc b : Z) : Z := Z.lor (Z.shiftl acc 8) b.
Definition be_val (bs : list Z) : Z := foldl be_step 0 bs.

(** The [n] low-order bytes of [v], most significant first. *)
Fixpoint be_bytes (n : nat) (v : Z) : list Z :=
  match n with
  | O => []
  | S n' => u8 (Z.shiftr v (8 * Z.of_nat n')) :: be_bytes n' v
  end.

Lemma be_step_add acc b : is_byte b -> be_step acc b = acc * 256 + b.
Proof. intros. unfold be_step. by rewrite lor_shiftl_add. Qed.

Lemma be_val_snoc bs b : be_val (bs ++ [b]) = be_step (be_val bs) b.
Proof. unfold be_val. by rewrite foldl_app. Qed.

Lemma length_be_bytes n v : length (be_bytes n v) = n.
Proof. induction n; simpl; auto. Qed.

Lemma be_bytes_is_byte n v : Forall is_byte (be_bytes n v).
Proof.
  induction n; simpl; constructor; [|done]. by apply (wrap_bounds 8).
Qed.

Lemma foldl_be_step_bytes n v acc :
  foldl be_step acc (be_bytes n v) =
    acc * 2 ^ (8 * Z.of_nat n) + wrap (8 * Z.of_nat n) v.
Proof.
  revert acc. induction n as [|n IH]; intros acc.
  - simpl. unfold wrap. rewrite Z.mod_1_r. lia.
  - cbn [be_bytes foldl]. rewrite IH, be_step_add by by apply (wrap_bounds 8).
    replace (8 * Z.of_nat (S n)) with (8 * Z.of_nat n + 8) by lia.
    unfold wrap. rewrite Z.shiftr_div_pow2 by lia.
    rewrite Z.pow_add_r, Z.rem_mul_r by lia.
    change (2 ^ 8) with 256. ring.
Qed.

(** Encoding then decoding truncates to the field's width. *)
Lemma be_val_bytes n v : be_val (be_bytes n v) = wrap (8 * Z.of_nat n) v.
Proof. unfold be_val. rewrite foldl_be_step_bytes. lia. Qed.

Lemma be_val_bound bs :
  Forall is_byte bs -> 0 <= be_val bs < 2 ^ (8 * Z.of_nat (length bs)).
Proof.
  induction bs as [|b bs IH] using rev_ind; [done|].
  rewrite Forall_app, Forall_singleton. intros [Hbs Hb].
  rewrite be_val_snoc, be_step_add by done. specialize (IH Hbs).
  rewrite length_app. simpl.
  replace (8 * Z.of_nat (length bs + 1)) with (8 * Z.of_nat (length bs) + 8) by lia.
  rewrite Z.pow_add_r by lia. change (2 ^ 8) with 256. unfold is_byte in Hb. lia.
Qed.

Create HintDb userland.
Create Rewrite HintDb userland.
#[export] Hint Resolve be_bytes_is_byte be_val_bound : userland.
#[export] Hint Rewrite length_be_bytes @length_take @length_drop @length_app
  @length_insert : userland.

(** ** Reasoning about computations

    [runs m s Q]: from [s], [m] terminates normally and establishes [Q].
    [safe m s Q]: from [s], [m] never commits undefined behaviour and never
    runs out of fuel; it either fails an assertion or establishes [Q]. *)
Section wp.
Context {S : Type}.
Implicit Types s : S.

Definition runs {A} (m : M S A) s (Q : A -> S -> Prop) : Prop :=
  exists a s', m s = Ret (a, s') /\ Q a s'.

Definition safe {A} (m : M S A) s (Q : A -> S -> Prop) : Prop :=
  match m s with
  | Ret (a, s') => Q a s'
  | AssertFail => True
  | Fault | NoFuel => False
  end.

Lemma runs_ret {A} (a : A) s (Q : A -> S -> Prop) : Q a s -> runs (mret a) s Q.
Proof. intros. by exists a, s. Qed.

Lemma runs_mono {A} (m : M S A) s (P Q : A -> S -> Prop) :
  runs m s P -> (forall a s', P a s' -> Q a s') -> runs m s Q.
Proof. intros (a & s' & E & HP) H. exists a, s'. eauto. Qed.

Lemma runs_bind {A B} (m : M S A) (k : A -> M S B) s Q :
  runs m s (fun a s' => runs (k a) s' Q) -> runs (m ≫= k) s Q.
Proof.
  intros (a & s' & E & b & s'' & E' & HQ). exists b, s''. split; [|done].
  by rewrite (bind_ret_eq _ _ _ _ _ E).
Qed.

Lemma runs_mget s (Q : S -> S -> Prop) : Q s s -> runs mget s Q.
Proof. intros. by exists s, s. Qed.

Lemma runs_mmodify f s (Q : unit -> S -> Prop) : Q tt (f s) -> runs (mmodify f) s Q.
Proof. intros. by exists tt, (f s). Qed.

Lemma runs_massert (b : bool) s (Q : unit -> S -> Prop) :
  b = true -> Q tt s -> runs (massert b) s Q.
Proof. intros -> HQ. by exists tt, s. Qed.

Lemma runs_of_option {A} (o : option A) a s (Q : A -> S -> Prop) :
  o = Some a -> Q a s -> runs (of_option o) s Q.
Proof. intros -> HQ. by exists a, s. Qed.

Lemma runs_if {A} (b : bool) (m1 m2 : M S A) s Q :
  (b = true -> runs m1 s Q) -> (b = false -> runs m2 s Q) ->
  runs (if b then m1 else m2) s Q.
Proof. destruct b; auto. Qed.

Lemma runs_eq {A} (m : M S A) s a s' :
  runs m s (fun a' s'' => a' = a /\ s'' = s') <-> m s = Ret (a, s').
Proof.
  split; [|intros; by exists a, s']. by intros (? & ? & ? & -> & ->).
Qed.

Lemma runs_safe {A} (m : M S A) s (Q : A -> S -> Prop) : runs m s Q -> safe m s Q.
Proof. intros (a & s' & E & HQ). unfold safe. by rewrite E. Qed.

Lemma safe_ret {A} (a : A) s (Q : A -> S -> Prop) : Q a s -> safe (mret a) s Q.
Proof. done. Qed.

Lemma safe_mono {A} (m : M S A) s (P Q : A -> S -> Prop) :
  safe m s P -> (forall a s', P a s' -> Q a s') -> safe m s Q.
Proof. unfold safe. destruct (m s) as [[a s']| | |]; auto. Qed.

Lemma safe_bind {A B} (m : M S A) (k : A -> M S B) s Q :
  safe m s (fun a s' => safe (k a) s' Q) -> safe (m ≫= k) s Q.
Proof.
  unfold safe, mbind, M_bind. by destruct (m s) as [[a s']| | |].
Qed.

Lemma safe_mget s (Q : S -> S -> Prop) : Q s s -> safe mget s Q.
Proof. done. Qed.

Lemma safe_mmodify f s (Q : unit -> S -> Prop) : Q tt (f s) -> safe (mmodify f) s Q.
Proof. done. Qed.

Lemma safe_massert (b : bool) s (Q : unit -> S -> Prop) :
  (b = true -> Q tt s) -> safe (massert b) s Q.
Proof. destruct b; unfold safe; simpl; auto. Qed.

Lemma safe_of_option {A} (o : option A) s (Q : A -> S -> Prop) :
  is_Some o -> (forall a, o = Some a -> Q a s) -> safe (of_option o) s Q.
Proof. intros [a ->] H. unfold safe. simpl. auto. Qed.

Lemma safe_if {A} (b : bool) (m1 m2 : M S A) s Q :
  (b = true -> safe m1 s Q) -> (b = false -> safe m2 s Q) ->
  safe (if b then m1 else m2) s Q.
Proof. destruct b; auto. Qed.
End wp.

(** One structural step of a [runs] or [safe] goal. *)
Ltac mstep :=
  lazymatch goal with
  | |- runs (_ ≫= _) _ _ => apply runs_bind
  | |- runs (mret _) _ _ => apply runs_ret
  | |- runs mget _ _ => apply runs_mget
  | |- runs (mmodify _) _ _ => apply runs_mmodify
  | |- safe (_ ≫= _) _ _ => apply safe_bind
  | |- safe (mret _) _ _ => apply safe_ret
  | |- safe mget _ _ => apply safe_mget
  | |- safe (mmodify _) _ _ => apply safe_mmodify
  | |- safe (massert _) _ _ => apply safe_massert
  end.
Ltac msteps := repeat (cbv beta zeta; mstep).

(** ** Assembling a big-endian integer with shifts and [|=]

    The three shapes of the C idiom [v = b0 << k; v |= b1 << (k-8); ...; v |= bn]
    on a [w]-bit variable. *)
Section be_assembly.
Context (w : Z).

Lemma be_first k b :
  0 <= k -> is_byte b -> 8 + k <= w ->
  wrap w (Z.shiftl b k) = Z.shiftl (be_val [b]) k.
Proof.
  intros Hk Hb Hw. change (be_val [b]) with (be_step 0 b).
  rewrite be_step_add by done. rewrite Z.mul_0_l, Z.add_0_l.
  apply wrap_small. rewrite Z.shiftl_mul_pow2 by done.
  assert (2 ^ k * 256 <= 2 ^ w).
  { change 256 with (2 ^ 8). rewrite <- Z.pow_add_r by lia.
    apply Z.pow_le_mono_r; lia. }
  unfold is_byte in Hb. nia.
Qed.

Lemma be_next bs k k' b :
  0 <= k -> k' = k + 8 -> Forall is_byte bs -> is_byte b ->
  8 * (Z.of_nat (length bs) + 1) + k <= w ->
  wrap w (Z.lor (Z.shiftl (be_val bs) k') (Z.shiftl b k))
    = Z.shiftl (be_val (bs ++ [b])) k.
Proof.
  intros Hk -> Hbs Hb Hw. rewrite be_val_snoc. unfold be_step at 1.
  replace (k + 8) with (8 + k) by lia.
  rewrite <- (Z.shiftl_shiftl _ 8 k), <- Z.shiftl_lor by lia.
  apply wrap_small. rewrite Z.shiftl_mul_pow2 by done.
  pose proof (be_val_bound (bs ++ [b])) as Hv.
  rewrite be_val_snoc, Forall_app, Forall_singleton, length_app in Hv.
  specialize (Hv ltac:(done)). unfold be_step in Hv. simpl in Hv.
  assert (2 ^ (8 * Z.of_nat (length bs + 1)) * 2 ^ k <= 2 ^ w).
  { rewrite <- Z.pow_add_r by lia. apply Z.pow_le_mono_r; lia. }
  assert (0 < 2 ^ k) by (apply Z.pow_pos_nonneg; lia). nia.
Qed.

Lemma be_last bs b :
  Forall is_byte bs -> is_byte b -> 8 * (Z.of_nat (length bs) + 1) <= w ->
  wrap w (Z.lor (Z.shiftl (be_val bs) 8) b) = be_val (bs ++ [b]).
Proof.
  intros. rewrite <- (Z.shiftl_0_r b) at 1.
  rewrite be_next, Z.shiftl_0_r; auto; lia.
Qed.
End be_assembly.

(** Rewrites a C shift-and-or chain over bytes to [be_val]. *)
Ltac be_side :=
  first [ assumption | reflexivity | (simpl; lia)
        | repeat first [assumption | apply Forall_nil_2 | apply Forall_cons_2] ].
Ltac be_norm :=
  repeat first
    [ rewrite be_last by be_side
    | erewrite be_next by be_side
    | rewrite be_first by be_side ];
  cbn [app].
