(* ===== verification/Stream.v ===== *)
(** * FRR stream buffers (components/frr-frr-7.2/lib/stream.c, stream.h)

    The byte buffer every FRR daemon builds and parses its protocol messages
    in.  The state of a [struct stream] is its three offsets and its data
    block; each function of stream.c is a computation over that state, with
    [assert] failures, out-of-bounds accesses and [size_t] wrap-around as in
    the C code.  The specification is a byte queue, and every operation
    refines it. *)

From S2P Require Import Prelude.

(** [struct stream]; [next] belongs to the fifo the stream is queued on
    (file StreamFifo). *)
Record stream : Type := Stream {
  s_getp : Z;
  s_endp : Z;
  s_size : Z;
  s_data : list Z
}.

Definition set_getp (v : Z) (s : stream) : stream :=
  Stream v (s_endp s) (s_size s) (s_data s).
Definition set_endp (v : Z) (s : stream) : stream :=
  Stream (s_getp s) v (s_size s) (s_data s).
Definition set_data (d : list Z) (s : stream) : stream :=
  Stream (s_getp s) (s_endp s) (s_size s) d.

Abbreviation St := (M stream).

(** ** Macros *)

(** [STREAM_SIZE], [STREAM_WRITEABLE], [STREAM_READABLE]: [size_t] arithmetic *)
Definition STREAM_WRITEABLE (s : stream) : Z := usz (s_size s - s_endp s).
Definition STREAM_READABLE (s : stream) : Z := usz (s_endp s - s_getp s).

Definition GETP_VALID (s : stream) (g : Z) : bool := g <=? s_endp s.
Definition PUT_AT_VALID (s : stream) (g : Z) : bool := GETP_VALID s g.
Definition ENDP_VALID (s : stream) (e : Z) : bool := e <=? s_size s.

(** [STREAM_VERIFY_SANE]: two assertions (the warning before them only logs) *)
Definition STREAM_VERIFY_SANE : St unit :=
  s ← mget;
  massert (GETP_VALID s (s_getp s)) ;;
  massert (ENDP_VALID s (s_endp s)).

(** [STREAM_BOUND_WARN] logs, then [assert(0)]. *)
Definition STREAM_BOUND_WARN : St unit := massert false.

(** [STREAM_BOUND_WARN2] only logs. *)
Definition STREAM_BOUND_WARN2 : St unit := mret tt.

(** [CHECK_SIZE(S, Z)]: the truncated size *)
Definition CHECK_SIZE (z : Z) : St Z :=
  s ← mget;
  mret (if s_size s <? usz (s_endp s + z) then usz (s_size s - s_endp s) else z).

(** ** Accesses to [s->data] *)

(** [s->data[i]] *)
Definition data_at (i : Z) : St Z := s ← mget; of_option (block_get (s_data s) i).

(** [s->data[s->getp++]] *)
Definition data_getp_pp : St Z :=
  s ← mget;
  b ← data_at (s_getp s);
  mmodify (set_getp (usz (s_getp s + 1))) ;;
  mret b.

(** [s->data[i] = b] *)
Definition data_put_at (i b : Z) : St unit :=
  s ← mget;
  d ← of_option (block_set (s_data s) i b);
  mmodify (set_data d).

(** [s->data[s->endp++] = b] *)
Definition data_endp_pp (b : Z) : St unit :=
  s ← mget;
  data_put_at (s_endp s) b ;;
  mmodify (set_endp (usz (s_endp s + 1))).

(** [memcpy(dst, s->data + off, n)]: the bytes [dst] receives *)
Definition memcpy_from (off n : Z) : St (list Z) :=
  s ← mget; of_option (block_read (s_data s) off n).

(** [memcpy(s->data + off, src, n)] *)
Definition memcpy_to (off : Z) (src : list Z) (n : Z) : St unit :=
  s ← mget;
  bs ← of_option (block_read src 0 n);
  d ← of_option (block_write (s_data s) off bs);
  mmodify (set_data d).

(** ** Life cycle *)
Section allocation.
(** What the block returned by the allocator holds before it is written:
    [malloc] and [realloc] leave new bytes indeterminate. (Allocation
    failure ends the process in [memory_oom], before the stream code.) *)
Context (malloc_bytes : Z -> list Z).

Definition stream_new (size : Z) : res stream :=
  if bool_decide (0 < size)
  then Ret (Stream 0 0 size (malloc_bytes size)) else AssertFail.

(** [memcpy(new->data, src->data, src->endp)] and the offsets *)
Definition stream_copy (new src : stream) : res stream :=
  '(_, _) ← STREAM_VERIFY_SANE src;
  if bool_decide (s_endp src <= s_size new) then
    '(bs, _) ← memcpy_from 0 (s_endp src) src;
    '(_, new') ← memcpy_to 0 bs (s_endp src)
                   (set_getp (s_getp src) (set_endp (s_endp src) new));
    Ret new'
  else AssertFail.

Definition stream_dup (s : stream) : res stream :=
  '(_, _) ← STREAM_VERIFY_SANE s;
  new ← stream_new (s_endp s);
  stream_copy new s.

Definition stream_dupcat (s1 s2 : stream) (offset : Z) : res stream :=
  '(_, _) ← STREAM_VERIFY_SANE s1;
  '(_, _) ← STREAM_VERIFY_SANE s2;
  new ← stream_new (usz (s_endp s1 + s_endp s2));
  '(a, _) ← memcpy_from 0 offset s1;
  '(_, new) ← memcpy_to 0 a offset new;
  '(b, _) ← memcpy_from 0 (s_endp s2) s2;
  '(_, new) ← memcpy_to offset b (s_endp s2) new;
  let rest := usz (s_endp s1 - offset) in
  '(c, _) ← memcpy_from offset rest s1;
  '(_, new) ← memcpy_to (usz (offset + s_endp s2)) c rest new;
  Ret (set_endp (usz (s_endp s1 + s_endp s2)) new).

(** [realloc] keeps the common prefix of the data. *)
Definition realloc_data (d : list Z) (newsize : Z) : list Z :=
  take (Z.to_nat newsize) d ++ drop (length d) (malloc_bytes newsize).

Definition stream_resize_inplace (newsize : Z) : St Z :=
  STREAM_VERIFY_SANE ;;
  mmodify (fun s => Stream (s_getp s) (s_endp s) newsize
                           (realloc_data (s_data s) newsize)) ;;
  mmodify (fun s => if s_size s <? s_endp s then set_endp (s_size s) s else s) ;;
  mmodify (fun s => if s_endp s <? s_getp s then set_getp (s_endp s) s else s) ;;
  STREAM_VERIFY_SANE ;;
  s ← mget; mret (s_size s).
End allocation.

(** ** Offsets *)

Definition stream_get_getp : St Z := STREAM_VERIFY_SANE ;; s ← mget; mret (s_getp s).
Definition stream_get_endp : St Z := STREAM_VERIFY_SANE ;; s ← mget; mret (s_endp s).
Definition stream_get_size : St Z := STREAM_VERIFY_SANE ;; s ← mget; mret (s_size s).

Definition stream_set_getp (pos : Z) : St unit :=
  STREAM_VERIFY_SANE ;;
  s ← mget;
  pos ← (if negb (GETP_VALID s pos)
         then STREAM_BOUND_WARN ;; mret (s_endp s) else mret pos);
  mmodify (set_getp pos).

Definition stream_set_endp (pos : Z) : St unit :=
  STREAM_VERIFY_SANE ;;
  s ← mget;
  if negb (ENDP_VALID s pos) then STREAM_BOUND_WARN
  else if pos <? s_getp s then STREAM_BOUND_WARN
  else mmodify (set_endp pos) ;; STREAM_VERIFY_SANE.

Definition stream_forward_getp (size : Z) : St unit :=
  STREAM_VERIFY_SANE ;;
  s ← mget;
  if negb (GETP_VALID s (usz (s_getp s + size))) then STREAM_BOUND_WARN
  else mmodify (set_getp (usz (s_getp s + size))).

Definition stream_forward_endp (size : Z) : St unit :=
  STREAM_VERIFY_SANE ;;
  s ← mget;
  if negb (ENDP_VALID s (usz (s_endp s + size))) then STREAM_BOUND_WARN
  else mmodify (set_endp (usz (s_endp s + size))).

Definition stream_empty : St bool :=
  STREAM_VERIFY_SANE ;; s ← mget; mret (s_endp s =? 0).

Definition stream_reset : St unit :=
  STREAM_VERIFY_SANE ;; mmodify (fun s => set_endp 0 (set_getp 0 s)).

(** ** Reading *)

(** [stream_get2]: [None] is the [false] return. *)
Definition stream_get2 (size : Z) : St (option (list Z)) :=
  STREAM_VERIFY_SANE ;;
  s ← mget;
  if STREAM_READABLE s <? size then STREAM_BOUND_WARN2 ;; mret None
  else
    bs ← memcpy_from (s_getp s) size;
    mmodify (set_getp (usz (s_getp s + size))) ;;
    mret (Some bs).

Definition stream_get (size : Z) : St (list Z) :=
  STREAM_VERIFY_SANE ;;
  s ← mget;
  if STREAM_READABLE s <? size then STREAM_BOUND_WARN ;; mret []
  else
    bs ← memcpy_from (s_getp s) size;
    mmodify (set_getp (usz (s_getp s + size))) ;;
    mret bs.

Definition stream_getc2 : St (option Z) :=
  STREAM_VERIFY_SANE ;;
  s ← mget;
  if STREAM_READABLE s <? 1 then STREAM_BOUND_WARN2 ;; mret None
  else b ← data_getp_pp; mret (Some b).

Definition stream_getc : St Z :=
  STREAM_VERIFY_SANE ;;
  s ← mget;
  if STREAM_READABLE s <? 1 then STREAM_BOUND_WARN ;; mret 0
  else c ← data_getp_pp; mret c.

Definition stream_getc_from (from : Z) : St Z :=
  STREAM_VERIFY_SANE ;;
  s ← mget;
  if negb (GETP_VALID s (usz (from + 1))) then STREAM_BOUND_WARN ;; mret 0
  else c ← data_at from; mret c.

(** [w = data[..] << 8; w |= data[..]] on a [uint16_t] *)
Definition stream_getw2 : St (option Z) :=
  STREAM_VERIFY_SANE ;;
  s ← mget;
  if STREAM_READABLE s <? 2 then STREAM_BOUND_WARN2 ;; mret None
  else
    b0 ← data_getp_pp;
    let w := u16 (Z.shiftl b0 8) in
    b1 ← data_getp_pp;
    let w := u16 (Z.lor w b1) in
    mret (Some w).

Definition stream_getw : St Z :=
  STREAM_VERIFY_SANE ;;
  s ← mget;
  if STREAM_READABLE s <? 2 then STREAM_BOUND_WARN ;; mret 0
  else
    b0 ← data_getp_pp;
    let w := u16 (Z.shiftl b0 8) in
    b1 ← data_getp_pp;
    let w := u16 (Z.lor w b1) in
    mret w.

Definition stream_getw_from (from : Z) : St Z :=
  STREAM_VERIFY_SANE ;;
  s ← mget;
  if negb (GETP_VALID s (usz (from + 2))) then STREAM_BOUND_WARN ;; mret 0
  else
    b0 ← data_at from;
    let w := u16 (Z.shiftl b0 8) in
    b1 ← data_at (usz (from + 1));
    let w := u16 (Z.lor w b1) in
    mret w.

Definition stream_get3_from (from : Z) : St Z :=
  STREAM_VERIFY_SANE ;;
  s ← mget;
  if negb (GETP_VALID s (usz (from + 3))) then STREAM_BOUND_WARN ;; mret 0
  else
    b0 ← data_at from;
    let l := u32 (Z.shiftl b0 16) in
    b1 ← data_at (usz (from + 1));
    let l := u32 (Z.lor l (Z.shiftl b1 8)) in
    b2 ← data_at (usz (from + 2));
    let l := u32 (Z.lor l b2) in
    mret l.

Definition stream_get3 : St Z :=
  STREAM_VERIFY_SANE ;;
  s ← mget;
  if STREAM_READABLE s <? 3 then STREAM_BOUND_WARN ;; mret 0
  else
    b0 ← data_getp_pp;
    let l := u32 (Z.shiftl b0 16) in
    b1 ← data_getp_pp;
    let l := u32 (Z.lor l (Z.shiftl b1 8)) in
    b2 ← data_getp_pp;
    let l := u32 (Z.lor l b2) in
    mret l.

Definition stream_getl_from (from : Z) : St Z :=
  STREAM_VERIFY_SANE ;;
  s ← mget;
  if negb (GETP_VALID s (usz (from + 4))) then STREAM_BOUND_WARN ;; mret 0
  else
    b0 ← data_at from;
    let l := u32 (Z.shiftl b0 24) in
    b1 ← data_at (usz (from + 1));
    let l := u32 (Z.lor l (Z.shiftl b1 16)) in
    b2 ← data_at (usz (from + 2));
    let l := u32 (Z.lor l (Z.shiftl b2 8)) in
    b3 ← data_at (usz (from + 3));
    let l := u32 (Z.lor l b3) in
    mret l.

Definition stream_get_from (from size : Z) : St (list Z) :=
  STREAM_VERIFY_SANE ;;
  s ← mget;
  if negb (GETP_VALID s (usz (from + size))) then STREAM_BOUND_WARN ;; mret []
  else memcpy_from from size.

(** The four reads shared by [stream_getl] and [stream_getl2]. *)
Definition read_be32 : St Z :=
  b0 ← data_getp_pp;
  let l := u32 (Z.shiftl b0 24) in
  b1 ← data_getp_pp;
  let l := u32 (Z.lor l (Z.shiftl b1 16)) in
  b2 ← data_getp_pp;
  let l := u32 (Z.lor l (Z.shiftl b2 8)) in
  b3 ← data_getp_pp;
  let l := u32 (Z.lor l b3) in
  mret l.

Definition stream_getl2 : St (option Z) :=
  STREAM_VERIFY_SANE ;;
  s ← mget;
  if STREAM_READABLE s <? 4 then STREAM_BOUND_WARN2 ;; mret None
  else l ← read_be32; mret (Some l).

Definition stream_getl : St Z :=
  STREAM_VERIFY_SANE ;;
  s ← mget;
  if STREAM_READABLE s <? 4 then STREAM_BOUND_WARN ;; mret 0
  else l ← read_be32; mret l.

Definition stream_getq_from (from : Z) : St Z :=
  STREAM_VERIFY_SANE ;;
  s ← mget;
  if negb (GETP_VALID s (usz (from + 8))) then STREAM_BOUND_WARN ;; mret 0
  else
    b0 ← data_at from;
    let q := u64 (Z.shiftl b0 56) in
    b1 ← data_at (usz (from + 1));
    let q := u64 (Z.lor q (Z.shiftl b1 48)) in
    b2 ← data_at (usz (from + 2));
    let q := u64 (Z.lor q (Z.shiftl b2 40)) in
    b3 ← data_at (usz (from + 3));
    let q := u64 (Z.lor q (Z.shiftl b3 32)) in
    b4 ← data_at (usz (from + 4));
    let q := u64 (Z.lor q (Z.shiftl b4 24)) in
    b5 ← data_at (usz (from + 5));
    let q := u64 (Z.lor q (Z.shiftl b5 16)) in
    b6 ← data_at (usz (from + 6));
    let q := u64 (Z.lor q (Z.shiftl b6 8)) in
    b7 ← data_at (usz (from + 7));
    let q := u64 (Z.lor q b7) in
    mret q.

Definition stream_getq : St Z :=
  STREAM_VERIFY_SANE ;;
  s ← mget;
  if STREAM_READABLE s <? 8 then STREAM_BOUND_WARN ;; mret 0
  else
    b0 ← data_getp_pp;
    let q := u64 (Z.shiftl b0 56) in
    b1 ← data_getp_pp;
    let q := u64 (Z.lor q (Z.shiftl b1 48)) in
    b2 ← data_getp_pp;
    let q := u64 (Z.lor q (Z.shiftl b2 40)) in
    b3 ← data_getp_pp;
    let q := u64 (Z.lor q (Z.shiftl b3 32)) in
    b4 ← data_getp_pp;
    let q := u64 (Z.lor q (Z.shiftl b4 24)) in
    b5 ← data_getp_pp;
    let q := u64 (Z.lor q (Z.shiftl b5 16)) in
    b6 ← data_getp_pp;
    let q := u64 (Z.lor q (Z.shiftl b6 8)) in
    b7 ← data_getp_pp;
    let q := u64 (Z.lor q b7) in
    mret q.

(** [stream_get_ipv4]: the four bytes of the address, as [memcpy] leaves them *)
Definition stream_get_ipv4 : St (list Z) :=
  STREAM_VERIFY_SANE ;;
  s ← mget;
  if STREAM_READABLE s <? 4 then STREAM_BOUND_WARN ;; mret []
  else
    l ← memcpy_from (s_getp s) 4;
    mmodify (set_getp (usz (s_getp s + 4))) ;;
    mret l.

(** ** Writing at the end *)

(** [stream_put]; [None] is the [NULL] source, which zero-fills. *)
Definition stream_put (src : option (list Z)) (size : Z) : St unit :=
  size ← CHECK_SIZE size;
  STREAM_VERIFY_SANE ;;
  s ← mget;
  if STREAM_WRITEABLE s <? size then STREAM_BOUND_WARN
  else
    (match src with
     | Some p => memcpy_to (s_endp s) p size
     | None => memcpy_to (s_endp s) (replicate (Z.to_nat size) 0) size
     end) ;;
    mmodify (set_endp (usz (s_endp s + size))).

Definition stream_putc (c : Z) : St Z :=
  STREAM_VERIFY_SANE ;;
  s ← mget;
  if STREAM_WRITEABLE s <? 1 then STREAM_BOUND_WARN ;; mret 0
  else data_endp_pp c ;; mret 1.

Definition stream_putw (w : Z) : St Z :=
  STREAM_VERIFY_SANE ;;
  s ← mget;
  if STREAM_WRITEABLE s <? 2 then STREAM_BOUND_WARN ;; mret 0
  else
    data_endp_pp (u8 (Z.shiftr w 8)) ;;
    data_endp_pp (u8 w) ;;
    mret 2.

Definition stream_put3 (l : Z) : St Z :=
  STREAM_VERIFY_SANE ;;
  s ← mget;
  if STREAM_WRITEABLE s <? 3 then STREAM_BOUND_WARN ;; mret 0
  else
    data_endp_pp (u8 (Z.shiftr l 16)) ;;
    data_endp_pp (u8 (Z.shiftr l 8)) ;;
    data_endp_pp (u8 l) ;;
    mret 3.

(** The four byte stores of [stream_putl] and of the add-path identifier. *)
Definition write_be32 (l : Z) : St unit :=
  data_endp_pp (u8 (Z.shiftr l 24)) ;;
  data_endp_pp (u8 (Z.shiftr l 16)) ;;
  data_endp_pp (u8 (Z.shiftr l 8)) ;;
  data_endp_pp (u8 l).

Definition stream_putl (l : Z) : St Z :=
  STREAM_VERIFY_SANE ;;
  s ← mget;
  if STREAM_WRITEABLE s <? 4 then STREAM_BOUND_WARN ;; mret 0
  else write_be32 l ;; mret 4.

Definition stream_putq (q : Z) : St Z :=
  STREAM_VERIFY_SANE ;;
  s ← mget;
  if STREAM_WRITEABLE s <? 8 then STREAM_BOUND_WARN ;; mret 0
  else
    data_endp_pp (u8 (Z.shiftr q 56)) ;;
    data_endp_pp (u8 (Z.shiftr q 48)) ;;
    data_endp_pp (u8 (Z.shiftr q 40)) ;;
    data_endp_pp (u8 (Z.shiftr q 32)) ;;
    data_endp_pp (u8 (Z.shiftr q 24)) ;;
    data_endp_pp (u8 (Z.shiftr q 16)) ;;
    data_endp_pp (u8 (Z.shiftr q 8)) ;;
    data_endp_pp (u8 q) ;;
    mret 8.

(** [stream_put_ipv4] and [stream_put_in_addr] copy the four bytes of their
    argument as they are in memory. *)
Definition stream_put_ipv4 (l : list Z) : St Z :=
  STREAM_VERIFY_SANE ;;
  s ← mget;
  if STREAM_WRITEABLE s <? 4 then STREAM_BOUND_WARN ;; mret 0
  else
    memcpy_to (s_endp s) l 4 ;;
    mmodify (set_endp (usz (s_endp s + 4))) ;;
    mret 4.

Definition stream_put_in_addr (addr : list Z) : St Z :=
  STREAM_VERIFY_SANE ;;
  s ← mget;
  if STREAM_WRITEABLE s <? 4 then STREAM_BOUND_WARN ;; mret 0
  else
    memcpy_to (s_endp s) addr 4 ;;
    mmodify (set_endp (usz (s_endp s + 4))) ;;
    mret 4.

Definition stream_write (ptr : list Z) (size : Z) : St Z :=
  size ← CHECK_SIZE size;
  STREAM_VERIFY_SANE ;;
  s ← mget;
  if STREAM_WRITEABLE s <? size then STREAM_BOUND_WARN ;; mret 0
  else
    memcpy_to (s_endp s) ptr size ;;
    mmodify (set_endp (usz (s_endp s + size))) ;;
    mret size.

(** ** Writing at a position already filled *)

Definition stream_putc_at (putp c : Z) : St Z :=
  STREAM_VERIFY_SANE ;;
  s ← mget;
  if negb (PUT_AT_VALID s (usz (putp + 1))) then STREAM_BOUND_WARN ;; mret 0
  else data_put_at putp c ;; mret 1.

Definition stream_putw_at (putp w : Z) : St Z :=
  STREAM_VERIFY_SANE ;;
  s ← mget;
  if negb (PUT_AT_VALID s (usz (putp + 2))) then STREAM_BOUND_WARN ;; mret 0
  else
    data_put_at putp (u8 (Z.shiftr w 8)) ;;
    data_put_at (usz (putp + 1)) (u8 w) ;;
    mret 2.

Definition stream_put3_at (putp l : Z) : St Z :=
  STREAM_VERIFY_SANE ;;
  s ← mget;
  if negb (PUT_AT_VALID s (usz (putp + 3))) then STREAM_BOUND_WARN ;; mret 0
  else
    data_put_at putp (u8 (Z.shiftr l 16)) ;;
    data_put_at (usz (putp + 1)) (u8 (Z.shiftr l 8)) ;;
    data_put_at (usz (putp + 2)) (u8 l) ;;
    mret 3.

Definition stream_putl_at (putp l : Z) : St Z :=
  STREAM_VERIFY_SANE ;;
  s ← mget;
  if negb (PUT_AT_VALID s (usz (putp + 4))) then STREAM_BOUND_WARN ;; mret 0
  else
    data_put_at putp (u8 (Z.shiftr l 24)) ;;
    data_put_at (usz (putp + 1)) (u8 (Z.shiftr l 16)) ;;
    data_put_at (usz (putp + 2)) (u8 (Z.shiftr l 8)) ;;
    data_put_at (usz (putp + 3)) (u8 l) ;;
    mret 4.

Definition stream_putq_at (putp q : Z) : St Z :=
  STREAM_VERIFY_SANE ;;
  s ← mget;
  if negb (PUT_AT_VALID s (usz (putp + 8))) then STREAM_BOUND_WARN ;; mret 0
  else
    data_put_at putp (u8 (Z.shiftr q 56)) ;;
    data_put_at (usz (putp + 1)) (u8 (Z.shiftr q 48)) ;;
    data_put_at (usz (putp + 2)) (u8 (Z.shiftr q 40)) ;;
    data_put_at (usz (putp + 3)) (u8 (Z.shiftr q 32)) ;;
    data_put_at (usz (putp + 4)) (u8 (Z.shiftr q 24)) ;;
    data_put_at (usz (putp + 5)) (u8 (Z.shiftr q 16)) ;;
    data_put_at (usz (putp + 6)) (u8 (Z.shiftr q 8)) ;;
    data_put_at (usz (putp + 7)) (u8 q) ;;
    mret 8.

Definition stream_put_in_addr_at (putp : Z) (addr : list Z) : St Z :=
  STREAM_VERIFY_SANE ;;
  s ← mget;
  if negb (PUT_AT_VALID s (usz (putp + 4))) then STREAM_BOUND_WARN ;; mret 0
  else memcpy_to putp addr 4 ;; mret 4.

Definition stream_put_in6_addr_at (putp : Z) (addr : list Z) : St Z :=
  STREAM_VERIFY_SANE ;;
  s ← mget;
  if negb (PUT_AT_VALID s (usz (putp + 16))) then STREAM_BOUND_WARN ;; mret 0
  else memcpy_to putp addr 16 ;; mret 16.

(** ** Prefixes in NLRI format *)

(** [struct prefix] as these functions use it: the [uint16_t] length and the
    bytes of the union [u]. *)
Record prefix : Type := Prefix { p_prefixlen : Z; p_u : list Z }.

(** [PSIZE(a) = (a + 7) / 8], prefix.h *)
Definition PSIZE (a : Z) : Z := (a + 7) / 8.

Definition stream_put_prefix_addpath (p : prefix) (addpath_encode : bool)
    (addpath_tx_id : Z) : St Z :=
  STREAM_VERIFY_SANE ;;
  let psize := PSIZE (p_prefixlen p) in
  let psize_with_addpath := if addpath_encode then psize + 4 else psize in
  s ← mget;
  if STREAM_WRITEABLE s <? psize_with_addpath + 1
  then STREAM_BOUND_WARN ;; mret 0
  else
    mwhen addpath_encode (write_be32 addpath_tx_id) ;;
    data_endp_pp (u8 (p_prefixlen p)) ;;
    s ← mget;
    memcpy_to (s_endp s) (p_u p) psize ;;
    mmodify (set_endp (usz (s_endp s + psize))) ;;
    mret psize.

Definition stream_put_prefix (p : prefix) : St Z :=
  stream_put_prefix_addpath p false 0.

(** [label_pnt] are the bytes of the [mpls_label_t] the caller points at. *)
Definition stream_put_labeled_prefix (p : prefix) (label_pnt : list Z)
    (addpath_encode : bool) (addpath_tx_id : Z) : St Z :=
  STREAM_VERIFY_SANE ;;
  let psize := PSIZE (p_prefixlen p) in
  let psize_with_addpath := psize + (if addpath_encode then 4 else 0) in
  s ← mget;
  if STREAM_WRITEABLE s <? psize_with_addpath + 3
  then STREAM_BOUND_WARN ;; mret 0
  else
    mwhen addpath_encode (write_be32 addpath_tx_id) ;;
    stream_putc (u8 (p_prefixlen p + 24)) ;;
    l0 ← of_option (block_get label_pnt 0);
    stream_putc l0 ;;
    l1 ← of_option (block_get label_pnt 1);
    stream_putc l1 ;;
    l2 ← of_option (block_get label_pnt 2);
    stream_putc l2 ;;
    s ← mget;
    memcpy_to (s_endp s) (p_u p) psize ;;
    mmodify (set_endp (usz (s_endp s + psize))) ;;
    mret (psize + 3).

(** ** Reading from a file descriptor *)

(** What [read], [readn], [recvfrom] or [recvmsg] reported: the bytes stored
    through the buffer pointer, or an error with [ERRNO_IO_RETRY(errno)]. *)
Inductive io_result : Type :=
  | IoBytes (bs : list Z)
  | IoError (retry : bool).

Definition stream_read (size : Z) (io : io_result) : St Z :=
  STREAM_VERIFY_SANE ;;
  s ← mget;
  if STREAM_WRITEABLE s <? size then STREAM_BOUND_WARN ;; mret 0
  else
    match io with
    | IoBytes bs =>
        let nbytes := Z.of_nat (length bs) in
        memcpy_to (s_endp s) bs nbytes ;;
        mwhen (0 <? nbytes) (mmodify (set_endp (usz (s_endp s + nbytes)))) ;;
        mret nbytes
    | IoError _ => mret (-1)
    end.

Definition stream_read_try (size : Z) (io : io_result) : St Z :=
  STREAM_VERIFY_SANE ;;
  s ← mget;
  if STREAM_WRITEABLE s <? size then STREAM_BOUND_WARN ;; mret (-1)
  else
    match io with
    | IoBytes bs =>
        let nbytes := Z.of_nat (length bs) in
        memcpy_to (s_endp s) bs nbytes ;;
        mmodify (set_endp (usz (s_endp s + nbytes))) ;;
        mret nbytes
    | IoError retry => if retry then mret (-2) else mret (-1)
    end.

(** [stream_recvfrom] differs from [stream_read_try] only in the system call. *)
Definition stream_recvfrom (size : Z) (io : io_result) : St Z :=
  STREAM_VERIFY_SANE ;;
  s ← mget;
  if STREAM_WRITEABLE s <? size then STREAM_BOUND_WARN ;; mret (-1)
  else
    match io with
    | IoBytes bs =>
        let nbytes := Z.of_nat (length bs) in
        memcpy_to (s_endp s) bs nbytes ;;
        mmodify (set_endp (usz (s_endp s + nbytes))) ;;
        mret nbytes
    | IoError retry => if retry then mret (-2) else mret (-1)
    end.

Definition stream_recvmsg (size msg_iovlen : Z) (io : io_result) : St Z :=
  STREAM_VERIFY_SANE ;;
  massert (0 <? msg_iovlen) ;;
  s ← mget;
  if STREAM_WRITEABLE s <? size then STREAM_BOUND_WARN ;; mret (-1)
  else
    match io with
    | IoBytes bs =>
        let nbytes := Z.of_nat (length bs) in
        memcpy_to (s_endp s) bs nbytes ;;
        mwhen (0 <? nbytes) (mmodify (set_endp (usz (s_endp s + nbytes)))) ;;
        mret nbytes
    | IoError _ => mret (-1)
    end.

(** The buffer [stream_flush] hands to [write]. *)
Definition stream_flush : St (list Z) :=
  STREAM_VERIFY_SANE ;;
  s ← mget;
  memcpy_from (s_getp s) (usz (s_endp s - s_getp s)).
