(* ===== verification/StreamRefine.v ===== *)
(** * The byte-queue specification of FRR streams

    [queue] is the abstract state a stream promises: the bytes already read,
    the bytes still to be read, and the room left.  [abs] reads it off a
    concrete stream, [stream_ok] is the invariant stream.c asserts
    ([getp <= endp <= size]) together with what its types say. *)

From S2P Require Import Prelude Stream.

Record queue : Type := Queue {
  q_done : list Z;
  q_pend : list Z;
  q_room : Z
}.

Definition q_push (bs : list Z) (q : queue) : queue :=
  Queue (q_done q) (q_pend q ++ bs) (q_room q - Z.of_nat (length bs)).

Definition q_pop (n : nat) (q : queue) : queue :=
  Queue (q_done q ++ take n (q_pend q)) (drop n (q_pend q)) (q_room q).

Definition abs (s : stream) : queue :=
  Queue (take (Z.to_nat (s_getp s)) (s_data s))
        (take (Z.to_nat (s_endp s - s_getp s)) (drop (Z.to_nat (s_getp s)) (s_data s)))
        (s_size s - s_endp s).

Record stream_ok (s : stream) : Prop := {
  ok_getp : 0 <= s_getp s <= s_endp s;
  ok_endp : s_endp s <= s_size s;
  ok_size : s_size s < 2 ^ 63;  (* no object is larger than PTRDIFF_MAX *)
  ok_data : Z.of_nat (length (s_data s)) = s_size s;
  ok_bytes : Forall is_byte (s_data s)
}.

(** ** The abstract queue *)

Lemma q_push_nil q : q_push [] q = q.
Proof. destruct q. unfold q_push. simpl. f_equal; [by rewrite app_nil_r|lia]. Qed.

Lemma q_push_push a b q : q_push b (q_push a q) = q_push (a ++ b) q.
Proof.
  unfold q_push. simpl. f_equal; [by rewrite app_assoc|].
  rewrite length_app. lia.
Qed.

Lemma q_pop_0 q : q_pop 0 q = q.
Proof. destruct q. unfold q_pop. simpl. by rewrite take_0, app_nil_r. Qed.

Lemma take_take_drop_add {A} (l : list A) n m :
  take n l ++ take m (drop n l) = take (n + m) l.
Proof. revert l. induction n as [|n IH]; intros [|x l]; simpl; rewrite ?take_nil; f_equal; auto. Qed.

Lemma q_pop_pop n m q : q_pop m (q_pop n q) = q_pop (n + m) q.
Proof.
  unfold q_pop. simpl. by rewrite <- app_assoc, take_take_drop_add, drop_drop.
Qed.

Lemma q_pend_pop n q : q_pend (q_pop n q) = drop n (q_pend q).
Proof. done. Qed.

(** ** Facts about well-formed streams *)

Section ok.
Context (s : stream) (Hok : stream_ok s).

Lemma length_pend : Z.of_nat (length (q_pend (abs s))) = s_endp s - s_getp s.
Proof. destruct Hok. simpl. rewrite length_take, length_drop. lia. Qed.

Lemma readable_ok : STREAM_READABLE s = Z.of_nat (length (q_pend (abs s))).
Proof.
  rewrite length_pend. destruct Hok. unfold STREAM_READABLE.
  apply wrap_small. lia.
Qed.

Lemma writeable_ok : STREAM_WRITEABLE s = q_room (abs s).
Proof. destruct Hok. unfold STREAM_WRITEABLE. simpl. apply wrap_small. lia. Qed.

Lemma room_bounds : 0 <= q_room (abs s) < 2 ^ 63.
Proof. destruct Hok. simpl. lia. Qed.

Lemma sane_ok : STREAM_VERIFY_SANE s = Ret (tt, s).
Proof.
  destruct Hok. unfold STREAM_VERIFY_SANE, GETP_VALID, ENDP_VALID.
  rewrite (bind_ret_eq _ _ s s s), (bind_ret_eq _ _ s tt s); [| |done];
    apply massert_true; lia.
Qed.

Lemma runs_sane (Q : unit -> stream -> Prop) : Q tt s -> runs STREAM_VERIFY_SANE s Q.
Proof. intros. exists tt, s. by rewrite sane_ok. Qed.

Lemma pend_bytes : Forall is_byte (q_pend (abs s)).
Proof. destruct Hok. simpl. by apply Forall_take, Forall_drop. Qed.

Lemma pend_lookup i :
  (i < length (q_pend (abs s)))%nat ->
  q_pend (abs s) !! i = s_data s !! (Z.to_nat (s_getp s) + i)%nat.
Proof.
  intros Hi. pose proof length_pend as Hl. destruct Hok.
  unfold abs, q_pend in *. rewrite lookup_take_lt by lia. by rewrite lookup_drop.
Qed.

(** Writing [src] at [endp] and moving [endp] appends [src]. *)
Lemma abs_append src d :
  block_write (s_data s) (s_endp s) src = Some d -> Forall is_byte src ->
  let s' := Stream (s_getp s) (s_endp s + Z.of_nat (length src)) (s_size s) d in
  stream_ok s' /\ abs s' = q_push src (abs s).
Proof.
  intros Hw Hsrc s'. pose proof (block_write_length _ _ _ _ Hw) as Hlen.
  unfold block_write in Hw. case_bool_decide as Hb; [|done].
  injection Hw as Hd. destruct Hok as [Hg He Hs Hdl Hby].
  split.
  - split; simpl; [lia|lia|lia|lia|]. subst d.
    rewrite !Forall_app. split_and!; [by apply Forall_take|done|by apply Forall_drop].
  - unfold abs, q_push, s'. simpl. f_equal; [| |lia].
    + subst d. rewrite take_app_le by (rewrite length_take; lia).
      rewrite take_take. f_equal. lia.
    + subst d. rewrite drop_app_le by (rewrite length_take; lia).
      replace (Z.to_nat (s_endp s + Z.of_nat (length src) - s_getp s))
        with (Z.to_nat (s_endp s - s_getp s) + length src)%nat by lia.
      rewrite app_assoc, take_app_length'
        by (rewrite length_app, length_drop, length_take; lia).
      rewrite skipn_firstn_comm. do 2 f_equal. lia.
Qed.
End ok.

(** ** The accesses, as queue operations *)

Lemma runs_data_getp_pp s b rest (Q : Z -> stream -> Prop) :
  stream_ok s -> q_pend (abs s) = b :: rest ->
  (forall s', stream_ok s' -> abs s' = q_pop 1 (abs s) ->
     s' = set_getp (s_getp s + 1) s -> is_byte b -> Q b s') ->
  runs data_getp_pp s Q.
Proof.
  intros Hok Hp HQ.
  pose proof (length_pend s Hok) as Hl. pose proof (pend_lookup s Hok 0) as H0.
  pose proof (pend_bytes s Hok) as Hb. rewrite Hp in Hl, H0, Hb. simpl in Hl, H0.
  rewrite Nat.add_0_r in H0. specialize (H0 ltac:(lia)).
  apply Forall_cons in Hb as [Hb _]. destruct Hok as [Hg He Hs Hd Hby].
  assert (Hw : usz (s_getp s + 1) = s_getp s + 1) by (apply wrap_small; lia).
  unfold data_getp_pp, data_at. msteps.
  apply (runs_of_option _ b); [by rewrite block_get_lookup by lia|].
  msteps. rewrite Hw. apply HQ; [|..|done|done].
  - split; simpl; try lia. done.
  - unfold abs, q_pop. simpl in *.
    replace (Z.to_nat (s_getp s + 1)) with (S (Z.to_nat (s_getp s))) by lia.
    replace (Z.to_nat (s_endp s - s_getp s))
      with (S (Z.to_nat (s_endp s - (s_getp s + 1)))) by lia.
    symmetry in H0. f_equal.
    + rewrite (take_S_r _ _ b) by done. f_equal. by rewrite (drop_S _ b) by done.
    + rewrite (drop_S (s_data s) b (Z.to_nat (s_getp s))) by exact H0. reflexivity.
Qed.

Lemma block_set_write {A} (l : list A) i x :
  block_set l i x = block_write l i [x].
Proof.
  unfold block_set, block_write. simpl.
  repeat case_bool_decide; [|lia|lia|done]. f_equal.
  rewrite insert_take_drop by lia. by rewrite Nat.add_1_r.
Qed.

Lemma runs_memcpy_to_endp s src n (Q : unit -> stream -> Prop) :
  stream_ok s -> Forall is_byte src -> 0 <= n <= Z.of_nat (length src) ->
  n <= q_room (abs s) ->
  (forall s', stream_ok (set_endp (s_endp s + n) s') ->
     abs (set_endp (s_endp s + n) s') = q_push (take (Z.to_nat n) src) (abs s) ->
     s_endp s' = s_endp s -> Q tt s') ->
  runs (memcpy_to (s_endp s) src n) s Q.
Proof.
  intros Hok Hby Hn Hr HQ. unfold memcpy_to. msteps. simpl in Hr.
  eapply runs_of_option; [apply block_read_Some; lia|]. rewrite drop_0.
  set (bs := take _ src). assert (Hbs : Z.of_nat (length bs) = n).
  { unfold bs. rewrite length_take. lia. }
  msteps. eapply runs_of_option.
  { destruct Hok. apply block_write_Some; [lia|]. rewrite Hbs. lia. }
  msteps. cbn [set_data s_getp s_endp s_size s_data].
  destruct (abs_append s Hok bs _ ltac:(apply block_write_Some;
    destruct Hok; rewrite ?Hbs; lia)) as [Hok' Habs'].
  { by apply Forall_take. }
  rewrite Hbs in Hok', Habs'. by apply HQ.
Qed.

Lemma runs_data_endp_pp s b (Q : unit -> stream -> Prop) :
  stream_ok s -> is_byte b -> 0 < q_room (abs s) ->
  (forall s', stream_ok s' -> abs s' = q_push [b] (abs s) -> Q tt s') ->
  runs (data_endp_pp b) s Q.
Proof.
  intros Hok Hb Hr HQ. unfold data_endp_pp, data_put_at. msteps.
  rewrite block_set_write. simpl in Hr.
  assert (Hw := block_write_Some (s_data s) (s_endp s) [b]).
  destruct (id Hok) as [Hg He Hs Hd Hby]. simpl in Hw.
  specialize (Hw ltac:(lia) ltac:(lia)).
  eapply runs_of_option; [exact Hw|].
  msteps. cbn [set_data set_endp s_getp s_endp s_size s_data].
  rewrite wrap_small by lia.
  destruct (abs_append s Hok [b] _ Hw) as [Hok' Habs']; [by apply Forall_singleton|].
  by apply HQ.
Qed.

(** ** Every sequential stream operation refines the byte queue

    [sop] lists the put and get functions of stream.c that work at the two
    offsets; [queue_step] says what each does to the abstract queue, and
    [stream_refines_queue] proves that the C code does exactly that and
    nothing else, failing its assertion in the one case where the queue
    operation is not possible. *)
(** ** Decoding and encoding steps *)

(** Consuming a list of pending bytes one [data_getp_pp] at a time. *)
Ltac get_byte b :=
  cbv beta zeta;
  apply runs_bind; eapply (runs_data_getp_pp _ b);
  [ eassumption
  | match goal with H : abs ?s = _ |- q_pend (abs ?s) = _ => rewrite H end;
    rewrite ?q_pop_pop, ?q_pend_pop;
    match goal with H : q_pend (abs _) = _ |- _ => rewrite H end; reflexivity
  | let s := fresh "s" in let Hok := fresh "Hok" in let Ha := fresh "Ha" in
    intros s Hok Ha _ ?;
    lazymatch type of Ha with abs _ = q_pop _ (abs ?s1) =>
      match goal with H : abs s1 = _ |- _ =>
        rewrite H in Ha; rewrite ?q_pop_pop in Ha; clear H end end ].

Ltac get_bytes_start s :=
  let Ha := fresh "Ha" in
  assert (Ha : abs s = q_pop 0 (abs s)) by (by rewrite q_pop_0).

Section decode.
Context (s : stream) (Hok : stream_ok s) (rest : list Z).

Lemma runs_get1 b0 (Q : Z -> stream -> Prop) :
  q_pend (abs s) = [b0] ++ rest ->
  (forall s', stream_ok s' -> abs s' = q_pop 1 (abs s) -> Q b0 s') ->
  runs data_getp_pp s Q.
Proof.
  intros Hp HQ. eapply runs_data_getp_pp; [done..|]. intros. by apply HQ.
Qed.

Lemma runs_read_be32 b0 b1 b2 b3 (Q : Z -> stream -> Prop) :
  q_pend (abs s) = [b0; b1; b2; b3] ++ rest ->
  (forall s', stream_ok s' -> abs s' = q_pop 4 (abs s) ->
     Q (be_val [b0; b1; b2; b3]) s') ->
  runs read_be32 s Q.
Proof.
  intros Hp HQ. unfold read_be32. get_bytes_start s.
  get_byte b0. get_byte b1. get_byte b2. get_byte b3.
  be_norm. apply runs_ret. by apply HQ.
Qed.
End decode.

(** Appending one byte with [data_endp_pp]. *)
Ltac put_byte :=
  cbv beta zeta;
  lazymatch goal with |- runs (_ ≫= _) _ _ => apply runs_bind | _ => idtac end;
  eapply runs_data_endp_pp;
  [ eassumption
  | first [ assumption | apply (wrap_bounds 8); lia ]
  | match goal with H : abs ?s = _ |- 0 < q_room (abs ?s) => rewrite H end;
    cbn [q_push q_room length app]; lia
  | let s := fresh "s" in let Hok := fresh "Hok" in let Ha := fresh "Ha" in
    intros s Hok Ha;
    lazymatch type of Ha with abs _ = q_push _ (abs ?s1) =>
      match goal with H : abs s1 = _ |- _ =>
        rewrite H in Ha; rewrite ?q_push_push in Ha; cbn [app] in Ha; clear H end end ].

Section encode.
Context (s : stream) (Hok : stream_ok s).

Lemma runs_write_be32 l (Q : unit -> stream -> Prop) :
  4 <= q_room (abs s) ->
  (forall s', stream_ok s' -> abs s' = q_push (be_bytes 4 l) (abs s) -> Q tt s') ->
  runs (write_be32 l) s Q.
Proof.
  intros Hr HQ. unfold write_be32.
  assert (Ha : abs s = q_push [] (abs s)) by (by rewrite q_push_nil).
  put_byte. put_byte. put_byte. put_byte.
  apply HQ; [done|]. simpl. by rewrite Z.shiftr_0_r.
Qed.
End encode.

(** ** The operations *)

(** The arguments of a call; a byte block is passed with its own length. *)
Inductive sop : Type :=
  | PutC (c : Z) | PutW (w : Z) | Put3 (l : Z) | PutL (l : Z) | PutQ (q : Z)
  | PutIPv4 (addr : list Z) | PutInAddr (addr : list Z)
  | Put (src : list Z) | PutZero (n : Z) | Write (src : list Z)
  | GetC | GetW | Get3 | GetL | GetQ | GetIPv4 | Get (n : Z)
  | GetC2 | GetW2 | GetL2 | Get2 (n : Z).

(** What a call returns. *)
Inductive sval : Type :=
  | VInt (z : Z)
  | VBytes (bs : list Z)
  | VUnit
  | VFalse.

Definition vopt {A} (f : A -> sval) (o : option A) : sval :=
  match o with Some a => f a | None => VFalse end.

Definition ret_as {A} (f : A -> sval) (m : St A) : St sval := a ← m; mret (f a).

Definition sop_run (o : sop) : St sval :=
  match o with
  | PutC c => ret_as VInt (stream_putc c)
  | PutW w => ret_as VInt (stream_putw w)
  | Put3 l => ret_as VInt (stream_put3 l)
  | PutL l => ret_as VInt (stream_putl l)
  | PutQ q => ret_as VInt (stream_putq q)
  | PutIPv4 a => ret_as VInt (stream_put_ipv4 a)
  | PutInAddr a => ret_as VInt (stream_put_in_addr a)
  | Put src => ret_as (fun _ => VUnit) (stream_put (Some src) (Z.of_nat (length src)))
  | PutZero n => ret_as (fun _ => VUnit) (stream_put None n)
  | Write src => ret_as VInt (stream_write src (Z.of_nat (length src)))
  | GetC => ret_as VInt stream_getc
  | GetW => ret_as VInt stream_getw
  | Get3 => ret_as VInt stream_get3
  | GetL => ret_as VInt stream_getl
  | GetQ => ret_as VInt stream_getq
  | GetIPv4 => ret_as VBytes stream_get_ipv4
  | Get n => ret_as VBytes (stream_get n)
  | GetC2 => ret_as (vopt VInt) stream_getc2
  | GetW2 => ret_as (vopt VInt) stream_getw2
  | GetL2 => ret_as (vopt VInt) stream_getl2
  | Get2 n => ret_as (vopt VBytes) (stream_get2 n)
  end.

(** The arguments have their C types. *)
Definition sop_typed (o : sop) : Prop :=
  match o with
  | PutC c => is_byte c
  | PutIPv4 a | PutInAddr a => Forall is_byte a /\ length a = 4%nat
  | Put src | Write src => Forall is_byte src /\ Z.of_nat (length src) < 2 ^ 63
  | PutZero n => 0 <= n < 2 ^ 63
  | Get n | Get2 n => 0 <= n < 2 ^ 64
  | _ => True
  end.

(** ** The specification *)

(** A fixed-width put: all of it, or an assertion failure. *)
Definition q_put (bs : list Z) (q : queue) : option (sval * queue) :=
  if decide (q_room q < Z.of_nat (length bs)) then None
  else Some (VInt (Z.of_nat (length bs)), q_push bs q).

(** A block put silently drops what does not fit. *)
Definition q_put_trunc (v : list Z -> sval) (bs : list Z) (q : queue)
    : option (sval * queue) :=
  let kept := take (Z.to_nat (q_room q)) bs in
  Some (v kept, q_push kept q).

(** A get of [n] bytes decoded by [v]. *)
Definition q_get (v : list Z -> sval) (n : nat) (q : queue) : option (sval * queue) :=
  if decide (length (q_pend q) < n)%nat then None
  else Some (v (take n (q_pend q)), q_pop n q).

(** A get of the family that reports failure instead of asserting. *)
Definition q_get2 (v : list Z -> sval) (n : nat) (q : queue) : option (sval * queue) :=
  if decide (length (q_pend q) < n)%nat then Some (VFalse, q)
  else Some (v (take n (q_pend q)), q_pop n q).

Definition v_be (bs : list Z) : sval := VInt (be_val bs).
Definition v_len (bs : list Z) : sval := VInt (Z.of_nat (length bs)).

Definition queue_step (o : sop) : queue -> option (sval * queue) :=
  match o with
  | PutC c => q_put (be_bytes 1 c)
  | PutW w => q_put (be_bytes 2 w)
  | Put3 l => q_put (be_bytes 3 l)
  | PutL l => q_put (be_bytes 4 l)
  | PutQ q => q_put (be_bytes 8 q)
  | PutIPv4 a | PutInAddr a => q_put a
  | Put src => q_put_trunc (fun _ => VUnit) src
  | PutZero n => q_put_trunc (fun _ => VUnit) (replicate (Z.to_nat n) 0)
  | Write src => q_put_trunc v_len src
  | GetC => q_get v_be 1
  | GetW => q_get v_be 2
  | Get3 => q_get v_be 3
  | GetL => q_get v_be 4
  | GetQ => q_get v_be 8
  | GetIPv4 => q_get VBytes 4
  | Get n => q_get VBytes (Z.to_nat n)
  | GetC2 => q_get2 v_be 1
  | GetW2 => q_get2 v_be 2
  | GetL2 => q_get2 v_be 4
  | Get2 n => q_get2 VBytes (Z.to_nat n)
  end.

(** [m] implements the abstract step [spec] from [s]. *)
Definition implements (s : stream) (m : St sval) (spec : queue -> option (sval * queue)) : Prop :=
  match spec (abs s) with
  | Some (v, q) => runs m s (fun v' s' => v' = v /\ stream_ok s' /\ abs s' = q)
  | None => m s = AssertFail
  end.

(** ** The guards common to each family *)
Section guards.
Context (s : stream) (Hok : stream_ok s).

Definition get_body_ok {A} (f : A -> sval) v n (body : St A) : Prop :=
  (n <= length (q_pend (abs s)))%nat ->
  runs body s (fun a s' => f a = v (take n (q_pend (abs s))) /\
                 stream_ok s' /\ abs s' = q_pop n (abs s)).

Lemma runs_ret_as {A} (f : A -> sval) m v q :
  runs m s (fun a s' => f a = v /\ stream_ok s' /\ abs s' = q) ->
  runs (ret_as f m) s (fun v' s' => v' = v /\ stream_ok s' /\ abs s' = q).
Proof.
  intros H. unfold ret_as. apply runs_bind. eapply runs_mono; [exact H|].
  intros a s' (<- & ? & ?). by apply runs_ret.
Qed.

Lemma implements_get {A} (f : A -> sval) v n z (d : A) (body : stream -> St A) :
  z = Z.of_nat n -> get_body_ok f v n (body s) ->
  implements s (ret_as f (STREAM_VERIFY_SANE ;; s ← mget;
    if STREAM_READABLE s <? z then STREAM_BOUND_WARN ;; mret d else body s))
    (q_get v n).
Proof.
  intros -> Hb. unfold implements, q_get. pose proof (readable_ok s Hok) as Hr.
  destruct (decide _) as [Hn|Hn].
  - unfold ret_as. rewrite bind_assoc, (bind_ret_eq _ _ _ _ _ (sane_ok s Hok)).
    rewrite bind_assoc, (bind_ret_eq mget _ s s s) by done.
    destruct (Z.ltb_spec (STREAM_READABLE s) (Z.of_nat n)); [done|lia].
  - apply runs_ret_as. apply runs_bind, runs_sane; [done|]. msteps.
    destruct (Z.ltb_spec (STREAM_READABLE s) (Z.of_nat n)); [lia|].
    apply Hb. lia.
Qed.

Lemma implements_get2 {A} (f : A -> sval) v n z (body : stream -> St (option A)) :
  z = Z.of_nat n -> get_body_ok (vopt f) v n (body s) ->
  implements s (ret_as (vopt f) (STREAM_VERIFY_SANE ;; s ← mget;
    if STREAM_READABLE s <? z then STREAM_BOUND_WARN2 ;; mret None else body s))
    (q_get2 v n).
Proof.
  intros -> Hb. unfold implements, q_get2. pose proof (readable_ok s Hok) as Hr.
  destruct (decide _) as [Hn|Hn]; apply runs_ret_as;
    (apply runs_bind, runs_sane; [done|]); msteps;
    destruct (Z.ltb_spec (STREAM_READABLE s) (Z.of_nat n)); try lia.
  - apply runs_bind. apply runs_ret. by apply runs_ret.
  - apply Hb. lia.
Qed.

Definition put_body_ok (bs : list Z) (body : St Z) : Prop :=
  Z.of_nat (length bs) <= q_room (abs s) ->
  runs body s (fun a s' => VInt a = VInt (Z.of_nat (length bs)) /\
                 stream_ok s' /\ abs s' = q_push bs (abs s)).

Lemma implements_put bs z (body : stream -> St Z) :
  z = Z.of_nat (length bs) -> put_body_ok bs (body s) ->
  implements s (ret_as VInt (STREAM_VERIFY_SANE ;; s ← mget;
    if STREAM_WRITEABLE s <? z then STREAM_BOUND_WARN ;; mret 0 else body s))
    (q_put bs).
Proof.
  intros -> Hb. unfold implements, q_put. pose proof (writeable_ok s Hok) as Hr.
  destruct (decide _) as [Hn|Hn].
  - unfold ret_as. rewrite bind_assoc, (bind_ret_eq _ _ _ _ _ (sane_ok s Hok)).
    rewrite bind_assoc, (bind_ret_eq mget _ s s s) by done.
    destruct (Z.ltb_spec (STREAM_WRITEABLE s) (Z.of_nat (length bs))); [done|lia].
  - apply runs_ret_as. apply runs_bind, runs_sane; [done|]. msteps.
    destruct (Z.ltb_spec (STREAM_WRITEABLE s) (Z.of_nat (length bs))); [lia|].
    apply Hb. lia.
Qed.

(** [memcpy] out of the stream at [getp], moving [getp]. *)
Lemma runs_memcpy_get z n {A} (f : A -> sval) (g : list Z -> A) (v : list Z -> sval) :
  z = Z.of_nat n -> (forall bs, f (g bs) = v bs) ->
  get_body_ok f v n (l ← memcpy_from (s_getp s) z;
    mmodify (set_getp (usz (s_getp s + z))) ;; mret (g l)).
Proof.
  intros -> Hfg Hn. pose proof (length_pend s Hok) as Hl.
  assert (Hp : take n (q_pend (abs s)) = take n (drop (Z.to_nat (s_getp s)) (s_data s))).
  { simpl. rewrite take_take. f_equal. lia. }
  assert (Habs : abs (set_getp (s_getp s + Z.of_nat n) s) = q_pop n (abs s)).
  { unfold q_pop. rewrite Hp. unfold abs. simpl.
    rewrite Z2Nat.inj_add, Nat2Z.id by (destruct Hok; lia).
    f_equal; [by rewrite take_take_drop_add|].
    rewrite skipn_firstn_comm, drop_drop. f_equal. lia. }
  destruct (id Hok). unfold memcpy_from. apply runs_bind. msteps.
  eapply runs_of_option; [apply block_read_Some; lia|]. msteps.
  rewrite wrap_small, Nat2Z.id by lia. split_and!.
  - by rewrite Hfg, Hp.
  - by split; simpl; try lia.
  - exact Habs.
Qed.

Lemma runs_memcpy_put a n z r :
  z = Z.of_nat n -> r = z -> Forall is_byte a -> length a = n ->
  put_body_ok a (memcpy_to (s_endp s) a z ;;
    mmodify (set_endp (usz (s_endp s + z))) ;; mret r).
Proof.
  intros -> -> Hby Hlen Hr. apply runs_bind.
  apply runs_memcpy_to_endp; [done|done|lia|lia|]. intros s' Hok' Ha' He.
  msteps. destruct (id Hok). simpl in Hr. rewrite wrap_small by lia.
  split_and!; [by rewrite Hlen|done|]. rewrite Ha', Nat2Z.id, <- Hlen.
  by rewrite firstn_all.
Qed.
End guards.

Ltac split_pend pat :=
  match goal with |- get_body_ok ?s _ _ _ _ =>
    let Hp := fresh "Hp" in let Hn := fresh "Hn" in
    intros Hn; destruct (q_pend (abs s)) as pat eqn:Hp; try (simpl in Hn; lia);
    clear Hn; get_bytes_start s
  end.

Ltac finish_get :=
  apply runs_ret; split_and!;
  [ cbn [vopt take]; unfold v_be; do 2 f_equal; be_norm; done | done | done ].

Ltac finish_put :=
  apply runs_ret; split_and!;
  [ done | done
  | match goal with H : abs ?s = _ |- abs ?s = _ => rewrite H end;
    simpl; rewrite ?Z.shiftr_0_r; done ].

Ltac start_put s :=
  let Hr := fresh "Hr" in let Ha := fresh "Ha" in
  intros Hr; cbn [length be_bytes] in Hr;
  assert (Ha : abs s = q_push [] (abs s)) by (by rewrite q_push_nil).

Section ops.
Context (s : stream) (Hok : stream_ok s).

Lemma getc_body : get_body_ok s VInt v_be 1 (c ← data_getp_pp; mret c).
Proof. split_pend ipattern:([|b0 rest]). get_byte b0. finish_get. Qed.

Lemma getc2_body : get_body_ok s (vopt VInt) v_be 1 (b ← data_getp_pp; mret (Some b)).
Proof. split_pend ipattern:([|b0 rest]). get_byte b0. finish_get. Qed.

Lemma getw_body {A} (f : A -> sval) (g : Z -> A) :
  (forall z, f (g z) = VInt z) ->
  get_body_ok s f v_be 2
    (b0 ← data_getp_pp;
     let w := u16 (Z.shiftl b0 8) in
     b1 ← data_getp_pp;
     let w := u16 (Z.lor w b1) in
     mret (g w)).
Proof.
  intros Hfg. split_pend ipattern:([|b0 [|b1 rest]]).
  get_byte b0. get_byte b1. apply runs_ret. rewrite Hfg. split_and!; [|done..].
  cbn [take]. unfold v_be. f_equal. be_norm. done.
Qed.

Lemma get3_body :
  get_body_ok s VInt v_be 3
    (b0 ← data_getp_pp;
     let l := u32 (Z.shiftl b0 16) in
     b1 ← data_getp_pp;
     let l := u32 (Z.lor l (Z.shiftl b1 8)) in
     b2 ← data_getp_pp;
     let l := u32 (Z.lor l b2) in
     mret l).
Proof.
  split_pend ipattern:([|b0 [|b1 [|b2 rest]]]).
  get_byte b0. get_byte b1. get_byte b2. finish_get.
Qed.

Lemma getl_body {A} (f : A -> sval) (g : Z -> A) :
  (forall z, f (g z) = VInt z) ->
  get_body_ok s f v_be 4 (l ← read_be32; mret (g l)).
Proof.
  intros Hfg. split_pend ipattern:([|b0 [|b1 [|b2 [|b3 rest]]]]).
  apply runs_bind. apply (runs_read_be32 s Hok rest b0 b1 b2 b3); [assumption|]. intros s' Hok' Ha'.
  apply runs_ret. by rewrite Hfg.
Qed.

Lemma getq_body :
  get_body_ok s VInt v_be 8
    (b0 ← data_getp_pp;
     let q := u64 (Z.shiftl b0 56) in
     b1 ← data_getp_pp;
     let q := u64 (Z.lor q (Z.shiftl b1 48)) in
     b2 ← data_getp_pp;
     let q := u64 (Z.lor q (Z.shiftl b2 40)) in
     b3 ← data_getp_pp;
     let q := u64 (Z.lor q (Z.shiftl b3 32)) in
     b4 ← data_getp_pp;
     let q := u64 (Z.lor q (Z.shiftl b4 24)) in
     b5 ← data_getp_pp;
     let q := u64 (Z.lor q (Z.shiftl b5 16)) in
     b6 ← data_getp_pp;
     let q := u64 (Z.lor q (Z.shiftl b6 8)) in
     b7 ← data_getp_pp;
     let q := u64 (Z.lor q b7) in
     mret q).
Proof.
  split_pend ipattern:([|b0 [|b1 [|b2 [|b3 [|b4 [|b5 [|b6 [|b7 rest]]]]]]]]).
  get_byte b0. get_byte b1. get_byte b2. get_byte b3.
  get_byte b4. get_byte b5. get_byte b6. get_byte b7. finish_get.
Qed.

Lemma putc_body c : is_byte c -> put_body_ok s (be_bytes 1 c) (data_endp_pp c ;; mret 1).
Proof.
  intros Hc. start_put s. put_byte. apply runs_ret. split_and!; [done..|].
  match goal with H : abs _ = _ |- _ => rewrite H end.
  simpl. rewrite Z.shiftr_0_r. by rewrite (wrap_small 8).
Qed.

Lemma putw_body w :
  put_body_ok s (be_bytes 2 w)
    (data_endp_pp (u8 (Z.shiftr w 8)) ;; data_endp_pp (u8 w) ;; mret 2).
Proof. start_put s. put_byte. put_byte. finish_put. Qed.

Lemma put3_body l :
  put_body_ok s (be_bytes 3 l)
    (data_endp_pp (u8 (Z.shiftr l 16)) ;;
     data_endp_pp (u8 (Z.shiftr l 8)) ;;
     data_endp_pp (u8 l) ;; mret 3).
Proof. start_put s. put_byte. put_byte. put_byte. finish_put. Qed.

Lemma putl_body l : put_body_ok s (be_bytes 4 l) (write_be32 l ;; mret 4).
Proof.
  intros Hr. apply runs_bind. apply runs_write_be32; [done|done|].
  intros s' Hok' Ha'. by apply runs_ret.
Qed.

Lemma putq_body q :
  put_body_ok s (be_bytes 8 q)
    (data_endp_pp (u8 (Z.shiftr q 56)) ;;
     data_endp_pp (u8 (Z.shiftr q 48)) ;;
     data_endp_pp (u8 (Z.shiftr q 40)) ;;
     data_endp_pp (u8 (Z.shiftr q 32)) ;;
     data_endp_pp (u8 (Z.shiftr q 24)) ;;
     data_endp_pp (u8 (Z.shiftr q 16)) ;;
     data_endp_pp (u8 (Z.shiftr q 8)) ;;
     data_endp_pp (u8 q) ;; mret 8).
Proof. start_put s. do 8 put_byte. finish_put. Qed.

(** The truncating puts. *)
Lemma check_size_ok z :
  0 <= z < 2 ^ 63 ->
  CHECK_SIZE z s = Ret (Z.min z (q_room (abs s)), s).
Proof.
  intros Hz. destruct (id Hok). simpl.
  unfold CHECK_SIZE. rewrite (bind_ret_eq mget _ s s s) by done.
  rewrite (wrap_small 64 (s_endp s + z)), (wrap_small 64 (s_size s - s_endp s)) by lia.
  destruct (Z.ltb_spec (s_size s) (s_endp s + z)); unfold mret, M_ret; do 2 f_equal; lia.
Qed.

Lemma runs_put_trunc {A} src z (copy : stream -> Z -> St unit) (r : Z -> A)
    (bound : St A) (f : A -> sval) v :
  Forall is_byte src -> z = Z.of_nat (length src) -> z < 2 ^ 63 ->
  (forall bs, f (r (Z.of_nat (length bs))) = v bs) ->
  (forall n, 0 <= n <= z -> copy s n s = memcpy_to (s_endp s) src n s) ->
  runs (size ← CHECK_SIZE z;
        STREAM_VERIFY_SANE ;;
        s ← mget;
        if STREAM_WRITEABLE s <? size then bound
        else copy s size ;;
             mmodify (set_endp (usz (s_endp s + size))) ;; mret (r size)) s
    (fun a s' => f a = v (take (Z.to_nat (q_room (abs s))) src) /\
       stream_ok s' /\ abs s' = q_push (take (Z.to_nat (q_room (abs s))) src) (abs s)).
Proof.
  intros Hby -> Hz Hf Hc. pose proof (room_bounds s Hok) as Hroom.
  apply runs_bind. eapply runs_mono; [apply runs_eq, check_size_ok; lia|].
  intros ? ? [-> ->]. apply runs_bind, runs_sane; [done|]. msteps.
  rewrite writeable_ok by done.
  set (n := Z.min (Z.of_nat (length src)) (q_room (abs s))).
  destruct (Z.ltb_spec (q_room (abs s)) n); [lia|].
  apply runs_bind. unfold runs at 1. rewrite Hc by lia.
  apply (runs_memcpy_to_endp s src n); [done|done|lia|lia|].
  intros s' Hok' Ha' He. msteps. rewrite wrap_small by (destruct (id Hok); simpl in *; lia).
  assert (Ht : take (Z.to_nat n) src = take (Z.to_nat (q_room (abs s))) src).
  { destruct (decide (Z.of_nat (length src) <= q_room (abs s))).
    - rewrite !take_ge by lia. done.
    - unfold n. by rewrite Z.min_r by lia. }
  rewrite Ht in Ha'. split_and!; [|done..].
  rewrite <- Hf. do 2 f_equal. rewrite length_take. lia.
Qed.
End ops.

(** A fixed-size message: a list of integer fields. *)
Inductive field : Type := FC | FW | F3 | FL | FQ.

Definition field_width (f : field) : nat :=
  match f with FC => 1 | FW => 2 | F3 => 3 | FL => 4 | FQ => 8 end.

Definition put_of (f : field) (v : Z) : sop :=
  match f with
  | FC => PutC v | FW => PutW v | F3 => Put3 v | FL => PutL v | FQ => PutQ v
  end.
Definition get_of (f : field) : sop :=
  match f with FC => GetC | FW => GetW | F3 => Get3 | FL => GetL | FQ => GetQ end.

Definition field_fits (fv : field * Z) : Prop :=
  in_width (8 * Z.of_nat (field_width fv.1)) fv.2.

Definition msg_width (msg : list (field * Z)) : nat :=
  sum_list_with (fun fv => field_width fv.1) msg.

(** Calls in sequence, collecting their results. *)
Fixpoint run_ops (os : list sop) : St (list sval) :=
  match os with
  | [] => mret []
  | o :: os' => v ← sop_run o; vs ← run_ops os'; mret (v :: vs)
  end.

Fixpoint queue_run (os : list sop) (q : queue) : option (list sval * queue) :=
  match os with
  | [] => Some ([], q)
  | o :: os' =>
      match queue_step o q with
      | None => None
      | Some (v, q') =>
          match queue_run os' q' with
          | None => None
          | Some (vs, q'') => Some (v :: vs, q'')
          end
      end
  end.

Definition encode_msg (msg : list (field * Z)) : list Z :=
  concat (map (fun fv => be_bytes (field_width fv.1) fv.2) msg).

(** Writing the fields of a message, then reading them back. *)
Definition write_then_read (msg : list (field * Z)) : St (list sval) :=
  _ ← run_ops (map (fun fv => put_of fv.1 fv.2) msg);
  run_ops (map (fun fv => get_of fv.1) msg).

Lemma memcpy_to_replicate off z n s :
  0 <= z <= Z.of_nat n ->
  memcpy_to off (replicate (Z.to_nat z) 0) z s = memcpy_to off (replicate n 0) z s.
Proof.
  intros Hz. unfold memcpy_to.
  rewrite !block_read_Some by (rewrite ?length_replicate; lia).
  rewrite !drop_0, !take_replicate, !Nat.min_l by lia. done.
Qed.

Lemma sop_run_refines s o :
  stream_ok s -> sop_typed o -> implements s (sop_run o) (queue_step o).
Proof.
  intros Hok Ht. destruct o; simpl in Ht.
  - apply implements_put; [done..|]. by apply putc_body.
  - apply implements_put; [done..|]. by apply putw_body.
  - apply implements_put; [done..|]. by apply put3_body.
  - apply implements_put; [done..|]. by apply putl_body.
  - apply implements_put; [done..|]. by apply putq_body.
  - destruct Ht as [Hb Hl]. apply (implements_put s Hok addr 4); [by rewrite Hl|].
    by apply (runs_memcpy_put s Hok addr 4).
  - destruct Ht as [Hb Hl]. apply (implements_put s Hok addr 4); [by rewrite Hl|].
    by apply (runs_memcpy_put s Hok addr 4).
  - destruct Ht as [Hb Hl]. apply runs_ret_as.
    exact (runs_put_trunc s Hok src _ (fun s => memcpy_to (s_endp s) src) (fun _ => tt)
             _ (fun _ => VUnit) (fun _ => VUnit) Hb eq_refl Hl
             (fun _ => eq_refl) (fun _ _ => eq_refl)).
  - apply runs_ret_as.
    refine (runs_put_trunc s Hok (replicate (Z.to_nat n) 0) n
             (fun s z => memcpy_to (s_endp s) (replicate (Z.to_nat z) 0) z) (fun _ => tt)
             _ (fun _ => VUnit) (fun _ => VUnit) _ _ _ (fun _ => eq_refl) _).
    + by apply Forall_replicate.
    + rewrite length_replicate. lia.
    + lia.
    + intros. apply memcpy_to_replicate. lia.
  - destruct Ht as [Hb Hl]. apply runs_ret_as.
    exact (runs_put_trunc s Hok src _ (fun s => memcpy_to (s_endp s) src) id
             _ VInt v_len Hb eq_refl Hl (fun _ => eq_refl) (fun _ _ => eq_refl)).
  - apply implements_get; [done..|]. by apply getc_body.
  - apply implements_get; [done..|]. by apply (getw_body s Hok VInt id).
  - apply implements_get; [done..|]. by apply get3_body.
  - apply implements_get; [done..|]. by apply (getl_body s Hok VInt id).
  - apply implements_get; [done..|]. by apply getq_body.
  - apply implements_get; [done..|].
    by apply (runs_memcpy_get s Hok 4 4 VBytes id VBytes).
  - apply implements_get; [done|lia|].
    apply (runs_memcpy_get s Hok n _ VBytes id VBytes); [lia|done].
  - apply implements_get2; [done..|]. by apply getc2_body.
  - apply implements_get2; [done..|]. by apply (getw_body s Hok (vopt VInt) Some).
  - apply implements_get2; [done..|]. by apply (getl_body s Hok (vopt VInt) Some).
  - apply implements_get2; [done|lia|].
    apply (runs_memcpy_get s Hok n _ (vopt VBytes) Some VBytes); [lia|done].
Qed.

(** ** Sequences of operations *)

Lemma run_ops_refines os s vs q :
  stream_ok s -> Forall sop_typed os -> queue_run os (abs s) = Some (vs, q) ->
  runs (run_ops os) s (fun vs' s' => vs' = vs /\ stream_ok s' /\ abs s' = q).
Proof.
  revert s vs q. induction os as [|o os IH]; intros s vs q Hok Ht Hq; simpl in *.
  { injection Hq as <- <-. by apply runs_ret. }
  apply Forall_cons in Ht as [Ho Hos].
  pose proof (sop_run_refines s o Hok Ho) as Href. unfold implements in Href.
  destruct (queue_step o (abs s)) as [[v q1]|]; [|done].
  destruct (queue_run os q1) as [[vs1 q2]|] eqn:Hrun; [|done].
  injection Hq as <- <-. apply runs_bind. eapply runs_mono; [exact Href|].
  intros v' s1 (-> & Hok1 & Ha1). apply runs_bind.
  eapply runs_mono; [apply (IH s1 vs1 q2); [done..|by rewrite Ha1]|].
  intros vs' s2 (-> & Hok2 & Ha2). by apply runs_ret.
Qed.

Lemma queue_run_puts msg q :
  Z.of_nat (msg_width msg) <= q_room q ->
  exists vs, queue_run (map (fun fv => put_of fv.1 fv.2) msg) q
             = Some (vs, q_push (encode_msg msg) q).
Proof.
  revert q. induction msg as [|[f v] msg IH]; intros q Hroom.
  { exists []. simpl. by rewrite q_push_nil. }
  cbn [msg_width sum_list_with fst] in Hroom.
  assert (Hs : queue_step (put_of f v) q = q_put (be_bytes (field_width f) v) q).
  { by destruct f. }
  cbn [map fst snd queue_run]. rewrite Hs. unfold q_put. rewrite length_be_bytes.
  unfold msg_width in *. destruct (decide _); [lia|].
  destruct (IH (q_push (be_bytes (field_width f) v) q)) as [vs Hvs].
  { cbn [q_push q_room]. rewrite length_be_bytes. unfold msg_width. lia. }
  eexists. rewrite Hvs. f_equal. f_equal. by rewrite q_push_push.
Qed.

Lemma queue_run_gets msg rest q :
  Forall field_fits msg -> q_pend q = encode_msg msg ++ rest ->
  queue_run (map (fun fv => get_of fv.1) msg) q
    = Some (map (fun fv => VInt fv.2) msg, q_pop (msg_width msg) q).
Proof.
  revert q. induction msg as [|[f v] msg IH]; intros q Hf Hp.
  { simpl. by rewrite q_pop_0. }
  apply Forall_cons in Hf as [Hf Hmsg]. unfold encode_msg in Hp.
  cbn [map fst snd concat] in Hp. rewrite <- app_assoc in Hp.
  assert (Hs : queue_step (get_of f) q = q_get v_be (field_width f) q) by by destruct f.
  cbn [map fst snd queue_run]. rewrite Hs. unfold q_get.
  pose proof (length_be_bytes (field_width f) v) as Hl.
  destruct (decide _) as [Hlt|_]; [rewrite Hp, length_app in Hlt; lia|].
  rewrite (IH (q_pop (field_width f) q)); [|done|].
  - f_equal. f_equal; [|by rewrite q_pop_pop]. f_equal.
    rewrite Hp, take_app_length' by done. unfold v_be. f_equal.
    rewrite be_val_bytes. by apply wrap_small.
  - rewrite q_pend_pop, Hp, drop_app_length' by done. done.
Qed.

Lemma put_of_typed msg :
  Forall field_fits msg -> Forall sop_typed (map (fun fv => put_of fv.1 fv.2) msg).
Proof. induction 1 as [|[[] v] msg Hf ? IH]; simpl; constructor; done. Qed.

Lemma get_of_typed msg : Forall sop_typed (map (fun fv : field * Z => get_of fv.1) msg).
Proof. induction msg as [|[[] v] msg IH]; simpl; constructor; done. Qed.

(** C8. Each of the twenty-one sequential stream functions ([stream_putc] ...
    [stream_putq], the address and block puts, [stream_getc] ... [stream_get],
    and the non-asserting [stream_get*2] family), run on a well-formed stream,
    has exactly the effect and result its byte-queue specification says: puts
    append the big-endian bytes, gets consume and decode them, block puts drop
    what does not fit, the [2] variants report failure and leave the stream
    alone, and the only failure is the assertion when the queue operation is
    impossible. *)
Theorem stream_refines_queue s o :
  stream_ok s -> sop_typed o -> implements s (sop_run o) (queue_step o).
Proof. apply sop_run_refines. Qed.

Definition demo_stream : stream := Stream 0 2 8 [1; 2; 0; 0; 0; 0; 0; 0].

Lemma demo_stream_ok : stream_ok demo_stream.
Proof. split; simpl; try lia. repeat constructor; done. Qed.

Lemma stream_refines_queue_witness :
  (implements demo_stream (sop_run (PutL 67305985)) (queue_step (PutL 67305985)) /\
   implements demo_stream (sop_run GetL) (queue_step GetL)) /\
  sop_run (PutL 67305985) demo_stream = Ret (VInt 4, Stream 0 6 8 [1; 2; 4; 3; 2; 1; 0; 0]) /\
  sop_run GetL demo_stream = AssertFail.
Proof.
  split; [split; apply stream_refines_queue; first [exact demo_stream_ok | exact I]|].
  split; reflexivity.
Defined.

(** C27. Any message made of 8-, 16-, 24-, 32- and 64-bit fields, written field
    by field into a fresh stream that has room for it, is read back field by
    field as the values that were written, and nothing is left to read. *)
Theorem stream_message_roundtrip (malloc_bytes : Z -> list Z) size msg :
  (forall n, 0 < n -> Z.of_nat (length (malloc_bytes n)) = n) ->
  (forall n, Forall is_byte (malloc_bytes n)) ->
  0 < size < 2 ^ 63 -> Forall field_fits msg -> Z.of_nat (msg_width msg) <= size ->
  exists s0 s', stream_new malloc_bytes size = Ret s0 /\
    write_then_read msg s0 = Ret (map (fun fv => VInt fv.2) msg, s') /\
    stream_ok s' /\ STREAM_READABLE s' = 0.
Proof.
  intros Hlen Hby Hsz Hf Hw. unfold stream_new. rewrite bool_decide_true by lia.
  set (s0 := Stream 0 0 size (malloc_bytes size)).
  assert (Hok : stream_ok s0) by (split; simpl; auto; rewrite ?Hlen; lia).
  assert (Hroom : Z.of_nat (msg_width msg) <= q_room (abs s0)) by (simpl; lia).
  destruct (queue_run_puts msg (abs s0) Hroom) as [vs Hp].
  apply run_ops_refines in Hp as (vs' & s1 & E1 & -> & Hok1 & Ha1);
    [|done|by apply put_of_typed].
  pose proof (queue_run_gets msg [] (abs s1) Hf) as Hg.
  assert (Hp1 : q_pend (abs s1) = encode_msg msg) by (by rewrite Ha1).
  rewrite Hp1, app_nil_r in Hg. specialize (Hg eq_refl).
  apply run_ops_refines in Hg as (vs2 & s2 & E2 & -> & Hok2 & Ha2);
    [|done|apply get_of_typed].
  exists s0, s2. split_and!; [done| |done|].
  - unfold write_then_read. by rewrite (bind_ret_eq _ _ _ _ _ E1).
  - rewrite readable_ok, Ha2, q_pend_pop, Hp1, length_drop by done.
    assert (length (encode_msg msg) = msg_width msg) as ->; [|lia].
    clear. unfold encode_msg, msg_width.
    induction msg as [|[f v] msg IH]; simpl; [done|]. rewrite length_app, length_be_bytes. lia.
Qed.

Lemma stream_message_roundtrip_witness :
  exists s0 s', stream_new (fun n => replicate (Z.to_nat n) 170) 10 = Ret s0 /\
    write_then_read [(FW, 513); (FQ, 72623859790382856)] s0
      = Ret ([VInt 513; VInt 72623859790382856], s') /\
    stream_ok s' /\ STREAM_READABLE s' = 0.
Proof.
  apply (stream_message_roundtrip (fun n => replicate (Z.to_nat n) 170) 10
           [(FW, 513); (FQ, 72623859790382856)]).
  - intros n Hn. rewrite length_replicate. lia.
  - intros n. apply Forall_replicate. unfold is_byte. lia.
  - lia.
  - repeat constructor; simpl; lia.
  - simpl. lia.
Defined.
