(* ===== verification/StreamSafety.v ===== *)
(** * Memory safety and positional accesses of FRR streams

    [scall] adds to the queue operations of StreamRefine the functions that
    move the offsets, read or write at a position, encode prefixes with and
    without labels, read from a descriptor or resize.  [stream_calls_safe]
    proves that none of them leaves the data block or breaks the offset
    invariant, given what [scall_pre] asks of three of them: sums with a
    position that fit [size_t], and for [stream_put_labeled_prefix] not
    exactly the room its guard asks for, with which it does
    ([stream_put_labeled_prefix_overflow]). *)

From S2P Require Import Prelude Stream StreamRefine.

(** ** Single accesses *)
Section accesses.
Context (s : stream) (Hok : stream_ok s).




Lemma ok_set_data d :
  length d = length (s_data s) -> Forall is_byte d -> stream_ok (set_data d s).
Proof. intros Hl Hb. destruct Hok. split; simpl; lia || done. Qed.





End accesses.










(** The room that [stream_put_labeled_prefix] checks for *)
Definition labeled_guard (p : prefix) (addpath : bool) : Z :=
  PSIZE (p_prefixlen p) + (if addpath then 4 else 0) + 3.


(** ** Safety of each group of calls *)

Abbreviation keeps_ok m s := (safe m s (fun _ s' => stream_ok s')).








Section calls.
Context (s : stream) (Hok : stream_ok s).






End calls.

(** ** Positional accesses as block operations *)

Definition put_at_of (f : field) (p v : Z) : St Z :=
  match f with
  | FC => stream_putc_at p v | FW => stream_putw_at p v | F3 => stream_put3_at p v
  | FL => stream_putl_at p v | FQ => stream_putq_at p v
  end.
Definition get_from_of (f : field) (p : Z) : St Z :=
  match f with
  | FC => stream_getc_from p | FW => stream_getw_from p | F3 => stream_get3_from p
  | FL => stream_getl_from p | FQ => stream_getq_from p
  end.

Section positional.
Context (s : stream) (Hok : stream_ok s).

Lemma runs_data_at_block p bs i b (Q : Z -> stream -> Prop) :
  0 <= p -> block_read (s_data s) p (Z.of_nat (length bs)) = Some bs ->
  0 <= i < 2 ^ 64 -> bs !! Z.to_nat (i - p) = Some b -> p <= i ->
  Q b s -> runs (data_at i) s Q.
Proof.
  intros Hp Hr Hi Hb Hle HQ. unfold data_at. msteps.
  eapply runs_of_option; [|done]. rewrite block_get_lookup by lia.
  pose proof (lookup_lt_Some _ _ _ Hb).
  rewrite <- Hb, <- (block_read_lookup _ p bs) by (done || lia). f_equal. lia.
Qed.

Lemma get_from_of_ok f p bs :
  0 <= p -> block_read (s_data s) p (Z.of_nat (field_width f)) = Some bs ->
  p + Z.of_nat (field_width f) <= s_endp s ->
  get_from_of f p s = Ret (be_val bs, s).
Proof.
  intros Hp Hr He. destruct (id Hok).
  assert (Hl : length bs = field_width f).
  { unfold block_read in Hr. case_bool_decide; [|done]. injection Hr as <-.
    rewrite length_take, length_drop. lia. }
  assert (Hby : Forall is_byte bs).
  { unfold block_read in Hr. case_bool_decide; [|done]. injection Hr as <-.
    by apply Forall_take, Forall_drop. }
  rewrite <- Hl in Hr. apply runs_eq.
  destruct f; simpl in Hl, He;
    do 9 (try (destruct bs as [|? bs]; try discriminate Hl));
    rewrite ?Forall_cons in Hby; destruct_and? Hby.
  all: apply runs_bind, runs_sane; [done|]; msteps; apply runs_if; intros G;
    [exfalso; apply negb_true_iff in G; unfold GETP_VALID in G;
     rewrite wrap_small in G by lia; lia|].
  all: cbv beta zeta.
  all: repeat (apply runs_bind; eapply (runs_data_at_block p _ _ _ _ Hp Hr);
    [rewrite ?wrap_small by lia; lia
    |rewrite ?wrap_small by lia;
     match goal with |- context [Z.to_nat ?e] =>
       first [replace e with 0 by lia | replace e with 1 by lia | replace e with 2 by lia
             |replace e with 3 by lia | replace e with 4 by lia | replace e with 5 by lia
             |replace e with 6 by lia | replace e with 7 by lia] end; reflexivity
    |rewrite ?wrap_small by lia; lia|]; cbv beta zeta).
  all: apply runs_ret; split; [|done]; be_norm; try done.
Qed.

Lemma runs_put_at_next p i bs d b (Q : unit -> stream -> Prop) :
  0 <= p -> block_write (s_data s) p bs = Some d ->
  i = p + Z.of_nat (length bs) -> i < s_size s ->
  (forall d', block_write (s_data s) p (bs ++ [b]) = Some d' -> Q tt (set_data d' s)) ->
  runs (data_put_at i b) (set_data d s) Q.
Proof.
  intros Hp Hw -> Hi HQ. destruct (id Hok). unfold data_put_at. msteps.
  pose proof (block_write_length _ _ _ _ Hw). simpl.
  eapply runs_of_option; [apply block_set_Some; lia|]. msteps. apply HQ.
  rewrite (block_write_snoc _ _ _ d) by (done || lia). do 2 f_equal. lia.
Qed.

Lemma put_at_of_ok f p v :
  0 <= p -> p + Z.of_nat (field_width f) <= s_endp s -> (f = FC -> is_byte v) ->
  exists d, block_write (s_data s) p (be_bytes (field_width f) v) = Some d /\
    put_at_of f p v s = Ret (Z.of_nat (field_width f), set_data d s).
Proof.
  intros Hp He Hc. destruct (id Hok).
  assert (H0 : block_write (s_data s) p [] = Some (s_data s)).
  { rewrite block_write_Some by (simpl; lia). f_equal. simpl.
    by rewrite Nat.add_0_r, firstn_skipn. }
  assert (Hs : set_data (s_data s) s = s) by by destruct s.
  enough (runs (put_at_of f p v) s (fun r s' => r = Z.of_nat (field_width f) /\
    exists d, block_write (s_data s) p (be_bytes (field_width f) v) = Some d /\ s' = set_data d s))
    as (r & s' & E & -> & d & Hd & ->) by eauto.
  destruct f; simpl in He |- *; apply runs_bind, runs_sane; try done; msteps;
    (apply runs_if; intros G;
    [exfalso; apply negb_true_iff in G; unfold PUT_AT_VALID, GETP_VALID in G;
     rewrite wrap_small in G by lia; lia|]); cbv beta zeta; clear G.
  all: rewrite <- Hs at 1.
  all: repeat (apply runs_bind; eapply (runs_put_at_next p);
    [done|eassumption|rewrite ?wrap_small by lia; simpl; lia
    |rewrite ?wrap_small by lia; lia|]; clear H0; intros ? H0; simpl in H0; cbv beta zeta).
  all: apply runs_ret; split; [done|]; eexists; split; [|done].
  all: rewrite ?Z.shiftr_0_r; try done.
  rewrite (wrap_small 8) by (by apply Hc). done.
Qed.
End positional.

(** Positional stores and loads agree: storing a field with a
    [stream_put*_at] inside the filled part succeeds, changes exactly the
    field's bytes, keeps the three offsets, and the matching
    [stream_get*_from] at the same position returns the stored value truncated
    to the field's width. *)
Theorem stream_put_at_get_from s f p v :
  stream_ok s -> 0 <= p -> p + Z.of_nat (field_width f) <= s_endp s ->
  (f = FC -> is_byte v) ->
  exists d, put_at_of f p v s = Ret (Z.of_nat (field_width f), set_data d s) /\
    get_from_of f p (set_data d s)
      = Ret (wrap (8 * Z.of_nat (field_width f)) v, set_data d s) /\
    stream_ok (set_data d s) /\
    (forall i, (i < Z.to_nat p \/ Z.to_nat p + field_width f <= i)%nat ->
       d !! i = s_data s !! i).
Proof.
  intros Hok Hp He Hc. destruct (put_at_of_ok s Hok f p v Hp He Hc) as (d & Hd & Hput).
  assert (Hok' : stream_ok (set_data d s)).
  { apply ok_set_data; [done|by eapply block_write_length|].
    unfold block_write in Hd. case_bool_decide; [|done]. injection Hd as <-.
    pose proof (ok_bytes _ Hok). rewrite !Forall_app.
    auto using Forall_take, Forall_drop, be_bytes_is_byte. }
  exists d. split_and!; [done| |done|].
  - rewrite <- be_val_bytes. apply get_from_of_ok; [done|done| |done].
    rewrite <- (length_be_bytes (field_width f) v) at 1. by eapply block_read_write.
  - intros i Hi. eapply block_write_lookup_out; [done|]. by rewrite length_be_bytes.
Qed.

Lemma stream_put_at_get_from_witness :
  let s := Stream 0 6 8 [9; 9; 9; 9; 9; 9; 0; 0] in
  exists d, put_at_of F3 1 16909060 s = Ret (3, set_data d s) /\
    get_from_of F3 1 (set_data d s) = Ret (131844, set_data d s) /\
    stream_ok (set_data d s) /\
    (forall i, (i < 1 \/ 1 + 3 <= i)%nat -> d !! i = s_data s !! i).
Proof.
  apply (stream_put_at_get_from (Stream 0 6 8 [9; 9; 9; 9; 9; 9; 0; 0]) F3 1 16909060).
  - split; simpl; try lia. repeat constructor; done.
  - lia.
  - simpl. lia.
  - discriminate.
Defined.

(** ** Labelled prefixes *)

Lemma stream_putc_eq s c :
  stream_ok s -> is_byte c -> 0 < q_room (abs s) ->
  exists s', stream_putc c s = Ret (1, s') /\ stream_ok s' /\ abs s' = q_push [c] (abs s).
Proof.
  intros Hok Hc Hr.
  enough (runs (stream_putc c) s (fun r s' => r = 1 /\ stream_ok s' /\
            abs s' = q_push [c] (abs s))) as (r & s' & E & -> & ?) by eauto.
  apply runs_bind, runs_sane; [done|]. msteps. rewrite writeable_ok by done.
  destruct (Z.ltb_spec (q_room (abs s)) 1); [lia|].
  apply runs_bind, runs_data_endp_pp; [done..|]. intros s' Hok' Ha'. by msteps.
Qed.

(** One successful [stream_putc] in a sequence. *)
Ltac putc_step Hok Ha :=
  match goal with |- context [(stream_putc ?c ≫= _) ?s] =>
    let s' := fresh "s" in let E := fresh "E" in
    let Hok' := fresh "Hok" in let Ha' := fresh "Ha" in
    destruct (stream_putc_eq s c) as (s' & E & Hok' & Ha');
    [ exact Hok | first [assumption | apply (wrap_bounds 8); lia]
    | rewrite Ha; cbn [q_push q_room length]; rewrite ?length_app; cbn [length]; lia
    | rewrite (bind_ret_eq _ _ _ _ _ E); clear E; rewrite Ha, q_push_push in Ha';
      clear Hok Ha; rename Hok' into Hok, Ha' into Ha ]
  end.

Section labeled.
Context (p : prefix) (l0 l1 l2 : Z) (b : bool) (txid : Z).
Context (Hl0 : is_byte l0) (Hl1 : is_byte l1) (Hl2 : is_byte l2).
Context (Hpb : Forall is_byte (p_u p)).
Context (Hlen : 0 <= p_prefixlen p) (Hpl : PSIZE (p_prefixlen p) <= Z.of_nat (length (p_u p))).

Definition addpath_bytes : list Z := if b then be_bytes 4 txid else [].
Definition labeled_header : list Z :=
  addpath_bytes ++ [u8 (p_prefixlen p + 24); l0; l1; l2].
Abbreviation psize := (PSIZE (p_prefixlen p)).
Abbreviation k := (if b then 4 else 0).

(** The final [memcpy] of the prefix bytes. *)
Definition labeled_tail (s1 : stream) : res (Z * stream) :=
  (memcpy_to (s_endp s1) (p_u p) psize ;;
   mmodify (set_endp (usz (s_endp s1 + psize))) ;; mret (psize + 3)) s1.

Lemma length_labeled_header : Z.of_nat (length labeled_header) = k + 4.
Proof. unfold labeled_header, addpath_bytes. by destruct b. Qed.

(** Everything up to the final [memcpy], given room for the header. *)
Lemma labeled_prefix_header s :
  stream_ok s -> psize + k + 3 <= q_room (abs s) -> k + 4 <= q_room (abs s) ->
  exists s1, stream_ok s1 /\ abs s1 = q_push labeled_header (abs s) /\
    stream_put_labeled_prefix p [l0; l1; l2] b txid s = labeled_tail s1.
Proof.
  intros Hok Hr Hh. unfold stream_put_labeled_prefix.
  assert (0 <= psize) by (apply Z.div_pos; lia). pose proof (room_bounds s Hok).
  rewrite (bind_ret_eq _ _ _ _ _ (sane_ok s Hok)), (bind_ret_eq mget _ s s s) by done.
  rewrite writeable_ok by done.
  destruct (Z.ltb_spec (q_room (abs s)) (psize + k + 3)); [lia|].
  assert (Hap : runs (mwhen b (write_be32 txid)) s
    (fun _ s' => stream_ok s' /\ abs s' = q_push addpath_bytes (abs s))).
  { unfold mwhen, addpath_bytes. destruct b; [|apply runs_ret; by rewrite q_push_nil].
    apply runs_write_be32; [done|lia|]. done. }
  destruct Hap as ([] & s1 & E1 & Hok1 & Ha1). rewrite (bind_ret_eq _ _ _ _ _ E1).
  assert (Hr1 : Z.of_nat (length addpath_bytes) = k) by (unfold addpath_bytes; by destruct b).
  putc_step Hok1 Ha1. cbn [block_get of_option].
  rewrite (bind_ret_eq (of_option _) _ _ l0 _) by done. putc_step Hok1 Ha1.
  rewrite (bind_ret_eq (of_option _) _ _ l1 _) by done. putc_step Hok1 Ha1.
  rewrite (bind_ret_eq (of_option _) _ _ l2 _) by done. putc_step Hok1 Ha1.
  eexists. split; [exact Hok1|]. split; [|reflexivity].
  rewrite Ha1. unfold labeled_header. by rewrite <- !app_assoc.
Qed.

(** With more room than the guard asks for, the prefix is appended. *)
Lemma labeled_prefix_fits s :
  stream_ok s -> labeled_guard p b < q_room (abs s) ->
  runs (stream_put_labeled_prefix p [l0; l1; l2] b txid) s (fun r s' =>
    r = psize + 3 /\ stream_ok s' /\
    abs s' = q_push (labeled_header ++ take (Z.to_nat psize) (p_u p)) (abs s)).
Proof.
  intros Hok Hr. unfold labeled_guard in Hr.
  assert (0 <= psize) by (apply Z.div_pos; lia).
  destruct (labeled_prefix_header s Hok ltac:(lia) ltac:(lia)) as (s1 & Hok1 & Ha1 & E).
  assert (Hr1 : psize <= q_room (abs s1)).
  { rewrite Ha1. cbn [q_push q_room]. rewrite length_labeled_header. lia. }
  unfold runs. rewrite E. apply runs_bind.
  apply runs_memcpy_to_endp; [done|done|lia|done|].
  intros s2 Hok2 Ha2 He2. msteps. destruct (id Hok1). simpl in Hr1.
  rewrite wrap_small by lia. split_and!; [done|done|]. by rewrite Ha2, Ha1, q_push_push.
Qed.

Lemma labeled_prefix_no_room s :
  stream_ok s -> q_room (abs s) < labeled_guard p b ->
  stream_put_labeled_prefix p [l0; l1; l2] b txid s = AssertFail.
Proof.
  intros Hok Hr. unfold labeled_guard in Hr. unfold stream_put_labeled_prefix.
  rewrite (bind_ret_eq _ _ _ _ _ (sane_ok s Hok)), (bind_ret_eq mget _ s s s) by done.
  rewrite writeable_ok by done.
  destruct (Z.ltb_spec (q_room (abs s)) (psize + k + 3)); [done|lia].
Qed.

End labeled.



(** The checks add in [size_t], so that sums that wrap pass them: [endp] goes
    back below [getp], and a load reads in front of the block. *)
Example stream_sums_wrap :
  (exists s, stream_forward_endp (2 ^ 64 - 1) (Stream 2 2 4 [1; 2; 3; 4]) = Ret (tt, s) /\ s_endp s = 1 /\ s_getp s = 2) /\
  stream_getc_from (2 ^ 64 - 1) (Stream 0 2 4 [1; 2; 3; 4]) = Fault.
Proof. split; [|vm_compute; reflexivity]. eexists. split; [vm_compute; reflexivity|done]. Qed.

(** C28. [stream_put_labeled_prefix] checks for one byte less than it writes
    (length byte, three label bytes and the prefix are [psize + 4] bytes, the
    guard asks for [psize + 3]).  With [psize + 4] bytes of room it appends the
    encoded prefix; with too little for the guard it fails its assertion; with
    exactly the room the guard asks for and a non-empty prefix, the final
    [memcpy] runs past the end of the data block. *)
Theorem stream_put_labeled_prefix_overflow s p l0 l1 l2 b txid :
  stream_ok s -> is_byte l0 -> is_byte l1 -> is_byte l2 ->
  Forall is_byte (p_u p) -> 0 < p_prefixlen p ->
  PSIZE (p_prefixlen p) <= Z.of_nat (length (p_u p)) ->
  let call := stream_put_labeled_prefix p [l0; l1; l2] b txid in
  let guard := PSIZE (p_prefixlen p) + (if b then 4 else 0) + 3 in
  (guard < q_room (abs s) ->
     runs call s (fun r s' => r = PSIZE (p_prefixlen p) + 3 /\ stream_ok s' /\
       abs s' = q_push (labeled_header p l0 l1 l2 b txid ++
                        take (Z.to_nat (PSIZE (p_prefixlen p))) (p_u p)) (abs s))) /\
  (q_room (abs s) = guard -> call s = Fault) /\
  (q_room (abs s) < guard -> call s = AssertFail).
Proof.
  intros Hok H0 H1 H2 Hpb Hlen Hpl call guard.
  assert (Hps : 0 < PSIZE (p_prefixlen p)).
  { apply Z.div_str_pos. lia. }
  assert (Hh : Z.of_nat (length (labeled_header p l0 l1 l2 b txid)) = (if b then 4 else 0) + 4)
    by by destruct b.
  split_and!.
  - intros Hr. apply labeled_prefix_fits; (done || lia).
  - intros Hr. destruct (labeled_prefix_header p l0 l1 l2 b txid H0 H1 H2 ltac:(lia) s Hok)
      as (s1 & Hok1 & Ha1 & E); [unfold guard in *; lia..|].
    assert (Hr1 : q_room (abs s1) < PSIZE (p_prefixlen p)).
    { rewrite Ha1. cbn [q_push q_room]. rewrite Hh. unfold guard in Hr. lia. }
    unfold call. rewrite E. apply bind_fault. unfold memcpy_to.
    rewrite (bind_ret_eq mget _ s1 s1 s1) by done. rewrite block_read_Some by lia.
    rewrite (bind_ret_eq (of_option _) _ s1 _ s1) by reflexivity.
    apply bind_fault. unfold block_write. rewrite bool_decide_false; [done|].
    rewrite length_take, length_drop. destruct Hok1. simpl in Hr1. lia.
  - by apply labeled_prefix_no_room.
Qed.

Lemma stream_put_labeled_prefix_overflow_witness :
  let s := Stream 0 0 6 (replicate 6 0) in
  let p := Prefix 24 [10; 1; 2; 0] in
  (6 < q_room (abs s) ->
     runs (stream_put_labeled_prefix p [0; 1; 1] false 0) s (fun r s' => r = 6 /\
       stream_ok s' /\ abs s' = q_push (labeled_header p 0 1 1 false 0 ++ [10; 1; 2]) (abs s))) /\
  (q_room (abs s) = 6 -> stream_put_labeled_prefix p [0; 1; 1] false 0 s = Fault) /\
  (q_room (abs s) < 6 -> stream_put_labeled_prefix p [0; 1; 1] false 0 s = AssertFail).
Proof.
  apply (stream_put_labeled_prefix_overflow (Stream 0 0 6 (replicate 6 0))
           (Prefix 24 [10; 1; 2; 0]) 0 1 1 false 0); try (unfold is_byte; lia).
  - split; simpl; try lia. repeat constructor; done.
  - repeat constructor; done.
  - simpl. lia.
  - vm_compute. discriminate.
Defined.
