(* ===== verification/StreamFifo.v ===== *)
(** * FRR stream fifos (components/frr-frr-7.2/lib/stream.c, [struct stream_fifo])

    The intrusive singly linked queue the daemons keep pending messages on.
    The store is the [next] pointer of every live stream; [fifo_rep] relates
    it to the list of queued streams, and the operations act on that list as a
    queue.  The [_safe] variants run the same bodies under the fifo's mutex
    ([frr_with_mutex]), so one of them is one atomic step of this model. *)

From S2P Require Import Prelude.

Abbreviation loc := positive.
Abbreviation ptr := (option positive).

(** The [next] field of the live streams, and the [struct stream_fifo]
    ([max_count] exists in development builds only). *)
Record fifo_state : Type := FifoState {
  f_next : gmap loc ptr;
  f_head : ptr;
  f_tail : ptr;
  f_count : Z
}.

Abbreviation Fi := (M fifo_state).

Definition set_next (m : gmap loc ptr) (st : fifo_state) : fifo_state :=
  FifoState m (f_head st) (f_tail st) (f_count st).
Definition set_head (p : ptr) (st : fifo_state) : fifo_state :=
  FifoState (f_next st) p (f_tail st) (f_count st).
Definition set_tail (p : ptr) (st : fifo_state) : fifo_state :=
  FifoState (f_next st) (f_head st) p (f_count st).
Definition set_count (c : Z) (st : fifo_state) : fifo_state :=
  FifoState (f_next st) (f_head st) (f_tail st) c.

(** [s->next] *)
Definition read_next (s : loc) : Fi ptr := st ← mget; of_option (f_next st !! s).

(** [s->next = p]: undefined behaviour unless [s] is a live stream *)
Definition write_next (s : loc) (p : ptr) : Fi unit :=
  _ ← read_next s; mmodify (fun st => set_next (<[s := p]> (f_next st)) st).

(** [free(s)] *)
Definition free_stream (s : loc) : Fi unit :=
  _ ← read_next s; mmodify (fun st => set_next (delete s (f_next st)) st).

(** [stream_fifo_new]: [XCALLOC] zeroes the structure. *)
Definition stream_fifo_new (live : gmap loc ptr) : fifo_state :=
  FifoState live None None 0.

Definition stream_fifo_push (s : loc) : Fi unit :=
  st ← mget;
  (match f_tail st with
   | Some t => write_next t (Some s)
   | None => mmodify (set_head (Some s))
   end) ;;
  mmodify (set_tail (Some s)) ;;
  write_next s None ;;
  mmodify (fun st => set_count (usz (f_count st + 1)) st).

Definition stream_fifo_pop : Fi ptr :=
  st ← mget;
  match f_head st with
  | Some s =>
      next ← read_next s;
      mmodify (set_head next) ;;
      mwhen (bool_decide (next = None)) (mmodify (set_tail None)) ;;
      mmodify (fun st => set_count (usz (f_count st - 1)) st) ;;
      write_next s None ;;
      mret (Some s)
  | None => mret None
  end.

Definition stream_fifo_head : Fi ptr := st ← mget; mret (f_head st).

Definition stream_fifo_count_safe : Fi Z := st ← mget; mret (f_count st).

(** [for (s = fifo->head; s; s = next) { next = s->next; stream_free(s); }];
    [fuel] bounds the iterations. *)
Fixpoint clean_loop (fuel : nat) (s : ptr) : Fi unit :=
  match s with
  | None => mret tt
  | Some s =>
      match fuel with
      | O => mnofuel
      | S fuel =>
          next ← read_next s;
          free_stream s ;;
          clean_loop fuel next
      end
  end.

Definition stream_fifo_clean : Fi unit :=
  st ← mget;
  clean_loop (size (f_next st)) (f_head st) ;;
  mmodify (set_head None) ;;
  mmodify (set_tail None) ;;
  mmodify (set_count 0).

Definition stream_fifo_free : Fi unit := stream_fifo_clean.

(** ** The queue a fifo represents *)

(** [lseg m p l]: following [next] from [p] visits exactly [l]. *)
Fixpoint lseg (m : gmap loc ptr) (p : ptr) (l : list loc) : Prop :=
  match l with
  | [] => p = None
  | x :: l' => p = Some x /\ exists n, m !! x = Some n /\ lseg m n l'
  end.

Record fifo_rep (st : fifo_state) (l : list loc) : Prop := {
  rep_seg : lseg (f_next st) (f_head st) l;
  rep_nodup : NoDup l;
  rep_tail : f_tail st = last l;
  rep_count : f_count st = usz (Z.of_nat (length l))
}.

Lemma lseg_insert_ne m p l x v :
  x ∉ l -> lseg m p l -> lseg (<[x := v]> m) p l.
Proof.
  revert p. induction l as [|y l IH]; intros p Hx; simpl; [done|].
  apply not_elem_of_cons in Hx as [Hne Hx].
  intros [-> (n & Hy & Hl)]. split; [done|]. exists n.
  rewrite lookup_insert_ne by done. auto.
Qed.

Lemma lseg_delete m p l x : x ∉ l -> lseg m p l -> lseg (delete x m) p l.
Proof.
  revert p. induction l as [|y l IH]; intros p Hx; simpl; [done|].
  apply not_elem_of_cons in Hx as [Hne Hx].
  intros [-> (n & Hy & Hl)]. split; [done|]. exists n.
  rewrite lookup_delete_ne by done. auto.
Qed.

Lemma lseg_elem m p l x : lseg m p l -> x ∈ l -> is_Some (m !! x).
Proof.
  revert p. induction l as [|y l IH]; intros p Hs Hx; [by apply elem_of_nil in Hx|].
  destruct Hs as [_ (n & Hy & Hl)]. apply elem_of_cons in Hx as [->|Hx]; eauto.
Qed.

(** Linking a new last node. *)
Lemma lseg_snoc m p l t s :
  NoDup l -> last l = Some t -> s ∉ l -> is_Some (m !! s) -> lseg m p l ->
  lseg (<[s := None]> (<[t := Some s]> m)) p (l ++ [s]).
Proof.
  revert p. induction l as [|y l IH]; intros p Hnd Hlast Hs Hlive Hl; [done|].
  apply NoDup_cons in Hnd as [Hy Hnd]. apply not_elem_of_cons in Hs as [Hsy Hs].
  destruct Hl as [-> (n & Hyn & Hl)]. simpl. split; [done|].
  destruct l as [|z l].
  - injection Hlast as ->. exists (Some s).
    rewrite lookup_insert_ne, lookup_insert_eq by done. split; [done|].
    simpl. split; [done|]. exists None. by rewrite lookup_insert_eq.
  - assert (t ∈ z :: l) by (apply last_Some_elem_of; by rewrite <- Hlast).
    exists n. rewrite !lookup_insert_ne by set_solver. split; [done|].
    apply IH; auto.
Qed.

(** Every queue operation, with what it returns, as a step on the represented
    list *)
Inductive fifo_op : Type := FPush (s : loc) | FPop | FHead | FCount.

Inductive fifo_val : Type := NoValue | StreamAt (p : ptr) | Count (n : Z).

Definition fifo_run (o : fifo_op) : Fi fifo_val :=
  match o with
  | FPush s => stream_fifo_push s ;; mret NoValue
  | FPop => p ← stream_fifo_pop; mret (StreamAt p)
  | FHead => p ← stream_fifo_head; mret (StreamAt p)
  | FCount => n ← stream_fifo_count_safe; mret (Count n)
  end.

Definition fifo_spec (o : fifo_op) (l : list loc) : fifo_val * list loc :=
  match o with
  | FPush s => (NoValue, l ++ [s])
  | FPop => (StreamAt (head l), tail l)
  | FHead => (StreamAt (head l), l)
  | FCount => (Count (usz (Z.of_nat (length l))), l)
  end.

(** A caller may push a live stream that is not queued already. *)
Definition fifo_pre (o : fifo_op) (st : fifo_state) (l : list loc) : Prop :=
  match o with
  | FPush s => is_Some (f_next st !! s) /\ s ∉ l
  | _ => True
  end.

Lemma write_next_eq s p st :
  is_Some (f_next st !! s) ->
  write_next s p st = Ret (tt, set_next (<[s := p]> (f_next st)) st).
Proof.
  intros [n Hn]. unfold write_next, read_next, mget, of_option, mmodify, mbind, M_bind.
  by rewrite Hn.
Qed.

Lemma push_rep st l s :
  fifo_rep st l -> is_Some (f_next st !! s) -> s ∉ l ->
  exists st', stream_fifo_push s st = Ret (tt, st') /\ fifo_rep st' (l ++ [s]) /\
    dom (f_next st') = dom (f_next st).
Proof.
  intros [Hseg Hnd Htail Hcount] Hlive Hs. unfold stream_fifo_push.
  rewrite (bind_ret_eq mget _ st st st) by done. rewrite Htail.
  assert (Hc : usz (f_count st + 1) = usz (Z.of_nat (length (l ++ [s])))).
  { rewrite Hcount, wrap_add_idemp_l, length_app. f_equal. simpl. lia. }
  destruct (last l) as [t|] eqn:Hl.
  - assert (Ht : is_Some (f_next st !! t)).
    { apply (lseg_elem _ _ _ _ Hseg). apply last_Some_elem_of. by rewrite <- Hl. }
    rewrite (bind_ret_eq _ _ _ _ _ (write_next_eq t (Some s) st Ht)).
    rewrite (bind_ret_eq (mmodify _) _ _ tt _) by done.
    erewrite bind_ret_eq by (apply write_next_eq; simpl;
      rewrite lookup_insert; case_decide; [by eexists|done]).
    eexists. split; [reflexivity|]. simpl. split.
    + split; simpl; [by apply lseg_snoc| |by rewrite last_snoc|done].
      apply NoDup_app. split_and!; [done| |apply NoDup_singleton]. set_solver.
    + rewrite dom_insert_lookup_L by (rewrite lookup_insert; case_decide; [by eexists|done]).
      by apply dom_insert_lookup_L.
  - apply last_None in Hl as ->. simpl in *.
    rewrite !(bind_ret_eq (mmodify _) _ _ tt _) by done.
    erewrite bind_ret_eq by (by apply write_next_eq).
    eexists. split; [reflexivity|]. simpl. split; [|by apply dom_insert_lookup_L].
    split; simpl; [|apply NoDup_singleton|done|done].
    split; [done|]. exists None. by rewrite lookup_insert_eq.
Qed.

Lemma pop_rep st l :
  fifo_rep st l ->
  exists st', stream_fifo_pop st = Ret (head l, st') /\ fifo_rep st' (tail l) /\
    dom (f_next st') = dom (f_next st) /\
    (forall s, head l = Some s -> f_next st' !! s = Some None).
Proof.
  intros [Hseg Hnd Htail Hcount]. unfold stream_fifo_pop.
  rewrite (bind_ret_eq mget _ st st st) by done.
  destruct l as [|s l]; simpl in Hseg.
  - rewrite Hseg. exists st. by repeat split.
  - destruct Hseg as [Hhd (n & Hn & Hl)]. rewrite Hhd.
    apply NoDup_cons in Hnd as [Hs Hnd].
    erewrite bind_ret_eq by (unfold read_next, of_option, mbind, M_bind; simpl; by rewrite Hn).
    rewrite (bind_ret_eq (mmodify _) _ _ tt _) by done.
    assert (Hc : usz (f_count st - 1) = usz (Z.of_nat (length l))).
    { rewrite Hcount. unfold Z.sub. rewrite wrap_add_idemp_l. f_equal. simpl. lia. }
    rewrite (bind_ret_eq _ _ _ tt (FifoState (f_next st) n (last l) (f_count st))).
    2:{ unfold mwhen. destruct l as [|y l]; simpl in Hl.
        - by rewrite Hl.
        - destruct Hl as [-> _]. simpl. unfold mret, M_ret, set_head. by rewrite Htail. }
    rewrite (bind_ret_eq (mmodify _) _ _ tt _) by done.
    erewrite bind_ret_eq by (by apply write_next_eq; eexists).
    eexists. split; [reflexivity|]. simpl. split_and!.
    + split; simpl; [by apply lseg_insert_ne|done|done|done].
    + apply dom_insert_lookup_L. by eexists.
    + intros s' [= <-]. apply lookup_insert_eq.
Qed.

(** Removing a list of keys. *)
Definition delete_all (l : list loc) (m : gmap loc ptr) : gmap loc ptr :=
  foldl (fun m x => delete x m) m l.

Lemma clean_loop_rep fuel st p l :
  lseg (f_next st) p l -> NoDup l -> (length l <= fuel)%nat ->
  clean_loop fuel p st = Ret (tt, set_next (delete_all l (f_next st)) st).
Proof.
  revert st p fuel. induction l as [|x l IH]; intros st p fuel Hs Hnd Hf; simpl in Hs.
  { subst p. destruct fuel; simpl; by destruct st. }
  destruct Hs as [-> (n & Hn & Hs)]. apply NoDup_cons in Hnd as [Hx Hnd].
  destruct fuel as [|fuel]; simpl in Hf; [lia|]. simpl.
  erewrite bind_ret_eq by (unfold read_next, of_option, mbind, M_bind; simpl; by rewrite Hn).
  erewrite bind_ret_eq by (unfold free_stream, read_next, of_option, mbind, M_bind;
    simpl; rewrite Hn; reflexivity).
  rewrite IH; [done| |done|lia]. by apply lseg_delete.
Qed.

Lemma lseg_length m p l : lseg m p l -> NoDup l -> (length l <= size m)%nat.
Proof.
  intros Hs Hnd. rewrite <- (size_list_to_set (C := gset loc) l) by done.
  rewrite <- (size_dom (D := gset loc)). apply subseteq_size.
  intros x Hx. apply elem_of_list_to_set in Hx. apply elem_of_dom. by eapply lseg_elem.
Qed.

Lemma delete_all_lookup l m x :
  delete_all l m !! x = if decide (x ∈ l) then None else m !! x.
Proof.
  revert m. induction l as [|y l IH]; intros m; simpl; [done|].
  unfold delete_all in *. simpl. rewrite IH, lookup_delete.
  repeat case_decide; set_solver.
Qed.

(** C29. A [stream_fifo] is a first-in first-out queue: on a fifo that holds the
    streams [l], [stream_fifo_push] of a live, unqueued stream makes it hold
    [l] and that stream, [stream_fifo_pop] returns the oldest stream and unlinks
    it, [stream_fifo_head] returns it without unlinking, and
    [stream_fifo_count_safe] returns the number of streams held; no operation
    leaves the live streams. *)
Theorem stream_fifo_refines_queue o st l :
  fifo_rep st l -> fifo_pre o st l ->
  exists st', fifo_run o st = Ret ((fifo_spec o l).1, st') /\
    fifo_rep st' (fifo_spec o l).2 /\
    dom (f_next st') = dom (f_next st) /\
    (o = FPop -> forall s, head l = Some s -> f_next st' !! s = Some None).
Proof.
  intros Hrep Hpre. destruct o as [s| | |]; simpl in *.
  - destruct Hpre as [Hlive Hs].
    destruct (push_rep st l s Hrep Hlive Hs) as (st' & E & Hrep' & Hd).
    exists st'. rewrite (bind_ret_eq _ _ _ _ _ E). by split_and!.
  - destruct (pop_rep st l Hrep) as (st' & E & Hrep' & Hd & Hu).
    exists st'. rewrite (bind_ret_eq _ _ _ _ _ E). by split_and!.
  - exists st. split_and!; [|done..]. destruct Hrep as [Hseg _ _ _].
    unfold stream_fifo_head, mret, M_ret, mbind, M_bind. simpl. do 3 f_equal.
    destruct l; simpl in Hseg; naive_solver.
  - exists st. split_and!; [|done..]. destruct Hrep as [_ _ _ Hc].
    unfold stream_fifo_count_safe, mret, M_ret, mbind, M_bind. simpl. by rewrite Hc.
Qed.

Definition demo_live : gmap loc ptr := list_to_map [(1%positive, None); (2%positive, None)].

Definition demo_fifo : fifo_state := FifoState demo_live (Some 1%positive) (Some 1%positive) 1.

Lemma demo_fifo_rep : fifo_rep demo_fifo [1%positive].
Proof.
  split; simpl; [|apply NoDup_singleton|done|done].
  split; [done|]. exists None. split; reflexivity.
Qed.

Lemma stream_fifo_refines_queue_witness :
  (exists st', fifo_run (FPush 2%positive) demo_fifo = Ret (NoValue, st') /\
    fifo_rep st' [1%positive; 2%positive] /\
    fifo_run FPop st' = Ret (StreamAt (Some 1%positive),
      FifoState demo_live (Some 2%positive) (Some 2%positive) 1)) /\
  exists st', fifo_run FCount demo_fifo = Ret (Count 1, st').
Proof.
  split.
  - destruct (stream_fifo_refines_queue (FPush 2%positive) demo_fifo [1%positive] demo_fifo_rep)
      as (st' & E & Hrep & _).
    + split; [by eexists|]. intros H. apply list_elem_of_singleton in H. discriminate.
    + exists st'. split; [exact E|]. split; [exact Hrep|].
      vm_compute in E. injection E as <-. vm_compute. reflexivity.
  - destruct (stream_fifo_refines_queue FCount demo_fifo [1%positive] demo_fifo_rep I)
      as (st' & E & _).
    by exists st'.
Defined.

(** [stream_fifo_clean] terminates within as many iterations as there are
    live streams, frees exactly the queued streams, and leaves an empty fifo. *)
Theorem stream_fifo_clean_frees st l :
  fifo_rep st l ->
  exists st', stream_fifo_clean st = Ret (tt, st') /\ fifo_rep st' [] /\
    forall x, f_next st' !! x = if decide (x ∈ l) then None else f_next st !! x.
Proof.
  intros [Hseg Hnd Ht Hc]. unfold stream_fifo_clean.
  rewrite (bind_ret_eq mget _ st st st) by done.
  erewrite bind_ret_eq by (apply (clean_loop_rep _ _ _ l); [done|done|by eapply lseg_length]).
  eexists. split; [reflexivity|]. split; [by split; simpl; [|apply NoDup_nil_2| |]|].
  intros x. simpl. apply delete_all_lookup.
Qed.

Lemma stream_fifo_clean_frees_witness :
  exists st', stream_fifo_clean demo_fifo = Ret (tt, st') /\ fifo_rep st' [] /\
    forall x, f_next st' !! x = if decide (x ∈ [1%positive]) then None else demo_live !! x.
Proof. exact (stream_fifo_clean_frees demo_fifo [1%positive] demo_fifo_rep). Defined.
