(* ===== verification/SepLogic.v ===== *)
(** * A separation logic for the pointer structures

    Memory is a finite map from addresses to cells.  [hprop] is the type of
    assertions on a part of memory; it is an instance of Iris's [bi], so the
    Iris proof mode works on it.  [wp m Q] holds of a part of memory from
    which [m] terminates normally and establishes [Q], whatever the rest of
    memory is, and leaves that rest as it was.  The rules at the end are the
    ones the heap proofs use. *)

From S2P Require Import Prelude.
From iris.proofmode Require Import proofmode.
From iris.bi Require Import interface derived_laws.

#[local] Open Scope Z_scope.

Section hprop.
Context {V : Type}.
Abbreviation heap := (gmap Z V).

(** ** Assertions *)
Record hprop := Hprop { hprop_holds :> heap -> Prop }.

Implicit Types P Q R : hprop.

Inductive hprop_entails P Q : Prop :=
  { hprop_in_entails : forall h, P h -> Q h }.

Inductive hprop_equiv' P Q : Prop :=
  { hprop_in_equiv : forall h, P h <-> Q h }.
Local Instance hprop_equiv : Equiv hprop := hprop_equiv'.
Local Instance hprop_equivalence : Equivalence (≡@{hprop}).
Proof.
  split; repeat destruct 1; constructor; naive_solver.
Qed.

Canonical Structure hpropO := discreteO hprop.

Definition hprop_emp : hprop := {| hprop_holds h := h = ∅ |}.
Definition hprop_pure (φ : Prop) : hprop := {| hprop_holds _ := φ |}.
Definition hprop_and P Q : hprop := {| hprop_holds h := P h /\ Q h |}.
Definition hprop_or P Q : hprop := {| hprop_holds h := P h \/ Q h |}.
Definition hprop_impl P Q : hprop := {| hprop_holds h := P h -> Q h |}.
Definition hprop_forall {A} (Ψ : A -> hprop) : hprop :=
  {| hprop_holds h := forall a, Ψ a h |}.
Definition hprop_exist {A} (Ψ : A -> hprop) : hprop :=
  {| hprop_holds h := exists a, Ψ a h |}.
Definition hprop_sep P Q : hprop :=
  {| hprop_holds h := exists h1 h2, h = h1 ∪ h2 /\ h1 ##ₘ h2 /\ P h1 /\ Q h2 |}.
Definition hprop_wand P Q : hprop :=
  {| hprop_holds h := forall h', h ##ₘ h' -> P h' -> Q (h ∪ h') |}.
Definition hprop_persistently P : hprop := hprop_pure (hprop_entails hprop_emp P).
Definition hprop_later P : hprop := P.

Lemma hprop_bi_mixin :
  BiMixin hprop_entails hprop_emp hprop_pure hprop_and hprop_or hprop_impl
    (@hprop_forall) (@hprop_exist) hprop_sep hprop_wand.
Proof.
  split.
  - split; [by constructor|]. intros P Q R [H1] [H2]. constructor. auto.
  - split.
    + intros [H]. split; constructor; intros h; apply H.
    + intros [[H1] [H2]]. constructor. split; auto.
  - intros n φ1 φ2 Hφ. by constructor.
  - intros n P P' [HP] Q Q' [HQ]. constructor. intros h. simpl. by rewrite HP HQ.
  - intros n P P' [HP] Q Q' [HQ]. constructor. intros h. simpl. by rewrite HP HQ.
  - intros n P P' [HP] Q Q' [HQ]. constructor. intros h. simpl. by rewrite HP HQ.
  - intros A n Φ Φ' HΦ. constructor. intros h. simpl.
    split; intros H a; by apply (HΦ a).
  - intros A n Φ Φ' HΦ. constructor. intros h. simpl.
    split; intros [a Ha]; exists a; by apply (HΦ a).
  - intros n P P' [HP] Q Q' [HQ]. constructor. intros h.
    split; intros (h1 & h2 & -> & Hd & H1 & H2); exists h1, h2;
      repeat split; auto; (by apply HP) || (by apply HQ).
  - intros n P P' [HP] Q Q' [HQ]. constructor. intros h.
    split; intros H h' Hd Hh'; apply HQ, H; auto; by apply HP.
  - by constructor.
  - intros φ P H. constructor. intros h Hφ. by destruct (H Hφ) as [H']; apply H'.
  - constructor. by intros h [? ?].
  - constructor. by intros h [? ?].
  - intros P Q R [H1] [H2]. constructor. simpl. auto.
  - constructor. by left.
  - constructor. by right.
  - intros P Q R [H1] [H2]. constructor. intros h [?|?]; auto.
  - intros P Q R [H]. constructor. intros h HP HQ. by apply H.
  - intros P Q R [H]. constructor. intros h [HP HQ]. by apply H.
  - intros A P Ψ H. constructor. intros h HP a. destruct (H a) as [H']. by apply H'.
  - intros A Ψ a. constructor. intros h H. apply H.
  - intros A Ψ a. constructor. intros h H. by exists a.
  - intros A Φ Q H. constructor. intros h [a Ha]. destruct (H a) as [H']. by apply H'.
  - intros P P' Q Q' [HP] [HQ]. constructor.
    intros h (h1 & h2 & -> & Hd & H1 & H2). exists h1, h2. auto.
  - intros P. constructor. intros h HP. exists ∅, h.
    rewrite left_id_L. split_and!; try done. apply map_disjoint_empty_l.
  - intros P. constructor. intros h (h1 & h2 & -> & Hd & -> & HP).
    by rewrite left_id_L.
  - intros P Q. constructor. intros h (h1 & h2 & -> & Hd & H1 & H2).
    exists h2, h1. rewrite map_union_comm //.
  - intros P Q R. constructor.
    intros h (hx & h3 & -> & Hd & (h1 & h2 & -> & Hd' & H1 & H2) & H3).
    apply map_disjoint_union_l in Hd as [Hd1 Hd2].
    exists h1, (h2 ∪ h3). rewrite assoc_L. split_and!; try done.
    + by apply map_disjoint_union_r_2.
    + by exists h2, h3.
  - intros P Q R [H]. constructor. intros h HP h' Hd HQ. apply H. by exists h, h'.
  - intros P Q R [H]. constructor. intros h (h1 & h2 & -> & Hd & H1 & H2).
    by apply H.
Qed.

Lemma hprop_persistently_mixin :
  BiPersistentlyMixin hprop_entails hprop_emp hprop_and (@hprop_exist)
    hprop_sep hprop_persistently.
Proof.
  eapply bi_persistently_mixin_discrete, hprop_bi_mixin; [done| |done].
  intros A Φ [H]. destruct (H ∅) as [a Ha]; [done|].
  exists a. constructor. by intros h ->.
Qed.

Lemma hprop_later_mixin :
  BiLaterMixin hprop_entails hprop_pure hprop_or hprop_impl
    (@hprop_forall) (@hprop_exist) hprop_sep hprop_persistently hprop_later.
Proof. eapply bi_later_mixin_id; [done|apply hprop_bi_mixin]. Qed.

Canonical Structure hpropI : bi :=
  {| bi_ofe_mixin := ofe_mixin_of hprop;
     bi_bi_mixin := hprop_bi_mixin;
     bi_bi_persistently_mixin := hprop_persistently_mixin;
     bi_bi_later_mixin := hprop_later_mixin |}.

#[export] Instance hprop_pure_forall : BiPureForall hpropI.
Proof. intros A φ. rewrite /bi_forall /bi_pure /=. by constructor. Qed.
End hprop.
Arguments hprop : clear implicits.
Arguments hpropI : clear implicits.

(** ** Memory operations

    A pointer is an address; [0] is [NULL].  Reading or writing through
    [NULL] or an address that holds no object is a [Fault]. *)
Section memory.
Context {V : Type}.
Abbreviation heap := (gmap Z V).

Definition mem_load (a : Z) : M heap V := fun h =>
  if a =? 0 then Fault else
  match h !! a with Some v => Ret (v, h) | None => Fault end.

Definition mem_store (a : Z) (v : V) : M heap unit := fun h =>
  if a =? 0 then Fault else
  match h !! a with Some _ => Ret (tt, <[a := v]> h) | None => Fault end.

(** [free(a)]: the object is gone. *)
Definition mem_free (a : Z) : M heap unit := fun h =>
  if a =? 0 then Fault else
  match h !! a with Some _ => Ret (tt, delete a h) | None => Fault end.

(** The fuel of a loop that visits distinct objects: their number. *)
Definition mem_fuel : M heap nat := fun h => Ret (size h, h).

(** ** Assertions about memory *)
Definition points_to (a : Z) (v : V) : hprop V :=
  {| hprop_holds h := a <> 0 /\ h = {[ a := v ]} |}.

(** The part of memory has at least [n] objects. *)
Definition at_least (n : nat) : hprop V :=
  {| hprop_holds h := (n <= size h)%nat |}.

Definition wp {A} (m : M heap A) (Q : A -> hprop V) : hprop V :=
  {| hprop_holds h := forall hf, h ##ₘ hf ->
       exists a h', m (h ∪ hf) = Ret (a, h' ∪ hf) /\ h' ##ₘ hf /\ Q a h' |}.
End memory.

Notation "a ↦ v" := (points_to a v) (at level 20) : bi_scope.

Section rules.
Context {V : Type}.
Abbreviation heap := (gmap Z V).
Implicit Types P R : hpropI V.

Lemma hprop_sep_holds (P R : hprop V) h :
  bi_sep (PROP := hpropI V) P R h <->
  exists h1 h2, h = h1 ∪ h2 /\ h1 ##ₘ h2 /\ P h1 /\ R h2.
Proof. done. Qed.

Lemma hprop_entails_holds (P R : hpropI V) h : (P ⊢ R) -> P h -> R h.
Proof. intros [H]. apply H. Qed.

Lemma points_to_ne a b (v w : V) : a ↦ v ∗ b ↦ w ⊢ ⌜a <> b⌝.
Proof.
  constructor. intros h (h1 & h2 & -> & Hd & [_ ->] & [_ ->]) ->.
  rewrite map_disjoint_singleton_l lookup_singleton_eq in Hd. done.
Qed.

Lemma points_to_nonnull a (v : V) : a ↦ v ⊢ ⌜a <> 0⌝.
Proof. constructor. by intros h [? _]. Qed.

Lemma at_least_any P : P ⊢ at_least 0.
Proof. constructor. intros h _. simpl. lia. Qed.

Lemma at_least_0 : ⊢@{hpropI V} at_least 0.
Proof. apply at_least_any. Qed.

Lemma at_least_points_to a (v : V) : a ↦ v ⊢ at_least 1.
Proof. constructor. intros h [_ ->]. simpl. by rewrite map_size_singleton. Qed.

Lemma at_least_sep m n : (at_least m : hpropI V) ∗ at_least n ⊢ at_least (m + n).
Proof.
  constructor. intros h (h1 & h2 & -> & Hd & H1 & H2). simpl in *.
  rewrite map_size_disj_union //. lia.
Qed.

Lemma at_least_mono m n : (n <= m)%nat -> (at_least m : hpropI V) ⊢ at_least n.
Proof. constructor. intros h. simpl. lia. Qed.

(** *** Structural rules *)
Lemma wp_ret {A} (a : A) Q : (Q a : hpropI V) ⊢ wp (mret a) Q.
Proof. constructor. intros h HQ hf Hd. by exists a, h. Qed.

Lemma wp_wand {A} (m : M heap A) (Q Q' : A -> hpropI V) :
  wp m Q ∗ (∀ a, Q a -∗ Q' a) ⊢ wp m Q'.
Proof.
  constructor. intros h (h1 & h2 & -> & Hd & Hm & HQ) hf Hdf.
  apply map_disjoint_union_l in Hdf as [Hd1 Hd2].
  destruct (Hm (h2 ∪ hf)) as (a & h' & E & Hd' & Ha).
  { by apply map_disjoint_union_r_2. }
  apply map_disjoint_union_r in Hd' as [Hd3 Hd4].
  exists a, (h2 ∪ h'). rewrite -assoc_L E. split_and!.
  - f_equal. f_equal. by rewrite assoc_L (map_union_comm h' h2) // assoc_L.
  - by apply map_disjoint_union_l_2.
  - by apply HQ.
Qed.

Lemma wp_bind {A B} (m : M heap A) (k : A -> M heap B) (Q : B -> hpropI V) :
  wp m (fun a => wp (k a) Q) ⊢ wp (m ≫= k) Q.
Proof.
  constructor. intros h Hm hf Hd.
  destruct (Hm hf Hd) as (a & h' & E & Hd' & Hk).
  destruct (Hk hf Hd') as (b & h'' & E' & Hd'' & HQ).
  exists b, h''. by rewrite (bind_ret_eq _ _ _ _ _ E).
Qed.

Lemma wp_massert (b : bool) (Q : unit -> hpropI V) :
  b = true -> Q tt ⊢ wp (massert b) Q.
Proof. intros ->. apply wp_ret. Qed.

Lemma wp_fuel P n (Q : nat -> hpropI V) :
  (P ⊢ at_least n) -> (forall k, (n <= k)%nat -> P ⊢ Q k) -> P ⊢ wp mem_fuel Q.
Proof.
  intros HP HQ. constructor. intros h H hf Hd.
  exists (size (h ∪ hf)), h. split_and!; [done..|].
  pose proof (hprop_entails_holds _ _ _ HP H) as Hn. simpl in Hn.
  apply (hprop_entails_holds P); [|done]. apply HQ.
  rewrite map_size_disj_union //. lia.
Qed.

Lemma at_least_frame P R n : (P ⊢ at_least n) -> P ∗ R ⊢ at_least n.
Proof.
  intros HP. rewrite HP. constructor. intros h (h1 & h2 & -> & Hd & H1 & H2).
  simpl in *. rewrite map_size_disj_union //. lia.
Qed.

Lemma wp_mem_fuel P n (Q : nat -> hpropI V) :
  (P ⊢ at_least n) ->
  P -∗ (∀ k, ⌜(n <= k)%nat⌝ → P -∗ Q k) -∗ wp mem_fuel Q.
Proof.
  intros HP. apply bi.entails_wand, bi.wand_intro_r.
  apply (wp_fuel _ n); [by apply at_least_frame|].
  iIntros (k Hk) "[HP HQ]". by iApply ("HQ" with "[//] HP").
Qed.

(** *** Loads and stores *)
Lemma wp_load a v (Q : V -> hpropI V) :
  a ↦ v -∗ (a ↦ v -∗ Q v) -∗ wp (mem_load a) Q.
Proof.
  apply bi.entails_wand, bi.wand_intro_r. constructor. intros h (h1 & h2 & -> & Hd & [Ha ->] & HQ) hf Hdf.
  exists v, ({[a := v]} ∪ h2). unfold mem_load.
  destruct (Z.eqb_spec a 0); [done|].
  rewrite lookup_union_l' ?lookup_union_l' ?lookup_singleton_eq //; [].
  split_and!; [done..|]. rewrite map_union_comm //. by apply HQ.
Qed.

Lemma wp_store a v w (Q : unit -> hpropI V) :
  a ↦ v -∗ (a ↦ w -∗ Q tt) -∗ wp (mem_store a w) Q.
Proof.
  apply bi.entails_wand, bi.wand_intro_r. constructor. intros h (h1 & h2 & -> & Hd & [Ha ->] & HQ) hf Hdf.
  exists tt, ({[a := w]} ∪ h2). unfold mem_store.
  destruct (Z.eqb_spec a 0); [done|].
  rewrite lookup_union_l' ?lookup_union_l' ?lookup_singleton_eq //.
  assert (Hd2 : {[a := w]} ##ₘ h2).
  { rewrite map_disjoint_singleton_l. by rewrite map_disjoint_singleton_l in Hd. }
  split_and!.
  - by rewrite !insert_union_l insert_singleton_eq.
  - apply map_disjoint_union_l in Hdf as [Hd3 Hd4].
    apply map_disjoint_union_l_2; [|done].
    rewrite map_disjoint_singleton_l. by rewrite map_disjoint_singleton_l in Hd3.
  - rewrite map_union_comm //. apply HQ; [by symmetry|done].
Qed.

Lemma wp_free a v (Q : unit -> hpropI V) :
  a ↦ v -∗ Q tt -∗ wp (mem_free a) Q.
Proof.
  apply bi.entails_wand, bi.wand_intro_r. constructor.
  intros h (h1 & h2 & -> & Hd & [Ha ->] & HQ) hf Hdf. exists tt, h2.
  apply map_disjoint_union_l in Hdf as [Hd1 Hd2].
  rewrite map_disjoint_singleton_l in Hd. rewrite map_disjoint_singleton_l in Hd1.
  unfold mem_free. destruct (Z.eqb_spec a 0); [done|].
  rewrite lookup_union_l' ?lookup_union_l' ?lookup_singleton_eq //.
  split_and!; [|done|done]. f_equal. f_equal.
  rewrite -assoc_L delete_union delete_singleton_eq left_id_L.
  apply delete_id. by rewrite lookup_union_None.
Qed.
End rules.

(** A memory given by its cells satisfies their separating conjunction. *)
Lemma cells_hold {V} (l : list (Z * V)) :
  NoDup l.*1 -> Forall (fun p => p.1 <> 0) l ->
  hprop_holds ([∗ list] p ∈ l, p.1 ↦ p.2 : hpropI V)%I (list_to_map l).
Proof.
  induction l as [|[a v] l IH]; intros Hnd Hnn; [done|].
  apply NoDup_cons in Hnd as [Ha Hnd]. apply Forall_cons in Hnn as [Hn Hnn].
  exists {[a := v]}, (list_to_map l). split_and!.
  - by rewrite -insert_union_singleton_l.
  - rewrite map_disjoint_singleton_l. by apply not_elem_of_list_to_map_1.
  - done.
  - by apply IH.
Qed.
