(* ===== verification/Avl.v ===== *)
(** * libnvavl: AVL trees (components/libnvavl/avl.c, sys/avl_impl.h)

    The 64-bit build: the parent pointer, the child index and the balance
    of a node are packed in [avl_pcb].  Memory holds [avl_node] and
    [avl_tree] objects; a node is embedded in the user's object at
    [avl_offset], so data and node pointers differ by that offset.  Every
    function takes the pointers the C function takes.  [tmp] of
    [avl_remove] is the address of its local variable. *)

From S2P Require Import Prelude SepLogic.

#[local] Open Scope Z_scope.

(** ** Data *)

(** [struct avl_node]: [avl_child[2]] and [avl_pcb] *)
Record avl_node := AvlNode {
  avl_child : Z * Z;
  avl_pcb : Z
}.

(** [struct avl_tree]; [avl_compar] is a function pointer *)
Record avl_tree := AvlTree {
  avl_root : Z;
  avl_compar : Z;
  avl_offset : Z;
  avl_numnodes_f : Z;
  avl_size : Z
}.

Inductive cell :=
  | CNode (n : avl_node)
  | CTree (t : avl_tree).

Abbreviation mem := (gmap Z cell).
Abbreviation AM := (M mem).

Definition load_node (a : Z) : AM avl_node :=
  v ← mem_load a;
  match v with CNode n => mret n | CTree _ => mfault end.

Definition store_node (a : Z) (n : avl_node) : AM unit :=
  load_node a ;; mem_store a (CNode n).

Definition load_tree (a : Z) : AM avl_tree :=
  v ← mem_load a;
  match v with CTree t => mret t | CNode _ => mfault end.

Definition store_tree (a : Z) (t : avl_tree) : AM unit :=
  load_tree a ;; mem_store a (CTree t).

(** ** sys/avl_impl.h *)

(** The bit operations of the macros, on the value of [avl_pcb]. *)
Definition pcb_parent (pcb : Z) : Z := Z.land pcb (Z.lnot 7).
Definition pcb_set_parent (pcb p : Z) : Z := Z.lor (Z.land pcb 7) p.
Definition pcb_child (pcb : Z) : Z := Z.land (Z.shiftr pcb 2) 1.
Definition pcb_set_child (pcb c : Z) : Z := Z.lor (Z.land pcb (Z.lnot 4)) (Z.shiftl c 2).
Definition pcb_balance (pcb : Z) : Z := Z.land pcb 3 - 1.
Definition pcb_set_balance (pcb b : Z) : Z := Z.lor (Z.land pcb (Z.lnot 3)) (b + 1).

Definition AVL_XPARENT (n : Z) : AM Z :=
  x ← load_node n; mret (pcb_parent (avl_pcb x)).

Definition AVL_SETPARENT (n p : Z) : AM unit :=
  x ← load_node n;
  store_node n (AvlNode (avl_child x) (pcb_set_parent (avl_pcb x) p)).

Definition AVL_XCHILD (n : Z) : AM Z :=
  x ← load_node n; mret (pcb_child (avl_pcb x)).

Definition AVL_SETCHILD (n c : Z) : AM unit :=
  x ← load_node n;
  store_node n (AvlNode (avl_child x) (pcb_set_child (avl_pcb x) c)).

Definition AVL_XBALANCE (n : Z) : AM Z :=
  x ← load_node n; mret (pcb_balance (avl_pcb x)).

Definition AVL_SETBALANCE (n b : Z) : AM unit :=
  x ← load_node n;
  store_node n (AvlNode (avl_child x) (pcb_set_balance (avl_pcb x) b)).

Definition AVL_NODE2DATA (n o : Z) : Z := usz (n - o).
Definition AVL_DATA2NODE (d o : Z) : Z := usz (d + o).

Definition AVL_INDEX2NODE (x : Z) : Z := Z.land x (Z.lnot 1).
Definition AVL_INDEX2CHILD (x : Z) : Z := Z.land x 1.
Definition AVL_MKINDEX (n c : Z) : Z := Z.lor n c.

(** [n->avl_child[c]], read and written *)
Definition get_child (n c : Z) : AM Z :=
  x ← load_node n;
  if c =? 0 then mret (avl_child x).1
  else if c =? 1 then mret (avl_child x).2
  else mfault.

Definition set_child (n c v : Z) : AM unit :=
  x ← load_node n;
  if c =? 0 then store_node n (AvlNode (v, (avl_child x).2) (avl_pcb x))
  else if c =? 1 then store_node n (AvlNode ((avl_child x).1, v) (avl_pcb x))
  else mfault.

Definition set_avl_root (tree r : Z) : AM unit :=
  t ← load_tree tree;
  store_tree tree
    (AvlTree r (avl_compar t) (avl_offset t) (avl_numnodes_f t) (avl_size t)).

Definition set_avl_numnodes (tree n : Z) : AM unit :=
  t ← load_tree tree;
  store_tree tree
    (AvlTree (avl_root t) (avl_compar t) (avl_offset t) n (avl_size t)).

(** ** avl.c *)

Definition avl_child2balance (c : Z) : AM Z := of_option (block_get [-1; 1] c).
Definition avl_balance2child (i : Z) : AM Z := of_option (block_get [0; 0; 1] i).

Definition AVL_BEFORE : Z := 0.
Definition AVL_AFTER : Z := 1.

(** [for (; node->avl_child[right] != NULL; node = node->avl_child[right])] *)
Fixpoint walk_down (fuel : nat) (node right : Z) : AM Z :=
  match fuel with
  | O => mnofuel
  | S fuel' =>
      c ← get_child node right;
      if c =? 0 then mret node else walk_down fuel' c right
  end.

(** The [for (;;)] of [avl_walk]: the node reached, or [NULL]. *)
Fixpoint walk_up (fuel : nat) (node right : Z) : AM Z :=
  match fuel with
  | O => mnofuel
  | S fuel' =>
      was_child ← AVL_XCHILD node;
      node ← AVL_XPARENT node;
      if node =? 0 then mret 0
      else if was_child =? right then mret node
      else walk_up fuel' node right
  end.

Definition avl_walk (tree oldnode left : Z) : AM Z :=
  fuel ← mem_fuel;
  t ← load_tree tree;
  let off := avl_offset t in
  let node := AVL_DATA2NODE oldnode off in
  let right := 1 - left in
  if node =? 0 then mret 0
  else
    c ← get_child node left;
    if negb (c =? 0) then
      node ← walk_down fuel c right;
      mret (AVL_NODE2DATA node off)
    else
      node ← walk_up fuel node right;
      if node =? 0 then mret 0 else mret (AVL_NODE2DATA node off).

Definition AVL_NEXT (tree node : Z) : AM Z := avl_walk tree node AVL_AFTER.
Definition AVL_PREV (tree node : Z) : AM Z := avl_walk tree node AVL_BEFORE.

(** [for (; node != NULL; node = node->avl_child[c]) prev = node;] *)
Fixpoint extreme_loop (fuel : nat) (node prev c : Z) : AM Z :=
  match fuel with
  | O => mnofuel
  | S fuel' =>
      if node =? 0 then mret prev
      else n ← get_child node c; extreme_loop fuel' n node c
  end.

Definition avl_first (tree : Z) : AM Z :=
  fuel ← mem_fuel;
  t ← load_tree tree;
  prev ← extreme_loop (S fuel) (avl_root t) 0 0;
  if negb (prev =? 0) then mret (AVL_NODE2DATA prev (avl_offset t)) else mret 0.

Definition avl_last (tree : Z) : AM Z :=
  fuel ← mem_fuel;
  t ← load_tree tree;
  prev ← extreme_loop (S fuel) (avl_root t) 0 1;
  if negb (prev =? 0) then mret (AVL_NODE2DATA prev (avl_offset t)) else mret 0.

Definition avl_nearest (tree whr direction : Z) : AM Z :=
  let child := AVL_INDEX2CHILD whr in
  let node := AVL_INDEX2NODE whr in
  t ← load_tree tree;
  if node =? 0 then massert (avl_root t =? 0) ;; mret 0
  else
    let data := AVL_NODE2DATA node (avl_offset t) in
    if negb (child =? direction) then mret data
    else avl_walk tree data direction.

Section Avl.
(** What a call through the function pointer [avl_compar] returns for two
    data pointers: the user's comparison function. *)
Context (call_compar : Z -> Z -> Z -> Z).

(** The search loop: the data found, or the last node and the child
    direction taken from it. *)
Fixpoint find_loop (fuel : nat) (t : avl_tree) (value node prev child : Z)
    : AM (Z * option Z) :=
  match fuel with
  | O => mnofuel
  | S fuel' =>
      if node =? 0 then mret (0, Some (AVL_MKINDEX prev child))
      else
        let diff := call_compar (avl_compar t) value
                      (AVL_NODE2DATA node (avl_offset t)) in
        massert ((-1 <=? diff) && (diff <=? 1)) ;;
        if diff =? 0 then mret (AVL_NODE2DATA node (avl_offset t), None)
        else
          child ← avl_balance2child (1 + diff);
          n ← get_child node child;
          find_loop fuel' t value n node child
  end.

(** The pair of the returned pointer and the value stored in [*where];
    [None] when [*where] is not written. *)
Definition avl_find (tree value : Z) : AM (Z * option Z) :=
  fuel ← mem_fuel;
  t ← load_tree tree;
  find_loop (S fuel) t value (avl_root t) 0 0.

(** Single (case 1) and double (case 2) rotation; the result is C's
    truth value: the subtree became shorter. *)
Definition avl_rotation (tree node balance : Z) : AM bool :=
  let left := Z.b2z (negb (balance <? 0)) in
  let right := 1 - left in
  let left_heavy := Z.shiftr balance 1 in
  let right_heavy := - left_heavy in
  parent ← AVL_XPARENT node;
  child ← get_child node left;
  which_child ← AVL_XCHILD node;
  child_bal ← AVL_XBALANCE child;
  if negb (child_bal =? right_heavy) then
    let child_bal := child_bal + right_heavy in
    cright ← get_child child right;
    set_child node left cright ;;
    mwhen (negb (cright =? 0))
      (AVL_SETPARENT cright node ;; AVL_SETCHILD cright left) ;;
    set_child child right node ;;
    AVL_SETBALANCE node (- child_bal) ;;
    AVL_SETCHILD node right ;;
    AVL_SETPARENT node child ;;
    AVL_SETBALANCE child child_bal ;;
    AVL_SETCHILD child which_child ;;
    AVL_SETPARENT child parent ;;
    (if negb (parent =? 0) then set_child parent which_child child
     else set_avl_root tree child) ;;
    mret (child_bal =? 0)
  else
    gchild ← get_child child right;
    gleft ← get_child gchild left;
    gright ← get_child gchild right;
    set_child node left gright ;;
    mwhen (negb (gright =? 0))
      (AVL_SETPARENT gright node ;; AVL_SETCHILD gright left) ;;
    set_child child right gleft ;;
    mwhen (negb (gleft =? 0))
      (AVL_SETPARENT gleft child ;; AVL_SETCHILD gleft right) ;;
    balance ← AVL_XBALANCE gchild;
    set_child gchild left child ;;
    AVL_SETBALANCE child (if balance =? right_heavy then left_heavy else 0) ;;
    AVL_SETPARENT child gchild ;;
    AVL_SETCHILD child left ;;
    set_child gchild right node ;;
    AVL_SETBALANCE node (if balance =? left_heavy then right_heavy else 0) ;;
    AVL_SETPARENT node gchild ;;
    AVL_SETCHILD node right ;;
    AVL_SETBALANCE gchild 0 ;;
    AVL_SETPARENT gchild parent ;;
    AVL_SETCHILD gchild which_child ;;
    (if negb (parent =? 0) then set_child parent which_child gchild
     else set_avl_root tree gchild) ;;
    mret true.

(** The rebalancing [for (;;)] of [avl_insert], from its assignment
    [node = parent]. *)
Fixpoint insert_loop (fuel : nat) (tree parent which_child : Z) : AM unit :=
  match fuel with
  | O => mnofuel
  | S fuel' =>
      let node := parent in
      if node =? 0 then mret tt
      else
        old_balance ← AVL_XBALANCE node;
        d ← avl_child2balance which_child;
        let new_balance := old_balance + d in
        if new_balance =? 0 then AVL_SETBALANCE node 0
        else if negb (old_balance =? 0) then
          avl_rotation tree node new_balance ;; mret tt
        else
          AVL_SETBALANCE node new_balance ;;
          parent ← AVL_XPARENT node;
          which_child ← AVL_XCHILD node;
          insert_loop fuel' tree parent which_child
  end.

Definition avl_insert (tree new_data whr : Z) : AM unit :=
  fuel ← mem_fuel;
  let parent := AVL_INDEX2NODE whr in
  let which_child := AVL_INDEX2CHILD whr in
  massert (negb (tree =? 0)) ;;
  massert (Z.land new_data 7 =? 0) ;;
  t ← load_tree tree;
  let node := AVL_DATA2NODE new_data (avl_offset t) in
  set_avl_numnodes tree (u64 (avl_numnodes_f t + 1)) ;;
  set_child node 0 0 ;;
  set_child node 1 0 ;;
  AVL_SETCHILD node which_child ;;
  AVL_SETBALANCE node 0 ;;
  AVL_SETPARENT node parent ;;
  (if negb (parent =? 0) then
     c ← get_child parent which_child;
     massert (c =? 0) ;;
     set_child parent which_child node
   else
     t ← load_tree tree;
     massert (avl_root t =? 0) ;;
     set_avl_root tree node) ;;
  insert_loop (S fuel) tree parent which_child.

Definition avl_insert_here (tree new_data here direction : Z) : AM unit :=
  fuel ← mem_fuel;
  let child := direction in
  massert (negb (tree =? 0)) ;;
  massert (negb (new_data =? 0)) ;;
  massert (negb (here =? 0)) ;;
  massert ((direction =? AVL_BEFORE) || (direction =? AVL_AFTER)) ;;
  t ← load_tree tree;
  let node := AVL_DATA2NODE here (avl_offset t) in
  c ← get_child node child;
  '(node, child) ←
    (if negb (c =? 0) then
       node ← walk_down fuel c (1 - child);
       mret (node, 1 - child)
     else mret (node, child));
  c ← get_child node child;
  massert (c =? 0) ;;
  avl_insert tree new_data (AVL_MKINDEX node child).

Definition avl_add (tree new_node : Z) : AM unit :=
  '(found, whr) ← avl_find tree new_node;
  mwhen (negb (found =? 0)) (massert false) ;;
  whr ← of_option whr;
  avl_insert tree new_node whr.

(** The [do ... while (parent != NULL)] of [avl_remove]. *)
Fixpoint remove_loop (fuel : nat) (tree parent which_child : Z) : AM unit :=
  match fuel with
  | O => mnofuel
  | S fuel' =>
      let node := parent in
      old_balance ← AVL_XBALANCE node;
      d ← avl_child2balance which_child;
      let new_balance := old_balance - d in
      parent ← AVL_XPARENT node;
      which_child ← AVL_XCHILD node;
      let continue :=
        if negb (parent =? 0) then remove_loop fuel' tree parent which_child
        else mret tt in
      if old_balance =? 0 then AVL_SETBALANCE node new_balance
      else if new_balance =? 0 then AVL_SETBALANCE node new_balance ;; continue
      else
        shorter ← avl_rotation tree node new_balance;
        if negb shorter then mret tt else continue
  end.

(** The first half of [avl_remove] for a node with two children: [node]
    takes the place of [delete], and [tmp] that of [node]. *)
Definition remove_swap (fuel : nat) (tree delete tmp : Z) : AM Z :=
  old_balance ← AVL_XBALANCE delete;
  left ← avl_balance2child (old_balance + 1);
  let right := 1 - left in
  c ← get_child delete left;
  node ← walk_down fuel c right;
  n ← load_node node;
  store_node tmp n ;;
  n ← load_node delete;
  store_node node n ;;
  c ← get_child node left;
  mwhen (c =? node) (set_child node left tmp) ;;
  parent ← AVL_XPARENT node;
  (if negb (parent =? 0) then
     which ← AVL_XCHILD node; set_child parent which node
   else set_avl_root tree node) ;;
  c ← get_child node left;
  AVL_SETPARENT c node ;;
  c ← get_child node right;
  AVL_SETPARENT c node ;;
  let delete := tmp in
  parent ← AVL_XPARENT delete;
  which ← AVL_XCHILD delete;
  set_child parent which delete ;;
  c ← get_child delete 1;
  let which_child := Z.b2z (negb (c =? 0)) in
  c ← get_child delete which_child;
  mwhen (negb (c =? 0)) (AVL_SETPARENT c delete) ;;
  mret delete.

(** The second half of [avl_remove]: [delete] has at most one child. *)
Definition remove_leaf (fuel : nat) (tree delete : Z) : AM unit :=
  t ← load_tree tree;
  massert (0 <? avl_numnodes_f t) ;;
  set_avl_numnodes tree (u64 (avl_numnodes_f t - 1)) ;;
  parent ← AVL_XPARENT delete;
  which_child ← AVL_XCHILD delete;
  c0 ← get_child delete 0;
  node ← (if negb (c0 =? 0) then mret c0 else get_child delete 1);
  mwhen (negb (node =? 0))
    (AVL_SETPARENT node parent ;; AVL_SETCHILD node which_child) ;;
  if parent =? 0 then set_avl_root tree node
  else
    set_child parent which_child node ;;
    remove_loop (S fuel) tree parent which_child.

Definition avl_remove (tree data tmp : Z) : AM unit :=
  fuel ← mem_fuel;
  massert (negb (tree =? 0)) ;;
  t ← load_tree tree;
  let delete := AVL_DATA2NODE data (avl_offset t) in
  c0 ← get_child delete 0;
  c1 ← get_child delete 1;
  delete ←
    (if negb (c0 =? 0) && negb (c1 =? 0)
     then remove_swap fuel tree delete tmp else mret delete);
  remove_leaf fuel tree delete.

(** [AVL_REINSERT] *)
Definition AVL_REINSERT (tree obj tmp : Z) : AM unit :=
  avl_remove tree obj tmp ;; avl_add tree obj.

Definition avl_update_lt (t obj tmp : Z) : AM bool :=
  neighbor ← AVL_NEXT t obj;
  f ← load_tree t;
  massert ((neighbor =? 0) || (call_compar (avl_compar f) obj neighbor <=? 0)) ;;
  neighbor ← AVL_PREV t obj;
  if negb (neighbor =? 0) && (call_compar (avl_compar f) obj neighbor <? 0)
  then AVL_REINSERT t obj tmp ;; mret true
  else mret false.

Definition avl_update_gt (t obj tmp : Z) : AM bool :=
  neighbor ← AVL_PREV t obj;
  f ← load_tree t;
  massert ((neighbor =? 0) || (0 <=? call_compar (avl_compar f) obj neighbor)) ;;
  neighbor ← AVL_NEXT t obj;
  if negb (neighbor =? 0) && (0 <? call_compar (avl_compar f) obj neighbor)
  then AVL_REINSERT t obj tmp ;; mret true
  else mret false.

Definition avl_update (t obj tmp : Z) : AM bool :=
  neighbor ← AVL_PREV t obj;
  f ← load_tree t;
  if negb (neighbor =? 0) && (call_compar (avl_compar f) obj neighbor <? 0)
  then AVL_REINSERT t obj tmp ;; mret true
  else
    neighbor ← AVL_NEXT t obj;
    if negb (neighbor =? 0) && (0 <? call_compar (avl_compar f) obj neighbor)
    then AVL_REINSERT t obj tmp ;; mret true
    else mret false.
End Avl.

(** [sizeof (avl_node_t)] *)
Definition sizeof_avl_node : Z := 24.

Definition avl_create (tree compar size offset : Z) : AM unit :=
  massert (negb (tree =? 0)) ;;
  massert (negb (compar =? 0)) ;;
  massert (0 <? size) ;;
  massert (usz (offset + sizeof_avl_node) <=? size) ;;
  massert (Z.land offset 7 =? 0) ;;
  store_tree tree (AvlTree 0 compar offset 0 size).

Definition avl_destroy (tree : Z) : AM unit :=
  massert (negb (tree =? 0)) ;;
  t ← load_tree tree;
  massert (avl_numnodes_f t =? 0) ;;
  massert (avl_root t =? 0).

Definition avl_numnodes (tree : Z) : AM Z :=
  massert (negb (tree =? 0)) ;;
  t ← load_tree tree; mret (avl_numnodes_f t).

Definition avl_is_empty (tree : Z) : AM bool :=
  massert (negb (tree =? 0)) ;;
  t ← load_tree tree; mret (avl_numnodes_f t =? 0).

Definition CHILDBIT : Z := 1.

(** [while (node->avl_child[0] != NULL) { parent = node; ... }] *)
Fixpoint destroy_descend (fuel : nat) (node parent : Z) : AM (Z * Z) :=
  match fuel with
  | O => mnofuel
  | S fuel' =>
      c ← get_child node 0;
      if negb (c =? 0) then destroy_descend fuel' c node else mret (node, parent)
  end.

(** The code from the label [done]: the data returned and the cookie. *)
Definition destroy_done (tree node parent : Z) : AM (Z * Z) :=
  t ← load_tree tree;
  if parent =? 0 then
    massert (node =? avl_root t) ;;
    mret (AVL_NODE2DATA node (avl_offset t), CHILDBIT)
  else
    c ← AVL_XCHILD node;
    mret (AVL_NODE2DATA node (avl_offset t), Z.lor parent c).

(** The code from the label [check_right_side]. *)
Definition destroy_check_right (tree node parent : Z) : AM (Z * Z) :=
  c ← get_child node 1;
  if negb (c =? 0) then
    b ← AVL_XBALANCE node;
    massert (b =? 1) ;;
    c0 ← get_child c 0;
    c1 ← get_child c 1;
    massert ((c0 =? 0) && (c1 =? 0)) ;;
    destroy_done tree c node
  else
    b ← AVL_XBALANCE node;
    massert (b <=? 0) ;;
    destroy_done tree node parent.

(** [cookie] is the value of [*cookie] at entry; the result is the
    returned pointer and the value of [*cookie] at exit. *)
Definition avl_destroy_nodes (tree cookie : Z) : AM (Z * Z) :=
  fuel ← mem_fuel;
  t ← load_tree tree;
  if cookie =? 0 then
    first ← avl_first tree;
    if first =? 0 then mret (0, CHILDBIT)
    else
      let node := AVL_DATA2NODE first (avl_offset t) in
      parent ← AVL_XPARENT node;
      destroy_check_right tree node parent
  else
    let parent := Z.land cookie (Z.lnot CHILDBIT) in
    if parent =? 0 then
      mwhen (negb (avl_root t =? 0))
        (massert (avl_numnodes_f t =? 1) ;;
         set_avl_root tree 0 ;; set_avl_numnodes tree 0) ;;
      mret (0, cookie)
    else
      let child := Z.land cookie CHILDBIT in
      set_child parent child 0 ;;
      massert (1 <? avl_numnodes_f t) ;;
      set_avl_numnodes tree (u64 (avl_numnodes_f t - 1)) ;;
      c1 ← get_child parent 1;
      if (child =? 1) || (c1 =? 0) then
        pp ← AVL_XPARENT parent;
        destroy_done tree parent pp
      else
        '(node, parent) ← destroy_descend fuel c1 parent;
        destroy_check_right tree node parent.
