(* ===== verification/AvlTree.v ===== *)
(** * AVL trees as values

    The functional trees that the nodes of an [avl_tree] in memory spell
    out, their contexts (zippers), and the rebalancing of avl.c on them.
    [d] is a direction: [false] for child 0, [true] for child 1; the code's
    [left] and [right] variables are directions of this kind, so every
    definition is written once for both sides.  The lemmas show that the
    rebalancing after an insertion or a removal keeps the tree balanced and
    its in-order sequence unchanged. *)

From S2P Require Import Prelude.
From stdpp Require Import sorting.

#[local] Open Scope Z_scope.

(** ** Trees *)

(** A node's name [x] is its address, [b] its stored balance. *)
Inductive tree :=
  | E
  | T (l : tree) (x b : Z) (r : tree).

#[export] Instance tree_eq_dec : EqDecision tree.
Proof. solve_decision. Defined.

(** The tree whose child on side [d] is [a] and on the other side [c]. *)
Definition mk (d : bool) (a : tree) (x b : Z) (c : tree) : tree :=
  if d then T c x b a else T a x b c.

Definition unmk (d : bool) (t : tree) : option (tree * Z * Z * tree) :=
  match t with
  | E => None
  | T l x b r => Some (if d then (r, x, b, l) else (l, x, b, r))
  end.

(** The balance of a tree taller on side [d]: [avl_child2balance]. *)
Definition c2b (d : bool) : Z := if d then 1 else -1.

Definition root (t : tree) : Z := match t with E => 0 | T _ x _ _ => x end.

Fixpoint ht (t : tree) : Z :=
  match t with E => 0 | T l _ _ r => 1 + ht l `max` ht r end.

Fixpoint inorder (t : tree) : list Z :=
  match t with E => [] | T l x _ r => inorder l ++ x :: inorder r end.

(** The stored balances are the differences of heights, and within one. *)
Fixpoint avl (t : tree) : Prop :=
  match t with
  | E => True
  | T l _ b r => avl l /\ avl r /\ b = ht r - ht l /\ -1 <= b <= 1
  end.

(** ** Contexts: the path from a subtree up to the root *)
Record frame := Fr { fr_dir : bool; fr_node : Z; fr_bal : Z; fr_sib : tree }.
Definition ctx := list frame.

Definition plug1 (t : tree) (f : frame) : tree :=
  mk (fr_dir f) t (fr_node f) (fr_bal f) (fr_sib f).
Definition plug (c : ctx) (t : tree) : tree := foldl plug1 t c.

(** What precedes and what follows the hole, in order. *)
Fixpoint pre (c : ctx) : list Z :=
  match c with
  | [] => []
  | Fr d x _ s :: c => pre c ++ (if d then inorder s ++ [x] else [])
  end.
Fixpoint post (c : ctx) : list Z :=
  match c with
  | [] => []
  | Fr d x _ s :: c => (if d then [] else x :: inorder s) ++ post c
  end.

(** Plugging an AVL tree of height [h] gives an AVL tree. *)
Fixpoint avlc (c : ctx) (h : Z) : Prop :=
  match c with
  | [] => True
  | Fr d _ b s :: c =>
      avl s /\ b = c2b d * (h - ht s) /\ -1 <= b <= 1 /\ avlc c (1 + h `max` ht s)
  end.

(** ** The rebalancing of avl.c *)

(** [avl_rotation] at a node [x] with children [t] on the heavy side [d]
    and [s]; also whether the tree became shorter. *)
Definition rot (d : bool) (x : Z) (t s : tree) : option (tree * bool) :=
  '(cl, y, cb, cr) ← unmk d t;
  if cb =? - c2b d then
    '(gl, z, gb, gr) ← unmk d cr;
    Some (mk d (mk d cl y (if gb =? - c2b d then c2b d else 0) gl)
            z 0 (mk d gr x (if gb =? c2b d then - c2b d else 0) s), true)
  else
    Some (mk d cl y (cb - c2b d) (mk d cr x (- (cb - c2b d)) s),
          cb - c2b d =? 0).

(** The loop of [avl_insert]: [t] is a subtree that has grown by one. *)
Fixpoint ins_up (c : ctx) (t : tree) : option tree :=
  match c with
  | [] => Some t
  | Fr d x b s :: c =>
      if b + c2b d =? 0 then Some (plug c (mk d t x 0 s))
      else if negb (b =? 0) then
        '(t', _) ← rot d x t s; Some (plug c t')
      else ins_up c (mk d t x (b + c2b d) s)
  end.

(** The loop of [avl_remove]: [t] is a subtree that has lost one level. *)
Fixpoint del_up (c : ctx) (t : tree) : option tree :=
  match c with
  | [] => Some t
  | Fr d x b s :: c =>
      if b =? 0 then Some (plug c (mk d t x (b - c2b d) s))
      else if b - c2b d =? 0 then del_up c (mk d t x 0 s)
      else
        '(t', shorter) ← rot (negb d) x s t;
        if shorter : bool then del_up c t' else Some (plug c t')
  end.

(** ** Lemmas on trees *)
Lemma unmk_mk d a x b c : unmk d (mk d a x b c) = Some (a, x, b, c).
Proof. by destruct d. Qed.

Lemma unmk_Some d t a x b c : unmk d t = Some (a, x, b, c) -> t = mk d a x b c.
Proof. destruct t, d; simpl; naive_solver. Qed.

Lemma mk_negb d a x b c : mk (negb d) a x b c = mk d c x b a.
Proof. by destruct d. Qed.

Lemma T_mk d l x b r :
  T l x b r = mk d (if d then r else l) x b (if d then l else r).
Proof. by destruct d. Qed.

Lemma root_mk d a x b c : root (mk d a x b c) = x.
Proof. by destruct d. Qed.

Lemma ht_mk d a x b c : ht (mk d a x b c) = 1 + ht a `max` ht c.
Proof. destruct d; simpl; lia. Qed.

Lemma ht_nonneg t : 0 <= ht t.
Proof. induction t; simpl; lia. Qed.

Lemma ht_0 t : ht t = 0 -> t = E.
Proof. destruct t as [|l x b r]; [done|]. simpl. pose proof (ht_nonneg l). lia. Qed.

Lemma avl_mk d a x b c :
  avl (mk d a x b c) <->
  avl a /\ avl c /\ b = c2b d * (ht a - ht c) /\ -1 <= b <= 1.
Proof. destruct d; unfold c2b; simpl; intuition lia. Qed.

Lemma inorder_mk d a x b c :
  inorder (mk d a x b c) =
    if d then inorder c ++ x :: inorder a else inorder a ++ x :: inorder c.
Proof. by destruct d. Qed.

Lemma c2b_negb d : c2b (negb d) = - c2b d.
Proof. by destruct d. Qed.

Lemma c2b_cases d : c2b d = 1 \/ c2b d = -1.
Proof. destruct d; auto. Qed.

Lemma c2b_sq d z : c2b d * (c2b d * z) = z.
Proof. destruct d; unfold c2b; lia. Qed.

(** ** Lemmas on contexts *)
Lemma plug_cons d x b s c t : plug (Fr d x b s :: c) t = plug c (mk d t x b s).
Proof. done. Qed.

Lemma plug_app c1 c2 t : plug (c1 ++ c2) t = plug c2 (plug c1 t).
Proof. unfold plug. by rewrite foldl_app. Qed.

Lemma inorder_plug c t : inorder (plug c t) = pre c ++ inorder t ++ post c.
Proof.
  revert t. induction c as [|[d x b s] c IH]; intros t.
  - simpl. by rewrite app_nil_r.
  - rewrite plug_cons, IH, inorder_mk. simpl.
    destruct d; rewrite <- ?app_assoc; simpl; rewrite <- ?app_assoc; done.
Qed.

Lemma pre_app c1 c2 : pre (c1 ++ c2) = pre c2 ++ pre c1.
Proof.
  induction c1 as [|[d x b s] c1 IH]; simpl; [by rewrite app_nil_r|].
  by rewrite IH, app_assoc.
Qed.

Lemma post_app c1 c2 : post (c1 ++ c2) = post c1 ++ post c2.
Proof.
  induction c1 as [|[d x b s] c1 IH]; simpl; [done|]. by rewrite IH, app_assoc.
Qed.

Lemma avl_plug c t : avl (plug c t) <-> avl t /\ avlc c (ht t).
Proof.
  revert t. induction c as [|[d x b s] c IH]; intros t; [simpl; tauto|].
  rewrite plug_cons, IH, avl_mk, ht_mk. simpl. tauto.
Qed.

Lemma avlc_app c1 c2 t :
  avlc (c1 ++ c2) (ht t) <-> avlc c1 (ht t) /\ avlc c2 (ht (plug c1 t)).
Proof.
  revert t. induction c1 as [|[d x b s] c1 IH]; intros t; [simpl; tauto|].
  simpl. specialize (IH (mk d t x b s)). rewrite ht_mk in IH.
  rewrite IH. tauto.
Qed.

(** ** Rotations *)
Definition bal (t : tree) : Z := match t with E => 0 | T _ _ b _ => b end.

Lemma bal_mk d a x b c : bal (mk d a x b c) = b.
Proof. by destruct d. Qed.

Lemma tree_mk_inv d t : 0 < ht t -> exists a x b c, t = mk d a x b c.
Proof.
  destruct t as [|l x b r]; simpl; [lia|]. intros _.
  rewrite (T_mk d). eauto.
Qed.

Lemma rot_single_inorder d cl y cb cr x s b1 b2 b3 :
  inorder (mk d cl y b1 (mk d cr x b2 s)) = inorder (mk d (mk d cl y cb cr) x b3 s).
Proof.
  rewrite !inorder_mk. destruct d; repeat (rewrite <- app_assoc; simpl); done.
Qed.

(** The result of a rotation at a node that is too heavy on side [d]. *)
Lemma rot_correct d x t s :
  avl t -> avl s -> ht t = ht s + 2 ->
  exists t' shorter, rot d x t s = Some (t', shorter) /\
    avl t' /\ inorder t' = inorder (mk d t x 0 s) /\
    ht t' = (if shorter : bool then ht t else 1 + ht t) /\
    shorter = negb (bal t =? 0).
Proof.
  intros Ht Hs Hh. pose proof (ht_nonneg s) as Hs0.
  destruct (tree_mk_inv d t) as (cl & y & cb & cr & ->); [lia|].
  apply avl_mk in Ht as (Hcl & Hcr & -> & Hcb). rewrite ht_mk in Hh.
  unfold rot. rewrite unmk_mk, bal_mk. cbn [mbind option_bind].
  destruct (Z.eqb_spec (c2b d * (ht cl - ht cr)) (- c2b d)) as [E|E].
  - destruct (tree_mk_inv d cr) as (gl & z & gb & gr & ->).
    { pose proof (ht_nonneg cl). destruct (c2b_cases d) as [Hd|Hd];
        rewrite Hd in *; lia. }
    apply avl_mk in Hcr as (Hgl & Hgr & -> & Hgb).
    rewrite unmk_mk. cbn. eexists _, _. split; [done|].
    rewrite ht_mk in E, Hh, Hcb. rewrite !avl_mk, !ht_mk.
    assert (Hgc : ht gl - ht gr = 0 \/ ht gl - ht gr = 1 \/ ht gl - ht gr = -1)
      by (destruct (c2b_cases d) as [Hd|Hd]; rewrite Hd in *; lia).
    split_and!; try done.
    all: try (destruct (c2b_cases d) as [Hd|Hd]; rewrite Hd in *;
      repeat case_match; lia).
    rewrite !inorder_mk. destruct d; repeat (rewrite <- app_assoc; simpl); done.
  - eexists _, _. split; [done|]. rewrite !avl_mk, !ht_mk.
    split_and!; try done; try apply rot_single_inorder.
    all: destruct (c2b_cases d) as [Hd|Hd]; rewrite Hd in *;
      repeat case_match; lia.
Qed.

(** ** Rebalancing *)
Lemma inorder_plug_eq c t t' :
  inorder t = inorder t' -> inorder (plug c t) = inorder (plug c t').
Proof. intros H. by rewrite !inorder_plug, H. Qed.

Lemma inorder_mk_bal d t x b b' s : inorder (mk d t x b s) = inorder (mk d t x b' s).
Proof. by rewrite !inorder_mk. Qed.

(** After an insertion that made subtree [t] one taller than its context
    expects, the loop restores the balance. *)
Lemma ins_up_correct c t :
  avl t -> avlc c (ht t - 1) -> (bal t <> 0 \/ ht t = 1) ->
  exists t', ins_up c t = Some t' /\ avl t' /\ inorder t' = inorder (plug c t).
Proof.
  revert t. induction c as [|[d x b s] c IH]; intros t Ht Hc Hb.
  { exists t. done. }
  cbn [avlc] in Hc. destruct Hc as (Hs & Hbal & Hb1 & Hc).
  pose proof (ht_nonneg s) as Hs0. rewrite plug_cons. cbn [ins_up].
  destruct (Z.eqb_spec (b + c2b d) 0) as [E|E];
    [|destruct (Z.eqb_spec b 0) as [E0|E0]; cbn [negb]].
  - eexists. split; [done|].
    assert (ht t = ht s) by (destruct (c2b_cases d) as [Hd|Hd]; rewrite Hd in *; lia).
    rewrite avl_plug, avl_mk, ht_mk.
    replace (1 + ht t `max` ht s) with (1 + (ht t - 1) `max` ht s) by lia.
    split_and!; [done..|lia|lia|lia|done|]. by apply inorder_plug_eq, inorder_mk_bal.
  - assert (ht t = ht s + 1) by (destruct (c2b_cases d) as [Hd|Hd]; rewrite Hd in *; lia).
    destruct (IH (mk d t x (b + c2b d) s)) as (t' & Et & Ha & Hi).
    + rewrite avl_mk. split_and!; try done;
        destruct (c2b_cases d) as [Hd|Hd]; rewrite Hd in *; lia.
    + rewrite ht_mk. by replace (1 + ht t `max` ht s - 1)
        with (1 + (ht t - 1) `max` ht s) by lia.
    + left. rewrite bal_mk. done.
    + exists t'. split; [done|]. split; [done|]. rewrite Hi.
      by apply inorder_plug_eq, inorder_mk_bal.
  - assert (ht t = ht s + 2) by (destruct (c2b_cases d) as [Hd|Hd]; rewrite Hd in *; lia).
    destruct (rot_correct d x t s) as (t' & sh & -> & Ha & Hi & Hh & ->); [done..|].
    assert (bal t <> 0) by (destruct Hb; [done|lia]).
    destruct (Z.eqb_spec (bal t) 0); [done|]. simpl in Hh.
    eexists. split; [done|]. rewrite avl_plug, Hh.
    replace (1 + (ht t - 1) `max` ht s) with (ht t) in Hc by lia.
    split; [done|]. apply inorder_plug_eq. rewrite Hi. apply inorder_mk_bal.
Qed.

(** After a removal that made subtree [t] one shorter than its context
    expects, the loop restores the balance. *)
Lemma del_up_correct c t :
  avl t -> avlc c (ht t + 1) ->
  exists t', del_up c t = Some t' /\ avl t' /\ inorder t' = inorder (plug c t).
Proof.
  revert t. induction c as [|[d x b s] c IH]; intros t Ht Hc.
  { exists t. done. }
  cbn [avlc] in Hc. destruct Hc as (Hs & Hbal & Hb1 & Hc).
  pose proof (ht_nonneg t) as Ht0. rewrite plug_cons. cbn [del_up].
  destruct (Z.eqb_spec b 0) as [E0|E0];
    [|destruct (Z.eqb_spec (b - c2b d) 0) as [E|E]].
  - eexists. split; [done|].
    assert (ht s = ht t + 1) by (destruct (c2b_cases d) as [Hd|Hd]; rewrite Hd in *; lia).
    rewrite avl_plug, avl_mk, ht_mk.
    replace (1 + (ht t + 1) `max` ht s) with (1 + ht t `max` ht s) in Hc by lia.
    split_and!; try done; try (by apply inorder_plug_eq, inorder_mk_bal);
      destruct (c2b_cases d) as [Hd|Hd]; rewrite Hd in *; lia.
  - assert (ht s = ht t) by (destruct (c2b_cases d) as [Hd|Hd]; rewrite Hd in *; lia).
    destruct (IH (mk d t x 0 s)) as (t' & Et & Ha & Hi).
    + rewrite avl_mk. split_and!; try done; lia.
    + rewrite ht_mk. by replace (1 + ht t `max` ht s + 1)
        with (1 + (ht t + 1) `max` ht s) by lia.
    + exists t'. split; [done|]. split; [done|]. rewrite Hi.
      by apply inorder_plug_eq, inorder_mk_bal.
  - assert (ht s = ht t + 2) by (destruct (c2b_cases d) as [Hd|Hd]; rewrite Hd in *; lia).
    destruct (rot_correct (negb d) x s t) as (t' & sh & -> & Ha & Hi & Hh & Hsh);
      [done..|].
    rewrite mk_negb in Hi. cbn [mbind option_bind].
    assert (Hi' : inorder t' = inorder (mk d t x b s))
      by (rewrite Hi; apply inorder_mk_bal).
    replace (1 + (ht t + 1) `max` ht s) with (1 + ht s) in Hc by lia.
    destruct sh.
    + destruct (IH t') as (t'' & -> & Ha' & Hi''); [done| |].
      { rewrite Hh. by replace (ht s + 1) with (1 + ht s) by lia. }
      exists t''. split; [done|]. split; [done|]. rewrite Hi''.
      by apply inorder_plug_eq.
    + eexists. split; [done|]. rewrite avl_plug, Hh.
      split; [done|]. by apply inorder_plug_eq.
Qed.

(** ** Height *)

(** A tree of height [h] has at least [2 ^ (h / 2) - 1] nodes, so the height
    is at most about twice the binary logarithm of the number of nodes. *)
Lemma avl_height_size t (k : nat) :
  avl t -> 2 * Z.of_nat k <= ht t -> 2 ^ Z.of_nat k <= Z.of_nat (length (inorder t)) + 1.
Proof.
  revert k. induction t as [|l IHl x b r IHr]; intros k Ht Hk.
  { destruct k; simpl in *; lia. }
  destruct k as [|k]; [simpl; lia|].
  cbn [avl ht inorder] in *. destruct Ht as (Hl & Hr & -> & Hb).
  rewrite length_app, Nat2Z.inj_succ, Z.pow_succ_r by lia. cbn [length].
  specialize (IHl k Hl ltac:(lia)). specialize (IHr k Hr ltac:(lia)). lia.
Qed.

Lemma ht_length t : ht t <= Z.of_nat (length (inorder t)).
Proof.
  induction t as [|l IHl x b r IHr]; simpl; [lia|]. rewrite length_app. simpl. lia.
Qed.

(** The height in terms of the number of nodes *)
Lemma avl_height_log t :
  avl t -> ht t <= 2 * Z.log2 (Z.of_nat (length (inorder t)) + 1) + 1.
Proof.
  intros Ha. pose proof (ht_nonneg t) as H0.
  pose proof (avl_height_size t (Z.to_nat (ht t / 2)) Ha) as Hs.
  rewrite Z2Nat.id in Hs by (apply Z.div_pos; lia).
  assert (H2 : ht t / 2 <= Z.log2 (Z.of_nat (length (inorder t)) + 1)).
  { apply Z.log2_le_pow2; [lia|]. apply Hs. pose proof (Z.mul_div_le (ht t) 2). lia. }
  pose proof (Z_div_mod_eq_full (ht t) 2). pose proof (Z.mod_pos_bound (ht t) 2). lia.
Qed.

(** ** Searching *)

(** The path of [avl_find] for a key that compares as [f] with the nodes:
    the subtree it stops at, in its context. *)
Fixpoint search (f : Z -> Z) (t : tree) (c : ctx) : ctx * tree :=
  match t with
  | E => (c, E)
  | T l x b r =>
      if f x =? 0 then (c, t)
      else if 0 <? f x then search f r (Fr true x b l :: c)
      else search f l (Fr false x b r :: c)
  end.

(** The nodes come in the order of the keys: once the key is not above a
    node, it is below every later one. *)
Definition splits (f : Z -> Z) (l : list Z) : Prop :=
  StronglySorted (fun x y => f x <= 0 -> f y < 0) l.

Lemma splits_middle f l1 x l2 :
  splits f (l1 ++ x :: l2) ->
  (0 <= f x -> Forall (fun y => 0 < f y) l1) /\
  (f x <= 0 -> Forall (fun y => f y < 0) l2).
Proof.
  unfold splits. induction l1 as [|y l1 IH]; simpl; intros Hs;
    apply StronglySorted_cons in Hs as [Hf Hs].
  - split; [done|]. intros Hx. eapply Forall_impl; [exact Hf|]. naive_solver.
  - destruct (IH Hs) as [H1 H2]. split; [|done]. intros Hx. constructor; [|auto].
    rewrite Forall_app, Forall_cons in Hf. destruct Hf as (_ & Hy & _).
    destruct (Z.lt_ge_cases 0 (f y)); [done|]. specialize (Hy ltac:(lia)). lia.
Qed.

Lemma search_plug f t c : let '(c', t') := search f t c in plug c' t' = plug c t.
Proof.
  revert c. induction t as [|l IHl x b r IHr]; intros c; simpl; [done|].
  destruct (f x =? 0); [done|]. destruct (0 <? f x); [apply IHr|apply IHl].
Qed.

Lemma search_spec f t c :
  splits f (pre c ++ inorder t ++ post c) ->
  Forall (fun y => 0 < f y) (pre c) -> Forall (fun y => f y < 0) (post c) ->
  let '(c', t') := search f t c in
  Forall (fun y => 0 < f y) (pre c') /\ Forall (fun y => f y < 0) (post c') /\
  (t' = E \/ exists l x b r, t' = T l x b r /\ f x = 0).
Proof.
  revert c. induction t as [|l IHl x b r IHr]; intros c Hs Hpre Hpost.
  { cbn [search]. auto. }
  assert (Hs' : splits f ((pre c ++ inorder l) ++ x :: (inorder r ++ post c))).
  { revert Hs. simpl. rewrite <- !app_assoc. done. }
  apply splits_middle in Hs' as [H1 H2]. cbn [search].
  destruct (Z.eqb_spec (f x) 0) as [E0|E0]; [naive_solver|].
  destruct (Z.ltb_spec 0 (f x)) as [Hx|Hx].
  - apply IHr; simpl.
    + revert Hs. simpl. rewrite <- !app_assoc. done.
    + specialize (H1 ltac:(lia)). rewrite Forall_app in H1.
      rewrite !Forall_app, Forall_singleton. tauto.
    + done.
  - apply IHl; simpl.
    + revert Hs. simpl. rewrite <- !app_assoc. done.
    + by rewrite app_nil_r.
    + specialize (H2 ltac:(lia)). rewrite Forall_app in H2.
      rewrite Forall_cons, Forall_app. split; [lia|tauto].
Qed.

Lemma plug_length c t :
  (length c + length (inorder t) <= length (inorder (plug c t)))%nat.
Proof.
  revert t. induction c as [|[d x b s] c IH]; intros t; [done|].
  rewrite plug_cons. specialize (IH (mk d t x b s)). rewrite inorder_mk in IH.
  destruct d; rewrite length_app in IH; simpl in *; lia.
Qed.

(** ** Walking *)

(** The last element on side [d]. *)
Definition endmost (d : bool) (l : list Z) : option Z := if d then last l else head l.

(** All the way towards side [d]. *)
Fixpoint extr (d : bool) (t : tree) (c : ctx) : ctx * tree :=
  match t with
  | E => (c, E)
  | T l x b r =>
      if d then match r with E => (c, t) | _ => extr d r (Fr true x b l :: c) end
      else match l with E => (c, t) | _ => extr d l (Fr false x b r :: c) end
  end.

(** The first ancestor reached from side [d], or [NULL]. *)
Fixpoint climb (d : bool) (c : ctx) : Z :=
  match c with
  | [] => 0
  | Fr d' x _ _ :: c => if eqb d' d then x else climb d c
  end.

Lemma extr_mk d a x b o c :
  extr d (mk d a x b o) c =
    match a with E => (c, mk d a x b o) | _ => extr d a (Fr d x b o :: c) end.
Proof. destruct d; simpl; by destruct a. Qed.

Lemma tree_mk d t : t <> E -> exists a x b o, t = mk d a x b o.
Proof. destruct t as [|l x b r]; [done|]. rewrite (T_mk d). eauto. Qed.

(** Induction on trees seen from side [d]. *)
Lemma tree_ind_d d (P : tree -> Prop) :
  P E -> (forall a x b o, P a -> P o -> P (mk d a x b o)) -> forall t, P t.
Proof.
  intros HE HT t. induction t as [|l IHl x b r IHr]; [done|].
  rewrite (T_mk d). destruct d; auto.
Qed.

Lemma extr_spec d t c :
  t <> E ->
  exists c2 y b o, extr d t c = (c2 ++ c, mk d E y b o) /\
    plug c2 (mk d E y b o) = t /\
    endmost d (inorder t) = Some y /\
    Forall (fun f => fr_dir f = d) c2.
Proof.
  revert c. induction t as [|a x b o IH _] using (tree_ind_d d); intros c Hne; [done|].
  rewrite extr_mk. destruct (decide (a = E)) as [->|Ha].
  - exists [], x, b, o. split_and!; [done..| |done].
    rewrite inorder_mk. destruct d; simpl; [by rewrite last_snoc|done].
  - destruct (IH (Fr d x b o :: c) Ha) as (c2 & y & b' & o' & E1 & Ep & He & Hd).
    exists (c2 ++ [Fr d x b o]), y, b', o'. rewrite <- app_assoc.
    split; [by destruct a|]. split; [by rewrite plug_app, Ep|]. split.
    + rewrite inorder_mk. destruct d; simpl in *.
      * rewrite last_app_cons, last_cons, He. done.
      * by rewrite head_app, He.
    + apply Forall_app. auto.
Qed.

(** A path that always goes to side [d] has nothing beyond it on that side. *)
Lemma dir_post c : Forall (fun f => fr_dir f = true) c -> post c = [].
Proof. induction 1 as [|[d x b s] c Hd _ IH]; simpl in *; [done|]. by subst. Qed.

Lemma dir_pre c : Forall (fun f => fr_dir f = false) c -> pre c = [].
Proof.
  induction 1 as [|[d x b s] c Hd _ IH]; simpl in *; [done|]. subst. by rewrite IH.
Qed.

(** Balance does not depend on the names of the nodes. *)
Lemma avlc_rename c1 d x y b s c h :
  avlc (c1 ++ Fr d x b s :: c) h -> avlc (c1 ++ Fr d y b s :: c) h.
Proof.
  revert h. induction c1 as [|[d' x' b' s'] c1 IH]; intros h; [done|].
  simpl. intros (? & ? & ? & ?). auto.
Qed.

(** Removing a node [x] with one child [e] *)
Lemma del_leaf c d e x b :
  avl (plug c (mk d e x b E)) ->
  exists t', del_up c e = Some t' /\ avl t' /\ inorder t' = pre c ++ inorder e ++ post c.
Proof.
  rewrite avl_plug, avl_mk, ht_mk. intros [(He & _ & _) Hc].
  pose proof (ht_nonneg e). simpl in Hc.
  replace (1 + ht e `max` 0) with (ht e + 1) in Hc by lia.
  destruct (del_up_correct c e He Hc) as (t' & Hd & Ha & Hi).
  exists t'. by rewrite Hi, inorder_plug.
Qed.

(** Removing a node [x] with two children: [y], the extreme node of the child
    on side [d], takes its place. *)
Lemma del_swap c d a x b o c2 y b' o' (z : Z) :
  avl (plug c (mk d a x b o)) ->
  plug c2 (mk (negb d) E y b' o') = a ->
  Forall (fun f => fr_dir f = negb d) c2 ->
  exists t', del_up (c2 ++ Fr d y b o :: c) o' = Some t' /\ avl t' /\
    inorder t' = pre c ++ (if d then inorder o ++ inorder a else inorder a ++ inorder o)
                   ++ post c.
Proof.
  intros Ha <- Hd.
  destruct (del_leaf (c2 ++ Fr d y b o :: c) d o' z b') as (t' & Hdel & Ha' & Hi).
  - rewrite <- mk_negb. change (Fr d x b o :: c) with ([] ++ Fr d x b o :: c) in *.
    rewrite <- plug_cons, <- plug_app in Ha. rewrite avl_plug in *.
    rewrite ht_mk in *. destruct Ha as [Ha Hc].
    split; [|by eapply avlc_rename]. rewrite avl_mk in *. done.
  - exists t'. split; [done|]. split; [done|]. rewrite Hi, inorder_plug, inorder_mk.
    rewrite pre_app, post_app. destruct d; simpl in *.
    + rewrite (dir_pre c2) by done. simpl. rewrite <- ?app_assoc. simpl.
      rewrite <- ?app_assoc. done.
    + rewrite (dir_post c2) by done. simpl. rewrite <- ?app_assoc. simpl.
      rewrite <- ?app_assoc. done.
Qed.

Lemma climb_spec d c :
  climb d c = default 0 (endmost d (if d then pre c else post c)).
Proof.
  induction c as [|[d' x b s] c IH]; [by destruct d|].
  destruct d, d'; simpl in *.
  - by rewrite app_assoc, last_snoc.
  - by rewrite app_nil_r.
  - done.
  - done.
Qed.

(** The position of a node in the sequence determines its context. *)
Lemma focus t c l1 x l2 :
  inorder t = l1 ++ x :: l2 ->
  exists c' l b r, plug c' (T l x b r) = plug c t /\
    pre c' ++ inorder l = pre c ++ l1 /\ inorder r ++ post c' = l2 ++ post c.
Proof.
  revert c l1 l2. induction t as [|l IHl y b r IHr]; intros c l1 l2; simpl.
  { by destruct l1. }
  intros Heq. apply app_eq_app in Heq as [k [[Hl Hk]|[-> Hk]]].
  - destruct k as [|z k]; simpl in Hk; injection Hk as -> Hk.
    + exists c, l, b, r. rewrite app_nil_r in Hl. by rewrite Hl, Hk.
    + destruct (IHl (Fr false y b r :: c) l1 k) as (c' & l' & b' & r' & Hp & H1 & H2);
        [done|].
      exists c', l', b', r'. split; [done|]. simpl in *.
      rewrite app_nil_r in H1. rewrite H2, Hk, <- app_assoc. done.
  - destruct k as [|z k]; simpl in Hk; injection Hk as -> Hk.
    + exists c, l, b, r. rewrite app_nil_r. by rewrite Hk.
    + destruct (IHr (Fr true z b l :: c) k l2) as (c' & l' & b' & r' & Hp & H1 & H2);
        [done|].
      exists c', l', b', r'. split; [done|]. simpl in *. rewrite H1.
      rewrite <- !app_assoc. done.
Qed.
