(* ===== verification/AvlNode.v ===== *)
(** * The fields of an AVL node in memory

    The parent pointer, the child index and the balance share one word,
    [avl_pcb]; node addresses are multiples of eight, so the three do not
    overlap.  [node_at] is the assertion that a node is in memory with given
    fields, and each accessor of sys/avl_impl.h has its rule. *)

From S2P Require Import Prelude SepLogic Avl AvlTree.
From iris.proofmode Require Import proofmode.

#[local] Open Scope Z_scope.

(** ** The packed word *)
Definition pack (p : Z) (i : bool) (b : Z) : Z :=
  p + (4 * Z.b2z i + (b + 1)).

Definition aligned (p : Z) : Prop := Z.land p 7 = 0.

(** The address of a node: an aligned, non-null 64-bit pointer. *)
Definition node_ptr (x : Z) : Prop := 0 < x < 2 ^ 64 /\ aligned x.

#[export] Instance aligned_dec p : Decision (aligned p).
Proof. unfold aligned. apply _. Defined.

Lemma aligned_testbit p k : aligned p -> 0 <= k < 3 -> Z.testbit p k = false.
Proof.
  intros Hp Hk. assert (H : Z.testbit (Z.land p 7) k = false).
  { rewrite Hp. apply Z.bits_0. }
  rewrite Z.land_spec in H.
  assert (k = 0 \/ k = 1 \/ k = 2) as [-> | [-> | ->]] by lia;
    by rewrite andb_true_r in H.
Qed.

Lemma small_testbit w b k : 0 <= b < 2 ^ w -> w <= k -> Z.testbit b k = false.
Proof. apply testbit_above_width. Qed.

Lemma bits_lt8 k : 0 <= k -> k = 0 \/ k = 1 \/ k = 2 \/ 3 <= k.
Proof. lia. Qed.

Lemma add_lor_disjoint a b : Z.land a b = 0 -> a + b = Z.lor a b.
Proof. intros H. by rewrite -Z.lxor_lor // -Z.add_nocarry_lxor. Qed.

Lemma pack_lor p i b :
  aligned p -> -1 <= b <= 2 ->
  pack p i b = Z.lor p (Z.lor (Z.shiftl (Z.b2z i) 2) (b + 1)).
Proof.
  intros Hp Hb. rewrite lor_shiftl_add; [|done|simpl; lia].
  unfold pack. rewrite (Z.mul_comm 4). apply add_lor_disjoint.
  apply Z.bits_inj'. intros k Hk. rewrite Z.land_spec Z.bits_0.
  destruct (Z.ltb_spec k 3); [by rewrite aligned_testbit|].
  rewrite (small_testbit 3 (Z.b2z i * 2 ^ 2 + (b + 1))); [|destruct i; simpl; lia|done].
  by rewrite andb_false_r.
Qed.

Lemma pack_testbit p i b k :
  aligned p -> -1 <= b <= 2 -> 0 <= k ->
  Z.testbit (pack p i b) k =
    if k <? 2 then Z.testbit (b + 1) k
    else if k =? 2 then i else Z.testbit p k.
Proof.
  intros Hp Hb Hk. rewrite pack_lor // !Z.lor_spec Z.shiftl_spec //.
  destruct (Z.ltb_spec k 2) as [H2|H2]; [|destruct (Z.eqb_spec k 2) as [->|H3]].
  - rewrite aligned_testbit //; [|lia]. by rewrite (Z.testbit_neg_r _ (k - 2)); [|lia].
  - rewrite aligned_testbit // (small_testbit 2 (b + 1)); [|simpl; lia|lia].
    by destruct i.
  - rewrite (small_testbit 2 (b + 1)); [|simpl; lia|lia].
    rewrite (small_testbit 1 (Z.b2z i)); [|destruct i; simpl; lia|lia].
    by rewrite !orb_false_r.
Qed.

Ltac pcb_bits :=
  apply Z.bits_inj'; intros k Hk;
  rewrite ?Z.land_spec ?Z.lor_spec ?Z.land_spec ?Z.lnot_spec ?Z.shiftl_spec
    ?Z.shiftr_spec ?pack_testbit //; try lia.

(** ** Lens laws of the macros *)
Section pcb_laws.
Context (p : Z) (i : bool) (b : Z).
Hypotheses (Hp : aligned p) (Hb : -1 <= b <= 2).

Lemma testbit_7 k : 0 <= k -> Z.testbit 7 k = (k <? 3).
Proof.
  intros Hk. destruct (bits_lt8 k) as [->|[->|[->|H]]]; [done..|].
  rewrite (small_testbit 3); [|simpl; lia|lia]. destruct (Z.ltb_spec k 3); [lia|done].
Qed.

Lemma testbit_3 k : 0 <= k -> Z.testbit 3 k = (k <? 2).
Proof.
  intros Hk. destruct (bits_lt8 k) as [->|[->|[->|H]]]; [done..|].
  rewrite (small_testbit 2); [|simpl; lia|lia]. destruct (Z.ltb_spec k 2); [lia|done].
Qed.

Lemma testbit_4 k : 0 <= k -> Z.testbit 4 k = (k =? 2).
Proof.
  intros Hk. destruct (bits_lt8 k) as [->|[->|[->|H]]]; [done..|].
  rewrite (small_testbit 3); [|simpl; lia|lia]. destruct (Z.eqb_spec k 2); [lia|done].
Qed.

Lemma pcb_parent_pack : pcb_parent (pack p i b) = p.
Proof.
  unfold pcb_parent. pcb_bits. rewrite testbit_7 //.
  destruct (Z.ltb_spec k 3).
  - rewrite andb_false_r aligned_testbit //.
  - destruct (Z.ltb_spec k 2), (Z.eqb_spec k 2); try lia. simpl. by rewrite andb_true_r.
Qed.

Lemma pcb_child_pack : pcb_child (pack p i b) = Z.b2z i.
Proof.
  unfold pcb_child. change 1 with (Z.ones 1). rewrite Z.land_ones //.
  rewrite -Z.bit0_mod Z.shiftr_spec // pack_testbit //.
Qed.

Lemma pcb_balance_pack : pcb_balance (pack p i b) = b.
Proof.
  unfold pcb_balance. enough (Z.land (pack p i b) 3 = b + 1) by lia.
  pcb_bits. rewrite testbit_3 //.
  destruct (Z.ltb_spec k 2); [by rewrite andb_true_r|].
  rewrite andb_false_r (small_testbit 2) //; simpl; lia.
Qed.

Lemma pcb_set_parent_pack p' :
  aligned p' -> pcb_set_parent (pack p i b) p' = pack p' i b.
Proof.
  intros Hp'. unfold pcb_set_parent. pcb_bits. rewrite testbit_7 //.
  destruct (Z.ltb_spec k 3).
  - rewrite andb_true_r (aligned_testbit p') // orb_false_r.
    destruct (Z.ltb_spec k 2), (Z.eqb_spec k 2); try lia; done.
  - destruct (Z.ltb_spec k 2), (Z.eqb_spec k 2); try lia. by rewrite andb_false_r.
Qed.

Lemma pcb_set_child_pack i' :
  pcb_set_child (pack p i b) (Z.b2z i') = pack p i' b.
Proof.
  unfold pcb_set_child. pcb_bits. rewrite testbit_4 //.
  destruct (Z.ltb_spec k 2); [|destruct (Z.eqb_spec k 2) as [->|]].
  - rewrite (Z.testbit_neg_r _ (k - 2)); [|lia].
    destruct (Z.eqb_spec k 2); [lia|]. by rewrite andb_true_r orb_false_r.
  - rewrite andb_false_r. by destruct i'.
  - rewrite (small_testbit 1 (Z.b2z i')); [|destruct i'; simpl; lia|lia].
    by rewrite andb_true_r orb_false_r.
Qed.

Lemma pcb_set_balance_pack b' :
  -1 <= b' <= 2 -> pcb_set_balance (pack p i b) b' = pack p i b'.
Proof.
  intros Hb'. unfold pcb_set_balance. pcb_bits. rewrite testbit_3 //.
  destruct (Z.ltb_spec k 2); [by rewrite andb_false_r|].
  rewrite (small_testbit 2 (b' + 1)); [|simpl; lia|lia].
  by rewrite andb_true_r orb_false_r.
Qed.
End pcb_laws.

(** Every word is the packing of some fields. *)
Lemma pack_surj z :
  exists p i b, z = pack p i b /\ aligned p /\ -1 <= b <= 2.
Proof.
  exists (Z.land z (Z.lnot 7)), (Z.testbit z 2), (Z.land z 3 - 1).
  assert (Hb : 0 <= Z.land z 3 < 4).
  { change 3 with (Z.ones 2). rewrite Z.land_ones //. by apply Z.mod_pos_bound. }
  assert (Ha : aligned (Z.land z (Z.lnot 7))).
  { unfold aligned. by rewrite -Z.land_assoc (Z.land_comm _ 7) Z.land_lnot_diag Z.land_0_r. }
  split; [|split; [done|lia]]. pcb_bits.
  replace (Z.land z 3 - 1 + 1) with (Z.land z 3) by lia.
  rewrite !Z.land_spec Z.lnot_spec // testbit_3 // testbit_7 //.
  destruct (Z.ltb_spec k 2); [by rewrite andb_true_r|].
  destruct (Z.eqb_spec k 2) as [->|]; [done|].
  destruct (Z.ltb_spec k 3); [lia|]. by rewrite andb_true_r.
Qed.

(** ** Nodes in memory *)
Section node.
Implicit Types Q : Z -> hpropI cell.

(** A node seen from side [d]: its child on that side is [a], the other
    one [c]. *)
Definition kids (d : bool) (a c : Z) : Z * Z := if d then (c, a) else (a, c).

Definition node_at (d : bool) (x a c p : Z) (i : bool) (b : Z) : hpropI cell :=
  ⌜node_ptr x /\ aligned p /\ -1 <= b <= 1⌝ ∧
  x ↦ CNode (AvlNode (kids d a c) (pack p i b)).

Lemma node_at_negb d x a c p i b :
  node_at (negb d) x a c p i b = node_at d x c a p i b.
Proof. by destruct d. Qed.

Lemma node_at_ptr d x a c p i b : node_at d x a c p i b ⊢ ⌜node_ptr x⌝.
Proof. iIntros "[%H _]". iPureIntro. tauto. Qed.

Lemma node_at_ne d x a c p i b d' y a' c' p' i' b' :
  node_at d x a c p i b ∗ node_at d' y a' c' p' i' b' ⊢ ⌜x <> y⌝.
Proof.
  iIntros "[[_ H1] [_ H2]]". iDestruct (points_to_ne with "[$H1 $H2]") as %?. done.
Qed.

Lemma at_least_node d x a c p i b : node_at d x a c p i b ⊢ at_least 1.
Proof. iIntros "[_ H]". by iApply at_least_points_to. Qed.

(** *** Raw accesses *)
Lemma wp_load_node x n (Q : avl_node -> hpropI cell) :
  x ↦ CNode n -∗ (x ↦ CNode n -∗ Q n) -∗ wp (load_node x) Q.
Proof.
  iIntros "H HQ". iApply wp_bind. iApply (wp_load with "H"). iIntros "H".
  iApply wp_ret. by iApply "HQ".
Qed.

Lemma wp_store_node x n n' (Q : unit -> hpropI cell) :
  x ↦ CNode n -∗ (x ↦ CNode n' -∗ Q tt) -∗ wp (store_node x n') Q.
Proof.
  iIntros "H HQ". iApply wp_bind. iApply (wp_load_node with "H"). iIntros "H".
  by iApply (wp_store with "H").
Qed.

Lemma wp_load_tree x t (Q : avl_tree -> hpropI cell) :
  x ↦ CTree t -∗ (x ↦ CTree t -∗ Q t) -∗ wp (load_tree x) Q.
Proof.
  iIntros "H HQ". iApply wp_bind. iApply (wp_load with "H"). iIntros "H".
  iApply wp_ret. by iApply "HQ".
Qed.

Lemma wp_store_tree x t t' (Q : unit -> hpropI cell) :
  x ↦ CTree t -∗ (x ↦ CTree t' -∗ Q tt) -∗ wp (store_tree x t') Q.
Proof.
  iIntros "H HQ". iApply wp_bind. iApply (wp_load_tree with "H"). iIntros "H".
  by iApply (wp_store with "H").
Qed.

(** *** The accessors of sys/avl_impl.h *)
Lemma wp_xparent d x a c p i b Q :
  node_at d x a c p i b -∗ (node_at d x a c p i b -∗ Q p) -∗
  wp (AVL_XPARENT x) Q.
Proof.
  iIntros "[%H Hx] HQ". iApply wp_bind. iApply (wp_load_node with "Hx").
  iIntros "Hx". iApply wp_ret. simpl. rewrite pcb_parent_pack; [|tauto|lia].
  iApply "HQ". by iSplit.
Qed.

Lemma wp_xchild d x a c p i b Q :
  node_at d x a c p i b -∗ (node_at d x a c p i b -∗ Q (Z.b2z i)) -∗
  wp (AVL_XCHILD x) Q.
Proof.
  iIntros "[%H Hx] HQ". iApply wp_bind. iApply (wp_load_node with "Hx").
  iIntros "Hx". iApply wp_ret. simpl. rewrite pcb_child_pack; [|tauto|lia].
  iApply "HQ". by iSplit.
Qed.

Lemma wp_xbalance d x a c p i b Q :
  node_at d x a c p i b -∗ (node_at d x a c p i b -∗ Q b) -∗
  wp (AVL_XBALANCE x) Q.
Proof.
  iIntros "[%H Hx] HQ". iApply wp_bind. iApply (wp_load_node with "Hx").
  iIntros "Hx". iApply wp_ret. simpl. rewrite pcb_balance_pack; [|tauto|lia].
  iApply "HQ". by iSplit.
Qed.

Lemma wp_setparent p' d x a c p i b (Q : unit -> hpropI cell) :
  aligned p' ->
  node_at d x a c p i b -∗ (node_at d x a c p' i b -∗ Q tt) -∗
  wp (AVL_SETPARENT x p') Q.
Proof.
  iIntros (Hp) "[%H Hx] HQ". iApply wp_bind. iApply (wp_load_node with "Hx").
  iIntros "Hx". simpl. rewrite pcb_set_parent_pack; [|tauto|lia|done].
  iApply (wp_store_node with "Hx"). iIntros "Hx". iApply "HQ".
  iSplit; [iPureIntro; tauto|done].
Qed.

Lemma wp_setchild (i' : bool) d x a c p i b (Q : unit -> hpropI cell) :
  node_at d x a c p i b -∗ (node_at d x a c p i' b -∗ Q tt) -∗
  wp (AVL_SETCHILD x (Z.b2z i')) Q.
Proof.
  iIntros "[%H Hx] HQ". iApply wp_bind. iApply (wp_load_node with "Hx").
  iIntros "Hx". simpl. rewrite pcb_set_child_pack; [|tauto|lia].
  iApply (wp_store_node with "Hx"). iIntros "Hx". iApply "HQ". by iSplit.
Qed.

Lemma wp_setbalance b' d x a c p i b (Q : unit -> hpropI cell) :
  -1 <= b' <= 1 ->
  node_at d x a c p i b -∗ (node_at d x a c p i b' -∗ Q tt) -∗
  wp (AVL_SETBALANCE x b') Q.
Proof.
  iIntros (Hb) "[%H Hx] HQ". iApply wp_bind. iApply (wp_load_node with "Hx").
  iIntros "Hx". simpl. rewrite pcb_set_balance_pack; [|tauto|lia|lia].
  iApply (wp_store_node with "Hx"). iIntros "Hx". iApply "HQ".
  iSplit; [iPureIntro; tauto|done].
Qed.

Lemma wp_get_child d x a c p i b Q :
  node_at d x a c p i b -∗ (node_at d x a c p i b -∗ Q a) -∗
  wp (get_child x (Z.b2z d)) Q.
Proof.
  iIntros "[%H Hx] HQ". iApply wp_bind. iApply (wp_load_node with "Hx").
  iIntros "Hx". destruct d; iApply wp_ret; iApply "HQ"; by iSplit.
Qed.

Lemma wp_set_child v d x a c p i b (Q : unit -> hpropI cell) :
  node_at d x a c p i b -∗ (node_at d x v c p i b -∗ Q tt) -∗
  wp (set_child x (Z.b2z d) v) Q.
Proof.
  iIntros "[%H Hx] HQ". iApply wp_bind. iApply (wp_load_node with "Hx").
  iIntros "Hx". destruct d; iApply (wp_store_node with "Hx");
    iIntros "Hx"; iApply "HQ"; by iSplit.
Qed.
End node.

Lemma b2z_negb d : 1 - Z.b2z d = Z.b2z (negb d).
Proof. by destruct d. Qed.

(** The other side of a node. *)
Lemma wp_get_child_other d x a c p i b (Q : Z -> hpropI cell) :
  node_at d x a c p i b -∗ (node_at d x a c p i b -∗ Q c) -∗
  wp (get_child x (Z.b2z (negb d))) Q.
Proof. rewrite -(node_at_negb d). apply wp_get_child. Qed.

Lemma wp_set_child_other v d x a c p i b (Q : unit -> hpropI cell) :
  node_at d x a c p i b -∗ (node_at d x a v p i b -∗ Q tt) -∗
  wp (set_child x (Z.b2z (negb d)) v) Q.
Proof. rewrite -!(node_at_negb d). apply wp_set_child. Qed.

(** [avl_index_t] *)
Lemma aligned_land_1 p : aligned p -> Z.land p 1 = 0.
Proof.
  intros Hp. apply Z.bits_inj'. intros k Hk. rewrite Z.land_spec Z.bits_0.
  destruct (Z.eq_dec k 0) as [->|]; [by rewrite aligned_testbit|].
  rewrite (small_testbit 1 1); [by rewrite andb_false_r|simpl; lia|lia].
Qed.

Lemma index_node p i : aligned p -> AVL_INDEX2NODE (AVL_MKINDEX p (Z.b2z i)) = p.
Proof.
  intros Hp. unfold AVL_INDEX2NODE, AVL_MKINDEX. apply Z.bits_inj'. intros k Hk.
  rewrite Z.land_spec Z.lor_spec Z.lnot_spec //.
  destruct (Z.eq_dec k 0) as [->|].
  - by rewrite andb_false_r aligned_testbit.
  - rewrite (small_testbit 1 1); [|simpl; lia|lia].
    rewrite (small_testbit 1 (Z.b2z i)); [|destruct i; simpl; lia|lia].
    by rewrite orb_false_r andb_true_r.
Qed.

Lemma index_child p i : aligned p -> AVL_INDEX2CHILD (AVL_MKINDEX p (Z.b2z i)) = Z.b2z i.
Proof.
  intros Hp. unfold AVL_INDEX2CHILD, AVL_MKINDEX.
  rewrite Z.land_lor_distr_l aligned_land_1 //. by destruct i.
Qed.

Lemma aligned_mod z : aligned z <-> z mod 8 = 0.
Proof. unfold aligned. change 7 with (Z.ones 3). by rewrite Z.land_ones. Qed.

(** ** Data pointers *)
Lemma data2node_node2data x off :
  0 < x < 2 ^ 64 -> AVL_DATA2NODE (AVL_NODE2DATA x off) off = x.
Proof.
  intros Hx. unfold AVL_DATA2NODE, AVL_NODE2DATA.
  rewrite wrap_add_idemp_l Z.sub_add. by apply wrap_small; lia.
Qed.

Lemma node2data_inj x y off :
  0 < x < 2 ^ 64 -> 0 < y < 2 ^ 64 ->
  AVL_NODE2DATA x off = AVL_NODE2DATA y off -> x = y.
Proof.
  intros Hx Hy E. rewrite -(data2node_node2data x off) // E data2node_node2data //.
Qed.

Lemma node2data_aligned x off :
  aligned x -> aligned off -> aligned (AVL_NODE2DATA x off).
Proof.
  rewrite !aligned_mod. intros Hx Ho. unfold AVL_NODE2DATA, wrap.
  rewrite Z.mod_mod_divide; [|by exists (2 ^ 61)]. by rewrite Zminus_mod Hx Ho.
Qed.
