(* ===== verification/AvlHeap.v ===== *)
(** * AVL trees in memory

    [tree_at t p i]: the nodes of [t] are in memory, its root is child [i]
    of [p].  [ctx_at tr T c a]: the [avl_tree] object [tr] and the nodes of
    the context [c] are in memory, and the hole of [c] holds the address
    [a].  The loops and rotations of avl.c are shown to compute the
    functions of [AvlTree] on them. *)

From S2P Require Import Prelude SepLogic Avl AvlTree AvlNode.
From iris.proofmode Require Import proofmode.

#[local] Open Scope Z_scope.

Fixpoint tree_at (t : tree) (p : Z) (i : bool) : hpropI cell :=
  match t with
  | E => emp
  | T l x b r =>
      node_at false x (root l) (root r) p i b ∗
      tree_at l x false ∗ tree_at r x true
  end%I.

(** The parent and the child index of what fills the hole of [c], when the
    top of [c] is child [i] of [p]; and the root of the filled context. *)
Definition cpar (c : ctx) (p : Z) : Z :=
  match c with [] => p | f :: _ => fr_node f end.
Definition cidx (c : ctx) (i : bool) : bool :=
  match c with [] => i | f :: _ => fr_dir f end.
Definition ctop (c : ctx) (a : Z) : Z := foldl (fun _ f => fr_node f) a c.

Fixpoint seg (c : ctx) (a p : Z) (i : bool) : hpropI cell :=
  match c with
  | [] => emp
  | Fr d x b s :: c =>
      node_at d x a (root s) (cpar c p) (cidx c i) b ∗
      tree_at s x (negb d) ∗ seg c x p i
  end%I.

Definition with_root (T : avl_tree) (r : Z) : avl_tree :=
  AvlTree r (avl_compar T) (avl_offset T) (avl_numnodes_f T) (avl_size T).
Definition with_num (T : avl_tree) (n : Z) : avl_tree :=
  AvlTree (avl_root T) (avl_compar T) (avl_offset T) n (avl_size T).

Definition ctx_at (tr : Z) (T : avl_tree) (c : ctx) (a : Z) : hpropI cell :=
  tr ↦ CTree (with_root T (ctop c a)) ∗ seg c a 0 false.

(** ** Structure *)
Lemma tree_at_mk d a x b c p i :
  tree_at (mk d a x b c) p i ⊣⊢
  node_at d x (root a) (root c) p i b ∗ tree_at a x d ∗ tree_at c x (negb d).
Proof.
  destruct d; simpl; [|done].
  rewrite -(node_at_negb true) /= (comm _ (tree_at c x false)) //.
Qed.

Lemma seg_app c1 c2 a p i :
  seg (c1 ++ c2) a p i ⊣⊢
  seg c1 a (cpar c2 p) (cidx c2 i) ∗ seg c2 (ctop c1 a) p i.
Proof.
  revert a. induction c1 as [|[d x b s] c1 IH]; intros a; simpl.
  { by rewrite left_id. }
  rewrite IH. destruct c1; simpl; by rewrite -!assoc.
Qed.

Lemma ctop_app c1 c2 a : ctop (c1 ++ c2) a = ctop c2 (ctop c1 a).
Proof. unfold ctop. by rewrite foldl_app. Qed.

Lemma root_plug c t : root (plug c t) = ctop c (root t).
Proof.
  revert t. induction c as [|[d x b s] c IH]; intros t; [done|].
  rewrite plug_cons IH root_mk //.
Qed.

(** A frame can be taken off the context and put back. *)
Lemma ctx_at_cons tr T d x b s c a :
  ctx_at tr T (Fr d x b s :: c) a ⊣⊢
  ctx_at tr T c x ∗ node_at d x a (root s) (cpar c 0) (cidx c false) b ∗
  tree_at s x (negb d).
Proof.
  rewrite /ctx_at /=. iSplit.
  - iIntros "(? & ? & ? & ?)". iFrame.
  - iIntros "((? & ?) & ? & ?)". iFrame.
Qed.

Lemma zip_at_cons tr T d x b s c t :
  ctx_at tr T (Fr d x b s :: c) (root t) ∗ tree_at t x d ⊣⊢
  ctx_at tr T c x ∗ tree_at (mk d t x b s) (cpar c 0) (cidx c false).
Proof.
  rewrite ctx_at_cons tree_at_mk. iSplit.
  - iIntros "((? & ? & ?) & ?)". iFrame.
  - iIntros "(? & ? & ? & ?)". iFrame.
Qed.

Definition zip_at (tr : Z) (T : avl_tree) (c : ctx) (t : tree) : hpropI cell :=
  ctx_at tr T c (root t) ∗ tree_at t (cpar c 0) (cidx c false).

(** The same tree, whichever node is in focus. *)
Lemma zip_at_plug tr T c t :
  zip_at tr T c t ⊣⊢ zip_at tr T [] (plug c t).
Proof.
  revert t. induction c as [|[d x b s] c IH]; intros t; [done|].
  rewrite plug_cons -IH /zip_at /= zip_at_cons root_mk //.
Qed.

Lemma tree_at_root_ptr t p i :
  tree_at t p i ⊢ ⌜t = E \/ node_ptr (root t)⌝.
Proof.
  destruct t as [|l x b r]; simpl; [auto|]. iIntros "[H _]".
  iDestruct (node_at_ptr with "H") as %?. auto.
Qed.

Lemma node_ptr_nonnull x : node_ptr x -> (x =? 0) = false.
Proof. intros [? _]. by apply Z.eqb_neq; lia. Qed.

Lemma at_least_tree t p i : tree_at t p i ⊢ at_least (length (inorder t)).
Proof.
  revert p i. induction t as [|l IHl x b r IHr]; intros p i.
  { simpl. iIntros "_". iApply at_least_0. }
  cbn [tree_at inorder]. rewrite length_app /= IHl IHr.
  iIntros "(Hx & Hl & Hr)". iDestruct (at_least_node with "Hx") as "Hx".
  iDestruct (at_least_sep with "[$Hl $Hr]") as "H".
  iDestruct (at_least_sep with "[$Hx $H]") as "H".
  iApply (at_least_mono with "H"). lia.
Qed.

(** ** Small steps shared by the functions *)

(** Run the next call of a function with the rule [l] on hypothesis [H]. *)
Tactic Notation "wstep" open_constr(l) "on" constr(H) :=
  iApply wp_bind; iApply (l with H); [try (done || lia)..|iIntros H; cbv beta].

Section steps.
Context (tr : Z) (T : avl_tree).
Implicit Types Q : unit -> hpropI cell.

(** [if (n != NULL) { AVL_SETPARENT(n, p); AVL_SETCHILD(n, i); }] *)
Lemma wp_reparent p' (i' : bool) t p i Q :
  aligned p' ->
  tree_at t p i -∗ (tree_at t p' i' -∗ Q tt) -∗
  wp (mwhen (negb (root t =? 0))
        (AVL_SETPARENT (root t) p' ;; AVL_SETCHILD (root t) (Z.b2z i'))) Q.
Proof.
  iIntros (Hp) "Ht HQ". destruct t as [|l x b r]; simpl.
  { iApply wp_ret. by iApply "HQ". }
  iDestruct "Ht" as "(Hx & Hl & Hr)".
  iDestruct (node_at_ptr with "Hx") as %Hv. rewrite node_ptr_nonnull //=.
  wstep (wp_setparent p') on "Hx".
  iApply (wp_setchild i' with "Hx"). iIntros "Hx". iApply "HQ". iFrame.
Qed.

Lemma wp_set_root c a a' Q :
  ctop c a' = a' ->
  ctx_at tr T c a -∗ (tr ↦ CTree (with_root T a') ∗ seg c a 0 false -∗ Q tt) -∗
  wp (set_avl_root tr a') Q.
Proof.
  iIntros (Hc) "[Ht Hc] HQ". wstep wp_load_tree on "Ht".
  iApply (wp_store_tree with "Ht"). iIntros "Ht". iApply "HQ". iFrame.
Qed.

(** The pointer into a subtree, in its parent or in the tree object. *)
Lemma wp_link c a a' Q :
  ctx_at tr T c a -∗ (ctx_at tr T c a' -∗ Q tt) -∗
  wp (if negb (cpar c 0 =? 0) then set_child (cpar c 0) (Z.b2z (cidx c false)) a'
      else set_avl_root tr a') Q.
Proof.
  iIntros "H HQ". destruct c as [|[d x b s] c].
  { iApply (wp_set_root with "H"); [done|]. iApply "HQ". }
  simpl. rewrite ctx_at_cons. iDestruct "H" as "(Hc & Hx & Hs)".
  iDestruct (node_at_ptr with "Hx") as %Hv. rewrite node_ptr_nonnull //=.
  iApply (wp_set_child a' with "Hx"). iIntros "Hx". iApply "HQ".
  rewrite ctx_at_cons. iFrame.
Qed.

Lemma c2b_rot d :
  Z.b2z (negb (2 * c2b d <? 0)) = Z.b2z d /\ Z.shiftr (2 * c2b d) 1 = c2b d.
Proof. by destruct d. Qed.

(** ** [avl_rotation] *)
Lemma wp_rotation d x t s b c t' shorter (Q : bool -> hpropI cell) :
  rot d x t s = Some (t', shorter) ->
  ctx_at tr T c x -∗
  node_at d x (root t) (root s) (cpar c 0) (cidx c false) b -∗
  tree_at t x d -∗ tree_at s x (negb d) -∗
  (zip_at tr T c t' -∗ Q shorter) -∗
  wp (avl_rotation tr x (2 * c2b d)) Q.
Proof.
  unfold rot. destruct (unmk d t) as [[[[cl y] cb] cr]|] eqn:Et; [|done].
  apply unmk_Some in Et as ->. cbn [mbind option_bind]. rewrite root_mk tree_at_mk.
  unfold avl_rotation. destruct (c2b_rot d) as [-> ->]. rewrite b2z_negb.
  iIntros (Hr) "Hc Hx (Hy & Hcl & Hcr) Hs HQ". cbv zeta.
  iDestruct (node_at_ptr with "Hx") as %[? ?].
  iDestruct (node_at_ptr with "Hy") as %[? ?].
  iAssert (⌜-1 <= cb <= 1⌝)%I as %Hcb. { iDestruct "Hy" as "[% _]". iPureIntro. tauto. }
  iAssert (⌜aligned (cpar c 0)⌝)%I as %Hal. { iDestruct "Hx" as "[% _]". iPureIntro. tauto. }
  wstep wp_xparent on "Hx". wstep wp_get_child on "Hx".
  wstep wp_xchild on "Hx". wstep wp_xbalance on "Hy".
  destruct (Z.eqb_spec cb (- c2b d)) as [Ecb|Ecb]; cbn [negb].
  - destruct (unmk d cr) as [[[[gl z] gb] gr]|] eqn:Et; [|done].
    apply unmk_Some in Et as ->. injection Hr as <- <-.
    rewrite root_mk tree_at_mk. iDestruct "Hcr" as "(Hz & Hgl & Hgr)".
    iDestruct (node_at_ptr with "Hz") as %[? ?].
    iAssert (⌜-1 <= gb <= 1⌝)%I as %Hgb. { iDestruct "Hz" as "[% _]". iPureIntro. tauto. }
    wstep wp_get_child_other on "Hy". wstep wp_get_child on "Hz".
    wstep wp_get_child_other on "Hz". wstep (wp_set_child (root gr)) on "Hx".
    wstep (wp_reparent x d) on "Hgr".
    wstep (wp_set_child_other (root gl)) on "Hy".
    wstep (wp_reparent y (negb d)) on "Hgl".
    wstep wp_xbalance on "Hz". wstep (wp_set_child y) on "Hz".
    wstep wp_setbalance on "Hy"; [by destruct (gb =? _), d|].
    wstep (wp_setparent z) on "Hy". wstep (wp_setchild d) on "Hy".
    wstep (wp_set_child_other x) on "Hz".
    wstep wp_setbalance on "Hx"; [by destruct (gb =? _), d|].
    wstep (wp_setparent z) on "Hx". wstep (wp_setchild (negb d)) on "Hx".
    wstep wp_setbalance on "Hz".
    wstep (wp_setparent (cpar c 0)) on "Hz".
    wstep (wp_setchild (cidx c false)) on "Hz".
    wstep (wp_link c x z) on "Hc". iApply wp_ret. iApply "HQ".
    rewrite /zip_at !tree_at_mk !root_mk. iFrame.
  - injection Hr as <- <-.
    wstep wp_get_child_other on "Hy". wstep (wp_set_child (root cr)) on "Hx".
    wstep (wp_reparent x d) on "Hcr".
    wstep (wp_set_child_other x) on "Hy".
    replace (cb + - c2b d) with (cb - c2b d) by lia.
    assert (-1 <= cb - c2b d <= 1) by (destruct d; simpl in *; lia).
    wstep wp_setbalance on "Hx". wstep (wp_setchild (negb d)) on "Hx".
    wstep (wp_setparent y) on "Hx".
    wstep wp_setbalance on "Hy". wstep (wp_setchild (cidx c false)) on "Hy".
    wstep (wp_setparent (cpar c 0)) on "Hy".
    wstep (wp_link c x y) on "Hc". iApply wp_ret. iApply "HQ".
    rewrite /zip_at !tree_at_mk !root_mk. iFrame.
Qed.
End steps.

Lemma wp_child2balance d (Q : Z -> hpropI cell) :
  Q (c2b d) ⊢ wp (avl_child2balance (Z.b2z d)) Q.
Proof. destruct d; apply wp_ret. Qed.

Lemma wp_balance2child d (Q : Z -> hpropI cell) :
  Q (Z.b2z d) ⊢ wp (avl_balance2child (1 + c2b d)) Q.
Proof. destruct d; apply wp_ret. Qed.

(** ** The rebalancing loops *)
Section loops.
Context (tr : Z) (T : avl_tree).
Implicit Types Q : unit -> hpropI cell.

(** A node of the path, opened. *)
Lemma zip_at_frame d x b s c t :
  zip_at tr T (Fr d x b s :: c) t ⊣⊢
  ctx_at tr T c x ∗ node_at d x (root t) (root s) (cpar c 0) (cidx c false) b ∗
  tree_at t x d ∗ tree_at s x (negb d).
Proof.
  rewrite /zip_at /= ctx_at_cons. iSplit.
  - iIntros "((? & ? & ?) & ?)". iFrame.
  - iIntros "(? & ? & ? & ?)". iFrame.
Qed.

Lemma zip_at_mk d t x b s c :
  zip_at tr T c (mk d t x b s) ⊣⊢ zip_at tr T (Fr d x b s :: c) t.
Proof. by rewrite zip_at_plug -plug_cons -zip_at_plug. Qed.

Lemma wp_insert_loop fuel c t t' Q :
  (length c < fuel)%nat -> ins_up c t = Some t' ->
  zip_at tr T c t -∗ (zip_at tr T [] t' -∗ Q tt) -∗
  wp (insert_loop fuel tr (cpar c 0) (Z.b2z (cidx c false))) Q.
Proof.
  revert fuel t. induction c as [|[d x b s] c IH]; intros fuel t Hf Hi;
    (destruct fuel as [|fuel]; [simpl in Hf; lia|]); simpl in Hi |- *;
    iIntros "Hz HQ".
  { injection Hi as ->. iApply wp_ret. by iApply "HQ". }
  rewrite zip_at_frame. iDestruct "Hz" as "(Hc & Hx & Ht & Hs)".
  iDestruct (node_at_ptr with "Hx") as %Hv. rewrite node_ptr_nonnull //.
  iAssert (⌜-1 <= b <= 1⌝)%I as %Hb. { iDestruct "Hx" as "[% _]". iPureIntro. tauto. }
  wstep wp_xbalance on "Hx". iApply wp_bind. iApply wp_child2balance.
  destruct (Z.eqb_spec (b + c2b d) 0) as [E|E];
    [|destruct (Z.eqb_spec b 0) as [E0|E0]; simpl in Hi |- *].
  - injection Hi as <-. iApply (wp_setbalance with "Hx"); [lia|]. iIntros "Hx".
    iApply "HQ". rewrite -zip_at_plug zip_at_mk zip_at_frame. iFrame.
  - wstep wp_setbalance on "Hx"; [destruct d; simpl in *; lia|].
    wstep wp_xparent on "Hx". wstep wp_xchild on "Hx".
    iApply (IH with "[Hc Hx Ht Hs] HQ"); [simpl in Hf; lia|done|].
    rewrite zip_at_mk zip_at_frame. iFrame.
  - destruct (rot d x t s) as [[t1 sh]|] eqn:Er; [|done]. injection Hi as <-.
    replace (b + c2b d) with (2 * c2b d) by (destruct d; simpl in *; lia).
    iApply wp_bind. iApply (wp_rotation with "Hc Hx Ht Hs"); [done|].
    iIntros "Hz". iApply wp_ret. iApply "HQ". by rewrite -zip_at_plug.
Qed.

Lemma wp_remove_loop fuel c t t' Q :
  c <> [] -> (length c < S fuel)%nat -> del_up c t = Some t' ->
  zip_at tr T c t -∗ (zip_at tr T [] t' -∗ Q tt) -∗
  wp (remove_loop fuel tr (cpar c 0) (Z.b2z (cidx c false))) Q.
Proof.
  revert fuel t. induction c as [|[d x b s] c IH]; intros fuel t Hne Hf Hi; [done|].
  destruct fuel as [|fuel]; [simpl in Hf; lia|]. simpl in Hi |- *.
  assert (Hcont : forall t1, del_up c t1 = Some t' ->
    zip_at tr T c t1 -∗ (zip_at tr T [] t' -∗ Q tt) -∗
    wp (if negb (cpar c 0 =? 0)
        then remove_loop fuel tr (cpar c 0) (Z.b2z (cidx c false))
        else mret tt) Q).
  { iIntros (t1 Ht1) "Hz HQ". destruct c as [|[d2 x2 b2 s2] c2].
    - injection Ht1 as ->. iApply wp_ret. by iApply "HQ".
    - iAssert (⌜node_ptr x2⌝)%I as %Hv2.
      { rewrite zip_at_frame. iDestruct "Hz" as "(_ & Hx & _)".
        iDestruct (node_at_ptr with "Hx") as %?. done. }
      simpl. rewrite node_ptr_nonnull //=.
      iApply (IH with "Hz HQ"); [done|simpl in *; lia|done]. }
  iIntros "Hz HQ". rewrite zip_at_frame. iDestruct "Hz" as "(Hc & Hx & Ht & Hs)".
  iAssert (⌜-1 <= b <= 1⌝)%I as %Hb. { iDestruct "Hx" as "[% _]". iPureIntro. tauto. }
  wstep wp_xbalance on "Hx". iApply wp_bind. iApply wp_child2balance.
  wstep wp_xparent on "Hx". wstep wp_xchild on "Hx".
  destruct (Z.eqb_spec b 0) as [E0|E0];
    [|destruct (Z.eqb_spec (b - c2b d) 0) as [E|E]].
  - injection Hi as <-.
    iApply (wp_setbalance with "Hx"); [destruct d; simpl in *; lia|]. iIntros "Hx".
    iApply "HQ". rewrite -zip_at_plug zip_at_mk zip_at_frame. iFrame.
  - rewrite E. wstep wp_setbalance on "Hx".
    iApply (Hcont with "[Hc Hx Ht Hs] HQ"); [done|].
    rewrite zip_at_mk zip_at_frame. iFrame.
  - destruct (rot (negb d) x s t) as [[t1 sh]|] eqn:Er; [|done]. simpl in Hi.
    replace (b - c2b d) with (2 * c2b (negb d)) by (destruct d; simpl in *; lia).
    rewrite -(node_at_negb d) -{1}(negb_involutive d).
    iApply wp_bind. iApply (wp_rotation with "Hc Hx Hs [Ht]"); [done| |].
    { by rewrite negb_involutive. }
    iIntros "Hz". destruct sh; simpl.
    + by iApply (Hcont with "Hz HQ").
    + injection Hi as <-. iApply wp_ret. iApply "HQ". by rewrite -zip_at_plug.
Qed.
End loops.

(** ** Traversals *)
Section traverse.
Context (tr : Z) (T : avl_tree).
Implicit Types Q : Z -> hpropI cell.

Lemma root_mk_ptr d a x b o c :
  zip_at tr T c (mk d a x b o) ⊢ ⌜node_ptr x⌝.
Proof.
  rewrite zip_at_mk zip_at_frame. iIntros "(_ & Hx & _)".
  by iApply (node_at_ptr with "Hx").
Qed.

Lemma zip_at_opt c t :
  zip_at tr T c t ⊢ ⌜root t = 0 /\ t = E \/ node_ptr (root t) /\ t <> E⌝.
Proof.
  destruct t as [|l x b r]; iIntros "H"; [iPureIntro; by left|].
  iDestruct (root_mk_ptr false with "H") as %?. iPureIntro. by right.
Qed.

(** [for (...; node->avl_child[right] != NULL; ...)] *)
Lemma wp_walk_down fuel d t c Q :
  t <> E -> (length (inorder t) <= fuel)%nat ->
  let '(c', t') := extr d t c in
  zip_at tr T c t -∗ (zip_at tr T c' t' -∗ Q (root t')) -∗
  wp (walk_down fuel (root t) (Z.b2z d)) Q.
Proof.
  revert c fuel. induction t as [|a x b o IH _] using (tree_ind_d d);
    intros c fuel Hne Hf; [done|].
  rewrite extr_mk root_mk. rewrite inorder_mk in Hf.
  assert (Hf' : (S (length (inorder a)) <= fuel)%nat)
    by (destruct d; rewrite length_app /= in Hf; lia).
  destruct fuel as [|fuel]; [lia|]. cbn [walk_down].
  specialize (IH (Fr d x b o :: c) fuel).
  destruct (decide (a = E)) as [->|Ha].
  - rewrite root_mk. iIntros "Hz HQ". rewrite {1}zip_at_mk {1}zip_at_frame.
    iDestruct "Hz" as "(Hc & Hx & Ht & Hs)". wstep wp_get_child on "Hx".
    iApply wp_ret. iApply "HQ". rewrite zip_at_mk zip_at_frame. iFrame.
  - specialize (IH Ha ltac:(lia)).
    assert (Em : match a with E => (c, mk d a x b o)
                 | _ => extr d a (Fr d x b o :: c) end = extr d a (Fr d x b o :: c))
      by by destruct a.
    rewrite Em. destruct (extr d a _) as [c' t'].
    rewrite zip_at_mk. iIntros "Hz HQ".
    iDestruct (zip_at_opt with "Hz") as %[[_ ?]|[Hp _]]; [done|].
    rewrite zip_at_frame. iDestruct "Hz" as "(Hc & Hx & Ht & Hs)".
    wstep wp_get_child on "Hx". rewrite node_ptr_nonnull //.
    iApply (IH with "[-HQ] HQ"). rewrite zip_at_frame. iFrame.
Qed.

(** The [for (;;)] of [avl_walk] *)
Lemma wp_walk_up fuel d t c Q :
  t <> E -> (length c < fuel)%nat ->
  zip_at tr T c t -∗ (zip_at tr T c t -∗ Q (climb d c)) -∗
  wp (walk_up fuel (root t) (Z.b2z d)) Q.
Proof.
  revert t fuel. induction c as [|[d' x b s] c IH]; intros t fuel Hne Hf;
    (destruct fuel as [|fuel]; [simpl in Hf; lia|]); cbn [walk_up];
    destruct (tree_mk false t Hne) as (a & y & b' & o & ->); rewrite root_mk;
    iIntros "Hz HQ"; rewrite {1}zip_at_mk {1}zip_at_frame;
    iDestruct "Hz" as "(Hc & Hx & Ht & Hs)";
    wstep wp_xchild on "Hx"; wstep wp_xparent on "Hx"; cbn [cpar cidx fr_node fr_dir];
    iCombine "Hc Hx Ht Hs" as "Hz"; rewrite -zip_at_frame -(zip_at_mk _ _ false).
  { iApply wp_ret. by iApply "HQ". }
  iEval (rewrite -(zip_at_mk _ _ d')) in "Hz".
  iDestruct (root_mk_ptr with "Hz") as %Hp. rewrite node_ptr_nonnull //=.
  assert (Ed : (Z.b2z d' =? Z.b2z d) = eqb d' d) by by destruct d', d.
  rewrite Ed. destruct (eqb d' d).
  - iApply wp_ret. iApply "HQ". by rewrite (zip_at_mk _ _ d').
  - assert (Hw := IH (mk d' (mk false a y b' o) x b s) fuel
      ltac:(by destruct d') ltac:(simpl in Hf; lia)).
    rewrite root_mk in Hw. iApply (Hw with "Hz").
    iIntros "Hz". iApply "HQ". by rewrite (zip_at_mk _ _ d').
Qed.
End traverse.
