(* ===== verification/AvlSpec.v ===== *)
(** * What the AVL tree promises, and that avl.c keeps it

    [avl_list tr T l]: the tree object [tr] and its nodes are in memory, [l]
    is the list of the node addresses in order, and the tree is balanced.
    The theorems give every function of avl.c as an operation on [l]. *)

From S2P Require Import Prelude SepLogic Avl AvlTree AvlNode AvlHeap.
From stdpp Require Import sorting.
From iris.proofmode Require Import proofmode.

#[local] Open Scope Z_scope.

Definition avl_list (tr : Z) (T : avl_tree) (l : list Z) : hpropI cell :=
  ∃ t, ⌜inorder t = l /\ avl t /\ aligned (avl_offset T)⌝ ∧
    zip_at tr (with_num T (Z.of_nat (length l))) [] t.

(** A node the user holds, not in a tree. *)
Definition free_node (x : Z) : hpropI cell := ∃ n, x ↦ CNode n.

(** ** Nodes are distinct *)
Lemma tree_at_nodes t p i :
  tree_at t p i ⊢ ⌜Forall node_ptr (inorder t)⌝ ∧ [∗ list] x ∈ inorder t, free_node x.
Proof.
  revert p i. induction t as [|l IHl x b r IHr]; intros p i; cbn [tree_at inorder].
  { iIntros "H". iSplit; [by iPureIntro|done]. }
  rewrite IHl IHr. iIntros "(Hx & [%Hl Hl] & [%Hr Hr])".
  iDestruct (node_at_ptr with "Hx") as %Hv. iDestruct "Hx" as "[_ Hx]".
  iSplit.
  - iPureIntro. rewrite Forall_app Forall_cons. auto.
  - rewrite big_sepL_app big_sepL_cons. iFrame "Hl Hr". by iExists _.
Qed.

Lemma free_nodes_NoDup l : ([∗ list] x ∈ l, free_node x) ⊢ ⌜NoDup l⌝.
Proof.
  induction l as [|x l IH]; simpl.
  { iIntros "_". iPureIntro. constructor. }
  iIntros "[[%n Hx] Hl]". iAssert (⌜x ∉ l⌝)%I as %Hx.
  { iIntros (Hin). apply list_elem_of_lookup in Hin as [k Hk].
    iDestruct (big_sepL_lookup_acc with "Hl") as "[[%n' Hx'] _]"; [done|].
    iDestruct (points_to_ne with "[$Hx $Hx']") as %?. done. }
  rewrite IH. iDestruct "Hl" as %Hl. iPureIntro. by constructor.
Qed.

Lemma node_list_length l :
  NoDup l -> Forall node_ptr l -> Z.of_nat (length l) < 2 ^ 64.
Proof.
  intros Hnd Hp. assert (Hs : l ⊆+ seqZ 1 (2 ^ 64 - 1)).
  { apply NoDup_submseteq; [done|]. intros x Hx. apply elem_of_seqZ.
    rewrite Forall_forall in Hp. destruct (Hp x Hx) as [? _]. lia. }
  apply submseteq_length in Hs. rewrite length_seqZ in Hs. lia.
Qed.

Lemma tree_at_list t p i :
  tree_at t p i ⊢
  ⌜NoDup (inorder t) /\ Forall node_ptr (inorder t) /\
   Z.of_nat (length (inorder t)) < 2 ^ 64⌝.
Proof.
  rewrite tree_at_nodes. iIntros "[%Hp Hl]". rewrite free_nodes_NoDup.
  iDestruct "Hl" as %Hnd. iPureIntro. split_and!; [done..|].
  by apply node_list_length.
Qed.

Lemma with_num_root T n r : with_root (with_num T n) r = AvlTree r (avl_compar T) (avl_offset T) n (avl_size T).
Proof. done. Qed.

Section avl_spec.
Context (tr : Z) (T : avl_tree).

Abbreviation off := (avl_offset T).
Abbreviation N2D x := (AVL_NODE2DATA x off).

Lemma at_least_zip n c t :
  zip_at tr (with_num T n) c t ⊢ at_least (length c + length (inorder t)).
Proof.
  rewrite zip_at_plug /zip_at /= comm. apply at_least_frame.
  rewrite at_least_tree. apply at_least_mono, plug_length.
Qed.

(** The tree object, read from any context. *)
Lemma wp_load_zip T' c t (Q : avl_tree -> hpropI cell) :
  zip_at tr T' c t -∗
  (zip_at tr T' c t -∗ Q (with_root T' (root (plug c t)))) -∗
  wp (load_tree tr) Q.
Proof.
  rewrite /zip_at /ctx_at root_plug. iIntros "[[Ht Hc] Hn] HQ".
  iApply (wp_load_tree with "Ht"). iIntros "Ht". iApply "HQ". iFrame.
Qed.

(** *** [avl_insert] *)
Lemma fresh_node_pcb pcb p i :
  aligned p ->
  pcb_set_parent (pcb_set_balance (pcb_set_child pcb (Z.b2z i)) 0) p = pack p i 0.
Proof.
  intros Hp. destruct (pack_surj pcb) as (p0 & i0 & b0 & -> & Hp0 & Hb0).
  rewrite pcb_set_child_pack // pcb_set_balance_pack // ?pcb_set_parent_pack //.
Qed.

(** The fields of a new node *)
Lemma wp_init_node {A} x p i n (k : AM A) (Q : A -> hpropI cell) :
  node_ptr x -> aligned p ->
  x ↦ CNode n -∗ (node_at false x 0 0 p i 0 -∗ wp k Q) -∗
  wp (set_child x 0 0 ;; set_child x 1 0 ;; AVL_SETCHILD x (Z.b2z i) ;;
      AVL_SETBALANCE x 0 ;; AVL_SETPARENT x p ;; k) Q.
Proof.
  iIntros (Hx Hp) "Hx HQ".
  do 5 (iApply wp_bind; wstep wp_load_node on "Hx"; simpl;
        iApply (wp_store_node with "Hx"); iIntros "Hx").
  iApply "HQ". iSplit; [iPureIntro; split_and!; try done; lia|].
  by rewrite fresh_node_pcb.
Qed.

Lemma wp_set_num n n' c a (Q : unit -> hpropI cell) :
  ctx_at tr (with_num T n) c a -∗ (ctx_at tr (with_num T n') c a -∗ Q tt) -∗
  wp (set_avl_numnodes tr n') Q.
Proof.
  iIntros "[Ht Hc] HQ". wstep wp_load_tree on "Ht".
  iApply (wp_store_tree with "Ht"). iIntros "Ht". iApply "HQ". iFrame.
Qed.

Lemma ctx_at_aligned T' c a : ctx_at tr T' c a ⊢ ⌜aligned (cpar c 0)⌝.
Proof.
  destruct c as [|[d x b s] c]; [by iIntros "_"|]. rewrite ctx_at_cons.
  iIntros "(_ & Hx & _)". iDestruct (node_at_ptr with "Hx") as %[_ ?]. done.
Qed.

Lemma ctx_at_nonnull T' c a : ctx_at tr T' c a ⊢ ⌜tr <> 0⌝.
Proof.
  iIntros "[Ht _]". by iDestruct (points_to_nonnull with "Ht") as %?.
Qed.

(** The parent's slot is empty where a search ends. *)
Lemma wp_link_new c x Q T' :
  ctx_at tr T' c 0 -∗ (ctx_at tr T' c x -∗ Q tt) -∗
  wp (if negb (cpar c 0 =? 0) then
        c0 ← get_child (cpar c 0) (Z.b2z (cidx c false));
        massert (c0 =? 0) ;; set_child (cpar c 0) (Z.b2z (cidx c false)) x
      else
        t ← load_tree tr; massert (avl_root t =? 0) ;; set_avl_root tr x) Q.
Proof.
  iIntros "Hc HQ". pose proof (wp_link tr T' c 0 x Q) as Hl.
  destruct c as [|[d y b s] c].
  - iDestruct "Hc" as "[Ht Hc]". wstep wp_load_tree on "Ht".
    iApply wp_bind. iApply wp_massert; [done|]. iApply (Hl with "[$Ht $Hc] HQ").
  - simpl in *. iEval (rewrite ctx_at_cons) in "Hc". iDestruct "Hc" as "(Hc & Hy & Hs)".
    iDestruct (node_at_ptr with "Hy") as %Hv. rewrite node_ptr_nonnull //= in Hl |- *.
    wstep wp_get_child on "Hy". iApply wp_bind. iApply wp_massert; [done|].
    iApply (Hl with "[Hc Hy Hs] HQ"). rewrite ctx_at_cons. iFrame.
Qed.

Lemma wp_avl_insert n c x t' (Q : unit -> hpropI cell) :
  node_ptr x -> aligned off -> ins_up c (AvlTree.T E x 0 E) = Some t' ->
  zip_at tr (with_num T n) c E -∗ free_node x -∗
  (zip_at tr (with_num T (u64 (n + 1))) [] t' -∗ Q tt) -∗
  wp (avl_insert tr (N2D x) (AVL_MKINDEX (cpar c 0) (Z.b2z (cidx c false)))) Q.
Proof.
  iIntros (Hx Ho Hi) "Hz [%n0 Hx] HQ".
  iApply wp_bind. iApply (wp_mem_fuel with "Hz"); [apply at_least_zip|].
  iIntros (k Hk) "[Hc _]". iDestruct (ctx_at_aligned with "Hc") as %Hal.
  iDestruct (ctx_at_nonnull with "Hc") as %Htr.
  rewrite index_node // index_child //.
  iApply wp_bind. iApply wp_massert. { by apply negb_true_iff, Z.eqb_neq. }
  iApply wp_bind. iApply wp_massert.
  { apply Z.eqb_eq, node2data_aligned; [apply Hx|done]. }
  iDestruct "Hc" as "[Ht Hc]". wstep wp_load_tree on "Ht".
  cbn [with_root with_num avl_offset avl_numnodes_f].
  rewrite data2node_node2data; [|apply Hx].
  iCombine "Ht Hc" as "Hc". rewrite -/(ctx_at tr (with_num T n) c 0).
  iApply wp_bind. iApply (wp_set_num n (u64 (n + 1)) with "Hc"). iIntros "Hc".
  iApply (wp_init_node _ (cpar c 0) (cidx c false) with "Hx"); [done..|]. iIntros "Hx".
  iApply wp_bind. iApply (wp_link_new with "Hc"). iIntros "Hc".
  iApply (wp_insert_loop _ _ (S k) c with "[Hc Hx] HQ"); [|done|].
  { simpl in Hk. lia. }
  rewrite /zip_at /=. iFrame. by iSplitL.
Qed.

Lemma zip_at_length T' t :
  zip_at tr T' [] t ⊢ ⌜NoDup (inorder t) /\ Forall node_ptr (inorder t) /\
    Z.of_nat (length (inorder t)) < 2 ^ 64⌝.
Proof.
  iIntros "[_ Ht]". by iDestruct (tree_at_list with "Ht") as %?.
Qed.

Lemma ins_up_fresh c x :
  avl (plug c E) ->
  exists t', ins_up c (AvlTree.T E x 0 E) = Some t' /\ avl t' /\
    inorder t' = pre c ++ x :: post c.
Proof.
  rewrite avl_plug. intros [_ Hc].
  destruct (ins_up_correct c (AvlTree.T E x 0 E)) as (t' & Hi & Ha & Hin).
  - simpl. lia.
  - done.
  - by right.
  - exists t'. rewrite Hin inorder_plug. done.
Qed.

(** Inserting at an empty place [c] of the tree *)
Lemma wp_insert_at c x (Q : unit -> hpropI cell) :
  node_ptr x -> aligned off -> avl (plug c E) ->
  zip_at tr (with_num T (Z.of_nat (length (inorder (plug c E))))) c E -∗ free_node x -∗
  (avl_list tr T (pre c ++ x :: post c) -∗ Q tt) -∗
  wp (avl_insert tr (N2D x) (AVL_MKINDEX (cpar c 0) (Z.b2z (cidx c false)))) Q.
Proof.
  iIntros (Hx Ho Ha) "Hz Hx HQ".
  destruct (ins_up_fresh c x Ha) as (t' & Hi & Ha' & Hin).
  iApply (wp_avl_insert with "Hz Hx"); [done..|]. iIntros "Hz".
  iApply "HQ". iDestruct (zip_at_length with "Hz") as %(_ & _ & Hlen).
  iExists t'. iSplit; [done|]. rewrite Hin in Hlen.
  rewrite inorder_plug /= !length_app /=. rewrite length_app /= in Hlen.
  rewrite wrap_small; [|lia].
  by replace (Z.of_nat (length (pre c) + length (post c)) + 1)
    with (Z.of_nat (length (pre c) + S (length (post c)))) by lia.
Qed.

(** *** Walking *)
Definition data_or_null (o : option Z) : Z := from_option (fun x => N2D x) 0 o.

Lemma endmost_app d (l l' k : list Z) :
  k <> [] -> endmost d (if d then l ++ k else k ++ l') = endmost d k.
Proof.
  intros Hk. destruct d; simpl.
  - rewrite last_app. destruct (last k) eqn:E; [done|]. by apply last_None in E.
  - by destruct k.
Qed.

Lemma endmost_elem d (l : list Z) x : endmost d l = Some x -> x ∈ l.
Proof.
  destruct d; simpl; intros H; [by apply last_Some_elem_of|].
  destruct l; simplify_eq/=. set_solver.
Qed.

Lemma wp_load_zip' n c t (Q : avl_tree -> hpropI cell) :
  zip_at tr (with_num T n) c t -∗
  (zip_at tr (with_num T n) c t -∗
     Q (AvlTree (root (plug c t)) (avl_compar T) off n (avl_size T))) -∗
  wp (load_tree tr) Q.
Proof. apply wp_load_zip. Qed.

(** The neighbour of [x] on side [d]. *)
Definition neighbour (d : bool) (l1 l2 : list Z) : option Z :=
  if d then head l2 else last l1.

Lemma neighbour_side d l x b r c :
  exists a o, AvlTree.T l x b r = mk d a x b o /\
    neighbour d (pre c ++ inorder l) (inorder r ++ post c) =
      endmost (negb d) (if negb d then pre c ++ inorder a else inorder a ++ post c).
Proof. exists (if d then r else l), (if d then l else r). by destruct d. Qed.

(** A pointer read from the tree is [NULL] or a node. *)
Lemma data_or_null_climb c t d :
  Forall node_ptr (inorder (plug c t)) ->
  (if climb d c =? 0 then 0 else N2D (climb d c)) =
    data_or_null (endmost d (if d then pre c else post c)).
Proof.
  rewrite climb_spec inorder_plug !Forall_app !Forall_forall. intros (Hpre & _ & Hpost).
  destruct (endmost d _) as [y|] eqn:E; [|done]. simpl.
  apply endmost_elem in E. rewrite node_ptr_nonnull //. destruct d; auto.
Qed.

Lemma wp_walk_zip n d l x b r c (Q : Z -> hpropI cell) :
  zip_at tr (with_num T n) c (AvlTree.T l x b r) -∗
  (zip_at tr (with_num T n) c (AvlTree.T l x b r) -∗
     Q (data_or_null (neighbour d (pre c ++ inorder l) (inorder r ++ post c)))) -∗
  wp (avl_walk tr (N2D x) (Z.b2z d)) Q.
Proof.
  iIntros "Hz HQ". iDestruct (root_mk_ptr _ _ false with "Hz") as %Hp.
  iApply wp_bind. iApply (wp_mem_fuel with "Hz"); [apply at_least_zip|].
  iIntros (k Hk) "Hz". iApply wp_bind. iApply (wp_load_zip' with "Hz"). iIntros "Hz".
  cbn [avl_offset]. rewrite data2node_node2data; [|apply Hp].
  rewrite (node_ptr_nonnull x) // b2z_negb.
  destruct (neighbour_side d l x b r c) as (a & o & Ea & ->).
  rewrite Ea inorder_mk in Hk. rewrite Ea.
  iDestruct (zip_at_length with "[Hz]") as %(_ & Hptr & _).
  { rewrite zip_at_plug. iExact "Hz". }
  iEval (rewrite zip_at_mk) in "Hz". iDestruct (zip_at_opt with "Hz") as %Ha.
  iEval (rewrite zip_at_frame) in "Hz". iDestruct "Hz" as "(Hc & Hx & Ht & Hs)".
  wstep wp_get_child on "Hx". iCombine "Hc Hx Ht Hs" as "Hz". rewrite -zip_at_frame.
  destruct Ha as [[-> ->]|[Hap HE]].
  - assert (Hw := wp_walk_up tr (with_num T n) k (negb d) (mk d E x b o) c).
    rewrite root_mk in Hw. iApply wp_bind. rewrite -zip_at_mk.
    iApply (Hw with "Hz"); first by destruct d.
    { destruct d; rewrite length_app /= in Hk; lia. }
    iIntros "Hz". simpl. rewrite app_nil_r -(data_or_null_climb c (mk d E x b o)) //.
    destruct (climb (negb d) c =? 0); iApply wp_ret; by iApply "HQ".
  - rewrite node_ptr_nonnull //=.
    assert (Hw := wp_walk_down tr (with_num T n) k (negb d) a (Fr d x b o :: c)).
    destruct (extr_spec (negb d) a (Fr d x b o :: c) HE) as (c2 & y & b' & o' & Ex & Epl & Hend & _).
    rewrite Ex root_mk in Hw. iApply wp_bind.
    iApply (Hw with "Hz"); first done.
    { destruct d; rewrite length_app /= in Hk; lia. }
    iIntros "Hz". iApply wp_ret.
    rewrite endmost_app; [|by intros E; rewrite E in Hend; destruct d].
    rewrite Hend. iApply "HQ".
    by rewrite zip_at_plug plug_app Epl plug_cons -zip_at_plug.
Qed.

(** [avl_walk] returns the next datum on side [d], or [NULL] at the end. *)
Lemma wp_avl_walk d l1 x l2 (Q : Z -> hpropI cell) :
  avl_list tr T (l1 ++ x :: l2) -∗
  (avl_list tr T (l1 ++ x :: l2) -∗ Q (data_or_null (neighbour d l1 l2))) -∗
  wp (avl_walk tr (N2D x) (Z.b2z d)) Q.
Proof.
  iIntros "(%t & (%Hl & %Ht & %Ho) & Hz) HQ".
  destruct (focus t [] l1 x l2 Hl) as (c & l & b & r & Hp & H1 & H2).
  simpl in *. rewrite app_nil_r in H2. subst l1 l2.
  iEval (rewrite -Hp -zip_at_plug) in "Hz".
  iApply (wp_walk_zip with "Hz"). iIntros "Hz". iApply "HQ".
  iExists t. iSplit; [done|]. by rewrite zip_at_plug Hp.
Qed.
End avl_spec.
