(* ===== verification/AvlRemove.v ===== *)
(** * Removal from an AVL tree in memory

    [avl_remove] in two parts: exchanging a node that has two children with
    its neighbour, and unlinking a node that has at most one. *)

From S2P Require Import Prelude SepLogic Avl AvlTree AvlNode AvlHeap AvlSpec.
From iris.proofmode Require Import proofmode.

#[local] Open Scope Z_scope.

Section remove.
Context (tr : Z) (T : avl_tree).
Implicit Types Q : unit -> hpropI cell.

Lemma node_at_free d x a c p i b : node_at d x a c p i b ⊢ free_node x.
Proof. iIntros "[_ H]". by iExists _. Qed.

(** Both child slots, by number *)
Lemma wp_get_child_0 d x a c p i b (Q : Z -> hpropI cell) :
  node_at d x a c p i b -∗
  (node_at d x a c p i b -∗ Q (if d then c else a)) -∗ wp (get_child x 0) Q.
Proof. destruct d; [apply (wp_get_child_other true)|apply (wp_get_child false)]. Qed.

Lemma wp_get_child_1 d x a c p i b (Q : Z -> hpropI cell) :
  node_at d x a c p i b -∗
  (node_at d x a c p i b -∗ Q (if d then a else c)) -∗ wp (get_child x 1) Q.
Proof. destruct d; [apply (wp_get_child true)|apply (wp_get_child_other false)]. Qed.

(** The only child of a node that has at most one. *)
Lemma wp_only_child {A} d x p i b t p' i' (k : Z -> AM A) (Q : A -> hpropI cell) :
  node_at d x (root t) 0 p i b -∗ tree_at t p' i' -∗
  (node_at d x (root t) 0 p i b -∗ tree_at t p' i' -∗ wp (k (root t)) Q) -∗
  wp (c0 ← get_child x 0;
      node ← (if negb (c0 =? 0) then mret c0 else get_child x 1); k node) Q.
Proof.
  iIntros "Hx Ht HQ". wstep wp_get_child_0 on "Hx".
  iDestruct (tree_at_root_ptr with "Ht") as %Hr.
  destruct d; [|destruct Hr as [->|Hp]]; cbn [negb root Z.eqb].
  - wstep wp_get_child_1 on "Hx". iApply ("HQ" with "Hx Ht").
  - wstep wp_get_child_1 on "Hx". iApply ("HQ" with "Hx Ht").
  - rewrite (node_ptr_nonnull (root t)) //=. iApply wp_bind. iApply wp_ret.
    iApply ("HQ" with "Hx Ht").
Qed.

Lemma wp_remove_leaf fuel n c d e y b t' Q :
  0 < n < 2 ^ 64 -> (length c <= fuel)%nat -> del_up c e = Some t' ->
  zip_at tr (with_num T n) c (mk d e y b E) -∗
  (zip_at tr (with_num T (n - 1)) [] t' -∗ free_node y -∗ Q tt) -∗
  wp (remove_leaf fuel tr y) Q.
Proof.
  iIntros (Hn Hf Hd) "Hz HQ". iApply wp_bind.
  iApply (wp_load_zip' with "Hz"). iIntros "Hz". cbn [avl_numnodes_f].
  iApply wp_bind. iApply wp_massert. { apply Z.ltb_lt. lia. }
  rewrite wrap_small; [|lia]. iEval (rewrite zip_at_mk zip_at_frame) in "Hz".
  iDestruct "Hz" as "(Hc & Hy & He & _)".
  iDestruct (ctx_at_aligned with "Hc") as %Hal.
  iApply wp_bind. iApply (wp_set_num _ _ n (n - 1) with "Hc"). iIntros "Hc".
  wstep wp_xparent on "Hy". wstep wp_xchild on "Hy".
  iApply (wp_only_child with "Hy He"). iIntros "Hy He".
  iApply wp_bind. iApply (wp_reparent (cpar c 0) (cidx c false) with "He"); [done|].
  iIntros "He". cbv beta. iDestruct (node_at_free with "Hy") as "Hy".
  destruct c as [|[d' x b' s] c].
  - injection Hd as <-. simpl. iApply (wp_set_root with "Hc"); [done|].
    iIntros "[Hc Hs]". iApply ("HQ" with "[Hc Hs He] Hy"). iFrame.
  - iEval (rewrite ctx_at_cons) in "Hc". iDestruct "Hc" as "(Hc & Hx & Hs)".
    iDestruct (node_at_ptr with "Hx") as %Hp.
    cbn [cpar cidx fr_node fr_dir]. rewrite (node_ptr_nonnull x) //.
    wstep (wp_set_child (root e)) on "Hx".
    iApply (wp_remove_loop _ _ (S fuel) (Fr d' x b' s :: c) with "[Hc Hx Hs He]");
      [done|simpl in *; lia|done|rewrite zip_at_frame; iFrame|].
    iIntros "Hz". iApply ("HQ" with "Hz Hy").
Qed.

(** ** The exchange *)
Lemma cpar_snoc c f p : cpar (c ++ [f]) p = cpar (c ++ [f]) 0.
Proof. by destruct c. Qed.
Lemma cidx_snoc c f i : cidx (c ++ [f]) i = cidx (c ++ [f]) false.
Proof. by destruct c. Qed.
Lemma ctop_snoc c f a : ctop (c ++ [f]) a = fr_node f.
Proof. by rewrite ctop_app. Qed.

(** The top node of a path, or the node [x] itself when the path is empty,
    gets a new parent. *)
Lemma wp_reparent_top q p d c x a o i b h Q :
  aligned q ->
  node_at d x a o (cpar c p) (cidx c i) b -∗ seg c h p i -∗
  (node_at d x a o (cpar c q) (cidx c i) b -∗ seg c h q i -∗ Q tt) -∗
  wp (AVL_SETPARENT (ctop c x) q) Q.
Proof.
  iIntros (Hq) "Hx Hc HQ". destruct c as [|f c _] using rev_ind.
  - iApply (wp_setparent q with "Hx"); [done|]. iIntros "Hx". by iApply ("HQ" with "Hx").
  - rewrite ctop_snoc !(cpar_snoc _ _ p) !(cpar_snoc _ _ q) !seg_app.
    destruct f as [d' y b' s]. simpl.
    iDestruct "Hc" as "(Hc & Hy & Hs & _)".
    iApply (wp_setparent q with "Hy"); [done|]. iIntros "Hy".
    iApply ("HQ" with "Hx"). iFrame.
Qed.

(** The parent of the lower end of a path gets a new child. *)
Lemma wp_set_lower v d y h o p i b c Q :
  node_at d y (ctop c v) o p i b -∗ seg c h y d -∗
  (node_at d y (ctop c v) o p i b -∗ seg c v y d -∗ Q tt) -∗
  wp (set_child (cpar c y) (Z.b2z (cidx c d)) v) Q.
Proof.
  iIntros "Hy Hc HQ". destruct c as [|[d' x b' s] c]; simpl.
  - iApply (wp_set_child v with "Hy"). iIntros "Hy". by iApply ("HQ" with "Hy").
  - iDestruct "Hc" as "(Hx & Hs & Hc)".
    iApply (wp_set_child v with "Hx"). iIntros "Hx". iApply ("HQ" with "Hy"). iFrame.
Qed.

(** [*dst = *src] *)
Lemma wp_copy_node {A} dst d x a c p i b (k : AM A) (Q : A -> hpropI cell) :
  node_ptr dst ->
  node_at d x a c p i b -∗ free_node dst -∗
  (node_at d x a c p i b -∗ node_at d dst a c p i b -∗ wp k Q) -∗
  wp (n ← load_node x; store_node dst n ;; k) Q.
Proof.
  iIntros (Hd) "[%H Hx] [%n Hdst] HQ". wstep wp_load_node on "Hx".
  wstep wp_store_node on "Hdst". iApply ("HQ" with "[Hx]"); by iSplit; [iPureIntro; tauto|].
Qed.

Lemma points_to_free_ne d x a c p i b y :
  node_at d x a c p i b -∗ free_node y -∗ ⌜x <> y⌝.
Proof.
  iIntros "[_ H1] [%n H2]". by iDestruct (points_to_ne with "[$H1 $H2]") as %?.
Qed.

(** The hole of a path holds [y] itself only when the path is empty. *)
Lemma wp_patch_hole d y h o p i b q j c tmp Q :
  h = y ->
  node_at d y (ctop c h) o p i b -∗ seg c h q j -∗
  (node_at d y (ctop c tmp) o p i b -∗ seg c h q j -∗ Q tt) -∗
  wp (mwhen (ctop c h =? y) (set_child y (Z.b2z d) tmp)) Q.
Proof.
  iIntros (->) "Hy Hc HQ". destruct c as [|f c _] using rev_ind.
  - simpl. rewrite Z.eqb_refl. iApply (wp_set_child tmp with "Hy").
    iIntros "Hy". by iApply ("HQ" with "Hy").
  - rewrite ctop_snoc seg_app. destruct f as [d' x b' s]. simpl.
    iDestruct "Hc" as "(Hc & Hx & Hs & Hn)".
    iDestruct (node_at_ne with "[$Hx $Hy]") as %Hne.
    destruct (Z.eqb_spec x y); [done|]. iApply wp_ret.
    rewrite ctop_snoc. iApply ("HQ" with "Hy"). iFrame.
Qed.

(** The link from above, with the child index read from the node. *)
Lemma wp_link_xchild c x y d a o b Q :
  ctx_at tr T c x -∗ node_at d y a o (cpar c 0) (cidx c false) b -∗
  (ctx_at tr T c y -∗ node_at d y a o (cpar c 0) (cidx c false) b -∗ Q tt) -∗
  wp (if negb (cpar c 0 =? 0)
      then which ← AVL_XCHILD y; set_child (cpar c 0) which y
      else set_avl_root tr y) Q.
Proof.
  iIntros "Hc Hy HQ". pose proof (wp_link tr T c x y Q) as Hl.
  destruct (Z.eqb_spec (cpar c 0) 0) as [E|E]; simpl in Hl |- *.
  - iApply (Hl with "Hc"). iIntros "Hc". iApply ("HQ" with "Hc Hy").
  - wstep wp_xchild on "Hy". iApply (Hl with "Hc"). iIntros "Hc".
    iApply ("HQ" with "Hc Hy").
Qed.

(** Taking [which_child] as the side that is not empty *)
Lemma wp_pick_child {A} d x t p i b q j (k : Z -> AM A) (Q : A -> hpropI cell) :
  node_at d x 0 (root t) p i b -∗ tree_at t q j -∗
  (node_at d x 0 (root t) p i b -∗ tree_at t q j -∗ wp (k (root t)) Q) -∗
  wp (c ← get_child x 1; c ← get_child x (Z.b2z (negb (c =? 0))); k c) Q.
Proof.
  iIntros "Hx Ht HQ". wstep wp_get_child_1 on "Hx".
  iDestruct (tree_at_root_ptr with "Ht") as %Hr.
  destruct d; [|destruct Hr as [->|Hp]]; cbn [negb root Z.eqb Z.b2z].
  - wstep wp_get_child_0 on "Hx". iApply ("HQ" with "Hx Ht").
  - wstep wp_get_child_0 on "Hx". iApply ("HQ" with "Hx Ht").
  - rewrite (node_ptr_nonnull (root t)) //. cbn [negb Z.b2z].
    wstep wp_get_child_1 on "Hx". iApply ("HQ" with "Hx Ht").
Qed.

Lemma wp_setparent_root t x p i Q :
  t <> E -> aligned x ->
  tree_at t p i -∗ (tree_at t x i -∗ Q tt) -∗ wp (AVL_SETPARENT (root t) x) Q.
Proof.
  iIntros (Ht Hx) "Ht HQ". destruct t as [|l y b r]; [done|]. simpl.
  iDestruct "Ht" as "(Hy & Hl & Hr)".
  iApply (wp_setparent x with "Hy"); [done|]. iIntros "Hy". iApply "HQ". iFrame.
Qed.

Lemma wp_adopt t x p i Q :
  aligned x ->
  tree_at t p i -∗ (tree_at t x i -∗ Q tt) -∗
  wp (mwhen (negb (root t =? 0)) (AVL_SETPARENT (root t) x)) Q.
Proof.
  iIntros (Hx) "Ht HQ". iDestruct (tree_at_root_ptr with "Ht") as %[->|Hr]; simpl.
  { iApply wp_ret. by iApply "HQ". }
  rewrite node_ptr_nonnull //=. iApply (wp_setparent_root with "Ht HQ"); [|done].
  intros Ht. rewrite Ht in Hr. destruct Hr as [Hr _]. simpl in Hr. lia.
Qed.

Lemma zip_at_app c2 d x b s c t :
  zip_at tr T (c2 ++ Fr d x b s :: c) t ⊣⊢
  ctx_at tr T c x ∗ node_at d x (ctop c2 (root t)) (root s) (cpar c 0) (cidx c false) b ∗
  tree_at s x (negb d) ∗ seg c2 (root t) x d ∗ tree_at t (cpar c2 x) (cidx c2 d).
Proof.
  rewrite /zip_at /ctx_at ctop_app seg_app /=.
  assert (Ep : cpar (c2 ++ Fr d x b s :: c) 0 = cpar c2 x) by by destruct c2.
  assert (Ei : cidx (c2 ++ Fr d x b s :: c) false = cidx c2 d) by by destruct c2.
  rewrite Ep Ei. iSplit.
  - iIntros "((Hh & H2 & Hx & Hs & Hc) & Ht)". iFrame.
  - iIntros "((Hh & Hc) & Hx & Hs & H2 & Ht)". iFrame.
Qed.

Lemma balance2child_heavy b :
  -1 <= b <= 1 ->
  forall (k : Z -> AM Z) (Q : Z -> hpropI cell),
  wp (k (Z.b2z (b =? 1))) Q ⊢
  wp (left ← avl_balance2child (b + 1); k left) Q.
Proof.
  intros Hb k Q. iIntros "H". iApply wp_bind.
  assert (b = -1 \/ b = 0 \/ b = 1) as [->|[->| ->]] by lia; by iApply wp_ret.
Qed.

Lemma wp_remove_swap fuel tmp d a x b o c (Q : Z -> hpropI cell) :
  d = (b =? 1) -> a <> E -> o <> E -> node_ptr tmp ->
  (length (inorder a) <= fuel)%nat ->
  exists c2 y b' o',
    plug c2 (mk (negb d) E y b' o') = a /\
    Forall (fun f => fr_dir f = negb d) c2 /\
  (zip_at tr T c (mk d a x b o) -∗ free_node tmp -∗
  (zip_at tr T (c2 ++ Fr d y b o :: c) (mk (negb d) E tmp b' o') -∗
     free_node x -∗ Q tmp) -∗
  wp (remove_swap fuel tr x tmp) Q).
Proof.
  intros -> Ha Ho Htmp Hf. set (d := (b =? 1)).
  destruct (extr_spec (negb d) a (Fr d x b o :: c) Ha)
    as (c2 & y & b' & o' & Ex & Hpl & _ & Hd2).
  exists c2, y, b', o'. split; [done|]. split; [done|].
  iIntros "Hz Htmp HQ". iEval (rewrite zip_at_mk) in "Hz".
  iDestruct (zip_at_opt with "Hz") as %[[_ ?]|[Hap _]]; [done|].
  iEval (rewrite zip_at_frame) in "Hz". iDestruct "Hz" as "(Hc & Hx & Ha & Ho)".
  iAssert (⌜-1 <= b <= 1⌝)%I as %Hb. { iDestruct "Hx" as "[% _]". iPureIntro. tauto. }
  wstep wp_xbalance on "Hx". iApply balance2child_heavy; [done|]. fold d.
  rewrite b2z_negb. wstep wp_get_child on "Hx".
  iCombine "Hc Hx Ha Ho" as "Hz". rewrite -zip_at_frame.
  assert (Hw := wp_walk_down tr T fuel (negb d) a (Fr d x b o :: c)).
  rewrite Ex root_mk in Hw. iApply wp_bind. iApply (Hw with "Hz"); [done..|].
  iIntros "Hz". iEval (rewrite zip_at_app root_mk tree_at_mk negb_involutive) in "Hz".
  iDestruct "Hz" as "(Hc & Hx & Ho & H2 & Hy & _ & Ho')".
  iDestruct (node_at_ptr with "Hy") as %Hyp.
  iApply (wp_copy_node tmp with "Hy Htmp"); [done|]. iIntros "Hy Htmp".
  iDestruct (node_at_free with "Hy") as "Hy".
  iApply (wp_copy_node y with "Hx Hy"); [done|]. iIntros "Hx Hy".
  iDestruct (node_at_free with "Hx") as "Hx".
  wstep wp_get_child on "Hy".
  iApply wp_bind. iApply (wp_patch_hole _ _ _ _ _ _ _ x d c2 tmp with "Hy H2"); [done|].
  iIntros "Hy H2". wstep wp_xparent on "Hy".
  iApply wp_bind. iApply (wp_link_xchild with "Hc Hy"). iIntros "Hc Hy".
  wstep wp_get_child on "Hy".
  iApply wp_bind. iApply (wp_reparent_top y x with "Htmp H2"); [apply Hyp|].
  iIntros "Htmp H2". wstep wp_get_child_other on "Hy".
  iApply wp_bind. iApply (wp_setparent_root with "Ho"); [done|apply Hyp|]. iIntros "Ho".
  wstep wp_xparent on "Htmp". wstep wp_xchild on "Htmp".
  iApply wp_bind. iApply (wp_set_lower tmp with "Hy H2"). iIntros "Hy H2".
  iApply (wp_pick_child with "Htmp Ho'"). iIntros "Htmp Ho'".
  iApply wp_bind. iApply (wp_adopt with "Ho'"); [apply Htmp|]. iIntros "Ho'".
  iApply wp_ret. iApply ("HQ" with "[-Hx] Hx").
  rewrite zip_at_app tree_at_mk root_mk negb_involutive. iFrame. 
Qed.
End remove.

(** ** [avl_remove] *)
Section remove_at.
Context (tr : Z) (T : avl_tree).
Implicit Types Q : unit -> hpropI cell.

Lemma focus_list t l1 x l2 :
  inorder t = l1 ++ x :: l2 ->
  exists c l b r, t = plug c (AvlTree.T l x b r) /\
    l1 = pre c ++ inorder l /\ l2 = inorder r ++ post c.
Proof.
  intros Hl. destruct (focus t [] l1 x l2 Hl) as (c & l & b & r & Hp & H1 & H2).
  simpl in *. rewrite app_nil_r in H2. eauto 10.
Qed.

Lemma zip_at_nonnull T' c t : zip_at tr T' c t ⊢ ⌜tr <> 0⌝.
Proof.
  iIntros "[[Ht _] _]". by iDestruct (points_to_nonnull with "Ht") as %?.
Qed.

(** Both halves of [avl_remove], at the node in focus *)
Lemma wp_remove_at fuel n c l x b r tmp Q :
  let t := plug c (AvlTree.T l x b r) in
  avl t -> n = Z.of_nat (length (inorder t)) -> n < 2 ^ 64 -> node_ptr tmp ->
  (length (inorder t) <= fuel)%nat ->
  zip_at tr (with_num T n) c (AvlTree.T l x b r) -∗ free_node tmp -∗
  (∀ t', ⌜avl t' /\ inorder t' = pre c ++ inorder l ++ inorder r ++ post c⌝ →
     zip_at tr (with_num T (n - 1)) [] t' -∗ free_node x -∗ free_node tmp -∗ Q tt) -∗
  wp (c0 ← get_child x 0; c1 ← get_child x 1;
      delete ← (if negb (c0 =? 0) && negb (c1 =? 0)
                then remove_swap fuel tr x tmp else mret x);
      remove_leaf fuel tr delete) Q.
Proof.
  intros t Ha Hn Hb Htmp Hf. iIntros "Hz Htmp HQ".
  pose proof (plug_length c (AvlTree.T l x b r)) as Hlen. fold t in Hlen.
  simpl in Hlen. rewrite length_app /= in Hlen.
  iEval (rewrite (zip_at_mk _ _ false) zip_at_frame) in "Hz".
  iDestruct "Hz" as "(Hc & Hx & Hl & Hr)".
  wstep (wp_get_child_0 false) on "Hx". wstep (wp_get_child_1 false) on "Hx".
  iDestruct (tree_at_root_ptr with "Hl") as %Hpl.
  iDestruct (tree_at_root_ptr with "Hr") as %Hpr.
  iCombine "Hc Hx Hl Hr" as "Hz". rewrite -zip_at_frame -(zip_at_mk _ _ false).
  destruct (decide (l = E)) as [->|Hl]; [|destruct (decide (r = E)) as [->|Hr]].
  - simpl. iApply wp_bind. iApply wp_ret.
    destruct (del_leaf c true r x b Ha) as (t' & Hd & Ha' & Hi).
    iApply (wp_remove_leaf _ _ _ _ c true with "Hz"); [lia|lia|done|].
    iIntros "Hz Hx". by iApply ("HQ" with "[//] Hz Hx").
  - rewrite andb_false_r. iApply wp_bind. iApply wp_ret.
    destruct (del_leaf c false l x b Ha) as (t' & Hd & Ha' & Hi).
    iApply (wp_remove_leaf _ _ _ _ c false with "Hz"); [lia|lia|done|].
    iIntros "Hz Hx". by iApply ("HQ" with "[//] Hz Hx").
  - destruct Hpl as [?|Hpl]; [done|]. destruct Hpr as [?|Hpr]; [done|].
    rewrite (node_ptr_nonnull (root l)) // (node_ptr_nonnull (root r)) //=.
    set (d := (b =? 1)). set (a := if d then r else l). set (o := if d then l else r).
    assert (Hmk : AvlTree.T l x b r = mk d a x b o) by apply T_mk.
    assert (Haa : a <> E) by (unfold a; by destruct d).
    assert (Hoo : o <> E) by (unfold o; by destruct d).
    assert (Hfa : (length (inorder a) <= fuel)%nat) by (unfold a; destruct d; lia).
    destruct (wp_remove_swap tr (with_num T n) fuel tmp d a x b o c
      (fun delete => wp (remove_leaf fuel tr delete) Q))
      as (c2 & y & b' & o' & H1 & H2 & Hw); [done..|].
    unfold t in Ha. rewrite Hmk in Ha. rewrite Hmk.
    destruct (del_swap c d a x b o c2 y b' o' tmp Ha H1 H2) as (t' & Hd & Ha' & Hi).
    assert (Hlc : (length (c2 ++ Fr d y b o :: c) <= fuel)%nat).
    { pose proof (plug_length c2 (mk (negb d) E y b' o')) as Hp2. rewrite H1 in Hp2.
      rewrite length_app /=. unfold a in *. destruct d; simpl in *; lia. }
    iApply wp_bind. iApply (Hw with "Hz Htmp"). iIntros "Hz Hx".
    iEval (rewrite mk_negb) in "Hz".
    iApply (wp_remove_leaf _ _ _ _ (c2 ++ Fr d y b o :: c) with "Hz"); [lia|done|done|].
    iIntros "Hz Htmp". iApply ("HQ" with "[] Hz Hx Htmp"). iPureIntro.
    split; [done|]. rewrite Hi. unfold a, o. by destruct d; rewrite -?app_assoc.
Qed.

Lemma wp_avl_remove l1 x l2 tmp Q :
  node_ptr tmp ->
  avl_list tr T (l1 ++ x :: l2) -∗ free_node tmp -∗
  (avl_list tr T (l1 ++ l2) -∗ free_node x -∗ free_node tmp -∗ Q tt) -∗
  wp (avl_remove tr (AVL_NODE2DATA x (avl_offset T)) tmp) Q.
Proof.
  iIntros (Htmp) "(%t & (%Hl & %Ht & %Ho) & Hz) Htmp HQ".
  iDestruct (zip_at_length with "Hz") as %(_ & _ & Hlen).
  destruct (focus_list t l1 x l2 Hl) as (c & l & b & r & -> & -> & ->).
  iDestruct (zip_at_nonnull with "Hz") as %Htr.
  iApply wp_bind. iApply (wp_mem_fuel with "Hz"); [apply at_least_zip|].
  iIntros (k Hk) "Hz". iEval (rewrite -zip_at_plug) in "Hz".
  iDestruct (root_mk_ptr _ _ false with "Hz") as %Hp.
  iApply wp_bind. iApply wp_massert. { by apply negb_true_iff, Z.eqb_neq. }
  iApply wp_bind. iApply (wp_load_zip' with "Hz"). iIntros "Hz". cbn [avl_offset].
  rewrite data2node_node2data; [|apply Hp].
  iApply (wp_remove_at with "Hz Htmp"); [done|by rewrite Hl|by rewrite -Hl|done|done|].
  iIntros (t' [Ha' Hi']) "Hz Hx Htmp". iApply ("HQ" with "[Hz] Hx Htmp").
  iExists t'. iSplit; [iPureIntro; by rewrite Hi' -?app_assoc|].
  assert (Hn : Z.of_nat (length ((pre c ++ inorder l) ++ x :: inorder r ++ post c)) - 1
    = Z.of_nat (length ((pre c ++ inorder l) ++ inorder r ++ post c))).
  { rewrite !length_app /= !length_app. lia. }
  by rewrite -Hn.
Qed.
End remove_at.
