(* ===== verification/AvlFind.v ===== *)
(** * Searching and adding

    [avl_find] and [avl_add] under a comparison function that is a total
    preorder on the data. *)

From S2P Require Import Prelude SepLogic Avl AvlTree AvlNode AvlHeap AvlSpec.
From stdpp Require Import sorting.
From iris.proofmode Require Import proofmode.

#[local] Open Scope Z_scope.

(** ** The comparison function

    What avl_find relies on: the function passed to [avl_create] answers -1,
    0 or 1 and is a total preorder on the data. *)
Class AvlOrder (cmp : Z -> Z -> Z) : Prop := {
  cmp_range a b : -1 <= cmp a b <= 1;
  cmp_antisym a b : cmp b a = - cmp a b;
  cmp_trans a b c : cmp a b <= 0 -> cmp b c <= 0 -> cmp a c <= 0
}.

(** Comparing data by an integer key *)
#[export] Instance key_order (key : Z -> Z) :
  AvlOrder (fun a b => Z.sgn (key a - key b)).
Proof.
  split.
  - intros a b. destruct (Z.sgn_spec (key a - key b)) as [[_ ->]|[[_ ->]|[_ ->]]]; lia.
  - intros a b. rewrite -Z.sgn_opp. f_equal. lia.
  - intros a b c H1 H2. apply Z.sgn_nonpos in H1, H2. apply Z.sgn_nonpos. lia.
Qed.

Section order.
Context (cmp : Z -> Z -> Z) `{!AvlOrder cmp}.

Lemma cmp_le_lt_trans a b c : cmp a b <= 0 -> cmp b c < 0 -> cmp a c < 0.
Proof.
  intros H1 H2. pose proof (cmp_trans (cmp := cmp) a b c H1 ltac:(lia)) as H3.
  destruct (Z.eq_dec (cmp a c) 0) as [E|]; [|lia].
  assert (Hca : cmp c a <= 0) by (rewrite cmp_antisym E; lia).
  pose proof (cmp_trans c a b Hca H1) as H4. rewrite cmp_antisym in H4. lia.
Qed.

Lemma cmp_lt_le_trans a b c : cmp a b < 0 -> cmp b c <= 0 -> cmp a c < 0.
Proof.
  intros H1 H2. pose proof (cmp_trans (cmp := cmp) a b c ltac:(lia) H2) as H3.
  destruct (Z.eq_dec (cmp a c) 0) as [E|]; [|lia].
  assert (Hca : cmp c a <= 0) by (rewrite cmp_antisym E; lia).
  pose proof (cmp_trans b c a H2 Hca) as H4. rewrite cmp_antisym in H4. lia.
Qed.

Lemma cmp_refl a : cmp a a = 0.
Proof. pose proof (cmp_antisym a a). lia. Qed.
End order.

(** Node addresses in strictly increasing order of their data *)
Definition sorted_nodes (cmp : Z -> Z -> Z) (off : Z) (l : list Z) : Prop :=
  StronglySorted
    (fun x y => cmp (AVL_NODE2DATA x off) (AVL_NODE2DATA y off) < 0) l.

(** How the data [v] compares with the nodes *)
Definition cmp_node (cmp : Z -> Z -> Z) (off v x : Z) : Z :=
  cmp v (AVL_NODE2DATA x off).

Lemma sorted_splits cmp `{!AvlOrder cmp} off v l :
  sorted_nodes cmp off l -> splits (cmp_node cmp off v) l.
Proof.
  unfold splits, sorted_nodes, cmp_node. intros Hs.
  induction Hs as [|x l Hs IH Hf]; constructor; [done|].
  eapply Forall_impl; [exact Hf|]. intros y Hxy Hv. simpl in *.
  by eapply cmp_le_lt_trans.
Qed.

(** ** The abstract operations *)

(** The first node whose data equals [v] *)
Definition lookup_node (cmp : Z -> Z -> Z) (off v : Z) (l : list Z) : option Z :=
  head (filter (fun x => cmp_node cmp off v x = 0) l).

(** [x] put in its place *)
Definition insert_node (cmp : Z -> Z -> Z) (off x : Z) (l : list Z) : list Z :=
  let f := cmp_node cmp off (AVL_NODE2DATA x off) in
  filter (fun y => 0 < f y) l ++ x :: filter (fun y => f y < 0) l.

Lemma Forall_sign_filter (f : Z -> Z) l1 l2 :
  Forall (fun y => 0 < f y) l1 -> Forall (fun y => f y < 0) l2 ->
  filter (fun y => 0 < f y) (l1 ++ l2) = l1 /\
  filter (fun y => f y < 0) (l1 ++ l2) = l2 /\
  filter (fun y => f y = 0) (l1 ++ l2) = [].
Proof.
  intros H1 H2. rewrite !filter_app. split_and!.
  - rewrite filter_Forall_all // filter_Forall_none ?app_nil_r //.
    eapply Forall_impl; [exact H2|]. simpl. lia.
  - rewrite filter_Forall_none ?filter_Forall_all //.
    eapply Forall_impl; [exact H1|]. simpl. lia.
  - rewrite !filter_Forall_none //; (eapply Forall_impl; [eassumption|]); simpl; lia.
Qed.

Lemma sorted_nodes_remove cmp off l1 x l2 :
  sorted_nodes cmp off (l1 ++ x :: l2) -> sorted_nodes cmp off (l1 ++ l2).
Proof.
  unfold sorted_nodes. rewrite !StronglySorted_app StronglySorted_cons.
  intros (H1 & H2 & _ & H3). split_and!; [|done..].
  intros y z Hy Hz. apply H1; [done|]. set_solver.
Qed.

Section find.
Context (call_compar : Z -> Z -> Z -> Z).
Context (tr : Z) (T : avl_tree).

Abbreviation cmp := (call_compar (avl_compar T)).
Abbreviation off := (avl_offset T).
Abbreviation N2D x := (AVL_NODE2DATA x off).

Context `{!AvlOrder cmp}.

(** The result of [avl_find] at the place a search ends. *)
Definition found_at (z : ctx * tree) : Z * option Z :=
  match z.2 with
  | E => (0, Some (AVL_MKINDEX (cpar z.1 0) (Z.b2z (cidx z.1 false))))
  | AvlTree.T _ x _ _ => (N2D x, None)
  end.

Lemma wp_find_loop n fuel v t c (Q : Z * option Z -> hpropI cell) T' :
  avl_compar T' = avl_compar T -> avl_offset T' = off ->
  ht t < Z.of_nat fuel ->
  let z := search (cmp_node cmp off v) t c in
  zip_at tr (with_num T n) c t -∗
  (zip_at tr (with_num T n) z.1 z.2 -∗ Q (found_at z)) -∗
  wp (find_loop call_compar fuel T' v (root t) (cpar c 0) (Z.b2z (cidx c false))) Q.
Proof.
  intros Hc Ho. revert t c. induction fuel as [|fuel IH]; intros t c Hf;
    [pose proof (ht_nonneg t); lia|].
  destruct t as [|l x b r]; cbn [find_loop search root].
  { iIntros "Hz HQ". iApply wp_ret. by iApply "HQ". }
  iIntros "Hz HQ". iDestruct (root_mk_ptr _ _ false with "Hz") as %Hp.
  rewrite (node_ptr_nonnull x) // Hc Ho -/(cmp_node cmp off v x).
  pose proof (cmp_range (cmp := cmp) v (N2D x)) as Hr. fold (cmp_node cmp off v x) in Hr.
  iApply wp_bind. iApply wp_massert.
  { apply andb_true_intro. split; apply Z.leb_le; lia. }
  simpl in Hf.
  destruct (Z.eqb_spec (cmp_node cmp off v x) 0) as [E0|E0].
  { iApply wp_ret. by iApply "HQ". }
  iEval (change (AvlTree.T l x b r) with (mk false l x b r)) in "Hz".
  destruct (Z.ltb_spec 0 (cmp_node cmp off v x)) as [Hx|Hx].
  - replace (cmp_node cmp off v x) with (c2b true) by (simpl; lia).
    iApply wp_bind. iApply wp_balance2child.
    iEval (change (mk false l x b r) with (mk true r x b l); rewrite zip_at_mk zip_at_frame) in "Hz".
    iDestruct "Hz" as "(Hc & Hx & Ht & Hs)". wstep wp_get_child on "Hx".
    iCombine "Hc Hx Ht Hs" as "Hz". rewrite -zip_at_frame.
    by iApply (IH r (Fr true x b l :: c) ltac:(lia) with "Hz").
  - replace (cmp_node cmp off v x) with (c2b false) by (simpl; lia).
    iApply wp_bind. iApply wp_balance2child.
    iEval (rewrite zip_at_mk zip_at_frame) in "Hz".
    iDestruct "Hz" as "(Hc & Hx & Ht & Hs)". wstep wp_get_child on "Hx".
    iCombine "Hc Hx Ht Hs" as "Hz". rewrite -zip_at_frame.
    by iApply (IH l (Fr false x b r :: c) ltac:(lia) with "Hz").
Qed.

Lemma wp_find_zip n v t (Q : Z * option Z -> hpropI cell) :
  let z := search (cmp_node cmp off v) t [] in
  zip_at tr (with_num T n) [] t -∗
  (zip_at tr (with_num T n) z.1 z.2 -∗ Q (found_at z)) -∗
  wp (avl_find call_compar tr v) Q.
Proof.
  iIntros (z) "Hz HQ". iApply wp_bind.
  iApply (wp_mem_fuel with "Hz"); [apply at_least_zip|].
  iIntros (k Hk) "Hz". wstep wp_load_zip on "Hz".
  iApply (wp_find_loop n (S k) v t [] with "Hz HQ"); simpl in *; [done..|].
  pose proof (ht_length t). lia.
Qed.

(** *** Searching a sorted tree *)
Lemma search_sorted v t :
  sorted_nodes cmp off (inorder t) ->
  let z := search (cmp_node cmp off v) t [] in
  plug z.1 z.2 = t /\
  match z.2 with
  | E =>
      lookup_node cmp off v (inorder t) = None /\
      pre z.1 = filter (fun y => 0 < cmp_node cmp off v y) (inorder t) /\
      post z.1 = filter (fun y => cmp_node cmp off v y < 0) (inorder t)
  | AvlTree.T _ x _ _ => lookup_node cmp off v (inorder t) = Some x
  end.
Proof.
  intros Hs. pose proof (sorted_splits cmp off v _ Hs) as Hsp.
  pose proof (search_plug (cmp_node cmp off v) t []) as Hp.
  pose proof (search_spec (cmp_node cmp off v) t []) as Hz.
  destruct (search _ t []) as [c' t']. simpl in *. rewrite app_nil_r in Hz.
  destruct (Hz Hsp) as (H1 & H2 & H3); [constructor..|]. split; [done|].
  rewrite -Hp inorder_plug. unfold lookup_node.
  destruct H3 as [->|(l & x & b & r & -> & Hx)].
  - simpl. by destruct (Forall_sign_filter _ _ _ H1 H2) as (-> & -> & ->).
  - rewrite -Hp inorder_plug /= in Hsp. rewrite -!app_assoc /= app_assoc in Hsp.
    apply splits_middle in Hsp as [Hl Hr]. simpl. rewrite -!app_assoc /= app_assoc.
    rewrite filter_app filter_Forall_none.
    + by rewrite filter_cons_True.
    + eapply Forall_impl; [apply Hl; lia|]. simpl. lia.
Qed.

(** [avl_find] returns the datum that compares equal with [v], or [NULL];
    the tree is unchanged. *)
Lemma wp_avl_find v l (Q : Z * option Z -> hpropI cell) :
  sorted_nodes cmp off l ->
  avl_list tr T l -∗
  (∀ w, avl_list tr T l -∗
     Q (from_option (fun x => N2D x) 0 (lookup_node cmp off v l), w)) -∗
  wp (avl_find call_compar tr v) Q.
Proof.
  iIntros (Hs) "(%t & (%Hl & %Ht & %Ho) & Hz) HQ". subst l.
  pose proof (search_sorted v t Hs) as [Hp Hr].
  iApply (wp_find_zip with "Hz"). iIntros "Hz". rewrite zip_at_plug Hp.
  destruct (search _ t []) as [c' [|l x b r]]; cbn [snd fst found_at] in *.
  - destruct Hr as (-> & _ & _). iApply "HQ". iExists t. by iSplit.
  - rewrite Hr. iApply "HQ". iExists t. by iSplit.
Qed.

Lemma wp_avl_add x l (Q : unit -> hpropI cell) :
  node_ptr x -> sorted_nodes cmp off l ->
  lookup_node cmp off (N2D x) l = None ->
  avl_list tr T l -∗ free_node x -∗
  (avl_list tr T (insert_node cmp off x l) -∗ Q tt) -∗
  wp (avl_add call_compar tr (N2D x)) Q.
Proof.
  iIntros (Hx Hs Hn) "(%t & (%Hl & %Ht & %Ho) & Hz) Hx HQ". subst l.
  pose proof (search_sorted (N2D x) t Hs) as [Hp Hr].
  iApply wp_bind. iApply (wp_find_zip with "Hz"). iIntros "Hz".
  destruct (search _ t []) as [c [|l y b r]]; cbn [snd fst found_at] in *;
    [|by rewrite Hr in Hn].
  destruct Hr as (_ & Hpre & Hpost).
  iApply wp_bind. iApply wp_ret. iApply wp_bind. iApply wp_ret.
  iApply (wp_insert_at with "[Hz] Hx"); [done|done|by rewrite Hp|by rewrite Hp|].
  unfold insert_node. rewrite -Hpre -Hpost. done.
Qed.


(** *** A datum whose key changed *)
Lemma lookup_None_ne v l :
  lookup_node cmp off v l = None -> Forall (fun y => cmp_node cmp off v y <> 0) l.
Proof.
  unfold lookup_node. intros H. apply Forall_forall. intros y Hy E.
  destruct (filter _ l) eqn:Ef; [|done].
  by eapply (filter_nil_not_elem_of (fun x => cmp_node cmp off v x = 0)).
Qed.

(** [x] is not out of place with respect to its neighbours. *)
Definition in_place (x : Z) (l1 l2 : list Z) : Prop :=
  Forall (fun y => 0 < cmp_node cmp off (N2D x) y) l1 /\
  Forall (fun y => cmp_node cmp off (N2D x) y < 0) l2.

Lemma update_prev_ok x l1 l2 :
  sorted_nodes cmp off (l1 ++ l2) ->
  lookup_node cmp off (N2D x) (l1 ++ l2) = None ->
  (forall y, last l1 = Some y -> 0 <= cmp_node cmp off (N2D x) y) ->
  Forall (fun y => 0 < cmp_node cmp off (N2D x) y) l1.
Proof.
  intros Hs Hn Hy. destruct l1 as [|y l _] using rev_ind; [done|].
  rewrite last_snoc in Hy. specialize (Hy y eq_refl).
  pose proof (lookup_None_ne _ _ Hn) as Hne. rewrite -app_assoc in Hs Hne.
  apply (sorted_splits cmp off (N2D x)), splits_middle in Hs as [Hl _].
  rewrite !Forall_app Forall_cons in Hne. destruct Hne as (_ & Hne & _).
  apply Forall_app. split; [by apply Hl|]. constructor; [lia|done].
Qed.

Lemma update_next_ok x l1 l2 :
  sorted_nodes cmp off (l1 ++ l2) ->
  lookup_node cmp off (N2D x) (l1 ++ l2) = None ->
  (forall y, head l2 = Some y -> cmp_node cmp off (N2D x) y <= 0) ->
  Forall (fun y => cmp_node cmp off (N2D x) y < 0) l2.
Proof.
  intros Hs Hn Hy. destruct l2 as [|y l]; [done|]. specialize (Hy y eq_refl).
  pose proof (lookup_None_ne _ _ Hn) as Hne.
  apply (sorted_splits cmp off (N2D x)), splits_middle in Hs as [_ Hr].
  rewrite Forall_app Forall_cons in Hne. destruct Hne as (_ & Hne & _).
  constructor; [lia|auto].
Qed.

Lemma insert_in_place x l1 l2 :
  in_place x l1 l2 -> insert_node cmp off x (l1 ++ l2) = l1 ++ x :: l2.
Proof.
  intros [H1 H2]. unfold insert_node.
  by destruct (Forall_sign_filter _ _ _ H1 H2) as (-> & -> & _).
Qed.

Lemma insert_moved x l1 l2 :
  x ∉ l1 ++ l2 -> ~ in_place x l1 l2 ->
  insert_node cmp off x (l1 ++ l2) <> l1 ++ x :: l2.
Proof.
  intros Hx Hn Heq. apply Hn. unfold insert_node in Heq.
  apply not_elem_of_app_cons_inv_l in Heq as (E1 & _ & E2).
  - split; apply Forall_forall; intros y Hy.
    + rewrite -E1 in Hy. by apply list_elem_of_filter in Hy as [? _].
    + rewrite -E2 in Hy. by apply list_elem_of_filter in Hy as [? _].
  - intros Hin. apply Hx. set_solver.
  - intros Hin%list_elem_of_filter. apply Hx. set_solver.
Qed.

(** Inserting keeps the order. *)
Lemma insert_node_sorted x l :
  sorted_nodes cmp off l -> sorted_nodes cmp off (insert_node cmp off x l).
Proof.
  intros Hs. unfold sorted_nodes, insert_node, cmp_node in *.
  assert (H1 : forall y, 0 < cmp (N2D x) (N2D y) -> cmp (N2D y) (N2D x) < 0)
    by (intros y Hy; rewrite cmp_antisym; lia).
  apply StronglySorted_app. split_and!.
  - intros y z [Hy _]%list_elem_of_filter [->|[Hz _]%list_elem_of_filter]%elem_of_cons;
      [by apply H1|]. simpl in *.
    eapply (cmp_lt_le_trans cmp); [by apply H1|]. by apply Z.lt_le_incl.
  - by apply StronglySorted_filter.
  - apply StronglySorted_cons. split; [|by apply StronglySorted_filter].
    apply Forall_forall. by intros z [Hz _]%list_elem_of_filter.
Qed.

Lemma insert_node_perm x l :
  lookup_node cmp off (N2D x) l = None -> insert_node cmp off x l ≡ₚ x :: l.
Proof.
  intros Hn%lookup_None_ne. unfold insert_node. rewrite -Permutation_middle.
  f_equiv. induction Hn as [|y l Hy Hn IH]; [done|].
  rewrite !filter_cons. destruct (decide _), (decide _); try lia.
  - simpl. by rewrite IH.
  - by rewrite -Permutation_middle IH.
Qed.
End find.
