(* ===== verification/AvlOps.v ===== *)
(** * The remaining operations on an AVL tree

    The ends of the tree, the neighbours of an insertion point, insertion
    next to a datum, the update functions, and the creation and
    destruction of a tree. *)

From S2P Require Import Prelude SepLogic Avl AvlTree AvlNode AvlHeap AvlSpec AvlRemove AvlFind.
From iris.proofmode Require Import proofmode.

#[local] Open Scope Z_scope.

Section ops.
Context (tr : Z) (T : avl_tree).
Abbreviation off := (avl_offset T).
Abbreviation N2D x := (AVL_NODE2DATA x off).

(** ** [avl_first], [avl_last] *)
Lemma wp_extreme_loop T' fuel d t c prev (Q : Z -> hpropI cell) :
  (length (inorder t) < fuel)%nat ->
  zip_at tr T' c t -∗
  (zip_at tr T' c t -∗ Q (default prev (endmost d (inorder t)))) -∗
  wp (extreme_loop fuel (root t) prev (Z.b2z d)) Q.
Proof.
  revert c prev fuel. induction t as [|a x b o IH _] using (tree_ind_d d);
    intros c prev fuel Hf; (destruct fuel as [|fuel]; [lia|]); cbn [extreme_loop];
    iIntros "Hz HQ".
  { iApply wp_ret. destruct d; by iApply "HQ". }
  iDestruct (root_mk_ptr with "Hz") as %Hp. rewrite root_mk node_ptr_nonnull //.
  iEval (rewrite zip_at_mk zip_at_frame) in "Hz". iDestruct "Hz" as "(Hc & Hx & Ht & Hs)".
  wstep wp_get_child on "Hx". iCombine "Hc Hx Ht Hs" as "Hz". rewrite -zip_at_frame.
  rewrite inorder_mk in Hf.
  iApply (IH with "Hz"); [destruct d; rewrite length_app /= in Hf; lia|].
  iIntros "Hz". rewrite -zip_at_mk inorder_mk.
  assert (He : endmost d (if d then inorder o ++ x :: inorder a else inorder a ++ x :: inorder o)
    = Some (default x (endmost d (inorder a)))).
  { destruct d; simpl.
    - rewrite last_app_cons last_cons. by destruct (last _).
    - by destruct (inorder a). }
  rewrite He. by iApply "HQ".
Qed.

Lemma wp_ends d l (Q : Z -> hpropI cell) :
  avl_list tr T l -∗
  (avl_list tr T l -∗ Q (data_or_null T (endmost d l))) -∗
  wp (fuel ← mem_fuel; t ← load_tree tr;
      prev ← extreme_loop (S fuel) (avl_root t) 0 (Z.b2z d);
      if negb (prev =? 0) then mret (AVL_NODE2DATA prev (avl_offset t)) else mret 0) Q.
Proof.
  iIntros "(%t & (%Hl & %Ht & %Ho) & Hz) HQ".
  iDestruct (zip_at_length with "Hz") as %(_ & Hptr & _).
  iApply wp_bind. iApply (wp_mem_fuel with "Hz"); [apply at_least_zip|].
  iIntros (k Hk) "Hz". iApply wp_bind. iApply (wp_load_zip' with "Hz"). iIntros "Hz".
  cbn [avl_root avl_offset plug foldl].
  iApply wp_bind. iApply (wp_extreme_loop with "Hz"); [simpl in Hk; lia|].
  iIntros "Hz". rewrite Hl. iSpecialize ("HQ" with "[Hz]"); [iExists t; by iSplit|].
  destruct (endmost d l) as [y|] eqn:Ey; simpl.
  - rewrite Hl Forall_forall in Hptr.
    assert (Hy : node_ptr y) by (apply Hptr; by eapply endmost_elem).
    rewrite (node_ptr_nonnull y) //=. iApply wp_ret. iExact "HQ".
  - iApply wp_ret. iExact "HQ".
Qed.

Lemma wp_avl_first l (Q : Z -> hpropI cell) :
  avl_list tr T l -∗ (avl_list tr T l -∗ Q (data_or_null T (head l))) -∗
  wp (avl_first tr) Q.
Proof. apply (wp_ends false). Qed.

Lemma wp_avl_last l (Q : Z -> hpropI cell) :
  avl_list tr T l -∗ (avl_list tr T l -∗ Q (data_or_null T (last l))) -∗
  wp (avl_last tr) Q.
Proof. apply (wp_ends true). Qed.

(** ** [avl_nearest] *)
Lemma wp_nearest_zip n d c (Q : Z -> hpropI cell) :
  zip_at tr (with_num T n) c E -∗
  (zip_at tr (with_num T n) c E -∗ Q (data_or_null T (neighbour d (pre c) (post c)))) -∗
  wp (avl_nearest tr (AVL_MKINDEX (cpar c 0) (Z.b2z (cidx c false))) (Z.b2z d)) Q.
Proof.
  iIntros "Hz HQ".
  iAssert (⌜aligned (cpar c 0)⌝)%I as %Hal.
  { iDestruct "Hz" as "[Hz _]". by iApply (ctx_at_aligned with "Hz"). }
  unfold avl_nearest. rewrite index_node // index_child //.
  iApply wp_bind. iApply (wp_load_zip' with "Hz"). iIntros "Hz".
  cbn [avl_root avl_offset]. destruct c as [|[d' x b s] c].
  - iApply wp_bind. iApply wp_ret. iApply wp_ret.
    destruct d; by iApply "HQ".
  - cbn [cpar cidx fr_node fr_dir].
    iEval (rewrite -zip_at_mk) in "Hz". iDestruct (root_mk_ptr with "Hz") as %Hp.
    rewrite node_ptr_nonnull //.
    assert (Ed : (Z.b2z d' =? Z.b2z d) = eqb d' d) by by destruct d', d. rewrite Ed.
    destruct (eqb d' d) eqn:Edd; simpl.
    + apply eqb_prop in Edd as ->.
      iEval (rewrite /mk) in "Hz".
      destruct d; (iApply (wp_walk_zip with "Hz"); iIntros "Hz";
        rewrite /= ?app_nil_r; rewrite -?(app_assoc (pre c)) /=; iApply "HQ").
      * by rewrite -(zip_at_mk _ _ true).
      * by rewrite -(zip_at_mk _ _ false).
    + iApply wp_ret. rewrite zip_at_mk.
      destruct d, d'; try done; simpl; rewrite ?app_assoc ?last_snoc; by iApply "HQ".
Qed.

(** ** [avl_insert_here] *)
Definition insert_beside (d : bool) (l1 : list Z) (x y : Z) (l2 : list Z) : list Z :=
  if d then l1 ++ x :: y :: l2 else l1 ++ y :: x :: l2.

Lemma wp_assert_insert c y (Q : unit -> hpropI cell) :
  node_ptr y -> aligned off -> avl (plug c E) -> c <> [] ->
  zip_at tr (with_num T (Z.of_nat (length (inorder (plug c E))))) c E -∗ free_node y -∗
  (avl_list tr T (pre c ++ y :: post c) -∗ Q tt) -∗
  wp (c0 ← get_child (cpar c 0) (Z.b2z (cidx c false)); massert (c0 =? 0) ;;
      avl_insert tr (N2D y) (AVL_MKINDEX (cpar c 0) (Z.b2z (cidx c false)))) Q.
Proof.
  iIntros (Hy Ho Ha Hc) "Hz Hy HQ". destruct c as [|[d x b s] c]; [done|].
  iEval (rewrite zip_at_frame) in "Hz". iDestruct "Hz" as "(Hc & Hx & Ht & Hs)".
  cbn [cpar cidx fr_node fr_dir]. wstep wp_get_child on "Hx".
  iApply wp_bind. iApply wp_massert; [done|].
  iCombine "Hc Hx Ht Hs" as "Hz". rewrite -zip_at_frame.
  by iApply (wp_insert_at _ _ (Fr d x b s :: c) with "Hz Hy HQ").
Qed.

Lemma beside_single d a x b o c y :
  a = E ->
  pre (Fr d x b o :: c) ++ y :: post (Fr d x b o :: c) =
  insert_beside d (pre c ++ if d then inorder o else inorder a) x y
                  ((if d then inorder a else inorder o) ++ post c).
Proof.
  intros ->. unfold insert_beside. destruct d; simpl; rewrite ?app_nil_r -?app_assoc //=.
Qed.

Lemma beside_deep d x b o c y c2 z b' o' :
  Forall (fun f => fr_dir f = negb d) c2 ->
  let a := plug c2 (mk (negb d) E z b' o') in
  let C := Fr (negb d) z b' o' :: c2 ++ Fr d x b o :: c in
  pre C ++ y :: post C =
  insert_beside d (pre c ++ if d then inorder o else inorder a) x y
                  ((if d then inorder a else inorder o) ++ post c).
Proof.
  intros Hd a C. unfold a, C, insert_beside. rewrite inorder_plug inorder_mk.
  destruct d; simpl in *; rewrite pre_app post_app.
  - rewrite (dir_pre c2) //=. by rewrite ?app_nil_r -?app_assoc.
  - rewrite (dir_post c2) //=. by rewrite ?app_nil_r -?app_assoc /= -?app_assoc.
Qed.

Lemma wp_avl_insert_here d l1 x l2 y (Q : unit -> hpropI cell) :
  node_ptr y -> N2D x <> 0 -> N2D y <> 0 ->
  avl_list tr T (l1 ++ x :: l2) -∗ free_node y -∗
  (avl_list tr T (insert_beside d l1 x y l2) -∗ Q tt) -∗
  wp (avl_insert_here tr (N2D y) (N2D x) (Z.b2z d)) Q.
Proof.
  iIntros (Hy Hx0 Hy0) "(%t & (%Hl & %Ht & %Ho) & Hz) Hy HQ".
  iDestruct (zip_at_nonnull with "Hz") as %Htr. iEval (rewrite -Hl) in "Hz".
  iApply wp_bind. iApply (wp_mem_fuel with "Hz"); [apply at_least_zip|].
  iIntros (k Hk) "Hz".
  iApply wp_bind. iApply wp_massert. { by apply negb_true_iff, Z.eqb_neq. }
  iApply wp_bind. iApply wp_massert. { by apply negb_true_iff, Z.eqb_neq. }
  iApply wp_bind. iApply wp_massert. { by apply negb_true_iff, Z.eqb_neq. }
  iApply wp_bind. iApply wp_massert. { by destruct d. }
  iApply wp_bind. iApply (wp_load_zip' with "Hz"). iIntros "Hz". cbn [avl_offset].
  destruct (focus_list t l1 x l2 Hl) as (c & l & b & r & -> & -> & ->).
  iEval (rewrite -zip_at_plug) in "Hz". iDestruct (root_mk_ptr _ _ false with "Hz") as %Hp.
  rewrite data2node_node2data; [|apply Hp].
  assert (exists a o, AvlTree.T l x b r = mk d a x b o /\
    inorder l = (if d then inorder o else inorder a) /\
    inorder r = (if d then inorder a else inorder o)) as (a & o & Hmk & -> & ->).
  { exists (if d then r else l), (if d then l else r). by destruct d. }
  rewrite Hmk in Hk Ht Hl. rewrite Hmk. iEval (rewrite zip_at_mk) in "Hz".
  iDestruct (zip_at_opt with "Hz") as %Ha.
  iEval (rewrite zip_at_frame) in "Hz". iDestruct "Hz" as "(Hc & Hx & Ht & Hs)".
  wstep wp_get_child on "Hx". iCombine "Hc Hx Ht Hs" as "Hz". rewrite -zip_at_frame.
  destruct Ha as [[-> ->]|[Hap HE]].
  - iApply wp_bind. iApply wp_ret.
    iApply (wp_assert_insert (Fr d x b o :: c) with "Hz Hy"); [done..|].
    by rewrite (beside_single d E).
  - rewrite node_ptr_nonnull //= b2z_negb.
    assert (Hw := wp_walk_down tr (with_num T (Z.of_nat (length (inorder (plug c (mk d a x b o))))))
      k (negb d) a (Fr d x b o :: c)).
    destruct (extr_spec (negb d) a (Fr d x b o :: c) HE) as (c2 & z & b' & o' & Ex & Epl & _ & Hd).
    rewrite Ex root_mk in Hw. iApply wp_bind. iApply wp_bind.
    iApply (Hw with "Hz"); first done.
    { simpl in Hk. rewrite inorder_plug inorder_mk in Hk.
      destruct d; rewrite !length_app /= in Hk; lia. }
    iIntros "Hz". iApply wp_ret. cbn beta iota. 
    assert (HC : plug c (mk d a x b o) =
      plug (Fr (negb d) z b' o' :: c2 ++ Fr d x b o :: c) E)
      by by rewrite plug_cons plug_app Epl plug_cons.
    rewrite HC. iEval (rewrite zip_at_mk) in "Hz".
    iApply (wp_assert_insert (Fr (negb d) z b' o' :: c2 ++ Fr d x b o :: c) with "Hz Hy");
      [done|done|by rewrite -HC|done|].
    by rewrite (beside_deep d x b o c y c2 z b' o' Hd) Epl.
Qed.
End ops.

(** ** The tree object *)
Section header.
Context (tr : Z) (T : avl_tree).

Lemma avl_list_nodes l :
  avl_list tr T l ⊢ ⌜NoDup l /\ Forall node_ptr l /\ Z.of_nat (length l) < 2 ^ 64⌝.
Proof.
  iIntros "(%t & (<- & _) & Hz)". by iDestruct (zip_at_length with "Hz") as %?.
Qed.

Lemma avl_list_tree_nonnull l : avl_list tr T l ⊢ ⌜tr <> 0⌝.
Proof.
  iIntros "(%t & _ & Hz)". by iDestruct (zip_at_nonnull with "Hz") as %?.
Qed.

Lemma wp_load_avl_list l (Q : avl_tree -> hpropI cell) :
  avl_list tr T l -∗
  (∀ r, ⌜r = 0 <-> l = []⌝ → avl_list tr T l -∗
     Q (AvlTree r (avl_compar T) (avl_offset T) (Z.of_nat (length l)) (avl_size T))) -∗
  wp (load_tree tr) Q.
Proof.
  iIntros "(%t & (%Hl & %Ht & %Ho) & Hz) HQ".
  iDestruct (zip_at_opt with "Hz") as %Hr.
  iApply (wp_load_zip' with "Hz"). iIntros "Hz". iApply ("HQ" with "[]").
  - iPureIntro. simpl. destruct t as [|tl x b tr']; simpl in *; [by subst|].
    destruct Hr as [[_ ?]|[[? _] _]]; [done|]. subst l.
    split; [lia|]. by destruct (inorder tl).
  - iExists t. by iSplit.
Qed.

Lemma wp_avl_numnodes l (Q : Z -> hpropI cell) :
  avl_list tr T l -∗ (avl_list tr T l -∗ Q (Z.of_nat (length l))) -∗
  wp (avl_numnodes tr) Q.
Proof.
  iIntros "Hl HQ". iDestruct (avl_list_tree_nonnull with "Hl") as %Hn.
  iApply wp_bind. iApply wp_massert. { by apply negb_true_iff, Z.eqb_neq. }
  iApply wp_bind. iApply (wp_load_avl_list with "Hl"). iIntros (r _) "Hl".
  iApply wp_ret. by iApply "HQ".
Qed.

Lemma wp_avl_is_empty l (Q : bool -> hpropI cell) :
  avl_list tr T l -∗ (avl_list tr T l -∗ Q (bool_decide (l = []))) -∗
  wp (avl_is_empty tr) Q.
Proof.
  iIntros "Hl HQ". iDestruct (avl_list_tree_nonnull with "Hl") as %Hn.
  iApply wp_bind. iApply wp_massert. { by apply negb_true_iff, Z.eqb_neq. }
  iApply wp_bind. iApply (wp_load_avl_list with "Hl"). iIntros (r _) "Hl".
  iApply wp_ret. by destruct l; iApply "HQ".
Qed.

(** [avl_destroy] asserts that the tree is empty. *)
Lemma wp_avl_destroy (Q : unit -> hpropI cell) :
  avl_list tr T [] -∗ (avl_list tr T [] -∗ Q tt) -∗ wp (avl_destroy tr) Q.
Proof.
  iIntros "Hl HQ". iDestruct (avl_list_tree_nonnull with "Hl") as %Hn.
  iApply wp_bind. iApply wp_massert. { by apply negb_true_iff, Z.eqb_neq. }
  iApply wp_bind. iApply (wp_load_avl_list with "Hl"). iIntros (r Hr) "Hl".
  iApply wp_bind. iApply wp_massert; [done|].
  iApply wp_massert; [|by iApply "HQ"]. simpl. apply Z.eqb_eq. by apply Hr.
Qed.
End header.

(** [avl_create] makes an empty tree of an uninitialised object. *)
Lemma wp_avl_create tr t0 compar size offset (Q : unit -> hpropI cell) :
  compar <> 0 -> 0 < size < 2 ^ 64 -> 0 <= offset -> offset + sizeof_avl_node <= size ->
  aligned offset ->
  tr ↦ CTree t0 -∗
  (avl_list tr (AvlTree 0 compar offset 0 size) [] -∗ Q tt) -∗
  wp (avl_create tr compar size offset) Q.
Proof.
  iIntros (Hc Hs Ho Hso Ha) "Ht HQ".
  iDestruct (points_to_nonnull with "Ht") as %Hn.
  iApply wp_bind. iApply wp_massert. { by apply negb_true_iff, Z.eqb_neq. }
  iApply wp_bind. iApply wp_massert. { by apply negb_true_iff, Z.eqb_neq. }
  iApply wp_bind. iApply wp_massert. { by apply Z.ltb_lt; lia. }
  iApply wp_bind. iApply wp_massert.
  { apply Z.leb_le. unfold sizeof_avl_node in *. rewrite wrap_small; lia. }
  iApply wp_bind. iApply wp_massert. { by apply Z.eqb_eq. }
  iApply (wp_store_tree with "Ht"). iIntros "Ht". iApply "HQ".
  iExists E. iSplit; [done|]. rewrite /zip_at /ctx_at /=. iFrame.
Qed.

(** ** The update functions *)
Section update.
Context (call_compar : Z -> Z -> Z -> Z).
Context (tr : Z) (T : avl_tree).
Abbreviation cmp := (call_compar (avl_compar T)).
Abbreviation off := (avl_offset T).
Abbreviation N2D x := (AVL_NODE2DATA x off).
Context `{!AvlOrder cmp}.

Lemma wp_reinsert l1 x l2 tmp (Q : unit -> hpropI cell) :
  node_ptr tmp -> sorted_nodes cmp off (l1 ++ l2) ->
  lookup_node cmp off (N2D x) (l1 ++ l2) = None ->
  avl_list tr T (l1 ++ x :: l2) -∗ free_node tmp -∗
  (avl_list tr T (insert_node cmp off x (l1 ++ l2)) -∗ free_node tmp -∗ Q tt) -∗
  wp (AVL_REINSERT call_compar tr (N2D x) tmp) Q.
Proof.
  iIntros (Htmp Hs Hn) "Hl Htmp HQ".
  iDestruct (avl_list_nodes with "Hl") as %(_ & Hp & _).
  apply Forall_app in Hp as [_ Hp]. apply Forall_cons in Hp as [Hx _].
  iApply wp_bind. iApply (wp_avl_remove with "Hl Htmp"); [done|].
  iIntros "Hl Hx Htmp". iApply (wp_avl_add with "Hl Hx"); [done..|].
  iIntros "Hl". iApply ("HQ" with "Hl Htmp").
Qed.

(** [(neighbor != NULL) && q(avl_compar(obj, neighbor))] *)
Definition neighbour_test (q : Z -> bool) (x : Z) (o : option Z) : bool :=
  from_option (fun y => q (cmp_node cmp off (N2D x) y)) false o.

Lemma neighbour_test_spec q x o l :
  Forall (fun y => N2D y <> 0) l -> (forall y, o = Some y -> y ∈ l) ->
  negb (data_or_null T o =? 0) && q (cmp (N2D x) (data_or_null T o)) =
    neighbour_test q x o.
Proof.
  intros Hl Ho. destruct o as [y|]; [|done]. simpl.
  rewrite Forall_forall in Hl. destruct (Z.eqb_spec (N2D y) 0) as [E|]; [|done].
  by destruct (Hl y (Ho y eq_refl)).
Qed.

Lemma last_elem (l : list Z) y : last l = Some y -> y ∈ l.
Proof. apply last_Some_elem_of. Qed.
Lemma head_elem (l : list Z) y : head l = Some y -> y ∈ l.
Proof. apply (endmost_elem false). Qed.

(** The hypotheses the three functions share: all data but [x]'s are in
    order, none equals [x], and no datum is at address 0. *)
Record stale (x : Z) (l1 l2 : list Z) : Prop := {
  stale_sorted : sorted_nodes cmp off (l1 ++ l2);
  stale_none : lookup_node cmp off (N2D x) (l1 ++ l2) = None;
  stale_data : Forall (fun y => N2D y <> 0) (l1 ++ l2)
}.

Definition moved (x : Z) (l1 l2 : list Z) : bool :=
  negb (bool_decide (insert_node cmp off x (l1 ++ l2) = l1 ++ x :: l2)).

Lemma moved_false x l1 l2 : in_place call_compar T x l1 l2 -> moved x l1 l2 = false.
Proof.
  intros H%(insert_in_place call_compar T). unfold moved. by rewrite bool_decide_true.
Qed.

Lemma moved_true x l1 l2 :
  NoDup (l1 ++ x :: l2) -> ~ in_place call_compar T x l1 l2 -> moved x l1 l2 = true.
Proof.
  intros Hnd Hn. unfold moved. rewrite bool_decide_false //.
  apply (insert_moved call_compar T); [|done]. rewrite -Permutation_middle in Hnd.
  by apply NoDup_cons in Hnd as [? _].
Qed.

(** Running [AVL_REINSERT] and returning [B_TRUE] *)
Lemma wp_reinsert_true x l1 l2 tmp (Q : bool -> hpropI cell) :
  node_ptr tmp -> stale x l1 l2 -> ~ in_place call_compar T x l1 l2 ->
  avl_list tr T (l1 ++ x :: l2) -∗ free_node tmp -∗
  (avl_list tr T (insert_node cmp off x (l1 ++ l2)) -∗ free_node tmp -∗
     Q (moved x l1 l2)) -∗
  wp (AVL_REINSERT call_compar tr (N2D x) tmp ;; mret true) Q.
Proof.
  iIntros (Htmp [Hs Hn _] Hin) "Hl Htmp HQ".
  iDestruct (avl_list_nodes with "Hl") as %(Hnd & _).
  iApply wp_bind. iApply (wp_reinsert with "Hl Htmp"); [done..|].
  iIntros "Hl Htmp". iApply wp_ret. rewrite moved_true //.
  iApply ("HQ" with "Hl Htmp").
Qed.

Lemma test_prev_bad x l1 l2 :
  neighbour_test (fun c => c <? 0) x (last l1) = true -> ~ in_place call_compar T x l1 l2.
Proof.
  destruct (last l1) as [y|] eqn:E; [|done]. simpl. intros Hy%Z.ltb_lt [H _].
  apply last_elem in E. rewrite Forall_forall in H. specialize (H y E). lia.
Qed.

Lemma test_next_bad x l1 l2 :
  neighbour_test (fun c => 0 <? c) x (head l2) = true -> ~ in_place call_compar T x l1 l2.
Proof.
  destruct (head l2) as [y|] eqn:E; [|done]. simpl. intros Hy%Z.ltb_lt [_ H].
  apply head_elem in E. rewrite Forall_forall in H. specialize (H y E). lia.
Qed.

Lemma test_prev_good x l1 l2 :
  stale x l1 l2 -> neighbour_test (fun c => c <? 0) x (last l1) = false ->
  Forall (fun y => 0 < cmp_node cmp off (N2D x) y) l1.
Proof.
  intros [Hs Hn _] Ht. apply update_prev_ok with l2; [done..|].
  intros y E. rewrite E in Ht. simpl in Ht. by apply Z.ltb_ge in Ht.
Qed.

Lemma test_next_good x l1 l2 :
  stale x l1 l2 -> neighbour_test (fun c => 0 <? c) x (head l2) = false ->
  Forall (fun y => cmp_node cmp off (N2D x) y < 0) l2.
Proof.
  intros [Hs Hn _] Ht. apply update_next_ok with l1; [done..|].
  intros y E. rewrite E in Ht. simpl in Ht. by apply Z.ltb_ge in Ht.
Qed.

Lemma wp_avl_update l1 x l2 tmp (Q : bool -> hpropI cell) :
  node_ptr tmp -> stale x l1 l2 ->
  avl_list tr T (l1 ++ x :: l2) -∗ free_node tmp -∗
  (avl_list tr T (insert_node cmp off x (l1 ++ l2)) -∗ free_node tmp -∗
     Q (moved x l1 l2)) -∗
  wp (avl_update call_compar tr (N2D x) tmp) Q.
Proof.
  iIntros (Htmp Hst) "Hl Htmp HQ". pose proof (stale_data _ _ _ Hst) as Hd.
  iApply wp_bind. iApply (wp_avl_walk _ _ false with "Hl"). iIntros "Hl".
  iApply wp_bind. iApply (wp_load_avl_list with "Hl"). iIntros (r _) "Hl".
  cbn [avl_compar]. rewrite (neighbour_test_spec (fun c => c <? 0) _ _ (l1 ++ l2)) //;
    [|intros y Hy%last_elem; set_solver].
  destruct (neighbour_test _ x (neighbour false l1 l2)) eqn:E1.
  { by iApply (wp_reinsert_true with "Hl Htmp HQ"); [..|eapply test_prev_bad]. }
  iApply wp_bind. iApply (wp_avl_walk _ _ true with "Hl"). iIntros "Hl".
  rewrite (neighbour_test_spec (fun c => 0 <? c) _ _ (l1 ++ l2)) //;
    [|intros y Hy%head_elem; set_solver].
  destruct (neighbour_test _ x (neighbour true l1 l2)) eqn:E2.
  { by iApply (wp_reinsert_true with "Hl Htmp HQ"); [..|eapply test_next_bad]. }
  assert (Hin : in_place call_compar T x l1 l2)
    by (split; [by eapply test_prev_good|by eapply test_next_good]).
  iApply wp_ret. rewrite moved_false // insert_in_place //. iApply ("HQ" with "Hl Htmp").
Qed.

Lemma wp_avl_update_lt l1 x l2 tmp (Q : bool -> hpropI cell) :
  node_ptr tmp -> stale x l1 l2 ->
  neighbour_test (fun c => 0 <? c) x (head l2) = false ->
  avl_list tr T (l1 ++ x :: l2) -∗ free_node tmp -∗
  (avl_list tr T (insert_node cmp off x (l1 ++ l2)) -∗ free_node tmp -∗
     Q (moved x l1 l2)) -∗
  wp (avl_update_lt call_compar tr (N2D x) tmp) Q.
Proof.
  iIntros (Htmp Hst E2) "Hl Htmp HQ". pose proof (stale_data _ _ _ Hst) as Hd.
  iApply wp_bind. iApply (wp_avl_walk _ _ true with "Hl"). iIntros "Hl".
  iApply wp_bind. iApply (wp_load_avl_list with "Hl"). iIntros (r _) "Hl".
  cbn [avl_compar]. iApply wp_bind. iApply wp_massert.
  { rewrite -(neighbour_test_spec (fun c => 0 <? c) _ _ (l1 ++ l2)) // in E2;
      [|intros y Hy%head_elem; set_solver].
    simpl in *. destruct (data_or_null T (head l2) =? 0); [done|]. simpl in *.
    apply Z.ltb_ge in E2. by apply Z.leb_le. }
  iApply wp_bind. iApply (wp_avl_walk _ _ false with "Hl"). iIntros "Hl".
  rewrite (neighbour_test_spec (fun c => c <? 0) _ _ (l1 ++ l2)) //;
    [|intros y Hy%last_elem; set_solver].
  destruct (neighbour_test _ x (neighbour false l1 l2)) eqn:E1.
  { by iApply (wp_reinsert_true with "Hl Htmp HQ"); [..|eapply test_prev_bad]. }
  assert (Hin : in_place call_compar T x l1 l2)
    by (split; [by eapply test_prev_good|by eapply test_next_good]).
  iApply wp_ret. rewrite moved_false // insert_in_place //. iApply ("HQ" with "Hl Htmp").
Qed.

Lemma wp_avl_update_gt l1 x l2 tmp (Q : bool -> hpropI cell) :
  node_ptr tmp -> stale x l1 l2 ->
  neighbour_test (fun c => c <? 0) x (last l1) = false ->
  avl_list tr T (l1 ++ x :: l2) -∗ free_node tmp -∗
  (avl_list tr T (insert_node cmp off x (l1 ++ l2)) -∗ free_node tmp -∗
     Q (moved x l1 l2)) -∗
  wp (avl_update_gt call_compar tr (N2D x) tmp) Q.
Proof.
  iIntros (Htmp Hst E1) "Hl Htmp HQ". pose proof (stale_data _ _ _ Hst) as Hd.
  iApply wp_bind. iApply (wp_avl_walk _ _ false with "Hl"). iIntros "Hl".
  iApply wp_bind. iApply (wp_load_avl_list with "Hl"). iIntros (r _) "Hl".
  cbn [avl_compar]. iApply wp_bind. iApply wp_massert.
  { rewrite -(neighbour_test_spec (fun c => c <? 0) _ _ (l1 ++ l2)) // in E1;
      [|intros y Hy%last_elem; set_solver].
    simpl in *. destruct (data_or_null T (last l1) =? 0); [done|]. simpl in *.
    apply Z.ltb_ge in E1. by apply Z.leb_le. }
  iApply wp_bind. iApply (wp_avl_walk _ _ true with "Hl"). iIntros "Hl".
  rewrite (neighbour_test_spec (fun c => 0 <? c) _ _ (l1 ++ l2)) //;
    [|intros y Hy%head_elem; set_solver].
  destruct (neighbour_test _ x (neighbour true l1 l2)) eqn:E2.
  { by iApply (wp_reinsert_true with "Hl Htmp HQ"); [..|eapply test_next_bad]. }
  assert (Hin : in_place call_compar T x l1 l2)
    by (split; [by eapply test_prev_good|by eapply test_next_good]).
  iApply wp_ret. rewrite moved_false // insert_in_place //. iApply ("HQ" with "Hl Htmp").
Qed.
End update.
