(* ===== verification/AvlDestroy.v ===== *)
(** * [avl_destroy_nodes]

    Each call hands one node back, and never touches it again, so the
    caller may free it at once.  The state between two calls is the context
    of the node handed back last; [pend] lists the nodes still to come, in
    post-order. *)

From S2P Require Import Prelude SepLogic Avl AvlTree AvlNode AvlHeap AvlSpec AvlRemove AvlFind AvlOps.
From iris.proofmode Require Import proofmode.

#[local] Open Scope Z_scope.

Fixpoint postorder (t : tree) : list Z :=
  match t with E => [] | T l x _ r => postorder l ++ postorder r ++ [x] end.

(** What is still to be visited once the hole of the context is done. *)
Fixpoint pend (c : ctx) : list Z :=
  match c with
  | [] => []
  | Fr d x _ s :: c => (if d then [] else postorder s) ++ x :: pend c
  end.

(** Left subtrees that were visited are gone, right ones are untouched. *)
Definition visited (c : ctx) : Prop :=
  Forall (fun f => avl (fr_sib f) /\ (fr_dir f = true -> fr_sib f = E)) c.

(** The cookie that stands for the context *)
Definition cookie_of (c : ctx) : Z :=
  match c with
  | [] => CHILDBIT
  | f :: _ => Z.lor (fr_node f) (Z.b2z (fr_dir f))
  end.

Lemma extr_pend t c :
  t <> E -> avl t -> visited c ->
  exists c2 y b o, extr false t c = (c2, T E y b o) /\ visited c2 /\
    avl (T E y b o) /\ postorder o ++ y :: pend c2 = postorder t ++ pend c.
Proof.
  revert c. induction t as [|l IHl x b r _]; intros c Hne Ha Hc; [done|].
  destruct Ha as (Hl & Hr & Hb & Hb1). destruct l as [|ll lx lb lr].
  - exists c, x, b, r. split_and!; [done|done|simpl; auto|].
    simpl. by rewrite -app_assoc.
  - destruct (IHl (Fr false x b r :: c)) as (c2 & y & b' & o & E1 & Hc2 & Ha & Hp);
      [done|done| |].
    { constructor; [|done]. by split. }
    exists c2, y, b', o. split; [done|]. split; [done|]. split; [done|].
    rewrite Hp. simpl. by rewrite -!app_assoc.
Qed.

(** A right child of a node with no left child is a leaf. *)
Lemma avl_right_leaf y b o :
  avl (T E y b o) -> o = E /\ b = 0 \/ exists z, o = T E z 0 E /\ b = 1.
Proof.
  intros (_ & Ho & Hb & Hb1). destruct o as [|l z bz r]; [left; simpl in *; auto|right].
  simpl in *. destruct Ho as (Hl & Hr & Hbz & Hbz1).
  pose proof (ht_nonneg l). pose proof (ht_nonneg r).
  assert (El : l = E) by (apply ht_0; lia). assert (Er : r = E) by (apply ht_0; lia).
  subst. simpl. eauto.
Qed.

Section destroy.
Context (tr : Z) (T : avl_tree).
Abbreviation off := (avl_offset T).
Abbreviation N2D x := (AVL_NODE2DATA x off).

(** The tree between two calls: [y] was handed back and is the caller's. *)
Definition handed (c : ctx) (y : Z) : hpropI cell :=
  ⌜visited c /\ node_ptr y /\ Z.of_nat (S (length (pend c))) < 2 ^ 64⌝ ∧
  ctx_at tr (with_num T (Z.of_nat (S (length (pend c))))) c y.

Definition gives (Q : Z * Z -> hpropI cell) (c : ctx) (y : Z) : hpropI cell :=
  handed c y -∗ free_node y -∗ Q (N2D y, cookie_of c).

Abbreviation counted c := (with_num T (Z.of_nat (S (length (pend c))))).

(** The tail of the function, from the label [done] *)
Lemma wp_destroy_done c y b (Q : Z * Z -> hpropI cell) :
  visited c -> Z.of_nat (S (length (pend c))) < 2 ^ 64 ->
  zip_at tr (counted c) c (AvlTree.T E y b E) -∗ gives Q c y -∗
  wp (destroy_done tr y (cpar c 0)) Q.
Proof.
  iIntros (Hc Hn) "Hz HQ". iApply wp_bind. iApply (wp_load_zip' with "Hz"). iIntros "Hz".
  cbn [avl_offset avl_root]. iDestruct (root_mk_ptr _ _ false with "Hz") as %Hy.
  iEval (rewrite (zip_at_mk _ _ false) zip_at_frame) in "Hz".
  iDestruct "Hz" as "(Hc & Hy & _ & _)". destruct c as [|[d x b' s] c].
  - simpl. rewrite Z.eqb_refl. iApply wp_bind. iApply wp_ret. iApply wp_ret.
    iApply ("HQ" with "[Hc]"); [by iSplit|]. by iApply (node_at_free with "Hy").
  - iAssert (⌜node_ptr x⌝)%I as %Hx.
    { rewrite ctx_at_cons. iDestruct "Hc" as "(_ & Hx & _)".
      by iApply (node_at_ptr with "Hx"). }
    cbn [cpar cidx fr_node fr_dir]. rewrite (node_ptr_nonnull x) //.
    wstep wp_xchild on "Hy". iApply wp_ret.
    iApply ("HQ" with "[Hc]"); [by iSplit|]. by iApply (node_at_free with "Hy").
Qed.

(** The code from [check_right_side], at a leftmost node *)
Lemma wp_check_right c y b o (Q : Z * Z -> hpropI cell) :
  visited c -> avl (AvlTree.T E y b o) ->
  Z.of_nat (length (postorder o ++ y :: pend c)) < 2 ^ 64 ->
  zip_at tr (with_num T (Z.of_nat (length (postorder o ++ y :: pend c)))) c
    (AvlTree.T E y b o) -∗
  (∀ c' z, ⌜z :: pend c' = postorder o ++ y :: pend c⌝ → handed c' z -∗ free_node z -∗
     Q (N2D z, cookie_of c')) -∗
  wp (destroy_check_right tr y (cpar c 0)) Q.
Proof.
  iIntros (Hc Ha Hn) "Hz HQ".
  change (AvlTree.T E y b o) with (mk true o y b E).
  iEval (rewrite zip_at_mk zip_at_frame) in "Hz".
  iDestruct "Hz" as "(Hc & Hy & Ho & _)".
  wstep (wp_get_child true) on "Hy".
  destruct (avl_right_leaf y b o Ha) as [[-> ->]|(z & -> & ->)]; simpl.
  - wstep wp_xbalance on "Hy". iApply wp_bind. iApply wp_massert; [done|].
    iApply (wp_destroy_done with "[Hc Hy]"); [done|done| |].
    { rewrite (zip_at_mk _ _ true E) zip_at_frame. iFrame. by iSplit. }
    iIntros "Hh Hy". by iApply ("HQ" $! c y with "[//] Hh Hy").
  - iDestruct "Ho" as "(Hz & He)". iDestruct (node_at_ptr with "Hz") as %Hz.
    rewrite (node_ptr_nonnull z) //=. wstep wp_xbalance on "Hy".
    iApply wp_bind. iApply wp_massert; [done|].
    wstep wp_get_child_0 on "Hz". wstep wp_get_child_1 on "Hz".
    iApply wp_bind. iApply wp_massert; [done|].
    iApply (wp_destroy_done (Fr true y 1 E :: c) z 0 with "[Hc Hy Hz He]").
    { constructor; [by split|done]. }
    { done. }
    { rewrite zip_at_frame. simpl. iFrame. }
    iIntros "Hh Hy". by iApply ("HQ" $! (Fr true y 1 E :: c) z with "[//] Hh Hy").
Qed.

(** Down to the leftmost node *)
Lemma wp_destroy_descend n fuel t c (Q : Z * Z -> hpropI cell) :
  t <> E -> (length (inorder t) <= fuel)%nat ->
  let '(c2, t2) := extr false t c in
  zip_at tr (with_num T n) c t -∗
  (zip_at tr (with_num T n) c2 t2 -∗ Q (root t2, cpar c2 0)) -∗
  wp (destroy_descend fuel (root t) (cpar c 0)) Q.
Proof.
  revert c fuel. induction t as [|l IH x b r _]; intros c fuel Hne Hf; [done|].
  simpl in Hf. rewrite length_app /= in Hf. destruct fuel as [|fuel]; [lia|].
  change (AvlTree.T l x b r) with (mk false l x b r).
  rewrite extr_mk root_mk. cbn [destroy_descend].
  destruct (decide (l = E)) as [->|Hl].
  - rewrite root_mk. iIntros "Hz HQ". iEval (rewrite zip_at_mk zip_at_frame) in "Hz".
    iDestruct "Hz" as "(Hc & Hx & Ht & Hs)". wstep (wp_get_child false) on "Hx".
    iApply wp_ret. iApply "HQ". rewrite zip_at_mk zip_at_frame. iFrame.
  - specialize (IH (Fr false x b r :: c) fuel Hl ltac:(lia)).
    assert (Em : match l with E => (c, mk false l x b r)
                 | _ => extr false l (Fr false x b r :: c) end
                 = extr false l (Fr false x b r :: c)) by by destruct l.
    rewrite Em. destruct (extr false l _) as [c2 t2].
    iIntros "Hz HQ". iEval (rewrite zip_at_mk) in "Hz".
    iDestruct (zip_at_opt with "Hz") as %[[_ ?]|[Hp _]]; [done|].
    iEval (rewrite zip_at_frame) in "Hz". iDestruct "Hz" as "(Hc & Hx & Ht & Hs)".
    wstep (wp_get_child false) on "Hx". rewrite (node_ptr_nonnull (root l)) //=.
    iApply (IH with "[-HQ] HQ"). rewrite zip_at_frame. iFrame.
Qed.

(** From the root of an untouched subtree to the first node handed back *)
Lemma wp_descend_check fuel t c (Q : Z * Z -> hpropI cell) :
  t <> E -> avl t -> visited c -> (length (inorder t) <= fuel)%nat ->
  Z.of_nat (length (postorder t ++ pend c)) < 2 ^ 64 ->
  zip_at tr (with_num T (Z.of_nat (length (postorder t ++ pend c)))) c t -∗
  (∀ c' z, ⌜z :: pend c' = postorder t ++ pend c⌝ → handed c' z -∗ free_node z -∗
     Q (N2D z, cookie_of c')) -∗
  wp ('(node, parent) ← destroy_descend fuel (root t) (cpar c 0);
      destroy_check_right tr node parent) Q.
Proof.
  iIntros (Hne Ha Hc Hf Hn) "Hz HQ".
  destruct (extr_pend t c Hne Ha Hc) as (c2 & y & b & o & Ex & Hc2 & Ha2 & Hp).
  assert (Hw := wp_destroy_descend (Z.of_nat (length (postorder t ++ pend c))) fuel t c).
  rewrite Ex in Hw. iApply wp_bind. iApply (Hw with "Hz"); [done..|]. iIntros "Hz".
  iApply (wp_check_right with "[Hz]"); [done|done|by rewrite Hp|by rewrite Hp|].
  by rewrite Hp.
Qed.

Lemma length_postorder t : length (postorder t) = length (inorder t).
Proof.
  induction t as [|l IHl x b r IHr]; [done|]. simpl. rewrite !length_app /=. lia.
Qed.

(** ** The three kinds of call *)
Definition next_call (Q : Z * Z -> hpropI cell) (l : list Z) : hpropI cell :=
  ∀ c z, ⌜z :: pend c = l⌝ → handed c z -∗ free_node z -∗ Q (N2D z, cookie_of c).

Lemma wp_load_ctx n c a (Q : avl_tree -> hpropI cell) :
  ctx_at tr (with_num T n) c a -∗
  (ctx_at tr (with_num T n) c a -∗
     Q (AvlTree (ctop c a) (avl_compar T) off n (avl_size T))) -∗
  wp (load_tree tr) Q.
Proof.
  iIntros "[Ht Hc] HQ". iApply (wp_load_tree with "Ht"). iIntros "Ht".
  iApply "HQ". iFrame.
Qed.

(** After the last node: the tree is reset. *)
Lemma wp_destroy_last y (Q : Z * Z -> hpropI cell) :
  aligned off ->
  handed [] y -∗ (avl_list tr T [] -∗ Q (0, CHILDBIT)) -∗
  wp (avl_destroy_nodes tr CHILDBIT) Q.
Proof.
  iIntros (Ho) "[(_ & %Hy & _) Hc] HQ".
  iApply wp_bind. iApply (wp_mem_fuel _ 0 with "Hc"); [apply at_least_any|].
  iIntros (k _) "Hc". iApply wp_bind. iApply (wp_load_ctx with "Hc"). iIntros "Hc".
  simpl. rewrite node_ptr_nonnull //=.
  iApply wp_bind. iApply wp_bind. iApply wp_ret.
  iApply wp_bind. iApply (wp_set_root _ _ _ _ 0 with "Hc"); [done|]. iIntros "Hc".
  iApply (wp_set_num tr T _ 0 [] 0 with "Hc"). iIntros "Hc".
  iApply wp_ret. iApply "HQ". iExists E. iSplit; [done|]. rewrite /zip_at. by iFrame.
Qed.

Lemma at_least_handed d x b s c y n :
  ctx_at tr (with_num T n) (Fr d x b s :: c) y ⊢ at_least (length (inorder s)).
Proof.
  rewrite ctx_at_cons !assoc comm. apply at_least_frame. apply at_least_tree.
Qed.

(** Between the first and the last *)
Lemma wp_destroy_next c y (Q : Z * Z -> hpropI cell) :
  c <> [] ->
  handed c y -∗ next_call Q (pend c) -∗
  wp (avl_destroy_nodes tr (cookie_of c)) Q.
Proof.
  iIntros (Hne) "[(%Hv & %Hy & %Hn) Hc] HQ". destruct c as [|[d x b s] c]; [done|].
  apply Forall_cons in Hv as [[Hs Hd] Hv]. cbn [cookie_of fr_node fr_dir fr_sib] in *.
  iAssert (⌜node_ptr x⌝)%I as %Hx.
  { rewrite ctx_at_cons. iDestruct "Hc" as "(_ & Hx & _)". by iApply (node_at_ptr with "Hx"). }
  iApply wp_bind. iApply (wp_mem_fuel with "Hc"); [apply at_least_handed|].
  iIntros (k Hk) "Hc". iApply wp_bind. iApply (wp_load_ctx with "Hc"). iIntros "Hc".
  assert (Hnode := index_node x d (proj2 Hx)). assert (Hchild := index_child x d (proj2 Hx)).
  unfold AVL_INDEX2NODE, AVL_INDEX2CHILD, AVL_MKINDEX in Hnode, Hchild.
  destruct (Z.eqb_spec (Z.lor x (Z.b2z d)) 0) as [E0|_].
  { rewrite E0 Z.land_0_l in Hnode. destruct Hx as [? _]. lia. }
  unfold CHILDBIT. rewrite Hnode Hchild (node_ptr_nonnull x) //.
  iEval (rewrite ctx_at_cons) in "Hc". iDestruct "Hc" as "(Hc & Hx & Hs)".
  wstep (wp_set_child 0) on "Hx". cbn [avl_numnodes_f].
  assert (Hpd : length (pend (Fr d x b s :: c)) = S (length (if d then [] else postorder s) + length (pend c))).
  { simpl. rewrite length_app /=. lia. }
  iApply wp_bind. iApply wp_massert. { apply Z.ltb_lt. lia. }
  rewrite wrap_small; [|lia].
  replace (Z.of_nat (S (length (pend (Fr d x b s :: c)))) - 1)
    with (Z.of_nat (length (pend (Fr d x b s :: c)))) by lia.
  iApply wp_bind. iApply (wp_set_num tr T with "Hc"). iIntros "Hc".
  wstep wp_get_child_1 on "Hx".
  iDestruct (tree_at_root_ptr with "Hs") as %Hsr.
  destruct (decide (s = E)) as [->|Hsne].
  - assert (Hcond : (Z.b2z d =? 1) || ((if d then 0 else root E) =? 0) = true)
      by by destruct d.
    rewrite Hcond. wstep wp_xparent on "Hx".
    assert (Hp : pend (Fr d x b E :: c) = x :: pend c) by by destruct d.
    rewrite Hp. rewrite Hp in Hn. iApply (wp_destroy_done c x b with "[Hc Hx Hs]").
    { done. }
    { simpl in *. lia. }
    { assert (Hmk : AvlTree.T E x b E = mk d E x b E) by by destruct d.
      rewrite Hmk zip_at_mk zip_at_frame. iFrame. }
    iIntros "Hh Hy". by iApply ("HQ" $! c x with "[//] Hh Hy").
  - destruct d; [by destruct Hsne; apply Hd|].
    destruct Hsr as [?|Hsr]; [done|]. simpl (Z.b2z _ =? _).
    rewrite (node_ptr_nonnull (root s)) //. cbn [orb negb].
    iApply (wp_descend_check k s (Fr true x b E :: c) with "[Hc Hx Hs]").
    + done.
    + done.
    + constructor; [by split|done].
    + done.
    + simpl in *. lia.
    + rewrite zip_at_frame /=. iFrame.
    + done.
Qed.

(** The first call *)
Lemma wp_destroy_first l (Q : Z * Z -> hpropI cell) :
  l <> [] -> Forall (fun y => N2D y <> 0) l ->
  avl_list tr T l -∗
  (∀ t, ⌜inorder t = l /\ aligned off⌝ → next_call Q (postorder t)) -∗
  wp (avl_destroy_nodes tr 0) Q.
Proof.
  iIntros (Hne Hd) "Hl HQ". iDestruct (avl_list_nodes with "Hl") as %(_ & Hptr & Hlen).
  iApply wp_bind. iApply (wp_mem_fuel _ 0 with "Hl"); [apply at_least_any|].
  iIntros (k _) "Hl". iApply wp_bind. iApply (wp_load_avl_list with "Hl").
  iIntros (r _) "Hl". simpl. iApply wp_bind. iApply (wp_avl_first with "Hl"). iIntros "Hl".
  destruct l as [|y l]; [done|]. simpl.
  apply Forall_cons in Hd as [Hy _]. apply Forall_cons in Hptr as [Hyp _].
  destruct (Z.eqb_spec (N2D y) 0); [done|]. rewrite data2node_node2data; [|apply Hyp].
  iDestruct "Hl" as "(%t & (%Hl & %Ht & %Ho) & Hz)".
  iSpecialize ("HQ" $! t with "[//]").
  assert (Htne : t <> E) by by intros ->.
  destruct (extr_pend t [] Htne Ht (Forall_nil_2 _)) as (c2 & z & b & o & Ex & Hc2 & Ha2 & Hp).
  destruct (extr_spec false t [] Htne) as (c2' & z' & b' & o' & Ex' & Hpl & Hend & _).
  rewrite Ex in Ex'. rewrite app_nil_r in Ex'. injection Ex' as <- <- <- <-.
  rewrite Hl in Hend. injection Hend as <-. rewrite app_nil_r in Hp.
  rewrite -Hl -length_postorder -Hp in Hlen |- *.
  iEval (rewrite -Hpl -zip_at_plug zip_at_mk zip_at_frame) in "Hz". iDestruct "Hz" as "(Hc & Hx & Ht & Hs)".
  wstep wp_xparent on "Hx". iCombine "Hc Hx Ht Hs" as "Hz". rewrite -zip_at_frame -zip_at_mk.
  iApply (wp_check_right with "Hz"); [done|done|done|].
  rewrite Hp. iApply "HQ".
Qed.

(** A call on an empty tree *)
Lemma wp_destroy_empty (Q : Z * Z -> hpropI cell) :
  avl_list tr T [] -∗ (avl_list tr T [] -∗ Q (0, CHILDBIT)) -∗
  wp (avl_destroy_nodes tr 0) Q.
Proof.
  iIntros "Hl HQ".
  iApply wp_bind. iApply (wp_mem_fuel _ 0 with "Hl"); [apply at_least_any|].
  iIntros (k _) "Hl". iApply wp_bind. iApply (wp_load_avl_list with "Hl").
  iIntros (r _) "Hl". simpl. iApply wp_bind. iApply (wp_avl_first with "Hl"). iIntros "Hl".
  iApply wp_ret. by iApply "HQ".
Qed.
End destroy.

(** ** The loop of the documentation

    [while ((node = avl_destroy_nodes(tree, &cookie)) != NULL) free(node);]
    and the list of what it freed. *)
Fixpoint destroy_and_free (fuel : nat) (tree cookie : Z) : AM (list Z) :=
  match fuel with
  | O => mnofuel
  | S fuel' =>
      '(node, cookie) ← avl_destroy_nodes tree cookie;
      if node =? 0 then mret []
      else
        t ← load_tree tree;
        mem_free (AVL_DATA2NODE node (avl_offset t)) ;;
        rest ← destroy_and_free fuel' tree cookie;
        mret (AVL_DATA2NODE node (avl_offset t) :: rest)
  end.

Section destroy_loop.
Context (tr : Z) (T : avl_tree).
Abbreviation off := (avl_offset T).
Abbreviation N2D x := (AVL_NODE2DATA x off).

Lemma wp_destroy_rest fuel c y (Q : list Z -> hpropI cell) :
  aligned off -> Forall (fun y => N2D y <> 0) (pend c) ->
  (length (pend c) < fuel)%nat ->
  handed tr T c y -∗ (avl_list tr T [] -∗ Q (pend c)) -∗
  wp (destroy_and_free fuel tr (cookie_of c)) Q.
Proof.
  intros Ho. revert c y Q. induction fuel as [|fuel IH]; intros c y Q Hd Hf; [lia|].
  cbn [destroy_and_free]. iIntros "Hh HQ". destruct c as [|f c].
  { iApply wp_bind. iApply (wp_destroy_last with "Hh"); [done|]. iIntros "Hl".
    iApply wp_ret. by iApply "HQ". }
  iApply wp_bind. iApply (wp_destroy_next with "Hh"); [done|].
  iIntros (c' z Hz) "Hh Hz". rewrite -Hz in Hd, Hf |- *.
  apply Forall_cons in Hd as [Hz0 Hd]. destruct (Z.eqb_spec (N2D z) 0); [done|].
  iDestruct "Hh" as "[(%Hv & %Hzp & %Hn) Hc]".
  iApply wp_bind. iApply (wp_load_ctx with "Hc"). iIntros "Hc". cbn [avl_offset].
  rewrite data2node_node2data; [|apply Hzp]. iDestruct "Hz" as (n0) "Hz".
  iApply wp_bind. iApply (wp_free with "Hz").
  iApply wp_bind. iApply (IH with "[Hc]"); [done|simpl in Hf; lia|by iSplit|].
  iIntros "Hl". iApply wp_ret. by iApply "HQ".
Qed.
End destroy_loop.

