(* ===== verification/AvlCorrect.v ===== *)
(** * The theorems about avl.c

    The properties of the library as its users see it, each with a witness
    on a concrete memory. *)

From S2P Require Import Prelude SepLogic Avl AvlTree AvlNode AvlHeap AvlSpec AvlRemove AvlFind AvlOps AvlDestroy.
From stdpp Require Import sorting.
From iris.proofmode Require Import proofmode.

#[local] Open Scope Z_scope.

(** ** A client's sequence of calls *)
Inductive avl_cmd :=
  | CAdd (x : Z)
  | CRemove (x : Z)
  | CFind (v : Z)
  | CNext (x : Z)
  | CPrev (x : Z)
  | CFirst
  | CLast
  | CCount.

Section history.
Context (call_compar : Z -> Z -> Z -> Z).
Context (tr tmp : Z) (T : avl_tree).
Abbreviation cmp := (call_compar (avl_compar T)).
Abbreviation off := (avl_offset T).
Abbreviation N2D x := (AVL_NODE2DATA x off).

(** The calls, as the C code runs them *)
Definition run_cmd (c : avl_cmd) : AM Z :=
  match c with
  | CAdd x => avl_add call_compar tr (N2D x) ;; mret 0
  | CRemove x => avl_remove tr (N2D x) tmp ;; mret 0
  | CFind v => '(d, _) ← avl_find call_compar tr v; mret d
  | CNext x => AVL_NEXT tr (N2D x)
  | CPrev x => AVL_PREV tr (N2D x)
  | CFirst => avl_first tr
  | CLast => avl_last tr
  | CCount => avl_numnodes tr
  end.

Fixpoint run_cmds (cs : list avl_cmd) : AM (list Z) :=
  match cs with
  | [] => mret []
  | c :: cs => r ← run_cmd c; rs ← run_cmds cs; mret (r :: rs)
  end.

(** The specification: a sorted list [l] of the nodes in the tree, and the
    list [fr] of the nodes the client holds.  [None] is a call the client
    may not make. *)
Definition split_at (x : Z) (l : list Z) : option (list Z * list Z) :=
  '(i, _) ← list_find (x =.) l; Some (take i l, drop (S i) l).

Definition spec_cmd (c : avl_cmd) (l fr : list Z) : option (list Z * list Z * Z) :=
  match c with
  | CAdd x =>
      '(f1, f2) ← split_at x fr;
      match lookup_node cmp off (N2D x) l with
      | None => Some (insert_node cmp off x l, f1 ++ f2, 0)
      | Some _ => None
      end
  | CRemove x => '(l1, l2) ← split_at x l; Some (l1 ++ l2, x :: fr, 0)
  | CFind v => Some (l, fr, data_or_null T (lookup_node cmp off v l))
  | CNext x => '(_, l2) ← split_at x l; Some (l, fr, data_or_null T (head l2))
  | CPrev x => '(l1, _) ← split_at x l; Some (l, fr, data_or_null T (last l1))
  | CFirst => Some (l, fr, data_or_null T (head l))
  | CLast => Some (l, fr, data_or_null T (last l))
  | CCount => Some (l, fr, Z.of_nat (length l))
  end.

Fixpoint spec_cmds (cs : list avl_cmd) (l fr : list Z) : option (list Z * list Z * list Z) :=
  match cs with
  | [] => Some (l, fr, [])
  | c :: cs =>
      '(l, fr, r) ← spec_cmd c l fr;
      '(l, fr, rs) ← spec_cmds cs l fr; Some (l, fr, r :: rs)
  end.

(** The memory of the client and the library together *)
Definition avl_world (l fr : list Z) : hpropI cell :=
  avl_list tr T l ∗ ([∗ list] x ∈ fr, free_node x) ∗ free_node tmp.

Lemma split_at_Some x l l1 l2 : split_at x l = Some (l1, l2) -> l = l1 ++ x :: l2.
Proof.
  unfold split_at. destruct (list_find (x =.) l) as [[i y]|] eqn:E; [|done].
  intros [= <- <-]. apply list_find_Some in E as (Hi & <- & _).
  by rewrite take_drop_middle.
Qed.

Context `{!AvlOrder cmp}.

Lemma wp_run_cmd c l fr l' fr' r (Q : Z -> hpropI cell) :
  node_ptr tmp -> Forall node_ptr fr -> sorted_nodes cmp off l ->
  spec_cmd c l fr = Some (l', fr', r) ->
  avl_world l fr -∗
  (⌜Forall node_ptr fr' /\ sorted_nodes cmp off l'⌝ → avl_world l' fr' -∗ Q r) -∗
  wp (run_cmd c) Q.
Proof.
  iIntros (Htmp Hfr Hs Hc) "(Hl & Hfr & Htmp) HQ".
  destruct c as [x|x|v|x|x| | |]; simpl in Hc |- *.
  - destruct (split_at x fr) as [[f1 f2]|] eqn:Ex; [|done]. simpl in Hc.
    apply split_at_Some in Ex as ->. destruct (lookup_node _ _ _ l) eqn:Hn; [done|].
    injection Hc as <- <- <-. rewrite big_sepL_app big_sepL_cons.
    iDestruct "Hfr" as "(Hf1 & Hx & Hf2)".
    apply Forall_app in Hfr as [Hf1 [Hx Hf2]%Forall_cons].
    iApply wp_bind. iApply (wp_avl_add with "Hl Hx"); [done..|]. iIntros "Hl".
    iApply wp_ret. iApply ("HQ" with "[]"); [|by iFrame].
    iPureIntro. split; [by apply Forall_app|by apply insert_node_sorted].
  - destruct (split_at x l) as [[l1 l2]|] eqn:Ex; [|done]. simpl in Hc.
    apply split_at_Some in Ex as ->. injection Hc as <- <- <-.
    iDestruct (avl_list_nodes with "Hl") as %(_ & Hp & _).
    iApply wp_bind. iApply (wp_avl_remove with "Hl Htmp"); [done|].
    iIntros "Hl Hx Htmp". iApply wp_ret. iApply ("HQ" with "[]"); [|by iFrame].
    iPureIntro. apply Forall_app in Hp as [_ [Hx _]%Forall_cons].
    split; [by constructor|]. by eapply sorted_nodes_remove.
  - injection Hc as <- <- <-. iApply wp_bind. iApply (wp_avl_find with "Hl"); [done|].
    iIntros (w) "Hl". iApply wp_ret. iApply ("HQ" with "[//]"). iFrame.
  - destruct (split_at x l) as [[l1 l2]|] eqn:Ex; [|done]. simpl in Hc.
    apply split_at_Some in Ex as ->. injection Hc as <- <- <-.
    iApply (wp_avl_walk _ _ true with "Hl"). iIntros "Hl".
    iApply ("HQ" with "[//]"). iFrame.
  - destruct (split_at x l) as [[l1 l2]|] eqn:Ex; [|done]. simpl in Hc.
    apply split_at_Some in Ex as ->. injection Hc as <- <- <-.
    iApply (wp_avl_walk _ _ false with "Hl"). iIntros "Hl".
    iApply ("HQ" with "[//]"). iFrame.
  - injection Hc as <- <- <-. iApply (wp_avl_first with "Hl"). iIntros "Hl".
    iApply ("HQ" with "[//]"). iFrame.
  - injection Hc as <- <- <-. iApply (wp_avl_last with "Hl"). iIntros "Hl".
    iApply ("HQ" with "[//]"). iFrame.
  - injection Hc as <- <- <-. iApply (wp_avl_numnodes with "Hl"). iIntros "Hl".
    iApply ("HQ" with "[//]"). iFrame.
Qed.

Lemma wp_run_cmds cs l fr l' fr' rs :
  node_ptr tmp -> Forall node_ptr fr -> sorted_nodes cmp off l ->
  spec_cmds cs l fr = Some (l', fr', rs) ->
  avl_world l fr ⊢
  wp (run_cmds cs) (fun rs' => ⌜rs' = rs /\ sorted_nodes cmp off l'⌝ ∧ avl_world l' fr').
Proof.
  intros Htmp. revert l fr rs. induction cs as [|c cs IH]; intros l fr rs Hfr Hs Hc.
  { injection Hc as <- <- <-. iIntros "H". iApply wp_ret. by iSplit. }
  simpl in Hc. destruct (spec_cmd c l fr) as [[[l1 fr1] r]|] eqn:E1; [|done].
  simpl in Hc.
  destruct (spec_cmds cs l1 fr1) as [[[l2 fr2] rs2]|] eqn:E2; [|done]. simpl in Hc.
  injection Hc as <- <- <-. simpl.
  iIntros "H". iApply wp_bind. iApply (wp_run_cmd c l fr l1 fr1 r with "H"); [done..|].
  iIntros ([Hfr1 Hs1]) "H". iApply wp_bind.
  iDestruct (IH l1 fr1 rs2 Hfr1 Hs1 E2 with "H") as "H".
  iApply (wp_wand with "[$H]"). iIntros (rs') "[%Hp H]". iApply wp_ret.
  destruct Hp as [-> Hp]. by iSplit.
Qed.
End history.

(** ** A concrete tree for the witnesses

    Three nodes 32 < 64 < 96 in a tree object at 8, a free node at 128, and a
    stack slot at 16; the data are compared by their addresses. *)
Definition demo_compar (_ a b : Z) : Z := Z.sgn (a - b).
#[export] Instance demo_order f : AvlOrder (demo_compar f) := key_order (fun z => z).

Definition demo_T : avl_tree := AvlTree 0 1 0 0 24.
Definition demo_cells : list (Z * cell) :=
  [(8, CTree (AvlTree 64 1 0 3 24));
   (64, CNode (AvlNode (32, 96) (pack 0 false 0)));
   (32, CNode (AvlNode (0, 0) (pack 64 false 0)));
   (96, CNode (AvlNode (0, 0) (pack 64 true 0)));
   (128, CNode (AvlNode (7, 7) 7));
   (16, CNode (AvlNode (9, 9) 9))].
Definition demo_mem : gmap Z cell := list_to_map demo_cells.

Lemma demo_node_ptr x : x = 32 \/ x = 64 \/ x = 96 \/ x = 128 \/ x = 16 -> node_ptr x.
Proof. intros [->|[->|[->|[->| ->]]]]; by split. Qed.

Lemma demo_world : avl_world 8 16 demo_T [32; 64; 96] [128] demo_mem.
Proof.
  eapply hprop_entails_holds; [|apply (cells_hold demo_cells)].
  - unfold demo_cells, avl_world. cbn [big_opL fst snd].
    iIntros "(Ht & H64 & H32 & H96 & H128 & H16 & _)".
    iSplitR "H128 H16"; [|iSplitL "H128"; [|by iExists _]].
    + iExists (AvlTree.T (AvlTree.T E 32 0 E) 64 0 (AvlTree.T E 96 0 E)).
      iSplit; [iPureIntro; split; [done|]; split; [simpl; lia|done]|].
      unfold zip_at, ctx_at. simpl.
      iSplitL "Ht"; [by iFrame|].
      iSplitL "H64"; [|iSplitL "H32"; iSplitL; (try done); iSplit; try done].
      all: iSplit; [iPureIntro; split; [apply demo_node_ptr; lia|split; [done|lia]]|done].
    + iSplitL; [by iExists _|done].
  - apply (bool_decide_unpack _). by vm_compute.
  - by repeat constructor.
Qed.

(** ** The properties *)

(** C5. Any sequence of adds, removes, searches, walks and counts that a
    client may make on an AVL tree in memory terminates without a fault or a
    failed assertion, answers exactly what the sorted list of its elements
    answers, leaves a balanced and ordered tree of the specified elements,
    and touches no other memory. *)
Theorem avl_history_refines call_compar tr tmp T cs l fr l' fr' rs h hf :
  AvlOrder (call_compar (avl_compar T)) ->
  node_ptr tmp -> Forall node_ptr fr ->
  sorted_nodes (call_compar (avl_compar T)) (avl_offset T) l ->
  spec_cmds call_compar T cs l fr = Some (l', fr', rs) ->
  avl_world tr tmp T l fr h -> h ##ₘ hf ->
  exists h', run_cmds call_compar tr tmp T cs (h ∪ hf) = Ret (rs, h' ∪ hf) /\
    h' ##ₘ hf /\ avl_world tr tmp T l' fr' h' /\
    sorted_nodes (call_compar (avl_compar T)) (avl_offset T) l'.
Proof.
  intros Ho Htmp Hfr Hs Hc Hh Hd.
  pose proof (wp_run_cmds call_compar tr tmp T cs l fr l' fr' rs Htmp Hfr Hs Hc) as Hw.
  apply (hprop_entails_holds _ _ _ Hw) in Hh.
  destruct (Hh hf Hd) as (rs' & h' & E & Hd' & [[-> Hs'] HQ]).
  by exists h'.
Qed.

Definition demo_cmds : list avl_cmd :=
  [CAdd 128; CCount; CRemove 64; CFind 96; CNext 32; CPrev 32; CLast; CFind 64].

Lemma avl_history_refines_witness :
  exists h', run_cmds demo_compar 8 16 demo_T demo_cmds (demo_mem ∪ ∅)
      = Ret ([0; 4; 0; 96; 96; 0; 128; 0], h' ∪ ∅) /\
    h' ##ₘ ∅ /\ avl_world 8 16 demo_T [32; 96; 128] [64] h' /\
    sorted_nodes (demo_compar 1) 0 [32; 96; 128].
Proof.
  apply (avl_history_refines demo_compar 8 16 demo_T demo_cmds [32; 64; 96] [128]
           [32; 96; 128] [64]).
  - apply demo_order.
  - apply demo_node_ptr. lia.
  - constructor; [apply demo_node_ptr; lia|done].
  - apply (bool_decide_unpack _). by vm_compute.
  - by vm_compute.
  - apply demo_world.
  - apply map_disjoint_empty_r.
Defined.

(** avl_find returns the datum of the tree that compares equal to the
    value, and NULL when no datum does; the tree is unchanged. *)
Theorem avl_find_correct call_compar tr T v l :
  AvlOrder (call_compar (avl_compar T)) ->
  sorted_nodes (call_compar (avl_compar T)) (avl_offset T) l ->
  avl_list tr T l ⊢
  wp (avl_find call_compar tr v) (fun '(d, _) =>
    ⌜(exists x, x ∈ l /\ d = AVL_NODE2DATA x (avl_offset T) /\
        call_compar (avl_compar T) v d = 0) \/
     d = 0 /\ forall x, x ∈ l ->
       call_compar (avl_compar T) v (AVL_NODE2DATA x (avl_offset T)) <> 0⌝ ∧
    avl_list tr T l).
Proof.
  iIntros (Ho Hs) "Hl". iApply (wp_avl_find with "Hl"); [done|].
  iIntros (w) "Hl". iSplit; [iPureIntro|done].
  destruct (lookup_node _ _ v l) as [x|] eqn:E; [left|right].
  - exists x. unfold lookup_node in E. apply (endmost_elem false) in E.
    apply list_elem_of_filter in E as [Hx Hin]. done.
  - split; [done|]. intros x Hx. apply lookup_None_ne in E.
    rewrite Forall_forall in E. by apply E.
Qed.

Lemma demo_list : exists h, avl_list 8 demo_T [32; 64; 96] h.
Proof. destruct demo_world as (h1 & h2 & _ & _ & H & _). by exists h1. Qed.

Lemma demo_sorted : sorted_nodes (demo_compar 1) 0 [32; 64; 96].
Proof. apply (bool_decide_unpack _). by vm_compute. Qed.

Lemma avl_find_correct_witness :
  (exists h, avl_list 8 demo_T [32; 64; 96] h) /\
  (avl_list 8 demo_T [32; 64; 96] ⊢
   wp (avl_find demo_compar 8 96) (fun '(d, _) =>
    ⌜(exists x, x ∈ [32; 64; 96] /\ d = AVL_NODE2DATA x 0 /\ demo_compar 1 96 d = 0) \/
     d = 0 /\ forall x, x ∈ [32; 64; 96] -> demo_compar 1 96 (AVL_NODE2DATA x 0) <> 0⌝ ∧
    avl_list 8 demo_T [32; 64; 96])).
Proof.
  split; [apply demo_list|].
  apply (avl_find_correct demo_compar 8 demo_T); [apply demo_order|apply demo_sorted].
Defined.

(** The idiom of sys/avl.h: the neighbour of a value that is not found *)
Definition find_then_nearest (call_compar : Z -> Z -> Z -> Z) (tr v : Z) (d : bool) : AM Z :=
  '(_, w) ← avl_find call_compar tr v;
  w ← of_option w;
  avl_nearest tr w (Z.b2z d).

(** After a search that fails, avl_nearest on the index it left returns
    the greatest smaller datum (AVL_BEFORE) or the smallest greater one
    (AVL_AFTER), NULL when there is none. *)
Theorem avl_nearest_correct call_compar tr T v d l :
  AvlOrder (call_compar (avl_compar T)) ->
  sorted_nodes (call_compar (avl_compar T)) (avl_offset T) l ->
  let f := cmp_node (call_compar (avl_compar T)) (avl_offset T) v in
  Forall (fun x => f x <> 0) l ->
  avl_list tr T l ⊢
  wp (find_then_nearest call_compar tr v d) (fun r =>
    ⌜r = data_or_null T (neighbour d (filter (fun x => 0 < f x) l)
                                     (filter (fun x => f x < 0) l))⌝ ∧
    avl_list tr T l).
Proof.
  intros Ho Hs f Hf. iIntros "(%t & (%Hl & %Ht & %Hoff) & Hz)". subst l.
  pose proof (search_sorted call_compar T v t Hs) as [Hp Hr].
  iApply wp_bind. iApply (wp_find_zip with "Hz"). iIntros "Hz".
  destruct (search _ t []) as [c [|l x b r]]; cbn [snd fst found_at] in *.
  - destruct Hr as (_ & Hpre & Hpost). iApply wp_bind. iApply wp_ret.
    iApply (wp_nearest_zip with "Hz"). iIntros "Hz". iSplit.
    + iPureIntro. by rewrite Hpre Hpost.
    + iExists t. iSplit; [done|]. by rewrite zip_at_plug Hp.
  - exfalso. apply (endmost_elem false) in Hr.
    apply list_elem_of_filter in Hr as [Hx Hin]. rewrite Forall_forall in Hf.
    by apply (Hf x).
Qed.

Lemma avl_nearest_correct_witness :
  (exists h, avl_list 8 demo_T [32; 64; 96] h) /\
  (avl_list 8 demo_T [32; 64; 96] ⊢
   wp (find_then_nearest demo_compar 8 70 true)
     (fun r => ⌜r = 96⌝ ∧ avl_list 8 demo_T [32; 64; 96])).
Proof.
  split; [apply demo_list|].
  apply (avl_nearest_correct demo_compar 8 demo_T 70 true);
    [apply demo_order|apply demo_sorted|]. by repeat constructor.
Defined.

(** avl_add of a datum that compares equal to one already in the tree
    fails its assertion; nothing is inserted and nothing is corrupted. *)
Theorem avl_add_duplicate_asserts call_compar tr T v l y h hf :
  AvlOrder (call_compar (avl_compar T)) ->
  sorted_nodes (call_compar (avl_compar T)) (avl_offset T) l ->
  y ∈ l -> call_compar (avl_compar T) v (AVL_NODE2DATA y (avl_offset T)) = 0 ->
  Forall (fun y => AVL_NODE2DATA y (avl_offset T) <> 0) l ->
  avl_list tr T l h -> h ##ₘ hf ->
  avl_add call_compar tr v (h ∪ hf) = AssertFail.
Proof.
  intros Ho Hs Hy Hv Hd Hl Hdisj.
  assert (Hw : avl_list tr T l ⊢ wp (avl_find call_compar tr v)
    (fun p => ⌜p.1 <> 0⌝ ∧ avl_list tr T l)).
  { iIntros "Hl". iApply (wp_avl_find with "Hl"); [done|]. iIntros (w) "Hl".
    iSplit; [iPureIntro|done].
    destruct (lookup_node _ _ v l) as [x|] eqn:E.
    - apply (endmost_elem false) in E. apply list_elem_of_filter in E as [_ Hin].
      rewrite Forall_forall in Hd. by apply Hd.
    - apply lookup_None_ne in E. rewrite Forall_forall in E. by destruct (E y Hy). }
  apply (hprop_entails_holds _ _ _ Hw) in Hl.
  destruct (Hl hf Hdisj) as ([d w] & h' & E & _ & [Hd0 _]). simpl in Hd0.
  unfold avl_add. rewrite (bind_ret_eq _ _ _ _ _ E).
  apply bind_assertfail. unfold mwhen. by destruct (Z.eqb_spec d 0).
Qed.

Lemma avl_add_duplicate_asserts_witness :
  exists h, avl_add demo_compar 8 64 (h ∪ ∅) = AssertFail.
Proof.
  destruct demo_list as [h Hh]. exists h.
  apply (avl_add_duplicate_asserts demo_compar 8 demo_T 64 [32; 64; 96] 64).
  - apply demo_order.
  - apply demo_sorted.
  - by apply (bool_decide_unpack _).
  - by vm_compute.
  - by repeat constructor.
  - done.
  - apply map_disjoint_empty_r.
Defined.

(** avl_rotation at a node whose child on side [d] is two levels taller
    than the other terminates without a fault, leaves a balanced subtree with the
    same elements in the same order in the place of the old one, and tells
    whether it became shorter. *)
Theorem avl_rotation_correct tr T c d x t s b :
  avl t -> avl s -> ht t = ht s + 2 ->
  ctx_at tr T c x ∗ node_at d x (root t) (root s) (cpar c 0) (cidx c false) b ∗
    tree_at t x d ∗ tree_at s x (negb d) ⊢
  wp (avl_rotation tr x (2 * c2b d)) (fun shorter => ∃ t',
    ⌜avl t' /\ inorder t' = inorder (mk d t x b s) /\
     ht t' = (if shorter : bool then ht t else 1 + ht t)%Z⌝ ∧
    zip_at tr T c t').
Proof.
  intros Ht Hs Hh.
  destruct (rot_correct d x t s Ht Hs Hh) as (t' & shorter & Hr & Ha & Hi & Hht & _).
  iIntros "(Hc & Hx & Ht & Hs)". iApply (wp_rotation with "Hc Hx Ht Hs"); [done|].
  iIntros "Hz". iExists t'. iSplit; [iPureIntro|done].
  split_and!; [done| |done]. by rewrite Hi !inorder_mk.
Qed.

Lemma avl_rotation_correct_witness :
  let t := AvlTree.T (AvlTree.T E 32 0 E) 64 0 (AvlTree.T E 96 0 E) in
  ctx_at 8 demo_T [] 128 ∗ node_at false 128 64 0 0 false (-1) ∗
    tree_at t 128 false ∗ tree_at E 128 true ⊢
  wp (avl_rotation 8 128 (-2)) (fun shorter => ∃ t',
    ⌜avl t' /\ inorder t' = [32; 64; 96; 128] /\
     ht t' = (if shorter : bool then 2 else 3)%Z⌝ ∧
    zip_at 8 demo_T [] t').
Proof.
  apply (avl_rotation_correct 8 demo_T [] false 128
    (AvlTree.T (AvlTree.T E 32 0 E) 64 0 (AvlTree.T E 96 0 E)) E (-1)); simpl; lia.
Defined.

(** The search loop of avl_find ends within 2 log2(n + 1) + 2 iterations
    on a tree of n elements: that much fuel gives its result. *)
Theorem avl_find_steps call_compar tr T v t fuel :
  AvlOrder (call_compar (avl_compar T)) -> avl t ->
  2 * Z.log2 (Z.of_nat (length (inorder t)) + 1) + 2 <= Z.of_nat fuel ->
  zip_at tr T [] t ⊢
  wp (find_loop call_compar fuel T v (root t) 0 0) (fun r =>
    ⌜r = found_at T (search (cmp_node (call_compar (avl_compar T)) (avl_offset T) v) t [])⌝ ∧
    zip_at tr T [] t).
Proof.
  intros Ho Ha Hf. pose proof (avl_height_log t Ha) as Hh. iIntros "Hz".
  pose proof (search_plug (cmp_node (call_compar (avl_compar T)) (avl_offset T) v) t []) as Hp.
  assert (ET : T = with_num T (avl_numnodes_f T)) by by destruct T.
  iAssert (zip_at tr (with_num T (avl_numnodes_f T)) [] t) with "[Hz]" as "Hz";
    [by rewrite -ET|].
  iApply (wp_find_loop call_compar tr T (avl_numnodes_f T) fuel v t [] with "Hz");
    [done|done|lia|].
  iIntros "Hz". iSplit; [done|]. iEval (rewrite zip_at_plug) in "Hz".
  destruct (search _ t []) as [c' t']. simpl in *. by rewrite Hp -ET.
Qed.

Lemma avl_find_steps_witness :
  let t := AvlTree.T (AvlTree.T E 32 0 E) 64 0 (AvlTree.T E 96 0 E) in
  zip_at 8 demo_T [] t ⊢
  wp (find_loop demo_compar 6 demo_T 96 64 0 0) (fun r =>
    ⌜r = (96, None)⌝ ∧ zip_at 8 demo_T [] t).
Proof.
  apply (avl_find_steps demo_compar 8 demo_T 96
    (AvlTree.T (AvlTree.T E 32 0 E) 64 0 (AvlTree.T E 96 0 E)) 6).
  - apply demo_order.
  - simpl. lia.
  - by vm_compute.
Defined.

(** The three fields packed in avl_pcb are independent: what one of the
    SET macros stores is read back by its X macro, and the other two fields
    keep their values. *)
Theorem avl_pcb_fields pcb p (i : bool) b :
  aligned p -> -1 <= b <= 2 ->
  let z1 := pcb_set_parent pcb p in
  let z2 := pcb_set_child pcb (Z.b2z i) in
  let z3 := pcb_set_balance pcb b in
  (pcb_parent z1 = p /\ pcb_child z1 = pcb_child pcb /\ pcb_balance z1 = pcb_balance pcb) /\
  (pcb_child z2 = Z.b2z i /\ pcb_parent z2 = pcb_parent pcb /\ pcb_balance z2 = pcb_balance pcb) /\
  (pcb_balance z3 = b /\ pcb_parent z3 = pcb_parent pcb /\ pcb_child z3 = pcb_child pcb).
Proof.
  intros Hp Hb. destruct (pack_surj pcb) as (p0 & i0 & b0 & -> & Hp0 & Hb0).
  cbv zeta. rewrite pcb_set_parent_pack // pcb_set_child_pack // pcb_set_balance_pack //.
  rewrite !pcb_parent_pack // !pcb_child_pack // !pcb_balance_pack //.
Qed.

Lemma avl_pcb_fields_witness :
  pcb_parent (pcb_set_parent 4294967287 4096) = 4096 /\
  pcb_child (pcb_set_parent 4294967287 4096) = 1 /\
  pcb_balance (pcb_set_balance 4294967287 (-1)) = -1.
Proof.
  destruct (avl_pcb_fields 4294967287 4096 true (-1)) as ((H1 & H2 & _) & _ & (H3 & _));
    [done|lia|].
  split; [exact H1|]. split; [rewrite H2; by vm_compute|exact H3].
Defined.

(** The loop [for (n = first; n != NULL; n = avl_walk(tree, n, dir))] *)
Fixpoint avl_iterate (fuel : nat) (tr node dir : Z) : AM (list Z) :=
  match fuel with
  | O => mnofuel
  | S fuel' =>
      if node =? 0 then mret []
      else
        next ← avl_walk tr node dir;
        rest ← avl_iterate fuel' tr next dir;
        mret (node :: rest)
  end.

Section iterate.
Context (tr : Z) (T : avl_tree).
Abbreviation N2D := (fun x => AVL_NODE2DATA x (avl_offset T)).

Lemma wp_iterate_after l1 l2 fuel (Q : list Z -> hpropI cell) :
  Forall (fun x => N2D x <> 0) l2 -> (length l2 < fuel)%nat ->
  avl_list tr T (l1 ++ l2) -∗
  (avl_list tr T (l1 ++ l2) -∗ Q (N2D <$> l2)) -∗
  wp (avl_iterate fuel tr (data_or_null T (head l2)) 1) Q.
Proof.
  revert l1 fuel Q. induction l2 as [|x l2 IH]; intros l1 fuel Q Hd Hf;
    (destruct fuel as [|fuel]; [simpl in Hf; lia|]); iIntros "Hl HQ"; simpl.
  { iApply wp_ret. by iApply "HQ". }
  apply Forall_cons in Hd as [Hx Hd]. destruct (Z.eqb_spec (N2D x) 0); [done|].
  iApply wp_bind. iApply (wp_avl_walk _ _ true with "Hl"). iIntros "Hl".
  iApply wp_bind. iEval (rewrite cons_middle assoc_L) in "Hl".
  iApply (IH (l1 ++ [x]) fuel with "Hl"); [done|simpl in Hf; lia|].
  iIntros "Hl". iApply wp_ret. iApply "HQ". by rewrite -assoc_L.
Qed.

Lemma wp_iterate_before l1 l2 fuel (Q : list Z -> hpropI cell) :
  Forall (fun x => N2D x <> 0) l1 -> (length l1 < fuel)%nat ->
  avl_list tr T (l1 ++ l2) -∗
  (avl_list tr T (l1 ++ l2) -∗ Q (N2D <$> reverse l1)) -∗
  wp (avl_iterate fuel tr (data_or_null T (last l1)) 0) Q.
Proof.
  revert l2 fuel Q. induction l1 as [|x l1 IH] using rev_ind; intros l2 fuel Q Hd Hf;
    (destruct fuel as [|fuel]; [lia|]); iIntros "Hl HQ"; simpl.
  { iApply wp_ret. by iApply "HQ". }
  rewrite last_snoc reverse_snoc /=.
  apply Forall_app in Hd as [Hd [Hx _]%Forall_cons].
  rewrite length_app /= in Hf. destruct (Z.eqb_spec (N2D x) 0); [done|].
  rewrite -assoc_L. iApply wp_bind.
  iApply (wp_avl_walk _ _ false with "Hl"). iIntros "Hl".
  iApply wp_bind. iApply (IH (x :: l2) fuel with "Hl"); [done|lia|].
  iIntros "Hl". iApply wp_ret. by iApply "HQ".
Qed.
End iterate.

Definition walk_both (fuel : nat) (tr : Z) : AM (list Z * list Z) :=
  x ← avl_first tr; fwd ← avl_iterate fuel tr x AVL_AFTER;
  y ← avl_last tr; bwd ← avl_iterate fuel tr y AVL_BEFORE;
  mret (fwd, bwd).

(** Walking from avl_first with AVL_NEXT visits every element of the tree
    once, in increasing order, and then ends; from avl_last with AVL_PREV,
    in decreasing order. *)
Theorem avl_walk_visits_all tr T l fuel :
  Forall (fun x => AVL_NODE2DATA x (avl_offset T) <> 0) l ->
  (length l < fuel)%nat ->
  avl_list tr T l ⊢
  wp (walk_both fuel tr) (fun r =>
    ⌜r = ((fun x => AVL_NODE2DATA x (avl_offset T)) <$> l,
          (fun x => AVL_NODE2DATA x (avl_offset T)) <$> reverse l)⌝ ∧
    avl_list tr T l).
Proof.
  iIntros (Hd Hf) "Hl".
  iApply wp_bind. iApply (wp_avl_first with "Hl"). iIntros "Hl".
  iApply wp_bind. iApply (wp_iterate_after tr T [] l with "Hl"); [done..|]. iIntros "Hl".
  iApply wp_bind. iApply (wp_avl_last with "Hl"). iIntros "Hl".
  iApply wp_bind.
  iAssert (avl_list tr T (l ++ [])) with "[Hl]" as "Hl"; [by rewrite app_nil_r|].
  iApply (wp_iterate_before tr T l [] with "Hl"); [done..|]. iIntros "Hl".
  iApply wp_ret. iSplit; [done|]. by rewrite app_nil_r.
Qed.

Lemma avl_walk_visits_all_witness :
  (exists h, avl_list 8 demo_T [32; 64; 96] h) /\
  (avl_list 8 demo_T [32; 64; 96] ⊢
   wp (walk_both 4 8) (fun r =>
     ⌜r = ([32; 64; 96], [96; 64; 32])⌝ ∧ avl_list 8 demo_T [32; 64; 96])).
Proof.
  split; [apply demo_list|].
  apply (avl_walk_visits_all 8 demo_T); [by repeat constructor|simpl; lia].
Defined.

(** *** Keys that change *)
Inductive update_kind := UpdateAny | UpdateLt | UpdateGt.

Definition update_fn (k : update_kind) call_compar (tr obj tmp : Z) : AM bool :=
  match k with
  | UpdateAny => avl_update call_compar tr obj tmp
  | UpdateLt => avl_update_lt call_compar tr obj tmp
  | UpdateGt => avl_update_gt call_compar tr obj tmp
  end.

(** avl_update_lt is for a key that got smaller, avl_update_gt for one that
    got greater. *)
Definition update_pre (k : update_kind) call_compar T x (l1 l2 : list Z) : Prop :=
  match k with
  | UpdateAny => True
  | UpdateLt => neighbour_test call_compar T (fun c => 0 <? c) x (head l2) = false
  | UpdateGt => neighbour_test call_compar T (fun c => c <? 0) x (last l1) = false
  end.

(** After the key of the datum at [x] changed in place, avl_update (or the
    variant for the direction of the change) restores the order of the whole
    tree, and returns whether it had to move [x]. *)
Theorem avl_update_restores k call_compar tr T l1 x l2 tmp :
  AvlOrder (call_compar (avl_compar T)) -> node_ptr tmp ->
  stale call_compar T x l1 l2 -> update_pre k call_compar T x l1 l2 ->
  let l' := insert_node (call_compar (avl_compar T)) (avl_offset T) x (l1 ++ l2) in
  avl_list tr T (l1 ++ x :: l2) ∗ free_node tmp ⊢
  wp (update_fn k call_compar tr (AVL_NODE2DATA x (avl_offset T)) tmp) (fun r =>
    ⌜sorted_nodes (call_compar (avl_compar T)) (avl_offset T) l' /\
     l' ≡ₚ l1 ++ x :: l2 /\ r = negb (bool_decide (l' = l1 ++ x :: l2))⌝ ∧
    (avl_list tr T l' ∗ free_node tmp)).
Proof.
  intros Ho Htmp Hst Hpre l'. destruct (Hst) as [Hs Hn _].
  assert (H : sorted_nodes (call_compar (avl_compar T)) (avl_offset T) l' /\
    l' ≡ₚ l1 ++ x :: l2).
  { split; [by apply insert_node_sorted|].
    rewrite -Permutation_middle. by apply insert_node_perm. }
  destruct H. iIntros "[Hl Htmp]". destruct k; simpl in *.
  - iApply (wp_avl_update with "Hl Htmp"); [done..|].
    iIntros "Hl Htmp". iSplit; [done|iFrame].
  - iApply (wp_avl_update_lt with "Hl Htmp"); [done..|].
    iIntros "Hl Htmp". iSplit; [done|iFrame].
  - iApply (wp_avl_update_gt with "Hl Htmp"); [done..|].
    iIntros "Hl Htmp". iSplit; [done|iFrame].
Qed.

(** The same three nodes when the key of 64 has become 100 *)
Definition demo_key (z : Z) : Z := if z =? 64 then 100 else z.
Definition demo_compar2 (_ a b : Z) : Z := Z.sgn (demo_key a - demo_key b).
#[export] Instance demo_order2 f : AvlOrder (demo_compar2 f) := key_order demo_key.

Lemma demo_list_tmp :
  exists h, (avl_list 8 demo_T [32; 64; 96] ∗ free_node 16 : hpropI cell)%I h.
Proof.
  eexists. eapply hprop_entails_holds; [|apply (cells_hold
    (filter (fun p => p.1 <> 128) demo_cells))].
  - unfold demo_cells. simpl.
    iIntros "(Ht & H64 & H32 & H96 & H16 & _)".
    iSplitR "H16"; [|by iExists _].
    iExists (AvlTree.T (AvlTree.T E 32 0 E) 64 0 (AvlTree.T E 96 0 E)).
    iSplit; [iPureIntro; split; [done|]; split; [simpl; lia|done]|].
    unfold zip_at, ctx_at. simpl.
    iSplitL "Ht"; [by iFrame|].
    iSplitL "H64"; [|iSplitL "H32"; iSplitL; (try done); iSplit; try done].
    all: iSplit; [iPureIntro; split; [apply demo_node_ptr; lia|split; [done|lia]]|done].
  - apply (bool_decide_unpack _). by vm_compute.
  - by repeat constructor.
Qed.

Lemma avl_update_restores_witness :
  (exists h, (avl_list 8 demo_T [32; 64; 96] ∗ free_node 16 : hpropI cell)%I h) /\
  (avl_list 8 demo_T [32; 64; 96] ∗ free_node 16 ⊢
   wp (avl_update demo_compar2 8 64 16) (fun r =>
    ⌜sorted_nodes (demo_compar2 1) 0 [32; 96; 64] /\
     [32; 96; 64] ≡ₚ [32; 64; 96] /\ r = true⌝ ∧
    (avl_list 8 demo_T [32; 96; 64] ∗ free_node 16))).
Proof.
  split; [apply demo_list_tmp|].
  apply (avl_update_restores UpdateAny demo_compar2 8 demo_T [32] 64 [96] 16);
    [apply demo_order2|apply demo_node_ptr; lia| |done].
  split; [apply (bool_decide_unpack _); by vm_compute|by vm_compute|by repeat constructor].
Defined.

(** avl_insert_here puts the new datum immediately before or after the
    given one, whatever the shape of the tree. *)
Theorem avl_insert_here_adjacent tr T (d : bool) l1 x l2 y :
  node_ptr y -> AVL_NODE2DATA x (avl_offset T) <> 0 -> AVL_NODE2DATA y (avl_offset T) <> 0 ->
  avl_list tr T (l1 ++ x :: l2) ∗ free_node y ⊢
  wp (avl_insert_here tr (AVL_NODE2DATA y (avl_offset T))
        (AVL_NODE2DATA x (avl_offset T)) (Z.b2z d)) (fun _ =>
    avl_list tr T (if d then l1 ++ x :: y :: l2 else l1 ++ y :: x :: l2)).
Proof.
  iIntros (Hy Hx0 Hy0) "[Hl Hy]".
  iApply (wp_avl_insert_here with "Hl Hy"); [done..|]. by iIntros "Hl".
Qed.

Lemma avl_insert_here_adjacent_witness :
  (exists h, (avl_list 8 demo_T [32; 64; 96] ∗ free_node 16 : hpropI cell)%I h) /\
  (avl_list 8 demo_T [32; 64; 96] ∗ free_node 16 ⊢
   wp (avl_insert_here 8 16 64 0) (fun _ => avl_list 8 demo_T [32; 16; 64; 96])).
Proof.
  split; [apply demo_list_tmp|].
  apply (avl_insert_here_adjacent 8 demo_T false [32] 64 [96] 16);
    [apply demo_node_ptr; lia|done|done].
Defined.

Lemma postorder_perm t : postorder t ≡ₚ inorder t.
Proof.
  induction t as [|l IHl x b r IHr]; [done|]. simpl.
  rewrite IHl IHr. by rewrite (comm app (inorder r)).
Qed.

(** The documented way to destroy a tree *)
Definition destroy_tree (fuel : nat) (tr : Z) : AM (list Z) :=
  freed ← destroy_and_free fuel tr 0; avl_destroy tr ;; mret freed.

(** C30. The loop that destroys a tree with avl_destroy_nodes and frees every
    node it is handed terminates, frees each node of the tree exactly once
    and uses none after it was freed; avl_destroy's assertions then hold. *)
Theorem avl_destroy_frees_all tr T l fuel :
  aligned (avl_offset T) ->
  Forall (fun x => AVL_NODE2DATA x (avl_offset T) <> 0) l ->
  (length l < fuel)%nat ->
  avl_list tr T l ⊢
  wp (destroy_tree fuel tr) (fun freed => ⌜freed ≡ₚ l⌝ ∧ avl_list tr T []).
Proof.
  iIntros (Ho Hd Hf) "Hl". iApply wp_bind.
  iApply (wp_wand _ (fun freed => ⌜freed ≡ₚ l⌝ ∧ avl_list tr T [])%I). iSplitL.
  - destruct fuel as [|fuel]; [lia|]. cbn [destroy_and_free]. iApply wp_bind.
    destruct (decide (l = [])) as [->|Hne].
    { iApply (wp_destroy_empty with "Hl"). iIntros "Hl". iApply wp_ret. by iSplit. }
    iApply (wp_destroy_first with "Hl"); [done..|].
    iIntros (t [Ht _] c z Hz) "Hh Hz".
    assert (Hp : z :: pend c ≡ₚ l) by by rewrite Hz postorder_perm Ht.
    rewrite -Hp in Hd. apply Forall_cons in Hd as [Hz0 Hd].
    assert (Hlen : length (z :: pend c) = length l) by by rewrite Hp.
    destruct (Z.eqb_spec (AVL_NODE2DATA z (avl_offset T)) 0); [done|].
    iDestruct "Hh" as "[(%Hv & %Hzp & %Hn) Hc]".
    iApply wp_bind. iApply (wp_load_ctx with "Hc"). iIntros "Hc". cbn [avl_offset].
    rewrite data2node_node2data; [|apply Hzp]. iDestruct "Hz" as (n0) "Hz".
    iApply wp_bind. iApply (wp_free with "Hz").
    iApply wp_bind. iApply (wp_destroy_rest with "[Hc]"); [done|done| |by iSplit|].
    { simpl in Hlen. lia. }
    iIntros "Hl". iApply wp_ret. by iSplit.
  - iIntros (freed) "[%Hp Hl]". iApply wp_bind.
    iApply (wp_avl_destroy with "Hl"). iIntros "Hl". iApply wp_ret. by iSplit.
Qed.

Lemma avl_destroy_frees_all_witness :
  (exists h, avl_list 8 demo_T [32; 64; 96] h) /\
  (avl_list 8 demo_T [32; 64; 96] ⊢
   wp (destroy_tree 4 8) (fun freed => ⌜freed ≡ₚ [32; 64; 96]⌝ ∧ avl_list 8 demo_T [])).
Proof.
  split; [apply demo_list|].
  apply (avl_destroy_frees_all 8 demo_T); [done|by repeat constructor|simpl; lia].
Defined.
