(* ===== verification/Bitset.v ===== *)
(** * cbitset: arrays of 64-bit words used as sets (cbitset-0.2.1)

    src/bitset.c and include/bitset.h.  A bitset owns one heap array; the
    state of a computation is the bitset it modifies (the [b1] of the binary
    operations), and a [const] operand is passed by value. *)

From S2P Require Import Prelude.

(** ** The allocator

    What the [array] field points to.  [ADangling] is a pointer to memory
    that was freed. *)
Inductive arr :=
  | ANull
  | ADangling
  | ABlock (ws : list Z).

(** [struct bitset_s] *)
Record bitset := Bitset {
  array : arr;
  arraysize : Z;
  capacity : Z
}.

Abbreviation BM := (M bitset).

Definition set_array (a : arr) : BM unit :=
  mmodify (fun b => Bitset a (arraysize b) (capacity b)).
Definition set_arraysize (n : Z) : BM unit :=
  mmodify (fun b => Bitset (array b) n (capacity b)).
Definition set_capacity (n : Z) : BM unit :=
  mmodify (fun b => Bitset (array b) (arraysize b) n).

(** [a[k]] *)
Definition arr_get (a : arr) (k : Z) : option Z :=
  match a with ABlock ws => block_get ws k | _ => None end.

(** [bitset->array[k]], read and written *)
Definition rd (k : Z) : BM Z := b ← mget; of_option (arr_get (array b) k).
Definition wr (k w : Z) : BM unit :=
  b ← mget;
  match array b with
  | ABlock ws => ws ← of_option (block_set ws k w); set_array (ABlock ws)
  | _ => mfault
  end.

(** [b2->array[k]] of the second operand *)
Definition rd2 (b2 : bitset) (k : Z) : BM Z := of_option (arr_get (array b2) k).

(** [memset(bitset->array + k, 0, 8 * n)] *)
Definition zero_words (k n : Z) : BM unit :=
  if n =? 0 then mret tt
  else
    b ← mget;
    match array b with
    | ABlock ws =>
        ws ← of_option (block_write ws k (replicate (Z.to_nat n) 0));
        set_array (ABlock ws)
    | _ => mfault
    end.

(** [free(bitset->array)]; the field keeps its value. *)
Definition free_array : BM unit :=
  b ← mget;
  match array b with
  | ANull => mret tt
  | ABlock _ => set_array ADangling
  | ADangling => mfault
  end.

(** ** Compiler built-ins *)
Definition popcount (w : Z) : Z :=
  foldr (fun i acc => Z.b2z (Z.testbit w (Z.of_nat i)) + acc) 0 (seq 0 64).

(** [__builtin_ctzll]; undefined at 0 *)
Definition ctz (w : Z) : Z := match w with Zpos p => pos_ctz p | _ => 0 end.
(** [__builtin_clzll]; undefined at 0 *)
Definition clz (w : Z) : Z := 63 - Z.log2 w.

Definition not64 (w : Z) : Z := Z.lxor w (Z.ones 64).

(** [sizeof(uint64_t) * n] bytes, and the words an allocation holds *)
Definition bytes (n : Z) : Z := usz (8 * n).
Definition words (b : Z) : nat := Z.to_nat (b / 8).

Section bitset.
(** Whether the allocator can serve a request for that many bytes, and what
    the memory it returns contains. *)
Context (alloc_ok : Z -> bool) (garbage : nat -> list Z).

(** [malloc(n)]; the result is [None] for [NULL]. *)
Definition malloc_words (n : Z) : option (list Z) :=
  if alloc_ok n then Some (take (words n) (garbage (words n))) else None.

(** [calloc(n, 8)] *)
Definition calloc_words (n : Z) : option (list Z) :=
  if alloc_ok (8 * n) then Some (replicate (Z.to_nat n) 0) else None.

(** [realloc(bitset->array, n)]: on success the old contents up to the
    smaller size; on failure [NULL], the old block untouched.  A request for
    0 bytes frees the block and returns [NULL] (glibc). *)
Definition realloc_array (n : Z) : BM (option (list Z)) :=
  b ← mget;
  match array b with
  | ADangling => mfault
  | ANull => mret (malloc_words n)
  | ABlock ws =>
      if n =? 0 then set_array ADangling ;; mret None
      else if alloc_ok n then
        set_array ADangling ;;
        mret (Some (take (words n) (ws ++ drop (length ws) (garbage (words n)))))
      else mret None
  end.

(** ** Creation *)
Definition bitset_create : option bitset :=
  if alloc_ok 24 then Some (Bitset ANull 0 0) else None.

Definition bitset_create_with_capacity (size : Z) : option bitset :=
  if alloc_ok 24 then
    let n := usz (size + 64 - 1) / 64 in
    match calloc_words n with
    | Some ws => Some (Bitset (ABlock ws) n n)
    | None => None
    end
  else None.

Definition bitset_copy (b : bitset) : res (option bitset) :=
  if alloc_ok 24 then
    match malloc_words (bytes (arraysize b)) with
    | None => Ret None
    | Some ws =>
        if arraysize b =? 0 then Ret (Some (Bitset (ABlock ws) 0 0))
        else
          match array b with
          | ABlock src =>
              match block_read src 0 (arraysize b) with
              | Some d =>
                  match block_write ws 0 d with
                  | Some ws => Ret (Some (Bitset (ABlock ws) (arraysize b) (arraysize b)))
                  | None => Fault
                  end
              | None => Fault
              end
          | _ => Fault
          end
    end
  else Ret None.

Definition bitset_free : BM unit := free_array.

Definition bitset_clear : BM unit :=
  b ← mget; zero_words 0 (arraysize b).

(** ** Sizes *)
Definition bitset_size_in_bytes (b : bitset) : Z := usz (arraysize b * 8).
Definition bitset_size_in_bits (b : bitset) : Z := usz (arraysize b * 64).
Definition bitset_size_in_words (b : bitset) : Z := arraysize b.

(** [if (bitset->capacity < newarraysize) { ... }] of grow and resize: the
    result is false where the C code returns false. *)
Definition ensure_capacity (newarraysize : Z) : BM bool :=
  b ← mget;
  if capacity b <? newarraysize then
    set_capacity (usz (newarraysize * 2)) ;;
    b ← mget;
    newarray ← realloc_array (bytes (capacity b));
    match newarray with
    | None => free_array ;; mret false
    | Some ws => set_array (ABlock ws) ;; mret true
    end
  else mret true.

Definition bitset_grow (newarraysize : Z) : BM bool :=
  ok ← ensure_capacity newarraysize;
  if negb ok then mret false
  else
    b ← mget;
    zero_words (arraysize b) (usz (newarraysize - arraysize b)) ;;
    set_arraysize newarraysize ;;
    mret true.

Definition bitset_resize (newarraysize : Z) (padwithzeroes : bool) : BM bool :=
  b ← mget;
  let smallest := if newarraysize <? arraysize b then newarraysize else arraysize b in
  ok ← ensure_capacity newarraysize;
  if negb ok then mret false
  else
    mwhen (padwithzeroes && (smallest <? newarraysize))
      (zero_words smallest (newarraysize - smallest)) ;;
    set_arraysize newarraysize ;;
    mret true.

Fixpoint trim_loop (newsize : nat) : BM Z :=
  match newsize with
  | O => mret 0
  | S n =>
      w ← rd (Z.of_nat n);
      if w =? 0 then trim_loop n else mret (Z.of_nat newsize)
  end.

Definition bitset_trim : BM bool :=
  b ← mget;
  newsize ← trim_loop (Z.to_nat (arraysize b));
  if capacity b =? newsize then mret true
  else
    set_capacity newsize ;;
    set_arraysize newsize ;;
    newarray ← realloc_array (bytes newsize);
    match newarray with
    | None => free_array ;; mret false
    | Some ws => set_array (ABlock ws) ;; mret true
    end.

(** ** Single bits *)
Definition bitset_set (i : Z) : BM unit :=
  let shiftedi := Z.shiftr i 6 in
  b ← mget;
  ok ← (if arraysize b <=? shiftedi then bitset_grow (shiftedi + 1) else mret true);
  if negb ok then mret tt
  else
    w ← rd shiftedi;
    wr shiftedi (Z.lor w (u64 (Z.shiftl 1 (i mod 64)))).

Definition bitset_set_to_value (i : Z) (flag : bool) : BM unit :=
  let shiftedi := Z.shiftr i 6 in
  let mask := u64 (Z.shiftl 1 (i mod 64)) in
  let dynmask := u64 (Z.shiftl (Z.b2z flag) (i mod 64)) in
  b ← mget;
  ok ← (if arraysize b <=? shiftedi then bitset_grow (shiftedi + 1) else mret true);
  if negb ok then mret tt
  else
    w ← rd shiftedi;
    wr shiftedi (Z.lor (Z.land w (not64 mask)) dynmask).

Definition bitset_get (i : Z) : BM bool :=
  let shiftedi := Z.shiftr i 6 in
  b ← mget;
  if arraysize b <=? shiftedi then mret false
  else
    w ← rd shiftedi;
    mret (negb (Z.land w (u64 (Z.shiftl 1 (i mod 64))) =? 0)).
End bitset.

(** ** Counting *)

(** [for (; k + stride - 1 < n; k += stride) answer += f(k) + ...], with the
    loop body unrolled [stride] times. *)
Fixpoint sum_block (f : Z -> BM Z) (stride : nat) (k card : Z) : BM Z :=
  match stride with
  | O => mret card
  | S s => w ← f k; sum_block f s (k + 1) (usz (card + w))
  end.

Fixpoint count_loop (fuel : nat) (f : Z -> BM Z) (stride : nat) (n k card : Z)
    : BM (Z * Z) :=
  match fuel with
  | O => mnofuel
  | S fuel' =>
      if usz (k + Z.of_nat stride - 1) <? n then
        card ← sum_block f stride k card;
        count_loop fuel' f stride n (k + Z.of_nat stride) card
      else mret (k, card)
  end.

(** [__builtin_popcountll] of a word of [b1], of [b2], or of both combined *)
Definition pop1 (k : Z) : BM Z := w ← rd k; mret (popcount w).
Definition pop2 (b2 : bitset) (k : Z) : BM Z := w ← rd2 b2 k; mret (popcount w).
Definition pop12 (op : Z -> Z -> Z) (b2 : bitset) (k : Z) : BM Z :=
  w1 ← rd k; w2 ← rd2 b2 k; mret (popcount (op w1 w2)).

Definition bitset_count : BM Z :=
  b ← mget;
  let n := arraysize b in let fuel := S (Z.to_nat n) in
  '(k, card) ← count_loop fuel pop1 8 n 0 0;
  '(k, card) ← count_loop fuel pop1 4 n k card;
  '(k, card) ← count_loop fuel pop1 1 n k card;
  mret card.

Definition minlength (b1 b2 : bitset) : Z :=
  if arraysize b1 <? arraysize b2 then arraysize b1 else arraysize b2.

Definition bitset_union_count (b2 : bitset) : BM Z :=
  b1 ← mget;
  let fuel := S (Z.to_nat (arraysize b1) + Z.to_nat (arraysize b2)) in
  '(k, answer) ← count_loop fuel (pop12 Z.lor b2) 4 (minlength b1 b2) 0 0;
  '(k, answer) ← count_loop fuel (pop12 Z.lor b2) 1 (minlength b1 b2) k answer;
  if arraysize b1 <? arraysize b2 then
    '(k, answer) ← count_loop fuel (pop2 b2) 4 (arraysize b2) k answer;
    '(k, answer) ← count_loop fuel (pop2 b2) 1 (arraysize b2) k answer;
    mret answer
  else
    '(k, answer) ← count_loop fuel pop1 4 (arraysize b1) k answer;
    '(k, answer) ← count_loop fuel pop1 1 (arraysize b1) k answer;
    mret answer.

Definition bitset_intersection_count (b2 : bitset) : BM Z :=
  b1 ← mget;
  let fuel := S (Z.to_nat (arraysize b1) + Z.to_nat (arraysize b2)) in
  '(k, answer) ← count_loop fuel (pop12 Z.land b2) 1 (minlength b1 b2) 0 0;
  mret answer.

(** [w1 & ~w2] *)
Definition andnot (w1 w2 : Z) : Z := Z.land w1 (not64 w2).

Definition bitset_difference_count (b2 : bitset) : BM Z :=
  b1 ← mget;
  let fuel := S (Z.to_nat (arraysize b1) + Z.to_nat (arraysize b2)) in
  '(k, answer) ← count_loop fuel (pop12 andnot b2) 1 (minlength b1 b2) 0 0;
  '(k, answer) ← count_loop fuel pop1 1 (arraysize b1) k answer;
  mret answer.

Definition bitset_symmetric_difference_count (b2 : bitset) : BM Z :=
  b1 ← mget;
  let fuel := S (Z.to_nat (arraysize b1) + Z.to_nat (arraysize b2)) in
  '(k, answer) ← count_loop fuel (pop12 Z.lxor b2) 1 (minlength b1 b2) 0 0;
  if arraysize b1 <? arraysize b2 then
    '(k, answer) ← count_loop fuel (pop2 b2) 1 (arraysize b2) k answer;
    mret answer
  else
    '(k, answer) ← count_loop fuel pop1 1 (arraysize b1) k answer;
    mret answer.

(** ** Extremes *)
Fixpoint minimum_loop (n : nat) (k : Z) : BM Z :=
  match n with
  | O => mret 0
  | S n' =>
      w ← rd k;
      if negb (w =? 0) then mret (usz (ctz w + k * 64)) else minimum_loop n' (k + 1)
  end.
Definition bitset_minimum : BM Z :=
  b ← mget; minimum_loop (Z.to_nat (arraysize b)) 0.

Fixpoint maximum_loop (k : nat) : BM Z :=
  match k with
  | O => mret 0
  | S k' =>
      w ← rd (Z.of_nat k');
      if negb (w =? 0) then mret (usz (63 - clz w + Z.of_nat k' * 64))
      else maximum_loop k'
  end.
Definition bitset_maximum : BM Z :=
  b ← mget; maximum_loop (Z.to_nat (arraysize b)).

(** ** Comparisons *)

(** Whether [(b1[j] & b2[j]) != 0] for some [j] in [k, k + n) *)
Fixpoint common_loop (n : nat) (k : Z) (b2 : bitset) : BM bool :=
  match n with
  | O => mret false
  | S n' =>
      w1 ← rd k; w2 ← rd2 b2 k;
      if negb (Z.land w1 w2 =? 0) then mret true else common_loop n' (k + 1) b2
  end.

Definition bitsets_disjoint (b2 : bitset) : BM bool :=
  b1 ← mget;
  c ← common_loop (Z.to_nat (minlength b1 b2)) 0 b2; mret (negb c).

Definition bitsets_intersect (b2 : bitset) : BM bool :=
  b1 ← mget; common_loop (Z.to_nat (minlength b1 b2)) 0 b2.

Fixpoint any_loop (n : nat) (k : Z) (b : bitset) : BM bool :=
  match n with
  | O => mret false
  | S n' => w ← rd2 b k; if negb (w =? 0) then mret true else any_loop n' (k + 1) b
  end.

Definition any_bits_set (b : bitset) (starting_loc : Z) : BM bool :=
  if arraysize b <=? starting_loc then mret false
  else any_loop (Z.to_nat (arraysize b - starting_loc)) starting_loc b.

(** The loop of [bitset_contains_all] over the words of [b1] *)
Fixpoint contains_loop (n : nat) (k : Z) (b2 : bitset) : BM bool :=
  match n with
  | O => mret true
  | S n' =>
      w1 ← rd k; w2 ← rd2 b2 k;
      if negb (Z.land w1 w2 =? w2) then mret false else contains_loop n' (k + 1) b2
  end.

Definition bitset_contains_all (b2 : bitset) : BM bool :=
  b1 ← mget;
  ok ← contains_loop (Z.to_nat (arraysize b1)) 0 b2;
  if negb ok then mret false
  else if arraysize b1 <? arraysize b2 then
    any ← any_bits_set b2 (arraysize b1); mret (negb any)
  else mret true.

(** ** Iteration *)

(** [while (x < bitset->arraysize)] of [nextSetBit] *)
Fixpoint next_loop (n : nat) (x : Z) : BM (option Z) :=
  match n with
  | O => mret None
  | S n' =>
      w ← rd x;
      if negb (w =? 0) then mret (Some (usz (x * 64 + ctz w)))
      else next_loop n' (x + 1)
  end.

(** [Some i'] when the C function stores [i'] and returns true *)
Definition nextSetBit (i : Z) : BM (option Z) :=
  b ← mget;
  let x := Z.shiftr i 6 in
  if arraysize b <=? x then mret None
  else
    w ← rd x;
    let w := Z.shiftr w (Z.land i 63) in
    if negb (w =? 0) then mret (Some (usz (i + ctz w)))
    else next_loop (Z.to_nat (arraysize b - (x + 1))) (x + 1).

(** [for (i = 0; nextSetBit(b, &i); i++) visit(i)], the loop of the header's
    comment and of [bitset_print]: the indices visited. *)
Fixpoint bitset_print (fuel : nat) (i : Z) (seen : list Z) : BM (list Z) :=
  match fuel with
  | O => mnofuel
  | S fuel' =>
      r ← nextSetBit i;
      match r with
      | Some i' => bitset_print fuel' (usz (i' + 1)) (seen ++ [i'])
      | None => mret seen
      end
  end.

(** [while (w != 0)] of [nextSetBits]: the bits of [w] appended to [buffer],
    and whether the buffer is full. *)
Fixpoint bits_loop (fuel : nat) (w base cap : Z) (buffer : list Z)
    : BM (list Z * bool) :=
  match fuel with
  | O => mnofuel
  | S fuel' =>
      if w =? 0 then mret (buffer, false)
      else
        let t := Z.land w (u64 (not64 w + 1)) in
        let buffer := buffer ++ [usz (ctz w + base)] in
        if Z.of_nat (length buffer) =? cap then mret (buffer, true)
        else bits_loop fuel' (Z.lxor w t) base cap buffer
  end.

Fixpoint words_loop (fuel : nat) (w x base cap : Z) (buffer : list Z) : BM (list Z) :=
  match fuel with
  | O => mnofuel
  | S fuel' =>
      if Z.of_nat (length buffer) <? cap then
        '(buffer, full) ← bits_loop 65 w base cap buffer;
        if full : bool then mret buffer
        else
          b ← mget;
          let x := x + 1 in
          if x =? arraysize b then mret buffer
          else w ← rd x; words_loop fuel' w x (usz (base + 64)) cap buffer
      else mret buffer
  end.

(** The indices stored in [buffer] and the new value of [*startfrom] *)
Definition nextSetBits (cap startfrom : Z) : BM (list Z * Z) :=
  if cap =? 0 then mret ([], startfrom)
  else
    b ← mget;
    let x := Z.shiftr startfrom 6 in
    if arraysize b <=? x then mret ([], startfrom)
    else
      w ← rd x;
      let w := Z.shiftr w (Z.land startfrom 63) in
      buffer ← words_loop (Z.to_nat (arraysize b)) w x (Z.shiftl x 6) cap [];
      mret (buffer, default startfrom (last buffer)).

(** [bitset_for_each] with an iterator that logs what it is called with and
    stops where [stop] says so: the log, and whether it was uninterrupted. *)
Fixpoint each_bits (fuel : nat) (stop : Z -> bool) (w base : Z) (log : list Z)
    : BM (list Z * bool) :=
  match fuel with
  | O => mnofuel
  | S fuel' =>
      if w =? 0 then mret (log, true)
      else
        let t := Z.land w (u64 (not64 w + 1)) in
        let v := usz (ctz w + base) in
        if stop v then mret (log ++ [v], false)
        else each_bits fuel' stop (Z.lxor w t) base (log ++ [v])
  end.

Fixpoint each_words (n : nat) (stop : Z -> bool) (i base : Z) (log : list Z)
    : BM (list Z * bool) :=
  match n with
  | O => mret (log, true)
  | S n' =>
      w ← rd i;
      '(log, ok) ← each_bits 65 stop w base log;
      if ok : bool then each_words n' stop (i + 1) (usz (base + 64)) log
      else mret (log, false)
  end.

Definition bitset_for_each (stop : Z -> bool) : BM (list Z * bool) :=
  b ← mget; each_words (Z.to_nat (arraysize b)) stop 0 0 [].

(** ** Operations on whole sets *)

(** [memcpy(b1->array + k, b2->array + k, 8 * n)] *)
Definition copy_words (b2 : bitset) (k n : Z) : BM unit :=
  b1 ← mget;
  match array b1, array b2 with
  | ABlock ws1, ABlock ws2 =>
      src ← of_option (block_read ws2 k n);
      ws ← of_option (block_write ws1 k src);
      set_array (ABlock ws)
  | _, _ => mfault
  end.

(** [for (k = 0; k < minlength; ++k) b1->array[k] = op(b1->array[k], b2->array[k])] *)
Definition combine_words (op : Z -> Z -> Z) (b2 : bitset) : BM unit :=
  b1 ← mget;
  mfor (Z.to_nat (minlength b1 b2)) 0
    (fun k => w1 ← rd k; w2 ← rd2 b2 k; wr k (op w1 w2)).

Definition bitset_inplace_intersection (b2 : bitset) : BM unit :=
  b1 ← mget;
  combine_words Z.land b2 ;;
  mfor (Z.to_nat (arraysize b1 - minlength b1 b2)) (minlength b1 b2) (fun k => wr k 0).

Definition bitset_inplace_difference (b2 : bitset) : BM unit :=
  combine_words andnot b2.

(** [for (i = from; ...; i--) body(i)], [n] times *)
Fixpoint down_loop (n : nat) (i : Z) (body : Z -> BM unit) : BM unit :=
  match n with
  | O => mret tt
  | S n' => body i ;; down_loop n' (i - 1) body
  end.

(** [for (i = 0; i < n; i++) body(i)] *)
Fixpoint up_loop (fuel : nat) (i n : Z) (body : Z -> BM unit) : BM unit :=
  match fuel with
  | O => mnofuel
  | S fuel' => if i <? n then body i ;; up_loop fuel' (i + 1) n body else mret tt
  end.

Section bitset_resizing.
Context (alloc_ok : Z -> bool) (garbage : nat -> list Z).
Abbreviation resize := (bitset_resize alloc_ok garbage).

Definition append_words (b2 : bitset) : BM bool :=
  b1 ← mget;
  if arraysize b1 <? arraysize b2 then
    let oldsize := arraysize b1 in
    ok ← resize (arraysize b2) false;
    if negb ok then mret false
    else copy_words b2 oldsize (arraysize b2 - oldsize) ;; mret true
  else mret true.

Definition bitset_inplace_union (b2 : bitset) : BM bool :=
  combine_words Z.lor b2 ;; append_words b2.

Definition bitset_inplace_symmetric_difference (b2 : bitset) : BM bool :=
  combine_words Z.lxor b2 ;; append_words b2.

Definition bitset_shift_left (s : Z) : BM unit :=
  let extra_words := s / 64 in
  let inword_shift := s mod 64 in
  b ← mget;
  let as_ := arraysize b in
  (if inword_shift =? 0 then
     resize (usz (as_ + extra_words)) false ;;
     down_loop (Z.to_nat as_) (usz (as_ + extra_words)) (fun i =>
       w ← rd (i - 1 - extra_words); wr (i - 1) w)
   else
     resize (usz (as_ + extra_words + 1)) true ;;
     w ← rd (usz (as_ - 1));
     wr (usz (as_ + extra_words)) (Z.shiftr w (64 - inword_shift)) ;;
     down_loop (Z.to_nat (as_ - 1)) (usz (as_ + extra_words)) (fun i =>
       hi ← rd (i - 1 - extra_words);
       lo ← rd (i - 2 - extra_words);
       wr (i - 1) (Z.lor (u64 (Z.shiftl hi inword_shift))
                         (Z.shiftr lo (64 - inword_shift)))) ;;
     w ← rd 0;
     wr extra_words (u64 (Z.shiftl w inword_shift))) ;;
  mfor (Z.to_nat extra_words) 0 (fun i => wr i 0).

Definition bitset_shift_right (s : Z) : BM unit :=
  let extra_words := s / 64 in
  let inword_shift := s mod 64 in
  b ← mget;
  let as_ := arraysize b in
  let fuel := S (Z.to_nat (capacity b)) in
  if inword_shift =? 0 then
    up_loop fuel 0 (usz (as_ - extra_words)) (fun i =>
      w ← rd (i + extra_words); wr i w) ;;
    resize (usz (as_ - extra_words)) false ;; mret tt
  else
    up_loop fuel 0 (as_ - extra_words - 1) (fun i =>
      lo ← rd (i + extra_words);
      hi ← rd (i + extra_words + 1);
      wr i (Z.lor (Z.shiftr lo inword_shift)
                  (u64 (Z.shiftl hi (64 - inword_shift))))) ;;
    w ← rd (usz (as_ - 1));
    wr (usz (as_ - extra_words - 1)) (Z.shiftr w inword_shift) ;;
    resize (usz (as_ - extra_words)) false ;; mret tt.
End bitset_resizing.
