(* ===== verification/BitsetWords.v ===== *)
(** * Lists of words as numbers

    The abstract value of a bitset is one natural number: bit [i] is set
    when [i] is a member.  A list of words is that number in base 2^64, so
    the set operations are the bitwise operations of [Z]. *)

From S2P Require Import Prelude Bitset.

Fixpoint wval (ws : list Z) : Z :=
  match ws with [] => 0 | w :: ws => w + 2 ^ 64 * wval ws end.

(** Bit [i] of a list of words *)
Definition wbit (ws : list Z) (i : Z) : bool :=
  Z.testbit (default 0 (ws !! Z.to_nat (i / 64))) (i mod 64).

Abbreviation word := (in_width 64).

(** The members below [n], in increasing order *)
Definition members (n : Z) (v : Z) : list Z :=
  filter (fun i => Z.testbit v i = true) (seqZ 0 n).

(** ** Bits *)
Lemma wval_nonneg ws : Forall word ws -> 0 <= wval ws.
Proof. induction 1 as [|w ws [Hw _] _ IH]; simpl; lia. Qed.

Lemma wval_lt ws : Forall word ws -> wval ws < 2 ^ (64 * Z.of_nat (length ws)).
Proof.
  induction 1 as [|w ws [Hw Hw'] Hws IH]; [done|]. cbn [wval length].
  replace (64 * Z.of_nat (S (length ws))) with (64 + 64 * Z.of_nat (length ws)) by lia.
  rewrite Z.pow_add_r by lia. pose proof (wval_nonneg ws Hws). nia.
Qed.

Lemma wval_app ws1 ws2 :
  wval (ws1 ++ ws2) = wval ws1 + 2 ^ (64 * Z.of_nat (length ws1)) * wval ws2.
Proof.
  induction ws1 as [|w ws1 IH]; [cbn [wval app length]; lia|].
  cbn [wval app length]. rewrite IH.
  replace (64 * Z.of_nat (S (length ws1))) with (64 + 64 * Z.of_nat (length ws1)) by lia.
  rewrite Z.pow_add_r by lia. ring.
Qed.

Lemma wval_zeros n : wval (replicate n 0) = 0.
Proof. induction n; cbn [wval replicate]; lia. Qed.

Lemma wval_app_zeros ws n : wval (ws ++ replicate n 0) = wval ws.
Proof. rewrite wval_app, wval_zeros. lia. Qed.

(** [w + 2^64 v] has the bits of [w] below 64 and those of [v] above. *)
Lemma testbit_cons w v i :
  word w -> 0 <= i ->
  Z.testbit (w + 2 ^ 64 * v) i =
    if i <? 64 then Z.testbit w i else Z.testbit v (i - 64).
Proof.
  intros Hw Hi. destruct (Z.ltb_spec i 64) as [H|H].
  - rewrite <- (Z.mod_pow2_bits_low _ 64 i) by lia.
    rewrite Z.mul_comm, Z.mod_add by done.
    f_equal. apply Z.mod_small. apply Hw.
  - replace i with (i - 64 + 64) at 1 by lia.
    rewrite <- Z.div_pow2_bits by lia.
    rewrite Z.mul_comm, Z.div_add by done.
    f_equal. rewrite (Z.div_small w) by apply Hw. lia.
Qed.

Lemma wbit_cons_low w ws i : 0 <= i < 64 -> wbit (w :: ws) i = Z.testbit w i.
Proof.
  intros Hi. unfold wbit. rewrite Z.div_small, Z.mod_small by lia. done.
Qed.

Lemma wbit_cons_high w ws i : 64 <= i -> wbit (w :: ws) i = wbit ws (i - 64).
Proof.
  intros Hi. unfold wbit. replace i with (i - 64 + 1 * 64) at 1 2 by lia.
  rewrite Z.div_add, Z.mod_add by lia.
  rewrite Z2Nat.inj_add by (try apply Z.div_pos; lia).
  rewrite Nat.add_comm. done.
Qed.

Lemma wval_testbit ws i :
  Forall word ws -> 0 <= i -> Z.testbit (wval ws) i = wbit ws i.
Proof.
  intros Hws. revert i. induction Hws as [|w ws Hw Hws IH]; intros i Hi.
  - unfold wbit. simpl. by rewrite !Z.bits_0.
  - cbn [wval]. rewrite testbit_cons by done. destruct (Z.ltb_spec i 64) as [H|H].
    + by rewrite wbit_cons_low.
    + by rewrite IH, wbit_cons_high by lia.
Qed.

Lemma wbit_beyond ws i :
  64 * Z.of_nat (length ws) <= i -> wbit ws i = false.
Proof.
  intros Hi. unfold wbit. rewrite lookup_ge_None_2; [apply Z.bits_0|].
  assert (Z.of_nat (length ws) <= i / 64) by (apply Z.div_le_lower_bound; lia). lia.
Qed.

(** Two lists of words with the same bits have the same value. *)
Lemma wval_bits ws v :
  Forall word ws -> (forall i, 0 <= i -> wbit ws i = Z.testbit v i) -> wval ws = v.
Proof.
  intros Hws H. apply Z.bits_inj'. intros i Hi. by rewrite wval_testbit, H.
Qed.

Lemma word_bit_high w i : word w -> 64 <= i -> Z.testbit w i = false.
Proof. intros. by apply (testbit_above_width 64). Qed.

Lemma lookup_word ws k w : Forall word ws -> ws !! k = Some w -> word w.
Proof. intros H E. by eapply Forall_lookup_1. Qed.

Lemma default_word ws k : Forall word ws -> word (default 0 (ws !! k)).
Proof.
  intros H. destruct (ws !! k) eqn:E; [by eapply lookup_word|]. by split.
Qed.

(** ** Words *)
Lemma word_mod_bound i : 0 <= i mod 64 < 64.
Proof. by apply Z.mod_pos_bound. Qed.

Lemma word_bit i : 0 <= i < 64 -> u64 (Z.shiftl 1 i) = Z.shiftl 1 i.
Proof.
  intros Hi. apply wrap_small. rewrite Z.shiftl_mul_pow2, Z.mul_1_l by lia.
  split; [apply Z.pow_nonneg; lia|apply Z.pow_lt_mono_r; lia].
Qed.

Lemma testbit_one_shifted i k :
  0 <= i -> 0 <= k -> Z.testbit (Z.shiftl 1 i) k = (k =? i).
Proof.
  intros Hi Hk. rewrite Z.shiftl_1_l, Z.pow2_bits_eqb by done. apply Z.eqb_sym.
Qed.

Lemma testbit_not64 w k : 0 <= k < 64 -> Z.testbit (not64 w) k = negb (Z.testbit w k).
Proof.
  intros Hk. unfold not64. rewrite Z.lxor_spec, Z.ones_spec_low by lia.
  apply xorb_true_r.
Qed.

Lemma lor_word a b : word a -> word b -> word (Z.lor a b).
Proof. intros. by apply lor_bound. Qed.

Lemma land_word a b : word a -> 0 <= b -> word (Z.land a b).
Proof.
  intros [Ha Ha'] Hb. assert (0 <= Z.land a b) by (apply Z.land_nonneg; lia).
  split; [done|]. apply lt_pow2_of_bits; [done..|]. intros i Hi.
  by rewrite Z.land_spec, word_bit_high.
Qed.

Lemma lxor_word a b : word a -> word b -> word (Z.lxor a b).
Proof.
  intros Ha Hb. assert (0 <= Z.lxor a b) by (apply Z.lxor_nonneg; destruct Ha, Hb; lia).
  split; [done|]. apply lt_pow2_of_bits; [done..|]. intros i Hi.
  by rewrite Z.lxor_spec, !word_bit_high.
Qed.

Lemma not64_nonneg w : 0 <= w -> 0 <= not64 w.
Proof. intros. unfold not64. apply Z.lxor_nonneg. done. Qed.

Lemma shiftr_word a k : word a -> 0 <= k -> word (Z.shiftr a k).
Proof.
  intros [Ha Ha'] Hk. rewrite Z.shiftr_div_pow2 by done.
  assert (0 < 2 ^ k) by (apply Z.pow_pos_nonneg; lia).
  split; [apply Z.div_pos; lia|].
  assert (a / 2 ^ k <= a) by (apply Z.div_le_upper_bound; nia). lia.
Qed.

Lemma u64_word z : word (u64 z).
Proof. by apply wrap_bounds. Qed.
#[export] Hint Resolve lor_word lxor_word shiftr_word u64_word : userland.

(** ** Members *)
Lemma elem_of_members n v i :
  i ∈ members n v <-> 0 <= i < n /\ Z.testbit v i = true.
Proof.
  unfold members. rewrite list_elem_of_filter, elem_of_seqZ. split; intros [? ?]; split; lia || done.
Qed.

Lemma members_app n1 n2 v :
  0 <= n1 -> 0 <= n2 ->
  members (n1 + n2) v = members n1 v ++ filter (fun i => Z.testbit v i = true) (seqZ n1 n2).
Proof. intros. unfold members. by rewrite seqZ_app, filter_app by lia. Qed.

Lemma filter_seqZ_shift (P Q : Z -> Prop) `{!forall i, Decision (P i), !forall i, Decision (Q i)} k n :
  (forall i, 0 <= i < n -> P (k + i) <-> Q i) ->
  filter P (seqZ k n) = (fun i => k + i) <$> filter Q (seqZ 0 n).
Proof.
  intros HPQ. replace k with (k + 0) at 1 by lia. rewrite <- fmap_add_seqZ.
  assert (Hin : forall i, i ∈ seqZ 0 n -> P (k + i) <-> Q i).
  { intros i Hi%elem_of_seqZ. apply HPQ. lia. }
  revert Hin. generalize (seqZ 0 n). intros l Hl.
  induction l as [|i l IH]; [done|].
  cbn [fmap list_fmap]. rewrite !filter_cons. specialize (IH ltac:(set_solver)).
  assert (P (k + i) <-> Q i) by (apply Hl; set_solver).
  destruct (decide (P (k + i))), (decide (Q i)); try tauto.
  cbn [fmap list_fmap]. by f_equal.
Qed.

Lemma filter_seqZ_ext (P Q : Z -> Prop) `{!forall i, Decision (P i), !forall i, Decision (Q i)} k n :
  (forall i, k <= i < k + n -> P i <-> Q i) ->
  filter P (seqZ k n) = filter Q (seqZ k n).
Proof.
  intros HPQ. rewrite (filter_seqZ_shift P (fun i => Q (k + i))) by (intros; apply HPQ; lia).
  by rewrite (filter_seqZ_shift Q (fun i => Q (k + i))) by done.
Qed.

Lemma filter_seqZ_none (P : Z -> Prop) `{!forall i, Decision (P i)} k n :
  (forall i, k <= i < k + n -> ~ P i) -> filter P (seqZ k n) = [].
Proof.
  intros HP. rewrite (filter_seqZ_ext P (fun _ => False)) by (intros; by split; [apply HP|]).
  generalize (seqZ k n). induction l as [|i l IH]; [done|].
  rewrite filter_cons_False by tauto. apply IH.
Qed.

Lemma members_ext n v v' :
  (forall i, 0 <= i < n -> Z.testbit v i = Z.testbit v' i) -> members n v = members n v'.
Proof. intros H. apply filter_seqZ_ext. intros i Hi. rewrite H by lia. done. Qed.

Lemma members_cons w v n :
  word w -> 0 <= n ->
  members (64 + n) (w + 2 ^ 64 * v) = members 64 w ++ ((fun i => 64 + i) <$> members n v).
Proof.
  intros Hw Hn. rewrite members_app by lia. f_equal.
  - apply members_ext. intros i Hi. rewrite testbit_cons by (done || lia).
    destruct (Z.ltb_spec i 64); [done|lia].
  - apply filter_seqZ_shift. intros i Hi. rewrite testbit_cons by (done || lia).
    destruct (Z.ltb_spec (64 + i) 64); [lia|]. by replace (64 + i - 64) with i by lia.
Qed.

Lemma members_zeros n m v :
  0 <= n -> n <= m -> (forall i, n <= i < m -> Z.testbit v i = false) ->
  members m v = members n v.
Proof.
  intros Hn Hm H. replace m with (n + (m - n)) by lia. rewrite members_app by lia.
  rewrite filter_seqZ_none, app_nil_r; [done|].
  intros i Hi. rewrite H by lia. done.
Qed.

(** ** Counting bits *)
Lemma foldr_count (f : nat -> bool) l :
  foldr (fun i acc => Z.b2z (f i) + acc) 0 l =
    Z.of_nat (length (filter (fun i => f i = true) l)).
Proof.
  induction l as [|i l IH]; [done|]. cbn [foldr]. rewrite IH, filter_cons.
  destruct (f i) eqn:E; case_decide; simpl; lia || congruence.
Qed.

Lemma popcount_members w : popcount w = Z.of_nat (length (members 64 w)).
Proof.
  unfold popcount. rewrite (foldr_count (fun i => Z.testbit w (Z.of_nat i))).
  f_equal. unfold members, seqZ. change (Z.to_nat 64) with 64%nat.
  generalize (seq 0 64). intros l. induction l as [|i l IH]; [done|].
  cbn [fmap list_fmap]. rewrite !filter_cons. rewrite Z.add_0_r.
  case_decide; simpl; [f_equal|]; done.
Qed.

Lemma length_members_le n v : 0 <= n -> Z.of_nat (length (members n v)) <= n.
Proof.
  intros Hn. unfold members.
  pose proof (length_filter (fun i => Z.testbit v i = true) (seqZ 0 n)) as H.
  rewrite length_seqZ in H. lia.
Qed.

Lemma popcount_bound w : 0 <= popcount w <= 64.
Proof. rewrite popcount_members. pose proof (length_members_le 64 w). lia. Qed.

(** ** The lowest set bit *)
Lemma pos_ctz_nonneg p : 0 <= pos_ctz p.
Proof. induction p; simpl; lia. Qed.

Lemma pos_ctz_bit p : Z.testbit (Zpos p) (pos_ctz p) = true.
Proof.
  induction p as [p IH|p IH|]; [done| |done].
  cbn [pos_ctz]. rewrite Pos2Z.inj_xO, Z.add_comm, Z.add_1_r.
  rewrite Z.double_bits_succ. done.
Qed.

Lemma pos_ctz_low p i : 0 <= i < pos_ctz p -> Z.testbit (Zpos p) i = false.
Proof.
  revert i. induction p as [p IH|p IH|]; intros i Hi; simpl in Hi; [lia| |lia].
  rewrite Pos2Z.inj_xO. destruct (Z.eq_dec i 0) as [->|Hn].
  - apply Z.testbit_even_0.
  - replace i with (Z.succ (i - 1)) by lia. rewrite Z.double_bits_succ.
    apply IH. lia.
Qed.

Lemma ctz_spec w :
  0 < w -> 0 <= ctz w /\ Z.testbit w (ctz w) = true /\
  forall i, 0 <= i < ctz w -> Z.testbit w i = false.
Proof.
  intros Hw. destruct w as [|p|p]; [lia| |lia]. simpl.
  split; [apply pos_ctz_nonneg|]. split; [apply pos_ctz_bit|].
  intros i. apply pos_ctz_low.
Qed.

Lemma ctz_word w : word w -> 0 < w -> 0 <= ctz w < 64.
Proof.
  intros Hw H. destruct (ctz_spec w H) as (H0 & Hb & _). split; [done|].
  destruct (Z.lt_ge_cases (ctz w) 64); [done|].
  by rewrite word_bit_high in Hb.
Qed.

(** [w & (~w + 1)] is the lowest set bit of [w]. *)
Lemma pos_ldiff_pred p : Z.ldiff (Zpos p) (Zpos p - 1) = 2 ^ pos_ctz p.
Proof.
  induction p as [p IH|p IH|]; [| |done].
  - rewrite Pos2Z.inj_xI. replace (2 * Zpos p + 1 - 1) with (2 * Zpos p) by lia.
    apply Z.bits_inj'. intros i Hi. rewrite Z.ldiff_spec. cbn [pos_ctz].
    rewrite Z.pow_0_r. destruct (Z.eq_dec i 0) as [->|Hn].
    + by rewrite Z.testbit_odd_0, Z.testbit_even_0.
    + replace i with (Z.succ (i - 1)) by lia.
      rewrite Z.testbit_odd_succ, Z.testbit_even_succ by lia.
      rewrite andb_negb_r. symmetry. apply Z.bits_above_log2; simpl; lia.
  - rewrite Pos2Z.inj_xO. cbn [pos_ctz].
    replace (2 * Zpos p - 1) with (2 * (Zpos p - 1) + 1) by lia.
    rewrite Z.pow_add_r, <- IH by (lia || apply pos_ctz_nonneg).
    change (2 ^ 1) with 2. apply Z.bits_inj'. intros i Hi. rewrite Z.ldiff_spec.
    destruct (Z.eq_dec i 0) as [->|Hn].
    + by rewrite !Z.testbit_even_0.
    + replace i with (Z.succ (i - 1)) by lia.
      by rewrite Z.testbit_odd_succ, !Z.testbit_even_succ, Z.ldiff_spec by lia.
Qed.

Lemma not64_sub w : word w -> not64 w = Z.ones 64 - w.
Proof.
  intros Hw. unfold not64. rewrite Z.lxor_comm, Z.sub_nocarry_ldiff.
  - apply Z.bits_inj'. intros i Hi. rewrite Z.lxor_spec, Z.ldiff_spec.
    destruct (Z.lt_ge_cases i 64) as [H|H].
    + rewrite Z.ones_spec_low by lia. by destruct (Z.testbit w i).
    + rewrite Z.ones_spec_high, word_bit_high by (done || lia). done.
  - apply Z.bits_inj'. intros i Hi. rewrite Z.ldiff_spec, Z.bits_0.
    destruct (Z.lt_ge_cases i 64) as [H|H].
    + rewrite Z.ones_spec_low by lia. apply andb_false_r.
    + by rewrite word_bit_high by done.
Qed.

Lemma lowest_bit w :
  word w -> 0 < w -> Z.land w (u64 (not64 w + 1)) = 2 ^ ctz w.
Proof.
  intros Hw Hpos. rewrite not64_sub by done.
  replace (Z.ones 64 - w + 1) with (2 ^ 64 - w) by (rewrite Z.ones_equiv; lia).
  rewrite wrap_small by (destruct Hw; lia).
  destruct w as [|p|p]; [lia| |lia]. cbn [ctz]. rewrite <- pos_ldiff_pred.
  apply Z.bits_inj'. intros i Hi. rewrite Z.land_spec, Z.ldiff_spec.
  destruct (Z.lt_ge_cases i 64) as [H|H]; [|by rewrite word_bit_high by done].
  f_equal. rewrite <- (Z.mod_pow2_bits_low _ 64) by lia.
  replace ((2 ^ 64 - Zpos p) mod 2 ^ 64) with ((Z.lnot (Zpos p - 1)) mod 2 ^ 64).
  - rewrite Z.mod_pow2_bits_low by lia. by apply Z.lnot_spec.
  - rewrite <- (Z.mod_add (Z.lnot _) 1) by done. f_equal. unfold Z.lnot. lia.
Qed.

(** Clearing the lowest set bit removes the first member. *)
Lemma members_lowest w :
  word w -> 0 < w ->
  members 64 w = ctz w :: members 64 (Z.lxor w (2 ^ ctz w)) /\
  word (Z.lxor w (2 ^ ctz w)).
Proof.
  intros Hw Hpos. pose proof (ctz_word w Hw Hpos) as Hc.
  destruct (ctz_spec w Hpos) as (_ & Hb & Hlow).
  assert (Hbit : forall i, 0 <= i -> Z.testbit (Z.lxor w (2 ^ ctz w)) i =
    xorb (Z.testbit w i) (ctz w =? i)).
  { intros i Hi. by rewrite Z.lxor_spec, Z.pow2_bits_eqb by lia. }
  split.
  - assert (Hsplit : forall v, members 64 v =
      filter (fun i => Z.testbit v i = true) (seqZ 0 (ctz w)) ++
      filter (fun i => Z.testbit v i = true) [ctz w] ++
      filter (fun i => Z.testbit v i = true) (seqZ (ctz w + 1) (64 - (ctz w + 1)))).
    { intros v. unfold members. rewrite <- !filter_app. f_equal.
      replace 64 with (ctz w + (1 + (64 - (ctz w + 1)))) at 1 by lia.
      rewrite !seqZ_app by lia. done. }
    rewrite (Hsplit w), (Hsplit (Z.lxor w (2 ^ ctz w))).
    rewrite (filter_seqZ_none (fun i => Z.testbit w i = true) 0) by
      (intros i Hi; rewrite Hlow by lia; done).
    rewrite (filter_seqZ_none (fun i => Z.testbit (Z.lxor w (2 ^ ctz w)) i = true) 0) by
      (intros i Hi; rewrite Hbit, Hlow by lia; destruct (Z.eqb_spec (ctz w) i); [lia|done]).
    rewrite !filter_cons. rewrite Hb, Hbit, Hb, Z.eqb_refl by lia. cbn.
    f_equal. apply filter_seqZ_ext. intros i Hi. rewrite Hbit by lia.
    destruct (Z.eqb_spec (ctz w) i); [lia|]. by rewrite xorb_false_r.
  - apply lxor_word; [done|]. split; [apply Z.pow_nonneg; lia|].
    apply Z.pow_lt_mono_r; lia.
Qed.

Lemma members_0 n : members n 0 = [].
Proof. apply filter_seqZ_none. intros i _. by rewrite Z.bits_0. Qed.
