(* ===== verification/BitsetRep.v ===== *)
(** * Bitsets that represent a list of words

    The representation predicate [brep] and what the memory primitives and
    the resizing operations of [Bitset] do to it. *)

From S2P Require Import Prelude Bitset BitsetWords.

(** The heap block behind a bitset holds [l]. *)
Definition store (b : bitset) (l : list Z) : Prop :=
  (array b = ABlock l \/ (array b = ANull /\ l = [])) /\
  capacity b = Z.of_nat (length l) /\ Forall word l.

(** Most words for which no size computation of the library wraps *)
Definition max_words : Z := 2 ^ 57.

(** [b] is in use and its words are [ws]. *)
Definition brep (b : bitset) (ws : list Z) : Prop :=
  arraysize b = Z.of_nat (length ws) /\ Z.of_nat (length ws) <= max_words /\
  exists slack, store b (ws ++ slack).

Lemma brep_words b ws : brep b ws -> Forall word ws.
Proof. intros (_ & _ & slack & _ & _ & H). by apply Forall_app in H as [? _]. Qed.

Lemma brep_size b ws : brep b ws -> arraysize b = Z.of_nat (length ws).
Proof. by intros (? & _). Qed.

Lemma brep_max b ws : brep b ws -> Z.of_nat (length ws) <= max_words.
Proof. by intros (_ & ? & _). Qed.

Lemma brep_array b ws :
  brep b ws -> ws <> [] -> exists slack, array b = ABlock (ws ++ slack) /\
    capacity b = Z.of_nat (length (ws ++ slack)) /\ Forall word (ws ++ slack).
Proof.
  intros (_ & _ & slack & [Ha|[_ Hnil]] & Hc & Hw) Hne; [by exists slack|].
  by apply app_nil in Hnil as [-> _].
Qed.

#[export] Hint Resolve brep_words : userland.

(** ** Reading and writing words *)
Lemma lookup_block_get {A} (l : list A) k x :
  0 <= k -> l !! Z.to_nat k = Some x -> block_get l k = Some x.
Proof. intros Hk Hx. by rewrite block_get_lookup. Qed.

Lemma brep_get b ws k w :
  brep b ws -> 0 <= k -> ws !! Z.to_nat k = Some w -> arr_get (array b) k = Some w.
Proof.
  intros Hb Hk Hw. destruct (brep_array b ws Hb) as (slack & -> & _); [by intros ->|].
  apply lookup_block_get; [done|]. by apply lookup_app_l_Some.
Qed.

Lemma rd_eq b ws k w :
  brep b ws -> 0 <= k -> ws !! Z.to_nat k = Some w -> rd k b = Ret (w, b).
Proof.
  intros Hb Hk Hw. unfold rd. unfold mbind, M_bind, mget.
  by rewrite (brep_get b ws k w).
Qed.

Lemma rd2_eq b2 ws k w s :
  brep b2 ws -> 0 <= k -> ws !! Z.to_nat k = Some w -> rd2 b2 k s = Ret (w, s).
Proof. intros Hb Hk Hw. unfold rd2. by rewrite (brep_get b2 ws k w). Qed.

(** The [k]-th word exists when [k] is in range. *)
Lemma word_at (ws : list Z) k :
  0 <= k < Z.of_nat (length ws) -> exists w, ws !! Z.to_nat k = Some w.
Proof. intros. apply lookup_lt_is_Some_2. lia. Qed.

Lemma runs_rd b ws k (Q : Z -> bitset -> Prop) :
  brep b ws -> 0 <= k < Z.of_nat (length ws) ->
  (forall w, ws !! Z.to_nat k = Some w -> Q w b) -> runs (rd k) b Q.
Proof.
  intros Hb Hk HQ. destruct (word_at ws k Hk) as [w Hw].
  exists w, b. split; [eapply rd_eq; [done|lia|done]|auto].
Qed.

Lemma runs_rd2 b2 ws k s (Q : Z -> bitset -> Prop) :
  brep b2 ws -> 0 <= k < Z.of_nat (length ws) ->
  (forall w, ws !! Z.to_nat k = Some w -> Q w s) -> runs (rd2 b2 k) s Q.
Proof.
  intros Hb Hk HQ. destruct (word_at ws k Hk) as [w Hw].
  exists w, s. split; [eapply rd2_eq; [done|lia|done]|auto].
Qed.

Lemma runs_wr b ws k w (Q : unit -> bitset -> Prop) :
  brep b ws -> 0 <= k < Z.of_nat (length ws) -> word w ->
  (forall b', brep b' (<[Z.to_nat k := w]> ws) -> Q tt b') -> runs (wr k w) b Q.
Proof.
  intros Hb Hk Hw HQ. pose proof Hb as (Hn & Hm & _).
  destruct (brep_array b ws Hb) as (slack & Ha & Hc & Hf).
  { intros ->. simpl in Hk. lia. }
  unfold wr. msteps. rewrite Ha. mstep.
  eapply runs_of_option. { apply block_set_Some. rewrite length_app. lia. }
  unfold set_array. mstep. apply HQ.
  split; [|split].
  - by rewrite length_insert.
  - by rewrite length_insert.
  - exists slack. rewrite insert_app_l by lia. split; [by left|]. simpl. split.
    + rewrite <- insert_app_l by lia. by rewrite length_insert.
    + rewrite <- insert_app_l by lia. by apply Forall_insert.
Qed.

(** ** Allocation and resizing *)
Section alloc.
Context (alloc_ok : Z -> bool) (garbage : nat -> list Z).
Context (Hok : forall n, alloc_ok n = true).
Context (Hgarbage : forall n, length (garbage n) = n /\ Forall word (garbage n)).

Lemma max_words_bytes n : 0 <= n <= 2 * max_words -> bytes n = 8 * n.
Proof. unfold max_words, bytes. intros. apply wrap_small. lia. Qed.

Lemma words_bytes n : 0 <= n -> words (8 * n) = Z.to_nat n.
Proof. intros. unfold words. by rewrite Z.mul_comm, Z.div_mul by done. Qed.

Lemma runs_realloc b l n (Q : option (list Z) -> bitset -> Prop) :
  (array b = ABlock l \/ (array b = ANull /\ l = [])) -> Forall word l ->
  0 < n <= 2 * max_words -> Z.of_nat (length l) <= n ->
  (forall tail b', length (l ++ tail) = Z.to_nat n -> Forall word (l ++ tail) ->
     arraysize b' = arraysize b -> capacity b' = capacity b ->
     Q (Some (l ++ tail)) b') ->
  runs (realloc_array alloc_ok garbage (bytes n)) b Q.
Proof.
  intros Ha Hl Hn Hlen HQ. rewrite max_words_bytes by lia.
  destruct (Hgarbage (Z.to_nat n)) as [Hg Hgw].
  unfold realloc_array. msteps. destruct Ha as [->|[-> ->]].
  - destruct (Z.eqb_spec (8 * n) 0); [lia|]. rewrite Hok, words_bytes by lia.
    unfold set_array. msteps. rewrite take_ge by (rewrite length_app, length_drop; lia).
    apply HQ; [rewrite length_app, length_drop; lia| |done..].
    apply Forall_app_2; [done|]. by apply Forall_drop.
  - msteps. unfold malloc_words. rewrite Hok, words_bytes by lia.
    rewrite take_ge by lia. by apply (HQ (garbage (Z.to_nat n))).
Qed.

(** After [ensure_capacity] the block has room for [n] words. *)
Lemma runs_ensure_capacity b ws n (Q : bool -> bitset -> Prop) :
  brep b ws -> 0 <= n <= max_words ->
  (forall b', brep b' ws -> n <= capacity b' -> Q true b') ->
  runs (ensure_capacity alloc_ok garbage n) b Q.
Proof.
  intros Hb Hn HQ. pose proof Hb as (Hs & Hm & slack & Ha & Hc & Hf).
  unfold ensure_capacity. msteps.
  destruct (Z.ltb_spec (capacity b) n) as [Hlt|Hge]; [|by mstep; apply HQ].
  unfold set_capacity. msteps. cbn [capacity].
  rewrite (wrap_small 64 (n * 2)) by (unfold max_words in *; lia).
  eapply runs_realloc; [exact Ha|done|lia|lia|].
  intros tail b' Hl Hw Hs' Hc'. cbn [arraysize capacity] in Hs', Hc'.
  unfold set_array. msteps. apply HQ; [|cbn [capacity]; lia].
  split; [by rewrite <- Hs|]. split; [done|]. exists (slack ++ tail).
  rewrite app_assoc. split; [by left|]. split; [|done]. cbn [capacity]. lia.
Qed.

(** [memset] to zero of the words [k .. k + n) of a block *)
Lemma runs_zero_words b l k n (Q : unit -> bitset -> Prop) :
  store b l -> 0 <= k -> 0 <= n -> k + n <= Z.of_nat (length l) ->
  (forall b', store b' (take (Z.to_nat k) l ++ replicate (Z.to_nat n) 0 ++
                        drop (Z.to_nat k + Z.to_nat n) l) ->
     arraysize b' = arraysize b -> Q tt b') ->
  runs (zero_words k n) b Q.
Proof.
  intros (Ha & Hc & Hf) Hk Hn Hkn HQ. unfold zero_words.
  destruct (Z.eqb_spec n 0) as [->|Hn0].
  { mstep. apply HQ; [|done]. change (Z.to_nat 0) with 0%nat.
    rewrite Nat.add_0_r, app_nil_l, take_drop. done. }
  mstep. mstep. destruct Ha as [Ha|[_ ->]]; [|simpl in Hkn; lia]. rewrite Ha.
  mstep. eapply runs_of_option.
  { apply block_write_Some; [done|]. rewrite length_replicate. lia. }
  rewrite length_replicate. unfold set_array. mstep. apply HQ; [|done].
  split; [by left|]. cbn [capacity]. split.
  - rewrite !length_app, length_take, length_replicate, length_drop. lia.
  - rewrite !Forall_app. split; [by apply Forall_take|].
    split; [|by apply Forall_drop]. apply Forall_replicate. by split.
Qed.

(** [arraysize = n] on a block whose first [n] words are [ws'] *)
Lemma brep_set_size b l ws' slack :
  store b l -> l = ws' ++ slack -> Z.of_nat (length ws') <= max_words ->
  brep (Bitset (array b) (Z.of_nat (length ws')) (capacity b)) ws'.
Proof.
  intros (Ha & Hc & Hf) -> Hm. split; [done|]. split; [done|]. by exists slack.
Qed.

(** Grows with zeroed words. *)
Lemma runs_grow b ws n (Q : bool -> bitset -> Prop) :
  brep b ws -> Z.of_nat (length ws) <= n <= max_words ->
  (forall b', brep b' (ws ++ replicate (Z.to_nat n - length ws) 0) -> Q true b') ->
  runs (bitset_grow alloc_ok garbage n) b Q.
Proof.
  intros Hb Hn HQ. unfold bitset_grow. mstep.
  eapply runs_ensure_capacity; [done|lia|].
  intros b1 (Hs & Hm & slack & Hst) Hcap. cbn [negb]. msteps.
  pose proof Hst as (_ & Hc & _). rewrite Hc, length_app in Hcap.
  rewrite Hs, wrap_small by (unfold max_words in *; lia).
  eapply runs_zero_words; [done|lia|lia|rewrite length_app; lia|].
  intros b2 Hst2 Hs2. unfold set_arraysize. msteps. apply HQ.
  rewrite Nat2Z.id, take_app_length' in Hst2 by done.
  replace (Z.to_nat (n - Z.of_nat (length ws))) with (Z.to_nat n - length ws)%nat in Hst2 by lia.
  rewrite app_assoc in Hst2.
  assert (Hl : Z.of_nat (length (ws ++ replicate (Z.to_nat n - length ws) 0)) = n).
  { rewrite length_app, length_replicate. lia. }
  rewrite <- Hl at 1. eapply brep_set_size; [done|done|lia].
Qed.

(** What [bitset_resize] leaves: the old words that still fit, then zeroes
    if asked for, or whatever the block held. *)
Lemma runs_resize b ws n pad (Q : bool -> bitset -> Prop) :
  brep b ws -> 0 <= n <= max_words ->
  (forall tail b', brep b' (take (Z.to_nat n) ws ++ tail) ->
     length tail = (Z.to_nat n - length ws)%nat ->
     (pad = true -> tail = replicate (Z.to_nat n - length ws) 0) -> Q true b') ->
  runs (bitset_resize alloc_ok garbage n pad) b Q.
Proof.
  intros Hb Hn HQ. unfold bitset_resize. do 2 mstep. rewrite (brep_size b ws Hb).
  mstep. eapply runs_ensure_capacity; [done|done|].
  intros b1 (Hs & Hm & slack & Hst) Hcap. cbn [negb].
  pose proof Hst as (_ & Hc & Hf). rewrite Hc in Hcap.
  assert (Hsplit : forall b2 tail slack', store b2 (take (Z.to_nat n) ws ++ tail ++ slack') ->
    length tail = (Z.to_nat n - length ws)%nat ->
    (pad = true -> tail = replicate (Z.to_nat n - length ws) 0) ->
    runs (set_arraysize n ;; mret true) b2 Q).
  { intros b2 tail slack' Hst2 Hlen Hpad. unfold set_arraysize. msteps.
    eapply HQ; [|exact Hlen|exact Hpad].
    assert (Hl : Z.of_nat (length (take (Z.to_nat n) ws ++ tail)) = n).
    { rewrite length_app, length_take. lia. }
    rewrite <- Hl at 1. eapply brep_set_size; [done|by rewrite <- app_assoc|lia]. }
  rewrite length_app in Hcap.
  destruct (Z.ltb_spec n (Z.of_nat (length ws))) as [Hlt|Hge].
  - rewrite Z.ltb_irrefl, andb_false_r. cbn [mwhen]. do 2 mstep.
    apply (Hsplit _ [] (drop (Z.to_nat n) ws ++ slack)).
    + by rewrite app_nil_l, app_assoc, take_drop.
    + simpl. lia.
    + intros _. by replace (Z.to_nat n - length ws)%nat with 0%nat by lia.
  - destruct (Z.ltb_spec (Z.of_nat (length ws)) n) as [Hlt|Heq]; destruct pad; cbn [andb mwhen].
    1: { mstep. eapply runs_zero_words; [done|lia|lia|rewrite length_app; lia|].
      intros b2 Hst2 Hs2. rewrite Nat2Z.id, take_app_length' in Hst2 by done.
      apply (Hsplit _ (replicate (Z.to_nat n - length ws) 0)
               (drop (Z.to_nat n) (ws ++ slack))).
      + rewrite take_ge by lia.
        replace (Z.to_nat (n - Z.of_nat (length ws))) with (Z.to_nat n - length ws)%nat in Hst2 by lia.
        by replace (length ws + (Z.to_nat n - length ws))%nat with (Z.to_nat n) in Hst2 by lia.
      + by rewrite length_replicate.
      + done. }
    all: do 2 mstep; apply (Hsplit _ (take (Z.to_nat n - length ws) slack)
               (drop (Z.to_nat n - length ws) slack));
      [by rewrite take_drop, take_ge by lia
      |rewrite length_take; lia
      |intros ?; try done].
    by replace (Z.to_nat n - length ws)%nat with 0%nat by lia.
Qed.
End alloc.

(** ** The loops of the bitset operations, on lists of words

    What each operation of [Bitset] does to the words a bitset represents,
    and what that means for the bits of the set. *)
(** ** Bits of list operations *)
Lemma Zdiv64_bound i n : 0 <= i < 64 * n -> 0 <= i / 64 < n.
Proof.
  intros Hi. split; [apply Z.div_pos; lia|]. apply Z.div_lt_upper_bound; lia.
Qed.

Lemma wbit_app l1 l2 i :
  0 <= i ->
  wbit (l1 ++ l2) i =
    if i <? 64 * Z.of_nat (length l1) then wbit l1 i
    else wbit l2 (i - 64 * Z.of_nat (length l1)).
Proof.
  intros Hi. destruct (Z.ltb_spec i (64 * Z.of_nat (length l1))) as [H|H].
  - pose proof (Zdiv64_bound i (Z.of_nat (length l1)) ltac:(lia)).
    unfold wbit. by rewrite lookup_app_l by lia.
  - assert (Z.of_nat (length l1) <= i / 64) by (apply Z.div_le_lower_bound; lia).
    unfold wbit. rewrite lookup_app_r by lia.
    replace (i - 64 * Z.of_nat (length l1)) with (i + - Z.of_nat (length l1) * 64) by lia.
    rewrite Z.div_add, Z.mod_add by done.
    by replace (Z.to_nat (i / 64 + - Z.of_nat (length l1)))
      with (Z.to_nat (i / 64) - length l1)%nat by lia.
Qed.

Lemma wbit_drop l k i : 0 <= i -> wbit (drop k l) i = wbit l (i + 64 * Z.of_nat k).
Proof.
  intros Hi. unfold wbit. rewrite lookup_drop.
  replace (i + 64 * Z.of_nat k) with (i + Z.of_nat k * 64) by lia.
  rewrite Z.div_add, Z.mod_add by done.
  assert (0 <= i / 64) by (apply Z.div_pos; lia).
  by replace (Z.to_nat (i / 64 + Z.of_nat k)) with (k + Z.to_nat (i / 64))%nat by lia.
Qed.

Lemma wbit_take l k i :
  0 <= i < 64 * Z.of_nat k -> wbit (take k l) i = wbit l i.
Proof.
  intros Hi. pose proof (Zdiv64_bound i _ Hi). unfold wbit.
  by rewrite lookup_take_lt by lia.
Qed.

Lemma wbit_zeros n i : wbit (replicate n 0) i = false.
Proof.
  unfold wbit. destruct (replicate n 0 !! _) as [w|] eqn:E; [|apply Z.bits_0].
  apply lookup_replicate in E as [-> _]. apply Z.bits_0.
Qed.

Lemma wbit_insert l k w i :
  0 <= k < Z.of_nat (length l) -> 0 <= i ->
  wbit (<[Z.to_nat k := w]> l) i =
    if i / 64 =? k then Z.testbit w (i mod 64) else wbit l i.
Proof.
  intros Hk Hi. assert (0 <= i / 64) by (apply Z.div_pos; lia). unfold wbit.
  destruct (Z.eqb_spec (i / 64) k) as [->|Hne].
  - by rewrite list_lookup_insert_eq by lia.
  - by rewrite list_lookup_insert_ne by lia.
Qed.

(** A word operation that acts bit by bit *)
Definition bitwise (op : Z -> Z -> Z) (f : bool -> bool -> bool) : Prop :=
  forall a b, word a -> word b -> word (op a b) /\
    forall i, 0 <= i < 64 -> Z.testbit (op a b) i = f (Z.testbit a i) (Z.testbit b i).

Lemma bitwise_lor : bitwise Z.lor orb.
Proof. intros a b Ha Hb. split; [by apply lor_word|]. intros. apply Z.lor_spec. Qed.
Lemma bitwise_land : bitwise Z.land andb.
Proof.
  intros a b Ha Hb. split; [apply land_word; [done|apply Hb]|].
  intros. apply Z.land_spec.
Qed.
Lemma bitwise_lxor : bitwise Z.lxor xorb.
Proof. intros a b Ha Hb. split; [by apply lxor_word|]. intros. apply Z.lxor_spec. Qed.
Lemma bitwise_andnot : bitwise andnot (fun x y => x && negb y).
Proof.
  intros a b Ha Hb. split; [apply land_word, not64_nonneg; [done|apply Hb]|].
  intros i Hi. unfold andnot. by rewrite Z.land_spec, testbit_not64.
Qed.
#[export] Hint Resolve bitwise_lor bitwise_land bitwise_lxor bitwise_andnot : userland.

Lemma wbit_zip op f l1 l2 i :
  bitwise op f -> Forall word l1 -> Forall word l2 ->
  0 <= i < 64 * Z.of_nat (length l1 `min` length l2) ->
  wbit (zip_with op l1 l2) i = f (wbit l1 i) (wbit l2 i).
Proof.
  intros Hop H1 H2 Hi. pose proof (Zdiv64_bound i _ Hi) as Hk. unfold wbit.
  destruct (lookup_lt_is_Some_2 l1 (Z.to_nat (i / 64))) as [a Ha]; [lia|].
  destruct (lookup_lt_is_Some_2 l2 (Z.to_nat (i / 64))) as [b Hb]; [lia|].
  rewrite lookup_zip_with, Ha, Hb. simpl.
  apply (proj2 (Hop a b (lookup_word _ _ _ H1 Ha) (lookup_word _ _ _ H2 Hb))).
  apply word_mod_bound.
Qed.

Lemma zip_word op f l1 l2 :
  bitwise op f -> Forall word l1 -> Forall word l2 -> Forall word (zip_with op l1 l2).
Proof.
  intros Hop H1 H2. apply Forall_lookup_2. intros k w Hw.
  apply lookup_zip_with_Some in Hw as (a & b & -> & Ha & Hb).
  apply (Hop a b (lookup_word _ _ _ H1 Ha) (lookup_word _ _ _ H2 Hb)).
Qed.

(** The words of [l1] combined with those of [l2] over the common part, then
    what is left of the longer list. *)
Definition zip_rest (op : Z -> Z -> Z) (l1 l2 : list Z) : list Z :=
  zip_with op l1 l2 ++ drop (length l2) l1 ++ drop (length l1) l2.
(** The same, what is left of [l2] ignored *)
Definition zip_left (op : Z -> Z -> Z) (l1 l2 : list Z) : list Z :=
  zip_with op l1 l2 ++ drop (length l2) l1.

Lemma length_zip_rest op l1 l2 : length (zip_rest op l1 l2) = (length l1 `max` length l2)%nat.
Proof. unfold zip_rest. rewrite !length_app, length_zip_with, !length_drop. lia. Qed.
Lemma length_zip_left op l1 l2 : length (zip_left op l1 l2) = length l1.
Proof. unfold zip_left. rewrite length_app, length_zip_with, length_drop. lia. Qed.

Lemma zip_rest_word op f l1 l2 :
  bitwise op f -> Forall word l1 -> Forall word l2 -> Forall word (zip_rest op l1 l2).
Proof.
  intros. repeat apply Forall_app_2; [by eapply zip_word|by apply Forall_drop..].
Qed.
Lemma zip_left_word op f l1 l2 :
  bitwise op f -> Forall word l1 -> Forall word l2 -> Forall word (zip_left op l1 l2).
Proof.
  intros. repeat apply Forall_app_2; [by eapply zip_word|by apply Forall_drop].
Qed.

(** Bits of a list seen through the word count *)
Lemma wbit_none l i : 64 * Z.of_nat (length l) <= i -> wbit l i = false.
Proof. apply wbit_beyond. Qed.

Lemma wbit_zip_rest op f l1 l2 i :
  bitwise op f -> (forall x, f x false = x) -> (forall x, f false x = x) ->
  Forall word l1 -> Forall word l2 -> 0 <= i ->
  wbit (zip_rest op l1 l2) i = f (wbit l1 i) (wbit l2 i).
Proof.
  intros Hop Hf1 Hf2 H1 H2 Hi. unfold zip_rest. rewrite wbit_app by done.
  rewrite length_zip_with.
  destruct (Z.ltb_spec i (64 * Z.of_nat (length l1 `min` length l2))).
  { by apply wbit_zip. }
  destruct (Nat.le_gt_cases (length l1) (length l2)).
  - rewrite (drop_ge l1), app_nil_l by lia. rewrite wbit_drop by lia.
    rewrite (wbit_none l1), Hf2 by lia. f_equal. lia.
  - rewrite (drop_ge l2), app_nil_r by lia. rewrite wbit_drop by lia.
    rewrite (wbit_none l2), Hf1 by lia. f_equal. lia.
Qed.

Lemma wbit_zip_left op f l1 l2 i :
  bitwise op f -> (forall x, f x false = x) -> (forall x, f false x = false) ->
  Forall word l1 -> Forall word l2 -> 0 <= i ->
  wbit (zip_left op l1 l2) i = f (wbit l1 i) (wbit l2 i).
Proof.
  intros Hop Hf1 Hf2 H1 H2 Hi. unfold zip_left. rewrite wbit_app by done.
  rewrite length_zip_with.
  destruct (Z.ltb_spec i (64 * Z.of_nat (length l1 `min` length l2))).
  { by apply wbit_zip. }
  rewrite wbit_drop by lia.
  destruct (Nat.le_gt_cases (length l1) (length l2)).
  - rewrite (wbit_none l1 i), Hf2 by lia. apply wbit_none. lia.
  - rewrite (wbit_none l2), Hf1 by lia. f_equal. lia.
Qed.

Lemma wbit_zip_short op f l1 l2 i :
  bitwise op f -> (forall x, f x false = false) -> (forall x, f false x = false) ->
  Forall word l1 -> Forall word l2 -> 0 <= i ->
  wbit (zip_with op l1 l2) i = f (wbit l1 i) (wbit l2 i).
Proof.
  intros Hop Hf1 Hf2 H1 H2 Hi.
  destruct (Z.lt_ge_cases i (64 * Z.of_nat (length l1 `min` length l2))).
  { by apply wbit_zip. }
  rewrite wbit_none by (rewrite length_zip_with; lia).
  destruct (Nat.le_gt_cases (length l1) (length l2)).
  - by rewrite (wbit_none l1), Hf2 by lia.
  - by rewrite (wbit_none l2), Hf1 by lia.
Qed.

(** ** Values *)
Lemma wval_union l1 l2 :
  Forall word l1 -> Forall word l2 -> wval (zip_rest Z.lor l1 l2) = Z.lor (wval l1) (wval l2).
Proof.
  intros. apply wval_bits; [eapply zip_rest_word; eauto with userland|]. intros i Hi.
  rewrite (wbit_zip_rest _ orb), Z.lor_spec, !wval_testbit; auto using orb_false_r with userland.
Qed.
Lemma wval_xor l1 l2 :
  Forall word l1 -> Forall word l2 -> wval (zip_rest Z.lxor l1 l2) = Z.lxor (wval l1) (wval l2).
Proof.
  intros. apply wval_bits; [eapply zip_rest_word; eauto with userland|]. intros i Hi.
  rewrite (wbit_zip_rest _ xorb), Z.lxor_spec, !wval_testbit;
    auto using xorb_false_r, xorb_false_l with userland.
Qed.
Lemma wval_diff l1 l2 :
  Forall word l1 -> Forall word l2 -> wval (zip_left andnot l1 l2) = Z.ldiff (wval l1) (wval l2).
Proof.
  intros. apply wval_bits; [eapply zip_left_word; eauto with userland|]. intros i Hi.
  rewrite (wbit_zip_left _ (fun x y => x && negb y)), Z.ldiff_spec, !wval_testbit;
    auto using andb_true_r with userland.
Qed.
Lemma wval_inter l1 l2 :
  Forall word l1 -> Forall word l2 -> wval (zip_with Z.land l1 l2) = Z.land (wval l1) (wval l2).
Proof.
  intros. apply wval_bits; [eapply zip_word; eauto with userland|]. intros i Hi.
  rewrite (wbit_zip_short _ andb), Z.land_spec, !wval_testbit;
    auto using andb_false_r with userland.
Qed.
