(* ===== verification/BitsetLoops.v ===== *)
(** * What the bitset operations do to the words

    One lemma per operation, in the form: from a bitset that represents
    [ws], the operation terminates without undefined behaviour and leaves
    a bitset that represents the stated words. *)

From S2P Require Import Prelude Bitset BitsetWords BitsetRep.

Lemma shiftr6 i : Z.shiftr i 6 = i / 64.
Proof. by rewrite Z.shiftr_div_pow2. Qed.

(** ** Single bits *)
Section single.
Context (alloc_ok : Z -> bool) (garbage : nat -> list Z).
Context (Hok : forall n, alloc_ok n = true).
Context (Hgarbage : forall n, length (garbage n) = n /\ Forall word (garbage n)).

Lemma runs_maybe_grow b ws i (Q : bool -> bitset -> Prop) :
  brep b ws -> 0 <= i < 64 * max_words ->
  (forall b' n, brep b' (ws ++ replicate n 0) ->
     Z.of_nat (length ws + n) = Z.max (Z.of_nat (length ws)) (i / 64 + 1) -> Q true b') ->
  runs (if arraysize b <=? i / 64 then bitset_grow alloc_ok garbage (i / 64 + 1)
        else mret true) b Q.
Proof.
  intros Hb Hi HQ. rewrite (brep_size b ws Hb).
  pose proof (Zdiv64_bound i _ Hi) as Hk.
  destruct (Z.leb_spec (Z.of_nat (length ws)) (i / 64)).
  - eapply runs_grow; [done|done|done|lia|]. intros b' Hb'. eapply HQ; [done|]. lia.
  - mstep. apply (HQ b 0%nat); [by rewrite app_nil_r|]. lia.
Qed.

(** [array[k]] replaced by [g array[k]] *)
Lemma runs_update b ws i (g : Z -> Z) (Q : unit -> bitset -> Prop) :
  brep b ws -> 0 <= i < 64 * Z.of_nat (length ws) ->
  (forall w, word w -> word (g w)) ->
  (forall b' ws', brep b' ws' -> length ws' = length ws ->
     (forall j, 0 <= j -> wbit ws' j =
        if j / 64 =? i / 64 then Z.testbit (g (default 0 (ws !! Z.to_nat (i / 64)))) (j mod 64)
        else wbit ws j) -> Q tt b') ->
  runs (w ← rd (i / 64); wr (i / 64) (g w)) b Q.
Proof.
  intros Hb Hi Hg HQ. pose proof (Zdiv64_bound i _ Hi) as Hk. mstep.
  eapply runs_rd; [done|done|]. intros w Hw.
  assert (word w) by (eapply (lookup_word ws); eauto using brep_words).
  eapply runs_wr; [done|done|by apply Hg|]. intros b' Hb'.
  eapply HQ; [done|by rewrite length_insert|].
  intros j Hj. rewrite wbit_insert by done. by rewrite Hw.
Qed.

Lemma div_mod_64_eq i j : (j / 64 =? i / 64) && (j mod 64 =? i mod 64) = (i =? j).
Proof.
  destruct (Z.eqb_spec i j) as [->|Hne]; [by rewrite !Z.eqb_refl|].
  destruct (Z.eqb_spec (j / 64) (i / 64)); [|done].
  destruct (Z.eqb_spec (j mod 64) (i mod 64)); [|done].
  pose proof (Z.div_mod i 64). pose proof (Z.div_mod j 64). lia.
Qed.

Lemma wbit_word ws j : wbit ws j = Z.testbit (default 0 (ws !! Z.to_nat (j / 64))) (j mod 64).
Proof. done. Qed.

(** The word lists the single-bit operations work on keep the value. *)
Lemma wval_update ws n ws' i (v : bool) :
  0 <= i -> Forall word ws -> Forall word ws' ->
  (forall j, 0 <= j -> wbit ws' j = if i =? j then v else wbit (ws ++ replicate n 0) j) ->
  wval ws' = if v then Z.setbit (wval ws) i else Z.clearbit (wval ws) i.
Proof.
  intros Hi Hw Hw' H. apply wval_bits; [done|]. intros j Hj. rewrite H by done.
  assert (wbit (ws ++ replicate n 0) j = Z.testbit (wval ws) j) as ->.
  { rewrite <- wval_testbit, wval_app_zeros; [done| |done].
    apply Forall_app_2; [done|]. apply Forall_replicate. by split. }
  destruct v; destruct (Z.eqb_spec i j) as [->|Hne].
  - symmetry. by apply Z.setbit_eq.
  - symmetry. by apply Z.setbit_neq.
  - symmetry. by apply Z.clearbit_eq.
  - symmetry. by apply Z.clearbit_neq.
Qed.

Lemma runs_set b ws i (Q : unit -> bitset -> Prop) :
  brep b ws -> 0 <= i < 64 * max_words ->
  (forall b' ws', brep b' ws' -> wval ws' = Z.setbit (wval ws) i ->
     Z.of_nat (length ws') = Z.max (Z.of_nat (length ws)) (i / 64 + 1) -> Q tt b') ->
  runs (bitset_set alloc_ok garbage i) b Q.
Proof.
  intros Hb Hi HQ. unfold bitset_set. rewrite shiftr6. do 3 mstep.
  eapply runs_maybe_grow; [done|done|]. intros b1 n Hb1 Hl. cbn [negb].
  pose proof (word_mod_bound i) as Hm. rewrite word_bit by done.
  apply (runs_update b1 (ws ++ replicate n 0) i (fun w => Z.lor w (Z.shiftl 1 (i mod 64))));
    [done| | |].
  { rewrite length_app, length_replicate. pose proof (Z.div_mod i 64). lia. }
  { intros w Hw. apply lor_word; [done|]. rewrite <- word_bit by done. apply u64_word. }
  intros b' ws' Hb' Hl' Hbit. apply (HQ b' ws'); [done| |].
  - apply (wval_update ws n ws' i true); [lia|by eapply brep_words..|].
    intros j Hj. rewrite Hbit by done. rewrite <- (div_mod_64_eq i j).
    destruct (Z.eqb_spec (j / 64) (i / 64)) as [E|E]; cbn [andb]; [|done].
    rewrite Z.lor_spec, testbit_one_shifted by apply word_mod_bound.
    rewrite <- E, <- wbit_word. destruct (j mod 64 =? i mod 64); [apply orb_true_r|apply orb_false_r].
  - rewrite Hl', length_app, length_replicate. done.
Qed.

Lemma runs_set_to_value b ws i (flag : bool) (Q : unit -> bitset -> Prop) :
  brep b ws -> 0 <= i < 64 * max_words ->
  (forall b' ws', brep b' ws' ->
     wval ws' = (if flag then Z.setbit (wval ws) i else Z.clearbit (wval ws) i) ->
     Z.of_nat (length ws') = Z.max (Z.of_nat (length ws)) (i / 64 + 1) -> Q tt b') ->
  runs (bitset_set_to_value alloc_ok garbage i flag) b Q.
Proof.
  intros Hb Hi HQ. unfold bitset_set_to_value. rewrite shiftr6. do 3 mstep.
  eapply runs_maybe_grow; [done|done|]. intros b1 n Hb1 Hl. cbn [negb].
  pose proof (word_mod_bound i) as Hm. rewrite word_bit by done.
  set (d := u64 (Z.shiftl (Z.b2z flag) (i mod 64))).
  assert (Hd : forall k, 0 <= k < 64 -> Z.testbit d k = flag && (k =? i mod 64)).
  { intros k Hk. unfold d. destruct flag; cbn [Z.b2z andb].
    - rewrite word_bit by done. apply testbit_one_shifted; lia.
    - rewrite Z.shiftl_0_l. apply Z.bits_0. }
  apply (runs_update b1 (ws ++ replicate n 0) i
    (fun w => Z.lor (Z.land w (not64 (Z.shiftl 1 (i mod 64)))) d));
    [done| | |].
  { rewrite length_app, length_replicate. pose proof (Z.div_mod i 64). lia. }
  { intros w Hw. apply lor_word; [|apply u64_word]. apply land_word; [done|].
    apply not64_nonneg. rewrite Z.shiftl_mul_pow2 by lia. apply Z.mul_nonneg_nonneg; [done|].
    apply Z.pow_nonneg. done. }
  intros b' ws' Hb' Hl' Hbit. apply (HQ b' ws'); [done| |].
  - apply (wval_update ws n ws' i flag); [lia|by eapply brep_words..|].
    intros j Hj. rewrite Hbit by done. rewrite <- (div_mod_64_eq i j).
    destruct (Z.eqb_spec (j / 64) (i / 64)) as [E|E]; cbn [andb]; [|done].
    rewrite Z.lor_spec, Z.land_spec, testbit_not64, testbit_one_shifted, Hd
      by (apply word_mod_bound || lia).
    rewrite <- E, <- wbit_word.
    destruct (j mod 64 =? i mod 64), flag, (wbit (ws ++ replicate n 0) j); done.
  - rewrite Hl', length_app, length_replicate. done.
Qed.
End single.

Lemma land_bit_neq_0 w k : 0 <= k -> negb (Z.land w (Z.shiftl 1 k) =? 0) = Z.testbit w k.
Proof.
  intros Hk. destruct (Z.testbit w k) eqn:E.
  - destruct (Z.eqb_spec (Z.land w (Z.shiftl 1 k)) 0) as [H|]; [|done].
    assert (Hb : Z.testbit (Z.land w (Z.shiftl 1 k)) k = true).
    { by rewrite Z.land_spec, E, testbit_one_shifted, Z.eqb_refl. }
    by rewrite H, Z.bits_0 in Hb.
  - destruct (Z.eqb_spec (Z.land w (Z.shiftl 1 k)) 0) as [|H]; [done|].
    exfalso. apply H. apply Z.bits_inj'. intros i Hi.
    rewrite Z.land_spec, Z.bits_0, testbit_one_shifted by done.
    destruct (Z.eqb_spec i k) as [->|]; [by rewrite E|apply andb_false_r].
Qed.

Lemma get_eq b ws i :
  brep b ws -> 0 <= i -> bitset_get i b = Ret (Z.testbit (wval ws) i, b).
Proof.
  intros Hb Hi. apply runs_eq. unfold bitset_get. rewrite shiftr6. do 2 mstep.
  rewrite (brep_size b ws Hb). rewrite wval_testbit by eauto with userland.
  destruct (Z.leb_spec (Z.of_nat (length ws)) (i / 64)) as [H|H].
  - mstep. split; [|done]. symmetry. apply wbit_none.
    pose proof (Z.div_mod i 64). pose proof (word_mod_bound i). lia.
  - assert (0 <= i / 64) by (apply Z.div_pos; lia). mstep.
    eapply runs_rd; [done|done|]. intros w Hw. mstep. split; [|done].
    rewrite word_bit, land_bit_neq_0 by apply word_mod_bound.
    rewrite wbit_word, Hw. done.
Qed.

Lemma runs_clear b ws (Q : unit -> bitset -> Prop) :
  brep b ws -> (forall b', brep b' (replicate (length ws) 0) -> Q tt b') ->
  runs bitset_clear b Q.
Proof.
  intros Hb HQ. unfold bitset_clear. do 2 mstep. rewrite (brep_size b ws Hb).
  destruct Hb as (Hs & Hm & slack & Hst).
  eapply runs_zero_words; [done|done|lia|rewrite length_app; lia|].
  intros b' Hst' Hs'. apply HQ.
  rewrite Nat2Z.id in Hst'. cbn [Z.to_nat take app Nat.add] in Hst'.
  split; [by rewrite length_replicate, Hs'|]. split; [by rewrite length_replicate|].
  by exists slack; rewrite drop_app_length' in Hst' by done.
Qed.

(** ** Whole sets *)
Lemma minlength_eq b1 b2 ws1 ws2 :
  brep b1 ws1 -> brep b2 ws2 ->
  minlength b1 b2 = Z.of_nat (length ws1 `min` length ws2).
Proof.
  intros H1 H2. unfold minlength. rewrite (brep_size b1 ws1), (brep_size b2 ws2) by done.
  destruct (Z.ltb_spec (Z.of_nat (length ws1)) (Z.of_nat (length ws2))); lia.
Qed.

Lemma zip_prefix_step (op : Z -> Z -> Z) (l1 l2 : list Z) k a b :
  l1 !! k = Some a -> l2 !! k = Some b ->
  <[k := op a b]> (zip_with op (take k l1) (take k l2) ++ drop k l1) =
    zip_with op (take (S k) l1) (take (S k) l2) ++ drop (S k) l1.
Proof.
  intros Ha Hb. pose proof (lookup_lt_Some _ _ _ Ha). pose proof (lookup_lt_Some _ _ _ Hb).
  rewrite (take_S_r _ _ _ Ha), (take_S_r _ _ _ Hb).
  rewrite zip_with_app by (rewrite !length_take; lia). cbn [zip_with].
  rewrite (drop_S _ _ _ Ha), <- app_assoc.
  rewrite insert_app_r_alt by (rewrite length_zip_with, !length_take; lia).
  f_equal. rewrite length_zip_with, !length_take.
  by replace (k - length l1 `min` length l2 `min` k)%nat with 0%nat by lia;
    replace (k - k `min` length l1 `min` (k `min` length l2))%nat with 0%nat by lia.
Qed.

Lemma runs_combine_words op f b ws b2 ws2 (Q : unit -> bitset -> Prop) :
  bitwise op f -> brep b ws -> brep b2 ws2 ->
  (forall b', brep b' (zip_left op ws ws2) -> Q tt b') ->
  runs (combine_words op b2) b Q.
Proof.
  intros Hop Hb Hb2 HQ. unfold combine_words. do 2 mstep.
  rewrite (minlength_eq b b2 ws ws2), Nat2Z.id by done.
  destruct (mfor_inv (fun k b' => brep b'
      (zip_with op (take (Z.to_nat k) ws) (take (Z.to_nat k) ws2) ++ drop (Z.to_nat k) ws))
    (fun k => w1 ← rd k; w2 ← rd2 b2 k; wr k (op w1 w2))
    (length ws `min` length ws2) 0 b) as (b' & E & Hb').
  - done.
  - intros k b1 Hk Hb1. destruct (word_at ws k) as [w1 Hw1]; [lia|].
    destruct (word_at ws2 k) as [w2 Hw2]; [lia|].
    set (cur := zip_with op (take (Z.to_nat k) ws) (take (Z.to_nat k) ws2)
      ++ drop (Z.to_nat k) ws) in Hb1.
    assert (Hcur : cur !! Z.to_nat k = Some w1).
    { unfold cur. rewrite lookup_app_r by (rewrite length_zip_with, !length_take; lia).
      rewrite lookup_drop, length_zip_with, !length_take.
      rewrite <- Hw1. f_equal. lia. }
    pose proof (lookup_lt_Some _ _ _ Hcur).
    enough (Hr : runs (w1 ← rd k; w2 ← rd2 b2 k; wr k (op w1 w2)) b1 (fun _ b' => brep b'
      (zip_with op (take (Z.to_nat (k + 1)) ws) (take (Z.to_nat (k + 1)) ws2)
        ++ drop (Z.to_nat (k + 1)) ws))).
    { destruct Hr as ([] & s2 & E2 & Hs2). by exists s2. }
    mstep. eapply runs_rd; [done|lia|]. intros ? Hw1'. rewrite Hcur in Hw1'.
    injection Hw1' as <-. mstep. eapply runs_rd2; [done|lia|]. intros ? Hw2'.
    rewrite Hw2 in Hw2'. injection Hw2' as <-.
    eapply runs_wr; [done|lia| |].
    { apply (Hop w1 w2); eapply lookup_word; [eapply brep_words, Hb|done|eapply brep_words, Hb2|done]. }
    intros b3. unfold cur. rewrite (zip_prefix_step op ws ws2 _ w1 w2) by done.
    by replace (Z.to_nat (k + 1)) with (S (Z.to_nat k)) by lia.
  - exists tt, b'. split; [done|]. apply HQ. rewrite Z.add_0_l, Nat2Z.id, zip_with_take_both' in Hb' by done.
    unfold zip_left. destruct (Nat.le_gt_cases (length ws) (length ws2)).
    + rewrite drop_ge in Hb' |- * by lia. done.
    + by replace (length ws `min` length ws2)%nat with (length ws2) in Hb' by lia.
Qed.

(** The loop that clears the words of [b1] beyond [b2] *)
Lemma runs_zero_tail b ws m (Q : unit -> bitset -> Prop) :
  brep b ws -> (m <= length ws)%nat ->
  (forall b', brep b' (take m ws ++ replicate (length ws - m) 0) -> Q tt b') ->
  runs (mfor (length ws - m) (Z.of_nat m) (fun k => wr k 0)) b Q.
Proof.
  intros Hb Hm HQ.
  destruct (mfor_inv (fun k b' => brep b'
      (take m ws ++ replicate (Z.to_nat k - m) 0 ++ drop (Z.to_nat k) ws))
    (fun k => wr k 0) (length ws - m) (Z.of_nat m) b) as (b' & E & Hb').
  - by rewrite Nat2Z.id, Nat.sub_diag, app_nil_l, take_drop.
  - intros k b1 Hk Hb1. destruct (word_at ws k) as [w Hw]; [lia|].
    enough (Hr : runs (wr k 0) b1 (fun _ b' => brep b'
      (take m ws ++ replicate (Z.to_nat (k + 1) - m) 0 ++ drop (Z.to_nat (k + 1)) ws))).
    { destruct Hr as ([] & s2 & E2 & Hs2). by exists s2. }
    eapply runs_wr; [done| |done|].
    { rewrite !length_app, length_take, length_replicate, length_drop. lia. }
    intros b2. rewrite app_assoc.
    rewrite insert_app_r_alt by (rewrite length_app, length_take, length_replicate; lia).
    rewrite (drop_S _ _ _ Hw), length_app, length_take, length_replicate.
    replace (Z.to_nat k - (m `min` length ws + (Z.to_nat k - m)))%nat with 0%nat by lia.
    cbn [insert list_insert]. replace (Z.to_nat (k + 1)) with (S (Z.to_nat k)) by lia.
    rewrite <- app_assoc, Nat.sub_succ_l by lia. rewrite replicate_S_end, <- app_assoc. done.
  - exists tt, b'. split; [done|]. apply HQ.
    replace (Z.to_nat (Z.of_nat m + Z.of_nat (length ws - m))) with (length ws) in Hb' by lia.
    by rewrite drop_all, app_nil_r in Hb'.
Qed.

Lemma runs_inplace_intersection b ws b2 ws2 (Q : unit -> bitset -> Prop) :
  brep b ws -> brep b2 ws2 ->
  (forall b', brep b' (zip_with Z.land ws ws2 ++ replicate (length ws - length ws2) 0) -> Q tt b') ->
  runs (bitset_inplace_intersection b2) b Q.
Proof.
  intros Hb Hb2 HQ. unfold bitset_inplace_intersection. do 3 mstep.
  eapply runs_combine_words; [eauto with userland|done|done|]. intros b1 Hb1.
  rewrite (brep_size b ws), (minlength_eq b b2 ws ws2) by done.
  replace (Z.to_nat _) with (length (zip_left Z.land ws ws2) - length ws `min` length ws2)%nat
    by (rewrite length_zip_left; lia).
  eapply runs_zero_tail; [done|rewrite length_zip_left; lia|].
  intros b3 Hb3. apply HQ. unfold zip_left in Hb3 at 1.
  rewrite take_app_length' in Hb3 by (rewrite length_zip_with; lia).
  rewrite length_zip_left in Hb3.
  by replace (length ws - length ws `min` length ws2)%nat with (length ws - length ws2)%nat in Hb3 by lia.
Qed.

Lemma brep_store b ws : brep b ws -> exists slack, store b (ws ++ slack).
Proof. by intros (_ & _ & ?). Qed.

(** The [memcpy] that appends the end of [b2] *)
Lemma runs_copy_words b ws b2 ws2 k (Q : unit -> bitset -> Prop) :
  brep b ws -> brep b2 ws2 -> length ws = length ws2 -> (k < length ws)%nat ->
  (forall b', brep b' (take k ws ++ drop k ws2) -> Q tt b') ->
  runs (copy_words b2 (Z.of_nat k) (Z.of_nat (length ws2) - Z.of_nat k)) b Q.
Proof.
  intros Hb Hb2 Hlen Hk HQ. pose proof Hb as (Hs & Hm & _).
  destruct (brep_array b ws Hb) as (slack & Ha & Hc & Hf); [by intros ->; simpl in Hk; lia|].
  destruct (brep_array b2 ws2 Hb2) as (slack2 & Ha2 & _ & Hf2).
  { intros ->. simpl in Hlen. lia. }
  unfold copy_words. do 2 mstep. rewrite Ha, Ha2. mstep.
  eapply runs_of_option.
  { apply block_read_Some; [lia|lia|rewrite length_app; lia]. }
  assert (Hsrc : take (Z.to_nat (Z.of_nat (length ws2) - Z.of_nat k))
    (drop (Z.to_nat (Z.of_nat k)) (ws2 ++ slack2)) = drop k ws2).
  { rewrite Nat2Z.id, drop_app_le by lia. rewrite take_app_length'; [done|].
    rewrite length_drop. lia. }
  rewrite Hsrc. mstep. eapply runs_of_option.
  { apply block_write_Some; [lia|rewrite length_app, length_drop; lia]. }
  unfold set_array. mstep. apply HQ.
  rewrite Nat2Z.id, take_app_le, length_drop, drop_app_ge by lia.
  split; [|split].
  - cbn [arraysize]. rewrite Hs, length_app, length_take, length_drop. lia.
  - rewrite length_app, length_take, length_drop. lia.
  - exists (drop (k + (length ws2 - k) - length ws) slack). rewrite <- app_assoc.
    split; [by left|]. cbn [capacity]. apply Forall_app in Hf as [Hf1 Hf3].
    apply Forall_app in Hf2 as [Hf2 _]. split.
    + rewrite Hc, !length_app, length_take, !length_drop. lia.
    + repeat apply Forall_app_2; [by apply Forall_take|by apply Forall_drop..].
Qed.

Section whole.
Context (alloc_ok : Z -> bool) (garbage : nat -> list Z).
Context (Hok : forall n, alloc_ok n = true).
Context (Hgarbage : forall n, length (garbage n) = n /\ Forall word (garbage n)).

Lemma runs_append_words b ws b2 ws2 (Q : bool -> bitset -> Prop) :
  brep b ws -> brep b2 ws2 ->
  (forall b', brep b' (ws ++ drop (length ws) ws2) -> Q true b') ->
  runs (append_words alloc_ok garbage b2) b Q.
Proof.
  intros Hb Hb2 HQ. unfold append_words. do 2 mstep.
  rewrite (brep_size b ws), (brep_size b2 ws2) by done.
  destruct (Z.ltb_spec (Z.of_nat (length ws)) (Z.of_nat (length ws2))) as [H|H].
  - cbv zeta. mstep. pose proof (brep_max b2 ws2 Hb2).
    eapply runs_resize; [done|done|done|lia|]. intros tail b1 Hb1 Ht _. cbn [negb].
    rewrite Nat2Z.id, take_ge in Hb1 by lia. rewrite Nat2Z.id in Ht. mstep.
    eapply runs_copy_words; [done|done|rewrite length_app; lia|rewrite length_app; lia|].
    intros b3 Hb3. mstep. apply HQ. by rewrite take_app_length in Hb3.
  - mstep. apply HQ. rewrite drop_ge by lia. by rewrite app_nil_r.
Qed.

(** [bitset_inplace_union] and [bitset_inplace_symmetric_difference] *)
Lemma runs_combine_append op f b ws b2 ws2 (Q : bool -> bitset -> Prop) :
  bitwise op f -> brep b ws -> brep b2 ws2 ->
  (forall b', brep b' (zip_rest op ws ws2) -> Q true b') ->
  runs (combine_words op b2 ;; append_words alloc_ok garbage b2) b Q.
Proof.
  intros Hop Hb Hb2 HQ. mstep. eapply runs_combine_words; [done|done|done|].
  intros b1 Hb1. eapply runs_append_words; [done|done|]. intros b3.
  rewrite length_zip_left. unfold zip_left. rewrite <- app_assoc. apply HQ.
Qed.
End whole.

(** ** Counting *)
Definition pops (ws : list Z) : Z := foldr (fun w acc => popcount w + acc) 0 ws.

Lemma pops_app l1 l2 : pops (l1 ++ l2) = pops l1 + pops l2.
Proof. induction l1; simpl; lia. Qed.

Lemma pops_bound l : 0 <= pops l <= 64 * Z.of_nat (length l).
Proof. induction l as [|w l IH]; simpl; [lia|]. pose proof (popcount_bound w). lia. Qed.

Lemma length_members_wval ws :
  Forall word ws ->
  Z.of_nat (length (members (64 * Z.of_nat (length ws)) (wval ws))) = pops ws.
Proof.
  induction 1 as [|w ws Hw Hws IH]; [done|]. cbn [wval length pops foldr].
  replace (64 * Z.of_nat (S (length ws))) with (64 + 64 * Z.of_nat (length ws)) by lia.
  rewrite members_cons by (done || lia). rewrite length_app, length_fmap, Nat2Z.inj_add.
  rewrite IH, popcount_members. done.
Qed.

(** The bits of [v] counted below any bound that covers them *)
Lemma length_members_cover ws n :
  Forall word ws -> 64 * Z.of_nat (length ws) <= n ->
  Z.of_nat (length (members n (wval ws))) = pops ws.
Proof.
  intros Hws Hn. rewrite <- length_members_wval by done. do 2 f_equal.
  apply members_zeros; [lia|done|]. intros i Hi. rewrite wval_testbit by (done || lia).
  apply wbit_none. lia.
Qed.

Section counting.
Context (f : Z -> BM Z) (b : bitset) (R : list Z).
Context (HR : Z.of_nat (length R) <= max_words).

(** [f k] counts the bits of the [k]-th word of [R]. *)
Definition pops_at (k : Z) : Prop :=
  exists w, R !! Z.to_nat k = Some w /\ f k b = Ret (popcount w, b).

Lemma pops_take_S k w : R !! k = Some w -> pops (take (S k) R) = pops (take k R) + popcount w.
Proof. intros Hw. rewrite (take_S_r _ _ _ Hw), pops_app. simpl. lia. Qed.

Lemma sum_block_eq stride k :
  0 <= k -> (forall j, k <= j < k + Z.of_nat stride -> pops_at j) ->
  sum_block f stride k (pops (take (Z.to_nat k) R)) b =
    Ret (pops (take (Z.to_nat (k + Z.of_nat stride)) R), b).
Proof.
  revert k. induction stride as [|stride IH]; intros k Hk Hf; cbn [sum_block].
  - by rewrite Z.add_0_r.
  - destruct (Hf k) as (w & Hw & Ef); [lia|]. rewrite (bind_ret_eq _ _ _ _ _ Ef).
    rewrite <- (pops_take_S _ w) by done. rewrite wrap_small.
    + replace (S (Z.to_nat k)) with (Z.to_nat (k + 1)) by lia. rewrite IH; [|lia|].
      * by replace (k + Z.of_nat (S stride)) with (k + 1 + Z.of_nat stride) by lia.
      * intros j Hj. apply Hf. lia.
    + pose proof (pops_bound (take (S (Z.to_nat k)) R)) as Hp.
      rewrite length_take in Hp. unfold max_words in HR. lia.
Qed.

Lemma count_loop_eq fuel stride n k :
  0 <= k <= n -> n <= Z.of_nat (length R) -> (0 < stride <= 8)%nat -> n - k < Z.of_nat fuel ->
  (forall j, k <= j < n -> pops_at j) ->
  exists k', k <= k' <= n /\ (stride = 1%nat -> k' = n) /\
    count_loop fuel f stride n k (pops (take (Z.to_nat k) R)) b =
      Ret ((k', pops (take (Z.to_nat k') R)), b).
Proof.
  revert k. induction fuel as [|fuel IH]; intros k Hk Hn Hs Hfuel Hf; [lia|].
  cbn [count_loop]. rewrite wrap_small by (unfold max_words in HR; lia).
  destruct (Z.ltb_spec (k + Z.of_nat stride - 1) n) as [Hlt|Hge].
  - rewrite (bind_ret_eq _ _ _ _ _
      (sum_block_eq stride k ltac:(lia) ltac:(intros; apply Hf; lia))).
    destruct (IH (k + Z.of_nat stride)) as (k' & Hk' & H1 & E); [lia|done|done|lia| |].
    { intros j Hj. apply Hf. lia. }
    exists k'. split; [lia|]. done.
  - exists k. split; [lia|]. split; [|done]. intros ->. lia.
Qed.
End counting.

(** An unrolled loop followed by the loop that finishes the count *)
Lemma count_two {B} f b R fuel stride n k (K : Z -> Z -> BM B) :
  Z.of_nat (length R) <= max_words ->
  0 <= k <= n -> n <= Z.of_nat (length R) -> (0 < stride <= 8)%nat -> n - k < Z.of_nat fuel ->
  (forall j, k <= j < n -> pops_at f b R j) ->
  ('(k1, c1) ← count_loop fuel f stride n k (pops (take (Z.to_nat k) R));
   '(k2, c2) ← count_loop fuel f 1 n k1 c1; K k2 c2) b =
  K n (pops (take (Z.to_nat n) R)) b.
Proof.
  intros HR Hk Hn Hs Hfuel Hf.
  destruct (count_loop_eq f b R HR fuel stride n k) as (k1 & Hk1 & _ & E1); [done..|].
  rewrite (bind_ret_eq _ _ _ _ _ E1).
  destruct (count_loop_eq f b R HR fuel 1 n k1) as (k2 & Hk2 & H2 & E2);
    [lia|done|lia|lia|intros; apply Hf; lia|].
  rewrite (bind_ret_eq _ _ _ _ _ E2). by rewrite H2.
Qed.

Lemma count_one {B} f b R fuel n k (K : Z -> Z -> BM B) :
  Z.of_nat (length R) <= max_words ->
  0 <= k <= n -> n <= Z.of_nat (length R) -> n - k < Z.of_nat fuel ->
  (forall j, k <= j < n -> pops_at f b R j) ->
  ('(k2, c2) ← count_loop fuel f 1 n k (pops (take (Z.to_nat k) R)); K k2 c2) b =
  K n (pops (take (Z.to_nat n) R)) b.
Proof.
  intros HR Hk Hn Hfuel Hf.
  destruct (count_loop_eq f b R HR fuel 1 n k) as (k2 & Hk2 & H2 & E2); [lia|lia|lia|lia|done|].
  rewrite (bind_ret_eq _ _ _ _ _ E2). by rewrite H2.
Qed.

Lemma pop1_at b ws R k :
  brep b ws -> 0 <= k < Z.of_nat (length ws) -> R !! Z.to_nat k = ws !! Z.to_nat k ->
  pops_at pop1 b R k.
Proof.
  intros Hb Hk HR. destruct (word_at ws k Hk) as [w Hw]. exists w.
  split; [by rewrite HR|]. unfold pop1.
  by rewrite (bind_ret_eq _ _ _ _ _ (rd_eq b ws k w Hb (proj1 Hk) Hw)).
Qed.

Lemma pop2_at b b2 ws2 R k :
  brep b2 ws2 -> 0 <= k < Z.of_nat (length ws2) -> R !! Z.to_nat k = ws2 !! Z.to_nat k ->
  pops_at (pop2 b2) b R k.
Proof.
  intros Hb Hk HR. destruct (word_at ws2 k Hk) as [w Hw]. exists w.
  split; [by rewrite HR|]. unfold pop2.
  by rewrite (bind_ret_eq _ _ _ _ _ (rd2_eq b2 ws2 k w b Hb (proj1 Hk) Hw)).
Qed.

Lemma pop12_at op b ws b2 ws2 R k :
  brep b ws -> brep b2 ws2 -> 0 <= k < Z.of_nat (length ws `min` length ws2) ->
  R !! Z.to_nat k = zip_with op ws ws2 !! Z.to_nat k ->
  pops_at (pop12 op b2) b R k.
Proof.
  intros Hb Hb2 Hk HR. destruct (word_at ws k) as [w Hw]; [lia|].
  destruct (word_at ws2 k) as [w2 Hw2]; [lia|]. exists (op w w2).
  split; [by rewrite HR, lookup_zip_with, Hw, Hw2|]. unfold pop12.
  rewrite (bind_ret_eq _ _ _ _ _ (rd_eq b ws k w Hb (proj1 Hk) Hw)).
  by rewrite (bind_ret_eq _ _ _ _ _ (rd2_eq b2 ws2 k w2 b Hb2 (proj1 Hk) Hw2)).
Qed.

Lemma count_eq b ws : brep b ws -> bitset_count b = Ret (pops ws, b).
Proof.
  intros Hb. pose proof (brep_max b ws Hb) as Hm. pose proof (brep_size b ws Hb) as Hs.
  unfold bitset_count. erewrite bind_ret_eq by done. cbv zeta. rewrite Hs.
  assert (Hat : forall j, 0 <= j < Z.of_nat (length ws) -> pops_at pop1 b ws j).
  { intros j Hj. by apply (pop1_at b ws). }
  destruct (count_loop_eq pop1 b ws Hm (S (Z.to_nat (Z.of_nat (length ws)))) 8
    (Z.of_nat (length ws)) 0) as (k1 & Hk1 & _ & E1); [lia|lia|lia|lia|done|].
  change (pops (take (Z.to_nat 0) ws)) with 0 in E1.
  rewrite (bind_ret_eq _ _ _ _ _ E1).
  rewrite count_two by first [done | lia | intros; apply Hat; lia].
  by rewrite Nat2Z.id, firstn_all.
Qed.

Section binary_counts.
Context (b b2 : bitset) (ws ws2 : list Z).
Context (Hb : brep b ws) (Hb2 : brep b2 ws2).

Local Abbreviation n1 := (Z.of_nat (length ws)).
Local Abbreviation n2 := (Z.of_nat (length ws2)).

Lemma zip_rest_lookup_left op k :
  (length ws2 <= length ws)%nat -> n2 <= k < n1 ->
  zip_rest op ws ws2 !! Z.to_nat k = ws !! Z.to_nat k.
Proof.
  intros Hl Hk. unfold zip_rest. rewrite lookup_app_r by (rewrite length_zip_with; lia).
  rewrite length_zip_with, (drop_ge ws2), app_nil_r, lookup_drop by lia. f_equal. lia.
Qed.

Lemma zip_rest_lookup_right op k :
  (length ws <= length ws2)%nat -> n1 <= k < n2 ->
  zip_rest op ws ws2 !! Z.to_nat k = ws2 !! Z.to_nat k.
Proof.
  intros Hl Hk. unfold zip_rest. rewrite lookup_app_r by (rewrite length_zip_with; lia).
  rewrite length_zip_with, (drop_ge ws), app_nil_l, lookup_drop by lia. f_equal. lia.
Qed.

Lemma zip_lookup_common (op : Z -> Z -> Z) rest k :
  0 <= k < Z.of_nat (length ws `min` length ws2) ->
  (zip_with op ws ws2 ++ rest) !! Z.to_nat k = zip_with op ws ws2 !! Z.to_nat k.
Proof. intros Hk. apply lookup_app_l. rewrite length_zip_with. lia. Qed.

Lemma max_zip_rest op : Z.of_nat (length (zip_rest op ws ws2)) <= max_words.
Proof.
  rewrite length_zip_rest. pose proof (brep_max b ws Hb). pose proof (brep_max b2 ws2 Hb2). lia.
Qed.

(** The three phases of the union and symmetric difference counts *)
Lemma pop12_rest op j :
  0 <= j < Z.of_nat (length ws `min` length ws2) ->
  pops_at (pop12 op b2) b (zip_rest op ws ws2) j.
Proof. intros Hj. apply (pop12_at op b ws b2 ws2); [done|done|done|]. by apply zip_lookup_common. Qed.

Lemma union_count_eq : bitset_union_count b2 b = Ret (pops (zip_rest Z.lor ws ws2), b).
Proof.
  pose proof (max_zip_rest Z.lor) as Hmax. pose proof (length_zip_rest Z.lor ws ws2) as Hlen.
  unfold bitset_union_count. erewrite bind_ret_eq by done. cbv zeta.
  rewrite (brep_size b ws), (brep_size b2 ws2), (minlength_eq b b2 ws ws2) by done.
  change 0 with (pops (take (Z.to_nat 0) (zip_rest Z.lor ws ws2))) at 2.
  rewrite count_two by first [done | lia | intros; apply pop12_rest; lia].
  destruct (Z.ltb_spec n1 n2).
  - rewrite count_two by first [done | lia | intros; apply (pop2_at b b2 ws2);
      [done|lia|apply zip_rest_lookup_right; lia]].
    rewrite take_ge by lia. done.
  - rewrite count_two by first [done | lia | intros; apply (pop1_at b ws);
      [done|lia|apply zip_rest_lookup_left; lia]].
    rewrite take_ge by lia. done.
Qed.

Lemma symmetric_difference_count_eq :
  bitset_symmetric_difference_count b2 b = Ret (pops (zip_rest Z.lxor ws ws2), b).
Proof.
  pose proof (max_zip_rest Z.lxor) as Hmax. pose proof (length_zip_rest Z.lxor ws ws2) as Hlen.
  unfold bitset_symmetric_difference_count. erewrite bind_ret_eq by done. cbv zeta.
  rewrite (brep_size b ws), (brep_size b2 ws2), (minlength_eq b b2 ws ws2) by done.
  change 0 with (pops (take (Z.to_nat 0) (zip_rest Z.lxor ws ws2))) at 2.
  rewrite count_one by first [done | lia | intros; apply pop12_rest; lia].
  destruct (Z.ltb_spec n1 n2).
  - rewrite count_one by first [done | lia | intros; apply (pop2_at b b2 ws2);
      [done|lia|apply zip_rest_lookup_right; lia]].
    rewrite take_ge by lia. done.
  - rewrite count_one by first [done | lia | intros; apply (pop1_at b ws);
      [done|lia|apply zip_rest_lookup_left; lia]].
    rewrite take_ge by lia. done.
Qed.

Lemma intersection_count_eq :
  bitset_intersection_count b2 b = Ret (pops (zip_with Z.land ws ws2), b).
Proof.
  pose proof (brep_max b ws Hb). pose proof (length_zip_with Z.land ws ws2) as Hlen.
  unfold bitset_intersection_count. erewrite bind_ret_eq by done. cbv zeta.
  rewrite (minlength_eq b b2 ws ws2) by done.
  rewrite (brep_size b ws), (brep_size b2 ws2) by done.
  change 0 with (pops (take (Z.to_nat 0) (zip_with Z.land ws ws2))) at 2.
  rewrite count_one by first [done | lia | intros; by apply (pop12_at Z.land b ws b2 ws2)].
  rewrite take_ge by lia. done.
Qed.

Lemma difference_count_eq :
  bitset_difference_count b2 b = Ret (pops (zip_left andnot ws ws2), b).
Proof.
  pose proof (brep_max b ws Hb). pose proof (length_zip_left andnot ws ws2) as Hlen.
  unfold bitset_difference_count. erewrite bind_ret_eq by done. cbv zeta.
  rewrite (minlength_eq b b2 ws ws2) by done.
  rewrite (brep_size b ws), (brep_size b2 ws2) by done.
  change 0 with (pops (take (Z.to_nat 0) (zip_left andnot ws ws2))) at 2.
  rewrite count_one by first [done | lia | intros; apply (pop12_at andnot b ws b2 ws2);
    [done|done|lia|apply zip_lookup_common; lia]].
  rewrite count_one.
  - rewrite take_ge by lia. done.
  - lia.
  - lia.
  - lia.
  - lia.
  - intros j Hj. apply (pop1_at b ws); [done|lia|]. unfold zip_left.
    rewrite lookup_app_r by (rewrite length_zip_with; lia).
    rewrite length_zip_with, lookup_drop. f_equal. lia.
Qed.
End binary_counts.
