(* ===== verification/BitsetIter.v ===== *)
(** * Searching and iterating over bitsets

    The loops that look for a word or enumerate the members of a set. *)

From S2P Require Import Prelude Bitset BitsetWords BitsetRep BitsetLoops.

(** The members of [v] in [k, k + n), in increasing order *)
Definition members_in (k n v : Z) : list Z :=
  filter (fun i => Z.testbit v i = true) (seqZ k n).

Lemma members_in_app k n1 n2 v :
  0 <= n1 -> 0 <= n2 ->
  members_in k (n1 + n2) v = members_in k n1 v ++ members_in (k + n1) n2 v.
Proof. intros. unfold members_in. by rewrite seqZ_app, filter_app by lia. Qed.

Lemma members_in_empty k n v : n <= 0 -> members_in k n v = [].
Proof. intros. unfold members_in. by rewrite seqZ_nil. Qed.

(** The members in one word, from its bit [r] on *)
Lemma members_in_word ws k r w :
  Forall word ws -> 0 <= k -> 0 <= r < 64 -> ws !! Z.to_nat k = Some w ->
  members_in (64 * k + r) (64 - r) (wval ws) =
    (fun j => 64 * k + r + j) <$> members 64 (Z.shiftr w r).
Proof.
  intros Hws Hk Hr Hw. assert (Hword : word w) by (by eapply lookup_word).
  rewrite (members_zeros (64 - r) 64) by
    (lia || (intros i Hi; rewrite Z.shiftr_spec by lia; apply word_bit_high; [done|lia])).
  apply filter_seqZ_shift. intros i Hi.
  rewrite wval_testbit, Z.shiftr_spec by (done || lia). unfold wbit.
  replace (64 * k + r + i) with (i + r + k * 64) by lia.
  rewrite Z.div_add, Z.mod_add, Z.div_small, Z.mod_small by lia.
  rewrite Z.add_0_l, Hw. done.
Qed.

Lemma members_in_word_0 ws k w :
  Forall word ws -> 0 <= k -> ws !! Z.to_nat k = Some w ->
  members_in (64 * k) 64 (wval ws) = (fun j => 64 * k + j) <$> members 64 w.
Proof.
  intros Hws Hk Hw. pose proof (members_in_word ws k 0 w Hws Hk ltac:(lia) Hw) as H.
  by rewrite Z.shiftr_0_r, Z.add_0_r in H.
Qed.

(** The first member in a non-zero word *)
Lemma members_word_ctz w :
  word w -> w <> 0 -> exists rest, members 64 w = ctz w :: rest.
Proof.
  intros Hw Hne. destruct (members_lowest w) as [-> _]; [done|destruct Hw; lia|]. eauto.
Qed.

(** The last one *)
Lemma members_word_last w :
  word w -> w <> 0 -> last (members 64 w) = Some (Z.log2 w).
Proof.
  intros Hw Hne. assert (0 < w) by (destruct Hw; lia).
  pose proof (Z.log2_nonneg w). pose proof (Z.log2_spec w ltac:(done)) as Hl.
  assert (Z.log2 w < 64).
  { destruct (Z.lt_ge_cases (Z.log2 w) 64) as [|Hge]; [done|].
    assert (2 ^ 64 <= 2 ^ Z.log2 w) by (apply Z.pow_le_mono_r; lia).
    destruct Hw. lia. }
  rewrite (members_zeros (Z.log2 w + 1) 64) by
    (lia || (intros i Hi; apply Z.bits_above_log2; lia)).
  rewrite members_app, last_app by lia. rewrite seqZ_cons by lia.
  rewrite filter_cons_True by by apply Z.bit_log2.
  by rewrite seqZ_nil by lia.
Qed.

(** ** First and last *)
Lemma wrap_index k j : 0 <= k -> k < max_words -> 0 <= j < 64 -> usz (k * 64 + j) = 64 * k + j.
Proof. unfold max_words. intros. rewrite wrap_small; lia. Qed.

Section search.
Context (b : bitset) (ws : list Z) (Hb : brep b ws).
Local Abbreviation n := (Z.of_nat (length ws)).
Local Abbreviation v := (wval ws).

Lemma brep_word k w : ws !! k = Some w -> word w.
Proof. intros Hw. eapply lookup_word; [by eapply brep_words|done]. Qed.

(** The first member in the words from [x] on *)
Lemma members_in_head m x w :
  0 <= x -> 0 <= m -> ws !! Z.to_nat x = Some w ->
  head (members_in (64 * x) (64 * (m + 1)) v) =
    if w =? 0 then head (members_in (64 * (x + 1)) (64 * m) v) else Some (64 * x + ctz w).
Proof.
  intros Hx Hm Hw. replace (64 * (m + 1)) with (64 + 64 * m) by lia.
  rewrite members_in_app, (members_in_word_0 ws x w) by
    (done || lia || by eapply brep_words).
  replace (64 * x + 64) with (64 * (x + 1)) by lia.
  destruct (Z.eqb_spec w 0) as [->|Hne]; [by rewrite members_0|].
  destruct (members_word_ctz w) as [rest ->]; [by eapply brep_word|done|done].
Qed.

Lemma next_loop_eq m x :
  0 <= x -> x + Z.of_nat m <= n ->
  next_loop m x b = Ret (head (members_in (64 * x) (64 * Z.of_nat m) v), b).
Proof.
  revert x. induction m as [|m IH]; intros x Hx Hm; cbn [next_loop].
  { by rewrite members_in_empty. }
  destruct (word_at ws x) as [w Hw]; [lia|].
  rewrite (bind_ret_eq _ _ _ _ _ (rd_eq b ws x w Hb Hx Hw)).
  replace (Z.of_nat (S m)) with (Z.of_nat m + 1) by lia.
  rewrite (members_in_head _ x w) by (done || lia).
  destruct (Z.eqb_spec w 0) as [->|Hne]; cbn [negb]; [by rewrite IH by lia|].
  pose proof (brep_max b ws Hb). rewrite wrap_index; [done|done|lia|].
  apply ctz_word; [by eapply brep_word|]. pose proof (brep_word _ _ Hw) as [? _]. lia.
Qed.

Lemma minimum_loop_eq m k :
  0 <= k -> k + Z.of_nat m <= n ->
  minimum_loop m k b = Ret (default 0 (head (members_in (64 * k) (64 * Z.of_nat m) v)), b).
Proof.
  revert k. induction m as [|m IH]; intros k Hk Hm; cbn [minimum_loop].
  { by rewrite members_in_empty. }
  destruct (word_at ws k) as [w Hw]; [lia|].
  rewrite (bind_ret_eq _ _ _ _ _ (rd_eq b ws k w Hb Hk Hw)).
  replace (Z.of_nat (S m)) with (Z.of_nat m + 1) by lia.
  rewrite (members_in_head _ k w) by (done || lia).
  destruct (Z.eqb_spec w 0) as [->|Hne]; cbn [negb]; [by rewrite IH by lia|].
  pose proof (brep_max b ws Hb). rewrite Z.add_comm, wrap_index; [done|done|lia|].
  apply ctz_word; [by eapply brep_word|]. pose proof (brep_word _ _ Hw) as [? _]. lia.
Qed.

Lemma maximum_loop_eq k :
  (k <= length ws)%nat ->
  maximum_loop k b = Ret (default 0 (last (members (64 * Z.of_nat k) v)), b).
Proof.
  induction k as [|k IH]; intros Hk; cbn [maximum_loop]; [done|].
  destruct (word_at ws (Z.of_nat k)) as [w Hw]; [lia|].
  rewrite (bind_ret_eq _ _ _ _ _ (rd_eq b ws (Z.of_nat k) w Hb (Nat2Z.is_nonneg k) Hw)).
  replace (64 * Z.of_nat (S k)) with (64 * Z.of_nat k + 64) by lia.
  change (members ?a v) with (members_in 0 a v).
  rewrite members_in_app, Z.add_0_l, (members_in_word_0 ws _ w), last_app by
    (done || lia || by eapply brep_words).
  pose proof (brep_word _ _ Hw) as Hword.
  destruct (Z.eqb_spec w 0) as [->|Hne]; cbn [negb]; [by rewrite members_0, IH by lia|].
  rewrite fmap_last, members_word_last by done. cbn [fmap option_fmap option_map default].
  unfold clz. replace (63 - (63 - Z.log2 w)) with (Z.log2 w) by lia.
  pose proof (brep_max b ws Hb).
  assert (Z.log2 w < 64).
  { assert (Hin : Z.log2 w ∈ members 64 w) by
      (apply last_Some_elem_of; by apply members_word_last).
    apply elem_of_members in Hin. lia. }
  pose proof (Z.log2_nonneg w). by rewrite Z.add_comm, wrap_index by lia.
Qed.

Lemma minimum_eq : bitset_minimum b = Ret (default 0 (head (members (64 * n) v)), b).
Proof.
  unfold bitset_minimum. erewrite bind_ret_eq by done. rewrite (brep_size b ws) by done.
  rewrite Nat2Z.id. by rewrite minimum_loop_eq by lia.
Qed.

Lemma maximum_eq : bitset_maximum b = Ret (default 0 (last (members (64 * n) v)), b).
Proof.
  unfold bitset_maximum. erewrite bind_ret_eq by done. rewrite (brep_size b ws) by done.
  rewrite Nat2Z.id. by rewrite maximum_loop_eq by lia.
Qed.

Lemma land63 i : Z.land i 63 = i mod 64.
Proof. change 63 with (Z.ones 6). by rewrite Z.land_ones. Qed.

(** The word [nextSetBit] and [nextSetBits] start with *)
Lemma members_in_first i w m :
  0 <= i -> ws !! Z.to_nat (i / 64) = Some w -> 0 <= m ->
  members_in i (64 - i mod 64 + m) v =
    ((fun j => i + j) <$> members 64 (Z.shiftr w (i mod 64))) ++
    members_in (64 * (i / 64 + 1)) m v.
Proof.
  intros Hi Hw Hm. pose proof (word_mod_bound i). pose proof (Z.div_mod i 64 ltac:(done)) as Hdm.
  rewrite members_in_app by lia. f_equal.
  - rewrite Hdm at 1. rewrite (members_in_word ws (i / 64) (i mod 64) w), <- Hdm;
      [done|by eapply brep_words|apply Z.div_pos; lia|lia|done].
  - f_equal. lia.
Qed.

Lemma nextSetBit_eq i :
  0 <= i -> nextSetBit i b = Ret (head (members_in i (64 * n - i) v), b).
Proof.
  intros Hi. pose proof (word_mod_bound i) as Hr.
  pose proof (Z.div_mod i 64 ltac:(done)) as Hdm. pose proof (brep_max b ws Hb) as Hmax.
  assert (0 <= i / 64) by (apply Z.div_pos; lia).
  unfold nextSetBit. erewrite bind_ret_eq by done.
  rewrite shiftr6, land63, (brep_size b ws) by done.
  destruct (Z.leb_spec n (i / 64)); [by rewrite members_in_empty by lia|].
  destruct (word_at ws (i / 64)) as [w Hw]; [lia|].
  rewrite (bind_ret_eq _ _ _ _ _ (rd_eq b ws (i / 64) w Hb ltac:(lia) Hw)).
  replace (64 * n - i) with (64 - i mod 64 + 64 * (n - (i / 64 + 1))) by lia.
  rewrite (members_in_first i w) by (done || lia).
  pose proof (shiftr_word w (i mod 64) (brep_word _ _ Hw) ltac:(lia)) as Hsw.
  destruct (Z.eqb_spec (Z.shiftr w (i mod 64)) 0) as [->|Hne]; cbn [negb].
  - rewrite members_0, next_loop_eq by lia. rewrite Z2Nat.id by lia. done.
  - destruct (members_word_ctz _ Hsw Hne) as [rest E]. rewrite E.
    cbn [fmap list_fmap app head]. rewrite wrap_small; [done|].
    pose proof (ctz_word _ Hsw ltac:(destruct Hsw; lia)). unfold max_words in Hmax. lia.
Qed.
End search.

(** ** Comparisons *)
Section compare.
Context (b b2 : bitset) (ws ws2 : list Z) (Hb : brep b ws) (Hb2 : brep b2 ws2).

Lemma wval_cons_0 w l : word w -> Forall word l -> (wval (w :: l) =? 0) = (w =? 0) && (wval l =? 0).
Proof.
  intros Hw Hl. pose proof (wval_nonneg l Hl). destruct Hw as [Hw _]. cbn [wval].
  destruct (Z.eqb_spec (w + 2 ^ 64 * wval l) 0), (Z.eqb_spec w 0), (Z.eqb_spec (wval l) 0);
    simpl; lia.
Qed.

Lemma wval_app_0 l1 l2 :
  Forall word l1 -> Forall word l2 -> (wval (l1 ++ l2) =? 0) = (wval l1 =? 0) && (wval l2 =? 0).
Proof.
  intros H1 H2. induction H1 as [|w l1 Hw Hl IH]; [done|].
  cbn [app]. rewrite !wval_cons_0, IH by (done || by apply Forall_app_2).
  by rewrite andb_assoc.
Qed.

Lemma zip_drop_word op f k :
  bitwise op f -> Forall word (zip_with op (drop k ws) (drop k ws2)).
Proof.
  intros Hop. eapply zip_word; [done|..]; apply Forall_drop; by eapply brep_words.
Qed.

(** The step all the comparison loops share *)
Lemma zip_drop_step (op : Z -> Z -> Z) k w w2 :
  0 <= k -> ws !! Z.to_nat k = Some w -> ws2 !! Z.to_nat k = Some w2 ->
  zip_with op (drop (Z.to_nat k) ws) (drop (Z.to_nat k) ws2) =
    op w w2 :: zip_with op (drop (Z.to_nat (k + 1)) ws) (drop (Z.to_nat (k + 1)) ws2).
Proof.
  intros Hk Hw Hw2. rewrite (drop_S _ _ _ Hw), (drop_S _ _ _ Hw2).
  by replace (Z.to_nat (k + 1)) with (S (Z.to_nat k)) by lia.
Qed.

Lemma common_loop_eq m k :
  0 <= k -> k + Z.of_nat m = Z.of_nat (length ws `min` length ws2) ->
  common_loop m k b2 b =
    Ret (negb (wval (zip_with Z.land (drop (Z.to_nat k) ws) (drop (Z.to_nat k) ws2)) =? 0), b).
Proof.
  revert k. induction m as [|m IH]; intros k Hk Hm; cbn [common_loop].
  - destruct (Nat.le_gt_cases (length ws) (length ws2)).
    + by rewrite (drop_ge ws) by lia.
    + rewrite (drop_ge ws2) by lia. by rewrite zip_with_nil_r.
  - destruct (word_at ws k) as [w Hw]; [lia|]. destruct (word_at ws2 k) as [w2 Hw2]; [lia|].
    rewrite (bind_ret_eq _ _ _ _ _ (rd_eq b ws k w Hb Hk Hw)).
    rewrite (bind_ret_eq _ _ _ _ _ (rd2_eq b2 ws2 k w2 b Hb2 Hk Hw2)).
    pose proof (brep_word _ _ Hb _ _ Hw). pose proof (brep_word _ _ Hb2 _ _ Hw2).
    rewrite (zip_drop_step _ k w w2), wval_cons_0 by
      first [done | by apply bitwise_land | eapply zip_drop_word; eauto with userland].
    destruct (Z.eqb_spec (Z.land w w2) 0); cbn [negb andb]; [by apply IH; lia|done].
Qed.

Lemma any_loop_eq m k :
  0 <= k -> k + Z.of_nat m = Z.of_nat (length ws2) ->
  any_loop m k b2 b = Ret (negb (wval (drop (Z.to_nat k) ws2) =? 0), b).
Proof.
  revert k. induction m as [|m IH]; intros k Hk Hm; cbn [any_loop].
  - by rewrite drop_ge by lia.
  - destruct (word_at ws2 k) as [w Hw]; [lia|].
    rewrite (bind_ret_eq _ _ _ _ _ (rd2_eq b2 ws2 k w b Hb2 Hk Hw)).
    rewrite (drop_S _ _ _ Hw), wval_cons_0 by
      first [by apply (brep_word b2 ws2 Hb2 _ _ Hw) | apply Forall_drop; by eapply brep_words].
    destruct (Z.eqb_spec w 0); cbn [negb andb]; [|done].
    rewrite IH by lia. by replace (Z.to_nat (k + 1)) with (S (Z.to_nat k)) by lia.
Qed.

Lemma any_bits_set_eq k :
  0 <= k -> any_bits_set b2 k b = Ret (negb (wval (drop (Z.to_nat k) ws2) =? 0), b).
Proof.
  intros Hk. unfold any_bits_set. rewrite (brep_size b2 ws2) by done.
  destruct (Z.leb_spec (Z.of_nat (length ws2)) k); [by rewrite drop_ge by lia|].
  apply any_loop_eq; lia.
Qed.

(** [w2] is contained in [w1] when nothing of it is outside. *)
Lemma land_eq_andnot w w2 :
  word w -> word w2 -> (Z.land w w2 =? w2) = (andnot w2 w =? 0).
Proof.
  intros Hw Hw2. destruct (bitwise_andnot w2 w Hw2 Hw) as [Ha Hbit].
  destruct (Z.eqb_spec (Z.land w w2) w2) as [E|E];
    destruct (Z.eqb_spec (andnot w2 w) 0) as [E'|E']; [done| | |done]; exfalso.
  - apply E'. apply Z.bits_inj'. intros i Hi. rewrite Z.bits_0.
    destruct (Z.lt_ge_cases i 64); [|by apply word_bit_high].
    rewrite Hbit by lia. rewrite <- E, Z.land_spec.
    by destruct (Z.testbit w i), (Z.testbit w2 i).
  - apply E. apply Z.bits_inj'. intros i Hi. rewrite Z.land_spec.
    destruct (Z.lt_ge_cases i 64); [|by rewrite !word_bit_high].
    pose proof (Hbit i ltac:(lia)) as Hi'. rewrite E', Z.bits_0 in Hi'.
    by destruct (Z.testbit w i), (Z.testbit w2 i).
Qed.

Lemma contains_loop_eq m k :
  0 <= k -> k + Z.of_nat m = Z.of_nat (length ws) -> (length ws <= length ws2)%nat ->
  contains_loop m k b2 b =
    Ret (wval (zip_with andnot (drop (Z.to_nat k) ws2) (drop (Z.to_nat k) ws)) =? 0, b).
Proof.
  intros Hk Hm Hl. revert k Hk Hm. induction m as [|m IH]; intros k Hk Hm; cbn [contains_loop].
  - rewrite (drop_ge ws) by lia. by rewrite zip_with_nil_r.
  - destruct (word_at ws k) as [w Hw]; [lia|]. destruct (word_at ws2 k) as [w2 Hw2]; [lia|].
    rewrite (bind_ret_eq _ _ _ _ _ (rd_eq b ws k w Hb Hk Hw)).
    rewrite (bind_ret_eq _ _ _ _ _ (rd2_eq b2 ws2 k w2 b Hb2 Hk Hw2)).
    pose proof (brep_word _ _ Hb _ _ Hw). pose proof (brep_word _ _ Hb2 _ _ Hw2).
    rewrite land_eq_andnot by done.
    rewrite (drop_S _ _ _ Hw), (drop_S _ _ _ Hw2). cbn [zip_with].
    rewrite wval_cons_0.
    + destruct (Z.eqb_spec (andnot w2 w) 0); cbn [negb andb]; [|done].
      rewrite IH by lia. by replace (Z.to_nat (k + 1)) with (S (Z.to_nat k)) by lia.
    + by apply bitwise_andnot.
    + eapply zip_word; [eauto with userland|..]; apply Forall_drop; by eapply brep_words.
Qed.

Lemma disjoint_eq :
  bitsets_disjoint b2 b = Ret (Z.land (wval ws) (wval ws2) =? 0, b).
Proof.
  unfold bitsets_disjoint. erewrite bind_ret_eq by done.
  rewrite (minlength_eq b b2 ws ws2), Nat2Z.id by done.
  rewrite (bind_ret_eq _ _ _ _ _ (common_loop_eq (length ws `min` length ws2) 0 ltac:(lia) ltac:(lia))).
  rewrite negb_involutive. cbn [Z.to_nat drop].
  by rewrite wval_inter by by eapply brep_words.
Qed.

Lemma intersect_eq :
  bitsets_intersect b2 b = Ret (negb (Z.land (wval ws) (wval ws2) =? 0), b).
Proof.
  unfold bitsets_intersect. erewrite bind_ret_eq by done.
  rewrite (minlength_eq b b2 ws ws2), Nat2Z.id by done.
  rewrite common_loop_eq by lia. cbn [Z.to_nat drop].
  by rewrite wval_inter by by eapply brep_words.
Qed.

Lemma contains_all_eq :
  (length ws <= length ws2)%nat ->
  bitset_contains_all b2 b = Ret (Z.ldiff (wval ws2) (wval ws) =? 0, b).
Proof.
  intros Hl. unfold bitset_contains_all. erewrite bind_ret_eq by done.
  rewrite (brep_size b ws), (brep_size b2 ws2), Nat2Z.id by done.
  rewrite (bind_ret_eq _ _ _ _ _ (contains_loop_eq (length ws) 0 ltac:(lia) ltac:(lia) Hl)).
  change (Z.to_nat 0) with 0%nat. rewrite !drop_0.
  assert (Hw : Forall word ws) by by eapply brep_words.
  assert (Hw2 : Forall word ws2) by by eapply brep_words.
  rewrite <- wval_diff by done. unfold zip_left. rewrite wval_app_0.
  - destruct (wval (zip_with andnot ws2 ws) =? 0); cbn [negb andb]; [|done].
    destruct (Z.ltb_spec (Z.of_nat (length ws)) (Z.of_nat (length ws2))).
    + rewrite (bind_ret_eq _ _ _ _ _ (any_bits_set_eq (Z.of_nat (length ws)) ltac:(lia))).
      by rewrite negb_involutive, Nat2Z.id.
    + by rewrite drop_ge by lia.
  - eapply zip_word; eauto with userland.
  - by apply Forall_drop.
Qed.
End compare.

(** ** Enumeration *)

(** The elements of [l] up to the first one that stops, and whether none did *)
Fixpoint visit (stop : Z -> bool) (l : list Z) : list Z * bool :=
  match l with
  | [] => ([], true)
  | x :: l =>
      if stop x then ([x], false)
      else let r := visit stop l in (x :: r.1, r.2)
  end.

Lemma visit_app stop l1 l2 :
  visit stop (l1 ++ l2) =
    if (visit stop l1).2 then ((visit stop l1).1 ++ (visit stop l2).1, (visit stop l2).2)
    else visit stop l1.
Proof.
  induction l1 as [|x l1 IH]; cbn [visit app]; [by destruct (visit stop l2)|].
  destruct (stop x); [done|]. rewrite IH. cbn [fst snd].
  by destruct (visit stop l1) as [r []].
Qed.

Lemma each_bits_eq fuel stop w base log (b : bitset) :
  word w -> (length (members 64 w) < fuel)%nat -> 0 <= base -> base + 64 <= 2 ^ 64 ->
  each_bits fuel stop w base log b =
    Ret (log ++ (visit stop ((fun j => base + j) <$> members 64 w)).1,
         (visit stop ((fun j => base + j) <$> members 64 w)).2, b).
Proof.
  intros Hw Hf H0 H1. revert w log Hw Hf. induction fuel as [|fuel IH]; intros w log Hw Hf; [lia|].
  cbn [each_bits]. destruct (Z.eqb_spec w 0) as [->|Hne].
  { rewrite members_0. cbn. by rewrite app_nil_r. }
  assert (Hpos : 0 < w) by (destruct Hw; lia).
  rewrite lowest_bit by done. destruct (members_lowest w Hw Hpos) as [E Hw'].
  pose proof (ctz_word w Hw Hpos). rewrite (Z.add_comm (ctz w)), wrap_small by lia.
  rewrite E in Hf |- *. cbn [fmap list_fmap visit length] in Hf |- *.
  destruct (stop (base + ctz w)); [done|]. rewrite IH by (done || lia).
  cbn [fst snd]. by rewrite <- app_assoc.
Qed.

Lemma bits_loop_eq fuel w base cap buffer (b : bitset) :
  word w -> (length (members 64 w) < fuel)%nat -> 0 <= base -> base + 64 <= 2 ^ 64 ->
  Z.of_nat (length buffer) < cap ->
  bits_loop fuel w base cap buffer b =
    Ret (take (Z.to_nat cap) (buffer ++ ((fun j => base + j) <$> members 64 w)),
         cap <=? Z.of_nat (length buffer + length (members 64 w)), b).
Proof.
  intros Hw Hf H0 H1. revert w buffer Hw Hf. induction fuel as [|fuel IH]; intros w buffer Hw Hf Hcap; [lia|].
  cbn [bits_loop]. destruct (Z.eqb_spec w 0) as [->|Hne].
  { rewrite members_0. cbn [fmap list_fmap length]. rewrite app_nil_r, take_ge by lia.
    destruct (Z.leb_spec cap (Z.of_nat (length buffer + 0))); [lia|done]. }
  assert (Hpos : 0 < w) by (destruct Hw; lia).
  rewrite lowest_bit by done. destruct (members_lowest w Hw Hpos) as [E Hw'].
  pose proof (ctz_word w Hw Hpos). rewrite (Z.add_comm (ctz w)), wrap_small by lia.
  rewrite E in Hf |- *. cbn [fmap list_fmap length] in Hf |- *.
  rewrite length_app. cbn [length].
  destruct (Z.eqb_spec (Z.of_nat (length buffer + 1)) cap) as [<-|Hnf].
  - rewrite Nat2Z.id, take_app_add. cbn [take].
    destruct (Z.leb_spec (Z.of_nat (length buffer + 1))
      (Z.of_nat (length buffer + S (length (members 64 (Z.lxor w (2 ^ ctz w))))))); [done|lia].
  - rewrite IH by (done || lia || (rewrite length_app; simpl; lia)).
    rewrite <- app_assoc, length_app. cbn [app length]. do 4 f_equal. lia.
Qed.

Section enumerate.
Context (b : bitset) (ws : list Z) (Hb : brep b ws).
Local Abbreviation n := (Z.of_nat (length ws)).
Local Abbreviation v := (wval ws).

Lemma length_members_word w : (length (members 64 w) < 65)%nat.
Proof. pose proof (length_members_le 64 w). lia. Qed.

Lemma wrap_base x : 0 <= x -> x < n -> usz (64 * x + 64) = 64 * (x + 1).
Proof.
  intros. pose proof (brep_max b ws Hb) as Hm. unfold max_words in Hm.
  rewrite wrap_small; lia.
Qed.

(** One word and the ones that follow *)
Lemma members_in_S x m w :
  0 <= x -> 0 <= m -> ws !! Z.to_nat x = Some w ->
  members_in (64 * x) (64 * (m + 1)) v =
    ((fun j => 64 * x + j) <$> members 64 w) ++ members_in (64 * (x + 1)) (64 * m) v.
Proof.
  intros Hx Hm Hw. replace (64 * (m + 1)) with (64 + 64 * m) by lia.
  rewrite members_in_app, (members_in_word_0 ws x w) by
    (done || lia || by eapply brep_words).
  by replace (64 * x + 64) with (64 * (x + 1)) by lia.
Qed.

Lemma each_words_eq stop m i log :
  0 <= i -> i + Z.of_nat m = n ->
  each_words m stop i (64 * i) log b =
    Ret (log ++ (visit stop (members_in (64 * i) (64 * Z.of_nat m) v)).1,
         (visit stop (members_in (64 * i) (64 * Z.of_nat m) v)).2, b).
Proof.
  revert i log. induction m as [|m IH]; intros i log Hi Hm; cbn [each_words].
  { rewrite members_in_empty by lia. cbn. by rewrite app_nil_r. }
  destruct (word_at ws i) as [w Hw]; [lia|].
  rewrite (bind_ret_eq _ _ _ _ _ (rd_eq b ws i w Hb Hi Hw)).
  pose proof (brep_max b ws Hb) as Hmax. unfold max_words in Hmax.
  rewrite (bind_ret_eq _ _ _ _ _ (each_bits_eq 65 stop w (64 * i) log b
    (brep_word _ _ Hb _ _ Hw) (length_members_word w) ltac:(lia) ltac:(lia))).
  rewrite Nat2Z.inj_succ, <- Z.add_1_r, (members_in_S i _ w), visit_app by (done || lia).
  destruct (visit stop ((fun j => 64 * i + j) <$> members 64 w)) as [r []]; cbn [fst snd]; [|done].
  rewrite wrap_base, IH by lia. by rewrite <- app_assoc.
Qed.

Lemma for_each_eq stop :
  bitset_for_each stop b = Ret (visit stop (members (64 * n) v), b).
Proof.
  unfold bitset_for_each. erewrite bind_ret_eq by done. rewrite (brep_size b ws), Nat2Z.id by done.
  change (each_words (length ws) stop 0 0 [] b)
    with (each_words (length ws) stop 0 (64 * 0) [] b).
  rewrite each_words_eq by lia. change (members_in (64 * 0)) with members.
  rewrite app_nil_l. by destruct (visit stop (members (64 * n) v)).
Qed.

Lemma words_loop_eq fuel w x cap buffer :
  word w -> 0 <= x < n -> n - x <= Z.of_nat fuel -> Z.of_nat (length buffer) < cap ->
  words_loop fuel w x (64 * x) cap buffer b =
    Ret (take (Z.to_nat cap) (buffer ++ ((fun j => 64 * x + j) <$> members 64 w) ++
           members_in (64 * (x + 1)) (64 * (n - (x + 1))) v), b).
Proof.
  revert w x buffer. induction fuel as [|fuel IH]; intros w x buffer Hw Hx Hfuel Hcap; [lia|].
  cbn [words_loop]. destruct (Z.ltb_spec (Z.of_nat (length buffer)) cap); [|lia].
  pose proof (brep_max b ws Hb) as Hmax. unfold max_words in Hmax.
  rewrite (bind_ret_eq _ _ _ _ _ (bits_loop_eq 65 w (64 * x) cap buffer b
    Hw (length_members_word w) ltac:(lia) ltac:(lia) Hcap)).
  set (l := (fun j => 64 * x + j) <$> members 64 w).
  assert (Hl : length l = length (members 64 w)) by apply length_fmap.
  destruct (Z.leb_spec cap (Z.of_nat (length buffer + length (members 64 w)))).
  - rewrite app_assoc, (take_app_le (buffer ++ l)) by (rewrite length_app; lia). done.
  - erewrite bind_ret_eq by done. rewrite (brep_size b ws) by done.
    rewrite (take_ge (buffer ++ l)) by (rewrite length_app; lia).
    destruct (Z.eqb_spec (x + 1) n) as [E|E].
    + rewrite members_in_empty, app_nil_r, take_ge by (lia || (rewrite length_app; lia)). done.
    + destruct (word_at ws (x + 1)) as [w' Hw']; [lia|].
      rewrite (bind_ret_eq _ _ _ _ _ (rd_eq b ws (x + 1) w' Hb ltac:(lia) Hw')).
      rewrite wrap_base by lia. rewrite IH; [|by eapply brep_word|lia|lia|rewrite length_app; lia].
      replace (n - (x + 1)) with (n - (x + 1 + 1) + 1) by lia.
      rewrite (members_in_S (x + 1) _ w') by (done || lia). by rewrite <- !app_assoc.
Qed.

(** The indices [nextSetBits] stores: those in the word of [startfrom] are
    all too small by [startfrom mod 64]. *)
Definition next_indices (startfrom : Z) : list Z :=
  ((fun i => i - startfrom mod 64) <$> members_in startfrom (64 - startfrom mod 64) v) ++
  members_in (64 * (startfrom / 64 + 1)) (64 * (n - (startfrom / 64 + 1))) v.

Lemma nextSetBits_eq cap startfrom :
  0 <= startfrom < 64 * n -> 0 < cap ->
  nextSetBits cap startfrom b =
    Ret (take (Z.to_nat cap) (next_indices startfrom),
         default startfrom (last (take (Z.to_nat cap) (next_indices startfrom))), b).
Proof.
  intros Hs Hcap. pose proof (word_mod_bound startfrom) as Hr.
  pose proof (Z.div_mod startfrom 64 ltac:(done)) as Hdm.
  pose proof (Zdiv64_bound startfrom n ltac:(lia)) as Hx.
  unfold nextSetBits. destruct (Z.eqb_spec cap 0) as [|Hc0]; [lia|].
  erewrite bind_ret_eq by done. rewrite shiftr6, land63, (brep_size b ws) by done.
  destruct (Z.leb_spec n (startfrom / 64)); [lia|].
  destruct (word_at ws (startfrom / 64)) as [w Hw]; [lia|].
  rewrite (bind_ret_eq _ _ _ _ _ (rd_eq b ws (startfrom / 64) w Hb ltac:(lia) Hw)).
  rewrite Z.shiftl_mul_pow2, (Z.mul_comm (startfrom / 64)) by lia. change (2 ^ 6) with 64.
  pose proof (shiftr_word w (startfrom mod 64) (brep_word _ _ Hb _ _ Hw) ltac:(lia)) as Hsw.
  erewrite bind_ret_eq; [|apply words_loop_eq; [done|lia|lia|simpl; lia]].
  rewrite app_nil_l. unfold next_indices.
  replace (members_in startfrom (64 - startfrom mod 64) v) with
    ((fun j => startfrom + j) <$> members 64 (Z.shiftr w (startfrom mod 64))).
  - rewrite <- list_fmap_compose.
    rewrite (list_fmap_ext (compose _ _) (fun j => 64 * (startfrom / 64) + j)
      (members 64 (Z.shiftr w (startfrom mod 64)))); [done|].
    intros j i _. unfold compose. lia.
  - pose proof (members_in_first b ws Hb startfrom w 0 ltac:(lia) Hw ltac:(lia)) as H0.
    rewrite (members_in_empty _ 0), app_nil_r, Z.add_0_r in H0 by lia. by rewrite H0.
Qed.
End enumerate.
