(* ===== verification/BitsetShift.v ===== *)
(** * Shifting bitsets

    The in-place word loops of [bitset_shift_left] and [bitset_shift_right]
    move bit [i] to [i + s] and to [i - s]. *)

From S2P Require Import Prelude Bitset BitsetWords BitsetRep BitsetLoops.

(** The [k]-th word of a list, zero outside *)
Definition wat (ws : list Z) (k : Z) : Z :=
  if k <? 0 then 0 else default 0 (ws !! Z.to_nat k).

(** The 64 bits of a list of words that start at bit [64 k + r] *)
Definition funnel (ws : list Z) (k r : Z) : Z :=
  Z.lor (Z.shiftr (wat ws k) r) (u64 (Z.shiftl (wat ws (k + 1)) (64 - r))).

Lemma wat_lookup ws k w : 0 <= k -> ws !! Z.to_nat k = Some w -> wat ws k = w.
Proof. intros Hk Hw. unfold wat. destruct (Z.ltb_spec k 0); [lia|]. by rewrite Hw. Qed.

Lemma wat_neg ws k : k < 0 -> wat ws k = 0.
Proof. intros. unfold wat. destruct (Z.ltb_spec k 0); [done|lia]. Qed.

Lemma wat_beyond ws k : Z.of_nat (length ws) <= k -> wat ws k = 0.
Proof.
  intros. unfold wat. destruct (Z.ltb_spec k 0); [done|].
  by rewrite lookup_ge_None_2 by lia.
Qed.

Lemma wat_word ws k : Forall word ws -> word (wat ws k).
Proof.
  intros Hws. unfold wat. destruct (k <? 0); [by split|]. by apply default_word.
Qed.

Lemma funnel_word ws k r : Forall word ws -> 0 <= r -> word (funnel ws k r).
Proof.
  intros. apply lor_word; [|apply u64_word]. apply shiftr_word; [by apply wat_word|done].
Qed.

(** Bit [j] of the value, negative positions included *)
Lemma wval_wat ws j :
  Forall word ws -> Z.testbit (wval ws) j = Z.testbit (wat ws (j / 64)) (j mod 64).
Proof.
  intros Hws. destruct (Z.lt_ge_cases j 0) as [Hj|Hj].
  - rewrite Z.testbit_neg_r, wat_neg, Z.bits_0 by (done || apply Z.div_lt_upper_bound; lia). done.
  - rewrite wval_testbit by done. unfold wbit, wat.
    assert (0 <= j / 64) by (apply Z.div_pos; lia). destruct (Z.ltb_spec (j / 64) 0); [lia|done].
Qed.

Lemma testbit_funnel ws k r j :
  Forall word ws -> 0 <= r < 64 -> 0 <= j < 64 ->
  Z.testbit (funnel ws k r) j = Z.testbit (wval ws) (64 * k + r + j).
Proof.
  intros Hws Hr Hj. unfold funnel. rewrite Z.lor_spec, Z.shiftr_spec, testbit_wrap by lia.
  destruct (Z.ltb_spec j 64); [|lia]. cbn [andb]. rewrite Z.shiftl_spec by lia.
  rewrite wval_wat by done.
  destruct (Z.lt_ge_cases (j + r) 64).
  - replace (64 * k + r + j) with (j + r + k * 64) by lia.
    rewrite Z.div_add, Z.mod_add, Z.div_small, Z.mod_small by lia.
    rewrite (Z.testbit_neg_r (wat ws (k + 1))) by lia. by rewrite orb_false_r, Z.add_0_l.
  - replace (64 * k + r + j) with (j - (64 - r) + (k + 1) * 64) by lia.
    rewrite Z.div_add, Z.mod_add, Z.div_small, Z.mod_small by lia.
    rewrite (word_bit_high (wat ws k)) by (lia || by apply wat_word).
    by rewrite orb_false_l, Z.add_0_l.
Qed.

(** A list whose words are all funnels has the shifted value. *)
Lemma wval_funnels ws cur d r :
  Forall word ws -> 0 <= r < 64 ->
  (forall k, 0 <= k < Z.of_nat (length cur) -> cur !! Z.to_nat k = Some (funnel ws (k + d) r)) ->
  (forall i, 64 * Z.of_nat (length cur) <= i -> Z.testbit (wval ws) (i + (64 * d + r)) = false) ->
  forall i, 0 <= i -> Z.testbit (wval cur) i = Z.testbit (wval ws) (i + (64 * d + r)).
Proof.
  intros Hws Hr Hcur Hhigh i Hi.
  assert (Hword : Forall word cur).
  { apply Forall_lookup_2. intros k w Hw. pose proof (lookup_lt_Some _ _ _ Hw).
    rewrite <- (Nat2Z.id k), Hcur in Hw by lia. injection Hw as <-. apply funnel_word; [done|lia]. }
  rewrite wval_testbit by done.
  destruct (Z.lt_ge_cases i (64 * Z.of_nat (length cur))) as [H|H].
  - pose proof (Zdiv64_bound i _ (conj Hi H)) as Hk. unfold wbit. rewrite Hcur by lia.
    cbn [default from_option]. unfold id. rewrite testbit_funnel by (done || apply word_mod_bound).
    f_equal. pose proof (Z.div_mod i 64). lia.
  - rewrite wbit_none by done. symmetry. by apply Hhigh.
Qed.

(** ** Loops over the words *)
Lemma down_loop_inv (I : Z -> bitset -> Prop) body n i b :
  I i b ->
  (forall k b1, i - Z.of_nat n < k <= i -> I k b1 -> runs (body k) b1 (fun _ b2 => I (k - 1) b2)) ->
  runs (down_loop n i body) b (fun _ b' => I (i - Z.of_nat n) b').
Proof.
  revert i b. induction n as [|n IH]; intros i b H0 Hstep; cbn [down_loop].
  - mstep. by rewrite Z.sub_0_r.
  - mstep. eapply runs_mono; [apply Hstep; [lia|done]|]. intros [] b1 H1. cbv beta in H1.
    eapply runs_mono; [apply IH; [done|intros k b2 Hk; apply Hstep; lia]|].
    intros ? b2. by replace (i - 1 - Z.of_nat n) with (i - Z.of_nat (S n)) by lia.
Qed.

Lemma up_loop_inv (I : Z -> bitset -> Prop) body fuel i n b :
  I i b -> i <= n -> n - i < Z.of_nat fuel ->
  (forall k b1, i <= k < n -> I k b1 -> runs (body k) b1 (fun _ b2 => I (k + 1) b2)) ->
  runs (up_loop fuel i n body) b (fun _ b' => I n b').
Proof.
  revert i b. induction fuel as [|fuel IH]; intros i b H0 Hi Hfuel Hstep; [lia|].
  cbn [up_loop]. destruct (Z.ltb_spec i n).
  - mstep. eapply runs_mono; [apply Hstep; [lia|done]|]. intros [] b1 H1. cbv beta in H1.
    apply IH; [done|lia|lia|]. intros k b2 Hk. apply Hstep. lia.
  - mstep. by replace n with i by lia.
Qed.

(** [cur] has its final words [fin] from [i] on and the words of [ws] below. *)
Definition moved_above (ws : list Z) (fin : Z -> Z) (i : Z) (cur : list Z) : Prop :=
  (forall k, i <= k < Z.of_nat (length cur) -> cur !! Z.to_nat k = Some (fin k)) /\
  (forall k, 0 <= k < i -> k < Z.of_nat (length ws) -> cur !! Z.to_nat k = ws !! Z.to_nat k).

(** [cur] has its final words below [i] and the words of [ws] from there. *)
Definition moved_below (ws : list Z) (fin : Z -> Z) (i : Z) (cur : list Z) : Prop :=
  (forall k, 0 <= k < i -> cur !! Z.to_nat k = Some (fin k)) /\
  (forall k, i <= k < Z.of_nat (length ws) -> cur !! Z.to_nat k = ws !! Z.to_nat k).

Lemma insert_lookup_Z (l : list Z) i k x :
  0 <= i < Z.of_nat (length l) -> 0 <= k ->
  <[Z.to_nat i := x]> l !! Z.to_nat k = if k =? i then Some x else l !! Z.to_nat k.
Proof.
  intros Hi Hk. destruct (Z.eqb_spec k i) as [->|].
  - by rewrite list_lookup_insert_eq by lia.
  - by rewrite list_lookup_insert_ne by lia.
Qed.

Lemma moved_above_step ws fin i cur :
  moved_above ws fin i cur -> 0 < i <= Z.of_nat (length cur) ->
  moved_above ws fin (i - 1) (<[Z.to_nat (i - 1) := fin (i - 1)]> cur).
Proof.
  intros [Hf Hw] Hi. split.
  - intros k Hk. rewrite length_insert in Hk. rewrite insert_lookup_Z by lia.
    destruct (Z.eqb_spec k (i - 1)) as [->|]; [done|]. apply Hf. lia.
  - intros k Hk Hk'. rewrite insert_lookup_Z by lia.
    destruct (Z.eqb_spec k (i - 1)) as [->|]; [lia|]. apply Hw; lia.
Qed.

Lemma moved_below_step ws fin i cur :
  moved_below ws fin i cur -> 0 <= i < Z.of_nat (length cur) ->
  moved_below ws fin (i + 1) (<[Z.to_nat i := fin i]> cur).
Proof.
  intros [Hf Hw] Hi. split.
  - intros k Hk. rewrite insert_lookup_Z by lia.
    destruct (Z.eqb_spec k i) as [->|]; [done|]. apply Hf. lia.
  - intros k Hk. rewrite insert_lookup_Z by lia.
    destruct (Z.eqb_spec k i) as [->|]; [lia|]. apply Hw; lia.
Qed.

(** A read that the words still in place answer *)
Lemma runs_rd_wat b cur ws k (Q : Z -> bitset -> Prop) :
  brep b cur -> 0 <= k < Z.of_nat (length ws) -> cur !! Z.to_nat k = ws !! Z.to_nat k ->
  Q (wat ws k) b -> runs (rd k) b Q.
Proof.
  intros Hb Hk E HQ. destruct (word_at ws k Hk) as [w Hw]. rewrite Hw in E.
  rewrite (wat_lookup ws k w) in HQ by (done || lia).
  exists w, b. split; [|done]. eapply rd_eq; [done|lia|done].
Qed.

(** The loop that clears the first words *)
Lemma runs_zero_head b cur e (Q : unit -> bitset -> Prop) :
  brep b cur -> (e <= length cur)%nat ->
  (forall b', brep b' (replicate e 0 ++ drop e cur) -> Q tt b') ->
  runs (mfor e 0 (fun k => wr k 0)) b Q.
Proof.
  intros Hb He HQ.
  destruct (mfor_inv (fun k b' => brep b' (replicate (Z.to_nat k) 0 ++ drop (Z.to_nat k) cur))
    (fun k => wr k 0) e 0 b) as (b' & E & Hb'); [done| |].
  - intros k b1 Hk Hb1. destruct (word_at cur k) as [w Hw]; [lia|].
    enough (Hr : runs (wr k 0) b1 (fun _ b' => brep b'
      (replicate (Z.to_nat (k + 1)) 0 ++ drop (Z.to_nat (k + 1)) cur))).
    { destruct Hr as ([] & s2 & E2 & Hs2). by exists s2. }
    eapply runs_wr; [done| |done|].
    { rewrite length_app, length_replicate, length_drop. lia. }
    intros b2. rewrite insert_app_r_alt by (rewrite length_replicate; lia).
    rewrite (drop_S _ _ _ Hw), length_replicate, Nat.sub_diag. cbn [insert list_insert].
    replace (Z.to_nat (k + 1)) with (S (Z.to_nat k)) by lia.
    by rewrite replicate_S_end, <- app_assoc.
  - exists tt, b'. split; [done|]. apply HQ. by rewrite Z.add_0_l, Nat2Z.id in Hb'.
Qed.

(** ** Left shift *)
Lemma u64_shiftl_64 w : u64 (Z.shiftl w 64) = 0.
Proof. unfold wrap. rewrite Z.shiftl_mul_pow2 by done. by apply Z.mod_mul. Qed.

Lemma funnel_0 ws k : funnel ws k 0 = wat ws k.
Proof. unfold funnel. by rewrite Z.shiftr_0_r, Z.sub_0_r, u64_shiftl_64, Z.lor_0_r. Qed.

Lemma funnel_below ws k r : k < -1 -> funnel ws k r = 0.
Proof.
  intros. unfold funnel. rewrite !wat_neg by lia. by rewrite Z.shiftr_0_l, Z.shiftl_0_l.
Qed.

(** What the loops of [bitset_shift_left] leave, [e] words and [o] bits up *)
Lemma wval_shift_left ws cur e d r :
  Forall word ws -> 0 <= r < 64 -> (e <= length cur)%nat ->
  moved_above ws (fun k => funnel ws (k + d) r) (Z.of_nat e) cur ->
  (forall k, 0 <= k < Z.of_nat e -> funnel ws (k + d) r = 0) ->
  64 * (Z.of_nat (length ws) - d) - r <= 64 * Z.of_nat (length cur) ->
  wval (replicate e 0 ++ drop e cur) = Z.shiftl (wval ws) (- (64 * d + r)).
Proof.
  intros Hws Hr He [Hf _] Hz Hlen. apply Z.bits_inj'. intros i Hi.
  rewrite Z.shiftl_spec, Z.sub_opp_r by done.
  assert (Hl : length (replicate e 0 ++ drop e cur) = length cur).
  { rewrite length_app, length_replicate, length_drop. lia. }
  apply wval_funnels; [done|done| | |done]; rewrite Hl.
  - intros k Hk. destruct (Z.lt_ge_cases k (Z.of_nat e)).
    + rewrite lookup_app_l by (rewrite length_replicate; lia).
      rewrite Hz by lia. apply lookup_replicate_2. lia.
    + rewrite lookup_app_r by (rewrite length_replicate; lia).
      rewrite length_replicate, lookup_drop.
      replace (e + (Z.to_nat k - e))%nat with (Z.to_nat k) by lia. apply Hf. lia.
  - intros j Hj. rewrite wval_testbit by (done || lia). apply wbit_none. lia.
Qed.

Section shift.
Context (alloc_ok : Z -> bool) (garbage : nat -> list Z).
Context (Hok : forall n, alloc_ok n = true).
Context (Hgarbage : forall n, length (garbage n) = n /\ Forall word (garbage n)).

(** The state of the left shift when the words from [i] on are final *)
Definition left_inv (ws : list Z) (N d r i : Z) (b : bitset) : Prop :=
  exists cur, brep b cur /\ Z.of_nat (length cur) = N /\
    moved_above ws (fun k => funnel ws (k + d) r) i cur.

Lemma left_inv_write ws N d r i w b (Q : unit -> bitset -> Prop) :
  left_inv ws N d r i b -> 0 < i <= N -> Forall word ws -> 0 <= r ->
  w = funnel ws (i - 1 + d) r ->
  (forall b', left_inv ws N d r (i - 1) b' -> Q tt b') ->
  runs (wr (i - 1) w) b Q.
Proof.
  intros (cur & Hb & Hl & Hm) Hi Hws Hr -> HQ.
  eapply runs_wr; [done|lia|by apply funnel_word|]. intros b' Hb'. apply HQ.
  eexists. split; [done|]. split; [by rewrite length_insert|].
  apply (moved_above_step ws (fun k => funnel ws (k + d) r)); [done|lia].
Qed.

Lemma left_inv_read ws N d r i k b (Q : Z -> bitset -> Prop) :
  left_inv ws N d r i b -> 0 <= k < i -> k < Z.of_nat (length ws) ->
  Q (wat ws k) b -> runs (rd k) b Q.
Proof.
  intros (cur & Hb & Hl & Hm) Hk Hk' HQ.
  eapply (runs_rd_wat b cur ws); [done|lia|apply Hm; lia|done].
Qed.

Lemma runs_left_zero ws N d r e b (Q : unit -> bitset -> Prop) :
  left_inv ws N d r (Z.of_nat e) b -> Forall word ws -> 0 <= r < 64 -> Z.of_nat e <= N ->
  (forall k, 0 <= k < Z.of_nat e -> funnel ws (k + d) r = 0) ->
  64 * (Z.of_nat (length ws) - d) - r <= 64 * N ->
  (forall b' ws', brep b' ws' -> wval ws' = Z.shiftl (wval ws) (- (64 * d + r)) ->
     Z.of_nat (length ws') = N -> Q tt b') ->
  runs (mfor e 0 (fun k => wr k 0)) b Q.
Proof.
  intros (cur & Hb & Hl & Hm) Hws Hr He Hz Hlen HQ.
  eapply runs_zero_head; [done|lia|]. intros b' Hb'. eapply HQ; [done| |].
  - apply wval_shift_left; [done|done|lia|done|done|lia].
  - rewrite length_app, length_replicate, length_drop. lia.
Qed.

Lemma left_inv_start b ws tail N d r :
  brep b (ws ++ tail) -> Z.of_nat (length (ws ++ tail)) = N -> left_inv ws N d r N b.
Proof.
  intros Hb Hl. exists (ws ++ tail). split; [done|]. split; [done|]. split; [intros; lia|].
  intros k Hk Hk'. apply lookup_app_l. lia.
Qed.

(** The word loop when the shift is a multiple of 64 *)
Lemma runs_left_aligned ws e b :
  let n := Z.of_nat (length ws) in
  left_inv ws (n + e) (- e) 0 (n + e) b -> Forall word ws -> 0 <= e ->
  runs (down_loop (length ws) (n + e) (fun i => w ← rd (i - 1 - e); wr (i - 1) w)) b
    (fun _ b' => left_inv ws (n + e) (- e) 0 e b').
Proof.
  intros n Hinv Hws He.
  eapply runs_mono; [apply (down_loop_inv (left_inv ws (n + e) (- e) 0)); [done|]|].
  - intros k b2 Hk Hinv2. mstep. eapply left_inv_read; [done|lia|lia|].
    eapply left_inv_write; [done|lia|done|done| |done]. by rewrite funnel_0.
  - intros [] b2. cbv beta. fold n. by replace (n + e - n) with e by lia.
Qed.

(** The words between the last and the first when it is not *)
Lemma runs_left_middle ws e r b :
  let n := Z.of_nat (length ws) in
  left_inv ws (n + e + 1) (- e - 1) (64 - r) (n + e) b -> Forall word ws ->
  0 <= e -> 0 < n -> 0 < r < 64 ->
  runs (down_loop (Z.to_nat (n - 1)) (n + e) (fun i =>
      hi ← rd (i - 1 - e); lo ← rd (i - 2 - e);
      wr (i - 1) (Z.lor (u64 (Z.shiftl hi r)) (Z.shiftr lo (64 - r))))) b
    (fun _ b' => left_inv ws (n + e + 1) (- e - 1) (64 - r) (e + 1) b').
Proof.
  intros n Hinv Hws He Hn Hr.
  eapply runs_mono; [apply (down_loop_inv
    (left_inv ws (n + e + 1) (- e - 1) (64 - r))); [done|]|].
  - intros k b2 Hk Hk2. mstep. eapply left_inv_read; [done|lia|lia|].
    mstep. eapply left_inv_read; [done|lia|lia|].
    eapply left_inv_write; [done|lia|done|lia| |done].
    unfold funnel. rewrite Z.lor_comm. f_equal; f_equal; [f_equal; lia|].
    f_equal; [f_equal; lia|lia].
  - intros [] b2. cbv beta.
    by replace (n + e - Z.of_nat (Z.to_nat (n - 1))) with (e + 1) by lia.
Qed.

Lemma runs_left_unaligned ws e r b (Q : unit -> bitset -> Prop) :
  let n := Z.of_nat (length ws) in
  left_inv ws (n + e + 1) (- e - 1) (64 - r) (n + e + 1) b -> Forall word ws ->
  0 <= e -> 0 < n -> 0 < r < 64 ->
  (forall b', left_inv ws (n + e + 1) (- e - 1) (64 - r) e b' -> Q tt b') ->
  runs (w ← rd (n - 1);
    wr (n + e) (Z.shiftr w (64 - r)) ;;
    down_loop (Z.to_nat (n - 1)) (n + e) (fun i =>
      hi ← rd (i - 1 - e); lo ← rd (i - 2 - e);
      wr (i - 1) (Z.lor (u64 (Z.shiftl hi r)) (Z.shiftr lo (64 - r)))) ;;
    w ← rd 0;
    wr e (u64 (Z.shiftl w r))) b Q.
Proof.
  intros n Hinv Hws He Hn Hr HQ. mstep. eapply left_inv_read; [done|lia|lia|].
  mstep. replace (n + e) with (n + e + 1 - 1) at 1 by lia.
  eapply left_inv_write; [done|lia|done|lia| |].
  { unfold funnel. replace (n + e + 1 - 1 + (- e - 1)) with (n - 1) by lia.
    replace (n - 1 + 1) with n by lia. rewrite (wat_beyond ws n) by lia.
    by rewrite Z.shiftl_0_l, Z.lor_0_r. }
  clear b Hinv. intros b Hinv. replace (n + e + 1 - 1) with (n + e) in Hinv by lia.
  mstep. eapply runs_mono; [by apply runs_left_middle|]. intros [] b2 Hinv2. cbv beta in Hinv2.
  mstep. eapply left_inv_read; [done|lia|lia|].
  replace e with (e + 1 - 1) at 1 by lia.
  eapply left_inv_write; [done|lia|done|lia| |].
  { unfold funnel. rewrite (wat_neg ws (e + 1 - 1 + (- e - 1))) by lia.
    rewrite Z.shiftr_0_l, Z.lor_0_l. f_equal. f_equal; [f_equal; lia|lia]. }
  intros b3. replace (e + 1 - 1) with e by lia. apply HQ.
Qed.

Lemma runs_shift_left b ws s (Q : unit -> bitset -> Prop) :
  brep b ws -> 0 <= s -> Z.of_nat (length ws) + s / 64 + 1 <= max_words ->
  (s mod 64 = 0 \/ ws <> []) ->
  (forall b' ws', brep b' ws' -> wval ws' = Z.shiftl (wval ws) s ->
     Z.of_nat (length ws') = Z.of_nat (length ws) + s / 64 + Z.min 1 (s mod 64) -> Q tt b') ->
  runs (bitset_shift_left alloc_ok garbage s) b Q.
Proof.
  intros Hb Hs Hmax Hne HQ. assert (Hws : Forall word ws) by by eapply brep_words.
  pose proof (word_mod_bound s) as Hr. pose proof (Z.div_mod s 64 ltac:(done)) as Hdm.
  assert (He : 0 <= s / 64) by (apply Z.div_pos; lia). unfold max_words in Hmax.
  unfold bitset_shift_left. do 2 mstep. rewrite (brep_size b ws) by done. mstep.
  set (e := s / 64) in *. set (r := s mod 64) in *. set (n := Z.of_nat (length ws)) in *.
  assert (Hzero : forall d o b1, left_inv ws (n + e + (- d - e)) d o (Z.of_nat (Z.to_nat e)) b1 ->
    0 <= o < 64 -> s = - (64 * d + o) -> - d - e = Z.min 1 r ->
    (forall k, 0 <= k < Z.of_nat (Z.to_nat e) -> funnel ws (k + d) o = 0) ->
    runs (mfor (Z.to_nat e) 0 (fun i => wr i 0)) b1 Q).
  { intros d o b1 Hinv Ho Hd Hde Hz.
    eapply runs_left_zero; [done|done|lia|lia|done|lia|].
    intros b' ws' Hb' Hv Hl. apply (HQ b' ws' Hb'); [|lia]. rewrite Hv. by f_equal. }
  destruct (Z.eqb_spec r 0) as [Hr0|Hr0].
  - rewrite !(wrap_small 64 (n + e)) by lia. mstep.
    eapply runs_resize; [done|done|done|unfold max_words; lia|]. intros tail b1 Hb1 Ht _.
    rewrite take_ge in Hb1 by lia.
    replace (Z.to_nat n) with (length ws) by lia.
    eapply runs_mono; [apply runs_left_aligned; [|done|done]|].
    { eapply left_inv_start; [done|rewrite length_app; lia]. }
    intros [] b2 Hinv. cbv beta in Hinv. apply (Hzero (- e) 0); [|lia|lia|lia|].
    + by rewrite Z2Nat.id, Z.opp_involutive, Z.sub_diag, Z.add_0_r by lia.
    + intros k Hk. rewrite funnel_0, wat_neg by lia. done.
  - destruct Hne as [|Hne]; [done|].
    assert (Hn : 0 < n) by (destruct ws; [done|subst n; simpl; lia]).
    rewrite !(wrap_small 64 (n + e)), (wrap_small 64 (n + e + 1)), (wrap_small 64 (n - 1)) by lia.
    mstep. eapply runs_resize; [done|done|done|unfold max_words; lia|]. intros tail b1 Hb1 Ht _.
    rewrite take_ge in Hb1 by lia. apply runs_left_unaligned; [|done|done|done|lia|].
    { eapply left_inv_start; [done|rewrite length_app; lia]. }
    intros b2 Hinv. apply (Hzero (- e - 1) (64 - r)); [|lia|lia|lia|].
    + rewrite Z2Nat.id by lia. by replace (n + e + (- (- e - 1) - e)) with (n + e + 1) by lia.
    + intros k Hk. apply funnel_below. lia.
Qed.

(** ** Right shift *)

(** The state of the right shift when the words below [i] are final *)
Definition right_inv (ws : list Z) (d r i : Z) (b : bitset) : Prop :=
  exists cur, brep b cur /\ length cur = length ws /\
    moved_below ws (fun k => funnel ws (k + d) r) i cur.

Lemma right_inv_write ws d r i w b (Q : unit -> bitset -> Prop) :
  right_inv ws d r i b -> 0 <= i < Z.of_nat (length ws) -> Forall word ws -> 0 <= r ->
  w = funnel ws (i + d) r ->
  (forall b', right_inv ws d r (i + 1) b' -> Q tt b') ->
  runs (wr i w) b Q.
Proof.
  intros (cur & Hb & Hl & Hm) Hi Hws Hr -> HQ.
  eapply runs_wr; [done|lia|by apply funnel_word|]. intros b' Hb'. apply HQ.
  eexists. split; [done|]. split; [by rewrite length_insert|].
  apply (moved_below_step ws (fun k => funnel ws (k + d) r)); [done|lia].
Qed.

Lemma right_inv_read ws d r i k b (Q : Z -> bitset -> Prop) :
  right_inv ws d r i b -> 0 <= i -> i <= k < Z.of_nat (length ws) ->
  Q (wat ws k) b -> runs (rd k) b Q.
Proof.
  intros (cur & Hb & Hl & Hm) Hi Hk HQ.
  eapply (runs_rd_wat b cur ws); [done|lia|apply Hm; lia|done].
Qed.

Lemma runs_right_resize ws r e b (Q : bool -> bitset -> Prop) :
  right_inv ws e r (Z.of_nat (length ws) - e) b -> Forall word ws -> 0 <= r < 64 ->
  0 <= e <= Z.of_nat (length ws) ->
  (forall b' ws', brep b' ws' -> wval ws' = Z.shiftr (wval ws) (64 * e + r) ->
     length ws' = Z.to_nat (Z.of_nat (length ws) - e) -> Q true b') ->
  runs (bitset_resize alloc_ok garbage (Z.of_nat (length ws) - e) false) b Q.
Proof.
  intros (cur & Hb & Hl & [Hf _]) Hws Hr He HQ. pose proof (brep_max _ _ Hb).
  eapply runs_resize; [done|done|done|lia|]. intros tail b' Hb' Ht _.
  destruct tail; [|simpl in Ht; lia]. rewrite app_nil_r in Hb'.
  set (n' := Z.to_nat (Z.of_nat (length ws) - e)) in *.
  assert (Hl' : length (take n' cur) = n') by (rewrite length_take; lia).
  apply (HQ b' (take n' cur) Hb'); [|done].
  apply Z.bits_inj'. intros i Hi. rewrite Z.shiftr_spec by done.
  apply wval_funnels; [done|done| | |done]; rewrite Hl'.
  - intros k Hk. rewrite lookup_take_lt by lia. apply Hf. lia.
  - intros j Hj. rewrite wval_testbit by (done || lia). apply wbit_none. lia.
Qed.

Lemma right_inv_start b ws d r : brep b ws -> right_inv ws d r 0 b.
Proof. intros Hb. exists ws. split; [done|]. split; [done|]. split; [intros; lia|done]. Qed.

Lemma brep_capacity b ws : brep b ws -> Z.of_nat (length ws) <= capacity b.
Proof. intros (_ & _ & slack & _ & -> & _). rewrite length_app. lia. Qed.

Lemma runs_shift_right b ws s (Q : unit -> bitset -> Prop) :
  brep b ws -> 0 <= s ->
  (s / 64 < Z.of_nat (length ws) \/ s = 64 * Z.of_nat (length ws)) ->
  (forall b' ws', brep b' ws' -> wval ws' = Z.shiftr (wval ws) s ->
     length ws' = Z.to_nat (Z.of_nat (length ws) - s / 64) -> Q tt b') ->
  runs (bitset_shift_right alloc_ok garbage s) b Q.
Proof.
  intros Hb Hs Hsize HQ. assert (Hws : Forall word ws) by by eapply brep_words.
  pose proof (word_mod_bound s) as Hr. pose proof (Z.div_mod s 64 ltac:(done)) as Hdm.
  pose proof (brep_capacity b ws Hb) as Hcap. pose proof (brep_max b ws Hb) as Hmax.
  assert (He : 0 <= s / 64) by (apply Z.div_pos; lia). unfold max_words in Hmax.
  unfold bitset_shift_right. do 2 mstep. rewrite (brep_size b ws) by done. cbv zeta.
  set (e := s / 64) in *. set (r := s mod 64) in *.
  destruct (Z.eqb_spec r 0) as [Hr0|Hr0].
  - rewrite (wrap_small 64) by lia. mstep.
    eapply runs_mono; [apply (up_loop_inv (right_inv ws e r))|].
    + by apply right_inv_start.
    + lia.
    + lia.
    + intros k b1 Hk Hinv. mstep. eapply right_inv_read; [done|lia|lia|].
      eapply right_inv_write; [done|lia|done|lia| |done]. by rewrite Hr0, funnel_0.
    + intros [] b1 Hinv. cbv beta in Hinv. mstep.
      eapply runs_right_resize; [done|done|lia|lia|]. intros b' ws' Hb' Hv Hl. mstep.
      apply (HQ b' ws' Hb'); [|done]. rewrite Hv. f_equal. lia.
  - rewrite !(wrap_small 64 (_ - _)) by lia. mstep.
    eapply runs_mono; [apply (up_loop_inv (right_inv ws e r))|].
    + by apply right_inv_start.
    + lia.
    + lia.
    + intros k b1 Hk Hinv. mstep. eapply right_inv_read; [done|lia|lia|].
      mstep. eapply right_inv_read; [done|lia|lia|].
      by eapply right_inv_write; [done|lia|done|lia| |].
    + intros [] b1 Hinv. cbv beta in Hinv. mstep.
      eapply right_inv_read; [done|lia|lia|]. mstep.
      eapply right_inv_write; [done|lia|done|lia| |].
      { unfold funnel. replace (Z.of_nat (length ws) - e - 1 + e) with (Z.of_nat (length ws) - 1) by lia.
        rewrite (wat_beyond ws (_ + 1)) by lia. by rewrite Z.shiftl_0_l, Z.lor_0_r. }
      intros b2 Hinv2. replace (_ - _ - 1 + 1) with (Z.of_nat (length ws) - e) in Hinv2 by lia.
      mstep. eapply runs_right_resize; [done|done|lia|lia|]. intros b' ws' Hb' Hv Hl. mstep.
      apply (HQ b' ws' Hb'); [|done]. rewrite Hv. f_equal. lia.
Qed.
End shift.

(** ** Trimming and copying bitsets *)
(** ** Leading zero words *)
Lemma trim_loop_eq b ws n :
  brep b ws -> (n <= length ws)%nat ->
  exists m, trim_loop n b = Ret (Z.of_nat m, b) /\ (m <= n)%nat /\
    take n ws = take m ws ++ replicate (n - m) 0 /\
    (m = 0%nat \/ exists w, ws !! (m - 1)%nat = Some w /\ w <> 0).
Proof.
  intros Hb. induction n as [|n IH]; intros Hn; cbn [trim_loop].
  { exists 0%nat. repeat split; auto. }
  destruct (word_at ws (Z.of_nat n)) as [w Hw]; [lia|].
  rewrite (bind_ret_eq _ _ _ _ _ (rd_eq b ws (Z.of_nat n) w Hb (Nat2Z.is_nonneg n) Hw)).
  rewrite Nat2Z.id in Hw. destruct (Z.eqb_spec w 0) as [->|Hne].
  - destruct IH as (m & E & Hm & Ht & Hlast); [lia|]. exists m.
    repeat split; [done|lia| |done].
    rewrite (take_S_r _ _ _ Hw), Ht, <- app_assoc, Nat.sub_succ_l by lia.
    by rewrite replicate_S_end.
  - exists (S n). split; [done|]. split; [done|]. split.
    + by rewrite Nat.sub_diag, app_nil_r.
    + right. exists w. by replace (S n - 1)%nat with n by lia.
Qed.

(** A non-zero top word determines the number of words. *)
Lemma wval_log2 ws w :
  Forall word (ws ++ [w]) -> w <> 0 ->
  Z.log2 (wval (ws ++ [w])) / 64 = Z.of_nat (length ws).
Proof.
  intros [Hws [[Hw Hw'] _]%Forall_cons]%Forall_app Hne.
  pose proof (wval_nonneg ws Hws). pose proof (wval_lt ws Hws).
  rewrite wval_app. cbn [wval]. rewrite Z.mul_0_r, Z.add_0_r.
  set (k := Z.of_nat (length ws)) in *.
  assert (0 < 2 ^ (64 * k)) by (apply Z.pow_pos_nonneg; lia).
  pose proof (Z.log2_spec (wval ws + 2 ^ (64 * k) * w) ltac:(nia)) as [Hlo Hhi].
  pose proof (Z.log2_nonneg (wval ws + 2 ^ (64 * k) * w)).
  set (l := Z.log2 _) in *.
  assert (64 * k <= l).
  { destruct (Z.le_gt_cases (64 * k) l); [done|].
    assert (2 ^ Z.succ l <= 2 ^ (64 * k)) by (apply Z.pow_le_mono_r; lia). nia. }
  assert (l < 64 * k + 64).
  { destruct (Z.lt_ge_cases l (64 * k + 64)); [done|].
    assert (Hp : 2 ^ (64 * k + 64) <= 2 ^ l) by (apply Z.pow_le_mono_r; lia).
    rewrite Z.pow_add_r in Hp by lia. nia. }
  symmetry. apply Z.div_unique with (l - 64 * k); lia.
Qed.

Section trim.
Context (alloc_ok : Z -> bool) (garbage : nat -> list Z).
Context (Hok : forall n, alloc_ok n = true).
Context (Hgarbage : forall n, length (garbage n) = n /\ Forall word (garbage n)).

(** A [realloc] that keeps the first [m] words *)
Lemma runs_realloc_shrink b l m (Q : option (list Z) -> bitset -> Prop) :
  array b = ABlock l -> (0 < m <= length l)%nat -> Z.of_nat m <= max_words ->
  (forall b', arraysize b' = arraysize b -> capacity b' = capacity b ->
     Q (Some (take m l)) b') ->
  runs (realloc_array alloc_ok garbage (bytes (Z.of_nat m))) b Q.
Proof.
  intros Ha Hm Hmax HQ. rewrite max_words_bytes by lia.
  unfold realloc_array. msteps. rewrite Ha.
  destruct (Z.eqb_spec (8 * Z.of_nat m) 0); [lia|]. rewrite Hok, words_bytes, Nat2Z.id by lia.
  unfold set_array. msteps. rewrite take_app_le by lia. by apply HQ.
Qed.

Lemma runs_trim b ws (Q : bool -> bitset -> Prop) :
  brep b ws -> wval ws <> 0 ->
  (forall b' ws', brep b' ws' -> wval ws' = wval ws ->
     Z.of_nat (length ws') = Z.log2 (wval ws) / 64 + 1 -> Q true b') ->
  runs (bitset_trim alloc_ok garbage) b Q.
Proof.
  intros Hb Hv HQ. pose proof (brep_words b ws Hb) as Hws. pose proof (brep_max b ws Hb) as Hmax.
  unfold bitset_trim. do 2 mstep. rewrite (brep_size b ws), Nat2Z.id by done.
  destruct (trim_loop_eq b ws (length ws) Hb) as (m & E & Hm & Ht & Hlast); [done|].
  rewrite firstn_all in Ht. mstep. exists (Z.of_nat m), b. split; [done|].
  assert (Hval : wval (take m ws) = wval ws) by (rewrite Ht at 2; by rewrite wval_app_zeros).
  assert (Hw : Forall word (take m ws)) by by apply Forall_take.
  destruct Hlast as [->|(w & Hw0 & Hne)]; [by rewrite take_0 in Hval|].
  pose proof (lookup_lt_Some _ _ _ Hw0) as Hlt.
  assert (Hm0 : (0 < m)%nat).
  { destruct m; [|lia]. by rewrite take_0 in Hval. }
  assert (Hlen : Z.of_nat m = Z.log2 (wval ws) / 64 + 1).
  { rewrite <- Hval. replace m with (S (m - 1)) in Hw |- * by lia.
    rewrite (take_S_r _ _ w) in Hw |- * by done.
    rewrite wval_log2 by done. rewrite length_take. lia. }
  destruct (brep_array b ws Hb) as (slack & Ha & Hc & Hf); [by intros ->|].
  destruct (Z.eqb_spec (capacity b) (Z.of_nat m)) as [Hcm|Hcm].
  { rewrite length_app in Hc. mstep. apply (HQ b ws Hb); [done|lia]. }
  unfold set_capacity, set_arraysize. msteps. cbn [array arraysize capacity].
  eapply (runs_realloc_shrink _ (ws ++ slack) m); [done|rewrite length_app; lia|lia|].
  intros b' Hs' Hc'. cbn [arraysize capacity] in Hs', Hc'. unfold set_array. msteps.
  rewrite take_app_le by lia.
  apply (HQ _ (take m ws)); [|done|rewrite length_take; lia].
  split; [|split].
  - cbn [arraysize]. rewrite Hs', length_take. lia.
  - rewrite length_take. lia.
  - exists []. rewrite app_nil_r. split; [by left|]. split; [|done].
    cbn [capacity]. rewrite Hc', length_take. lia.
Qed.

(** [bitset_copy] allocates exactly the words in use. *)
Lemma copy_eq b ws :
  brep b ws ->
  bitset_copy alloc_ok garbage b =
    Ret (Some (Bitset (ABlock ws) (arraysize b) (arraysize b))).
Proof.
  intros Hb. pose proof (brep_max b ws Hb). pose proof (brep_size b ws Hb) as Hs.
  destruct (Hgarbage (length ws)) as [Hg _].
  unfold bitset_copy, malloc_words. rewrite !Hok, Hs.
  rewrite max_words_bytes, words_bytes, Nat2Z.id, take_ge by lia.
  destruct (Z.eqb_spec (Z.of_nat (length ws)) 0) as [H0|H0].
  { destruct ws; [|simpl in H0; lia]. by destruct (garbage _). }
  destruct (brep_array b ws Hb) as (slack & -> & _); [by intros ->|].
  rewrite block_read_Some by (lia || (rewrite length_app; lia)).
  cbn [Z.to_nat]. rewrite drop_0, Nat2Z.id, take_app_length.
  rewrite block_write_Some by (rewrite ?Hg; lia).
  rewrite take_0, app_nil_l, drop_ge, app_nil_r by (rewrite Hg; simpl; lia). done.
Qed.

(** [bitset_create_with_capacity] makes enough zero words. *)
Lemma create_with_capacity_eq size :
  0 <= size <= 64 * max_words ->
  exists n, bitset_create_with_capacity alloc_ok size =
    Some (Bitset (ABlock (replicate n 0)) (Z.of_nat n) (Z.of_nat n)) /\
    brep (Bitset (ABlock (replicate n 0)) (Z.of_nat n) (Z.of_nat n)) (replicate n 0) /\
    size <= 64 * Z.of_nat n < size + 64.
Proof.
  intros Hs. unfold max_words in Hs. exists (Z.to_nat ((size + 63) / 64)).
  unfold bitset_create_with_capacity, calloc_words. rewrite !Hok.
  rewrite wrap_small by lia. replace (size + 64 - 1) with (size + 63) by lia.
  assert (0 <= (size + 63) / 64) by (apply Z.div_pos; lia).
  pose proof (Z.div_mod (size + 63) 64). pose proof (word_mod_bound (size + 63)).
  rewrite Z2Nat.id by done. split; [done|]. split; [|lia].
  split; [by rewrite length_replicate; cbn [arraysize]; lia|].
  split; [rewrite length_replicate; unfold max_words; lia|]. exists [].
  rewrite app_nil_r. split; [by left|]. split.
  - cbn [capacity]. rewrite length_replicate. lia.
  - apply Forall_replicate. by split.
Qed.
End trim.
