(* ===== verification/BitsetCorrect.v ===== *)
(** * Correctness of cbitset

    The abstract state is a pair: the set, as the number whose bit [i] tells
    whether [i] is a member, and the number of words in use.  [wf b] says
    that [b] is a usable bitset; [value b] is the set it represents. *)

From S2P Require Import Prelude Bitset BitsetWords BitsetRep BitsetLoops BitsetIter BitsetShift.

Definition words_of (b : bitset) : list Z :=
  match array b with ABlock l => take (Z.to_nat (arraysize b)) l | _ => [] end.
Definition value (b : bitset) : Z := wval (words_of b).
Definition wf (b : bitset) : Prop := brep b (words_of b).

Lemma brep_words_of b ws : brep b ws -> words_of b = ws.
Proof.
  intros (Hs & _ & slack & [Ha|[Ha Hn]] & _); unfold words_of; rewrite Ha.
  - by rewrite Hs, Nat2Z.id, take_app_length.
  - by apply app_nil in Hn as [-> _].
Qed.

Lemma brep_wf b ws : brep b ws -> wf b /\ value b = wval ws /\ arraysize b = Z.of_nat (length ws).
Proof.
  intros Hb. unfold wf, value. rewrite (brep_words_of b ws Hb). split; [done|].
  split; [done|]. by apply brep_size.
Qed.

(** The members of a bitset, in increasing order *)
Definition members_of (b : bitset) : list Z := members (64 * arraysize b) (value b).

(** ** The operations that change a bitset *)
Inductive cmd :=
  | CSet (i : Z)
  | CSetTo (i : Z) (flag : bool)
  | CGet (i : Z)
  | CCount
  | CClear
  | CGrow (n : Z)
  | CResize (n : Z)
  | CTrim
  | CUnion (b2 : bitset)
  | CIntersection (b2 : bitset)
  | CDifference (b2 : bitset)
  | CSymmetricDifference (b2 : bitset)
  | CShiftLeft (s : Z)
  | CShiftRight (s : Z).

Section exec.
Context (alloc_ok : Z -> bool) (garbage : nat -> list Z).

Definition exec (c : cmd) : M bitset Z :=
  match c with
  | CSet i => bitset_set alloc_ok garbage i ;; mret 0
  | CSetTo i flag => bitset_set_to_value alloc_ok garbage i flag ;; mret 0
  | CGet i => r ← bitset_get i; mret (Z.b2z r)
  | CCount => bitset_count
  | CClear => bitset_clear ;; mret 0
  | CGrow n => r ← bitset_grow alloc_ok garbage n; mret (Z.b2z r)
  | CResize n => r ← bitset_resize alloc_ok garbage n true; mret (Z.b2z r)
  | CTrim => r ← bitset_trim alloc_ok garbage; mret (Z.b2z r)
  | CUnion b2 => r ← bitset_inplace_union alloc_ok garbage b2; mret (Z.b2z r)
  | CIntersection b2 => bitset_inplace_intersection b2 ;; mret 0
  | CDifference b2 => bitset_inplace_difference b2 ;; mret 0
  | CSymmetricDifference b2 =>
      r ← bitset_inplace_symmetric_difference alloc_ok garbage b2; mret (Z.b2z r)
  | CShiftLeft s => bitset_shift_left alloc_ok garbage s ;; mret 0
  | CShiftRight s => bitset_shift_right alloc_ok garbage s ;; mret 0
  end.

Fixpoint exec_all (cs : list cmd) : M bitset (list Z) :=
  match cs with
  | [] => mret []
  | c :: cs => r ← exec c; rs ← exec_all cs; mret (r :: rs)
  end.
End exec.

(** ** What they mean

    The set [v] in [n] words before, the set and the words after, and the
    result; [None] where the operation is used outside its contract. *)
Definition index_ok (i : Z) : bool := (0 <=? i) && (i <? 64 * max_words).
Definition size_ok (n : Z) : bool := (0 <=? n) && (n <=? max_words).

Definition spec (c : cmd) (st : Z * Z) : option (Z * (Z * Z)) :=
  let '(v, n) := st in
  match c with
  | CSet i =>
      if index_ok i then Some (0, (Z.setbit v i, Z.max n (i / 64 + 1))) else None
  | CSetTo i flag =>
      if index_ok i then
        Some (0, (if flag then Z.setbit v i else Z.clearbit v i, Z.max n (i / 64 + 1)))
      else None
  | CGet i => if 0 <=? i then Some (Z.b2z (Z.testbit v i), st) else None
  | CCount => Some (Z.of_nat (length (members (64 * n) v)), st)
  | CClear => Some (0, (0, n))
  | CGrow m => if size_ok m && (n <=? m) then Some (1, (v, m)) else None
  | CResize m => if size_ok m then Some (1, (v mod 2 ^ (64 * m), m)) else None
  | CTrim => if v =? 0 then None else Some (1, (v, Z.log2 v / 64 + 1))
  | CUnion b2 => Some (1, (Z.lor v (value b2), Z.max n (arraysize b2)))
  | CIntersection b2 => Some (0, (Z.land v (value b2), n))
  | CDifference b2 => Some (0, (Z.ldiff v (value b2), n))
  | CSymmetricDifference b2 => Some (1, (Z.lxor v (value b2), Z.max n (arraysize b2)))
  | CShiftLeft s =>
      if (0 <=? s) && (n + s / 64 + 1 <=? max_words) && ((s mod 64 =? 0) || (0 <? n))
      then Some (0, (Z.shiftl v s, n + s / 64 + Z.min 1 (s mod 64))) else None
  | CShiftRight s =>
      if (0 <=? s) && ((s / 64 <? n) || (s =? 64 * n))
      then Some (0, (Z.shiftr v s, n - s / 64)) else None
  end.

Fixpoint spec_all (cs : list cmd) (st : Z * Z) : option (list Z * (Z * Z)) :=
  match cs with
  | [] => Some ([], st)
  | c :: cs =>
      '(r, st) ← spec c st;
      '(rs, st) ← spec_all cs st;
      Some (r :: rs, st)
  end.

(** The operands of the commands are usable bitsets. *)
Definition operand_ok (c : cmd) : Prop :=
  match c with
  | CUnion b2 | CIntersection b2 | CDifference b2 | CSymmetricDifference b2 => wf b2
  | _ => True
  end.

Definition state_of (b : bitset) : Z * Z := (value b, arraysize b).

Lemma brep_state b ws : brep b ws -> wf b /\ state_of b = (wval ws, Z.of_nat (length ws)).
Proof. intros Hb. destruct (brep_wf b ws Hb) as (? & Hv & Hs). unfold state_of. by rewrite Hv, Hs. Qed.

(** The value of a prefix *)
Lemma wval_take ws k :
  Forall word ws -> wval (take k ws) = wval ws mod 2 ^ (64 * Z.of_nat k).
Proof.
  intros Hws. apply wval_bits; [by apply Forall_take|]. intros i Hi.
  rewrite Z.testbit_mod_pow2, wval_testbit by (done || lia).
  destruct (Z.ltb_spec i (64 * Z.of_nat k)); cbn [andb].
  - apply wbit_take. lia.
  - apply wbit_none. rewrite length_take. lia.
Qed.

Section correct.
Context (alloc_ok : Z -> bool) (garbage : nat -> list Z).
Context (Hok : forall n, alloc_ok n = true).
Context (Hgarbage : forall n, length (garbage n) = n /\ Forall word (garbage n)).

(** What one command has to establish *)
Definition refines (r : Z) (st : Z * Z) (r' : Z) (b' : bitset) : Prop :=
  r' = r /\ wf b' /\ state_of b' = st.

Lemma refines_intro r st ws b' :
  brep b' ws -> (wval ws, Z.of_nat (length ws)) = st -> refines r st r b'.
Proof. intros Hb <-. split; [done|]. by apply brep_state. Qed.

Lemma exec_single b c r st :
  wf b -> spec c (state_of b) = Some (r, st) ->
  match c with CSet _ | CSetTo _ _ | CGet _ | CCount | CClear => True | _ => False end ->
  runs (exec alloc_ok garbage c) b (refines r st).
Proof.
  unfold wf. intros Hb Hspec Hc. pose proof (brep_size b _ Hb) as Hs.
  unfold state_of, value in Hspec. set (ws := words_of b) in *.
  destruct c; try done; cbn [exec spec] in Hspec |- *.
  - destruct (index_ok i) eqn:Hi; simplify_eq. unfold index_ok in Hi. mstep.
    eapply runs_set; [done..|lia|]. intros b' ws' Hb' Hv Hl. mstep.
    eapply refines_intro; [done|]. by rewrite Hv, Hl, Hs.
  - destruct (index_ok i) eqn:Hi; simplify_eq. unfold index_ok in Hi. mstep.
    eapply runs_set_to_value; [done..|lia|]. intros b' ws' Hb' Hv Hl. mstep.
    eapply refines_intro; [done|]. by rewrite Hv, Hl, Hs.
  - destruct (Z.leb_spec 0 i); simplify_eq. mstep. eexists _, _.
    split; [by apply (get_eq b ws)|]. mstep.
    eapply refines_intro; [done|]. by rewrite Hs.
  - simplify_eq. eexists _, _. split; [by apply (count_eq b ws)|].
    rewrite Hs, length_members_wval by by eapply brep_words.
    by eapply refines_intro.
  - simplify_eq. mstep. eapply runs_clear; [done|]. intros b' Hb'. mstep.
    eapply refines_intro; [done|]. by rewrite wval_zeros, length_replicate, Hs.
Qed.

Lemma exec_sizes b c r st :
  wf b -> spec c (state_of b) = Some (r, st) ->
  match c with CGrow _ | CResize _ | CTrim | CShiftLeft _ | CShiftRight _ => True | _ => False end ->
  runs (exec alloc_ok garbage c) b (refines r st).
Proof.
  unfold wf. intros Hb Hspec Hc. pose proof (brep_size b _ Hb) as Hs.
  unfold state_of, value in Hspec. set (ws := words_of b) in *.
  destruct c; try done; cbn [exec spec] in Hspec |- *; rewrite ?Hs in Hspec.
  - destruct (size_ok n && _) eqn:Hn; simplify_eq. unfold size_ok in Hn. mstep.
    eapply runs_grow; [done..|lia|]. intros b' Hb'. mstep.
    eapply refines_intro; [done|]. rewrite wval_app_zeros, length_app, length_replicate.
    f_equal. lia.
  - destruct (size_ok n) eqn:Hn; simplify_eq. unfold size_ok in Hn. mstep.
    eapply runs_resize; [done..|lia|]. intros tail b' Hb' Hl Hpad. mstep.
    eapply refines_intro; [done|]. rewrite Hpad by done.
    rewrite wval_app_zeros, wval_take, length_app, length_take, length_replicate
      by by eapply brep_words.
    rewrite Z2Nat.id by lia. f_equal. lia.
  - destruct (Z.eqb_spec (wval ws) 0); simplify_eq. mstep.
    eapply runs_trim; [done..|]. intros b' ws' Hb' Hv Hl. mstep.
    eapply refines_intro; [done|]. by rewrite Hv, Hl.
  - destruct ((0 <=? s) && _ && _) eqn:Hp; simplify_eq. mstep.
    eapply runs_shift_left; [done..|lia|lia| |].
    { destruct (Z.eqb_spec (s mod 64) 0); [by left|right]. intros E.
      rewrite E, andb_false_r in Hp. done. }
    intros b' ws' Hb' Hv Hl. mstep. eapply refines_intro; [done|]. by rewrite Hv, Hl.
  - destruct ((0 <=? s) && _) eqn:Hp; simplify_eq. mstep.
    eapply runs_shift_right; [done..|lia|lia|].
    intros b' ws' Hb' Hv Hl. mstep. eapply refines_intro; [done|]. rewrite Hv, Hl.
    f_equal. assert (s / 64 <= Z.of_nat (length ws)); [|lia].
    apply Z.div_le_upper_bound; [lia|]. pose proof (Z.div_mod s 64). pose proof (word_mod_bound s). lia.
Qed.

Lemma exec_binary b c r st :
  wf b -> operand_ok c -> spec c (state_of b) = Some (r, st) ->
  match c with
  | CUnion _ | CIntersection _ | CDifference _ | CSymmetricDifference _ => True
  | _ => False
  end ->
  runs (exec alloc_ok garbage c) b (refines r st).
Proof.
  unfold wf. intros Hb Hop Hspec Hc. pose proof (brep_size b _ Hb) as Hs.
  unfold state_of, value in Hspec. set (ws := words_of b) in *.
  pose proof (brep_words b ws Hb) as Hw.
  destruct c; try done; cbn [exec spec operand_ok] in Hspec, Hop |- *; unfold wf in Hop;
    pose proof (brep_size b2 _ Hop) as Hs2; pose proof (brep_words b2 _ Hop) as Hw2;
    unfold value in Hspec; rewrite ?Hs, ?Hs2 in Hspec; simplify_eq; mstep.
  - eapply runs_combine_append; [done|done|eauto with userland|done|done|].
    intros b' Hb'. mstep. eapply refines_intro; [done|].
    rewrite wval_union, length_zip_rest by done. f_equal. lia.
  - eapply runs_inplace_intersection; [done|done|]. intros b' Hb'. mstep.
    eapply refines_intro; [done|].
    rewrite wval_app_zeros, wval_inter, length_app, length_zip_with, length_replicate by done.
    f_equal. lia.
  - eapply runs_combine_words; [eauto with userland|done|done|]. intros b' Hb'. mstep.
    eapply refines_intro; [done|]. by rewrite wval_diff, length_zip_left by done.
  - eapply runs_combine_append; [done|done|eauto with userland|done|done|].
    intros b' Hb'. mstep. eapply refines_intro; [done|].
    rewrite wval_xor, length_zip_rest by done. f_equal. lia.
Qed.

Lemma exec_refines b c r st :
  wf b -> operand_ok c -> spec c (state_of b) = Some (r, st) ->
  runs (exec alloc_ok garbage c) b (refines r st).
Proof.
  intros Hb Hop Hspec. destruct c;
    first [by apply exec_single | by apply exec_sizes | by apply exec_binary].
Qed.
End correct.

(** ** The [nextSetBit] loop *)
Section iteration.
Context (b : bitset) (ws : list Z) (Hb : brep b ws).
Local Abbreviation n := (Z.of_nat (length ws)).

(** After the first member come the members beyond it. *)
Lemma members_in_after k m v i rest :
  members_in k m v = i :: rest ->
  k <= i < k + m /\ members_in (i + 1) (k + m - (i + 1)) v = rest.
Proof.
  intros E.
  assert (Hin : i ∈ members_in k m v) by (rewrite E; apply list_elem_of_here).
  unfold members_in in Hin. apply list_elem_of_filter in Hin as [Hbit Hin%elem_of_seqZ].
  split; [done|].
  replace m with ((i - k) + (k + m - i)) in E by lia.
  rewrite members_in_app in E by lia.
  assert (Hbefore : members_in k (i - k) v = []).
  { destruct (members_in k (i - k) v) as [|j l] eqn:E2; [done|].
    assert (Hj : j ∈ members_in k (i - k) v) by (rewrite E2; apply list_elem_of_here).
    apply list_elem_of_filter in Hj as [_ Hj%elem_of_seqZ].
    injection E as -> _. lia. }
  rewrite Hbefore, app_nil_l in E. replace (k + (i - k)) with i in E by lia.
  replace (k + m - i) with (1 + (k + m - (i + 1))) in E by lia.
  rewrite members_in_app in E by lia.
  unfold members_in in E at 1. rewrite seqZ_cons, seqZ_nil, filter_cons_True in E by (done || lia).
  by injection E.
Qed.

Lemma bitset_print_eq fuel i seen :
  0 <= i -> (length (members_in i (64 * n - i) (wval ws)) < fuel)%nat ->
  bitset_print fuel i seen b = Ret (seen ++ members_in i (64 * n - i) (wval ws), b).
Proof.
  revert i seen. induction fuel as [|fuel IH]; intros i seen Hi Hf; [lia|].
  cbn [bitset_print]. rewrite (bind_ret_eq _ _ _ _ _ (nextSetBit_eq b ws Hb i Hi)).
  destruct (members_in i (64 * n - i) (wval ws)) as [|j rest] eqn:E; cbn [head].
  { by rewrite app_nil_r. }
  apply members_in_after in E as [Hj Hrest].
  replace (i + (64 * n - i) - (j + 1)) with (64 * n - (j + 1)) in Hrest by lia.
  pose proof (brep_max b ws Hb) as Hm. unfold max_words in Hm.
  rewrite wrap_small by lia. rewrite IH; [|lia|by rewrite Hrest; simpl in Hf; lia].
  by rewrite Hrest, <- app_assoc.
Qed.
End iteration.

(** ** Failures *)
Section failure.
Context (alloc_ok : Z -> bool) (garbage : nat -> list Z).

(** Once the array is a dangling pointer, every [bitset_set] is undefined. *)
Lemma set_dangling b j :
  array b = ADangling -> 0 <= j < 2 ^ 64 -> 0 <= arraysize b <= max_words ->
  bitset_set alloc_ok garbage j b = Fault.
Proof.
  intros Ha Hj Hs. unfold max_words in Hs. unfold bitset_set. rewrite shiftr6.
  assert (0 <= j / 64) by (apply Z.div_pos; lia).
  assert (j / 64 < 2 ^ 58) by (apply Z.div_lt_upper_bound; lia).
  erewrite bind_ret_eq by done.
  destruct (Z.leb_spec (arraysize b) (j / 64)).
  - apply bind_fault. unfold bitset_grow, ensure_capacity.
    destruct (capacity b <? j / 64 + 1) eqn:Hc.
    + apply bind_fault. erewrite bind_ret_eq by done. rewrite Hc.
      erewrite bind_ret_eq by done. erewrite bind_ret_eq by done.
      apply bind_fault. unfold realloc_array. erewrite bind_ret_eq by done.
      cbn [array]. by rewrite Ha.
    + erewrite bind_ret_eq; [|erewrite bind_ret_eq by done; by rewrite Hc]. cbn [negb].
      erewrite bind_ret_eq by done. apply bind_fault. unfold zero_words.
      rewrite wrap_small by lia. destruct (Z.eqb_spec (j / 64 + 1 - arraysize b) 0); [lia|].
      erewrite bind_ret_eq by done. by rewrite Ha.
  - erewrite bind_ret_eq by done. cbn [negb]. apply bind_fault. unfold rd.
    erewrite bind_ret_eq by done. by rewrite Ha.
Qed.

(** A grow whose [realloc] fails frees the block it keeps pointing to. *)
Lemma set_failed b i l :
  array b = ABlock l -> 0 <= arraysize b <= capacity b -> 0 <= i < 64 * max_words ->
  capacity b <= i / 64 -> alloc_ok (16 * (i / 64 + 1)) = false ->
  bitset_set alloc_ok garbage i b =
    Ret (tt, Bitset ADangling (arraysize b) (2 * (i / 64 + 1))).
Proof.
  intros Ha Hs Hi Hc Hfail. unfold max_words in Hi. unfold bitset_set. rewrite shiftr6.
  assert (0 <= i / 64) by (apply Z.div_pos; lia).
  assert (i / 64 < 2 ^ 57) by (apply Z.div_lt_upper_bound; lia).
  erewrite bind_ret_eq by done. destruct (Z.leb_spec (arraysize b) (i / 64)); [|lia].
  assert (Hgrow : bitset_grow alloc_ok garbage (i / 64 + 1) b =
    Ret (false, Bitset ADangling (arraysize b) (2 * (i / 64 + 1)))).
  { unfold bitset_grow. erewrite bind_ret_eq.
    2: { unfold ensure_capacity. erewrite bind_ret_eq by done.
      destruct (Z.ltb_spec (capacity b) (i / 64 + 1)); [|lia].
      erewrite bind_ret_eq by done. erewrite bind_ret_eq by done. cbn [capacity].
      rewrite wrap_small by lia. unfold bytes. rewrite wrap_small by lia.
      erewrite bind_ret_eq.
      2: { unfold realloc_array. erewrite bind_ret_eq by done. cbn [array]. rewrite Ha.
        destruct (Z.eqb_spec (8 * ((i / 64 + 1) * 2)) 0); [lia|].
        replace (8 * ((i / 64 + 1) * 2)) with (16 * (i / 64 + 1)) by lia.
        rewrite Hfail. done. }
      cbv beta iota. erewrite bind_ret_eq.
      2: { unfold free_array. erewrite bind_ret_eq by done. done. }
      done. }
    cbn [negb arraysize capacity]. rewrite Z.mul_comm. done. }
  rewrite (bind_ret_eq _ _ _ _ _ Hgrow). done.
Qed.

(** Trimming an empty set asks [realloc] for 0 bytes, which frees the block,
    and then frees it again. *)
Lemma trim_empty_faults b :
  wf b -> value b = 0 -> array b <> ANull -> 0 < capacity b ->
  bitset_trim alloc_ok garbage b = Fault.
Proof.
  unfold wf. intros Hb Hv Ha Hc. set (ws := words_of b) in *.
  pose proof (brep_words b ws Hb) as Hws.
  unfold bitset_trim. erewrite bind_ret_eq by done. rewrite (brep_size b ws), Nat2Z.id by done.
  destruct (trim_loop_eq b ws (length ws) Hb) as (m & E & Hm & Ht & Hlast); [done|].
  rewrite firstn_all in Ht. rewrite (bind_ret_eq _ _ _ _ _ E).
  assert (m = 0%nat) as ->.
  { destruct Hlast as [|(w & Hw & Hne)]; [done|]. exfalso. apply Hne.
    pose proof (lookup_lt_Some _ _ _ Hw).
    apply Z.bits_inj'. intros i Hi. rewrite Z.bits_0.
    destruct (Z.lt_ge_cases i 64); [|by apply word_bit_high; [eapply lookup_word|]].
    assert (Hbit : Z.testbit (wval ws) (i + Z.of_nat (m - 1) * 64) = false).
    { unfold value in Hv. fold ws in Hv. by rewrite Hv, Z.bits_0. }
    rewrite wval_testbit in Hbit by (done || lia). unfold wbit in Hbit.
    rewrite Z.div_add, Z.mod_add, Z.div_small, Z.mod_small, Z.add_0_l, Nat2Z.id, Hw in Hbit by lia.
    done. }
  destruct (Z.eqb_spec (capacity b) (Z.of_nat 0)); [lia|].
  erewrite bind_ret_eq by done. erewrite bind_ret_eq by done.
  destruct Hb as (_ & _ & slack & [Harr|[Harr _]] & _); [|done].
  erewrite bind_ret_eq.
  2: { unfold realloc_array. erewrite bind_ret_eq by done. cbn [array]. rewrite Harr. done. }
  apply bind_fault. done.
Qed.
End failure.

(** [bitset_contains_all] reads [b2] beyond its block when [b1] is longer. *)
Lemma contains_loop_fault b b2 ws l2 m k :
  brep b ws -> array b2 = ABlock l2 -> 0 <= k <= Z.of_nat (length l2) ->
  k + Z.of_nat m = Z.of_nat (length ws) -> (length l2 < length ws)%nat ->
  (forall j w w2, ws !! j = Some w -> l2 !! j = Some w2 -> Z.land w w2 = w2) ->
  contains_loop m k b2 b = Fault.
Proof.
  intros Hb Ha. revert k. induction m as [|m IH]; intros k Hk Hm Hl Hsub; [lia|].
  cbn [contains_loop]. destruct (word_at ws k) as [w Hw]; [lia|].
  rewrite (bind_ret_eq _ _ _ _ _ (rd_eq b ws k w Hb (proj1 Hk) Hw)).
  destruct (decide (k = Z.of_nat (length l2))) as [->|Hne].
  - apply bind_fault. unfold rd2. rewrite Ha. unfold arr_get.
    by rewrite block_get_None by lia.
  - destruct (word_at l2 k) as [w2 Hw2]; [lia|].
    erewrite bind_ret_eq.
    2: { unfold rd2. rewrite Ha. unfold arr_get. rewrite (lookup_block_get _ _ w2) by (done || lia). done. }
    rewrite (Hsub (Z.to_nat k) w w2) by done. rewrite Z.eqb_refl. cbn [negb]. apply IH; done || lia.
Qed.

(** Containment of the values is containment word by word. *)
Lemma ldiff_words ws ws2 j w w2 :
  Forall word ws -> Forall word ws2 -> Z.ldiff (wval ws2) (wval ws) = 0 ->
  ws !! j = Some w -> ws2 !! j = Some w2 -> Z.land w w2 = w2.
Proof.
  intros Hws Hws2 H0 Hw Hw2. apply Z.bits_inj'. intros i Hi. rewrite Z.land_spec.
  destruct (Z.lt_ge_cases i 64) as [Hlt|Hge].
  2: { rewrite (word_bit_high w2) by (done || by eapply lookup_word). apply andb_false_r. }
  assert (Hbit : Z.testbit (Z.ldiff (wval ws2) (wval ws)) (i + Z.of_nat j * 64) = false)
    by (rewrite H0; apply Z.bits_0).
  rewrite Z.ldiff_spec, !wval_testbit in Hbit by (done || lia). unfold wbit in Hbit.
  rewrite Z.div_add, Z.mod_add, Z.div_small, Z.mod_small, Z.add_0_l, Nat2Z.id, Hw, Hw2 in Hbit by lia.
  simpl in Hbit. by destruct (Z.testbit w i), (Z.testbit w2 i).
Qed.

(** ** A decision procedure for [wf] *)
Definition wf_check (b : bitset) : bool :=
  match array b with
  | ABlock l =>
      (0 <=? arraysize b) && (arraysize b <=? capacity b) && (arraysize b <=? max_words) &&
      (capacity b =? Z.of_nat (length l)) && forallb (fun w => (0 <=? w) && (w <? 2 ^ 64)) l
  | ANull => (arraysize b =? 0) && (capacity b =? 0)
  | ADangling => false
  end.

Lemma wf_check_sound b : wf_check b = true -> wf b.
Proof.
  unfold wf_check, wf, words_of. destruct (array b) as [| |l] eqn:Ha; [|done|].
  - intros [H1 H2]%andb_true_iff. split; [simpl; lia|]. split; [done|]. exists [].
    split; [by right|]. split; [simpl; lia|done].
  - rewrite !andb_true_iff, forallb_forall. intros [[[[H1 H2] H3] H4] H5].
    assert (Hl : (Z.to_nat (arraysize b) <= length l)%nat) by lia.
    split; [rewrite length_take; lia|]. split; [rewrite length_take; lia|].
    exists (drop (Z.to_nat (arraysize b)) l). rewrite take_drop.
    split; [by left|]. split; [lia|]. apply Forall_forall. intros w Hw.
    apply list_elem_of_In, H5 in Hw. unfold in_width. lia.
Qed.

(** ** The properties *)
Section properties.
Context (alloc_ok : Z -> bool) (garbage : nat -> list Z).

(** C7. While memory lasts, every sequence of the operations of the library
    behaves as on sets: setting, clearing and testing bits, growing, resizing
    with padding, trimming, in-place union, intersection, difference and
    symmetric difference with any operands, and shifts in both directions
    produce the results and the final set and size that [spec_all] gives,
    never touch memory outside the block, and leave a usable bitset. *)
Theorem bitset_refines_sets (cs : list cmd) (b : bitset) rs v n :
  (forall k, alloc_ok k = true) ->
  (forall k, length (garbage k) = k /\ Forall word (garbage k)) ->
  wf b -> Forall operand_ok cs ->
  spec_all cs (value b, arraysize b) = Some (rs, (v, n)) ->
  exists b', exec_all alloc_ok garbage cs b = Ret (rs, b') /\
    wf b' /\ value b' = v /\ arraysize b' = n.
Proof.
  intros Hok Hg. revert b rs v n. induction cs as [|c cs IH]; intros b rs v n Hb Hops Hs.
  - simplify_eq/=. by exists b.
  - apply Forall_cons in Hops as [Hop Hops]. cbn [spec_all] in Hs.
    apply bind_Some in Hs as ([r [v1 n1]] & E1 & Hs).
    apply bind_Some in Hs as ([rs1 st2] & E2 & Hs). simplify_eq.
    destruct (exec_refines alloc_ok garbage Hok Hg b c r (v1, n1)) as (r' & b1 & E & -> & Hb1 & Hst);
      [done..|].
    unfold state_of in Hst. injection Hst as <- <-.
    destruct (IH b1 rs1 v n Hb1 Hops E2) as (b' & E' & H).
    exists b'. split; [|done]. cbn [exec_all]. rewrite (bind_ret_eq _ _ _ _ _ E).
    by rewrite (bind_ret_eq _ _ _ _ _ E').
Qed.

(** The cardinality functions, with their unrolled loops and 64-bit
    accumulators, return the number of members of the set, of the union, the
    intersection, the difference and the symmetric difference, for operands
    of any two sizes, and change nothing. *)
Theorem bitset_counts_members (b1 b2 : bitset) :
  wf b1 -> wf b2 ->
  let n := 64 * Z.max (arraysize b1) (arraysize b2) in
  let card v := Z.of_nat (length (members n v)) in
  bitset_count b1 = Ret (card (value b1), b1) /\
  bitset_union_count b2 b1 = Ret (card (Z.lor (value b1) (value b2)), b1) /\
  bitset_intersection_count b2 b1 = Ret (card (Z.land (value b1) (value b2)), b1) /\
  bitset_difference_count b2 b1 = Ret (card (Z.ldiff (value b1) (value b2)), b1) /\
  bitset_symmetric_difference_count b2 b1 = Ret (card (Z.lxor (value b1) (value b2)), b1).
Proof.
  intros H1 H2 n card. unfold wf in H1, H2. unfold value.
  pose proof (brep_words _ _ H1) as Hw1. pose proof (brep_words _ _ H2) as Hw2.
  pose proof (brep_size _ _ H1) as Hs1. pose proof (brep_size _ _ H2) as Hs2.
  set (ws1 := words_of b1) in *. set (ws2 := words_of b2) in *.
  rewrite <- wval_union, <- wval_inter, <- wval_diff, <- wval_xor by done.
  unfold card, n. rewrite Hs1, Hs2.
  rewrite !length_members_cover; [| first [done
    | eapply zip_rest_word; eauto with userland | eapply zip_left_word; eauto with userland
    | eapply zip_word; eauto with userland
    | rewrite ?length_zip_rest, ?length_zip_left, ?length_zip_with; lia] ..].
  split; [by apply count_eq|]. split; [by apply union_count_eq|].
  split; [by apply intersection_count_eq|]. split; [by apply difference_count_eq|].
  by apply symmetric_difference_count_eq.
Qed.

(** The comparisons decide disjointness and intersection for operands of
    any sizes, and [bitset_contains_all] decides containment when the first
    bitset is no longer than the second.  When the first is longer than the
    second's whole block, the containment that should be reported as true is
    undefined behaviour: the loop runs over the words of the first bitset and
    reads the second's block beyond its end. *)
Theorem bitset_comparisons (b1 b2 : bitset) :
  wf b1 -> wf b2 ->
  bitsets_disjoint b2 b1 = Ret (Z.land (value b1) (value b2) =? 0, b1) /\
  bitsets_intersect b2 b1 = Ret (negb (Z.land (value b1) (value b2) =? 0), b1) /\
  (arraysize b1 <= arraysize b2 ->
     bitset_contains_all b2 b1 = Ret (Z.ldiff (value b2) (value b1) =? 0, b1)) /\
  (0 < arraysize b2 -> arraysize b2 = capacity b2 -> arraysize b2 < arraysize b1 ->
     Z.ldiff (value b2) (value b1) = 0 -> bitset_contains_all b2 b1 = Fault).
Proof.
  unfold wf, value. intros H1 H2.
  pose proof (brep_size _ _ H1) as Hs1. pose proof (brep_size _ _ H2) as Hs2.
  split; [by apply disjoint_eq|]. split; [by apply intersect_eq|].
  split; [intros; apply contains_all_eq; [done|done|lia]|].
  intros H0 Hcap Hlt Hsub. set (ws1 := words_of b1) in *. set (ws2 := words_of b2) in *.
  unfold bitset_contains_all. erewrite bind_ret_eq by done. apply bind_fault.
  destruct (brep_array b2 ws2 H2) as (slack & Ha & Hc & _).
  { intros E. rewrite E in Hs2. simpl in Hs2. lia. }
  rewrite length_app in Hc. destruct slack; [|simpl in Hc; lia]. rewrite app_nil_r in Ha.
  rewrite Hs1, Nat2Z.id. eapply contains_loop_fault; [done|done|lia|lia|lia|].
  intros j w w2 Hw Hw2. by apply (ldiff_words ws1 ws2 j);
    [eapply brep_words|eapply brep_words| | |].
Qed.

(** Iterating a bitset visits exactly its members, in increasing order
    and each once: with the [nextSetBit] loop that the header recommends, and
    with [bitset_for_each], which stops after the first value its callback
    refuses and reports whether it was interrupted; [bitset_minimum] and
    [bitset_maximum] are the first and the last of them (0 for no members). *)
Theorem bitset_iteration (b : bitset) (stop : Z -> bool) fuel :
  wf b -> (length (members_of b) < fuel)%nat ->
  bitset_print fuel 0 [] b = Ret (members_of b, b) /\
  bitset_for_each stop b = Ret (visit stop (members_of b), b) /\
  bitset_minimum b = Ret (default 0 (head (members_of b)), b) /\
  bitset_maximum b = Ret (default 0 (last (members_of b)), b).
Proof.
  unfold wf, members_of, value. intros Hb Hf. rewrite (brep_size _ _ Hb) in *.
  split; [|split; [by apply for_each_eq|split; [by apply minimum_eq|by apply maximum_eq]]].
  pose proof (bitset_print_eq b _ Hb fuel 0 []) as E. rewrite Z.sub_0_r in E.
  by apply E.
Qed.

(** C31. [nextSetBits] fills the buffer with up to [cap] members from
    [startfrom] on and moves [startfrom] to the last index it stored.  From a
    word boundary the indices are the members themselves; otherwise those in
    the first word all come out too small by [startfrom mod 64], because the
    shift of the word is not added back to the base of its indices. *)
Theorem nextSetBits_indices (b : bitset) (cap startfrom : Z) :
  wf b -> 0 < cap -> 0 <= startfrom < 64 * arraysize b ->
  let all := members_in startfrom (64 * arraysize b - startfrom) (value b) in
  let first := length (members_in startfrom (64 - startfrom mod 64) (value b)) in
  let stored := ((fun i => i - startfrom mod 64) <$> take first all) ++ drop first all in
  nextSetBits cap startfrom b =
    Ret (take (Z.to_nat cap) stored,
         default startfrom (last (take (Z.to_nat cap) stored)), b).
Proof.
  intros Hb Hcap Hs all first stored. unfold wf in Hb. unfold value in all, first. pose proof (brep_size _ _ Hb) as Hn.
  set (ws := words_of b) in *. rewrite Hn in Hs.
  pose proof (word_mod_bound startfrom). pose proof (Z.div_mod startfrom 64 ltac:(done)).
  pose proof (Zdiv64_bound startfrom (Z.of_nat (length ws)) ltac:(lia)).
  assert (stored = next_indices ws startfrom) as ->; [|by apply nextSetBits_eq].
  unfold stored, first, all, next_indices. rewrite Hn.
  replace (64 * Z.of_nat (length ws) - startfrom) with ((64 - startfrom mod 64) +
    64 * (Z.of_nat (length ws) - (startfrom / 64 + 1))) by lia.
  rewrite members_in_app by lia. rewrite take_app_length, drop_app_length.
  by replace (startfrom + (64 - startfrom mod 64)) with (64 * (startfrom / 64 + 1)) by lia.
Qed.

(** C32. When [realloc] cannot serve the growth that setting a bit needs, the
    call returns as if it had succeeded, but the block is freed while the
    bitset keeps pointing to it with an enlarged capacity: from then on
    setting any bit, and freeing the bitset, is undefined behaviour. *)
Theorem bitset_set_allocation_failure (b : bitset) (i : Z) :
  wf b -> array b <> ANull -> 0 <= i < 64 * max_words -> capacity b <= i / 64 ->
  alloc_ok (16 * (i / 64 + 1)) = false ->
  exists b', bitset_set alloc_ok garbage i b = Ret (tt, b') /\
    capacity b < capacity b' /\
    (forall j, 0 <= j < 2 ^ 64 -> bitset_set alloc_ok garbage j b' = Fault) /\
    bitset_free b' = Fault.
Proof.
  unfold wf. intros Hb Ha Hi Hc Hfail.
  destruct Hb as (Hs & Hm & slack & [Harr|[Harr _]] & Hcap & _); [|done].
  rewrite length_app in Hcap. eexists.
  split; [eapply set_failed; [done|lia|done|done|done]|].
  split; [cbn [capacity]; lia|]. split; [|done].
  intros j Hj. apply set_dangling; [done|done|]. cbn [arraysize]. lia.
Qed.

(** A new bitset is empty and, when made with a capacity, has room for
    that many bits in the fewest words; a copy is a bitset of its own that
    represents the same set. *)
Theorem bitset_creation (b : bitset) (size : Z) :
  (forall k, alloc_ok k = true) ->
  (forall k, length (garbage k) = k /\ Forall word (garbage k)) ->
  wf b -> 0 <= size <= 64 * max_words ->
  (exists b', bitset_create alloc_ok = Some b' /\ wf b' /\ value b' = 0 /\ arraysize b' = 0) /\
  (exists b', bitset_create_with_capacity alloc_ok size = Some b' /\ wf b' /\ value b' = 0 /\
     size <= 64 * arraysize b' < size + 64) /\
  (exists b', bitset_copy alloc_ok garbage b = Ret (Some b') /\ wf b' /\
     value b' = value b /\ arraysize b' = arraysize b).
Proof.
  intros Hok Hg Hb Hs. unfold wf in Hb. split; [|split].
  - exists (Bitset ANull 0 0). unfold bitset_create. rewrite Hok. split; [done|].
    apply (brep_wf _ []). split; [done|]. split; [done|]. exists [].
    split; [by right|]. by split.
  - destruct (create_with_capacity_eq alloc_ok Hok size Hs) as (n & E & Hn & Hsize).
    eexists. split; [done|]. destruct (brep_wf _ _ Hn) as (Hwf & Hv & _).
    rewrite wval_zeros in Hv. done.
  - rewrite (copy_eq alloc_ok garbage Hok Hg b _ Hb). eexists. split; [done|].
    rewrite (brep_size _ _ Hb).
    destruct (brep_wf (Bitset (ABlock (words_of b)) (Z.of_nat (length (words_of b)))
      (Z.of_nat (length (words_of b)))) (words_of b)) as (Hwf & Hv & Hs'); [|done].
    split; [done|]. split; [by eapply brep_max|]. exists []. rewrite app_nil_r.
    split; [by left|]. split; [done|]. by eapply brep_words.
Qed.
End properties.

(** ** The properties at concrete bitsets *)
Definition always (n : Z) : bool := true.
Definition zeros (n : nat) : list Z := replicate n 0.

Lemma zeros_ok k : length (zeros k) = k /\ Forall word (zeros k).
Proof. unfold zeros. rewrite length_replicate. split; [done|]. apply Forall_replicate. by split. Qed.

(** {1, 65} in two words of a block of three, and {0, 64, 130} *)
Definition sample1 : bitset := Bitset (ABlock [2; 2; 77]) 2 3.
Definition sample2 : bitset := Bitset (ABlock [1; 1; 4]) 3 3.
Definition sample_cmds : list cmd :=
  [CSet 3; CSetTo 65 false; CGet 3; CUnion sample2; CCount; CShiftLeft 70;
   CDifference sample1; CShiftRight 69; CGet 131; CResize 3; CTrim; CSymmetricDifference sample1;
   CIntersection sample2; CGrow 9; CCount; CClear].

Lemma bitset_refines_sets_witness :
  exists b', exec_all always zeros sample_cmds sample1 =
    Ret ([0; 0; 1; 1; 5; 0; 0; 0; 1; 1; 1; 1; 0; 1; 0; 0], b') /\ wf b' /\
    value b' = 0 /\ arraysize b' = 9.
Proof.
  apply (bitset_refines_sets always zeros sample_cmds sample1); [done|apply zeros_ok| | |].
  - by apply wf_check_sound.
  - repeat constructor; by apply wf_check_sound.
  - vm_compute. reflexivity.
Defined.

Lemma bitset_counts_members_witness :
  bitset_union_count sample2 sample1 = Ret (5, sample1) /\
  bitset_symmetric_difference_count sample1 sample2 = Ret (5, sample2).
Proof.
  destruct (bitset_counts_members sample1 sample2) as (_ & H1 & _);
    [by apply wf_check_sound..|].
  destruct (bitset_counts_members sample2 sample1) as (_ & _ & _ & _ & H2);
    [by apply wf_check_sound..|].
  split; [exact H1|exact H2].
Defined.

Lemma bitset_comparisons_witness :
  bitsets_disjoint sample2 sample1 = Ret (true, sample1) /\
  bitset_contains_all sample2 sample1 = Ret (false, sample1) /\
  bitset_contains_all (Bitset (ABlock [1]) 1 1) sample2 = Fault.
Proof.
  destruct (bitset_comparisons sample1 sample2) as (H1 & _ & H2 & _);
    [by apply wf_check_sound..|].
  destruct (bitset_comparisons sample2 (Bitset (ABlock [1]) 1 1)) as (_ & _ & _ & H3);
    [by apply wf_check_sound..|].
  split; [exact H1|]. split; [by apply H2|]. by apply H3.
Defined.

Lemma bitset_iteration_witness :
  bitset_print 4 0 [] sample2 = Ret ([0; 64; 130], sample2) /\
  bitset_for_each (fun i => i =? 64) sample2 = Ret (([0; 64], false), sample2) /\
  bitset_maximum sample2 = Ret (130, sample2).
Proof.
  destruct (bitset_iteration sample2 (fun i => i =? 64) 4) as (H1 & H2 & _ & H3);
    [by apply wf_check_sound|vm_compute; lia|].
  split; [exact H1|]. split; [exact H2|exact H3].
Defined.

(** From 1 the members are 64 and 130; from 65 it is 130; from 129 the index
    130 comes out as 129. *)
Lemma nextSetBits_indices_witness :
  nextSetBits 2 1 sample2 = Ret ([64; 130], 130, sample2) /\
  nextSetBits 1 129 sample2 = Ret ([129], 129, sample2).
Proof.
  split.
  - apply (nextSetBits_indices sample2 2 1); [by apply wf_check_sound|lia|simpl; lia].
  - apply (nextSetBits_indices sample2 1 129); [by apply wf_check_sound|lia|simpl; lia].
Defined.

Lemma bitset_set_allocation_failure_witness :
  exists b', bitset_set (fun n => n <? 100) zeros 900 sample1 = Ret (tt, b') /\
    capacity sample1 < capacity b' /\
    (forall j, 0 <= j < 2 ^ 64 -> bitset_set (fun n => n <? 100) zeros j b' = Fault) /\
    bitset_free b' = Fault.
Proof.
  apply (bitset_set_allocation_failure (fun n => n <? 100) zeros sample1 900);
    [by apply wf_check_sound|done|by vm_compute|by vm_compute|reflexivity].
Defined.

Lemma bitset_creation_witness :
  exists b', bitset_create_with_capacity always 130 = Some b' /\ wf b' /\ value b' = 0 /\
    130 <= 64 * arraysize b' < 194.
Proof.
  apply (bitset_creation always zeros sample1 130); [done|apply zeros_ok| |by vm_compute].
  by apply wf_check_sound.
Defined.
