(* ===== verification/PtpFsm.v ===== *)
(** * The state machines of linuxptp (linuxptp-3.1)

    fsm.c, designated_fsm.c and unicast_fsm.c: the four port state machines
    and the one of a unicast master, the interface the ports rely on, and
    what can happen along a sequence of events. *)

From S2P Require Import Prelude.

(** [enum port_state] *)
Inductive port_state :=
  | PS_INITIALIZING
  | PS_FAULTY
  | PS_DISABLED
  | PS_LISTENING
  | PS_PRE_MASTER
  | PS_MASTER
  | PS_PASSIVE
  | PS_UNCALIBRATED
  | PS_SLAVE
  | PS_GRAND_MASTER.

(** [enum fsm_event] *)
Inductive fsm_event :=
  | EV_NONE
  | EV_POWERUP
  | EV_INITIALIZE
  | EV_DESIGNATED_ENABLED
  | EV_DESIGNATED_DISABLED
  | EV_FAULT_CLEARED
  | EV_FAULT_DETECTED
  | EV_STATE_DECISION_EVENT
  | EV_QUALIFICATION_TIMEOUT_EXPIRES
  | EV_ANNOUNCE_RECEIPT_TIMEOUT_EXPIRES
  | EV_SYNCHRONIZATION_FAULT
  | EV_MASTER_CLOCK_SELECTED
  | EV_INIT_COMPLETE
  | EV_RS_MASTER
  | EV_RS_GRAND_MASTER
  | EV_RS_SLAVE
  | EV_RS_PASSIVE.

#[export] Instance port_state_eq_dec : EqDecision port_state.
Proof. solve_decision. Defined.
#[export] Instance fsm_event_eq_dec : EqDecision fsm_event.
Proof. solve_decision. Defined.

Definition state_machine := port_state -> fsm_event -> bool -> port_state.

(** ** fsm.c *)
Definition ptp_fsm : state_machine := fun state event mdiff =>
  match event with
  | EV_INITIALIZE | EV_POWERUP => PS_INITIALIZING
  | _ =>
  match state with
  | PS_INITIALIZING =>
      match event with
      | EV_FAULT_DETECTED => PS_FAULTY
      | EV_INIT_COMPLETE => PS_LISTENING
      | _ => state
      end
  | PS_FAULTY =>
      match event with
      | EV_DESIGNATED_DISABLED => PS_DISABLED
      | EV_FAULT_CLEARED => PS_INITIALIZING
      | _ => state
      end
  | PS_DISABLED =>
      match event with
      | EV_DESIGNATED_ENABLED => PS_INITIALIZING
      | _ => state
      end
  | PS_LISTENING =>
      match event with
      | EV_DESIGNATED_DISABLED => PS_DISABLED
      | EV_FAULT_DETECTED => PS_FAULTY
      | EV_ANNOUNCE_RECEIPT_TIMEOUT_EXPIRES => PS_MASTER
      | EV_RS_MASTER => PS_PRE_MASTER
      | EV_RS_GRAND_MASTER => PS_GRAND_MASTER
      | EV_RS_SLAVE => PS_UNCALIBRATED
      | EV_RS_PASSIVE => PS_PASSIVE
      | _ => state
      end
  | PS_PRE_MASTER =>
      match event with
      | EV_DESIGNATED_DISABLED => PS_DISABLED
      | EV_FAULT_DETECTED => PS_FAULTY
      | EV_QUALIFICATION_TIMEOUT_EXPIRES => PS_MASTER
      | EV_RS_SLAVE => PS_UNCALIBRATED
      | EV_RS_PASSIVE => PS_PASSIVE
      | _ => state
      end
  | PS_MASTER | PS_GRAND_MASTER =>
      match event with
      | EV_DESIGNATED_DISABLED => PS_DISABLED
      | EV_FAULT_DETECTED => PS_FAULTY
      | EV_RS_SLAVE => PS_UNCALIBRATED
      | EV_RS_PASSIVE => PS_PASSIVE
      | _ => state
      end
  | PS_PASSIVE =>
      match event with
      | EV_DESIGNATED_DISABLED => PS_DISABLED
      | EV_FAULT_DETECTED => PS_FAULTY
      | EV_ANNOUNCE_RECEIPT_TIMEOUT_EXPIRES => PS_MASTER
      | EV_RS_MASTER => PS_PRE_MASTER
      | EV_RS_GRAND_MASTER => PS_GRAND_MASTER
      | EV_RS_SLAVE => PS_UNCALIBRATED
      | _ => state
      end
  | PS_UNCALIBRATED =>
      match event with
      | EV_DESIGNATED_DISABLED => PS_DISABLED
      | EV_FAULT_DETECTED => PS_FAULTY
      | EV_ANNOUNCE_RECEIPT_TIMEOUT_EXPIRES => PS_MASTER
      | EV_MASTER_CLOCK_SELECTED => PS_SLAVE
      | EV_RS_MASTER => PS_PRE_MASTER
      | EV_RS_GRAND_MASTER => PS_GRAND_MASTER
      | EV_RS_SLAVE => PS_UNCALIBRATED
      | EV_RS_PASSIVE => PS_PASSIVE
      | _ => state
      end
  | PS_SLAVE =>
      match event with
      | EV_DESIGNATED_DISABLED => PS_DISABLED
      | EV_FAULT_DETECTED => PS_FAULTY
      | EV_ANNOUNCE_RECEIPT_TIMEOUT_EXPIRES => PS_MASTER
      | EV_SYNCHRONIZATION_FAULT => PS_UNCALIBRATED
      | EV_RS_MASTER => PS_PRE_MASTER
      | EV_RS_GRAND_MASTER => PS_GRAND_MASTER
      | EV_RS_SLAVE => if mdiff then PS_UNCALIBRATED else state
      | EV_RS_PASSIVE => PS_PASSIVE
      | _ => state
      end
  end
  end.

Definition ptp_slave_fsm : state_machine := fun state event mdiff =>
  match event with
  | EV_INITIALIZE | EV_POWERUP => PS_INITIALIZING
  | _ =>
  match state with
  | PS_INITIALIZING =>
      match event with
      | EV_FAULT_DETECTED => PS_FAULTY
      | EV_INIT_COMPLETE => PS_LISTENING
      | _ => state
      end
  | PS_FAULTY =>
      match event with
      | EV_DESIGNATED_DISABLED => PS_DISABLED
      | EV_FAULT_CLEARED => PS_INITIALIZING
      | _ => state
      end
  | PS_DISABLED =>
      match event with
      | EV_DESIGNATED_ENABLED => PS_INITIALIZING
      | _ => state
      end
  | PS_LISTENING =>
      match event with
      | EV_DESIGNATED_DISABLED => PS_DISABLED
      | EV_FAULT_DETECTED => PS_FAULTY
      | EV_ANNOUNCE_RECEIPT_TIMEOUT_EXPIRES
      | EV_RS_MASTER | EV_RS_GRAND_MASTER | EV_RS_PASSIVE => PS_LISTENING
      | EV_RS_SLAVE => PS_UNCALIBRATED
      | _ => state
      end
  | PS_UNCALIBRATED =>
      match event with
      | EV_DESIGNATED_DISABLED => PS_DISABLED
      | EV_FAULT_DETECTED => PS_FAULTY
      | EV_ANNOUNCE_RECEIPT_TIMEOUT_EXPIRES
      | EV_RS_MASTER | EV_RS_GRAND_MASTER | EV_RS_PASSIVE => PS_LISTENING
      | EV_MASTER_CLOCK_SELECTED => PS_SLAVE
      | _ => state
      end
  | PS_SLAVE =>
      match event with
      | EV_DESIGNATED_DISABLED => PS_DISABLED
      | EV_FAULT_DETECTED => PS_FAULTY
      | EV_ANNOUNCE_RECEIPT_TIMEOUT_EXPIRES
      | EV_RS_MASTER | EV_RS_GRAND_MASTER | EV_RS_PASSIVE => PS_LISTENING
      | EV_SYNCHRONIZATION_FAULT => PS_UNCALIBRATED
      | EV_RS_SLAVE => if mdiff then PS_UNCALIBRATED else state
      | _ => state
      end
  | _ => state
  end
  end.

(** ** designated_fsm.c *)
Definition designated_master_fsm : state_machine := fun state event mdiff =>
  match event with
  | EV_INITIALIZE | EV_POWERUP => PS_INITIALIZING
  | _ =>
  match state with
  | PS_INITIALIZING =>
      match event with
      | EV_FAULT_DETECTED => PS_FAULTY
      | EV_INIT_COMPLETE => PS_MASTER
      | _ => state
      end
  | PS_FAULTY =>
      match event with EV_FAULT_CLEARED => PS_INITIALIZING | _ => state end
  | PS_MASTER =>
      match event with EV_FAULT_DETECTED => PS_FAULTY | _ => state end
  | _ => state
  end
  end.

Definition designated_slave_fsm : state_machine := fun state event mdiff =>
  match event with
  | EV_INITIALIZE | EV_POWERUP => PS_INITIALIZING
  | _ =>
  match state with
  | PS_INITIALIZING =>
      match event with
      | EV_FAULT_DETECTED => PS_FAULTY
      | EV_INIT_COMPLETE => PS_SLAVE
      | _ => state
      end
  | PS_FAULTY =>
      match event with EV_FAULT_CLEARED => PS_INITIALIZING | _ => state end
  | PS_SLAVE =>
      match event with EV_FAULT_DETECTED => PS_FAULTY | _ => state end
  | _ => state
  end
  end.

(** ** unicast_fsm.c *)
Inductive unicast_state := UC_WAIT | UC_HAVE_ANN | UC_NEED_SYDY | UC_HAVE_SYDY.

Inductive unicast_event :=
  | UC_EV_GRANT_ANN
  | UC_EV_SELECTED
  | UC_EV_GRANT_SYDY
  | UC_EV_UNSELECTED
  | UC_EV_CANCEL.

#[export] Instance unicast_state_eq_dec : EqDecision unicast_state.
Proof. solve_decision. Defined.
#[export] Instance unicast_event_eq_dec : EqDecision unicast_event.
Proof. solve_decision. Defined.

Definition unicast_fsm (state : unicast_state) (ev : unicast_event) : unicast_state :=
  match state with
  | UC_WAIT =>
      match ev with UC_EV_GRANT_ANN => UC_HAVE_ANN | _ => state end
  | UC_HAVE_ANN =>
      match ev with
      | UC_EV_SELECTED => UC_NEED_SYDY
      | UC_EV_CANCEL => UC_WAIT
      | _ => state
      end
  | UC_NEED_SYDY =>
      match ev with
      | UC_EV_GRANT_SYDY => UC_HAVE_SYDY
      | UC_EV_UNSELECTED => UC_HAVE_ANN
      | UC_EV_CANCEL => UC_WAIT
      | _ => state
      end
  | UC_HAVE_SYDY =>
      match ev with
      | UC_EV_UNSELECTED => UC_HAVE_ANN
      | UC_EV_CANCEL => UC_WAIT
      | _ => state
      end
  end.

(** ** The interface of a port state machine

    What port.c relies on, whichever machine the configuration selects. *)
Class PortFsm (fsm : state_machine) : Prop := {
  fsm_restart s e d : e = EV_INITIALIZE \/ e = EV_POWERUP -> fsm s e d = PS_INITIALIZING;
  (** initialization ends in a fault or in an operational state *)
  fsm_init_fault d : fsm PS_INITIALIZING EV_FAULT_DETECTED d = PS_FAULTY;
  fsm_init_complete d :
    fsm PS_INITIALIZING EV_INIT_COMPLETE d <> PS_INITIALIZING /\
    fsm PS_INITIALIZING EV_INIT_COMPLETE d <> PS_FAULTY /\
    fsm PS_INITIALIZING EV_INIT_COMPLETE d <> PS_DISABLED;
  (** a fault is cleared by reinitializing *)
  fsm_fault_cleared d : fsm PS_FAULTY EV_FAULT_CLEARED d = PS_INITIALIZING;
  (** PS_FAULTY is left to no operational state *)
  fsm_faulty s' e d : fsm PS_FAULTY e d = s' ->
    s' = PS_FAULTY \/ s' = PS_INITIALIZING \/ s' = PS_DISABLED;
  (** nothing but initialization itself leaves PS_INITIALIZING *)
  fsm_initializing s' e d : fsm PS_INITIALIZING e d = s' -> s' <> PS_INITIALIZING ->
    e = EV_FAULT_DETECTED \/ e = EV_INIT_COMPLETE;
}.

Ltac fsm_cases := intros; repeat match goal with
  | e : fsm_event |- _ => destruct e
  | s : port_state |- _ => destruct s
  | d : bool |- _ => destruct d
  end; simpl in *; naive_solver.

#[export] Instance ptp_fsm_port : PortFsm ptp_fsm.
Proof. split; fsm_cases. Qed.
#[export] Instance ptp_slave_fsm_port : PortFsm ptp_slave_fsm.
Proof. split; fsm_cases. Qed.
#[export] Instance designated_master_fsm_port : PortFsm designated_master_fsm.
Proof. split; fsm_cases. Qed.
#[export] Instance designated_slave_fsm_port : PortFsm designated_slave_fsm.
Proof. split; fsm_cases. Qed.

(** ** Histories of a port *)
Section history.
Context (fsm : state_machine).

(** The states along a sequence of events, each with its [mdiff]; the first
    element is the starting state. *)
Fixpoint trace (s : port_state) (evs : list (fsm_event * bool)) : list port_state :=
  s :: match evs with [] => [] | (e, d) :: evs => trace (fsm s e d) evs end.

Inductive reachable : port_state -> Prop :=
  | reach_init : reachable PS_INITIALIZING
  | reach_step s e d : reachable s -> reachable (fsm s e d).

Lemma trace_reachable s evs : reachable s -> Forall reachable (trace s evs).
Proof.
  revert s. induction evs as [|[e d] evs IH]; intros s Hs; simpl.
  - by constructor.
  - constructor; [done|]. apply IH. by constructor.
Qed.

(** A property of a starting state that holds of every later one. *)
Lemma reachable_inv (P : port_state -> Prop) :
  P PS_INITIALIZING -> (forall s e d, P s -> P (fsm s e d)) -> forall s, reachable s -> P s.
Proof. induction 3; auto. Qed.
End history.

(** The states in which a port serves time to others *)
Definition is_master (s : port_state) : bool :=
  match s with PS_PRE_MASTER | PS_MASTER | PS_GRAND_MASTER => true | _ => false end.
(** The states in which it follows a master *)
Definition is_slave (s : port_state) : bool :=
  match s with PS_UNCALIBRATED | PS_SLAVE => true | _ => false end.

(** The steps of a history: state, event, [mdiff], next state *)
Fixpoint steps (fsm : state_machine) (s : port_state) (evs : list (fsm_event * bool))
    : list (port_state * fsm_event * bool * port_state) :=
  match evs with
  | [] => []
  | (e, d) :: evs => (s, e, d, fsm s e d) :: steps fsm (fsm s e d) evs
  end.

Lemma Forall_steps fsm (P : port_state * fsm_event * bool * port_state -> Prop) s evs :
  reachable fsm s -> (forall s e d, reachable fsm s -> P (s, e, d, fsm s e d)) ->
  Forall P (steps fsm s evs).
Proof.
  intros Hs H. revert s Hs. induction evs as [|[e d] evs IH]; intros s Hs; simpl; constructor; auto.
  apply IH. by constructor.
Qed.

(** A slave-only port never acts as a master: whatever events arrive, in
    whatever order, [ptp_slave_fsm] and [designated_slave_fsm] never reach
    the pre-master, master, grand master or passive state; conversely a port
    with [designated_master_fsm] never follows a master. *)
Theorem slave_only_never_master (evs : list (fsm_event * bool)) :
  Forall (fun s => is_master s = false /\ s <> PS_PASSIVE)
    (trace ptp_slave_fsm PS_INITIALIZING evs) /\
  Forall (fun s => is_master s = false /\ s <> PS_PASSIVE)
    (trace designated_slave_fsm PS_INITIALIZING evs) /\
  Forall (fun s => is_slave s = false)
    (trace designated_master_fsm PS_INITIALIZING evs).
Proof.
  assert (Htrace : forall fsm (P : port_state -> Prop), P PS_INITIALIZING ->
    (forall s e d, P s -> P (fsm s e d)) -> Forall P (trace fsm PS_INITIALIZING evs)).
  { intros fsm P H0 Hstep. eapply Forall_impl.
    - apply trace_reachable, reach_init.
    - by apply reachable_inv. }
  split; [|split]; apply Htrace; fsm_cases.
Qed.

(** ** The roles of a port

    The transitions by the state they lead to, as IEEE 1588-2008 figures 23
    and 24 draw them: when a port becomes [t] that was not [t] before.
    [serving] tells whether a state decision may make it serve or be passive,
    which it may not with a slave-only clock. *)
Definition may_serve (s : port_state) : bool :=
  match s with PS_LISTENING | PS_PASSIVE | PS_UNCALIBRATED | PS_SLAVE => true | _ => false end.

Definition enabled (s : port_state) : bool :=
  match s with PS_INITIALIZING | PS_FAULTY | PS_DISABLED => false | _ => true end.

Definition among (es : list fsm_event) (e : fsm_event) : bool := bool_decide (e ∈ es).
Definition from (ss : list port_state) (s : port_state) : bool := bool_decide (s ∈ ss).

Definition becomes (serving : bool) (s : port_state) (e : fsm_event) (mdiff : bool)
    (t : port_state) : bool :=
  match t with
  | PS_INITIALIZING =>
      among [EV_INITIALIZE; EV_POWERUP] e ||
      from [PS_FAULTY] s && among [EV_FAULT_CLEARED] e ||
      from [PS_DISABLED] s && among [EV_DESIGNATED_ENABLED] e
  | PS_FAULTY =>
      (from [PS_INITIALIZING] s || enabled s) && among [EV_FAULT_DETECTED] e
  | PS_DISABLED =>
      (from [PS_FAULTY] s || enabled s) && among [EV_DESIGNATED_DISABLED] e
  | PS_LISTENING =>
      from [PS_INITIALIZING] s && among [EV_INIT_COMPLETE] e ||
      negb serving && is_slave s &&
        among [EV_ANNOUNCE_RECEIPT_TIMEOUT_EXPIRES; EV_RS_MASTER; EV_RS_GRAND_MASTER;
               EV_RS_PASSIVE] e
  | PS_PRE_MASTER => serving && may_serve s && among [EV_RS_MASTER] e
  | PS_MASTER =>
      serving && (may_serve s && among [EV_ANNOUNCE_RECEIPT_TIMEOUT_EXPIRES] e ||
                  from [PS_PRE_MASTER] s && among [EV_QUALIFICATION_TIMEOUT_EXPIRES] e)
  | PS_GRAND_MASTER => serving && may_serve s && among [EV_RS_GRAND_MASTER] e
  | PS_PASSIVE => serving && enabled s && among [EV_RS_PASSIVE] e
  | PS_UNCALIBRATED =>
      (if from [PS_SLAVE] s then mdiff else enabled s) && among [EV_RS_SLAVE] e ||
      from [PS_SLAVE] s && among [EV_SYNCHRONIZATION_FAULT] e
  | PS_SLAVE => from [PS_UNCALIBRATED] s && among [EV_MASTER_CLOCK_SELECTED] e
  end.

(** The two sides of an equivalence computed *)
Ltac decide_step := vm_compute; (by split) || (split; intros [=]).

Lemma becomes_ptp s e d t : t <> s -> ptp_fsm s e d = t <-> becomes true s e d t = true.
Proof.
  intros Hne. destruct s, t; try (by destruct (Hne eq_refl)); clear Hne; destruct e, d; decide_step.
Qed.

Lemma becomes_slave s e d t :
  is_master s = false -> s <> PS_PASSIVE -> t <> s ->
  ptp_slave_fsm s e d = t <-> becomes false s e d t = true.
Proof.
  intros Hm Hp Hne. destruct s; try done; clear Hm Hp;
    destruct t; try (by destruct (Hne eq_refl)); clear Hne; destruct e, d; decide_step.
Qed.

Lemma slave_never_serves s :
  reachable ptp_slave_fsm s -> is_master s = false /\ s <> PS_PASSIVE.
Proof.
  apply (reachable_inv ptp_slave_fsm (fun s => is_master s = false /\ s <> PS_PASSIVE)); fsm_cases.
Qed.

(** C22. How a port that runs the best master clock algorithm changes role.
    At every step of every history from [PS_INITIALIZING] on, the port moves
    to another state exactly when [becomes] lists that move, from that state
    and with that event, and otherwise stays where it is: [ptp_fsm] with the
    serving roles, [ptp_slave_fsm] without them. *)
Theorem port_role_changes (evs : list (fsm_event * bool)) :
  Forall (fun '(s, e, d, s') => forall t, t <> s -> (s' = t <-> becomes true s e d t = true))
    (steps ptp_fsm PS_INITIALIZING evs) /\
  Forall (fun '(s, e, d, s') => forall t, t <> s -> (s' = t <-> becomes false s e d t = true))
    (steps ptp_slave_fsm PS_INITIALIZING evs).
Proof.
  split; (apply Forall_steps; [constructor|]).
  - intros s e d _ t Hne. by apply becomes_ptp.
  - intros s e d [Hm Hp]%slave_never_serves t Hne. by apply becomes_slave.
Qed.

(** ** Histories of a unicast master *)

(** The state after a history *)
Definition unicast_run (evs : list unicast_event) : unicast_state :=
  foldl unicast_fsm UC_WAIT evs.

(** The announce grant stands: it was given and not cancelled since. *)
Definition announce_stands (evs : list unicast_event) : Prop :=
  exists a b, evs = a ++ UC_EV_GRANT_ANN :: b /\ UC_EV_CANCEL ∉ b.

(** Since that grant the master was selected, and neither unselected nor
    cancelled since. *)
Definition selection_stands (evs : list unicast_event) : Prop :=
  exists a b, evs = a ++ UC_EV_SELECTED :: b /\ announce_stands a /\
    UC_EV_CANCEL ∉ b /\ UC_EV_UNSELECTED ∉ b.

(** Since that selection the sync and delay grants were given. *)
Definition sync_stands (evs : list unicast_event) : Prop :=
  exists a b, evs = a ++ UC_EV_GRANT_SYDY :: b /\ selection_stands a /\
    UC_EV_CANCEL ∉ b /\ UC_EV_UNSELECTED ∉ b.

Lemma unicast_run_app a b : unicast_run (a ++ b) = foldl unicast_fsm (unicast_run a) b.
Proof. apply foldl_app. Qed.

(** A set of states that the events of [b] do not leave *)
Lemma foldl_stays (P : unicast_state -> Prop) (bad : unicast_event -> Prop) s b :
  P s -> (forall s e, P s -> ~ bad e -> P (unicast_fsm s e)) ->
  (forall e, e ∈ b -> ~ bad e) -> P (foldl unicast_fsm s b).
Proof.
  revert s. induction b as [|e b IH]; intros s Hs Hstep Hb; [done|]. simpl.
  apply IH; [apply Hstep; [done|apply Hb; set_solver]|done|set_solver].
Qed.

Lemma announce_run evs : announce_stands evs -> unicast_run evs <> UC_WAIT.
Proof.
  intros (a & b & -> & Hb). rewrite unicast_run_app. simpl.
  apply (foldl_stays (fun s => s <> UC_WAIT) (fun e => e = UC_EV_CANCEL)).
  - by destruct (unicast_run a).
  - by intros [] [] ? ?.
  - intros e He ->. done.
Qed.

Lemma selection_run evs :
  selection_stands evs -> unicast_run evs = UC_NEED_SYDY \/ unicast_run evs = UC_HAVE_SYDY.
Proof.
  intros (a & b & -> & Ha & Hc & Hu). apply announce_run in Ha.
  rewrite unicast_run_app. simpl.
  apply (foldl_stays (fun s => s = UC_NEED_SYDY \/ s = UC_HAVE_SYDY)
    (fun e => e = UC_EV_CANCEL \/ e = UC_EV_UNSELECTED)).
  - destruct (unicast_run a); simpl; naive_solver.
  - intros [] []; simpl; naive_solver.
  - intros e He [->| ->]; done.
Qed.

Lemma sync_run evs : sync_stands evs -> unicast_run evs = UC_HAVE_SYDY.
Proof.
  intros (a & b & -> & Ha & Hc & Hu). apply selection_run in Ha.
  rewrite unicast_run_app. simpl.
  apply (foldl_stays (fun s => s = UC_HAVE_SYDY)
    (fun e => e = UC_EV_CANCEL \/ e = UC_EV_UNSELECTED)).
  - by destruct Ha as [-> | ->].
  - intros ? [] ->; simpl; naive_solver.
  - intros e He [->| ->]; done.
Qed.

Lemma announce_snoc evs e :
  announce_stands evs /\ e <> UC_EV_CANCEL \/ e = UC_EV_GRANT_ANN -> announce_stands (evs ++ [e]).
Proof.
  intros [[(a & b & -> & Hb) He]| ->].
  - exists a, (b ++ [e]). split; [by rewrite <- app_assoc|]. set_solver.
  - exists evs, []. split; [done|]. set_solver.
Qed.

Lemma selection_snoc evs e :
  selection_stands evs /\ e <> UC_EV_CANCEL /\ e <> UC_EV_UNSELECTED \/
  announce_stands evs /\ e = UC_EV_SELECTED -> selection_stands (evs ++ [e]).
Proof.
  intros [((a & b & -> & Ha & Hc & Hu) & He & He')|[Ha ->]].
  - exists a, (b ++ [e]). split; [by rewrite <- app_assoc|]. set_solver.
  - exists evs, []. split; [done|]. set_solver.
Qed.

Lemma sync_snoc evs e :
  sync_stands evs /\ e <> UC_EV_CANCEL /\ e <> UC_EV_UNSELECTED \/
  selection_stands evs /\ e = UC_EV_GRANT_SYDY -> sync_stands (evs ++ [e]).
Proof.
  intros [((a & b & -> & Ha & Hc & Hu) & He & He')|[Ha ->]].
  - exists a, (b ++ [e]). split; [by rewrite <- app_assoc|]. set_solver.
  - exists evs, []. split; [done|]. set_solver.
Qed.

Lemma run_stands evs :
  (unicast_run evs <> UC_WAIT -> announce_stands evs) /\
  (unicast_run evs = UC_NEED_SYDY \/ unicast_run evs = UC_HAVE_SYDY -> selection_stands evs) /\
  (unicast_run evs = UC_HAVE_SYDY -> sync_stands evs).
Proof.
  induction evs as [|e evs (IH1 & IH2 & IH3)] using rev_ind; [naive_solver|].
  rewrite unicast_run_app. simpl.
  split; [|split]; intros H;
    [apply announce_snoc|apply selection_snoc|apply sync_snoc];
    destruct (unicast_run evs), e; simpl in H; naive_solver.
Qed.

(** C33. The state a unicast master is in is decided by its history: it has an
    announce grant exactly when one was given and not cancelled since; sync
    and delay grants are requested or held exactly when since then it was
    selected and not unselected; and they are held exactly when since that
    selection they were granted. *)
Theorem unicast_state_history (evs : list unicast_event) :
  (unicast_run evs <> UC_WAIT <-> announce_stands evs) /\
  (unicast_run evs = UC_NEED_SYDY \/ unicast_run evs = UC_HAVE_SYDY <-> selection_stands evs) /\
  (unicast_run evs = UC_HAVE_SYDY <-> sync_stands evs).
Proof.
  destruct (run_stands evs) as (H1 & H2 & H3).
  split; [split; [done|apply announce_run]|].
  split; [split; [done|apply selection_run]|split; [done|apply sync_run]].
Qed.
