(* ===== verification/PtpBmc.v ===== *)
(** * The best master clock algorithm: comparing datasets (linuxptp-3.1)

    bmc.c and telecom.c, with the structures of ds.h and ddt.h.  Datasets are
    passed by pointer in the C code; here a pointer is an optional name [P]
    of a dataset, and [load] what the memory holds under that name. *)

From S2P Require Import Prelude.

(** ** Data *)
Record PortIdentity := {
  clockIdentity : list Z;
  portNumber : Z
}.

Record ClockQuality := {
  clockClass : Z;
  clockAccuracy : Z;
  offsetScaledLogVariance : Z
}.

Record dataset := {
  priority1 : Z;
  identity : list Z;
  quality : ClockQuality;
  priority2 : Z;
  localPriority : Z;
  stepsRemoved : Z;
  sender : PortIdentity;
  receiver : PortIdentity
}.

#[export] Instance PortIdentity_eq_dec : EqDecision PortIdentity.
Proof. solve_decision. Defined.
#[export] Instance ClockQuality_eq_dec : EqDecision ClockQuality.
Proof. solve_decision. Defined.
#[export] Instance dataset_eq_dec : EqDecision dataset.
Proof. solve_decision. Defined.

(** The 10 bytes of a packed [struct PortIdentity], the port number in the
    byte order of the host (little endian). *)
Definition pid_bytes (p : PortIdentity) : list Z :=
  clockIdentity p ++ [portNumber p mod 256; portNumber p / 256].

(** The lexicographic order of lists of numbers; on bytes of equal number,
    the sign of [memcmp]. *)
Fixpoint lexcmp (l1 l2 : list Z) : comparison :=
  match l1, l2 with
  | [], [] => Eq
  | [], _ => Lt
  | _, [] => Gt
  | x :: l1, y :: l2 =>
      match x ?= y with Eq => lexcmp l1 l2 | c => c end
  end.

(** [memcmp(p, q, n)], as its sign *)
Definition memcmp (p q : list Z) : Z :=
  match lexcmp p q with Lt => -1 | Eq => 0 | Gt => 1 end.

Definition A_BETTER_TOPO : Z := 2.
Definition A_BETTER : Z := 1.
Definition B_BETTER : Z := -1.
Definition B_BETTER_TOPO : Z := -2.

(** ** bmc.c *)
Definition dscmp2 (a b : dataset) : Z :=
  let A := stepsRemoved a in
  let B := stepsRemoved b in
  if u32 (A + 1) <? B then A_BETTER
  else if u32 (B + 1) <? A then B_BETTER
  else if A <? B then
    let diff := memcmp (pid_bytes (receiver b)) (pid_bytes (sender b)) in
    if diff <? 0 then A_BETTER
    else if 0 <? diff then A_BETTER_TOPO
    else 0
  else if B <? A then
    let diff := memcmp (pid_bytes (receiver a)) (pid_bytes (sender a)) in
    if diff <? 0 then B_BETTER
    else if 0 <? diff then B_BETTER_TOPO
    else 0
  else
    let diff := memcmp (pid_bytes (sender a)) (pid_bytes (sender b)) in
    if diff <? 0 then A_BETTER_TOPO
    else if 0 <? diff then B_BETTER_TOPO
    else if portNumber (receiver a) <? portNumber (receiver b) then A_BETTER_TOPO
    else if portNumber (receiver b) <? portNumber (receiver a) then B_BETTER_TOPO
    else 0.

Section pointers.
Context {P : Type} `{!EqDecision P} (load : P -> dataset).

Definition dscmp (a b : option P) : Z :=
  if decide (a = b) then 0
  else
    match a, b with
    | Some _, None => A_BETTER
    | None, Some _ => B_BETTER
    | None, None => 0
    | Some pa, Some pb =>
        let a := load pa in
        let b := load pb in
        let diff := memcmp (identity a) (identity b) in
        if diff =? 0 then dscmp2 a b
        else if priority1 a <? priority1 b then A_BETTER
        else if priority1 b <? priority1 a then B_BETTER
        else if clockClass (quality a) <? clockClass (quality b) then A_BETTER
        else if clockClass (quality b) <? clockClass (quality a) then B_BETTER
        else if clockAccuracy (quality a) <? clockAccuracy (quality b) then A_BETTER
        else if clockAccuracy (quality b) <? clockAccuracy (quality a) then B_BETTER
        else if offsetScaledLogVariance (quality a) <? offsetScaledLogVariance (quality b)
        then A_BETTER
        else if offsetScaledLogVariance (quality b) <? offsetScaledLogVariance (quality a)
        then B_BETTER
        else if priority2 a <? priority2 b then A_BETTER
        else if priority2 b <? priority2 a then B_BETTER
        else if diff <? 0 then A_BETTER else B_BETTER
    end.

(** ** telecom.c *)
Definition telecom_dscmp (a b : option P) : Z :=
  if decide (a = b) then 0
  else
    match a, b with
    | Some _, None => A_BETTER
    | None, Some _ => B_BETTER
    | None, None => 0
    | Some pa, Some pb =>
        let a := load pa in
        let b := load pb in
        if clockClass (quality a) <? clockClass (quality b) then A_BETTER
        else if clockClass (quality b) <? clockClass (quality a) then B_BETTER
        else if clockAccuracy (quality a) <? clockAccuracy (quality b) then A_BETTER
        else if clockAccuracy (quality b) <? clockAccuracy (quality a) then B_BETTER
        else if offsetScaledLogVariance (quality a) <? offsetScaledLogVariance (quality b)
        then A_BETTER
        else if offsetScaledLogVariance (quality b) <? offsetScaledLogVariance (quality a)
        then B_BETTER
        else if priority2 a <? priority2 b then A_BETTER
        else if priority2 b <? priority2 a then B_BETTER
        else if localPriority a <? localPriority b then A_BETTER
        else if localPriority b <? localPriority a then B_BETTER
        else if clockClass (quality a) <=? 127 then dscmp2 a b
        else
          let diff := memcmp (identity a) (identity b) in
          if diff =? 0 then dscmp2 a b
          else if diff <? 0 then A_BETTER else B_BETTER
    end.
End pointers.

(** ** Lexicographic comparison *)
Lemma lexcmp_eq l1 l2 : lexcmp l1 l2 = Eq <-> l1 = l2.
Proof.
  revert l2. induction l1 as [|x l1 IH]; intros [|y l2]; simpl; try done.
  destruct (Z.compare_spec x y) as [->|Hlt|Hgt]; rewrite ?IH;
    split; intros E; simplify_eq; try done; lia.
Qed.

Lemma lexcmp_refl l : lexcmp l l = Eq.
Proof. by apply lexcmp_eq. Qed.

Lemma lexcmp_antisym l1 l2 : lexcmp l2 l1 = CompOpp (lexcmp l1 l2).
Proof.
  revert l2. induction l1 as [|x l1 IH]; intros [|y l2]; simpl; try done.
  rewrite (Z.compare_antisym x y). destruct (x ?= y); simpl; auto.
Qed.

Lemma lexcmp_trans l1 l2 l3 c : lexcmp l1 l2 = c -> lexcmp l2 l3 = c -> lexcmp l1 l3 = c.
Proof.
  revert l2 l3. induction l1 as [|x l1 IH]; intros [|y l2] [|z l3]; simpl; try congruence.
  intros H1 H2.
  destruct (Z.compare_spec x y) as [->|Hxy|Hxy].
  - destruct (y ?= z); [by eapply IH|done..].
  - subst c. destruct (Z.compare_spec y z) as [->|Hyz|Hyz]; try done;
      by rewrite (proj2 (Z.compare_lt_iff x z)) by lia.
  - subst c. destruct (Z.compare_spec y z) as [->|Hyz|Hyz]; try done;
      by rewrite (proj2 (Z.compare_gt_iff x z)) by lia.
Qed.

Lemma lexcmp_app l1 l2 r1 r2 :
  length l1 = length l2 ->
  lexcmp (l1 ++ r1) (l2 ++ r2) =
    match lexcmp l1 l2 with Eq => lexcmp r1 r2 | c => c end.
Proof.
  revert l2. induction l1 as [|x l1 IH]; intros [|y l2] Hl; simplify_eq/=; [done|].
  destruct (x ?= y); [by apply IH|done..].
Qed.

(** What a comparison says with the better dataset the smaller *)
Definition verdict (c : comparison) : Z := match c with Lt => 1 | Eq => 0 | Gt => -1 end.

Lemma verdict_opp c : verdict (CompOpp c) = - verdict c.
Proof. by destruct c. Qed.

(** One field of the chain of comparisons *)
Lemma sgn_field x y l1 l2 rest :
  (x = y -> Z.sgn rest = verdict (lexcmp l1 l2)) ->
  Z.sgn (if x <? y then A_BETTER else if y <? x then B_BETTER else rest) =
    verdict (lexcmp (x :: l1) (y :: l2)).
Proof.
  intros H. simpl. destruct (Z.compare_spec x y) as [->|Hlt|Hgt].
  - rewrite Z.ltb_irrefl. by apply H.
  - by rewrite (proj2 (Z.ltb_lt x y)).
  - rewrite (proj2 (Z.ltb_ge x y)) by lia. by rewrite (proj2 (Z.ltb_lt y x)).
Qed.

(** A byte string of the chain *)
Lemma sgn_memcmp p q l1 l2 rest :
  length p = length q ->
  (p = q -> Z.sgn rest = verdict (lexcmp l1 l2)) ->
  Z.sgn (if memcmp p q =? 0 then rest else if memcmp p q <? 0 then A_BETTER else B_BETTER) =
    verdict (lexcmp (p ++ l1) (q ++ l2)).
Proof.
  intros Hl H. unfold memcmp. rewrite lexcmp_app by done.
  destruct (lexcmp p q) eqn:E; [|done..]. apply lexcmp_eq in E. by apply H.
Qed.

(** ** The order on datasets *)

(** Identities have 8 bytes, the numbers their widths, and a message is not
    received by the port that sent it. *)
Record dataset_wf (d : dataset) : Prop := {
  wf_identity : length (identity d) = 8%nat;
  wf_sender : length (clockIdentity (sender d)) = 8%nat;
  wf_steps : in_width 16 (stepsRemoved d);
  wf_received : pid_bytes (receiver d) <> pid_bytes (sender d)
}.

(** The path of a dataset, most significant first *)
Definition path_key (d : dataset) : list Z :=
  stepsRemoved d :: pid_bytes (sender d) ++ [portNumber (receiver d)].

(** What a grandmaster announces of itself *)
Definition attributes (d : dataset) : list Z :=
  [priority1 d; clockClass (quality d); clockAccuracy (quality d);
   offsetScaledLogVariance (quality d); priority2 d].

(** The order that the standard prescribes, as one key to compare *)
Definition ds_key (d : dataset) : list Z := attributes d ++ identity d ++ path_key d.

Definition telecom_key (d : dataset) : list Z :=
  [clockClass (quality d); clockAccuracy (quality d); offsetScaledLogVariance (quality d);
   priority2 d; localPriority d] ++
  (if clockClass (quality d) <=? 127 then [] else identity d) ++ path_key d.

Lemma memcmp_sgn p q : Z.sgn (memcmp p q) = - verdict (lexcmp p q).
Proof. unfold memcmp. by destruct (lexcmp p q). Qed.

Lemma memcmp_nonzero p q : p <> q -> memcmp p q <> 0.
Proof.
  intros Hne. unfold memcmp. destruct (lexcmp p q) eqn:E; [|done..].
  by apply lexcmp_eq in E.
Qed.

Lemma length_pid_bytes p : length (pid_bytes p) = (length (clockIdentity p) + 2)%nat.
Proof. unfold pid_bytes. by rewrite length_app. Qed.

(** The better of two paths is the one with the smaller key. *)
Lemma dscmp2_sgn a b :
  dataset_wf a -> dataset_wf b ->
  Z.sgn (dscmp2 a b) = verdict (lexcmp (path_key a) (path_key b)).
Proof.
  intros Ha Hb. pose proof (wf_steps a Ha) as [? ?]. pose proof (wf_steps b Hb) as [? ?].
  unfold dscmp2, path_key. cbv zeta. rewrite !wrap_small by lia. cbn [lexcmp].
  pose proof (memcmp_nonzero _ _ (wf_received a Ha)) as Hra.
  pose proof (memcmp_nonzero _ _ (wf_received b Hb)) as Hrb.
  destruct (Z.ltb_spec (stepsRemoved a + 1) (stepsRemoved b)).
  { by rewrite (proj2 (Z.compare_lt_iff _ _)) by lia. }
  destruct (Z.ltb_spec (stepsRemoved b + 1) (stepsRemoved a)).
  { by rewrite (proj2 (Z.compare_gt_iff _ _)) by lia. }
  destruct (Z.compare_spec (stepsRemoved a) (stepsRemoved b)) as [E|Hlt|Hgt].
  - rewrite E, Z.ltb_irrefl. rewrite lexcmp_app by
      (rewrite !length_pid_bytes, (wf_sender a Ha), (wf_sender b Hb); done).
    unfold memcmp. destruct (lexcmp (pid_bytes (sender a)) _); [|done..]. simpl.
    destruct (Z.compare_spec (portNumber (receiver a)) (portNumber (receiver b))) as [->|Hp|Hp].
    + by rewrite Z.ltb_irrefl.
    + by rewrite (proj2 (Z.ltb_lt _ _) Hp).
    + rewrite (proj2 (Z.ltb_ge _ _)) by lia. by rewrite (proj2 (Z.ltb_lt _ _) Hp).
  - rewrite (proj2 (Z.ltb_lt _ _) Hlt).
    destruct (Z.ltb_spec (memcmp (pid_bytes (receiver b)) (pid_bytes (sender b))) 0); [done|].
    destruct (Z.ltb_spec 0 (memcmp (pid_bytes (receiver b)) (pid_bytes (sender b)))); [done|lia].
  - rewrite (proj2 (Z.ltb_ge _ _)) by lia. rewrite (proj2 (Z.ltb_lt _ _) Hgt).
    destruct (Z.ltb_spec (memcmp (pid_bytes (receiver a)) (pid_bytes (sender a))) 0); [done|].
    destruct (Z.ltb_spec 0 (memcmp (pid_bytes (receiver a)) (pid_bytes (sender a)))); [done|lia].
Qed.

(** Two announcements of one grandmaster agree on its attributes. *)
Definition consistent (a b : dataset) : Prop :=
  identity a = identity b -> attributes a = attributes b.

Lemma memcmp_opp p q : memcmp q p = - memcmp p q.
Proof. unfold memcmp. rewrite (lexcmp_antisym p q). by destruct (lexcmp p q). Qed.

Lemma memcmp_cases p q :
  (memcmp p q = 0 /\ lexcmp p q = Eq) \/ (memcmp p q = -1 /\ lexcmp p q = Lt) \/
  (memcmp p q = 1 /\ lexcmp p q = Gt).
Proof. unfold memcmp. destruct (lexcmp p q); auto. Qed.

(** Decides a goal about a chain of comparisons. *)
Ltac chain_cases :=
  repeat match goal with
  | |- context [?x <? ?y] => destruct (Z.ltb_spec x y)
  | |- context [?x =? ?y] => destruct (Z.eqb_spec x y)
  | |- context [?x <=? ?y] => destruct (Z.leb_spec x y)
  end; try lia; try reflexivity.

Lemma dscmp2_opp a b :
  in_width 16 (stepsRemoved a) -> in_width 16 (stepsRemoved b) -> dscmp2 b a = - dscmp2 a b.
Proof.
  intros [? ?] [? ?]. unfold dscmp2. cbv zeta. rewrite (memcmp_opp (pid_bytes (sender a)) (pid_bytes (sender b))).
  rewrite !wrap_small by lia.
  unfold A_BETTER, A_BETTER_TOPO, B_BETTER, B_BETTER_TOPO. chain_cases.
Qed.

Section order.
Context {P : Type} `{!EqDecision P} (load : P -> dataset) (dom : P -> Prop).

(** The pointers to datasets in [dom], and the null pointer *)
Definition odom (p : option P) : Prop := match p with Some p => dom p | None => True end.

(** A missing dataset is worse than any. *)
Definition rank (key : dataset -> list Z) (p : option P) : list Z :=
  match p with Some p => 0 :: key (load p) | None => [1] end.

Lemma sgn_verdict_same key (p : option P) : 0 = verdict (lexcmp (rank key p) (rank key p)).
Proof. by rewrite lexcmp_refl. Qed.

Lemma dscmp_sgn (a b : option P) :
  (forall p, dom p -> dataset_wf (load p)) ->
  (forall p q, dom p -> dom q -> consistent (load p) (load q)) -> odom a -> odom b ->
  Z.sgn (dscmp load a b) = verdict (lexcmp (rank ds_key a) (rank ds_key b)).
Proof.
  intros Hwf Hcons Hda Hdb. unfold dscmp. destruct (decide (a = b)) as [->|Hne].
  { apply sgn_verdict_same. }
  destruct a as [pa|], b as [pb|]; [|done..]. cbn [rank lexcmp].
  change (0 ?= 0) with Eq. cbv beta iota. pose proof (Hwf pa Hda) as Ha. pose proof (Hwf pb Hdb) as Hb.
  specialize (Hcons pa pb Hda Hdb). set (da := load pa) in *. set (db := load pb) in *.
  assert (Hlen : length (identity da) = length (identity db)).
  { by rewrite (wf_identity _ Ha), (wf_identity _ Hb). }
  unfold ds_key. destruct (decide (identity da = identity db)) as [E|E].
  - unfold memcmp at 1. rewrite E, lexcmp_refl, Z.eqb_refl, (Hcons E).
    rewrite !lexcmp_app, !lexcmp_refl by done. by apply dscmp2_sgn.
  - pose proof (memcmp_nonzero _ _ E) as Hd.
    rewrite (proj2 (Z.eqb_neq _ _) Hd). unfold attributes. cbn [app].
    do 5 (apply sgn_field; intros _). rewrite lexcmp_app by done.
    unfold memcmp in *. by destruct (lexcmp (identity da) (identity db)).
Qed.

Lemma telecom_dscmp_sgn (a b : option P) :
  (forall p, dom p -> dataset_wf (load p)) -> odom a -> odom b ->
  Z.sgn (telecom_dscmp load a b) = verdict (lexcmp (rank telecom_key a) (rank telecom_key b)).
Proof.
  intros Hwf Hda Hdb. unfold telecom_dscmp. destruct (decide (a = b)) as [->|Hne].
  { apply sgn_verdict_same. }
  destruct a as [pa|], b as [pb|]; [|done..]. cbn [rank lexcmp].
  change (0 ?= 0) with Eq. cbv beta iota. pose proof (Hwf pa Hda) as Ha. pose proof (Hwf pb Hdb) as Hb.
  set (da := load pa) in *. set (db := load pb) in *. unfold telecom_key. cbn [app].
  apply sgn_field; intros Hclass. do 4 (apply sgn_field; intros _). rewrite Hclass.
  destruct (clockClass (quality db) <=? 127).
  - by apply dscmp2_sgn.
  - cbv zeta. apply sgn_memcmp.
    + by rewrite (wf_identity _ Ha), (wf_identity _ Hb).
    + intros _. by apply dscmp2_sgn.
Qed.

Lemma dscmp_opp (a b : option P) :
  (forall p, dom p -> dataset_wf (load p)) -> odom a -> odom b ->
  dscmp load b a = - dscmp load a b.
Proof.
  intros Hwf Hda Hdb. unfold dscmp. destruct (decide (a = b)) as [->|Hne].
  { by rewrite decide_True. }
  rewrite decide_False by done. destruct a as [pa|], b as [pb|]; [|done..]. cbv zeta.
  pose proof (dscmp2_opp (load pa) (load pb) (wf_steps _ (Hwf pa Hda)) (wf_steps _ (Hwf pb Hdb))).
  rewrite (memcmp_opp (identity (load pa)) (identity (load pb))).
  unfold A_BETTER, B_BETTER. chain_cases.
Qed.

Lemma telecom_dscmp_opp (a b : option P) :
  (forall p, dom p -> dataset_wf (load p)) -> odom a -> odom b ->
  telecom_dscmp load b a = - telecom_dscmp load a b.
Proof.
  intros Hwf Hda Hdb. unfold telecom_dscmp. destruct (decide (a = b)) as [->|Hne].
  { by rewrite decide_True. }
  rewrite decide_False by done. destruct a as [pa|], b as [pb|]; [|done..]. cbv zeta.
  pose proof (dscmp2_opp (load pa) (load pb) (wf_steps _ (Hwf pa Hda)) (wf_steps _ (Hwf pb Hdb))).
  rewrite (memcmp_opp (identity (load pa)) (identity (load pb))).
  unfold A_BETTER, B_BETTER.
  destruct (Z.lt_trichotomy (clockClass (quality (load pa))) (clockClass (quality (load pb))))
    as [Hc|[Hc|Hc]]; rewrite ?Hc; chain_cases.
Qed.
End order.

(** ** The interface the rest of the algorithm uses

    Whichever comparison the configuration selects, its sign is that of a
    comparison of ranks, and no dataset is the worst of all. *)
Class DsOrder {P} (dom : P -> Prop) (cmp : option P -> option P -> Z) := {
  rank_of : option P -> list Z;
  cmp_sgn a b : odom dom a -> odom dom b ->
    Z.sgn (cmp a b) = verdict (lexcmp (rank_of a) (rank_of b));
  cmp_opp a b : odom dom a -> odom dom b -> cmp b a = - cmp a b;
  cmp_none p : cmp (Some p) None = A_BETTER
}.

Section instances.
Context {P : Type} `{!EqDecision P} (load : P -> dataset) (dom : P -> Prop).
Context (Hwf : forall p, dom p -> dataset_wf (load p)).

(** [dscmp] on datasets that agree about their grandmasters *)
Definition dscmp_order (Hcons : forall p q, dom p -> dom q -> consistent (load p) (load q)) :
  DsOrder dom (dscmp load).
Proof.
  refine {| rank_of := rank load ds_key |}.
  - intros a b ? ?. by apply (dscmp_sgn load dom).
  - intros a b ? ?. by apply (dscmp_opp load dom).
  - done.
Defined.

(** [telecom_dscmp] on any *)
Definition telecom_order : DsOrder dom (telecom_dscmp load).
Proof.
  refine {| rank_of := rank load telecom_key |}.
  - intros a b ? ?. by apply (telecom_dscmp_sgn load dom).
  - intros a b ? ?. by apply (telecom_dscmp_opp load dom).
  - done.
Defined.
End instances.

Section ds_order.
Context {P : Type} {dom : P -> Prop} (cmp : option P -> option P -> Z) `{!DsOrder dom cmp}.

(** [a] ranks at least as high as [b]. *)
Definition at_least (a b : option P) : Prop := lexcmp (rank_of a) (rank_of b) <> Gt.

#[export] Instance at_least_preorder : PreOrder at_least.
Proof.
  unfold at_least. split.
  - intros a. by rewrite lexcmp_refl.
  - intros a b c Hab Hbc.
    destruct (lexcmp (rank_of a) (rank_of b)) eqn:E1; [|clear Hab|done].
    + apply lexcmp_eq in E1. by rewrite E1.
    + destruct (lexcmp (rank_of b) (rank_of c)) eqn:E2; [|clear Hbc|done].
      * apply lexcmp_eq in E2. by rewrite <- E2, E1.
      * by rewrite (lexcmp_trans _ _ _ _ E1 E2).
Qed.

Lemma cmp_pos a b : odom dom a -> odom dom b -> 0 < cmp a b <-> ~ at_least b a.
Proof.
  intros Ha Hb. unfold at_least. rewrite (lexcmp_antisym (rank_of a)).
  pose proof (cmp_sgn a b Ha Hb).
  destruct (lexcmp (rank_of a) (rank_of b)); simpl in *;
    (split; [intros ?; try lia; intros Hn; by apply Hn|intros Hn; try lia; exfalso; by apply Hn]).
Qed.

Lemma at_least_cmp a b : odom dom a -> odom dom b -> at_least a b <-> 0 <= cmp a b.
Proof.
  intros Ha Hb. unfold at_least. pose proof (cmp_sgn a b Ha Hb).
  destruct (lexcmp (rank_of a) (rank_of b)); simpl in *; split; intros; lia || done.
Qed.
End ds_order.

(** ** The properties *)
Section properties.
Context {P : Type} `{!EqDecision P} (load : P -> dataset).

(** C18. [dscmp] is the order of the standard: its sign compares, most
    significant first, the attributes that the grandmasters announce, their
    identities, and the paths to one grandmaster (steps removed, sender,
    receiving port); no dataset is worse than any.  Hence it is antisymmetric
    and transitive, and ties only on equal keys.  This holds for datasets
    whose announcements of one grandmaster agree on its attributes, received
    by another port than sent them. *)
Theorem dscmp_total_order (a b c : option P) :
  (forall p, Some p ∈ [a; b; c] -> dataset_wf (load p)) ->
  (forall p q, Some p ∈ [a; b; c] -> Some q ∈ [a; b; c] -> consistent (load p) (load q)) ->
  Z.sgn (dscmp load a b) = verdict (lexcmp (rank load ds_key a) (rank load ds_key b)) /\
  dscmp load b a = - dscmp load a b /\
  (0 < dscmp load a b -> 0 < dscmp load b c -> 0 < dscmp load a c) /\
  (dscmp load a b = 0 <-> rank load ds_key a = rank load ds_key b).
Proof.
  intros Hwf Hcons. set (dom := fun p => Some p ∈ [a; b; c]).
  assert (Hs : forall x y, x ∈ [a; b; c] -> y ∈ [a; b; c] ->
    Z.sgn (dscmp load x y) = verdict (lexcmp (rank load ds_key x) (rank load ds_key y))).
  { intros x y Hx Hy. apply (dscmp_sgn load dom); [done|done|by destruct x|by destruct y]. }
  pose proof (Hs a b ltac:(set_solver) ltac:(set_solver)) as Eab.
  split; [done|]. split.
  { apply (dscmp_opp load dom); [done|..]; [destruct a|destruct b]; simpl; unfold dom; set_solver. }
  split; [|rewrite <- lexcmp_eq; destruct (lexcmp _ _); simpl in Eab; split; intros; lia || done].
  pose proof (Hs b c ltac:(set_solver) ltac:(set_solver)) as Ebc.
  pose proof (Hs a c ltac:(set_solver) ltac:(set_solver)) as Eac. intros H1 H2.
  destruct (lexcmp (rank load ds_key a) _) eqn:E1; [simpl in *; lia| |simpl in *; lia].
  destruct (lexcmp (rank load ds_key b) _) eqn:E2; [simpl in *; lia| |simpl in *; lia].
  rewrite (lexcmp_trans _ _ _ _ E1 E2) in Eac. simpl in Eac. lia.
Qed.

(** [telecom_dscmp] orders datasets by the G.8275 attributes, which end
    with the local priority, then by the grandmaster's identity when its
    class is above 127, then by path.  Since equal classes take the same
    branch, this order is antisymmetric and transitive without any assumption
    on what grandmasters announce. *)
Theorem telecom_dscmp_total_order (a b c : option P) :
  (forall p, Some p ∈ [a; b; c] -> dataset_wf (load p)) ->
  Z.sgn (telecom_dscmp load a b) =
    verdict (lexcmp (rank load telecom_key a) (rank load telecom_key b)) /\
  telecom_dscmp load b a = - telecom_dscmp load a b /\
  (0 < telecom_dscmp load a b -> 0 < telecom_dscmp load b c -> 0 < telecom_dscmp load a c).
Proof.
  intros Hwf. set (dom := fun p => Some p ∈ [a; b; c]).
  assert (Hs : forall x y, x ∈ [a; b; c] -> y ∈ [a; b; c] -> Z.sgn (telecom_dscmp load x y) =
    verdict (lexcmp (rank load telecom_key x) (rank load telecom_key y))).
  { intros x y Hx Hy. apply (telecom_dscmp_sgn load dom); [done|by destruct x|by destruct y]. }
  split; [apply Hs; set_solver|]. split.
  { apply (telecom_dscmp_opp load dom); [done|..]; [destruct a|destruct b];
      simpl; unfold dom; set_solver. }
  pose proof (Hs a b ltac:(set_solver) ltac:(set_solver)) as Eab.
  pose proof (Hs b c ltac:(set_solver) ltac:(set_solver)) as Ebc.
  pose proof (Hs a c ltac:(set_solver) ltac:(set_solver)) as Eac. intros H1 H2.
  destruct (lexcmp (rank load telecom_key a) _) eqn:E1; [simpl in *; lia| |simpl in *; lia].
  destruct (lexcmp (rank load telecom_key b) _) eqn:E2; [simpl in *; lia| |simpl in *; lia].
  rewrite (lexcmp_trans _ _ _ _ E1 E2) in Eac. simpl in Eac. lia.
Qed.
End properties.

(** ** At concrete datasets *)
Definition sample_pid (k port : Z) : PortIdentity :=
  {| clockIdentity := [0; 0; 0; 0; 0; 0; 0; k]; portNumber := port |}.
(** The announcement of grandmaster [g], with priority 1 [p], through [n]
    boundary clocks, the last of them [s] *)
Definition sample_ds (p g n s : Z) : dataset := {|
  priority1 := p; identity := [0; 0; 0; 0; 0; 0; 0; g];
  quality := {| clockClass := 248; clockAccuracy := 254; offsetScaledLogVariance := 65535 |};
  priority2 := 128; localPriority := 128; stepsRemoved := n;
  sender := sample_pid s 1; receiver := sample_pid 9 1 |}.

(** Three datasets: two paths to grandmaster 1, and grandmaster 2 *)
Definition sample_load (k : Fin.t 3) : dataset :=
  match proj1_sig (Fin.to_nat k) with
  | O => sample_ds 128 1 0 1
  | 1%nat => sample_ds 128 1 3 4
  | _ => sample_ds 127 2 2 5
  end.

Lemma sample_load_wf k : dataset_wf (sample_load k).
Proof.
  unfold sample_load. destruct (proj1_sig (Fin.to_nat k)) as [|[|?]]; by split.
Qed.

Lemma sample_load_consistent j k : consistent (sample_load j) (sample_load k).
Proof.
  unfold sample_load, consistent.
  destruct (proj1_sig (Fin.to_nat j)) as [|[|?]], (proj1_sig (Fin.to_nat k)) as [|[|?]]; done.
Qed.

Lemma dscmp_total_order_witness :
  dscmp sample_load (Some (Fin.FS (Fin.FS Fin.F1))) (Some (Fin.FS Fin.F1)) = A_BETTER /\
  0 < dscmp sample_load (Some (Fin.FS (Fin.FS Fin.F1))) None.
Proof.
  destruct (dscmp_total_order sample_load (Some (Fin.FS (Fin.FS Fin.F1))) (Some Fin.F1) None)
    as (_ & _ & H & _); [intros; apply sample_load_wf|intros; apply sample_load_consistent|].
  split; [reflexivity|]. apply H; reflexivity.
Defined.

Lemma telecom_dscmp_total_order_witness :
  0 < telecom_dscmp sample_load (Some Fin.F1) (Some (Fin.FS (Fin.FS Fin.F1))) /\
  0 < telecom_dscmp sample_load (Some Fin.F1) None.
Proof.
  destruct (telecom_dscmp_total_order sample_load (Some Fin.F1)
    (Some (Fin.FS (Fin.FS Fin.F1))) None) as (_ & _ & H); [intros; apply sample_load_wf|].
  split; [reflexivity|]. apply H; reflexivity.
Defined.
