(* ===== verification/PtpForeign.v ===== *)
(** * The foreign masters of a port (linuxptp-3.1)

    port.c: the announce messages a port keeps for every foreign master it
    hears, and the best master of the port.  A foreign clock record is named
    by the port identity of its sender, which is unique in the list. *)

From S2P Require Import Prelude PtpFsm PtpBmc.

Definition NSEC2SEC : Z := 1000000000.
Definition FOREIGN_MASTER_THRESHOLD : Z := 2.
Definition INT64_MAX : Z := 2 ^ 63 - 1.

(** ** Data *)

(** The fields of an announce message that the port uses, in host order;
    [msg_id] names the message object. *)
Record announce := Announce {
  msg_id : Z;
  sourcePortIdentity : PortIdentity;
  logMessageInterval : Z;
  currentUtcOffset : Z;
  flagField1 : Z;
  timeSource : Z;
  grandmasterPriority1 : Z;
  grandmasterClockQuality : ClockQuality;
  grandmasterPriority2 : Z;
  grandmasterIdentity : list Z;
  announce_stepsRemoved : Z;
  path_trace : list (list Z);
  host_sec : Z;
  host_nsec : Z
}.

Record foreign_clock := ForeignClock {
  messages : list announce;
  n_messages : Z;
  fc_dataset : dataset
}.

(** [enum bmca_select] *)
Inductive bmca_select := BMCA_PTP | BMCA_NOOP.

(** [enum fault_type], and the configured time to clear a fault *)
Inductive fault_type := FT_UNSPECIFIED | FT_BAD_PEER_NETWORK | FT_SWITCH_PHC.
Inductive fault_tmo_type := FTMO_LINEAR_SECONDS | FTMO_LOG2_SECONDS | FTMO_CNT.
Record fault_interval := FaultInterval { flt_type : fault_tmo_type; flt_val : Z }.

(** The timers of a port *)
Inductive timer :=
  | FD_ANNOUNCE_TIMER | FD_SYNC_RX_TIMER | FD_DELAY_TIMER
  | FD_QUALIFICATION_TIMER | FD_MANNO_TIMER | FD_SYNC_TX_TIMER.
#[export] Instance timer_eq_dec : EqDecision timer.
Proof. solve_decision. Defined.

Inductive delay_mechanism := DM_AUTO | DM_E2E | DM_P2P.

(** A delay request awaiting its response: the message, and the time it was
    sent, in nanoseconds *)
Record pending := Pending { pending_id : Z; pending_ts : Z }.

(** The messages of a peer delay measurement under way *)
Record peer_delay_msgs := PeerDelay {
  peer_delay_req : option Z;
  peer_delay_resp : option Z;
  peer_delay_fup : option Z
}.

(** The fields of [struct port] that take part: the configuration, then the
    state.  [fda_timers] are the timers that are armed; [released] are the
    announce messages given back with [msg_put], [put_ids] the others. *)
Record port := Port {
  portIdentity : PortIdentity;
  port_localPriority : Z;
  master_only : bool;
  p_bmca : bmca_select;
  machine : state_machine;
  inhibit_announce : bool;
  inhibit_delay_req : bool;
  path_trace_enabled : bool;
  delayMechanism : delay_mechanism;
  jbod : bool;
  flt_interval_pertype : fault_type -> fault_interval;
  p_state : port_state;
  last_fault_type : fault_type;
  foreign_masters : list foreign_clock;
  p_best : option PortIdentity;
  fda_timers : list timer;
  last_syncfup : option Z;
  delay_req : list pending;
  peer_delay : peer_delay_msgs;
  released : list announce;
  put_ids : list Z
}.

Definition set_foreign_masters (l : list foreign_clock) (p : port) : port :=
  Port (portIdentity p) (port_localPriority p) (master_only p) (p_bmca p) (machine p)
    (inhibit_announce p) (inhibit_delay_req p) (path_trace_enabled p) (delayMechanism p)
    (jbod p) (flt_interval_pertype p) (p_state p) (last_fault_type p) l (p_best p)
    (fda_timers p) (last_syncfup p) (delay_req p) (peer_delay p) (released p)
    (put_ids p).
Definition set_best (b : option PortIdentity) (p : port) : port :=
  Port (portIdentity p) (port_localPriority p) (master_only p) (p_bmca p) (machine p)
    (inhibit_announce p) (inhibit_delay_req p) (path_trace_enabled p) (delayMechanism p)
    (jbod p) (flt_interval_pertype p) (p_state p) (last_fault_type p)
    (foreign_masters p) b (fda_timers p) (last_syncfup p) (delay_req p) (peer_delay p)
    (released p) (put_ids p).
Definition set_state (st : port_state) (p : port) : port :=
  Port (portIdentity p) (port_localPriority p) (master_only p) (p_bmca p) (machine p)
    (inhibit_announce p) (inhibit_delay_req p) (path_trace_enabled p) (delayMechanism p)
    (jbod p) (flt_interval_pertype p) st (last_fault_type p) (foreign_masters p)
    (p_best p) (fda_timers p) (last_syncfup p) (delay_req p) (peer_delay p) (released p)
    (put_ids p).
Definition set_last_fault (ft : fault_type) (p : port) : port :=
  Port (portIdentity p) (port_localPriority p) (master_only p) (p_bmca p) (machine p)
    (inhibit_announce p) (inhibit_delay_req p) (path_trace_enabled p) (delayMechanism p)
    (jbod p) (flt_interval_pertype p) (p_state p) ft (foreign_masters p) (p_best p)
    (fda_timers p) (last_syncfup p) (delay_req p) (peer_delay p) (released p)
    (put_ids p).
Definition set_timers (t : list timer) (p : port) : port :=
  Port (portIdentity p) (port_localPriority p) (master_only p) (p_bmca p) (machine p)
    (inhibit_announce p) (inhibit_delay_req p) (path_trace_enabled p) (delayMechanism p)
    (jbod p) (flt_interval_pertype p) (p_state p) (last_fault_type p)
    (foreign_masters p) (p_best p) t (last_syncfup p) (delay_req p) (peer_delay p)
    (released p) (put_ids p).
Definition set_last_syncfup (m : option Z) (p : port) : port :=
  Port (portIdentity p) (port_localPriority p) (master_only p) (p_bmca p) (machine p)
    (inhibit_announce p) (inhibit_delay_req p) (path_trace_enabled p) (delayMechanism p)
    (jbod p) (flt_interval_pertype p) (p_state p) (last_fault_type p)
    (foreign_masters p) (p_best p) (fda_timers p) m (delay_req p) (peer_delay p)
    (released p) (put_ids p).
Definition set_delay_req (l : list pending) (p : port) : port :=
  Port (portIdentity p) (port_localPriority p) (master_only p) (p_bmca p) (machine p)
    (inhibit_announce p) (inhibit_delay_req p) (path_trace_enabled p) (delayMechanism p)
    (jbod p) (flt_interval_pertype p) (p_state p) (last_fault_type p)
    (foreign_masters p) (p_best p) (fda_timers p) (last_syncfup p) l (peer_delay p)
    (released p) (put_ids p).
Definition set_peer_delay (l : peer_delay_msgs) (p : port) : port :=
  Port (portIdentity p) (port_localPriority p) (master_only p) (p_bmca p) (machine p)
    (inhibit_announce p) (inhibit_delay_req p) (path_trace_enabled p) (delayMechanism p)
    (jbod p) (flt_interval_pertype p) (p_state p) (last_fault_type p)
    (foreign_masters p) (p_best p) (fda_timers p) (last_syncfup p) (delay_req p) l
    (released p) (put_ids p).
(** [msg_put] of the announce messages [ms] *)
Definition put_messages (ms : list announce) (p : port) : port :=
  Port (portIdentity p) (port_localPriority p) (master_only p) (p_bmca p) (machine p)
    (inhibit_announce p) (inhibit_delay_req p) (path_trace_enabled p) (delayMechanism p)
    (jbod p) (flt_interval_pertype p) (p_state p) (last_fault_type p)
    (foreign_masters p) (p_best p) (fda_timers p) (last_syncfup p) (delay_req p)
    (peer_delay p) (released p ++ ms) (put_ids p).
(** [msg_put] of the messages [ms] *)
Definition put_others (ms : list Z) (p : port) : port :=
  Port (portIdentity p) (port_localPriority p) (master_only p) (p_bmca p) (machine p)
    (inhibit_announce p) (inhibit_delay_req p) (path_trace_enabled p) (delayMechanism p)
    (jbod p) (flt_interval_pertype p) (p_state p) (last_fault_type p)
    (foreign_masters p) (p_best p) (fda_timers p) (last_syncfup p) (delay_req p)
    (peer_delay p) (released p) (put_ids p ++ ms).

(** ** Message lists *)

(** [TAILQ_LAST], [TAILQ_REMOVE], [n_messages--]: the removed message, and
    what is left; a fault when the list is empty. *)
Definition remove_last (fc : foreign_clock) : res (announce * foreign_clock) :=
  match last (messages fc) with
  | Some m => Ret (m, ForeignClock (removelast (messages fc)) (u32 (n_messages fc - 1)) (fc_dataset fc))
  | None => Fault
  end.

(** [while (fc->n_messages)]; the messages in the order they are put *)
Fixpoint fc_clear_loop (fuel : nat) (fc : foreign_clock) : res (list announce * foreign_clock) :=
  match fuel with
  | O => NoFuel
  | S fuel' =>
      if n_messages fc =? 0 then Ret ([], fc)
      else
        '(m, fc) ← remove_last fc;
        '(ms, fc) ← fc_clear_loop fuel' fc;
        Ret (m :: ms, fc)
  end.
Definition fc_clear (fc : foreign_clock) : res (list announce * foreign_clock) :=
  fc_clear_loop (S (length (messages fc))) fc.

(** The time a message stays current, in nanoseconds *)
Definition announce_tmo (log : Z) : Z :=
  if log <=? -31 then 0
  else if 31 <=? log then INT64_MAX
  else if log <? 0 then Z.quot (4 * NSEC2SEC) (Z.shiftl 1 (- log))
  else 4 * Z.shiftl 1 log * NSEC2SEC.

(** [now] is the reading of the monotonic clock, in nanoseconds. *)
Definition msg_current (m : announce) (now : Z) : bool :=
  let t1 := host_sec m * NSEC2SEC + host_nsec m in
  now - t1 <? announce_tmo (logMessageInterval m).

Fixpoint prune_excess (fuel : nat) (fc : foreign_clock) : res (list announce * foreign_clock) :=
  match fuel with
  | O => NoFuel
  | S fuel' =>
      if FOREIGN_MASTER_THRESHOLD <? n_messages fc then
        '(m, fc) ← remove_last fc;
        '(ms, fc) ← prune_excess fuel' fc;
        Ret (m :: ms, fc)
      else Ret ([], fc)
  end.

Fixpoint prune_old (fuel : nat) (now : Z) (fc : foreign_clock) : res (list announce * foreign_clock) :=
  match fuel with
  | O => NoFuel
  | S fuel' =>
      match last (messages fc) with
      | None => Ret ([], fc)
      | Some m =>
          if msg_current m now then Ret ([], fc)
          else
            '(m, fc) ← remove_last fc;
            '(ms, fc) ← prune_old fuel' now fc;
            Ret (m :: ms, fc)
      end
  end.

Definition fc_prune (now : Z) (fc : foreign_clock) : res (list announce * foreign_clock) :=
  '(ms1, fc) ← prune_excess (S (length (messages fc))) fc;
  '(ms2, fc) ← prune_old (S (length (messages fc))) now fc;
  Ret (ms1 ++ ms2, fc).

(** ** Receiving announcements *)

(** The bytes from [grandmasterPriority1] through [stepsRemoved] *)
Definition announce_bytes (m : announce) : list Z :=
  [grandmasterPriority1 m; clockClass (grandmasterClockQuality m);
   clockAccuracy (grandmasterClockQuality m);
   offsetScaledLogVariance (grandmasterClockQuality m) mod 256;
   offsetScaledLogVariance (grandmasterClockQuality m) / 256;
   grandmasterPriority2 m] ++ grandmasterIdentity m ++
  [announce_stepsRemoved m mod 256; announce_stepsRemoved m / 256].

Definition announce_compare (m1 m2 : announce) : Z :=
  memcmp (announce_bytes m1) (announce_bytes m2).

Definition announce_to_dataset (m : announce) (p : port) : dataset := {|
  priority1 := grandmasterPriority1 m;
  identity := grandmasterIdentity m;
  quality := grandmasterClockQuality m;
  priority2 := grandmasterPriority2 m;
  localPriority := port_localPriority p;
  stepsRemoved := announce_stepsRemoved m;
  sender := sourcePortIdentity m;
  receiver := portIdentity p
|}.

(** [memset(fc, 0, sizeof( *fc))] *)
Definition zero_pid : PortIdentity := {| clockIdentity := replicate 8 0; portNumber := 0 |}.
Definition zero_dataset : dataset := {|
  priority1 := 0; identity := replicate 8 0;
  quality := {| clockClass := 0; clockAccuracy := 0; offsetScaledLogVariance := 0 |};
  priority2 := 0; localPriority := 0; stepsRemoved := 0;
  sender := zero_pid; receiver := zero_pid |}.
Definition set_sender (s : PortIdentity) (d : dataset) : dataset := {|
  priority1 := priority1 d; identity := identity d; quality := quality d;
  priority2 := priority2 d; localPriority := localPriority d;
  stepsRemoved := stepsRemoved d; sender := s; receiver := receiver d |}.

(** [fc] may be a null pointer. *)
Definition msg_source_equal (m : announce) (fc : option foreign_clock) : bool :=
  match fc with
  | None => false
  | Some fc => 0 =? memcmp (pid_bytes (sourcePortIdentity m)) (pid_bytes (sender (fc_dataset fc)))
  end.

(** Puts [m] at the head of the messages; the comparison with the one before. *)
Definition push_message (m : announce) (fc : foreign_clock) : foreign_clock * Z :=
  let fc' := ForeignClock (m :: messages fc) (u32 (n_messages fc + 1)) (fc_dataset fc) in
  (fc', if 1 <? n_messages fc' then
          match messages fc with m2 :: _ => announce_compare m m2 | [] => 0 end
        else 0).

(** The search of [add_foreign_master] and what it does to the record found:
    [None] when there is none. *)
Fixpoint add_to_list (now : Z) (m : announce) (l : list foreign_clock)
    : res (option (list foreign_clock * list announce * bool)) :=
  match l with
  | [] => Ret None
  | fc :: l =>
      if msg_source_equal m (Some fc) then
        '(ms, fc) ← fc_prune now fc;
        let broke_threshold := n_messages fc =? FOREIGN_MASTER_THRESHOLD - 1 in
        let '(fc, diff) := push_message m fc in
        Ret (Some (fc :: l, ms, broke_threshold || negb (diff =? 0)))
      else
        r ← add_to_list now m l;
        match r with
        | Some (l', ms, changed) => Ret (Some (fc :: l', ms, changed))
        | None => Ret None
        end
  end.

(** [alloc] tells whether [malloc] succeeds. *)
Definition add_foreign_master (now : Z) (alloc : bool) (p : port) (m : announce)
    : res (port * bool) :=
  r ← add_to_list now m (foreign_masters p);
  match r with
  | None =>
      if alloc then
        let fc := ForeignClock [] 0 (set_sender (sourcePortIdentity m) zero_dataset) in
        Ret (set_foreign_masters (fc :: foreign_masters p) p, false)
      else Ret (p, false)
  | Some (l, ms, changed) => Ret (put_messages ms (set_foreign_masters l p), changed)
  end.

(** [free_foreign_masters] *)
Fixpoint free_foreign_masters (l : list foreign_clock) : res (list announce) :=
  match l with
  | [] => Ret []
  | fc :: l =>
      '(ms, _) ← fc_clear fc;
      ms' ← free_foreign_masters l;
      Ret (ms ++ ms')
  end.

(** What [port_disable] does to the foreign masters *)
Definition drop_foreign_masters (p : port) : res port :=
  ms ← free_foreign_masters (foreign_masters p);
  Ret (put_messages ms (set_foreign_masters [] (set_best None p))).

(** ** The best foreign master of a port *)
Definition with_dataset (d : dataset) (fc : foreign_clock) : foreign_clock :=
  ForeignClock (messages fc) (n_messages fc) d.

(** A pointer to a dataset: the object, and what it holds. *)
Inductive dsname :=
  | DefaultDS
  | ForeignDS (on : PortIdentity) (from : PortIdentity).
#[export] Instance dsname_eq_dec : EqDecision dsname.
Proof. solve_decision. Defined.
Definition dsptr : Type := dsname * dataset.

(** [&fc->dataset] of a record of the port with identity [on] *)
Definition fc_ptr (on : PortIdentity) (fc : foreign_clock) : dsptr :=
  (ForeignDS on (sender (fc_dataset fc)), fc_dataset fc).

Section best.
Context (cmp : option dsptr -> option dsptr -> Z) (now : Z) (p : port).

(** The loop over the foreign masters, the best so far carried along *)
Fixpoint best_loop (l : list foreign_clock) (best : option foreign_clock)
    : res (list foreign_clock * list announce * option foreign_clock) :=
  match l with
  | [] => Ret ([], [], best)
  | fc :: l =>
      match messages fc with
      | [] =>
          '(l, ms, best) ← best_loop l best;
          Ret (fc :: l, ms, best)
      | tmp :: _ =>
          let fc := with_dataset (announce_to_dataset tmp p) fc in
          '(ms1, fc) ← fc_prune now fc;
          if n_messages fc <? FOREIGN_MASTER_THRESHOLD then
            '(l, ms, best) ← best_loop l best;
            Ret (fc :: l, ms1 ++ ms, best)
          else
            match best with
            | None =>
                '(l, ms, best) ← best_loop l (Some fc);
                Ret (fc :: l, ms1 ++ ms, best)
            | Some b =>
                if 0 <? cmp (Some (fc_ptr (portIdentity p) fc)) (Some (fc_ptr (portIdentity p) b)) then
                  '(l, ms, best) ← best_loop l (Some fc);
                  Ret (fc :: l, ms1 ++ ms, best)
                else
                  '(ms2, fc) ← fc_clear fc;
                  '(l, ms, best) ← best_loop l best;
                  Ret (fc :: l, ms1 ++ ms2 ++ ms, best)
            end
      end
  end.

Definition port_compute_best : res (port * option foreign_clock) :=
  if master_only p then Ret (set_best None p, None)
  else
    '(l, ms, best) ← best_loop (foreign_masters p) None;
    Ret (put_messages ms
           (set_best (option_map (fun fc => sender (fc_dataset fc)) best)
              (set_foreign_masters l p)), best).
End best.

(** [p->best], followed *)
Definition find_foreign (s : PortIdentity) (l : list foreign_clock) : option foreign_clock :=
  list_find (fun fc => sender (fc_dataset fc) = s) l ≫= fun r => Some r.2.

(** ** Invariants *)

(** A port identity as the C structure holds it *)
Definition pid_wf (p : PortIdentity) : Prop :=
  length (clockIdentity p) = 8%nat /\ in_width 16 (portNumber p).

Lemma pid_bytes_inj p q : pid_wf p -> pid_wf q -> pid_bytes p = pid_bytes q -> p = q.
Proof.
  destruct p as [cp np], q as [cq nq]. intros [Hp Hnp] [Hq Hnq] E.
  unfold pid_bytes in E. cbn [clockIdentity portNumber] in *.
  apply app_inj_1 in E as [-> E]; [|by rewrite Hp, Hq]. injection E as E1 E2.
  f_equal. rewrite (Z.div_mod np 256), (Z.div_mod nq 256), E1, E2 by done. done.
Qed.

(** The counter is the length of the list, which holds at most three messages,
    and all of them come from the sender that names the record. *)
Record fc_wf (fc : foreign_clock) : Prop := {
  fc_count : n_messages fc = Z.of_nat (length (messages fc));
  fc_few : (length (messages fc) <= 3)%nat;
  fc_pid : pid_wf (sender (fc_dataset fc));
  fc_source : Forall (fun m => sourcePortIdentity m = sender (fc_dataset fc)) (messages fc)
}.

Lemma fc_max fc : fc_wf fc -> Z.of_nat (length (messages fc)) < 2 ^ 32.
Proof. intros Hfc. pose proof (fc_few fc Hfc). lia. Qed.

Definition senders (l : list foreign_clock) : list PortIdentity :=
  (fun fc => sender (fc_dataset fc)) <$> l.

Record table_wf (p : port) : Prop := {
  table_fc : Forall fc_wf (foreign_masters p);
  table_unique : NoDup (senders (foreign_masters p));
  table_best : forall s, p_best p = Some s -> s ∈ senders (foreign_masters p)
}.

(** The messages that a list of records holds references to *)
Definition held (l : list foreign_clock) : list announce := l ≫= messages.

(** ** The operations on one record *)
Section record.
Context (fc : foreign_clock) (Hfc : fc_wf fc).

(** [fc] with the messages [ms] *)
Definition with_messages (ms : list announce) : foreign_clock :=
  ForeignClock ms (Z.of_nat (length ms)) (fc_dataset fc).

Lemma fc_eta : fc = with_messages (messages fc).
Proof. unfold with_messages. rewrite <- fc_count by done. by destruct fc. Qed.

Lemma with_messages_wf ms : ms `prefix_of` messages fc -> fc_wf (with_messages ms).
Proof.
  intros [rest E]. pose proof (fc_few fc Hfc). pose proof (fc_source fc Hfc) as Hs.
  rewrite E, length_app in *. apply Forall_app in Hs as [Hs _].
  split; cbn [with_messages n_messages messages fc_dataset]; [done|lia|by apply fc_pid|done].
Qed.
End record.

Lemma remove_last_snoc fc ms m :
  Z.of_nat (length (ms ++ [m])) < 2 ^ 32 ->
  remove_last (with_messages fc (ms ++ [m])) = Ret (m, with_messages fc ms).
Proof.
  intros Hl. unfold remove_last, with_messages. cbn [messages n_messages fc_dataset].
  rewrite last_snoc, removelast_last. rewrite length_app in *. simpl in *.
  rewrite wrap_small by lia. do 3 f_equal. lia.
Qed.

Lemma fc_clear_loop_eq fuel fc ms :
  (length ms < fuel)%nat -> Z.of_nat (length ms) < 2 ^ 32 ->
  fc_clear_loop fuel (with_messages fc ms) = Ret (reverse ms, with_messages fc []).
Proof.
  revert ms. induction fuel as [|fuel IH]; intros ms Hf Hl; [lia|]. cbn [fc_clear_loop].
  destruct ms as [|m ms _] using rev_ind; [done|].
  rewrite length_app in Hf. simpl in Hf.
  cbn [with_messages n_messages]. fold (with_messages fc (ms ++ [m])).
  destruct (Z.eqb_spec (Z.of_nat (length (ms ++ [m]))) 0) as [E|E].
  { rewrite length_app in E. simpl in E. lia. }
  rewrite remove_last_snoc by done. cbn [mbind res_bind]. rewrite IH.
  - by rewrite reverse_snoc.
  - lia.
  - rewrite length_app in Hl. lia.
Qed.

(** Clearing puts every message, the oldest first. *)
Lemma fc_clear_eq fc : fc_wf fc -> fc_clear fc = Ret (reverse (messages fc), with_messages fc []).
Proof.
  intros Hfc. unfold fc_clear. rewrite (fc_eta fc Hfc) at 2.
  rewrite fc_clear_loop_eq; [done|lia|by apply fc_max].
Qed.

Lemma prune_excess_eq fuel fc ms :
  (length ms < fuel)%nat -> Z.of_nat (length ms) < 2 ^ 32 ->
  prune_excess fuel (with_messages fc ms) =
    Ret (reverse (drop 2 ms), with_messages fc (take 2 ms)).
Proof.
  revert ms. induction fuel as [|fuel IH]; intros ms Hf Hl; [lia|]. cbn [prune_excess].
  cbn [with_messages n_messages]. fold (with_messages fc ms). unfold FOREIGN_MASTER_THRESHOLD.
  destruct (Z.ltb_spec 2 (Z.of_nat (length ms))) as [H|H].
  - destruct ms as [|m ms _] using rev_ind; [done|].
    rewrite length_app in Hf, H. simpl in Hf, H.
    rewrite remove_last_snoc by done. cbn [mbind res_bind]. rewrite IH.
    + by rewrite drop_app_le, take_app_le, reverse_snoc by lia.
    + lia.
    + rewrite length_app in Hl. lia.
  - by rewrite drop_ge, take_ge by lia.
Qed.

(** The messages that [prune_old] keeps: up to the last current one *)
Fixpoint keep_current (now : Z) (ms : list announce) : list announce :=
  match ms with
  | [] => []
  | m :: ms =>
      match keep_current now ms with
      | [] => if msg_current m now then [m] else []
      | ms => m :: ms
      end
  end.

Lemma keep_current_snoc now ms m :
  keep_current now (ms ++ [m]) = if msg_current m now then ms ++ [m] else keep_current now ms.
Proof.
  induction ms as [|m' ms IH]; [done|]. cbn [app keep_current]. rewrite IH.
  destruct (msg_current m now); [|done]. by destruct ms.
Qed.

Lemma keep_current_prefix now ms : keep_current now ms `prefix_of` ms.
Proof.
  induction ms as [|m ms IH] using rev_ind; [done|]. rewrite keep_current_snoc.
  destruct (msg_current m now); [done|]. by apply prefix_app_r.
Qed.

Lemma prune_old_eq fuel now fc ms :
  (length ms < fuel)%nat -> Z.of_nat (length ms) < 2 ^ 32 ->
  exists old, ms = keep_current now ms ++ old /\
    prune_old fuel now (with_messages fc ms) =
      Ret (reverse old, with_messages fc (keep_current now ms)).
Proof.
  revert ms. induction fuel as [|fuel IH]; intros ms Hf Hl; [lia|]. cbn [prune_old].
  cbn [with_messages messages]. fold (with_messages fc ms).
  destruct ms as [|m ms _] using rev_ind; [by exists []|].
  rewrite last_snoc, keep_current_snoc. destruct (msg_current m now).
  { exists []. by rewrite app_nil_r. }
  rewrite remove_last_snoc by done. cbn [mbind res_bind].
  rewrite length_app in Hf, Hl. simpl in Hf, Hl.
  destruct (IH ms) as (old & E & ->); [lia|lia|]. exists (old ++ [m]).
  by rewrite app_assoc, <- E, reverse_snoc.
Qed.

(** Pruning keeps of the two newest messages those up to the last current
    one, and puts the others. *)
Lemma fc_prune_eq now fc :
  fc_wf fc ->
  exists put, messages fc = keep_current now (take 2 (messages fc)) ++ put /\
    fc_prune now fc = Ret (reverse put, with_messages fc (keep_current now (take 2 (messages fc)))).
Proof.
  intros Hfc. pose proof (fc_max fc Hfc) as Hl. unfold fc_prune.
  assert (prune_excess (S (length (messages fc))) fc =
    Ret (reverse (drop 2 (messages fc)), with_messages fc (take 2 (messages fc)))) as ->.
  { rewrite (fc_eta fc Hfc) at 2. apply prune_excess_eq; [lia|done]. }
  cbn [mbind res_bind]. cbn [with_messages messages].
  fold (with_messages fc (take 2 (messages fc))).
  destruct (prune_old_eq (S (length (take 2 (messages fc)))) now fc (take 2 (messages fc)))
    as (old & E & ->); [lia|rewrite length_take; lia|].
  exists (old ++ drop 2 (messages fc)). rewrite app_assoc, <- E, take_drop. split; [done|].
  cbn [mbind res_bind]. by rewrite reverse_app.
Qed.

(** ** Receiving an announcement *)
Lemma msg_source_equal_spec m fc :
  pid_wf (sourcePortIdentity m) -> pid_wf (sender (fc_dataset fc)) ->
  msg_source_equal m (Some fc) = true <-> sourcePortIdentity m = sender (fc_dataset fc).
Proof.
  intros Hm Hfc. unfold msg_source_equal. rewrite Z.eqb_eq. split.
  - intros E. symmetry in E. apply pid_bytes_inj; [done..|].
    destruct (decide (pid_bytes (sourcePortIdentity m) = pid_bytes (sender (fc_dataset fc))));
      [done|]. by apply memcmp_nonzero in E.
  - intros ->. unfold memcmp. by rewrite lexcmp_refl.
Qed.

(** What [add_foreign_master] does to the record of the sender, the result
    telling whether the record qualifies now or the contents changed. *)
Definition received (now : Z) (m : announce) (fc : foreign_clock) : foreign_clock * bool :=
  let kept := keep_current now (take 2 (messages fc)) in
  (with_messages fc (m :: kept),
   match kept with
   | [] => false
   | m2 :: rest => (if rest then true else false) || negb (announce_compare m m2 =? 0)
   end).

Lemma kept_max now ms : (length (keep_current now (take 2 ms)) <= 2)%nat.
Proof.
  pose proof (prefix_length _ _ (keep_current_prefix now (take 2 ms))) as H.
  rewrite length_take in H. lia.
Qed.

Lemma add_to_list_eq now m l :
  Forall fc_wf l -> pid_wf (sourcePortIdentity m) ->
  (add_to_list now m l = Ret None /\ sourcePortIdentity m ∉ senders l) \/
  exists l1 fc l2 put, l = l1 ++ fc :: l2 /\ sender (fc_dataset fc) = sourcePortIdentity m /\
    messages fc = keep_current now (take 2 (messages fc)) ++ put /\
    add_to_list now m l =
      Ret (Some (l1 ++ (received now m fc).1 :: l2, reverse put, (received now m fc).2)).
Proof.
  intros Hl Hm. induction Hl as [|fc l Hfc Hl IH]; [left; split; [done|set_solver]|].
  cbn [add_to_list]. pose proof (msg_source_equal_spec m fc Hm (fc_pid fc Hfc)) as Heq.
  destruct (msg_source_equal m (Some fc)).
  - right. destruct (fc_prune_eq now fc Hfc) as (put & E & ->).
    exists [], fc, l, put. split; [done|]. split; [symmetry; by apply Heq|]. split; [done|].
    cbn [mbind res_bind app]. unfold push_message, received, with_messages.
    cbn [n_messages messages fc_dataset fst snd].
    pose proof (kept_max now (messages fc)) as Hk. unfold FOREIGN_MASTER_THRESHOLD.
    set (kept := keep_current now (take 2 (messages fc))) in *.
    rewrite wrap_small by lia. destruct kept as [|m1 [|m2 rest]]; cbn [length] in *.
    + done.
    + done.
    + destruct rest; [|simpl in Hk; lia]. done.
  - destruct IH as [[E Hnin]|(l1 & fc' & l2 & put & -> & Hs & E & Eadd)].
    + left. rewrite E. cbn [mbind res_bind]. split; [done|].
      cbn [senders fmap list_fmap]. apply not_elem_of_cons. split; [|done].
      intros Es. destruct Heq as [_ Heq]. by discriminate Heq.
    + right. exists (fc :: l1), fc', l2, put. rewrite Eadd. by cbn [mbind res_bind app].
Qed.

Lemma received_wf now m fc :
  fc_wf fc -> sourcePortIdentity m = sender (fc_dataset fc) -> fc_wf (received now m fc).1.
Proof.
  intros Hfc Hm. pose proof (kept_max now (messages fc)) as Hk.
  assert (Hpre : keep_current now (take 2 (messages fc)) `prefix_of` messages fc).
  { etrans; [apply keep_current_prefix|]. exists (drop 2 (messages fc)). by rewrite take_drop. }
  pose proof (with_messages_wf fc Hfc _ Hpre) as [_ _ _ Hsrc].
  split; cbn [received with_messages fst n_messages messages fc_dataset length] in *;
    [done|lia|by apply fc_pid|by constructor].
Qed.

Lemma senders_app l1 l2 : senders (l1 ++ l2) = senders l1 ++ senders l2.
Proof. apply fmap_app. Qed.

Lemma held_cons fc l : held (fc :: l) = messages fc ++ held l.
Proof. done. Qed.
Lemma held_app l1 l2 : held (l1 ++ l2) = held l1 ++ held l2.
Proof. apply bind_app. Qed.

(** Every message the port ever took a reference to is held or was put. *)
Definition accounted (p : port) (all : list announce) : Prop :=
  held (foreign_masters p) ++ released p ≡ₚ all.

Lemma zero_fc_wf s : pid_wf s -> fc_wf (ForeignClock [] 0 (set_sender s zero_dataset)).
Proof. split; simpl; [done|lia|done|done]. Qed.

Lemma add_foreign_master_eq now alloc p m :
  table_wf p -> pid_wf (sourcePortIdentity m) ->
  exists p' changed, add_foreign_master now alloc p m = Ret (p', changed) /\ table_wf p' /\
    (forall all, accounted p all ->
       accounted p' (if decide (sourcePortIdentity m ∈ senders (foreign_masters p))
                     then m :: all else all)).
Proof.
  intros [Hfc Hnd Hbest] Hm. unfold add_foreign_master.
  destruct (add_to_list_eq now m (foreign_masters p) Hfc Hm)
    as [[-> Hnin]|(l1 & fc & l2 & put & El & Hs & E & ->)]; cbn [mbind res_bind].
  - assert (Hacc : forall p' all, foreign_masters p' = foreign_masters p ->
      released p' = released p -> accounted p all -> accounted p' all).
    { unfold accounted. by intros p' all -> ->. }
    destruct alloc; eexists _, _; (split; [done|]).
    + split; [split|].
      * cbn. constructor; [by apply zero_fc_wf|done].
      * cbn. by apply NoDup_cons.
      * cbn. intros s Hb. apply elem_of_cons. right. by apply Hbest.
      * intros all. by rewrite decide_False by done.
    + split; [done|]. intros all. by rewrite decide_False by done.
  - eexists _, _. split; [done|]. rewrite El in Hfc, Hnd, Hbest.
    apply Forall_app in Hfc as [Hf1 Hf2]. apply Forall_cons in Hf2 as [Hf Hf2].
    assert (Hsend : senders (l1 ++ (received now m fc).1 :: l2) = senders (l1 ++ fc :: l2)).
    { by rewrite !senders_app. }
    split; [split|].
    + cbn. apply Forall_app_2; [done|]. constructor; [|done]. by apply received_wf.
    + cbn [put_messages set_foreign_masters foreign_masters]. by rewrite Hsend.
    + cbn [put_messages set_foreign_masters foreign_masters p_best]. by rewrite Hsend.
    + intros all. rewrite decide_True.
      2: { rewrite El, senders_app, <- Hs. cbn. set_solver. }
      unfold accounted. cbn [put_messages set_foreign_masters foreign_masters released].
      rewrite El, !held_app, !held_cons. cbn [received with_messages fst messages].
      intros <-. rewrite E at 2. rewrite reverse_Permutation. solve_Permutation.
Qed.

(** ** The best foreign master *)

(** The dataset of a record after the latest message is copied into it *)
Definition refreshed (p : port) (fc : foreign_clock) : dataset :=
  match messages fc with m :: _ => announce_to_dataset m p | [] => fc_dataset fc end.

(** A record that takes part: its two newest messages arrived in time. *)
Definition candidate (now : Z) (fc : foreign_clock) : Prop :=
  (2 <= length (keep_current now (take 2 (messages fc))))%nat.

Definition candidate_ptr (p : port) (fc : foreign_clock) : dsptr :=
  (ForeignDS (portIdentity p) (sender (fc_dataset fc)), refreshed p fc).

Section best_spec.
Context {dom : dsptr -> Prop} (cmp : option dsptr -> option dsptr -> Z) `{!DsOrder dom cmp}.
Context (now : Z) (p : port).

(** [best] ranks at least as high as [x]; a missing best ranks lowest. *)
Definition beats (best : option foreign_clock) (x : dsptr) : Prop :=
  match best with
  | Some b => at_least cmp (Some (fc_ptr (portIdentity p) b)) (Some x)
  | None => False
  end.

(** What the loop establishes about the records it has visited *)
Record best_post (l : list foreign_clock) (best0 : option foreign_clock)
    (l' : list foreign_clock) (put : list announce) (best : option foreign_clock) : Prop := {
  bp_senders : senders l' = senders l;
  bp_wf : Forall fc_wf l';
  bp_held : held l' ++ put ≡ₚ held l;
  bp_from : best = best0 \/ exists fc x, best = Some fc /\ fc ∈ l' /\
    length (messages fc) = 2%nat /\ x ∈ l /\ candidate now x /\
    fc_ptr (portIdentity p) fc = candidate_ptr p x;
  bp_kept : is_Some best0 -> is_Some best;
  bp_best : forall b, best0 = Some b -> beats best (fc_ptr (portIdentity p) b);
  bp_all : forall fc, fc ∈ l -> candidate now fc -> beats best (candidate_ptr p fc);
  bp_dom : forall b, best = Some b -> dom (fc_ptr (portIdentity p) b)
}.

Lemma with_dataset_wf d fc :
  fc_wf fc -> sender d = sender (fc_dataset fc) -> fc_wf (with_dataset d fc).
Proof.
  intros Hfc E. split; cbn [with_dataset n_messages messages fc_dataset]; rewrite ?E; by apply Hfc.
Qed.

Lemma beats_at_least b b' x :
  at_least cmp (Some (fc_ptr (portIdentity p) b')) (Some (fc_ptr (portIdentity p) b)) ->
  beats (Some b) x -> beats (Some b') x.
Proof. simpl. intros H1 H2. by etrans. Qed.

(** One record passed over, the rest handled with the same best *)
Lemma best_post_skip fc fc' l best0 l' put1 put best :
  best_post l best0 l' put best ->
  fc_wf fc' -> sender (fc_dataset fc') = sender (fc_dataset fc) ->
  messages fc' ++ put1 ≡ₚ messages fc ->
  (candidate now fc -> beats best (candidate_ptr p fc)) ->
  best_post (fc :: l) best0 (fc' :: l') (put1 ++ put) best.
Proof.
  intros [Hs Hwf Hh Hfrom Hkept Hbest Hall Hd] Hfc' Hsend Hmsg Hcand. split; try done.
  - cbn. by rewrite Hsend; f_equal.
  - by constructor.
  - rewrite !held_cons, <- Hmsg, <- Hh. solve_Permutation.
  - destruct Hfrom as [->|(b & x & -> & Hb & Hlen & Hx & Hc & E)]; [by left|right].
    exists b, x. rewrite !elem_of_cons. auto 10.
  - intros x Hx%elem_of_cons. destruct Hx as [->|Hx]; [done|by apply Hall].
Qed.

(** A record that becomes the best so far *)
Lemma best_post_take fc fc' l best0 l' put1 put best :
  best_post l (Some fc') l' put best ->
  fc_wf fc' -> fc_ptr (portIdentity p) fc' = candidate_ptr p fc ->
  messages fc' ++ put1 ≡ₚ messages fc -> length (messages fc') = 2%nat -> candidate now fc ->
  (forall b, best0 = Some b -> at_least cmp (Some (fc_ptr (portIdentity p) fc'))
                                            (Some (fc_ptr (portIdentity p) b))) ->
  best_post (fc :: l) best0 (fc' :: l') (put1 ++ put) best.
Proof.
  intros [Hs Hwf Hh Hfrom Hkept Hbest Hall Hd] Hfc' Hptr Hmsg Hlen Hc Hbetter.
  assert (Hnew : beats best (candidate_ptr p fc)) by (rewrite <- Hptr; by apply Hbest).
  assert (Hsend : sender (fc_dataset fc') = sender (fc_dataset fc)).
  { unfold fc_ptr, candidate_ptr in Hptr. by injection Hptr. }
  split.
  - cbn. by rewrite Hsend; f_equal.
  - by constructor.
  - rewrite !held_cons, <- Hmsg, <- Hh. solve_Permutation.
  - right. destruct Hfrom as [->|(b & x & -> & Hb & Hl & Hx & Hcx & E)].
    + exists fc', fc. rewrite !elem_of_cons. auto 10.
    + exists b, x. rewrite !elem_of_cons. auto 10.
  - intros _. by apply Hkept.
  - intros b E. destruct best as [b'|]; [|by destruct (Hkept ltac:(done))].
    apply (beats_at_least fc'); [by apply (Hbest fc')|]. by apply Hbetter.
  - intros x Hx%elem_of_cons Hcx. destruct Hx as [->|Hx]; [done|by apply Hall].
  - done.
Qed.

Lemma best_loop_spec l best0 :
  Forall fc_wf l ->
  (forall fc, fc ∈ l -> candidate now fc -> dom (candidate_ptr p fc)) ->
  (forall b, best0 = Some b -> dom (fc_ptr (portIdentity p) b)) ->
  exists l' put best, best_loop cmp now p l best0 = Ret (l', put, best) /\
    best_post l best0 l' put best.
Proof.
  intros Hl. revert best0. induction Hl as [|fc l Hfc Hl IH]; intros best0 Hdom Hd0.
  { exists [], [], best0. split; [done|]. split; try done; [by left| |set_solver].
    intros b ->. cbn [beats]. reflexivity. }
  assert (Hdom' : forall fc, fc ∈ l -> candidate now fc -> dom (candidate_ptr p fc)).
  { intros x Hx. apply Hdom. by apply elem_of_cons; right. }
  assert (Hdfc : candidate now fc -> dom (candidate_ptr p fc)).
  { apply Hdom. by apply elem_of_cons; left. }
  cbn [best_loop]. destruct (messages fc) as [|tmp rest] eqn:Em.
  { destruct (IH best0 Hdom' Hd0) as (l' & put & best & -> & Hpost). cbn [mbind res_bind].
    eexists _, _, _. split; [done|]. change put with ([] ++ put).
    apply best_post_skip; [done|done|done|by rewrite app_nil_r|].
    unfold candidate. rewrite Em. simpl. lia. }
  set (fc1 := with_dataset (announce_to_dataset tmp p) fc).
  assert (Hsend : sender (fc_dataset fc1) = sender (fc_dataset fc)).
  { pose proof (fc_source fc Hfc) as Hsrc. rewrite Em in Hsrc.
    by apply Forall_cons in Hsrc as [? _]. }
  assert (Hfc1 : fc_wf fc1) by by apply with_dataset_wf.
  destruct (fc_prune_eq now fc1 Hfc1) as (put1 & Hput1 & ->). cbn [mbind res_bind].
  change (messages fc1) with (messages fc) in *.
  set (kept := keep_current now (take 2 (messages fc))) in *.
  set (fc2 := with_messages fc1 kept).
  assert (Hptr : fc_ptr (portIdentity p) fc2 = candidate_ptr p fc).
  { unfold fc_ptr, candidate_ptr, refreshed. rewrite Em.
    change (fc_dataset fc2) with (fc_dataset fc1). by rewrite Hsend. }
  assert (Hfc2 : fc_wf fc2).
  { apply with_messages_wf; [done|]. exists put1. by rewrite <- Hput1. }
  assert (Hmsg : messages fc2 ++ reverse put1 ≡ₚ messages fc).
  { change (messages fc2) with kept. by rewrite reverse_Permutation, <- Hput1. }
  assert (Hcand : candidate now fc <-> 2 <= n_messages fc2).
  { unfold candidate. change (n_messages fc2) with (Z.of_nat (length kept)). fold kept. lia. }
  assert (Hlen : candidate now fc -> length (messages fc2) = 2%nat).
  { unfold candidate. fold kept. pose proof (kept_max now (messages fc)) as Hk. fold kept in Hk.
    change (messages fc2) with kept. lia. }
  unfold FOREIGN_MASTER_THRESHOLD. destruct (Z.ltb_spec (n_messages fc2) 2) as [Hlt|Hge].
  { destruct (IH best0 Hdom' Hd0) as (l' & put & best & -> & Hpost). cbn [mbind res_bind].
    eexists _, _, _. split; [done|]. apply best_post_skip; [done|done|done|done|].
    intros Hc. apply Hcand in Hc. lia. }
  specialize (Hlen (proj2 Hcand Hge)). specialize (Hdfc (proj2 Hcand Hge)).
  destruct best0 as [b|].
  - destruct (Z.ltb_spec 0 (cmp (Some (fc_ptr (portIdentity p) fc2))
      (Some (fc_ptr (portIdentity p) b)))) as [Hgt|Hle].
    + destruct (IH (Some fc2) Hdom') as (l' & put & best & -> & Hpost).
      { intros ? [= <-]. by rewrite Hptr. }
      cbn [mbind res_bind]. eexists _, _, _. split; [done|].
      apply best_post_take; [done|done|done|done|done|by apply Hcand|]. intros ? [= <-].
      apply at_least_cmp; [simpl; by rewrite Hptr|by apply Hd0|lia].
    + rewrite (fc_clear_eq fc2 Hfc2). cbn [mbind res_bind].
      destruct (IH (Some b) Hdom' Hd0) as (l' & put & best & -> & Hpost). cbn [mbind res_bind].
      eexists _, _, _. split; [done|]. rewrite app_assoc.
      assert (Hbfc : at_least cmp (Some (fc_ptr (portIdentity p) b)) (Some (candidate_ptr p fc))).
      { rewrite <- Hptr. apply at_least_cmp; [by apply Hd0|simpl; by rewrite Hptr|].
        rewrite (cmp_opp (Some (fc_ptr (portIdentity p) fc2)));
          [lia|simpl; by rewrite Hptr|by apply Hd0]. }
      apply best_post_skip; [done| |done| |].
      * apply with_messages_wf; [done|]. apply prefix_nil.
      * cbn [with_messages messages app]. rewrite (reverse_Permutation (messages fc2)), Permutation_app_comm. done.
      * intros _. pose proof (bp_best _ _ _ _ _ Hpost b eq_refl) as Hb.
        destruct best as [b'|]; [|done]. simpl in *. by etrans.
  - destruct (IH (Some fc2) Hdom') as (l' & put & best & -> & Hpost).
    { intros ? [= <-]. by rewrite Hptr. }
    cbn [mbind res_bind]. eexists _, _, _. split; [done|].
    apply best_post_take; [done|done|done|done|done|by apply Hcand|done].
Qed.

Lemma candidate_dec_put fc : ~ candidate now fc \/ candidate now fc.
Proof. unfold candidate. lia. Qed.

(** [p->best], followed in a table with unique senders *)
Lemma find_foreign_elem l fc :
  NoDup (senders l) -> fc ∈ l -> find_foreign (sender (fc_dataset fc)) l = Some fc.
Proof.
  unfold find_foreign. induction l as [|x l IH]; intros Hnd Hin; [set_solver|].
  cbn [senders fmap list_fmap] in Hnd. apply NoDup_cons in Hnd as [Hx Hnd].
  cbn [list_find]. apply elem_of_cons in Hin as [->|Hin].
  - by rewrite decide_True.
  - rewrite decide_False.
    + specialize (IH Hnd Hin). by destruct (list_find _ l) as [[]|].
    + intros E. apply Hx. rewrite E. by apply (list_elem_of_fmap_2 (fun fc => sender (fc_dataset fc))).
Qed.

(** Computing the best foreign master of a port *)
Lemma port_compute_best_eq :
  table_wf p -> (forall fc, fc ∈ foreign_masters p -> candidate now fc -> dom (candidate_ptr p fc)) ->
  exists p' best, port_compute_best cmp now p = Ret (p', best) /\ table_wf p' /\
    senders (foreign_masters p') = senders (foreign_masters p) /\
    (forall all, accounted p all -> accounted p' all) /\
    best = (p_best p' ≫= fun s => find_foreign s (foreign_masters p')) /\
    (if master_only p then best = None
     else exists put,
       best_post (foreign_masters p) None (foreign_masters p') put best).
Proof.
  intros [Hfc Hnd Hb] Hdom. unfold port_compute_best. destruct (master_only p).
  { eexists _, None. split; [done|]. split; [by split|]. by repeat split. }
  destruct (best_loop_spec (foreign_masters p) None Hfc Hdom ltac:(done))
    as (l' & put & best & -> & Hpost). cbn [mbind res_bind].
  eexists _, best. split; [done|].
  assert (Hfind : forall fc, best = Some fc -> fc ∈ l').
  { intros fc ->. by destruct (bp_from _ _ _ _ _ Hpost) as [E|(? & ? & [= <-] & ? & _)]. }
  assert (Hnd' : NoDup (senders l')) by by rewrite (bp_senders _ _ _ _ _ Hpost).
  split; [split|]; cbn [put_messages set_best set_foreign_masters foreign_masters p_best].
  - by apply (bp_wf _ _ _ _ _ Hpost).
  - done.
  - intros s. destruct best as [fc|]; [|done]. intros [= <-].
    apply (list_elem_of_fmap_2 (fun fc => sender (fc_dataset fc))). by apply Hfind.
  - split; [by apply (bp_senders _ _ _ _ _ Hpost)|]. split.
    { intros all. unfold accounted.
      cbn [put_messages set_best set_foreign_masters foreign_masters released].
      intros <-. rewrite <- (bp_held _ _ _ _ _ Hpost). solve_Permutation. }
    split; [|by exists put]. destruct best as [fc|]; [|done]. symmetry.
    cbn. apply find_foreign_elem; [done|by apply Hfind].
Qed.
End best_spec.

Lemma free_foreign_masters_eq l :
  Forall fc_wf l -> exists ms, free_foreign_masters l = Ret ms /\ ms ≡ₚ held l.
Proof.
  induction 1 as [|fc l Hfc Hl (ms & E & Hms)]; [by exists []|]. cbn [free_foreign_masters].
  rewrite fc_clear_eq by done. cbn [mbind res_bind]. rewrite E. cbn [mbind res_bind].
  eexists. split; [done|]. by rewrite held_cons, reverse_Permutation, Hms.
Qed.

Lemma drop_foreign_masters_eq p :
  table_wf p ->
  exists p', drop_foreign_masters p = Ret p' /\ table_wf p' /\ senders (foreign_masters p') = [] /\
    forall all, accounted p all -> accounted p' all.
Proof.
  intros [Hfc _ _]. unfold drop_foreign_masters.
  destruct (free_foreign_masters_eq _ Hfc) as (ms & -> & Hms). cbn [mbind res_bind].
  eexists. split; [done|]. split.
  { split; cbn; [by constructor|by constructor|done]. }
  split; [done|]. intros all. unfold accounted.
  cbn [put_messages set_best set_foreign_masters foreign_masters released held mbind list_bind].
  intros <-. rewrite <- Hms. solve_Permutation.
Qed.

(** ** The clocks a table knows *)
Lemma add_foreign_master_senders now alloc p m p' changed :
  table_wf p -> pid_wf (sourcePortIdentity m) ->
  add_foreign_master now alloc p m = Ret (p', changed) ->
  portIdentity p' = portIdentity p /\ port_localPriority p' = port_localPriority p /\
  senders (foreign_masters p') =
    if decide (sourcePortIdentity m ∈ senders (foreign_masters p)) then senders (foreign_masters p)
    else if alloc then sourcePortIdentity m :: senders (foreign_masters p)
    else senders (foreign_masters p).
Proof.
  intros [Hfc Hnd Hbest] Hm. unfold add_foreign_master.
  destruct (add_to_list_eq now m (foreign_masters p) Hfc Hm)
    as [[-> Hnin]|(l1 & fc & l2 & put & El & Hs & E & ->)]; cbn [mbind res_bind].
  - rewrite decide_False by done. by destruct alloc; intros [= <- _].
  - intros [= <- _]. split; [done|]. split; [done|].
    rewrite decide_True by (rewrite El, senders_app, <- Hs; cbn; set_solver).
    cbn [put_messages set_foreign_masters foreign_masters]. by rewrite El, !senders_app.
Qed.

(** The dataset that a message gives the record of its sender *)
Definition reading (p : port) (m : announce) : dsptr :=
  (ForeignDS (portIdentity p) (sourcePortIdentity m), announce_to_dataset m p).

Lemma candidate_reading now p fc :
  fc_wf fc -> candidate now fc -> exists m, m ∈ messages fc /\ candidate_ptr p fc = reading p m.
Proof.
  intros Hfc Hc. pose proof (fc_source fc Hfc) as Hs. unfold candidate_ptr, refreshed.
  destruct (messages fc) as [|m ms] eqn:E.
  { unfold candidate in Hc. rewrite E in Hc. simpl in Hc. lia. }
  apply Forall_cons in Hs as [Hs _]. exists m. split; [set_solver|].
  unfold reading. by rewrite Hs.
Qed.

Lemma held_elem l fc m : fc ∈ l -> m ∈ messages fc -> m ∈ held l.
Proof. intros. apply list_elem_of_bind. by exists fc. Qed.

Section foreign_life.
Context {dom : dsptr -> Prop} (cmp : option dsptr -> option dsptr -> Z) `{!DsOrder dom cmp}.

(** A port whose messages, with those that arrive, the order covers *)
Definition covered (p : port) (ms : list announce) : Prop :=
  forall m, m ∈ ms -> dom (reading p m).

Lemma covered_candidates now p all :
  table_wf p -> accounted p all -> covered p all ->
  forall fc, fc ∈ foreign_masters p -> candidate now fc -> dom (candidate_ptr p fc).
Proof.
  intros [Hfc _ _] Hall Hcov fc Hin Hc. rewrite Forall_forall in Hfc.
  destruct (candidate_reading now p fc (Hfc _ Hin) Hc) as (m & Hm & ->).
  apply Hcov. rewrite <- Hall. apply elem_of_app. left. by eapply held_elem.
Qed.

Lemma port_compute_best_same now p p' best :
  port_compute_best cmp now p = Ret (p', best) ->
  portIdentity p' = portIdentity p /\ port_localPriority p' = port_localPriority p.
Proof.
  unfold port_compute_best. destruct (master_only p); [by intros [= <- _]|].
  destruct (best_loop _ _ _ _ _) as [[[l ms] b]| | |]; cbn [mbind res_bind]; [|done..].
  by intros [= <- _].
Qed.

(** C21. The best foreign master of a port.  [port_compute_best] never faults;
    it selects a record exactly when the port is not master-only and some
    foreign clock sent two announcements that are still current; the record
    it selects holds two messages, its dataset is that of the latest
    announcement of such a clock, and no such clock has a better one;
    [p->best] then names that record in the list. *)
Theorem port_best_is_best (now : Z) (p : port) :
  table_wf p ->
  (forall fc, fc ∈ foreign_masters p -> candidate now fc -> dom (candidate_ptr p fc)) ->
  exists p' best, port_compute_best cmp now p = Ret (p', best) /\
    (is_Some best <-> master_only p = false /\ exists fc, fc ∈ foreign_masters p /\ candidate now fc) /\
    best = (p_best p' ≫= fun s => find_foreign s (foreign_masters p')) /\
    forall b, best = Some b -> length (messages b) = 2%nat /\
      (exists fc, fc ∈ foreign_masters p /\ candidate now fc /\
         fc_ptr (portIdentity p) b = candidate_ptr p fc) /\
      (forall fc, fc ∈ foreign_masters p -> candidate now fc ->
         0 <= cmp (Some (fc_ptr (portIdentity p) b)) (Some (candidate_ptr p fc))).
Proof.
  intros Hwf Hdom.
  destruct (port_compute_best_eq cmp now p Hwf Hdom) as (p' & best & E & _ & _ & _ & Hbest & Hpost).
  exists p', best. split; [done|]. destruct (master_only p) eqn:Emo.
  { subst best. rewrite Hpost in *. split; [|split; [done|by intros ? [=]]].
    split; [by intros [? [=]]|by intros [[=] _]]. }
  destruct Hpost as [put Hpost]. destruct (bp_from _ _ _ _ _ _ _ _ Hpost) as
    [->|(b & x & -> & Hb & Hlen & Hx & Hcx & Hptr)].
  - split; [|split; [done|by intros ? [=]]]. split; [by intros [? [=]]|].
    intros [_ (fc & Hin & Hc)]. by destruct (bp_all _ _ _ _ _ _ _ _ Hpost fc Hin Hc).
  - split; [split; [intros _; split; [done|by exists x]|done]|]. split; [done|].
    intros ? [= <-]. split; [done|]. split; [by exists x|].
    intros fc Hin Hc. pose proof (bp_all _ _ _ _ _ _ _ _ Hpost fc Hin Hc) as Hle.
    apply at_least_cmp in Hle; [done| |by apply Hdom].
    simpl. rewrite Hptr. by apply Hdom.
Qed.

End foreign_life.

(** ** At a concrete port *)
Definition sample_order : DsOrder (fun d : dsptr => dataset_wf d.2) (telecom_dscmp snd) :=
  telecom_order snd _ (fun _ H => H).

(** Grandmaster [g], of priority 2 [p2], announces itself at second [t]. *)
Definition sample_announce (g p2 t : Z) : announce :=
  Announce t (sample_pid g 1) 1 37 0 32 128
    {| clockClass := 6; clockAccuracy := 33; offsetScaledLogVariance := 20061 |} p2
    (clockIdentity (sample_pid g 1)) 0 [] t 0.

Definition sample_port : port :=
  Port (sample_pid 9 1) 128 false BMCA_PTP ptp_fsm false false false DM_E2E false
    (fun _ => FaultInterval FTMO_LOG2_SECONDS 4)
    PS_LISTENING FT_UNSPECIFIED [] None [] None [] (PeerDelay None None None) [] [].

(** Two grandmasters announce themselves, the second with a better priority. *)
Definition sample_announces : list announce :=
  (sample_announce 1 128 <$> [1; 3; 5]) ++ (sample_announce 2 127 <$> [2; 4; 6]).

(** The port after announcements that each arrive when they are stamped *)
Fixpoint add_announces (p : port) (ms : list announce) : res port :=
  match ms with
  | [] => Ret p
  | m :: ms =>
      '(p, _) ← add_foreign_master (host_sec m * NSEC2SEC) true p m;
      add_announces p ms
  end.

(** The port after those announcements, and its candidates *)
Definition sample_records : list foreign_clock :=
  [ForeignClock [sample_announce 2 127 6; sample_announce 2 127 4] 2
     (set_sender (sample_pid 2 1) zero_dataset);
   ForeignClock [sample_announce 1 128 5; sample_announce 1 128 3] 2
     (set_sender (sample_pid 1 1) zero_dataset)].

Lemma port_best_is_best_witness :
  add_announces sample_port sample_announces =
    Ret (set_foreign_masters sample_records sample_port) /\
  exists p' best,
    port_compute_best (telecom_dscmp snd) (7 * NSEC2SEC) (set_foreign_masters sample_records sample_port)
      = Ret (p', best) /\ is_Some best.
Proof.
  split; [vm_compute; reflexivity|].
  destruct (port_best_is_best (telecom_dscmp snd) (DsOrder0 := sample_order) (7 * NSEC2SEC)
    (set_foreign_masters sample_records sample_port)) as (p' & best & E & [_ Hsome] & _).
  - split; [|vm_compute; repeat (constructor; [set_solver|]); constructor|done].
    unfold sample_records. repeat apply Forall_cons_2; [..|by apply Forall_nil_2];
      (split; [done|simpl; lia|by split|by repeat constructor]).
  - intros fc Hfc _. repeat (apply elem_of_cons in Hfc as [->|Hfc]);
      [..|by apply elem_of_nil in Hfc]; split; done.
  - exists p', best. split; [done|]. apply Hsome. split; [done|].
    eexists. split; [by apply elem_of_cons; left|]. vm_compute. lia.
Defined.
