(* ===== verification/PtpPort.v ===== *)
(** * The ports of a clock (linuxptp-3.1)

    port.c: what a port does when its state machine changes state, when an
    announce message arrives and when its announce timer expires. *)

From S2P Require Import Prelude PtpFsm PtpBmc PtpForeign.

(** ** Outcomes of input and output

    Calls that open timers, sockets or a PHC device may fail.  An oracle [io]
    lists the outcomes of these calls in order; all later ones succeed. *)
Definition next_io (io : list bool) : bool * list bool :=
  match io with [] => (true, []) | ok :: io => (ok, io) end.

(** ** Timers *)
Definition set_tmo (t : timer) (p : port) : port :=
  set_timers (t :: filter (fun t' => t' <> t) (fda_timers p)) p.
Definition port_clr_tmo (t : timer) (p : port) : port :=
  set_timers (filter (fun t' => t' <> t) (fda_timers p)) p.

Definition port_set_announce_tmo (p : port) : port := set_tmo FD_ANNOUNCE_TIMER p.
Definition port_set_delay_tmo (p : port) : port :=
  if inhibit_delay_req p then p else set_tmo FD_DELAY_TIMER p.
Definition port_set_qualification_tmo (p : port) : port := set_tmo FD_QUALIFICATION_TIMER p.
Definition port_set_sync_rx_tmo (p : port) : port := set_tmo FD_SYNC_RX_TIMER p.
Definition port_set_sync_tx_tmo (p : port) : port := set_tmo FD_SYNC_TX_TIMER p.

(** ** Messages under way *)
Definition flush_last_sync (p : port) : port :=
  match last_syncfup p with
  | Some m => put_others [m] (set_last_syncfup None p)
  | None => p
  end.

Definition flush_delay_req (p : port) : port :=
  put_others (pending_id <$> delay_req p) (set_delay_req [] p).

Definition flush_peer_delay (p : port) : port :=
  let pd := peer_delay p in
  put_others (option_list (peer_delay_req pd) ++ option_list (peer_delay_resp pd) ++
              option_list (peer_delay_fup pd))
    (set_peer_delay (PeerDelay None None None) p).

Definition delay_req_current (m : pending) (now : Z) : bool :=
  now - pending_ts m <? 5 * NSEC2SEC.

(** The oldest request is the last of the list. *)
Fixpoint prune_requests (rev_reqs : list pending) (now : Z) : list pending * list Z :=
  match rev_reqs with
  | [] => ([], [])
  | m :: ms =>
      if delay_req_current m now then (m :: ms, [])
      else let '(rest, put) := prune_requests ms now in (rest, pending_id m :: put)
  end.
Definition delay_req_prune (now : Z) (p : port) : port :=
  let '(rest, put) := prune_requests (reverse (delay_req p)) now in
  put_others put (set_delay_req (reverse rest) p).

(** ** Enabling and disabling *)
Definition port_is_enabled (p : port) : bool :=
  match p_state p with PS_INITIALIZING | PS_FAULTY | PS_DISABLED => false | _ => true end.

Definition FRI_ASAP : Z := -128.

Definition clear_fault_asap (faint : fault_interval) : bool :=
  match flt_type faint with
  | FTMO_LINEAR_SECONDS => flt_val faint =? 0
  | FTMO_LOG2_SECONDS => flt_val faint =? FRI_ASAP
  | FTMO_CNT => false
  end.

Definition port_disable (p : port) : res port :=
  p ← drop_foreign_masters (flush_peer_delay (flush_delay_req (flush_last_sync p)));
  Ret (set_timers [] p).

(** [ok] tells whether the timers and the transport could be opened. *)
Definition port_initialize (ok : bool) (p : port) : port :=
  let p := set_last_fault FT_UNSPECIFIED p in
  if ok then
    let p := port_set_announce_tmo (set_timers [] p) in
    match p_bmca p with BMCA_NOOP => port_set_delay_tmo p | BMCA_PTP => p end
  else set_timers [] p.

(** ** Changing state *)
Definition port_state_update (p : port) (event : fsm_event) (mdiff : bool) (io : list bool)
    : res (port * list bool * bool) :=
  let next := machine p (p_state p) event mdiff in
  let next :=
    if decide (next = PS_FAULTY) then
      if clear_fault_asap (flt_interval_pertype p (last_fault_type p))
      then machine p next EV_FAULT_CLEARED false else next
    else next in
  '(p, io, next) ←
    (if decide (next = PS_INITIALIZING) then
       p ← (if port_is_enabled p then port_disable p else Ret p);
       let '(ok, io) := next_io io in
       let p := port_initialize ok p in
       let event := if ok then EV_INIT_COMPLETE else EV_FAULT_DETECTED in
       Ret (p, io, machine p next event false)
     else Ret (p, io, next));
  if decide (next = p_state p) then Ret (p, io, false)
  else Ret (set_state next p, io, true).

Definition clear_timers (ts : list timer) (p : port) : port :=
  foldl (fun p t => port_clr_tmo t p) p ts.

Definition port_e2e_transition (p : port) (next : port_state) : res port :=
  let p := clear_timers [FD_ANNOUNCE_TIMER; FD_SYNC_RX_TIMER; FD_DELAY_TIMER;
                         FD_QUALIFICATION_TIMER; FD_MANNO_TIMER; FD_SYNC_TX_TIMER] p in
  match next with
  | PS_INITIALIZING => Ret p
  | PS_FAULTY | PS_DISABLED => port_disable p
  | PS_LISTENING => Ret (port_set_announce_tmo p)
  | PS_PRE_MASTER => Ret (port_set_qualification_tmo p)
  | PS_MASTER | PS_GRAND_MASTER =>
      Ret (port_set_sync_tx_tmo (if inhibit_announce p then p else set_tmo FD_MANNO_TIMER p))
  | PS_PASSIVE => Ret (port_set_announce_tmo p)
  | PS_UNCALIBRATED =>
      Ret (port_set_delay_tmo (port_set_announce_tmo (flush_delay_req (flush_last_sync p))))
  | PS_SLAVE => Ret (port_set_delay_tmo (port_set_announce_tmo p))
  end.

Definition port_p2p_transition (p : port) (next : port_state) : res port :=
  let p := clear_timers [FD_ANNOUNCE_TIMER; FD_SYNC_RX_TIMER;
                         FD_QUALIFICATION_TIMER; FD_MANNO_TIMER; FD_SYNC_TX_TIMER] p in
  match next with
  | PS_INITIALIZING => Ret p
  | PS_FAULTY | PS_DISABLED => port_disable p
  | PS_LISTENING => Ret (port_set_delay_tmo (port_set_announce_tmo p))
  | PS_PRE_MASTER => Ret (port_set_qualification_tmo p)
  | PS_MASTER | PS_GRAND_MASTER =>
      Ret (port_set_sync_tx_tmo (if inhibit_announce p then p else set_tmo FD_MANNO_TIMER p))
  | PS_PASSIVE => Ret (port_set_announce_tmo p)
  | PS_UNCALIBRATED => Ret (port_set_announce_tmo (flush_peer_delay (flush_last_sync p)))
  | PS_SLAVE => Ret (port_set_announce_tmo p)
  end.

(** A failed switch of the PHC dispatches a fault in turn. *)
Fixpoint bc_dispatch_loop (fuel : nat) (p : port) (event : fsm_event) (mdiff : bool)
    (io : list bool) : res (port * list bool) :=
  match fuel with
  | O => NoFuel
  | S fuel' =>
      '(p, io, changed) ← port_state_update p event mdiff io;
      if changed : bool then
        p ← match delayMechanism p with
            | DM_P2P => port_p2p_transition p (p_state p)
            | _ => port_e2e_transition p (p_state p)
            end;
        if jbod p && bool_decide (p_state p = PS_UNCALIBRATED) then
          let '(ok, io) := next_io io in
          if ok : bool then Ret (p, io)
          else bc_dispatch_loop fuel' (set_last_fault FT_SWITCH_PHC p) EV_FAULT_DETECTED false io
        else Ret (p, io)
      else Ret (p, io)
  end.
Definition bc_dispatch (p : port) (event : fsm_event) (mdiff : bool) (io : list bool)
    : res (port * list bool) := bc_dispatch_loop 2 p event mdiff io.

(** ** Announce messages *)

(** What an announcement of the current master changes in the clock *)
Record timePropertiesDS := TimeProperties {
  tds_currentUtcOffset : Z;
  tds_flags : Z;
  tds_timeSource : Z
}.
Record parent_update := ParentUpdate {
  up_time_properties : option timePropertiesDS;
  up_path : option (list (list Z))
}.
Definition no_update : parent_update := ParentUpdate None None.

(** Writes through the pointer [p->best] *)
Definition update_foreign (s : PortIdentity) (fc : foreign_clock) (p : port) : port :=
  set_foreign_masters
    ((fun x => if decide (sender (fc_dataset x) = s) then fc else x) <$> foreign_masters p) p.

(** The record [p->best] points to, if it is not null; a record that is gone
    makes it a fault. *)
Definition best_record (p : port) : res (option foreign_clock) :=
  match p_best p with
  | None => Ret None
  | Some s =>
      match find_foreign s (foreign_masters p) with
      | Some fc => Ret (Some fc)
      | None => Fault
      end
  end.

(** The result tells whether the state has to be decided anew. *)
Definition update_current_master (now : Z) (alloc : bool) (p : port) (m : announce)
    : res (port * parent_update * bool) :=
  fc ← best_record p;
  if negb (msg_source_equal m fc) then
    '(p, changed) ← add_foreign_master now alloc p m;
    Ret (p, no_update, changed)
  else
    let tds :=
      if decide (p_state p = PS_PASSIVE) then None
      else Some (TimeProperties (currentUtcOffset m) (flagField1 m) (timeSource m)) in
    let path := if path_trace_enabled p then Some (path_trace m) else None in
    let p := port_set_announce_tmo p in
    match fc with
    | None => Fault
    | Some fc =>
        '(ms, fc) ← fc_prune now fc;
        let '(fc, diff) := push_message m fc in
        Ret (put_messages ms (update_foreign (sender (fc_dataset fc)) fc p),
             ParentUpdate tds path, negb (diff =? 0))
    end.

Definition process_announce (max_steps_removed now : Z) (alloc : bool) (p : port) (m : announce)
    : res (port * parent_update * bool) :=
  if max_steps_removed <=? announce_stepsRemoved m then Ret (p, no_update, false)
  else
    match p_state p with
    | PS_INITIALIZING | PS_FAULTY | PS_DISABLED => Ret (p, no_update, false)
    | PS_LISTENING | PS_PRE_MASTER | PS_MASTER | PS_GRAND_MASTER =>
        '(p, changed) ← add_foreign_master now alloc p m;
        Ret (p, no_update, changed)
    | PS_PASSIVE | PS_UNCALIBRATED | PS_SLAVE => update_current_master now alloc p m
    end.

(** ** Events of a port *)
Definition port_renew_transport (p : port) (io : list bool) : bool * list bool :=
  if port_is_enabled p then next_io io else (true, io).

(** [if (p->best) fc_clear(p->best)] *)
Definition clear_best (p : port) : res port :=
  best ← best_record p;
  match best with
  | None => Ret p
  | Some fc =>
      '(ms, fc) ← fc_clear fc;
      Ret (put_messages ms (update_foreign (sender (fc_dataset fc)) fc p))
  end.

(** The announce or the sync receipt timer expires. *)
Definition receipt_timeout (slave_only : bool) (now : Z) (p : port) (io : list bool)
    : res (port * list bool * fsm_event) :=
  p ← clear_best p;
  let p := match p_bmca p with BMCA_NOOP => port_clr_tmo FD_SYNC_RX_TIMER p | BMCA_PTP => p end in
  let p := if inhibit_announce p then port_clr_tmo FD_ANNOUNCE_TIMER p
           else port_set_announce_tmo p in
  let p := delay_req_prune now p in
  let e2e := match delayMechanism p with DM_P2P => false | _ => true end in
  let '(ok, io) := if slave_only && e2e then port_renew_transport p io else (true, io) in
  if negb ok then Ret (p, io, EV_FAULT_DETECTED)
  else if inhibit_announce p then Ret (p, io, EV_NONE)
  else Ret (p, io, EV_ANNOUNCE_RECEIPT_TIMEOUT_EXPIRES).

Inductive servo_state := SERVO_UNLOCKED | SERVO_JUMP | SERVO_LOCKED | SERVO_LOCKED_STABLE.

(** A synchronization with the master, [state] the servo's verdict *)
Definition port_synchronize (state : servo_state) (p : port) (io : list bool)
    : res (port * list bool) :=
  let p := port_set_sync_rx_tmo p in
  match state with
  | SERVO_UNLOCKED => bc_dispatch p EV_SYNCHRONIZATION_FAULT false io
  | SERVO_JUMP =>
      '(p, io) ← bc_dispatch p EV_SYNCHRONIZATION_FAULT false io;
      let p := flush_delay_req p in
      let pd := peer_delay p in
      Ret (put_others (option_list (peer_delay_req pd))
             (set_peer_delay (PeerDelay None (peer_delay_resp pd) (peer_delay_fup pd)) p), io)
  | SERVO_LOCKED => bc_dispatch p EV_MASTER_CLOCK_SELECTED false io
  | SERVO_LOCKED_STABLE => Ret (p, io)
  end.

(** What [poll] may report for a port *)
Inductive port_input :=
  | InReceiptTimeout (now : Z)
  | InQualification
  | InAnnounce (now : Z) (alloc : bool) (m : announce)
  | InSync (state : servo_state)
  | InOther (event : fsm_event).

(** Of the other descriptors and messages only the outcome matters. *)
Definition other_event (e : fsm_event) : fsm_event :=
  match e with
  | EV_FAULT_DETECTED | EV_FAULT_CLEARED | EV_STATE_DECISION_EVENT => e
  | _ => EV_NONE
  end.

Definition bc_event (slave_only : bool) (max_steps_removed : Z) (p : port) (i : port_input)
    (io : list bool) : res (port * list bool * parent_update * fsm_event) :=
  match i with
  | InReceiptTimeout now =>
      '(p, io, event) ← receipt_timeout slave_only now p io;
      Ret (p, io, no_update, event)
  | InQualification => Ret (p, io, no_update, EV_QUALIFICATION_TIMEOUT_EXPIRES)
  | InAnnounce now alloc m =>
      '(p, up, decide) ← process_announce max_steps_removed now alloc p m;
      Ret (p, io, up, if decide : bool then EV_STATE_DECISION_EVENT else EV_NONE)
  | InSync state =>
      '(p, io) ← port_synchronize state p io;
      Ret (p, io, no_update, EV_NONE)
  | InOther event => Ret (p, io, no_update, other_event event)
  end.
