(* ===== verification/PtpClock.v ===== *)
(** * The clock and its state decisions (linuxptp-3.1)

    clock.c and bmc.c: the data sets of an ordinary or boundary clock, the
    choice of the best master over all ports, the decision of every port's
    role and its consequences. *)

From Stdlib Require Import QArith.
From S2P Require Import Prelude PtpFsm PtpBmc PtpForeign PtpPort.
Open Scope Z_scope.

(** ** Data *)
Record currentDS := CurrentDS {
  cur_stepsRemoved : Z;
  offsetFromMaster : Z;
  meanPathDelay : Z
}.

Record parentDS := ParentDS {
  parentPortIdentity : PortIdentity;
  pds_grandmasterPriority1 : Z;
  pds_grandmasterClockQuality : ClockQuality;
  pds_grandmasterPriority2 : Z;
  pds_grandmasterIdentity : list Z
}.

Record freq_estimator := FreqEstimator { origin1 : Z; ingress1 : Z; fest_count : Z }.

(** The calls to the time stamp processor of the clock *)
Inductive tsproc_call := TsprocReset (full : bool) | TsprocSetDelay (d : Z).

(** What the servo has measured, reset when another best master is selected *)
Record estimates := Estimates {
  fest : freq_estimator;
  tsproc_calls : list tsproc_call;
  ingress_ts : Z;
  path_delay : Z;
  master_local_rr : Q;
  nrr : Q
}.

Definition unit_ratio : Q := 1.

(** The fields of [struct defaultDS] and the configuration of the clock *)
Record defaultDS := DefaultData {
  slave_only : bool;
  dds_priority1 : Z;
  dds_clockQuality : ClockQuality;
  dds_priority2 : Z;
  dds_clockIdentity : list Z;
  dds_localPriority : Z;
  max_steps_removed : Z;
  time_flags : Z;
  time_source : Z;
  initial_delay : Z
}.

(** The data sets that describe the master the clock follows *)
Record time_data := TimeData {
  cur : currentDS;
  pds : parentDS;
  ptl : list (list Z);
  path_length : Z;
  tds : timePropertiesDS;
  utc_offset : Z
}.

(** [c_best] points to the record of a sender in the table of a port. *)
Record clock := Clock {
  dds : defaultDS;
  c_ports : list port;
  c_best : option (nat * PortIdentity);
  best_id : list Z;
  c_sde : bool;
  c_data : time_data;
  c_est : estimates
}.

Definition set_ports (ps : list port) (c : clock) : clock :=
  Clock (dds c) ps (c_best c) (best_id c) (c_sde c) (c_data c) (c_est c).
Definition set_clock_best (b : option (nat * PortIdentity)) (id : list Z) (c : clock) : clock :=
  Clock (dds c) (c_ports c) b id (c_sde c) (c_data c) (c_est c).
Definition set_sde (sde : bool) (c : clock) : clock :=
  Clock (dds c) (c_ports c) (c_best c) (best_id c) sde (c_data c) (c_est c).
Definition set_data (d : time_data) (c : clock) : clock :=
  Clock (dds c) (c_ports c) (c_best c) (best_id c) (c_sde c) d (c_est c).
Definition set_est (e : estimates) (c : clock) : clock :=
  Clock (dds c) (c_ports c) (c_best c) (best_id c) (c_sde c) (c_data c) e.

Definition UTC_OFF_VALID : Z := 4.
Definition TIME_TRACEABLE : Z := 16.
Definition PATH_TRACE_MAX : nat := 179.

Definition clock_default_ds (c : clock) : dataset :=
  let d := dds c in {|
  priority1 := dds_priority1 d;
  identity := dds_clockIdentity d;
  quality := dds_clockQuality d;
  priority2 := dds_priority2 d;
  localPriority := dds_localPriority d;
  stepsRemoved := 0;
  sender := {| clockIdentity := dds_clockIdentity d; portNumber := 0 |};
  receiver := {| clockIdentity := dds_clockIdentity d; portNumber := 0 |}
|}.

Definition clock_class (c : clock) : Z := clockClass (dds_clockQuality (dds c)).

(** ** Following pointers *)

(** [c->best], a fault when its record is gone *)
Definition load_best (c : clock) : res (option (port * foreign_clock)) :=
  match c_best c with
  | None => Ret None
  | Some (k, s) =>
      match c_ports c !! k with
      | None => Fault
      | Some p =>
          match find_foreign s (foreign_masters p) with
          | None => Fault
          | Some fc => Ret (Some (p, fc))
          end
      end
  end.

Definition clock_best_foreign (c : clock) : res (option dsptr) :=
  b ← load_best c;
  match b with
  | None => Ret None
  | Some (p, fc) => Ret (Some (fc_ptr (portIdentity p) fc))
  end.

(** [clock_best_port(c)] is the port with index [k]. *)
Definition clock_best_port (c : clock) : res (option nat) :=
  b ← load_best c;
  match b with None => Ret None | Some _ => Ret (fst <$> c_best c) end.

Definition port_best_foreign (p : port) : res (option dsptr) :=
  match p_best p with
  | None => Ret None
  | Some s =>
      match find_foreign s (foreign_masters p) with
      | None => Fault
      | Some fc => Ret (Some (fc_ptr (portIdentity p) fc))
      end
  end.

(** ** The data sets of the clock *)
Definition clock_update_grandmaster (c : clock) : clock :=
  let d := dds c in
  set_data
    (TimeData (CurrentDS 0 0 0)
       (ParentDS {| clockIdentity := dds_clockIdentity d; portNumber := 0 |}
          (dds_priority1 d) (dds_clockQuality d) (dds_priority2 d) (dds_clockIdentity d))
       (replicate PATH_TRACE_MAX (replicate 8 0)) 0
       (TimeProperties (utc_offset (c_data c)) (time_flags d) (time_source d))
       (utc_offset (c_data c))) c.

Definition clock_update_slave (c : clock) : res clock :=
  b ← load_best c;
  match b with
  | None => Ret c
  | Some (_, fc) =>
      match messages fc with
      | [] => Fault
      | msg :: _ =>
          let t := TimeProperties (currentUtcOffset msg) (flagField1 msg) (timeSource msg) in
          let old := utc_offset (c_data c) in
          let traceable := (0 <? Z.land (tds_flags t) UTC_OFF_VALID) &&
                           (0 <? Z.land (tds_flags t) TIME_TRACEABLE) in
          Ret (set_data
            (TimeData
               (CurrentDS (u16 (1 + stepsRemoved (fc_dataset fc)))
                  (offsetFromMaster (cur (c_data c))) (meanPathDelay (cur (c_data c))))
               (ParentDS (sender (fc_dataset fc)) (grandmasterPriority1 msg)
                  (grandmasterClockQuality msg) (grandmasterPriority2 msg)
                  (grandmasterIdentity msg))
               (ptl (c_data c)) (path_length (c_data c)) t
               (if traceable || (old <? tds_currentUtcOffset t)
                then tds_currentUtcOffset t else old)) c)
      end
  end.

(** What [update_current_master] writes into the clock *)
Definition apply_update (up : parent_update) (c : clock) : clock :=
  let d := c_data c in
  let t := match up_time_properties up with Some t => t | None => tds d end in
  let '(path, len) :=
    match up_path up with
    | Some path => (path ++ drop (length path) (ptl d), Z.of_nat (length path))
    | None => (ptl d, path_length d)
    end in
  set_data (TimeData (cur d) (pds d) path len t (utc_offset d)) c.

(** ** State decisions *)
Section decisions.
Context (cmp : option dsptr -> option dsptr -> Z).

Definition bmc_state_decision (c : clock) (k : nat) (r : port) : res port_state :=
  let clock_ds := Some (DefaultDS, clock_default_ds c) in
  port_best ← port_best_foreign r;
  let ps := p_state r in
  let noop := match p_bmca r with BMCA_NOOP => true | BMCA_PTP => false end in
  if bool_decide (port_best = None) && noop then Ret ps
  else if bool_decide (port_best = None) && bool_decide (ps = PS_LISTENING) then Ret ps
  else if clock_class c <=? 127 then
    Ret (if 0 <? cmp clock_ds port_best then PS_GRAND_MASTER else PS_PASSIVE)
  else
    clock_best ← clock_best_foreign c;
    if 0 <? cmp clock_ds clock_best then Ret PS_GRAND_MASTER
    else
      best_port ← clock_best_port c;
      if bool_decide (best_port = Some k) then Ret PS_SLAVE
      else Ret (if cmp clock_best port_best =? A_BETTER_TOPO then PS_PASSIVE else PS_MASTER).

(** The first loop of [handle_state_decision_event], from port [k] on *)
Fixpoint compute_loop (now : Z) (k : nat) (ps : list port)
    (best : option (nat * PortIdentity * dsptr))
    : res (list port * option (nat * PortIdentity * dsptr)) :=
  match ps with
  | [] => Ret ([], best)
  | p :: ps =>
      '(p, fc) ← port_compute_best cmp now p;
      let best :=
        match fc with
        | None => best
        | Some fc =>
            let ptr := fc_ptr (portIdentity p) fc in
            match best with
            | None => Some (k, sender (fc_dataset fc), ptr)
            | Some (_, b) =>
                if 0 <? cmp (Some ptr) (Some b) then Some (k, sender (fc_dataset fc), ptr) else best
            end
        end in
      '(ps, best) ← compute_loop now (S k) ps best;
      Ret (p :: ps, best)
  end.

(** What a decision does to the clock, and the event for the port *)
Definition decision_event (c : clock) (ps : port_state) : res (clock * fsm_event) :=
  match ps with
  | PS_LISTENING => Ret (c, EV_NONE)
  | PS_GRAND_MASTER => Ret (clock_update_grandmaster c, EV_RS_GRAND_MASTER)
  | PS_MASTER => Ret (c, EV_RS_MASTER)
  | PS_PASSIVE => Ret (c, EV_RS_PASSIVE)
  | PS_SLAVE => c ← clock_update_slave c; Ret (c, EV_RS_SLAVE)
  | _ => Ret (c, EV_FAULT_DETECTED)
  end.

(** One round of the second loop *)
Definition decide_port (fresh_best : bool) (k : nat) (c : clock) (io : list bool)
    : res (clock * list bool) :=
  match c_ports c !! k with
  | None => Ret (c, io)
  | Some r =>
      ps ← bmc_state_decision c k r;
      '(c, event) ← decision_event c ps;
      '(r, io) ← bc_dispatch r event fresh_best io;
      Ret (set_ports (<[k := r]> (c_ports c)) c, io)
  end.

Fixpoint decide_loop (fresh_best : bool) (ks : list nat) (c : clock) (io : list bool)
    : res (clock * list bool) :=
  match ks with
  | [] => Ret (c, io)
  | k :: ks =>
      '(c, io) ← decide_port fresh_best k c io;
      decide_loop fresh_best ks c io
  end.

(** Another best master than before *)
Definition reset_estimates (initial_delay : Z) (e : estimates) : estimates :=
  Estimates (FreqEstimator 0 0 0)
    (tsproc_calls e ++ TsprocReset true ::
       (if initial_delay =? 0 then [] else [TsprocSetDelay initial_delay]))
    0 initial_delay unit_ratio unit_ratio.

Definition handle_state_decision_event (now : Z) (c : clock) (io : list bool)
    : res (clock * list bool) :=
  '(ps, best) ← compute_loop now 0 (c_ports c) None;
  let c := set_ports ps c in
  let id := match best with
            | Some (_, b) => identity b.2
            | None => dds_clockIdentity (dds c)
            end in
  let fresh_best := negb (bool_decide (id = best_id c)) in
  let c := if fresh_best then set_est (reset_estimates (initial_delay (dds c)) (c_est c)) c else c in
  let c := set_clock_best (fst <$> best) id c in
  decide_loop fresh_best (seq 0 (length (c_ports c))) c io.

(** ** The part of [clock_poll] that handles the ports *)

(** One ready descriptor of port [k] *)
Definition poll_port (k : nat) (i : port_input) (c : clock) (io : list bool)
    : res (clock * list bool) :=
  match c_ports c !! k with
  | None => Ret (c, io)
  | Some p =>
      '(p, io, up, event) ← bc_event (slave_only (dds c)) (max_steps_removed (dds c)) p i io;
      let c := apply_update up c in
      let c := match event with
               | EV_STATE_DECISION_EVENT | EV_ANNOUNCE_RECEIPT_TIMEOUT_EXPIRES => set_sde true c
               | _ => c
               end in
      '(p, io) ← bc_dispatch p event false io;
      Ret (set_ports (<[k := p]> (c_ports c)) c, io)
  end.

(** The ready descriptors, then the state decision if one is due *)
Fixpoint poll_ports (inputs : list (nat * port_input)) (c : clock) (io : list bool)
    : res (clock * list bool) :=
  match inputs with
  | [] => Ret (c, io)
  | (k, i) :: inputs =>
      '(c, io) ← poll_port k i c io;
      poll_ports inputs c io
  end.

Definition clock_poll (now : Z) (inputs : list (nat * port_input)) (c : clock) (io : list bool)
    : res (clock * list bool) :=
  '(c, io) ← poll_ports inputs c io;
  if c_sde c then
    '(c, io) ← handle_state_decision_event now c io;
    Ret (set_sde false c, io)
  else Ret (c, io).

(** The polls of the main loop, each with the time and what was ready *)
Fixpoint clock_run (polls : list (Z * list (nat * port_input))) (c : clock) (io : list bool)
    : res (clock * list bool) :=
  match polls with
  | [] => Ret (c, io)
  | (now, inputs) :: polls =>
      '(c, io) ← clock_poll now inputs c io;
      clock_run polls c io
  end.
End decisions.

(** The end of [clock_create] *)
Fixpoint start_ports (ks : list nat) (c : clock) (io : list bool) : res (clock * list bool) :=
  match ks with
  | [] => Ret (c, io)
  | k :: ks =>
      match c_ports c !! k with
      | None => start_ports ks c io
      | Some p =>
          '(p, io) ← bc_dispatch p EV_INITIALIZE false io;
          start_ports ks (set_ports (<[k := p]> (c_ports c)) c) io
      end
  end.
Definition clock_start (c : clock) (io : list bool) : res (clock * list bool) :=
  start_ports (seq 0 (length (c_ports c))) c io.
