(* ===== verification/PtpPortSpec.v ===== *)
(** * The invariant of a port (linuxptp-3.1)

    What holds of a port that runs the best master clock algorithm between
    any two events, and that its operations keep it and never fault.  Beside
    it, the table of foreign masters over the life of the port: a [directory]
    of the clocks known and the messages taken in, which every operation on
    the port keeps in step with the table. *)

From S2P Require Import Prelude PtpFsm PtpBmc PtpForeign PtpPort.

(** The states in which an announcement is compared with [p->best] *)
Definition follows (s : port_state) : bool :=
  match s with PS_PASSIVE | PS_UNCALIBRATED | PS_SLAVE => true | _ => false end.

(** The events that state decisions send *)
Definition is_decision (e : fsm_event) : bool :=
  match e with
  | EV_NONE | EV_RS_MASTER | EV_RS_GRAND_MASTER | EV_RS_SLAVE | EV_RS_PASSIVE => true
  | _ => false
  end.

(** A machine whose roles follow the state decisions: a following state is
    only entered by a decision for it, a decision to serve leaves it, an
    enabled port follows when it is told to, and decisions neither enable nor disable a port. *)
Class BmcFsm (fsm : state_machine) : Prop := {
  bmc_port :: PortFsm fsm;
  bmc_init d : follows (fsm PS_INITIALIZING EV_INIT_COMPLETE d) = false;
  bmc_enter s e d : follows (fsm s e d) = true ->
    e = EV_RS_SLAVE \/ e = EV_RS_PASSIVE \/ follows s = true;
  bmc_leave s e d : reachable fsm s -> e = EV_RS_MASTER \/ e = EV_RS_GRAND_MASTER ->
    follows (fsm s e d) = false;
  bmc_slave s e d : is_slave (fsm s e d) = true ->
    e = EV_RS_SLAVE \/
    is_slave s = true /\ e <> EV_RS_MASTER /\ e <> EV_RS_GRAND_MASTER /\ e <> EV_RS_PASSIVE;
  bmc_follow s d : reachable fsm s -> enabled s = true -> is_slave (fsm s EV_RS_SLAVE d) = true;
  bmc_enabled s e d : is_decision e = true -> enabled (fsm s e d) = enabled s
}.

#[export] Instance ptp_fsm_bmc : BmcFsm ptp_fsm.
Proof. split; [exact _|fsm_cases..]. Qed.

#[export] Instance ptp_slave_fsm_bmc : BmcFsm ptp_slave_fsm.
Proof.
  split; [exact _|fsm_cases|fsm_cases| |fsm_cases| |fsm_cases].
  - intros s e d Hs%slave_never_serves. fsm_cases.
  - intros s d Hs%slave_never_serves. fsm_cases.
Qed.

(** The configuration of a port, which no event changes *)
Definition config (p : port) :=
  (portIdentity p, port_localPriority p, (master_only p, p_bmca p, machine p, jbod p)).

(** [p'] is [p] but for its state, its timers and other messages. *)
Record same_table (p p' : port) : Prop := SameTable {
  st_config : config p' = config p;
  st_foreign : foreign_masters p' = foreign_masters p;
  st_best : p_best p' = p_best p;
  st_accounted all : accounted p all -> accounted p' all
}.

(** [p'] is [p] with its foreign masters gone and their messages put. *)

Record emptied (p p' : port) : Prop := Emptied {
  em_config : config p' = config p;
  em_foreign : foreign_masters p' = [];
  em_best : p_best p' = None;
  em_accounted all : accounted p all -> accounted p' all
}.

#[export] Instance same_table_preorder : PreOrder same_table.
Proof.
  split; [done|]. intros p1 p2 p3 [C1 F1 B1 A1] [C2 F2 B2 A2]. split; [congruence..|auto].
Qed.

Lemma emptied_trans p1 p2 p3 : emptied p1 p2 -> same_table p2 p3 -> emptied p1 p3.
Proof. intros [C1 F1 B1 A1] [C2 F2 B2 A2]. split; [congruence..|auto]. Qed.

Lemma emptied_after p1 p2 p3 : same_table p1 p2 -> emptied p2 p3 -> emptied p1 p3.
Proof. intros [C1 F1 B1 A1] [C2 F2 B2 A2]. split; [congruence|done|done|auto]. Qed.

Lemma emptied_twice p1 p2 p3 : emptied p1 p2 -> emptied p2 p3 -> emptied p1 p3.
Proof. intros [C _ _ A] [C' F B A']. split; [congruence|done|done|auto]. Qed.

(** ** The operations that leave the table and the state alone *)
Definition quiet (p p' : port) : Prop := same_table p p' /\ p_state p' = p_state p.

#[export] Instance quiet_preorder : PreOrder quiet.
Proof.
  split; [done|]. intros p1 p2 p3 [H1 S1] [H2 S2]. split; [by etrans|congruence].
Qed.

Lemma quiet_set_tmo t p : quiet p (set_tmo t p).
Proof. done. Qed.
Lemma quiet_clr_tmo t p : quiet p (port_clr_tmo t p).
Proof. done. Qed.
Lemma quiet_flush_delay_req p : quiet p (flush_delay_req p).
Proof. done. Qed.
Lemma quiet_flush_peer_delay p : quiet p (flush_peer_delay p).
Proof. done. Qed.
Lemma quiet_flush_last_sync p : quiet p (flush_last_sync p).
Proof. unfold flush_last_sync. by destruct (last_syncfup p). Qed.
Lemma quiet_set_delay_tmo p : quiet p (port_set_delay_tmo p).
Proof. unfold port_set_delay_tmo. by destruct (inhibit_delay_req p). Qed.
Lemma quiet_delay_req_prune now p : quiet p (delay_req_prune now p).
Proof. unfold delay_req_prune. by destruct (prune_requests _ _). Qed.
Lemma quiet_clear_timers ts p : quiet p (clear_timers ts p).
Proof.
  revert p. induction ts as [|t ts IH]; intros p; [done|].
  etrans; [apply (quiet_clr_tmo t)|]. apply IH.
Qed.

Create HintDb quiet.
#[export] Hint Resolve quiet_set_tmo quiet_clr_tmo quiet_flush_delay_req quiet_flush_peer_delay
  quiet_flush_last_sync quiet_set_delay_tmo quiet_delay_req_prune quiet_clear_timers : quiet.

(** A chain of such operations *)
Ltac quiet_chain := first [reflexivity | etrans; [|solve [eauto with quiet]]; quiet_chain].

Lemma quiet_port_initialize ok p : quiet p (port_initialize ok p).
Proof.
  unfold port_initialize. destruct ok; [|done]. cbv zeta.
  change (p_bmca (port_set_announce_tmo _)) with (p_bmca p).
  destruct (p_bmca p); [done|].
  etrans; [|apply quiet_set_delay_tmo]. done.
Qed.

Lemma same_table_wf p p' : same_table p p' -> table_wf p -> table_wf p'.
Proof. intros [_ F B _] [H1 H2 H3]. split; by rewrite ?F, ?B. Qed.

Lemma quiet_wf p p' : quiet p p' -> table_wf p -> table_wf p'.
Proof. intros [H _]. by apply same_table_wf. Qed.

Lemma emptied_wf p p' : emptied p p' -> table_wf p'.
Proof. intros [_ F B _]. split; rewrite ?F, ?B; [by apply Forall_nil|by apply NoDup_nil|done]. Qed.

Lemma port_disable_eq p :
  table_wf p -> exists p', port_disable p = Ret p' /\ emptied p p' /\ p_state p' = p_state p.
Proof.
  intros Hwf. unfold port_disable.
  set (p0 := flush_peer_delay (flush_delay_req (flush_last_sync p))).
  assert (Hq : quiet p p0) by (unfold p0; quiet_chain).
  pose proof (quiet_wf _ _ Hq Hwf) as Hwf0.
  destruct (drop_foreign_masters_eq p0 Hwf0) as (p1 & E & _ & _ & Hacc). rewrite E. cbn [mbind res_bind].
  eexists. split; [done|]. revert E. unfold drop_foreign_masters.
  destruct (free_foreign_masters _) as [ms| | |]; [|done..]. intros [= <-].
  destruct Hq as [Ht S]. split; [|done]. eapply emptied_after; [exact Ht|]. by split.
Qed.

(** ** Changing state *)
Definition port_transition (p : port) : res port :=
  match delayMechanism p with
  | DM_P2P => port_p2p_transition p (p_state p)
  | _ => port_e2e_transition p (p_state p)
  end.

Lemma port_transition_eq p :
  table_wf p ->
  exists p', port_transition p = Ret p' /\ p_state p' = p_state p /\
    match p_state p with PS_FAULTY | PS_DISABLED => emptied p p' | _ => same_table p p' end.
Proof.
  intros Hwf.
  assert (Hq : forall p' s, quiet p p' -> p_state p = s ->
    match s with PS_FAULTY | PS_DISABLED => False | _ => True end ->
    p_state p' = p_state p /\
    match p_state p with PS_FAULTY | PS_DISABLED => emptied p p' | _ => same_table p p' end).
  { intros p' s [Hs Est] E Hm. split; [done|]. rewrite E. by destruct s. }
  assert (Hdis : forall p0 s, quiet p p0 -> p_state p = s -> s = PS_FAULTY \/ s = PS_DISABLED ->
    exists p', port_disable p0 = Ret p' /\ p_state p' = p_state p /\
      match p_state p with PS_FAULTY | PS_DISABLED => emptied p p' | _ => same_table p p' end).
  { intros p0 s Hq0 E Hs. destruct (port_disable_eq p0 (quiet_wf _ _ Hq0 Hwf)) as (p' & -> & He & Ep').
    destruct Hq0 as [Ht0 E0]. exists p'. split; [done|]. split; [congruence|].
    assert (emptied p p') by (by eapply emptied_after).
    rewrite E. by destruct Hs as [-> | ->]. }
  unfold port_transition, port_p2p_transition, port_e2e_transition.
  destruct (delayMechanism p), (p_state p) eqn:E;
    try (eapply Hdis; [quiet_chain|reflexivity|auto]);
    (eexists; split; [reflexivity|]; eapply Hq; [|reflexivity|done]); try quiet_chain;
    destruct (inhibit_announce _); quiet_chain.
Qed.

(** The state after an event, once faults to be cleared at once are *)
Lemma port_state_update_eq p e d io :
  table_wf p -> PortFsm (machine p) ->
  exists p' io' changed, port_state_update p e d io = Ret (p', io', changed) /\
    (changed = false -> p_state p' = p_state p) /\
    ((same_table p p' /\ p_state p' = machine p (p_state p) e d /\ p_state p' <> PS_INITIALIZING) \/
     ((emptied p p' \/ port_is_enabled p = false /\ same_table p p') /\
      enabled (machine p (p_state p) e d) = false /\
      (p_state p' = PS_FAULTY \/
       p_state p' = machine p PS_INITIALIZING EV_INIT_COMPLETE false))).
Proof.
  intros Hwf Hfsm. unfold port_state_update. cbv zeta.
  set (next := if decide (machine p (p_state p) e d = PS_FAULTY) then _ else _).
  assert (Hnext : next = machine p (p_state p) e d \/
    next = PS_INITIALIZING /\ machine p (p_state p) e d = PS_FAULTY).
  { unfold next. destruct (decide (machine p (p_state p) e d = PS_FAULTY)) as [E|]; [|by left].
    destruct (clear_fault_asap _); [|by left]. right. rewrite E.
    split; [apply fsm_fault_cleared|done]. }
  clearbody next. destruct (decide (next = PS_INITIALIZING)) as [->|Hn]; cbn [mbind res_bind].
  2: { destruct Hnext as [->|[? _]]; [|done].
    case_decide as Hs; eexists _, _, _; (split; [reflexivity|]).
    - split; [done|]. left. split; [done|]. split; congruence.
    - split; [done|]. by left. }
  assert (Hen : enabled (machine p (p_state p) e d) = false).
  { by destruct Hnext as [<- | [_ ->]]. }
  assert (exists p1, (if port_is_enabled p then port_disable p else Ret p) = Ret p1 /\
    p_state p1 = p_state p /\ (emptied p p1 \/ port_is_enabled p = false /\ same_table p p1))
    as (p1 & -> & Hs1 & Ht1).
  { destruct (port_is_enabled p) eqn:E.
    - destruct (port_disable_eq p Hwf) as (p1 & -> & ? & ?).
      exists p1. split; [done|]. split; [done|]. by left.
    - exists p. split; [done|]. split; [done|]. by right. }
  cbn [mbind res_bind]. destruct (next_io io) as [ok io']. cbn [mbind res_bind].
  destruct (quiet_port_initialize ok p1) as [Hq Hqs]. set (p2 := port_initialize ok p1) in *.
  assert (Ht2 : emptied p p2 \/ port_is_enabled p = false /\ same_table p p2).
  { destruct Ht1 as [He|[He Ht]]; [left; by eapply emptied_trans|right].
    split; [done|by etrans]. }
  assert (Hm : machine p2 = machine p).
  { by destruct Ht2 as [[[=] _ _ _]|[_ [[=] _ _ _]]]. }
  rewrite Hm.
  assert (Hst : machine p PS_INITIALIZING (if ok then EV_INIT_COMPLETE else EV_FAULT_DETECTED) false =
      PS_FAULTY \/ machine p PS_INITIALIZING (if ok then EV_INIT_COMPLETE else EV_FAULT_DETECTED) false
      = machine p PS_INITIALIZING EV_INIT_COMPLETE false).
  { destruct ok; [by right|left; apply fsm_init_fault]. }
  case_decide as Hsame; eexists _, _, _; (split; [reflexivity|]).
  - split; [intros _; congruence|]. right. split; [done|]. split; [done|]. by rewrite <- Hsame.
  - split; [done|]. right. split; [|by split].
    destruct Ht2 as [[C F B A]|[He [C F B R]]]; [left|right; split; [done|]]; by split.
Qed.

(** ** The invariant *)
Section invariant.
Context {dom : dsptr -> Prop} (cmp : option dsptr -> option dsptr -> Z) `{!DsOrder dom cmp}.

Record port_ok (p : port) : Prop := {
  ok_table : table_wf p;
  ok_machine : BmcFsm (machine p);
  ok_reach : reachable (machine p) (p_state p);
  ok_idle : port_is_enabled p = false -> foreign_masters p = [] /\ p_best p = None;
  ok_bmca : p_bmca p = BMCA_PTP;
  ok_jbod : jbod p = false;
  ok_covered : covered (dom := dom) p (held (foreign_masters p))
}.

(** A port that follows a master has one. *)
Definition served (p : port) : Prop := follows (p_state p) = true -> is_Some (p_best p).

Lemma port_is_enabled_eq p : port_is_enabled p = enabled (p_state p).
Proof. done. Qed.

Lemma reading_config p p' m : config p' = config p -> reading p' m = reading p m.
Proof. intros [= Hi Hl _]. unfold reading, announce_to_dataset. by rewrite Hi, Hl. Qed.

Lemma covered_config p p' ms ms' :
  config p' = config p -> (forall m, m ∈ ms' -> m ∈ ms) ->
  covered (dom := dom) p ms -> covered (dom := dom) p' ms'.
Proof. intros C Hin Hc m Hm. rewrite (reading_config p p' m C). by apply Hc, Hin. Qed.

(** A new state, on the same table or on an empty one *)
Lemma port_ok_same p p' :
  port_ok p -> same_table p p' -> reachable (machine p) (p_state p') ->
  (enabled (p_state p') = false -> enabled (p_state p) = false) -> port_ok p'.
Proof.
  intros [[H1 H2 H3] Hm _ Hi Hb Hj Hc] [C F B _] Hr' He. pose proof C as C'. injection C' as _ _ _ E1 E2 E3.
  split; [split; by rewrite ?F, ?B|by rewrite E2|by rewrite E2| |congruence|congruence|].
  - rewrite port_is_enabled_eq, F, B. auto.
  - rewrite F. by eapply covered_config.
Qed.

Lemma port_ok_emptied p p' :
  port_ok p -> emptied p p' -> reachable (machine p) (p_state p') -> port_ok p'.
Proof.
  intros [_ Hm _ _ Hb Hj _] He Hr'. pose proof (emptied_wf _ _ He). destruct He as [C F B _].
  pose proof C as C'. injection C' as _ _ _ E1 E2 E3.
  split; [done|by rewrite E2|by rewrite E2|done|congruence|congruence|].
  rewrite F. intros m Hin. by apply elem_of_nil in Hin.
Qed.

Lemma emptied_idle p p' :
  emptied p p' -> foreign_masters p = [] /\ p_best p = None -> same_table p p'.
Proof. intros [C F B A] [F' B']. split; [congruence..|done]. Qed.

Lemma idle_emptied p p' :
  port_ok p -> enabled (p_state p) = false -> same_table p p' -> emptied p p'.
Proof.
  intros Hok Hdis [C F B A]. destruct (ok_idle p Hok Hdis) as [F0 B0]. split; [congruence..|done].
Qed.

(** What [bc_dispatch] makes of a port *)
Record dispatched (p p' : port) (e : fsm_event) (d : bool) : Prop := {
  di_ok : port_ok p';
  di_config : config p' = config p;
  di_follows : follows (p_state p') = true ->
    same_table p p' /\ p_state p' = machine p (p_state p) e d;
  di_decision : is_decision e = true -> same_table p p';
  di_table : if enabled (machine p (p_state p) e d) then same_table p p' else emptied p p';
  di_enabled : enabled (machine p (p_state p) e d) = true -> p_state p' = machine p (p_state p) e d
}.

(** The transition after an update of the state *)
Lemma transition_table q :
  table_wf q -> p_state q <> PS_INITIALIZING ->
  exists q', port_transition q = Ret q' /\ p_state q' = p_state q /\
    (emptied q q' /\ follows (p_state q) = false /\ enabled (p_state q) = false \/
     same_table q q' /\ enabled (p_state q) = true).
Proof.
  intros Hwf Hi. destruct (port_transition_eq q Hwf) as (q' & -> & Hs & Ht).
  exists q'. split; [done|]. split; [done|]. destruct (p_state q); by auto.
Qed.

Lemma dispatched_same p q p' e d :
  port_ok p -> same_table p q -> p_state q = machine p (p_state p) e d ->
  p_state q <> PS_INITIALIZING -> p_state p' = p_state q ->
  (emptied q p' /\ follows (p_state q) = false /\ enabled (p_state q) = false \/
   same_table q p' /\ (enabled (p_state q) = true \/ p_state q = p_state p)) ->
  dispatched p p' e d.
Proof.
  intros Hok Hq Hst Hi Hs' Ht.
  pose proof (ok_machine p Hok) as Hm. pose proof (ok_reach p Hok) as Hr.
  assert (Hr' : reachable (machine p) (p_state p')).
  { rewrite Hs', Hst. by constructor. }
  destruct Ht as [(He & Hf & Hen)|[Hsame Hen]].
  - assert (Hep : emptied p p').
    { by eapply emptied_after. }
    split.
    + by eapply port_ok_emptied.
    + by apply Hep.
    + rewrite Hs', Hf. done.
    + intros Hd. rewrite Hst, (bmc_enabled (p_state p) e d Hd) in Hen.
      apply emptied_idle; [done|]. by apply (ok_idle p Hok).
    + by rewrite <- Hst, Hen.
    + intros _. by rewrite Hs'.
  - assert (Hpp : same_table p p') by (by etrans). split; [|by apply Hpp| | | |intros _; by rewrite Hs'].
    + eapply port_ok_same; [done|done|done|]. rewrite Hs'. intros Hdis.
      destruct Hen as [Hen|Hen]; [by rewrite Hen in Hdis|by rewrite <- Hen].
    + intros _. split; [done|]. by rewrite Hs'.
    + done.
    + rewrite <- Hst. destruct (enabled (p_state q)) eqn:Eq; [done|].
      apply idle_emptied; [done| |done]. destruct Hen as [Hen|Hen]; [done|by rewrite <- Hen].
Qed.

Lemma dispatched_emptied p q p' e d :
  port_ok p -> emptied p q \/ port_is_enabled p = false /\ same_table p q ->
  enabled (machine p (p_state p) e d) = false ->
  p_state q = PS_FAULTY \/ p_state q = machine p PS_INITIALIZING EV_INIT_COMPLETE false ->
  p_state p' = p_state q -> (emptied q p' \/ same_table q p') ->
  dispatched p p' e d.
Proof.
  intros Hok Hq Hen Hst Hs' Ht.
  pose proof (ok_machine p Hok) as Hm. pose proof (ok_reach p Hok) as Hr.
  assert (Hep : emptied p q).
  { destruct Hq as [|[Hdis Hsame]]; [done|]. by apply idle_emptied. }
  assert (Hep' : emptied p p').
  { destruct Ht as [He|Hsame]; [by eapply emptied_twice|by eapply emptied_trans]. }
  assert (Hr' : reachable (machine p) (p_state p')).
  { rewrite Hs'. destruct Hst as [-> | ->].
    - rewrite <- (fsm_init_fault (fsm := machine p) false). repeat constructor.
    - repeat constructor. }
  split.
  - by eapply port_ok_emptied.
  - by apply Hep'.
  - rewrite Hs'. destruct Hst as [-> | ->]; [done|]. by rewrite bmc_init.
  - intros Hd. rewrite (bmc_enabled (p_state p) e d Hd) in Hen.
    apply emptied_idle; [done|]. by apply (ok_idle p Hok).
  - by rewrite Hen.
  - by rewrite Hen.
Qed.

Lemma bc_dispatch_ok p e d io :
  port_ok p -> exists p' io', bc_dispatch p e d io = Ret (p', io') /\ dispatched p p' e d.
Proof.
  intros Hok. pose proof (ok_machine p Hok) as Hm. pose proof (ok_table p Hok) as Hw.
  destruct (port_state_update_eq p e d io Hw _) as (q & io' & ch & E & Hch & Hcase).
  assert (Hq : table_wf q /\ p_state q <> PS_INITIALIZING /\ config q = config p).
  { destruct Hcase as [(Ht & Hs & Hi)|(Ht & _ & Hs)].
    - split; [by eapply same_table_wf|]. split; [done|apply Ht].
    - split; [|split; [|by destruct Ht as [Ht|[_ Ht]]; apply Ht]].
      + destruct Ht as [Ht|[_ Ht]]; [by eapply emptied_wf|by eapply same_table_wf].
      + destruct Hs as [-> | ->]; [done|]. by apply fsm_init_complete. }
  destruct Hq as (Hqw & Hqi & Hqc).
  assert (Hqj : jbod q = false).
  { injection Hqc as _ _ _ _ _ ->. by apply ok_jbod. }
  assert (Hfin : forall p', p_state p' = p_state q ->
    (emptied q p' /\ follows (p_state q) = false /\ enabled (p_state q) = false \/
     same_table q p' /\ (enabled (p_state q) = true \/ p_state q = p_state p)) ->
    dispatched p p' e d).
  { intros p' Hs' Ht. destruct Hcase as [(Htq & Hs & Hi)|(Htq & Hen & Hs)].
    - by eapply dispatched_same.
    - eapply dispatched_emptied; [done..|]. by destruct Ht as [[? _]|[? _]]; [left|right]. }
  unfold bc_dispatch. cbn [bc_dispatch_loop]. rewrite E. cbn [mbind res_bind].
  destruct ch.
  - destruct (transition_table q Hqw Hqi) as (p' & Et & Hs' & Ht). unfold port_transition in Et.
    rewrite Et. cbn [mbind res_bind].
    assert (jbod p' = false) as ->.
    { destruct Ht as [[[[=] _ _ _] _]|[[[=] _ _ _] _]]; congruence. }
    cbn [andb]. exists p', io'. split; [done|]. apply Hfin; [done|].
    destruct Ht as [Ht|[Ht1 Ht2]]; [by left|right; split; [done|by left]].
  - exists q, io'. split; [done|]. apply Hfin; [done|]. right. split; [done|]. right. by apply Hch.
Qed.

(** ** Announce messages and the other events *)

(** The table seen from outside: the clocks it knows, the latest first, and
    the messages that were taken in *)
Record directory := Directory { known : list PortIdentity; taken : list announce }.

(** The table holds what the directory says. *)
Record table_is (p : port) (s : directory) : Prop := {
  impl_wf : table_wf p;
  impl_known : senders (foreign_masters p) = known s;
  impl_taken : accounted p (taken s)
}.

(** The first message of a clock only makes it known, see 9.5.3(b) *)
Definition hear (alloc : bool) (m : announce) (s : directory) : directory :=
  let from := sourcePortIdentity m in
  if decide (from ∈ known s) then Directory (known s) (m :: taken s)
  else if alloc then Directory (from :: known s) (taken s)
  else s.

Lemma same_table_is p p' s : same_table p p' -> table_is p s -> table_is p' s.
Proof.
  intros Ht [Hw Hk Ha]. split; [by eapply same_table_wf| |by apply (st_accounted _ _ Ht)].
  by rewrite (st_foreign _ _ Ht).
Qed.

Lemma emptied_is p p' s : emptied p p' -> table_is p s -> table_is p' (Directory [] (taken s)).
Proof.
  intros He [Hw Hk Ha]. split; [by eapply emptied_wf| |by apply (em_accounted _ _ He)].
  by rewrite (em_foreign _ _ He).
Qed.

(** [p'] is [p] but for its timers and a table with other messages in it, of
    which only those of [ms] are new; [f] tells what became of the table. *)
Record retabled (p p' : port) (ms : list announce) (f : directory -> directory) : Prop := {
  re_config : config p' = config p;
  re_state : p_state p' = p_state p;
  re_table : table_wf p';
  re_best : p_best p' = p_best p;
  re_held : forall m, m ∈ held (foreign_masters p') -> m ∈ ms \/ m ∈ held (foreign_masters p);
  re_is s : table_is p s -> table_is p' (f s)
}.

Lemma retabled_ok p p' ms f :
  port_ok p -> retabled p p' ms f -> covered (dom := dom) p ms ->
  enabled (p_state p) = true \/ (forall s, known (f s) = known s) -> port_ok p'.
Proof.
  intros [Ht0 Hm Hr Hi Hb Hj Hc] [C Hs Ht Hbest Hh His] Hms Hen.
  pose proof C as C'. injection C' as _ _ _ E1 E2 E3.
  split; [done|by rewrite E2|by rewrite E2, Hs| |congruence|congruence|].
  - rewrite port_is_enabled_eq, Hs. intros Hdis. destruct Hen as [Hen|Hf]; [congruence|].
    destruct (Hi Hdis) as [F B]. split; [|congruence].
    destruct (His (Directory [] (held (foreign_masters p) ++ released p))) as [_ Hk _].
    { split; [done|by rewrite F|]. unfold accounted. done. }
    rewrite Hf in Hk. by eapply fmap_nil_inv, Hk.
  - intros m Hin. rewrite (reading_config p p' m C).
    destruct (Hh m Hin) as [?|?]; [by apply Hms|by apply Hc].
Qed.

Lemma quiet_retabled p p1 p2 ms f : quiet p p1 -> retabled p1 p2 ms f -> retabled p p2 ms f.
Proof.
  intros [Hq S'] [C S T B H Hi]. pose proof Hq as [C' F' B' A'].
  split; [congruence..|done|congruence| |].
  - intros m. rewrite <- F'. apply H.
  - intros s Hs. by eapply Hi, same_table_is.
Qed.

Lemma add_foreign_master_retabled now alloc p m :
  table_wf p -> pid_wf (sourcePortIdentity m) ->
  exists p' changed, add_foreign_master now alloc p m = Ret (p', changed) /\
    retabled p p' [m] (hear alloc m).
Proof.
  intros Hwf Hm. destruct (add_foreign_master_eq now alloc p m Hwf Hm) as (p' & changed & E & Hwf' & Hacc).
  destruct (add_foreign_master_senders _ _ _ _ _ _ Hwf Hm E) as (_ & _ & Hsend).
  exists p', changed. split; [done|].
  assert (His : forall s, table_is p s -> table_is p' (hear alloc m s)).
  { intros s [_ Hk Ha]. specialize (Hacc _ Ha). rewrite Hk in Hsend, Hacc. unfold hear.
    destruct (decide (sourcePortIdentity m ∈ known s)), alloc; by split. }
  clear Hacc Hsend. revert E. unfold add_foreign_master. destruct Hwf as [Hfc _ _].
  destruct (add_to_list_eq now m (foreign_masters p) Hfc Hm)
    as [[-> Hnin]|(l1 & fc & l2 & put & El & Hs & E & ->)]; cbn [mbind res_bind].
  - destruct alloc; intros [= <- _]; split; try done; intros m'; cbn;
      rewrite ?app_nil_l; by right.
  - intros [= <- _]. split; try done. intros m'.
    cbn [put_messages set_foreign_masters foreign_masters]. rewrite El, !held_app, !held_cons.
    cbn [received with_messages fst messages]. rewrite E at 2. set_solver.
Qed.

(** The record that [p->best] points to *)
Lemma find_foreign_some s l fc :
  find_foreign s l = Some fc -> fc ∈ l /\ sender (fc_dataset fc) = s.
Proof.
  unfold find_foreign. destruct (list_find _ l) as [[i x]|] eqn:E; [|done].
  intros [= <-]. apply list_find_Some in E as (Hi & Hs & _). split; [|done].
  by eapply list_elem_of_lookup_2.
Qed.

Lemma find_foreign_in s l : s ∈ senders l -> exists fc, find_foreign s l = Some fc.
Proof.
  intros (fc & -> & Hin)%list_elem_of_fmap. unfold find_foreign.
  destruct (list_find_elem_of (fun x => sender (fc_dataset x) = sender (fc_dataset fc)) l fc Hin eq_refl)
    as [[i x] ->]. by exists x.
Qed.

Lemma best_record_eq p :
  table_wf p ->
  exists best, best_record p = Ret best /\ (p_best p = fc ← best; Some (sender (fc_dataset fc))) /\
    forall fc, best = Some fc ->
      fc_wf fc /\ find_foreign (sender (fc_dataset fc)) (foreign_masters p) = Some fc.
Proof.
  intros [Hfc _ Hb]. unfold best_record. destruct (p_best p) as [s|]; [|by exists None].
  destruct (find_foreign_in s _ (Hb s eq_refl)) as [fc Hf]. rewrite Hf. exists (Some fc).
  destruct (find_foreign_some _ _ _ Hf) as [Hin Hs]. split; [done|]. rewrite Forall_forall in Hfc.
  split; [simpl; congruence|]. intros ? [= <-]. split; [by apply Hfc|congruence].
Qed.

(** A record changed in place, with the messages [put] in exchange for [new] *)
Lemma update_held s fc0 fc l new put :
  NoDup (senders l) -> find_foreign s l = Some fc0 -> messages fc ++ put ≡ₚ new ++ messages fc0 ->
  held ((fun x => if decide (sender (fc_dataset x) = s) then fc else x) <$> l) ++ put ≡ₚ new ++ held l.
Proof.
  intros Hnd Hf Hm. unfold find_foreign in Hf. induction l as [|x l IH]; [done|].
  cbn [senders fmap list_fmap] in Hnd. apply NoDup_cons in Hnd as [Hx Hnd].
  rewrite fmap_cons. cbn [list_find] in Hf. rewrite !held_cons.
  destruct (decide (sender (fc_dataset x) = s)) as [<-|Hne].
  - injection Hf as ->.
    assert ((fun y => if decide (sender (fc_dataset y) = sender (fc_dataset fc0)) then fc else y) <$> l = l) as ->.
    { rewrite <- (list_fmap_id l) at 2. apply Forall_fmap_ext, Forall_forall. intros y Hy.
      case_decide as Ey; [|done]. destruct Hx. rewrite <- Ey.
      by apply (list_elem_of_fmap_2 (fun fc => sender (fc_dataset fc))). }
    rewrite <- app_assoc, (Permutation_app_comm (held l) put), !app_assoc. by rewrite Hm.
  - rewrite <- app_assoc, IH; [solve_Permutation|done|].
    by destruct (list_find _ l) as [[]|].
Qed.

Lemma update_foreign_retabled s fc0 fc p new put :
  table_wf p -> find_foreign s (foreign_masters p) = Some fc0 ->
  fc_wf fc -> sender (fc_dataset fc) = s -> messages fc ++ put ≡ₚ new ++ messages fc0 ->
  retabled p (put_messages put (update_foreign s fc p)) new
    (fun d => Directory (known d) (new ++ taken d)).
Proof.
  intros [Hw1 Hw2 Hw3] Hf Hfc Hs Hmsg. pose proof (update_held s fc0 fc _ new put Hw2 Hf Hmsg) as Hheld.
  assert (Hsend : senders (foreign_masters (update_foreign s fc p)) = senders (foreign_masters p)).
  { cbn [update_foreign set_foreign_masters foreign_masters]. unfold senders.
    rewrite <- list_fmap_compose. apply list_fmap_ext. intros i x _. simpl.
    case_decide; [congruence|done]. }
  assert (Hw : table_wf (put_messages put (update_foreign s fc p))).
  { split; cbn [put_messages p_best foreign_masters]; change (p_best (update_foreign s fc p)) with (p_best p);
      rewrite ?Hsend; [|done|done].
    cbn. apply Forall_fmap. eapply Forall_impl; [exact Hw1|]. intros x Hx. simpl. by case_decide. }
  split; [done|done|done|done| |].
  - intros m Hm. apply elem_of_app. rewrite <- Hheld. apply elem_of_app. by left.
  - intros d [_ Hk Ha]. split; [done| |].
    + cbn [put_messages foreign_masters known]. by rewrite Hsend.
    + unfold accounted in *. cbn [put_messages update_foreign set_foreign_masters foreign_masters released taken].
      rewrite (Permutation_app_comm (released p)), app_assoc, Hheld, <- app_assoc. by rewrite Ha.
Qed.

Lemma retabled_ext p p' ms f g :
  (forall s, table_is p s -> f s = g s) -> retabled p p' ms f -> retabled p p' ms g.
Proof. intros E [C S T B H Hi]. split; [done..|]. intros s Hs. rewrite <- E by done. by apply Hi. Qed.

(** What the prune and the push of [update_current_master] leave *)
Lemma received_retabled fc alloc m put p q now :
  table_wf q -> quiet q p -> fc_wf fc ->
  find_foreign (sender (fc_dataset fc)) (foreign_masters q) = Some fc ->
  messages fc = keep_current now (take 2 (messages fc)) ++ put ->
  sourcePortIdentity m = sender (fc_dataset fc) ->
  retabled q (put_messages (reverse put) (update_foreign (sender (fc_dataset fc)) (received now m fc).1 p))
    [m] (hear alloc m).
Proof.
  intros Hwf Hq Hfc Hf Hput Hm. eapply quiet_retabled; [exact Hq|].
  pose proof (quiet_wf _ _ Hq Hwf) as Hwfp. pose proof Hq as [[_ F _ _] _].
  eapply retabled_ext; [|eapply (update_foreign_retabled _ fc)].
  - intros s [_ Hk _]. cbn. unfold hear. rewrite decide_True; [done|].
    rewrite <- Hk, F, Hm. apply find_foreign_some in Hf as [Hf _].
    by apply (list_elem_of_fmap_2 (fun fc => sender (fc_dataset fc))).
  - done.
  - by rewrite F.
  - by apply received_wf.
  - done.
  - cbn [received with_messages fst messages app]. by rewrite reverse_Permutation, <- Hput.
Qed.

Lemma update_current_master_retabled now alloc p m :
  table_wf p -> pid_wf (sourcePortIdentity m) ->
  exists p' up changed, update_current_master now alloc p m = Ret (p', up, changed) /\
    retabled p p' [m] (hear alloc m).
Proof.
  intros Hwf Hm. unfold update_current_master.
  destruct (best_record_eq p Hwf) as (best & -> & _ & Hbest). cbn [mbind res_bind].
  destruct (msg_source_equal m best) eqn:Heq; cbn [negb].
  - destruct best as [fc|]; [|done]. destruct (Hbest fc eq_refl) as [Hfc Hf].
    apply msg_source_equal_spec in Heq as Em; [|done|by apply fc_pid].
    destruct (fc_prune_eq now fc Hfc) as (put & Eput & ->). cbn [mbind res_bind].
    destruct (push_message m _) as [fc' diff] eqn:Epush. eexists _, _, _. split; [reflexivity|].
    assert (fc' = (received now m fc).1) as ->.
    { unfold push_message in Epush. injection Epush as <- _. unfold received, with_messages.
      cbn [n_messages messages fc_dataset fst]. rewrite wrap_small by
        (pose proof (kept_max now (messages fc)); lia). f_equal. cbn [length]. lia. }
    by apply (received_retabled fc alloc m put).
  - destruct (add_foreign_master_retabled now alloc p m Hwf Hm) as (p' & changed & -> & Hre).
    cbn [mbind res_bind]. by eexists _, _, _.
Qed.

(** The announcements that reach the table *)
Definition heard (max : Z) (p : port) (m : announce) : bool :=
  (announce_stepsRemoved m <? max) && enabled (p_state p).

Lemma process_announce_retabled max now alloc p m :
  table_wf p -> pid_wf (sourcePortIdentity m) ->
  exists p' up changed, process_announce max now alloc p m = Ret (p', up, changed) /\
    if heard max p m then retabled p p' [m] (hear alloc m) else p' = p.
Proof.
  intros Hw Hm. unfold process_announce, heard. rewrite Z.ltb_antisym.
  destruct (max <=? announce_stepsRemoved m); [by eexists _, _, _|].
  destruct (add_foreign_master_retabled now alloc p m Hw Hm) as (pa & cha & -> & Hadd).
  destruct (update_current_master_retabled now alloc p m Hw Hm) as (pu & upu & chu & -> & Hup).
  destruct (p_state p); cbn [negb andb enabled mbind res_bind]; by eexists _, _, _.
Qed.

Lemma process_announce_ok max now alloc p m :
  port_ok p -> served p -> pid_wf (sourcePortIdentity m) -> dom (reading p m) ->
  exists p' up changed, process_announce max now alloc p m = Ret (p', up, changed) /\
    port_ok p' /\ served p' /\ config p' = config p /\ p_state p' = p_state p.
Proof.
  intros Hok Hserved Hm Hdom.
  destruct (process_announce_retabled max now alloc p m (ok_table p Hok) Hm) as (p' & up & ch & -> & Hre).
  eexists _, _, _. split; [reflexivity|]. destruct (heard max p m) eqn:Eh; [|by subst p'].
  apply andb_prop in Eh as [_ Hen].
  split; [|split; [|split; [apply Hre|apply Hre]]].
  - eapply retabled_ok; [done|done| |by left]. by intros m' ->%list_elem_of_singleton.
  - intros Hf. rewrite (re_best _ _ _ _ Hre). apply Hserved. by rewrite <- (re_state _ _ _ _ Hre).
Qed.

Lemma quiet_ok p p' : port_ok p -> quiet p p' -> port_ok p'.
Proof.
  intros Hok [Ht Hs]. eapply port_ok_same; [done|done|rewrite Hs; by apply ok_reach|by rewrite Hs].
Qed.

Lemma quiet_served p p' : served p -> quiet p p' -> served p'.
Proof. intros H [[_ _ B] S] Hf. rewrite B. apply H. by rewrite <- S. Qed.

(** The messages of the best master dropped *)
Lemma clear_best_retabled p :
  table_wf p -> exists p', clear_best p = Ret p' /\ retabled p p' [] id.
Proof.
  intros Hw. unfold clear_best. destruct (best_record_eq p Hw) as ([fc|] & -> & _ & Hbest); cbn [mbind res_bind].
  2: { exists p. split; [done|]. split; try done. by right. }
  destruct (Hbest fc eq_refl) as [Hfc Hf]. rewrite fc_clear_eq by done. cbn [mbind res_bind].
  eexists. split; [reflexivity|]. cbn [with_messages fc_dataset]. fold (with_messages fc []).
  eapply retabled_ext; [|eapply (update_foreign_retabled _ fc)]; try done.
  - by intros [].
  - apply with_messages_wf; [done|]. apply prefix_nil.
  - cbn. by rewrite reverse_Permutation.
Qed.

Lemma receipt_timeout_retabled so now p io :
  table_wf p ->
  exists p' io' e, receipt_timeout so now p io = Ret (p', io', e) /\
    (exists p1, retabled p p1 [] id /\ quiet p1 p') /\
    (e = EV_FAULT_DETECTED \/ e = EV_NONE \/ e = EV_ANNOUNCE_RECEIPT_TIMEOUT_EXPIRES).
Proof.
  intros Hw. unfold receipt_timeout. destruct (clear_best_retabled p Hw) as (p1 & -> & Hre).
  cbn [mbind res_bind]. cbv zeta.
  set (p2 := match p_bmca p1 with BMCA_NOOP => _ | BMCA_PTP => _ end).
  assert (Hq2 : quiet p1 p2) by (unfold p2; destruct (p_bmca p1); quiet_chain).
  set (p3 := if inhibit_announce p2 then _ else _).
  assert (Hq3 : quiet p1 p3) by (etrans; [done|]; unfold p3; destruct (inhibit_announce p2); done).
  set (p4 := delay_req_prune now p3).
  assert (Hq4 : quiet p1 p4) by (etrans; [done|]; apply quiet_delay_req_prune).
  clearbody p4. destruct (if so && _ then _ else _) as [ok io'].
  assert (Hfin : exists q, retabled p q [] id /\ quiet q p4) by by exists p1.
  destruct (negb ok); [|destruct (inhibit_announce p4)]; eexists _, _, _; (split; [reflexivity|]); auto 10.
Qed.

Lemma receipt_timeout_ok so now p io :
  port_ok p -> served p ->
  exists p' io' e, receipt_timeout so now p io = Ret (p', io', e) /\
    port_ok p' /\ served p' /\ config p' = config p /\ p_state p' = p_state p /\
    (e = EV_FAULT_DETECTED \/ e = EV_NONE \/ e = EV_ANNOUNCE_RECEIPT_TIMEOUT_EXPIRES).
Proof.
  intros Hok Hserved.
  destruct (receipt_timeout_retabled so now p io (ok_table p Hok)) as (p' & io' & e & -> & Hp' & He).
  eexists _, _, _. split; [reflexivity|]. destruct Hp' as (p1 & Hre & Hq).
  assert (Hok1 : port_ok p1).
  { eapply retabled_ok; [done|done|by intros m ?%elem_of_nil|by right]. }
  assert (Hs1 : served p1).
  { intros Hf. rewrite (re_best _ _ _ _ Hre). apply Hserved. by rewrite <- (re_state _ _ _ _ Hre). }
  split; [by eapply quiet_ok|]. split; [by eapply quiet_served|].
  destruct Hre as [C1 S1 _ _ _ _], Hq as [[C _ _ _] S]. split; [congruence|]. split; [congruence|done].
Qed.

(** The events other than the decisions to follow *)
Definition not_follow (e : fsm_event) : Prop := e <> EV_RS_SLAVE /\ e <> EV_RS_PASSIVE.

(** What the rest of an invariant needs of a port before and after an event *)
Record port_step (p p' : port) : Prop := {
  ps_ok : port_ok p';
  ps_served : served p';
  ps_config : config p' = config p;
  ps_slave : is_slave (p_state p') = true -> is_slave (p_state p) = true
}.

Lemma port_step_trans p1 p2 p3 : port_step p1 p2 -> port_step p2 p3 -> port_step p1 p3.
Proof. intros [] []. split; [done|done|congruence|auto]. Qed.

Lemma quiet_step p p' : port_ok p -> served p -> quiet p p' -> port_step p p'.
Proof.
  intros Hok Hs Hq. split; [by eapply quiet_ok|by eapply quiet_served|apply Hq|].
  destruct Hq as [_ ->]. done.
Qed.

Lemma dispatch_step p e d io :
  port_ok p -> served p -> not_follow e ->
  exists p' io', bc_dispatch p e d io = Ret (p', io') /\ port_step p p'.
Proof.
  intros Hok Hserved [He1 He2]. pose proof (ok_machine p Hok).
  destruct (bc_dispatch_ok p e d io Hok) as (p' & io' & E & [Hok' Hc Hf _ _]).
  exists p', io'. split; [done|].
  assert (Hfs : forall s, is_slave s = true -> follows s = true) by by intros [].
  split; [done| |done|].
  - intros Hfol. destruct (Hf Hfol) as [[_ _ B] Hs]. rewrite Hs in Hfol. rewrite B.
    apply bmc_enter in Hfol as [->|[->|Hp]]; [done|done|by apply Hserved].
  - intros Hsl. destruct (Hf (Hfs _ Hsl)) as [_ Hs]. rewrite Hs in Hsl.
    by apply bmc_slave in Hsl as [->|[? _]].
Qed.

Lemma port_synchronize_ok st p io :
  port_ok p -> served p ->
  exists p' io', port_synchronize st p io = Ret (p', io') /\ port_step p p'.
Proof.
  intros Hok Hs. unfold port_synchronize. set (p1 := port_set_sync_rx_tmo p).
  assert (Hq : port_step p p1) by by apply quiet_step.
  assert (Hd : forall e, not_follow e -> exists p' io', bc_dispatch p1 e false io = Ret (p', io') /\
    port_step p p').
  { intros e He. destruct (dispatch_step p1 e false io) as (p' & io' & E & H);
      [apply Hq|apply Hq|done|]. exists p', io'. split; [done|]. by eapply port_step_trans. }
  destruct st; try by apply Hd.
  - destruct (Hd EV_SYNCHRONIZATION_FAULT) as (p' & io' & -> & Hst); [done|]. cbn [mbind res_bind].
    eexists _, _. split; [reflexivity|]. eapply port_step_trans; [exact Hst|].
    apply quiet_step; [apply Hst|apply Hst|done].
  - by eexists _, _.
Qed.

(** Announcements come from other ports, with datasets that can be compared. *)
Definition input_ok (p : port) (i : port_input) : Prop :=
  match i with
  | InAnnounce _ _ m => pid_wf (sourcePortIdentity m) /\ dom (reading p m)
  | _ => True
  end.

Lemma bc_event_ok so max p i io :
  port_ok p -> served p -> input_ok p i ->
  exists p' io' up e, bc_event so max p i io = Ret (p', io', up, e) /\ port_step p p' /\ not_follow e.
Proof.
  intros Hok Hs Hi. destruct i as [now| |now alloc m|st|e]; cbn [bc_event].
  - destruct (receipt_timeout_ok so now p io Hok Hs) as (p' & io' & e & -> & H1 & H2 & H3 & H4 & He).
    cbn [mbind res_bind]. eexists _, _, _, _. split; [reflexivity|]. split.
    + split; [done|done|done|by rewrite H4].
    + by destruct He as [->|[->| ->]].
  - eexists _, _, _, _. split; [reflexivity|]. split; [by apply quiet_step|done].
  - destruct Hi as [Hm Hd].
    destruct (process_announce_ok max now alloc p m Hok Hs Hm Hd)
      as (p' & up & ch & -> & H1 & H2 & H3 & H4).
    cbn [mbind res_bind]. eexists _, _, _, _. split; [reflexivity|]. split.
    + split; [done|done|done|by rewrite H4].
    + by destruct ch.
  - destruct (port_synchronize_ok st p io Hok Hs) as (p' & io' & -> & H). cbn [mbind res_bind].
    by eexists _, _, _, _.
  - eexists _, _, _, _. split; [reflexivity|]. split; [by apply quiet_step|by destruct e].
Qed.

(** ** Computing the best master *)
Lemma port_ok_candidate now p fc :
  port_ok p -> fc ∈ foreign_masters p -> candidate now fc -> dom (candidate_ptr p fc).
Proof.
  intros Hok Hin Hc. pose proof (table_fc p (ok_table p Hok)) as Hall. rewrite Forall_forall in Hall.
  destruct (candidate_reading now p fc (Hall _ Hin) Hc) as (m & Hm & ->).
  apply (ok_covered p Hok). by eapply held_elem.
Qed.

Lemma port_compute_best_ok now p :
  port_ok p ->
  exists p' best, port_compute_best cmp now p = Ret (p', best) /\
    port_ok p' /\ config p' = config p /\ p_state p' = p_state p /\
    best = (p_best p' ≫= fun s => find_foreign s (foreign_masters p')) /\
    (best = None -> p_best p' = None) /\
    (forall b, best = Some b -> p_best p' = Some (sender (fc_dataset b)) /\
       length (messages b) = 2%nat /\ dom (fc_ptr (portIdentity p') b)) /\
    (forall fc, fc ∈ foreign_masters p -> master_only p = false -> candidate now fc ->
       beats cmp p best (candidate_ptr p fc)).
Proof.
  intros Hok. pose proof (ok_table p Hok) as Hw.
  destruct (port_compute_best_eq cmp now p Hw (fun fc => port_ok_candidate now p fc Hok)) as (p' & best & E & Hw' & Hsend & _ & Hbest & Hpost).
  exists p', best. split; [done|].
  assert (Hfr : config p' = config p /\ p_state p' = p_state p).
  { revert E. unfold port_compute_best. destruct (master_only p); [by intros [= <- _]|].
    destruct (best_loop _ _ _ _ _) as [[[l ms] b]| | |]; cbn [mbind res_bind]; [|done..].
    by intros [= <- _]. }
  destruct Hfr as [Hc Hs].
  assert (Hheld : forall m, m ∈ held (foreign_masters p') -> m ∈ held (foreign_masters p)).
  { revert E Hpost. unfold port_compute_best. destruct (master_only p); [by intros [= <- _]|].
    intros _ [put Hp] m Hm. rewrite <- (bp_held _ _ _ _ _ _ _ _ Hp). set_solver. }
  split; [|split; [done|split; [done|split; [done|]]]].
  - destruct Hok as [_ Hm Hr Hi Hb Hj Hcov]. pose proof Hc as C'. injection C' as _ _ _ E1 E2 E3.
    split; [done|by rewrite E2|by rewrite E2, Hs| |congruence|congruence|].
    + rewrite port_is_enabled_eq, Hs. intros Hdis. destruct (Hi Hdis) as [F _].
      assert (F' : foreign_masters p' = []).
      { apply (fmap_nil_inv (fun fc => sender (fc_dataset fc))).
        change (senders (foreign_masters p') = []). by rewrite Hsend, F. }
      split; [done|]. destruct (p_best p') as [s|] eqn:Eb; [|done].
      apply (table_best p' Hw') in Eb. by rewrite F' in Eb; apply elem_of_nil in Eb.
    + by eapply covered_config.
  - pose proof Hc as C'. injection C' as Eid _ _ _ _ _. split; [|split].
    + intros ->. destruct (p_best p') as [s|] eqn:Eb; [|done]. simpl in Hbest.
      destruct (find_foreign_in s _ (table_best p' Hw' s Eb)) as [fc Hf]. by rewrite Hf in Hbest.
    + intros b ->. destruct (p_best p') as [s|]; [|done]. simpl in Hbest. symmetry in Hbest.
      destruct (find_foreign_some _ _ _ Hbest) as [_ ->]. split; [done|].
      destruct (master_only p); [done|]. destruct Hpost as [put Hp].
      rewrite Eid. split; [|by apply (bp_dom _ _ _ _ _ _ _ _ Hp)].
      by destruct (bp_from _ _ _ _ _ _ _ _ Hp) as [[=]|(? & ? & [= <-] & _ & ? & _)].
    + intros fc Hin Hmo Hcd. rewrite Hmo in Hpost. destruct Hpost as [put Hp].
      by apply (bp_all _ _ _ _ _ _ _ _ Hp).
Qed.

(** ** The life of the table of foreign masters *)

(** What the clock has a port do: report an event, compute its best master,
    and change its state *)
Inductive port_op :=
  | Polled (i : port_input) (io : list bool)
  | Computed (now : Z)
  | Dispatched (e : fsm_event) (d : bool) (io : list bool).

Definition port_exec (so : bool) (max : Z) (p : port) (op : port_op) : res port :=
  match op with
  | Polled i io => '(p, _, _, _) ← bc_event so max p i io; Ret p
  | Computed now => '(p, _) ← port_compute_best cmp now p; Ret p
  | Dispatched e d io => '(p, _) ← bc_dispatch p e d io; Ret p
  end.

(** A port that is disabled, failed or initialized anew forgets its clocks. *)
Definition forget (p : port) (e : fsm_event) (d : bool) (s : directory) : directory :=
  if enabled (machine p (p_state p) e d) then s else Directory [] (taken s).

Definition directory_step (max : Z) (p : port) (op : port_op) (s : directory) : directory :=
  match op with
  | Polled (InAnnounce _ alloc m) _ => if heard max p m then hear alloc m s else s
  | Polled (InSync (SERVO_UNLOCKED | SERVO_JUMP)) _ => forget p EV_SYNCHRONIZATION_FAULT false s
  | Polled (InSync SERVO_LOCKED) _ => forget p EV_MASTER_CLOCK_SELECTED false s
  | Dispatched e d _ => forget p e d s
  | _ => s
  end.

(** The port, and the directory kept alongside *)
Fixpoint port_life (so : bool) (max : Z) (p : port) (s : directory) (ops : list port_op)
    : res (port * directory) :=
  match ops with
  | [] => Ret (p, s)
  | op :: ops =>
      p' ← port_exec so max p op;
      port_life so max p' (directory_step max p op s) ops
  end.

Definition op_ok (p : port) (op : port_op) : Prop :=
  match op with Polled i _ => input_ok p i | _ => True end.

(** What one operation leaves *)
Record lived (p p' : port) (s : directory) : Prop := {
  lv_ok : port_ok p';
  lv_config : config p' = config p;
  lv_is : table_is p' s
}.

Lemma lived_quiet p p1 p2 s : lived p p1 s -> quiet p1 p2 -> lived p p2 s.
Proof.
  intros [Hok C Hi] Hq. split; [by eapply quiet_ok| |by eapply same_table_is; [apply Hq|]].
  destruct Hq as [[C' _ _ _] _]. congruence.
Qed.

Lemma dispatched_lived p p' e d s :
  table_is p s -> dispatched p p' e d -> lived p p' (forget p e d s).
Proof.
  intros Hs [Hok C _ _ Ht _]. split; [done|done|]. unfold forget.
  destruct (enabled (machine p (p_state p) e d)); [by eapply same_table_is|by eapply emptied_is].
Qed.

Lemma retabled_lived p p' ms f s :
  port_ok p -> table_is p s -> covered (dom := dom) p ms -> retabled p p' ms f ->
  enabled (p_state p) = true \/ (forall s, known (f s) = known s) -> lived p p' (f s).
Proof.
  intros Hok Hs Hc Hre Hen. split; [by eapply retabled_ok|apply Hre|by apply (re_is _ _ _ _ Hre)].
Qed.

Lemma synchronize_lived st p io s :
  port_ok p -> table_is p s ->
  exists p' io', port_synchronize st p io = Ret (p', io') /\
    lived p p' (directory_step 0 p (Polled (InSync st) io) s).
Proof.
  intros Hok Hs. unfold port_synchronize. set (p1 := port_set_sync_rx_tmo p).
  assert (Hq : quiet p p1) by apply quiet_set_tmo.
  assert (Hd : forall e, exists p' io', bc_dispatch p1 e false io = Ret (p', io') /\
    lived p p' (forget p e false s)).
  { intros e. destruct (bc_dispatch_ok p1 e false io (quiet_ok _ _ Hok Hq)) as (p' & io' & E & Hd).
    exists p', io'. split; [done|].
    destruct (dispatched_lived _ _ _ _ s (same_table_is _ _ s (proj1 Hq) Hs) Hd). by split. }
  destruct st; cbn [directory_step]; try by apply Hd.
  - destruct (Hd EV_SYNCHRONIZATION_FAULT) as (p' & io' & -> & Hl). cbn [mbind res_bind].
    eexists _, _. split; [reflexivity|]. by eapply lived_quiet.
  - eexists _, _. split; [reflexivity|]. eapply lived_quiet; [|exact Hq]. by split.
Qed.

(** One operation, in step with the directory *)
Lemma port_exec_lived so max p op s :
  port_ok p -> table_is p s -> op_ok p op ->
  exists p', port_exec so max p op = Ret p' /\ lived p p' (directory_step max p op s).
Proof.
  intros Hok Hs Hop. pose proof (ok_table p Hok) as Hw.
  assert (Hid : lived p p s) by by split.
  destruct op as [[now| |now alloc m|st|e] io|now|e d io]; cbn [port_exec bc_event directory_step].
  - destruct (receipt_timeout_retabled so now p io Hw) as (p' & io' & e & -> & (p1 & Hre & Hq) & _).
    cbn [mbind res_bind]. exists p'. split; [done|]. eapply lived_quiet; [|exact Hq].
    change s with (id s). eapply retabled_lived; [done|done| |done|by right]. by intros m ?%elem_of_nil.
  - by exists p.
  - destruct Hop as [Hm Hdom].
    destruct (process_announce_retabled max now alloc p m Hw Hm) as (p' & up & ch & -> & Hre).
    cbn [mbind res_bind]. exists p'. split; [done|]. destruct (heard max p m) eqn:Eh; [|by subst p'].
    apply andb_prop in Eh as [_ Hen].
    eapply retabled_lived; [done|done| |done|by left]. by intros m' ->%list_elem_of_singleton.
  - destruct (synchronize_lived st p io s Hok Hs) as (p' & io' & -> & Hl). by exists p'.
  - by exists p.
  - destruct (port_compute_best_ok now p Hok) as (p' & best & E & Hok' & C & _).
    destruct (port_compute_best_eq cmp now p Hw (fun fc => port_ok_candidate now p fc Hok))
      as (p2 & best2 & E2 & Hw2 & Hsend & Hacc & _).
    rewrite E in E2. injection E2 as <- <-. rewrite E. exists p'. split; [done|].
    destruct Hs as [_ Hk Ha]. split; [done|done|]. split; [done|by rewrite Hsend|by apply Hacc].
  - destruct (bc_dispatch_ok p e d io Hok) as (p' & io' & -> & Hd). exists p'. split; [done|].
    by apply dispatched_lived.
Qed.

Lemma op_ok_config p p' op : config p' = config p -> op_ok p op -> op_ok p' op.
Proof.
  intros C. destruct op as [i io|now|e d io]; [|done..].
  destruct i; simpl; [done|done| |done|done]. by rewrite (reading_config p p').
Qed.

(** C14. The table of foreign masters over the life of a port that runs the
    best master clock algorithm.  In any order, the port may receive
    announcements, in every state and from every clock, its best master among
    them, with or without memory for a new record; its receipt timer may
    expire; it may synchronize, compute its best master and
    be sent any event, whatever fails when it is initialized.  Then no
    operation faults; the table lists every clock heard from since the port
    last was disabled, failed or initialized, once; every record counts its
    messages, at most three, which come from the clock it is named after; and
    every announcement that a known clock sent to the enabled port, not too
    many steps removed, was taken in, and is held by a record or was given
    back, exactly once. *)
Theorem foreign_masters_life (so : bool) (max : Z) (p : port) (s : directory) (ops : list port_op) :
  port_ok p -> table_is p s -> (forall op, op ∈ ops -> op_ok p op) ->
  exists p' s', port_life so max p s ops = Ret (p', s') /\ port_ok p' /\ table_is p' s'.
Proof.
  revert p s. induction ops as [|op ops IH]; intros p s Hok Hs Hop; [by exists p, s|].
  destruct (port_exec_lived so max p op s Hok Hs) as (p1 & E & [Hok1 C1 Hs1]).
  { apply Hop, list_elem_of_here. }
  cbn [port_life]. rewrite E. cbn [mbind res_bind]. apply IH; [done|done|].
  intros op' Hin. eapply op_ok_config; [exact C1|]. by apply Hop, list_elem_of_further.
Qed.
End invariant.

(** ** At a concrete port *)

(** The port hears two clocks, follows the better one, hears it again, loses
    it and is disabled. *)
Definition sample_life : list port_op :=
  ((fun m => Polled (InAnnounce (host_sec m * NSEC2SEC) true m) []) <$> sample_announces) ++
  [Computed (7 * NSEC2SEC); Dispatched EV_RS_SLAVE true [];
   Polled (InAnnounce (8 * NSEC2SEC) true (sample_announce 2 127 8)) [];
   Polled (InReceiptTimeout (20 * NSEC2SEC)) []].

Lemma sample_port_ok : port_ok (dom := fun d => dataset_wf d.2) sample_port.
Proof.
  split; [split; [by apply Forall_nil|by apply NoDup_nil|done]|exact _| |done|done|done|].
  - change (reachable ptp_fsm (ptp_fsm PS_INITIALIZING EV_INIT_COMPLETE false)). repeat constructor.
  - intros m Hm. by apply elem_of_nil in Hm.
Qed.

Lemma sample_life_ok op :
  op ∈ sample_life -> op_ok (dom := fun d => dataset_wf d.2) sample_port op.
Proof.
  intros Hop. repeat (apply elem_of_cons in Hop as [->|Hop]); [..|by apply elem_of_nil in Hop];
    try done; (split; [by split|split; done]).
Qed.

Lemma sample_port_empty : table_is sample_port (Directory [] []).
Proof. split; [apply sample_port_ok|done|]. unfold accounted. done. Qed.

(** Both clocks are known, five announcements were taken in, and all of the
    best master's were given back. *)
Example sample_life_result :
  match port_life (telecom_dscmp snd) false 255 sample_port (Directory [] []) sample_life with
  | Ret (p, s) => (p_state p, p_best p, known s, msg_id <$> taken s, msg_id <$> released p)
  | _ => (PS_FAULTY, None, [], [], [])
  end = (PS_UNCALIBRATED, Some (sample_pid 2 1), [sample_pid 2 1; sample_pid 1 1],
         [8; 6; 4; 5; 3], [3; 5; 4; 6; 8]).
Proof. vm_compute. reflexivity. Qed.

Lemma foreign_masters_life_witness :
  exists p' s', port_life (telecom_dscmp snd) false 255 sample_port (Directory [] []) sample_life
    = Ret (p', s') /\ table_is p' s'.
Proof.
  destruct (foreign_masters_life (telecom_dscmp snd) (DsOrder0 := sample_order) false 255 sample_port
    (Directory [] []) sample_life sample_port_ok sample_port_empty sample_life_ok)
    as (p' & s' & E & _ & Hs).
  by exists p', s'.
Defined.
