(* ===== verification/PtpClockSpec.v ===== *)
(** * The invariant of a clock (linuxptp-3.1)

    Between any two polls a clock whose ports run the best master clock
    algorithm follows at most one master, through the port that hears the
    best one, and no event makes it use a record that is not there. *)

From S2P Require Import Prelude PtpFsm PtpBmc PtpForeign PtpPort PtpPortSpec PtpClock.

Section clock.
Context {dom : dsptr -> Prop} (cmp : option dsptr -> option dsptr -> Z) `{!DsOrder dom cmp}.

Abbreviation port_ok := (PtpPortSpec.port_ok (dom := dom)).
Abbreviation input_ok := (PtpPortSpec.input_ok (dom := dom)).

(** The port through which the clock follows its master *)
Definition only_best_follows (c : clock) : Prop :=
  forall k p, c_ports c !! k = Some p -> is_slave (p_state p) = true ->
    exists s, c_best c = Some (k, s).

Record clock_ok (c : clock) : Prop := {
  ck_ports : Forall port_ok (c_ports c);
  ck_served : Forall served (c_ports c);
  ck_slave : only_best_follows c
}.

Definition configs (c : clock) := config <$> c_ports c.

Lemma config_at c c' k p :
  configs c' = configs c -> c_ports c' !! k = Some p ->
  exists p0, c_ports c !! k = Some p0 /\ config p = config p0.
Proof.
  unfold configs. intros E Hk. assert (H : (config <$> c_ports c') !! k = Some (config p)).
  { by rewrite list_lookup_fmap, Hk. }
  rewrite E, list_lookup_fmap in H. destruct (c_ports c !! k) as [p0|]; [|done].
  apply (inj Some) in H. by exists p0.
Qed.

Lemma input_ok_config p p' i : config p' = config p -> input_ok p i -> input_ok p' i.
Proof. intros C. destruct i; simpl; [done|done| |done|done]. by rewrite (reading_config p p'). Qed.

(** ** Polling the ports *)
Definition inputs_ok (inputs : list (nat * port_input)) (c : clock) : Prop :=
  forall k i p, (k, i) ∈ inputs -> c_ports c !! k = Some p -> input_ok p i.

Lemma inputs_ok_configs inputs c c' :
  configs c' = configs c -> inputs_ok inputs c -> inputs_ok inputs c'.
Proof.
  intros E H k i p Hin Hk. destruct (config_at c c' k p E Hk) as (p0 & Hk0 & C).
  eapply input_ok_config; [exact C|]. by eapply H.
Qed.

(** Writing a port that took a step back into the clock *)
Lemma clock_ok_step c k p p' :
  clock_ok c -> c_ports c !! k = Some p -> port_step (dom := dom) p p' ->
  clock_ok (set_ports (<[k := p']> (c_ports c)) c) /\
  configs (set_ports (<[k := p']> (c_ports c)) c) = configs c.
Proof.
  intros [Hp Hs Hb] Hk [Hok Hserved Hc Hslave]. split.
  - split; cbn [set_ports c_ports].
    + by apply Forall_insert.
    + by apply Forall_insert.
    + intros j q Hj. cbn [set_ports c_best c_ports] in *.
      destruct (decide (j = k)) as [->|Hne].
      * rewrite list_lookup_insert_eq in Hj by by eapply lookup_lt_Some. injection Hj as <-.
        intros Hq. eapply Hb; [exact Hk|by apply Hslave].
      * rewrite list_lookup_insert_ne in Hj by done. by apply Hb.
  - unfold configs. cbn [set_ports c_ports]. rewrite list_fmap_insert, Hc.
    apply list_insert_id. by rewrite list_lookup_fmap, Hk.
Qed.

(** Changes of the other fields of the clock *)
Record same_ports (c c' : clock) : Prop := {
  sp_ports : c_ports c' = c_ports c;
  sp_best : c_best c' = c_best c;
  sp_id : best_id c' = best_id c;
  sp_dds : dds c' = dds c
}.

Lemma same_ports_ok c c' : same_ports c c' -> clock_ok c -> clock_ok c'.
Proof.
  intros [E1 E2 _ _] [H1 H2 H3]. split; rewrite ?E1; [done|done|].
  intros k p. rewrite E1, E2. apply H3.
Qed.

Lemma apply_update_same up c : same_ports c (apply_update up c).
Proof. unfold apply_update. by destruct (up_path up). Qed.

Lemma poll_port_ok k i c io :
  clock_ok c -> inputs_ok [(k, i)] c ->
  exists c' io', poll_port k i c io = Ret (c', io') /\ clock_ok c' /\
    configs c' = configs c /\ dds c' = dds c.
Proof.
  intros Hc Hi. unfold poll_port. destruct (c_ports c !! k) as [p|] eqn:Hk; [|by eexists _, _].
  pose proof Hc as [Hp Hs _]. rewrite Forall_lookup in Hp, Hs.
  specialize (Hp k p Hk). specialize (Hs k p Hk).
  assert (Hip : input_ok p i) by (eapply Hi; [by apply list_elem_of_here|done]).
  destruct (bc_event_ok (slave_only (dds c)) (max_steps_removed (dds c)) p i io Hp Hs Hip)
    as (p1 & io1 & up & e & -> & Hst1 & He). cbn [mbind res_bind]. cbv zeta.
  destruct (dispatch_step p1 e false io1 (ps_ok _ _ Hst1) (ps_served _ _ Hst1) He)
    as (p2 & io2 & -> & Hst2). cbn [mbind res_bind].
  set (c1 := match e with EV_STATE_DECISION_EVENT | EV_ANNOUNCE_RECEIPT_TIMEOUT_EXPIRES => _ | _ => _ end).
  assert (Hsame : same_ports c c1).
  { pose proof (apply_update_same up c) as [E1 E2 E3 E4]. unfold c1. destruct e; by split. }
  eexists _, _. split; [reflexivity|].
  destruct (clock_ok_step c1 k p p2) as [H1 H2].
  - by eapply same_ports_ok.
  - by rewrite (sp_ports _ _ Hsame).
  - by eapply port_step_trans.
  - split; [done|]. split; [|apply Hsame]. rewrite H2. unfold configs. by rewrite (sp_ports _ _ Hsame).
Qed.

Lemma poll_ports_ok inputs c io :
  clock_ok c -> inputs_ok inputs c ->
  exists c' io', poll_ports inputs c io = Ret (c', io') /\ clock_ok c' /\
    configs c' = configs c /\ dds c' = dds c.
Proof.
  revert c io. induction inputs as [|[k i] inputs IH]; intros c io Hc Hi; [by eexists _, _|].
  cbn [poll_ports]. destruct (poll_port_ok k i c io Hc) as (c1 & io1 & -> & Hc1 & E1 & D1).
  { intros k' i' p Hin. apply list_elem_of_singleton in Hin as [= -> ->]. apply Hi, list_elem_of_here. }
  cbn [mbind res_bind]. destruct (IH c1 io1 Hc1) as (c2 & io2 & E2 & Hc2 & E2' & D2).
  { eapply inputs_ok_configs; [done|]. intros k' i' p Hin. by apply Hi, list_elem_of_further. }
  exists c2, io2. split; [done|]. split; [done|]. split; congruence.
Qed.

(** ** The best master of the clock *)

(** A port after its best master was computed *)
Record computed (now : Z) (p p' : port) : Prop := {
  co_ok : port_ok p';
  co_config : config p' = config p;
  co_state : p_state p' = p_state p;
  co_best : forall s, p_best p' = Some s -> exists fc, find_foreign s (foreign_masters p') = Some fc /\
    length (messages fc) = 2%nat /\ sender (fc_dataset fc) = s /\ dom (fc_ptr (portIdentity p') fc);
  co_all : forall fc, fc ∈ foreign_masters p -> master_only p = false -> candidate now fc ->
    exists s b, p_best p' = Some s /\ find_foreign s (foreign_masters p') = Some b /\
      at_least cmp (Some (fc_ptr (portIdentity p') b)) (Some (candidate_ptr p fc))
}.

Lemma port_compute_best_computed now p :
  port_ok p ->
  exists p' best, port_compute_best cmp now p = Ret (p', best) /\ computed now p p' /\
    best = (p_best p' ≫= fun s => find_foreign s (foreign_masters p')) /\
    (best = None -> p_best p' = None).
Proof.
  intros Hok. destruct (port_compute_best_ok cmp now p Hok)
    as (p' & best & E & Hok' & Hc & Hs & Hb & Hnone & Hsome & Hall).
  exists p', best. split; [done|]. split; [|done]. pose proof Hc as C'. injection C' as Eid _ _ _ _ _.
  split; [done|done|done| |].
  - intros s Es. destruct best as [b|]; [|by rewrite Hnone in Es].
    destruct (Hsome b eq_refl) as (E1 & E2 & E3). rewrite E1 in Es. injection Es as <-.
    exists b. rewrite E1 in Hb. simpl in Hb. by split.
  - intros fc Hin Hmo Hcd. specialize (Hall fc Hin Hmo Hcd). destruct best as [b|]; [|done].
    destruct (Hsome b eq_refl) as (E1 & _ & _). exists (sender (fc_dataset b)), b.
    rewrite E1 in Hb. split; [done|]. split; [done|]. by rewrite Eid.
Qed.

(** [best] points to the best record of a port of [ps], numbered from [k]. *)
Definition best_of (k : nat) (ps : list port) (best : nat * PortIdentity * dsptr) : Prop :=
  exists i p fc, best = ((k + i)%nat, sender (fc_dataset fc), fc_ptr (portIdentity p) fc) /\
    ps !! i = Some p /\ p_best p = Some (sender (fc_dataset fc)) /\
    find_foreign (sender (fc_dataset fc)) (foreign_masters p) = Some fc.

(** [best] ranks at least as high as [x]. *)
Definition tops (best : option (nat * PortIdentity * dsptr)) (x : dsptr) : Prop :=
  match best with Some (_, b) => at_least cmp (Some b) (Some x) | None => False end.

Record selected (k : nat) (best0 : option (nat * PortIdentity * dsptr)) (ps : list port)
    (best : option (nat * PortIdentity * dsptr)) : Prop := {
  se_from : best = best0 \/ exists b, best = Some b /\ best_of k ps b;
  se_first : forall b : nat * PortIdentity * dsptr, best0 = Some b -> tops best b.2;
  se_ports : forall p s fc, p ∈ ps -> p_best p = Some s ->
    find_foreign s (foreign_masters p) = Some fc -> tops best (fc_ptr (portIdentity p) fc)
}.

Lemma tops_trans best (b : nat * PortIdentity * dsptr) x : tops best b.2 -> at_least cmp (Some b.2) (Some x) -> tops best x.
Proof. destruct best as [[? ?]|]; [|done]. simpl. intros H1 H2. by etrans. Qed.

Lemma tops_refl (b : nat * PortIdentity * dsptr) : tops (Some b) b.2.
Proof. destruct b as [[k s] x]. cbn [tops snd]. reflexivity. Qed.

(** The choice between the best so far and the best of one port *)
Definition better_of (b : nat * PortIdentity * dsptr) (best : option (nat * PortIdentity * dsptr)) :=
  match best with
  | None => Some b
  | Some (_, x) => if 0 <? cmp (Some b.2) (Some x) then Some b else best
  end.

Lemma better_of_spec b best :
  dom b.2 -> (forall b, best = Some b -> dom b.2) ->
  (better_of b best = best \/ better_of b best = Some b) /\
  tops (better_of b best) b.2 /\ (forall x, best = Some x -> tops (better_of b best) x.2) /\
  (forall x, better_of b best = Some x -> dom x.2).
Proof.
  intros Hb Hbest. destruct best as [[n x]|]; cbn [better_of].
  2: { split; [by right|]. split; [apply tops_refl|]. split; [done|]. by intros ? [= <-]. }
  specialize (Hbest _ eq_refl). destruct (Z.ltb_spec 0 (cmp (Some b.2) (Some x))) as [Hlt|Hle].
  - split; [by right|]. split; [apply tops_refl|].
    split; [|by intros ? [= <-]]. intros ? [= <-]. destruct b as [m y]. simpl in *. apply at_least_cmp; [done|done|lia].
  - split; [by left|]. split; [|split; [intros ? [= <-]; apply (tops_refl (n, x))|by intros ? [= <-]]].
    simpl in *. apply at_least_cmp; [done|done|]. rewrite (cmp_opp (Some b.2)); [lia|done|done].
Qed.

Lemma selected_cons k p ps best0 best1 best :
  (best1 = best0 \/ exists b, best1 = Some b /\ best_of k (p :: ps) b) ->
  (forall b, best0 = Some b -> tops best1 b.2) ->
  (forall s fc, p_best p = Some s -> find_foreign s (foreign_masters p) = Some fc ->
     tops best1 (fc_ptr (portIdentity p) fc)) ->
  selected (S k) best1 ps best -> selected k best0 (p :: ps) best.
Proof.
  intros Hfrom H0 Hp [S1 S2 S3].
  assert (Hup : forall x, tops best1 x -> tops best x).
  { intros x. destruct best1 as [b|]; [|done]. intros Hx. apply (tops_trans best b); [by apply S2|].
    by destruct b. }
  split.
  - destruct S1 as [->|(b & -> & i & q & fc & -> & Hi & Hq)].
    + destruct Hfrom as [->|Hb]; [by left|by right].
    + right. eexists. split; [done|]. exists (S i), q, fc. split; [|done].
      f_equal. f_equal. lia.
  - intros b Hb. by apply Hup, H0.
  - intros q s fc [->|Hq]%elem_of_cons Hs Hf; [by apply Hup, (Hp s)|by eapply S3].
Qed.

Lemma compute_loop_spec now k ps best0 :
  Forall port_ok ps -> (forall b, best0 = Some b -> dom b.2) ->
  exists ps' best, compute_loop cmp now k ps best0 = Ret (ps', best) /\
    Forall2 (computed now) ps ps' /\ selected k best0 ps' best /\
    (forall b, best = Some b -> dom b.2).
Proof.
  intros Hps. revert k best0. induction Hps as [|p ps Hp Hps IH]; intros k best0 Hd.
  { exists [], best0. split; [done|]. split; [constructor|]. split; [|done].
    split; [by left| |set_solver]. intros b ->. apply tops_refl. }
  cbn [compute_loop].
  destruct (port_compute_best_computed now p Hp) as (p' & fco & -> & Hc & Hb & Hnone). cbn [mbind res_bind].
  set (best1 := match fco with None => best0 | Some fc => _ end).
  assert (H1 : (best1 = best0 \/ exists b, best1 = Some b /\
      forall ps, best_of k (p' :: ps) b) /\
    (forall b, best0 = Some b -> tops best1 b.2) /\
    (forall s fc, p_best p' = Some s -> find_foreign s (foreign_masters p') = Some fc ->
      tops best1 (fc_ptr (portIdentity p') fc)) /\
    (forall b, best1 = Some b -> dom b.2)).
  { destruct fco as [fc|].
    - destruct (p_best p') as [s|] eqn:Es; [|done]. simpl in Hb. symmetry in Hb.
      destruct (co_best _ _ _ Hc s Es) as (fc' & Hf & _ & Hsend & Hdom).
      rewrite Hb in Hf. injection Hf as <-.
      set (b := (k, sender (fc_dataset fc), fc_ptr (portIdentity p') fc)).
      assert (Eb : best1 = better_of b best0) by (destruct best0 as [[? ?]|]; done).
      destruct (better_of_spec b best0 Hdom Hd) as (B1 & B2 & B3 & B4). rewrite Eb.
      split; [|split; [done|split; [|done]]].
      + destruct B1 as [B1|B1]; [by left|right]. exists b. split; [done|]. intros ps'.
        exists 0%nat, p', fc. rewrite Nat.add_0_r. split; [done|]. by rewrite Hsend.
      + intros s' fc' [= <-] Hf'. rewrite Hb in Hf'. injection Hf' as <-. exact B2.
    - specialize (Hnone eq_refl). split; [by left|]. split; [|split; [|done]].
      + intros b E. unfold best1. rewrite E. apply tops_refl.
      + intros s fc Es. by rewrite Hnone in Es. }
  clearbody best1. destruct H1 as (F1 & F2 & F3 & F4).
  destruct (IH (S k) best1 F4) as (ps' & best & -> & Hps' & Hsel & Hd'). cbn [mbind res_bind].
  exists (p' :: ps'), best. split; [done|]. split; [by constructor|].
  split; [|done]. eapply selected_cons; [|done|done|done].
  destruct F1 as [->|(b & -> & Hb1)]; [by left|right]. exists b. by split.
Qed.

(** ** Deciding the states *)

(** The record [c->best] points to *)
Definition points_to (c : clock) (k : nat) (p : port) (fc : foreign_clock) : Prop :=
  exists s, c_best c = Some (k, s) /\ c_ports c !! k = Some p /\ p_best p = Some s /\
    find_foreign s (foreign_masters p) = Some fc /\ length (messages fc) = 2%nat.

(** The clock has a best master, and would not rather be one itself. *)
Definition should_follow (c : clock) (k : nat) (p : port) (fc : foreign_clock) : Prop :=
  points_to c k p fc /\ 127 < clock_class c /\
  cmp (Some (DefaultDS, clock_default_ds c)) (Some (fc_ptr (portIdentity p) fc)) <= 0.

(** The data sets that follow from the latest announcement of a master *)
Record describes (d : time_data) (fc : foreign_clock) (m : announce) : Prop := {
  ds_latest : head (messages fc) = Some m;
  ds_parent : pds d = ParentDS (sender (fc_dataset fc)) (grandmasterPriority1 m)
    (grandmasterClockQuality m) (grandmasterPriority2 m) (grandmasterIdentity m);
  ds_steps : cur_stepsRemoved (cur d) = u16 (1 + stepsRemoved (fc_dataset fc));
  ds_time : tds d = TimeProperties (currentUtcOffset m) (flagField1 m) (timeSource m)
}.

(** While port [k] is decided: the best record stands, the ports before [k]
    are done. *)
Record deciding (k : nat) (c : clock) : Prop := {
  de_ports : Forall port_ok (c_ports c);
  de_best : match c_best c with
    | None => forall p, p ∈ c_ports c -> p_best p = None
    | Some (kb, _) => exists p fc, points_to c kb p fc
    end;
  de_done : forall j p, (j < k)%nat -> c_ports c !! j = Some p ->
    served p /\ (is_slave (p_state p) = true -> exists s, c_best c = Some (j, s));
  de_follow : forall j p fc, (j < k)%nat -> should_follow c j p fc ->
    is_slave (p_state p) = true /\ exists m, describes (c_data c) fc m
}.

Lemma load_best_eq k c :
  deciding k c ->
  (c_best c = None /\ load_best c = Ret None) \/
  exists kb p fc, points_to c kb p fc /\ load_best c = Ret (Some (p, fc)).
Proof.
  intros [_ Hb _ _]. unfold load_best. destruct (c_best c) as [[kb s]|] eqn:E; [|by left].
  right. destruct Hb as (p & fc & s' & Es & Hp & Hbest & Hf & Hl).
  rewrite E in Es. injection Es as <-. exists kb, p, fc. rewrite Hp, Hf. split; [|done]. by exists s.
Qed.

Lemma port_best_foreign_eq r :
  port_ok r ->
  (p_best r = None /\ port_best_foreign r = Ret None) \/
  exists x, is_Some (p_best r) /\ port_best_foreign r = Ret (Some x).
Proof.
  intros Hok. unfold port_best_foreign. destruct (p_best r) as [s|] eqn:E; [right|by left].
  destruct (find_foreign_in s _ (table_best r (ok_table r Hok) s E)) as [fc ->]. by eexists.
Qed.

(** What a decision means *)
Inductive decided (c : clock) (k : nat) (r : port) : port_state -> Prop :=
  | dc_listening : p_state r = PS_LISTENING -> p_best r = None -> decided c k r PS_LISTENING
  | dc_grand_master : (forall kb p fc, ~ should_follow c kb p fc) -> decided c k r PS_GRAND_MASTER
  | dc_passive : is_Some (p_best r) -> (forall p fc, ~ should_follow c k p fc) ->
      decided c k r PS_PASSIVE
  | dc_slave p fc : should_follow c k p fc -> decided c k r PS_SLAVE
  | dc_master : (forall p fc, ~ should_follow c k p fc) -> decided c k r PS_MASTER.

Lemma points_to_fun c k p fc k' p' fc' :
  points_to c k p fc -> points_to c k' p' fc' -> k = k' /\ p = p' /\ fc = fc'.
Proof.
  intros (s & E1 & E2 & _ & E3 & _) (s' & E1' & E2' & _ & E3' & _).
  rewrite E1 in E1'. injection E1' as <- <-. rewrite E2 in E2'. injection E2' as <-.
  rewrite E3 in E3'. by injection E3' as <-.
Qed.

(** The part of the decision that compares the clock with the best master *)
Lemma decision_against_best k c r (x : option dsptr) :
  deciding k c -> 127 < clock_class c -> (is_Some x -> is_Some (p_best r)) ->
  exists ps,
    (clock_best ← clock_best_foreign c;
     if 0 <? cmp (Some (DefaultDS, clock_default_ds c)) clock_best then Ret PS_GRAND_MASTER
     else
       best_port ← clock_best_port c;
       if bool_decide (best_port = Some k) then Ret PS_SLAVE
       else Ret (if cmp clock_best x =? A_BETTER_TOPO then PS_PASSIVE else PS_MASTER)) = Ret ps /\
    decided c k r ps.
Proof.
  intros Hde Hgt Hx. unfold clock_best_foreign, clock_best_port.
  destruct (load_best_eq k c Hde) as [[En ->]|(kb & p & fc & Hpt & ->)]; cbn [mbind res_bind].
  { rewrite cmp_none. eexists. split; [reflexivity|]. apply dc_grand_master.
    intros kb p fc [(s & E & _) _]. congruence. }
  destruct (Z.ltb_spec 0 (cmp (Some (DefaultDS, clock_default_ds c))
    (Some (fc_ptr (portIdentity p) fc)))) as [Hlt|Hle].
  { eexists. split; [reflexivity|]. apply dc_grand_master. intros kb' p' fc' (Hpt' & _ & Hle).
    destruct (points_to_fun _ _ _ _ _ _ _ Hpt Hpt') as (-> & -> & ->). lia. }
  assert (Efst : fst <$> c_best c = Some kb) by (destruct Hpt as (s & -> & _); done). rewrite Efst.
  case_bool_decide as Hk.
  { injection Hk as ->. eexists. split; [reflexivity|]. by apply (dc_slave c k r p fc). }
  assert (Hno : forall p fc, ~ should_follow c k p fc).
  { intros p' fc' [Hpt' _]. destruct (points_to_fun _ _ _ _ _ _ _ Hpt Hpt') as [-> _]. done. }
  eexists. split; [reflexivity|]. destruct x as [x|]; [|rewrite cmp_none; by apply dc_master].
  destruct (_ =? _); [apply dc_passive; [by apply Hx|done]|by apply dc_master].
Qed.

Lemma bmc_state_decision_eq k c r :
  deciding k c -> c_ports c !! k = Some r ->
  exists ps, bmc_state_decision cmp c k r = Ret ps /\ decided c k r ps.
Proof.
  intros Hde Hr. unfold bmc_state_decision. cbv zeta.
  assert (Hok : port_ok r).
  { pose proof (de_ports k c Hde) as H. rewrite Forall_lookup in H. by eapply H. }
  rewrite (ok_bmca r Hok).
  assert (Hlow : clock_class c <= 127 -> forall kb p fc, ~ should_follow c kb p fc).
  { intros Hle kb p fc (_ & Hc & _). lia. }
  destruct (port_best_foreign_eq r Hok) as [[Eb ->]|(x & Hb & ->)]; cbn [mbind res_bind].
  - rewrite bool_decide_true, andb_false_r by done. cbn [andb].
    case_bool_decide as Hl; [eexists; split; [reflexivity|rewrite Hl; by apply dc_listening]|].
    destruct (Z.leb_spec (clock_class c) 127) as [Hle|Hgt].
    + eexists. split; [reflexivity|]. rewrite cmp_none. apply dc_grand_master. auto.
    + apply decision_against_best; [done|done|by intros [? [=]]].
  - rewrite bool_decide_false by done. cbn [andb].
    destruct (Z.leb_spec (clock_class c) 127) as [Hle|Hgt].
    + eexists. split; [reflexivity|].
      destruct (0 <? cmp _ (Some x)); [apply dc_grand_master|apply dc_passive]; auto.
    + by apply decision_against_best.
Qed.

(** The event a decision sends, and what it does to the data sets *)
Record decision_sent (c : clock) (k : nat) (r : port) (c1 : clock) (e : fsm_event) : Prop := {
  sent_same : same_ports c c1;
  sent_decision : is_decision e = true;
  sent_none : e = EV_NONE -> p_state r = PS_LISTENING;
  sent_passive : e = EV_RS_PASSIVE -> is_Some (p_best r);
  sent_slave : e = EV_RS_SLAVE -> exists p fc, should_follow c k p fc;
  sent_follow : forall p fc, should_follow c k p fc ->
    e = EV_RS_SLAVE /\ exists m, describes (c_data c1) fc m;
  sent_other : forall j p fc, should_follow c j p fc -> j <> k -> c_data c1 = c_data c
}.

Lemma clock_update_slave_eq c k p fc :
  points_to c k p fc ->
  exists c1 m, clock_update_slave c = Ret c1 /\ same_ports c c1 /\ describes (c_data c1) fc m.
Proof.
  intros (s & E & Hp & _ & Hf & Hl). unfold clock_update_slave, load_best. rewrite E, Hp, Hf.
  cbn [mbind res_bind]. destruct (messages fc) as [|m ms] eqn:Em; [done|]. cbv zeta.
  eexists _, m. split; [reflexivity|]. split; [done|]. split; [by rewrite Em|done|done|done].
Qed.

Lemma decision_event_eq k c r ps :
  c_ports c !! k = Some r -> decided c k r ps ->
  exists c1 e, decision_event c ps = Ret (c1, e) /\ decision_sent c k r c1 e.
Proof.
  intros Hr Hd. destruct Hd as [Hs Hb|Hno|Hb Hno|p fc Hf|Hno]; cbn [decision_event].
  - eexists _, _. split; [reflexivity|]. split; try done.
    intros p fc [(s & _ & Hp & Hs' & _) _]. congruence.
  - eexists _, _. split; [reflexivity|]. split; try done.
    + intros p fc H. by destruct (Hno k p fc).
    + intros j p fc H. by destruct (Hno j p fc).
  - eexists _, _. split; [reflexivity|]. split; try done. intros p fc H. by destruct (Hno p fc).
  - destruct (clock_update_slave_eq c k p fc (proj1 Hf)) as (c1 & m & -> & Hsame & Hde).
    cbn [mbind res_bind]. eexists _, _. split; [reflexivity|]. split; try done.
    + intros _. by exists p, fc.
    + intros p' fc' Hf'. split; [done|].
      destruct (points_to_fun _ _ _ _ _ _ _ (proj1 Hf) (proj1 Hf')) as (_ & _ & <-). by exists m.
    + intros j p' fc' Hf' Hj. by destruct (points_to_fun _ _ _ _ _ _ _ (proj1 Hf) (proj1 Hf')) as (-> & _).
  - eexists _, _. split; [reflexivity|]. split; try done. intros p fc H. by destruct (Hno p fc).
Qed.

(** The clock after port [k], which had been [r], became [r'] *)
Section decided_port.
Context (k : nat) (c c1 : clock) (r r' : port).
Context (Hr : c_ports c !! k = Some r) (Hsame : same_ports c c1) (Ht : same_table r r').
Let c' := set_ports (<[k := r']> (c_ports c1)) c1.

Lemma decided_lookup j p' :
  c_ports c' !! j = Some p' -> (j = k /\ p' = r') \/ (j <> k /\ c_ports c !! j = Some p').
Proof.
  unfold c'. cbn [set_ports c_ports]. rewrite (sp_ports _ _ Hsame).
  destruct (decide (j = k)) as [->|Hne].
  - rewrite list_lookup_insert_eq by by eapply lookup_lt_Some. intros [= <-]. by left.
  - rewrite list_lookup_insert_ne by done. by right.
Qed.

Lemma decided_at : c_ports c' !! k = Some r'.
Proof.
  unfold c'. cbn [set_ports c_ports]. rewrite (sp_ports _ _ Hsame).
  apply list_lookup_insert_eq. by eapply lookup_lt_Some.
Qed.

Lemma decided_points j p' fc :
  points_to c' j p' fc -> exists p, points_to c j p fc /\ config p' = config p /\
    ((j = k /\ p' = r' /\ p = r) \/ (j <> k /\ p' = p)).
Proof.
  intros (s & E & Hp & Hb & Hf & Hl). unfold c' in E. cbn [set_ports c_best] in E.
  rewrite (sp_best _ _ Hsame) in E. destruct Ht as [C F B].
  destruct (decided_lookup j p' Hp) as [[-> ->]|[Hne Hp']].
  - exists r. split; [|by split; [|left]]. exists s. rewrite F in Hf. rewrite B in Hb. by split.
  - exists p'. split; [|by split; [|right]]. by exists s.
Qed.

Lemma decided_points_to j p fc : points_to c j p fc -> exists p', points_to c' j p' fc.
Proof.
  intros (s & E & Hp & Hb & Hf & Hl). destruct Ht as [C F B].
  assert (E' : c_best c' = Some (j, s)) by (unfold c'; cbn [set_ports c_best]; by rewrite (sp_best _ _ Hsame)).
  destruct (decide (j = k)) as [->|Hne].
  - exists r', s. rewrite Hr in Hp. injection Hp as <-. rewrite decided_at, F, B. by split.
  - exists p, s. split; [done|]. split; [|done]. unfold c'. cbn [set_ports c_ports].
    rewrite (sp_ports _ _ Hsame). by rewrite list_lookup_insert_ne.
Qed.

Lemma decided_follow j p' fc :
  should_follow c' j p' fc -> exists p, should_follow c j p fc /\
    ((j = k /\ p' = r' /\ p = r) \/ (j <> k /\ p' = p)).
Proof.
  intros (Hpt & Hcl & Hle). destruct (decided_points j p' fc Hpt) as (p & Hpt0 & C & Hcase).
  exists p. split; [|done]. split; [done|]. pose proof C as C'. injection C' as Eid _ _ _ _ _.
  assert (Ed : dds c' = dds c) by apply Hsame.
  unfold clock_class, clock_default_ds in *. rewrite Ed in Hcl, Hle. by rewrite <- Eid.
Qed.
End decided_port.

(** The role a decided port takes *)
Lemma decided_role c k r c1 e r' d :
  port_ok r -> c_ports c !! k = Some r -> decision_sent c k r c1 e -> dispatched (dom := dom) r r' e d ->
  same_table r r' /\ served r' /\
  (is_slave (p_state r') = true -> exists s, c_best c = Some (k, s)) /\
  (forall p fc, should_follow c k p fc -> is_slave (p_state r') = true).
Proof.
  intros Hok Hr [_ Hdec Hnone Hpass Hslave Hfollow _] Hd.
  pose proof (ok_machine r Hok) as Hm. pose proof (di_decision _ _ _ _ Hd Hdec) as Ht.
  assert (Hsf : forall s, is_slave s = true -> follows s = true) by by intros [].
  split; [done|]. split; [|split].
  - intros Hf. destruct (di_follows _ _ _ _ Hd Hf) as [_ Hs]. rewrite (st_best _ _ Ht).
    rewrite Hs in Hf. pose proof Hf as Hf'. apply bmc_enter in Hf as [->|[->|Hfr]].
    + destruct (Hslave eq_refl) as (p & fc & (s & _ & Hp & Hb & _) & _).
      rewrite Hr in Hp. injection Hp as ->. by eexists.
    + by apply Hpass.
    + destruct e; try done.
      * by rewrite (Hnone eq_refl) in Hfr.
      * by rewrite bmc_leave in Hf' by (try apply (ok_reach r Hok); auto).
      * by rewrite bmc_leave in Hf' by (try apply (ok_reach r Hok); auto).
      * destruct (Hslave eq_refl) as (p & fc & (s & _ & Hp & Hb & _) & _).
        rewrite Hr in Hp. injection Hp as ->. by eexists.
      * by apply Hpass.
  - intros Hsl. destruct (di_follows _ _ _ _ Hd (Hsf _ Hsl)) as [_ Hs].
    rewrite Hs in Hsl. apply bmc_slave in Hsl as [->|(Hslr & He1 & He2 & He3)].
    + destruct (Hslave eq_refl) as (p & fc & (s & E & _) & _). by exists s.
    + destruct e; try done; [by rewrite (Hnone eq_refl) in Hslr|].
      destruct (Hslave eq_refl) as (p & fc & (s & E & _) & _). by exists s.
  - intros p fc Hf. destruct (Hfollow p fc Hf) as [-> _].
    destruct Hf as [(s & _ & Hp & Hb & _) _]. rewrite Hr in Hp. injection Hp as <-.
    assert (Hen : enabled (p_state r) = true).
    { destruct (enabled (p_state r)) eqn:E; [done|].
      destruct (ok_idle r Hok E) as [_ Eb]. by rewrite Hb in Eb. }
    rewrite (di_enabled _ _ _ _ Hd).
    + apply bmc_follow; [apply (ok_reach r Hok)|done].
    + by rewrite bmc_enabled.
Qed.

Lemma decide_port_ok fresh k c io r :
  deciding k c -> c_ports c !! k = Some r ->
  exists c' io', decide_port cmp fresh k c io = Ret (c', io') /\ deciding (S k) c' /\
    configs c' = configs c /\ dds c' = dds c /\ c_best c' = c_best c /\
    best_id c' = best_id c /\
    forall j p fc, points_to c j p fc -> exists p', points_to c' j p' fc.
Proof.
  intros Hde Hr. unfold decide_port. rewrite Hr.
  assert (Hok : port_ok r).
  { pose proof (de_ports k c Hde) as H. rewrite Forall_lookup in H. by eapply H. }
  destruct (bmc_state_decision_eq k c r Hde Hr) as (ps & -> & Hdec). cbn [mbind res_bind].
  destruct (decision_event_eq k c r ps Hr Hdec) as (c1 & e & -> & Hsent). cbn [mbind res_bind].
  destruct (bc_dispatch_ok r e fresh io Hok) as (r' & io' & -> & Hd). cbn [mbind res_bind].
  destruct (decided_role c k r c1 e r' fresh Hok Hr Hsent Hd) as (Ht & Hserved & Hslave & Hfol).
  pose proof (sent_same _ _ _ _ _ Hsent) as Hsame.
  eexists _, io'. split; [reflexivity|]. set (c' := set_ports _ _).
  assert (Eb : c_best c' = c_best c) by apply Hsame.
  assert (Hlk : forall j p', c_ports c' !! j = Some p' ->
    (j = k /\ p' = r') \/ (j <> k /\ c_ports c !! j = Some p')) by by eapply decided_lookup.
  split; [|split; [|split; [apply Hsame|split; [done|]]]].
  3: { split; [apply Hsame|by eapply decided_points_to]. }
  - split.
    + unfold c'. cbn [set_ports c_ports]. rewrite (sp_ports _ _ Hsame).
      apply Forall_insert; [apply Hde|apply Hd].
    + rewrite Eb. pose proof (de_best k c Hde) as Hb. destruct (c_best c) as [[kb s]|].
      * destruct Hb as (p & fc & Hpt). destruct (decided_points_to k c c1 r r' Hr Hsame Ht kb p fc Hpt)
          as [p' Hpt']. by exists p', fc.
      * intros p (j & Hj)%list_elem_of_lookup. destruct (Hlk j p Hj) as [[-> ->]|[_ Hj']].
        -- rewrite (st_best _ _ Ht). apply Hb. by eapply list_elem_of_lookup_2.
        -- apply Hb. by eapply list_elem_of_lookup_2.
    + intros j p Hj Hp. destruct (Hlk j p Hp) as [[-> ->]|[Hne Hp']]; rewrite Eb; [done|].
      apply (de_done k c Hde j); [lia|done].
    + intros j p' fc Hj Hf.
      destruct (decided_follow k c c1 r r' Hr Hsame Ht j p' fc Hf) as (p & Hf0 & Hcase).
      destruct Hcase as [(-> & -> & ->)|[Hne ->]].
      * split; [by eapply Hfol|]. by apply (sent_follow _ _ _ _ _ Hsent) in Hf0 as [_ ?].
      * change (c_data c') with (c_data c1). rewrite (sent_other _ _ _ _ _ Hsent j p fc Hf0 Hne).
        apply (de_follow k c Hde j); [lia|done].
  - unfold configs, c'. cbn [set_ports c_ports]. rewrite list_fmap_insert, (sp_ports _ _ Hsame).
    rewrite (di_config _ _ _ _ Hd). apply list_insert_id. by rewrite list_lookup_fmap, Hr.
Qed.

Lemma decide_loop_ok fresh n k c io :
  deciding k c -> length (c_ports c) = (k + n)%nat ->
  exists c' io', decide_loop cmp fresh (seq k n) c io = Ret (c', io') /\ deciding (k + n) c' /\
    configs c' = configs c /\ dds c' = dds c /\ c_best c' = c_best c /\
    best_id c' = best_id c /\
    forall j p fc, points_to c j p fc -> exists p', points_to c' j p' fc.
Proof.
  revert k c io. induction n as [|n IH]; intros k c io Hde Hl; cbn [seq decide_loop].
  { exists c, io. rewrite Nat.add_0_r. repeat (split; [done|]). by eauto. }
  destruct (lookup_lt_is_Some_2 (c_ports c) k) as [r Hr]; [lia|].
  destruct (decide_port_ok fresh k c io r Hde Hr) as (c1 & io1 & -> & Hde1 & E1 & D1 & B1 & I1 & P1).
  cbn [mbind res_bind].
  destruct (IH (S k) c1 io1 Hde1) as (c2 & io2 & -> & Hde2 & E2 & D2 & B2 & I2 & P2).
  { rewrite <- (length_fmap config (c_ports c1)). change (config <$> c_ports c1) with (configs c1).
    rewrite E1. unfold configs. rewrite length_fmap. lia. }
  exists c2, io2. split; [done|]. replace (k + S n)%nat with (S k + n)%nat by lia.
  split; [done|]. do 4 (split; [congruence|]).
  intros j p fc Hp. destruct (P1 j p fc Hp) as [p1 Hp1]. by eapply P2.
Qed.

(** The outcome of a state decision on the clock [c] *)
Record decision_outcome (now : Z) (c c' : clock) : Prop := {
  out_none : c_best c' = None ->
    forall p fc, p ∈ c_ports c -> master_only p = false -> fc ∈ foreign_masters p -> ~ candidate now fc;
  out_some : is_Some (c_best c') -> exists k p fc, points_to c' k p fc;
  out_best : forall k p fc, points_to c' k p fc ->
    best_id c' = identity (fc_dataset fc) /\
    forall q x, q ∈ c_ports c -> master_only q = false -> x ∈ foreign_masters q -> candidate now x ->
      0 <= cmp (Some (fc_ptr (portIdentity p) fc)) (Some (candidate_ptr q x));
  out_follow : forall k p fc, should_follow c' k p fc ->
    is_slave (p_state p) = true /\ exists m, describes (c_data c') fc m
}.

(** The first loop leaves the clock ready for the second. *)
Lemma deciding_start now c ps best id e :
  clock_ok c -> Forall2 (computed now) (c_ports c) ps -> selected 0 None ps best ->
  deciding 0 (set_clock_best (fst <$> best) id (set_est e (set_ports ps c))).
Proof.
  intros Hc Hps [S1 _ S3]. split.
  - cbn [set_clock_best set_est set_ports c_ports]. clear -Hps.
    induction Hps as [|p p' l l' H]; constructor; [apply H|done].
  - cbn [set_clock_best set_est set_ports c_ports c_best]. destruct S1 as [->|(b & -> & Hb)].
    + cbn. intros p Hp. destruct (p_best p) as [s|] eqn:Es; [|done].
      apply list_elem_of_lookup in Hp as [j Hj].
      destruct (Forall2_lookup_r _ _ _ _ _ Hps Hj) as (p0 & _ & Hco).
      destruct (co_best _ _ _ Hco s Es) as (fc & Hf & _).
      by destruct (S3 p s fc (list_elem_of_lookup_2 _ _ _ Hj) Es Hf).
    + destruct Hb as (i & p & fc & -> & Hi & Hbest & Hf). cbn.
      destruct (Forall2_lookup_r _ _ _ _ _ Hps Hi) as (p0 & _ & Hco).
      destruct (co_best _ _ _ Hco _ Hbest) as (fc' & Hf' & Hl & _).
      rewrite Hf in Hf'. injection Hf' as <-. exists p, fc, (sender (fc_dataset fc)). by split.
  - intros j p Hj. lia.
  - intros j p fc Hj. lia.
Qed.

Lemma computed_configs now ps ps' : Forall2 (computed now) ps ps' -> config <$> ps' = config <$> ps.
Proof.
  induction 1 as [|p p' l l' H _ IH]; [done|]. rewrite !fmap_cons, IH. by rewrite (co_config _ _ _ H).
Qed.

(** No candidate of any port is better than the best. *)
Lemma selected_tops now ps ps' best q x :
  Forall2 (computed now) ps ps' -> selected 0 None ps' best ->
  q ∈ ps -> master_only q = false -> x ∈ foreign_masters q -> candidate now x ->
  tops best (candidate_ptr q x).
Proof.
  intros Hps [_ _ S3] Hq Hmo Hx Hcand. apply list_elem_of_lookup in Hq as [j Hj].
  destruct (Forall2_lookup_l _ _ _ _ _ Hps Hj) as (q' & Hj' & Hco).
  destruct (co_all _ _ _ Hco x Hx Hmo Hcand) as (s & b & Es & Hf & Hle).
  pose proof (S3 q' s b (list_elem_of_lookup_2 _ _ _ Hj') Es Hf) as Ht.
  destruct best as [[? y]|]; [|done]. simpl in *. by etrans.
Qed.

(** The clock between the two loops *)
Definition chosen (now : Z) (c : clock) (ps : list port) (best : option (nat * PortIdentity * dsptr))
    : bool * clock :=
  let id := match best with Some (_, b) => identity b.2 | None => dds_clockIdentity (dds c) end in
  let fresh := negb (bool_decide (id = best_id c)) in
  (fresh, set_clock_best (fst <$> best) id
    (set_est (if fresh then reset_estimates (initial_delay (dds c)) (c_est c) else c_est c)
       (set_ports ps c))).

Lemma handle_state_decision_event_loops now c io ps best :
  compute_loop cmp now 0 (c_ports c) None = Ret (ps, best) ->
  handle_state_decision_event cmp now c io =
    decide_loop cmp (chosen now c ps best).1 (seq 0 (length ps)) (chosen now c ps best).2 io.
Proof.
  intros E. unfold handle_state_decision_event. rewrite E. cbn [mbind res_bind]. cbv zeta.
  cbn [set_ports best_id dds c_est]. unfold chosen. cbn [fst snd].
  destruct best as [[? b]|]; by destruct (negb _).
Qed.

(** What the best record is when the roles are decided *)
Lemma best_points ps best c1 c' k p fc :
  selected 0 None ps best -> deciding 0 c1 -> c_best c1 = fst <$> best -> c_ports c1 = ps ->
  c_best c' = c_best c1 -> configs c' = configs c1 ->
  (forall j q x, points_to c1 j q x -> exists q', points_to c' j q' x) ->
  points_to c' k p fc ->
  exists b, best = Some b /\ b.2 = fc_ptr (portIdentity p) fc.
Proof.
  intros [S1 _ _] Hde Eb1 Ep Eb Ec Hmove Hpt. pose proof (de_best 0 c1 Hde) as Hb.
  destruct S1 as [->|(b & -> & i & q & fc' & -> & Hi & Hbest & Hf)].
  { destruct Hpt as (s & E & _). by rewrite Eb, Eb1 in E. }
  rewrite Eb1 in Hb. cbn in Hb. destruct Hb as (q0 & fc0 & Hpt0).
  destruct (Hmove _ _ _ Hpt0) as [p0 Hpt'].
  destruct (points_to_fun _ _ _ _ _ _ _ Hpt Hpt') as (-> & <- & <-).
  destruct Hpt0 as (s & E & Hq & _ & Hf0 & _). rewrite Eb1 in E. injection E as <-.
  rewrite Ep, Hi in Hq. injection Hq as <-. rewrite Hf in Hf0. injection Hf0 as <-.
  eexists. split; [done|]. cbn [snd]. destruct Hpt as (s' & _ & Hp & _).
  destruct (config_at c1 c' i p Ec Hp) as (q0 & Hq0 & C). rewrite Ep, Hi in Hq0. injection Hq0 as <-.
  injection C as Eid _ _ _ _ _. by rewrite Eid.
Qed.

Lemma handle_state_decision_event_ok now c io :
  clock_ok c ->
  exists c' io', handle_state_decision_event cmp now c io = Ret (c', io') /\ clock_ok c' /\
    configs c' = configs c /\ dds c' = dds c /\ decision_outcome now c c'.
Proof.
  intros Hc.
  destruct (compute_loop_spec now 0 (c_ports c) None (ck_ports c Hc) ltac:(done))
    as (ps & best & E & Hps & Hsel & Hdom). rewrite (handle_state_decision_event_loops _ _ _ _ _ E).
  pose proof (deciding_start now c ps best _ _ Hc Hps Hsel : deciding 0 (chosen now c ps best).2) as Hde.
  set (fresh := (chosen now c ps best).1). 
  assert (Ep : c_ports (chosen now c ps best).2 = ps) by done.
  assert (Eb1 : c_best (chosen now c ps best).2 = fst <$> best) by done.
  assert (Ei1 : forall b, best = Some b -> best_id (chosen now c ps best).2 = identity b.2.2)
    by by intros [? ?] ->.
  assert (Ed1 : dds (chosen now c ps best).2 = dds c) by done.
  assert (Ec1 : configs (chosen now c ps best).2 = configs c) by by eapply computed_configs.
  generalize dependent (chosen now c ps best).2. intros c1 Hde Ep Eb1 Ei1 Ed1 Ec1.
  destruct (decide_loop_ok fresh (length ps) 0 c1 io Hde) as (c2 & io2 & -> & Hde2 & Ec & Ed & Eb & Ei & Hpt);
    [by rewrite Ep|].
  exists c2, io2. split; [done|].
  assert (Hlt : forall j p, c_ports c2 !! j = Some p -> (j < 0 + length ps)%nat).
  { intros j p Hj%lookup_lt_Some. revert Hj. rewrite <- (length_fmap config).
    change (config <$> c_ports c2) with (configs c2). rewrite Ec. unfold configs.
    by rewrite length_fmap, Ep. }
  split; [|split; [congruence|split; [congruence|]]].
  - split; [apply Hde2| |].
    + apply Forall_lookup. intros j p Hj. by destruct (de_done _ _ Hde2 j p (Hlt j p Hj) Hj).
    + intros j p Hj. by destruct (de_done _ _ Hde2 j p (Hlt j p Hj) Hj).
  - split.
    + intros En q x Hq Hmo Hx Hcand. pose proof (selected_tops now _ _ _ q x Hps Hsel Hq Hmo Hx Hcand) as Ht.
      rewrite Eb, Eb1 in En. by destruct best.
    + intros [[kb s] Es]. pose proof (de_best _ _ Hde2) as Hb. rewrite Es in Hb.
      destruct Hb as (p & fc & Hp). by exists kb, p, fc.
    + intros k p fc Hp.
      destruct (best_points ps best c1 c2 k p fc Hsel Hde Eb1 Ep Eb Ec Hpt Hp) as (b & -> & Eptr).
      split; [by rewrite Ei, (Ei1 b eq_refl), Eptr|]. intros q x Hq Hmo Hx Hcand.
      pose proof (selected_tops now _ _ _ q x Hps Hsel Hq Hmo Hx Hcand) as Ht.
      destruct b as [n y]. cbn [tops snd] in *. subst y. apply at_least_cmp in Ht; [done|exact (Hdom _ eq_refl)|].
      assert (Hq' : port_ok q).
      { pose proof (ck_ports c Hc) as Hall. rewrite Forall_forall in Hall. by apply Hall. }
      by apply (port_ok_candidate now q x Hq').
    + intros k p fc Hf. apply (de_follow _ _ Hde2 k); [|done].
      destruct Hf as [(s & _ & Hk & _) _]. by eapply Hlt.
Qed.

(** ** The life of a clock *)
Lemma clock_poll_ok now inputs c io :
  clock_ok c -> inputs_ok inputs c ->
  exists c' io', clock_poll cmp now inputs c io = Ret (c', io') /\ clock_ok c' /\
    configs c' = configs c.
Proof.
  intros Hc Hi. unfold clock_poll.
  destruct (poll_ports_ok inputs c io Hc Hi) as (c1 & io1 & -> & Hc1 & E1 & _). cbn [mbind res_bind].
  destruct (c_sde c1); [|by eexists _, _].
  destruct (handle_state_decision_event_ok now c1 io1 Hc1) as (c2 & io2 & -> & Hc2 & E2 & _).
  cbn [mbind res_bind]. eexists _, _. split; [reflexivity|].
  split; [by apply (same_ports_ok c2)|]. change (configs c2 = configs c). congruence.
Qed.

Lemma clock_run_ok polls c io :
  clock_ok c -> (forall now inputs, (now, inputs) ∈ polls -> inputs_ok inputs c) ->
  exists c' io', clock_run cmp polls c io = Ret (c', io') /\ clock_ok c' /\ configs c' = configs c.
Proof.
  revert c io. induction polls as [|[now inputs] polls IH]; intros c io Hc Hi; [by eexists _, _|].
  cbn [clock_run]. destruct (clock_poll_ok now inputs c io Hc) as (c1 & io1 & -> & Hc1 & E1).
  { eapply Hi, list_elem_of_here. }
  cbn [mbind res_bind]. destruct (IH c1 io1 Hc1) as (c2 & io2 & -> & Hc2 & E2).
  { intros now' is' Hin. eapply inputs_ok_configs; [done|].
    by eapply Hi, list_elem_of_further. }
  eexists _, _. split; [done|]. split; [done|]. congruence.
Qed.

(** A port as [port_open] leaves it *)
Record fresh_port (p : port) : Prop := {
  fp_machine : machine p = ptp_fsm \/ machine p = ptp_slave_fsm;
  fp_bmca : p_bmca p = BMCA_PTP;
  fp_jbod : jbod p = false;
  fp_state : p_state p = PS_INITIALIZING;
  fp_foreign : foreign_masters p = [];
  fp_best : p_best p = None
}.

Lemma fresh_port_ok p : fresh_port p -> port_ok p.
Proof.
  intros [Hm Hb Hj Hs Hf Hbest].
  assert (BmcFsm (machine p)) by (destruct Hm as [-> | ->]; apply _).
  split; [split; rewrite ?Hf, ?Hbest|done| |done|done|done|].
  - by apply Forall_nil.
  - by apply NoDup_nil.
  - done.
  - rewrite Hs. constructor.
  - rewrite Hf. intros m Hin. by apply elem_of_nil in Hin.
Qed.

Lemma fresh_clock_ok c : Forall fresh_port (c_ports c) -> clock_ok c.
Proof.
  intros H. split.
  - eapply Forall_impl; [exact H|]. apply fresh_port_ok.
  - eapply Forall_impl; [exact H|]. intros p Hp. unfold served. by rewrite (fp_state p Hp).
  - intros k p Hk. rewrite Forall_lookup in H. by rewrite (fp_state p (H k p Hk)).
Qed.

Lemma start_ports_ok ks c io :
  clock_ok c -> exists c' io', start_ports ks c io = Ret (c', io') /\ clock_ok c' /\ configs c' = configs c.
Proof.
  revert c io. induction ks as [|k ks IH]; intros c io Hc; cbn [start_ports]; [by eexists _, _|].
  destruct (c_ports c !! k) as [p|] eqn:Hk; [|by apply IH].
  pose proof (ck_ports c Hc) as Hp. pose proof (ck_served c Hc) as Hs. rewrite Forall_lookup in Hp, Hs.
  destruct (dispatch_step p EV_INITIALIZE false io (Hp k p Hk) (Hs k p Hk)) as (p' & io' & -> & Hst); [done|].
  cbn [mbind res_bind]. destruct (clock_ok_step c k p p' Hc Hk Hst) as [Hc' E].
  destruct (IH _ io' Hc') as (c2 & io2 & -> & Hc2 & E2). eexists _, _. split; [done|]. split; [done|congruence].
Qed.

(** C1. Safety of the best master clock algorithm.  Start a clock whose ports
    run [ptp_fsm] or [ptp_slave_fsm], and let its main loop poll: announce
    messages, timeouts, synchronizations, faults and state decisions may come
    in any order, initializations and memory may fail at any time.  No step
    ever follows a null pointer or uses a foreign master record that is gone;
    at most one port is uncalibrated or slave, the one that hears the clock's
    best master; and every port in these states or passive has a best master
    of its own. *)
Theorem clock_run_safe (c : clock) (polls : list (Z * list (nat * port_input))) (io : list bool) :
  Forall fresh_port (c_ports c) ->
  (forall now inputs, (now, inputs) ∈ polls -> inputs_ok inputs c) ->
  exists c1 io1 c2 io2, clock_start c io = Ret (c1, io1) /\ clock_run cmp polls c1 io1 = Ret (c2, io2) /\
    (forall k p, c_ports c2 !! k = Some p -> follows (p_state p) = true ->
       exists s fc, p_best p = Some s /\ find_foreign s (foreign_masters p) = Some fc) /\
    (forall k p, c_ports c2 !! k = Some p -> is_slave (p_state p) = true ->
       exists s, c_best c2 = Some (k, s)) /\
    (forall j k p q, c_ports c2 !! j = Some p -> c_ports c2 !! k = Some q ->
       is_slave (p_state p) = true -> is_slave (p_state q) = true -> j = k).
Proof.
  intros Hf Hi. destruct (start_ports_ok (seq 0 (length (c_ports c))) c io (fresh_clock_ok c Hf))
    as (c1 & io1 & E1 & Hc1 & Ec1).
  destruct (clock_run_ok polls c1 io1 Hc1) as (c2 & io2 & E2 & Hc2 & _).
  { intros now inputs Hin. eapply inputs_ok_configs; [exact Ec1|]. by eapply Hi. }
  exists c1, io1, c2, io2. split; [done|]. split; [done|]. destruct Hc2 as [Hp Hs Hb]. split; [|split].
  - intros k p Hk Hfol. rewrite Forall_lookup in Hp, Hs. destruct (Hs k p Hk Hfol) as [s Es].
    destruct (find_foreign_in s _ (table_best p (ok_table p (Hp k p Hk)) s Es)) as [fc Hfc]. by exists s, fc.
  - apply Hb.
  - intros j k p q Hj Hk Hsj Hsk. destruct (Hb j p Hj Hsj) as [s Es]. destruct (Hb k q Hk Hsk) as [t Et].
    congruence.
Qed.

(** C11. The outcome of a state decision, in any state the clock can be in.
    [handle_state_decision_event] completes; it leaves no best master only
    when no port hears a clock that sent two announcements that are still
    current; otherwise the record it selects exists and no such clock, on any
    port, has a better one.  If the own clock's class is above 127 and its
    dataset is not better than the best master's, then the port that hears
    that master becomes uncalibrated or slave, and the parent and time
    properties data sets are those of its latest announcement, one step
    further removed.  No other port is left uncalibrated or slave. *)
Theorem state_decision_selects_best (now : Z) (c : clock) (io : list bool) :
  clock_ok c ->
  exists c' io', handle_state_decision_event cmp now c io = Ret (c', io') /\ clock_ok c' /\
    decision_outcome now c c'.
Proof.
  intros Hc. destruct (handle_state_decision_event_ok now c io Hc) as (c' & io' & E & Hc' & _ & _ & Hout).
  by exists c', io'.
Qed.
End clock.

(** ** At a concrete clock *)
Definition fresh_sample_port (k : Z) (fsm : state_machine) (bmca : bmca_select) (jbod : bool) : port :=
  Port (sample_pid 9 k) 128 false bmca fsm false false false DM_E2E jbod
    (fun _ => FaultInterval FTMO_LOG2_SECONDS 4)
    PS_INITIALIZING FT_UNSPECIFIED [] None [] None [] (PeerDelay None None None) [] [].

(** A boundary clock of class 248 with two ports *)
Definition sample_clock (jbod : bool) : clock :=
  Clock
    (DefaultData false 128
       {| clockClass := 248; clockAccuracy := 254; offsetScaledLogVariance := 65535 |} 128
       (clockIdentity (sample_pid 9 0)) 128 255 0 160 0)
    [fresh_sample_port 1 ptp_fsm BMCA_PTP jbod; fresh_sample_port 2 ptp_fsm BMCA_PTP jbod]
    None (clockIdentity (sample_pid 9 0)) false
    (TimeData (CurrentDS 0 0 0)
       (ParentDS (sample_pid 9 0) 128
          {| clockClass := 248; clockAccuracy := 254; offsetScaledLogVariance := 65535 |} 128
          (clockIdentity (sample_pid 9 0)))
       [] 0 (TimeProperties 37 0 160) 37)
    (Estimates (FreqEstimator 0 0 0) [] 0 0 unit_ratio unit_ratio).

(** Grandmaster 2 announces itself every second on the first port, grandmaster
    1, of lower priority, on the second. *)
Definition sample_polls (n : nat) : list (Z * list (nat * port_input)) :=
  (fun t => (t * NSEC2SEC,
     [(0%nat, InAnnounce (t * NSEC2SEC) true (sample_announce 2 127 t));
      (1%nat, InAnnounce (t * NSEC2SEC) true (sample_announce 1 128 t))])) <$> (Z.of_nat <$> seq 1 n).

(** The roles the ports take *)
Example sample_clock_follows :
  match (s ← clock_start (sample_clock false) [];
         clock_run (telecom_dscmp snd) (sample_polls 4) s.1 s.2) with
  | Ret (c, _) => (p_state <$> c_ports c, c_best c, parentPortIdentity (pds (c_data c)))
  | _ => ([], None, zero_pid)
  end = ([PS_UNCALIBRATED; PS_PRE_MASTER], Some (0%nat, sample_pid 2 1), sample_pid 2 1).
Proof. vm_compute. reflexivity. Qed.

Lemma sample_inputs_ok n now inputs :
  (now, inputs) ∈ sample_polls n ->
  inputs_ok (dom := fun d => dataset_wf d.2) inputs (sample_clock false).
Proof.
  intros (t & [= -> ->] & _)%list_elem_of_fmap k i p Hin Hp.
  repeat (apply elem_of_cons in Hin as [[= -> ->]|Hin]); [..|by apply elem_of_nil in Hin];
    injection Hp as <-; (split; [by split|split; done]).
Qed.

Lemma sample_fresh : Forall fresh_port (c_ports (sample_clock false)).
Proof. repeat constructor. Qed.

Lemma clock_run_safe_witness :
  exists c1 io1 c2 io2, clock_start (sample_clock false) [false; true] = Ret (c1, io1) /\
    clock_run (telecom_dscmp snd) (sample_polls 4) c1 io1 = Ret (c2, io2).
Proof.
  destruct (clock_run_safe (telecom_dscmp snd) (DsOrder0 := sample_order) (sample_clock false)
    (sample_polls 4) [false; true] sample_fresh (sample_inputs_ok 4))
    as (c1 & io1 & c2 & io2 & E1 & E2 & _).
  by exists c1, io1, c2, io2.
Defined.

Lemma state_decision_selects_best_witness :
  exists c' io', handle_state_decision_event (telecom_dscmp snd) 0 (sample_clock false) [] = Ret (c', io').
Proof.
  destruct (state_decision_selects_best (telecom_dscmp snd) (DsOrder0 := sample_order) 0
    (sample_clock false) [] (fresh_clock_ok _ sample_fresh)) as (c' & io' & E & _).
  by exists c', io'.
Defined.

(** ** What the invariant rests on *)

(** With [boundary_clock_jbod] the invariant fails: when the PHC of
    the best port cannot be switched to, the port is disabled and its records
    are freed in the middle of the state decision, which goes on to compare
    the next port with the freed record. *)
Example jbod_switch_failure_faults :
  (s ← clock_start (sample_clock true) [];
   clock_run (telecom_dscmp snd) (sample_polls 4) s.1 [false]) = Fault.
Proof. vm_compute. reflexivity. Qed.
