(* ===== verification/FrrPrefix.v ===== *)
(** * Network prefixes (frr-frr-7.2/lib: prefix.c, prefix.h, jhash.c)

    A [struct prefix] is a family, a length in bits and the bytes of the
    union [u], in memory order.  The functions are translated with the bounds
    of the union, so that reading past it is a [Fault].  Flow specifications
    (AF_FLOWSPEC), whose prefix is a pointer to another object, are left
    out. *)

From S2P Require Import Prelude.

#[local] Open Scope Z_scope.

(** ** Data *)

(** The address families; [AF_OTHER] stands for the codes prefix.c does not
    know. *)
Inductive family := AF_UNSPEC | AF_INET | AF_INET6 | AF_ETHERNET | AF_EVPN | AF_OTHER (code : Z).

#[export] Instance family_eq_dec : EqDecision family.
Proof. solve_decision. Defined.

(** The codes of <sys/socket.h>, AF_ETHERNET being AF_PACKET and AF_MAX 45. *)
Definition family_code (f : family) : Z :=
  match f with
  | AF_UNSPEC => 0
  | AF_INET => 2
  | AF_INET6 => 10
  | AF_ETHERNET => 17
  | AF_EVPN => 46
  | AF_OTHER code => code
  end.

Record prefix := Prefix { p_family : family; prefixlen : Z; u : list Z }.

(** The size of the union: an [evpn_addr] of 36 bytes, aligned to 8. *)
Definition evpn_addr_size : Z := 36.
Definition union_size : Z := 40.

Definition IPV4_MAX_BYTELEN : Z := 4.
Definition IPV4_MAX_BITLEN : Z := 32.
Definition IPV6_MAX_BYTELEN : Z := 16.
Definition IPV6_MAX_BITLEN : Z := 128.
Definition ETH_ALEN : Z := 6.

(** ** Bytes *)
Definition byte (bs : list Z) (i : Z) : res Z :=
  match block_get bs i with Some b => Ret b | None => Fault end.
Definition read_bytes (bs : list Z) (off n : Z) : res (list Z) :=
  match block_read bs off n with Some l => Ret l | None => Fault end.
Definition write_bytes (bs : list Z) (off : Z) (src : list Z) : res (list Z) :=
  match block_write bs off src with Some l => Ret l | None => Fault end.

Definition maskbits : list Z := [0; 128; 192; 224; 240; 248; 252; 254; 255].
Definition maskbit (i : Z) : res Z := byte maskbits i.

Definition numcmp (a b : Z) : Z := if a <? b then -1 else if b <? a then 1 else 0.

Fixpoint bytes_cmp (l1 l2 : list Z) : Z :=
  match l1, l2 with
  | x :: l1, y :: l2 => if x =? y then bytes_cmp l1 l2 else numcmp x y
  | _, _ => 0
  end.
(** [memcmp(p, q, n)], as its sign *)
Definition memcmp (p q : list Z) (n : Z) : res Z :=
  l1 ← read_bytes p 0 n;
  l2 ← read_bytes q 0 n;
  Ret (bytes_cmp l1 l2).

(** ** Bits and matching *)
Definition prefix_bit (bs : list Z) (len : Z) : res Z :=
  let offset := len / 8 in
  let shift := 7 - len mod 8 in
  b ← byte bs offset;
  Ret (Z.land (Z.shiftr b shift) 1).

(** [while (offset--) if (np[offset] != pp[offset]) return 0;] *)
Fixpoint same_bytes (np pp : list Z) (offset : nat) : res bool :=
  match offset with
  | O => Ret true
  | S offset =>
      x ← byte np (Z.of_nat offset);
      y ← byte pp (Z.of_nat offset);
      if x =? y then same_bytes np pp offset else Ret false
  end.

Definition prefix_match_network_statement (n p : prefix) : res bool :=
  let offset := prefixlen n / 8 in
  let shift := prefixlen n mod 8 in
  differ ←
    (if shift =? 0 then Ret false
     else
       m ← maskbit shift;
       x ← byte (u n) offset;
       y ← byte (u p) offset;
       Ret (negb (Z.land m (Z.lxor x y) =? 0)));
  if differ : bool then Ret false
  else same_bytes (u n) (u p) (Z.to_nat offset).

Definition prefix_match (n p : prefix) : res bool :=
  if prefixlen p <? prefixlen n then Ret false
  else prefix_match_network_statement n p.

Definition prefix_cmp (p1 p2 : prefix) : res Z :=
  if negb (family_code (p_family p1) =? family_code (p_family p2)) then
    Ret (numcmp (family_code (p_family p1)) (family_code (p_family p2)))
  else if negb (prefixlen p1 =? prefixlen p2) then
    Ret (numcmp (prefixlen p1) (prefixlen p2))
  else
    let offset := prefixlen p1 / 8 in
    let shift := prefixlen p1 mod 8 in
    i ← memcmp (u p1) (u p2) offset;
    if negb (i =? 0) then Ret i
    else
      m ← maskbit shift;
      x ← byte (u p1) offset;
      y ← byte (u p2) offset;
      Ret (numcmp (Z.land x m) (Z.land y m)).

(** ** Copying and comparing whole prefixes *)

(** How many bytes of the union a family uses *)
Definition copied_bytes (f : family) : res Z :=
  match f with
  | AF_INET => Ret IPV4_MAX_BYTELEN
  | AF_INET6 => Ret IPV6_MAX_BYTELEN
  | AF_ETHERNET => Ret ETH_ALEN
  | AF_EVPN => Ret evpn_addr_size
  | AF_UNSPEC => Ret 8
  | AF_OTHER _ => AssertFail
  end.

Definition prefix_copy (dest src : prefix) : res prefix :=
  n ← copied_bytes (p_family src);
  bs ← read_bytes (u src) 0 n;
  bs ← write_bytes (u dest) 0 bs;
  Ret (Prefix (p_family src) (prefixlen src) bs).

Definition prefix_same (p1 p2 : option prefix) : res bool :=
  match p1, p2 with
  | None, None => Ret true
  | Some p1, Some p2 =>
      if (family_code (p_family p1) =? family_code (p_family p2)) &&
         (prefixlen p1 =? prefixlen p2) then
        match p_family p1 with
        | AF_INET => i ← memcmp (u p1) (u p2) IPV4_MAX_BYTELEN; Ret (i =? 0)
        | AF_INET6 => i ← memcmp (u p1) (u p2) IPV6_MAX_BYTELEN; Ret (i =? 0)
        | AF_ETHERNET => i ← memcmp (u p1) (u p2) ETH_ALEN; Ret (i =? 0)
        | AF_EVPN => i ← memcmp (u p1) (u p2) evpn_addr_size; Ret (i =? 0)
        | _ => Ret false
        end
      else Ret false
  | _, _ => Ret false
  end.

(** The position of the first byte that differs, if it comes before [length]:
    [n] bytes are left. *)
Fixpoint first_diff (pp1 pp2 : list Z) (pos : Z) (n : nat) : res (option Z) :=
  match n with
  | O => Ret None
  | S n =>
      x ← byte pp1 pos;
      y ← byte pp2 pos;
      if x =? y then first_diff pp1 pp2 (pos + 1) n else Ret (Some pos)
  end.

(** [for (bit = 0; bit < 8; bit++) if (xor & (1 << (7 - bit))) break;] *)
Fixpoint first_bit (x bit : Z) (n : nat) : Z :=
  match n with
  | O => bit
  | S n => if negb (Z.land x (Z.shiftl 1 (7 - bit)) =? 0) then bit else first_bit x (bit + 1) n
  end.

Definition common_length (f : family) : Z :=
  match f with
  | AF_INET => IPV4_MAX_BYTELEN
  | AF_INET6 => IPV6_MAX_BYTELEN
  | AF_ETHERNET => ETH_ALEN
  | AF_EVPN => 8 * evpn_addr_size
  | _ => 0
  end.

Definition prefix_common_bits (p1 p2 : prefix) : res Z :=
  let length := common_length (p_family p1) in
  if negb (family_code (p_family p1) =? family_code (p_family p2)) || (length =? 0) then Ret (-1)
  else
    d ← first_diff (u p1) (u p2) 0 (Z.to_nat length);
    match d with
    | None => Ret (length * 8)
    | Some pos =>
        x ← byte (u p1) pos;
        y ← byte (u p2) pos;
        Ret (pos * 8 + first_bit (Z.lxor x y) 0 8)
    end.

(** ** Netmasks *)

(** The mask in memory, that is in network byte order *)
Definition masklen2ip (masklen : Z) : res (list Z) :=
  if (0 <=? masklen) && (masklen <=? IPV4_MAX_BITLEN) then
    Ret (be_bytes 4 (u32 (u64 (Z.shiftl 4294967295 (32 - masklen)))))
  else AssertFail.

(** [__builtin_clz] of a 32-bit integer that is not 0 *)
Definition clz32 (z : Z) : Z := 31 - Z.log2 z.

Definition ip_masklen (netmask : list Z) : Z :=
  let tmp := 4294967295 - be_val netmask in
  if tmp =? 0 then 32 else clz32 tmp.

Definition apply_mask_ipv4 (p : prefix) : res prefix :=
  mask ← masklen2ip (prefixlen p);
  addr ← read_bytes (u p) 0 IPV4_MAX_BYTELEN;
  bs ← write_bytes (u p) 0 (zip_with Z.land addr mask);
  Ret (Prefix (p_family p) (prefixlen p) bs).

(** [maskbytes6], the table of the masks, by its rows *)
Definition maskbytes6 (masklen : Z) : list Z :=
  (fun i => if 8 * (i + 1) <=? masklen then 255
            else if masklen <=? 8 * i then 0
            else 256 - 2 ^ (8 * (i + 1) - masklen)) <$> seqZ 0 16.

Definition masklen2ip6 (masklen : Z) : res (list Z) :=
  if (0 <=? masklen) && (masklen <=? IPV6_MAX_BITLEN) then Ret (maskbytes6 masklen)
  else AssertFail.

(** The first loop of [ip6_masklen], which reads a byte before it compares
    [len]: the length and the bytes that are left *)
Fixpoint full_bytes (fuel : nat) (pnt : list Z) (len : Z) : res (Z * list Z) :=
  match fuel with
  | O => NoFuel
  | S fuel =>
      match pnt with
      | [] => Fault
      | b :: rest =>
          if (b =? 255) && (len <? IPV6_MAX_BITLEN) then full_bytes fuel rest (len + 8)
          else Ret (len, pnt)
      end
  end.

(** [while (val) { len++; val <<= 1; }] on an [unsigned char] *)
Fixpoint count_bits (fuel : nat) (val len : Z) : res Z :=
  match fuel with
  | O => NoFuel
  | S fuel => if val =? 0 then Ret len else count_bits fuel (u8 (Z.shiftl val 1)) (len + 1)
  end.

Definition ip6_masklen (netmask : list Z) : res Z :=
  '(len, pnt) ← full_bytes 17 netmask 0;
  if len <? IPV6_MAX_BITLEN then
    match pnt with
    | [] => Fault
    | val :: _ => count_bits 9 val len
    end
  else Ret len.

(** [while (index < 16) pnt[index++] = 0;] *)
Fixpoint zero_bytes (bs : list Z) (index : Z) (n : nat) : res (list Z) :=
  match n with
  | O => Ret bs
  | S n => bs ← write_bytes bs index [0]; zero_bytes bs (index + 1) n
  end.

Definition apply_mask_ipv6 (p : prefix) : res prefix :=
  let index := prefixlen p / 8 in
  if index <? 16 then
    let offset := prefixlen p mod 8 in
    b ← byte (u p) index;
    m ← maskbit offset;
    bs ← write_bytes (u p) index [Z.land b m];
    bs ← zero_bytes bs (index + 1) (Z.to_nat (16 - (index + 1)));
    Ret (Prefix (p_family p) (prefixlen p) bs)
  else Ret p.

Definition apply_mask (p : prefix) : res prefix :=
  match p_family p with
  | AF_INET => apply_mask_ipv4 p
  | AF_INET6 => apply_mask_ipv6 p
  | _ => Ret p
  end.

(** ** Hashing *)
Definition JHASH_GOLDEN_RATIO : Z := 2654435769.

Definition jhash_mix (abc : Z * Z * Z) : Z * Z * Z :=
  let '(a, b, c) := abc in
  let a := Z.lxor (u32 (u32 (a - b) - c)) (Z.shiftr c 13) in
  let b := Z.lxor (u32 (u32 (b - c) - a)) (u32 (Z.shiftl a 8)) in
  let c := Z.lxor (u32 (u32 (c - a) - b)) (Z.shiftr b 13) in
  let a := Z.lxor (u32 (u32 (a - b) - c)) (Z.shiftr c 12) in
  let b := Z.lxor (u32 (u32 (b - c) - a)) (u32 (Z.shiftl a 16)) in
  let c := Z.lxor (u32 (u32 (c - a) - b)) (Z.shiftr b 5) in
  let a := Z.lxor (u32 (u32 (a - b) - c)) (Z.shiftr c 3) in
  let b := Z.lxor (u32 (u32 (b - c) - a)) (u32 (Z.shiftl a 10)) in
  let c := Z.lxor (u32 (u32 (c - a) - b)) (Z.shiftr b 15) in
  (a, b, c).

(** [k[i]], shifted to its place; 0 past the last byte, where the [switch]
    on the length does not look *)
Definition at_shift (k : list Z) (i : nat) (s : Z) : Z := Z.shiftl (nth i k 0) s.
Definition word_at (k : list Z) (i : nat) : Z :=
  at_shift k i 0 + at_shift k (i + 1) 8 + at_shift k (i + 2) 16 + at_shift k (i + 3) 24.

(** [while (len >= 12)]; [fuel] bounds the number of blocks. *)
Fixpoint jhash_blocks (fuel : nat) (k : list Z) (abc : Z * Z * Z) : list Z * (Z * Z * Z) :=
  match fuel with
  | O => (k, abc)
  | S fuel =>
      if (12 <=? length k)%nat then
        let '(a, b, c) := abc in
        jhash_blocks fuel (drop 12 k)
          (jhash_mix (u32 (a + word_at k 0), u32 (b + word_at k 4), u32 (c + word_at k 8)))
      else (k, abc)
  end.

Definition jhash (key : list Z) (initval : Z) : Z :=
  let '(k, (a, b, c)) :=
    jhash_blocks (length key) key (JHASH_GOLDEN_RATIO, JHASH_GOLDEN_RATIO, initval) in
  let c := u32 (c + Z.of_nat (length key)) in
  let c := u32 (c + at_shift k 8 8 + at_shift k 9 16 + at_shift k 10 24) in
  let b := u32 (b + word_at k 4) in
  let a := u32 (a + word_at k 0) in
  (jhash_mix (a, b, c)).2.

(** The bytes of a [struct prefix] in the memory of a little-endian machine *)
Definition prefix_object (p : prefix) : list Z :=
  [u8 (family_code (p_family p)); 0; u8 (prefixlen p); u8 (prefixlen p / 256); 0; 0; 0; 0] ++ u p.

Definition prefix_hash_key (p : prefix) : res Z :=
  copy ← prefix_copy (Prefix AF_UNSPEC 0 (replicate (Z.to_nat union_size) 0)) p;
  key ← read_bytes (prefix_object copy) 0 (8 + (prefixlen copy + 7) / 8);
  Ret (jhash key 1437227610).
