(* ===== verification/FrrPrefixBits.v ===== *)
(** * Prefixes as strings of bits

    The network of a prefix is the string of its first [prefixlen] bits.
    The functions of prefix.c are shown to compute on these strings: a match
    is the relation of being an initial segment, the comparison is their
    lexicographic order, a mask keeps the network, and the hash depends on
    the network and the family only, once the prefix is masked. *)

From S2P Require Import Prelude FrrPrefix.

#[local] Open Scope Z_scope.

(** ** Bits of a prefix *)

(** The bits of a byte and of an address, the most significant one first *)
Definition bits8 (b : Z) : list bool := Z.testbit b <$> [7; 6; 5; 4; 3; 2; 1; 0].
Definition abits (bs : list Z) : list bool := bs ≫= bits8.

(** The network of a prefix: its first [prefixlen] bits *)
Definition net (p : prefix) : list bool := take (Z.to_nat (prefixlen p)) (abits (u p)).

(** The bytes of the union, and a length for which every read stays inside *)
Record prefix_wf (p : prefix) : Prop := {
  pw_bytes : Forall is_byte (u p);
  pw_size : length (u p) = 40%nat;
  pw_len : 0 <= prefixlen p < 320
}.

(** The order of bit strings of the same length *)
Fixpoint bits_cmp (l1 l2 : list bool) : Z :=
  match l1, l2 with
  | b1 :: l1, b2 :: l2 =>
      if Bool.eqb b1 b2 then bits_cmp l1 l2 else if b1 then 1 else -1
  | _, _ => 0
  end.

Lemma length_bits8 b : length (bits8 b) = 8%nat.
Proof. done. Qed.

Lemma abits_cons b l : abits (b :: l) = bits8 b ++ abits l.
Proof. done. Qed.

Lemma length_abits bs : length (abits bs) = (8 * length bs)%nat.
Proof. induction bs as [|b bs IH]; [done|]. rewrite abits_cons, length_app, IH. simpl. lia. Qed.

Lemma abits_app l1 l2 : abits (l1 ++ l2) = abits l1 ++ abits l2.
Proof. apply bind_app. Qed.

Lemma take_abits bs o s b :
  bs !! o = Some b -> (s <= 8)%nat ->
  take (8 * o + s) (abits bs) = abits (take o bs) ++ take s (bits8 b).
Proof.
  intros Hb Hs. rewrite <- (take_drop_middle bs o b Hb) at 1. rewrite abits_app, abits_cons.
  apply lookup_lt_Some in Hb.
  rewrite take_app, length_abits, length_take, Nat.min_l by lia.
  rewrite (take_ge (abits _)) by (rewrite length_abits, length_take; lia). f_equal.
  replace (8 * o + s - 8 * o)%nat with s by lia.
  rewrite take_app, length_bits8. replace (s - 8)%nat with 0%nat by lia. by rewrite app_nil_r.
Qed.

Lemma lookup_abits bs o j b :
  bs !! o = Some b -> (j < 8)%nat -> abits bs !! (8 * o + j)%nat = Some (Z.testbit b (7 - Z.of_nat j)).
Proof.
  intros Hb Hj. rewrite <- (take_drop_middle bs o b Hb) at 1. rewrite abits_app, abits_cons.
  apply lookup_lt_Some in Hb.
  rewrite lookup_app_r, length_abits, length_take, Nat.min_l by (rewrite ?length_abits, ?length_take; lia).
  replace (8 * o + j - 8 * o)%nat with j by lia.
  rewrite lookup_app_l by done.
  do 8 (destruct j as [|j]; [done|]). lia.
Qed.

(** Properties of a range of integers, checked on all of them *)
Lemma forallb_seqZ (f : Z -> bool) n :
  forallb f (seqZ 0 n) = true -> forall z, 0 <= z < n -> f z = true.
Proof.
  intros H z Hz. rewrite forallb_forall in H. apply H, list_elem_of_In, elem_of_seqZ. lia.
Qed.

Lemma forall_bytes (f : Z -> bool) :
  forallb f (seqZ 0 256) = true -> forall b, is_byte b -> f b = true.
Proof. apply forallb_seqZ. Qed.

Definition bval (l : list bool) : Z := foldl (fun v b => 2 * v + Z.b2z b) 0 l.

Lemma bval_app l1 l2 : bval (l1 ++ l2) = bval l1 * 2 ^ Z.of_nat (length l2) + bval l2.
Proof.
  unfold bval. rewrite foldl_app. generalize (foldl (fun v b => 2 * v + Z.b2z b) 0 l1). intros v.
  induction l2 as [|b l2 IH] using rev_ind; [simpl; lia|].
  rewrite !foldl_snoc, IH, length_app. cbn [length].
  rewrite Nat2Z.inj_add, Z.pow_add_r by lia. change (2 ^ Z.of_nat 1) with 2. lia.
Qed.

Lemma bval_bound l : 0 <= bval l < 2 ^ Z.of_nat (length l).
Proof.
  induction l as [|b l IH] using rev_ind; [done|].
  rewrite bval_app, length_app. cbn [length].
  rewrite Nat2Z.inj_add, Z.pow_add_r by lia. change (2 ^ Z.of_nat 1) with 2.
  assert (0 <= bval [b] < 2) by (destruct b; done). lia.
Qed.

Lemma bits_cmp_bval l1 l2 :
  length l1 = length l2 -> bits_cmp l1 l2 = numcmp (bval l1) (bval l2).
Proof.
  revert l2. induction l1 as [|b1 l1 IH]; intros [|b2 l2] E; [done..|]. injection E as E.
  change (b1 :: l1) with ([b1] ++ l1). change (b2 :: l2) with ([b2] ++ l2).
  rewrite !bval_app, <- E. cbn [app bits_cmp].
  pose proof (bval_bound l1). pose proof (bval_bound l2) as H2. rewrite <- E in H2.
  specialize (IH l2 E). unfold numcmp in *.
  destruct b1, b2; cbn [Bool.eqb]; rewrite ?IH; change (bval [true]) with 1;
    change (bval [false]) with 0; repeat case_match; rewrite ?Z.ltb_lt, ?Z.ltb_ge in *; lia.
Qed.

Lemma masked_bits x s :
  is_byte x -> (s <= 8)%nat ->
  Z.land (nth s maskbits 0) x = bval (take s (bits8 x)) * 2 ^ (8 - Z.of_nat s).
Proof.
  intros Hx Hs.
  pose proof (forall_bytes (fun x => forallb (fun s => Z.land (nth s maskbits 0) x =?
    bval (take s (bits8 x)) * 2 ^ (8 - Z.of_nat s)) (seq 0 9)) ltac:(by vm_compute) x Hx) as H.
  rewrite forallb_forall in H. apply Z.eqb_eq, H, in_seq. lia.
Qed.

Lemma bits8_val x : is_byte x -> bval (bits8 x) = x.
Proof.
  intros Hx. pose proof (masked_bits x 8 Hx ltac:(lia)) as H.
  rewrite take_ge, Z.mul_1_r in H by done. rewrite <- H.
  change (nth 8 maskbits 0) with (Z.ones 8). rewrite Z.land_comm, Z.land_ones by done.
  by apply Z.mod_small.
Qed.

Lemma bits8_inj x y : is_byte x -> is_byte y -> bits8 x = bits8 y -> x = y.
Proof. intros Hx Hy E. by rewrite <- (bits8_val x), <- (bits8_val y), E. Qed.

Lemma abits_inj l1 l2 :
  Forall is_byte l1 -> Forall is_byte l2 -> length l1 = length l2 -> abits l1 = abits l2 -> l1 = l2.
Proof.
  revert l2. induction l1 as [|x l1 IH]; intros [|y l2] H1 H2 E Hb; [done..|].
  apply Forall_cons in H1 as [Hx H1]. apply Forall_cons in H2 as [Hy H2].
  rewrite !abits_cons in Hb. apply app_inj_1 in Hb as [Hxy Hb]; [|done].
  f_equal; [by apply bits8_inj|]. apply IH; auto.
Qed.

Lemma numcmp_scale k a b : 0 < k -> numcmp (a * k) (b * k) = numcmp a b.
Proof. intros Hk. unfold numcmp. repeat case_match; rewrite ?Z.ltb_lt, ?Z.ltb_ge in *; nia. Qed.

Lemma numcmp_bits x y s :
  is_byte x -> is_byte y -> (s <= 8)%nat ->
  numcmp (Z.land x (nth s maskbits 0)) (Z.land y (nth s maskbits 0)) =
    bits_cmp (take s (bits8 x)) (take s (bits8 y)).
Proof.
  intros Hx Hy Hs. rewrite !(Z.land_comm _ (nth s maskbits 0)), !masked_bits by done.
  rewrite numcmp_scale by (apply Z.pow_pos_nonneg; lia). symmetry. apply bits_cmp_bval.
  by rewrite !length_take, !length_bits8.
Qed.

Lemma bits_cmp_app a1 a2 b1 b2 :
  length a1 = length a2 ->
  bits_cmp (a1 ++ b1) (a2 ++ b2) = if bits_cmp a1 a2 =? 0 then bits_cmp b1 b2 else bits_cmp a1 a2.
Proof.
  revert a2. induction a1 as [|x a1 IH]; intros [|y a2] E; [done..|]. injection E as E. simpl.
  destruct (Bool.eqb x y); [by apply IH|]. by destruct x.
Qed.

Lemma bits_cmp_0 l1 l2 : length l1 = length l2 -> bits_cmp l1 l2 = 0 <-> l1 = l2.
Proof.
  revert l2. induction l1 as [|x l1 IH]; intros [|y l2] E; [done..|]. injection E as E. simpl.
  destruct (Bool.eqb_spec x y) as [->|]; [rewrite IH by done; naive_solver|].
  split; [by destruct x|naive_solver].
Qed.

Lemma bytes_cmp_bits l1 l2 :
  Forall is_byte l1 -> Forall is_byte l2 -> length l1 = length l2 ->
  bytes_cmp l1 l2 = bits_cmp (abits l1) (abits l2).
Proof.
  revert l2. induction l1 as [|x l1 IH]; intros [|y l2] H1 H2 E; [done..|]. injection E as E.
  apply Forall_cons in H1 as [Hx H1]. apply Forall_cons in H2 as [Hy H2].
  rewrite !abits_cons, bits_cmp_app by done. cbn [bytes_cmp].
  rewrite bits_cmp_bval, !bits8_val by done. rewrite <- IH by done. unfold numcmp.
  destruct (Z.eqb_spec x y) as [->|]; [by rewrite Z.ltb_irrefl|].
  destruct (Z.ltb_spec x y); [done|]. destruct (Z.ltb_spec y x); [done|lia].
Qed.

(** ** The functions in terms of bits *)
Lemma byte_lookup bs o b : bs !! o = Some b -> byte bs (Z.of_nat o) = Ret b.
Proof.
  intros Hb. unfold byte. rewrite block_get_lookup, Nat2Z.id by lia. by rewrite Hb.
Qed.

Lemma byte_at bs i b : 0 <= i -> bs !! Z.to_nat i = Some b -> byte bs i = Ret b.
Proof. intros Hi Hb. rewrite <- (Z2Nat.id i) by done. by apply byte_lookup. Qed.

Lemma maskbit_nth s : (s <= 8)%nat -> maskbit (Z.of_nat s) = Ret (nth s maskbits 0).
Proof. intros Hs. do 9 (destruct s as [|s]; [done|]). lia. Qed.

Lemma read_bytes_take bs n :
  0 <= n <= Z.of_nat (length bs) -> read_bytes bs 0 n = Ret (take (Z.to_nat n) bs).
Proof. intros H. unfold read_bytes. rewrite block_read_Some by lia. done. Qed.

(** Where the length of a prefix falls: byte [o], bit [s] *)
Lemma prefix_wf_split p :
  prefix_wf p -> exists o s b,
    prefixlen p = 8 * Z.of_nat o + Z.of_nat s /\ (s < 8)%nat /\ u p !! o = Some b /\ is_byte b /\
    prefixlen p / 8 = Z.of_nat o /\ prefixlen p mod 8 = Z.of_nat s.
Proof.
  intros [Hb Hs Hl]. pose proof (Z.div_mod (prefixlen p) 8 ltac:(done)).
  pose proof (Z.mod_pos_bound (prefixlen p) 8 ltac:(done)).
  destruct (lookup_lt_is_Some_2 (u p) (Z.to_nat (prefixlen p / 8))) as [b Eb]; [lia|].
  exists (Z.to_nat (prefixlen p / 8)), (Z.to_nat (prefixlen p mod 8)), b.
  pose proof (proj1 (Forall_lookup _ _) Hb _ _ Eb). split_and!; try done; lia.
Qed.

Lemma length_net p : prefix_wf p -> Z.of_nat (length (net p)) = prefixlen p.
Proof.
  intros [Hb Hs Hl]. unfold net. rewrite length_take, length_abits. lia.
Qed.

Lemma prefix_bit_eq bs len b :
  0 <= len -> abits bs !! Z.to_nat len = Some b -> prefix_bit bs len = Ret (Z.b2z b).
Proof.
  intros Hl Hb. pose proof (Z.div_mod len 8 ltac:(done)).
  pose proof (Z.mod_pos_bound len 8 ltac:(done)).
  pose proof (lookup_lt_Some _ _ _ Hb) as Hlt. rewrite length_abits in Hlt.
  destruct (lookup_lt_is_Some_2 bs (Z.to_nat (len / 8))) as [x Ex]; [lia|].
  unfold prefix_bit. rewrite (byte_at _ _ x) by (done || lia). cbn [mbind res_bind]. f_equal.
  replace (Z.to_nat len) with (8 * Z.to_nat (len / 8) + Z.to_nat (len mod 8))%nat in Hb by lia.
  rewrite (lookup_abits _ _ _ x) in Hb by (done || lia). injection Hb as <-.
  rewrite Z2Nat.id by lia. change 1 with (Z.ones 1). rewrite Z.land_ones by done.
  rewrite <- Z.bit0_mod, Z.shiftr_spec by done. do 2 f_equal.
Qed.

Lemma same_bytes_eq np pp o :
  (o <= length np)%nat -> (o <= length pp)%nat ->
  same_bytes np pp o = Ret (bool_decide (take o np = take o pp)).
Proof.
  induction o as [|o IH]; intros H1 H2; cbn [same_bytes].
  { by rewrite !take_0, bool_decide_true. }
  destruct (lookup_lt_is_Some_2 np o) as [x Ex]; [lia|].
  destruct (lookup_lt_is_Some_2 pp o) as [y Ey]; [lia|].
  rewrite (byte_lookup _ _ _ Ex), (byte_lookup _ _ _ Ey). cbn [mbind res_bind].
  rewrite (take_S_r _ _ _ Ex), (take_S_r _ _ _ Ey). destruct (Z.eqb_spec x y) as [->|Hne].
  - rewrite IH by lia. f_equal. apply bool_decide_ext. rewrite (inj_iff (.++ [y])). done.
  - rewrite bool_decide_false; [done|]. intros E. apply app_inj_2 in E as [_ [= ?]]; done.
Qed.

Lemma xorb_nil_eq (l1 l2 : list bool) :
  length l1 = length l2 -> Forall (eq false) (zip_with xorb l1 l2) <-> l1 = l2.
Proof.
  revert l2. induction l1 as [|x l1 IH]; intros [|y l2] E; [done..|]. injection E as E. simpl.
  rewrite Forall_cons, IH by done. destruct x, y; naive_solver.
Qed.

Lemma masked_differ x y s :
  is_byte x -> is_byte y -> (s <= 8)%nat ->
  negb (Z.land (nth s maskbits 0) (Z.lxor x y) =? 0) =
    negb (bool_decide (take s (bits8 x) = take s (bits8 y))).
Proof.
  intros Hx Hy Hs. f_equal. apply eq_bool_prop_intro. rewrite bool_decide_spec, Is_true_true, Z.eqb_eq.
  assert (Hz : is_byte (Z.lxor x y)).
  { unfold is_byte in *. split; [apply Z.lxor_nonneg; lia|]. change 256 with (2 ^ 8).
    apply lt_pow2_of_bits; [done|apply Z.lxor_nonneg; lia|]. intros i Hi.
    by rewrite Z.lxor_spec, !(testbit_above_width 8) by (done || lia). }
  rewrite masked_bits by done.
  assert (E : take s (bits8 (Z.lxor x y)) = zip_with xorb (take s (bits8 x)) (take s (bits8 y))).
  { rewrite <- zip_with_take. f_equal. unfold bits8. cbn [fmap list_fmap zip_with]. by rewrite !Z.lxor_spec. }
  rewrite E, <- xorb_nil_eq by by rewrite !length_take, !length_bits8.
  generalize (zip_with xorb (take s (bits8 x)) (take s (bits8 y))). intros l.
  assert (0 < 2 ^ (8 - Z.of_nat s)) by (apply Z.pow_pos_nonneg; lia).
  transitivity (bval l = 0); [nia|].
  induction l as [|b l IH] using rev_ind; [by split|].
  rewrite bval_app, Forall_app, Forall_singleton, <- IH. simpl. change (2 ^ Z.of_nat 1) with 2.
  pose proof (bval_bound l). destruct b; [change (bval [true]) with 1|change (bval [false]) with 0];
    naive_solver lia.
Qed.

Lemma prefix_match_network_eq n p :
  prefix_wf n -> prefix_wf p ->
  prefix_match_network_statement n p =
    Ret (bool_decide (net n = take (Z.to_nat (prefixlen n)) (abits (u p)))).
Proof.
  intros Hn Hp. destruct (prefix_wf_split n Hn) as (o & s & x & El & Hs & Ex & Hx & Eo & Es).
  destruct Hp as [Hpb Hps _]. destruct Hn as [Hnb Hns Hnl].
  destruct (lookup_lt_is_Some_2 (u p) o) as [y Ey]; [lia|].
  pose proof (proj1 (Forall_lookup _ _) Hpb _ _ Ey) as Hy. simpl in Hy.
  unfold prefix_match_network_statement, net. rewrite Eo, Es, Nat2Z.id.
  replace (Z.to_nat (prefixlen n)) with (8 * o + s)%nat by lia.
  rewrite (take_abits _ _ _ x), (take_abits _ _ _ y) by (done || lia).
  assert (Hlen : length (abits (take o (u n))) = length (abits (take o (u p)))).
  { rewrite !length_abits, !length_take. lia. }
  assert (Hd : (if Z.of_nat s =? 0 then Ret false
      else m ← maskbit (Z.of_nat s); x ← byte (u n) (Z.of_nat o); y ← byte (u p) (Z.of_nat o);
           Ret (negb (Z.land m (Z.lxor x y) =? 0))) =
    Ret (negb (bool_decide (take s (bits8 x) = take s (bits8 y))))).
  { destruct (Z.eqb_spec (Z.of_nat s) 0) as [E0|_].
    - replace s with 0%nat by lia. by rewrite !take_0, bool_decide_true.
    - rewrite maskbit_nth, (byte_lookup _ _ _ Ex), (byte_lookup _ _ _ Ey) by lia.
      cbn [mbind res_bind]. f_equal. apply masked_differ; (done || lia). }
  rewrite Hd. cbn [mbind res_bind]. case_bool_decide as Hsame; cbn [negb].
  - rewrite same_bytes_eq by lia. f_equal. apply bool_decide_ext. rewrite Hsame, (inj_iff (.++ _)).
    split; [by intros ->|]. intros E. apply abits_inj; [by apply Forall_take..| |done].
    rewrite !length_take. lia.
  - rewrite bool_decide_false; [done|]. intros E. by apply app_inj_1 in E as [_ E].
Qed.

Lemma prefix_match_eq n p :
  prefix_wf n -> prefix_wf p ->
  prefix_match n p = Ret (bool_decide (net n `prefix_of` net p)).
Proof.
  intros Hn Hp. unfold prefix_match. pose proof (length_net n Hn). pose proof (length_net p Hp).
  destruct (Z.ltb_spec (prefixlen p) (prefixlen n)).
  { rewrite bool_decide_false; [done|]. intros E%prefix_length. lia. }
  rewrite prefix_match_network_eq by done. f_equal. apply bool_decide_ext.
  assert (E : take (Z.to_nat (prefixlen n)) (abits (u p)) = take (length (net n)) (net p)).
  { unfold net at 2. rewrite take_take. f_equal. lia. }
  rewrite E. split.
  - intros ->. apply prefix_take.
  - intros [k Ek]. by rewrite Ek, take_app_length.
Qed.

Lemma prefix_cmp_eq p1 p2 :
  prefix_wf p1 -> prefix_wf p2 ->
  prefix_cmp p1 p2 = Ret (
    if negb (family_code (p_family p1) =? family_code (p_family p2)) then
      numcmp (family_code (p_family p1)) (family_code (p_family p2))
    else if negb (prefixlen p1 =? prefixlen p2) then numcmp (prefixlen p1) (prefixlen p2)
    else numcmp (bval (net p1)) (bval (net p2))).
Proof.
  intros H1 H2. unfold prefix_cmp. destruct (negb (family_code _ =? _)); [done|].
  destruct (Z.eqb_spec (prefixlen p1) (prefixlen p2)) as [El|]; [|done]. cbn [negb].
  destruct (prefix_wf_split p1 H1) as (o & s & x & Ep & Hs & Ex & Hx & Eo & Es).
  destruct H1 as [Hb1 Hs1 _], H2 as [Hb2 Hs2 _]. rewrite Eo, Es.
  destruct (lookup_lt_is_Some_2 (u p2) o) as [y Ey]; [apply lookup_lt_Some in Ex; lia|].
  pose proof (proj1 (Forall_lookup _ _) Hb2 _ _ Ey) as Hy. simpl in Hy.
  apply lookup_lt_Some in Ex as Ho. unfold memcmp, net.
  rewrite !read_bytes_take by lia. cbn [mbind res_bind]. rewrite Nat2Z.id, <- El.
  replace (Z.to_nat (prefixlen p1)) with (8 * o + s)%nat by lia.
  rewrite (take_abits _ _ _ x), (take_abits _ _ _ y) by (done || lia).
  rewrite <- bits_cmp_bval, bits_cmp_app
    by (rewrite ?length_app, ?length_abits, ?length_take; simpl; lia).
  rewrite bytes_cmp_bits by (try (by apply Forall_take); rewrite !length_take; lia).
  destruct (bits_cmp _ _ =? 0); cbn [negb]; [|done].
  rewrite maskbit_nth, (byte_lookup _ _ _ Ex), (byte_lookup _ _ _ Ey) by lia.
  cbn [mbind res_bind]. f_equal. apply numcmp_bits; (done || lia).
Qed.

Lemma prefix_cmp_0 p1 p2 :
  prefix_wf p1 -> prefix_wf p2 ->
  prefix_cmp p1 p2 = Ret 0 <->
    family_code (p_family p1) = family_code (p_family p2) /\ net p1 = net p2.
Proof.
  intros H1 H2. rewrite prefix_cmp_eq by done.
  pose proof (length_net p1 H1) as L1. pose proof (length_net p2 H2) as L2.
  assert (Hn : forall a b, numcmp a b = 0 <-> a = b).
  { intros a b. unfold numcmp. repeat case_match; rewrite ?Z.ltb_lt, ?Z.ltb_ge in *; lia. }
  destruct (Z.eqb_spec (family_code (p_family p1)) (family_code (p_family p2))); cbn [negb].
  2: { rewrite (inj_iff Ret), Hn. naive_solver. }
  destruct (Z.eqb_spec (prefixlen p1) (prefixlen p2)); cbn [negb].
  2: { rewrite (inj_iff Ret), Hn. split; [done|]. intros [_ E]. rewrite E in L1. lia. }
  rewrite (inj_iff Ret), <- bits_cmp_bval, bits_cmp_0 by lia. naive_solver.
Qed.

(** ** Masks *)

(** The bits of the last byte past the length are 0. *)
Definition masked (p : prefix) : Prop :=
  exists k, take (8 * Z.to_nat ((prefixlen p + 7) / 8)) (abits (u p)) = net p ++ replicate k false.

Lemma lookup_write_bytes bs o src :
  (o + length src <= length bs)%nat ->
  write_bytes bs (Z.of_nat o) src = Ret (take o bs ++ src ++ drop (o + length src) bs).
Proof.
  intros H. unfold write_bytes. rewrite block_write_Some by lia. by rewrite Nat2Z.id.
Qed.

Lemma zero_bytes_eq bs i n :
  (i + n <= length bs)%nat ->
  zero_bytes bs (Z.of_nat i) n = Ret (take i bs ++ replicate n 0 ++ drop (i + n) bs).
Proof.
  revert bs i. induction n as [|n IH]; intros bs i Hn; cbn [zero_bytes].
  { rewrite Nat.add_0_r. simpl. by rewrite take_drop. }
  rewrite lookup_write_bytes by (simpl; lia). cbn [mbind res_bind].
  replace (Z.of_nat i + 1) with (Z.of_nat (S i)) by lia. cbn [length].
  rewrite IH by (rewrite !length_app, length_take, length_drop; simpl; lia). f_equal.
  rewrite take_app, drop_app, length_take, !Nat.min_l by lia.
  rewrite take_take, Nat.min_r by lia. rewrite (drop_ge (take i bs)) by (rewrite length_take; lia).
  replace (S i - i)%nat with 1%nat by lia. replace (S i + n - i)%nat with (S n) by lia.
  cbn [app]. rewrite firstn_cons, take_0, skipn_cons, drop_drop, <- app_assoc. cbn [app].
  cbn [replicate app]. do 4 f_equal. lia.
Qed.

Lemma write_bytes_0 bs src :
  (length src <= length bs)%nat -> write_bytes bs 0 src = Ret (src ++ drop (length src) bs).
Proof. intros H. unfold write_bytes. by rewrite block_write_Some by lia. Qed.

Lemma masked_byte x s :
  is_byte x -> (s <= 8)%nat ->
  let y := Z.land x (nth s maskbits 0) in
  is_byte y /\ take s (bits8 y) = take s (bits8 x) /\ drop s (bits8 y) = replicate (8 - s) false.
Proof.
  intros Hx Hs.
  pose proof (forall_bytes (fun x => forallb (fun s => let y := Z.land x (nth s maskbits 0) in
    (0 <=? y) && (y <? 256) && bool_decide (take s (bits8 y) = take s (bits8 x)) &&
    bool_decide (drop s (bits8 y) = replicate (8 - s) false)) (seq 0 9)) ltac:(vm_cast_no_check (eq_refl true)) x Hx) as H.
  rewrite forallb_forall in H. specialize (H s ltac:(apply in_seq; lia)). cbv zeta in H |- *.
  rewrite !andb_true_iff, Z.leb_le, Z.ltb_lt, !bool_decide_eq_true in H. unfold is_byte. tauto.
Qed.

(** A prefix whose bytes were cleared after byte [o], bit [s] *)
Lemma cleared_masked p p' o s x rest :
  prefix_wf p -> prefixlen p = 8 * Z.of_nat o + Z.of_nat s -> (s < 8)%nat -> u p !! o = Some x ->
  p_family p' = p_family p -> prefixlen p' = prefixlen p ->
  u p' = take o (u p) ++ Z.land x (nth s maskbits 0) :: rest ->
  Forall is_byte rest -> (length rest + o = 39)%nat ->
  prefix_wf p' /\ p_family p' = p_family p /\ prefixlen p' = prefixlen p /\
  net p' = net p /\ masked p'.
Proof.
  intros [Hb Hsz Hl] El Hs Ex Ef Ep Eu Hr Hlen.
  pose proof (proj1 (Forall_lookup _ _) Hb _ _ Ex) as Hx. simpl in Hx.
  destruct (masked_byte x s Hx ltac:(lia)) as (Hy & Ht & Hd). set (y := Z.land x _) in *.
  apply lookup_lt_Some in Ex as Ho.
  assert (Ey : u p' !! o = Some y).
  { rewrite Eu, lookup_app_r, length_take, Nat.min_l, Nat.sub_diag by (rewrite ?length_take; lia). done. }
  assert (Eto : take o (u p') = take o (u p)).
  { rewrite Eu, take_app_le, take_take, Nat.min_id by (rewrite length_take; lia). done. }
  assert (En : net p' = net p).
  { unfold net. rewrite Ep, El. replace (Z.to_nat _) with (8 * o + s)%nat by lia.
    rewrite (take_abits _ _ _ y), (take_abits _ _ _ x), Eto, Ht by (done || lia). done. }
  split_and!; [|done..|].
  - split; [|rewrite Eu, length_app, length_take; simpl; lia|lia].
    rewrite Eu. apply Forall_app. split; [by apply Forall_take|]. by apply Forall_cons.
  - unfold masked. rewrite En, Ep. destruct (decide (s = 0%nat)) as [->|Hs0].
    + exists 0%nat. rewrite app_nil_r, <- En. unfold net. rewrite Ep. f_equal.
      rewrite El, Z.add_0_r, Z.mul_comm, Z.div_add_l by done. change (7 / 8) with 0. lia.
    + exists (8 - s)%nat. rewrite <- En. unfold net. rewrite Ep, El.
      replace (8 * Z.to_nat ((8 * Z.of_nat o + Z.of_nat s + 7) / 8))%nat with (8 * o + 8)%nat.
      2: { replace (8 * Z.of_nat o + Z.of_nat s + 7) with (Z.of_nat (s - 1) + (Z.of_nat o + 1) * 8) by lia.
        rewrite Z.div_add, Z.div_small by lia. lia. }
      replace (Z.to_nat _) with (8 * o + s)%nat by lia.
      rewrite !(take_abits _ _ _ y) by (done || lia). rewrite <- app_assoc. f_equal.
      by rewrite (take_ge (bits8 y)), <- Hd, take_drop by done.
Qed.

Lemma zip_land_255 l : Forall is_byte l -> zip_with Z.land l (replicate (length l) 255) = l.
Proof.
  induction 1 as [|x l Hx Hl IH]; [done|]. cbn. f_equal; [|done].
  change 255 with (Z.ones 8). rewrite Z.land_ones by done. by apply Z.mod_small.
Qed.

Lemma zip_land_0 l : zip_with Z.land l (replicate (length l) 0) = replicate (length l) 0.
Proof. induction l as [|x l IH]; [done|]. cbn. by rewrite Z.land_0_r, IH. Qed.

Lemma masklen2ip_bytes o s :
  (o < 4)%nat -> (s < 8)%nat ->
  masklen2ip (8 * Z.of_nat o + Z.of_nat s) =
    Ret (replicate o 255 ++ nth s maskbits 0 :: replicate (3 - o) 0).
Proof.
  intros Ho Hs. do 4 (destruct o as [|o]; [do 8 (destruct s as [|s]; [done|]); lia|]). lia.
Qed.

(** The lengths [apply_mask] works on *)
Definition maskable (p : prefix) : Prop :=
  p_family p = AF_INET /\ prefixlen p <= 32 \/ p_family p = AF_INET6 /\ prefixlen p <= 128.

Lemma full_masked p : prefix_wf p -> prefixlen p mod 8 = 0 -> masked p.
Proof.
  intros Hp Hm. exists 0%nat. rewrite app_nil_r. unfold net. f_equal.
  pose proof (pw_len p Hp). pose proof (Z.div_mod (prefixlen p) 8 ltac:(done)) as E.
  rewrite Hm, Z.add_0_r in E. rewrite E at 1. rewrite Z.mul_comm, Z.div_add_l by done.
  change (7 / 8) with 0. lia.
Qed.

Lemma take_app_abits n l1 l2 :
  (n <= 8 * length l1)%nat -> take n (abits (l1 ++ l2)) = take n (abits l1).
Proof. intros H. rewrite abits_app, take_app_le; [done|]. rewrite length_abits. lia. Qed.

Lemma take_abits_take bs n : take (8 * n) (abits bs) = abits (take n bs).
Proof.
  destruct (decide (n <= length bs)%nat) as [H|H].
  - rewrite <- (take_drop n bs) at 1. rewrite take_app_abits by (rewrite length_take; lia).
    rewrite take_ge by (rewrite length_abits, length_take; lia). done.
  - rewrite !take_ge by (rewrite ?length_abits; lia). done.
Qed.

(** [p'] is [p] with the bits past its length cleared in the first [n] bytes. *)
Record clears (n : nat) (p p' : prefix) : Prop := {
  cl_family : p_family p' = p_family p;
  cl_len : prefixlen p' = prefixlen p;
  cl_bytes : (prefixlen p = 8 * Z.of_nat n /\ u p' = u p) \/
    exists o s x, prefixlen p = 8 * Z.of_nat o + Z.of_nat s /\ (s < 8)%nat /\ (o < n)%nat /\
      u p !! o = Some x /\
      u p' = take o (u p) ++ Z.land x (nth s maskbits 0) :: replicate (n - 1 - o) 0 ++ drop n (u p)
}.

Lemma clears_masked n p p' :
  prefix_wf p -> (n <= 40)%nat -> clears n p p' ->
  prefix_wf p' /\ p_family p' = p_family p /\ prefixlen p' = prefixlen p /\
  net p' = net p /\ masked p'.
Proof.
  intros Hp Hn [Ef El [[E8 Eu]|(o & s & x & Elen & Hs & Ho & Ex & Eu)]].
  - assert (p' = p) as -> by (destruct p, p'; simpl in *; congruence).
    split_and!; try done. apply full_masked; [done|]. by rewrite E8, Z.mul_comm, Z.mod_mul.
  - eapply (cleared_masked p p' o s x); try done.
    + apply Forall_app. split; [by apply Forall_replicate|apply Forall_drop, Hp].
    + rewrite length_app, length_replicate, length_drop, (pw_size p Hp). lia.
Qed.

(** The first [n] bytes of a prefix are its network, and zeros after it. *)
Definition cleared (n : nat) (p : prefix) : Prop :=
  exists k, abits (take n (u p)) = net p ++ replicate k false.

Lemma abits_zeros j : abits (replicate j 0) = replicate (8 * j) false.
Proof.
  induction j as [|j IH]; [done|]. replace (8 * S j)%nat with (8 + 8 * j)%nat by lia.
  cbn [replicate]. by rewrite abits_cons, IH, replicate_add.
Qed.

Lemma clears_cleared n p p' :
  prefix_wf p -> (n <= 40)%nat -> clears n p p' -> cleared n p'.
Proof.
  intros Hp Hn Hc. destruct (clears_masked n p p' Hp Hn Hc) as (_ & _ & _ & En & _).
  unfold cleared. rewrite En. destruct Hc as [_ _ [[E8 ->]|(o & s & x & El & Hs & Ho & Ex & ->)]].
  - exists 0%nat. rewrite app_nil_r. unfold net. rewrite E8.
    replace (Z.to_nat (8 * Z.of_nat n)) with (8 * n)%nat by lia.
    by rewrite take_abits_take.
  - assert (Ho' : length (take o (u p)) = o) by (rewrite length_take, (pw_size p Hp); lia).
    pose proof (proj1 (Forall_lookup _ _) (pw_bytes p Hp) _ _ Ex) as Hx. simpl in Hx.
    destruct (masked_byte x s Hx ltac:(lia)) as (_ & Ht & Hd). set (y := Z.land x _) in *.
    exists (8 - s + 8 * (n - 1 - o))%nat. unfold net. rewrite El.
    replace (Z.to_nat _) with (8 * o + s)%nat by lia.
    rewrite (take_abits _ _ _ x), take_app, Ho' by (done || lia).
    rewrite take_ge by lia. destruct (n - o)%nat as [|m] eqn:Em; [lia|].
    replace (n - 1 - o)%nat with m by lia.
    rewrite firstn_cons, take_app_length' by by rewrite length_replicate.
    rewrite abits_app, abits_cons, abits_zeros, <- app_assoc, replicate_add. f_equal.
    by rewrite app_assoc, <- Ht, <- Hd, take_drop.
Qed.

Lemma apply_mask_ipv4_clears p :
  prefix_wf p -> prefixlen p <= 32 -> exists p', apply_mask_ipv4 p = Ret p' /\ clears 4 p p'.
Proof.
  intros Hp Hle. pose proof (pw_len p Hp) as Hl. pose proof (pw_size p Hp) as Hsz.
  destruct (prefix_wf_split p Hp) as (o & s & x & El & Hs & Ex & Hx & Eo & Es).
  destruct (decide (o < 4)%nat) as [Ho|Ho].
  + unfold apply_mask_ipv4. rewrite El, masklen2ip_bytes, <- El by done. cbn [mbind res_bind].
    rewrite read_bytes_take by (unfold IPV4_MAX_BYTELEN; lia). cbn [mbind res_bind].
    change (Z.to_nat IPV4_MAX_BYTELEN) with 4%nat.
    assert (Ez : zip_with Z.land (take 4 (u p)) (replicate o 255 ++ nth s maskbits 0 :: replicate (3 - o) 0) =
      take o (u p) ++ Z.land x (nth s maskbits 0) :: replicate (3 - o) 0).
    { rewrite <- (take_drop_middle (take 4 (u p)) o x) by (rewrite lookup_take_lt by lia; done).
      rewrite take_take, Nat.min_l by lia.
      rewrite zip_with_app by (rewrite length_take, length_replicate; lia). cbn [zip_with]. f_equal; [|f_equal].
      - replace o with (length (take o (u p))) at 2 by (rewrite length_take; lia).
        apply zip_land_255, Forall_take, Hp.
      - replace (3 - o)%nat with (length (drop (S o) (take 4 (u p))))
          by (rewrite length_drop, length_take; lia). apply zip_land_0. }
    rewrite Ez. rewrite write_bytes_0 by (rewrite length_app, length_take; simpl; rewrite length_replicate; lia).
    cbn [mbind res_bind]. eexists. split; [done|]. split; [done|done|]. right. exists o, s, x.
    split_and!; try done. cbn [u]. rewrite <- app_assoc. cbn [app].
    do 4 f_equal. rewrite length_app, length_cons, length_replicate, length_take. lia.
  + assert (prefixlen p = 32) as E32 by lia.
    unfold apply_mask_ipv4.
    replace (masklen2ip (prefixlen p)) with (Ret (replicate 4 255)) by by rewrite E32.
    cbn [mbind res_bind]. rewrite read_bytes_take by (unfold IPV4_MAX_BYTELEN; lia).
    cbn [mbind res_bind]. change (Z.to_nat IPV4_MAX_BYTELEN) with 4%nat.
    replace (replicate 4 255) with (replicate (length (take 4 (u p))) 255)
      by (rewrite length_take, Hsz; done).
    rewrite zip_land_255 by apply Forall_take, Hp. rewrite write_bytes_0 by (rewrite length_take; lia). cbn [mbind res_bind].
    eexists. split; [done|]. rewrite length_take, Nat.min_l, take_drop by lia.
    split; [done|done|]. by left.
Qed.

Lemma apply_mask_ipv6_clears p :
  prefix_wf p -> prefixlen p <= 128 -> exists p', apply_mask_ipv6 p = Ret p' /\ clears 16 p p'.
Proof.
  intros Hp Hle. pose proof (pw_len p Hp) as Hl. pose proof (pw_size p Hp) as Hsz.
  destruct (prefix_wf_split p Hp) as (o & s & x & El & Hs & Ex & Hx & Eo & Es).
  unfold apply_mask_ipv6. rewrite Eo, Es. destruct (Z.ltb_spec (Z.of_nat o) 16) as [Ho|Ho].
  + rewrite (byte_lookup _ _ _ Ex), maskbit_nth by lia. cbn [mbind res_bind].
    rewrite lookup_write_bytes by (simpl; lia). cbn [mbind res_bind length].
    replace (Z.of_nat o + 1) with (Z.of_nat (S o)) by lia.
    rewrite zero_bytes_eq by (rewrite !length_app, length_take, length_drop; simpl; lia).
    cbn [mbind res_bind]. eexists. split; [done|]. split; [done|done|]. right. exists o, s, x.
    split_and!; try done; [lia|].
    cbn [u]. rewrite take_app, length_take, Nat.min_l, take_take, Nat.min_r by lia.
    replace (S o - o)%nat with 1%nat by lia. cbn [app]. rewrite firstn_cons, take_0, <- app_assoc.
    cbn [app]. do 3 f_equal; [f_equal; lia|].
    rewrite drop_app_ge by (rewrite length_take; lia). rewrite length_take, Nat.min_l by lia.
    replace (S o + Z.to_nat (16 - Z.of_nat (S o)) - o)%nat with (S (15 - o)) by lia.
    cbn [drop]. rewrite drop_drop. f_equal. lia.
  + exists p. split; [done|]. split; [done|done|]. left. split; [lia|done].
Qed.

Lemma apply_mask_ipv4_eq p :
  prefix_wf p -> prefixlen p <= 32 ->
  exists p', apply_mask_ipv4 p = Ret p' /\ prefix_wf p' /\ p_family p' = p_family p /\
    prefixlen p' = prefixlen p /\ net p' = net p /\ masked p'.
Proof.
  intros Hp Hle. destruct (apply_mask_ipv4_clears p Hp Hle) as (p' & E & Hc).
  exists p'. split; [done|]. eapply clears_masked; [done| |done]. lia.
Qed.

Lemma apply_mask_ipv6_eq p :
  prefix_wf p -> prefixlen p <= 128 ->
  exists p', apply_mask_ipv6 p = Ret p' /\ prefix_wf p' /\ p_family p' = p_family p /\
    prefixlen p' = prefixlen p /\ net p' = net p /\ masked p'.
Proof.
  intros Hp Hle. destruct (apply_mask_ipv6_clears p Hp Hle) as (p' & E & Hc).
  exists p'. split; [done|]. eapply clears_masked; [done| |done]. lia.
Qed.

(** The bytes of the addresses that [apply_mask] works on *)
Definition mask_bytes (f : family) : nat := match f with AF_INET => 4 | _ => 16 end.

Lemma apply_mask_clears p :
  prefix_wf p -> maskable p ->
  exists p', apply_mask p = Ret p' /\ clears (mask_bytes (p_family p)) p p'.
Proof.
  intros Hp [[Hf Hle]|[Hf Hle]]; unfold apply_mask; rewrite Hf.
  - by apply apply_mask_ipv4_clears.
  - by apply apply_mask_ipv6_clears.
Qed.

Lemma apply_mask_eq p :
  prefix_wf p -> maskable p ->
  exists p', apply_mask p = Ret p' /\ prefix_wf p' /\ p_family p' = p_family p /\
    prefixlen p' = prefixlen p /\ net p' = net p /\ masked p'.
Proof.
  intros Hp Hm. destruct (apply_mask_clears p Hp Hm) as (p' & E & Hc).
  exists p'. split; [done|]. eapply clears_masked; [done| |done]. destruct (p_family p); simpl; lia.
Qed.

(** ** Whole prefixes *)
Lemma bytes_cmp_eq l1 l2 : length l1 = length l2 -> bytes_cmp l1 l2 = 0 <-> l1 = l2.
Proof.
  revert l2. induction l1 as [|x l1 IH]; intros [|y l2] El; try done. injection El as El. cbn [bytes_cmp].
  destruct (Z.eqb_spec x y) as [->|Hne].
  - rewrite IH by done. split; [by intros ->|by intros [= ->]].
  - split; [|by intros [= -> _]]. unfold numcmp. repeat case_match; rewrite ?Z.ltb_lt, ?Z.ltb_ge in *; lia.
Qed.

Lemma memcmp_eq p q (n : nat) :
  length p = 40%nat -> length q = 40%nat -> (n <= 40)%nat ->
  exists i, memcmp p q (Z.of_nat n) = Ret i /\ (i = 0 <-> take n p = take n q).
Proof.
  intros Hp Hq Hn. unfold memcmp. rewrite !read_bytes_take by lia. cbn [mbind res_bind]. rewrite Nat2Z.id.
  eexists. split; [done|]. apply bytes_cmp_eq. rewrite !length_take. lia.
Qed.

(** ** Copies and hashes *)
Lemma copied_bytes_bound f n : copied_bytes f = Ret n -> 0 <= n <= 36.
Proof. destruct f; intros [= <-]; by split. Qed.

(** A prefix whose length is within the bytes its family uses *)
Definition fits (p : prefix) : Prop :=
  exists n, copied_bytes (p_family p) = Ret n /\ prefixlen p <= 8 * n.

Lemma maskable_fits p : maskable p -> fits p.
Proof. intros [[E H]|[E H]]; unfold fits; rewrite E; (eexists; split; [done|]); unfold IPV4_MAX_BYTELEN, IPV6_MAX_BYTELEN; lia. Qed.

Lemma prefix_copy_eq dest src :
  prefix_wf dest -> prefix_wf src -> fits src ->
  exists p, prefix_copy dest src = Ret p /\ prefix_wf p /\ p_family p = p_family src /\
    prefixlen p = prefixlen src /\
    forall k, (k <= Z.to_nat ((prefixlen src + 7) / 8))%nat -> take k (u p) = take k (u src).
Proof.
  intros [Hdb Hds _] [Hsb Hss Hsl] (n & En & Hn). pose proof (copied_bytes_bound _ _ En).
  assert (Hps : (prefixlen src + 7) / 8 <= n) by (apply Z.lt_succ_r, Z.div_lt_upper_bound; lia).
  unfold prefix_copy. rewrite En. cbn [mbind res_bind].
  rewrite read_bytes_take by lia. cbn [mbind res_bind].
  rewrite write_bytes_0 by (rewrite length_take; lia). cbn [mbind res_bind].
  eexists. split; [done|]. cbn [u p_family prefixlen].
  rewrite length_take, Nat.min_l by lia. split_and!; [|done..|].
  - split; cbn [u prefixlen]; [|rewrite length_app, length_take, length_drop; lia|lia].
    apply Forall_app. split; [by apply Forall_take|by apply Forall_drop].
  - intros k Hk. rewrite take_app_le, take_take, Nat.min_l by (rewrite ?length_take; lia). done.
Qed.

Lemma psize_bits p : 0 <= prefixlen p -> (Z.to_nat (prefixlen p) <= 8 * Z.to_nat ((prefixlen p + 7) / 8))%nat.
Proof.
  intros H. pose proof (Z.div_mod (prefixlen p + 7) 8 ltac:(done)).
  pose proof (Z.mod_pos_bound (prefixlen p + 7) 8 ltac:(done)). lia.
Qed.

(** Two prefixes that agree on the bytes of their length *)
Lemma net_same_bytes p q :
  prefix_wf p -> prefixlen p = prefixlen q ->
  take (Z.to_nat ((prefixlen p + 7) / 8)) (u p) = take (Z.to_nat ((prefixlen p + 7) / 8)) (u q) ->
  net p = net q /\ (masked p <-> masked q).
Proof.
  intros Hp El Eu. pose proof (psize_bits p (proj1 (pw_len p Hp))) as Hps.
  assert (Ea : take (8 * Z.to_nat ((prefixlen p + 7) / 8)) (abits (u p)) =
               take (8 * Z.to_nat ((prefixlen p + 7) / 8)) (abits (u q))).
  { by rewrite !take_abits_take, Eu. }
  assert (En : net p = net q).
  { unfold net. rewrite <- El. rewrite <- (Nat.min_l _ _ Hps), <- !take_take. by rewrite Ea. }
  split; [done|]. unfold masked. rewrite <- El, En, Ea. done.
Qed.

Lemma prefix_copy_net dest src :
  prefix_wf dest -> prefix_wf src -> fits src ->
  exists p, prefix_copy dest src = Ret p /\ prefix_wf p /\ p_family p = p_family src /\
    prefixlen p = prefixlen src /\ net p = net src /\ (masked p <-> masked src).
Proof.
  intros Hd Hs Hf. destruct (prefix_copy_eq dest src Hd Hs Hf) as (p & E & Hp & Ef & El & Eu).
  exists p. destruct (net_same_bytes p src Hp El) as [E1 E2]; [rewrite El; by apply Eu|].
  by split_and!.
Qed.

Lemma zero_prefix_wf : prefix_wf (Prefix AF_UNSPEC 0 (replicate (Z.to_nat union_size) 0)).
Proof. split; [by apply Forall_replicate|done|done]. Qed.

Lemma prefix_hash_key_eq p :
  prefix_wf p -> fits p ->
  prefix_hash_key p = Ret (jhash
    ([u8 (family_code (p_family p)); 0; u8 (prefixlen p); u8 (prefixlen p / 256); 0; 0; 0; 0] ++
     take (Z.to_nat ((prefixlen p + 7) / 8)) (u p)) 1437227610).
Proof.
  intros Hp Hf. unfold prefix_hash_key.
  destruct (prefix_copy_eq _ p zero_prefix_wf Hp Hf) as (q & E & Hq & Ef & El & Eu).
  rewrite E. cbn [mbind res_bind]. pose proof (pw_len p Hp). pose proof (pw_size q Hq) as Hsq.
  assert (0 <= (prefixlen p + 7) / 8 <= 40).
  { split; [apply Z.div_pos; lia|]. apply Z.lt_succ_r, Z.div_lt_upper_bound; lia. }
  rewrite read_bytes_take.
  2: { unfold prefix_object. rewrite length_app. cbn [length]. rewrite El. lia. }
  cbn [mbind res_bind]. do 2 f_equal. unfold prefix_object. rewrite El, Ef.
  rewrite <- (Eu _ ltac:(done)). rewrite take_app. cbn [length].
  rewrite take_ge by (simpl; lia). f_equal. f_equal. lia.
Qed.

(** Equal networks of one family hash alike, when nothing is left past their
    lengths. *)
Lemma prefix_hash_key_net p q :
  prefix_wf p -> prefix_wf q -> fits p -> masked p -> masked q ->
  p_family p = p_family q -> net p = net q -> prefix_hash_key p = prefix_hash_key q.
Proof.
  intros Hp Hq Hf [k1 M1] [k2 M2] Ef En.
  assert (El : prefixlen p = prefixlen q) by by rewrite <- !length_net, En.
  assert (Hfq : fits q) by (unfold fits in *; by rewrite <- Ef, <- El).
  rewrite !prefix_hash_key_eq by done. rewrite Ef, El. do 3 f_equal.
  rewrite El in M1. pose proof (pw_size p Hp). pose proof (pw_size q Hq).
  apply abits_inj; [apply Forall_take, Hp|apply Forall_take, Hq|rewrite !length_take; lia|].
  rewrite <- !take_abits_take, M1, M2, En. f_equal. f_equal.
  apply (f_equal length) in M1, M2. rewrite En in M1. rewrite !length_app, !length_replicate in *.
  rewrite !length_take, !length_abits in *. lia.
Qed.

Lemma lxor_width w a b :
  0 <= w -> 0 <= a < 2 ^ w -> 0 <= b < 2 ^ w -> 0 <= Z.lxor a b < 2 ^ w.
Proof.
  intros Hw Ha Hb. assert (0 <= Z.lxor a b) by (apply Z.lxor_nonneg; lia).
  split; [done|]. apply lt_pow2_of_bits; [done..|]. intros i Hi.
  by rewrite Z.lxor_spec, !(testbit_above_width w).
Qed.

Lemma shiftr_width w a k : 0 <= k -> 0 <= a < 2 ^ w -> 0 <= Z.shiftr a k < 2 ^ w.
Proof.
  intros Hk Ha. rewrite Z.shiftr_div_pow2 by done. assert (0 < 2 ^ k) by (by apply Z.pow_pos_nonneg).
  split; [apply Z.div_pos; lia|]. apply Z.div_lt_upper_bound; nia.
Qed.

Lemma jhash_bound key i : 0 <= jhash key i < 2 ^ 32.
Proof.
  unfold jhash. destruct (jhash_blocks _ _ _) as [k [[a b] c]]. cbv zeta.
  assert (Hmix : forall a b c, in_width 32 c -> in_width 32 (jhash_mix (a, b, c)).2).
  { intros a' b' c' Hc. unfold jhash_mix, in_width in *. cbv zeta. cbn [snd].
    apply lxor_width; [done|by apply wrap_bounds|]. apply shiftr_width; [done|].
    apply lxor_width; [done|by apply wrap_bounds|by apply wrap_bounds]. }
  apply Hmix. by apply wrap_bounds.
Qed.
