(* ===== verification/FrrPrefixSpec.v ===== *)
(** * Properties of network prefixes

    Comparison, matching, netmasks and common bits (prefix.c). *)

From S2P Require Import Prelude FrrPrefix FrrPrefixBits.

#[local] Open Scope Z_scope.

(** ** Common bits *)

(** The length of the longest common initial segment *)
Fixpoint common (l1 l2 : list bool) : nat :=
  match l1, l2 with
  | b1 :: l1, b2 :: l2 => if Bool.eqb b1 b2 then S (common l1 l2) else O
  | _, _ => O
  end.

Lemma common_app l l1 l2 : common (l ++ l1) (l ++ l2) = (length l + common l1 l2)%nat.
Proof. induction l as [|b l IH]; simpl; [done|]. by rewrite eqb_reflx, IH. Qed.

Lemma common_self l : common l l = length l.
Proof. induction l as [|b l IH]; simpl; [done|]. by rewrite eqb_reflx, IH. Qed.

Lemma first_bit_common x y :
  is_byte x -> is_byte y -> x <> y ->
  first_bit (Z.lxor x y) 0 8 = Z.of_nat (common (bits8 x) (bits8 y)) /\
  (common (bits8 x) (bits8 y) < 8)%nat.
Proof.
  intros Hx Hy Hne.
  assert (Hb : forall b, 0 <= b <= 7 -> (Z.land (Z.lxor x y) (Z.shiftl 1 b) =? 0) =
    Bool.eqb (Z.testbit x b) (Z.testbit y b)).
  { intros b Hb. rewrite Z.shiftl_mul_pow2, Z.mul_1_l by lia.
    destruct (Bool.eqb_spec (Z.testbit x b) (Z.testbit y b)) as [E|E].
    - apply Z.eqb_eq, Z.bits_inj'. intros i Hi. rewrite Z.land_spec, Z.lxor_spec, Z.bits_0.
      destruct (decide (i = b)) as [->|]; [by rewrite E, xorb_nilpotent|].
      by rewrite Z.pow2_bits_false, andb_false_r by done.
    - apply Z.eqb_neq. intros E0. apply (f_equal (fun z => Z.testbit z b)) in E0.
      rewrite Z.land_spec, Z.lxor_spec, Z.pow2_bits_true, Z.bits_0, andb_true_r in E0 by lia.
      by apply xorb_eq in E0. }
  assert (Hd : bits8 x <> bits8 y) by (intros E; by apply Hne, bits8_inj).
  unfold bits8 in *. cbn [fmap list_fmap] in *. cbn [first_bit common].
  rewrite !Hb by lia. revert Hd. clear. generalize (Z.testbit x), (Z.testbit y). intros f g Hd.
  repeat match goal with |- context [f ?z] =>
    let z' := eval vm_compute in z in progress (change (f z) with (f z'); change (g z) with (g z'))
  end.
  repeat (match goal with |- context [Bool.eqb ?a ?b] => let E := fresh in
    destruct (Bool.eqb_spec a b) as [E|E]; [rewrite E in Hd|split; [done|lia]] end; cbn [negb]).
  by destruct Hd.
Qed.

Lemma first_diff_common l1 l2 pos n :
  Forall is_byte l1 -> Forall is_byte l2 -> (pos + n <= length l1)%nat -> (pos + n <= length l2)%nat ->
  let c := common (abits (take n (drop pos l1))) (abits (take n (drop pos l2))) in
  match first_diff l1 l2 (Z.of_nat pos) n with
  | Ret None => c = (8 * n)%nat
  | Ret (Some q) => exists k x y, q = Z.of_nat (pos + k) /\ (k < n)%nat /\ x <> y /\
      l1 !! (pos + k)%nat = Some x /\ l2 !! (pos + k)%nat = Some y /\
      c = (8 * k + common (bits8 x) (bits8 y))%nat
  | _ => False
  end.
Proof.
  intros H1 H2. revert pos. induction n as [|n IH]; intros pos L1 L2; cbn [first_diff].
  { done. }
  destruct (lookup_lt_is_Some_2 l1 pos) as [x Ex]; [lia|].
  destruct (lookup_lt_is_Some_2 l2 pos) as [y Ey]; [lia|].
  rewrite (byte_lookup _ _ _ Ex), (byte_lookup _ _ _ Ey). cbn [mbind res_bind].
  rewrite (drop_S _ _ _ Ex), (drop_S _ _ _ Ey), !firstn_cons, !abits_cons.
  pose proof (proj1 (Forall_lookup _ _) H1 _ _ Ex) as Hx. simpl in Hx.
  pose proof (proj1 (Forall_lookup _ _) H2 _ _ Ey) as Hy. simpl in Hy.
  destruct (Z.eqb_spec x y) as [->|Hne].
  - specialize (IH (S pos) ltac:(lia) ltac:(lia)). rewrite common_app, length_bits8.
    replace (Z.of_nat pos + 1) with (Z.of_nat (S pos)) by lia. cbv zeta in *.
    destruct (first_diff l1 l2 (Z.of_nat (S pos)) n) as [[q|]| | |]; [|lia|done..].
    destruct IH as (k & x' & y' & -> & Hk & Hne & Ex' & Ey' & Ec).
    exists (S k), x', y'. rewrite Nat.add_succ_r. split_and!; try done; lia.
  - exists 0%nat, x, y. rewrite Nat.add_0_r. split_and!; try done; [lia|].
    destruct (first_bit_common x y Hx Hy Hne) as [_ Hc].
    revert Hc. unfold bits8. cbn [fmap list_fmap common app].
    repeat (case_match; [|done]). lia.
Qed.

Lemma common_length_nonneg f : 0 <= common_length f.
Proof. by destruct f. Qed.

Lemma first_diff_past l pos k :
  (pos <= length l < pos + k)%nat -> first_diff l l (Z.of_nat pos) k = Fault.
Proof.
  revert pos. induction k as [|k IH]; intros pos Hk; cbn [first_diff]; [lia|].
  destruct (l !! pos) as [x|] eqn:Ex.
  - rewrite (byte_lookup _ _ _ Ex). cbn [mbind res_bind]. rewrite Z.eqb_refl.
    replace (Z.of_nat pos + 1) with (Z.of_nat (S pos)) by lia. apply lookup_lt_Some in Ex. apply IH. lia.
  - unfold byte. by rewrite block_get_lookup, Nat2Z.id, Ex by lia.
Qed.

(** [prefix_common_bits] is the length of the longest common initial
    segment of two addresses of a family.  For EVPN, whose byte length it
    multiplies by 8, it reads past the union when the two are equal. *)
Theorem prefix_common_bits_spec (p1 p2 : prefix) :
  prefix_wf p1 -> prefix_wf p2 -> p_family p1 = p_family p2 ->
  let n := Z.to_nat (common_length (p_family p1)) in
  (p_family p1 = AF_INET \/ p_family p1 = AF_INET6 \/ p_family p1 = AF_ETHERNET ->
     prefix_common_bits p1 p2 = Ret (Z.of_nat (common (take (8 * n) (abits (u p1))) (take (8 * n) (abits (u p2)))))) /\
  (p_family p1 = AF_EVPN -> u p1 = u p2 -> prefix_common_bits p1 p2 = Fault) /\
  (n = O -> prefix_common_bits p1 p2 = Ret (-1)).
Proof.
  intros H1 H2 Ef n. pose proof (pw_size p1 H1). pose proof (pw_size p2 H2).
  unfold prefix_common_bits. rewrite <- Ef, Z.eqb_refl. cbn [negb orb]. split_and!.
  - intros Hf. assert (Hn : 4 <= common_length (p_family p1) <= 16) by (destruct Hf as [->|[->| ->]]; by split).
    destruct (Z.eqb_spec (common_length (p_family p1)) 0); [lia|].
    pose proof (first_diff_common (u p1) (u p2) 0 n (pw_bytes p1 H1) (pw_bytes p2 H2)
      ltac:(lia) ltac:(lia)) as Hd.
    change (Z.of_nat 0) with 0 in Hd. fold n. rewrite !drop_0 in Hd. cbv zeta in Hd.
    rewrite !take_abits_take. destruct (first_diff (u p1) (u p2) 0 n) as [[q|]| | |]; [|..|done|done|done].
    + destruct Hd as (k & x & y & -> & Hk & Hne & Ex & Ey & ->). cbn [mbind res_bind]. rewrite Nat.add_0_l in *.
      rewrite (byte_lookup _ _ _ Ex), (byte_lookup _ _ _ Ey). cbn [mbind res_bind].
      pose proof (proj1 (Forall_lookup _ _) (pw_bytes p1 H1) _ _ Ex) as Hx.
      pose proof (proj1 (Forall_lookup _ _) (pw_bytes p2 H2) _ _ Ey) as Hy.
      destruct (first_bit_common x y Hx Hy Hne) as [-> _]. f_equal. lia.
    + cbn [mbind res_bind]. rewrite Hd. f_equal. lia.
  - intros Hf Eu. rewrite Hf, <- Eu. cbn [common_length]. change (8 * evpn_addr_size =? 0) with false.
    rewrite (first_diff_past (u p1) 0); [done|]. rewrite H. change (Z.to_nat (8 * evpn_addr_size)) with 288%nat. lia.
  - intros E0. pose proof (common_length_nonneg (p_family p1)).
    destruct (Z.eqb_spec (common_length (p_family p1)) 0); [done|]. unfold n in E0. lia.
Qed.

Definition addr4 (a b c d len : Z) : prefix := Prefix AF_INET len ([a; b; c; d] ++ replicate 36 0).
Lemma prefix_common_bits_spec_witness :
  prefix_common_bits (addr4 10 1 0 0 16) (addr4 10 5 0 0 24) = Ret 13 /\
  prefix_common_bits (Prefix AF_EVPN 0 (replicate 40 7)) (Prefix AF_EVPN 0 (replicate 40 7)) = Fault.
Proof.
  split.
  - destruct (prefix_common_bits_spec (addr4 10 1 0 0 16) (addr4 10 5 0 0 24)) as [H _].
    + split; [repeat constructor; lia|done|done].
    + split; [repeat constructor; lia|done|done].
    + done.
    + rewrite H by auto. by vm_compute.
  - destruct (prefix_common_bits_spec (Prefix AF_EVPN 0 (replicate 40 7)) (Prefix AF_EVPN 0 (replicate 40 7)))
      as (_ & H & _); [split; [by apply Forall_replicate|done|done]..|done|]. by apply H.
Defined.

(** ** Netmasks *)

(** The bits of a mask of a given length *)
Definition mask_bits (n size : Z) : list bool :=
  replicate (Z.to_nat n) true ++ replicate (Z.to_nat (size - n)) false.

Definition mask4_ok (n : Z) : bool :=
  match masklen2ip n with
  | Ret m => bool_decide (abits m = mask_bits n 32) && (ip_masklen m =? n)
  | _ => false
  end.
Definition mask6_ok (n : Z) : bool :=
  match masklen2ip6 n with
  | Ret m => bool_decide (abits m = mask_bits n 128) &&
      match ip6_masklen m with
      | Ret k => negb (n =? 128) && (k =? n)
      | Fault => n =? 128
      | _ => false
      end
  | _ => false
  end.

(** C36. Netmask lengths survive the conversion to a mask and back, and the
    masks are that many ones followed by zeros; longer or negative lengths
    fail the assertions.  The one exception is the IPv6 mask of length 128:
    [ip6_masklen] reads the byte after it. *)
Theorem masklen_roundtrip (n : Z) :
  (0 <= n <= 32 -> exists m, masklen2ip n = Ret m /\ abits m = mask_bits n 32 /\ ip_masklen m = n) /\
  (0 <= n <= 128 -> exists m, masklen2ip6 n = Ret m /\ abits m = mask_bits n 128 /\
     ip6_masklen m = if n =? 128 then Fault else Ret n) /\
  (n < 0 \/ 32 < n -> masklen2ip n = AssertFail) /\
  (n < 0 \/ 128 < n -> masklen2ip6 n = AssertFail).
Proof.
  split_and!.
  - intros Hn. pose proof (forallb_seqZ mask4_ok 33 ltac:(vm_cast_no_check (eq_refl true)) n ltac:(lia)) as H.
    unfold mask4_ok in H. destruct (masklen2ip n) as [m| | |]; [|done..]. exists m.
    apply andb_true_iff in H as [H1%bool_decide_eq_true H2%Z.eqb_eq]. done.
  - intros Hn. pose proof (forallb_seqZ mask6_ok 129 ltac:(vm_cast_no_check (eq_refl true)) n ltac:(lia)) as H.
    unfold mask6_ok in H. destruct (masklen2ip6 n) as [m| | |]; [|done..]. exists m.
    apply andb_true_iff in H as [H1%bool_decide_eq_true H2].
    destruct (ip6_masklen m) as [k| | |], (n =? 128); try done. by apply Z.eqb_eq in H2 as ->.
  - intros Hn. unfold masklen2ip, IPV4_MAX_BITLEN.
    destruct (Z.leb_spec 0 n), (Z.leb_spec n 32); done || lia.
  - intros Hn. unfold masklen2ip6, IPV6_MAX_BITLEN.
    destruct (Z.leb_spec 0 n), (Z.leb_spec n 128); done || lia.
Qed.

Lemma masklen_roundtrip_witness :
  masklen2ip 20 = Ret [255; 255; 240; 0] /\ ip_masklen [255; 255; 240; 0] = 20 /\
  masklen2ip 33 = AssertFail.
Proof.
  split_and!.
  - by vm_compute.
  - destruct (masklen_roundtrip 20) as [(m & E & _ & H) _]; [lia|].
    replace m with [255; 255; 240; 0] in H by (apply (inj Ret); by rewrite <- E). done.
  - destruct (masklen_roundtrip 33) as (_ & _ & H & _). apply H. lia.
Defined.

(** ** Matching and comparing *)







