(* ===== verification/Heap.v ===== *)
(** * Allocation

    [malloc] and its relatives, for the memories of [SepLogic].  Where an
    object goes is the allocator's choice: [place h n] is an address in the
    memory [h] with [n] free bytes.  FRR's allocation functions end the
    process when memory runs out, so that they always return an object. *)

From S2P Require Import Prelude SepLogic.
From iris.proofmode Require Import proofmode.

#[local] Open Scope Z_scope.

Class Placement {V : Type} (place : gmap Z V -> Z -> Z) : Prop := {
  place_pos : forall h n, 0 < place h n;
  place_free : forall h n i, 0 <= i < n -> h !! (place h n + i) = None
}.

(** One placement: after everything else *)
Definition place_last {V} (h : gmap Z V) (n : Z) : Z := 1 + map_fold (fun a _ m => a `max` m) 0 h.

Lemma place_last_max {V} (h : gmap Z V) :
  0 <= map_fold (fun a _ m => a `max` m) 0 h /\
  forall a v, h !! a = Some v -> a <= map_fold (fun a _ m => a `max` m) 0 h.
Proof.
  apply (map_fold_weak_ind (fun m h => 0 <= m /\ forall a v, h !! a = Some v -> a <= m)).
  - split; [done|]. intros a v H. by rewrite lookup_empty in H.
  - intros a v h' m Ha [H0 IH]. split; [lia|]. intros b w [[<- _]|[_ Hb]]%lookup_insert_Some; [lia|].
    specialize (IH b w Hb). lia.
Qed.

#[export] Instance place_last_ok {V} : Placement (@place_last V).
Proof.
  split; intros h n; unfold place_last; pose proof (place_last_max h) as [H0 H]; [lia|].
  intros i Hi. destruct (h !! _) as [v|] eqn:E; [|done]. apply H in E. lia.
Qed.

Lemma big_sepL_imap {PROP : bi} {A B} (f : nat -> A -> B) (Φ : nat -> B -> PROP) (l : list A) :
  ([∗ list] k ↦ y ∈ imap f l, Φ k y) ⊣⊢ [∗ list] k ↦ x ∈ l, Φ k (f k x).
Proof.
  revert f Φ. induction l as [|x l IH]; intros f Φ; [done|]. simpl. f_equiv.
  rewrite (IH (f ∘ S) (fun k => Φ (S k))). done.
Qed.

Section alloc.
Context {V : Type} (place : gmap Z V -> Z -> Z).
Abbreviation heap := (gmap Z V).

(** An object of [n] bytes, with the cells [cells] at their offsets *)
Definition mem_alloc (n : Z) (cells : list (Z * V)) : M heap Z := fun h =>
  let a := place h n in
  Ret (a, list_to_map ((fun c => (a + c.1, c.2)) <$> cells) ∪ h).

(** [free]: the cells at these addresses are gone. *)
Fixpoint mem_free_all (l : list Z) : M heap unit :=
  match l with
  | [] => mret tt
  | a :: l => mem_free a ;; mem_free_all l
  end.

Lemma wp_alloc `{!Placement place} n cells (Q : Z -> hpropI V) :
  NoDup cells.*1 -> Forall (fun c => 0 <= c.1 < n) cells ->
  (∀ a, ⌜0 < a⌝ → ([∗ list] c ∈ cells, (a + c.1) ↦ c.2) -∗ Q a) ⊢ wp (mem_alloc n cells) Q.
Proof.
  intros Hnd Hin. constructor. intros h HQ hf Hd.
  set (a := place (h ∪ hf) n). pose proof (place_pos (h ∪ hf) n) as Ha.
  set (l := (fun c => (a + c.1, c.2)) <$> cells).
  assert (Hfst : l.*1 = (Z.add a) <$> cells.*1) by by rewrite /l -!list_fmap_compose.
  assert (Hndl : NoDup l.*1).
  { rewrite Hfst. apply NoDup_fmap_2; [|done]. intros ? ? ?. lia. }
  assert (Hfree : list_to_map l ##ₘ h ∪ hf).
  { apply map_disjoint_spec. intros i v w Hi Hw.
    apply elem_of_list_to_map in Hi; [|done]. apply list_elem_of_fmap in Hi as (c & [= -> ->] & Hc).
    rewrite Forall_forall in Hin. specialize (Hin c Hc). simpl in Hin.
    rewrite (place_free _ n) in Hw; [done|lia]. }
  apply map_disjoint_union_r in Hfree as [Hf1 Hf2].
  exists a, (list_to_map l ∪ h). split_and!.
  - unfold mem_alloc. by rewrite assoc_L.
  - by apply map_disjoint_union_l_2.
  - rewrite map_union_comm; [|done]. apply (HQ a Ha (list_to_map l)); [done|].
    eapply (hprop_entails_holds ([∗ list] p ∈ l, p.1 ↦ p.2)%I).
    { by rewrite /l big_sepL_fmap. }
    apply cells_hold; [done|]. apply Forall_fmap. eapply Forall_impl; [done|]. simpl. lia.
Qed.

Lemma wp_free_all (l : list Z) (vs : list V) (Q : unit -> hpropI V) :
  length l = length vs ->
  ([∗ list] a;v ∈ l;vs, a ↦ v) -∗ Q tt -∗ wp (mem_free_all l) Q.
Proof.
  revert vs. induction l as [|a l IH]; intros [|v vs] E; [|done..|]; simpl.
  - iIntros "_ HQ". by iApply wp_ret.
  - iIntros "[Ha Hl] HQ". iApply wp_bind. iApply (wp_free with "Ha").
    iApply (IH vs with "Hl HQ"). by injection E.
Qed.
End alloc.
