(* ===== verification/ThashSize.v ===== *)
(** * Sizes of hash tables (frr-frr-7.2/lib: typesafe.h, typesafe.c)

    The arithmetic of the bucket array: its size is a power of two, kept as a
    shift, and the bucket of a hash value is given by its top bits. *)

From S2P Require Import Prelude.

#[local] Open Scope Z_scope.

(** ** Sizes and shifts *)

(** Shifts of a [uint32_t], undefined from 32 bits on *)
Definition shl32 (z k : Z) : res Z :=
  if (0 <=? k) && (k <? 32) then Ret (u32 (Z.shiftl z k)) else Fault.
Definition shr32 (z k : Z) : res Z :=
  if (0 <=? k) && (k <? 32) then Ret (Z.shiftr z k) else Fault.

(** [_HASH_SIZE] and [_HASH_KEY] *)
Definition hash_size (shift : Z) : res Z := z ← shl32 1 shift; shr32 z 1.
Definition hash_index (shift val : Z) : res Z := shr32 val (33 - shift).

(** The first power of two above [n]: the [|=]s and the [++] of the resizing
    functions *)
Definition next_power (n : Z) : Z :=
  let n := Z.lor n (Z.shiftr n 1) in
  let n := Z.lor n (Z.shiftr n 2) in
  let n := Z.lor n (Z.shiftr n 4) in
  let n := Z.lor n (Z.shiftr n 8) in
  let n := Z.lor n (Z.shiftr n 16) in
  u32 (n + 1).

(** [__builtin_ctz], undefined at 0 *)
Definition builtin_ctz (z : Z) : res Z :=
  match z with Zpos p => Ret (pos_ctz p) | _ => Fault end.

(** ** Powers of two *)
Lemma smear_step n k j :
  0 <= k -> 0 < j -> (forall i, k - j < i <= k -> 0 <= i -> Z.testbit n i = true) ->
  (forall i, k < i -> Z.testbit n i = false) ->
  let m := Z.lor n (Z.shiftr n j) in
  (forall i, k - 2 * j < i <= k -> 0 <= i -> Z.testbit m i = true) /\
  (forall i, k < i -> Z.testbit m i = false).
Proof.
  intros Hk Hj H1 H2 m. split.
  - intros i Hi H0. unfold m. rewrite Z.lor_spec, Z.shiftr_spec by done.
    destruct (decide (k - j < i)); [by rewrite H1 by lia|]. rewrite (H1 (i + j)) by lia. apply orb_true_r.
  - intros i Hi. unfold m. rewrite Z.lor_spec, Z.shiftr_spec by lia. by rewrite !H2 by lia.
Qed.

Lemma next_power_eq n : 0 < n < 2 ^ 31 -> next_power n = 2 ^ (Z.log2 n + 1).
Proof.
  intros Hn. set (k := Z.log2 n). assert (0 <= k) by apply Z.log2_nonneg.
  assert (k < 31) by (apply Z.log2_lt_pow2; lia). unfold next_power. cbv zeta.
  destruct (smear_step n k 1) as [A1 B1]; [done|done| | |].
  { intros i Hi _. replace i with k by lia. apply Z.bit_log2. lia. }
  { intros i Hi. by apply Z.bits_above_log2; [lia|]. }
  destruct (smear_step _ k 2 ltac:(done) ltac:(done) A1 B1) as [A2 B2].
  destruct (smear_step _ k 4 ltac:(done) ltac:(done) A2 B2) as [A3 B3].
  destruct (smear_step _ k 8 ltac:(done) ltac:(done) A3 B3) as [A4 B4].
  destruct (smear_step _ k 16 ltac:(done) ltac:(done) A4 B4) as [A5 B5]. cbv zeta in *.
  set (m := Z.lor _ _) in A5, B5 |- *.
  assert (E : m = Z.ones (k + 1)).
  { apply Z.bits_inj'. intros i Hi. rewrite Z.testbit_ones_nonneg by lia.
    destruct (Z.ltb_spec i (k + 1)); [apply A5|apply B5]; lia. }
  rewrite E, Z.ones_equiv. replace (Z.pred (2 ^ (k + 1)) + 1) with (2 ^ (k + 1)) by lia.
  apply wrap_small. split; [apply Z.pow_nonneg; lia|]. apply Z.pow_lt_mono_r; lia.
Qed.

Lemma pos_ctz_pow2 (k : nat) : builtin_ctz (2 ^ Z.of_nat k) = Ret (Z.of_nat k).
Proof.
  induction k as [|k IH]; [done|].
  rewrite Nat2Z.inj_succ, Z.pow_succ_r by lia. revert IH.
  destruct (2 ^ Z.of_nat k) as [|p|p]; [done| |done]. cbn [builtin_ctz]. intros [= E].
  change (2 * Zpos p) with (Zpos p~0). cbn [builtin_ctz pos_ctz]. f_equal. lia.
Qed.

Lemma grow_shift n :
  0 < n < 2 ^ 30 ->
  builtin_ctz (next_power n) = Ret (Z.log2 n + 1) /\ u8 (Z.log2 n + 1 + 1) = Z.log2 n + 2 /\
  0 <= Z.log2 n < 30.
Proof.
  intros Hn. assert (0 <= Z.log2 n) by apply Z.log2_nonneg.
  assert (Z.log2 n < 30) by (apply Z.log2_lt_pow2; lia).
  rewrite next_power_eq by lia. split_and!; [|rewrite wrap_small by lia; lia|done..].
  replace (Z.log2 n + 1) with (Z.of_nat (Z.to_nat (Z.log2 n + 1))) by lia. apply pos_ctz_pow2.
Qed.

Lemma hash_size_eq s : 1 <= s <= 31 -> hash_size s = Ret (2 ^ (s - 1)).
Proof.
  intros Hs. unfold hash_size, shl32, shr32.
  destruct (Z.leb_spec 0 s), (Z.ltb_spec s 32); [|lia..]. cbn [andb mbind res_bind Z.leb Z.ltb Z.compare].
  f_equal. rewrite Z.shiftl_mul_pow2, Z.mul_1_l by lia. rewrite wrap_small.
  - rewrite Z.shiftr_div_pow2 by done. change (2 ^ 1) with 2.
    replace s with (1 + (s - 1)) at 1 by lia. rewrite Z.pow_add_r by lia. change (2 ^ 1) with 2.
    rewrite Z.mul_comm. by apply Z.div_mul.
  - split; [apply Z.pow_nonneg; lia|]. apply Z.pow_lt_mono_r; lia.
Qed.

Lemma shl32_1 k : 0 <= k < 32 -> shl32 1 k = Ret (2 ^ k).
Proof.
  intros Hk. unfold shl32. destruct (Z.leb_spec 0 k), (Z.ltb_spec k 32); [|lia..]. cbn [andb].
  f_equal. rewrite Z.shiftl_mul_pow2, Z.mul_1_l by lia. apply wrap_small.
  split; [apply Z.pow_nonneg; lia|]. apply Z.pow_lt_mono_r; lia.
Qed.

(** The bucket of a hash value among [2 ^ k] *)
Definition bucket_of (k v : Z) : Z := v / 2 ^ (32 - k).

Lemma hash_index_eq s v : 2 <= s <= 31 -> hash_index s v = Ret (bucket_of (s - 1) v).
Proof.
  intros Hs. unfold hash_index, shr32, bucket_of.
  destruct (Z.leb_spec 0 (33 - s)), (Z.ltb_spec (33 - s) 32); [|lia..]. cbn [andb].
  rewrite Z.shiftr_div_pow2 by lia. do 3 f_equal. lia.
Qed.

Lemma bucket_of_bound k v :
  0 <= k <= 32 -> 0 <= v < 2 ^ 32 -> 0 <= bucket_of k v < 2 ^ k.
Proof.
  intros Hk Hv. unfold bucket_of. assert (0 < 2 ^ (32 - k)) by (apply Z.pow_pos_nonneg; lia).
  split; [apply Z.div_pos; lia|]. apply Z.div_lt_upper_bound; [done|].
  rewrite <- Z.pow_add_r by lia. replace (32 - k + k) with 32 by lia. lia.
Qed.

(** Doubling [d] times splits a bucket into [2 ^ d]. *)
Lemma bucket_of_split k d v :
  0 <= k -> 0 <= d -> k + d <= 32 ->
  bucket_of k v = bucket_of (k + d) v / 2 ^ d /\
  bucket_of (k + d) v = bucket_of k v * 2 ^ d + bucket_of (k + d) v mod 2 ^ d.
Proof.
  intros Hk Hd Hle. assert (E : bucket_of k v = bucket_of (k + d) v / 2 ^ d).
  { unfold bucket_of. rewrite Z.div_div by (apply Z.pow_nonzero || apply Z.pow_pos_nonneg; lia).
    rewrite <- Z.pow_add_r by lia. do 2 f_equal. lia. }
  split; [done|]. rewrite E at 1. rewrite Z.mul_comm. apply Z.div_mod. apply Z.pow_nonzero; lia.
Qed.
