(* ===== verification/Thash.v ===== *)
(** * Typesafe hash tables (frr-frr-7.2/lib: typesafe.h, typesafe.c)

    The functions that [DECLARE_HASH] generates and the resizing they share.
    The table is an array of buckets; a bucket is a list of items, sorted by
    hash value, and the bucket of an item is given by the top bits of its
    hash value.

    Memory is modelled by cells.  A [struct thash_item] at [a] is the cell of
    its [next] pointer at [a] and that of its [hashval] at [a + 8]; the
    bucket array at [e] is a cell every 8 bytes.  A [struct thash_item **] is
    then the address of a cell that holds a pointer, be it a bucket or the
    [next] of an item. *)

From S2P Require Import Prelude SepLogic Heap ThashSize.

#[local] Open Scope Z_scope.

Record thash_head := ThashHead {
  entries : Z;
  h_count : Z;
  tabshift : Z;
  minshift : Z;
  maxshift : Z
}.

(** The cells of memory; [U] are the objects the items are part of. *)
Inductive hcell (U : Type) : Type :=
  | CPtr (p : Z)
  | CWord (w : Z)
  | CHead (h : thash_head)
  | CUser (x : U).
Arguments CPtr {U} p.
Arguments CWord {U} w.
Arguments CHead {U} h.
Arguments CUser {U} x.

(** What [DECLARE_HASH(prefix, type, field, cmpfn, hashfn)] is given: the
    offset of [field], the part of an object the two functions look at, and
    the functions. *)
Record hash_decl (U K : Type) := HashDecl {
  hash_field : Z;
  hash_key : U -> option K;
  cmpfn : K -> K -> res Z;
  hashfn : K -> res Z
}.
Arguments hash_field {U K} _.
Arguments hash_key {U K} _ _.
Arguments cmpfn {U K} _ _ _.
Arguments hashfn {U K} _ _.

(** ** Sizes *)
Definition HASH_SIZE (h : thash_head) : res Z := hash_size (tabshift h).
Definition HASH_KEY (h : thash_head) (val : Z) : res Z := hash_index (tabshift h) val.
Definition HASH_GROW_THRESHOLD (h : thash_head) : res bool :=
  n ← HASH_SIZE h; Ret (n <=? h_count h).
Definition HASH_SHRINK_THRESHOLD (h : thash_head) : res bool :=
  n ← HASH_SIZE h; Ret (h_count h <=? u32 (n - 1) / 2).

Definition set_entries (e : Z) (h : thash_head) : thash_head :=
  ThashHead e (h_count h) (tabshift h) (minshift h) (maxshift h).
Definition set_count (n : Z) (h : thash_head) : thash_head :=
  ThashHead (entries h) n (tabshift h) (minshift h) (maxshift h).
Definition set_tabshift (s : Z) (h : thash_head) : thash_head :=
  ThashHead (entries h) (h_count h) s (minshift h) (maxshift h).
Definition set_minshift (s : Z) (h : thash_head) : thash_head :=
  ThashHead (entries h) (h_count h) (tabshift h) s (maxshift h).

Section thash.
Context {U K : Type} (D : hash_decl U K) (place : gmap Z (hcell U) -> Z -> Z).
Abbreviation mem := (gmap Z (hcell U)).

(** ** Cells *)
Definition load_ptr (a : Z) : M mem Z :=
  c ← mem_load a; match c with CPtr p => mret p | _ => mfault end.
Definition load_word (a : Z) : M mem Z :=
  c ← mem_load a; match c with CWord w => mret w | _ => mfault end.
Definition load_head (a : Z) : M mem thash_head :=
  c ← mem_load a; match c with CHead h => mret h | _ => mfault end.
Definition store_ptr (a p : Z) : M mem unit := load_ptr a ;; mem_store a (CPtr p).
Definition store_word (a w : Z) : M mem unit := load_word a ;; mem_store a (CWord w).
Definition store_head (a : Z) (h : thash_head) : M mem unit := load_head a ;; mem_store a (CHead h).
Definition update_head (a : Z) (f : thash_head -> thash_head) : M mem unit :=
  h ← load_head a; store_head a (f h).

(** [item->hashval] *)
Definition load_hashval (item : Z) : M mem Z := load_word (item + 8).
(** [&head->entries[i]] *)
Definition bucket (h : thash_head) (i : Z) : Z := entries h + 8 * i.
(** [container_of(hitem, type, field)] and back *)
Definition container_of (hitem : Z) : Z := hitem - hash_field D.
Definition item_of (obj : Z) : Z := obj + hash_field D.
(** The key of the object at [obj] *)
Definition load_key (obj : Z) : M mem K :=
  c ← mem_load obj;
  match c with
  | CUser x => match hash_key D x with Some k => mret k | None => mfault end
  | _ => mfault
  end.

(** ** Resizing *)

(** [k] buckets from [e] on *)
Definition bucket_range (e : Z) (k : nat) : list Z := (fun i => e + 8 * i) <$> seqZ 0 (Z.of_nat k).

Fixpoint load_ptrs (l : list Z) : M mem (list Z) :=
  match l with
  | [] => mret []
  | a :: l => p ← load_ptr a; ps ← load_ptrs l; mret (p :: ps)
  end.

(** [XREALLOC] of the bucket array, of [old] buckets, to [new] of them, and
    [memset] to 0 of those that are added *)
Definition realloc_buckets (e old new : Z) : M mem Z :=
  ps ← load_ptrs (bucket_range e (Z.to_nat old));
  mem_free_all (bucket_range e (Z.to_nat old)) ;;
  let kept := take (Z.to_nat new) (ps ++ replicate (Z.to_nat (new - old)) 0) in
  mem_alloc place (8 * new) (imap (fun i p => (8 * Z.of_nat i, CPtr p)) kept).

(** [while (( *apos) && go( *apos)) apos = &( *apos)->next;]: the loops over
    the items of a bucket *)
Fixpoint scan (go : Z -> M mem bool) (fuel : nat) (apos : Z) : M mem Z :=
  match fuel with
  | O => mnofuel
  | S fuel =>
      item ← load_ptr apos;
      if item =? 0 then mret apos
      else
        b ← go item;
        if b : bool then scan go fuel item else mret apos
  end.

(** In [typesafe_hash_grow]: where the items of bucket [j] end *)
Definition grow_scan (newshift delta j : Z) : nat -> Z -> M mem Z :=
  scan (fun item =>
    hashval ← load_hashval item;
    key ← mlift (hash_index newshift hashval);
    one ← mlift (shl32 1 delta);
    let midbits := Z.land key (u32 (one - 1)) in
    mret (negb (j <? midbits))).

(** [for (j = 0; j < (1U << delta); j++)]: bucket [i] of the old table is cut
    into [n] buckets of the new one, from the [j]th on. *)
Fixpoint grow_bucket (n : nat) (h : thash_head) (newshift delta i j apos : Z) : M mem unit :=
  match n with
  | O => mret tt
  | S n =>
      item ← load_ptr apos;
      store_ptr apos 0 ;;
      first ← mlift (shl32 i delta);
      store_ptr (bucket h (first + j)) item ;;
      fuel ← mem_fuel;
      apos ← grow_scan newshift delta j fuel (bucket h (first + j));
      grow_bucket n h newshift delta i (j + 1) apos
  end.

(** [do { i--; ... } while (i > 0)] *)
Fixpoint grow_buckets (i : nat) (h : thash_head) (newshift delta : Z) : M mem unit :=
  match i with
  | O => mret tt
  | S i =>
      n ← mlift (shl32 1 delta);
      grow_bucket (Z.to_nat n) h newshift delta (Z.of_nat i) 0 (bucket h (Z.of_nat i)) ;;
      grow_buckets i h newshift delta
  end.

Definition typesafe_hash_grow (head : Z) : M mem unit :=
  h ← load_head head;
  k ← mlift (builtin_ctz (next_power (h_count h)));
  let newshift := u8 (k + 1) in
  let newshift :=
    if negb (maxshift h =? 0) && (maxshift h <? newshift) then maxshift h else newshift in
  if newshift =? tabshift h then mret tt
  else
    newsize ← mlift (hash_size newshift);
    size ← mlift (HASH_SIZE h);
    e ← realloc_buckets (entries h) size newsize;
    update_head head (set_entries e) ;;
    h ← load_head head;
    let delta := u8 (newshift - tabshift h) in
    grow_buckets (Z.to_nat size) h newshift delta ;;
    update_head head (set_tabshift newshift).

(** In [typesafe_hash_shrink]: the end of a list *)
Definition list_end : nat -> Z -> M mem Z := scan (fun _ => mret true).

(** [for (j = 0; j < (1U << delta); j++)]: [n] buckets of the old table, from
    the [j]th of those of [i] on, are joined. *)
Fixpoint shrink_bucket (n : nat) (h : thash_head) (delta i j apos : Z) : M mem unit :=
  match n with
  | O => mret tt
  | S n =>
      first ← mlift (shl32 i delta);
      item ← load_ptr (bucket h (first + j));
      store_ptr apos item ;;
      fuel ← mem_fuel;
      apos ← list_end fuel apos;
      shrink_bucket n h delta i (j + 1) apos
  end.

(** [for (i = 0; i < newsize; i++)] *)
Definition shrink_buckets (newsize : Z) (h : thash_head) (delta : Z) : M mem unit :=
  n ← mlift (shl32 1 delta);
  mfor (Z.to_nat newsize) 0 (fun i => shrink_bucket (Z.to_nat n) h delta i 0 (bucket h i)).

Definition typesafe_hash_shrink (head : Z) : M mem unit :=
  h ← load_head head;
  size ← mlift (HASH_SIZE h);
  if h_count h =? 0 then
    mem_free_all (bucket_range (entries h) (Z.to_nat size)) ;;
    update_head head (fun h => set_tabshift 0 (set_entries 0 h))
  else
    k ← mlift (builtin_ctz (next_power (h_count h)));
    let newshift := u8 (k + 1) in
    let newshift :=
      if negb (minshift h =? 0) && (newshift <? minshift h) then minshift h else newshift in
    if newshift =? tabshift h then mret tt
    else
      newsize ← mlift (hash_size newshift);
      let delta := u8 (tabshift h - newshift) in
      shrink_buckets newsize h delta ;;
      e ← realloc_buckets (entries h) size newsize;
      update_head head (fun h => set_tabshift newshift (set_entries e h)).

(** ** The generated functions *)
Definition hash_init (head : Z) : M mem unit := store_head head (ThashHead 0 0 0 0 0).

Definition hash_fini (head : Z) : M mem unit :=
  h ← load_head head;
  massert (h_count h =? 0) ;;
  update_head head (set_minshift 0) ;;
  typesafe_hash_shrink head ;;
  store_head head (ThashHead 0 0 0 0 0).

(** [while ( *np && ( *np)->hashval < hval) np = &( *np)->next;] *)
Definition skip_lower (hval : Z) : nat -> Z -> M mem Z :=
  scan (fun item => v ← load_hashval item; mret (v <? hval)).

Definition hash_add (head obj : Z) : M mem Z :=
  update_head head (fun h => set_count (u32 (h_count h + 1)) h) ;;
  h ← load_head head;
  (grow ← mlift (HASH_GROW_THRESHOLD h);
   mwhen ((tabshift h =? 0) || grow) (typesafe_hash_grow head)) ;;
  k ← load_key obj;
  hval ← mlift (hashfn D k);
  h ← load_head head;
  hbits ← mlift (HASH_KEY h hval);
  store_word (item_of obj + 8) hval ;;
  fuel ← mem_fuel;
  np ← skip_lower hval fuel (bucket h hbits);
  item ← load_ptr np;
  same ←
    (if item =? 0 then mret false
     else
       k' ← load_key (container_of item);
       c ← mlift (cmpfn D k' k);
       mret (c =? 0));
  if same : bool then
    update_head head (fun h => set_count (u32 (h_count h - 1)) h) ;;
    mret (container_of item)
  else
    store_ptr (item_of obj) item ;;
    store_ptr np (item_of obj) ;;
    mret 0.

(** [while (hitem && hitem->hashval == hval)] *)
Fixpoint find_equal (fuel : nat) (k : K) (hval hitem : Z) : M mem Z :=
  match fuel with
  | O => mnofuel
  | S fuel =>
      if hitem =? 0 then mret 0
      else
        v ← load_hashval hitem;
        if negb (v =? hval) then mret 0
        else
          k' ← load_key (container_of hitem);
          c ← mlift (cmpfn D k' k);
          if c =? 0 then mret (container_of hitem)
          else
            next ← load_ptr hitem;
            find_equal fuel k hval next
  end.

(** [k] is the key of the object to look for. *)
Definition hash_find (head : Z) (k : K) : M mem Z :=
  h ← load_head head;
  if tabshift h =? 0 then mret 0
  else
    hval ← mlift (hashfn D k);
    hbits ← mlift (HASH_KEY h hval);
    fuel ← mem_fuel;
    np ← skip_lower hval fuel (bucket h hbits);
    fuel ← mem_fuel;
    hitem ← load_ptr np;
    find_equal fuel k hval hitem.

(** [while ( *np && *np != &item->field.hi && ( *np)->hashval == hval)] *)
Definition skip_others (item hval : Z) : nat -> Z -> M mem Z :=
  scan (fun p => if p =? item then mret false else v ← load_hashval p; mret (v =? hval)).

Definition hash_del (head obj : Z) : M mem Z :=
  h ← load_head head;
  if tabshift h =? 0 then mret 0
  else
    hval ← load_hashval (item_of obj);
    hbits ← mlift (HASH_KEY h hval);
    fuel ← mem_fuel;
    np ← skip_lower hval fuel (bucket h hbits);
    fuel ← mem_fuel;
    np ← skip_others (item_of obj) hval fuel np;
    p ← load_ptr np;
    if negb (p =? item_of obj) then mret 0
    else
      next ← load_ptr (item_of obj);
      store_ptr np next ;;
      store_ptr (item_of obj) 0 ;;
      update_head head (fun h => set_count (u32 (h_count h - 1)) h) ;;
      h ← load_head head;
      (shrink ← mlift (HASH_SHRINK_THRESHOLD h);
       mwhen shrink (typesafe_hash_shrink head)) ;;
      mret obj.

(** The first bucket from [i] on that is not empty, of [n] buckets left *)
Fixpoint first_bucket (n : nat) (h : thash_head) (i : Z) : M mem (option Z) :=
  match n with
  | O => mret None
  | S n =>
      p ← load_ptr (bucket h i);
      if p =? 0 then first_bucket n h (i + 1) else mret (Some i)
  end.

Definition hash_pop (head : Z) : M mem Z :=
  h ← load_head head;
  size ← mlift (HASH_SIZE h);
  b ← first_bucket (Z.to_nat size) h 0;
  match b with
  | None => mret 0
  | Some i =>
      hitem ← load_ptr (bucket h i);
      next ← load_ptr hitem;
      store_ptr (bucket h i) next ;;
      update_head head (fun h => set_count (u32 (h_count h - 1)) h) ;;
      store_ptr hitem 0 ;;
      h ← load_head head;
      (shrink ← mlift (HASH_SHRINK_THRESHOLD h);
       mwhen shrink (typesafe_hash_shrink head)) ;;
      mret (container_of hitem)
  end.

Definition hash_first (head : Z) : M mem Z :=
  h ← load_head head;
  size ← mlift (HASH_SIZE h);
  b ← first_bucket (Z.to_nat size) h 0;
  match b with
  | None => mret 0
  | Some i => hitem ← load_ptr (bucket h i); mret (container_of hitem)
  end.

Definition hash_next (head obj : Z) : M mem Z :=
  next ← load_ptr (item_of obj);
  if negb (next =? 0) then mret (container_of next)
  else
    h ← load_head head;
    v ← load_hashval (item_of obj);
    key ← mlift (HASH_KEY h v);
    size ← mlift (HASH_SIZE h);
    let i := u32 (key + 1) in
    b ← first_bucket (Z.to_nat (size - i)) h i;
    match b with
    | None => mret 0
    | Some i => hitem ← load_ptr (bucket h i); mret (container_of hitem)
    end.

Definition hash_next_safe (head obj : Z) : M mem Z :=
  if obj =? 0 then mret 0 else hash_next head obj.

(** [frr_each]: [for (item = first(head); item; item = next(head, item))] *)
Fixpoint each_from (fuel : nat) (head obj : Z) : M mem (list Z) :=
  match fuel with
  | O => mnofuel
  | S fuel =>
      if obj =? 0 then mret []
      else next ← hash_next head obj; rest ← each_from fuel head next; mret (obj :: rest)
  end.
Definition hash_each (head : Z) : M mem (list Z) :=
  fuel ← mem_fuel; obj ← hash_first head; each_from fuel head obj.

Definition hash_count (head : Z) : M mem Z := h ← load_head head; mret (h_count h).
End thash.
