(* ===== verification/ThashResize.v ===== *)
(** * Hash buckets in memory

    [items_at np l]: the pointer at [np] starts a list of the items [l], given by
    their addresses and hash values.  The loops of typesafe.h and typesafe.c
    over one bucket compute functions on lists. *)

From stdpp Require Import sorting.
From iris.proofmode Require Import proofmode.
From S2P Require Import Prelude SepLogic Heap ThashSize Thash.

#[local] Open Scope Z_scope.

Section chains.
Context {U : Type}.
Abbreviation mem := (gmap Z (hcell U)).
Abbreviation hP := (hpropI (hcell U)).

(** ** Cells *)
Lemma wp_load_ptr a p (Q : Z -> hP) :
  a ↦ CPtr p -∗ (a ↦ CPtr p -∗ Q p) -∗ wp (load_ptr a) Q.
Proof.
  iIntros "H HQ". iApply wp_bind. iApply (wp_load with "H"). iIntros "H".
  iApply wp_ret. by iApply "HQ".
Qed.

Lemma wp_load_word a w (Q : Z -> hP) :
  a ↦ CWord w -∗ (a ↦ CWord w -∗ Q w) -∗ wp (load_word a) Q.
Proof.
  iIntros "H HQ". iApply wp_bind. iApply (wp_load with "H"). iIntros "H".
  iApply wp_ret. by iApply "HQ".
Qed.

Lemma wp_load_head a h (Q : thash_head -> hP) :
  a ↦ CHead h -∗ (a ↦ CHead h -∗ Q h) -∗ wp (load_head a) Q.
Proof.
  iIntros "H HQ". iApply wp_bind. iApply (wp_load with "H"). iIntros "H".
  iApply wp_ret. by iApply "HQ".
Qed.

Lemma wp_store_ptr a p p' (Q : unit -> hP) :
  a ↦ CPtr p -∗ (a ↦ CPtr p' -∗ Q tt) -∗ wp (store_ptr a p') Q.
Proof.
  iIntros "H HQ". iApply wp_bind. iApply (wp_load_ptr with "H"). iIntros "H".
  iApply (wp_store with "H HQ").
Qed.

Lemma wp_store_word a w w' (Q : unit -> hP) :
  a ↦ CWord w -∗ (a ↦ CWord w' -∗ Q tt) -∗ wp (store_word a w') Q.
Proof.
  iIntros "H HQ". iApply wp_bind. iApply (wp_load_word with "H"). iIntros "H".
  iApply (wp_store with "H HQ").
Qed.

Lemma wp_store_head a h h' (Q : unit -> hP) :
  a ↦ CHead h -∗ (a ↦ CHead h' -∗ Q tt) -∗ wp (store_head a h') Q.
Proof.
  iIntros "H HQ". iApply wp_bind. iApply (wp_load_head with "H"). iIntros "H".
  iApply (wp_store with "H HQ").
Qed.

Lemma wp_update_head a h f (Q : unit -> hP) :
  a ↦ CHead h -∗ (a ↦ CHead (f h) -∗ Q tt) -∗ wp (update_head a f) Q.
Proof.
  iIntros "H HQ". iApply wp_bind. iApply (wp_load_head with "H"). iIntros "H".
  iApply (wp_store_head with "H HQ").
Qed.

Lemma wp_mlift {A} (r : res A) a (Q : A -> hP) : r = Ret a -> Q a ⊢ wp (mlift r) Q.
Proof. intros ->. apply wp_ret. Qed.

(** ** Lists of items *)

(** An item: its address and its hash value *)
Implicit Types l : list (Z * Z).

Fixpoint items_at (np : Z) l : hP :=
  match l with
  | [] => np ↦ CPtr 0
  | (a, v) :: l => np ↦ CPtr a ∗ (a + 8) ↦ CWord v ∗ items_at a l
  end%I.

(** The cells of a list but for its last pointer, which is at [seg_end np l] *)
Fixpoint seg (np : Z) l : hP :=
  match l with
  | [] => emp
  | (a, v) :: l => np ↦ CPtr a ∗ (a + 8) ↦ CWord v ∗ seg a l
  end%I.
Definition seg_end (np : Z) l : Z := default np (fst <$> last l).

Lemma seg_end_cons np a v l : seg_end np ((a, v) :: l) = seg_end a l.
Proof.
  unfold seg_end. destruct l as [|x l _] using rev_ind; [done|].
  by rewrite app_comm_cons !last_snoc.
Qed.

Lemma items_at_app np l1 l2 : items_at np (l1 ++ l2) ⊣⊢ seg np l1 ∗ items_at (seg_end np l1) l2.
Proof.
  revert np. induction l1 as [|[a v] l1 IH]; intros np; [by rewrite /= left_id|].
  cbn [app items_at seg]. by rewrite IH seg_end_cons -!assoc.
Qed.

Lemma items_at_first np l : items_at np l ⊢ ∃ p, np ↦ CPtr p ∗ (np ↦ CPtr p -∗ items_at np l).
Proof.
  destruct l as [|[a v] l]; simpl.
  - iIntros "H". iExists 0. iFrame. by iIntros.
  - iIntros "(H & Hw & Hc)". iExists a. iFrame. by iIntros.
Qed.

Lemma items_at_nonnull np l : items_at np l ⊢ ⌜np <> 0⌝.
Proof.
  rewrite items_at_first. iIntros "(%p & H & _)". iApply (points_to_nonnull with "H").
Qed.

Lemma at_least_items np l : items_at np l ⊢ at_least (S (length l)).
Proof.
  revert np. induction l as [|[a v] l IH]; intros np; cbn [items_at length].
  - apply at_least_points_to.
  - rewrite IH !at_least_points_to. iIntros "(Hp & Hw & Hc)".
    iDestruct (at_least_sep with "[$Hw $Hc]") as "Hc".
    iDestruct (at_least_sep with "[$Hp $Hc]") as "H". iApply (at_least_mono with "H"). lia.
Qed.

(** Split a list where a test fails first. *)
Fixpoint span (f : Z * Z -> bool) l : list (Z * Z) * list (Z * Z) :=
  match l with
  | [] => ([], [])
  | x :: l => if f x then (x :: (span f l).1, (span f l).2) else ([], x :: l)
  end.

Lemma span_app f l : (span f l).1 ++ (span f l).2 = l.
Proof. induction l as [|x l IH]; simpl; [done|]. destruct (f x); simpl; [by rewrite IH|done]. Qed.

(** The loops over a bucket stop where their test fails. *)
Lemma wp_scan (go : Z -> M mem bool) (f : Z * Z -> bool) l fuel np (Q : Z -> hP) :
  (length l < fuel)%nat ->
  (forall a v (Q' : bool -> hP), (a, v) ∈ l ->
     (a + 8) ↦ CWord v -∗ ((a + 8) ↦ CWord v -∗ Q' (f (a, v))) -∗ wp (go a) Q') ->
  items_at np l -∗
  (seg np (span f l).1 -∗ items_at (seg_end np (span f l).1) (span f l).2 -∗ Q (seg_end np (span f l).1)) -∗
  wp (scan go fuel np) Q.
Proof.
  revert fuel np Q. induction l as [|[a v] l IH]; intros [|fuel] np Q Hf Hgo; [simpl in Hf; lia|..|simpl in Hf; lia|];
    cbn [scan items_at span length] in *.
  - iIntros "H HQ". iApply wp_bind. iApply (wp_load_ptr with "H"). iIntros "H". rewrite Z.eqb_refl.
    iApply wp_ret. by iApply ("HQ" with "[//] H").
  - iIntros "(Hp & Hw & Hc) HQ". iApply wp_bind. iApply (wp_load_ptr with "Hp"). iIntros "Hp".
    iDestruct (items_at_nonnull with "Hc") as %Ha. destruct (Z.eqb_spec a 0); [done|].
    iApply wp_bind. iApply (Hgo a v with "Hw"). { by left. } iIntros "Hw".
    destruct (f (a, v)); cbn [fst snd seg]; rewrite ?seg_end_cons.
    + iApply (IH with "Hc"). { lia. } { intros b w Q' Hin. apply Hgo. by right. }
      iIntros "Hs Hc". iApply ("HQ" with "[$Hp $Hw $Hs] Hc").
    + iApply wp_ret. iApply ("HQ" with "[//]"). cbn [items_at]. iFrame.
Qed.
End chains.

(** ** Growing and shrinking hash tables

    [typesafe_hash_grow] cuts every bucket into pieces and
    [typesafe_hash_shrink] joins buckets, both in place, from one end of the
    array to the other. *)

Section resize.
Context {U : Type} (place : gmap Z (hcell U) -> Z -> Z) `{!Placement place}.
Abbreviation mem := (gmap Z (hcell U)).
Abbreviation hP := (hpropI (hcell U)).
Implicit Types l c r : list (Z * Z).

(** ** The bucket array *)
Definition ptrs_at (e : Z) (ps : list Z) : hP := ([∗ list] k ↦ p ∈ ps, (e + 8 * Z.of_nat k) ↦ CPtr p)%I.
Definition buckets_at (e : Z) (cs : list (list (Z * Z))) : hP :=
  ([∗ list] k ↦ c ∈ cs, items_at (e + 8 * Z.of_nat k) c)%I.
(** Buckets whose contents do not matter *)
Definition junk_at (e : Z) (ks : list nat) : hP :=
  ([∗ list] k ∈ ks, ∃ p, (e + 8 * Z.of_nat k) ↦ CPtr p)%I.

(** A list hangs on its first pointer, wherever that is. *)
Lemma items_at_move np l : items_at np l ⊢ ∃ p : Z, np ↦ CPtr p ∗ (∀ q, q ↦ CPtr p -∗ items_at (U := U) q l).
Proof.
  destruct l as [|[a v] l]; simpl.
  - iIntros "H". iExists 0. iFrame. by iIntros (q) "H".
  - iIntros "(H & Hw & Hc)". iExists a. iFrame. by iIntros (q) "$".
Qed.

Lemma buckets_open e cs :
  buckets_at e cs ⊢ ∃ ps, ⌜length ps = length cs⌝ ∧ (ptrs_at e ps ∗ (∀ e', ptrs_at e' ps -∗ buckets_at e' cs)).
Proof.
  unfold ptrs_at, buckets_at. induction cs as [|c cs IH] using rev_ind.
  - iIntros "_". iExists []. simpl. iSplit; [done|]. iSplit; [done|]. by iIntros (e') "_".
  - rewrite big_sepL_app IH. cbn [big_opL]. rewrite items_at_move.
    iIntros "((%ps & %Hl & Hps & Hcs) & (%p & Hp & Hc) & _)". iExists (ps ++ [p]).
    iSplit. { iPureIntro. by rewrite !length_app Hl. }
    rewrite /ptrs_at !big_sepL_app Hl. cbn [big_opL]. iFrame.
    iIntros (e') "(Hps & Hp & _)". rewrite !big_sepL_app Hl. cbn [big_opL].
    iSplitL "Hcs Hps"; [by iApply "Hcs"|]. iSplit; [|done]. by iApply "Hc".
Qed.

Lemma wp_load_ptrs ps addrs (Q : list Z -> hP) :
  length addrs = length ps ->
  ([∗ list] a;p ∈ addrs;ps, a ↦ CPtr p) -∗
  (([∗ list] a;p ∈ addrs;ps, a ↦ CPtr p) -∗ Q ps) -∗ wp (load_ptrs addrs) Q.
Proof.
  revert addrs Q. induction ps as [|p ps IH]; intros [|a addrs] Q E; [|done..|]; cbn [load_ptrs].
  - iIntros "H HQ". iApply wp_ret. by iApply "HQ".
  - injection E as E. simpl. iIntros "[Ha Hl] HQ". iApply wp_bind. iApply (wp_load_ptr with "Ha").
    iIntros "Ha". iApply wp_bind. iApply (IH with "Hl"); [done|]. iIntros "Hl". iApply wp_ret.
    iApply "HQ". iFrame.
Qed.

Lemma length_bucket_range e k : length (bucket_range e k) = k.
Proof. rewrite length_fmap length_seqZ. lia. Qed.

Lemma ptrs_at_range e ps :
  ptrs_at e ps ⊣⊢ [∗ list] a;p ∈ bucket_range e (length ps);ps, a ↦ CPtr p.
Proof.
  unfold ptrs_at. rewrite big_sepL2_alt. rewrite length_bucket_range.
  assert (E : zip (bucket_range e (length ps)) ps = imap (fun k p => (e + 8 * Z.of_nat k, p)) ps).
  { apply list_eq. intros i. rewrite lookup_zip_with list_lookup_imap /bucket_range list_lookup_fmap.
    destruct (ps !! i) as [p|] eqn:Ep; simpl.
    - apply lookup_lt_Some in Ep as Hi. rewrite lookup_seqZ_lt; [done|lia].
    - by destruct (seqZ _ _ !! i). }
  rewrite E big_sepL_imap. iSplit; [iIntros "$"; done|by iIntros "[_ $]"].
Qed.

Lemma wp_realloc e ps (new : Z) (Q : Z -> hP) :
  0 <= new ->
  ptrs_at e ps -∗
  (∀ e', ⌜0 < e'⌝ → ptrs_at e' (take (Z.to_nat new) (ps ++ replicate (Z.to_nat new - length ps) 0)) -∗ Q e') -∗
  wp (realloc_buckets place e (Z.of_nat (length ps)) new) Q.
Proof.
  intros Hn. iIntros "Hp HQ". unfold realloc_buckets. rewrite Nat2Z.id.
  replace (Z.to_nat (new - Z.of_nat (length ps))) with (Z.to_nat new - length ps)%nat by lia.
  rewrite ptrs_at_range. iApply wp_bind. iApply (wp_load_ptrs with "Hp"); [apply length_bucket_range|].
  iIntros "Hp". iApply wp_bind. iApply (wp_free_all _ (CPtr <$> ps) with "[Hp]").
  { by rewrite length_bucket_range length_fmap. }
  { by rewrite big_sepL2_fmap_r. }
  set (kept := take _ _).
  iApply wp_alloc.
  - apply NoDup_alt. intros i j x. rewrite fmap_imap !list_lookup_imap. simpl.
    intros (p & _ & ->)%fmap_Some (p' & _ & E)%fmap_Some. simpl in E. lia.
  - apply Forall_lookup. intros i x. rewrite list_lookup_imap. intros (p & Hp & ->)%fmap_Some.
    apply lookup_lt_Some in Hp. unfold kept in Hp. rewrite length_take in Hp. simpl. lia.
  - iIntros (a Ha) "H". iApply "HQ"; [done|]. rewrite big_sepL_imap. done.
Qed.

(** ** Cutting a bucket *)
Section grow.
Context (h : thash_head) (ns : Z) (d : nat).
Hypothesis Hns : 2 <= ns <= 31.
Hypothesis Hd : (d <= 30)%nat.

(** The piece of a bucket an item goes to *)
Definition mid (v : Z) : Z := bucket_of (ns - 1) v mod 2 ^ Z.of_nat d.
Definition piece (j : nat) r : list (Z * Z) := filter (fun x => mid x.2 = Z.of_nat j) r.
Definition pieces_from (j : nat) r : list (Z * Z) := filter (fun x => Z.of_nat j <= mid x.2) r.
Definition mid_sorted r : Prop := StronglySorted (fun x y => mid x.2 <= mid y.2) r.

Lemma span_piece j r :
  mid_sorted r -> Forall (fun x => Z.of_nat j <= mid x.2) r ->
  span (fun x => negb (Z.of_nat j <? mid x.2)) r = (piece j r, pieces_from (S j) r).
Proof.
  intros Hs Hf. induction r as [|x r IH]; [done|].
  apply StronglySorted_inv in Hs as [Hs Hx]. apply Forall_cons in Hf as [Hxj Hf].
  cbn [span]. rewrite IH //. unfold piece, pieces_from. rewrite !filter_cons.
  destruct (Z.ltb_spec (Z.of_nat j) (mid x.2)) as [Hlt|Hge]; cbn [negb].
  - rewrite decide_False; [|lia]. rewrite decide_True; [|lia]. f_equal.
    + symmetry. apply filter_Forall_none. eapply Forall_impl; [exact Hx|]. simpl. lia.
    + f_equal. symmetry. apply filter_Forall_all. eapply Forall_impl; [exact Hx|]. simpl. lia.
  - rewrite decide_True; [|lia]. by rewrite decide_False; [|lia].
Qed.

Lemma piece_later j t r : (j < t)%nat -> piece t (pieces_from (S j) r) = piece t r.
Proof.
  intros Hjt. unfold piece, pieces_from. rewrite list_filter_filter. apply list_filter_iff.
  intros x. lia.
Qed.

Lemma wp_grow_scan j r fuel np (Q : Z -> hP) :
  (length r < fuel)%nat -> mid_sorted r -> Forall (fun x => Z.of_nat j <= mid x.2) r ->
  items_at np r -∗
  (seg np (piece j r) -∗ items_at (seg_end np (piece j r)) (pieces_from (S j) r) -∗
     Q (seg_end np (piece j r))) -∗
  wp (grow_scan ns (Z.of_nat d) (Z.of_nat j) fuel np) Q.
Proof.
  intros Hf Hs Hj. iIntros "H HQ".
  iApply (wp_scan _ (fun x => negb (Z.of_nat j <? mid x.2)) with "H"); [done| |].
  - intros a v Q' _. iIntros "Hw HQ'". iApply wp_bind. iApply (wp_load_word with "Hw"). iIntros "Hw".
    iApply wp_bind. iApply wp_mlift; [by apply hash_index_eq|].
    iApply wp_bind. iApply wp_mlift; [apply shl32_1; lia|]. iApply wp_ret.
    rewrite wrap_small; [|split; [|apply Z.lt_trans with (2 ^ Z.of_nat d); [lia|apply Z.pow_lt_mono_r; lia]]].
    + replace (Z.land _ _) with (mid v); [by iApply "HQ'"|]. unfold mid.
      rewrite (_ : 2 ^ Z.of_nat d - 1 = Z.ones (Z.of_nat d)); [|rewrite Z.ones_equiv; lia].
      rewrite Z.land_ones //. lia.
    + pose proof (Z.pow_pos_nonneg 2 (Z.of_nat d)). lia.
  - rewrite span_piece //.
Qed.

Lemma mid_sorted_from j r : mid_sorted r -> mid_sorted (pieces_from j r).
Proof.
  apply StronglySorted_filter.
Qed.

Definition slot (i t : nat) : Z := bucket h (Z.of_nat (i * 2 ^ d + t)).

Definition grow_spec (n : nat) : Prop := forall i j apos r (Q : unit -> hP),
  Z.of_nat (i * 2 ^ d) < 2 ^ 32 -> mid_sorted r ->
  Forall (fun x => Z.of_nat j <= mid x.2 < Z.of_nat (j + n)) r ->
  items_at apos r -∗ ([∗ list] t ∈ seq j n, ∃ p, slot i t ↦ CPtr p) -∗
  (apos ↦ CPtr 0 -∗ ([∗ list] t ∈ seq j n, items_at (slot i t) (piece t r)) -∗ Q tt) -∗
  wp (grow_bucket n h ns (Z.of_nat d) (Z.of_nat i) (Z.of_nat j) apos) Q.

(** The rest of an iteration, once the list hangs on its new bucket *)
Lemma wp_grow_rest n i j r (Q : unit -> hP) :
  grow_spec n -> Z.of_nat (i * 2 ^ d) < 2 ^ 32 -> mid_sorted r ->
  Forall (fun x => Z.of_nat j <= mid x.2 < Z.of_nat (j + S n)) r ->
  items_at (slot i j) r -∗ ([∗ list] t ∈ seq (S j) n, ∃ p, slot i t ↦ CPtr p) -∗
  (([∗ list] t ∈ seq j (S n), items_at (slot i t) (piece t r)) -∗ Q tt) -∗
  wp (fuel ← mem_fuel;
      apos ← grow_scan ns (Z.of_nat d) (Z.of_nat j) fuel (slot i j);
      grow_bucket n h ns (Z.of_nat d) (Z.of_nat i) (Z.of_nat j + 1) apos) Q.
Proof.
  intros IH Hi Hs Hf. iIntros "Hr Hj HQ". iApply wp_bind.
  iApply (wp_mem_fuel _ _ _ (at_least_items _ _) with "Hr"). iIntros (fuel Hfuel) "Hr".
  iApply wp_bind. iApply (wp_grow_scan with "Hr"); [lia|done| |].
  { eapply Forall_impl; [exact Hf|]. simpl. lia. }
  iIntros "Hs Hr". replace (Z.of_nat j + 1) with (Z.of_nat (S j)) by lia.
  iApply (IH with "Hr Hj"); [done|by apply mid_sorted_from| |].
  { apply Forall_forall. intros x [Hx Hin]%list_elem_of_filter. rewrite Forall_forall in Hf.
    specialize (Hf x Hin). simpl in *. lia. }
  iIntros "H0 Ht". iApply "HQ". cbn [seq big_opL]. iSplitL "Hs H0".
  - rewrite -(app_nil_r (piece j r)) items_at_app app_nil_r. iFrame.
  - iApply (big_sepL_mono with "Ht"). intros k t Ht. rewrite piece_later //.
    apply lookup_seq in Ht. lia.
Qed.

Lemma shl32_index i : Z.of_nat (i * 2 ^ d) < 2 ^ 32 -> shl32 (Z.of_nat i) (Z.of_nat d) = Ret (Z.of_nat (i * 2 ^ d)).
Proof.
  intros Hi. unfold shl32. destruct (Z.leb_spec 0 (Z.of_nat d)); [|lia].
  destruct (Z.ltb_spec (Z.of_nat d) 32); [|lia]. cbn [andb]. f_equal.
  rewrite Z.shiftl_mul_pow2; [|lia].
  assert (E : Z.of_nat (i * 2 ^ d) = Z.of_nat i * 2 ^ Z.of_nat d).
  { rewrite Nat2Z.inj_mul Nat2Z.inj_pow. done. }
  rewrite E. apply wrap_small. lia.
Qed.

Lemma wp_grow_bucket n : grow_spec n.
Proof.
  induction n as [|n IH]; intros i j apos r Q Hi Hs Hf; cbn [grow_bucket].
  - destruct r as [|x r].
    + iIntros "H _ HQ". iApply wp_ret. by iApply ("HQ" with "H").
    + apply Forall_cons in Hf as [Hx _]. lia.
  - iIntros "Hr Hj HQ". rewrite items_at_move. iDestruct "Hr" as (p) "[Hp Hmk]".
    iApply wp_bind. iApply (wp_load_ptr with "Hp"). iIntros "Hp".
    iApply wp_bind. iApply (wp_store_ptr with "Hp"). iIntros "Hp".
    iApply wp_bind. iApply wp_mlift; [by apply shl32_index|].
    cbn [seq big_opL]. iDestruct "Hj" as "[(%p' & Hslot) Hj]". rewrite -Nat2Z.inj_add.
    iApply wp_bind. iApply (wp_store_ptr with "Hslot"). iIntros "Hslot".
    iDestruct ("Hmk" with "Hslot") as "Hr".
    iApply (wp_grow_rest with "Hr Hj"); [done..|]. iIntros "Ht". iApply ("HQ" with "Hp Ht").
Qed.

(** The first bucket stays where it is: its old and its new first piece are
    the same pointer. *)
Lemma wp_grow_bucket_0 n r (Q : unit -> hP) :
  mid_sorted r -> Forall (fun x => 0 <= mid x.2 < Z.of_nat (S n)) r ->
  items_at (slot 0 0) r -∗ ([∗ list] t ∈ seq 1 n, ∃ p, slot 0 t ↦ CPtr p) -∗
  (([∗ list] t ∈ seq 0 (S n), items_at (slot 0 t) (piece t r)) -∗ Q tt) -∗
  wp (grow_bucket (S n) h ns (Z.of_nat d) 0 0 (slot 0 0)) Q.
Proof.
  intros Hs Hf. iIntros "Hr Hj HQ". cbn [grow_bucket]. rewrite items_at_move.
  iDestruct "Hr" as (p) "[Hp Hmk]".
  iApply wp_bind. iApply (wp_load_ptr with "Hp"). iIntros "Hp".
  iApply wp_bind. iApply (wp_store_ptr with "Hp"). iIntros "Hp".
  iApply wp_bind. iApply wp_mlift; [by apply (shl32_index 0)|].
  iApply wp_bind. iApply (wp_store_ptr with "Hp"). iIntros "Hp". iDestruct ("Hmk" with "Hp") as "Hr".
  iApply (wp_grow_rest n 0 0 with "Hr Hj HQ"); [apply wp_grow_bucket|done|done|done].
Qed.

(** ** Cutting all buckets *)
Definition pieces c : list (list (Z * Z)) := (fun t => piece t c) <$> seq 0 (2 ^ d).

Lemma length_pieces c : length (pieces c) = (2 ^ d)%nat.
Proof. by rewrite length_fmap length_seq. Qed.

Lemma length_cut cs : length (cs ≫= pieces) = (length cs * 2 ^ d)%nat.
Proof.
  clear Hns Hd. induction cs as [|c cs IH]; [done|]. rewrite bind_cons length_app IH length_pieces. simpl. lia.
Qed.

Lemma buckets_cut cs :
  ([∗ list] i ↦ c ∈ cs, [∗ list] t ∈ seq 0 (2 ^ d), items_at (slot i t) (piece t c)) ⊣⊢
  buckets_at (entries h) (cs ≫= pieces).
Proof.
  induction cs as [|c cs IH] using rev_ind; [done|].
  unfold buckets_at in *. rewrite bind_app !big_sepL_app IH. f_equiv. cbn [big_opL].
  rewrite !right_id length_cut /pieces big_sepL_fmap. apply big_sepL_proper. intros t t' Ht.
  apply lookup_seq in Ht as [-> Ht]. done.
Qed.

Lemma pow2_ge : (1 <= 2 ^ d)%nat.
Proof. clear Hns Hd. pose proof (Nat.pow_nonzero 2 d). lia. Qed.

Lemma mid_bound v : 0 <= mid v < Z.of_nat (2 ^ d).
Proof. clear Hns Hd. rewrite Nat2Z.inj_pow. apply Z.mod_pos_bound. apply Z.pow_pos_nonneg; lia. Qed.

Lemma Forall_mid c : Forall (fun x => Z.of_nat 0 <= mid x.2 < Z.of_nat (0 + 2 ^ d)) c.
Proof. apply Forall_forall. intros x _. apply mid_bound. Qed.

(** One bucket: the first one, or one whose pieces are all further on *)
Lemma wp_cut_one i c (Q : unit -> hP) :
  (1 <= d)%nat -> Z.of_nat (S i * 2 ^ d) < 2 ^ 32 -> mid_sorted c ->
  items_at (entries h + 8 * Z.of_nat i) c -∗ junk_at (entries h) (seq (S i) (S i * 2 ^ d - S i)) -∗
  (([∗ list] t ∈ seq 0 (2 ^ d), items_at (slot i t) (piece t c)) -∗
     junk_at (entries h) (seq i (i * 2 ^ d - i)) -∗ Q tt) -∗
  wp (grow_bucket (2 ^ d) h ns (Z.of_nat d) (Z.of_nat i) 0 (bucket h (Z.of_nat i))) Q.
Proof.
  intros Hd1 Hlen Hc. pose proof pow2_ge as H1.
  assert (H2 : (2 <= 2 ^ d)%nat).
  { destruct d as [|d']; [lia|]. rewrite Nat.pow_succ_r'. pose proof (Nat.pow_nonzero 2 d'). lia. }
  iIntros "Hc Hj HQ". destruct i as [|i'].
  - destruct (2 ^ d)%nat as [|n] eqn:En; [lia|]. rewrite Nat.mul_1_l Nat.sub_succ Nat.sub_0_r.
    iApply (wp_grow_bucket_0 with "Hc Hj"); [done| |].
    { pose proof (Forall_mid c) as HF. by rewrite En in HF. }
    iIntros "Hc". iApply ("HQ" with "Hc"). by rewrite /junk_at.
  - set (i := S i') in *.
    replace (S i * 2 ^ d - S i)%nat with ((i * 2 ^ d - S i) + 2 ^ d)%nat by nia.
    rewrite seq_app /junk_at big_sepL_app. replace (S i + (i * 2 ^ d - S i))%nat with (i * 2 ^ d)%nat by nia.
    iDestruct "Hj" as "[Hj Hj']".
    iApply (wp_grow_bucket (2 ^ d) i 0%nat with "Hc [Hj']"); [lia|done|apply Forall_mid| |].
    { rewrite -(Nat.add_0_r (i * 2 ^ d)) -fmap_add_seq big_sepL_fmap. done. }
    iIntros "H0 Hc". iApply ("HQ" with "Hc").
    replace (i * 2 ^ d - i)%nat with (S (i * 2 ^ d - S i))%nat by nia. cbn [seq big_opL].
    iSplitL "H0"; [by iExists 0|done].
Qed.

Lemma wp_grow_buckets cs (Q : unit -> hP) :
  (1 <= d)%nat -> Z.of_nat (length cs * 2 ^ d) < 2 ^ 32 -> Forall mid_sorted cs ->
  buckets_at (entries h) cs -∗ junk_at (entries h) (seq (length cs) (length cs * 2 ^ d - length cs)) -∗
  (buckets_at (entries h) (cs ≫= pieces) -∗ Q tt) -∗
  wp (grow_buckets (length cs) h ns (Z.of_nat d)) Q.
Proof.
  intros Hd1 Hlen Hs. rewrite -buckets_cut. revert Hlen Hs Q.
  induction cs as [|c cs IH] using rev_ind; intros Hlen Hs Q.
  { iIntros "_ _ HQ". iApply wp_ret. by iApply "HQ". }
  apply Forall_app in Hs as [Hs [Hc _]%Forall_cons]. rewrite length_app Nat.add_1_r in Hlen |- *.
  set (i := length cs) in *. rewrite /buckets_at !big_sepL_app. cbn [big_opL grow_buckets].
  rewrite !right_id.
  iIntros "[Hcs Hc] Hj HQ". iApply wp_bind. iApply wp_mlift; [apply shl32_1; lia|].
  rewrite -(Nat2Z.inj_pow 2 d) Nat2Z.id. iApply wp_bind.
  iApply (wp_cut_one i c with "Hc Hj"); [done..|]. iIntros "Hc Hj".
  iApply (IH with "Hcs Hj"); [lia|done|]. iIntros "Hcs". iApply "HQ". iFrame.
Qed.
End grow.

(** ** Joining buckets *)
Section shrink.
Context (h : thash_head) (d : nat).
Hypothesis Hd1 : (1 <= d <= 30)%nat.
Abbreviation slot := (slot h d).

Lemma span_all l : span (fun _ => true) l = (l, []).
Proof. induction l as [|x l IH]; [done|]. cbn [span]. by rewrite IH. Qed.

Lemma wp_list_end l fuel np (Q : Z -> hP) :
  (length l < fuel)%nat ->
  items_at np l -∗ (seg np l -∗ seg_end np l ↦ CPtr 0 -∗ Q (seg_end np l)) -∗
  wp (list_end fuel np) Q.
Proof.
  intros Hf. iIntros "H HQ". iApply (wp_scan _ (fun _ => true) with "H"); [done| |].
  - intros a v Q' _. iIntros "Hw HQ'". iApply wp_ret. by iApply "HQ'".
  - rewrite span_all. iApply "HQ".
Qed.

Definition shrink_spec (cs : list (list (Z * Z))) : Prop := forall i j apos p (Q : unit -> hP),
  Z.of_nat (i * 2 ^ d) < 2 ^ 32 -> (cs = [] -> p = 0) ->
  apos ↦ CPtr p -∗ ([∗ list] t ↦ c ∈ cs, items_at (slot i (j + t)) c) -∗
  (items_at apos (mjoin cs) -∗ ([∗ list] t ∈ seq j (length cs), ∃ q, slot i t ↦ CPtr q) -∗ Q tt) -∗
  wp (shrink_bucket (length cs) h (Z.of_nat d) (Z.of_nat i) (Z.of_nat j) apos) Q.

(** The rest of an iteration, once the list [c] hangs on [apos] *)
Lemma wp_shrink_rest cs i j apos c (Q : unit -> hP) :
  shrink_spec cs -> Z.of_nat (i * 2 ^ d) < 2 ^ 32 ->
  items_at apos c -∗ ([∗ list] t ↦ c ∈ cs, items_at (slot i (S j + t)) c) -∗
  (items_at apos (c ++ mjoin cs) -∗ ([∗ list] t ∈ seq (S j) (length cs), ∃ q, slot i t ↦ CPtr q) -∗ Q tt) -∗
  wp (fuel ← mem_fuel;
      apos ← list_end fuel apos;
      shrink_bucket (length cs) h (Z.of_nat d) (Z.of_nat i) (Z.of_nat j + 1) apos) Q.
Proof.
  intros IH Hi. iIntros "Hc Hcs HQ". iApply wp_bind.
  iApply (wp_mem_fuel _ _ _ (at_least_items _ _) with "Hc"). iIntros (fuel Hfuel) "Hc".
  iApply wp_bind. iApply (wp_list_end with "Hc"); [lia|]. iIntros "Hs H0".
  replace (Z.of_nat j + 1) with (Z.of_nat (S j)) by lia.
  iApply (IH with "H0 Hcs"); [done|done|]. iIntros "Hr Hj". iApply ("HQ" with "[Hs Hr] Hj").
  rewrite items_at_app. iFrame.
Qed.

Lemma wp_shrink_bucket cs : shrink_spec cs.
Proof.
  induction cs as [|c cs IH]; intros i j apos p Q Hi Hp; cbn [shrink_bucket length].
  - rewrite Hp //. iIntros "H _ HQ". iApply wp_ret. by iApply ("HQ" with "H").
  - cbn [big_opL seq]. iIntros "Hp [Hc Hcs] HQ". rewrite Nat.add_0_r items_at_move.
    iDestruct "Hc" as (q) "[Hq Hmk]".
    iApply wp_bind. iApply wp_mlift; [apply shl32_index; [lia|done]|].
    rewrite -Nat2Z.inj_add. iApply wp_bind. iApply (wp_load_ptr with "Hq"). iIntros "Hq".
    iApply wp_bind. iApply (wp_store_ptr with "Hp"). iIntros "Hp". iDestruct ("Hmk" with "Hp") as "Hc".
    iApply (wp_shrink_rest cs with "Hc [Hcs]"); [done..| |].
    { iApply (big_sepL_mono with "Hcs"). intros t c' _. rewrite Nat.add_succ_r //. }
    iIntros "Hc Hj". iApply ("HQ" with "Hc"). iSplitL "Hq"; [by iExists q|done].
Qed.

(** The first bucket is joined to itself. *)
Lemma wp_shrink_bucket_0 c cs (Q : unit -> hP) :
  ([∗ list] t ↦ c ∈ c :: cs, items_at (slot 0 t) c) -∗
  (items_at (slot 0 0) (c ++ mjoin cs) -∗ ([∗ list] t ∈ seq 1 (length cs), ∃ q, slot 0 t ↦ CPtr q) -∗ Q tt) -∗
  wp (shrink_bucket (S (length cs)) h (Z.of_nat d) 0 0 (slot 0 0)) Q.
Proof.
  cbn [big_opL shrink_bucket]. iIntros "[Hc Hcs] HQ". rewrite items_at_move.
  iDestruct "Hc" as (q) "[Hq Hmk]".
  iApply wp_bind. iApply wp_mlift; [apply (shl32_index d ltac:(lia) 0); done|].
  iApply wp_bind. iApply (wp_load_ptr with "Hq"). iIntros "Hq".
  iApply wp_bind. iApply (wp_store_ptr with "Hq"). iIntros "Hq". iDestruct ("Hmk" with "Hq") as "Hc".
  iApply (wp_shrink_rest cs 0 0 with "Hc Hcs HQ"); [apply wp_shrink_bucket|done].
Qed.

Lemma wp_join_one i g (Q : unit -> hP) :
  length g = (2 ^ d)%nat -> Z.of_nat (i * 2 ^ d) < 2 ^ 32 ->
  junk_at (entries h) (seq i (i * 2 ^ d - i)) -∗ ([∗ list] t ↦ c ∈ g, items_at (slot i t) c) -∗
  (items_at (bucket h (Z.of_nat i)) (mjoin g) -∗
     junk_at (entries h) (seq (S i) (S i * 2 ^ d - S i)) -∗ Q tt) -∗
  wp (shrink_bucket (2 ^ d) h (Z.of_nat d) (Z.of_nat i) 0 (bucket h (Z.of_nat i))) Q.
Proof.
  intros Hg Hi. pose proof (pow2_ge d) as H1.
  assert (H2 : (2 <= 2 ^ d)%nat).
  { destruct d as [|d']; [lia|]. rewrite Nat.pow_succ_r'. pose proof (Nat.pow_nonzero 2 d'). lia. }
  iIntros "Hj Hg HQ". destruct i as [|i'].
  - destruct g as [|c cs]; [simpl in Hg; lia|]. cbn [length] in Hg.
    rewrite -Hg Nat.mul_1_l Nat.sub_succ Nat.sub_0_r.
    iApply (wp_shrink_bucket_0 with "Hg"). iIntros "Hc Hs". rewrite Nat.sub_0_r. iApply ("HQ" with "Hc Hs").
  - set (i := S i') in *. replace (i * 2 ^ d - i)%nat with (S (i * 2 ^ d - S i))%nat by nia.
    rewrite /junk_at. cbn [seq big_opL]. iDestruct "Hj" as "[(%p & Hp) Hj]". rewrite -Hg.
    iApply (wp_shrink_bucket g i 0%nat with "Hp Hg"); [done|intros ->; simpl in Hg; lia|].
    iIntros "Hc Hs". iApply ("HQ" with "Hc"). rewrite Hg.
    replace (S i * 2 ^ d - S i)%nat with ((i * 2 ^ d - S i) + 2 ^ d)%nat by nia.
    rewrite seq_app big_sepL_app. replace (S i + (i * 2 ^ d - S i))%nat with (i * 2 ^ d)%nat by nia.
    iFrame "Hj". rewrite -(Nat.add_0_r (i * 2 ^ d)) -fmap_add_seq big_sepL_fmap. done.
Qed.

Lemma wp_join_all gs i (Q : unit -> hP) :
  Forall (fun g => length g = (2 ^ d)%nat) gs -> Z.of_nat ((i + length gs) * 2 ^ d) < 2 ^ 32 ->
  junk_at (entries h) (seq i (i * 2 ^ d - i)) -∗
  ([∗ list] k ↦ g ∈ gs, [∗ list] t ↦ c ∈ g, items_at (slot (i + k) t) c) -∗
  (([∗ list] k ↦ g ∈ gs, items_at (bucket h (Z.of_nat (i + k))) (mjoin g)) -∗
     junk_at (entries h) (seq (i + length gs) ((i + length gs) * 2 ^ d - (i + length gs))) -∗ Q tt) -∗
  wp (mfor (length gs) (Z.of_nat i)
        (fun i => shrink_bucket (2 ^ d) h (Z.of_nat d) i 0 (bucket h i))) Q.
Proof.
  intros Hg. revert i. induction Hg as [|g gs Hg _ IH]; intros i Hi; cbn [mfor length big_opL].
  - rewrite Nat.add_0_r. iIntros "Hj _ HQ". iApply wp_ret. by iApply "HQ".
  - cbn [length] in Hi. iIntros "Hj [Hg Hgs] HQ". rewrite Nat.add_0_r. iApply wp_bind.
    iApply (wp_join_one i g with "Hj Hg"); [done|lia|]. iIntros "Hc Hj".
    replace (Z.of_nat i + 1) with (Z.of_nat (S i)) by lia.
    iApply (IH with "Hj [Hgs]"); [lia| |].
    { iApply (big_sepL_mono with "Hgs"). intros k g' _. by rewrite Nat.add_succ_r. }
    iIntros "Hcs Hj". rewrite (Nat.add_succ_comm i (length gs)). iApply ("HQ" with "[$Hc Hcs] Hj").
    iApply (big_sepL_mono with "Hcs"). intros k g' _. by rewrite Nat.add_succ_r.
Qed.

Lemma length_groups (gs : list (list (list (Z * Z)))) :
  Forall (fun g => length g = (2 ^ d)%nat) gs -> length (mjoin gs) = (length gs * 2 ^ d)%nat.
Proof.
  clear Hd1. induction 1 as [|g gs Hg _ IH]; [done|]. cbn [mjoin list_join length]. rewrite length_app Hg IH. lia.
Qed.

Lemma buckets_groups gs :
  Forall (fun g => length g = (2 ^ d)%nat) gs ->
  buckets_at (entries h) (mjoin gs) ⊣⊢ [∗ list] k ↦ g ∈ gs, [∗ list] t ↦ c ∈ g, items_at (slot k t) c.
Proof.
  intros Hg. unfold buckets_at. induction gs as [|g gs IH] using rev_ind; [done|].
  apply Forall_app in Hg as [Hgs [Hg _]%Forall_cons].
  rewrite join_app !big_sepL_app IH //. f_equiv. cbn [big_opL]. rewrite !right_id.
  change (mjoin []) with (@nil (list (Z * Z))). rewrite /= right_id. apply big_sepL_proper.
  intros t c _. by rewrite length_groups.
Qed.
End shrink.
End resize.
