(* ===== verification/ThashTable.v ===== *)
(** * Well-formed hash tables

    The shape of a table: how many buckets it has, and that every item is in
    its bucket, in the order of hash values.  Cutting and joining buckets
    keep the items and give the shape of the other size. *)

From S2P Require Import Prelude ThashSize Thash.
From stdpp Require Import sorting.

#[local] Open Scope Z_scope.

Abbreviation item := (Z * Z)%type.
Implicit Types c : list item.
Implicit Types cs : list (list item).

(** Bucket [i] of a table of [2 ^ k] *)
Record bucket_wf (k : Z) (i : nat) c : Prop := {
  bw_sorted : StronglySorted (fun x y => x.2 <= y.2) c;
  bw_place : Forall (fun x => 0 <= x.2 < 2 ^ 32 /\ bucket_of k x.2 = Z.of_nat i) c
}.

Definition buckets_wf (k : Z) cs : Prop := forall i c, cs !! i = Some c -> bucket_wf k i c.

Record shape (h : thash_head) cs : Prop := {
  sh_minshift : minshift h = 0;
  sh_maxshift : maxshift h = 0;
  sh_size : tabshift h = 0 /\ cs = [] \/ 2 <= tabshift h <= 31 /\ Z.of_nat (length cs) = 2 ^ (tabshift h - 1);
  sh_buckets : buckets_wf (tabshift h - 1) cs
}.

Lemma bucket_wf_nil k i : bucket_wf k i [].
Proof. split; constructor. Qed.

(** ** Cutting *)
Section cut.
Context (k : Z) (d : nat).
Hypothesis Hk : 0 <= k.
Hypothesis Hkd : k + Z.of_nat d <= 32.
Abbreviation low := (fun v => bucket_of (k + Z.of_nat d) v mod 2 ^ Z.of_nat d).

Lemma bucket_wf_low_sorted i c : bucket_wf k i c -> StronglySorted (fun x y => low x.2 <= low y.2) c.
Proof.
  intros [Hs Hp]. induction Hs as [|x c Hs IH Hx]; [constructor|].
  apply Forall_cons in Hp as [[Hx1 Hx2] Hp]. constructor; [by apply IH|].
  apply Forall_forall. intros y Hy. rewrite Forall_forall in Hx. specialize (Hx y Hy).
  rewrite Forall_forall in Hp. destruct (Hp y Hy) as [Hy1 Hy2]. simpl in *.
  destruct (bucket_of_split k (Z.of_nat d) x.2) as [_ E1]; [lia..|].
  destruct (bucket_of_split k (Z.of_nat d) y.2) as [_ E2]; [lia..|].
  assert (bucket_of (k + Z.of_nat d) x.2 <= bucket_of (k + Z.of_nat d) y.2).
  { unfold bucket_of. apply Z.div_le_mono; [|done]. apply Z.pow_pos_nonneg; lia. }
  rewrite Hx2 in E1. rewrite Hy2 in E2. lia.
Qed.

Lemma bucket_wf_piece i c t :
  bucket_wf k i c ->
  bucket_wf (k + Z.of_nat d) (i * 2 ^ d + t) (filter (fun x => low x.2 = Z.of_nat t) c).
Proof.
  intros [Hs Hp]. split; [by apply StronglySorted_filter|].
  apply Forall_forall. intros x [Hx Hin]%list_elem_of_filter. rewrite Forall_forall in Hp.
  destruct (Hp x Hin) as [Hx1 Hx2]. split; [done|].
  destruct (bucket_of_split k (Z.of_nat d) x.2) as [_ E]; [lia..|].
  rewrite E, Hx2, Hx, Nat2Z.inj_add, Nat2Z.inj_mul, Nat2Z.inj_pow. done.
Qed.
End cut.

Lemma filter_disjoint_union {A} (P Q : A -> Prop) `{!forall x, Decision (P x), !forall x, Decision (Q x)} l :
  (forall x, ~ (P x /\ Q x)) -> filter P l ++ filter Q l ≡ₚ filter (fun x => P x \/ Q x) l.
Proof.
  intros Hd. induction l as [|x l IH]; [done|]. rewrite !filter_cons.
  specialize (Hd x). repeat case_decide; try tauto.
  - simpl. by rewrite IH.
  - rewrite <- Permutation_middle. by rewrite IH.
Qed.

(** The classes of a function with values below [n] make up the list. *)
Lemma classes_perm {A} (f : A -> Z) (n : nat) (l : list A) :
  Forall (fun x => 0 <= f x < Z.of_nat n) l ->
  mjoin ((fun t => filter (fun x => f x = Z.of_nat t) l) <$> seq 0 n) ≡ₚ l.
Proof.
  intros Hf. transitivity (filter (fun x => 0 <= f x < Z.of_nat n) l); [|by rewrite filter_Forall_all].
  clear Hf. induction n as [|n IH].
  - rewrite filter_Forall_none; [done|]. apply Forall_forall. lia.
  - rewrite seq_S, fmap_app, join_app, IH. cbn [fmap list_fmap mjoin list_join].
    rewrite app_nil_r, filter_disjoint_union by lia.
    rewrite (list_filter_iff (fun x => 0 <= f x < Z.of_nat n \/ f x = Z.of_nat (0 + n))
      (fun x => 0 <= f x < Z.of_nat (S n))); [done|]. lia.
Qed.

(** ** Joining *)
Section join.
Context (k : Z) (d : nat).
Hypothesis Hk : 0 <= k.
Hypothesis Hkd : k + Z.of_nat d <= 32.

Lemma bucket_wf_join i j g :
  (forall t c, g !! t = Some c -> bucket_wf (k + Z.of_nat d) (i * 2 ^ d + (j + t)) c) ->
  (j + length g <= 2 ^ d)%nat -> bucket_wf k i (mjoin g).
Proof.
  revert j. induction g as [|c g IH]; intros j Hg Hlen; [apply bucket_wf_nil|].
  cbn [mjoin list_join length] in *.
  destruct (Hg 0%nat c) as [Hs Hp]; [done|].
  destruct (IH (S j)) as [Hs' Hp']; [|lia|].
  { intros t c' Ht. replace (S j + t)%nat with (j + S t)%nat by lia. by apply Hg. }
  assert (Hdiv : forall v t, (t < 2 ^ d)%nat -> bucket_of (k + Z.of_nat d) v = Z.of_nat (i * 2 ^ d + t) ->
    bucket_of k v = Z.of_nat i).
  { intros v t Ht E. destruct (bucket_of_split k (Z.of_nat d) v) as [-> _]; [lia..|].
    rewrite E, Nat2Z.inj_add, Nat2Z.inj_mul, Nat2Z.inj_pow, Z.div_add_l by (apply Z.pow_nonzero; lia).
    rewrite Z.div_small; [lia|]. split; [lia|]. change 2 with (Z.of_nat 2). rewrite <- Nat2Z.inj_pow. lia. }
  split.
  - apply StronglySorted_app_2; [|done..]. intros x y Hx [c' [Hy [t Ht]%list_elem_of_lookup]]%list_elem_of_join.
    rewrite Forall_forall in Hp. destruct (Hp x Hx) as [_ Ex].
    destruct (Hg (S t) c' Ht) as [_ Hp2]. rewrite Forall_forall in Hp2. destruct (Hp2 y Hy) as [_ Ey].
    apply Z.nlt_ge. intros Hlt. assert (bucket_of (k + Z.of_nat d) y.2 <= bucket_of (k + Z.of_nat d) x.2).
    { unfold bucket_of. apply Z.div_le_mono; [apply Z.pow_pos_nonneg; lia|lia]. }
    lia.
  - apply Forall_app. split; [|done]. eapply Forall_impl; [exact Hp|]. intros x [H1 H2].
    split; [done|]. eapply (Hdiv _ (j + 0)%nat); [lia|done].
Qed.
End join.

Lemma groups_exist {A} (n D : nat) (l : list A) :
  length l = (n * D)%nat -> exists gs, l = mjoin gs /\ length gs = n /\ Forall (fun g => length g = D) gs.
Proof.
  revert l. induction n as [|n IH]; intros l Hl.
  - exists []. destruct l; [done|done].
  - destruct (IH (drop D l)) as (gs & E & Hn & HD); [rewrite length_drop; lia|].
    exists (take D l :: gs). split_and!; [|by rewrite <- Hn|].
    { change (l = take D l ++ mjoin gs). by rewrite <- E, take_drop. }
    constructor; [rewrite length_take; lia|done].
Qed.

(** ** Resizing well-formed hash tables

    [typesafe_hash_grow] and [typesafe_hash_shrink] keep the items of a
    table and leave it with the smallest number of buckets above that of its
    items. *)
From S2P Require Import SepLogic Heap ThashResize.
From iris.proofmode Require Import proofmode.

#[local] Open Scope Z_scope.

(** ** Cutting and joining a well-formed table *)
Lemma lookup_cut ns d cs i c :
  (cs ≫= pieces ns d) !! i = Some c ->
  exists j t c0, i = (j * 2 ^ d + t)%nat /\ (t < 2 ^ d)%nat /\ cs !! j = Some c0 /\ c = piece ns d t c0.
Proof.
  revert i. induction cs as [|c0 cs IH]; intros i Hi; [done|].
  rewrite bind_cons in Hi. destruct (decide (i < 2 ^ d)%nat) as [Hlt|Hge].
  - rewrite lookup_app_l in Hi; [|by rewrite length_pieces].
    rewrite /pieces list_lookup_fmap lookup_seq_lt in Hi; [|done]. injection Hi as <-.
    by exists 0%nat, i, c0.
  - rewrite lookup_app_r in Hi; [|rewrite length_pieces; lia]. rewrite length_pieces in Hi.
    destruct (IH _ Hi) as (j & t & c1 & E & Ht & Hj & ->). exists (S j), t, c1.
    split_and!; [simpl; lia|done..].
Qed.

Lemma buckets_wf_cut k d cs :
  0 <= k -> k + Z.of_nat d <= 30 -> buckets_wf k cs ->
  buckets_wf (k + Z.of_nat d) (cs ≫= pieces (k + Z.of_nat d + 1) d).
Proof.
  intros Hk Hkd Hcs i c Hi. destruct (lookup_cut _ _ _ _ _ Hi) as (j & t & c0 & -> & Ht & Hj & ->).
  pose proof (bucket_wf_piece k d Hk ltac:(lia) j c0 t (Hcs j c0 Hj)) as H.
  unfold piece, mid. by rewrite Z.add_simpl_r.
Qed.

Lemma pieces_perm ns d c : mjoin (pieces ns d c) ≡ₚ c.
Proof.
  apply (classes_perm (fun x : item => mid ns d x.2)).
  apply Forall_forall. intros x _. apply mid_bound.
Qed.

Lemma cut_perm ns d cs : mjoin (cs ≫= pieces ns d) ≡ₚ mjoin cs.
Proof.
  induction cs as [|c cs IH]; [done|]. rewrite bind_cons join_app IH pieces_perm //.
Qed.

Lemma buckets_wf_join k d (gs : list (list (list item))) :
  0 <= k -> k + Z.of_nat d <= 30 -> Forall (fun g => length g = (2 ^ d)%nat) gs ->
  buckets_wf (k + Z.of_nat d) (mjoin (M:=list) gs) -> buckets_wf k (mjoin (M:=list) <$> gs).
Proof.
  intros Hk Hkd Hg Hcs i c Hi. rewrite list_lookup_fmap in Hi.
  apply fmap_Some in Hi as (g & Hi & ->).
  apply (bucket_wf_join k d Hk ltac:(lia) i 0).
  - intros t c Ht. apply Hcs. rewrite Nat.add_0_l.
    rewrite -(take_drop_middle gs i g Hi). change (g :: drop (S i) gs) with ([g] ++ drop (S i) gs).
    rewrite !join_app. rewrite lookup_app_r.
    all: rewrite (length_groups d (take i gs)); [|by apply Forall_take].
    all: pose proof (lookup_lt_Some _ _ _ Hi); rewrite length_take Nat.min_l; [|lia].
    2: lia.
    replace (i * 2 ^ d + t - i * 2 ^ d)%nat with t by lia.
    rewrite lookup_app_l; [by rewrite /= app_nil_r|]. rewrite /= app_nil_r. by eapply lookup_lt_Some.
  - rewrite Forall_lookup in Hg. rewrite (Hg i g Hi). lia.
Qed.

Lemma join_join_perm (gs : list (list (list item))) : mjoin (M:=list) (mjoin (M:=list) <$> gs) = mjoin (M:=list) (mjoin (M:=list) gs).
Proof.
  induction gs as [|g gs IH]; [done|]. change (mjoin (M:=list) g ++ mjoin (M:=list) (mjoin (M:=list) <$> gs) = mjoin (M:=list) (g ++ mjoin (M:=list) gs)).
  by rewrite join_app IH.
Qed.

Section tables.
Context {U : Type} (place : gmap Z (hcell U) -> Z -> Z) `{!Placement place}.
Abbreviation mem := (gmap Z (hcell U)).
Abbreviation hP := (hpropI (hcell U)).

Lemma junk_ptrs e a (ks : nat) :
  junk_at e (seq a ks) ⊢@{hP} ∃ ps, ⌜length ps = ks⌝ ∧ [∗ list] k ↦ p ∈ ps, (e + 8 * Z.of_nat (a + k)) ↦ CPtr p.
Proof.
  revert a. induction ks as [|ks IH]; intros a.
  - rewrite /junk_at /=. iIntros "_". iExists []. by iSplit.
  - rewrite /junk_at in IH *. cbn [seq big_opL]. rewrite (IH (S a)).
    iIntros "[(%p & Hp) (%ps & %Hl & Hps)]". iExists (p :: ps). iSplit; [by rewrite /= Hl|].
    cbn [big_opL]. rewrite Nat.add_0_r. iFrame.
    iApply (big_sepL_mono with "Hps"). intros k q _. by rewrite Nat.add_succ_r.
Qed.

Lemma ptrs_junk e a (n : nat) :
  ([∗ list] k ↦ p ∈ replicate n 0, (e + 8 * Z.of_nat (a + k)) ↦ CPtr p) ⊢@{hP} junk_at e (seq a n).
Proof.
  rewrite /junk_at. revert a. induction n as [|n IH]; intros a; [done|].
  cbn [replicate seq big_opL]. rewrite Nat.add_0_r -IH. iIntros "[Hp H]". iSplitL "Hp"; [by iExists 0|].
  iApply (big_sepL_mono with "H"). intros k p _. by rewrite Nat.add_succ_r.
Qed.

Lemma ptrs_at_app e ps1 ps2 :
  ptrs_at (U := U) e (ps1 ++ ps2) ⊣⊢
  ptrs_at e ps1 ∗ [∗ list] k ↦ p ∈ ps2, (e + 8 * Z.of_nat (length ps1 + k)) ↦ CPtr p.
Proof. by rewrite /ptrs_at big_sepL_app. Qed.

Lemma buckets_nil e (n : nat) : buckets_at e (replicate n []) ⊣⊢ ptrs_at (U := U) e (replicate n 0).
Proof.
  rewrite /buckets_at /ptrs_at. induction n as [|n IH]; [done|].
  rewrite replicate_S_end (replicate_S_end n 0) !big_sepL_app IH !length_replicate. done.
Qed.

(** ** Growing *)
Lemma shape_size h cs : shape h cs -> HASH_SIZE h = Ret (Z.of_nat (length cs)).
Proof.
  intros [_ _ [[E ->]|[Ht El]] _]; unfold HASH_SIZE; [by rewrite E|].
  rewrite hash_size_eq; [by rewrite El|lia].
Qed.

(** The array at its new place, with empty buckets added *)
Lemma wp_realloc_grow e cs (new : nat) (Q : Z -> hP) :
  (length cs <= new)%nat ->
  buckets_at e cs -∗
  (∀ e', buckets_at e' cs -∗
     ([∗ list] k ↦ p ∈ replicate (new - length cs) 0, (e' + 8 * Z.of_nat (length cs + k)) ↦ CPtr p) -∗ Q e') -∗
  wp (realloc_buckets place e (Z.of_nat (length cs)) (Z.of_nat new)) Q.
Proof.
  intros Hn. rewrite buckets_open. iIntros "(%ps & %Hl & Hps & Hcs) HQ". rewrite -Hl.
  iApply (wp_realloc with "Hps"); [lia|]. iIntros (e' _). rewrite Nat2Z.id.
  rewrite take_ge; [|rewrite length_app length_replicate; lia].
  rewrite ptrs_at_app. iIntros "[Hps Hj]". iApply ("HQ" with "[Hcs Hps] Hj"). by iApply "Hcs".
Qed.

(** What a table of at least 2 buckets becomes *)
Lemma shape_grown h cs ns d e :
  shape h cs -> 2 <= tabshift h -> ns = tabshift h + Z.of_nat d -> ns <= 31 ->
  shape (set_tabshift ns (set_entries e h)) (cs ≫= pieces ns d).
Proof.
  intros [Hmin Hmax [[E _]|[Ht El]] Hb] H2 -> H31; [lia|].
  split; [done|done|right|]; cbn [tabshift set_tabshift set_entries].
  - split; [lia|]. rewrite length_cut Nat2Z.inj_mul El Nat2Z.inj_pow -Z.pow_add_r; [f_equal; lia|lia..].
  - pose proof (buckets_wf_cut (tabshift h - 1) d cs ltac:(lia) ltac:(lia) Hb) as H.
    replace (tabshift h - 1 + Z.of_nat d + 1) with (tabshift h + Z.of_nat d) in H by lia.
    by replace (tabshift h + Z.of_nat d - 1) with (tabshift h - 1 + Z.of_nat d) by lia.
Qed.

Lemma shape_mid_sorted h cs ns d :
  shape h cs -> 2 <= tabshift h -> ns = tabshift h + Z.of_nat d -> ns <= 31 -> Forall (mid_sorted ns d) cs.
Proof.
  intros Hs H2 -> H31. apply Forall_lookup. intros i c Hc.
  pose proof (bucket_wf_low_sorted (tabshift h - 1) d ltac:(lia) ltac:(lia) i c (sh_buckets _ _ Hs i c Hc)) as H.
  unfold mid_sorted, mid.
  by replace (tabshift h + Z.of_nat d - 1) with (tabshift h - 1 + Z.of_nat d) by lia.
Qed.

Lemma shape_fresh h ns e :
  shape h [] -> 2 <= ns <= 31 ->
  shape (set_tabshift ns (set_entries e h)) (replicate (Z.to_nat (2 ^ (ns - 1))) []).
Proof.
  intros [Hmin Hmax _ _] Hns. split; [done|done|right|]; cbn [tabshift set_tabshift set_entries].
  - split; [done|]. rewrite length_replicate Z2Nat.id; [done|]. apply Z.pow_nonneg. lia.
  - intros i c [-> _]%lookup_replicate. apply bucket_wf_nil.
Qed.

Lemma join_replicate_nil {A} n : mjoin (M:=list) (replicate n (@nil A)) = [].
Proof. induction n as [|n IH]; [done|]. exact IH. Qed.

(** The new shift is above that of a table with as many items as buckets. *)
Lemma grow_shift_above h cs n :
  shape h cs -> Z.of_nat (length cs) <= n -> 0 < n < 2 ^ 30 -> tabshift h < Z.log2 n + 2.
Proof.
  intros Hs Hle Hn. assert (0 <= Z.log2 n) by apply Z.log2_nonneg.
  destruct (sh_size h cs Hs) as [[-> _]|[Ht El]]; [lia|].
  assert (tabshift h - 1 <= Z.log2 n); [|lia]. apply Z.log2_le_pow2; lia.
Qed.

Lemma wp_grow head h cs n (Q : unit -> hP) :
  shape h cs -> h_count h = n -> 0 < n < 2 ^ 30 -> Z.of_nat (length cs) <= n ->
  head ↦ CHead h -∗ buckets_at (entries h) cs -∗
  (∀ h' cs', ⌜shape h' cs' /\ h_count h' = n /\ mjoin cs' ≡ₚ mjoin cs /\ tabshift h' = (Z.log2 n + 2)%Z⌝ →
     head ↦ CHead h' -∗ buckets_at (entries h') cs' -∗ Q tt) -∗
  wp (typesafe_hash_grow place head) Q.
Proof.
  intros Hs En Hn Hle. destruct (grow_shift n Hn) as (E1 & E2 & H0).
  pose proof (grow_shift_above h cs n Hs Hle Hn) as Hab. set (ns := Z.log2 n + 2) in *.
  assert (Ep : 2 ^ (ns - 1) = Z.of_nat (Z.to_nat (2 ^ (ns - 1)))).
  { rewrite Z2Nat.id; [done|]. apply Z.pow_nonneg. lia. }
  iIntros "Hh Hcs HQ". unfold typesafe_hash_grow.
  iApply wp_bind. iApply (wp_load_head with "Hh"). iIntros "Hh".
  iApply wp_bind. rewrite En. iApply wp_mlift; [exact E1|]. rewrite E2 (sh_maxshift _ _ Hs).
  change (negb (0 =? 0) && (0 <? ns)) with false. cbv iota beta zeta.
  destruct (Z.eqb_spec ns (tabshift h)); [lia|].
  iApply wp_bind. iApply wp_mlift; [apply hash_size_eq; lia|].
  iApply wp_bind. iApply wp_mlift; [by apply shape_size|]. rewrite Ep. iApply wp_bind.
  assert (Hlen : (length cs <= Z.to_nat (2 ^ (ns - 1)))%nat).
  { destruct (sh_size h cs Hs) as [[_ ->]|[Ht El]]; [simpl; lia|].
    apply Nat2Z.inj_le. rewrite El -Ep. apply Z.pow_le_mono_r; lia. }
  iApply (wp_realloc_grow with "Hcs"); [done|]. iIntros (e') "Hcs Hj".
  iApply wp_bind. iApply (wp_update_head with "Hh"). iIntros "Hh".
  iApply wp_bind. iApply (wp_load_head with "Hh"). iIntros "Hh". cbn [tabshift set_entries].
  assert (0 <= tabshift h) by (destruct (sh_size h cs Hs) as [[-> _]|[? _]]; lia).
  rewrite (wrap_small 8); [|lia]. rewrite Nat2Z.id. iApply wp_bind.
  destruct (sh_size h cs Hs) as [[E0 ->]|[Ht El]].
  - iApply wp_ret. iApply (wp_update_head with "Hh"). iIntros "Hh".
    iApply ("HQ" with "[%] Hh").
    { split_and!; [apply (shape_fresh h ns e' Hs); lia|done|by rewrite join_replicate_nil|done]. }
    rewrite buckets_nil /= Nat.sub_0_r. done.
  - set (d := Z.to_nat (ns - tabshift h)). assert (Ed : ns - tabshift h = Z.of_nat d) by (unfold d; lia).
    rewrite Ed.
    assert (Elen : (length cs * 2 ^ d)%nat = Z.to_nat (2 ^ (ns - 1))).
    { apply Nat2Z.inj. rewrite -Ep Nat2Z.inj_mul El Nat2Z.inj_pow -Z.pow_add_r; [f_equal; lia|lia..]. }
    iApply (wp_grow_buckets (set_entries e' h) ns d with "Hcs [Hj]"); [lia|lia|lia| | | |].
    + rewrite Elen -Ep. apply Z.pow_lt_mono_r; lia.
    + apply (shape_mid_sorted h); [done|lia..].
    + rewrite Elen. iApply (ptrs_junk with "Hj").
    + iIntros "Hcs". iApply (wp_update_head with "Hh"). iIntros "Hh".
      iApply ("HQ" with "[%] Hh Hcs"). split_and!; [apply shape_grown; [done|lia..]|done|apply cut_perm|done].
Qed.

(** ** Shrinking *)
Lemma join_nil_replicate {A} (l : list (list A)) : mjoin (M:=list) l = [] -> l = replicate (length l) [].
Proof.
  induction l as [|x l IH]; [done|]. intros E. change (x ++ mjoin (M:=list) l = []) in E.
  apply app_eq_nil in E as [-> E]. cbn [length replicate]. f_equal. by apply IH.
Qed.

Lemma wp_free_buckets e (n : nat) (Q : unit -> hP) :
  buckets_at e (replicate n []) -∗ Q tt -∗ wp (mem_free_all (bucket_range e n)) Q.
Proof.
  rewrite buckets_nil ptrs_at_range length_replicate. iIntros "H HQ".
  iApply (wp_free_all _ (CPtr <$> replicate n 0) with "[H] HQ").
  - by rewrite length_bucket_range length_fmap length_replicate.
  - by rewrite big_sepL2_fmap_r.
Qed.

(** The array at its new place, without the buckets past [cs] *)
Lemma wp_realloc_shrink e cs (old : nat) (Q : Z -> hP) :
  (length cs <= old)%nat ->
  buckets_at e cs -∗ junk_at e (seq (length cs) (old - length cs)) -∗
  (∀ e', buckets_at e' cs -∗ Q e') -∗
  wp (realloc_buckets place e (Z.of_nat old) (Z.of_nat (length cs))) Q.
Proof.
  intros Hn. rewrite buckets_open junk_ptrs.
  iIntros "(%ps & %Hl & Hps & Hcs) (%ps' & %Hl' & Hps') HQ".
  iAssert (ptrs_at e (ps ++ ps')) with "[Hps Hps']" as "Hps".
  { rewrite ptrs_at_app Hl. iFrame. }
  replace (Z.of_nat old) with (Z.of_nat (length (ps ++ ps'))); [|rewrite length_app; lia].
  iApply (wp_realloc with "Hps"); [lia|]. iIntros (e' _). rewrite Nat2Z.id.
  rewrite -app_assoc take_app_length'; [|done]. iIntros "Hps". iApply "HQ". by iApply "Hcs".
Qed.

Lemma shape_joined h (gs : list (list (list item))) ns d e :
  shape h (mjoin (M:=list) gs) -> Forall (fun g => length g = (2 ^ d)%nat) gs ->
  2 <= ns -> tabshift h = ns + Z.of_nat d -> tabshift h <= 31 -> Z.of_nat (length gs) = 2 ^ (ns - 1) ->
  shape (set_tabshift ns (set_entries e h)) (mjoin (M:=list) <$> gs).
Proof.
  intros [Hmin Hmax _ Hb] Hg Hns Et H31 El.
  split; [done|done|right|]; cbn [tabshift set_tabshift set_entries].
  - rewrite length_fmap. split; [lia|done].
  - apply (buckets_wf_join (ns - 1) d); [lia|lia|done|].
    by replace (ns - 1 + Z.of_nat d) with (tabshift h - 1) by lia.
Qed.

Lemma wp_shrink_empty head h cs (Q : unit -> hP) :
  shape h cs -> h_count h = 0 -> mjoin (M:=list) cs = [] ->
  head ↦ CHead h -∗ buckets_at (entries h) cs -∗
  (head ↦ CHead (set_tabshift 0 (set_entries 0 h)) -∗ Q tt) -∗
  wp (typesafe_hash_shrink place head) Q.
Proof.
  intros Hs En Ej. iIntros "Hh Hcs HQ". unfold typesafe_hash_shrink.
  iApply wp_bind. iApply (wp_load_head with "Hh"). iIntros "Hh".
  iApply wp_bind. iApply wp_mlift; [by apply shape_size|]. rewrite En Z.eqb_refl Nat2Z.id.
  iApply wp_bind. rewrite {1}(join_nil_replicate _ Ej). iApply (wp_free_buckets with "Hcs").
  iApply (wp_update_head with "Hh HQ").
Qed.

Lemma shape_emptied h cs : shape h cs -> shape (set_tabshift 0 (set_entries 0 h)) [].
Proof. intros [Hmin Hmax _ _]. split; [done|done|by left|done]. Qed.

Lemma wp_shrink head h cs n (Q : unit -> hP) :
  shape h cs -> h_count h = n -> 0 < n -> 2 <= tabshift h -> n < 2 ^ (tabshift h - 2) ->
  head ↦ CHead h -∗ buckets_at (entries h) cs -∗
  (∀ h' cs', ⌜shape h' cs' /\ h_count h' = n /\ mjoin cs' ≡ₚ mjoin cs /\ tabshift h' = (Z.log2 n + 2)%Z⌝ →
     head ↦ CHead h' -∗ buckets_at (entries h') cs' -∗ Q tt) -∗
  wp (typesafe_hash_shrink place head) Q.
Proof.
  intros Hs En Hn H2 Hlt.
  destruct (sh_size h cs Hs) as [[E0 _]|[Ht El]]; [lia|].
  destruct (grow_shift n) as (E1 & E2 & H0).
  { split; [done|]. eapply Z.lt_le_trans; [exact Hlt|]. apply Z.pow_le_mono_r; lia. }
  set (ns := Z.log2 n + 2) in *.
  assert (Hns : ns < tabshift h) by (assert (Z.log2 n < tabshift h - 2) by (apply Z.log2_lt_pow2; lia); lia).
  set (d := Z.to_nat (tabshift h - ns)). assert (Ed : tabshift h - ns = Z.of_nat d) by (unfold d; lia).
  destruct (groups_exist (Z.to_nat (2 ^ (ns - 1))) (2 ^ d) cs) as (gs & Ecs & Hgl & Hg).
  { apply Nat2Z.inj. rewrite El Nat2Z.inj_mul Z2Nat.id; [|apply Z.pow_nonneg; lia].
    rewrite Nat2Z.inj_pow -Z.pow_add_r; [f_equal; lia|lia..]. }
  assert (Hgl' : 2 ^ (ns - 1) = Z.of_nat (length gs)).
  { rewrite Hgl Z2Nat.id; [done|]. apply Z.pow_nonneg. lia. }
  assert (Hlen : length cs = (length gs * 2 ^ d)%nat) by (rewrite Ecs; by apply length_groups).
  pose proof (pow2_ge d) as Hpow.
  iIntros "Hh Hcs HQ". unfold typesafe_hash_shrink.
  iApply wp_bind. iApply (wp_load_head with "Hh"). iIntros "Hh".
  iApply wp_bind. iApply wp_mlift; [by apply shape_size|]. rewrite En.
  destruct (Z.eqb_spec n 0); [lia|].
  iApply wp_bind. iApply wp_mlift; [exact E1|]. rewrite E2 (sh_minshift _ _ Hs).
  change (negb (0 =? 0) && (ns <? 0)) with false. cbv iota beta zeta.
  destruct (Z.eqb_spec ns (tabshift h)); [lia|].
  iApply wp_bind. iApply wp_mlift; [apply hash_size_eq; lia|].
  rewrite (wrap_small 8); [|lia]. rewrite Ed Hgl'. iApply wp_bind.
  unfold shrink_buckets. iApply wp_bind. iApply wp_mlift; [apply shl32_1; lia|].
  rewrite Nat2Z.id -(Nat2Z.inj_pow 2 d) Nat2Z.id. rewrite {1}Ecs (buckets_groups h d); [|done].
  iApply (wp_join_all h d ltac:(lia) gs 0%nat with "[] Hcs"); [done| | |].
  { rewrite Nat.add_0_l -Hlen El. apply Z.pow_lt_mono_r; lia. }
  { by rewrite /junk_at. }
  rewrite Nat.add_0_l. iIntros "Hcs Hj". iApply wp_bind.
  iAssert (buckets_at (entries h) (mjoin (M:=list) <$> gs)) with "[Hcs]" as "Hcs".
  { by rewrite /buckets_at big_sepL_fmap. }
  rewrite Hlen. rewrite -(length_fmap (mjoin (M:=list)) gs).
  iApply (wp_realloc_shrink with "Hcs Hj"); [rewrite length_fmap; nia|]. iIntros (e') "Hcs".
  iApply (wp_update_head with "Hh"). iIntros "Hh". iApply ("HQ" with "[%] Hh Hcs").
  split_and!; [|done|by rewrite join_join_perm -Ecs|done].
  apply (shape_joined h gs ns d); [by rewrite -Ecs|done|lia..|by rewrite -Hgl'].
Qed.
End tables.
