(* ===== verification/ThashSet.v ===== *)
(** * Hash tables as sets

    [hash_rep head key S]: the table at [head] holds the objects of the set
    [S], whose keys are given by [key].  The functions that [DECLARE_HASH]
    generates are shown to be the operations of a set of objects with
    distinct keys.

    The comparison and the hash function read the objects, which belong to
    the caller: the rules take the caller's part of memory, [F], and need to
    know that a key can be read from it. *)

From S2P Require Import Prelude SepLogic Heap ThashSize Thash ThashResize ThashTable.
From stdpp Require Import sorting.
From iris.proofmode Require Import proofmode.

#[local] Open Scope Z_scope.

(** What [DECLARE_HASH] asks of [cmpfn] and [hashfn] on the keys in [dom]:
    they are defined, and equal keys have the same hash value. *)
Class HashLaws {U K : Type} (D : hash_decl U K) (dom : K -> Prop) := {
  hv : K -> Z;
  hash_ok : forall k, dom k -> hashfn D k = Ret (hv k) /\ 0 <= hv k < 2 ^ 32;
  eqk : K -> K -> bool;
  cmp_ok : forall k1 k2, dom k1 -> dom k2 -> exists c, cmpfn D k1 k2 = Ret c /\ eqk k1 k2 = (c =? 0);
  eqk_hash : forall k1 k2, dom k1 -> dom k2 -> eqk k1 k2 = true -> hv k1 = hv k2
}.

Lemma size_remove (x : Z) (S : gset Z) : x ∈ S -> size S = Datatypes.S (size (S ∖ {[x]})).
Proof.
  intros Hx. rewrite {1}(union_difference_singleton_L x S Hx) size_union; [|set_solver]. by rewrite size_singleton.
Qed.

Section sets.
Context {U K : Type} (D : hash_decl U K) (dom : K -> Prop) `{!HashLaws D dom}.
Abbreviation mem := (gmap Z (hcell U)).
Abbreviation hP := (hpropI (hcell U)).
Implicit Types key : Z -> K.
Implicit Types S : gset Z.

(** The item of an object that is in no table *)
Definition item_cells (x : Z) : hP :=
  (∃ p w, item_of D x ↦ CPtr p ∗ (item_of D x + 8) ↦ CWord w)%I.

Record table (key : Z -> K) (S : gset Z) (h : thash_head) (cs : list (list item)) : Prop := {
  tb_shape : shape h cs;
  tb_items : fst <$> mjoin (M:=list) cs ≡ₚ item_of D <$> elements S;
  tb_hash : Forall (fun x => x.2 = hv (key (container_of D x.1))) (mjoin (M:=list) cs);
  tb_dom : forall x, x ∈ S -> dom (key x)
}.

Definition hash_rep (head : Z) key S : hP :=
  (∃ h cs, ⌜table key S h cs /\ h_count h = Z.of_nat (size S) /\ h_count h < 2 ^ 30 /\
      (cs <> [] -> h_count h < Z.of_nat (length cs))⌝ ∧
    (head ↦ CHead h ∗ buckets_at (entries h) cs))%I.

(** Keys can be read from [F]. *)
Definition reads (F : hP) key S : Prop := forall y (Q : K -> hP),
  y ∈ S -> F -∗ (F -∗ Q (key y)) -∗ wp (load_key D y) Q.

(** ** Facts about tables *)
Lemma container_item x : container_of D (item_of D x) = x.
Proof. unfold container_of, item_of. lia. Qed.
Lemma item_container a : item_of D (container_of D a) = a.
Proof. unfold container_of, item_of. lia. Qed.

Section facts.
Context key S h cs (Ht : table key S h cs).

Lemma table_In a v : (a, v) ∈ mjoin (M:=list) cs -> container_of D a ∈ S /\ v = hv (key (container_of D a)).
Proof.
  intros Hin. split.
  - assert (H : a ∈ fst <$> mjoin (M:=list) cs) by (apply list_elem_of_fmap; by exists (a, v)).
    rewrite (tb_items _ _ _ _ Ht) in H. apply list_elem_of_fmap in H as (x & -> & Hx).
    rewrite container_item. by apply elem_of_elements.
  - pose proof (tb_hash _ _ _ _ Ht) as H. rewrite Forall_forall in H. by apply (H (a, v)).
Qed.

Lemma table_find x : x ∈ S -> (item_of D x, hv (key x)) ∈ mjoin (M:=list) cs.
Proof.
  intros Hx. assert (H : item_of D x ∈ fst <$> mjoin (M:=list) cs).
  { rewrite (tb_items _ _ _ _ Ht). apply list_elem_of_fmap. exists x. split; [done|]. by apply elem_of_elements. }
  apply list_elem_of_fmap in H as ([a v] & E & Hin). simpl in E. subst a.
  destruct (table_In _ _ Hin) as [_ ->]. by rewrite container_item in Hin.
Qed.

Lemma table_length : length (mjoin (M:=list) cs) = size S.
Proof.
  rewrite -(length_fmap fst) (tb_items _ _ _ _ Ht) length_fmap. done.
Qed.

Lemma table_bucket i c : cs !! i = Some c -> bucket_wf (tabshift h - 1) i c.
Proof. apply (sh_buckets _ _ (tb_shape _ _ _ _ Ht)). Qed.

(** All items of a hash value are in its bucket. *)
Lemma table_same_bucket a v i c :
  (a, v) ∈ mjoin (M:=list) cs -> bucket_of (tabshift h - 1) v = Z.of_nat i -> cs !! i = Some c -> (a, v) ∈ c.
Proof.
  intros (c' & Hin & [j Hj]%list_elem_of_lookup)%list_elem_of_join Hi Hc.
  destruct (table_bucket j c' Hj) as [_ Hp]. rewrite Forall_forall in Hp.
  destruct (Hp _ Hin) as [_ E]. simpl in E. assert (i = j) as -> by lia. congruence.
Qed.

Lemma table_bucket_of k :
  cs <> [] -> dom k ->
  2 <= tabshift h <= 31 /\ HASH_KEY h (hv k) = Ret (bucket_of (tabshift h - 1) (hv k)) /\
  exists i c, bucket_of (tabshift h - 1) (hv k) = Z.of_nat i /\ cs !! i = Some c.
Proof.
  intros Hne Hk. destruct (sh_size _ _ (tb_shape _ _ _ _ Ht)) as [[_ ?]|[H El]]; [done|].
  split; [done|]. split; [by apply hash_index_eq|].
  destruct (hash_ok k Hk) as [_ Hv].
  destruct (bucket_of_bound (tabshift h - 1) (hv k)) as [H0 H1]; [lia|done|].
  exists (Z.to_nat (bucket_of (tabshift h - 1) (hv k))).
  destruct (lookup_lt_is_Some_2 cs (Z.to_nat (bucket_of (tabshift h - 1) (hv k)))) as [c Hc]; [lia|].
  exists c. split; [lia|done].
Qed.
End facts.

(** A bucket taken out of the array and put back *)
Lemma bucket_acc (h : thash_head) cs i c :
  cs !! i = Some c ->
  buckets_at (U := U) (entries h) cs ⊢ items_at (bucket h (Z.of_nat i)) c ∗
    (∀ c', items_at (bucket h (Z.of_nat i)) c' -∗ buckets_at (entries h) (<[i := c']> cs)).
Proof.
  intros Hc. unfold buckets_at. rewrite big_sepL_insert_acc //.
Qed.

(** In a bucket, what comes before and after a hash value *)
Lemma span_lower c v :
  StronglySorted (fun x y : item => x.2 <= y.2) c ->
  let s := span (fun x => x.2 <? v) c in
  c = s.1 ++ s.2 /\ Forall (fun x => x.2 < v) s.1 /\ Forall (fun x => v <= x.2) s.2 /\
  StronglySorted (fun x y : item => x.2 <= y.2) s.2.
Proof.
  induction 1 as [|x c Hs IH Hx]; [by split_and!; constructor|]. cbn [span].
  destruct IH as (E & H1 & H2 & H3). destruct (Z.ltb_spec x.2 v); cbn [fst snd].
  - split_and!; [by rewrite {1}E|by constructor|done|done].
  - split_and!; [done|constructor| |by constructor]. constructor; [done|].
    eapply Forall_impl; [exact Hx|]. simpl. lia.
Qed.

Lemma span_skip v (c1 c2 : list item) x :
  Forall (fun x => x.2 < v) c1 -> v <= x.2 ->
  span (fun x => x.2 <? v) (c1 ++ x :: c2) = (c1, x :: c2).
Proof.
  intros Hc Hx. induction Hc as [|y c1 Hy Hc IH]; cbn [app span].
  - by rewrite (proj2 (Z.ltb_ge _ _) Hx).
  - by rewrite (proj2 (Z.ltb_lt _ _) Hy) IH.
Qed.

Lemma wp_skip_lower c v fuel np (Q : Z -> hP) :
  let s := span (fun x => x.2 <? v) c in
  (length c < fuel)%nat ->
  items_at np c -∗ (seg np s.1 -∗ items_at (seg_end np s.1) s.2 -∗ Q (seg_end np s.1)) -∗
  wp (skip_lower v fuel np) Q.
Proof.
  intros s Hf. iIntros "H HQ". iApply (wp_scan _ (fun x => x.2 <? v) with "H HQ"); [lia|].
  intros a w Q' _. iIntros "Hw HQ'". iApply wp_bind. iApply (wp_load_word with "Hw"). iIntros "Hw".
  iApply wp_ret. by iApply "HQ'".
Qed.

(** ** Looking up *)
Lemma wp_find_equal key S F k c fuel np (Q : Z -> hP) :
  (length c < fuel)%nat -> dom k -> reads F key S -> (forall x, x ∈ S -> dom (key x)) ->
  Forall (fun x => container_of D x.1 ∈ S /\ x.2 = hv (key (container_of D x.1))) c ->
  Forall (fun x => hv k <= x.2) c -> StronglySorted (fun x y : item => x.2 <= y.2) c ->
  items_at np c -∗ F -∗
  (∀ r, ⌜r = 0 /\ (forall x, x ∈ c -> eqk (key (container_of D x.1)) k = false) \/
         r ∈ S /\ eqk (key r) k = true⌝ → items_at np c -∗ F -∗ Q r) -∗
  wp (hitem ← load_ptr np; find_equal D fuel k (hv k) hitem) Q.
Proof.
  intros Hf Hk HF Hdom. revert fuel np Hf.
  induction c as [|[a v] c IH]; intros [|fuel] np Hf Hc Hle Hs; [simpl in Hf; lia| |simpl in Hf; lia|].
  - iIntros "H HF HQ". iApply wp_bind. iApply (wp_load_ptr with "H"). iIntros "H". cbn [find_equal].
    rewrite Z.eqb_refl. iApply wp_ret. iApply ("HQ" with "[%] H HF"). left. split; [done|].
    intros x Hx. by apply not_elem_of_nil in Hx.
  - apply Forall_cons in Hc as [[HaS Hv] Hc]. apply Forall_cons in Hle as [Hv' Hle].
    apply StronglySorted_inv in Hs as [Hs Hx]. simpl in HaS, Hv, Hv'. cbn [items_at length] in *.
    iIntros "(Hp & Hw & Hi) HF HQ". iApply wp_bind. iApply (wp_load_ptr with "Hp"). iIntros "Hp".
    iDestruct (items_at_nonnull with "Hi") as %Ha. cbn [find_equal]. destruct (Z.eqb_spec a 0); [done|].
    iApply wp_bind. iApply (wp_load_word with "Hw"). iIntros "Hw".
    assert (Hda : dom (key (container_of D a))) by by apply Hdom.
    destruct (Z.eqb_spec v (hv k)) as [Ev|Ev]; cbn [negb].
    + iApply wp_bind. iApply (HF with "HF"); [done|]. iIntros "HF".
      destruct (cmp_ok _ k Hda Hk) as (r & Er & Eeq).
      iApply wp_bind. iApply wp_mlift; [exact Er|]. destruct (r =? 0).
      * iApply wp_ret. iApply ("HQ" with "[%] [$Hp $Hw $Hi] HF"). by right.
      * iApply (IH fuel a ltac:(lia) Hc Hle Hs with "Hi HF"). iIntros (r' Hr') "Hi HF".
        iApply ("HQ" with "[%] [$Hp $Hw $Hi] HF"). destruct Hr' as [[-> Hn]|Hr']; [left|by right].
        split; [done|]. intros x [->|Hin]%elem_of_cons; [done|by apply Hn].
    + iApply wp_ret. iApply ("HQ" with "[%] [$Hp $Hw $Hi] HF"). left. split; [done|].
      intros x Hin. apply not_true_is_false. intros Heq.
      assert (H : hv k < x.2 /\ container_of D x.1 ∈ S /\ x.2 = hv (key (container_of D x.1))).
      { apply elem_of_cons in Hin as [->|Hin]; [simpl; split_and!; [lia|done|done]|].
        rewrite Forall_forall in Hx. specialize (Hx _ Hin). rewrite Forall_forall in Hc.
        destruct (Hc _ Hin). simpl in Hx. split_and!; [lia|done|done]. }
      destruct H as (H1 & H2 & H3). apply eqk_hash in Heq; [lia|by apply Hdom|done].
Qed.

(** What a search for the key [k] returns *)
Definition found key S (k : K) (r : Z) : Prop :=
  r = 0 /\ (forall x, x ∈ S -> eqk (key x) k = false) \/ r ∈ S /\ eqk (key r) k = true.

Lemma wp_hash_find head key S F k (Q : Z -> hP) :
  dom k -> reads F key S ->
  hash_rep head key S -∗ F -∗
  (∀ r, ⌜found key S k r⌝ → hash_rep head key S -∗ F -∗ Q r) -∗
  wp (hash_find D head k) Q.
Proof.
  intros Hk HF. iIntros "(%h & %cs & [%Ht (%En & %Hb & %Hlt)] & Hh & Hcs) HF HQ".
  unfold hash_find. iApply wp_bind. iApply (wp_load_head with "Hh"). iIntros "Hh".
  assert (Hrep : head ↦ CHead h ∗ buckets_at (entries h) cs ⊢ hash_rep head key S).
  { iIntros "H". iExists h, cs. by iSplit. }
  destruct (decide (cs = [])) as [->|Hne].
  { destruct (sh_size _ _ (tb_shape _ _ _ _ Ht)) as [[-> _]|[Hr El]].
    2: { simpl in El. pose proof (Z.pow_pos_nonneg 2 (tabshift h - 1)). lia. }
    rewrite Z.eqb_refl. iApply wp_ret. iApply ("HQ" with "[%] [Hh Hcs] HF"); [|iApply Hrep; iFrame].
    left. split; [done|]. intros x Hx. by apply (table_find _ _ _ _ Ht), not_elem_of_nil in Hx. }
  destruct (table_bucket_of _ _ _ _ Ht k Hne Hk) as (Hr & Ekey & i & c & Ei & Hc).
  destruct (hash_ok k Hk) as [Ehash Hv]. destruct (Z.eqb_spec (tabshift h) 0); [lia|].
  iApply wp_bind. iApply wp_mlift; [exact Ehash|]. iApply wp_bind. iApply wp_mlift; [exact Ekey|].
  rewrite Ei (bucket_acc h cs i c Hc). iDestruct "Hcs" as "[Hc Hback]". iApply wp_bind.
  iApply (wp_mem_fuel _ _ _ (at_least_items _ _) with "Hc"). iIntros (fuel Hf) "Hc".
  iApply wp_bind. iApply (wp_skip_lower with "Hc"); [lia|]. iIntros "Hseg Hc".
  iApply wp_bind. iApply (wp_mem_fuel _ _ _ (at_least_items _ _) with "Hc"). iIntros (fuel' Hf') "Hc".
  destruct (table_bucket _ _ _ _ Ht i c Hc) as [Hsort _].
  destruct (span_lower c (hv k) Hsort) as (Esp & Hlow & Hhigh & Hs2).
  set (c1 := (span _ c).1) in *. set (c2 := (span _ c).2) in *.
  assert (Hin : forall x, x ∈ c -> x ∈ mjoin (M:=list) cs).
  { intros x Hx. apply list_elem_of_join. exists c. split; [done|]. by eapply list_elem_of_lookup_2. }
  iApply (wp_find_equal key S F k c2 with "Hc HF"); [lia|done|done|apply (tb_dom _ _ _ _ Ht)| |done|done|].
  { apply Forall_forall. intros [a v] Hx. apply (table_In _ _ _ _ Ht). apply Hin. rewrite Esp.
    apply elem_of_app. by right. }
  iIntros (r Hres) "Hc HF". iApply ("HQ" with "[%] [-HF] HF").
  - destruct Hres as [[-> Hno]|Hyes]; [left|by right]. split; [done|]. intros x Hx.
    apply not_true_is_false. intros Heq. pose proof (tb_dom _ _ _ _ Ht x Hx) as Hd.
    pose proof (eqk_hash _ _ Hd Hk Heq) as Ehv.
    pose proof (table_find _ _ _ _ Ht x Hx) as Hx'. rewrite Ehv in Hx'.
    apply (table_same_bucket _ _ _ _ Ht _ _ i c) in Hx'; [|done|done].
    rewrite Esp in Hx'. apply elem_of_app in Hx' as [Hx'|Hx'].
    + rewrite Forall_forall in Hlow. apply Hlow in Hx'. simpl in Hx'. lia.
    + apply Hno in Hx'. simpl in Hx'. rewrite container_item in Hx'. congruence.
  - iApply Hrep. iFrame "Hh". rewrite -{2}(list_insert_id _ _ _ Hc). iApply "Hback".
    rewrite {1}Esp items_at_app. iFrame.
Qed.

(** What [hash_add] looks at before it adds an object with the key [k]: the
    first item with the hash value of [k].  So no object is equal, or there
    is a collision. *)
Definition unseen key S (k : K) : Prop :=
  (forall z, z ∈ S -> eqk (key z) k = false) \/
  exists y, y ∈ S /\ hv (key y) = hv k /\ eqk (key y) k = false.

Lemma no_equal key S h cs (Ht : table key S h cs) k i c :
  dom k -> bucket_of (tabshift h - 1) (hv k) = Z.of_nat i -> cs !! i = Some c ->
  let c2 := (span (fun x => x.2 <? hv k) c).2 in
  c2 = [] \/ (exists q w, head c2 = Some (q, w) /\ eqk (key (container_of D q)) k = false) ->
  unseen key S k.
Proof.
  intros Hk Ei Hc c2 Hc2. destruct (table_bucket _ _ _ _ Ht i c Hc) as [Hsort _].
  destruct (span_lower c (hv k) Hsort) as (Esp & Hlow & Hhigh & Hs2). fold c2 in Esp, Hhigh, Hs2.
  assert (Hall : forall z, z ∈ S -> eqk (key z) k = true -> (item_of D z, hv k) ∈ c2).
  { intros z Hz Heq. pose proof (eqk_hash _ _ (tb_dom _ _ _ _ Ht z Hz) Hk Heq) as E.
    pose proof (table_find _ _ _ _ Ht z Hz) as Hin. rewrite E in Hin.
    apply (table_same_bucket _ _ _ _ Ht _ _ i c) in Hin; [|done|done].
    rewrite Esp in Hin. apply elem_of_app in Hin as [Hin|]; [|done].
    rewrite Forall_forall in Hlow. apply Hlow in Hin. simpl in Hin. lia. }
  destruct Hc2 as [E|(q & w & E & Hq)].
  - left. intros z Hz. apply not_true_is_false. intros Heq. apply Hall in Heq; [|done].
    rewrite E in Heq. by apply not_elem_of_nil in Heq.
  - destruct c2 as [|x c2]; [done|]. injection E as ->.
    apply Forall_cons in Hhigh as [Hw _]. apply StronglySorted_inv in Hs2 as [_ Hx]. simpl in Hw, Hx.
    destruct (decide (w = hv k)) as [->|Hne].
    + right. exists (container_of D q). destruct (table_In _ _ _ _ Ht q (hv k)) as [Hin E]; [|by split_and!].
      apply list_elem_of_join. exists c. split; [|by eapply list_elem_of_lookup_2].
      rewrite Esp. apply elem_of_app. right. by left.
    + left. intros z Hz. apply not_true_is_false. intros Heq. apply Hall in Heq; [|done].
      apply elem_of_cons in Heq as [[= _ E]|Heq]; [done|].
      rewrite Forall_forall in Hx. apply Hx in Heq. simpl in Heq. lia.
Qed.

(** ** Tables with an item more *)
Lemma join_insert_perm (cs : list (list item)) i c c' l :
  cs !! i = Some c -> c' ≡ₚ l ++ c -> mjoin (M:=list) (<[i := c']> cs) ≡ₚ l ++ mjoin (M:=list) cs.
Proof.
  intros Hc Hp. rewrite (insert_take_drop cs i c'); [|by eapply lookup_lt_Some].
  rewrite -{3}(take_drop_middle cs i c Hc). rewrite !join_app.
  change (mjoin (M:=list) (take i cs) ++ (c' ++ mjoin (M:=list) (drop (S i) cs)) ≡ₚ
    l ++ (mjoin (M:=list) (take i cs) ++ (c ++ mjoin (M:=list) (drop (S i) cs)))).
  rewrite Hp. rewrite -!app_assoc. rewrite Permutation_app_swap_app. done.
Qed.

Lemma shape_insert h cs i c :
  shape h cs -> bucket_wf (tabshift h - 1) i c -> shape h (<[i := c]> cs).
Proof.
  intros [Hmin Hmax Hsz Hb] Hc. split; [done|done| |].
  - rewrite length_insert. destruct Hsz as [[E ->]|Hsz]; [left|right]; done.
  - intros j c' Hj. apply list_lookup_insert_Some in Hj as [(-> & -> & _)|[_ Hj]]; [done|by apply Hb].
Qed.

Lemma shape_set_count h cs n : shape h cs -> shape (set_count n h) cs.
Proof. by intros []. Qed.

Lemma table_perm key S h cs h' cs' :
  table key S h cs -> shape h' cs' -> mjoin (M:=list) cs' ≡ₚ mjoin (M:=list) cs -> table key S h' cs'.
Proof.
  intros Ht Hs Hp. split; [done|by rewrite Hp; apply (tb_items _ _ _ _ Ht)| |apply (tb_dom _ _ _ _ Ht)].
  rewrite Hp. apply (tb_hash _ _ _ _ Ht).
Qed.

Lemma table_insert key S h cs x i c c' :
  table key S h cs -> x ∉ S -> dom (key x) -> cs !! i = Some c ->
  c' ≡ₚ (item_of D x, hv (key x)) :: c -> bucket_wf (tabshift h - 1) i c' ->
  table key ({[x]} ∪ S) h (<[i := c']> cs).
Proof.
  intros Ht Hx Hd Hc Hp Hw.
  pose proof (join_insert_perm cs i c c' [(item_of D x, hv (key x))] Hc Hp) as HJ.
  split; [by apply shape_insert, Hw; apply (tb_shape _ _ _ _ Ht)| | |].
  - rewrite HJ fmap_app (tb_items _ _ _ _ Ht) (elements_union_singleton S x Hx). done.
  - rewrite HJ. apply Forall_app. split; [|apply (tb_hash _ _ _ _ Ht)].
    apply Forall_singleton. simpl. by rewrite container_item.
  - intros y [->%elem_of_singleton|Hy]%elem_of_union; [done|by apply (tb_dom _ _ _ _ Ht)].
Qed.

(** ** Where an item is removed *)
Lemma span_to_item c ix v :
  StronglySorted (fun x y : item => x.2 <= y.2) c -> Forall (fun x => v <= x.2) c ->
  (forall w, (ix, w) ∈ c -> w = v) -> (ix, v) ∈ c ->
  exists d1 d2, span (fun x => if x.1 =? ix then false else x.2 =? v) c = (d1, (ix, v) :: d2).
Proof.
  intros Hs Hv Hu Hin. induction Hs as [|[a w] c Hs IH Hx]; [by apply not_elem_of_nil in Hin|].
  apply Forall_cons in Hv as [Hw Hv]. cbn [span fst snd]. destruct (Z.eqb_spec a ix) as [->|Hne].
  - rewrite (Hu w); [|by left]. by exists [], c.
  - apply elem_of_cons in Hin as [[= ? _]|Hin]; [congruence|].
    rewrite Forall_forall in Hx. specialize (Hx _ Hin). simpl in Hx, Hw. rewrite (_ : w =? v = true); [|lia].
    destruct (IH Hv) as (d1 & d2 & E); [by intros w' ?; apply Hu; right|done|].
    rewrite E. by exists ((a, w) :: d1), d2.
Qed.

Lemma bucket_wf_remove k i l1 x l2 : bucket_wf k i (l1 ++ x :: l2) -> bucket_wf k i (l1 ++ l2).
Proof.
  intros [Hs Hp]. apply Forall_app in Hp as [Hp1 [_ Hp2]%Forall_cons].
  apply StronglySorted_app in Hs as (H12 & Hs1 & [Hs2 _]%StronglySorted_inv). split.
  - apply StronglySorted_app_2; [|done..]. intros y z Hy Hz. apply H12; [done|by right].
  - by apply Forall_app.
Qed.

Lemma table_delete key S h cs x v i c c' :
  table key S h cs -> x ∈ S -> cs !! i = Some c -> c ≡ₚ (item_of D x, v) :: c' ->
  bucket_wf (tabshift h - 1) i c' -> table key (S ∖ {[x]}) h (<[i := c']> cs).
Proof.
  intros Ht Hx Hc Hp Hw. apply lookup_lt_Some in Hc as Hlt.
  assert (HJ : mjoin (M:=list) cs ≡ₚ (item_of D x, v) :: mjoin (M:=list) (<[i := c']> cs)).
  { rewrite -{1}(list_insert_id cs i c Hc) -(list_insert_insert_eq cs i c c').
    apply (join_insert_perm (<[i := c']> cs) i c' c [(item_of D x, v)]); [by apply list_lookup_insert_eq|done]. }
  pose proof (tb_items _ _ _ _ Ht) as Hi. rewrite HJ in Hi.
  assert (HS : elements S ≡ₚ x :: elements (S ∖ {[x]})).
  { rewrite -elements_union_singleton; [|set_solver]. by rewrite -union_difference_singleton_L. }
  rewrite HS in Hi. cbn [fmap list_fmap] in Hi. apply Permutation_cons_inv in Hi.
  split; [by apply shape_insert, Hw; apply (tb_shape _ _ _ _ Ht)|done| |].
  - pose proof (tb_hash _ _ _ _ Ht) as Hh. rewrite HJ in Hh. by apply Forall_cons in Hh as [_ Hh].
  - intros y Hy. apply (tb_dom _ _ _ _ Ht). set_solver.
Qed.

Lemma wp_item_hash np c a v (Q : Z -> hP) :
  (a, v) ∈ c -> items_at np c -∗ (items_at np c -∗ Q v) -∗ wp (load_hashval a) Q.
Proof.
  intros [l1 [l2 ->]]%list_elem_of_split. rewrite items_at_app. cbn [items_at].
  iIntros "(Hs & Hp & Hw & Hc) HQ". iApply (wp_load_word with "Hw"). iIntros "Hw". iApply "HQ". iFrame.
Qed.

(** The way of [hash_del] to the item of [x] *)
Abbreviation not_yet ix v := (fun y : item => if y.1 =? ix then false else y.2 =? v).

Lemma delete_path key S h cs x :
  table key S h cs -> x ∈ S -> let v := hv (key x) in let ix := item_of D x in
  exists i c c1 d1 d2, cs !! i = Some c /\ (ix, v) ∈ c /\ tabshift h <> 0 /\
    HASH_KEY h v = Ret (Z.of_nat i) /\ span (fun y => y.2 <? v) c = (c1, d1 ++ (ix, v) :: d2) /\
    span (not_yet ix v) (d1 ++ (ix, v) :: d2) = (d1, (ix, v) :: d2).
Proof.
  intros Ht Hx v ix. pose proof (table_find _ _ _ _ Ht x Hx) as Hfind.
  assert (Hne : cs <> []) by (intros ->; by apply not_elem_of_nil in Hfind).
  destruct (table_bucket_of _ _ _ _ Ht (key x) Hne (tb_dom _ _ _ _ Ht x Hx)) as (Hr & Ekey & i & c & Ei & Hc).
  pose proof (table_same_bucket _ _ _ _ Ht _ _ i c Hfind Ei Hc) as Hinc.
  destruct (table_bucket _ _ _ _ Ht i c Hc) as [Hsort _].
  destruct (span_lower c v Hsort) as (Esp & Hlow & Hhigh & Hs2).
  destruct (span _ c) as [c1 c2] eqn:Espan. cbn [fst snd] in *.
  assert (Hin2 : (ix, v) ∈ c2).
  { rewrite Esp in Hinc. apply elem_of_app in Hinc as [Hin|Hin]; [|done].
    rewrite Forall_forall in Hlow. apply Hlow in Hin. simpl in Hin. lia. }
  destruct (span_to_item c2 ix v Hs2 Hhigh) as (d1 & d2 & E2); [|done|].
  { intros w Hw. destruct (table_In _ _ _ _ Ht ix w) as [_ ->]; [|by rewrite container_item].
    apply list_elem_of_join. exists c. split; [|by eapply list_elem_of_lookup_2].
    rewrite Esp. apply elem_of_app. by right. }
  pose proof (span_app (not_yet ix v) c2) as E. rewrite E2 in E. cbn [fst snd] in E.
  exists i, c, c1, d1, d2. rewrite E. split_and!; [done|done|lia|by rewrite Ekey Ei|done|done].
Qed.

(** The loops of [hash_del] in the bucket, and the change of the list *)
Lemma wp_skip_others ix v fuel np l (Q : Z -> hP) :
  let s := span (not_yet ix v) l in
  (length l < fuel)%nat ->
  items_at np l -∗ (seg np s.1 -∗ items_at (seg_end np s.1) s.2 -∗ Q (seg_end np s.1)) -∗
  wp (skip_others ix v fuel np) Q.
Proof.
  intros s Hf. iIntros "H HQ". iApply (wp_scan _ (not_yet ix v) with "H HQ"); [lia|].
  intros a w Q' _. iIntros "Hw HQ'". cbn [fst snd]. destruct (a =? ix).
  - iApply wp_ret. by iApply "HQ'".
  - iApply wp_bind. iApply (wp_load_word with "Hw"). iIntros "Hw". iApply wp_ret. by iApply "HQ'".
Qed.

(** ** Adding and removing *)
Context (place : gmap Z (hcell U) -> Z -> Z) `{!Placement place}.

(** The table has room for the item that has been counted. *)
Lemma wp_make_room head key S h cs n (Q : unit -> hP) :
  table key S h cs -> h_count h = n -> 0 < n < 2 ^ 30 ->
  head ↦ CHead h -∗ buckets_at (entries h) cs -∗
  (∀ h' cs', ⌜table key S h' cs' /\ h_count h' = n /\ n < Z.of_nat (length cs') /\
                (n < Z.of_nat (length cs) -> h' = h /\ cs' = cs)⌝ →
     head ↦ CHead h' -∗ buckets_at (entries h') cs' -∗ Q tt) -∗
  wp (grow ← mlift (HASH_GROW_THRESHOLD h);
      mwhen ((tabshift h =? 0) || grow) (typesafe_hash_grow place head)) Q.
Proof.
  intros Ht En Hn. pose proof (tb_shape _ _ _ _ Ht) as Hs. iIntros "Hh Hcs HQ".
  iApply wp_bind. iApply wp_mlift.
  { unfold HASH_GROW_THRESHOLD. rewrite (shape_size h cs Hs). done. }
  cbn [mbind res_bind]. rewrite En. unfold mwhen.
  destruct ((tabshift h =? 0) || (Z.of_nat (length cs) <=? n)) eqn:Eb.
  - iApply (wp_grow with "Hh Hcs"); [done|done|done| |].
    { apply orb_true_iff in Eb as [E%Z.eqb_eq|E%Z.leb_le]; [|done].
      destruct (sh_size h cs Hs) as [[_ ->]|[? _]]; simpl; lia. }
    iIntros (h' cs' (Hs' & En' & Hp & Et)) "Hh Hcs". iApply ("HQ" with "[%] Hh Hcs").
    split_and!; [by eapply table_perm|done| |].
    2: { intros Hlt. apply orb_true_iff in Eb as [E%Z.eqb_eq|E%Z.leb_le]; [|lia].
         destruct (sh_size h cs Hs) as [[_ ->]|[? _]]; simpl in Hlt; lia. }
    assert (0 <= Z.log2 n) by apply Z.log2_nonneg.
    destruct (sh_size h' cs' Hs') as [[E _]|[_ ->]]; [lia|]. rewrite Et.
    replace (Z.log2 n + 2 - 1) with (Z.succ (Z.log2 n)) by lia. apply Z.log2_spec. lia.
  - apply orb_false_iff in Eb as [_ E%Z.leb_gt]. iApply wp_ret. iApply ("HQ" with "[%] Hh Hcs").
    by split_and!.
Qed.

Lemma items_at_head np c :
  items_at (U := U) np c ⊢ ∃ p, ⌜p = 0 /\ c = [] \/ p <> 0 /\ exists v, head c = Some (p, v)⌝ ∧
    (np ↦ CPtr p ∗ (∀ q, q ↦ CPtr p -∗ items_at q c)).
Proof.
  destruct c as [|[a v] c].
  - iIntros "H". iExists 0. iSplit; [iPureIntro; by left|]. iFrame. by iIntros (q) "H".
  - cbn [items_at]. iIntros "(Hp & Hw & Hc)". iDestruct (items_at_nonnull with "Hc") as %Ha.
    iExists a. iSplit; [iPureIntro; right; split; [done|by exists v]|]. iFrame. by iIntros (q) "$".
Qed.

(** [*np && cmpfn(container_of( *np), item) == 0] *)
Lemma wp_same key S F k p (Q : bool -> hP) :
  dom k -> reads F key S -> (forall x, x ∈ S -> dom (key x)) -> p = 0 \/ p <> 0 /\ container_of D p ∈ S ->
  F -∗ (∀ b : bool, ⌜if b then container_of D p ∈ S /\ eqk (key (container_of D p)) k = true
                      else p = 0 \/ eqk (key (container_of D p)) k = false⌝ → F -∗ Q b) -∗
  wp (if p =? 0 then mret false
      else k' ← load_key D (container_of D p); c ← mlift (cmpfn D k' k); mret (c =? 0)) Q.
Proof.
  intros Hk HF Hdom Hp. iIntros "HF HQ". destruct Hp as [->|[H0 Hp]].
  - rewrite Z.eqb_refl. iApply wp_ret. iApply ("HQ" with "[%] HF"). by left.
  - destruct (Z.eqb_spec p 0); [done|]. iApply wp_bind. iApply (HF with "HF"); [done|]. iIntros "HF".
    destruct (cmp_ok _ k (Hdom _ Hp) Hk) as (r & Er & Eeq).
    iApply wp_bind. iApply wp_mlift; [exact Er|]. iApply wp_ret. iApply ("HQ" with "[%] HF").
    rewrite -Eeq. destruct (eqk _ k); [done|by right].
Qed.

(** A table of which more is known *)
Definition hash_rep_at (head : Z) key S (P : thash_head -> list (list item) -> Prop) : hP :=
  (∃ h cs, ⌜(table key S h cs /\ h_count h = Z.of_nat (size S) /\ h_count h < 2 ^ 30 /\
      (cs <> [] -> h_count h < Z.of_nat (length cs))) /\ P h cs⌝ ∧
    (head ↦ CHead h ∗ buckets_at (entries h) cs))%I.

Lemma hash_rep_at_intro head key S : hash_rep head key S ⊢ hash_rep_at head key S (fun _ _ => True%type).
Proof. iIntros "(%h & %cs & %H & Hm)". iExists h, cs. iFrame. by iPureIntro. Qed.

Lemma hash_rep_at_elim head key S P : hash_rep_at head key S P ⊢ hash_rep head key S.
Proof. iIntros "(%h & %cs & [%H _] & Hm)". iExists h, cs. by iFrame. Qed.

(** [y] is the first item of its hash value, and there are more buckets than
    items. *)
Definition first_is key y (h : thash_head) (cs : list (list item)) : Prop :=
  h_count h < Z.of_nat (length cs) /\
  forall i c, bucket_of (tabshift h - 1) (hv (key y)) = Z.of_nat i -> cs !! i = Some c ->
    head (span (fun x => x.2 <? hv (key y)) c).2 = Some (item_of D y, hv (key y)).

(** [hash_add], with the object it compares when the table does not grow *)
Lemma wp_hash_add_at head key S F x P (Q : Z -> hP) :
  x ∉ S -> dom (key x) -> reads F key ({[x]} ∪ S) -> Z.of_nat (size S) + 1 < 2 ^ 30 ->
  hash_rep_at head key S P -∗ item_cells x -∗ F -∗
  (∀ r, F -∗ ((⌜r = 0 /\ unseen key S (key x)⌝ ∧
                 hash_rep_at head key ({[x]} ∪ S) (first_is key x)) ∨
              (⌜r ∈ S /\ eqk (key r) (key x) = true /\
                 forall y, hv (key y) = hv (key x) ->
                   (forall h cs, P h cs -> shape h cs -> h_count h = Z.of_nat (size S) ->
                      first_is key y h cs /\ Z.of_nat (size S) + 1 < Z.of_nat (length cs)) -> r = y⌝ ∧
               (hash_rep head key S ∗ item_cells x))) -∗ Q r) -∗
  wp (hash_add D place head x) Q.
Proof.
  intros Hx Hdx HF Hsz. iIntros "(%h0 & %cs0 & %Hrep & Hh & Hcs) Hitem HF HQ".
  destruct Hrep as [(Ht0 & En0 & Hb & Hlt0) HP].
  unfold hash_add. iApply wp_bind. iApply (wp_update_head with "Hh"). iIntros "Hh".
  iApply wp_bind. iApply (wp_load_head with "Hh"). iIntros "Hh". iApply wp_bind.
  iApply (wp_make_room head key S _ cs0 (Z.of_nat (size S) + 1) with "Hh Hcs").
  { eapply table_perm; [done|by apply shape_set_count, (tb_shape _ _ _ _ Ht0)|done]. }
  { cbn [h_count set_count]. rewrite En0. apply wrap_small. lia. }
  { lia. }
  iIntros (h cs (Ht & En & Hlt & Hsame)) "Hh Hcs".
  assert (Hne : cs <> []) by (intros ->; simpl in Hlt; lia).
  destruct (table_bucket_of _ _ _ _ Ht (key x) Hne Hdx) as (Hr & Ekey & i & c & Ei & Hc).
  destruct (hash_ok (key x) Hdx) as [Ehash Hv].
  iApply wp_bind. iApply (HF x with "HF"); [set_solver|]. iIntros "HF".
  iApply wp_bind. iApply wp_mlift; [exact Ehash|].
  iApply wp_bind. iApply (wp_load_head with "Hh"). iIntros "Hh".
  iApply wp_bind. iApply wp_mlift; [exact Ekey|].
  iDestruct "Hitem" as (p w) "[Hip Hiw]". iApply wp_bind. iApply (wp_store_word with "Hiw"). iIntros "Hiw".
  rewrite Ei (bucket_acc h cs i c Hc). iDestruct "Hcs" as "[Hc Hback]". iApply wp_bind.
  iApply (wp_mem_fuel _ _ _ (at_least_items _ _) with "Hc"). iIntros (fuel Hf) "Hc".
  iApply wp_bind. iApply (wp_skip_lower with "Hc"); [lia|]. iIntros "Hseg Hc".
  destruct (table_bucket _ _ _ _ Ht i c Hc) as [Hsort Hplace].
  destruct (span_lower c (hv (key x)) Hsort) as (Esp & Hlow & Hhigh & Hs2).
  set (c1 := (span _ c).1) in *. set (c2 := (span _ c).2) in *.
  set (np := seg_end _ c1).
  iDestruct (items_at_head with "Hc") as (q) "[%Hq [Hnp Hmk]]".
  iApply wp_bind. iApply (wp_load_ptr with "Hnp"). iIntros "Hnp". iApply wp_bind.
  iApply (wp_same key S F (key x) q with "HF"); [done|by intros y Q' Hy; apply HF; set_solver|..].
  { apply (tb_dom _ _ _ _ Ht). }
  { destruct Hq as [[-> _]|(Hq0 & v & Hq)]; [by left|right]. split; [done|].
    apply (table_In _ _ _ _ Ht q v), list_elem_of_join. exists c.
    split; [|by eapply list_elem_of_lookup_2]. rewrite Esp. apply elem_of_app. right.
    destruct c2; [done|]. injection Hq as ->. by left. }
  iIntros (b Hb') "HF". destruct b.
  - iApply wp_bind. iApply (wp_update_head with "Hh"). iIntros "Hh". iApply wp_ret.
    iApply ("HQ" with "HF"). iRight. iSplit.
    { iPureIntro. destruct Hb' as [Hin Heq]. split; [done|]. split; [done|]. intros y Ey Hy.
      destruct (Hy h0 cs0 HP (tb_shape _ _ _ _ Ht0) En0) as [[_ Hfirst] Hroom].
      destruct (Hsame Hroom) as [-> ->]. rewrite Ey in Hfirst. specialize (Hfirst i c Ei Hc).
      fold c2 in Hfirst. destruct Hq as [[_ E]|(_ & v & E)]; rewrite E in Hfirst; [done|].
      injection Hfirst as -> _. apply container_item. }
    iSplitR "Hip Hiw"; [|iExists p, (hv (key x)); iFrame].
    iDestruct ("Hmk" with "Hnp") as "Hc". iDestruct ("Hback" with "[Hseg Hc]") as "Hcs".
    { iApply items_at_app. iFrame. }
    rewrite -Esp (list_insert_id _ _ _ Hc).
    iExists (set_count (u32 (h_count h - 1)) h), cs. iSplit; [|iFrame].
    iPureIntro. cbn [h_count set_count]. rewrite En (wrap_small 32); [|lia].
    split_and!; [|lia..].
    eapply table_perm; [done|by apply shape_set_count, (tb_shape _ _ _ _ Ht)|done].
  - iApply wp_bind. iApply (wp_store_ptr with "Hip"). iIntros "Hip".
    iApply wp_bind. iApply (wp_store_ptr with "Hnp"). iIntros "Hnp". iApply wp_ret.
    iApply ("HQ" with "HF"). iLeft. iSplit.
    { iPureIntro. split; [done|]. apply (no_equal key S h cs Ht (key x) i c Hdx Ei Hc).
      destruct Hq as [[-> E]|(Hq0 & w' & E)]; [by left|right; exists q, w'; split; [done|]].
      by destruct Hb' as [->|Hb']. }
    iDestruct ("Hmk" with "Hip") as "Hc".
    iDestruct ("Hback" $! (c1 ++ (item_of D x, hv (key x)) :: c2) with "[Hseg Hnp Hiw Hc]") as "Hcs".
    { iApply items_at_app. cbn [items_at]. iFrame. }
    iExists h, (<[i := c1 ++ (item_of D x, hv (key x)) :: c2]> cs). iSplit; [|iFrame].
    iPureIntro. rewrite En length_insert.
    split_and!; [|by rewrite size_union ?size_singleton; [lia|set_solver]|lia|lia|].
    2: { split; [rewrite length_insert; lia|]. intros j c' Ej Hj.
      assert (j = i) as -> by lia. rewrite list_lookup_insert_eq in Hj; [|by eapply lookup_lt_Some].
      injection Hj as <-. rewrite (span_skip _ c1 _ _ Hlow); [done|]. simpl. lia. }
    apply (table_insert key S h cs x i c); [done..| |].
    + rewrite {1}Esp. by rewrite Permutation_middle.
    + rewrite Esp in Hsort Hplace. apply Forall_app in Hplace as [Hp1 Hp2]. split.
      * apply StronglySorted_app_2; [|by eapply StronglySorted_app_1_l|].
        2: { constructor; [done|]. eapply Forall_impl; [exact Hhigh|]. simpl. lia. }
        intros y z Hy Hz. rewrite Forall_forall in Hlow. specialize (Hlow y Hy).
        apply elem_of_cons in Hz as [->|Hz]; simpl; [lia|].
        rewrite Forall_forall in Hhigh. specialize (Hhigh z Hz). simpl in Hhigh. lia.
      * apply Forall_app. split; [done|]. by constructor.
Qed.

Lemma wp_hash_add head key S F x (Q : Z -> hP) :
  x ∉ S -> dom (key x) -> reads F key ({[x]} ∪ S) -> Z.of_nat (size S) + 1 < 2 ^ 30 ->
  hash_rep head key S -∗ item_cells x -∗ F -∗
  (∀ r, F -∗ ((⌜r = 0 /\ unseen key S (key x)⌝ ∧ hash_rep head key ({[x]} ∪ S)) ∨
              (⌜r ∈ S /\ eqk (key r) (key x) = true⌝ ∧ (hash_rep head key S ∗ item_cells x))) -∗ Q r) -∗
  wp (hash_add D place head x) Q.
Proof.
  intros Hx Hd HF Hsz. iIntros "Hrep Hi HF HQ".
  iApply (wp_hash_add_at with "[Hrep] Hi HF"); [done..|by iApply hash_rep_at_intro|]. iIntros (r) "HF [[%Hr H]|[%Hr H]]".
  - iApply ("HQ" with "HF"). iLeft. iSplit; [done|]. by iApply hash_rep_at_elim.
  - iApply ("HQ" with "HF"). iRight. iSplit; [|done]. iPureIntro. by destruct Hr as (? & ? & _).
Qed.

(** The table after the count has been lowered to [n] *)
Lemma wp_give_back head key S h cs (Q : unit -> hP) :
  table key S h cs -> h_count h = Z.of_nat (size S) -> h_count h < 2 ^ 30 -> h_count h < Z.of_nat (length cs) ->
  head ↦ CHead h -∗ buckets_at (entries h) cs -∗
  (hash_rep head key S -∗ Q tt) -∗
  wp (shrink ← mlift (HASH_SHRINK_THRESHOLD h); mwhen shrink (typesafe_hash_shrink place head)) Q.
Proof.
  intros Ht En Hb Hlt. pose proof (tb_shape _ _ _ _ Ht) as Hs. iIntros "Hh Hcs HQ".
  iApply wp_bind. iApply wp_mlift.
  { unfold HASH_SHRINK_THRESHOLD. rewrite (shape_size h cs Hs). done. }
  destruct (sh_size h cs Hs) as [[_ ->]|[Hr El]]; [simpl in Hlt; lia|].
  rewrite El. assert (H2 : 2 ^ (tabshift h - 1) = 2 * 2 ^ (tabshift h - 2)).
  { rewrite -Z.pow_succ_r; [f_equal; lia|lia]. }
  assert (Hp : 0 < 2 ^ (tabshift h - 2)) by (apply Z.pow_pos_nonneg; lia).
  assert (Hp32 : 2 ^ (tabshift h - 1) < 2 ^ 32) by (apply Z.pow_lt_mono_r; lia).
  rewrite (wrap_small 32); [|lia]. unfold mwhen.
  assert (Ediv : (2 ^ (tabshift h - 1) - 1) / 2 = 2 ^ (tabshift h - 2) - 1).
  { rewrite H2. rewrite (_ : 2 * 2 ^ (tabshift h - 2) - 1 = (2 ^ (tabshift h - 2) - 1) * 2 + 1); [|lia].
    rewrite Z.div_add_l //. change (1 / 2) with 0. lia. }
  rewrite Ediv. destruct (Z.leb_spec (h_count h) (2 ^ (tabshift h - 2) - 1)) as [Hle|Hgt].
  - destruct (decide (h_count h = 0)) as [E0|E0].
    + assert (EJ : mjoin (M:=list) cs = []).
      { apply nil_length_inv. rewrite (table_length _ _ _ _ Ht). lia. }
      iApply (wp_shrink_empty with "Hh Hcs"); [done..|]. iIntros "Hh". iApply "HQ".
      iExists _, []. iSplit; [|iFrame; by rewrite /buckets_at].
      iPureIntro. cbn [h_count set_tabshift set_entries]. split_and!; [|done|done|done].
      eapply table_perm; [done|by eapply shape_emptied|by rewrite EJ].
    + iApply (wp_shrink with "Hh Hcs"); [done|done|lia..|].
      iIntros (h' cs' (Hs' & En' & Hp' & Et')) "Hh Hcs". iApply "HQ". iExists h', cs'.
      rewrite -En in En' Et'. iSplit; [|iFrame]. iPureIntro. rewrite En'.
      split_and!; [by eapply table_perm|done|done|].
      intros _. assert (0 <= Z.log2 (h_count h)) by apply Z.log2_nonneg.
      destruct (sh_size h' cs' Hs') as [[E _]|[_ ->]]; [lia|]. rewrite Et'.
      replace (Z.log2 (h_count h) + 2 - 1) with (Z.succ (Z.log2 (h_count h))) by lia. apply Z.log2_spec. lia.
  - iApply wp_ret. iApply "HQ". iExists h, cs. iSplit; [by iPureIntro|iFrame].
Qed.

Lemma wp_hash_del head key S x (Q : Z -> hP) :
  x ∈ S -> hash_rep head key S -∗
  (hash_rep head key (S ∖ {[x]}) -∗ item_cells x -∗ Q x) -∗ wp (hash_del D place head x) Q.
Proof.
  intros Hx. iIntros "(%h & %cs & [%Ht (%En & %Hb & %Hlt)] & Hh & Hcs) HQ".
  destruct (delete_path _ _ _ _ x Ht Hx) as (i & c & c1 & d1 & d2 & Hc & Hinc & Hts & Ekey & E1 & E2).
  set (v := hv (key x)) in *. pose proof (span_app (fun y => y.2 <? v) c) as Ec. rewrite E1 in Ec. cbn [fst snd] in Ec.
  assert (Hw : bucket_wf (tabshift h - 1) i ((c1 ++ d1) ++ d2)).
  { apply (bucket_wf_remove _ _ (c1 ++ d1) (item_of D x, v)). rewrite -app_assoc Ec.
    by apply (table_bucket _ _ _ _ Ht). }
  unfold hash_del. iApply wp_bind. iApply (wp_load_head with "Hh"). iIntros "Hh".
  destruct (Z.eqb_spec (tabshift h) 0); [done|].
  rewrite (bucket_acc h cs i c Hc). iDestruct "Hcs" as "[Hc Hback]".
  iApply wp_bind. iApply (wp_item_hash with "Hc"); [exact Hinc|]. iIntros "Hc".
  iApply wp_bind. iApply wp_mlift; [exact Ekey|]. iApply wp_bind.
  iApply (wp_mem_fuel _ _ _ (at_least_items _ _) with "Hc"). iIntros (fuel Hf) "Hc".
  iApply wp_bind. iApply (wp_skip_lower with "Hc"); [lia|]. rewrite E1. iIntros "Hseg Hc".
  iApply wp_bind. iApply (wp_mem_fuel _ _ _ (at_least_items _ _) with "Hc"). iIntros (fuel' Hf') "Hc".
  iApply wp_bind. iApply (wp_skip_others with "Hc"); [done|]. cbn [fst snd]. rewrite E2.
  cbn [fst snd items_at]. iIntros "Hseg' (Hnp & Hw & Hc)".
  iApply wp_bind. iApply (wp_load_ptr with "Hnp"). iIntros "Hnp". rewrite Z.eqb_refl. cbn [negb].
  iDestruct (items_at_head with "Hc") as (q) "[_ [Hp Hmk]]".
  iApply wp_bind. iApply (wp_load_ptr with "Hp"). iIntros "Hp".
  iApply wp_bind. iApply (wp_store_ptr with "Hnp"). iIntros "Hnp".
  iApply wp_bind. iApply (wp_store_ptr with "Hp"). iIntros "Hp".
  iApply wp_bind. iApply (wp_update_head with "Hh"). iIntros "Hh".
  iApply wp_bind. iApply (wp_load_head with "Hh"). iIntros "Hh".
  iDestruct ("Hmk" with "Hnp") as "Hc".
  iDestruct ("Hback" $! ((c1 ++ d1) ++ d2) with "[Hseg Hseg' Hc]") as "Hcs".
  { rewrite -app_assoc. iApply items_at_app. iFrame. iApply items_at_app. iFrame. }
  assert (Ecnt : u32 (h_count h - 1) = Z.of_nat (size (S ∖ {[x]})) /\ size (S ∖ {[x]}) < h_count h).
  { rewrite En (wrap_small 32); rewrite En in Hb; pose proof (size_remove x S Hx); lia. }
  iApply wp_bind. iApply (wp_give_back head key (S ∖ {[x]}) _ (<[i := (c1 ++ d1) ++ d2]> cs) with "Hh Hcs").
  - eapply table_perm; [|by apply shape_set_count, shape_insert; [apply (tb_shape _ _ _ _ Ht)|]|done].
    apply (table_delete key S h cs x v i c); [done..| |done].
    rewrite -Ec app_assoc. symmetry. apply Permutation_middle.
  - by destruct Ecnt.
  - cbn [h_count set_count]. lia.
  - cbn [h_count set_count]. rewrite length_insert.
    specialize (Hlt ltac:(intros ->; done)). lia.
  - iIntros "Hrep". iApply wp_ret. iApply ("HQ" with "Hrep"). iExists 0, v. iFrame.
Qed.
End sets.
