(* ===== verification/ThashIter.v ===== *)
(** * Walking over hash tables

    [hash_first] and [hash_next] go through the buckets in order;
    [hash_pop] takes the first item out. *)

From stdpp Require Import sorting.
From iris.proofmode Require Import proofmode.
From S2P Require Import Prelude SepLogic Heap ThashSize Thash ThashResize ThashTable ThashSet.

#[local] Open Scope Z_scope.

Section iter.
Context {U K : Type} (D : hash_decl U K) (dom : K -> Prop) `{!HashLaws D dom}.
Context (place : gmap Z (hcell U) -> Z -> Z) `{!Placement place}.
Abbreviation mem := (gmap Z (hcell U)).
Abbreviation hP := (hpropI (hcell U)).
Implicit Types key : Z -> K.
Implicit Types S : gset Z.

(** ** The next bucket that is not empty *)

(** What [first_bucket] finds from bucket [i] on *)
Definition first_from (cs : list (list item)) (i : nat) (r : option Z) : Prop :=
  match r with
  | None => mjoin (M:=list) (drop i cs) = []
  | Some j => exists k x c, j = Z.of_nat k /\ cs !! k = Some (x :: c) /\
      mjoin (M:=list) (drop i cs) = x :: c ++ mjoin (drop (Datatypes.S k) cs)
  end.

Lemma first_from_nil cs i r : cs !! i = Some [] -> first_from cs (Datatypes.S i) r -> first_from cs i r.
Proof. intros Hi. unfold first_from. by rewrite (drop_S cs [] i Hi). Qed.

Lemma wp_first_bucket h cs n i (Q : option Z -> hP) :
  (i + n = length cs)%nat ->
  buckets_at (entries h) cs -∗
  (∀ r, ⌜first_from cs i r⌝ → buckets_at (entries h) cs -∗ Q r) -∗
  wp (first_bucket n h (Z.of_nat i)) Q.
Proof.
  revert i. induction n as [|n IH]; intros i Hi; cbn [first_bucket].
  - iIntros "Hcs HQ". iApply wp_ret. iApply ("HQ" with "[%] Hcs").
    unfold first_from. by rewrite drop_ge; [|lia].
  - destruct (lookup_lt_is_Some_2 cs i) as [c Hc]; [lia|]. iIntros "Hcs HQ".
    rewrite {1}(bucket_acc h cs i c Hc). iDestruct "Hcs" as "[Hc Hback]".
    iDestruct (items_at_head with "Hc") as (p) "[%Hp [Hnp Hmk]]".
    iApply wp_bind. iApply (wp_load_ptr with "Hnp"). iIntros "Hnp".
    iDestruct ("Hmk" with "Hnp") as "Hc". iDestruct ("Hback" with "Hc") as "Hcs".
    rewrite (list_insert_id _ _ _ Hc). destruct (Z.eqb_spec p 0) as [E|E].
    + assert (c = []) as -> by (by destruct Hp as [[_ ->]|[? _]]).
      replace (Z.of_nat i + 1) with (Z.of_nat (Datatypes.S i)) by lia.
      iApply (IH with "Hcs"); [lia|]. iIntros (r Hr) "Hcs". iApply ("HQ" with "[%] Hcs").
      by apply first_from_nil.
    + iApply wp_ret. iApply ("HQ" with "[%] Hcs"). destruct c as [|x c].
      { by destruct Hp as [[-> _]|(_ & v & E')]. }
      exists i, x, c. split_and!; [done..|]. by rewrite (drop_S cs (x :: c) i Hc).
Qed.

(** The object of the first of some items, [NULL] if there are none *)
Definition first_object (l : list item) : Z :=
  match l with [] => 0 | x :: _ => container_of D x.1 end.

Lemma wp_first_item h cs r i (Q : Z -> hP) :
  first_from cs i r ->
  buckets_at (entries h) cs -∗ (buckets_at (entries h) cs -∗
    Q (first_object (mjoin (M:=list) (drop i cs)))) -∗
  wp (match r with
      | None => mret 0
      | Some i => hitem ← load_ptr (bucket h i); mret (container_of D hitem)
      end) Q.
Proof.
  intros Hr. destruct r as [j|]; simpl in Hr.
  - destruct Hr as (k & [a v] & c & -> & Hc & ->). iIntros "Hcs HQ".
    rewrite {1}(bucket_acc h cs k _ Hc). cbn [items_at]. iDestruct "Hcs" as "[(Hp & Hw & Hi) Hback]".
    iApply wp_bind. iApply (wp_load_ptr with "Hp"). iIntros "Hp". iApply wp_ret.
    iDestruct ("Hback" $! ((a, v) :: c) with "[$]") as "Hcs". rewrite (list_insert_id _ _ _ Hc).
    by iApply "HQ".
  - rewrite Hr. iIntros "Hcs HQ". iApply wp_ret. by iApply "HQ".
Qed.

(** ** Walking *)

(** The objects of a table in order *)
Definition objects (l : list item) : list Z := (fun x : item => container_of D x.1) <$> l.

Lemma objects_perm key S h cs : table D dom key S h cs -> objects (mjoin (M:=list) cs) ≡ₚ elements S.
Proof.
  intros Ht. transitivity (container_of D <$> (fst <$> mjoin (M:=list) cs)).
  { unfold objects. by rewrite -list_fmap_compose. }
  rewrite (tb_items _ _ _ _ _ _ Ht) -list_fmap_compose.
  rewrite -{2}(list_fmap_id (elements S)). erewrite list_fmap_ext; [done|].
  intros i x _. apply container_item.
Qed.

Lemma wp_hash_first head h cs (Q : Z -> hP) :
  shape h cs -> head ↦ CHead h -∗ buckets_at (entries h) cs -∗
  (head ↦ CHead h -∗ buckets_at (entries h) cs -∗ Q (first_object (mjoin (M:=list) cs))) -∗
  wp (hash_first D head) Q.
Proof.
  intros Hs. iIntros "Hh Hcs HQ". unfold hash_first.
  iApply wp_bind. iApply (wp_load_head with "Hh"). iIntros "Hh".
  iApply wp_bind. iApply wp_mlift; [by apply shape_size|]. rewrite Nat2Z.id.
  iApply wp_bind. iApply (wp_first_bucket h cs _ 0 with "Hcs"); [done|]. iIntros (r Hr) "Hcs".
  iApply (wp_first_item with "Hcs"); [done|]. iIntros "Hcs". iApply ("HQ" with "Hh Hcs").
Qed.

(** [x] is an item of the table and [l] are those that follow it. *)
Definition followed (cs : list (list item)) (x : item) (l : list item) : Prop :=
  exists i c1 c2, cs !! i = Some (c1 ++ x :: c2) /\ l = c2 ++ mjoin (M:=list) (drop (Datatypes.S i) cs).

Lemma join_head cs k y (l : list item) :
  mjoin (M:=list) (drop k cs) = y :: l ->
  exists j c, cs !! j = Some (y :: c) /\ l = c ++ mjoin (M:=list) (drop (Datatypes.S j) cs).
Proof.
  revert k. induction cs as [|c cs IH]; intros k E; [by rewrite drop_nil in E|].
  destruct k as [|k]; cbn [drop] in E.
  - destruct c as [|z c]; cbn [mjoin list_join app] in E.
    + destruct (IH 0%nat) as (j & c & Hj & ->); [by rewrite drop_0|]. by exists (Datatypes.S j), c.
    + injection E as -> <-. exists 0%nat, c. split; [done|]. simpl. by rewrite drop_0.
  - destruct (IH k E) as (j & c' & Hj & ->). by exists (Datatypes.S j), c'.
Qed.

Lemma followed_first cs x (l : list item) : mjoin (M:=list) cs = x :: l -> followed cs x l.
Proof.
  intros E. destruct (join_head cs 0 x l) as (j & c & Hj & ->); [by rewrite drop_0|]. by exists j, [], c.
Qed.

Lemma followed_next cs x y l : followed cs x (y :: l) -> followed cs y l.
Proof.
  intros (i & c1 & [|z c2] & Hc & E); cbn [app] in E.
  - symmetry in E. destruct (join_head _ _ _ _ E) as (j & c & Hj & ->). by exists j, [], c.
  - injection E as -> ->. exists i, (c1 ++ [x]), c2. by rewrite -app_assoc.
Qed.

Lemma wp_hash_next head h cs x v l (Q : Z -> hP) :
  shape h cs -> followed cs (item_of D x, v) l ->
  head ↦ CHead h -∗ buckets_at (entries h) cs -∗
  (head ↦ CHead h -∗ buckets_at (entries h) cs -∗ Q (first_object l)) -∗
  wp (hash_next D head x) Q.
Proof.
  intros Hs (i & c1 & c2 & Hc & ->). iIntros "Hh Hcs HQ". unfold hash_next.
  rewrite {1}(bucket_acc h cs i _ Hc). iDestruct "Hcs" as "[Hc Hback]".
  rewrite items_at_app. cbn [items_at]. iDestruct "Hc" as "(Hseg & Hnp & Hw & Hc)".
  iDestruct (items_at_head with "Hc") as (p) "[%Hp [Hp Hmk]]".
  iApply wp_bind. iApply (wp_load_ptr with "Hp"). iIntros "Hp".
  iDestruct ("Hmk" with "Hp") as "Hc".
  destruct Hp as [[-> ->]|(Hp0 & w & Hp)].
  - cbn [negb Z.eqb]. iApply wp_bind. iApply (wp_load_head with "Hh"). iIntros "Hh".
    iApply wp_bind. iApply (wp_load_word with "Hw"). iIntros "Hw".
    iDestruct ("Hback" $! (c1 ++ [(item_of D x, v)]) with "[Hseg Hnp Hw Hc]") as "Hcs".
    { rewrite items_at_app. cbn [items_at]. iFrame. }
    rewrite (list_insert_id _ _ _ Hc).
    apply lookup_lt_Some in Hc as Hlt.
    destruct (sh_size h cs Hs) as [[_ ->]|[Hr El]]; [simpl in Hlt; lia|].
    destruct (sh_buckets h cs Hs i _ Hc) as [_ Hpl]. apply Forall_app in Hpl as [_ [[Hv Ev] _]%Forall_cons].
    simpl in Hv, Ev.
    iApply wp_bind. iApply wp_mlift; [by apply hash_index_eq|]. rewrite Ev.
    iApply wp_bind. iApply wp_mlift; [by apply shape_size|].
    assert (Hb : 2 ^ (tabshift h - 1) < 2 ^ 32) by (apply Z.pow_lt_mono_r; lia).
    rewrite (wrap_small 32); [|lia].
    replace (Z.of_nat i + 1) with (Z.of_nat (Datatypes.S i)) by lia.
    replace (Z.to_nat (Z.of_nat (length cs) - Z.of_nat (Datatypes.S i))) with (length cs - Datatypes.S i)%nat by lia.
    iApply wp_bind. iApply (wp_first_bucket with "Hcs"); [lia|]. iIntros (r Hr') "Hcs".
    iApply (wp_first_item with "Hcs"); [done|]. iIntros "Hcs". iApply ("HQ" with "Hh Hcs").
  - destruct (Z.eqb_spec p 0); [done|]. cbn [negb]. iApply wp_ret.
    destruct c2 as [|y c2]; [done|]. injection Hp as ->.
    iApply ("HQ" with "Hh"). rewrite -{2}(list_insert_id _ _ _ Hc). iApply "Hback".
    rewrite items_at_app. cbn [items_at]. iFrame.
Qed.

Lemma wp_each_from head h cs x v l fuel (Q : list Z -> hP) :
  shape h cs -> Forall (fun a => container_of D a <> 0) ((item_of D x, v) :: l).*1 ->
  followed cs (item_of D x, v) l -> (length l + 1 < fuel)%nat ->
  head ↦ CHead h -∗ buckets_at (entries h) cs -∗
  (head ↦ CHead h -∗ buckets_at (entries h) cs -∗ Q (x :: objects l)) -∗
  wp (each_from D fuel head x) Q.
Proof.
  intros Hs. revert x v fuel Q. induction l as [|[a w] l IH]; intros x v fuel Q Hnz Hfol Hf.
  all: destruct fuel as [|fuel]; [simpl in Hf; lia|]; cbn [each_from].
  all: apply Forall_cons in Hnz as [Hx Hnz]; cbn [fst] in Hx; rewrite container_item in Hx.
  all: iIntros "Hh Hcs HQ"; destruct (Z.eqb_spec x 0); [done|].
  all: iApply wp_bind; iApply (wp_hash_next with "Hh Hcs"); [done..|]; iIntros "Hh Hcs".
  - cbn [first_object]. iApply wp_bind. destruct fuel as [|fuel]; [simpl in Hf; lia|].
    cbn [each_from]. rewrite Z.eqb_refl. iApply wp_ret. iApply wp_ret. iApply ("HQ" with "Hh Hcs").
  - cbn [first_object fst]. iApply wp_bind.
    iApply (IH (container_of D a) w with "Hh Hcs").
    + by rewrite item_container.
    + rewrite item_container. by eapply followed_next.
    + simpl in Hf. lia.
    + iIntros "Hh Hcs". iApply wp_ret. iApply ("HQ" with "Hh Hcs").
Qed.
Lemma at_least_buckets e cs : buckets_at (U := U) e cs ⊢ at_least (length (mjoin (M:=list) cs)).
Proof.
  revert e. induction cs as [|c cs IH]; intros e; [apply at_least_any|].
  unfold buckets_at. cbn [big_opL]. change (mjoin (M:=list) (c :: cs)) with (c ++ mjoin (M:=list) cs).
  rewrite length_app at_least_items. setoid_rewrite Nat2Z.inj_succ.
  rewrite (big_sepL_proper _ (fun k c => items_at ((e + 8) + 8 * Z.of_nat k) c)); last first.
  { intros k c' _. by rewrite (_ : e + 8 * Z.succ (Z.of_nat k) = e + 8 + 8 * Z.of_nat k); [|lia]. }
  fold (buckets_at (U := U) (e + 8) cs). rewrite (IH (e + 8)) at_least_sep. apply at_least_mono. lia.
Qed.

Lemma wp_hash_each head key S (Q : list Z -> hP) :
  (forall x, x ∈ S -> x <> 0) ->
  hash_rep D dom head key S -∗
  (∀ l, ⌜l ≡ₚ elements S⌝ → hash_rep D dom head key S -∗ Q l) -∗ wp (hash_each D head) Q.
Proof.
  intros Hnz. iIntros "(%h & %cs & [%Hw [Hh Hcs]]) HQ". pose proof Hw as [Ht _].
  pose proof (tb_shape _ _ _ _ _ _ Ht) as Hs. unfold hash_each.
  iApply wp_bind. iApply (wp_mem_fuel (head ↦ CHead h ∗ buckets_at (entries h) cs) (1 + length (mjoin (M:=list) cs))%nat
    with "[$Hh $Hcs]").
  { rewrite at_least_points_to at_least_buckets. apply at_least_sep. }
  iIntros (fuel Hf) "[Hh Hcs]".
  iApply wp_bind. iApply (wp_hash_first with "Hh Hcs"); [done|]. iIntros "Hh Hcs".
  assert (Hperm := objects_perm _ _ _ _ Ht). destruct (mjoin (M:=list) cs) as [|[a v] l] eqn:E.
  - destruct fuel as [|fuel]; [simpl in Hf; lia|]. cbn [first_object each_from]. rewrite Z.eqb_refl.
    iApply wp_ret. iApply ("HQ" with "[%]"); [done|]. iExists h, cs. by iFrame.
  - cbn [first_object fst].
    iApply (wp_each_from head h cs (container_of D a) v l with "Hh Hcs"); [done|..].
    + rewrite item_container. change ((a, v) :: l).*1 with (fst <$> ((a, v) :: l)).
      rewrite -E (tb_items _ _ _ _ _ _ Ht). apply Forall_fmap, Forall_forall. intros x Hx. simpl.
      rewrite container_item. by apply Hnz, elem_of_elements.
    + rewrite item_container. by apply followed_first.
    + simpl in Hf. lia.
    + iIntros "Hh Hcs". iApply ("HQ" with "[%]"); [by rewrite -Hperm|]. iExists h, cs. by iFrame.
Qed.

(** ** The smaller operations *)
Lemma wp_hash_init head h key (Q : unit -> hP) :
  head ↦ CHead h -∗ (hash_rep D dom head key ∅ -∗ Q tt) -∗ wp (hash_init head) Q.
Proof.
  iIntros "Hh HQ". iApply (wp_store_head with "Hh"). iIntros "Hh". iApply "HQ".
  iExists _, []. iSplit; [|iFrame; by rewrite /buckets_at].
  iPureIntro. split_and!; [|done|done|done]. split; [|done|constructor|].
  - split; [done|done|by left|done].
  - intros x Hx. by apply not_elem_of_empty in Hx.
Qed.

Lemma wp_hash_count head key S (Q : Z -> hP) :
  hash_rep D dom head key S -∗ (hash_rep D dom head key S -∗ Q (Z.of_nat (size S))) -∗ wp (hash_count head) Q.
Proof.
  iIntros "(%h & %cs & [%Hw [Hh Hcs]]) HQ". pose proof Hw as (_ & En & _). unfold hash_count.
  iApply wp_bind. iApply (wp_load_head with "Hh"). iIntros "Hh". iApply wp_ret. rewrite En.
  iApply "HQ". iExists h, cs. by iFrame.
Qed.

Lemma wp_hash_fini head key (Q : unit -> hP) :
  hash_rep D dom head key ∅ -∗ (head ↦ CHead (ThashHead 0 0 0 0 0) -∗ Q tt) -∗ wp (hash_fini place head) Q.
Proof.
  iIntros "(%h & %cs & [%Hw [Hh Hcs]]) HQ". destruct Hw as (Ht & En & _).
  pose proof (tb_shape _ _ _ _ _ _ Ht) as Hs. rewrite size_empty in En. unfold hash_fini.
  iApply wp_bind. iApply (wp_load_head with "Hh"). iIntros "Hh".
  iApply wp_bind. iApply wp_massert; [by rewrite En|].
  iApply wp_bind. iApply (wp_update_head with "Hh"). iIntros "Hh".
  assert (Eh : set_minshift 0 h = h).
  { unfold set_minshift. rewrite -{1}(sh_minshift _ _ Hs). by destruct h. }
  rewrite Eh. iApply wp_bind. iApply (wp_shrink_empty with "Hh Hcs"); [done|by rewrite En| |].
  { apply nil_length_inv. rewrite (table_length _ _ _ _ _ _ Ht). apply size_empty. }
  iIntros "Hh". iApply (wp_store_head with "Hh HQ").
Qed.

Lemma wp_hash_pop head key S (Q : Z -> hP) :
  (forall x, x ∈ S -> x <> 0) ->
  hash_rep D dom head key S -∗
  (∀ r, (⌜r = 0 /\ S = ∅⌝ ∧ hash_rep D dom head key ∅) ∨
        (⌜r ∈ S⌝ ∧ (hash_rep D dom head key (S ∖ {[r]}) ∗ item_cells D r)) -∗ Q r) -∗
  wp (hash_pop D place head) Q.
Proof.
  intros Hnz. iIntros "(%h & %cs & [%Hw [Hh Hcs]]) HQ". pose proof Hw as (Ht & En & Hb & Hlt).
  pose proof (tb_shape _ _ _ _ _ _ Ht) as Hs. unfold hash_pop.
  iApply wp_bind. iApply (wp_load_head with "Hh"). iIntros "Hh".
  iApply wp_bind. iApply wp_mlift; [by apply shape_size|]. rewrite Nat2Z.id.
  iApply wp_bind. iApply (wp_first_bucket h cs _ 0 with "Hcs"); [done|]. iIntros (r Hr) "Hcs".
  destruct r as [j|]; simpl in Hr.
  - destruct Hr as (i & [a v] & c & -> & Hc & Hj).
    rewrite {1}(bucket_acc h cs i _ Hc). cbn [items_at]. iDestruct "Hcs" as "[(Hp & Hw & Hi) Hback]".
    iApply wp_bind. iApply (wp_load_ptr with "Hp"). iIntros "Hp".
    iDestruct (items_at_head with "Hi") as (q) "[_ [Hq Hmk]]".
    iApply wp_bind. iApply (wp_load_ptr with "Hq"). iIntros "Hq".
    iApply wp_bind. iApply (wp_store_ptr with "Hp"). iIntros "Hp".
    iApply wp_bind. iApply (wp_update_head with "Hh"). iIntros "Hh".
    iApply wp_bind. iApply (wp_store_ptr with "Hq"). iIntros "Hq".
    iApply wp_bind. iApply (wp_load_head with "Hh"). iIntros "Hh".
    iDestruct ("Hmk" with "Hp") as "Hc". iDestruct ("Hback" with "Hc") as "Hcs".
    set (x := container_of D a).
    assert (Hin : (a, v) ∈ mjoin (M:=list) cs).
    { rewrite drop_0 in Hj. rewrite Hj. by left. }
    destruct (table_In _ _ _ _ _ _ Ht a v Hin) as [Hx Hv]. fold x in Hx.
    assert (Ecnt : u32 (h_count h - 1) = Z.of_nat (size (S ∖ {[x]})) /\ size (S ∖ {[x]}) < h_count h).
    { rewrite En (wrap_small 32); rewrite En in Hb; pose proof (size_remove x S Hx); lia. }
    assert (Hwf : bucket_wf (tabshift h - 1) i c).
    { apply (bucket_wf_remove _ _ [] (a, v)). by apply (table_bucket _ _ _ _ _ _ Ht). }
    iApply wp_bind.
    iApply (wp_give_back D dom place head key (S ∖ {[x]}) _ (<[i := c]> cs) with "Hh Hcs").
    + eapply table_perm; [|by apply shape_set_count, shape_insert; [apply (tb_shape _ _ _ _ _ _ Ht)|]|done].
      apply (table_delete _ _ key S h cs x v i ((a, v) :: c) c); [done..| |done].
      by rewrite item_container.
    + by destruct Ecnt.
    + cbn [h_count set_count]. lia.
    + cbn [h_count set_count]. rewrite length_insert. specialize (Hlt ltac:(intros ->; done)). lia.
    + iIntros "Hrep". iApply wp_ret. iApply "HQ". iRight. iSplit; [done|]. iFrame.
      iExists 0, v. unfold x. rewrite item_container. iFrame.
  - iApply wp_ret. iApply "HQ". iLeft. rewrite drop_0 in Hr.
    assert (S = ∅) as ->.
    { apply leibniz_equiv, size_empty_inv. by rewrite -(table_length _ _ _ _ _ _ Ht) Hr. }
    iSplit; [done|]. iExists h, cs. by iFrame.
Qed.
End iter.

(** ** What a hash table promises to its clients

    The interface of the typesafe hash tables: a set of objects with keys
    that are pairwise different, whatever the resizing does.  The clients'
    proofs use the class only; the instance is the implementation of
    [Thash]. *)

Class HashSpec {U K : Type} (D : hash_decl U K) (dom : K -> Prop) (eq : K -> K -> bool)
    (place : gmap Z (hcell U) -> Z -> Z) := {
  hs_rep : Z -> (Z -> K) -> gset Z -> hpropI (hcell U);
  hs_ext head key key' S :
    (forall x, x ∈ S -> key x = key' x) -> hs_rep head key S ⊢ hs_rep head key' S;
  hs_init head h key (Q : unit -> hpropI (hcell U)) :
    head ↦ CHead h -∗ (hs_rep head key ∅ -∗ Q tt) -∗ wp (hash_init head) Q;
  hs_find head key S F k (Q : Z -> hpropI (hcell U)) :
    dom k -> reads D F key S ->
    hs_rep head key S -∗ F -∗
    (∀ r, ⌜r = 0 /\ (forall x, x ∈ S -> eq (key x) k = false) \/ r ∈ S /\ eq (key r) k = true⌝ →
       hs_rep head key S -∗ F -∗ Q r) -∗
    wp (hash_find D head k) Q;
  hs_add head key S F x (Q : Z -> hpropI (hcell U)) :
    x ∉ S -> dom (key x) -> (forall z, z ∈ S -> eq (key z) (key x) = false) ->
    reads D F key ({[x]} ∪ S) -> Z.of_nat (size S) + 1 < 2 ^ 30 ->
    hs_rep head key S -∗ item_cells D x -∗ F -∗
    (F -∗ hs_rep head key ({[x]} ∪ S) -∗ Q 0) -∗
    wp (hash_add D place head x) Q;
  hs_del head key S x (Q : Z -> hpropI (hcell U)) :
    x ∈ S -> hs_rep head key S -∗
    (hs_rep head key (S ∖ {[x]}) -∗ item_cells D x -∗ Q x) -∗ wp (hash_del D place head x) Q;
  hs_fini head key (Q : unit -> hpropI (hcell U)) :
    hs_rep head key ∅ -∗ (head ↦ CHead (ThashHead 0 0 0 0 0) -∗ Q tt) -∗ wp (hash_fini place head) Q
}.

Section instance.
Context {U K : Type} (D : hash_decl U K) (dom : K -> Prop) `{!HashLaws D dom}.
Context (place : gmap Z (hcell U) -> Z -> Z) `{!Placement place}.

Lemma table_ext key key' S h cs :
  (forall x, x ∈ S -> key x = key' x) -> table D dom key S h cs -> table D dom key' S h cs.
Proof.
  intros Hk Ht. split; [apply (tb_shape _ _ _ _ _ _ Ht)|apply (tb_items _ _ _ _ _ _ Ht)|..].
  - apply Forall_forall. intros [a v] Hin. destruct (table_In _ _ _ _ _ _ Ht a v Hin) as [Ha ->].
    simpl. by rewrite Hk.
  - intros x Hx. rewrite -Hk; [|done]. by apply (tb_dom _ _ _ _ _ _ Ht).
Qed.

#[export] Instance thash_spec : HashSpec D dom (eqk (D := D) (dom := dom)) place.
Proof.
  refine {| hs_rep := hash_rep D dom |}.
  - intros head key key' S Hk. iIntros "(%h & %cs & [%Ht [Hh Hcs]])". iExists h, cs. iFrame. iPureIntro.
    destruct Ht as [Ht (? & ? & ?)]. split_and!; [by eapply table_ext|done..].
  - apply wp_hash_init.
  - intros head key S F k Q Hk HF. iIntros "H HF HQ". by iApply (wp_hash_find with "H HF HQ").
  - intros head key S F x Q Hx Hd Hu HF Hs. iIntros "H Hi HF HQ".
    iApply (wp_hash_add with "H Hi HF"); [done..|]. iIntros (r) "HF [[%Er H]|[%Hr [H Hi]]]".
    + destruct Er as [-> _]. iApply ("HQ" with "HF H").
    + destruct Hr as [Hr E]. by rewrite Hu in E.
  - intros head key S x Q. apply wp_hash_del; apply _.
  - intros head key Q. by apply wp_hash_fini.
Defined.
End instance.
