(* ===== verification/ThashCorrect.v ===== *)
(** * Hash tables refine sets

    A table and the objects it may hold, as a state; the operations as steps
    on the set of the objects in the table; and the theorem that any history
    of operations a client may make behaves as the steps say. *)

From S2P Require Import Prelude SepLogic Heap ThashSize Thash ThashResize ThashTable ThashSet ThashIter.
From iris.proofmode Require Import proofmode.

#[local] Open Scope Z_scope.

Inductive hash_op (K : Type) :=
  | HAdd (x : Z)
  | HFind (k : K)
  | HDel (x : Z)
  | HPop
  | HEach
  | HCount.
Arguments HAdd {K} x.
Arguments HFind {K} k.
Arguments HDel {K} x.
Arguments HPop {K}.
Arguments HEach {K}.
Arguments HCount {K}.

Section history.
Context {U K : Type} (D : hash_decl U K) (dom : K -> Prop) `{!HashLaws D dom}.
Context (place : gmap Z (hcell U) -> Z -> Z) `{!Placement place}.
Abbreviation mem := (gmap Z (hcell U)).
Abbreviation hP := (hpropI (hcell U)).
Implicit Types S : gset Z.

Definition single (m : M mem Z) : M mem (list Z) := r ← m; mret [r].

Definition hash_exec (head : Z) (op : hash_op K) : M mem (list Z) :=
  match op with
  | HAdd x => single (hash_add D place head x)
  | HFind k => single (hash_find D head k)
  | HDel x => single (hash_del D place head x)
  | HPop => single (hash_pop D place head)
  | HEach => hash_each D head
  | HCount => single (hash_count head)
  end.

Fixpoint hash_run (head : Z) (ops : list (hash_op K)) : M mem (list (list Z)) :=
  match ops with
  | [] => mret []
  | op :: ops => r ← hash_exec head op; rs ← hash_run head ops; mret (r :: rs)
  end.

(** ** The set *)
Section spec.
Context (key : Z -> K) (pool : gset Z).

(** What a client may do: add an object that is not in the table, delete one
    that is *)
Definition hash_pre S (op : hash_op K) : Prop :=
  match op with
  | HAdd x => x ∈ pool /\ x ∉ S
  | HFind k => dom k
  | HDel x => x ∈ S
  | HPop | HEach | HCount => True
  end.

Definition hash_spec S (op : hash_op K) (r : list Z) S' : Prop :=
  match op with
  | HAdd x => r = [0] /\ S' = {[x]} ∪ S /\ unseen D dom key S (key x) \/
      exists y, r = [y] /\ S' = S /\ y ∈ S /\ eqk (key y) (key x) = true
  | HFind k => exists y, r = [y] /\ S' = S /\ found D dom key S k y
  | HDel x => r = [x] /\ S' = S ∖ {[x]}
  | HPop => r = [0] /\ S = ∅ /\ S' = ∅ \/ exists y, r = [y] /\ y ∈ S /\ S' = S ∖ {[y]}
  | HEach => r ≡ₚ elements S /\ S' = S
  | HCount => r = [Z.of_nat (size S)] /\ S' = S
  end.

Fixpoint hash_legal S (ops : list (hash_op K)) : Prop :=
  match ops with
  | [] => True
  | op :: ops => hash_pre S op /\ forall r S', hash_spec S op r S' -> hash_legal S' ops
  end.

Inductive hash_runs : gset Z -> list (hash_op K) -> list (list Z) -> gset Z -> Prop :=
  | hash_runs_nil S : hash_runs S [] [] S
  | hash_runs_cons S op r S1 ops rs S2 :
      hash_spec S op r S1 -> hash_runs S1 ops rs S2 -> hash_runs S (op :: ops) (r :: rs) S2.
End spec.

(** ** The state *)
Section state.
Context (head : Z) (obj : Z -> U) (key : Z -> K) (pool : gset Z).

(** The objects of the pool *)
Definition objects_at : hP := ([∗ set] y ∈ pool, y ↦ CUser (obj y))%I.
(** The items of those that are not in the table *)
Definition free_items S : hP := ([∗ set] y ∈ pool ∖ S, item_cells D y)%I.

Definition hash_state S : hP :=
  (⌜S ⊆ pool⌝ ∧ (hash_rep D dom head key S ∗ objects_at ∗ free_items S))%I.

(** Before [hash_init] and after [hash_fini] *)
Definition no_table (h : thash_head) : hP := (head ↦ CHead h ∗ objects_at ∗ free_items ∅)%I.

Hypothesis Hkey : forall y, y ∈ pool -> hash_key D (obj y) = Some (key y) /\ dom (key y).
Hypothesis Hsize : Z.of_nat (size pool) + 1 < 2 ^ 30.

Lemma objects_read S : S ⊆ pool -> reads D objects_at key S.
Proof.
  intros HS y Q Hy. iIntros "HF HQ". unfold objects_at.
  iDestruct (big_sepS_elem_of_acc _ _ y with "HF") as "[Hy Hback]"; [by apply HS|].
  unfold load_key. iApply wp_bind. iApply (wp_load with "Hy"). iIntros "Hy".
  destruct (Hkey y) as [-> _]; [by apply HS|]. iApply wp_ret. iApply "HQ". by iApply "Hback".
Qed.

Lemma objects_nonnull x : x ∈ pool -> objects_at ⊢ ⌜x <> 0⌝.
Proof.
  intros Hx. unfold objects_at. rewrite (big_sepS_delete _ _ x Hx). iIntros "[Hx _]".
  iApply (points_to_nonnull with "Hx").
Qed.

Lemma objects_all_nonnull S : S ⊆ pool -> objects_at ⊢ ⌜forall x, x ∈ S -> x <> 0⌝.
Proof.
  intros HS. rewrite bi.pure_forall. apply bi.forall_intro. intros x. rewrite bi.pure_impl.
  apply bi.impl_intro_l, bi.pure_elim_l. intros Hx. by apply objects_nonnull, HS.
Qed.

Lemma free_items_take x S : x ∈ pool -> x ∉ S -> free_items S ⊣⊢ item_cells D x ∗ free_items ({[x]} ∪ S).
Proof.
  intros Hx HS. unfold free_items. rewrite (big_sepS_delete _ _ x); [|set_solver].
  by rewrite difference_difference_l_L (union_comm_L S).
Qed.

Lemma free_items_give x S : x ∈ S -> S ⊆ pool -> item_cells D x ∗ free_items S ⊣⊢ free_items (S ∖ {[x]}).
Proof.
  intros Hx HS. rewrite (free_items_take x (S ∖ {[x]})); [|set_solver..].
  by rewrite -union_difference_singleton_L.
Qed.

Lemma size_pool S : S ⊆ pool -> Z.of_nat (size S) + 1 < 2 ^ 30.
Proof. intros HS%subseteq_size. lia. Qed.

Lemma wp_single (m : M mem Z) (Q : list Z -> hP) : wp m (fun r => Q [r]) ⊢ wp (single m) Q.
Proof.
  iIntros "H". iApply wp_bind. iApply (wp_wand with "[$H]"). iIntros (r) "H". by iApply wp_ret.
Qed.

(** ** One operation *)
Definition step_ok S op : Prop :=
  hash_pre pool S op ->
  hash_state S ⊢ wp (hash_exec head op) (fun r => ∃ S', ⌜hash_spec key S op r S'⌝ ∧ hash_state S')%I.

Lemma step_add S x : step_ok S (HAdd x).
Proof.
  intros [Hx HS]. iIntros "[%Hsub (Hrep & Hobj & Hfree)]". iApply wp_single.
  rewrite (free_items_take x S Hx HS). iDestruct "Hfree" as "[Hix Hfree]".
  destruct (Hkey x Hx) as [_ Hdx].
  iApply (wp_hash_add D dom place head key S objects_at x with "Hrep Hix Hobj");
    [done|done|by apply objects_read; set_solver|by apply size_pool|].
  iIntros (r) "Hobj [[%Er Hrep]|[%Hr [Hrep Hix]]]".
  - destruct Er as [Er Hu]. iExists ({[x]} ∪ S). iSplit; [iPureIntro; left; by rewrite Er|]. iSplit; [iPureIntro; set_solver|]. iFrame.
  - iExists S. iSplit; [iPureIntro; right; exists r; by destruct Hr|]. iSplit; [done|]. iFrame.
    rewrite (free_items_take x S Hx HS). iFrame.
Qed.

Lemma step_find S k : step_ok S (HFind k).
Proof.
  intros Hk. iIntros "[%Hsub (Hrep & Hobj & Hfree)]". iApply wp_single.
  iApply (wp_hash_find D dom head key S objects_at k with "Hrep Hobj"); [done|by apply objects_read|].
  iIntros (r Hr) "Hrep Hobj". iExists S. iSplit; [iPureIntro; by exists r|]. iSplit; [done|]. iFrame.
Qed.

Lemma step_del S x : step_ok S (HDel x).
Proof.
  intros Hx. iIntros "[%Hsub (Hrep & Hobj & Hfree)]". iApply wp_single.
  iApply (wp_hash_del D dom place head key S x with "Hrep"); [done|]. iIntros "Hrep Hix".
  iExists (S ∖ {[x]}). iSplit; [done|]. iSplit; [iPureIntro; set_solver|].
  rewrite -(free_items_give x S Hx Hsub). iFrame.
Qed.

Lemma step_pop S : step_ok S HPop.
Proof.
  intros _. iIntros "[%Hsub (Hrep & Hobj & Hfree)]". iApply wp_single.
  iDestruct (objects_all_nonnull S Hsub with "Hobj") as %Hnz.
  iApply (wp_hash_pop D dom place head key S with "Hrep"); [done|].
  iIntros (r) "[[%Er Hrep]|[%Hr [Hrep Hix]]]".
  - destruct Er as [-> ->]. iExists ∅. iSplit; [iPureIntro; by left|]. iSplit; [done|]. iFrame.
  - iExists (S ∖ {[r]}). iSplit; [iPureIntro; right; by exists r|]. iSplit; [iPureIntro; set_solver|].
    rewrite -(free_items_give r S Hr Hsub). iFrame.
Qed.

Lemma step_each S : step_ok S HEach.
Proof.
  intros _. iIntros "[%Hsub (Hrep & Hobj & Hfree)]".
  iDestruct (objects_all_nonnull S Hsub with "Hobj") as %Hnz.
  iApply (wp_hash_each D dom head key S with "Hrep"); [done|]. iIntros (l Hl) "Hrep".
  iExists S. iSplit; [done|]. iSplit; [done|]. iFrame.
Qed.

Lemma step_count S : step_ok S HCount.
Proof.
  intros _. iIntros "[%Hsub (Hrep & Hobj & Hfree)]". iApply wp_single.
  iApply (wp_hash_count D dom with "Hrep"). iIntros "Hrep". iExists S. iSplit; [done|]. iSplit; [done|]. iFrame.
Qed.

Lemma step_all S op : step_ok S op.
Proof.
  destruct op; [apply step_add|apply step_find|apply step_del|apply step_pop|apply step_each|apply step_count].
Qed.

(** ** Histories *)
Lemma run_ok ops S :
  hash_legal key pool S ops ->
  hash_state S ⊢ wp (hash_run head ops) (fun rs => ∃ S', ⌜hash_runs key S ops rs S'⌝ ∧ hash_state S')%I.
Proof.
  revert S. induction ops as [|op ops IH]; intros S; cbn [hash_legal hash_run].
  - intros _. iIntros "H". iApply wp_ret. iExists S. iSplit; [iPureIntro; constructor|done].
  - intros [Hpre Hops]. rewrite (step_all S op Hpre). iIntros "H". iApply wp_bind.
    iApply (wp_wand with "[$H]"). iIntros (r) "(%S1 & %Hr & H)". iApply wp_bind.
    rewrite (IH S1); [|by apply (Hops r)]. iApply (wp_wand with "[$H]").
    iIntros (rs) "(%S2 & %Hrs & H)". iApply wp_ret. iExists S2. iSplit; [|done].
    iPureIntro. by econstructor.
Qed.
(** A history continued *)
Lemma run_then ops tail S (Q : list (list Z) -> hP) :
  hash_legal key pool S ops ->
  (forall rs S', hash_runs key S ops rs S' ->
     hash_state S' ⊢ wp (hash_run head tail) (fun rs' => Q (rs ++ rs'))%I) ->
  hash_state S ⊢ wp (hash_run head (ops ++ tail)) Q.
Proof.
  revert S Q. induction ops as [|op ops IH]; intros S Q; cbn [hash_legal hash_run app].
  - intros _ Htail. apply (Htail []). constructor.
  - intros [Hpre Hops] Htail. rewrite (step_all S op Hpre). iIntros "H". iApply wp_bind.
    iApply (wp_wand with "[$H]"). iIntros (r) "(%S1 & %Hr & H)". iApply wp_bind.
    rewrite (IH S1 (fun rs => Q (r :: rs))); [|by apply (Hops r)|].
    + iApply (wp_wand with "[$H]"). iIntros (rs) "H". by iApply wp_ret.
    + intros rs S' Hrs. apply (Htail (r :: rs)). by econstructor.
Qed.

(** ** An equal object behind another *)

(** Added after the objects of [S], [y] is the first of its hash value. *)
Lemma wp_add_first S y :
  y ∈ pool -> y ∉ S -> (forall w, w ∈ S -> eqk (key w) (key y) = false) ->
  hash_state S ⊢ wp (hash_exec head (HAdd y)) (fun r => ⌜r = [0] /\ {[y]} ∪ S ⊆ pool⌝ ∧
    (hash_rep_at D dom head key ({[y]} ∪ S) (first_is D dom key y) ∗ objects_at ∗ free_items ({[y]} ∪ S)))%I.
Proof.
  intros Hy HS Hne. iIntros "[%Hsub (Hrep & Hobj & Hfree)]". iApply wp_single.
  rewrite (free_items_take y S Hy HS). iDestruct "Hfree" as "[Hiy Hfree]".
  destruct (Hkey y Hy) as [_ Hdy].
  iApply (wp_hash_add_at D dom place head key S objects_at y (fun _ _ => True%type) with "[Hrep] Hiy Hobj");
    [done|done|by apply objects_read; set_solver|by apply size_pool|by iApply hash_rep_at_intro|].
  iIntros (r) "Hobj [[%Hr Hrep]|[%Hr H]]".
  - destruct Hr as [-> _]. iSplit; [iPureIntro; split; [done|set_solver]|]. iFrame.
  - destruct Hr as (Hin & Heq & _). by rewrite (Hne _ Hin) in Heq.
Qed.

(** An object is then added if it is not equal to [y], though it collides. *)
Lemma wp_add_behind S y z :
  z ∈ pool -> z ∉ S -> S ⊆ pool -> hv (key y) = hv (key z) -> eqk (key y) (key z) = false ->
  (forall k, Z.of_nat (size S) + 1 <> 2 ^ k) ->
  hash_rep_at D dom head key S (first_is D dom key y) ∗ objects_at ∗ free_items S
  ⊢ wp (hash_exec head (HAdd z)) (fun r => ⌜r = [0]⌝ ∧ hash_state ({[z]} ∪ S))%I.
Proof.
  intros Hz HS Hsub Ehv Hne Hsz. iIntros "(Hrep & Hobj & Hfree)". iApply wp_single.
  rewrite (free_items_take z S Hz HS). iDestruct "Hfree" as "[Hiz Hfree]".
  destruct (Hkey z Hz) as [_ Hdz].
  iApply (wp_hash_add_at D dom place head key S objects_at z (first_is D dom key y) with "Hrep Hiz Hobj");
    [done|done|by apply objects_read; set_solver|by apply size_pool|].
  iIntros (r) "Hobj [[%Hr Hrep]|[%Hr H]]".
  - destruct Hr as [-> _]. iSplit; [done|]. iSplit; [iPureIntro; set_solver|]. iFrame.
    by iApply hash_rep_at_elim.
  - destruct Hr as (Hin & Heq & Hfirst). rewrite (Hfirst y) in Heq; [congruence|done|].
    intros h cs Hf Hs En. split; [done|]. destruct Hf as [Hlt _].
    destruct (sh_size h cs Hs) as [[_ ->]|[_ El]]; [simpl in Hlt; lia|].
    specialize (Hsz (tabshift h - 1)). lia.
Qed.
End state.
End history.

(** ** The memory a state owns *)
Section owned.
Context {V : Type}.

Definition owns (X : gset Z) (P : hpropI V) : Prop := forall h : gmap Z V, P h -> dom h = X.

Lemma owns_points_to a (v : V) : owns {[a]} (a ↦ v).
Proof. intros h [_ ->]. apply dom_singleton_L. Qed.

Lemma owns_sep X Y P Q : owns X P -> owns Y Q -> owns (X ∪ Y) (P ∗ Q).
Proof. intros HP HQ h (h1 & h2 & -> & _ & H1 & H2). by rewrite dom_union_L (HP h1 H1) (HQ h2 H2). Qed.

Lemma owns_big_sepS (f : Z -> gset Z) (Φ : Z -> hpropI V) (X : gset Z) :
  (forall x, x ∈ X -> owns (f x) (Φ x)) -> owns (set_fold (fun x Y => f x ∪ Y) ∅ X) ([∗ set] x ∈ X, Φ x).
Proof.
  intros HX h Hh. apply (hprop_entails_holds _ ([∗ list] x ∈ elements X, Φ x)%I) in Hh;
    [|by rewrite big_sepS_elements].
  assert (Hl : forall x, x ∈ elements X -> owns (f x) (Φ x)) by (intros x Hx; by apply HX, elem_of_elements).
  unfold set_fold. simpl. revert h Hh Hl. generalize (elements X) as l. clear HX X.
  induction l as [|x l IH]; intros h Hh Hl; cbn [foldr]; [by rewrite Hh dom_empty_L|].
  cbn [big_opL] in Hh. revert h Hh. apply owns_sep; [apply Hl; by left|].
  intros h Hh. apply IH; [done|]. intros y Hy. apply Hl. by right.
Qed.

Lemma wp_run_ends {A} (m : M (gmap Z V) A) (Q : A -> hpropI V) h :
  wp m Q h -> exists a h', m h = Ret (a, h') /\ Q a h'.
Proof.
  intros Hm. destruct (Hm ∅) as (a & h' & E & _ & HQ); [apply map_disjoint_empty_r|].
  rewrite !right_id_L in E. by exists a, h'.
Qed.
End owned.

Section theorems.
Context {U K : Type} (D : hash_decl U K) (dom : K -> Prop) `{!HashLaws D dom}.
Context (place : gmap Z (hcell U) -> Z -> Z) `{!Placement place}.
Context (head : Z) (obj : Z -> U) (key : Z -> K) (pool : gset Z).

(** The objects a client has prepared: their keys can be read. *)
Record pool_ok : Prop := {
  pool_keys : forall y, y ∈ pool -> hash_key D (obj y) = Some (key y) /\ dom (key y);
  pool_size : Z.of_nat (size pool) + 1 < 2 ^ 30
}.

Lemma owns_item x : owns {[item_of D x; item_of D x + 8]} (item_cells D x).
Proof.
  intros h (p & w & Hh). revert h Hh. apply owns_sep; apply owns_points_to.
Qed.

Lemma owns_no_table h1 h2 m1 m2 :
  no_table D head obj pool h1 m1 -> no_table D head obj pool h2 m2 -> base.dom m1 = (base.dom m2 : gset Z).
Proof.
  assert (H : exists X, forall h, owns X (no_table D head obj pool h)).
  { eexists. intros h. apply owns_sep; [apply owns_points_to|].
    apply owns_sep; apply owns_big_sepS; intros x _; [apply owns_points_to|apply owns_item]. }
  destruct H as [X HX]. intros H1%HX H2%HX. congruence.
Qed.

(** C6. Hash tables refine sets: after [hash_init], any history of additions
    of objects that are not in the table, deletions of objects that are,
    searches, pops, walks and counts runs without a fault, through every
    growth and shrinking of the table, and each operation gives what the set
    of the objects in the table says.  [hash_add] refuses an object only when
    an equal one is in the table, and if it accepts one that has an equal in
    the table, some other object collides with it. *)
Theorem typesafe_hash_refines_set h ops m :
  pool_ok -> no_table D head obj pool h m -> hash_legal D dom key pool ∅ ops ->
  exists rs S m',
    (hash_init head ;; hash_run D place head ops) m = Ret (rs, m') /\
    hash_runs D dom key ∅ ops rs S /\ hash_state D dom head obj key pool S m'.
Proof.
  intros [Hkey Hsize] Hm Hlegal.
  destruct (wp_run_ends (hash_init head ;; hash_run D place head ops)
    (fun rs => ∃ S, ⌜hash_runs D dom key ∅ ops rs S⌝ ∧ hash_state D dom head obj key pool S)%I m)
    as (rs & m' & E & S & Hrs & HS); [|by exists rs, S, m'].
  apply (hprop_entails_holds (no_table D head obj pool h)); [|done].
  iIntros "(Hh & Hobj & Hfree)". iApply wp_bind. iApply (wp_hash_init D dom head h key with "Hh").
  iIntros "Hrep". iApply run_ok; [done..|]. iSplit; [iPureIntro; set_solver|]. iFrame.
Qed.

(** C34. Nothing is lost: if the objects that were put into a table have been
    taken out again, [hash_fini] does not fail its assertion and leaves the
    memory with the addresses it had before [hash_init]: the bucket arrays of
    all sizes the table had have been freed. *)
Theorem hash_fini_frees_all h ops m rs m' :
  pool_ok -> no_table D head obj pool h m -> hash_legal D dom key pool ∅ ops ->
  (forall rs S, hash_runs D dom key ∅ ops rs S -> S = ∅) ->
  (hash_init head ;; hash_run D place head ops) m = Ret (rs, m') ->
  exists m'', hash_fini place head m' = Ret (tt, m'') /\ base.dom m'' = (base.dom m : gset Z).
Proof.
  intros Hpool Hm Hlegal Hempty Erun.
  destruct (wp_run_ends (hash_init head ;; (hash_run D place head ops ≫= fun _ => hash_fini place head))
    (fun _ => no_table D head obj pool (ThashHead 0 0 0 0 0)) m) as ([] & m'' & E & Hm'').
  - apply (hprop_entails_holds (no_table D head obj pool h)); [|done].
    iIntros "(Hh & Hobj & Hfree)". iApply wp_bind. iApply (wp_hash_init D dom head h key with "Hh").
    iIntros "Hrep". iApply wp_bind. destruct Hpool as [Hkey Hsize].
    iApply wp_wand. iSplitL.
    { iApply (run_ok D dom place head obj key pool Hkey Hsize ops ∅ Hlegal).
      iSplit; [iPureIntro; set_solver|]. iFrame. }
    iIntros (rs') "(%S & %Hrs & %Hsub & Hrep & Hobj & Hfree)".
    rewrite (Hempty _ _ Hrs). iApply (wp_hash_fini D dom with "Hrep"). iIntros "Hh". iFrame.
  - exists m''. split; [|by eapply owns_no_table].
    rewrite -bind_assoc (bind_ret_eq _ _ _ _ _ Erun) in E. exact E.
Qed.

(** C35. [hash_add] compares with the first item of a hash value only.  Let a
    history leave a table that holds [x], with a number of objects that is not
    two less than a power of two, so that the table does not grow for the
    second of two more objects.  Add an object [y] that equals none
    in it, and then an object [z] that is equal to [x] and collides with [y]
    without being equal to it: both are accepted, and the table holds the two
    equal objects [x] and [z]. *)
Theorem hash_add_accepts_duplicate h ops m x y z :
  pool_ok -> no_table D head obj pool h m -> hash_legal D dom key pool ∅ ops ->
  y ∈ pool -> z ∈ pool -> y <> z ->
  eqk (key x) (key z) = true -> hv (key y) = hv (key z) -> eqk (key y) (key z) = false ->
  (forall rs S, hash_runs D dom key ∅ ops rs S ->
     x ∈ S /\ y ∉ S /\ z ∉ S /\ (forall w, w ∈ S -> eqk (key w) (key y) = false) /\
     forall k, Z.of_nat (size S) + 2 <> 2 ^ k) ->
  exists rs S m',
    (hash_init head ;; hash_run D place head (ops ++ [HAdd y; HAdd z])) m = Ret (rs ++ [[0]; [0]], m') /\
    hash_runs D dom key ∅ ops rs S /\
    hash_state D dom head obj key pool ({[z]} ∪ ({[y]} ∪ S)) m'.
Proof.
  intros [Hkey Hsize] Hm Hlegal Hy Hz Hyz Hxz Ehv Hne Hops.
  destruct (wp_run_ends (hash_init head ;; hash_run D place head (ops ++ [HAdd y; HAdd z]))
    (fun r => ∃ rs S, ⌜r = rs ++ [[0]; [0]] /\ hash_runs D dom key ∅ ops rs S⌝ ∧
       hash_state D dom head obj key pool ({[z]} ∪ ({[y]} ∪ S)))%I m)
    as (r & m' & E & rs & S & [-> Hrs] & HS); [|by exists rs, S, m'].
  apply (hprop_entails_holds (no_table D head obj pool h)); [|done].
  iIntros "(Hh & Hobj & Hfree)". iApply wp_bind. iApply (wp_hash_init D dom head h key with "Hh").
  iIntros "Hrep". iApply (run_then D dom place head obj key pool Hkey Hsize ops _ ∅ _ Hlegal).
  2: { iSplit; [iPureIntro; set_solver|]. iFrame. }
  intros rs S Hrs. destruct (Hops rs S Hrs) as (_ & HyS & HzS & HyE & Hsz). cbn [hash_run].
  iIntros "Hst". iApply wp_bind.
  rewrite (wp_add_first D dom place head obj key pool Hkey Hsize S y Hy HyS HyE).
  iApply (wp_wand with "[$Hst]"). iIntros (r) "[%Er Hst]". destruct Er as [-> Hsub]. iApply wp_bind. iApply wp_bind.
  rewrite (wp_add_behind D dom place head obj key pool Hkey Hsize ({[y]} ∪ S) y z Hz); [|set_solver|done..|].
  2: { intros k. specialize (Hsz k). rewrite size_union ?size_singleton; [lia|set_solver]. }
  iApply (wp_wand with "[$Hst]"). iIntros (r) "[%Er Hst]". subst r. iApply wp_bind. iApply wp_ret. iApply wp_ret. iApply wp_ret.
  iExists rs, S. by iSplit.
Qed.
End theorems.

(** ** An instance: integers, hashed by their parity *)
Definition parity_hash : hash_decl Z Z := {|
  hash_field := 8;
  hash_key := Some;
  cmpfn a b := Ret (Z.sgn (a - b));
  hashfn k := Ret (k mod 2)
|}.

#[export] Instance parity_laws : HashLaws parity_hash (fun _ => True).
Proof.
  refine {| hv := fun k => k mod 2; eqk := Z.eqb |}.
  - intros k _. split; [done|]. pose proof (Z.mod_pos_bound k 2). lia.
  - intros a b _ _. exists (Z.sgn (a - b)). split; [done|]. lia.
  - by intros a b _ _ ->%Z.eqb_eq.
Defined.

Definition demo_key (y : Z) : Z := match y with 100 => 1 | 200 => 3 | _ => 1 end.
Definition demo_pool : gset Z := {[100; 200; 300]}.
Definition no_items : thash_head := ThashHead 0 0 0 0 0.
Definition demo_cells : list (Z * hcell Z) :=
  [(16, CHead no_items);
   (100, CUser 1); (200, CUser 3); (300, CUser 1);
   (108, CPtr 0); (116, CWord 0); (208, CPtr 0); (216, CWord 0); (308, CPtr 0); (316, CWord 0)].
Definition demo_mem : gmap Z (hcell Z) := list_to_map demo_cells.

Lemma demo_pool_ok : pool_ok parity_hash (fun _ => True) demo_key demo_key demo_pool.
Proof. split; [done|by vm_compute]. Qed.

Lemma demo_no_table : no_table parity_hash 16 demo_key demo_pool no_items demo_mem.
Proof.
  eapply hprop_entails_holds; [|apply (cells_hold demo_cells)].
  - unfold demo_cells, no_table, objects_at, free_items, demo_pool. cbn [big_opL fst snd].
    iIntros "(Hh & H1 & H2 & H3 & H1p & H1w & H2p & H2w & H3p & H3w & _)". iFrame "Hh".
    rewrite difference_empty_L.
    rewrite !big_sepS_union; [|set_solver..]. rewrite !big_sepS_singleton. iFrame.
  - apply (bool_decide_unpack _). by vm_compute.
  - by repeat constructor.
Qed.

Definition demo_ops : list (hash_op Z) := [HAdd 100; HCount; HDel 100; HPop].

Lemma demo_legal : hash_legal parity_hash (fun _ => True) demo_key demo_pool ∅ demo_ops.
Proof.
  split; [by split; vm_compute|]. intros r S [(_ & -> & _)|(y & _ & _ & Hy & _)]; [|by apply not_elem_of_empty in Hy].
  split; [done|]. intros r' S [_ ->]. split; [set_solver|]. intros r2 S2 [_ ->]. split; [done|]. by intros.
Qed.

Lemma demo_runs_empty rs S : hash_runs parity_hash (fun _ => True) demo_key ∅ demo_ops rs S -> S = ∅.
Proof.
  intros H. repeat match goal with H : hash_runs _ _ _ _ _ _ _ |- _ => inversion H; clear H; subst end.
  unfold hash_spec in *. set_solver.
Qed.

Lemma typesafe_hash_refines_set_witness :
  exists rs S m',
    (hash_init 16 ;; hash_run parity_hash place_last 16 demo_ops) demo_mem = Ret (rs, m') /\
    hash_runs parity_hash (fun _ => True) demo_key ∅ demo_ops rs S /\
    hash_state parity_hash (fun _ => True) 16 demo_key demo_key demo_pool S m'.
Proof.
  apply (typesafe_hash_refines_set parity_hash (fun _ => True) place_last 16 demo_key demo_key demo_pool no_items);
    [apply demo_pool_ok|apply demo_no_table|apply demo_legal].
Defined.

(** The results of a run *)
Definition gives (ops : list (hash_op Z)) (rs : list (list Z)) : bool :=
  match (hash_init 16 ;; hash_run parity_hash place_last 16 ops) demo_mem with
  | Ret (rs', _) => bool_decide (rs' = rs)
  | _ => false
  end.

Lemma gives_run ops rs : gives ops rs = true -> exists m',
  (hash_init 16 ;; hash_run parity_hash place_last 16 ops) demo_mem = Ret (rs, m').
Proof.
  unfold gives. case_match eqn:E; [|done..]. case_match. intros ->%bool_decide_eq_true. by eexists.
Qed.

(** The operations above on this memory *)
Lemma demo_run : exists m',
  (hash_init 16 ;; hash_run parity_hash place_last 16 demo_ops) demo_mem = Ret ([[0]; [1]; [100]; [0]], m').
Proof. apply gives_run. by vm_compute. Qed.

Lemma hash_fini_frees_all_witness : exists m' m'',
  (hash_init 16 ;; hash_run parity_hash place_last 16 demo_ops) demo_mem = Ret ([[0]; [1]; [100]; [0]], m') /\
  hash_fini place_last 16 m' = Ret (tt, m'') /\ dom m'' = (dom demo_mem : gset Z).
Proof.
  destruct demo_run as [m' E]. exists m'.
  destruct (hash_fini_frees_all parity_hash (fun _ => True) place_last 16 demo_key demo_key demo_pool no_items
    demo_ops demo_mem _ m' demo_pool_ok demo_no_table demo_legal demo_runs_empty E) as (m'' & Ef & Ed).
  exists m''. exact (conj E (conj Ef Ed)).
Defined.

Lemma demo_hidden rs S :
  hash_runs parity_hash (fun _ => True) demo_key ∅ [HAdd 100] rs S -> S = {[100]}.
Proof.
  intros H. repeat match goal with H : hash_runs _ _ _ _ _ _ _ |- _ => inversion H; clear H; subst end.
  unfold hash_spec in *. set_solver.
Qed.

Lemma hash_add_accepts_duplicate_witness :
  exists rs S m',
    (hash_init 16 ;; hash_run parity_hash place_last 16 ([HAdd 100] ++ [HAdd 200; HAdd 300])) demo_mem
      = Ret (rs ++ [[0]; [0]], m') /\
    hash_runs parity_hash (fun _ => True) demo_key ∅ [HAdd 100] rs S /\
    hash_state parity_hash (fun _ => True) 16 demo_key demo_key demo_pool ({[300]} ∪ ({[200]} ∪ S)) m'.
Proof.
  apply (hash_add_accepts_duplicate parity_hash (fun _ => True) place_last 16 demo_key demo_key demo_pool
    no_items [HAdd 100] demo_mem 100 200 300 demo_pool_ok demo_no_table); try done.
  intros rs S ->%demo_hidden. split; [set_solver|]. split; [set_solver|]. split; [set_solver|]. split.
  - by intros w ->%elem_of_singleton.
  - intros k Hk. rewrite size_singleton in Hk. change (3 = 2 ^ k) in Hk.
    destruct (Z.lt_trichotomy k 2) as [H|[->|H]]; [|done|].
    + destruct (decide (k < 0)); [by rewrite Z.pow_neg_r in Hk; [|lia]|].
      assert (k = 0 \/ k = 1) as [-> | ->] by lia; done.
    + pose proof (Z.pow_lt_mono_r 2 2 k). lia.
Defined.
