(* ===== verification/RouteTable.v ===== *)
(** * Route tables (frr-frr-7.2/lib: table.c, table.h)

    A table of network prefixes: a binary tree whose nodes are the prefixes
    that are in use and the points where they branch, with a hash table for
    exact lookups beside it.  Nodes have a reference count, [lock]; a node
    without references is removed unless it has two children.

    A node at [a] is the cell of its fields at [a] and the two cells of its
    hash item; a table is the cell of its fields and the head of its hash
    table, 8 bytes further.  Tables have the default delegate and no cleanup
    function.  Prefixes are those of [FrrPrefix]; a [struct prefix] on the
    stack that is not initialised has the bytes [stack]. *)

From S2P Require Import Prelude SepLogic Heap ThashSize Thash FrrPrefix.

#[local] Open Scope Z_scope.

Record route_node := RouteNode {
  rn_p : prefix;
  rn_table : Z;
  rn_parent : Z;
  l_left : Z;
  l_right : Z;
  rn_lock : Z;
  rn_info : Z
}.

Record route_table := RouteTable {
  rt_top : Z;
  rt_count : Z;
  rt_info : Z
}.

Inductive rcell := RNode (n : route_node) | RTable (t : route_table).

(** ** Fields *)
Definition set_p (p : prefix) (n : route_node) : route_node :=
  RouteNode p (rn_table n) (rn_parent n) (l_left n) (l_right n) (rn_lock n) (rn_info n).
Definition set_table (t : Z) (n : route_node) : route_node :=
  RouteNode (rn_p n) t (rn_parent n) (l_left n) (l_right n) (rn_lock n) (rn_info n).
Definition set_parent (a : Z) (n : route_node) : route_node :=
  RouteNode (rn_p n) (rn_table n) a (l_left n) (l_right n) (rn_lock n) (rn_info n).
(** [node->link[bit]] *)
Definition link (bit : bool) (n : route_node) : Z := if bit then l_right n else l_left n.
Definition set_child (bit : bool) (a : Z) (n : route_node) : route_node :=
  if bit then RouteNode (rn_p n) (rn_table n) (rn_parent n) (l_left n) a (rn_lock n) (rn_info n)
  else RouteNode (rn_p n) (rn_table n) (rn_parent n) a (l_right n) (rn_lock n) (rn_info n).
Definition set_lock (k : Z) (n : route_node) : route_node :=
  RouteNode (rn_p n) (rn_table n) (rn_parent n) (l_left n) (l_right n) k (rn_info n).
Definition set_info (i : Z) (n : route_node) : route_node :=
  RouteNode (rn_p n) (rn_table n) (rn_parent n) (l_left n) (l_right n) (rn_lock n) i.
Definition set_top (a : Z) (t : route_table) : route_table := RouteTable a (rt_count t) (rt_info t).
Definition set_rt_count (k : Z) (t : route_table) : route_table := RouteTable (rt_top t) k (rt_info t).

(** The offsets of [nodehash] in a node and of [hash] in a table *)
Definition nodehash_offset : Z := 88.
Definition table_hash (rt : Z) : Z := rt + 8.

Definition zero_bytes_of_union : list Z := replicate 40 0.

(** [DECLARE_HASH(rn_hash_node, struct route_node, nodehash,
    route_table_hash_cmp, prefix_hash_key)] *)
Definition rn_hash_node : hash_decl rcell prefix := {|
  hash_field := nodehash_offset;
  hash_key c := match c with RNode n => Some (rn_p n) | RTable _ => None end;
  cmpfn := prefix_cmp;
  hashfn := prefix_hash_key
|}.

Section table.
Context (place : gmap Z (hcell rcell) -> Z -> Z) (stack : list Z).
Abbreviation mem := (gmap Z (hcell rcell)).

Definition load_node (a : Z) : M mem route_node :=
  c ← mem_load a; match c with CUser (RNode n) => mret n | _ => mfault end.
Definition store_node (a : Z) (n : route_node) : M mem unit := load_node a ;; mem_store a (CUser (RNode n)).
Definition update_node (a : Z) (f : route_node -> route_node) : M mem unit :=
  n ← load_node a; mem_store a (CUser (RNode (f n))).
Definition load_table (a : Z) : M mem route_table :=
  c ← mem_load a; match c with CUser (RTable t) => mret t | _ => mfault end.
Definition update_table (a : Z) (f : route_table -> route_table) : M mem unit :=
  t ← load_table a; mem_store a (CUser (RTable (f t))).
(** [table->count++] and [table->count--] *)
Definition add_count (rt d : Z) : M mem unit :=
  update_table rt (fun t => set_rt_count (u64 (rt_count t + d)) t).

(** ** Nodes *)
Definition route_node_create : M mem Z :=
  mem_alloc place 112
    [(0, CUser (RNode (RouteNode (Prefix AF_UNSPEC 0 zero_bytes_of_union) 0 0 0 0 0 0)));
     (nodehash_offset, CPtr 0); (nodehash_offset + 8, CWord 0)].

Definition route_node_destroy (node : Z) : M mem unit :=
  mem_free_all [node; node + nodehash_offset; node + nodehash_offset + 8].

Definition route_node_new : M mem Z := route_node_create.

Definition route_node_set (rt : Z) (p : prefix) : M mem Z :=
  node ← route_node_new;
  n ← load_node node;
  q ← mlift (prefix_copy (rn_p n) p);
  update_node node (set_p q) ;;
  update_node node (set_table rt) ;;
  hash_add rn_hash_node place (table_hash rt) node ;;
  mret node.

Definition route_node_free (node : Z) : M mem unit := route_node_destroy node.

Definition route_lock_node (node : Z) : M mem Z :=
  update_node node (fun n => set_lock (u32 (rn_lock n + 1)) n) ;; mret node.

(** ** Tables *)
Definition route_table_init : M mem Z :=
  rt ← mem_alloc place 56 [(0, CUser (RTable (RouteTable 0 0 0))); (8, CHead (ThashHead 0 0 0 0 0))];
  hash_init (table_hash rt) ;;
  mret rt.

(** [while (node)] in [route_table_free], which comes to every node once and
    back from it once *)
Fixpoint free_loop (fuel : nat) (rt node : Z) : M mem unit :=
  match fuel with
  | O => mnofuel
  | S fuel =>
      n ← load_node node;
      if negb (l_left n =? 0) then free_loop fuel rt (l_left n)
      else if negb (l_right n =? 0) then free_loop fuel rt (l_right n)
      else
        let tmp_node := node in
        let node := rn_parent n in
        add_count (rn_table n) (-1) ;;
        update_node tmp_node (set_lock 0) ;;
        hash_del rn_hash_node place (table_hash rt) tmp_node ;;
        route_node_free tmp_node ;;
        if negb (node =? 0) then
          m ← load_node node;
          update_node node (set_child (negb (l_left m =? tmp_node)) 0) ;;
          free_loop fuel rt node
        else mret tt
  end.

Definition route_table_free (rt : Z) : M mem unit :=
  if rt =? 0 then mret tt
  else
    t ← load_table rt;
    fuel ← mem_fuel;
    mwhen (negb (rt_top t =? 0)) (free_loop (2 * fuel) rt (rt_top t)) ;;
    t ← load_table rt;
    massert (rt_count t =? 0) ;;
    hash_fini place (table_hash rt) ;;
    mem_free_all [rt; table_hash rt].

Definition route_table_finish (rt : Z) : M mem unit := route_table_free rt.

(** ** Common prefixes *)

(** [for (i = 0; i < p->prefixlen / 8; i++)], [n] rounds being left *)
Fixpoint common_bytes (np pp newp : list Z) (i : Z) (n : nat) : res (Z * list Z) :=
  match n with
  | O => Ret (i, newp)
  | S n =>
      x ← byte np i;
      y ← byte pp i;
      if x =? y then newp ← write_bytes newp i [x]; common_bytes np pp newp (i + 1) n
      else Ret (i, newp)
  end.

(** [while (new->prefixlen < p->prefixlen && !(mask & diff))] *)
Fixpoint common_mask (fuel : nat) (mask diff len plen : Z) : res Z :=
  match fuel with
  | O => NoFuel
  | S fuel =>
      if (len <? plen) && (Z.land mask diff =? 0) then
        common_mask fuel (Z.shiftr mask 1) diff (u16 (len + 1)) plen
      else Ret len
  end.

Definition route_common (n p new : prefix) : res prefix :=
  '(i, newp) ← common_bytes (u n) (u p) (u new) 0 (Z.to_nat (prefixlen p / 8));
  let len := u16 (i * 8) in
  if negb (len =? prefixlen p) then
    x ← byte (u n) i;
    y ← byte (u p) i;
    len ← common_mask 9 128 (Z.lxor x y) len (prefixlen p);
    m ← maskbit (len mod 8);
    newp ← write_bytes newp i [Z.land x m];
    Ret (Prefix (p_family new) len newp)
  else Ret (Prefix (p_family new) len newp).

Definition bit_of (p : prefix) (len : Z) : res bool :=
  b ← prefix_bit (u p) len; Ret (negb (b =? 0)).

Definition set_link (node new : Z) : M mem unit :=
  m ← load_node new;
  n ← load_node node;
  bit ← mlift (bit_of (rn_p m) (prefixlen (rn_p n)));
  update_node node (set_child bit new) ;;
  update_node new (set_parent node).

(** ** Searching *)

(** [while (node && node->p.prefixlen <= p->prefixlen && prefix_match(&node->p, p))] *)
Fixpoint match_loop (fuel : nat) (p : prefix) (node matched : Z) : M mem Z :=
  match fuel with
  | O => mnofuel
  | S fuel =>
      if node =? 0 then mret matched
      else
        n ← load_node node;
        m ← mlift (if prefixlen (rn_p n) <=? prefixlen p then prefix_match (rn_p n) p else Ret false);
        if negb m then mret matched
        else
          let matched := if negb (rn_info n =? 0) then node else matched in
          if prefixlen (rn_p n) =? prefixlen p then mret matched
          else
            bit ← mlift (bit_of p (prefixlen (rn_p n)));
            match_loop fuel p (link bit n) matched
  end.

Definition route_node_match (rt : Z) (p : prefix) : M mem Z :=
  t ← load_table rt;
  fuel ← mem_fuel;
  matched ← match_loop (S fuel) p (rt_top t) 0;
  if negb (matched =? 0) then route_lock_node matched else mret 0.

(** [addr] are the bytes of the address. *)
Definition route_node_match_ipv4 (rt : Z) (addr : list Z) : M mem Z :=
  route_node_match rt (Prefix AF_INET IPV4_MAX_BITLEN (addr ++ replicate 36 0)).
Definition route_node_match_ipv6 (rt : Z) (addr : list Z) : M mem Z :=
  route_node_match rt (Prefix AF_INET6 IPV6_MAX_BITLEN (addr ++ replicate 24 0)).

(** [prefix_copy(&rn.p, pu.p); apply_mask(&rn.p);] *)
Definition search_key (p : prefix) : res prefix :=
  q ← prefix_copy (Prefix AF_UNSPEC 0 stack) p; apply_mask q.

Definition route_node_lookup (rt : Z) (p : prefix) : M mem Z :=
  k ← mlift (search_key p);
  node ← hash_find rn_hash_node (table_hash rt) k;
  if node =? 0 then mret 0
  else
    n ← load_node node;
    if negb (rn_info n =? 0) then route_lock_node node else mret 0.

Definition route_node_lookup_maynull (rt : Z) (p : prefix) : M mem Z :=
  k ← mlift (search_key p);
  node ← hash_find rn_hash_node (table_hash rt) k;
  if negb (node =? 0) then route_lock_node node else mret 0.

(** ** Adding *)

(** The [while] of [route_node_get]: the node with the prefix, or where the
    walk ended and the last node that matched *)
Fixpoint get_loop (fuel : nat) (p : prefix) (node mtch : Z) : M mem (Z + Z * Z) :=
  match fuel with
  | O => mnofuel
  | S fuel =>
      if node =? 0 then mret (inr (node, mtch))
      else
        n ← load_node node;
        m ← mlift (if prefixlen (rn_p n) <=? prefixlen p then prefix_match (rn_p n) p else Ret false);
        if negb m then mret (inr (node, mtch))
        else if prefixlen (rn_p n) =? prefixlen p then mret (inl node)
        else
          bit ← mlift (bit_of p (prefixlen (rn_p n)));
          get_loop fuel p (link bit n) node
  end.

(** [if (match) set_link(match, new); else table->top = new;] *)
Definition hang (rt mtch new : Z) : M mem unit :=
  if negb (mtch =? 0) then set_link mtch new else update_table rt (set_top new).

(** A node for the prefix [p] where the walk ended at nothing *)
Definition get_leaf (rt mtch : Z) (p : prefix) : M mem Z :=
  new ← route_node_set rt p;
  hang rt mtch new ;;
  mret new.

(** The same at [node], whose prefix branches off or is longer: a node for
    what the two prefixes share *)
Definition get_above (rt mtch node : Z) (p : prefix) : M mem (Z * prefix) :=
  new ← route_node_new;
  n ← load_node node;
  m ← load_node new;
  q ← mlift (route_common (rn_p n) p (rn_p m));
  update_node new (set_p (Prefix (p_family p) (prefixlen q) (u q))) ;;
  update_node new (set_table rt) ;;
  set_link new node ;;
  hash_add rn_hash_node place (table_hash rt) new ;;
  hang rt mtch new ;;
  mret (new, q).

Definition get_branch (rt mtch node : Z) (p : prefix) : M mem Z :=
  '(new, q) ← get_above rt mtch node p;
  if negb (prefixlen q =? prefixlen p) then
    new' ← route_node_set rt p;
    set_link new new' ;;
    add_count rt 1 ;;
    mret new'
  else mret new.

Definition route_node_get (rt : Z) (pu : prefix) : M mem Z :=
  p ← mlift (search_key pu);
  node ← hash_find rn_hash_node (table_hash rt) p;
  found ← (if node =? 0 then mret false else n ← load_node node; mret (negb (rn_info n =? 0)));
  if found : bool then route_lock_node node
  else
    t ← load_table rt;
    fuel ← mem_fuel;
    r ← get_loop (S fuel) p (rt_top t) 0;
    match r with
    | inl node => route_lock_node node
    | inr (node, mtch) =>
        new ← (if node =? 0 then get_leaf rt mtch p else get_branch rt mtch node p);
        add_count rt 1 ;;
        route_lock_node new
    end.

(** ** Removing *)

(** The part of [route_node_delete] that takes the node out of the tree, and
    its parent *)
Definition unlink_node (node : Z) : M mem Z :=
  n ← load_node node;
  let child := if negb (l_left n =? 0) then l_left n else l_right n in
  let parent := rn_parent n in
  mwhen (negb (child =? 0)) (update_node child (set_parent parent)) ;;
  (if negb (parent =? 0) then
     m ← load_node parent;
     update_node parent (set_child (negb (l_left m =? node)) child)
   else update_table (rn_table n) (set_top child)) ;;
  add_count (rn_table n) (-1) ;;
  hash_del rn_hash_node place (table_hash (rn_table n)) node ;;
  route_node_free node ;;
  mret parent.

Fixpoint route_node_delete (fuel : nat) (node : Z) : M mem unit :=
  match fuel with
  | O => mnofuel
  | S fuel =>
      n ← load_node node;
      massert (rn_lock n =? 0) ;;
      massert (rn_info n =? 0) ;;
      if negb (l_left n =? 0) && negb (l_right n =? 0) then mret tt
      else
        parent ← unlink_node node;
        if parent =? 0 then mret tt
        else
          m ← load_node parent;
          mwhen (rn_lock m =? 0) (route_node_delete fuel parent)
  end.

Definition route_unlock_node (node : Z) : M mem unit :=
  n ← load_node node;
  massert (0 <? rn_lock n) ;;
  update_node node (set_lock (rn_lock n - 1)) ;;
  n ← load_node node;
  fuel ← mem_fuel;
  mwhen (rn_lock n =? 0) (route_node_delete fuel node).

(** ** Iterating *)
Definition route_top (rt : Z) : M mem Z :=
  t ← load_table rt;
  if rt_top t =? 0 then mret 0
  else route_lock_node (rt_top t) ;; mret (rt_top t).

(** [while (node->parent && node != limit)]: the right child of the first
    ancestor the node is on the left of, 0 if there is none; [limit] is 0 in
    [route_next] and [route_get_subtree_next]. *)
Fixpoint next_up (fuel : nat) (limit node : Z) : M mem Z :=
  match fuel with
  | O => mnofuel
  | S fuel =>
      n ← load_node node;
      if (rn_parent n =? 0) || (node =? limit) then mret 0
      else
        m ← load_node (rn_parent n);
        if (l_left m =? node) && negb (l_right m =? 0) then mret (l_right m)
        else next_up fuel limit (rn_parent n)
  end.

Definition route_next_until (node limit : Z) : M mem Z :=
  n ← load_node node;
  next ←
    (if negb (l_left n =? 0) then mret (l_left n)
     else if negb (l_right n =? 0) then mret (l_right n)
     else fuel ← mem_fuel; next_up fuel limit node);
  mwhen (negb (next =? 0)) (route_lock_node next ;; mret tt) ;;
  route_unlock_node node ;;
  mret next.

Definition route_next (node : Z) : M mem Z := route_next_until node 0.

Definition route_table_count (rt : Z) : M mem Z := t ← load_table rt; mret (rt_count t).

(** ** The order of iteration *)
Definition route_table_prefix_iter_cmp (p1 p2 : prefix) : res Z :=
  r ←
    (if prefixlen p1 <=? prefixlen p2 then
       m ← prefix_match p1 p2;
       Ret (if m : bool then Some (if prefixlen p1 =? prefixlen p2 then 0 else -1) else None)
     else
       m ← prefix_match p2 p1;
       Ret (if m : bool then Some 1 else None));
  match r with
  | Some c => Ret c
  | None =>
      common ← route_common p1 p2 (Prefix AF_UNSPEC 0 stack);
      if negb (prefixlen common <? prefixlen p1) then AssertFail
      else if negb (prefixlen common <? prefixlen p2) then AssertFail
      else
        b1 ← bit_of p1 (prefixlen common);
        b2 ← bit_of p2 (prefixlen common);
        if b1 : bool then if b2 : bool then AssertFail else Ret 1
        else if b2 : bool then Ret (-1) else AssertFail
  end.

Definition route_get_subtree_next (node : Z) : M mem Z := fuel ← mem_fuel; next_up fuel 0 node.

Fixpoint get_next_loop (fuel : nat) (p : prefix) (node : Z) : M mem Z :=
  match fuel with
  | O => mnofuel
  | S fuel =>
      if node =? 0 then mret 0
      else
        n ← load_node node;
        m ← mlift (if prefixlen (rn_p n) <? prefixlen p then prefix_match (rn_p n) p
                   else prefix_match p (rn_p n));
        if m : bool then
          if prefixlen (rn_p n) =? prefixlen p then
            route_lock_node node ;;
            next ← route_next node;
            mwhen (negb (next =? 0)) (route_unlock_node next) ;;
            mret next
          else if prefixlen p <? prefixlen (rn_p n) then mret node
          else
            bit ← mlift (bit_of p (prefixlen (rn_p n)));
            if negb (link bit n =? 0) then get_next_loop fuel p (link bit n)
            else if negb (l_right n =? 0) then mret (l_right n)
            else route_get_subtree_next node
        else
          cmp ← mlift (route_table_prefix_iter_cmp (rn_p n) p);
          if 0 <? cmp then mret node
          else massert (cmp <? 0) ;; route_get_subtree_next node
  end.

Definition route_table_get_next_internal (rt : Z) (p : prefix) : M mem Z :=
  t ← load_table rt;
  fuel ← mem_fuel;
  get_next_loop (S fuel) p (rt_top t).

Definition route_table_get_next (rt : Z) (p : prefix) : M mem Z :=
  node ← route_table_get_next_internal rt p;
  if node =? 0 then mret 0
  else
    n ← load_node node;
    c ← mlift (route_table_prefix_iter_cmp (rn_p n) p);
    massert (0 <? c) ;;
    route_lock_node node.

(** ** Iterators *)
Inductive iter_state :=
  RT_ITER_STATE_INIT | RT_ITER_STATE_ITERATING | RT_ITER_STATE_PAUSED | RT_ITER_STATE_DONE.

Record route_table_iter := RouteTableIter {
  it_state : iter_state;
  it_table : Z;
  it_current : Z;
  pause_prefix : prefix
}.

Definition route_table_iter_init (rt : Z) : route_table_iter :=
  RouteTableIter RT_ITER_STATE_INIT rt 0 (Prefix AF_UNSPEC 0 zero_bytes_of_union).

Definition route_table_iter_next (it : route_table_iter) : M mem (Z * route_table_iter) :=
  let moved node :=
    mret (node, RouteTableIter (if negb (node =? 0) then RT_ITER_STATE_ITERATING else RT_ITER_STATE_DONE)
                  (it_table it) node (pause_prefix it)) in
  match it_state it with
  | RT_ITER_STATE_INIT => node ← route_top (it_table it); moved node
  | RT_ITER_STATE_ITERATING => node ← route_next (it_current it); moved node
  | RT_ITER_STATE_PAUSED => node ← route_table_get_next (it_table it) (pause_prefix it); moved node
  | RT_ITER_STATE_DONE => mret (0, it)
  end.

Definition route_table_iter_pause (it : route_table_iter) : M mem route_table_iter :=
  match it_state it with
  | RT_ITER_STATE_INIT | RT_ITER_STATE_PAUSED | RT_ITER_STATE_DONE => mret it
  | RT_ITER_STATE_ITERATING =>
      n ← load_node (it_current it);
      q ← mlift (prefix_copy (pause_prefix it) (rn_p n));
      route_unlock_node (it_current it) ;;
      mret (RouteTableIter RT_ITER_STATE_PAUSED (it_table it) 0 q)
  end.

Definition route_table_iter_cleanup (it : route_table_iter) : M mem route_table_iter :=
  current ←
    (match it_state it with
     | RT_ITER_STATE_ITERATING => route_unlock_node (it_current it) ;; mret 0
     | _ => mret (it_current it)
     end);
  massert (current =? 0) ;;
  mret (RouteTableIter RT_ITER_STATE_DONE (it_table it) current (pause_prefix it)).

Definition route_table_iter_is_done (it : route_table_iter) : bool :=
  match it_state it with RT_ITER_STATE_DONE => true | _ => false end.
Definition route_table_iter_started (it : route_table_iter) : bool :=
  match it_state it with RT_ITER_STATE_INIT => false | _ => true end.
End table.
