(* ===== verification/RouteTree.v ===== *)
(** * The trees of route tables

    A tree of addresses; [key] gives the network of the node at an address,
    as its bits.  The network of a node is an initial segment of those of its
    subtrees, which branch at the next bit.  Positions in a tree are given by
    contexts: the way from a node up to the top. *)

From S2P Require Import Prelude.
From stdpp Require Import sorting.

#[local] Open Scope Z_scope.

Inductive rtree := E | T (l : rtree) (a : Z) (r : rtree).
Implicit Types t l r s : rtree.

Definition root t : Z := match t with E => 0 | T _ a _ => a end.
Definition kid (b : bool) t : rtree := match t with E => E | T l _ r => if b then r else l end.

(** The addresses, a node coming before its children *)
Fixpoint nodes t : list Z := match t with E => [] | T l a r => a :: nodes l ++ nodes r end.

(** [T l a r] with the subtree [t] on side [b] and [s] on the other *)
Definition join (b : bool) (a : Z) t s : rtree := if b then T s a t else T t a s.

(** A context: the sides, parents and siblings on the way up *)
Abbreviation step := (bool * Z * rtree)%type.
Implicit Types c : list step.
Fixpoint plug c t : rtree :=
  match c with [] => t | (b, a, s) :: c => plug c (join b a t s) end.
Definition above c : Z := match c with [] => 0 | (_, a, _) :: _ => a end.
Fixpoint ctx_nodes c : list Z :=
  match c with [] => [] | (_, a, s) :: c => a :: nodes s ++ ctx_nodes c end.

Lemma nodes_join b a t s : nodes (join b a t s) ≡ₚ a :: nodes t ++ nodes s.
Proof. destruct b; simpl; [by rewrite (comm app (nodes s))|done]. Qed.

Lemma nodes_plug c t : nodes (plug c t) ≡ₚ nodes t ++ ctx_nodes c.
Proof.
  revert t. induction c as [|[[b a] s] c IH]; intros t; simpl; [by rewrite app_nil_r|].
  rewrite IH, nodes_join, <- Permutation_middle. simpl. by rewrite <- app_assoc.
Qed.

Lemma rtree_plug_app c1 c2 t : plug (c1 ++ c2) t = plug c2 (plug c1 t).
Proof. revert t. induction c1 as [|[[b a] s] c1 IH]; intros t; simpl; [done|apply IH]. Qed.

Lemma ctx_steps c (f : step) : f ∈ c -> f.1.2 ∈ ctx_nodes c.
Proof.
  induction c as [|[[b a] s] c IH]; [by intros ?%not_elem_of_nil|].
  intros [->|Hf]%elem_of_cons; cbn [ctx_nodes]; [by left|right]. apply elem_of_app. right. by apply IH.
Qed.

Lemma nodes_root t : t <> E -> root t ∈ nodes t.
Proof. destruct t; [done|]. intros _. by left. Qed.

(** A node of a tree, in its context *)
Lemma nodes_split a t : a ∈ nodes t -> exists c l r, t = plug c (T l a r).
Proof.
  induction t as [|l IHl b r IHr]; cbn [nodes]; [by intros ?%not_elem_of_nil|].
  intros [->|[H|H]%elem_of_app]%elem_of_cons.
  - by exists [], l, r.
  - destruct (IHl H) as (c & l' & r' & ->). exists (c ++ [(false, b, r)]), l', r'. by rewrite rtree_plug_app.
  - destruct (IHr H) as (c & l' & r' & ->). exists (c ++ [(true, b, l)]), l', r'. by rewrite rtree_plug_app.
Qed.

(** ** Networks *)

(** [q] has [p] as a proper initial segment, and [b] as the bit after it. *)
Definition below (p : list bool) (b : bool) (q : list bool) : Prop := exists k, q = p ++ b :: k.

Lemma below_prefix p b q : below p b q -> p `prefix_of` q.
Proof. intros [k ->]. by apply prefix_app_r. Qed.
Lemma below_length p b q : below p b q -> (length p < length q)%nat.
Proof. intros [k ->]. rewrite length_app. simpl. lia. Qed.
Lemma below_extend p b q q' : below p b q -> q `prefix_of` q' -> below p b q'.
Proof. intros [k ->] [k' ->]. exists (k ++ k'). by rewrite <- app_assoc. Qed.
Lemma below_bit p b b' q : below p b q -> below p b' q -> b = b'.
Proof. intros [k ->] [k' E]. by apply (inj (app p)) in E as [= ? _]. Qed.
Lemma below_both p b b' q q' : below p b q -> below p b' q' -> q `prefix_of` q' -> b = b'.
Proof. intros H1 H2 H. by apply (below_bit p b b' q'); [eapply below_extend|]. Qed.

Lemma prefix_below p q : p `prefix_of` q -> length p <> length q -> exists b, below p b q.
Proof. intros [[|b k] ->] H; [by rewrite app_nil_r in H|]. exists b. by exists k. Qed.

Lemma below_lookup p b q : below p b q <-> p `prefix_of` q /\ q !! length p = Some b.
Proof.
  split.
  - intros [k ->]. split; [by apply prefix_app_r|]. by apply list_lookup_middle.
  - intros [[k ->] H]. rewrite lookup_app_r, Nat.sub_diag in H by done. destruct k as [|b' k]; [done|].
    injection H as ->. by exists k.
Qed.

(** Two networks that do not contain each other branch off. *)
Lemma branch p q :
  ~ p `prefix_of` q -> ~ q `prefix_of` p -> exists m b, below m b p /\ below m (negb b) q.
Proof.
  revert q. induction p as [|x p IH]; intros q Hp Hq; [by destruct Hp; apply prefix_nil|].
  destruct q as [|y q]; [by destruct Hq; apply prefix_nil|].
  destruct (decide (x = y)) as [->|Hne].
  - destruct (IH q) as (m & b & [k1 ->] & [k2 ->]).
    + intros H. by apply Hp, prefix_cons.
    + intros H. by apply Hq, prefix_cons.
    + exists (y :: m), b. by split; eexists.
  - exists [], x. split; [by exists p|]. exists q. by destruct x, y.
Qed.

Section keyed.
Context (key : Z -> list bool).

Fixpoint routed t : Prop :=
  match t with
  | E => True
  | T l a r =>
      Forall (fun x => below (key a) false (key x)) (nodes l) /\
      Forall (fun x => below (key a) true (key x)) (nodes r) /\ routed l /\ routed r
  end.

Lemma routed_join b a t s :
  routed (join b a t s) <->
  Forall (fun x => below (key a) b (key x)) (nodes t) /\
  Forall (fun x => below (key a) (negb b) (key x)) (nodes s) /\ routed t /\ routed s.
Proof. destruct b; simpl; tauto. Qed.

(** The network [q] is where the way leads. *)
Definition leads c (q : list bool) : Prop := Forall (fun f => below (key f.1.2) f.1.1 q) c.

Fixpoint ctx_routed c : Prop :=
  match c with
  | [] => True
  | (b, a, s) :: c =>
      Forall (fun x => below (key a) (negb b) (key x)) (nodes s) /\ routed s /\
      leads c (key a) /\ Forall (leads c ∘ key) (nodes s) /\ ctx_routed c
  end.

Lemma leads_extend c q q' : leads c q -> q `prefix_of` q' -> leads c q'.
Proof.
  intros H Hp. eapply Forall_impl; [exact H|]. intros f Hf. exact (below_extend _ _ _ _ Hf Hp).
Qed.

Lemma routed_plug c t :
  routed (plug c t) <-> ctx_routed c /\ Forall (leads c ∘ key) (nodes t) /\ routed t.
Proof.
  revert t. induction c as [|[[b a] s] c IH]; intros t; simpl.
  { split; [|tauto]. intros H. split; [done|]. split; [|done]. apply Forall_forall. intros x _. constructor. }
  rewrite IH, routed_join, nodes_join, Forall_cons, Forall_app. simpl.
  assert (Hl : forall x, leads ((b, a, s) :: c) (key x) <-> below (key a) b (key x) /\ leads c (key x)).
  { intros x. unfold leads. by rewrite Forall_cons. }
  rewrite !Forall_forall. setoid_rewrite Hl. naive_solver.
Qed.

Lemma routed_root_prefix t x : routed t -> x ∈ nodes t -> key (root t) `prefix_of` key x.
Proof.
  destruct t as [|l a r]; [by intros _ ?%not_elem_of_nil|]. cbn [routed nodes root].
  intros (Hl & Hr & _) [->|[H|H]%elem_of_app]%elem_of_cons; [done|..].
  - rewrite Forall_forall in Hl. by eapply below_prefix, Hl.
  - rewrite Forall_forall in Hr. by eapply below_prefix, Hr.
Qed.

(** Networks are distinct. *)
Lemma routed_inj t x y : routed t -> x ∈ nodes t -> y ∈ nodes t -> key x = key y -> x = y.
Proof.
  assert (H0 : forall p b q, below p b q -> p <> q).
  { intros p b q H E. apply below_length in H. subst. lia. }
  induction t as [|l IHl a r IHr]; cbn [routed nodes]; [by intros _ ?%not_elem_of_nil|].
  intros (Hl & Hr & Hrl & Hrr) Hx Hy E. rewrite Forall_forall in Hl, Hr.
  apply elem_of_cons in Hx as [->|[Hx|Hx]%elem_of_app]; apply elem_of_cons in Hy as [->|[Hy|Hy]%elem_of_app].
  all: try done; try by exfalso; eapply H0; [by eapply Hl|]; done.
  all: try by exfalso; eapply H0; [by eapply Hr|]; done.
  - by apply IHl.
  - exfalso. apply Hl in Hx. apply Hr in Hy. rewrite E in Hx. by pose proof (below_bit _ _ _ _ Hx Hy).
  - exfalso. apply Hr in Hx. apply Hl in Hy. rewrite E in Hx. by pose proof (below_bit _ _ _ _ Hx Hy).
  - by apply IHr.
Qed.

(** ** Searching *)

(** The way down to the network [q], from a position where it leads: to the
    node with the network, or to the first subtree whose root does not
    contain it *)
Fixpoint descend t c (q : list bool) : list step * rtree :=
  match t with
  | E => (c, E)
  | T l a r =>
      if decide (key a `prefix_of` q) then
        match (q !! length (key a) : option bool) with
        | None => (c, t)
        | Some b => if b then descend r ((true, a, l) :: c) q else descend l ((false, a, r) :: c) q
        end
      else (c, t)
  end.

Lemma descend_plug t c q : plug (descend t c q).1 (descend t c q).2 = plug c t.
Proof.
  revert c. induction t as [|l IHl a r IHr]; intros c; cbn [descend]; [done|].
  destruct (decide _); [|done]. destruct (q !! _) as [[]|]; [by rewrite IHr|by rewrite IHl|done].
Qed.

Lemma descend_leads t c q : leads c q -> leads (descend t c q).1 q.
Proof.
  revert c. induction t as [|l IHl a r IHr]; intros c Hc; cbn [descend]; [done|].
  destruct (decide _) as [Hp|]; [|done]. destruct (q !! _) as [[]|] eqn:Eq; [apply IHr|apply IHl|done].
  all: constructor; [by apply below_lookup|done].
Qed.

Lemma descend_end t c q :
  match (descend t c q).2 with E => True | T l a r => key a `prefix_of` q -> key a = q end.
Proof.
  revert c. induction t as [|l IHl a r IHr]; intros c; cbn [descend]; [done|].
  destruct (decide _) as [Hp|]; [|by cbn [snd]; intros]. destruct (q !! _) as [[]|] eqn:Eq; [apply IHr|apply IHl|].
  intros _. apply prefix_length_eq; [done|]. by apply lookup_ge_None in Eq.
Qed.

(** Where the way leads, the nodes whose networks contain [q] are on it. *)
Lemma leads_contain c q x t :
  routed (plug c t) -> leads c q -> x ∈ ctx_nodes c -> key x `prefix_of` q -> x ∈ (fun f : step => f.1.2) <$> c.
Proof.
  intros Ht Hq. apply routed_plug in Ht as (Hc & _ & _). induction c as [|[[b a] s] c IH]; cbn [ctx_nodes ctx_routed] in *.
  { by intros ?%not_elem_of_nil. }
  destruct Hc as (Hs & _ & _ & _ & Hc). apply Forall_cons in Hq as [Ha Hq].
  intros [->|[Hx|Hx]%elem_of_app]%elem_of_cons Hp; [by left| |right; by apply IH].
  exfalso. rewrite Forall_forall in Hs. apply Hs in Hx. simpl in Ha.
  pose proof (below_both _ _ _ _ _ Hx Ha Hp). by destruct b.
Qed.

(** If the network is in the tree, the way leads to its node. *)
Lemma descend_finds t q x :
  routed t -> x ∈ nodes t -> key x = q -> exists l r, (descend t [] q).2 = T l x r.
Proof.
  intros Ht Hx E. pose proof (descend_plug t [] q) as Hp. pose proof (descend_leads t [] q ltac:(constructor)) as Hl.
  pose proof (descend_end t [] q) as He. destruct (descend t [] q) as [c t'] eqn:Ed. cbn [fst snd plug] in *.
  rewrite <- Hp in Ht, Hx. rewrite nodes_plug in Hx. apply elem_of_app in Hx as [Hx|Hx].
  - destruct t' as [|l a r]; [by apply not_elem_of_nil in Hx|]. exists l, r. f_equal.
    apply routed_plug in Ht as (_ & _ & Ht). pose proof (routed_root_prefix _ _ Ht Hx) as H. cbn [root] in H.
    rewrite E in H. specialize (He H). symmetry. apply (routed_inj (T l a r)); [done|done|by left|congruence].
  - exfalso. apply (leads_contain c q x t') in Hx; [|done|done|by rewrite E].
    apply list_elem_of_fmap in Hx as (f & -> & Hf). unfold leads in Hl. rewrite Forall_forall in Hl.
    specialize (Hl f Hf). apply below_length in Hl. rewrite E in Hl. lia.
Qed.
End keyed.

(** Only the networks of the nodes matter. *)
Lemma routed_ext key key' t : (forall x, x ∈ nodes t -> key x = key' x) -> routed key t -> routed key' t.
Proof.
  induction t as [|l IHl a r IHr]; intros Hk; [done|]. cbn [routed nodes] in *.
  assert (Ha : key a = key' a) by (apply Hk; by left).
  assert (Hl : forall x, x ∈ nodes l -> key x = key' x) by (intros x Hx; apply Hk; right; set_solver).
  assert (Hr : forall x, x ∈ nodes r -> key x = key' x) by (intros x Hx; apply Hk; right; set_solver).
  intros (H1 & H2 & H3 & H4). split_and!; [| |by apply IHl|by apply IHr].
  - rewrite Forall_forall in *. intros x Hx. rewrite <- Ha, <- Hl; auto.
  - rewrite Forall_forall in *. intros x Hx. rewrite <- Ha, <- Hr; auto.
Qed.

(** ** The order of iteration

    A network comes before those it contains, and where two branch off, the
    one with the bit 0 comes first. *)
Fixpoint visit_cmp (p q : list bool) : Z :=
  match p, q with
  | [], [] => 0
  | [], _ :: _ => -1
  | _ :: _, [] => 1
  | b1 :: p, b2 :: q => if Bool.eqb b1 b2 then visit_cmp p q else if b1 then 1 else -1
  end.
Abbreviation visit_lt p q := (visit_cmp p q = -1).

Lemma visit_cmp_app m p q : visit_cmp (m ++ p) (m ++ q) = visit_cmp p q.
Proof. induction m as [|b m IH]; simpl; [done|]. by rewrite eqb_reflx. Qed.

Lemma visit_cmp_refl p : visit_cmp p p = 0.
Proof. rewrite <- (app_nil_r p). by rewrite visit_cmp_app. Qed.

Lemma visit_cmp_cases p q : visit_cmp p q = -1 \/ visit_cmp p q = 0 \/ visit_cmp p q = 1.
Proof.
  revert q. induction p as [|b p IH]; intros [|b' q]; simpl; auto. destruct (Bool.eqb b b'); [auto|].
  destruct b; auto.
Qed.

Lemma visit_cmp_sym p q : visit_cmp q p = - visit_cmp p q.
Proof.
  revert q. induction p as [|b p IH]; intros [|b' q]; simpl; try done. destruct b, b'; simpl; auto.
Qed.

Lemma visit_cmp_0 p q : visit_cmp p q = 0 -> p = q.
Proof.
  revert q. induction p as [|b p IH]; intros [|b' q]; simpl; try done.
  destruct (Bool.eqb_spec b b') as [->|]; [intros; f_equal; auto|by destruct b].
Qed.

Lemma visit_lt_trans p q q' : visit_lt p q -> visit_lt q q' -> visit_lt p q'.
Proof.
  revert q q'. induction p as [|b p IH]; intros [|b1 q] [|b2 q']; simpl; try done.
  destruct b, b1, b2; simpl; try done; eauto.
Qed.

Lemma visit_lt_prefix p q : p `prefix_of` q -> p <> q -> visit_lt p q.
Proof.
  intros [k ->] Hne. rewrite <- (app_nil_r p) at 1. rewrite visit_cmp_app. destruct k; [|done].
  by rewrite app_nil_r in Hne.
Qed.

Lemma visit_lt_below p b q : below p b q -> visit_lt p q.
Proof. intros H. apply visit_lt_prefix; [by eapply below_prefix|]. intros ->. apply below_length in H. lia. Qed.

Lemma visit_lt_branch m p q : below m false p -> below m true q -> visit_lt p q.
Proof. intros [k ->] [k' ->]. by rewrite visit_cmp_app. Qed.

(** ** The nodes in their order *)

(** What comes before a position, and after the subtree at it *)
Fixpoint pre c : list Z :=
  match c with [] => [] | (b, a, s) :: c => pre c ++ a :: (if b then nodes s else []) end.
Fixpoint post c : list Z :=
  match c with [] => [] | (b, _, s) :: c => (if b then [] else nodes s) ++ post c end.

Lemma nodes_order c t : nodes (plug c t) = pre c ++ nodes t ++ post c.
Proof.
  revert t. induction c as [|[[b a] s] c IH]; intros t; simpl; [by rewrite app_nil_r|].
  rewrite IH. destruct b; simpl; by rewrite <- !app_assoc; simpl; rewrite <- ?app_assoc.
Qed.

Lemma routed_sorted key t : routed key t -> StronglySorted (fun x y => visit_lt (key x) (key y)) (nodes t).
Proof.
  induction t as [|l IHl a r IHr]; cbn [routed nodes]; [constructor|]. intros (Hl & Hr & Hrl & Hrr).
  rewrite Forall_forall in Hl, Hr. constructor.
  - apply StronglySorted_app_2; [|auto..]. intros x y Hx Hy. eapply visit_lt_branch; [by apply Hl|by apply Hr].
  - apply Forall_app. split; apply Forall_forall; intros x Hx; eapply visit_lt_below; [by apply Hl|by apply Hr].
Qed.
