(* ===== verification/RouteKey.v ===== *)
(** * The prefixes of route tables

    The prefixes of the nodes are those of one family, IPv4 or IPv6, with no
    host bits.  Here are the laws of the hash table of the nodes, and what
    the functions on prefixes of table.c give in terms of networks. *)

From S2P Require Import Prelude Thash ThashSet FrrPrefix FrrPrefixBits FrrPrefixSpec RouteTable RouteTree.

#[local] Open Scope Z_scope.

Record good (fam : family) (p : prefix) : Prop := {
  gd_wf : prefix_wf p;
  gd_family : p_family p = fam;
  gd_masked : masked p;
  gd_maskable : maskable p
}.

Lemma good_fits fam p : good fam p -> fits p.
Proof. intros H. apply maskable_fits, (gd_maskable _ _ H). Qed.

Lemma good_len fam p : good fam p -> 0 <= prefixlen p <= 128.
Proof. intros [Hw _ _ [[_ ?]|[_ ?]]]; pose proof (pw_len p Hw); lia. Qed.

Lemma good_net_len fam p : good fam p -> prefixlen p = Z.of_nat (length (net p)).
Proof. intros H. symmetry. apply length_net, H. Qed.

Definition same_net (p q : prefix) : bool := bool_decide (net p = net q).
Definition hash_value (p : prefix) : Z := match prefix_hash_key p with Ret v => v | _ => 0 end.

#[export] Instance route_laws fam : HashLaws rn_hash_node (good fam).
Proof.
  refine {| hv := hash_value; eqk := same_net |}; unfold hash_value, same_net.
  - intros k Hk. cbn [hashfn rn_hash_node].
    rewrite prefix_hash_key_eq; [|apply Hk|by eapply good_fits]. split; [done|apply jhash_bound].
  - intros p q Hp Hq. cbn [cmpfn rn_hash_node].
    pose proof (prefix_cmp_0 p q (gd_wf _ _ Hp) (gd_wf _ _ Hq)) as H0.
    rewrite (gd_family _ _ Hp), (gd_family _ _ Hq) in H0.
    rewrite prefix_cmp_eq in * by (apply Hp || apply Hq). eexists. split; [done|].
    rewrite (inj_iff Ret) in H0. symmetry.
    case_bool_decide as E; [apply Z.eqb_eq, H0; done|apply Z.eqb_neq]. intros H. by apply E, H0.
  - intros p q Hp Hq E%bool_decide_eq_true. f_equal.
    rewrite (prefix_hash_key_net p q); try done; try apply Hp; try apply Hq; [by eapply good_fits|].
    by rewrite (gd_family _ _ Hp), (gd_family _ _ Hq).
Defined.

(** ** Bits *)
Lemma net_lookup p i : prefix_wf p -> (i < length (net p))%nat -> net p !! i = abits (u p) !! i.
Proof. intros Hp Hi. unfold net in *. rewrite length_take in Hi. apply lookup_take_lt. lia. Qed.

Lemma bit_of_eq p i b :
  prefix_wf p -> net p !! i = Some b -> bit_of p (Z.of_nat i) = Ret b.
Proof.
  intros Hp Hb. unfold bit_of. apply lookup_lt_Some in Hb as Hi. rewrite net_lookup in Hb by done.
  rewrite (prefix_bit_eq _ _ b); [by destruct b|lia|by rewrite Nat2Z.id].
Qed.

Lemma bit_below p q b : prefix_wf q -> below p b (net q) -> bit_of q (Z.of_nat (length p)) = Ret b.
Proof. intros Hq [_ Hb]%below_lookup. by apply bit_of_eq. Qed.

(** ** The key of a search *)
Lemma search_key_eq fam stack p :
  Forall is_byte stack -> length stack = 40%nat -> prefix_wf p -> p_family p = fam -> maskable p ->
  exists q, search_key stack p = Ret q /\ good fam q /\ net q = net p.
Proof.
  intros Hs Hl Hp Hf Hm. unfold search_key.
  destruct (prefix_copy_net (Prefix AF_UNSPEC 0 stack) p) as (q & -> & Hq & Ef & El & En & _);
    [by split|done|by apply maskable_fits|].
  assert (Hmq : maskable q) by (unfold maskable in *; by rewrite Ef, El).
  destruct (apply_mask_eq q Hq Hmq) as (q' & E & Hw & Ef' & El' & En' & Hmask).
  exists q'. split; [exact E|]. split; [|by rewrite En'].
  split; [done|by rewrite Ef', Ef|done|]. unfold maskable in *. by rewrite Ef', El'.
Qed.

(** ** Common prefixes *)
Lemma common_take d l1 l2 : common l1 (take d l2) = Nat.min d (common l1 l2).
Proof.
  revert d l2. induction l1 as [|b l1 IH]; intros d [|b' l2]; destruct d; simpl; try done; try lia.
  destruct (Bool.eqb b b'); [|done]. by rewrite IH.
Qed.

Lemma common_differ a b l1 l2 : length a = length b -> a <> b -> common (a ++ l1) (b ++ l2) = common a b.
Proof.
  revert b. induction a as [|x a IH]; intros [|y b]; simpl; [done|done|done|]. intros [= E] Hne.
  destruct (Bool.eqb_spec x y) as [->|]; [|done]. rewrite IH; [done|done|congruence].
Qed.

Lemma common_le l1 l2 : (common l1 l2 <= length l1)%nat /\ (common l1 l2 <= length l2)%nat.
Proof.
  revert l2. induction l1 as [|x l1 IH]; intros [|y l2]; simpl; [lia..|].
  destruct (Bool.eqb x y); [specialize (IH l2)|]; lia.
Qed.

Lemma common_below m b p q : below m b p -> below m (negb b) q -> common p q = length m.
Proof. intros [k1 ->] [k2 ->]. rewrite common_app. destruct b; simpl; lia. Qed.

Lemma common_prefix_of p q : q `prefix_of` p -> common p q = length q.
Proof.
  intros [k ->]. rewrite <- (app_nil_r q) at 2. rewrite common_app. by destruct k; rewrite Nat.add_0_r.
Qed.

(** Bits after the network do not matter if it is left. *)
Lemma common_net n q : ~ net n `prefix_of` q -> common (abits (u n)) q = common (net n) q.
Proof.
  intros Hn. rewrite <- (take_drop (Z.to_nat (prefixlen n)) (abits (u n))). fold (net n).
  generalize (drop (Z.to_nat (prefixlen n)) (abits (u n))) as r. revert q Hn. generalize (net n) as l.
  induction l as [|x l IH]; intros [|y q] Hn r; simpl; [by destruct Hn|by destruct Hn; apply prefix_nil|done|].
  destruct (Bool.eqb_spec x y) as [->|]; [|done]. rewrite IH; [done|]. intros H. by apply Hn, prefix_cons.
Qed.

Lemma common_bytes_eq np pp newp pos n :
  (pos + n <= length np)%nat -> (pos + n <= length pp)%nat -> (pos + n <= length newp)%nat ->
  exists k, (k <= n)%nat /\
    common_bytes np pp newp (Z.of_nat pos) n =
      Ret (Z.of_nat (pos + k), take pos newp ++ take k (drop pos np) ++ drop (pos + k) newp) /\
    take k (drop pos np) = take k (drop pos pp) /\
    ((k < n)%nat -> np !! (pos + k)%nat <> pp !! (pos + k)%nat).
Proof.
  revert pos newp. induction n as [|n IH]; intros pos newp H1 H2 H3; cbn [common_bytes].
  { exists 0%nat. rewrite Nat.add_0_r, !take_0. cbn [app]. rewrite take_drop. split_and!; [lia|done|done|lia]. }
  destruct (lookup_lt_is_Some_2 np pos) as [x Ex]; [lia|].
  destruct (lookup_lt_is_Some_2 pp pos) as [y Ey]; [lia|].
  rewrite (byte_lookup _ _ _ Ex), (byte_lookup _ _ _ Ey). cbn [mbind res_bind].
  destruct (Z.eqb_spec x y) as [->|Hne].
  - rewrite lookup_write_bytes by (simpl; lia). cbn [mbind res_bind length app].
    set (newp' := take pos newp ++ y :: drop (pos + 1) newp).
    assert (Hl : length newp' = length newp).
    { unfold newp'. rewrite length_app, length_take. simpl. rewrite length_drop. lia. }
    destruct (IH (S pos) newp') as (k & Hk & E & Ht & Hd); [lia..|].
    exists (S k). replace (Z.of_nat pos + 1) with (Z.of_nat (S pos)) by lia. rewrite E.
    rewrite (drop_S _ _ _ Ex), (drop_S _ _ _ Ey), !firstn_cons, Nat.add_succ_r. split_and!; [lia| |by rewrite Ht|].
    + do 2 f_equal.
      assert (Eq : take (S pos) newp' = take pos newp ++ [y]).
      { unfold newp'. rewrite take_app, length_take, Nat.min_l by lia. rewrite take_take, Nat.min_r by lia.
        by replace (S pos - pos)%nat with 1%nat by lia. }
      rewrite Eq, <- app_assoc. cbn [app]. do 3 f_equal. unfold newp'.
      rewrite drop_app, length_take, Nat.min_l by lia. rewrite (drop_ge (take pos newp)) by (rewrite length_take; lia).
      replace (S pos + k - pos)%nat with (S k) by lia. cbn [app]. rewrite skipn_cons, drop_drop. f_equal. lia.
    + intros Hlt. apply Hd. lia.
  - exists 0%nat. rewrite Nat.add_0_r, !take_0. cbn [app]. rewrite take_drop.
    split_and!; [lia|done|done|]. rewrite Ex, Ey. congruence.
Qed.

(** The loop over the bits of a byte *)
Lemma common_mask_base fuel mask diff b len plen :
  0 <= b -> 0 <= len -> b + plen < 2 ^ 16 ->
  common_mask fuel mask diff (b + len) (b + plen) =
    match common_mask fuel mask diff len plen with Ret v => Ret (b + v) | r => r end.
Proof.
  intros Hb. revert mask len. induction fuel as [|fuel IH]; intros mask len Hl Hp; cbn [common_mask]; [done|].
  replace (b + len <? b + plen) with (len <? plen) by lia.
  destruct (Z.ltb_spec len plen); cbn [andb]; [|done]. destruct (_ =? 0); [|done].
  rewrite !(wrap_small 16) by lia. rewrite <- Z.add_assoc. apply IH; lia.
Qed.

Definition mask_ok (diff d : Z) : bool :=
  if (diff =? 0) && negb (d <? 8) then true
  else match common_mask 9 128 diff 0 d with Ret v => v =? Z.min (first_bit diff 0 8) d | _ => false end.

Lemma common_mask_eq diff d :
  is_byte diff -> 0 <= d <= 128 -> diff <> 0 \/ d < 8 ->
  common_mask 9 128 diff 0 d = Ret (Z.min (first_bit diff 0 8) d).
Proof.
  intros Hdiff Hd Hor.
  pose proof (forall_bytes (fun diff => forallb (mask_ok diff) (seqZ 0 129))
    ltac:(vm_cast_no_check (eq_refl true)) diff Hdiff) as H. cbv beta in H.
  pose proof (forallb_seqZ _ _ H d ltac:(lia)) as H'. unfold mask_ok in H'.
  destruct (Z.eqb_spec diff 0), (Z.ltb_spec d 8); cbn [andb negb] in H'; try lia;
    (case_match; [by apply Z.eqb_eq in H' as ->|done..]).
Qed.

Lemma abits_split bs k x :
  bs !! k = Some x -> abits bs = abits (take k bs) ++ bits8 x ++ abits (drop (S k) bs).
Proof. intros Hx. by rewrite <- (take_drop_middle bs k x Hx) at 1; rewrite abits_app, abits_cons. Qed.

Lemma take_common l1 l2 : take (common l1 l2) l1 = take (common l1 l2) l2.
Proof.
  revert l2. induction l1 as [|x l1 IH]; intros [|y l2]; simpl; try done.
  destruct (Bool.eqb_spec x y) as [->|]; [|done]. simpl. by rewrite IH.
Qed.

Lemma first_bit_bits x y :
  is_byte x -> is_byte y -> first_bit (Z.lxor x y) 0 8 = Z.of_nat (common (bits8 x) (bits8 y)).
Proof.
  intros Hx Hy. destruct (decide (x = y)) as [->|Hne]; [|by apply first_bit_common].
  by rewrite Z.lxor_nilpotent, common_self, length_bits8.
Qed.

Lemma lxor_byte x y : is_byte x -> is_byte y -> is_byte (Z.lxor x y).
Proof. intros Hx Hy. apply (lxor_width 8); [done|exact Hx|exact Hy]. Qed.

(** The bits two addresses share, when they share [k] bytes *)
Lemma common_split bs1 bs2 k x y d :
  is_byte x -> is_byte y -> bs1 !! k = Some x -> bs2 !! k = Some y -> take k bs1 = take k bs2 -> x <> y \/ (d < 8)%nat ->
  common (abits bs1) (take (8 * k + d) (abits bs2)) = (8 * k + Nat.min (common (bits8 x) (bits8 y)) d)%nat.
Proof.
  intros Bx By Hx Hy Ht Hd. rewrite (abits_split _ _ _ Hx), (abits_split _ _ _ Hy), <- Ht.
  assert (Hl : length (abits (take k bs1)) = (8 * k)%nat).
  { rewrite length_abits, length_take. apply lookup_lt_Some in Hx. lia. }
  rewrite take_app, Hl, (take_ge (abits (take k bs1))) by lia. replace (8 * k + d - 8 * k)%nat with d by lia.
  rewrite common_app, Hl, common_take. f_equal. rewrite Nat.min_comm.
  destruct (decide (x = y)) as [->|Hne].
  - rewrite common_app, common_self, length_bits8. lia.
  - rewrite common_differ; [lia|done|]. intros E. by apply Hne, bits8_inj.
Qed.

Lemma route_common_eq n p new :
  prefix_wf n -> prefix_wf p -> prefix_wf new -> prefixlen p <= 128 ->
  exists c, route_common n p new = Ret c /\ prefix_wf c /\ p_family c = p_family new /\ masked c /\
    net c = take (common (abits (u n)) (net p)) (net p) /\
    prefixlen c = Z.of_nat (common (abits (u n)) (net p)).
Proof.
  intros Hn Hp Hw Hle. pose proof (pw_size n Hn) as Ln. pose proof (pw_size p Hp) as Lp.
  pose proof (pw_size new Hw) as Lw.
  destruct (prefix_wf_split p Hp) as (o & s & b & El & Hs & Eo & _ & Hdiv & _).
  unfold route_common. rewrite Hdiv, Nat2Z.id.
  destruct (common_bytes_eq (u n) (u p) (u new) 0 o) as (k & Hk & E & Ht & Hd); [lia..|].
  change (Z.of_nat 0) with 0 in E. rewrite !drop_0, take_0 in *. cbn [app] in E. rewrite E. cbn [mbind res_bind].
  rewrite !Nat.add_0_l in *. rewrite (wrap_small 16) by lia.
  destruct (lookup_lt_is_Some_2 (u n) k) as [x Ex]; [lia|].
  destruct (lookup_lt_is_Some_2 (u p) k) as [y Ey]; [lia|].
  pose proof (proj1 (Forall_lookup _ _) (pw_bytes n Hn) _ _ Ex) as Hx. simpl in Hx.
  pose proof (proj1 (Forall_lookup _ _) (pw_bytes p Hp) _ _ Ey) as Hy. simpl in Hy.
  set (d := (8 * o + s - 8 * k)%nat).
  assert (Hor : x <> y \/ (d < 8)%nat).
  { destruct (decide (k = o)) as [->|]; [right; lia|left]. specialize (Hd ltac:(lia)). rewrite Ex, Ey in Hd. congruence. }
  assert (En : net p = take (8 * k + d) (abits (u p))) by (unfold net; f_equal; lia).
  set (c := common (abits (u n)) (net p)).
  assert (Ec : c = (8 * k + Nat.min (common (bits8 x) (bits8 y)) d)%nat).
  { unfold c. rewrite En. by apply common_split. }
  assert (Hc8 : x <> y -> (common (bits8 x) (bits8 y) < 8)%nat) by (intros; by apply first_bit_common).
  assert (Hfin : forall new', p_family new' = p_family new -> prefixlen new' = Z.of_nat c ->
    u new' = take k (u n) ++ Z.land x (nth (c - 8 * k) maskbits 0) :: drop (k + 1) (u new) ->
    prefix_wf new' /\ p_family new' = p_family new /\ masked new' /\ net new' = take c (net p) /\
    prefixlen new' = Z.of_nat c).
  { intros new' Ef Epl Eu.
    destruct (cleared_masked (Prefix (p_family new) (Z.of_nat c) (u n)) new' k (c - 8 * k) x (drop (k + 1) (u new)))
      as (H1 & _ & _ & H4 & H5); try done; cbn [prefixlen u p_family].
    - split; [apply Hn|done|]. cbn [prefixlen]. lia.
    - lia.
    - lia.
    - apply Forall_drop, Hw.
    - rewrite length_drop. lia.
    - split_and!; [done..| |done]. rewrite H4. unfold net at 1. cbn [prefixlen u]. rewrite Nat2Z.id.
      apply take_common. }
  destruct (Z.eqb_spec (Z.of_nat k * 8) (prefixlen p)) as [Eq|Ne]; cbn [negb].
  - assert (Ed : d = 0%nat) by lia. assert (Ec' : c = (8 * k)%nat) by lia.
    eexists. split; [done|]. cbn [p_family prefixlen]. rewrite Ec'.
    assert (Hnet : net (Prefix (p_family new) (Z.of_nat k * 8) (take k (u n) ++ drop k (u new))) = net p).
    { unfold net at 1. cbn [prefixlen u]. replace (Z.to_nat _) with (8 * k)%nat by lia.
      rewrite take_app_abits by (rewrite length_take; lia). rewrite take_abits_take, take_take, Nat.min_id, Ht.
      rewrite En, Ed, Nat.add_0_r. by rewrite take_abits_take. }
    assert (Hwf : prefix_wf (Prefix (p_family new) (Z.of_nat k * 8) (take k (u n) ++ drop k (u new)))).
    { split; cbn [u prefixlen]; [|rewrite length_app, length_take, length_drop; lia|lia].
      apply Forall_app. split; [apply Forall_take, Hn|apply Forall_drop, Hw]. }
    split_and!; [done|done| | |lia].
    + apply full_masked; [done|]. cbn [prefixlen]. apply Z_mod_mult.
    + rewrite Hnet, take_ge; [done|]. rewrite En, Ed, length_take. lia.
  - rewrite (byte_lookup _ _ _ Ex), (byte_lookup _ _ _ Ey). cbn [mbind res_bind].
    assert (Hbase := common_mask_base 9 128 (Z.lxor x y) (Z.of_nat k * 8) 0 (Z.of_nat d) ltac:(lia) ltac:(lia) ltac:(lia)).
    rewrite Z.add_0_r in Hbase. replace (Z.of_nat k * 8 + Z.of_nat d) with (prefixlen p) in Hbase by lia.
    rewrite Hbase, common_mask_eq; [|by apply lxor_byte|lia|].
    2: { destruct Hor as [Hne|]; [left|right; lia]. intros E0%Z.lxor_eq. done. }
    rewrite first_bit_bits by done. cbn [mbind res_bind].
    replace (Z.of_nat k * 8 + _) with (Z.of_nat c) by lia.
    assert (Hc' : (c - 8 * k < 8)%nat) by (destruct (decide (x = y)) as [|Hne]; [destruct Hor; [done|lia]|specialize (Hc8 Hne); lia]).
    replace (Z.of_nat c mod 8) with (Z.of_nat (c - 8 * k)).
    2: { replace (Z.of_nat c) with (Z.of_nat (c - 8 * k) + Z.of_nat k * 8) by lia. rewrite Z_mod_plus_full, Z.mod_small; lia. }
    rewrite maskbit_nth by lia. cbn [mbind res_bind].
    rewrite lookup_write_bytes by (rewrite length_app, length_take, length_drop; simpl; lia). cbn [mbind res_bind length].
    eexists. split; [done|]. apply Hfin; cbn [p_family prefixlen u]; [done|done|].
    rewrite take_app, length_take, Nat.min_l by lia. rewrite take_take, Nat.min_id, Nat.sub_diag, take_0, app_nil_r.
    cbn [app]. f_equal. f_equal. rewrite drop_app, length_take, Nat.min_l by lia.
    rewrite (drop_ge (take k (u n))) by (rewrite length_take; lia). replace (k + 1 - k)%nat with 1%nat by lia.
    cbn [app]. rewrite drop_drop. done.
Qed.

(** ** Where two networks part *)
Section parting.
Context (fam : family) (n p new : prefix).
Hypothesis Hn : prefix_wf n.
Hypothesis Hp : prefix_wf p.
Hypothesis Hnew : prefix_wf new.
Hypothesis Hlen : prefixlen p <= 128.

Lemma route_common_inside :
  net p `prefix_of` net n ->
  exists c, route_common n p new = Ret c /\ prefix_wf c /\ p_family c = p_family new /\ masked c /\ net c = net p.
Proof.
  intros Hpre. destruct (route_common_eq n p new Hn Hp Hnew Hlen) as (c & E & Hw & Ef & Hm & En & _).
  exists c. split_and!; [done..|]. rewrite En. apply take_ge.
  rewrite <- (take_drop (Z.to_nat (prefixlen n)) (abits (u n))). fold (net n). destruct Hpre as [k ->].
  rewrite <- app_assoc. rewrite common_prefix_of; [done|by apply prefix_app_r].
Qed.

Lemma route_common_branch m b :
  below m b (net n) -> below m (negb b) (net p) ->
  exists c, route_common n p new = Ret c /\ prefix_wf c /\ p_family c = p_family new /\ masked c /\
    net c = m /\ prefixlen c = Z.of_nat (length m).
Proof.
  intros H1 H2. destruct (route_common_eq n p new Hn Hp Hnew Hlen) as (c & E & Hw & Ef & Hm & En & El).
  assert (Hnp : ~ net n `prefix_of` net p).
  { intros H. pose proof (below_both _ _ _ _ _ H1 H2 H). by destruct b. }
  rewrite (common_net n _ Hnp), (common_below m b _ _ H1 H2) in *.
  exists c. split_and!; [done..| |done]. rewrite En. destruct H2 as [k ->]. by rewrite take_app_length.
Qed.
End parting.

Lemma iter_cmp_eq stack p1 p2 :
  Forall is_byte stack -> length stack = 40%nat -> prefix_wf p1 -> prefix_wf p2 ->
  prefixlen p1 <= 128 -> prefixlen p2 <= 128 ->
  route_table_prefix_iter_cmp stack p1 p2 = Ret (visit_cmp (net p1) (net p2)).
Proof.
  intros Hs Hl H1 H2 L1 L2. unfold route_table_prefix_iter_cmp.
  rewrite !prefix_match_eq by done. pose proof (length_net p1 H1) as N1. pose proof (length_net p2 H2) as N2.
  assert (Hpart : ~ net p1 `prefix_of` net p2 -> ~ net p2 `prefix_of` net p1 ->
    (common ← route_common p1 p2 (Prefix AF_UNSPEC 0 stack);
     if negb (prefixlen common <? prefixlen p1) then AssertFail
     else if negb (prefixlen common <? prefixlen p2) then AssertFail
     else
       b1 ← bit_of p1 (prefixlen common);
       b2 ← bit_of p2 (prefixlen common);
       if b1 : bool then if b2 : bool then AssertFail else Ret 1
       else if b2 : bool then Ret (-1) else AssertFail) = Ret (visit_cmp (net p1) (net p2))).
  { intros A B. destruct (branch _ _ A B) as (m & b & M1 & M2).
    destruct (route_common_branch p1 p2 (Prefix AF_UNSPEC 0 stack)) with (m := m) (b := b)
      as (c & E & _ & _ & _ & _ & El); [done|done|by split|done..|].
    rewrite E. cbn [mbind res_bind]. rewrite El, (bit_below m p1 b H1 M1), (bit_below m p2 (negb b) H2 M2). cbn [mbind res_bind].
    apply below_length in M1 as K1. apply below_length in M2 as K2.
    destruct (Z.ltb_spec (Z.of_nat (length m)) (prefixlen p1)); [|lia].
    destruct (Z.ltb_spec (Z.of_nat (length m)) (prefixlen p2)); [|lia]. cbn [negb].
    destruct M1 as [k1 ->], M2 as [k2 ->]. rewrite visit_cmp_app. by destruct b. }
  assert (Heq : length (net p1) = length (net p2) -> net p1 `prefix_of` net p2 -> net p1 = net p2).
  { intros El Hpre. apply prefix_length_eq; [done|lia]. }
  destruct (Z.leb_spec (prefixlen p1) (prefixlen p2)); cbn [mbind res_bind]; case_bool_decide as Hm; cbn [mbind res_bind].
  - destruct (Z.eqb_spec (prefixlen p1) (prefixlen p2)).
    + rewrite Heq; [by rewrite visit_cmp_refl|lia|done].
    + rewrite visit_lt_prefix; [done|done|]. intros E. rewrite E in N1. lia.
  - apply Hpart; [done|]. intros Hpre. apply prefix_length in Hpre as K. apply Hm.
    rewrite (prefix_length_eq _ _ Hpre); [done|lia].
  - rewrite visit_cmp_sym, visit_lt_prefix; [done|done|]. intros E. rewrite E in N2. lia.
  - apply Hpart; [|done]. intros Hpre%prefix_length. lia.
Qed.
