(* ===== verification/RouteHeap.v ===== *)
(** * Route tables in memory

    [ns] are the nodes of a table by their addresses; [table_wf] says that
    they form the tree [t], with its links in both directions, and are routed
    by their networks.  [table_at] is the table in memory: its fields, the
    nodes, and the hash table with all of them. *)

From iris.proofmode Require Import proofmode.
From S2P Require Import Prelude SepLogic Heap ThashSize Thash ThashResize ThashSet ThashIter FrrPrefix FrrPrefixBits RouteTable RouteTree RouteKey.

#[local] Open Scope Z_scope.

Implicit Types ns : gmap Z route_node.
Implicit Types t l r s : rtree.
Implicit Types c : list (bool * Z * rtree).

Definition keyof ns (a : Z) : prefix :=
  match ns !! a with Some n => rn_p n | None => Prefix AF_UNSPEC 0 [] end.
Definition netof ns (a : Z) : list bool := net (keyof ns a).
Definition links ns (a : Z) : option (Z * Z * Z) :=
  (fun n => (rn_parent n, l_left n, l_right n)) <$> ns !! a.

(** ** The links *)
Fixpoint linked ns (parent : Z) t : Prop :=
  match t with
  | E => True
  | T l a r => links ns a = Some (parent, root l, root r) /\ linked ns a l /\ linked ns a r
  end.

(** The links on the way up from a subtree with the root [child] *)
Fixpoint ctx_linked ns c (child : Z) : Prop :=
  match c with
  | [] => True
  | (b, a, s) :: c =>
      links ns a = Some (if b then (above c, root s, child) else (above c, child, root s)) /\
      linked ns a s /\ ctx_linked ns c a
  end.

Lemma linked_plug ns c t :
  linked ns 0 (plug c t) <-> ctx_linked ns c (root t) /\ linked ns (above c) t.
Proof.
  revert t. induction c as [|[[b a] s] c IH]; intros t; simpl; [tauto|].
  rewrite IH. destruct b; simpl; tauto.
Qed.

Lemma linked_ext ns ns' parent t :
  (forall a, a ∈ nodes t -> links ns' a = links ns a) -> linked ns parent t -> linked ns' parent t.
Proof.
  revert parent. induction t as [|l IHl a r IHr]; intros parent He; [done|]. cbn [linked nodes] in *.
  intros (E & Hl & Hr). split_and!.
  - rewrite He; [done|by left].
  - apply IHl; [|done]. intros x Hx. apply He. right. apply elem_of_app. by left.
  - apply IHr; [|done]. intros x Hx. apply He. right. apply elem_of_app. by right.
Qed.

Lemma ctx_linked_ext ns ns' c child :
  (forall a, a ∈ ctx_nodes c -> links ns' a = links ns a) -> ctx_linked ns c child -> ctx_linked ns' c child.
Proof.
  revert child. induction c as [|[[b a] s] c IH]; intros child He; [done|]. cbn [ctx_linked ctx_nodes] in *.
  intros (E & Hs & Hc). split_and!.
  - rewrite He; [done|by left].
  - eapply linked_ext; [|exact Hs]. intros x Hx. apply He. right. apply elem_of_app. by left.
  - apply IH; [|done]. intros x Hx. apply He. right. apply elem_of_app. by right.
Qed.

(** ** Well-formed tables *)
Record node_wf (fam : family) (rt : Z) (a : Z) (n : route_node) : Prop := {
  nw_nonnull : a <> 0;
  nw_table : rn_table n = rt;
  nw_good : good fam (rn_p n);
  nw_lock : 0 <= rn_lock n < 2 ^ 32
}.

Record table_wf (fam : family) (rt : Z) ns t : Prop := {
  tw_dom : forall a, a ∈ nodes t <-> a ∈ dom ns;
  tw_nodup : NoDup (nodes t);
  tw_links : linked ns 0 t;
  tw_routed : routed (netof ns) t;
  tw_nodes : map_Forall (node_wf fam rt) ns
}.

(** A node that nobody holds has nothing on it and two children. *)
Definition stub_ok (n : route_node) : Prop :=
  rn_lock n = 0 -> rn_info n = 0 /\ l_left n <> 0 /\ l_right n <> 0.
Definition stubs_ok ns : Prop := map_Forall (fun _ => stub_ok) ns.

Lemma keyof_eq ns a n : ns !! a = Some n -> keyof ns a = rn_p n.
Proof. unfold keyof. by intros ->. Qed.

Section facts.
Context (fam : family) (rt : Z) ns t (Hw : table_wf fam rt ns t).

Lemma wf_size : size ns = length (nodes t).
Proof.
  rewrite -size_dom -(size_list_to_set (C := gset Z)); [|apply (tw_nodup _ _ _ _ Hw)].
  f_equal. apply set_eq. intros a. rewrite elem_of_list_to_set. symmetry. apply (tw_dom _ _ _ _ Hw).
Qed.

Lemma wf_lookup a : a ∈ nodes t -> exists n, ns !! a = Some n /\ node_wf fam rt a n.
Proof.
  intros Ha. apply (tw_dom _ _ _ _ Hw), elem_of_dom in Ha as [n Hn]. exists n. split; [done|].
  by apply (tw_nodes _ _ _ _ Hw).
Qed.

Lemma wf_root_nonnull t' c : t = plug c t' -> root t' = 0 -> t' = E.
Proof.
  intros Et H0. destruct t' as [|l a r]; [done|]. simpl in H0.
  destruct (wf_lookup a) as (n & _ & Hn); [|by destruct (nw_nonnull _ _ _ _ Hn)].
  rewrite Et nodes_plug. apply elem_of_app. left. by left.
Qed.

Lemma wf_subtree c l a r :
  t = plug c (T l a r) -> exists n, ns !! a = Some n /\ node_wf fam rt a n /\
    rn_parent n = above c /\ l_left n = root l /\ l_right n = root r.
Proof.
  intros E. destruct (wf_lookup a) as (n & Hn & Hwn).
  { rewrite E nodes_plug. apply elem_of_app. left. by left. }
  exists n. split_and!; try done; pose proof (tw_links _ _ _ _ Hw) as Hl; rewrite E linked_plug in Hl;
    destruct Hl as (_ & Hl & _); unfold links in Hl; rewrite Hn in Hl; by injection Hl as ? ? ?.
Qed.

Lemma wf_key_good a : a ∈ nodes t -> good fam (keyof ns a).
Proof. intros (n & Hn & Hwn)%wf_lookup. rewrite (keyof_eq _ _ _ Hn). apply (nw_good _ _ _ _ Hwn). Qed.
End facts.

Lemma netof_insert_ne ns a b n : a <> b -> netof (<[a := n]> ns) b = netof ns b.
Proof. intros H. unfold netof, keyof. by rewrite lookup_insert_ne. Qed.
Lemma netof_insert_eq ns a n : netof (<[a := n]> ns) a = net (rn_p n).
Proof. unfold netof, keyof. by rewrite lookup_insert_eq. Qed.
Lemma links_insert_ne ns a b n : a <> b -> links (<[a := n]> ns) b = links ns b.
Proof. intros H. unfold links. by rewrite lookup_insert_ne. Qed.
Lemma links_insert_eq ns a n : links (<[a := n]> ns) a = Some (rn_parent n, l_left n, l_right n).
Proof. unfold links. by rewrite lookup_insert_eq. Qed.

(** ** Changes of the lock or the information of a node *)
Definition same_place (n n' : route_node) : Prop :=
  rn_p n' = rn_p n /\ rn_table n' = rn_table n /\ rn_parent n' = rn_parent n /\
  l_left n' = l_left n /\ l_right n' = l_right n.

Lemma keyof_relabel ns a n n' x : ns !! a = Some n -> same_place n n' -> keyof (<[a := n']> ns) x = keyof ns x.
Proof.
  intros Hn (E & _). unfold keyof. destruct (decide (a = x)) as [->|Hne]; [by rewrite lookup_insert_eq Hn|].
  by rewrite lookup_insert_ne.
Qed.

Lemma links_relabel ns a n n' x : ns !! a = Some n -> same_place n n' -> links (<[a := n']> ns) x = links ns x.
Proof.
  intros Hn (_ & _ & E1 & E2 & E3). destruct (decide (a = x)) as [->|Hne]; [|by apply links_insert_ne].
  rewrite links_insert_eq /links Hn /=. congruence.
Qed.

Lemma dom_relabel ns a n n' : ns !! a = Some n -> dom (<[a := n']> ns) = (dom ns : gset Z).
Proof. intros Hn. apply leibniz_equiv, dom_insert_lookup. by exists n. Qed.

Lemma wf_relabel fam rt ns t a n n' :
  table_wf fam rt ns t -> ns !! a = Some n -> same_place n n' -> 0 <= rn_lock n' < 2 ^ 32 ->
  table_wf fam rt (<[a := n']> ns) t.
Proof.
  intros [Hd Hnd Hl Hr Hn] Ha Hs Hlock. split; [by rewrite (dom_relabel _ _ _ _ Ha)|done|..].
  - eapply linked_ext; [|exact Hl]. intros x _. by eapply links_relabel.
  - eapply routed_ext; [|exact Hr]. intros x _. unfold netof. by rewrite (keyof_relabel _ _ _ _ _ Ha Hs).
  - apply map_Forall_insert_2; [|done]. pose proof (Hn a n Ha) as [H1 H2 H3 H4].
    destruct Hs as (E1 & E2 & _). split; [done|by rewrite E2|by rewrite E1|done].
Qed.

(** ** Memory *)
Section heap.
Context (place : gmap Z (hcell rcell) -> Z -> Z) (fam : family).
Context `{!HashSpec rn_hash_node (good fam) same_net place}.
Abbreviation mem := (gmap Z (hcell rcell)).
Abbreviation hP := (hpropI (hcell rcell)).

Definition nodes_at ns : hP := ([∗ map] a ↦ n ∈ ns, a ↦ CUser (RNode n))%I.

Definition table_at (rt : Z) ns t : hP :=
  (∃ tbl, ⌜rt_top tbl = root t /\ rt_count tbl = Z.of_nat (size ns)⌝ ∧
    (rt ↦ CUser (RTable tbl) ∗ hs_rep (table_hash rt) (keyof ns) (dom ns) ∗ nodes_at ns))%I.

Lemma wp_read_node ns a n (Q : route_node -> hP) :
  ns !! a = Some n -> nodes_at ns -∗ (nodes_at ns -∗ Q n) -∗ wp (load_node a) Q.
Proof.
  intros Hn. iIntros "H HQ". unfold nodes_at.
  iDestruct (big_sepM_lookup_acc _ _ _ _ Hn with "H") as "[Ha Hback]".
  iApply wp_bind. iApply (wp_load with "Ha"). iIntros "Ha". iApply wp_ret. iApply "HQ". by iApply "Hback".
Qed.

Lemma wp_update_node ns a n f (Q : unit -> hP) :
  ns !! a = Some n -> nodes_at ns -∗ (nodes_at (<[a := f n]> ns) -∗ Q tt) -∗ wp (update_node a f) Q.
Proof.
  intros Hn. iIntros "H HQ". unfold update_node. iApply wp_bind. iApply (wp_read_node with "H"); [done|].
  iIntros "H". unfold nodes_at. iDestruct (big_sepM_insert_acc _ _ _ _ Hn with "H") as "[Ha Hback]".
  iApply (wp_store with "Ha"). iIntros "Ha". iApply "HQ". by iApply "Hback".
Qed.

Lemma wp_load_table rt tbl (Q : route_table -> hP) :
  rt ↦ CUser (RTable tbl) -∗ (rt ↦ CUser (RTable tbl) -∗ Q tbl) -∗ wp (load_table rt) Q.
Proof.
  iIntros "H HQ". iApply wp_bind. iApply (wp_load with "H"). iIntros "H". iApply wp_ret. by iApply "HQ".
Qed.

Lemma wp_update_table rt tbl f (Q : unit -> hP) :
  rt ↦ CUser (RTable tbl) -∗ (rt ↦ CUser (RTable (f tbl)) -∗ Q tt) -∗ wp (update_table rt f) Q.
Proof.
  iIntros "H HQ". iApply wp_bind. iApply (wp_load_table with "H"). iIntros "H". iApply (wp_store with "H HQ").
Qed.

Lemma nodes_read ns S : S ⊆ dom ns -> reads rn_hash_node (nodes_at ns) (keyof ns) S.
Proof.
  intros HS y Q Hy. apply HS, elem_of_dom in Hy as [n Hn]. iIntros "H HQ".
  unfold nodes_at. iDestruct (big_sepM_lookup_acc _ _ _ _ Hn with "H") as "[Ha Hback]".
  unfold load_key. iApply wp_bind. iApply (wp_load with "Ha"). iIntros "Ha". cbn [hash_key rn_hash_node].
  iApply wp_ret. rewrite (keyof_eq _ _ _ Hn). iApply "HQ". by iApply "Hback".
Qed.

Lemma nodes_at_least ns : nodes_at ns ⊢ at_least (size ns).
Proof.
  unfold nodes_at. induction ns as [|a n ns Ha IH] using map_ind.
  - rewrite map_size_empty. apply at_least_any.
  - rewrite big_sepM_insert // IH map_size_insert_None //. rewrite at_least_points_to. apply at_least_sep.
Qed.

(** The nodes may be read while the rest waits. *)
Lemma table_relabel rt ns t a n n' :
  ns !! a = Some n -> same_place n n' ->
  (∃ tbl, ⌜rt_top tbl = root t /\ rt_count tbl = Z.of_nat (size ns)⌝ ∧
    (rt ↦ CUser (RTable tbl) ∗ hs_rep (table_hash rt) (keyof ns) (dom ns) ∗ nodes_at (<[a := n']> ns))) ⊢
  table_at rt (<[a := n']> ns) t.
Proof.
  intros Ha Hs. iIntros "(%tbl & %E & Ht & Hh & Hn)". iExists tbl. iSplit.
  { iPureIntro. by rewrite map_size_insert_Some. }
  iFrame. rewrite (dom_relabel _ _ _ _ Ha). iApply (hs_ext with "Hh"). intros x _.
  by rewrite (keyof_relabel _ _ _ _ _ Ha Hs).
Qed.

Lemma wp_relabel rt ns t a n f (Q : unit -> hP) :
  ns !! a = Some n -> same_place n (f n) ->
  table_at rt ns t -∗ (table_at rt (<[a := f n]> ns) t -∗ Q tt) -∗ wp (update_node a f) Q.
Proof.
  intros Ha Hs. iIntros "(%tbl & %E & Ht & Hh & Hn) HQ". iApply (wp_update_node with "Hn"); [done|].
  iIntros "Hn". iApply "HQ". iApply (table_relabel _ _ _ _ _ _ Ha Hs). iExists tbl. iSplit; [done|]. iFrame.
Qed.

Lemma wp_load_table_node rt ns t a n (Q : route_node -> hP) :
  ns !! a = Some n -> table_at rt ns t -∗ (table_at rt ns t -∗ Q n) -∗ wp (load_node a) Q.
Proof.
  intros Ha. iIntros "(%tbl & %E & Ht & Hh & Hn) HQ". iApply (wp_read_node with "Hn"); [done|].
  iIntros "Hn". iApply "HQ". iExists tbl. iSplit; [done|]. iFrame.
Qed.

Definition locked (n : route_node) : route_node := set_lock (rn_lock n + 1) n.

Lemma wp_route_lock_node rt ns t a n (Q : Z -> hP) :
  ns !! a = Some n -> 0 <= rn_lock n < 2 ^ 32 - 1 ->
  table_at rt ns t -∗ (table_at rt (<[a := locked n]> ns) t -∗ Q a) -∗ wp (route_lock_node a) Q.
Proof.
  intros Ha Hl. iIntros "H HQ". unfold route_lock_node. iApply wp_bind.
  iApply (wp_relabel with "H"); [done|done|]. iIntros "H". iApply wp_ret.
  rewrite (wrap_small 32); [|lia]. by iApply "HQ".
Qed.
End heap.
