(* ===== verification/RouteSearch.v ===== *)
(** * Searching route tables

    The longest match and the exact match. *)

From iris.proofmode Require Import proofmode.
From S2P Require Import Prelude SepLogic Heap ThashSize Thash ThashResize ThashSet ThashIter FrrPrefix FrrPrefixBits RouteTable RouteTree RouteKey RouteHeap.

#[local] Open Scope Z_scope.

(** ** The longest match, on trees *)
Section longest.
Context (ns : gmap Z route_node).

Definition infoof (a : Z) : Z := match ns !! a with Some n => rn_info n | None => 0 end.

Fixpoint longest (t : rtree) (q : list bool) (best : Z) : Z :=
  match t with
  | E => best
  | T l a r =>
      if decide (netof ns a `prefix_of` q) then
        let best := if infoof a =? 0 then best else a in
        match (q !! length (netof ns a) : option bool) with
        | None => best
        | Some b => if b then longest r q best else longest l q best
        end
      else best
  end.

(** [a] is a node with information whose network contains [q]. *)
Definition matches (t : rtree) (q : list bool) (a : Z) : Prop :=
  a ∈ nodes t /\ infoof a <> 0 /\ netof ns a `prefix_of` q.

Lemma longest_spec t q best :
  routed (netof ns) t ->
  (longest t q best = best /\ forall x, ~ matches t q x) \/
  (matches t q (longest t q best) /\
   forall x, matches t q x -> netof ns x `prefix_of` netof ns (longest t q best)).
Proof.
  revert best. induction t as [|l IHl a r IHr]; intros best; cbn [routed longest].
  { left. split; [done|]. by intros x [?%not_elem_of_nil _]. }
  intros (Hl & Hr & Hrl & Hrr). rewrite !Forall_forall in Hl Hr.
  destruct (decide (netof ns a `prefix_of` q)) as [Hp|Hp].
  2: { left. split; [done|]. intros x (Hx & _ & Hq). apply Hp. etrans; [|exact Hq].
    apply (routed_root_prefix _ (T l a r)); [|done]. cbn [routed]. by rewrite !Forall_forall. }
  set (best' := if infoof a =? 0 then best else a).
  assert (Hstop : (forall x, matches (T l a r) q x -> x = a) ->
    (best' = best /\ forall x, ~ matches (T l a r) q x) \/
    (matches (T l a r) q best' /\ forall x, matches (T l a r) q x -> netof ns x `prefix_of` netof ns best')).
  { intros Hx. unfold best'. destruct (Z.eqb_spec (infoof a) 0) as [E0|E0].
    - left. split; [done|]. intros x Hm. pose proof (Hx x Hm) as ->. by destruct Hm as (_ & ? & _).
    - right. split; [split_and!; [by left|done|done]|]. intros x Hm. by rewrite (Hx x Hm). }
  destruct (q !! length (netof ns a)) as [b|] eqn:Eq.
  - assert (Hb : below (netof ns a) b q) by (apply below_lookup; done).
    set (t' := if b then r else l).
    assert (Hin : forall x, matches (T l a r) q x -> x = a \/ matches t' q x).
    { intros x (Hx & Hi & Hq). cbn [nodes] in Hx. rewrite elem_of_cons elem_of_app in Hx.
      destruct Hx as [->|[Hx|Hx]]; [by left|right..]; (split; [|done]); unfold t'.
      - pose proof (below_both _ _ _ _ _ (Hl x Hx) Hb Hq) as <-. done.
      - pose proof (below_both _ _ _ _ _ (Hr x Hx) Hb Hq) as <-. done. }
    assert (Hup : forall x, matches t' q x -> matches (T l a r) q x).
    { intros x (Hx & ?). split; [|done]. cbn [nodes]. rewrite elem_of_cons elem_of_app. right.
      unfold t' in Hx. destruct b; auto. }
    assert (Ha : forall x, matches t' q x -> netof ns a `prefix_of` netof ns x).
    { intros x (Hx & _ & _). unfold t' in Hx. destruct b; [apply Hr in Hx|apply Hl in Hx]; by eapply below_prefix. }
    assert (Eif : (if b then longest r q best' else longest l q best') = longest t' q best') by by destruct b.
    assert (IHt : (longest t' q best' = best' /\ forall x, ~ matches t' q x) \/
      (matches t' q (longest t' q best') /\
       forall x, matches t' q x -> netof ns x `prefix_of` netof ns (longest t' q best'))).
    { unfold t'. destruct b; [by apply IHr|by apply IHl]. }
    rewrite Eif. destruct IHt as [[E1 Hno]|[Hm Hmax]].
    + rewrite E1. apply Hstop. intros x Hx. destruct (Hin x Hx) as [|Hx']; [done|by destruct (Hno x)].
    + right. split; [by apply Hup|]. intros x Hx. destruct (Hin x Hx) as [->|Hx']; [by apply Ha|by apply Hmax].
  - apply Hstop. intros x (Hx & _ & Hq). cbn [nodes] in Hx. rewrite elem_of_cons elem_of_app in Hx.
    apply lookup_ge_None in Eq. apply prefix_length in Hq.
    destruct Hx as [->|[Hx|Hx]]; [done|apply Hl in Hx|apply Hr in Hx]; apply below_length in Hx; lia.
Qed.
End longest.

(** ** Tests on prefixes *)
Lemma contains_eq n p :
  prefix_wf n -> prefix_wf p ->
  (if prefixlen n <=? prefixlen p then prefix_match n p else Ret false) =
    Ret (bool_decide (net n `prefix_of` net p)).
Proof.
  intros Hn Hp. rewrite prefix_match_eq //. destruct (Z.leb_spec (prefixlen n) (prefixlen p)) as [|Hlt]; [done|].
  rewrite bool_decide_eq_false_2 //. intros Hpre%prefix_length.
  pose proof (length_net n Hn). pose proof (length_net p Hp). lia.
Qed.

Lemma same_length_eq n p :
  prefix_wf n -> prefix_wf p -> net n `prefix_of` net p ->
  (prefixlen n =? prefixlen p) = bool_decide (net n = net p) /\
  (net n = net p <-> net p !! length (net n) = None).
Proof.
  intros Hn Hp Hpre. pose proof (length_net n Hn). pose proof (length_net p Hp).
  assert (Heq : net n = net p <-> length (net n) = length (net p)).
  { split; [by intros ->|]. intros. apply prefix_length_eq; [done|lia]. }
  pose proof (prefix_length _ _ Hpre). split.
  - destruct (Z.eqb_spec (prefixlen n) (prefixlen p)); symmetry; [apply bool_decide_eq_true|apply bool_decide_eq_false];
      rewrite Heq; lia.
  - rewrite Heq lookup_ge_None. lia.
Qed.

Section search.
Context (place : gmap Z (hcell rcell) -> Z -> Z) (fam : family).
Context `{!HashSpec rn_hash_node (good fam) same_net place}.
Abbreviation hP := (hpropI (hcell rcell)).
Context (rt : Z).

Section walk.
Context (ns : gmap Z route_node) (t : rtree) (Hw : table_wf fam rt ns t) (p : prefix) (Hp : prefix_wf p).

Lemma wp_match_loop c t' fuel matched (Q : Z -> hP) :
  t = plug c t' -> (length (nodes t') < fuel)%nat ->
  table_at place fam rt ns t -∗ (table_at place fam rt ns t -∗ Q (longest ns t' (net p) matched)) -∗
  wp (match_loop fuel p (root t') matched) Q.
Proof.
  revert c t' matched. induction fuel as [|fuel IH]; intros c t' matched Et Hf; [lia|].
  cbn [match_loop]. iIntros "H HQ". destruct t' as [|l a r].
  { cbn [root]. rewrite Z.eqb_refl. iApply wp_ret. by iApply "HQ". }
  destruct (wf_subtree _ _ _ _ Hw c l a r Et) as (n & Hn & Hwn & _ & El & Er). cbn [root longest].
  destruct (Z.eqb_spec a 0) as [E0|_]; [by destruct (nw_nonnull _ _ _ _ Hwn)|].
  iApply wp_bind. iApply (wp_load_table_node with "H"); [done|]. iIntros "H".
  assert (Hnp : prefix_wf (rn_p n)) by apply (nw_good _ _ _ _ Hwn).
  iApply wp_bind. iApply wp_mlift; [by apply contains_eq|].
  assert (Enet : netof ns a = net (rn_p n)) by (by rewrite /netof (keyof_eq _ _ _ Hn)). rewrite Enet.
  assert (Einfo : infoof ns a = rn_info n) by by rewrite /infoof Hn. rewrite Einfo.
  destruct (decide (net (rn_p n) `prefix_of` net p)) as [Hpre|Hpre].
  2: { rewrite bool_decide_eq_false_2 //. iApply wp_ret. by iApply "HQ". }
  rewrite bool_decide_eq_true_2 //. cbn [negb].
  destruct (same_length_eq _ _ Hnp Hp Hpre) as [-> Hsame].
  assert (Eb : (if negb (rn_info n =? 0) then a else matched) = if rn_info n =? 0 then matched else a)
    by by destruct (rn_info n =? 0).
  destruct (net p !! length (net (rn_p n))) as [b|] eqn:Eq.
  - rewrite bool_decide_eq_false_2; [|by intros E%Hsame]. iApply wp_bind.
    iApply wp_mlift. { rewrite (good_net_len _ _ (nw_good _ _ _ _ Hwn)). by apply bit_of_eq. }
    rewrite Eb. assert (Elink : link b n = root (if b then r else l)) by (destruct b; [done|done]). rewrite Elink.
    assert (Hf' : (length (nodes (if b then r else l)) < fuel)%nat).
    { cbn [nodes] in Hf. simpl in Hf. rewrite length_app in Hf. destruct b; lia. }
    iApply (IH ((b, a, if b then l else r) :: c) with "H"); [by destruct b|done|]. destruct b; done.
  - rewrite bool_decide_eq_true_2; [|by apply Hsame]. iApply wp_ret. rewrite Eb. by iApply "HQ".
Qed.
End walk.

Lemma table_at_least ns t : table_at place fam rt ns t ⊢ at_least (size ns).
Proof.
  iIntros "(%tbl & _ & Ht & Hh & Hn)".
  iApply (at_least_frame _ (rt ↦ CUser (RTable tbl) ∗ hs_rep (table_hash rt) (keyof ns) (dom ns))%I _
    (nodes_at_least ns)). iFrame.
Qed.

Lemma wp_table_top ns t (Q : route_table -> hP) :
  table_at place fam rt ns t -∗
  (∀ tbl, ⌜rt_top tbl = root t /\ rt_count tbl = Z.of_nat (size ns)⌝ → table_at place fam rt ns t -∗ Q tbl) -∗
  wp (load_table rt) Q.
Proof.
  iIntros "(%tbl & %E & Ht & Hh & Hn) HQ". iApply (wp_load_table with "Ht"). iIntros "Ht".
  iApply ("HQ" with "[//]"). iExists tbl. iSplit; [done|]. iFrame.
Qed.

(** The outcome of a lock *)
Definition lock_of (ns : gmap Z route_node) (a : Z) : Z := match ns !! a with Some n => rn_lock n | None => 0 end.
Definition lockable (ns : gmap Z route_node) : Prop := map_Forall (fun _ n => rn_lock n < 2 ^ 32 - 1) ns.
Definition lock_node (ns : gmap Z route_node) (a : Z) : gmap Z route_node := alter locked a ns.

Lemma lock_node_eq ns a n : ns !! a = Some n -> lock_node ns a = <[a := locked n]> ns.
Proof.
  intros Hn. apply map_eq. intros x. unfold lock_node. destruct (decide (a = x)) as [->|Hne].
  - by rewrite lookup_alter_eq lookup_insert_eq Hn.
  - by rewrite lookup_alter_ne // lookup_insert_ne.
Qed.

Lemma wp_lock ns t a (Q : Z -> hP) :
  table_wf fam rt ns t -> lockable ns -> a ∈ nodes t ->
  table_at place fam rt ns t -∗
  (⌜table_wf fam rt (lock_node ns a) t⌝ → table_at place fam rt (lock_node ns a) t -∗ Q a) -∗
  wp (route_lock_node a) Q.
Proof.
  intros Hw Hl Ha. destruct (wf_lookup _ _ _ _ Hw a Ha) as (n & Hn & Hwn).
  pose proof (nw_lock _ _ _ _ Hwn). specialize (Hl a n Hn). simpl in Hl.
  iIntros "H HQ". iApply (wp_route_lock_node with "H"); [done|lia|]. iIntros "H".
  rewrite (lock_node_eq _ _ _ Hn). iApply ("HQ" with "[%] H").
  apply (wf_relabel _ _ _ _ _ n); [done|done|done|simpl; lia].
Qed.

(** [route_node_match]: the node with information whose network is the
    longest one that contains that of [p] *)
Lemma wp_route_node_match ns t p (Q : Z -> hP) :
  table_wf fam rt ns t -> lockable ns -> prefix_wf p ->
  table_at place fam rt ns t -∗
  (∀ r, (⌜r = 0 /\ forall x, ~ matches ns t (net p) x⌝ ∧ table_at place fam rt ns t) ∨
        (⌜matches ns t (net p) r /\ (forall x, matches ns t (net p) x -> netof ns x `prefix_of` netof ns r) /\
          table_wf fam rt (lock_node ns r) t⌝ ∧ table_at place fam rt (lock_node ns r) t) -∗ Q r) -∗
  wp (route_node_match rt p) Q.
Proof.
  intros Hw Hl Hp. iIntros "H HQ". unfold route_node_match.
  iApply wp_bind. iApply (wp_table_top with "H"). iIntros (tbl [Et _]) "H". rewrite Et.
  iApply wp_bind. iApply (wp_mem_fuel _ _ _ (table_at_least ns t) with "H"). iIntros (fuel Hf) "H".
  iApply wp_bind. iApply (wp_match_loop ns t Hw p Hp [] t with "H"); [done|rewrite -(wf_size _ _ _ _ Hw); lia|].
  iIntros "H". destruct (longest_spec ns t (net p) 0 (tw_routed _ _ _ _ Hw)) as [[-> Hno]|[Hm Hmax]].
  - iApply wp_ret. iApply "HQ". iLeft. iSplit; [done|]. iFrame.
  - destruct (wf_lookup _ _ _ _ Hw _ (proj1 Hm)) as (n & _ & Hwn).
    destruct (Z.eqb_spec (longest ns t (net p) 0) 0) as [E0|_]; [by destruct (nw_nonnull _ _ _ _ Hwn)|].
    cbn [negb]. iApply (wp_lock with "H"); [done|done|apply Hm|]. iIntros (Hw') "H". iApply "HQ".
    iRight. iSplit; [done|]. iFrame.
Qed.

(** ** Exact matches *)

(** What [rn_hash_node_find] gives for the prefix [q] *)
Definition exact ns t (q : list bool) (r : Z) : Prop :=
  r = 0 /\ (forall x, x ∈ nodes t -> netof ns x <> q) \/ r ∈ nodes t /\ netof ns r = q.

Context (stack : list Z) (Hstack : Forall is_byte stack) (Hlen : length stack = 40%nat).

(** A prefix a client may pass: of the family of the table, with any host
    bits *)
Record query (p : FrrPrefix.prefix) : Prop := {
  qr_wf : prefix_wf p;
  qr_family : p_family p = fam;
  qr_maskable : maskable p
}.

Lemma wp_exact ns t p (Q : Z -> hP) :
  table_wf fam rt ns t -> good fam p ->
  table_at place fam rt ns t -∗
  (∀ r, ⌜exact ns t (net p) r⌝ → table_at place fam rt ns t -∗ Q r) -∗
  wp (hash_find rn_hash_node (table_hash rt) p) Q.
Proof.
  intros Hw Hp. iIntros "(%tbl & %Et & Ht & Hh & Hn) HQ".
  iApply (hs_find _ _ (dom ns) (nodes_at ns) p with "Hh Hn"); [done|by apply nodes_read|].
  iIntros (r Hr) "Hh Hn". iApply ("HQ" with "[%]"); [|iExists tbl; by iFrame].
  unfold exact, netof. unfold same_net in Hr. setoid_rewrite (tw_dom _ _ _ _ Hw).
  destruct Hr as [[-> Hno]|[Hr Heq]]; [left|right].
  - split; [done|]. intros x Hx E. specialize (Hno x Hx). by rewrite E bool_decide_eq_true_2 in Hno.
  - split; [done|]. by apply bool_decide_eq_true in Heq.
Qed.

Lemma exact_nonnull ns t q r : table_wf fam rt ns t -> exact ns t q r -> r <> 0 -> r ∈ nodes t /\ netof ns r = q.
Proof. intros Hw [[-> _]|Hr]; done. Qed.

Lemma nodes_nonnull ns t a : table_wf fam rt ns t -> a ∈ nodes t -> a <> 0.
Proof. intros Hw (n & _ & Hn)%(wf_lookup _ _ _ _ Hw). apply (nw_nonnull _ _ _ _ Hn). Qed.

(** [route_node_lookup_maynull]: the node of the network, if there is one *)
Lemma wp_route_node_lookup_maynull ns t p (Q : Z -> hP) :
  table_wf fam rt ns t -> lockable ns -> query p ->
  table_at place fam rt ns t -∗
  (∀ r, (⌜r = 0 /\ forall x, x ∈ nodes t -> netof ns x <> net p⌝ ∧ table_at place fam rt ns t) ∨
        (⌜r ∈ nodes t /\ netof ns r = net p /\ table_wf fam rt (lock_node ns r) t⌝ ∧
          table_at place fam rt (lock_node ns r) t) -∗ Q r) -∗
  wp (route_node_lookup_maynull stack rt p) Q.
Proof.
  intros Hw Hl [Hp Hf Hm]. destruct (search_key_eq fam stack p) as (k & Ek & Hk & En); [done..|].
  iIntros "H HQ". iApply wp_bind. iApply wp_mlift; [exact Ek|].
  iApply wp_bind. iApply (wp_exact with "H"); [done..|]. iIntros (r Hr) "H". rewrite -En.
  destruct (Z.eqb_spec r 0) as [->|H0]; cbn [negb].
  - iApply wp_ret. iApply "HQ". iLeft. iSplit; [|done]. iPureIntro. split; [done|].
    destruct Hr as [[_ Hno]|[Hr _]]; [done|]. by destruct (nodes_nonnull _ _ _ Hw Hr).
  - destruct (exact_nonnull _ _ _ _ Hw Hr H0) as [Hin E]. iApply (wp_lock with "H"); [done..|].
    iIntros (Hw') "H". iApply "HQ". iRight. by iSplit.
Qed.

(** [route_node_lookup]: the same, if there is something on it *)
Lemma wp_route_node_lookup ns t p (Q : Z -> hP) :
  table_wf fam rt ns t -> lockable ns -> query p ->
  table_at place fam rt ns t -∗
  (∀ r, (⌜r = 0 /\ forall x, x ∈ nodes t -> netof ns x = net p -> infoof ns x = 0⌝ ∧ table_at place fam rt ns t) ∨
        (⌜r ∈ nodes t /\ netof ns r = net p /\ infoof ns r <> 0 /\ table_wf fam rt (lock_node ns r) t⌝ ∧
          table_at place fam rt (lock_node ns r) t) -∗ Q r) -∗
  wp (route_node_lookup stack rt p) Q.
Proof.
  intros Hw Hl [Hp Hf Hm]. destruct (search_key_eq fam stack p) as (k & Ek & Hk & En); [done..|].
  iIntros "H HQ". iApply wp_bind. iApply wp_mlift; [exact Ek|].
  iApply wp_bind. iApply (wp_exact with "H"); [done..|]. iIntros (r Hr) "H". rewrite -En.
  destruct (Z.eqb_spec r 0) as [->|H0].
  { iApply wp_ret. iApply "HQ". iLeft. iSplit; [|done]. iPureIntro. split; [done|].
    destruct Hr as [[_ Hno]|[Hr _]]; [|by destruct (nodes_nonnull _ _ _ Hw Hr)]. intros x Hx E. by destruct (Hno x Hx). }
  destruct (exact_nonnull _ _ _ _ Hw Hr H0) as [Hin E].
  destruct (wf_lookup _ _ _ _ Hw r Hin) as (n & Hn & _).
  iApply wp_bind. iApply (wp_load_table_node with "H"); [done|]. iIntros "H".
  assert (Einfo : infoof ns r = rn_info n) by by rewrite /infoof Hn.
  destruct (Z.eqb_spec (rn_info n) 0) as [Ei|Ei]; cbn [negb].
  - iApply wp_ret. iApply "HQ". iLeft. iSplit; [|done]. iPureIntro. split; [done|]. intros x Hx E'.
    rewrite (routed_inj _ _ x r (tw_routed _ _ _ _ Hw) Hx Hin); [by rewrite Einfo|by rewrite E].
  - iApply (wp_lock with "H"); [done..|]. iIntros (Hw') "H". iApply "HQ". iRight. iSplit; [|done].
    iPureIntro. by rewrite Einfo.
Qed.
End search.
