(* ===== verification/RouteInsert.v ===== *)
(** * Adding to route tables

    [route_node_get] walks down to the place of a network and puts a leaf
    there, or a node above the subtree it finds, or both. *)

From iris.proofmode Require Import proofmode.
From S2P Require Import Prelude SepLogic Heap ThashSize Thash ThashResize ThashSet ThashIter FrrPrefix FrrPrefixBits RouteTable RouteTree RouteKey RouteHeap RouteSearch.

#[local] Open Scope Z_scope.

Implicit Types ns : gmap Z route_node.
Implicit Types t l r s : rtree.
Implicit Types c : list (bool * Z * rtree).

(** ** Changing links *)

(** The link on the way up from the place [c] leads to [x]. *)
Definition relink c (x : Z) ns : gmap Z route_node :=
  match c with [] => ns | (b, a, _) :: _ => alter (set_child b x) a ns end.

(** The node [x] hangs at the place [c]. *)
Definition hung c (x : Z) ns : gmap Z route_node :=
  match c with [] => ns | (_, a, _) :: _ => alter (set_parent a) x (relink c x ns) end.

Lemma links_alter_ne ns a b f : a <> b -> links (alter f a ns) b = links ns b.
Proof. intros H. unfold links. by rewrite lookup_alter_ne. Qed.

Lemma links_set_parent ns a x :
  links (alter (set_parent x) a ns) a = (fun k => (x, k.1.2, k.2)) <$> links ns a.
Proof. unfold links. rewrite lookup_alter_eq. by destruct (ns !! a). Qed.

Lemma links_set_child ns a b x :
  links (alter (set_child b x) a ns) a =
    (fun k => if b then (k.1.1, k.1.2, x) else (k.1.1, x, k.2)) <$> links ns a.
Proof. unfold links. rewrite lookup_alter_eq. destruct (ns !! a) as [n|]; [|done]. by destruct b. Qed.

Lemma ctx_linked_relink ns c x y :
  NoDup (ctx_nodes c) -> ctx_linked ns c y -> ctx_linked (relink c x ns) c x.
Proof.
  destruct c as [|[[b a] s] c]; [done|]. cbn [ctx_nodes ctx_linked relink].
  intros [Ha Hnd]%NoDup_cons (E & Hs & Hc). split_and!.
  - rewrite links_set_child E /=. by destruct b.
  - eapply linked_ext; [|exact Hs]. intros z Hz. apply links_alter_ne. intros ->.
    apply Ha, elem_of_app. by left.
  - eapply ctx_linked_ext; [|exact Hc]. intros z Hz. apply links_alter_ne. intros ->.
    apply Ha, elem_of_app. by right.
Qed.

(** ** What does not depend on the links *)

(** Nodes with their prefixes, tables, locks and information *)
Definition contents (n : route_node) : FrrPrefix.prefix * Z * Z * Z := (rn_p n, rn_table n, rn_lock n, rn_info n).
Definition same_contents ns ns' : Prop := forall a, contents <$> ns' !! a = contents <$> ns !! a.

Lemma same_contents_refl ns : same_contents ns ns.
Proof. done. Qed.
Lemma same_contents_trans ns1 ns2 ns3 : same_contents ns1 ns2 -> same_contents ns2 ns3 -> same_contents ns1 ns3.
Proof. intros H1 H2 a. by rewrite H2. Qed.

Lemma same_contents_alter ns f a :
  (forall n, contents (f n) = contents n) -> same_contents ns (alter f a ns).
Proof.
  intros Hf x. destruct (decide (a = x)) as [->|Hne]; [|by rewrite lookup_alter_ne].
  rewrite lookup_alter_eq. destruct (ns !! x); [|done]. simpl. by rewrite Hf.
Qed.

Lemma contents_set_parent a n : contents (set_parent a n) = contents n.
Proof. done. Qed.
Lemma contents_set_child b a n : contents (set_child b a n) = contents n.
Proof. by destruct b. Qed.

Lemma same_contents_relink c x ns : same_contents ns (relink c x ns).
Proof.
  destruct c as [|[[b a] s] c]; [done|]. apply same_contents_alter. intros n. apply contents_set_child.
Qed.

Lemma same_contents_hung c x ns : same_contents ns (hung c x ns).
Proof.
  destruct c as [|[[b a] s] c]; [done|]. cbn [hung]. eapply same_contents_trans; [apply same_contents_relink|].
  by apply same_contents_alter.
Qed.

Section same.
Context ns ns' (Hs : same_contents ns ns').

Lemma same_lookup a n : ns !! a = Some n -> exists n', ns' !! a = Some n' /\ contents n' = contents n.
Proof.
  intros Hn. pose proof (Hs a) as H. rewrite Hn in H. destruct (ns' !! a) as [n'|]; [|done].
  exists n'. split; [done|]. by injection H as ? ? ? ?; unfold contents; congruence.
Qed.

Lemma same_lookup_rev a n' : ns' !! a = Some n' -> exists n, ns !! a = Some n /\ contents n' = contents n.
Proof.
  intros Hn. pose proof (Hs a) as H. rewrite Hn in H. destruct (ns !! a) as [n|]; [|done].
  exists n. split; [done|]. by injection H as ? ? ? ?; unfold contents; congruence.
Qed.

Lemma same_keyof a : keyof ns' a = keyof ns a.
Proof.
  unfold keyof. pose proof (Hs a) as H. destruct (ns' !! a), (ns !! a); try done. by injection H as ? ? ? ?.
Qed.

Lemma same_netof a : netof ns' a = netof ns a.
Proof. unfold netof. by rewrite same_keyof. Qed.

Lemma same_dom : dom ns' = (dom ns : gset Z).
Proof.
  apply set_eq. intros a. rewrite !elem_of_dom. pose proof (Hs a) as H.
  destruct (ns' !! a), (ns !! a); naive_solver.
Qed.

Lemma same_size : size ns' = size ns.
Proof. by rewrite -!size_dom same_dom. Qed.

Lemma same_nodes fam rt : map_Forall (node_wf fam rt) ns -> map_Forall (node_wf fam rt) ns'.
Proof.
  intros H a n' (n & Hn & E)%same_lookup_rev. destruct (H a n Hn) as [H1 H2 H3 H4].
  injection E as E1 E2 E3 E4. split; [done|congruence|by rewrite E1|by rewrite E3].
Qed.

Lemma same_lockable : lockable ns -> lockable ns'.
Proof.
  intros H a n' (n & Hn & E)%same_lookup_rev. specialize (H a n Hn). injection E as _ _ -> _. done.
Qed.
End same.

(** ** Replacing a subtree *)
Lemma wf_replace fam rt ns ns' c t0 t1 :
  table_wf fam rt ns (plug c t0) -> map_Forall (node_wf fam rt) ns' ->
  (forall a, a ∈ nodes (plug c t1) <-> a ∈ dom ns') -> NoDup (nodes (plug c t1)) ->
  (forall a, a ∈ ctx_nodes c -> netof ns' a = netof ns a) ->
  (forall a, a ∈ ctx_nodes c -> links ns' a = links (relink c (root t1) ns) a) ->
  linked ns' (above c) t1 -> routed (netof ns') t1 -> Forall (fun x => leads (netof ns) c (netof ns' x)) (nodes t1) ->
  table_wf fam rt ns' (plug c t1).
Proof.
  intros [Hd Hnd Hl Hr _] Hn' Hd' Hnd' Hnet Hlinks Hl1 Hr1 Hleads. split; [done|done| | |done].
  - apply linked_plug. split; [|done]. apply linked_plug in Hl as [Hc _].
    eapply ctx_linked_ext; [exact Hlinks|]. eapply ctx_linked_relink; [|exact Hc].
    rewrite nodes_plug in Hnd. by apply NoDup_app in Hnd as (_ & _ & ?).
  - apply routed_plug in Hr as (Hc & _ & _). apply routed_plug.
    assert (Hext : forall x, x ∈ nodes (plug c E) -> netof ns x = netof ns' x).
    { intros x Hx. rewrite nodes_plug in Hx. symmetry. by apply Hnet. }
    assert (HE : routed (netof ns') (plug c E)).
    { eapply routed_ext; [exact Hext|]. apply routed_plug. split_and!; [done|constructor|done]. }
    apply routed_plug in HE as (Hc' & _ & _). split_and!; [done| |done].
    eapply Forall_impl; [exact Hleads|]. intros x Hx. simpl. unfold leads in *.
    apply Forall_forall. intros f Hf. rewrite Forall_forall in Hx. rewrite Hnet; [by apply Hx|].
    by apply ctx_steps.
Qed.

(** What hangs at [c] is the tree [t1], made of nodes of its own and of those
    that were there. *)
Lemma links_relink_ext ns ns1 c x a :
  (forall a, a ∈ ctx_nodes c -> ns1 !! a = ns !! a) -> a ∈ ctx_nodes c ->
  links (relink c x ns1) a = links (relink c x ns) a.
Proof.
  intros He Ha. destruct c as [|[[b p] s] c]; [by apply not_elem_of_nil in Ha|]. cbn [relink]. unfold links.
  destruct (decide (p = a)) as [->|Hne].
  - rewrite !lookup_alter_eq He; [done|by left].
  - rewrite !lookup_alter_ne // He //.
Qed.

Lemma above_nodes c : c <> [] -> above c ∈ ctx_nodes c.
Proof. destruct c as [|[[b a] s] c]; [done|]. intros _. by left. Qed.

Lemma links_relink_ne ns c x a : a ∉ ctx_nodes c -> links (relink c x ns) a = links ns a.
Proof.
  intros Ha. destruct c as [|[[b p] s] c]; [done|]. apply links_alter_ne. intros ->. apply Ha. by left.
Qed.

Lemma wf_hang fam rt ns ns1 c t0 l x r :
  table_wf fam rt ns (plug c t0) -> map_Forall (node_wf fam rt) ns1 ->
  (forall a, a ∈ nodes (plug c (T l x r)) <-> a ∈ dom ns1) -> NoDup (nodes (plug c (T l x r))) ->
  (forall a, a ∈ ctx_nodes c -> ns1 !! a = ns !! a) ->
  linked ns1 0 (T l x r) -> routed (netof ns1) (T l x r) ->
  Forall (fun y => leads (netof ns) c (netof ns1 y)) (nodes (T l x r)) ->
  table_wf fam rt (hung c x ns1) (plug c (T l x r)).
Proof.
  intros Hw Hn1 Hd Hnd Hctx Hl Hr Hlead.
  pose proof (same_contents_hung c x ns1) as Hs.
  pose proof Hnd as Hnd'. rewrite nodes_plug in Hnd'. apply NoDup_app in Hnd' as (Hndt & Hdisj & _).
  apply (wf_replace fam rt ns (hung c x ns1) c t0 (T l x r)); [done|by eapply same_nodes| |done|..].
  - intros a. rewrite (same_dom _ _ Hs). apply Hd.
  - intros a Ha. rewrite (same_netof _ _ Hs). unfold netof, keyof. by rewrite Hctx.
  - intros a Ha. cbn [root]. rewrite -(links_relink_ext ns ns1 c x a Hctx Ha).
    destruct c as [|[[b p] s] c]; [done|]. cbn [hung]. apply links_alter_ne. intros ->.
    apply (Hdisj a); [by left|done].
  - cbn [linked] in Hl |- *. destruct Hl as (Ex & Hll & Hlr).
    assert (Hin : forall a, a ∈ nodes l ++ nodes r -> links (hung c x ns1) a = links ns1 a).
    { intros a Ha. assert (Hax : x <> a) by (apply NoDup_cons in Hndt as [Hx _]; by intros ->).
      transitivity (links (relink c x ns1) a).
      - destruct c as [|[[b p] s] c]; [done|]. by apply links_alter_ne.
      - apply links_relink_ne. apply Hdisj. by right. }
    assert (Hx : x ∉ ctx_nodes c) by (apply Hdisj; by left).
    split_and!.
    + destruct c as [|[[b p] s] c]; [done|]. cbn [hung above]. rewrite links_set_parent.
      rewrite (links_relink_ne ns1 ((b, p, s) :: c)) // Ex. done.
    + eapply linked_ext; [|exact Hll]. intros a Ha. apply Hin, elem_of_app. by left.
    + eapply linked_ext; [|exact Hlr]. intros a Ha. apply Hin, elem_of_app. by right.
  - eapply routed_ext; [|exact Hr]. intros a _. symmetry. by apply same_netof.
  - eapply Forall_impl; [exact Hlead|]. intros a Ha. simpl. by rewrite (same_netof _ _ Hs).
Qed.

(** A leaf *)
Lemma wf_leaf fam rt ns c a q :
  table_wf fam rt ns (plug c E) -> a <> 0 -> ns !! a = None -> good fam q -> leads (netof ns) c (net q) ->
  table_wf fam rt (hung c a (<[a := RouteNode q rt 0 0 0 0 0]> ns)) (plug c (T E a E)).
Proof.
  intros Hw Ha Hf Hq Hlead. set (n := RouteNode q rt 0 0 0 0 0).
  assert (Hfresh : a ∉ ctx_nodes c).
  { intros H. assert (Ha' : a ∈ dom ns) by (apply (tw_dom _ _ _ _ Hw); by rewrite nodes_plug).
    apply elem_of_dom in Ha' as [? Ha']. congruence. }
  apply (wf_hang fam rt ns _ c E); [done|..].
  - apply map_Forall_insert_2; [|apply Hw]. by split.
  - intros x. rewrite nodes_plug dom_insert elem_of_union elem_of_singleton -(tw_dom _ _ _ _ Hw x) nodes_plug /=.
    by rewrite elem_of_cons.
  - rewrite nodes_plug /=. apply NoDup_cons. split; [done|].
    pose proof (tw_nodup _ _ _ _ Hw) as H. by rewrite nodes_plug in H.
  - intros x Hx. rewrite lookup_insert_ne; [done|by intros ->].
  - cbn [linked]. by rewrite links_insert_eq.
  - by split_and!; try constructor.
  - apply Forall_singleton. by rewrite netof_insert_eq.
Qed.

(** A node above a subtree *)
Definition parented (x : Z) (t0 : rtree) ns : gmap Z route_node := alter (set_parent x) (root t0) ns.

Lemma wf_above fam rt ns c l0 x0 r0 a b q (t0 := T l0 x0 r0) :
  table_wf fam rt ns (plug c t0) -> a <> 0 -> ns !! a = None -> good fam q -> leads (netof ns) c (net q) ->
  below (net q) b (netof ns x0) ->
  table_wf fam rt
    (hung c a (<[a := set_child b x0 (RouteNode q rt 0 0 0 0 0)]> (parented a t0 ns))) (plug c (join b a t0 E)).
Proof.
  intros Hw Ha Hf Hq Hlead Hbelow. set (n := set_child b x0 (RouteNode q rt 0 0 0 0 0)).
  pose proof (tw_nodup _ _ _ _ Hw) as Hnd. rewrite nodes_plug in Hnd.
  assert (Hin : forall x, x ∈ nodes t0 ++ ctx_nodes c <-> x ∈ dom ns).
  { intros x. by rewrite -(tw_dom _ _ _ _ Hw x) nodes_plug. }
  assert (Hfresh : a ∉ nodes t0 ++ ctx_nodes c).
  { rewrite Hin elem_of_dom Hf. by intros [? ?]. }
  assert (Hs : same_contents ns (parented a t0 ns)) by by apply same_contents_alter.
  assert (Hnet : forall x, x <> a -> netof (<[a := n]> (parented a t0 ns)) x = netof ns x).
  { intros x Hx. rewrite netof_insert_ne; [|done]. by apply same_netof. }
  pose proof (tw_links _ _ _ _ Hw) as Hl. rewrite linked_plug in Hl. destruct Hl as [_ Hl].
  pose proof (tw_routed _ _ _ _ Hw) as Hr. apply routed_plug in Hr as (_ & Hlead0 & Hr0).
  assert (Hperm : nodes (join b a t0 E) ≡ₚ a :: nodes t0) by by rewrite nodes_join app_nil_r.
  assert (Hlinked : linked (<[a := n]> (parented a t0 ns)) a t0).
  { cbn [linked nodes t0] in *. destruct Hl as (Ex & H1 & H2). apply NoDup_app in Hnd as ([Hx _]%NoDup_cons & _ & _).
    assert (Hsame : forall x, x ∈ nodes l0 ++ nodes r0 -> links (<[a := n]> (parented a t0 ns)) x = links ns x).
    { intros x Hx'. rewrite links_insert_ne; [apply links_alter_ne|].
      - change (x0 <> x). by intros ->.
      - intros ->. apply Hfresh, elem_of_app. left. by right. }
    split_and!.
    - rewrite links_insert_ne; [|intros ->; apply Hfresh; by left].
      unfold parented. cbn [root t0]. by rewrite links_set_parent Ex.
    - eapply linked_ext; [|exact H1]. intros x Hx'. apply Hsame, elem_of_app. by left.
    - eapply linked_ext; [|exact H2]. intros x Hx'. apply Hsame, elem_of_app. by right. }
  assert (Hrouted : routed (netof (<[a := n]> (parented a t0 ns))) (join b a t0 E)).
  { apply routed_join. split_and!; [|constructor| |done].
    - apply Forall_forall. intros x Hx. rewrite netof_insert_eq Hnet; [|intros ->; apply Hfresh, elem_of_app; by left].
      eapply below_extend; [by destruct b|]. by apply (routed_root_prefix _ t0).
    - eapply routed_ext; [|exact Hr0]. intros x Hx. symmetry. apply Hnet. intros ->. apply Hfresh, elem_of_app. by left. }
  assert (Hleads : Forall (fun y => leads (netof ns) c (netof (<[a := n]> (parented a t0 ns)) y)) (nodes (join b a t0 E))).
  { rewrite Hperm. constructor; [by rewrite netof_insert_eq; destruct b|].
    apply Forall_forall. intros x Hx. rewrite Hnet; [|intros ->; apply Hfresh, elem_of_app; by left].
    rewrite Forall_forall in Hlead0. by apply Hlead0. }
  assert (Hnwf : map_Forall (node_wf fam rt) (<[a := n]> (parented a t0 ns))).
  { apply map_Forall_insert_2; [by destruct b; split|]. eapply same_nodes; [exact Hs|apply Hw]. }
  assert (Hd : forall x, x ∈ nodes (plug c (join b a t0 E)) <-> x ∈ dom (<[a := n]> (parented a t0 ns))).
  { intros x. rewrite nodes_plug Hperm dom_insert (same_dom _ _ Hs) elem_of_union elem_of_singleton -Hin.
    by rewrite elem_of_app elem_of_cons elem_of_app or_assoc. }
  assert (Hnd' : NoDup (nodes (plug c (join b a t0 E)))).
  { rewrite nodes_plug Hperm. by apply NoDup_cons. }
  assert (Hctx : forall x, x ∈ ctx_nodes c -> <[a := n]> (parented a t0 ns) !! x = ns !! x).
  { intros x Hx. rewrite lookup_insert_ne; [|intros ->; apply Hfresh, elem_of_app; by right].
    unfold parented. apply lookup_alter_ne. intros <-. apply NoDup_app in Hnd as (_ & H & _).
    apply (H x0); [by left|done]. }
  destruct b; apply (wf_hang fam rt ns _ c t0); try done; cbn [linked]; rewrite links_insert_eq; by split_and!.
Qed.

(** ** Steps in memory *)
Section insert.
Context (place : gmap Z (hcell rcell) -> Z -> Z) `{!Placement place} (fam : family).
Context `{!HashSpec rn_hash_node (good fam) same_net place}.
Abbreviation hP := (hpropI (hcell rcell)).
Context (rt : Z).

(** A table whose nodes need not form a tree *)
Definition parts (tbl : route_table) ns : hP :=
  (rt ↦ CUser (RTable tbl) ∗ hs_rep (table_hash rt) (keyof ns) (dom ns) ∗ nodes_at ns)%I.

Lemma parts_same tbl ns ns' :
  same_contents ns ns' ->
  rt ↦ CUser (RTable tbl) ∗ hs_rep (table_hash rt) (keyof ns) (dom ns) ∗ nodes_at ns' ⊢ parts tbl ns'.
Proof.
  intros Hs. iIntros "($ & Hh & $)". rewrite (same_dom _ _ Hs). iApply (hs_ext with "Hh").
  intros x _. symmetry. by apply same_keyof.
Qed.

Lemma wp_parts_load tbl ns a n (Q : route_node -> hP) :
  ns !! a = Some n -> parts tbl ns -∗ (parts tbl ns -∗ Q n) -∗ wp (load_node a) Q.
Proof.
  intros Ha. iIntros "(Ht & Hh & Hn) HQ". iApply (wp_read_node with "Hn"); [done|]. iIntros "Hn".
  iApply "HQ". iFrame.
Qed.

Lemma wp_parts_update tbl ns a f (Q : unit -> hP) :
  a ∈ dom ns -> (forall n, contents (f n) = contents n) ->
  parts tbl ns -∗ (parts tbl (alter f a ns) -∗ Q tt) -∗ wp (update_node a f) Q.
Proof.
  intros [n Hn]%elem_of_dom Hf. iIntros "(Ht & Hh & Hn) HQ". iApply (wp_update_node with "Hn"); [done|].
  iIntros "Hn". iApply "HQ". iApply (parts_same _ ns); [by apply same_contents_alter|]. iFrame.
  rewrite (_ : alter f a ns = <[a := f n]> ns); [done|]. apply map_eq. intros x.
  destruct (decide (a = x)) as [->|Hne]; [by rewrite lookup_alter_eq Hn lookup_insert_eq|].
  by rewrite lookup_alter_ne // lookup_insert_ne.
Qed.

Lemma wp_add_count tbl ns d (Q : unit -> hP) :
  0 <= rt_count tbl + d < 2 ^ 64 ->
  parts tbl ns -∗ (parts (set_rt_count (rt_count tbl + d) tbl) ns -∗ Q tt) -∗ wp (add_count rt d) Q.
Proof.
  intros Hc. iIntros "(Ht & Hh & Hn) HQ". unfold add_count. iApply (wp_update_table with "Ht"). iIntros "Ht".
  iApply "HQ". rewrite (wrap_small 64) //. iFrame.
Qed.

Lemma nodes_fresh ns a v : a ↦ v ∗ nodes_at ns ⊢ ⌜ns !! a = None⌝.
Proof.
  destruct (ns !! a) as [n|] eqn:Hn; [|by iIntros "_"]. unfold nodes_at.
  rewrite (big_sepM_delete _ _ _ _ Hn). iIntros "(Ha & Ha' & _)".
  iDestruct (points_to_ne with "[$Ha $Ha']") as %?. done.
Qed.

(** A new node: in no table yet *)
Definition blank : route_node := RouteNode (Prefix AF_UNSPEC 0 zero_bytes_of_union) 0 0 0 0 0 0.

Lemma wp_route_node_new (Q : Z -> hP) :
  (∀ a, ⌜0 < a⌝ → a ↦ CUser (RNode blank) -∗ item_cells rn_hash_node a -∗ Q a) ⊢ wp (route_node_new place) Q.
Proof.
  iIntros "HQ". iApply wp_alloc.
  - apply (bool_decide_unpack _). by vm_compute.
  - repeat constructor; simpl; unfold nodehash_offset; lia.
  - iIntros (a Ha) "(Ha & Hp & Hw & _)". cbn [fst snd]. rewrite Z.add_0_r.
    iApply ("HQ" with "[//] Ha"). iExists 0, 0. rewrite /item_of /=. rewrite Z.add_assoc. iFrame.
Qed.

Lemma wp_cell_load a n (Q : route_node -> hP) :
  a ↦ CUser (RNode n) -∗ (a ↦ CUser (RNode n) -∗ Q n) -∗ wp (load_node a) Q.
Proof.
  iIntros "Ha HQ". iApply wp_bind. iApply (wp_load with "Ha"). iIntros "Ha". iApply wp_ret. by iApply "HQ".
Qed.

Lemma wp_cell_update a n f (Q : unit -> hP) :
  a ↦ CUser (RNode n) -∗ (a ↦ CUser (RNode (f n)) -∗ Q tt) -∗ wp (update_node a f) Q.
Proof.
  iIntros "Ha HQ". iApply wp_bind. iApply (wp_cell_load with "Ha"). iIntros "Ha". iApply (wp_store with "Ha HQ").
Qed.

Lemma nodes_add ns a n : nodes_at ns ∗ a ↦ CUser (RNode n) ⊢ nodes_at (<[a := n]> ns).
Proof.
  iIntros "[Hn Ha]". iDestruct (nodes_fresh with "[$Ha $Hn]") as %Hf. unfold nodes_at.
  rewrite big_sepM_insert //. iFrame.
Qed.

(** A node with its prefix and its table enters the hash table. *)
Lemma wp_enter tbl ns a n (Q : Z -> hP) :
  good fam (rn_p n) -> (forall x, x ∈ dom ns -> netof ns x <> net (rn_p n)) ->
  Z.of_nat (size ns) + 1 < 2 ^ 30 ->
  parts tbl ns -∗ a ↦ CUser (RNode n) -∗ item_cells rn_hash_node a -∗
  (⌜ns !! a = None⌝ → parts tbl (<[a := n]> ns) -∗ Q 0) -∗
  wp (hash_add rn_hash_node place (table_hash rt) a) Q.
Proof.
  intros Hg Hno Hs. iIntros "(Ht & Hh & Hn) Ha Hi HQ".
  iDestruct (nodes_fresh with "[$Ha $Hn]") as %Hf.
  iDestruct (nodes_add with "[$Hn $Ha]") as "Hn".
  assert (Hka : keyof (<[a := n]> ns) a = rn_p n) by by rewrite /keyof lookup_insert_eq.
  assert (Hkx : forall x, x ∈ dom ns -> keyof ns x = keyof (<[a := n]> ns) x).
  { intros x [m Hm]%elem_of_dom. unfold keyof. rewrite lookup_insert_ne; [done|]. intros ->. by rewrite Hf in Hm. }
  assert (Hkn : forall x, x ∈ dom ns -> netof (<[a := n]> ns) x <> net (rn_p n)).
  { intros x Hx. unfold netof. rewrite -Hkx; [|done]. by apply Hno. }
  iApply (hs_add (table_hash rt) (keyof (<[a := n]> ns)) (dom ns) (nodes_at (<[a := n]> ns)) a with "[Hh] Hi Hn").
  - by apply not_elem_of_dom.
  - by rewrite Hka.
  - intros z Hz. unfold same_net. rewrite Hka. apply bool_decide_eq_false_2. by apply Hkn.
  - apply nodes_read. rewrite dom_insert_L. set_solver.
  - by rewrite size_dom.
  - iApply (hs_ext with "Hh"). exact Hkx.
  - iIntros "Hn Hh". iApply ("HQ" with "[//]"). iFrame. rewrite dom_insert_L. done.
Qed.

(** [route_node_set] *)
Lemma wp_route_node_set tbl ns p (Q : Z -> hP) :
  good fam p -> (forall x, x ∈ dom ns -> netof ns x <> net p) -> Z.of_nat (size ns) + 1 < 2 ^ 30 ->
  parts tbl ns -∗
  (∀ a q, ⌜a <> 0 /\ ns !! a = None /\ good fam q /\ net q = net p⌝ →
     parts tbl (<[a := RouteNode q rt 0 0 0 0 0]> ns) -∗ Q a) -∗
  wp (route_node_set place rt p) Q.
Proof.
  intros Hg Hno Hs. iIntros "Hp HQ". unfold route_node_set. iApply wp_bind.
  iApply wp_route_node_new. iIntros (a Ha) "Ha Hi".
  destruct (prefix_copy_net (rn_p blank) p) as (q & Eq & Hq & Ef & El & En & Hm);
    [by apply zero_prefix_wf|apply Hg|by eapply good_fits|].
  assert (Hgq : good fam q).
  { split; [done|by rewrite Ef (gd_family _ _ Hg)|by apply Hm, Hg|].
    pose proof (gd_maskable _ _ Hg) as Hk. unfold maskable in *. by rewrite Ef El. }
  iApply wp_bind. iApply (wp_cell_load with "Ha"). iIntros "Ha". iApply wp_bind. iApply wp_mlift; [exact Eq|].
  iApply wp_bind. iApply (wp_cell_update with "Ha"). iIntros "Ha".
  iApply wp_bind. iApply (wp_cell_update with "Ha"). iIntros "Ha".
  iApply wp_bind. iApply (wp_enter _ _ _ (set_table rt (set_p q blank)) with "Hp Ha Hi");
    [done|by rewrite /= En|done|].
  iIntros (Hf) "Hp". iApply wp_ret. iApply ("HQ" with "[%] Hp"). split_and!; [lia|done..].
Qed.

(** ** Hanging a node *)
Lemma wp_set_link tbl ns a x n m b (Q : unit -> hP) :
  ns !! a = Some n -> ns !! x = Some m -> bit_of (rn_p m) (prefixlen (rn_p n)) = Ret b ->
  parts tbl ns -∗ (parts tbl (alter (set_parent a) x (alter (set_child b x) a ns)) -∗ Q tt) -∗ wp (set_link a x) Q.
Proof.
  intros Ha Hx Hb. iIntros "Hp HQ". unfold set_link.
  iApply wp_bind. iApply (wp_parts_load with "Hp"); [exact Hx|]. iIntros "Hp".
  iApply wp_bind. iApply (wp_parts_load with "Hp"); [exact Ha|]. iIntros "Hp".
  iApply wp_bind. iApply wp_mlift; [exact Hb|].
  iApply wp_bind. iApply (wp_parts_update with "Hp"); [by apply elem_of_dom|by intros; destruct b|]. iIntros "Hp".
  iApply (wp_parts_update with "Hp"); [|done|done].
  rewrite dom_alter. by apply elem_of_dom.
Qed.

Definition new_top c (x : Z) (tbl : route_table) : route_table :=
  match c with [] => set_top x tbl | _ => tbl end.

Lemma wp_hang tbl ns c x m (Q : unit -> hP) :
  (forall a, a ∈ ctx_nodes c -> exists n, ns !! a = Some n /\ node_wf fam rt a n) ->
  ns !! x = Some m -> prefix_wf (rn_p m) -> leads (netof ns) c (net (rn_p m)) ->
  parts tbl ns -∗ (parts (new_top c x tbl) (hung c x ns) -∗ Q tt) -∗ wp (hang rt (above c) x) Q.
Proof.
  intros Hc Hx Hwf Hlead. unfold hang. iIntros "Hp HQ". destruct c as [|[[b a] s] c]; cbn [above].
  - cbn [negb Z.eqb]. iDestruct "Hp" as "(Ht & Hh & Hn)". iApply (wp_update_table with "Ht"). iIntros "Ht".
    iApply "HQ". iFrame.
  - destruct (Hc a) as (n & Hn & Hwn); [by left|].
    destruct (Z.eqb_spec a 0) as [E0|_]; [by destruct (nw_nonnull _ _ _ _ Hwn)|]. cbn [negb].
    iApply (wp_set_link with "Hp"); [done|done| |done].
    rewrite (good_net_len _ _ (nw_good _ _ _ _ Hwn)). apply bit_below; [done|].
    apply Forall_cons in Hlead as [Hb _]. cbn [fst snd] in Hb. by rewrite /netof (keyof_eq _ _ _ Hn) in Hb.
Qed.

(** [t] is a table with the count [k]. *)
Definition counted (k : Z) ns t : hP := (∃ tbl, ⌜rt_top tbl = root t /\ rt_count tbl = k⌝ ∧ parts tbl ns)%I.

Lemma rtree_root_plug c t : root (plug c t) = match c with [] => root t | _ => root (plug c E) end.
Proof.
  destruct c as [|f c]; [done|]. revert f t. induction c as [|f' c IH]; intros [[b a] s] t.
  - by destruct b.
  - cbn [plug]. rewrite (IH f' (join b a t s)). by rewrite (IH f' (join b a E s)).
Qed.

Lemma new_top_root tbl c t x :
  rt_top tbl = root (plug c t) -> forall l r, rt_top (new_top c x tbl) = root (plug c (T l x r)).
Proof. intros Et l r. rewrite rtree_root_plug. rewrite rtree_root_plug in Et. by destruct c. Qed.

(** The new leaf [a] is put in its place. *)
Lemma wp_hang_leaf k tbl ns c p a q (Q : unit -> hP) :
  table_wf fam rt ns (plug c E) -> leads (netof ns) c (net p) ->
  rt_top tbl = root (plug c E) -> rt_count tbl = k ->
  a <> 0 /\ ns !! a = None /\ good fam q /\ net q = net p ->
  parts tbl (<[a := RouteNode q rt 0 0 0 0 0]> ns) -∗
  (⌜table_wf fam rt (hung c a (<[a := RouteNode q rt 0 0 0 0 0]> ns)) (plug c (T E a E))⌝ →
     counted k (hung c a (<[a := RouteNode q rt 0 0 0 0 0]> ns)) (plug c (T E a E)) -∗ Q tt) -∗
  wp (hang rt (above c) a) Q.
Proof.
  intros Hw Hlead Htop Hk (Ha & Hf & Hq & Enet). iIntros "Hp HQ".
  pose proof (wf_leaf fam rt ns c a q Hw Ha Hf Hq ltac:(by rewrite Enet)) as Hw'.
  set (ns1 := <[a := RouteNode q rt 0 0 0 0 0]> ns) in *.
  assert (Hne : forall x, x ∈ ctx_nodes c -> a <> x).
  { intros x Hx ->. apply not_elem_of_dom in Hf. apply Hf, (tw_dom _ _ _ _ Hw). by rewrite nodes_plug. }
  iApply (wp_hang _ _ _ _ (RouteNode q rt 0 0 0 0 0) with "Hp").
  - intros x Hx. destruct (wf_lookup _ _ _ _ Hw x) as (n & Hn & Hwn); [by rewrite nodes_plug|].
    exists n. split; [|done]. unfold ns1. rewrite lookup_insert_ne; [done|by apply Hne].
  - unfold ns1. by rewrite lookup_insert_eq.
  - apply Hq.
  - cbn [rn_p]. rewrite Enet. unfold leads in *. apply Forall_forall. intros f Hf'.
    rewrite Forall_forall in Hlead. specialize (Hlead f Hf'). unfold ns1.
    rewrite netof_insert_ne; [done|]. by apply Hne, ctx_steps.
  - iIntros "Hp". iApply ("HQ" with "[//]"). iExists _. iSplit; [|iFrame "Hp"].
    iPureIntro. split; [by eapply new_top_root|]. by destruct c.
Qed.

(** No node has the network of a leaf yet. *)
Lemma leaf_new ns c q :
  table_wf fam rt ns (plug c E) -> leads (netof ns) c q -> forall x, x ∈ dom ns -> netof ns x <> q.
Proof.
  intros Hw Hlead x Hx Ex. apply (tw_dom _ _ _ _ Hw) in Hx. rewrite nodes_plug in Hx. simpl in Hx.
  apply (leads_contain (netof ns) c q x E) in Hx; [|apply Hw|done|by rewrite Ex].
  apply list_elem_of_fmap in Hx as (f & -> & Hf). unfold leads in Hlead. rewrite Forall_forall in Hlead.
  apply Hlead, below_length in Hf. rewrite Ex in Hf. lia.
Qed.

Lemma wp_get_leaf k ns c p (Q : Z -> hP) :
  table_wf fam rt ns (plug c E) -> good fam p -> leads (netof ns) c (net p) ->
  Z.of_nat (size ns) + 1 < 2 ^ 30 ->
  counted k ns (plug c E) -∗
  (∀ a q, ⌜(a <> 0 /\ ns !! a = None /\ good fam q /\ net q = net p) /\
           table_wf fam rt (hung c a (<[a := RouteNode q rt 0 0 0 0 0]> ns)) (plug c (T E a E))⌝ →
     counted k (hung c a (<[a := RouteNode q rt 0 0 0 0 0]> ns)) (plug c (T E a E)) -∗ Q a) -∗
  wp (get_leaf place rt (above c) p) Q.
Proof.
  intros Hw Hp Hlead Hs. iIntros "(%tbl & [%Htop %Hk] & Hp) HQ". unfold get_leaf.
  iApply wp_bind. iApply (wp_route_node_set with "Hp"); [done|by eapply leaf_new|done|].
  iIntros (a q Ha) "Hp".
  iApply wp_bind. iApply (wp_hang_leaf with "Hp"); [done..|]. iIntros (Hw') "Hc".
  iApply wp_ret. iApply ("HQ" $! a q with "[//] Hc").
Qed.

Lemma hang_nonnull n x : n <> 0 -> hang rt n x = set_link n x.
Proof. intros Hn. unfold hang. by destruct (Z.eqb_spec n 0). Qed.

Lemma wp_get_above k ns c l0 x0 r0 b p q (t0 := T l0 x0 r0) (K := Prefix (p_family p) (prefixlen q) (u q))
    (Q : Z * FrrPrefix.prefix -> hP) :
  table_wf fam rt ns (plug c t0) -> route_common (keyof ns x0) p (rn_p blank) = Ret q -> good fam K ->
  leads (netof ns) c (net K) -> below (net K) b (netof ns x0) ->
  (forall x, x ∈ dom ns -> netof ns x <> net K) -> Z.of_nat (size ns) + 1 < 2 ^ 30 ->
  counted k ns (plug c t0) -∗
  (∀ a ns', ⌜a <> 0 /\ ns !! a = None /\ ns' = hung c a (<[a := set_child b x0 (RouteNode K rt 0 0 0 0 0)]> (parented a t0 ns)) /\
           table_wf fam rt ns' (plug c (join b a t0 E))⌝ →
     counted k ns' (plug c (join b a t0 E)) -∗ Q (a, q)) -∗
  wp (get_above place rt (above c) x0 p) Q.
Proof.
  intros Hw Hcommon HK Hlead Hbelow Hno Hs. iIntros "(%tbl & [%Htop %Hk] & Hp) HQ". unfold get_above.
  destruct (wf_subtree _ _ _ _ Hw c l0 x0 r0 eq_refl) as (n0 & Hn0 & Hwn0 & _).
  rewrite (keyof_eq _ _ _ Hn0) in Hcommon.
  assert (Hnet0 : netof ns x0 = net (rn_p n0)) by by rewrite /netof (keyof_eq _ _ _ Hn0).
  iApply wp_bind. iApply wp_route_node_new. iIntros (a Ha) "Ha Hi".
  iDestruct "Hp" as "(Ht & Hh & Hn)". iDestruct (nodes_fresh with "[$Ha $Hn]") as %Hf.
  iAssert (parts tbl ns) with "[$Ht $Hh $Hn]" as "Hp".
  iApply wp_bind. iApply (wp_parts_load with "Hp"); [exact Hn0|]. iIntros "Hp".
  iApply wp_bind. iApply (wp_cell_load with "Ha"). iIntros "Ha".
  iApply wp_bind. iApply wp_mlift; [exact Hcommon|]. fold K.
  iApply wp_bind. iApply (wp_cell_update with "Ha"). iIntros "Ha".
  iApply wp_bind. iApply (wp_cell_update with "Ha"). iIntros "Ha".
  iApply wp_bind. unfold set_link at 1. iApply wp_bind. iApply (wp_parts_load with "Hp"); [exact Hn0|]. iIntros "Hp".
  iApply wp_bind. iApply (wp_cell_load with "Ha"). iIntros "Ha". cbn [set_table set_p rn_p].
  iApply wp_bind. iApply wp_mlift.
  { rewrite (good_net_len _ _ HK). apply bit_below; [apply (nw_good _ _ _ _ Hwn0)|]. by rewrite -Hnet0. }
  iApply wp_bind. iApply (wp_cell_update with "Ha"). iIntros "Ha".
  iApply (wp_parts_update with "Hp"); [by apply elem_of_dom|done|]. iIntros "Hp".
  assert (Hs1 : same_contents ns (alter (set_parent a) x0 ns)) by by apply same_contents_alter.
  iApply wp_bind. iApply (wp_enter with "Hp Ha Hi"); [by destruct b| |by rewrite (same_size _ _ Hs1)|].
  { intros x. rewrite (same_dom _ _ Hs1) (same_netof _ _ Hs1). destruct b; apply Hno. }
  iIntros (_) "Hp".
  pose proof (wf_above fam rt ns c l0 x0 r0 a b K Hw ltac:(lia) Hf HK Hlead Hbelow) as Hw'. fold t0 in Hw'.
  change (alter (set_parent a) x0 ns) with (parented a t0 ns) in *.
  set (n := set_child b x0 _). assert (En : n = set_child b x0 (RouteNode K rt 0 0 0 0 0)) by done.
  assert (Hne : forall x, x ∈ dom ns -> a <> x) by (intros x Hx ->; by apply not_elem_of_dom in Hf).
  iApply wp_bind. iApply (wp_hang _ _ _ _ n with "Hp").
  - intros x Hx. destruct (wf_lookup _ _ _ _ Hw x) as (nx & Hnx & Hwx).
    { rewrite nodes_plug. apply elem_of_app. by right. }
    exists nx. split; [|done]. rewrite lookup_insert_ne; [|apply Hne; by apply elem_of_dom].
    unfold parented. rewrite lookup_alter_ne; [done|]. cbn [root t0]. intros <-.
    pose proof (tw_nodup _ _ _ _ Hw) as Hnd. rewrite nodes_plug in Hnd. apply NoDup_app in Hnd as (_ & Hd & _).
    apply (Hd x0); [by left|done].
  - by rewrite lookup_insert_eq.
  - rewrite En. destruct b; apply HK.
  - rewrite En. assert (E : net (rn_p (set_child b x0 (RouteNode K rt 0 0 0 0 0))) = net K) by by destruct b.
    rewrite E. unfold leads in *. apply Forall_forall. intros f Hf'. rewrite Forall_forall in Hlead.
    specialize (Hlead f Hf'). rewrite netof_insert_ne; [by rewrite (same_netof _ _ Hs1)|].
    apply Hne, (tw_dom _ _ _ _ Hw). rewrite nodes_plug. apply elem_of_app. right. by apply ctx_steps.
  - iIntros "Hp". iApply wp_ret. iApply ("HQ" $! a with "[%]"); [split_and!; [lia|done|done|exact Hw']|].
    iExists _. iSplit; [|iFrame "Hp"]. iPureIntro. split; [|by destruct c].
    destruct b; by eapply new_top_root.
Qed.
End insert.
