(* ===== verification/RouteGet.v ===== *)
(** * [route_node_get]

    What a client sees of a table are the nodes that are held: with their
    networks, reference counts and information.  [route_node_get] holds the
    node of a network, which may be new. *)

From iris.proofmode Require Import proofmode.
From S2P Require Import Prelude SepLogic Heap ThashSize Thash ThashResize ThashSet ThashIter FrrPrefix FrrPrefixBits FrrPrefixSpec RouteTable RouteTree RouteKey RouteHeap RouteSearch RouteInsert.

#[local] Open Scope Z_scope.

Implicit Types ns : gmap Z route_node.
Implicit Types t l r s : rtree.
Implicit Types c : list (bool * Z * rtree).

(** ** The nodes that are held *)
Record entry := Entry { e_net : list bool; e_lock : Z; e_info : Z }.

Definition entry_of (n : route_node) : entry := Entry (net (rn_p n)) (rn_lock n) (rn_info n).
Definition held ns : gmap Z entry := omap (fun n => if rn_lock n =? 0 then None else Some (entry_of n)) ns.

Lemma held_lookup ns a e :
  held ns !! a = Some e <-> exists n, ns !! a = Some n /\ rn_lock n <> 0 /\ e = entry_of n.
Proof.
  unfold held. rewrite lookup_omap_Some. split.
  - intros (n & E & Hn). exists n. destruct (Z.eqb_spec (rn_lock n) 0); [done|]. split_and!; [done..|congruence].
  - intros (n & Hn & Hl & ->). exists n. split; [|done]. by destruct (Z.eqb_spec (rn_lock n) 0).
Qed.

Lemma held_ext ns ns' :
  (forall a, (entry_of <$> ns' !! a) = (entry_of <$> ns !! a)) -> held ns' = held ns.
Proof.
  intros H. apply map_eq. intros a. unfold held. rewrite !lookup_omap. specialize (H a).
  destruct (ns' !! a) as [n'|], (ns !! a) as [n|]; try done. simpl. injection H as E1 E2 E3.
  unfold entry_of. by rewrite E1 E2 E3.
Qed.

Lemma held_same ns ns' : same_contents ns ns' -> held ns' = held ns.
Proof.
  intros Hs. apply held_ext. intros a. specialize (Hs a).
  destruct (ns' !! a), (ns !! a); try done. simpl. injection Hs as E1 E2 E3 E4. unfold entry_of. congruence.
Qed.

Lemma held_idle ns a n : ns !! a = None -> rn_lock n = 0 -> held (<[a := n]> ns) = held ns.
Proof.
  intros Hf Hl. unfold held. rewrite omap_insert Hl /=. apply delete_id. by rewrite lookup_omap Hf.
Qed.

Lemma held_insert ns a n : rn_lock n <> 0 -> held (<[a := n]> ns) = <[a := entry_of n]> (held ns).
Proof. intros Hl. unfold held. rewrite omap_insert. by destruct (Z.eqb_spec (rn_lock n) 0). Qed.

(** A client's view after [a] has been locked *)
Lemma held_lock ns a n :
  ns !! a = Some n -> 0 <= rn_lock n ->
  held (lock_node ns a) = <[a := Entry (net (rn_p n)) (rn_lock n + 1) (rn_info n)]> (held ns).
Proof.
  intros Hn Hl. rewrite (lock_node_eq _ _ _ Hn) held_insert; [done|]. simpl. lia.
Qed.

(** ** Nodes that nobody holds *)
Definition stubs_except (x : Z) ns : Prop := map_Forall (fun a n => a <> x -> stub_ok n) ns.

Lemma stubs_ok_except x ns : stubs_ok ns -> stubs_except x ns.
Proof. intros H a n Hn _. by apply (H a n). Qed.

Lemma stub_set_child b x n : x <> 0 -> stub_ok n -> stub_ok (set_child b x n).
Proof. intros Hx H. unfold stub_ok in *. destruct b; simpl; intros E; by destruct (H E) as (? & ? & ?). Qed.

Lemma alter_stub f a ns y m :
  (forall n, stub_ok n -> stub_ok (f n)) -> alter f a ns !! y = Some m ->
  exists m0, ns !! y = Some m0 /\ (stub_ok m0 -> stub_ok m).
Proof.
  intros Hf Hn. destruct (decide (a = y)) as [->|Hne].
  - rewrite lookup_alter_eq in Hn. apply fmap_Some in Hn as (m0 & Hm & ->). exists m0. auto.
  - rewrite lookup_alter_ne // in Hn. by exists m.
Qed.

Lemma stubs_alter x f a ns :
  (forall n, stub_ok n -> stub_ok (f n)) -> stubs_except x ns -> stubs_except x (alter f a ns).
Proof. intros Hf H y n (m & Hm & Hs)%alter_stub Hy; [|done]. by apply Hs, (H y). Qed.

Lemma hung_stub c x ns y m :
  x <> 0 -> hung c x ns !! y = Some m -> exists m0, ns !! y = Some m0 /\ (stub_ok m0 -> stub_ok m).
Proof.
  intros Hx H. destruct c as [|[[b a] s] c]; [by exists m|]. cbn [hung relink] in H.
  apply alter_stub in H as (m1 & H & S1); [|by intros n Hn].
  apply alter_stub in H as (m0 & H & S0); [|by intros n; apply stub_set_child].
  exists m0. auto.
Qed.

Lemma stubs_hung x c y ns : y <> 0 -> stubs_except x ns -> stubs_except x (hung c y ns).
Proof. intros Hy H z n (m & Hm & Hs)%hung_stub Hz; [|done]. by apply Hs, (H z). Qed.

Lemma stubs_insert ns a n : stubs_ok ns -> stubs_except a (<[a := n]> ns).
Proof.
  intros H y m Hm Hy. rewrite lookup_insert_ne // in Hm. by apply (H y).
Qed.

Lemma stubs_locked ns a n :
  stubs_except a ns -> ns !! a = Some n -> 0 <= rn_lock n -> stubs_ok (lock_node ns a).
Proof.
  intros H Hn Hl y m Hm. rewrite (lock_node_eq _ _ _ Hn) in Hm.
  apply lookup_insert_Some in Hm as [[<- <-]|[Hne Hm]]; [intros E; simpl in E; lia|by apply (H y)].
Qed.

(** [ns'] has grown out of [ns]: the nodes of [ns] are there, and those that
    are new are not held. *)
Record grown ns ns' : Prop := {
  gr_old : forall a n, ns !! a = Some n -> exists n', ns' !! a = Some n' /\ contents n' = contents n;
  gr_new : forall a n', ns' !! a = Some n' -> ns !! a = None -> rn_lock n' = 0 /\ rn_info n' = 0
}.

Lemma grown_same ns ns' : same_contents ns ns' -> grown ns ns'.
Proof.
  intros Hs. split; [intros a n; by apply same_lookup|]. intros a n' Hn' Hn.
  destruct (same_lookup_rev _ _ Hs a n' Hn') as (n & ? & _). congruence.
Qed.

Lemma grown_insert ns a n : ns !! a = None -> rn_lock n = 0 -> rn_info n = 0 -> grown ns (<[a := n]> ns).
Proof.
  intros Hf Hl Hi. split.
  - intros x m Hm. exists m. split; [|done]. rewrite lookup_insert_ne; [done|]. intros ->. congruence.
  - intros x m Hm Hx. apply lookup_insert_Some in Hm as [[<- <-]|[_ Hm]]; [done|congruence].
Qed.

Lemma grown_trans ns1 ns2 ns3 : grown ns1 ns2 -> grown ns2 ns3 -> grown ns1 ns3.
Proof.
  intros [O1 N1] [O2 N2]. split.
  - intros a n (n2 & H2 & E2)%O1. destruct (O2 a n2 H2) as (n3 & H3 & E3). exists n3. split; [done|congruence].
  - intros a n3 H3 H1. destruct (ns2 !! a) as [n2|] eqn:H2; [|by apply (N2 a)].
    destruct (O2 a n2 H2) as (n3' & H3' & E). destruct (N1 a n2 H2 H1). injection E as _ _ El Ei.
    assert (n3' = n3) by congruence. subst n3'. split; congruence.
Qed.

Lemma grown_held ns ns' : grown ns ns' -> held ns' = held ns.
Proof.
  intros [Ho Hn]. apply map_eq. intros a. unfold held. rewrite !lookup_omap.
  destruct (ns !! a) as [n|] eqn:Ha.
  - destruct (Ho a n Ha) as (n' & -> & E). simpl. injection E as E1 E2 E3 E4. unfold entry_of. by rewrite E1 E3 E4.
  - destruct (ns' !! a) as [n'|] eqn:Ha'; [|done]. simpl. by destruct (Hn a n' Ha' Ha) as [-> _].
Qed.

Lemma grown_lockable ns ns' : grown ns ns' -> lockable ns -> lockable ns'.
Proof.
  intros [Ho Hn] Hl a n' Hn'. destruct (ns !! a) as [n|] eqn:Ha.
  - destruct (Ho a n Ha) as (m & Hm & E). assert (m = n') as -> by congruence. injection E as _ _ -> _. by apply (Hl a).
  - by destruct (Hn a n' Hn' Ha) as [-> _].
Qed.

Lemma grown_netof ns ns' a : grown ns ns' -> a ∈ dom ns -> netof ns' a = netof ns a.
Proof.
  intros [Ho _] [n Hn]%elem_of_dom. destruct (Ho a n Hn) as (n' & Hn' & E). injection E as E1 _ _ _.
  by rewrite /netof (keyof_eq _ _ _ Hn) (keyof_eq _ _ _ Hn') E1.
Qed.

(** ** Where two networks branch off, below a place *)
Lemma leads_common key c m b x y :
  leads key c x -> leads key c y -> below m b x -> below m (negb b) y ->
  leads key c m /\ Forall (fun f : step => key f.1.2 <> m) c.
Proof.
  intros Hx Hy Hb Hnb. unfold leads in *. rewrite !Forall_forall in Hx Hy *.
  assert (H : forall f, f ∈ c -> below (key f.1.2) f.1.1 m).
  { intros f Hf. specialize (Hx f Hf). specialize (Hy f Hf). simpl in Hx, Hy.
    assert (Hp : key f.1.2 ++ [f.1.1] `prefix_of` m).
    { pose proof (common_below m b x y Hb Hnb) as Hl. destruct Hx as [k1 ->], Hy as [k2 ->].
      rewrite common_app in Hl. simpl in Hl. rewrite eqb_reflx in Hl. apply below_prefix in Hb.
      rewrite (cons_middle _ _ k1) app_assoc in Hb. eapply prefix_weak_total in Hb as [H|H].
      - exact H.
      - apply prefix_length in H as H'. rewrite length_app in H'. simpl in H'.
        rewrite (prefix_length_eq _ _ H); [done|]. rewrite length_app. simpl. lia.
      - by apply prefix_app_r. }
    destruct Hp as [k ->]. exists k. by rewrite -app_assoc. }
  split; [exact H|]. intros f Hf E. specialize (H f Hf). apply below_length in H. rewrite E in H. lia.
Qed.

(** ** The walk and what is built *)
Section get.
Context (place : gmap Z (hcell rcell) -> Z -> Z) `{!Placement place} (fam : family).
Context `{!HashSpec rn_hash_node (good fam) same_net place}.
Abbreviation hP := (hpropI (hcell rcell)).
Context (rt : Z).
Abbreviation table_at := (table_at place fam).
Abbreviation counted := (counted place fam rt).

Definition arrive ns (q : list bool) (d : list (bool * Z * rtree) * rtree) : Z + Z * Z :=
  match d.2 with
  | E => inr (0, above d.1)
  | T _ a _ => if bool_decide (netof ns a `prefix_of` q) then inl a else inr (a, above d.1)
  end.

Lemma wp_get_loop ns t p c t' fuel (Q : Z + Z * Z -> hP) :
  table_wf fam rt ns t -> prefix_wf p -> t = plug c t' -> (length (nodes t') < fuel)%nat ->
  table_at rt ns t -∗ (table_at rt ns t -∗ Q (arrive ns (net p) (descend (netof ns) t' c (net p)))) -∗
  wp (get_loop fuel p (root t') (above c)) Q.
Proof.
  intros Hw Hp. revert c t'. induction fuel as [|fuel IH]; intros c t' Et Hf; [lia|].
  cbn [get_loop]. iIntros "H HQ". destruct t' as [|l a r].
  { cbn [root]. rewrite Z.eqb_refl. iApply wp_ret. by iApply "HQ". }
  destruct (wf_subtree _ _ _ _ Hw c l a r Et) as (n & Hn & Hwn & _ & El & Er). cbn [root descend].
  destruct (Z.eqb_spec a 0) as [E0|_]; [by destruct (nw_nonnull _ _ _ _ Hwn)|].
  iApply wp_bind. iApply (wp_load_table_node with "H"); [done|]. iIntros "H".
  assert (Hnp : prefix_wf (rn_p n)) by apply (nw_good _ _ _ _ Hwn).
  iApply wp_bind. iApply wp_mlift; [by apply contains_eq|].
  assert (Enet : netof ns a = net (rn_p n)) by (by rewrite /netof (keyof_eq _ _ _ Hn)). rewrite Enet.
  destruct (decide (net (rn_p n) `prefix_of` net p)) as [Hpre|Hpre].
  2: { rewrite bool_decide_eq_false_2 //. iApply wp_ret. iSpecialize ("HQ" with "H").
    rewrite /arrive /= Enet bool_decide_eq_false_2 //. }
  rewrite bool_decide_eq_true_2 //. cbn [negb].
  destruct (same_length_eq _ _ Hnp Hp Hpre) as [-> Hsame].
  destruct (net p !! length (net (rn_p n))) as [b|] eqn:Eq.
  - rewrite bool_decide_eq_false_2; [|by intros E%Hsame]. iApply wp_bind.
    iApply wp_mlift. { rewrite (good_net_len _ _ (nw_good _ _ _ _ Hwn)). by apply bit_of_eq. }
    assert (Elink : link b n = root (if b then r else l)) by (destruct b; [done|done]). rewrite Elink.
    assert (Hf' : (length (nodes (if b then r else l)) < fuel)%nat).
    { cbn [nodes] in Hf. simpl in Hf. rewrite length_app in Hf. destruct b; lia. }
    iApply (IH ((b, a, if b then l else r) :: c) with "H"); [by destruct b|done|]. destruct b; done.
  - rewrite bool_decide_eq_true_2; [|by apply Hsame]. iApply wp_ret. iSpecialize ("HQ" with "H").
    rewrite /arrive /= Enet bool_decide_eq_true_2 //.
Qed.

(** What has been built: a new node [r] with the network [q], not counted yet *)
Record built ns ns' t' (r : Z) (q : list bool) : Prop := {
  bt_wf : table_wf fam rt ns' t';
  bt_grown : grown ns ns';
  bt_in : r ∈ nodes t';
  bt_new : r ∉ dom ns;
  bt_net : netof ns' r = q;
  bt_stubs : stubs_except r ns';
  bt_size : (size ns' <= size ns + 2)%nat
}.

Lemma wp_build_leaf ns c p (Q : Z -> hP) :
  table_wf fam rt ns (plug c E) -> stubs_ok ns -> good fam p -> leads (netof ns) c (net p) ->
  Z.of_nat (size ns) + 1 < 2 ^ 30 ->
  counted (Z.of_nat (size ns)) ns (plug c E) -∗
  (∀ x ns' t', ⌜built ns ns' t' x (net p) /\ size ns' = S (size ns)⌝ → counted (Z.of_nat (size ns)) ns' t' -∗ Q x) -∗
  wp (get_leaf place rt (above c) p) Q.
Proof.
  intros Hw Hst Hp Hlead Hs. iIntros "H HQ". iApply (wp_get_leaf with "H"); [done..|].
  iIntros (a q ((Ha & Hf & Hq & En) & Hw')) "H". iApply ("HQ" with "[%] H").
  set (n := RouteNode q rt 0 0 0 0 0) in *. pose proof (same_contents_hung c a (<[a := n]> ns)) as Hsame.
  split; [split|].
  - done.
  - eapply grown_trans; [|by apply grown_same]. by apply grown_insert.
  - rewrite nodes_plug. by left.
  - by apply not_elem_of_dom.
  - by rewrite (same_netof _ _ Hsame) netof_insert_eq.
  - apply stubs_hung; [done|]. by apply stubs_insert.
  - rewrite (same_size _ _ Hsame) map_size_insert_None //. lia.
  - rewrite (same_size _ _ Hsame) map_size_insert_None //.
Qed.

Lemma grown_above ns c a b x0 t0 K :
  ns !! a = None -> grown ns (hung c a (<[a := set_child b x0 (RouteNode K rt 0 0 0 0 0)]> (parented a t0 ns))).
Proof.
  intros Hf. assert (Hs1 : same_contents ns (parented a t0 ns)) by by apply same_contents_alter.
  eapply grown_trans; [by apply grown_same, Hs1|]. eapply grown_trans; [|apply grown_same, same_contents_hung].
  apply grown_insert; [|by destruct b..]. specialize (Hs1 a). rewrite Hf in Hs1. by destruct (parented a t0 ns !! a).
Qed.

Lemma size_above ns c a b x0 t0 K :
  ns !! a = None ->
  size (hung c a (<[a := set_child b x0 (RouteNode K rt 0 0 0 0 0)]> (parented a t0 ns))) = S (size ns).
Proof.
  intros Hf. assert (Hs1 : same_contents ns (parented a t0 ns)) by by apply same_contents_alter.
  rewrite (same_size _ _ (same_contents_hung _ _ _)) map_size_insert_None; [by rewrite (same_size _ _ Hs1)|].
  specialize (Hs1 a). rewrite Hf in Hs1. by destruct (parented a t0 ns !! a).
Qed.

Lemma stubs_above ns c a b x0 t0 K :
  a <> 0 -> stubs_ok ns ->
  stubs_except a (hung c a (<[a := set_child b x0 (RouteNode K rt 0 0 0 0 0)]> (parented a t0 ns))).
Proof.
  intros Ha Hst. apply stubs_hung; [done|]. intros y m Hm Hy. rewrite lookup_insert_ne // in Hm.
  apply (stubs_alter a (set_parent a) (root t0) ns) in Hm; [by apply Hm|by intros n Hn|by apply stubs_ok_except].
Qed.

Lemma netof_above ns c a b x0 t0 K :
  netof (hung c a (<[a := set_child b x0 (RouteNode K rt 0 0 0 0 0)]> (parented a t0 ns))) a = net K.
Proof. rewrite (same_netof _ _ (same_contents_hung _ _ _)) netof_insert_eq. by destruct b. Qed.

(** The prefix is on the way to the subtree: one node. *)
Lemma wp_build_inside ns c l0 x0 r0 p (t0 := T l0 x0 r0) (Q : Z -> hP) :
  table_wf fam rt ns (plug c t0) -> stubs_ok ns -> good fam p -> leads (netof ns) c (net p) ->
  ~ netof ns x0 `prefix_of` net p -> net p `prefix_of` netof ns x0 -> Z.of_nat (size ns) + 2 < 2 ^ 30 ->
  counted (Z.of_nat (size ns)) ns (plug c t0) -∗
  (∀ x ns' t', ⌜built ns ns' t' x (net p)⌝ → counted (Z.of_nat (size ns') - 1) ns' t' -∗ Q x) -∗
  wp (get_branch place rt (above c) x0 p) Q.
Proof.
  intros Hw Hst Hp Hlead Hno Hpre Hs. iIntros "H HQ". unfold get_branch.
  assert (Hx0 : x0 ∈ nodes (plug c t0)) by (rewrite nodes_plug; by left).
  pose proof (wf_key_good _ _ _ _ Hw x0 Hx0) as Hg0.
  destruct (route_common_inside (keyof ns x0) p (rn_p blank)) as (q & Eq & Hwq & _ & Hmq & Enq);
    [apply Hg0|apply Hp|apply zero_prefix_wf|by apply (good_len fam)|done|].
  assert (Elq : prefixlen q = prefixlen p) by (rewrite -(length_net q) // Enq (good_net_len _ _ Hp); done).
  set (K := Prefix (p_family p) (prefixlen q) (u q)).
  assert (HK : good fam K).
  { split; [by destruct Hwq; split|apply Hp|exact Hmq|]. pose proof (gd_maskable _ _ Hp) as Hk.
    unfold maskable in *. cbn [p_family prefixlen K]. by rewrite Elq. }
  assert (EnK : net K = net p) by done.
  assert (Hne : length (net p) <> length (netof ns x0)).
  { intros El. apply Hno. by rewrite (prefix_length_eq _ _ Hpre); [|lia]. }
  destruct (prefix_below _ _ Hpre Hne) as [b Hb].
  iApply wp_bind. iApply (wp_get_above _ _ _ _ _ _ _ _ _ b p q with "H"); [exact Hw|exact Eq|exact HK|by rewrite -/K EnK|by rewrite -/K EnK| |lia|].
  { intros x Hx Ex. fold K in Ex. rewrite EnK in Ex. apply (tw_dom _ _ _ _ Hw) in Hx. rewrite nodes_plug in Hx. apply elem_of_app in Hx as [Hx|Hx].
    - apply Hno. rewrite -Ex. apply (routed_root_prefix _ t0); [|done].
      pose proof (tw_routed _ _ _ _ Hw) as Hr. by apply routed_plug in Hr as (_ & _ & ?).
    - apply (leads_contain (netof ns) c (net p) x t0) in Hx; [|apply Hw|done|by rewrite Ex].
      apply list_elem_of_fmap in Hx as (f & -> & Hf). unfold leads in Hlead. rewrite Forall_forall in Hlead.
      apply Hlead, below_length in Hf. rewrite Ex in Hf. lia. }
  iIntros (a ns' (Ha & Hf & E' & Hw')) "H". rewrite (proj2 (Z.eqb_eq (prefixlen q) (prefixlen p)) Elq). cbn [negb].
  iApply wp_ret. iApply ("HQ" $! a ns' (plug c (join b a t0 E)) with "[%] [H]").
  - split; rewrite ?E'; [by rewrite -E'|by apply grown_above| |by apply not_elem_of_dom|by rewrite netof_above|by apply stubs_above|rewrite size_above //; lia].
    rewrite nodes_plug nodes_join. by left.
  - assert (E1 : Z.of_nat (size ns') - 1 = Z.of_nat (size ns)) by (rewrite E' size_above //; lia).
    rewrite E1. iExact "H".
Qed.

Lemma leads_ext key key' c q :
  (forall a, a ∈ ctx_nodes c -> key' a = key a) -> leads key c q -> leads key' c q.
Proof.
  intros He. unfold leads. rewrite !Forall_forall. intros H f Hf. rewrite He; [by apply H|by apply ctx_steps].
Qed.

Lemma wp_add_count' k ns t d (Q : unit -> hP) :
  0 <= k + d < 2 ^ 64 -> counted k ns t -∗ (counted (k + d) ns t -∗ Q tt) -∗ wp (add_count rt d) Q.
Proof.
  intros Hk. iIntros "(%tbl & [%Htop %Hc] & Hp) HQ". iApply (wp_add_count with "Hp"); [by rewrite Hc|].
  iIntros "Hp". iApply "HQ". iExists _. iSplit; [|iFrame "Hp"]. iPureIntro. split; [done|]. by rewrite /= Hc.
Qed.

(** The prefix branches off above the subtree: a node for what is shared, and
    a leaf on its other side. *)
Lemma branch_facts ns c l0 x0 r0 q m b (t0 := T l0 x0 r0) :
  table_wf fam rt ns (plug c t0) -> leads (netof ns) c q ->
  below m b (netof ns x0) -> below m (negb b) q ->
  leads (netof ns) c m /\ (forall x, x ∈ dom ns -> netof ns x <> m).
Proof.
  intros Hw Hlead Hb Hnb. pose proof (tw_routed _ _ _ _ Hw) as Hr. pose proof Hr as Hr'.
  apply routed_plug in Hr' as (_ & Hlead0 & Hr0). rewrite Forall_forall in Hlead0.
  assert (H0 : leads (netof ns) c (netof ns x0)) by (apply Hlead0; by left).
  destruct (leads_common _ c m b _ _ H0 Hlead Hb Hnb) as [Hm Hpath]. split; [done|].
  intros x Hx Ex. apply (tw_dom _ _ _ _ Hw) in Hx. rewrite nodes_plug in Hx. apply elem_of_app in Hx as [Hx|Hx].
  - apply (routed_root_prefix _ _ _ Hr0) in Hx. cbn [root t0] in Hx. rewrite Ex in Hx.
    apply prefix_length in Hx. apply below_length in Hb. lia.
  - apply (leads_contain _ _ _ _ _ Hr Hm) in Hx; [|by rewrite Ex].
    apply list_elem_of_fmap in Hx as (f & -> & Hf). rewrite Forall_forall in Hpath. by apply (Hpath f).
Qed.

(** The node of a branch has two children now. *)
Lemma stubs_branch ns ns' ns'' c a b t0 x :
  table_wf fam rt ns'' (plug c (join b a t0 (T E x E))) -> t0 <> E -> a <> x ->
  (forall y n, ns'' !! y = Some n -> y <> x -> exists n', ns' !! y = Some n' /\ (stub_ok n' -> stub_ok n)) ->
  stubs_except a ns' -> (forall n, ns'' !! a = Some n -> rn_info n = 0) -> stubs_except x ns''.
Proof.
  intros Hw Ht0 Hax Hback Hst Hinfo y n Hn Hy. destruct (decide (y = a)) as [->|Hya].
  - assert (Hr0 : root t0 <> 0).
    { apply (nodes_nonnull fam rt ns'' (plug c (join b a t0 (T E x E)))); [done|].
      rewrite nodes_plug nodes_join. apply elem_of_app. left. right. apply elem_of_app. left. by apply nodes_root. }
    assert (Hx0 : x <> 0).
    { apply (nodes_nonnull fam rt ns'' (plug c (join b a t0 (T E x E)))); [done|].
      rewrite nodes_plug nodes_join. apply elem_of_app. left. right. apply elem_of_app. right. by left. }
    intros _. split; [by apply Hinfo|].
    destruct b; destruct (wf_subtree _ _ _ _ Hw _ _ _ _ eq_refl) as (n' & Hn' & _ & _ & El & Er);
      rewrite Hn in Hn'; injection Hn' as <-; by rewrite El Er.
  - destruct (Hback y n Hn Hy) as (n' & Hn' & H). apply H. by apply (Hst y).
Qed.

(** The leaf beside the subtree, when the node of the branch is there *)
Lemma wp_build_beside ns ns1 c a b t0 p k (Q : Z -> hP) :
  table_wf fam rt ns1 (plug c (join b a t0 E)) -> t0 <> E -> grown ns ns1 -> stubs_except a ns1 -> ns !! a = None -> size ns1 = S (size ns) ->
  a <> 0 -> good fam p -> leads (netof ns1) ((negb b, a, t0) :: c) (net p) -> Z.of_nat (size ns1) + 1 < 2 ^ 30 ->
  0 <= k < 2 ^ 63 -> counted k ns1 (plug c (join b a t0 E)) -∗
  (∀ x ns' t', ⌜built ns ns' t' x (net p) /\ size ns' = S (size ns1)⌝ → counted (k + 1) ns' t' -∗ Q x) -∗
  wp (new' ← route_node_set place rt p; set_link a new' ;; add_count rt 1 ;; mret new') Q.
Proof.
  intros Hw Ht0 Hg Hst Hna Es1 Ha Hp Hlead Hs Hk. set (c' := (negb b, a, t0) :: c).
  assert (Ec : forall s, plug c (join b a t0 s) = plug c' s) by (intros s; by destruct b).
  rewrite !Ec in Hw |- *. iIntros "(%tbl & [%Htop %Hc] & Hp) HQ".
  iApply wp_bind. iApply (wp_route_node_set with "Hp"); [done|by eapply leaf_new|done|].
  iIntros (x q Hx) "Hp". rewrite -(hang_nonnull rt a x Ha).
  iApply wp_bind. iApply (wp_hang_leaf place fam rt k tbl ns1 c' p x q with "Hp"); [done..|].
  destruct Hx as (Hx0 & Hfx & Hq & Enq). iIntros (Hw') "Hc".
  set (n := RouteNode q rt 0 0 0 0 0) in *. set (ns2 := hung c' x (<[x := n]> ns1)) in *.
  iApply wp_bind. iApply (wp_add_count' with "Hc"); [lia|]. iIntros "Hc". iApply wp_ret.
  pose proof (same_contents_hung c' x (<[x := n]> ns1)) as Hsame. fold ns2 in Hsame.
  assert (Hg2 : grown ns ns2).
  { eapply grown_trans; [exact Hg|]. eapply grown_trans; [|by apply grown_same]. by apply grown_insert. }
  assert (Hax : a <> x).
  { intros <-. apply not_elem_of_dom in Hfx. apply Hfx, (tw_dom _ _ _ _ Hw). rewrite nodes_plug. by left. }
  iApply ("HQ" $! x ns2 (plug c' (T E x E)) with "[%] Hc"). split; [split|].
  - done.
  - done.
  - rewrite nodes_plug. by left.
  - intros [m Hm]%elem_of_dom. destruct (gr_old _ _ Hg x m Hm) as (m' & Hm' & _). congruence.
  - by rewrite (same_netof _ _ Hsame) netof_insert_eq.
  - apply (stubs_branch ns ns1 ns2 c a b t0 x); [by rewrite Ec|done|done| |done|].
    + intros y m Hm Hy. apply hung_stub in Hm as (m0 & Hm & ?); [|done]. rewrite lookup_insert_ne // in Hm.
      by exists m0.
    + intros m Hm. by apply (gr_new _ _ Hg2 a m).
  - rewrite (same_size _ _ Hsame) map_size_insert_None //. lia.
  - rewrite (same_size _ _ Hsame) map_size_insert_None //.
Qed.

Lemma wp_build_branch ns c l0 x0 r0 p (t0 := T l0 x0 r0) (Q : Z -> hP) :
  table_wf fam rt ns (plug c t0) -> stubs_ok ns -> good fam p -> leads (netof ns) c (net p) ->
  ~ netof ns x0 `prefix_of` net p -> ~ net p `prefix_of` netof ns x0 -> Z.of_nat (size ns) + 2 < 2 ^ 30 ->
  counted (Z.of_nat (size ns)) ns (plug c t0) -∗
  (∀ x ns' t', ⌜built ns ns' t' x (net p)⌝ → counted (Z.of_nat (size ns') - 1) ns' t' -∗ Q x) -∗
  wp (get_branch place rt (above c) x0 p) Q.
Proof.
  intros Hw Hst Hp Hlead Hno Hno' Hs. iIntros "H HQ". unfold get_branch.
  assert (Hx0 : x0 ∈ nodes (plug c t0)) by (rewrite nodes_plug; by left).
  pose proof (wf_key_good _ _ _ _ Hw x0 Hx0) as Hg0.
  destruct (branch _ _ Hno Hno') as (m & b & Hb & Hnb).
  destruct (branch_facts ns c l0 x0 r0 (net p) m b Hw Hlead Hb Hnb) as [Hm Hfresh].
  destruct (route_common_branch (keyof ns x0) p (rn_p blank)) with (m := m) (b := b) as (q & Eq & Hwq & _ & Hmq & Enq & Elq);
    [apply Hg0|apply Hp|apply zero_prefix_wf|by apply (good_len fam)|done|done|].
  pose proof (below_length _ _ _ Hnb) as Hlt. pose proof (good_net_len _ _ Hp) as Lp.
  set (K := Prefix (p_family p) (prefixlen q) (u q)).
  assert (HK : good fam K).
  { split; [by destruct Hwq; split|apply Hp|exact Hmq|]. pose proof (gd_maskable _ _ Hp) as Hk.
    unfold maskable in *. cbn [p_family prefixlen K]. destruct Hk as [[? ?]|[? ?]]; [left|right]; split; try done; lia. }
  assert (EnK : net K = m) by done.
  iApply wp_bind. iApply (wp_get_above _ _ _ _ _ _ _ _ _ b p q with "H");
    [exact Hw|exact Eq|exact HK|by rewrite -/K EnK|by rewrite -/K EnK|by rewrite -/K EnK|lia|].
  iIntros (a ns' (Ha & Hf & E' & Hw')) "H". destruct (Z.eqb_spec (prefixlen q) (prefixlen p)) as [E0|_]; [lia|].
  cbn [negb]. assert (Hgr : grown ns ns') by (rewrite E'; by apply grown_above).
  assert (Es : size ns' = S (size ns)) by (rewrite E'; by apply size_above).
  iApply (wp_build_beside ns ns' c a b t0 p with "H"); [done|done|done|rewrite E'; by apply stubs_above|done|done|done|done| |lia|lia|].
  - constructor; cbn [fst snd].
    + rewrite E' netof_above. by rewrite -/K EnK.
    + eapply leads_ext; [|exact Hlead]. intros y Hy. apply grown_netof; [done|].
      apply (tw_dom _ _ _ _ Hw). rewrite nodes_plug. apply elem_of_app. by right.
  - iIntros (x ns2 t2 [Hb2 E2]) "H". iApply ("HQ" $! x ns2 t2 with "[//]").
    assert (E3 : Z.of_nat (size ns2) - 1 = Z.of_nat (size ns) + 1) by lia. rewrite E3. iExact "H".
Qed.

(** *** The whole operation *)
Lemma table_counted ns t : table_at rt ns t ⊣⊢ counted (Z.of_nat (size ns)) ns t.
Proof. done. Qed.

(** [r] is held once more, for the network [q]. *)
Record gotten ns ns' t' (r : Z) (q : list bool) : Prop := {
  gt_wf : table_wf fam rt ns' t';
  gt_stubs : stubs_ok ns';
  gt_in : r ∈ nodes t';
  gt_net : netof ns' r = q;
  gt_old : forall n, ns !! r = Some n -> net (rn_p n) = q;
  gt_held : held ns' = <[r := Entry q (lock_of ns r + 1) (infoof ns r)]> (held ns)
}.

Lemma gotten_lock ns ns1 t1 (r : Z) q :
  table_wf fam rt ns1 t1 -> grown ns ns1 -> stubs_except r ns1 -> r ∈ nodes t1 -> netof ns1 r = q ->
  table_wf fam rt (lock_node ns1 r) t1 -> gotten ns (lock_node ns1 r) t1 r q.
Proof.
  intros Hw Hg Hst Hin Hnet Hw'. destruct (wf_lookup _ _ _ _ Hw r Hin) as (n & Hn & Hwn).
  pose proof (nw_lock _ _ _ _ Hwn) as Hl. split; [done|by apply (stubs_locked _ _ n); [done|done|lia]|done| | |].
  - rewrite (lock_node_eq _ _ _ Hn) netof_insert_eq. by rewrite -Hnet /netof (keyof_eq _ _ _ Hn).
  - intros n0 Hr. destruct (gr_old _ _ Hg r n0 Hr) as (n' & Hn' & Ec). injection Ec as Ep _ _ _.
    by rewrite -Ep -Hnet /netof (keyof_eq _ _ _ Hn').
  - rewrite (held_lock _ _ _ Hn); [|lia]. rewrite (grown_held _ _ Hg). f_equal.
    rewrite -Hnet /netof (keyof_eq _ _ _ Hn). unfold lock_of, infoof.
    destruct (ns !! r) as [n0|] eqn:Hr.
    + destruct (gr_old _ _ Hg r n0 Hr) as (n' & Hn' & Ec). assert (n' = n) as -> by congruence.
      by injection Ec as _ _ -> ->.
    + by destruct (gr_new _ _ Hg r n Hn Hr) as [-> ->].
Qed.

Lemma wp_hold ns ns1 t1 (r : Z) q (Q : Z -> hP) :
  table_wf fam rt ns1 t1 -> lockable ns -> grown ns ns1 -> stubs_except r ns1 -> r ∈ nodes t1 -> netof ns1 r = q ->
  table_at rt ns1 t1 -∗ (∀ ns' t', ⌜gotten ns ns' t' r q⌝ → table_at rt ns' t' -∗ Q r) -∗
  wp (route_lock_node r) Q.
Proof.
  intros Hw Hl Hg Hst Hin Hnet. iIntros "H HQ".
  iApply (wp_lock with "H"); [done|by eapply grown_lockable|done|].
  iIntros (Hw') "H". iApply ("HQ" with "[%] H"). by apply (gotten_lock ns ns1 t1).
Qed.

(** A new node is counted and held. *)
Lemma wp_finish ns ns' t' x q (Q : Z -> hP) :
  built ns ns' t' x q -> lockable ns -> Z.of_nat (size ns) + 2 < 2 ^ 30 ->
  counted (Z.of_nat (size ns') - 1) ns' t' -∗
  (∀ ns2 t2, ⌜gotten ns ns2 t2 x q⌝ → table_at rt ns2 t2 -∗ Q x) -∗
  wp (add_count rt 1 ;; route_lock_node x) Q.
Proof.
  intros [Hw Hg Hin _ Hnet Hst Hsz] Hl Hs. iIntros "Hc HQ".
  assert (Hpos : (0 < size ns')%nat).
  { rewrite (wf_size _ _ _ _ Hw). destruct (nodes t') as [|y l]; [by apply not_elem_of_nil in Hin|]. simpl. lia. }
  iApply wp_bind. iApply (wp_add_count' with "Hc"); [lia|]. iIntros "Hc".
  iApply (wp_hold ns ns' t' x q with "[Hc]"); [done..| |done]. rewrite table_counted.
  assert (E1 : Z.of_nat (size ns') - 1 + 1 = Z.of_nat (size ns')) by lia. rewrite E1. iExact "Hc".
Qed.

Context (stack : list Z) (Hstack : Forall is_byte stack) (Hlen : length stack = 40%nat).

Lemma wp_found ns t (r : Z) (Q : bool -> hP) :
  table_wf fam rt ns t -> (r = 0 \/ r ∈ nodes t) ->
  table_at rt ns t -∗ (table_at rt ns t -∗ Q (negb (infoof ns r =? 0) && negb (r =? 0))) -∗
  wp (if r =? 0 then mret false else n ← load_node r; mret (negb (rn_info n =? 0))) Q.
Proof.
  intros Hw Hr. iIntros "H HQ". destruct (Z.eqb_spec r 0) as [->|H0].
  { iApply wp_ret. rewrite andb_false_r. by iApply "HQ". }
  destruct Hr as [|Hr]; [done|]. destruct (wf_lookup _ _ _ _ Hw r Hr) as (n & Hn & _).
  iApply wp_bind. iApply (wp_load_table_node with "H"); [done|]. iIntros "H". iApply wp_ret.
  unfold infoof. rewrite Hn andb_true_r. by iApply "HQ".
Qed.

Lemma wp_route_node_get ns t p (Q : Z -> hP) :
  table_wf fam rt ns t -> stubs_ok ns -> lockable ns -> query fam p -> Z.of_nat (size ns) + 2 < 2 ^ 30 ->
  table_at rt ns t -∗
  (∀ (r : Z) ns' t', ⌜gotten ns ns' t' r (net p)⌝ → table_at rt ns' t' -∗ Q r) -∗
  wp (route_node_get place stack rt p) Q.
Proof.
  intros Hw Hst Hl [Hp Hf Hm] Hs. destruct (search_key_eq fam stack p) as (k & Ek & Hk & En); [done..|].
  rewrite -En. iIntros "H HQ". iApply wp_bind. iApply wp_mlift; [exact Ek|]. clear p Hp Hf Hm En Ek.
  iApply wp_bind. iApply (wp_exact with "H"); [done..|]. iIntros (r Hr) "H".
  assert (Hin : r = 0 \/ r ∈ nodes t) by (destruct Hr as [[-> _]|[? _]]; auto).
  iApply wp_bind. iApply (wp_found with "H"); [done|done|]. iIntros "H".
  destruct (negb (infoof ns r =? 0) && negb (r =? 0)) eqn:Efound.
  { apply andb_true_iff in Efound as [_ Er%negb_true_iff%Z.eqb_neq].
    destruct (exact_nonnull _ _ _ _ _ _ Hw Hr Er) as [Hin' E].
    iApply (wp_hold ns ns t r with "H"); [done|done|by apply grown_same|by apply stubs_ok_except|done|done|].
    iIntros (ns' t') "%Hg H". by iApply ("HQ" with "[//]"). }
  iApply wp_bind. iApply (wp_table_top with "H"). iIntros (tbl [Et _]) "H". rewrite Et.
  iApply wp_bind. iApply (wp_mem_fuel _ _ _ (table_at_least _ _ _ ns t) with "H"). iIntros (fuel Hfuel) "H".
  pose proof (descend_plug (netof ns) t [] (net k)) as Hplug.
  pose proof (descend_leads (netof ns) t [] (net k) ltac:(constructor)) as Hlead.
  pose proof (descend_end (netof ns) t [] (net k)) as Hend.
  iApply wp_bind. change (wp (get_loop (S fuel) k (root t) 0)) with (wp (get_loop (S fuel) k (root t) (above []))).
  iApply (wp_get_loop with "H"); [done|apply Hk|done|rewrite -(wf_size _ _ _ _ Hw); lia|]. iIntros "H".
  destruct (descend (netof ns) t [] (net k)) as [c t'] eqn:Ed. cbn [fst snd plug] in Hplug, Hlead, Hend.
  subst t. unfold arrive. cbn [fst snd]. destruct t' as [|l a0 r0].
  - cbn [Z.eqb]. rewrite table_counted. iApply wp_bind.
    iApply (wp_build_leaf with "H"); [done..|lia|]. iIntros (x ns' t' [Hb Es]) "H".
    iApply (wp_finish ns ns' t' x with "[H]"); [done..| |done].
    assert (E1 : Z.of_nat (size ns') - 1 = Z.of_nat (size ns)) by lia. rewrite E1. iExact "H".
  - assert (Ha0 : a0 ∈ nodes (plug c (T l a0 r0))) by (rewrite nodes_plug; by left).
    destruct (decide (netof ns a0 `prefix_of` net k)) as [Hpre|Hno].
    { rewrite bool_decide_eq_true_2 //. specialize (Hend Hpre).
      iApply (wp_hold ns ns (plug c (T l a0 r0)) a0 with "H"); [done|done|by apply grown_same|by apply stubs_ok_except|done|done|].
      iIntros (ns' t') "%Hg H". by iApply ("HQ" with "[//]"). }
    rewrite bool_decide_eq_false_2 //. pose proof (nodes_nonnull _ _ _ _ _ Hw Ha0) as Hnz.
    destruct (Z.eqb_spec a0 0) as [|_]; [done|]. rewrite table_counted.
    iApply wp_bind. destruct (decide (net k `prefix_of` netof ns a0)) as [Hpre|Hno'].
    + iApply (wp_build_inside with "H"); [done..|]. iIntros (x ns' t' Hb) "H".
      by iApply (wp_finish ns ns' t' x with "H").
    + iApply (wp_build_branch with "H"); [done..|]. iIntros (x ns' t' Hb) "H".
      by iApply (wp_finish ns ns' t' x with "H").
Qed.
End get.
