(* ===== verification/RouteDelete.v ===== *)
(** * Unlocking nodes of route tables

    A node that loses its last reference is taken out of the tree if it has
    at most one child, and so are the nodes above it that were there only for
    it. *)

From iris.proofmode Require Import proofmode.
From S2P Require Import Prelude SepLogic Heap ThashSize Thash ThashResize ThashSet ThashIter FrrPrefix FrrPrefixBits RouteTable RouteTree RouteKey RouteHeap RouteSearch RouteInsert RouteGet.

#[local] Open Scope Z_scope.

Implicit Types ns : gmap Z route_node.
Implicit Types t l r s : rtree.
Implicit Types c : list (bool * Z * rtree).

(** ** Taking out a node *)

(** The subtree of a node with one child at most *)
Definition sole l r : rtree := match l with E => r | _ => l end.

(** The node [a] is gone, and the subtree [t1] is in its place. *)
Definition adopted c t1 ns : gmap Z route_node := relink c (root t1) (alter (set_parent (above c)) (root t1) ns).
Definition spliced c t1 (a : Z) ns : gmap Z route_node := delete a (adopted c t1 ns).

Lemma same_contents_adopted c t1 ns : same_contents ns (adopted c t1 ns).
Proof. apply (same_contents_trans _ (alter (set_parent (above c)) (root t1) ns)); [by apply same_contents_alter|apply same_contents_relink]. Qed.

Lemma netof_spliced c t1 a x ns : x <> a -> netof (spliced c t1 a ns) x = netof ns x.
Proof.
  intros Hx. unfold netof, keyof, spliced. rewrite lookup_delete_ne; [|done].
  exact (same_netof _ _ (same_contents_adopted c t1 ns) x).
Qed.

Lemma links_spliced_ne c t1 a x ns :
  x <> a -> x <> root t1 -> links (spliced c t1 a ns) x = links (relink c (root t1) ns) x.
Proof.
  intros Ha Hr. unfold links, spliced, adopted. rewrite lookup_delete_ne; [|done].
  assert (E : alter (set_parent (above c)) (root t1) ns !! x = ns !! x) by (apply lookup_alter_ne; congruence).
  destruct c as [|[[b p] s] c]; cbn [relink]; [by rewrite E|].
  destruct (decide (p = x)) as [->|Hne]; [by rewrite !lookup_alter_eq E|by rewrite !lookup_alter_ne // E].
Qed.

Section splice.
Context (fam : family) (rt : Z) ns c (l : rtree) (a : Z) (r : rtree).
Context (Hw : table_wf fam rt ns (plug c (T l a r))) (Hone : l = E \/ r = E).
Let t1 : rtree := sole l r.

Lemma splice_nodes : nodes (T l a r) = a :: nodes t1.
Proof. unfold t1, sole. destruct Hone as [-> | ->]; cbn [nodes]; [done|]. rewrite app_nil_r. by destruct l. Qed.

Lemma splice_disjoint :
  a ∉ nodes t1 /\ a ∉ ctx_nodes c /\ NoDup (nodes t1) /\ NoDup (ctx_nodes c) /\
  (forall x, x ∈ nodes t1 -> x ∉ ctx_nodes c) /\ (forall x, x ∈ nodes t1 ++ ctx_nodes c <-> x ∈ dom ns /\ x <> a).
Proof.
  pose proof (tw_nodup _ _ _ _ Hw) as Hnd. pose proof (tw_dom _ _ _ _ Hw) as Hd.
  setoid_rewrite nodes_plug in Hd. rewrite nodes_plug in Hnd. rewrite splice_nodes in Hnd.
  setoid_rewrite splice_nodes in Hd. cbn [app] in *. apply NoDup_cons in Hnd as [Ha Hnd].
  apply NoDup_app in Hnd as (H1 & H2 & H3). rewrite elem_of_app in Ha. split_and!; [tauto|tauto|done|done|done|].
  intros x. rewrite -Hd elem_of_cons elem_of_app. split; [|tauto].
  intros Hx. split; [tauto|]. intros ->. tauto.
Qed.

Lemma wf_splice : table_wf fam rt (spliced c t1 a ns) (plug c t1).
Proof.
  destruct splice_disjoint as (Ha1 & Hac & Hnd1 & Hndc & Hdisj & Hin).
  assert (Hr0 : forall x, x ∈ ctx_nodes c -> x <> root t1).
  { intros x Hx ->. destruct t1 as [|l1 a1 r1] eqn:E1; [|by apply (Hdisj a1); [left|]].
    cbn [root] in Hx. assert (H0 : 0 ∈ nodes (plug c (T l a r))) by (rewrite nodes_plug; apply elem_of_app; by right).
    by destruct (nodes_nonnull _ _ _ _ _ Hw H0). }
  pose proof (tw_links _ _ _ _ Hw) as Hl. rewrite linked_plug in Hl. destruct Hl as [_ Hl].
  pose proof (tw_routed _ _ _ _ Hw) as Hr. apply routed_plug in Hr as (_ & Hlead & Hrt).
  rewrite splice_nodes in Hlead. apply Forall_cons in Hlead as [_ Hlead].
  assert (Hl1 : linked ns a t1) by (cbn [linked] in Hl; unfold t1, sole; destruct Hl as (_ & ? & ?); by destruct l).
  assert (Hr1 : routed (netof ns) t1) by (cbn [routed] in Hrt; unfold t1, sole; destruct Hrt as (_ & _ & ? & ?); by destruct l).
  apply (wf_replace fam rt ns _ c (T l a r)); [done|..].
  - apply map_Forall_delete. eapply same_nodes; [apply same_contents_adopted|apply Hw].
  - intros x. rewrite nodes_plug dom_delete (same_dom _ _ (same_contents_adopted c t1 ns)) Hin. set_solver.
  - rewrite nodes_plug. by apply NoDup_app.
  - intros x Hx. apply netof_spliced. by intros ->.
  - intros x Hx. apply links_spliced_ne; [by intros ->|by apply Hr0].
  - clear Hone Hr1 Hlead Hin. revert Ha1 Hdisj Hnd1 Hl1 Hr0. generalize t1 as t2. clear t1. intros t2 Ha1 Hdisj Hnd1 Hl1 Hr0.
    destruct t2 as [|l1 a1 r1]; [done|]. cbn [linked nodes] in *. destruct Hl1 as (E1 & H1 & H2).
    apply NoDup_cons in Hnd1 as [Hx _].
    assert (Hsame : forall x, x ∈ nodes l1 ++ nodes r1 -> links (spliced c (T l1 a1 r1) a ns) x = links ns x).
    { intros x Hx'. rewrite links_spliced_ne; [|intros ->; apply Ha1; by right|intros ->; by apply Hx].
      apply links_relink_ne, Hdisj. by right. }
    split_and!.
    + assert (Hne : a1 <> a) by (intros ->; apply Ha1; by left).
      unfold spliced, adopted, links. rewrite lookup_delete_ne; [|done]. fold (links (relink c (root (T l1 a1 r1)) (alter (set_parent (above c)) (root (T l1 a1 r1)) ns)) a1).
      rewrite links_relink_ne; [|apply Hdisj; by left]. cbn [root]. by rewrite links_set_parent E1.
    + eapply linked_ext; [|exact H1]. intros x Hx'. apply Hsame, elem_of_app. by left.
    + eapply linked_ext; [|exact H2]. intros x Hx'. apply Hsame, elem_of_app. by right.
  - eapply routed_ext; [|exact Hr1]. intros x Hx. symmetry. apply netof_spliced. by intros ->.
  - rewrite Forall_forall in Hlead. apply Forall_forall. intros x Hx. rewrite netof_spliced; [by apply Hlead|by intros ->].
Qed.
End splice.

(** The test on the parent's left link finds the side of a subtree. *)
Lemma parent_side fam rt ns c b a s t0 :
  table_wf fam rt ns (plug ((b, a, s) :: c) t0) -> t0 <> E ->
  a <> 0 /\ exists n, ns !! a = Some n /\ negb (l_left n =? root t0) = b.
Proof.
  intros Hw Ht0. cbn [plug] in Hw.
  assert (Hin : forall x, x ∈ a :: nodes t0 -> x <> 0).
  { intros x Hx. apply (nodes_nonnull _ _ _ _ _ Hw). rewrite nodes_plug nodes_join. apply elem_of_app. left.
    apply elem_of_cons in Hx as [->|Hx]; [by left|right]. apply elem_of_app. by left. }
  split; [apply Hin; by left|]. pose proof (tw_nodup _ _ _ _ Hw) as Hnd. rewrite nodes_plug nodes_join in Hnd.
  apply NoDup_app in Hnd as ([_ Hnd]%NoDup_cons & _ & _). apply NoDup_app in Hnd as (_ & Hd & _).
  assert (Hr0 : root t0 <> root s).
  { intros E0. apply (Hd (root t0)); [by apply nodes_root|]. rewrite E0. apply nodes_root. intros ->.
    cbn [root] in E0. apply (Hin (root t0)); [|done]. right. by apply nodes_root. }
  destruct b; destruct (wf_subtree _ _ _ _ Hw _ _ _ _ eq_refl) as (n & Hn & _ & _ & El & Er); exists n;
    (split; [done|]); rewrite El.
  - by destruct (Z.eqb_spec (root s) (root t0)).
  - by rewrite Z.eqb_refl.
Qed.

(** ** In memory *)
Section delete.
Context (place : gmap Z (hcell rcell) -> Z -> Z) `{!Placement place} (fam : family).
Context `{!HashSpec rn_hash_node (good fam) same_net place}.
Abbreviation hP := (hpropI (hcell rcell)).
Context (rt : Z).
Abbreviation table_at := (table_at place fam rt).
Abbreviation counted := (counted place fam rt).
Abbreviation parts := (parts place fam rt).

(** [node->parent->l_left = child] or the like *)
Lemma wp_relink tbl ns c t0 child m (node : Z) (Q : unit -> hP) :
  table_wf fam rt ns (plug c t0) -> node = root t0 -> t0 <> E -> same_contents ns m ->
  (forall x, x ∈ ctx_nodes c -> m !! x = ns !! x) ->
  parts tbl m -∗ (parts (new_top c child tbl) (relink c child m) -∗ Q tt) -∗
  wp (if negb (above c =? 0) then
        p ← load_node (above c); update_node (above c) (set_child (negb (l_left p =? node)) child)
      else update_table rt (set_top child)) Q.
Proof.
  intros Hw -> Ht0 Hs Hm. iIntros "Hp HQ". destruct c as [|[[b a] s] c]; cbn [above].
  { cbn [Z.eqb negb]. iDestruct "Hp" as "(Ht & Hh & Hn)". iApply (wp_update_table with "Ht"). iIntros "Ht".
    iApply "HQ". iFrame. }
  destruct (parent_side fam rt ns c b a s t0 Hw Ht0) as (Ha0 & n & Hn & Hb).
  destruct (Z.eqb_spec a 0) as [|_]; [done|]. cbn [negb].
  iApply wp_bind. iApply (wp_parts_load with "Hp"); [by rewrite Hm; [|left]|]. iIntros "Hp". rewrite Hb.
  iApply (wp_parts_update with "Hp"); [rewrite (same_dom _ _ Hs); by apply elem_of_dom|by intros; destruct b|done].
Qed.

(** A node leaves the hash table and is freed. *)
Lemma wp_leave {B} tbl ns a (k : M _ B) (Q : B -> hP) :
  a ∈ dom ns ->
  parts tbl ns -∗ (parts tbl (delete a ns) -∗ wp k Q) -∗
  wp (hash_del rn_hash_node place (table_hash rt) a ;; route_node_free a ;; k) Q.
Proof.
  intros Ha. iIntros "(Ht & Hh & Hn) HQ". iApply wp_bind. iApply (hs_del with "Hh"); [done|]. iIntros "Hh Hi".
  apply elem_of_dom in Ha as [n Hn]. unfold nodes_at at 1. iDestruct (big_sepM_delete _ _ _ _ Hn with "Hn") as "[Ha Hn]".
  iDestruct "Hi" as (x y) "[Hx Hy]". iApply wp_bind. unfold route_node_free, route_node_destroy.
  iApply (wp_free_all _ [CUser (RNode n); CPtr x; CWord y] with "[Ha Hx Hy]"); [done| |].
  - simpl. rewrite /item_of /=. iFrame.
  - iApply "HQ". iFrame. rewrite dom_delete_L. iApply (hs_ext with "Hh").
    intros z Hz. unfold keyof. rewrite lookup_delete_ne; [done|set_solver].
Qed.

Lemma root_sole ns c l a r :
  table_wf fam rt ns (plug c (T l a r)) -> (if negb (root l =? 0) then root l else root r) = root (sole l r).
Proof.
  intros Hw. destruct l as [|l1 x l2]; [done|]. cbn [root sole].
  assert (Hx : x ∈ nodes (plug c (T (T l1 x l2) a r))).
  { rewrite nodes_plug. apply elem_of_app. left. right. by left. }
  pose proof (nodes_nonnull _ _ _ _ _ Hw Hx). by destruct (Z.eqb_spec x 0).
Qed.

Lemma alter_nothing (f : route_node -> route_node) (a : Z) ns : ns !! a = None -> alter f a ns = ns.
Proof.
  intros Hn. apply map_eq. intros x. destruct (decide (a = x)) as [->|Hne]; [by rewrite lookup_alter_eq Hn|].
  by rewrite lookup_alter_ne.
Qed.

Lemma wp_adopt_child tbl ns c l a r (parent : Z) (Q : unit -> hP) :
  table_wf fam rt ns (plug c (T l a r)) ->
  parts tbl ns -∗ (parts tbl (alter (set_parent parent) (root (sole l r)) ns) -∗ Q tt) -∗
  wp (mwhen (negb (root (sole l r) =? 0)) (update_node (root (sole l r)) (set_parent parent))) Q.
Proof.
  intros Hw. iIntros "Hp HQ". destruct (Z.eqb_spec (root (sole l r)) 0) as [E0|E0]; cbn [negb mwhen].
  - iApply wp_ret. rewrite E0 alter_nothing; [by iApply "HQ"|]. apply not_elem_of_dom. rewrite -(tw_dom _ _ _ _ Hw).
    intros H0. by destruct (nodes_nonnull _ _ _ _ _ Hw H0).
  - iApply (wp_parts_update with "Hp"); [|done|done]. apply (tw_dom _ _ _ _ Hw). rewrite nodes_plug.
    apply elem_of_app. left. right. apply elem_of_app. destruct l as [|l1 x l2].
    + right. apply nodes_root. intros ->. by cbn in E0.
    + left. by left.
Qed.

Lemma wp_unlink_node ns c l a r (Q : Z -> hP) :
  table_wf fam rt ns (plug c (T l a r)) -> l = E \/ r = E -> Z.of_nat (size ns) < 2 ^ 63 ->
  table_at ns (plug c (T l a r)) -∗
  (⌜table_wf fam rt (spliced c (sole l r) a ns) (plug c (sole l r))⌝ →
     table_at (spliced c (sole l r) a ns) (plug c (sole l r)) -∗ Q (above c)) -∗
  wp (unlink_node place a) Q.
Proof.
  intros Hw Hone Hs. pose proof (wf_splice fam rt ns c l a r Hw Hone) as Hw'.
  destruct (splice_disjoint fam rt ns c l a r Hw Hone) as (_ & Hac & _ & _ & Hdisj & Hin).
  destruct (wf_subtree _ _ _ _ Hw c l a r eq_refl) as (n & Hn & Hwn & Epar & El & Er).
  iIntros "H HQ". unfold unlink_node. iApply wp_bind. iApply (wp_load_table_node with "H"); [done|]. iIntros "H".
  rewrite El Er (root_sole _ _ _ _ _ Hw) Epar (nw_table _ _ _ _ Hwn).
  iDestruct "H" as (tbl) "[[%Htop %Hcount] Hp]". iApply wp_bind. iApply (wp_adopt_child with "Hp"); [done|]. iIntros "Hp".
  assert (Hs1 : same_contents ns (alter (set_parent (above c)) (root (sole l r)) ns)) by by apply same_contents_alter.
  iApply wp_bind. iApply (wp_relink _ ns c (T l a r) (root (sole l r)) with "Hp"); [done|done|done|done| |].
  { intros x Hx. apply lookup_alter_ne. intros <-. destruct (sole l r) as [|l1 x1 r1] eqn:Esole.
    - assert (H0 : 0 ∈ nodes (plug c (T l a r))) by (rewrite nodes_plug; apply elem_of_app; by right).
      by destruct (nodes_nonnull _ _ _ _ _ Hw H0).
    - by apply (Hdisj x1); [left|]. }
  iIntros "Hp". fold (adopted c (sole l r) ns).
  iApply wp_bind. iApply (wp_add_count with "Hp").
  { assert (Hpos : (0 < size ns)%nat).
    { rewrite (wf_size _ _ _ _ Hw) nodes_plug. simpl. lia. }
    destruct c; cbn [new_top rt_count set_top]; lia. }
  iIntros "Hp". iApply (wp_leave with "Hp").
  { rewrite (same_dom _ _ (same_contents_adopted c (sole l r) ns)). by apply elem_of_dom. }
  iIntros "Hp". iApply wp_ret. iApply ("HQ" with "[//]"). iExists _. iSplit; [|iFrame "Hp"].
  iPureIntro. split.
  - destruct c as [|f c]; [done|]. rewrite (rtree_root_plug (f :: c)) in Htop. rewrite (rtree_root_plug (f :: c)). exact Htop.
  - assert (Esz : size (spliced c (sole l r) a ns) = pred (size ns)).
    { unfold spliced. rewrite map_size_delete_Some.
      - by rewrite (same_size _ _ (same_contents_adopted c (sole l r) ns)).
      - apply elem_of_dom. rewrite (same_dom _ _ (same_contents_adopted c (sole l r) ns)). by apply elem_of_dom. }
    assert (Hpos : (0 < size ns)%nat) by (rewrite (wf_size _ _ _ _ Hw) nodes_plug; simpl; lia).
    rewrite Esz. destruct c; cbn [new_top rt_count set_top set_rt_count]; lia.
Qed.

(** *** Deleting *)
Lemma held_delete ns a n : ns !! a = Some n -> rn_lock n = 0 -> held (delete a ns) = held ns.
Proof.
  intros Hn Hl. apply map_eq. intros x. unfold held. rewrite !lookup_omap.
  destruct (decide (x = a)) as [->|Hne]; [rewrite lookup_delete_eq Hn /= Hl; done|by rewrite lookup_delete_ne].
Qed.

(** Out of the nodes that nobody holds, only the parent may lose a child. *)
Lemma stubs_spliced ns c l a r :
  table_wf fam rt ns (plug c (T l a r)) -> stubs_except a ns ->
  stubs_except (above c) (spliced c (sole l r) a ns).
Proof.
  intros Hw Hst y m Hm Hy. unfold spliced in Hm. apply lookup_delete_Some in Hm as [Hya Hm].
  unfold adopted in Hm. assert (Hm' : alter (set_parent (above c)) (root (sole l r)) ns !! y = Some m).
  { destruct c as [|[[b p] s] c]; [done|]. cbn [relink above] in *. by rewrite lookup_alter_ne in Hm. }
  apply alter_stub in Hm' as (m0 & Hm0 & H); [|by intros x Hx]. apply H, (Hst y); [done|congruence].
Qed.

Lemma wp_route_node_delete fuel ns c l a r n (Q : unit -> hP) :
  table_wf fam rt ns (plug c (T l a r)) -> stubs_except a ns -> ns !! a = Some n -> rn_lock n = 0 -> rn_info n = 0 ->
  (size ns <= fuel)%nat -> Z.of_nat (size ns) < 2 ^ 63 ->
  table_at ns (plug c (T l a r)) -∗
  (∀ ns' t', ⌜table_wf fam rt ns' t' /\ stubs_ok ns' /\ held ns' = held ns⌝ → table_at ns' t' -∗ Q tt) -∗
  wp (route_node_delete place fuel a) Q.
Proof.
  revert ns c l a r n. induction fuel as [|fuel IH]; intros ns c l a r n Hw Hst Hn Hl Hi Hf Hs.
  { rewrite (wf_size _ _ _ _ Hw) nodes_plug in Hf. simpl in Hf. lia. }
  destruct (wf_subtree _ _ _ _ Hw c l a r eq_refl) as (n' & Hn' & Hwn & _ & El & Er).
  assert (n' = n) as -> by congruence. cbn [route_node_delete]. iIntros "H HQ".
  iApply wp_bind. iApply (wp_load_table_node with "H"); [done|]. iIntros "H". rewrite Hl Hi.
  iApply wp_bind. iApply wp_massert; [done|]. iApply wp_bind. iApply wp_massert; [done|].
  destruct (negb (l_left n =? 0) && negb (l_right n =? 0)) eqn:Eboth.
  { apply andb_true_iff in Eboth as [E1%negb_true_iff%Z.eqb_neq E2%negb_true_iff%Z.eqb_neq].
    iApply wp_ret. iApply ("HQ" with "[%] H"). split_and!; [done| |done].
    intros y m Hm. destruct (decide (y = a)) as [->|Hya]; [|by apply (Hst y)].
    assert (m = n) as -> by congruence. by intros _. }
  assert (Hone : l = E \/ r = E).
  { apply andb_false_iff in Eboth as [E1%negb_false_iff%Z.eqb_eq|E1%negb_false_iff%Z.eqb_eq]; [left|right].
    - apply (wf_root_nonnull fam rt ns _ Hw l ((false, a, r) :: c)); [done|congruence].
    - apply (wf_root_nonnull fam rt ns _ Hw r ((true, a, l) :: c)); [done|congruence]. }
  iApply wp_bind. iApply (wp_unlink_node with "H"); [done..|]. iIntros (Hw') "H".
  pose proof (stubs_spliced ns c l a r Hw Hst) as Hst'.
  set (ns' := spliced c (sole l r) a ns) in *.
  pose proof (same_contents_adopted c (sole l r) ns) as Hsame.
  assert (Hheld : held ns' = held ns).
  { rewrite -(held_same _ _ Hsame). destruct (same_lookup _ _ Hsame a n Hn) as (m & Hm & Ec).
    injection Ec as _ _ Elock _. eapply held_delete; [exact Hm|congruence]. }
  assert (Hsize : (size ns' <= fuel)%nat /\ Z.of_nat (size ns') < 2 ^ 63).
  { unfold ns', spliced. rewrite map_size_delete_Some; [rewrite (same_size _ _ Hsame); lia|].
    apply elem_of_dom. rewrite (same_dom _ _ Hsame). by apply elem_of_dom. }
  destruct c as [|[[b p] s] c]; cbn [above].
  { rewrite Z.eqb_refl. iApply wp_ret. iApply ("HQ" with "[%] H"). split_and!; [done| |done].
    intros y m Hm. apply (Hst' y); [done|]. cbn [above]. apply (nodes_nonnull _ _ _ _ _ Hw').
    apply (tw_dom _ _ _ _ Hw'). by apply elem_of_dom. }
  assert (Hp : p ∈ nodes (plug c (join b p (sole l r) s))) by (rewrite nodes_plug nodes_join; by left).
  destruct (wf_lookup _ _ _ _ Hw' p Hp) as (m & Hm & Hwm). cbn [above] in *.
  destruct (Z.eqb_spec p 0) as [E0|_]; [by destruct (nw_nonnull _ _ _ _ Hwm)|].
  iApply wp_bind. iApply (wp_load_table_node with "H"); [exact Hm|]. iIntros "H".
  destruct (Z.eqb_spec (rn_lock m) 0) as [E0|E0]; cbn [mwhen].
  - assert (Hinfo : rn_info m = 0).
    { unfold ns', spliced in Hm. apply lookup_delete_Some in Hm as [Hpa Hm]. destruct (same_lookup_rev _ _ Hsame p m Hm) as (m0 & Hm0 & Ec).
      injection Ec as _ _ Elock Einfo. rewrite Einfo. apply (Hst p m0 Hm0); congruence. }
    assert (Hw2 : exists l' r', plug c (join b p (sole l r) s) = plug c (T l' p r')) by (destruct b; eauto).
    destruct Hw2 as (l' & r' & E2). cbn [plug] in Hw' |- *. rewrite E2 in Hw' |- *.
    iApply (IH with "H"); [done|done|done|done|done|lia|lia|]. iIntros (ns2 t2 (H1 & H2 & H3)) "H".
    iApply ("HQ" with "[%] H"). split_and!; [done|done|congruence].
  - iApply wp_ret. iApply ("HQ" with "[%] H"). split_and!; [done| |done].
    intros y m' Hm'. destruct (decide (y = p)) as [->|Hyp]; [|by apply (Hst' y)].
    assert (m' = m) as -> by congruence. by intros E.
Qed.

(** *** Unlocking *)

(** What is held after a reference to [a] is given back *)
Definition released ns (a : Z) (n : route_node) : gmap Z entry :=
  if rn_lock n =? 1 then delete a (held ns)
  else <[a := Entry (net (rn_p n)) (rn_lock n - 1) (rn_info n)]> (held ns).

Lemma held_unlocked ns a n :
  ns !! a = Some n -> held (<[a := set_lock (rn_lock n - 1) n]> ns) = released ns a n.
Proof.
  intros Hn. unfold released. destruct (Z.eqb_spec (rn_lock n) 1) as [E1|E1].
  - apply map_eq. intros x. unfold held. rewrite lookup_omap. destruct (decide (x = a)) as [->|Hne].
    + rewrite lookup_insert_eq lookup_delete_eq /= E1. done.
    + rewrite lookup_insert_ne; [|done]. rewrite lookup_delete_ne; [|done]. by rewrite lookup_omap.
  - rewrite held_insert; [done|]. simpl. lia.
Qed.

Lemma wp_route_unlock_node ns t a n (Q : unit -> hP) :
  table_wf fam rt ns t -> stubs_ok ns -> ns !! a = Some n -> 0 < rn_lock n -> (rn_lock n = 1 -> rn_info n = 0) ->
  Z.of_nat (size ns) < 2 ^ 63 ->
  table_at ns t -∗
  (∀ ns' t', ⌜table_wf fam rt ns' t' /\ stubs_ok ns' /\ held ns' = released ns a n⌝ → table_at ns' t' -∗ Q tt) -∗
  wp (route_unlock_node place a) Q.
Proof.
  intros Hw Hst Hn Hl Hi Hs. pose proof (nw_lock _ _ _ _ (tw_nodes _ _ _ _ Hw a n Hn)) as Hlock.
  iIntros "H HQ". unfold route_unlock_node. iApply wp_bind. iApply (wp_load_table_node with "H"); [done|]. iIntros "H".
  iApply wp_bind. iApply wp_massert; [by apply Z.ltb_lt|].
  iApply wp_bind. iApply (wp_relabel with "H"); [exact Hn|done|]. iIntros "H".
  set (m := set_lock (rn_lock n - 1) n). set (ns1 := <[a := m]> ns).
  assert (Hm : ns1 !! a = Some m) by apply lookup_insert_eq.
  assert (Hw1 : table_wf fam rt ns1 t) by (apply (wf_relabel _ _ _ _ _ n); [done|done|done|simpl; lia]).
  assert (Hst1 : stubs_except a ns1) by by apply stubs_insert.
  assert (Hheld : held ns1 = released ns a n) by by apply held_unlocked.
  iApply wp_bind. iApply (wp_load_table_node with "H"); [exact Hm|]. iIntros "H".
  iApply wp_bind. iApply (wp_mem_fuel _ _ _ (table_at_least _ _ _ ns1 t) with "H"). iIntros (fuel Hfuel) "H".
  destruct (Z.eqb_spec (rn_lock m) 0) as [E0|E0]; cbn [mwhen].
  - assert (Ha : a ∈ nodes t) by (apply (tw_dom _ _ _ _ Hw1), elem_of_dom; by exists m).
    destruct (nodes_split a t Ha) as (c & l & r & ->).
    assert (Hsz : size ns1 = size ns) by by apply map_size_insert_Some.
    iApply (wp_route_node_delete with "H"); [exact Hw1|done|exact Hm|done| |lia|lia|].
    { cbn in E0 |- *. apply Hi. lia. }
    iIntros (ns' t' (H1 & H2 & H3)) "H". iApply ("HQ" with "[%] H"). split_and!; [done|done|congruence].
  - iApply wp_ret. iApply ("HQ" with "[%] H"). split_and!; [done| |done].
    intros y k Hk. destruct (decide (y = a)) as [->|Hya]; [|by apply (Hst1 y)].
    assert (k = m) as -> by congruence. by intros E.
Qed.
End delete.
