(* ===== verification/RouteIter.v ===== *)
(** * Iterating over route tables

    The nodes come in the order of their networks, [visit_cmp]: from a node,
    [route_next] goes to the first node after it, and from any prefix,
    [route_table_get_next] to the first node after the prefix. *)

From stdpp Require Import sorting.
From iris.proofmode Require Import proofmode.
From S2P Require Import Prelude SepLogic FrrPrefix FrrPrefixBits Heap ThashSize Thash ThashResize ThashSet.
From S2P Require Import ThashIter RouteTable RouteTree RouteKey RouteHeap RouteSearch RouteInsert RouteGet RouteDelete.

#[local] Open Scope Z_scope.

Implicit Types ns : gmap Z route_node.
Implicit Types t l r s : rtree.
Implicit Types c : list (bool * Z * rtree).

(** ** What comes next *)
Section order.
Context (key : Z -> list bool).

(** The first node after the network [q], 0 if there is none *)
Definition next_of t (q : list bool) : Z := hd 0 (filter (fun x => visit_lt q (key x)) (nodes t)).

Lemma post_after c t q x : routed key (plug c t) -> leads key c q -> x ∈ post c -> visit_lt q (key x).
Proof.
  intros [Hc _]%routed_plug. induction c as [|[[b a] s] c IH]; [by intros _ ?%not_elem_of_nil|].
  cbn [ctx_routed post] in *. destruct Hc as (Hs & _ & _ & _ & Hc). intros [Hq Hl]%Forall_cons. cbn [fst snd] in Hq.
  intros [Hx|Hx]%elem_of_app; [|by apply IH]. destruct b; [by apply not_elem_of_nil in Hx|].
  rewrite Forall_forall in Hs. by eapply visit_lt_branch; [|apply Hs].
Qed.

Lemma pre_before c t q x : routed key (plug c t) -> leads key c q -> x ∈ pre c -> visit_lt (key x) q.
Proof.
  intros [Hc _]%routed_plug. induction c as [|[[b a] s] c IH]; [by intros _ ?%not_elem_of_nil|].
  cbn [ctx_routed pre] in *. destruct Hc as (Hs & _ & _ & _ & Hc). intros [Hq Hl]%Forall_cons. cbn [fst snd] in Hq.
  intros [Hx|[->|Hx]%elem_of_cons]%elem_of_app; [by apply IH|by eapply visit_lt_below|].
  destruct b; [|by apply not_elem_of_nil in Hx]. rewrite Forall_forall in Hs. by eapply visit_lt_branch; [apply Hs|].
Qed.

Lemma visit_lt_irrefl q : ~ visit_lt q q.
Proof. by rewrite visit_cmp_refl. Qed.
Lemma visit_lt_asym p q : visit_lt p q -> ~ visit_lt q p.
Proof. intros H. rewrite visit_cmp_sym H. done. Qed.

Lemma filter_none (P : Z -> Prop) `{!forall x, Decision (P x)} (l : list Z) : (forall x, x ∈ l -> ~ P x) -> filter P l = [].
Proof.
  induction l as [|x l IH]; intros Hl; [done|]. rewrite filter_cons_False; [|apply Hl; by left].
  apply IH. intros y Hy. apply Hl. by right.
Qed.
Lemma filter_all (P : Z -> Prop) `{!forall x, Decision (P x)} (l : list Z) : (forall x, x ∈ l -> P x) -> filter P l = l.
Proof.
  induction l as [|x l IH]; intros Hl; [done|]. rewrite filter_cons_True; [|apply Hl; by left].
  rewrite IH; [done|]. intros y Hy. apply Hl. by right.
Qed.

(** The part of the way that matters *)
Lemma next_of_plug c t q :
  routed key (plug c t) -> leads key c q ->
  next_of (plug c t) q = hd 0 (filter (fun x => visit_lt q (key x)) (nodes t) ++ post c).
Proof.
  intros Hr Hl. unfold next_of. rewrite nodes_order !filter_app.
  rewrite (filter_none _ (pre c)); [|intros x Hx; by eapply visit_lt_asym, pre_before].
  rewrite (filter_all _ (post c)); [done|]. intros x. by apply (post_after c t).
Qed.

(** After a node come its subtree and what is after that. *)
Lemma next_of_node c l a r :
  routed key (plug c (T l a r)) -> next_of (plug c (T l a r)) (key a) = hd 0 (nodes l ++ nodes r ++ post c).
Proof.
  intros Hr. pose proof Hr as Hr'. apply routed_plug in Hr' as (_ & Hlead & Hrt). apply Forall_cons in Hlead as [Ha _].
  rewrite next_of_plug; [|done|done]. cbn [nodes]. rewrite filter_cons_False; [|apply visit_lt_irrefl].
  rewrite filter_all; [by rewrite app_assoc|]. apply routed_sorted in Hrt. cbn [nodes] in Hrt.
  apply StronglySorted_inv in Hrt as [_ Hrt]. rewrite Forall_forall in Hrt. exact Hrt.
Qed.

(** A subtree after the network, or before it *)
Lemma next_of_after c l a r q :
  routed key (plug c (T l a r)) -> leads key c q -> visit_lt q (key a) -> next_of (plug c (T l a r)) q = a.
Proof.
  intros Hr Hl Ha. rewrite next_of_plug; [|done|done]. cbn [nodes]. by rewrite filter_cons_True.
Qed.

Lemma next_of_before c t q :
  routed key (plug c t) -> leads key c q -> (forall x, x ∈ nodes t -> visit_lt (key x) q) ->
  next_of (plug c t) q = hd 0 (post c).
Proof.
  intros Hr Hl Ht. rewrite next_of_plug; [|done|done]. rewrite filter_none; [done|]. intros x Hx. by apply visit_lt_asym, Ht.
Qed.

(** What [next_of] says *)
Lemma next_of_spec t q :
  routed key t ->
  next_of t q = 0 /\ (forall x, x ∈ nodes t -> ~ visit_lt q (key x)) \/
  next_of t q ∈ nodes t /\ visit_lt q (key (next_of t q)) /\
    forall x, x ∈ nodes t -> visit_lt q (key x) -> x = next_of t q \/ visit_lt (key (next_of t q)) (key x).
Proof.
  intros Hr%routed_sorted. unfold next_of. induction (nodes t) as [|a l IH].
  { left. split; [done|]. by intros x ?%not_elem_of_nil. }
  apply StronglySorted_inv in Hr as [Hr Ha]. rewrite Forall_forall in Ha. rewrite filter_cons.
  destruct (decide (visit_lt q (key a))) as [Hq|Hq]; cbn [hd].
  - right. split_and!; [by left|done|]. intros x [->|Hx]%elem_of_cons _; [by left|]. right. by apply Ha.
  - destruct (IH Hr) as [[-> H]|(H1 & H2 & H3)]; [left|right].
    + split; [done|]. intros x [->|Hx]%elem_of_cons; [done|by apply H].
    + split_and!; [by right|done|]. intros x [->|Hx]%elem_of_cons; [done|by apply H3].
Qed.
End order.

Lemma root_ctx c t f : root (plug (f :: c) t) ∈ ctx_nodes (f :: c).
Proof.
  revert t f. induction c as [|f' c IH]; intros t [[b a] s]; [destruct b; by left|].
  cbn [ctx_nodes]. right. apply elem_of_app. right. apply (IH _ f').
Qed.

Lemma ctx_nodes_app c1 c2 : ctx_nodes (c1 ++ c2) = ctx_nodes c1 ++ ctx_nodes c2.
Proof.
  induction c1 as [|[[b a] s] c1 IH]; cbn [app ctx_nodes]; [done|]. by rewrite IH app_comm_cons app_assoc.
Qed.

Lemma length_ctx_nodes c : (length c <= length (ctx_nodes c))%nat.
Proof. induction c as [|[[b a] s] c IH]; [done|]. cbn [ctx_nodes length]. rewrite length_app. lia. Qed.

(** One of the networks contains the other. *)
Definition comparable (p q : list bool) : Prop := p `prefix_of` q \/ q `prefix_of` p.

Lemma comparable_eq n p :
  prefix_wf n -> prefix_wf p ->
  (if prefixlen n <? prefixlen p then prefix_match n p else prefix_match p n) =
    Ret (bool_decide (comparable (net n) (net p))).
Proof.
  intros Hn Hp. pose proof (length_net n Hn) as Ln. pose proof (length_net p Hp) as Lp. unfold comparable.
  rewrite !prefix_match_eq //. destruct (Z.ltb_spec (prefixlen n) (prefixlen p)); f_equal; apply bool_decide_ext.
  - split; [by left|]. intros [?|H0%prefix_length]; [done|lia].
  - split; [by right|]. intros [H0|?]; [|done]. rewrite (prefix_length_eq _ _ H0); [done|].
    apply prefix_length in H0. lia.
Qed.

(** ** In memory *)
Section iter.
Context (place : gmap Z (hcell rcell) -> Z -> Z) `{!Placement place} (fam : family).
Context `{!HashSpec rn_hash_node (good fam) same_net place}.
Abbreviation hP := (hpropI (hcell rcell)).
Context (rt : Z).
Abbreviation table_at := (table_at place fam rt).

(** [limit] is the root of a subtree, or 0. *)
Definition limited c1 c2 (t' : rtree) (limit : Z) : Prop := limit = 0 /\ c2 = [] \/ limit = root (plug c1 t').

Lemma wp_next_up ns c1 c2 t' limit fuel (Q : Z -> hP) :
  table_wf fam rt ns (plug c2 (plug c1 t')) -> t' <> E -> limited c1 c2 t' limit -> (length c1 < fuel)%nat ->
  table_at ns (plug c2 (plug c1 t')) -∗ (table_at ns (plug c2 (plug c1 t')) -∗ Q (hd 0 (post c1))) -∗
  wp (next_up fuel limit (root t')) Q.
Proof.
  intros Hw. revert c1 t' Q Hw. induction fuel as [|fuel IH]; intros c1 t' Q Hw Ht' Hlim Hf; [lia|].
  destruct t' as [|l x r]; [done|]. set (t' := T l x r) in *. rewrite -rtree_plug_app in Hw |- *.
  destruct (wf_subtree _ _ _ _ Hw (c1 ++ c2) l x r eq_refl) as (n & Hn & Hwn & Epar & _).
  cbn [next_up root t']. iIntros "H HQ". iApply wp_bind. iApply (wp_load_table_node with "H"); [done|]. iIntros "H".
  rewrite Epar. destruct c1 as [|[[b a] s] c1]; cbn [app above].
  { rewrite (_ : (above c2 =? 0) || (x =? limit) = true).
    - iApply wp_ret. by iApply "HQ".
    - apply orb_true_iff. destruct Hlim as [[_ ->]| ->]; [by left|right; apply Z.eqb_refl]. }
  assert (Ht : plug (((b, a, s) :: c1) ++ c2) t' = plug c2 (plug c1 (join b a t' s))).
  { cbn [app plug]. by rewrite rtree_plug_app. }
  rewrite Ht in Hw |- *.
  assert (Hx : x ∈ nodes t') by by left.
  assert (Ha : a ∈ nodes (plug c2 (plug c1 (join b a t' s)))).
  { rewrite -rtree_plug_app nodes_plug nodes_join. by left. }
  pose proof (nodes_nonnull _ _ _ _ _ Hw Ha) as Ha0.
  pose proof (tw_nodup _ _ _ _ Hw) as Hnd. rewrite -Ht nodes_plug in Hnd. apply NoDup_app in Hnd as (_ & Hd & _).
  assert (Hstop : (a =? 0) || (x =? limit) = false).
  { apply orb_false_iff. split; apply Z.eqb_neq; [done|]. destruct Hlim as [[-> _]| ->].
    - apply (nw_nonnull _ _ _ _ Hwn).
    - intros Ex. apply (Hd x Hx). rewrite ctx_nodes_app. apply elem_of_app. left. rewrite Ex. apply root_ctx. }
  rewrite Hstop.
  assert (Hsub : exists m, ns !! a = Some m /\ (l_left m, l_right m) = if b then (root s, x) else (x, root s)).
  { rewrite -rtree_plug_app in Hw. destruct b; destruct (wf_subtree _ _ _ _ Hw (c1 ++ c2) _ _ _ eq_refl) as (m & Hm & _ & _ & E1 & E2);
      exists m; rewrite E1 E2; done. }
  destruct Hsub as (m & Hm & Em). iApply wp_bind. iApply (wp_load_table_node with "H"); [exact Hm|]. iIntros "H".
  assert (Hrec : forall Q', table_at ns (plug c2 (plug c1 (join b a t' s))) -∗
     (table_at ns (plug c2 (plug c1 (join b a t' s))) -∗ Q' (hd 0 (post c1))) -∗ wp (next_up fuel limit a) Q').
  { intros Q'. replace (next_up fuel limit a) with (next_up fuel limit (root (join b a t' s))) by by destruct b.
    apply IH; [done|by destruct b|exact Hlim|simpl in Hf; lia]. }
  destruct b; injection Em as El Er; rewrite El Er.
  - destruct (Z.eqb_spec (root s) x) as [Es|_]; cbn [andb].
    + exfalso. apply (Hd x Hx). cbn [app ctx_nodes]. right. apply elem_of_app. left. rewrite -Es. apply nodes_root.
      intros ->. cbn [root] in Es. by destruct (nw_nonnull _ _ _ _ Hwn).
    + cbn [post]. iApply (Hrec with "H HQ").
  - rewrite Z.eqb_refl. cbn [andb post]. destruct s as [|sl sa sr].
    + cbn [root Z.eqb negb nodes app]. iApply (Hrec with "H HQ").
    + assert (Hsa : sa ∈ nodes (plug c2 (plug c1 (join false a t' (T sl sa sr))))).
      { rewrite -rtree_plug_app nodes_plug nodes_join. apply elem_of_app. left. right. apply elem_of_app. right. by left. }
      cbn [root]. destruct (Z.eqb_spec sa 0) as [E0|_]; [by destruct (nodes_nonnull _ _ _ _ _ Hw Hsa)|]. cbn [negb].
      iApply wp_ret. by iApply "HQ".
Qed.

(** *** Giving back a reference that was taken *)
Lemma wp_delete_stays ns t a n fuel (Q : unit -> hP) :
  ns !! a = Some n -> stub_ok n -> rn_lock n = 0 -> (0 < fuel)%nat ->
  table_at ns t -∗ (table_at ns t -∗ Q tt) -∗ wp (route_node_delete place fuel a) Q.
Proof.
  intros Hn Hst Hl Hf. destruct fuel as [|fuel]; [lia|]. destruct (Hst Hl) as (Hi & E1 & E2).
  iIntros "H HQ". cbn [route_node_delete]. iApply wp_bind. iApply (wp_load_table_node with "H"); [done|]. iIntros "H".
  rewrite Hl Hi. iApply wp_bind. iApply wp_massert; [done|]. iApply wp_bind. iApply wp_massert; [done|].
  apply Z.eqb_neq in E1 as ->. apply Z.eqb_neq in E2 as ->. cbn [negb andb]. iApply wp_ret. by iApply "HQ".
Qed.

Lemma lock_node_back ns a n :
  ns !! a = Some n -> <[a := set_lock (rn_lock (locked n) - 1) (locked n)]> (lock_node ns a) = ns.
Proof.
  intros Hn. rewrite (lock_node_eq _ _ _ Hn) insert_insert_eq. apply insert_id. rewrite Hn. f_equal.
  destruct n. unfold locked, set_lock. simpl. f_equal. lia.
Qed.

Lemma wp_unlock_locked ns t a (Q : unit -> hP) :
  table_wf fam rt ns t -> stubs_ok ns -> a ∈ nodes t ->
  table_at (lock_node ns a) t -∗ (table_at ns t -∗ Q tt) -∗ wp (route_unlock_node place a) Q.
Proof.
  intros Hw Hst Ha. destruct (wf_lookup _ _ _ _ Hw a Ha) as (n & Hn & Hwn). pose proof (nw_lock _ _ _ _ Hwn) as Hl.
  assert (Hn1 : lock_node ns a !! a = Some (locked n)) by by rewrite (lock_node_eq _ _ _ Hn) lookup_insert_eq.
  iIntros "H HQ". unfold route_unlock_node. iApply wp_bind. iApply (wp_load_table_node with "H"); [exact Hn1|]. iIntros "H".
  iApply wp_bind. iApply wp_massert; [apply Z.ltb_lt; simpl; lia|].
  iApply wp_bind. iApply (wp_relabel with "H"); [exact Hn1|done|]. iIntros "H". rewrite lock_node_back //.
  iApply wp_bind. iApply (wp_load_table_node with "H"); [exact Hn|]. iIntros "H".
  iApply wp_bind. iApply (wp_mem_fuel _ _ _ (table_at_least _ _ _ ns t) with "H"). iIntros (fuel Hfuel) "H".
  destruct (Z.eqb_spec (rn_lock n) 0) as [E0|E0]; cbn [mwhen]; [|iApply wp_ret; by iApply "HQ"].
  iApply (wp_delete_stays with "H HQ"); [done|by apply (Hst a)|done|].
  rewrite (wf_size _ _ _ _ Hw) in Hfuel. destruct (nodes t); [by apply not_elem_of_nil in Ha|simpl in Hfuel; lia].
Qed.

(** *** The next node *)
Definition hold_next ns (y : Z) : gmap Z route_node := if y =? 0 then ns else lock_node ns y.

Lemma hd_root l rest : root l <> 0 -> hd 0 (nodes l ++ rest) = root l.
Proof. by destruct l. Qed.

Lemma wp_next_lock ns c1 c2 l x r limit (t := plug c2 (plug c1 (T l x r))) (Q : Z -> hP)
    (y := hd 0 (nodes l ++ nodes r ++ post c1)) :
  table_wf fam rt ns t -> limited c1 c2 (T l x r) limit -> (forall m, ns !! y = Some m -> rn_lock m < 2 ^ 32 - 1) ->
  table_at ns t -∗ (table_at (hold_next ns y) t -∗ wp (route_unlock_node place x ;; mret y) Q) -∗
  wp (route_next_until place x limit) Q.
Proof.
  intros Hw Hlim Hlock. pose proof Hw as Hw'. unfold t in Hw'. rewrite -rtree_plug_app in Hw'.
  destruct (wf_subtree _ _ _ _ Hw' (c1 ++ c2) l x r eq_refl) as (n & Hn & Hwn & Epar & El & Er).
  iIntros "H HQ". unfold route_next_until. iApply wp_bind. iApply (wp_load_table_node with "H"); [done|]. iIntros "H".
  iApply wp_bind. rewrite El Er.
  assert (Hlast : table_at ns t -∗ (table_at ns t -∗ wp (mwhen (negb (y =? 0)) (route_lock_node y ;; mret tt) ;;
      route_unlock_node place x ;; mret y) Q) -∗
    wp (if negb (root l =? 0) then mret (root l) else if negb (root r =? 0) then mret (root r)
        else fuel ← mem_fuel; next_up fuel limit x)
      (fun next => wp (mwhen (negb (next =? 0)) (route_lock_node next ;; mret tt) ;; route_unlock_node place x ;; mret next) Q)).
  { iIntros "H HQ". destruct (Z.eqb_spec (root l) 0) as [E0|E0]; cbn [negb].
    2: { iApply wp_ret. unfold y. rewrite (hd_root l _ E0). by iApply "HQ". }
    assert (l = E) as -> by by apply (wf_root_nonnull fam rt ns _ Hw' l ((false, x, r) :: c1 ++ c2)).
    destruct (Z.eqb_spec (root r) 0) as [E1|E1]; cbn [negb].
    2: { iApply wp_ret. unfold y. cbn [nodes app]. rewrite (hd_root r _ E1). by iApply "HQ". }
    assert (r = E) as -> by by apply (wf_root_nonnull fam rt ns _ Hw' r ((true, x, E) :: c1 ++ c2)).
    iApply wp_bind. iApply (wp_mem_fuel _ _ _ (table_at_least _ _ _ ns t) with "H"). iIntros (fuel Hfuel) "H".
    iApply (wp_next_up ns c1 c2 (T E x E) limit fuel with "H"); [done|done|done| |done].
    rewrite (wf_size _ _ _ _ Hw') nodes_plug ctx_nodes_app !length_app /= in Hfuel.
    pose proof (length_ctx_nodes c1). lia. }
  iApply (Hlast with "H"). iIntros "H". iApply wp_bind. unfold hold_next.
  destruct (Z.eqb_spec y 0) as [E0|E0]; cbn [negb mwhen]; [iApply wp_ret; by iApply "HQ"|].
  assert (Hy : y ∈ nodes t).
  { unfold t. rewrite -rtree_plug_app nodes_order. apply elem_of_app. right. apply elem_of_app. 
    assert (Hin : y ∈ nodes l ++ nodes r ++ post c1).
    { unfold y in *. destruct (nodes l ++ nodes r ++ post c1); [done|]. by left. }
    assert (Hpost : forall z, z ∈ post c1 -> z ∈ post (c1 ++ c2)).
    { clear. induction c1 as [|[[b a] s] c1 IH]; [by intros z ?%not_elem_of_nil|]. intros z. cbn [app post].
      rewrite !elem_of_app. intros [?|?]; auto. }
    apply elem_of_app in Hin as [?|[?|?]%elem_of_app]; [left|left|right; by apply Hpost]; right; apply elem_of_app; auto. }
  destruct (wf_lookup _ _ _ _ Hw y Hy) as (m & Hm & Hwm). pose proof (nw_lock _ _ _ _ Hwm) as Hl.
  specialize (Hlock m Hm).
  iApply wp_bind. iApply (wp_route_lock_node with "H"); [exact Hm|lia|]. iIntros "H". iApply wp_ret.
  iApply "HQ". rewrite (lock_node_eq _ _ _ Hm). done.
Qed.

Lemma lockable_lt ns a m : lockable ns -> ns !! a = Some m -> rn_lock m < 2 ^ 32 - 1.
Proof. intros H Hm. by apply (H a). Qed.

Lemma hold_next_ne ns x y : x <> y -> hold_next ns y !! x = ns !! x.
Proof. intros H. unfold hold_next, lock_node. destruct (y =? 0); [done|]. by rewrite lookup_alter_ne. Qed.

Lemma hold_next_wf ns t y : table_wf fam rt ns t -> lockable ns -> (y = 0 \/ y ∈ nodes t) -> table_wf fam rt (hold_next ns y) t.
Proof.
  intros Hw Hl Hy. unfold hold_next. destruct (Z.eqb_spec y 0) as [|H0]; [done|]. destruct Hy as [|Hy]; [done|].
  destruct (wf_lookup _ _ _ _ Hw y Hy) as (m & Hm & Hwm). pose proof (nw_lock _ _ _ _ Hwm).
  pose proof (lockable_lt _ _ _ Hl Hm). rewrite (lock_node_eq _ _ _ Hm).
  apply (wf_relabel _ _ _ _ _ m); [done|done|done|simpl; lia].
Qed.

Lemma hold_next_stubs ns t y : table_wf fam rt ns t -> stubs_ok ns -> (y = 0 \/ y ∈ nodes t) -> stubs_ok (hold_next ns y).
Proof.
  intros Hw Hst Hy. unfold hold_next. destruct (Z.eqb_spec y 0) as [|H0]; [done|]. destruct Hy as [|Hy]; [done|].
  destruct (wf_lookup _ _ _ _ Hw y Hy) as (m & Hm & Hwm). pose proof (nw_lock _ _ _ _ Hwm).
  apply (stubs_locked _ _ m); [by apply stubs_ok_except|done|lia].
Qed.

Lemma hold_next_size ns y : size (hold_next ns y) = size ns.
Proof. unfold hold_next, lock_node. destruct (y =? 0); [done|]. by rewrite -!size_dom dom_alter_L. Qed.

Lemma hd_in_or (y : Z) (ys : list Z) : y = hd 0 ys -> y = 0 \/ y ∈ ys.
Proof. destruct ys; simpl; intros ->; [by left|right; by left]. Qed.

(** The node after [x], in the tree and not [x] *)
Lemma next_node_facts ns c1 c2 l x r (y := hd 0 (nodes l ++ nodes r ++ post c1)) :
  table_wf fam rt ns (plug c2 (plug c1 (T l x r))) ->
  (y = 0 \/ y ∈ nodes (plug c2 (plug c1 (T l x r)))) /\ x <> y /\ x ∈ nodes (plug c2 (plug c1 (T l x r))).
Proof.
  intros Hw. assert (Hx : x ∈ nodes (plug c2 (plug c1 (T l x r)))).
  { rewrite -rtree_plug_app nodes_plug. by left. }
  assert (Hin : y = 0 \/ y ∈ nodes l ++ nodes r ++ post c1) by by apply hd_in_or.
  assert (Hsub : forall z, z ∈ nodes l ++ nodes r ++ post c1 -> z <> x /\ z ∈ nodes (plug c2 (plug c1 (T l x r)))).
  { intros z Hz. pose proof (tw_nodup _ _ _ _ Hw) as Hnd. rewrite nodes_plug in Hnd. rewrite nodes_plug.
    apply NoDup_app in Hnd as (Hnd & _). rewrite nodes_order in Hnd |- *. apply NoDup_app in Hnd as (_ & _ & Hnd).
    cbn [nodes app] in Hnd |- *. rewrite -app_assoc in Hnd. apply NoDup_cons in Hnd as [Hnx _].
    split; [by intros ->|]. apply elem_of_app. left. apply elem_of_app. right. right. by rewrite -app_assoc. }
  split_and!; [|intros <-|done]; destruct Hin as [E0|Hy]; auto.
  - right. by apply Hsub.
  - by destruct (nodes_nonnull _ _ _ _ _ Hw Hx).
  - by destruct (Hsub x Hy).
Qed.

Lemma wp_route_next_until ns c1 c2 l x r n limit (t := plug c2 (plug c1 (T l x r))) (Q : Z -> hP)
    (y := hd 0 (nodes l ++ nodes r ++ post c1)) :
  table_wf fam rt ns t -> stubs_ok ns -> lockable ns -> ns !! x = Some n -> 0 < rn_lock n ->
  (rn_lock n = 1 -> rn_info n = 0) -> limited c1 c2 (T l x r) limit -> Z.of_nat (size ns) < 2 ^ 63 ->
  table_at ns t -∗
  (∀ ns' t', ⌜table_wf fam rt ns' t' /\ stubs_ok ns' /\ held ns' = released (hold_next ns y) x n⌝ → table_at ns' t' -∗ Q y) -∗
  wp (route_next_until place x limit) Q.
Proof.
  intros Hw Hst Hl Hn Hlock Hi Hlim Hs. destruct (next_node_facts ns c1 c2 l x r Hw) as (Hy & Hxy & Hx). fold y t in Hy, Hxy, Hx.
  iIntros "H HQ". iApply (wp_next_lock with "H"); [done|done|intros m; by apply lockable_lt|]. fold y t. iIntros "H".
  iApply wp_bind. iApply (wp_route_unlock_node _ _ _ (hold_next ns y) t x n with "H");
    [by apply hold_next_wf|by eapply hold_next_stubs|by rewrite hold_next_ne|done|done|by rewrite hold_next_size|].
  iIntros (ns' t' H') "H". iApply wp_ret. iApply ("HQ" with "[//] H").
Qed.

(** The same when the reference to [x] has just been taken *)
Lemma wp_route_next_back ns c l x r (t := plug c (T l x r)) (Q : Z -> hP)
    (y := hd 0 (nodes l ++ nodes r ++ post c)) :
  table_wf fam rt ns t -> stubs_ok ns -> lockable ns ->
  table_at (lock_node ns x) t -∗ (table_at (hold_next ns y) t -∗ Q y) -∗ wp (route_next place x) Q.
Proof.
  intros Hw Hst Hl. destruct (next_node_facts ns c [] l x r Hw) as (Hy & Hxy & Hx). fold y t in Hy, Hxy, Hx. cbn [plug] in Hy, Hx.
  destruct (wf_lookup _ _ _ _ Hw x Hx) as (n & Hn & Hwn). pose proof (lockable_lt _ _ _ Hl Hn).
  pose proof (nw_lock _ _ _ _ Hwn).
  assert (Hw1 : table_wf fam rt (lock_node ns x) t).
  { rewrite (lock_node_eq _ _ _ Hn). apply (wf_relabel _ _ _ _ _ n); [done|done|done|simpl; lia]. }
  iIntros "H HQ". unfold route_next. iApply (wp_next_lock (lock_node ns x) c [] l x r 0 with "H"); [done|by left| |].
  { intros m Hm. unfold lock_node in Hm. rewrite lookup_alter_ne in Hm; [|done]. by apply (lockable_lt ns y). }
  fold y. iIntros "H". iApply wp_bind.
  assert (Ecomm : hold_next (lock_node ns x) y = lock_node (hold_next ns y) x).
  { unfold hold_next, lock_node. destruct (y =? 0); [done|]. by rewrite alter_alter_ne. }
  cbn [plug]. rewrite Ecomm.
  iApply (wp_unlock_locked (hold_next ns y) t x with "H"); [by apply hold_next_wf|by eapply hold_next_stubs|done|].
  iIntros "H". iApply wp_ret. by iApply "HQ".
Qed.

Lemma wp_route_top ns t (Q : Z -> hP) :
  table_wf fam rt ns t -> lockable ns ->
  table_at ns t -∗ (table_at (hold_next ns (hd 0 (nodes t))) t -∗ Q (hd 0 (nodes t))) -∗ wp (route_top rt) Q.
Proof.
  intros Hw Hl. iIntros "H HQ". unfold route_top. iApply wp_bind. iApply (wp_table_top with "H").
  iIntros (tbl [Et _]) "H". rewrite Et. unfold hold_next. destruct t as [|l a r].
  { cbn [root nodes hd Z.eqb]. iApply wp_ret. by iApply "HQ". }
  assert (Ha : a ∈ nodes (T l a r)) by by left. pose proof (nodes_nonnull _ _ _ _ _ Hw Ha).
  cbn [root nodes hd]. destruct (Z.eqb_spec a 0) as [|_]; [done|].
  iApply wp_bind. iApply (wp_lock with "H"); [done..|]. iIntros (Hw') "H". iApply wp_ret. by iApply "HQ".
Qed.

(** *** The first node after a prefix *)
Lemma wp_subtree_next ns c l a r (Q : Z -> hP) :
  table_wf fam rt ns (plug c (T l a r)) ->
  table_at ns (plug c (T l a r)) -∗ (table_at ns (plug c (T l a r)) -∗ Q (hd 0 (post c))) -∗
  wp (route_get_subtree_next a) Q.
Proof.
  intros Hw. iIntros "H HQ". unfold route_get_subtree_next. iApply wp_bind.
  iApply (wp_mem_fuel _ _ _ (table_at_least _ _ _ ns _) with "H"). iIntros (fuel Hfuel) "H".
  iApply (wp_next_up ns c [] (T l a r) 0 fuel with "H"); [done|done|by left| |done].
  rewrite (wf_size _ _ _ _ Hw) nodes_plug !length_app /= in Hfuel. pose proof (length_ctx_nodes c). lia.
Qed.

(** The node of the prefix itself *)
Lemma wp_next_of_found ns c l a r (t := plug c (T l a r)) (Q : Z -> hP) :
  table_wf fam rt ns t -> stubs_ok ns -> lockable ns ->
  table_at ns t -∗ (table_at ns t -∗ Q (next_of (netof ns) t (netof ns a))) -∗
  wp (route_lock_node a ;; next ← route_next place a;
      mwhen (negb (next =? 0)) (route_unlock_node place next) ;; mret next) Q.
Proof.
  intros Hw Hst Hl. destruct (next_node_facts ns c [] l a r Hw) as (Hy & _ & Ha). fold t in Hy, Ha. cbn [plug] in Hy, Ha.
  rewrite (next_of_node (netof ns) c l a r); [|apply Hw]. set (y := hd 0 (nodes l ++ nodes r ++ post c)) in *.
  iIntros "H HQ". iApply wp_bind. iApply (wp_lock with "H"); [done|done|exact Ha|]. iIntros (_) "H".
  iApply wp_bind. iApply (wp_route_next_back ns c l a r with "H"); [done..|]. fold y t. iIntros "H".
  iApply wp_bind. unfold hold_next. destruct (Z.eqb_spec y 0) as [E0|E0]; cbn [negb mwhen].
  - iApply wp_ret. iApply wp_ret. by iApply "HQ".
  - destruct Hy as [|Hy]; [done|]. iApply (wp_unlock_locked ns t y with "H"); [done..|]. iIntros "H".
    iApply wp_ret. by iApply "HQ".
Qed.

(** Two networks that branch off, in the order of their bits *)
Lemma branch_order key c l a r q :
  routed key (plug c (T l a r)) -> leads key c q ->
  ~ key a `prefix_of` q -> ~ q `prefix_of` key a ->
  next_of key (plug c (T l a r)) q = (if 0 <? visit_cmp (key a) q then a else hd 0 (post c)) /\
  (0 < visit_cmp (key a) q \/ visit_cmp (key a) q < 0).
Proof.
  intros Hr Hl H1 H2. destruct (visit_cmp_cases (key a) q) as [E|[E|E]];
    [|apply visit_cmp_0 in E; by destruct H1; rewrite E|]; rewrite E; cbn [Z.ltb Z.compare]; (split; [|lia]).
  - apply next_of_before; [done|done|]. destruct (branch _ _ H1 H2) as (m & b & [k Ek] & [k' Ek']).
    pose proof E as E'. rewrite Ek Ek' visit_cmp_app in E'. simpl in E'. destruct b; [done|].
    apply routed_plug in Hr as (_ & _ & Hr). intros x Hx. apply (visit_lt_branch m).
    + apply (below_extend m false (key a)); [by exists k|]. by apply (routed_root_prefix key (T l a r)).
    + by exists k'.
  - apply next_of_after; [done|done|]. rewrite visit_cmp_sym E. done.
Qed.

Context (stack : list Z) (Hstack : Forall is_byte stack) (Hlen : length stack = 40%nat).

Lemma wp_get_next_loop ns c l a r p fuel (Q : Z -> hP) :
  table_wf fam rt ns (plug c (T l a r)) -> stubs_ok ns -> lockable ns -> prefix_wf p -> prefixlen p <= 128 ->
  leads (netof ns) c (net p) -> (length (nodes (T l a r)) < fuel)%nat ->
  table_at ns (plug c (T l a r)) -∗
  (table_at ns (plug c (T l a r)) -∗ Q (next_of (netof ns) (plug c (T l a r)) (net p))) -∗
  wp (get_next_loop place stack fuel p a) Q.
Proof.
  intros Hw Hst Hl Hp Hp128 Hlead. revert c l a r Hw Hlead. induction fuel as [|fuel IH]; intros c l a r Hw Hlead Hf; [lia|].
  destruct (wf_subtree _ _ _ _ Hw c l a r eq_refl) as (n & Hn & Hwn & _ & El & Er).
  pose proof (nw_good _ _ _ _ Hwn) as Hg. pose proof (gd_wf _ _ Hg) as Hnp. pose proof (good_len _ _ Hg) as Hn128.
  assert (Enet : netof ns a = net (rn_p n)) by (by rewrite /netof (keyof_eq _ _ _ Hn)).
  pose proof (length_net _ Hnp) as Ln. pose proof (length_net _ Hp) as Lp. pose proof (tw_routed _ _ _ _ Hw) as Hr.
  cbn [get_next_loop]. iIntros "H HQ". destruct (Z.eqb_spec a 0) as [E0|_]; [by destruct (nw_nonnull _ _ _ _ Hwn)|].
  iApply wp_bind. iApply (wp_load_table_node with "H"); [done|]. iIntros "H". iApply wp_bind.
  iApply wp_mlift; [by apply comparable_eq|]. rewrite -Enet in Ln |- *.
  destruct (decide (comparable (netof ns a) (net p))) as [Hcmp|Hcmp]; [rewrite bool_decide_eq_true_2 //|rewrite bool_decide_eq_false_2 //].
  2: { iApply wp_bind. iApply wp_mlift; [apply iter_cmp_eq; [done..|lia|done]|]. rewrite -Enet. unfold comparable in Hcmp.
    destruct (branch_order (netof ns) c l a r (net p)) as [Enext Hc]; [done|done|tauto|tauto|]. rewrite Enext.
    destruct (Z.ltb_spec 0 (visit_cmp (netof ns a) (net p))); [iApply wp_ret; by iApply "HQ"|].
    iApply wp_bind. iApply wp_massert; [apply Z.ltb_lt; lia|]. iApply (wp_subtree_next with "H HQ"). done. }
  destruct (Z.eqb_spec (prefixlen (rn_p n)) (prefixlen p)) as [Elen|Elen].
  { assert (Eq : netof ns a = net p).
    { destruct Hcmp as [H|H]; [|symmetry]; (apply prefix_length_eq; [done|lia]). }
    rewrite -Eq. iApply (wp_next_of_found with "H HQ"); done. }
  destruct (Z.ltb_spec (prefixlen p) (prefixlen (rn_p n))) as [Hlt|Hge].
  { assert (Hpre : net p `prefix_of` netof ns a) by (destruct Hcmp as [H%prefix_length|H]; [lia|done]).
    rewrite next_of_after; [iApply wp_ret; by iApply "HQ"|done|done|]. apply visit_lt_prefix; [done|]. intros E. rewrite E in Lp. lia. }
  assert (Hpre : netof ns a `prefix_of` net p) by (destruct Hcmp as [H|H%prefix_length]; [done|lia]).
  destruct (prefix_below _ _ Hpre) as [b Hb]; [lia|].
  iApply wp_bind. iApply wp_mlift. { rewrite -Ln Enet. apply bit_below; [done|]. by rewrite -Enet. }
  remember (if b then r else l) as t' eqn:Dt. remember (if b then l else r) as s eqn:Ds.
  assert (Elink : link b n = root t') by (rewrite Dt; by destruct b). rewrite Elink.
  assert (Et : plug c (T l a r) = plug ((b, a, s) :: c) t') by (rewrite Dt Ds; by destruct b). rewrite Et in Hw Hr |- *.
  assert (Hlead' : leads (netof ns) ((b, a, s) :: c) (net p)) by by constructor.
  destruct (Z.eqb_spec (root t') 0) as [E0|E0]; cbn [negb].
  - pose proof (wf_root_nonnull fam rt ns _ Hw t' ((b, a, s) :: c) eq_refl E0) as Et0.
    rewrite Et0 in Et Hr Hw Dt |- *. rewrite (next_of_plug (netof ns) _ E) // /=. destruct (Z.eqb_spec (l_right n) 0) as [Er0|Er0]; cbn [negb].
    + assert (Hnil : (if b then [] else nodes s) = []).
      { destruct b; [done|]. subst s l. rewrite Er in Er0. rewrite -Et in Hw.
        by rewrite (wf_root_nonnull fam rt ns _ Hw r ((true, a, E) :: c) eq_refl Er0). }
      rewrite Hnil. cbn [plug] in Et. rewrite -Et. iApply (wp_subtree_next with "H HQ"). by rewrite Et.
    + rewrite Er in Er0 |- *. destruct b; [by rewrite -Dt in Er0|]. subst s. rewrite hd_root //. iApply wp_ret. by iApply "HQ".
  - destruct t' as [|l' a' r']; [done|]. cbn [root]. iApply (IH ((b, a, s) :: c) with "H HQ"); [done|done|].
    cbn [nodes] in Hf. simpl in Hf. rewrite length_app in Hf. rewrite Dt. destruct b; lia.
Qed.

Lemma wp_get_next_internal ns t p (Q : Z -> hP) :
  table_wf fam rt ns t -> stubs_ok ns -> lockable ns -> prefix_wf p -> prefixlen p <= 128 ->
  table_at ns t -∗ (table_at ns t -∗ Q (next_of (netof ns) t (net p))) -∗
  wp (route_table_get_next_internal place stack rt p) Q.
Proof.
  intros Hw Hst Hl Hp Hp128. iIntros "H HQ". unfold route_table_get_next_internal.
  iApply wp_bind. iApply (wp_table_top with "H"). iIntros (tbl [Et _]) "H". rewrite Et.
  iApply wp_bind. iApply (wp_mem_fuel _ _ _ (table_at_least _ _ _ ns t) with "H"). iIntros (fuel Hfuel) "H".
  destruct t as [|l a r]; [iApply wp_ret; by iApply "HQ"|].
  iApply (wp_get_next_loop ns [] l a r with "H HQ"); try done.
  - constructor.
  - rewrite -(wf_size _ _ _ _ Hw). lia.
Qed.

Lemma wp_route_table_get_next ns t p (y := next_of (netof ns) t (net p)) (Q : Z -> hP) :
  table_wf fam rt ns t -> stubs_ok ns -> lockable ns -> prefix_wf p -> prefixlen p <= 128 ->
  table_at ns t -∗ (table_at (hold_next ns y) t -∗ Q y) -∗ wp (route_table_get_next place stack rt p) Q.
Proof.
  intros Hw Hst Hl Hp Hp128. iIntros "H HQ". unfold route_table_get_next. iApply wp_bind.
  iApply (wp_get_next_internal with "H"); [done..|]. fold y. iIntros "H". unfold hold_next.
  destruct (Z.eqb_spec y 0) as [E0|E0]; [iApply wp_ret; rewrite E0; by iApply "HQ"|].
  destruct (next_of_spec (netof ns) t (net p) (tw_routed _ _ _ _ Hw)) as [[? _]|(Hy & Hlt & _)]; [done|]. fold y in Hy, Hlt.
  destruct (wf_lookup _ _ _ _ Hw y Hy) as (n & Hn & Hwn). pose proof (nw_good _ _ _ _ Hwn) as Hg.
  pose proof (good_len _ _ Hg). rewrite /netof (keyof_eq _ _ _ Hn) in Hlt.
  iApply wp_bind. iApply (wp_load_table_node with "H"); [exact Hn|]. iIntros "H".
  iApply wp_bind. iApply wp_mlift; [apply iter_cmp_eq; [done|done|apply Hg|done|lia|done]|].
  iApply wp_bind. iApply wp_massert. { rewrite visit_cmp_sym Hlt. done. }
  iApply (wp_lock with "H"); [done..|]. iIntros (_) "H". by iApply "HQ".
Qed.
End iter.

(** ** Making and freeing route tables

    [route_table_free] takes the nodes out from the leaves up, held or not,
    and leaves nothing of the table in memory. *)

Section empty.
Context (place : gmap Z (hcell rcell) -> Z -> Z) `{!Placement place} (fam : family).
Context `{!HashSpec rn_hash_node (good fam) same_net place}.
Abbreviation hP := (hpropI (hcell rcell)).
Context (rt : Z).
Abbreviation table_at := (table_at place fam rt).
Abbreviation parts := (parts place fam rt).

(** ** An empty table *)
Lemma wf_empty : table_wf fam rt ∅ E.
Proof. split; [|constructor|done|done|done]. intros a. split; [by intros ?%not_elem_of_nil|]. by rewrite dom_empty. Qed.

Lemma table_of_parts tbl :
  rt_top tbl = 0 -> rt_count tbl = 0 -> parts tbl ∅ ⊢ table_at ∅ E.
Proof. intros H1 H2. iIntros "H". iExists tbl. by iSplit. Qed.
End empty.

Section init.
Context (place : gmap Z (hcell rcell) -> Z -> Z) `{!Placement place} (fam : family).
Context `{!HashSpec rn_hash_node (good fam) same_net place}.
Abbreviation hP := (hpropI (hcell rcell)).

Lemma wp_route_table_init (Q : Z -> hP) :
  (∀ rt, ⌜0 < rt⌝ → table_at place fam rt ∅ E -∗ Q rt) ⊢ wp (route_table_init place) Q.
Proof.
  iIntros "HQ". unfold route_table_init. iApply wp_bind. iApply wp_alloc.
  - apply (bool_decide_unpack _). by vm_compute.
  - repeat constructor; simpl; lia.
  - iIntros (rt Hrt) "(Ht & Hh & _)". cbn [fst snd]. rewrite Z.add_0_r.
    iApply wp_bind. iApply (hs_init _ _ (keyof ∅) with "Hh"). iIntros "Hh". iApply wp_ret. iApply ("HQ" with "[//]").
    iApply (table_of_parts place fam rt (RouteTable 0 0 0)); [done|done|].
    unfold parts, nodes_at. rewrite dom_empty_L big_sepM_empty. iFrame.
Qed.
End init.

(** ** Freeing *)
Section free.
Context (place : gmap Z (hcell rcell) -> Z -> Z) `{!Placement place} (fam : family).
Context `{!HashSpec rn_hash_node (good fam) same_net place}.
Abbreviation hP := (hpropI (hcell rcell)).
Context (rt : Z).
Abbreviation table_at := (table_at place fam rt).
Abbreviation counted := (counted place fam rt).
Abbreviation parts := (parts place fam rt).

Lemma delete_relabel (f : route_node -> route_node) (a : Z) ns : delete a (alter f a ns) = delete a ns.
Proof.
  apply map_eq. intros x. destruct (decide (x = a)) as [->|Hne]; [by rewrite !lookup_delete_eq|].
  by rewrite !lookup_delete_ne // lookup_alter_ne.
Qed.

(** A leaf that has left the table, and the link to it *)
Lemma spliced_leaf c a ns :
  ns !! 0 = None -> a ∉ ctx_nodes c -> spliced c E a ns = relink c 0 (delete a ns).
Proof.
  intros H0 Ha. unfold spliced, adopted. cbn [root]. rewrite alter_nothing //.
  destruct c as [|[[b p] s] c]; cbn [relink]; [done|]. rewrite delete_alter_ne; [done|]. intros ->. apply Ha. by left.
Qed.

(** A leaf leaves the table. *)
Lemma wp_free_node {B} ns t a (k : M _ B) (Q : B -> hP) :
  table_wf fam rt ns t -> a ∈ nodes t -> Z.of_nat (size ns) < 2 ^ 63 ->
  table_at ns t -∗
  (∀ tbl, ⌜rt_top tbl = root t /\ rt_count tbl = Z.of_nat (size ns) - 1⌝ → parts tbl (delete a ns) -∗ wp k Q) -∗
  wp (add_count rt (-1) ;; update_node a (set_lock 0) ;; hash_del rn_hash_node place (table_hash rt) a ;;
      route_node_free a ;; k) Q.
Proof.
  intros Hw Ha Hs. destruct (wf_lookup _ _ _ _ Hw a Ha) as (n & Hn & _). iIntros "H HQ".
  assert (Hpos : (0 < size ns)%nat).
  { rewrite (wf_size _ _ _ _ Hw). destruct (nodes t); [by apply not_elem_of_nil in Ha|simpl; lia]. }
  rewrite table_counted. iApply wp_bind. iApply (wp_add_count' with "H"); [lia|]. iIntros "(%tbl & [%Htop %Hc] & Hp)".
  iDestruct "Hp" as "(Ht & Hh & Hn)". iApply wp_bind. iApply (wp_update_node with "Hn"); [done|]. iIntros "Hn".
  assert (Hsame : same_place n (set_lock 0 n)) by done.
  iApply (wp_leave _ _ _ tbl (<[a := set_lock 0 n]> ns) a with "[Ht Hh Hn]").
  - rewrite (dom_relabel _ _ _ _ Hn). by apply elem_of_dom.
  - iFrame. rewrite (dom_relabel _ _ _ _ Hn). iApply (hs_ext with "Hh"). intros x _.
    by rewrite (keyof_relabel _ _ _ _ _ Hn Hsame).
  - rewrite delete_insert_eq. iIntros "Hp". iApply ("HQ" with "[%] Hp"). split; [done|]. rewrite Hc. lia.
Qed.

Lemma wp_free_loop fuel ns c t' (Q : unit -> hP) :
  table_wf fam rt ns (plug c t') -> t' <> E -> (2 * size ns <= fuel + length c + 1)%nat -> Z.of_nat (size ns) < 2 ^ 63 ->
  table_at ns (plug c t') -∗ (∀ tbl, ⌜rt_count tbl = 0⌝ → parts tbl ∅ -∗ Q tt) -∗
  wp (free_loop place fuel rt (root t')) Q.
Proof.
  revert ns c t'. induction fuel as [|fuel IH]; intros ns c t' Hw Ht' Hf Hs.
  { exfalso. rewrite (wf_size _ _ _ _ Hw) nodes_plug length_app in Hf. destruct t'; [done|]. cbn [nodes length] in Hf.
    pose proof (length_ctx_nodes c). lia. }
  destruct t' as [|l a r]; [done|]. destruct (wf_subtree _ _ _ _ Hw c l a r eq_refl) as (n & Hn & Hwn & Epar & El & Er).
  cbn [free_loop root]. iIntros "H HQ". iApply wp_bind. iApply (wp_load_table_node with "H"); [done|]. iIntros "H".
  rewrite El Er. destruct (Z.eqb_spec (root l) 0) as [E0|E0]; cbn [negb].
  2: { iApply (IH ns ((false, a, r) :: c) l with "H HQ"); [done|by intros ->|simpl; lia|done]. }
  pose proof (wf_root_nonnull fam rt ns _ Hw l ((false, a, r) :: c) eq_refl E0) as ->.
  destruct (Z.eqb_spec (root r) 0) as [E1|E1]; cbn [negb].
  2: { iApply (IH ns ((true, a, E) :: c) r with "H HQ"); [done|by intros ->|simpl; lia|done]. }
  pose proof (wf_root_nonnull fam rt ns _ Hw r ((true, a, E) :: c) eq_refl E1) as ->.
  rewrite (nw_table _ _ _ _ Hwn) Epar.
  assert (Ha : a ∈ nodes (plug c (T E a E))) by (rewrite nodes_plug; by left).
  iApply (wp_free_node with "H"); [done|done|done|]. iIntros (tbl [Htop Hc]) "Hp".
  destruct (splice_disjoint fam rt ns c E a E Hw (or_introl eq_refl)) as (_ & Hac & _ & _ & _ & Hin).
  pose proof (wf_splice fam rt ns c E a E Hw (or_introl eq_refl)) as Hw'.
  assert (H0 : ns !! 0 = None).
  { apply not_elem_of_dom. rewrite -(tw_dom _ _ _ _ Hw). intros H%(nodes_nonnull _ _ _ _ _ Hw). done. }
  rewrite (spliced_leaf c a ns H0 Hac) in Hw'.
  assert (Esz : size (delete a ns) = pred (size ns)) by (apply map_size_delete_Some; by exists n).
  assert (Hpos : (0 < size ns)%nat) by (rewrite (wf_size _ _ _ _ Hw) nodes_plug; simpl; lia).
  destruct c as [|[[b p] s] c]; cbn [above].
  - cbn [Z.eqb negb]. iApply wp_ret. cbn [relink sole plug] in Hw'.
    assert (Eemp : delete a ns = ∅).
    { apply map_size_empty_inv. rewrite (wf_size _ _ _ _ Hw'). done. }
    rewrite Eemp in Esz |- *. rewrite map_size_empty in Esz. iApply ("HQ" $! tbl with "[%] Hp"). lia.
  - destruct (parent_side fam rt ns c b p s (T E a E) Hw) as (Hp0 & m & Hm & Hb); [done|]. cbn [root] in Hb.
    destruct (Z.eqb_spec p 0) as [|_]; [done|]. cbn [negb].
    assert (Hpa : p <> a) by (intros ->; apply Hac; by left).
    iApply wp_bind. iApply (wp_parts_load with "Hp"); [rewrite lookup_delete_ne; [exact Hm|done]|]. iIntros "Hp". rewrite Hb.
    iApply wp_bind. iApply (wp_parts_update with "Hp").
    { apply elem_of_dom. rewrite lookup_delete_ne; [by exists m|done]. }
    { intros. by destruct b. }
    iIntros "Hp". cbn [relink sole] in Hw'.
    assert (Esz' : size (alter (set_child b 0) p (delete a ns)) = pred (size ns)) by (by rewrite -Esz -!size_dom dom_alter_L).
    assert (Erec : exists t'', t'' <> E /\ root t'' = p /\ plug ((b, p, s) :: c) E = plug c t'').
    { exists (join b p E s). by destruct b. }
    destruct Erec as (t'' & Ht'' & Ep & Et''). rewrite -{2}Ep. rewrite Et'' in Hw'.
    iApply (IH (alter (set_child b 0) p (delete a ns)) c t'' with "[Hp]"); [done|done|simpl in Hf; lia|lia| |done].
    iExists tbl. iSplit; [|iFrame "Hp"]. iPureIntro. rewrite Esz'. split; [|lia].
    rewrite Htop rtree_root_plug -Et'' (rtree_root_plug _ E). done.
Qed.

(** [route_table_free] leaves nothing. *)
Lemma wp_route_table_free ns t (Q : unit -> hP) :
  table_wf fam rt ns t -> Z.of_nat (size ns) < 2 ^ 63 ->
  table_at ns t -∗ Q tt -∗ wp (route_table_free place rt) Q.
Proof.
  intros Hw Hs. iIntros "H HQ". unfold route_table_free.
  iAssert (⌜rt <> 0⌝)%I as %Hrt.
  { iDestruct "H" as "(%tbl & _ & Ht & _)". by iApply (points_to_nonnull with "Ht"). }
  destruct (Z.eqb_spec rt 0) as [|_]; [done|].
  iApply wp_bind. iApply (wp_table_top with "H"). iIntros (tbl [Htop Hc]) "H".
  iApply wp_bind. iApply (wp_mem_fuel _ _ _ (table_at_least _ _ _ ns t) with "H"). iIntros (fuel Hfuel) "H".
  iApply wp_bind.
  assert (Hrest : forall tbl', rt_count tbl' = 0 -> parts tbl' ∅ -∗ Q tt -∗
    wp (t ← load_table rt; massert (rt_count t =? 0) ;; hash_fini place (table_hash rt) ;; mem_free_all [rt; table_hash rt]) Q).
  { intros tbl' Hc'. iIntros "(Ht & Hh & Hn) HQ". iApply wp_bind. iApply (wp_load_table with "Ht"). iIntros "Ht".
    iApply wp_bind. iApply wp_massert; [by rewrite Hc'|]. rewrite dom_empty_L.
    iApply wp_bind. iApply (hs_fini with "Hh"). iIntros "Hh". unfold nodes_at. rewrite big_sepM_empty.
    iApply (wp_free_all _ [_; _] with "[Ht Hh]"); [done| |iFrame].
    simpl. iFrame. }
  rewrite Htop. destruct (Z.eqb_spec (root t) 0) as [E0|E0]; cbn [negb mwhen].
  - pose proof (wf_root_nonnull fam rt ns _ Hw t [] eq_refl E0) as ->.
    assert (ns = ∅) as ->. { apply map_size_empty_inv. by rewrite (wf_size _ _ _ _ Hw). }
    iApply wp_ret. iDestruct "H" as "(%tbl' & [_ %Hc'] & Hp)". iApply (Hrest tbl' with "Hp HQ"). by rewrite Hc'.
  - iApply (wp_free_loop _ ns [] t with "H"); [done|by intros ->|simpl; lia|done|]. iIntros (tbl' Hc') "Hp".
    iApply (Hrest tbl' with "Hp HQ"). done.
Qed.
End free.
