(* ===== verification/RouteSteps.v ===== *)
(** * Route tables as their clients see them

    The state of a table for its clients: the nodes they hold, with networks,
    reference counts and information, and the position of an iterator.  The
    operations as steps on this state; the theorem that a table behaves as the
    steps say, whatever a client that follows the rules does; and what follows
    for iterations that are interrupted by other operations. *)

From stdpp Require Import sorting.
From iris.proofmode Require Import proofmode.
From S2P Require Import Prelude SepLogic FrrPrefix FrrPrefixBits Heap ThashSize Thash ThashResize ThashSet.
From S2P Require Import ThashIter RouteTable RouteTree RouteKey RouteHeap RouteSearch RouteInsert RouteGet RouteDelete.
From S2P Require Import RouteIter.

#[local] Open Scope Z_scope.

Implicit Types ns : gmap Z route_node.
Implicit Types t l s : rtree.

(** ** The clients' view *)
Abbreviation holding := (gmap Z entry).
Implicit Types H : holding.

Inductive position := PStart | PAt (a : Z) | PPaused (q : list bool) | PDone.
#[export] Instance position_eq_dec : EqDecision position.
Proof. solve_decision. Defined.

(** One more reference, or the first one to a node for [q] *)
Definition hold H (r : Z) (q : list bool) : holding :=
  <[r := match H !! r with Some e => Entry (e_net e) (e_lock e + 1) (e_info e) | None => Entry q 1 0 end]> H.

Definition release H (a : Z) : holding :=
  match H !! a with
  | Some e => if e_lock e =? 1 then delete a H else <[a := Entry (e_net e) (e_lock e - 1) (e_info e)]> H
  | None => H
  end.

(** [r] is a node for [q], and it is held once more. *)
Definition taken H (r : Z) (q : list bool) H' : Prop :=
  r <> 0 /\ (forall e, H !! r = Some e -> e_net e = q) /\ H' = hold H r q.

Definition after (o : option (list bool)) (q : list bool) : Prop :=
  match o with None => True | Some p => visit_lt p q end.

(** [r] is the first node after [o], as far as the nodes that are held can
    tell: there may be nodes between them that nobody holds. *)
Definition next_held (o : option (list bool)) H (r : Z) H' : Prop :=
  r = 0 /\ H' = H /\ (forall x e, H !! x = Some e -> ~ after o (e_net e)) \/
  exists q, after o q /\ taken H r q H' /\
    forall x e, H !! x = Some e -> after o (e_net e) -> x = r \/ visit_lt q (e_net e).

Inductive route_op :=
  | RGet (p : FrrPrefix.prefix)
  | RLookup (p : FrrPrefix.prefix)
  | RLookupMaynull (p : FrrPrefix.prefix)
  | RMatch (p : FrrPrefix.prefix)
  | RLock (a : Z)
  | RUnlock (a : Z)
  | RSetInfo (a i : Z)
  | RTop
  | RNext (a : Z)
  | RGetNext (p : FrrPrefix.prefix)
  | RCount
  | RIterNext
  | RIterPause
  | RIterCleanup.

(** ** The rules for clients *)

(** There is room for one more reference. *)
Definition room H : Prop := map_Forall (fun _ e => e_lock e < 2 ^ 32 - 1) H /\ Z.of_nat (size H) < 2 ^ 28.

(** A reference to [a] may be given back: it is the client's, and there is
    nothing on the node if it is the last one. *)
Definition may_release H (a : Z) : Prop := exists e, H !! a = Some e /\ (e_lock e = 1 -> e_info e = 0).

(** The reference of the iterator is not the client's. *)
Definition not_the_iterators H (pos : position) (a : Z) : Prop :=
  pos = PAt a -> forall e, H !! a = Some e -> e_lock e <> 1.

Definition iter_may_release H (pos : position) : Prop := forall a, pos = PAt a -> may_release H a.

Definition route_pre (fam : family) H (pos : position) (op : route_op) : Prop :=
  match op with
  | RGet p | RLookup p | RLookupMaynull p => query fam p /\ room H
  | RMatch p => prefix_wf p /\ room H
  | RLock a => is_Some (H !! a) /\ room H
  | RUnlock a => may_release H a /\ not_the_iterators H pos a
  | RSetInfo a i => is_Some (H !! a)
  | RTop => room H
  | RNext a => may_release H a /\ not_the_iterators H pos a /\ room H
  | RGetNext p => prefix_wf p /\ prefixlen p <= 128 /\ room H
  | RCount => True
  | RIterNext => iter_may_release H pos /\ room H
  | RIterPause | RIterCleanup => iter_may_release H pos
  end.

(** ** The steps *)
Definition holder (P : entry -> Prop) H : Prop := exists x e, H !! x = Some e /\ P e.

Definition moved_to (r : Z) : position := if r =? 0 then PDone else PAt r.

(** What is held when [a] is left for [r] *)
Definition left_for (o : option (list bool)) H (a r : Z) H' : Prop :=
  exists H1, next_held o H r H1 /\ H' = release H1 a.

Definition net_at H (a : Z) : list bool := match H !! a with Some e => e_net e | None => [] end.

Definition route_spec H (pos : position) (op : route_op) (r : Z) H' (pos' : position) : Prop :=
  match op with
  | RGet p => taken H r (net p) H' /\ (forall x e, H !! x = Some e -> e_net e = net p -> x = r) /\ pos' = pos
  | RLookup p =>
      (r = 0 /\ H' = H /\ ~ holder (fun e => e_net e = net p /\ e_info e <> 0) H \/
       exists e, H !! r = Some e /\ e_net e = net p /\ e_info e <> 0 /\ taken H r (net p) H') /\ pos' = pos
  | RLookupMaynull p =>
      (r = 0 /\ H' = H /\ ~ holder (fun e => e_net e = net p) H \/
       taken H r (net p) H' /\ forall x e, H !! x = Some e -> e_net e = net p -> x = r) /\ pos' = pos
  | RMatch p =>
      (r = 0 /\ H' = H /\ ~ holder (fun e => e_net e `prefix_of` net p /\ e_info e <> 0) H \/
       exists e, H !! r = Some e /\ e_net e `prefix_of` net p /\ e_info e <> 0 /\ taken H r (e_net e) H' /\
         forall x e', H !! x = Some e' -> e_net e' `prefix_of` net p -> e_info e' <> 0 -> e_net e' `prefix_of` e_net e) /\
      pos' = pos
  | RLock a => r = a /\ H' = hold H a [] /\ pos' = pos
  | RUnlock a => r = 0 /\ H' = release H a /\ pos' = pos
  | RSetInfo a i => r = 0 /\ H' = alter (fun e => Entry (e_net e) (e_lock e) i) a H /\ pos' = pos
  | RTop => next_held None H r H' /\ pos' = pos
  | RNext a => left_for (Some (net_at H a)) H a r H' /\ pos' = pos
  | RGetNext p => next_held (Some (net p)) H r H' /\ pos' = pos
  | RCount => Z.of_nat (size H) <= r <= 2 * Z.of_nat (size H) /\ H' = H /\ pos' = pos
  | RIterNext =>
      match pos with
      | PStart => next_held None H r H' /\ pos' = moved_to r
      | PAt a => left_for (Some (net_at H a)) H a r H' /\ pos' = moved_to r
      | PPaused q => next_held (Some q) H r H' /\ pos' = moved_to r
      | PDone => r = 0 /\ H' = H /\ pos' = PDone
      end
  | RIterPause =>
      r = 0 /\
      match pos with PAt a => H' = release H a /\ pos' = PPaused (net_at H a) | _ => H' = H /\ pos' = pos end
  | RIterCleanup =>
      r = 0 /\ pos' = PDone /\ H' = match pos with PAt a => release H a | _ => H end
  end.

(** ** What the nodes in memory mean for the clients *)
Lemma held_some ns a e :
  held ns !! a = Some e -> exists n, ns !! a = Some n /\ rn_lock n <> 0 /\ e = entry_of n.
Proof. apply held_lookup. Qed.

Lemma held_none ns a n : ns !! a = Some n -> held ns !! a = None -> rn_lock n = 0.
Proof. intros Hn Ha. unfold held in Ha. rewrite lookup_omap Hn /= in Ha. by destruct (Z.eqb_spec (rn_lock n) 0). Qed.

Lemma room_lockable ns : room (held ns) -> lockable ns.
Proof.
  intros [Hr _] a n Hn. destruct (held ns !! a) as [e|] eqn:He.
  - pose proof (Hr a e He) as Hl. apply held_some in He as (n' & Hn' & _ & ->). assert (n' = n) as -> by congruence. done.
  - by rewrite (held_none _ _ _ Hn He).
Qed.

Lemma held_stub ns a n : stubs_ok ns -> ns !! a = Some n -> held ns !! a = None -> rn_lock n = 0 /\ rn_info n = 0.
Proof. intros Hst Hn Ha. pose proof (held_none _ _ _ Hn Ha) as Hl. split; [done|]. by destruct (Hst a n Hn Hl). Qed.

Lemma hold_fields ns a q : stubs_ok ns -> (forall n, ns !! a = Some n -> net (rn_p n) = q) ->
  <[a := Entry q (lock_of ns a + 1) (infoof ns a)]> (held ns) = hold (held ns) a q.
Proof.
  intros Hst Hq. unfold hold, lock_of, infoof. f_equal. destruct (held ns !! a) as [e|] eqn:He.
  - apply held_some in He as (n & Hn & _ & ->). rewrite Hn /=. by rewrite (Hq n Hn).
  - destruct (ns !! a) as [n|] eqn:Hn; [|done]. by destruct (held_stub _ _ _ Hst Hn He) as [-> ->].
Qed.

Lemma released_release ns a n : ns !! a = Some n -> rn_lock n <> 0 -> released ns a n = release (held ns) a.
Proof.
  intros Hn Hl. unfold released, release.
  assert (He : held ns !! a = Some (entry_of n)) by (apply held_lookup; by exists n). by rewrite He.
Qed.

Section view.
Context (fam : family) (rt : Z) ns t (Hw : table_wf fam rt ns t) (Hst : stubs_ok ns).

Lemma held_node a e : held ns !! a = Some e -> a ∈ nodes t /\ netof ns a = e_net e /\ infoof ns a = e_info e.
Proof using Hw.
  intros (n & Hn & _ & ->)%held_some. split_and!; [|by rewrite /netof (keyof_eq _ _ _ Hn)|by rewrite /infoof Hn].
  apply (tw_dom _ _ _ _ Hw), elem_of_dom. by exists n.
Qed.

Lemma held_lock_node a : a ∈ nodes t -> held (lock_node ns a) = hold (held ns) a (netof ns a).
Proof using Hw Hst.
  intros Ha. destruct (wf_lookup _ _ _ _ Hw a Ha) as (n & Hn & Hwn). pose proof (nw_lock _ _ _ _ Hwn).
  rewrite (held_lock _ _ _ Hn); [|lia]. rewrite -(hold_fields ns a (netof ns a) Hst).
  - by rewrite /netof (keyof_eq _ _ _ Hn) /lock_of /infoof Hn.
  - intros n' Hn'. by rewrite /netof (keyof_eq _ _ _ Hn').
Qed.

Lemma taken_lock a : a ∈ nodes t -> taken (held ns) a (netof ns a) (held (lock_node ns a)).
Proof using Hw Hst.
  intros Ha. split_and!; [by eapply nodes_nonnull| |by apply held_lock_node]. by intros e (_ & -> & _)%held_node.
Qed.

(** The first of the nodes is the first of those that are held, or before it. *)
Lemma next_held_of o y :
  y = 0 /\ (forall x, x ∈ nodes t -> ~ after o (netof ns x)) \/
  y ∈ nodes t /\ after o (netof ns y) /\
    (forall x, x ∈ nodes t -> after o (netof ns x) -> x = y \/ visit_lt (netof ns y) (netof ns x)) ->
  next_held o (held ns) y (held (hold_next ns y)).
Proof using Hw Hst.
  unfold hold_next. intros [[-> Hno]|(Hy & Hafter & Hmin)].
  - left. split_and!; [done|done|]. intros x e (Hx & En & _)%held_node. rewrite -En. by apply Hno.
  - right. exists (netof ns y). pose proof (nodes_nonnull _ _ _ _ _ Hw Hy). destruct (Z.eqb_spec y 0) as [|_]; [done|].
    split_and!; [done|by apply taken_lock|]. intros x e (Hx & En & _)%held_node. rewrite -En. by apply Hmin.
Qed.

Lemma next_held_next q : next_held (Some q) (held ns) (next_of (netof ns) t q) (held (hold_next ns (next_of (netof ns) t q))).
Proof using Hw Hst. apply next_held_of. apply next_of_spec, (tw_routed _ _ _ _ Hw). Qed.

Lemma next_held_top : next_held None (held ns) (hd 0 (nodes t)) (held (hold_next ns (hd 0 (nodes t)))).
Proof using Hw Hst.
  apply next_held_of. cbn [after]. pose proof (routed_sorted _ _ (tw_routed _ _ _ _ Hw)) as Hs. destruct (nodes t) as [|y ys]; [left|right].
  - split; [done|]. by intros x ?%not_elem_of_nil.
  - cbn [hd]. split_and!; [by left|done|]. intros x [->|Hx]%elem_of_cons _; [by left|right].
    apply StronglySorted_inv in Hs as [_ Hs]. rewrite Forall_forall in Hs. by apply Hs.
Qed.
End view.

(** ** The nodes that nobody holds are fewer than those that are held. *)
Definition stub_node ns (a : Z) : bool := match held ns !! a with Some _ => false | None => true end.

Definition stubs_in ns t : nat := length (filter (fun a => stub_node ns a = true) (nodes t)).
Definition held_in ns t : nat := length (filter (fun a => stub_node ns a = false) (nodes t)).

Lemma stubs_in_node ns l a r :
  stubs_in ns (T l a r) = ((if stub_node ns a then 1 else 0) + stubs_in ns l + stubs_in ns r)%nat /\
  held_in ns (T l a r) = ((if stub_node ns a then 0 else 1) + held_in ns l + held_in ns r)%nat.
Proof.
  unfold stubs_in, held_in. cbn [nodes]. rewrite !filter_cons !filter_app.
  destruct (stub_node ns a); split; case_decide; try done; cbn [length]; rewrite !length_app; lia.
Qed.

Lemma stub_children ns a l r parent :
  stubs_ok ns -> is_Some (ns !! a) -> links ns a = Some (parent, root l, root r) -> stub_node ns a = true -> l <> E /\ r <> E.
Proof.
  intros Hst [n Hn] Ea Es. unfold stub_node in Es. destruct (held ns !! a) eqn:He; [done|].
  pose proof (held_none _ _ _ Hn He) as Hlock. destruct (Hst a n Hn Hlock) as (_ & H1 & H2).
  unfold links in Ea. rewrite Hn in Ea. injection Ea as _ E1 E2. rewrite E1 in H1. rewrite E2 in H2.
  split; intros ->; by cbn in *.
Qed.

Lemma stubs_fewer ns t parent :
  stubs_ok ns -> linked ns parent t -> (forall x, x ∈ nodes t -> is_Some (ns !! x)) ->
  t = E \/ (stubs_in ns t < held_in ns t)%nat.
Proof.
  intros Hst. revert parent. induction t as [|l IHl a r IHr]; intros parent Hl Hn; [by left|right].
  cbn [linked] in Hl. destruct Hl as (Ea & Hll & Hlr). cbn [nodes] in Hn.
  destruct (stubs_in_node ns l a r) as [-> ->].
  assert (Hl : l = E \/ (stubs_in ns l < held_in ns l)%nat).
  { apply (IHl a Hll). intros x Hx. apply Hn. right. apply elem_of_app. by left. }
  assert (Hr : r = E \/ (stubs_in ns r < held_in ns r)%nat).
  { apply (IHr a Hlr). intros x Hx. apply Hn. right. apply elem_of_app. by right. }
  destruct (stub_node ns a) eqn:Es.
  - destruct (stub_children ns a l r parent Hst) as [Hl' Hr']; [apply Hn; by left|done|done|].
    destruct Hl as [|Hl], Hr as [|Hr]; try done. lia.
  - destruct Hl as [->|Hl], Hr as [->|Hr]; unfold stubs_in, held_in in *; simpl in *; lia.
Qed.

Lemma held_in_size fam rt ns t : table_wf fam rt ns t -> held_in ns t = size (held ns).
Proof.
  intros Hw. unfold held_in. rewrite -size_dom -(size_list_to_set (C := gset Z)).
  - f_equal. apply set_eq. intros x. rewrite elem_of_list_to_set list_elem_of_filter elem_of_dom. unfold stub_node.
    split; [intros [Hx _]; destruct (held ns !! x); [by eexists|done]|].
    intros [e He]. rewrite He. split; [done|]. by destruct (held_node fam rt ns t Hw x e He).
  - apply NoDup_filter, (tw_nodup _ _ _ _ Hw).
Qed.

Lemma filter_both (f : Z -> bool) (l : list Z) :
  (length (filter (fun a => f a = true) l) + length (filter (fun a => f a = false) l))%nat = length l.
Proof.
  induction l as [|a l IH]; [done|]. rewrite !filter_cons. destruct (f a);
    repeat case_decide; try done; simpl; lia.
Qed.

(** The number of nodes *)
Lemma nodes_bound fam rt ns t :
  table_wf fam rt ns t -> stubs_ok ns -> (size (held ns) <= size ns <= 2 * size (held ns))%nat.
Proof.
  intros Hw Hst. pose proof (held_in_size _ _ _ _ Hw) as Hh. pose proof (wf_size _ _ _ _ Hw) as Hs.
  pose proof (filter_both (stub_node ns) (nodes t)) as Hb. fold (stubs_in ns t) in Hb. fold (held_in ns t) in Hb.
  destruct (stubs_fewer ns t 0 Hst (tw_links _ _ _ _ Hw)) as [->|Hlt]; [|unfold stubs_in, held_in in *; simpl in *; lia|lia].
  intros x Hx. destruct (wf_lookup _ _ _ _ Hw x Hx) as (n & Hn & _). by exists n.
Qed.

(** ** Route tables: the steps in memory

    Each operation does on a table in memory what its step says. *)


(** ** Sizes *)
Lemma hold_size H r q : (size (hold H r q) <= S (size H))%nat.
Proof.
  unfold hold. destruct (H !! r) as [e|] eqn:He; [rewrite (map_size_insert_Some _ _ _ (mk_is_Some _ _ He)); lia|].
  rewrite map_size_insert_None //.
Qed.

Lemma release_size H a : (size (release H a) <= size H)%nat.
Proof.
  unfold release. destruct (H !! a) as [e|] eqn:He; [|done]. destruct (e_lock e =? 1).
  - rewrite (map_size_delete_Some _ _ (mk_is_Some _ _ He)). lia.
  - rewrite (map_size_insert_Some _ _ _ (mk_is_Some _ _ He)). lia.
Qed.

Lemma taken_size H r q H' : taken H r q H' -> (size H' <= S (size H))%nat.
Proof. intros (_ & _ & ->). apply hold_size. Qed.

Lemma next_held_size o H r H' : next_held o H r H' -> (size H' <= S (size H))%nat.
Proof. intros [(_ & -> & _)|(q & _ & Ht & _)]; [lia|by eapply taken_size]. Qed.

(** ** Running an operation *)
Section exec.
Context (place : gmap Z (hcell rcell) -> Z -> Z) (stack : list Z).
Abbreviation mem := (gmap Z (hcell rcell)).

Definition plain (m : M mem Z) (it : route_table_iter) : M mem (Z * route_table_iter) := r ← m; mret (r, it).
Definition quiet (m : M mem unit) (it : route_table_iter) : M mem (Z * route_table_iter) := m ;; mret (0, it).
Definition moves (m : M mem route_table_iter) : M mem (Z * route_table_iter) := it ← m; mret (0, it).

Definition route_exec (rt : Z) (it : route_table_iter) (op : route_op) : M mem (Z * route_table_iter) :=
  match op with
  | RGet p => plain (route_node_get place stack rt p) it
  | RLookup p => plain (route_node_lookup stack rt p) it
  | RLookupMaynull p => plain (route_node_lookup_maynull stack rt p) it
  | RMatch p => plain (route_node_match rt p) it
  | RLock a => plain (route_lock_node a) it
  | RUnlock a => quiet (route_unlock_node place a) it
  | RSetInfo a i => quiet (update_node a (set_info i)) it
  | RTop => plain (route_top rt) it
  | RNext a => plain (route_next place a) it
  | RGetNext p => plain (route_table_get_next place stack rt p) it
  | RCount => plain (route_table_count rt) it
  | RIterNext => route_table_iter_next place stack it
  | RIterPause => moves (route_table_iter_pause place it)
  | RIterCleanup => moves (route_table_iter_cleanup place it)
  end.
End exec.

(** ** The invariant *)
Section steps.
Context (place : gmap Z (hcell rcell) -> Z -> Z) `{!Placement place} (fam : family).
Context `{!HashSpec rn_hash_node (good fam) same_net place}.
Context (rt : Z).
Abbreviation mem := (gmap Z (hcell rcell)).
Abbreviation hP := (hpropI (hcell rcell)).
Abbreviation table_at := (table_at place fam rt).

Record iter_at (pos : position) (it : route_table_iter) : Prop := {
  ia_table : it_table it = rt;
  ia_prefix : prefix_wf (pause_prefix it);
  ia_state : match pos with
    | PStart => it_state it = RT_ITER_STATE_INIT /\ it_current it = 0
    | PAt a => it_state it = RT_ITER_STATE_ITERATING /\ it_current it = a
    | PPaused q => it_state it = RT_ITER_STATE_PAUSED /\ it_current it = 0 /\
        net (pause_prefix it) = q /\ prefixlen (pause_prefix it) <= 128
    | PDone => it_state it = RT_ITER_STATE_DONE /\ it_current it = 0
    end
}.

Record view H ns t : Prop := {
  vw_wf : table_wf fam rt ns t;
  vw_stubs : stubs_ok ns;
  vw_held : held ns = H;
  vw_size : Z.of_nat (size H) <= 2 ^ 28
}.

Definition table_view H : hP := (∃ ns t, ⌜view H ns t⌝ ∧ table_at ns t)%I.
Definition route_inv H pos it : hP := (⌜iter_at pos it⌝ ∧ table_view H)%I.

Lemma view_small H ns t : view H ns t -> Z.of_nat (size ns) <= 2 ^ 29.
Proof. intros [Hw Hst <- Hs]. pose proof (nodes_bound _ _ _ _ Hw Hst). lia. Qed.

Lemma view_intro ns t H : table_wf fam rt ns t -> stubs_ok ns -> held ns = H -> Z.of_nat (size H) <= 2 ^ 28 ->
  table_at ns t ⊢ table_view H.
Proof. intros. iIntros "H". iExists ns, t. by iSplit. Qed.

(** An operation that gives a node and what is held then *)
Definition does H (m : M mem Z) (P : Z -> gmap Z entry -> Prop) : Prop :=
  table_view H ⊢ wp m (fun r => ∃ H', ⌜P r H'⌝ ∧ table_view H').

Context (stack : list Z) (Hstack : Forall is_byte stack) (Hlen : length stack = 40%nat).

Lemma does_get H p :
  query fam p -> room H ->
  does H (route_node_get place stack rt p)
    (fun r H' => taken H r (net p) H' /\ forall x e, H !! x = Some e -> e_net e = net p -> x = r).
Proof.
  intros Hq Hr. iIntros "(%ns & %t & %Hv & H)". pose proof (view_small _ _ _ Hv). destruct Hv as [Hw Hst <- Hs].
  iApply (wp_route_node_get with "H"); [done|done|done..|by apply room_lockable|done|lia|].
  iIntros (r ns' t' [Hw' Hst' Hin Hnet Hold Hheld]) "H".
  rewrite (hold_fields ns r (net p) Hst Hold) in Hheld.
  assert (Ht : taken (held ns) r (net p) (held ns')).
  { split_and!; [by apply (nodes_nonnull _ _ _ _ _ Hw')| |done].
    intros e (n & Hn & _ & ->)%held_some. by apply Hold. }
  iExists (held ns'). iSplit.
  - iPureIntro. split; [done|]. intros x e Hx En. destruct (decide (x = r)) as [|Hne]; [done|].
    apply (routed_inj _ _ _ _ (tw_routed _ _ _ _ Hw')); [|done|].
    + apply (held_node _ _ _ _ Hw' x e). rewrite Hheld /hold lookup_insert_ne //.
    + rewrite Hnet -En. apply (held_node _ _ _ _ Hw' x e). rewrite Hheld /hold lookup_insert_ne //.
  - iApply (view_intro with "H"); [done|done|done|]. pose proof (taken_size _ _ _ _ Ht). destruct Hr. lia.
Qed.

(** Taking a reference to a node of the table *)
Lemma view_lock H ns t a : view H ns t -> room H -> a ∈ nodes t ->
  table_wf fam rt (lock_node ns a) t -> view (held (lock_node ns a)) (lock_node ns a) t /\ taken H a (netof ns a) (held (lock_node ns a)).
Proof.
  intros [Hw Hst <- Hs] [_ Hr] Ha Hw'. pose proof (taken_lock fam rt ns t Hw Hst a Ha) as Ht. split; [|done].
  destruct (wf_lookup _ _ _ _ Hw a Ha) as (n & Hn & Hwn). pose proof (nw_lock _ _ _ _ Hwn).
  split; [done| |done|pose proof (taken_size _ _ _ _ Ht); lia].
  apply (stubs_locked _ _ n); [by apply stubs_ok_except|done|lia].
Qed.

Lemma view_hold_next H ns t y o : view H ns t -> room H -> next_held o H y (held (hold_next ns y)) -> (y = 0 \/ y ∈ nodes t) ->
  view (held (hold_next ns y)) (hold_next ns y) t.
Proof.
  intros [Hw Hst <- Hs] Hr Hn Hy. split; [apply hold_next_wf; [done|by apply room_lockable|done]|by eapply hold_next_stubs|done|].
  pose proof (next_held_size _ _ _ _ Hn). destruct Hr. lia.
Qed.

Lemma does_lookup H p :
  query fam p -> room H ->
  does H (route_node_lookup stack rt p)
    (fun r H' => r = 0 /\ H' = H /\ ~ holder (fun e => e_net e = net p /\ e_info e <> 0) H \/
       exists e, H !! r = Some e /\ e_net e = net p /\ e_info e <> 0 /\ taken H r (net p) H').
Proof.
  intros Hq Hr. iIntros "(%ns & %t & %Hv & H)". pose proof Hv as [Hw Hst Hh Hs].
  iApply (wp_route_node_lookup with "H"); [done|done|done|by apply room_lockable; rewrite Hh|done|].
  iIntros (r) "[[%Hno H]|[%Hyes H]]".
  - destruct Hno as [-> Hno]. iExists H. iSplit; [|iExists ns, t; by iSplit]. iPureIntro. left. split_and!; [done..|].
    intros (x & e & Hx & En & Ei). rewrite -Hh in Hx. destruct (held_node _ _ _ _ Hw x e Hx) as (Hin & En' & Ei').
    apply Ei. rewrite -Ei'. apply Hno; congruence.
  - destruct Hyes as (Hin & En & Ei & Hw'). destruct (view_lock H ns t r Hv Hr Hin Hw') as [Hv' Ht]. rewrite En in Ht.
    iExists _. iSplit; [|iExists _, t; iSplit; [iPureIntro; exact Hv'|done]]. iPureIntro. right.
    destruct (wf_lookup _ _ _ _ Hw r Hin) as (n & Hn & _). rewrite /infoof Hn in Ei.
    destruct (held ns !! r) as [e|] eqn:He; [|by destruct (held_stub _ _ _ Hst Hn He) as [_ ?]].
    exists e. rewrite -Hh in Ht |- *. destruct (held_node _ _ _ _ Hw r e He) as (_ & En' & Ei').
    rewrite /infoof Hn in Ei'. split_and!; [done|congruence|congruence|done].
Qed.

Lemma does_lookup_maynull H p :
  query fam p -> room H ->
  does H (route_node_lookup_maynull stack rt p)
    (fun r H' => r = 0 /\ H' = H /\ ~ holder (fun e => e_net e = net p) H \/
       taken H r (net p) H' /\ forall x e, H !! x = Some e -> e_net e = net p -> x = r).
Proof.
  intros Hq Hr. iIntros "(%ns & %t & %Hv & H)". pose proof Hv as [Hw Hst Hh Hs].
  iApply (wp_route_node_lookup_maynull with "H"); [done|done|done|by apply room_lockable; rewrite Hh|done|].
  iIntros (r) "[[%Hno H]|[%Hyes H]]".
  - destruct Hno as [-> Hno]. iExists H. iSplit; [|iExists ns, t; by iSplit]. iPureIntro. left. split_and!; [done..|].
    intros (x & e & Hx & En). rewrite -Hh in Hx. destruct (held_node _ _ _ _ Hw x e Hx) as (Hin & En' & _).
    apply (Hno x Hin). congruence.
  - destruct Hyes as (Hin & En & Hw'). destruct (view_lock H ns t r Hv Hr Hin Hw') as [Hv' Ht]. rewrite En in Ht.
    iExists _. iSplit; [|iExists _, t; iSplit; [iPureIntro; exact Hv'|done]]. iPureIntro. right. split; [done|].
    intros x e Hx Ex. rewrite -Hh in Hx. destruct (held_node _ _ _ _ Hw x e Hx) as (Hin' & En' & _).
    apply (routed_inj _ _ _ _ (tw_routed _ _ _ _ Hw)); [done|done|congruence].
Qed.

Lemma does_match H p :
  prefix_wf p -> room H ->
  does H (route_node_match rt p)
    (fun r H' => r = 0 /\ H' = H /\ ~ holder (fun e => e_net e `prefix_of` net p /\ e_info e <> 0) H \/
       exists e, H !! r = Some e /\ e_net e `prefix_of` net p /\ e_info e <> 0 /\ taken H r (e_net e) H' /\
         forall x e', H !! x = Some e' -> e_net e' `prefix_of` net p -> e_info e' <> 0 -> e_net e' `prefix_of` e_net e).
Proof.
  intros Hq Hr. iIntros "(%ns & %t & %Hv & H)". pose proof Hv as [Hw Hst Hh Hs].
  assert (Hm : forall x e, H !! x = Some e -> e_net e `prefix_of` net p -> e_info e <> 0 -> matches ns t (net p) x /\ netof ns x = e_net e).
  { intros x e Hx Hp Hi. rewrite -Hh in Hx. destruct (held_node _ _ _ _ Hw x e Hx) as (Hin & En & Ei).
    split; [|done]. split_and!; [done|congruence|by rewrite En]. }
  iApply (wp_route_node_match with "H"); [done|by apply room_lockable; rewrite Hh|done|].
  iIntros (r) "[[%Hno H]|[%Hyes H]]".
  - destruct Hno as [-> Hno]. iExists H. iSplit; [|iExists ns, t; by iSplit]. iPureIntro. left. split_and!; [done..|].
    intros (x & e & Hx & Hp & Hi). apply (Hno x). by apply (Hm x e).
  - destruct Hyes as ((Hin & Hi & Hp) & Hmax & Hw'). destruct (view_lock H ns t r Hv Hr Hin Hw') as [Hv' Ht].
    iExists _. iSplit; [|iExists _, t; iSplit; [iPureIntro; exact Hv'|done]]. iPureIntro. right.
    destruct (wf_lookup _ _ _ _ Hw r Hin) as (n & Hn & _). rewrite /infoof Hn in Hi.
    destruct (held ns !! r) as [e|] eqn:He; [|by destruct (held_stub _ _ _ Hst Hn He) as [_ ?]].
    exists e. destruct (held_node _ _ _ _ Hw r e He) as (_ & En' & Ei'). rewrite /infoof Hn in Ei'. rewrite Hh in He.
    rewrite En' in Ht, Hp. split_and!; [done|done|congruence|done|].
    intros x e' Hx Hp' Hi'. destruct (Hm x e' Hx Hp' Hi') as [Hmx <-]. rewrite -En'. by apply Hmax.
Qed.

Lemma does_lock H a :
  is_Some (H !! a) -> room H -> does H (route_lock_node a) (fun r H' => r = a /\ H' = hold H a []).
Proof.
  intros [e He] Hr. iIntros "(%ns & %t & %Hv & H)". pose proof Hv as [Hw Hst Hh Hs].
  assert (Hin : a ∈ nodes t) by (rewrite -Hh in He; by apply (held_node _ _ _ _ Hw a e)).
  iApply (wp_lock with "H"); [done|by apply room_lockable; rewrite Hh|done|]. iIntros (Hw') "H".
  destruct (view_lock H ns t a Hv Hr Hin Hw') as [Hv' (_ & _ & Ht)].
  iExists _. iSplit; [|iExists _, t; iSplit; [iPureIntro; exact Hv'|done]]. iPureIntro. split; [done|].
  rewrite Ht. unfold hold. by rewrite He.
Qed.

Lemma wp_view_unlock H a (Q : unit -> hP) :
  may_release H a -> table_view H -∗ (table_view (release H a) -∗ Q tt) -∗ wp (route_unlock_node place a) Q.
Proof.
  intros (e & He & Hi). iIntros "(%ns & %t & %Hv & H) HQ". pose proof (view_small _ _ _ Hv).
  destruct Hv as [Hw Hst <- Hs]. pose proof (release_size (held ns) a) as Hsz.
  apply held_some in He as (n & Hn & Hl & ->). pose proof (nw_lock _ _ _ _ (tw_nodes _ _ _ _ Hw a n Hn)).
  iApply (wp_route_unlock_node with "H"); [done|done|exact Hn|lia|done|lia|].
  iIntros (ns' t' (Hw' & Hst' & Hheld)) "H". rewrite (released_release _ _ _ Hn Hl) in Hheld.
  iApply "HQ". iApply (view_intro with "H"); [done|done|done|lia].
Qed.

Lemma wp_view_set_info H a i (Q : unit -> hP) :
  is_Some (H !! a) ->
  table_view H -∗ (table_view (alter (fun e => Entry (e_net e) (e_lock e) i) a H) -∗ Q tt) -∗
  wp (update_node a (set_info i)) Q.
Proof.
  intros [e He]. iIntros "(%ns & %t & %Hv & H) HQ". destruct Hv as [Hw Hst <- Hs].
  apply held_some in He as (n & Hn & Hl & ->). pose proof (nw_lock _ _ _ _ (tw_nodes _ _ _ _ Hw a n Hn)) as Hlock.
  assert (Hheld : held (<[a := set_info i n]> ns) = alter (fun e => Entry (e_net e) (e_lock e) i) a (held ns)).
  { apply map_eq. intros x. destruct (decide (x = a)) as [->|Hne].
    - rewrite lookup_alter_eq /held lookup_omap lookup_insert_eq lookup_omap Hn /=. by destruct (Z.eqb_spec (rn_lock n) 0).
    - rewrite lookup_alter_ne; [|congruence]. unfold held. rewrite !lookup_omap lookup_insert_ne; [done|congruence]. }
  iApply (wp_relabel with "H"); [exact Hn|done|]. iIntros "H". iApply "HQ".
  iApply (view_intro with "H"); [by apply (wf_relabel _ _ _ _ _ n)| |done|by rewrite -!size_dom dom_alter_L size_dom].
  intros y m Hm. apply lookup_insert_Some in Hm as [[<- <-]|[_ Hm]]; [by intros E|by apply (Hst y)].
Qed.

Lemma does_top H : room H -> does H (route_top rt) (next_held None H).
Proof.
  intros Hr. iIntros "(%ns & %t & %Hv & H)". pose proof Hv as [Hw Hst Hh Hs].
  pose proof (next_held_top fam rt ns t Hw Hst) as Hn. rewrite {1}Hh in Hn.
  iApply (wp_route_top with "H"); [done|by apply room_lockable; rewrite Hh|]. iIntros "H".
  iExists _. iSplit; [iPureIntro; exact Hn|]. iExists _, t. iSplit; [|done]. iPureIntro.
  eapply view_hold_next; [done|done|exact Hn|]. by apply hd_in_or.
Qed.

Lemma does_get_next H p :
  prefix_wf p -> prefixlen p <= 128 -> room H ->
  does H (route_table_get_next place stack rt p) (next_held (Some (net p)) H).
Proof.
  intros Hp H128 Hr. iIntros "(%ns & %t & %Hv & H)". pose proof Hv as [Hw Hst Hh Hs].
  pose proof (next_held_next fam rt ns t Hw Hst (net p)) as Hn. rewrite {1}Hh in Hn.
  iApply (wp_route_table_get_next with "H"); [done|done|done|done|by apply room_lockable; rewrite Hh|done|done|]. iIntros "H".
  iExists _. iSplit; [iPureIntro; exact Hn|]. iExists _, t. iSplit; [|done]. iPureIntro.
  eapply view_hold_next; [done|done|exact Hn|].
  destruct (next_of_spec (netof ns) t (net p) (tw_routed _ _ _ _ Hw)) as [[-> _]|(? & _)]; [by left|by right].
Qed.

Lemma does_next H a : may_release H a -> room H -> does H (route_next place a) (left_for (Some (net_at H a)) H a).
Proof.
  intros (e & He & Hi) Hr. iIntros "(%ns & %t & %Hv & H)". pose proof (view_small _ _ _ Hv). pose proof Hv as [Hw Hst Hh Hs].
  pose proof He as He'. rewrite -Hh in He'. destruct (held_node _ _ _ _ Hw a e He') as (Hin & En & _).
  apply held_some in He' as (n & Hn & Hl & Ee). pose proof (nw_lock _ _ _ _ (tw_nodes _ _ _ _ Hw a n Hn)).
  pose proof (next_held_next fam rt ns t Hw Hst (netof ns a)) as Hnext. rewrite {1}Hh in Hnext.
  assert (Eat : net_at H a = netof ns a) by by rewrite /net_at He.
  destruct (nodes_split a t Hin) as (c & l & r & Et). subst t.
  pose proof (next_of_node (netof ns) c l a r (tw_routed _ _ _ _ Hw)) as Enext. rewrite Enext in Hnext.
  destruct (next_node_facts fam rt ns c [] l a r Hw) as (Hy & Hxy & _).
  iApply (wp_route_next_until place fam rt ns c [] l a r n 0 with "H");
    [done|done|by apply room_lockable; rewrite Hh|done|lia|by subst e|by left|lia|].
  iIntros (ns' t' (Hw' & Hst' & Hheld)) "H". rewrite -Eat in Hnext. cbn [plug] in Hy.
  pose proof (view_hold_next H ns _ _ _ Hv Hr Hnext Hy) as [_ _ _ Hs'].
  rewrite released_release in Hheld; [|by rewrite hold_next_ne|done].
  pose proof (release_size (held (hold_next ns (hd 0 (nodes l ++ nodes r ++ post c)))) a).
  iExists _. iSplit; [iPureIntro; by exists (held (hold_next ns (hd 0 (nodes l ++ nodes r ++ post c))))|].
  iApply (view_intro with "H"); [done|done|done|rewrite Hheld; lia].
Qed.

Lemma does_count H :
  does H (route_table_count rt) (fun r H' => Z.of_nat (size H) <= r <= 2 * Z.of_nat (size H) /\ H' = H).
Proof.
  iIntros "(%ns & %t & %Hv & H)". pose proof Hv as [Hw Hst Hh Hs]. unfold route_table_count. iApply wp_bind.
  iApply (wp_table_top with "H"). iIntros (tbl [_ Ec]) "H". iApply wp_ret. iExists H.
  pose proof (nodes_bound _ _ _ _ Hw Hst) as Hb. rewrite Hh in Hb.
  iSplit; [iPureIntro; split; [lia|done]|iExists ns, t; by iSplit].
Qed.

(** *** Iterators *)
Definition iter_does H (pos : position) (m : M mem (Z * route_table_iter)) (op : route_op) : Prop :=
  table_view H ⊢ wp m (fun x => ∃ H' pos', ⌜route_spec H pos op x.1 H' pos' /\ iter_at pos' x.2⌝ ∧ table_view H').

Definition arrived (it : route_table_iter) (node : Z) : route_table_iter :=
  RouteTableIter (if negb (node =? 0) then RT_ITER_STATE_ITERATING else RT_ITER_STATE_DONE)
    (it_table it) node (pause_prefix it).

Lemma iter_arrived pos it r : iter_at pos it -> iter_at (moved_to r) (arrived it r).
Proof.
  intros [H1 H2 _]. split; [done|done|]. unfold moved_to, arrived. by destruct (Z.eqb_spec r 0) as [->|].
Qed.

Lemma iter_moves H pos it (m : M mem Z) (P : Z -> gmap Z entry -> Prop) :
  iter_at pos it -> does H m P ->
  table_view H ⊢ wp (node ← m; mret (node, arrived it node))
    (fun x => ∃ H' pos', ⌜(P x.1 H' /\ pos' = moved_to x.1) /\ iter_at pos' x.2⌝ ∧ table_view H').
Proof.
  intros Hit Hm. rewrite Hm. iIntros "H". iApply wp_bind. iApply (wp_wand with "[$H]"). iIntros (r) "(%H' & %HP & H)".
  iApply wp_ret. iExists H', (moved_to r). iSplit; [|done]. iPureIntro. split; [done|by eapply iter_arrived].
Qed.

Lemma does_iter_next H pos it :
  iter_at pos it -> iter_may_release H pos -> room H ->
  iter_does H pos (route_table_iter_next place stack it) RIterNext.
Proof.
  intros Hit Hrel Hr. pose proof Hit as [Et Hp Hs]. unfold iter_does, route_table_iter_next, route_spec.
  destruct pos as [|a|q|]; destruct Hs as [-> Hs].
  - rewrite Et. pose proof (iter_moves H PStart it _ _ Hit (does_top H Hr)) as Hm. unfold arrived in Hm. rewrite Et in Hm. exact Hm.
  - rewrite Hs. pose proof (iter_moves H (PAt a) it _ _ Hit (does_next H a (Hrel a eq_refl) Hr)) as Hm. exact Hm.
  - destruct Hs as (_ & Eq & H128). rewrite Et.
    pose proof (iter_moves H (PPaused q) it _ _ Hit (does_get_next H (pause_prefix it) Hp H128 Hr)) as Hm.
    unfold arrived in Hm. rewrite Et Eq in Hm. exact Hm.
  - iIntros "H". iApply wp_ret. iExists H, PDone. by iSplit.
Qed.

Lemma does_iter_pause H pos it :
  iter_at pos it -> iter_may_release H pos -> iter_does H pos (moves (route_table_iter_pause place it)) RIterPause.
Proof.
  intros Hit Hrel. pose proof Hit as [Et Hp Hs]. unfold iter_does, moves, route_table_iter_pause, route_spec.
  iIntros "H". iApply wp_bind. destruct pos as [|a|q|]; destruct Hs as [-> Hs].
  - iApply wp_ret. iApply wp_ret. iExists H, PStart. by iSplit.
  - rewrite Hs. pose proof (Hrel a eq_refl) as Ha. pose proof Ha as (e & He & _). iDestruct "H" as "(%ns & %t & %Hv & H)".
    pose proof Hv as [Hw Hst Hh Hsz]. rewrite -Hh in He. apply held_some in He as (n & Hn & Hl & Ee).
    pose proof (nw_good _ _ _ _ (tw_nodes _ _ _ _ Hw a n Hn)) as Hg. pose proof (good_len _ _ Hg).
    iApply wp_bind. iApply (wp_load_table_node with "H"); [exact Hn|]. iIntros "H".
    destruct (prefix_copy_net (pause_prefix it) (rn_p n)) as (q & Eq & Hq & Ef & El & En & _);
      [by apply Hp|apply Hg|by eapply good_fits|].
    iApply wp_bind. iApply wp_mlift; [exact Eq|]. iApply wp_bind.
    iApply (wp_view_unlock H a with "[H]"); [done|iExists ns, t; by iSplit|]. iIntros "H". iApply wp_ret. iApply wp_ret.
    iExists (release H a), (PPaused (net_at H a)). iSplit; [|done]. iPureIntro. split; [done|]. split; [done|done|].
    cbn. split_and!; [done|done| |by rewrite El; lia]. rewrite /net_at -Hh.
    assert (He' : held ns !! a = Some e) by (apply held_lookup; by exists n). by rewrite He' Ee En.
  - iApply wp_ret. iApply wp_ret. iExists H, (PPaused q). by iSplit.
  - iApply wp_ret. iApply wp_ret. iExists H, PDone. by iSplit.
Qed.

Lemma does_iter_cleanup H pos it :
  iter_at pos it -> iter_may_release H pos -> iter_does H pos (moves (route_table_iter_cleanup place it)) RIterCleanup.
Proof.
  intros Hit Hrel. pose proof Hit as [Et Hp Hs]. unfold iter_does, moves, route_table_iter_cleanup, route_spec.
  iIntros "H". iApply wp_bind. destruct pos as [|a|q|]; destruct Hs as [-> Hs].
  2: { rewrite Hs. iApply wp_bind. iApply wp_bind. iApply (wp_view_unlock H a with "H"); [by apply Hrel|]. iIntros "H".
    iApply wp_ret. iApply wp_bind. iApply wp_massert; [done|]. iApply wp_ret. iApply wp_ret.
    iExists (release H a), PDone. iSplit; [|done]. iPureIntro. split; [done|]. by split. }
  all: assert (E0 : it_current it = 0) by (first [done|apply Hs]).
  all: iApply wp_bind; iApply wp_ret; iApply wp_bind; (iApply wp_massert; [by rewrite E0|]).
  all: iApply wp_ret; iApply wp_ret; iExists H, PDone; (iSplit; [|done]); iPureIntro; split; [done|]; by split.
Qed.

(** ** Every operation *)
Lemma plain_does H pos it (m : M mem Z) (P : Z -> gmap Z entry -> Prop) :
  iter_at pos it -> does H m P ->
  table_view H ⊢ wp (plain m it) (fun x => ∃ H' pos', ⌜(P x.1 H' /\ pos' = pos) /\ iter_at pos' x.2⌝ ∧ table_view H').
Proof.
  intros Hit Hm. rewrite Hm. iIntros "H". iApply wp_bind. iApply (wp_wand with "[$H]"). iIntros (r) "(%H' & %HP & H)".
  iApply wp_ret. iExists H', pos. by iSplit.
Qed.

Lemma weaken_step H (m : M mem (Z * route_table_iter)) (P Q : Z * route_table_iter -> gmap Z entry -> position -> Prop) :
  (forall x H' pos', P x H' pos' -> Q x H' pos') ->
  (table_view H ⊢ wp m (fun x => ∃ H' pos', ⌜P x H' pos'⌝ ∧ table_view H')) ->
  table_view H ⊢ wp m (fun x => ∃ H' pos', ⌜Q x H' pos'⌝ ∧ table_view H').
Proof.
  intros HPQ ->. iIntros "H". iApply (wp_wand with "[$H]"). iIntros (x) "(%H' & %pos' & %HP & H)".
  iExists H', pos'. iSplit; [iPureIntro; by apply HPQ|done].
Qed.

Lemma does_op H pos it op : iter_at pos it -> route_pre fam H pos op -> iter_does H pos (route_exec place stack rt it op) op.
Proof.
  intros Hit. unfold iter_does. destruct op as [p|p|p|p|a|a|a i| |a|p| | | |]; cbn [route_exec route_pre].
  - intros [Hq Hr]. eapply weaken_step; [|exact (plain_does _ pos it _ _ Hit (does_get H p Hq Hr))].
    cbv beta. cbn [route_spec]. tauto.
  - intros [Hq Hr]. exact (plain_does _ pos it _ _ Hit (does_lookup H p Hq Hr)).
  - intros [Hq Hr]. exact (plain_does _ pos it _ _ Hit (does_lookup_maynull H p Hq Hr)).
  - intros [Hq Hr]. exact (plain_does _ pos it _ _ Hit (does_match H p Hq Hr)).
  - intros [Ha Hr]. eapply weaken_step; [|exact (plain_does _ pos it _ _ Hit (does_lock H a Ha Hr))].
    cbv beta. cbn [route_spec]. tauto.
  - intros [Ha _]. iIntros "H". iApply wp_bind. iApply (wp_view_unlock with "H"); [done|]. iIntros "H". iApply wp_ret.
    iExists _, pos. iSplit; [|done]. iPureIntro. by split.
  - intros Ha. iIntros "H". iApply wp_bind. iApply (wp_view_set_info with "H"); [done|]. iIntros "H". iApply wp_ret.
    iExists _, pos. iSplit; [|done]. iPureIntro. by split.
  - intros Hr. exact (plain_does _ pos it _ _ Hit (does_top H Hr)).
  - intros (Ha & _ & Hr). exact (plain_does _ pos it _ _ Hit (does_next H a Ha Hr)).
  - intros (Hp & H128 & Hr). exact (plain_does _ pos it _ _ Hit (does_get_next H p Hp H128 Hr)).
  - intros _. eapply weaken_step; [|exact (plain_does _ pos it _ _ Hit (does_count H))].
    cbv beta. cbn [route_spec]. tauto.
  - intros [Hrel Hr]. by apply does_iter_next.
  - intros Hrel. by apply does_iter_pause.
  - intros Hrel. by apply does_iter_cleanup.
Qed.
End steps.
