(* ===== verification/RouteCorrect.v ===== *)
(** * Route tables: histories

    A client is a function from the results so far to the next operation.
    What it does to a table, in a history of any length; what an iteration
    gives that runs through such a history; and what is left in memory at the
    end. *)

From stdpp Require Import sorting.
From iris.proofmode Require Import proofmode.
From S2P Require Import Prelude SepLogic Heap ThashSize Thash ThashResize ThashSet ThashIter FrrPrefix FrrPrefixBits RouteTable RouteTree RouteKey RouteHeap RouteSearch RouteInsert RouteGet RouteDelete RouteIter RouteSteps.

#[local] Open Scope Z_scope.

Implicit Types H : gmap Z entry.

(** ** Histories *)
Definition client : Type := list Z -> route_op.

(** What happened: the operation, its result, and the state after it *)
Record event := Event { ev_op : route_op; ev_result : Z; ev_held : gmap Z entry; ev_pos : position }.

Section histories.
Context (place : gmap Z (hcell rcell) -> Z -> Z) (stack : list Z) (fam : family) (next : client).
Abbreviation mem := (gmap Z (hcell rcell)).

Fixpoint route_run (rt : Z) (n : nat) (past : list Z) (it : route_table_iter) : M mem (list Z * route_table_iter) :=
  match n with
  | O => mret (past, it)
  | S n => '(r, it) ← route_exec place stack rt it (next past); route_run rt n (past ++ [r]) it
  end.

(** A history on a new table, with a new iterator *)
Definition route_history (n : nat) : M mem (Z * (list Z * route_table_iter)) :=
  rt ← route_table_init place; x ← route_run rt n [] (route_table_iter_init rt); mret (rt, x).

(** The client follows the rules for [n] operations, whatever the results. *)
Fixpoint legal (n : nat) (past : list Z) H (pos : position) : Prop :=
  match n with
  | O => True
  | S n => route_pre fam H pos (next past) /\
      forall r H' pos', route_spec H pos (next past) r H' pos' -> legal n (past ++ [r]) H' pos'
  end.

Inductive runs : list Z -> gmap Z entry -> position -> list event -> gmap Z entry -> position -> Prop :=
  | runs_nil past H pos : runs past H pos [] H pos
  | runs_cons past H pos r H1 pos1 tr H2 pos2 :
      route_pre fam H pos (next past) -> route_spec H pos (next past) r H1 pos1 ->
      runs (past ++ [r]) H1 pos1 tr H2 pos2 -> runs past H pos (Event (next past) r H1 pos1 :: tr) H2 pos2.
End histories.

Definition is_next (op : route_op) : bool := match op with RIterNext => true | _ => false end.
Definition is_cleanup (op : route_op) : bool := match op with RIterCleanup => true | _ => false end.

(** ** Networks in the clients' view *)
Definition net_of H (x : Z) : option (list bool) := e_net <$> H !! x.

Lemma net_at_eq H x q : net_of H x = Some q -> net_at H x = q.
Proof. unfold net_of, net_at. destruct (H !! x); simpl; congruence. Qed.

Lemma net_of_hold H r q x : net_of (hold H r q) x = if decide (x = r) then Some (default q (net_of H r)) else net_of H x.
Proof.
  unfold net_of, hold. destruct (decide (x = r)) as [->|Hne]; [|by rewrite lookup_insert_ne].
  rewrite lookup_insert_eq. by destruct (H !! r).
Qed.

Lemma net_of_release H a x q : net_of (release H a) x = Some q -> net_of H x = Some q.
Proof.
  unfold net_of, release. destruct (H !! a) as [e|] eqn:He; [|done]. destruct (e_lock e =? 1).
  - destruct (decide (x = a)) as [->|Hne]; [by rewrite lookup_delete_eq|by rewrite lookup_delete_ne].
  - destruct (decide (x = a)) as [->|Hne]; [by rewrite lookup_insert_eq He|by rewrite lookup_insert_ne].
Qed.

Lemma net_of_release_keep H a x q :
  net_of H x = Some q -> (x = a -> forall e, H !! a = Some e -> e_lock e <> 1) -> net_of (release H a) x = Some q.
Proof.
  unfold net_of, release. intros Hx Hl. destruct (H !! a) as [e|] eqn:He; [|done].
  destruct (decide (x = a)) as [->|Hne].
  - specialize (Hl eq_refl e eq_refl). destruct (Z.eqb_spec (e_lock e) 1); [done|]. rewrite lookup_insert_eq. by rewrite He in Hx.
  - destruct (e_lock e =? 1); [by rewrite lookup_delete_ne|by rewrite lookup_insert_ne].
Qed.

Lemma net_of_taken H r q H' x p : taken H r q H' -> net_of H x = Some p -> net_of H' x = Some p.
Proof.
  intros (_ & _ & ->) Hx. rewrite net_of_hold. destruct (decide (x = r)) as [->|]; [by rewrite Hx|done].
Qed.

Lemma taken_net H r q H' : taken H r q H' -> net_of H' r = Some q.
Proof.
  intros (_ & Hq & ->). rewrite net_of_hold decide_True //. unfold net_of. destruct (H !! r) as [e|] eqn:He; [|done].
  simpl. by rewrite (Hq e eq_refl).
Qed.

Lemma taken_old H r q H' x p : taken H r q H' -> net_of H' x = Some p -> x = r \/ net_of H x = Some p.
Proof.
  intros (_ & _ & ->). rewrite net_of_hold. destruct (decide (x = r)); [by left|by right].
Qed.

Lemma net_of_next_held o H r H' x p : next_held o H r H' -> net_of H x = Some p -> net_of H' x = Some p.
Proof. intros [(_ & -> & _)|(q & _ & Ht & _)] Hx; [done|by eapply net_of_taken]. Qed.

(** Going on from a node does not change what is held there before it is
    left. *)
Lemma next_held_other H a r H1 p :
  net_of H a = Some p -> next_held (Some p) H r H1 -> (r <> 0 -> r <> a) /\ H1 !! a = H !! a.
Proof.
  intros Ha [(-> & -> & _)|(q & Hq & (_ & Hr & ->) & _)]; [done|]. cbn [after] in Hq.
  assert (Hne : r <> a).
  { intros ->. unfold net_of in Ha. destruct (H !! a) as [e|] eqn:He; [|done]. injection Ha as Ha.
    specialize (Hr e eq_refl). rewrite -Hr Ha visit_cmp_refl in Hq. done. }
  split; [done|]. unfold hold. by rewrite lookup_insert_ne.
Qed.

Lemma net_of_left_for H a r H' x p q :
  net_of H a = Some p -> left_for (Some p) H a r H' -> net_of H x = Some q ->
  (x = a -> forall e, H !! a = Some e -> e_lock e <> 1) -> net_of H' x = Some q.
Proof.
  intros Ha (H1 & Hn & ->) Hx Hl. destruct (next_held_other _ _ _ _ _ Ha Hn) as [_ E].
  apply net_of_release_keep; [by eapply net_of_next_held|]. by rewrite E.
Qed.

Lemma may_release_net H a : may_release H a -> net_of H a = Some (net_at H a).
Proof. intros (e & He & _). unfold net_of, net_at. by rewrite He. Qed.

(** The node an iterator is at stays held, whatever else is done. *)
Lemma iterators_node_stays fam H op r H' pos' a q :
  route_pre fam H (PAt a) op -> route_spec H (PAt a) op r H' pos' -> net_of H a = Some q -> pos' = PAt a ->
  is_next op = false -> net_of H' a = Some q.
Proof.
  intros Hpre Hs Ha Epos Hno. destruct op as [p|p|p|p|b|b|b i| |b|p| | | |]; cbn [is_next route_pre route_spec] in *; try done.
  - destruct Hs as (Ht & _). by eapply net_of_taken.
  - destruct Hs as ([(_ & -> & _)|(e & _ & _ & _ & Ht)] & _); [done|by eapply net_of_taken].
  - destruct Hs as ([(_ & -> & _)|(Ht & _)] & _); [done|by eapply net_of_taken].
  - destruct Hs as ([(_ & -> & _)|(e & _ & _ & _ & Ht & _)] & _); [done|by eapply net_of_taken].
  - destruct Hs as (_ & -> & _). rewrite net_of_hold. case_decide as E; [|done]. by rewrite -E Ha.
  - destruct Hs as (_ & -> & _), Hpre as [_ Hit]. apply net_of_release_keep; [done|]. intros <-. by apply Hit.
  - destruct Hs as (_ & -> & _). unfold net_of in *. destruct (decide (a = b)) as [->|Hne].
    + rewrite lookup_alter_eq. by destruct (H !! b).
    + by rewrite lookup_alter_ne.
  - destruct Hs as (Hn & _). by eapply net_of_next_held.
  - destruct Hs as (Hn & _), Hpre as (Hrel & Hit & _). eapply net_of_left_for; [by apply may_release_net|done|done|].
    intros <-. by apply Hit.
  - destruct Hs as (Hn & _). by eapply net_of_next_held.
  - by destruct Hs as (_ & -> & _).
  - destruct Hs as (_ & -> & Ep). rewrite Ep in Epos. done.
  - destruct Hs as (_ & Ep & _). rewrite Ep in Epos. done.
Qed.

(** ** Iterations *)

(** The network an iteration has come to *)
Definition at_net H (pos : position) : option (option (list bool)) :=
  match pos with
  | PStart => Some None
  | PAt a => Some (net_of H a)
  | PPaused q => Some (Some q)
  | PDone => None
  end.

(** The nodes that [route_table_iter_next] gives, with their networks *)
Fixpoint visits (tr : list event) : list (Z * list bool) :=
  match tr with
  | [] => []
  | ev :: tr =>
      (if is_next (ev_op ev) && negb (ev_result ev =? 0) then [(ev_result ev, net_at (ev_held ev) (ev_result ev))] else [])
        ++ visits tr
  end.

(** The node [x], for the network [q], is held from the first step of the
    iteration on. *)
Definition stays (tr : list event) (x : Z) (q : list bool) : Prop :=
  Forall (fun ev => ev_pos ev <> PStart -> net_of (ev_held ev) x = Some q) tr.

(** [q] comes after the place of the iteration. *)
Definition ahead H (pos : position) (q : list bool) : Prop :=
  match at_net H pos with Some o => after o q | None => False end.

Definition sound H (pos : position) : Prop := forall a, pos = PAt a -> is_Some (net_of H a).

(** One step forward *)
Lemma next_step H pos r H' pos' :
  iter_may_release H pos -> route_spec H pos RIterNext r H' pos' -> pos <> PDone ->
  r = 0 /\ pos' = PDone /\ (forall x q, net_of H' x = Some q -> net_of H x = Some q /\ ~ ahead H pos q) \/
  r <> 0 /\ pos' = PAt r /\ exists q', net_of H' r = Some q' /\ ahead H pos q' /\
    forall x q, net_of H' x = Some q -> x = r \/ (net_of H x = Some q /\ (ahead H pos q -> visit_lt q' q)).
Proof.
  intros Hrel Hs Hpos.
  assert (Hcore : exists o H1, at_net H pos = Some o /\ next_held o H r H1 /\
    (H' = H1 \/ exists a, pos = PAt a /\ H' = release H1 a) /\ pos' = moved_to r).
  { destruct pos as [|a|q|]; cbn [route_spec at_net] in *; [..|done].
    - destruct Hs as [Hs ->]. exists None, H'. auto.
    - destruct Hs as ((H1 & Hs & ->) & ->). pose proof (may_release_net _ _ (Hrel a eq_refl)) as Ha. rewrite Ha.
      exists (Some (net_at H a)), H1. split_and!; [done|done|right; by exists a|done].
    - destruct Hs as [Hs ->]. exists (Some q), H'. auto. }
  destruct Hcore as (o & H1 & Eo & Hn & HH & ->). unfold ahead. rewrite Eo. unfold moved_to.
  assert (Hback : forall x q, net_of H' x = Some q -> net_of H1 x = Some q).
  { intros x q Hx. destruct HH as [->|(a & _ & ->)]; [done|by eapply net_of_release]. }
  pose proof Hn as Hn'. destruct Hn as [(-> & -> & Hno)|(q' & Hq' & Ht & Hmin)].
  - left. split_and!; [done|done|]. intros x q Hx%Hback. split; [done|].
    unfold net_of in Hx. destruct (H !! x) as [e|] eqn:He; [|done]. injection Hx as <-. by eapply Hno.
  - right. pose proof Ht as (Hr0 & _ & _). destruct (Z.eqb_spec r 0) as [|_]; [done|]. split_and!; [done|done|].
    exists q'. split_and!; [|done|].
    + destruct HH as [->|(a & -> & ->)]; [by eapply taken_net|]. apply net_of_release_keep; [by eapply taken_net|].
      intros ->. cbn [at_net] in Eo. injection Eo as <-. pose proof (may_release_net _ _ (Hrel a eq_refl)) as Ha.
      rewrite Ha in Hn'. destruct (next_held_other _ _ _ _ _ Ha Hn') as [Hne _]. by destruct (Hne Hr0).
    + intros x q Hx%Hback. destruct (decide (x = r)) as [->|Hxr]; [by left|right].
      destruct (taken_old _ _ _ _ _ _ Ht Hx) as [|Hx']; [done|]. split; [done|].
      unfold net_of in Hx'. destruct (H !! x) as [e|] eqn:He; [|done]. injection Hx' as <-. intros Ha.
      by destruct (Hmin x e He Ha) as [->|Hlt].
Qed.

Lemma pos_other fam H pos op r H' pos' :
  route_pre fam H pos op -> route_spec H pos op r H' pos' -> is_next op = false -> is_cleanup op = false ->
  pos' = pos \/ exists a, pos = PAt a /\ pos' = PPaused (net_at H a) /\ net_of H a = Some (net_at H a).
Proof.
  intros Hpre Hs H1 H2. destruct op; cbn [is_next is_cleanup route_spec route_pre] in *; try done; try (left; tauto).
  destruct Hs as (_ & Hs). destruct pos as [|a|q|]; destruct Hs as [_ ->]; [by left| |by left|by left].
  right. exists a. split_and!; [done|done|]. by apply may_release_net, Hpre.
Qed.

(** Operations other than steps of the iteration do not move it. *)
Lemma at_net_other fam H pos op r H' pos' :
  route_pre fam H pos op -> route_spec H pos op r H' pos' -> is_next op = false -> is_cleanup op = false ->
  sound H pos -> sound H' pos' /\ at_net H' pos' = at_net H pos.
Proof.
  intros Hpre Hs H1 H2 Hsound. destruct (pos_other _ _ _ _ _ _ _ Hpre Hs H1 H2) as [->|(a & -> & -> & Ha)].
  - destruct pos as [|a|q|]; [by split| |by split|by split]. destruct (Hsound a eq_refl) as [q Hq].
    pose proof (iterators_node_stays _ _ _ _ _ _ _ _ Hpre Hs Hq eq_refl H1) as Hq'. split.
    + intros b [= <-]. by exists q.
    + cbn [at_net]. by rewrite Hq Hq'.
  - split; [by intros b|]. cbn [at_net]. by rewrite Ha.
Qed.

Lemma after_trans o q q' : after o q -> visit_lt q q' -> after o q'.
Proof. destruct o as [p|]; [|done]. apply visit_lt_trans. Qed.

Lemma done_stays fam next past H pos tr H' pos' :
  runs fam next past H pos tr H' pos' -> pos = PDone -> Forall (fun ev => is_cleanup (ev_op ev) = false) tr ->
  visits tr = [] /\ pos' = PDone.
Proof.
  induction 1 as [|past H pos r H1 pos1 tr H2 pos2 Hpre Hs _ IH]; intros -> Hc; [done|].
  apply Forall_cons in Hc as [Hc1 Hc]. cbn [ev_op] in Hc1. cbn [visits ev_op ev_result].
  destruct (is_next (next past)) eqn:En.
  - destruct (next past); try done. cbn [route_spec] in Hs. destruct Hs as (-> & _ & ->). by apply IH.
  - destruct (pos_other _ _ _ _ _ _ _ Hpre Hs En Hc1) as [->|(a & ? & _)]; [|done]. by apply IH.
Qed.

(** *** The order of the visits *)
Lemma visits_sorted fam next past H pos tr H' pos' :
  runs fam next past H pos tr H' pos' -> sound H pos -> Forall (fun ev => is_cleanup (ev_op ev) = false) tr ->
  Forall (fun v => ahead H pos v.2) (visits tr) /\ StronglySorted (fun v w => visit_lt v.2 w.2) (visits tr).
Proof.
  induction 1 as [|past H pos r H1 pos1 tr H2 pos2 Hpre Hs Hrun IH]; intros Hsound Hc; [by split; constructor|].
  apply Forall_cons in Hc as [Hc1 Hc]. cbn [ev_op] in Hc1. cbn [visits ev_op ev_result ev_held].
  destruct (is_next (next past)) eqn:En; cbn [andb].
  - destruct (next past); try done. destruct Hpre as [Hrel _].
    destruct (decide (pos = PDone)) as [->|Hpos].
    { cbn [route_spec] in Hs. destruct Hs as (-> & -> & ->). by apply IH. }
    destruct (next_step _ _ _ _ _ Hrel Hs Hpos) as [(-> & -> & _)|(Hr & -> & q' & Hq' & Ha & _)].
    + cbn [Z.eqb negb app]. destruct (done_stays _ _ _ _ _ _ _ _ Hrun eq_refl Hc) as [-> _]. split; constructor.
    + apply Z.eqb_neq in Hr as ->. cbn [negb app]. rewrite (net_at_eq _ _ _ Hq').
      destruct IH as [IH1 IH2]; [intros b [= <-]; by exists q'|done|].
      assert (Hlt : forall v, v ∈ visits tr -> visit_lt q' v.2).
      { rewrite Forall_forall in IH1. intros v Hv. specialize (IH1 v Hv). unfold ahead in IH1. cbn [at_net] in IH1.
        by rewrite Hq' in IH1. }
      split; constructor; try done; apply Forall_forall; intros v Hv; [|by apply Hlt].
      unfold ahead in *. destruct (at_net H pos); [|done]. by eapply after_trans, Hlt.
  - destruct (at_net_other _ _ _ _ _ _ _ Hpre Hs En Hc1 Hsound) as [Hsound' E].
    destruct (IH Hsound' Hc) as [IH1 IH2]. split; [|done]. unfold ahead in *. by rewrite E in IH1.
Qed.

(** *** Nothing is left out *)
Lemma visits_complete fam next past H pos tr H' pos' x q :
  runs fam next past H pos tr H' pos' -> sound H pos -> Forall (fun ev => is_cleanup (ev_op ev) = false) tr ->
  stays tr x q -> (pos <> PStart -> net_of H x = Some q /\ ahead H pos q) -> pos' = PDone -> (x, q) ∈ visits tr.
Proof.
  induction 1 as [past H pos|past H pos r H1 pos1 tr H2 pos2 Hpre Hs Hrun IH]; intros Hsound Hc Hst Hx Hpos'.
  { subst pos. by destruct Hx as [_ ?]. }
  apply Forall_cons in Hc as [Hc1 Hc], Hst as [Hst1 Hst]. cbn [ev_op ev_pos ev_held] in *.
  cbn [visits ev_op ev_result ev_held]. apply elem_of_app.
  destruct (is_next (next past)) eqn:En; cbn [andb].
  - destruct (next past); try done. destruct Hpre as [Hrel _].
    assert (Hpos : pos <> PDone) by (intros ->; by destruct Hx).
    assert (Ha : net_of H x = Some q -> ahead H pos q) by (intros E; destruct pos; [done|by apply Hx..]).
    destruct (next_step _ _ _ _ _ Hrel Hs Hpos) as [(-> & -> & Hno)|(Hr & -> & q' & Hq' & _ & Hmin)].
    + exfalso. destruct (Hno x q) as [E Hn]; [by apply Hst1|]. by apply Hn, Ha.
    + pose proof (Hst1 ltac:(done)) as Hxq. destruct (decide (x = r)) as [->|Hxr].
      * left. apply Z.eqb_neq in Hr as ->. rewrite (net_at_eq _ _ _ Hxq). by left.
      * right. apply IH; [intros b [= <-]; by exists q'|done|done| |done]. intros _. split; [done|].
        destruct (Hmin x q Hxq) as [|[E Hlt]]; [done|]. unfold ahead. cbn [at_net]. rewrite Hq'. by apply Hlt, Ha.
  - right. destruct (at_net_other _ _ _ _ _ _ _ Hpre Hs En Hc1 Hsound) as [Hsound' E].
    apply IH; [done|done|done| |done]. intros Hpos1. split; [by apply Hst1|].
    unfold ahead. rewrite E. apply Hx. intros ->. apply Hpos1.
    destruct (pos_other _ _ _ _ _ _ _ Hpre Hs En Hc1) as [->|(a & ? & _)]; done.
Qed.

(** ** Histories in memory *)
Lemma wp_from_nothing {V A} (m : M (gmap Z V) A) (Q : A -> hpropI V) (h : gmap Z V) :
  (emp ⊢ wp m Q) -> exists a h', m h = Ret (a, h' ∪ h) /\ h' ##ₘ h /\ Q a h'.
Proof.
  intros Hm. assert (H0 : (wp m Q : hpropI V) ∅) by (apply (hprop_entails_holds emp); [done|]; by split).
  destruct (H0 h) as (a & h' & E & Hd & HQ); [apply map_disjoint_empty_l|]. rewrite left_id_L in E. by exists a, h'.
Qed.

(** The hash table beside the tree is that of [Thash]. *)
#[export] Instance route_hash fam (place : gmap Z (hcell rcell) -> Z -> Z) `{!Placement place} :
  HashSpec rn_hash_node (good fam) same_net place := thash_spec rn_hash_node (good fam) place.

Section theorems.
Context (place : gmap Z (hcell rcell) -> Z -> Z) `{!Placement place} (fam : family).
Context (stack : list Z) (Hstack : Forall is_byte stack) (Hlen : length stack = 40%nat).
Abbreviation mem := (gmap Z (hcell rcell)).
Abbreviation hP := (hpropI (hcell rcell)).
Abbreviation inv := (route_inv place fam).

Lemma route_run_ok rt next n past H pos it :
  legal fam next n past H pos ->
  inv rt H pos it ⊢ wp (route_run place stack next rt n past it)
    (fun x => ∃ tr H' pos', ⌜runs fam next past H pos tr H' pos' /\ x.1 = past ++ (ev_result <$> tr) /\ length tr = n⌝ ∧
       inv rt H' pos' x.2).
Proof.
  revert past H pos it. induction n as [|n IH]; intros past H pos it; cbn [legal route_run].
  - intros _. iIntros "H". iApply wp_ret. iExists [], H, pos. iSplit; [|done]. iPureIntro.
    split_and!; [constructor|by rewrite app_nil_r|done].
  - intros [Hpre Hnext]. iIntros "[%Hit H]".
    iDestruct (does_op place fam rt stack Hstack Hlen H pos it (next past) Hit Hpre with "H") as "H".
    iApply wp_bind. iApply (wp_wand with "[$H]"). iIntros ([r it1]) "(%H1 & %pos1 & [%Hs %Hit1] & H)". cbn [fst snd] in *.
    iAssert (inv rt H1 pos1 it1) with "[H]" as "H"; [by iSplit|].
    rewrite (IH (past ++ [r]) H1 pos1 it1); [|by apply Hnext]. iApply (wp_wand with "[$H]").
    iIntros (x) "(%tr & %H2 & %pos2 & (%Hrun & %Ex & %El) & H)".
    iExists (Event (next past) r H1 pos1 :: tr), H2, pos2. iSplit; [|done]. iPureIntro. split_and!.
    + by econstructor.
    + rewrite Ex -app_assoc. done.
    + cbn [length]. by rewrite El.
Qed.

Lemma iter_init_at rt : iter_at rt PStart (route_table_iter_init rt).
Proof. split; [done|apply zero_prefix_wf|done]. Qed.

Lemma inv_empty rt : table_at place fam rt ∅ E ⊢ inv rt ∅ PStart (route_table_iter_init rt).
Proof.
  iIntros "H". iSplit; [iPureIntro; apply iter_init_at|]. iExists ∅, E. iSplit; [|done]. iPureIntro.
  split; [apply wf_empty|done|done|by rewrite map_size_empty].
Qed.

(** After a history *)
Lemma history_ok next n (k : Z * (list Z * route_table_iter) -> hP) :
  legal fam next n [] ∅ PStart ->
  (forall rt x tr H pos, runs fam next [] ∅ PStart tr H pos -> x.1 = ev_result <$> tr -> length tr = n ->
     inv rt H pos x.2 ⊢ k (rt, x)) ->
  emp ⊢ wp (route_history place stack next n) k.
Proof.
  intros Hl Hk. iIntros "_". unfold route_history. iApply wp_bind. iApply (wp_route_table_init place fam).
  iIntros (rt _) "H". rewrite inv_empty. rewrite (route_run_ok rt next n); [|done]. iApply wp_bind.
  iApply (wp_wand with "[$H]"). iIntros (x) "(%tr & %H & %pos & (%Hr & %Ex & %El) & H)". iApply wp_ret.
  by iApply (Hk rt x tr H pos Hr Ex El with "H").
Qed.

Lemma done_iff rt pos it : iter_at rt pos it -> route_table_iter_is_done it = true <-> pos = PDone.
Proof.
  intros [_ _ Hs]. unfold route_table_iter_is_done. destruct pos; destruct Hs as [-> _]; split; done.
Qed.

(** C2. A route table is a map from networks to reference counts and
    information, as far as its clients can tell: a client that follows the
    rules may get, look up, match, lock, unlock, fill in and iterate in any
    order, and every operation gives what the nodes that are held say, in any
    memory; the nodes that are there only because the tree branches, the
    rotation of links, the removal of nodes and the hash table beside the tree
    do not show. *)
Theorem route_table_refines_view next n (m : mem) :
  legal fam next n [] ∅ PStart ->
  exists rt rs it h tr H pos,
    route_history place stack next n m = Ret ((rt, (rs, it)), h ∪ m) /\ h ##ₘ m /\
    runs fam next [] ∅ PStart tr H pos /\ rs = ev_result <$> tr /\ length tr = n /\
    inv rt H pos it h /\ (route_table_iter_is_done it = true <-> pos = PDone).
Proof.
  intros Hl.
  destruct (wp_from_nothing (route_history place stack next n)
    (fun x => ∃ tr H pos, ⌜runs fam next [] ∅ PStart tr H pos /\ x.2.1 = ev_result <$> tr /\ length tr = n⌝ ∧
       inv x.1 H pos x.2.2)%I m) as ([rt [rs it]] & h & E & Hd & tr & H & pos & (Hr & Ex & El) & Hi).
  - apply history_ok; [done|]. intros rt x tr H pos Hr Ex El. iIntros "H". iExists tr, H, pos. by iSplit.
  - exists rt, rs, it, h, tr, H, pos. split_and!; try done. apply (done_iff rt). by destruct Hi.
Qed.

(** C10. An iteration through a history of other operations, paused or not: if
    it has come to its end, it has given every node that a client held for the
    same network from the first step of the iteration on, and it gives nodes
    in the order of their networks, none twice. *)
Theorem route_iteration_complete next n (m : mem) :
  legal fam next n [] ∅ PStart -> (forall rs, is_cleanup (next rs) = false) ->
  exists rt rs it h tr H pos,
    route_history place stack next n m = Ret ((rt, (rs, it)), h ∪ m) /\
    runs fam next [] ∅ PStart tr H pos /\ rs = ev_result <$> tr /\
    StronglySorted (fun v w => visit_lt v.2 w.2) (visits tr) /\
    (route_table_iter_is_done it = true -> forall x q, stays tr x q -> (x, q) ∈ visits tr).
Proof.
  intros Hl Hc.
  destruct (wp_from_nothing (route_history place stack next n)
    (fun x => ∃ tr H pos, ⌜runs fam next [] ∅ PStart tr H pos /\ x.2.1 = ev_result <$> tr /\ length tr = n⌝ ∧
       inv x.1 H pos x.2.2)%I m) as ([rt [rs it]] & h & E & _ & tr & H & pos & (Hr & Ex & _) & [Hi _]).
  { apply history_ok; [done|]. intros rt x tr H pos Hr Ex El. iIntros "H". iExists tr, H, pos. by iSplit. }
  assert (Hctr : Forall (fun ev => is_cleanup (ev_op ev) = false) tr).
  { clear -Hr Hc. induction Hr; constructor; [apply Hc|done]. }
  assert (Hsound : sound ∅ PStart) by done.
  exists rt, rs, it, h, tr, H, pos. split_and!; try done.
  - by destruct (visits_sorted _ _ _ _ _ _ _ _ Hr Hsound Hctr).
  - intros Hdone x q Hst. apply (visits_complete _ _ _ _ _ _ _ _ x q Hr Hsound Hctr Hst); [done|].
    by apply (done_iff rt pos it).
Qed.

(** The node at [a] in the memory [h], the nodes of the table [rt] being [N]: a
    masked prefix of the family of the table, the table, links to nodes or
    null, and children that point back and have longer networks with the bit
    of their side. *)
Definition node_typed (rt : Z) (h : mem) (N : gset Z) (a : Z) : Prop :=
  exists n, h !! a = Some (CUser (RNode n)) /\ good fam (rn_p n) /\ rn_table n = rt /\ 0 <= rn_lock n < 2 ^ 32 /\
    (rn_parent n = 0 \/ rn_parent n ∈ N) /\
    forall b, link b n = 0 \/ link b n ∈ N /\
      exists m, h !! link b n = Some (CUser (RNode m)) /\ rn_parent m = a /\ below (net (rn_p n)) b (net (rn_p m)).

Lemma nodes_at_lookup ns a n R h : ns !! a = Some n -> (nodes_at ns ∗ R : hP)%I h -> h !! a = Some (CUser (RNode n)).
Proof.
  intros Hn Hh. apply (hprop_entails_holds _ (a ↦ CUser (RNode n) ∗ (True : hP))%I) in Hh.
  - destruct Hh as (h1 & h2 & -> & Hd & [_ ->] & _). apply lookup_union_Some_l, lookup_singleton_eq.
  - unfold nodes_at. rewrite (big_sepM_delete _ _ _ _ Hn). iIntros "[[$ _] _]".
Qed.

Lemma nodes_typed rt ns t (h : mem) :
  table_wf fam rt ns t -> (forall a n, ns !! a = Some n -> h !! a = Some (CUser (RNode n))) ->
  forall a, a ∈ (dom ns : gset Z) -> node_typed rt h (dom ns) a.
Proof.
  intros Hw Hh a Ha. apply (tw_dom _ _ _ _ Hw) in Ha. destruct (nodes_split a t Ha) as (c & l & r & ->).
  destruct (wf_subtree _ _ _ _ Hw c l a r eq_refl) as (n & Hn & Hwn & Epar & El & Er).
  exists n. split_and!; [by apply Hh|apply (nw_good _ _ _ _ Hwn)|apply (nw_table _ _ _ _ Hwn)|apply (nw_lock _ _ _ _ Hwn)|apply (nw_lock _ _ _ _ Hwn)|..].
  - rewrite Epar. destruct c as [|[[b p] s] c]; [by left|right]. apply (tw_dom _ _ _ _ Hw). rewrite nodes_plug.
    apply elem_of_app. right. by left.
  - intros b. set (k := if b then r else l). set (s := if b then l else r).
    assert (Elink : link b n = root k) by (by destruct b). rewrite Elink.
    assert (Et : plug c (T l a r) = plug ((b, a, s) :: c) k) by by destruct b.
    destruct k as [|kl x kr] eqn:Ek; [by left|right]. rewrite Et in Hw.
    destruct (wf_subtree _ _ _ _ Hw _ kl x kr eq_refl) as (m & Hm & _ & Ep & _).
    split; [by apply elem_of_dom; exists m|]. exists m. split_and!; [by apply Hh|done|].
    pose proof (tw_routed _ _ _ _ Hw) as Hr. apply routed_plug in Hr as (_ & Hlead & _).
    apply Forall_cons in Hlead as [Hlead _]. cbn in Hlead. apply Forall_cons in Hlead as [Hb _]. cbn [fst snd] in Hb.
    by rewrite /netof (keyof_eq _ _ _ Hn) (keyof_eq _ _ _ Hm) in Hb.
Qed.

(** C20. After any history the memory of a table is typed: its top is null or a
    node, its count is the number of its nodes, and every node is a well
    formed node of this table: no dangling link, no stale parent pointer, no
    prefix of another family or with host bits. *)
Theorem route_memory_typed next n (m : mem) :
  legal fam next n [] ∅ PStart ->
  exists rt x h N tbl,
    route_history place stack next n m = Ret ((rt, x), h ∪ m) /\
    h !! rt = Some (CUser (RTable tbl)) /\ rt_count tbl = Z.of_nat (size N) /\ (rt_top tbl = 0 \/ rt_top tbl ∈ N) /\
    forall a, a ∈ N -> node_typed rt h N a.
Proof.
  intros Hl.
  destruct (wp_from_nothing (route_history place stack next n)
    (fun x => ∃ H pos, inv x.1 H pos x.2.2)%I m) as ([rt [rs it]] & h & E & _ & H & pos & [_ (ns & t & Hv & Hat)]).
  { apply history_ok; [done|]. intros rt x tr H pos _ _ _. iIntros "H". by iExists H, pos. }
  destruct Hv as [Hw _ _ _]. destruct Hat as (tbl & [Htop Hc] & Hat).
  exists rt, (rs, it), h, (dom ns), tbl. split_and!; [done| |by rewrite size_dom|..].
  - destruct Hat as (h1 & h2 & -> & Hd & [_ ->] & _). apply lookup_union_Some_l, lookup_singleton_eq.
  - rewrite Htop. destruct t as [|l a r]; [by left|right]. apply (tw_dom _ _ _ _ Hw). by left.
  - apply (nodes_typed rt ns t); [done|]. intros a k Hk.
    apply (nodes_at_lookup ns a k (rt ↦ CUser (RTable tbl) ∗ hs_rep (table_hash rt) (keyof ns) (dom ns))%I); [done|].
    eapply hprop_entails_holds; [|exact Hat]. iIntros "($ & $ & $)".
Qed.

(** C16. Nothing is lost: whatever a client has done, and whatever it still
    holds, [route_table_finish] passes its assertion and gives back all the
    memory of the table, its nodes and its hash table: the memory is as it was
    before [route_table_init]. *)
Theorem route_table_finish_frees_all next n (m : mem) :
  legal fam next n [] ∅ PStart ->
  (x ← route_history place stack next n; route_table_finish place x.1) m = Ret (tt, m).
Proof.
  intros Hl.
  destruct (wp_from_nothing (x ← route_history place stack next n; route_table_finish place x.1)
    (fun _ => emp)%I m) as ([] & h & E & _ & Hh).
  - rewrite -wp_bind. apply history_ok; [done|].
    intros rt x tr H pos _ _ _. iIntros "[_ (%ns & %t & %Hv & H)]". pose proof (view_small _ _ _ _ _ Hv).
    destruct Hv as [Hw _ _ _]. iApply (wp_route_table_free with "H"); [done|lia|]. done.
  - assert (h = ∅) as -> by by destruct Hh. by rewrite left_id_L in E.
Qed.

(** ** An iteration on its own *)

(** [for (node = next(it); node; node = next(it))]: the nodes *)
Fixpoint route_walk (fuel : nat) (it : route_table_iter) : M mem (list Z) :=
  match fuel with
  | O => mnofuel
  | S fuel =>
      '(node, it) ← route_table_iter_next place stack it;
      if node =? 0 then mret [] else l ← route_walk fuel it; mret (node :: l)
  end.

Lemma same_tail {A} (y : A) a1 a2 b1 b2 : NoDup (a1 ++ y :: b1) -> a1 ++ y :: b1 = a2 ++ y :: b2 -> b1 = b2.
Proof.
  revert a2. induction a1 as [|x a1 IH]; intros [|x' a2] Hnd E; simpl in *.
  - by injection E.
  - injection E as <- E. apply NoDup_cons in Hnd as [Hy _]. destruct Hy. rewrite E. apply elem_of_app. right. by left.
  - injection E as -> E. apply NoDup_cons in Hnd as [Hy _]. destruct Hy. apply elem_of_app. right. by left.
  - injection E as -> E. apply NoDup_cons in Hnd as [_ Hnd]. by eapply IH.
Qed.

Lemma wp_walk_from rt fuel ns c l (x : Z) r p (t := plug c (T l x r)) (Q : list Z -> hP) :
  table_wf fam rt ns t -> stubs_ok ns -> lockable ns -> (length (nodes l ++ nodes r ++ post c) < fuel)%nat ->
  table_at place fam rt (lock_node ns x) t -∗ (table_at place fam rt ns t -∗ Q (nodes l ++ nodes r ++ post c)) -∗
  wp (route_walk fuel (RouteTableIter RT_ITER_STATE_ITERATING rt x p)) Q.
Proof.
  intros Hw Hst Hl. unfold t in *. clear t. revert c l x r Q Hw. induction fuel as [|fuel IH]; intros c l x r Q Hw Hf; [lia|].
  iIntros "H HQ". cbn [route_walk route_table_iter_next it_state it_current it_table pause_prefix].
  iApply wp_bind. iApply wp_bind. iApply (wp_route_next_back place fam rt ns c l x r with "H"); [done..|]. iIntros "H".
  iApply wp_ret. unfold hold_next. destruct (nodes l ++ nodes r ++ post c) as [|y rest] eqn:Erest; cbn [hd].
  { cbn [Z.eqb negb]. iApply wp_ret. by iApply "HQ". }
  pose proof (tw_nodup _ _ _ _ Hw) as Hnd.
  assert (Et : nodes (plug c (T l x r)) = (pre c ++ [x]) ++ y :: rest).
  { rewrite nodes_order. cbn [nodes]. rewrite -!app_assoc /=. do 2 f_equal. by rewrite -app_assoc. }
  assert (Hy : y ∈ nodes (plug c (T l x r))) by (rewrite Et; apply elem_of_app; right; by left).
  pose proof (nodes_nonnull _ _ _ _ _ Hw Hy) as Hy0. destruct (Z.eqb_spec y 0) as [|_]; [done|]. cbn [negb].
  destruct (nodes_split _ _ Hy) as (c' & l' & r' & Et'). rewrite Et' in Hw, Hnd, Et |- *.
  assert (Hrest : nodes l' ++ nodes r' ++ post c' = rest).
  { rewrite nodes_order in Et, Hnd. cbn [nodes] in Et, Hnd. rewrite -app_comm_cons -app_assoc in Et, Hnd.
    exact (same_tail _ _ _ _ _ Hnd Et). }
  iApply wp_bind. iApply (IH c' l' y r' with "H"); [done|rewrite Hrest; simpl in Hf; lia|]. iIntros "H". rewrite Hrest.
  iApply wp_ret. by iApply "HQ".
Qed.

Lemma wp_walk rt fuel ns t (Q : list Z -> hP) :
  table_wf fam rt ns t -> stubs_ok ns -> lockable ns -> (length (nodes t) < fuel)%nat ->
  table_at place fam rt ns t -∗ (table_at place fam rt ns t -∗ Q (nodes t)) -∗
  wp (route_walk fuel (route_table_iter_init rt)) Q.
Proof.
  intros Hw Hst Hl Hf. destruct fuel as [|fuel]; [lia|]. iIntros "H HQ".
  cbn [route_walk route_table_iter_next route_table_iter_init it_state it_current it_table pause_prefix].
  iApply wp_bind. iApply wp_bind. iApply (wp_route_top place fam rt with "H"); [done..|]. iIntros "H". iApply wp_ret.
  unfold hold_next. destruct t as [|l a r]; cbn [nodes hd].
  { cbn [Z.eqb negb]. iApply wp_ret. by iApply "HQ". }
  assert (Ha : a ∈ nodes (T l a r)) by by left.
  pose proof (nodes_nonnull _ _ _ _ _ Hw Ha) as Ha0. destruct (Z.eqb_spec a 0) as [|_]; [done|]. cbn [negb].
  iApply wp_bind. iApply (wp_walk_from rt fuel ns [] l a r with "H"); [done..| |].
  - cbn [post]. rewrite app_nil_r. simpl in Hf. lia.
  - iIntros "H". iApply wp_ret. cbn [post]. rewrite app_nil_r. by iApply "HQ".
Qed.

(** The nodes of a walk, for a client that holds [H] *)
Record walk_of H (l : list Z) : Prop := {
  wo_all : forall x, is_Some (H !! x) -> x ∈ l;
  wo_nodup : NoDup l;
  wo_length : (length l <= 2 * size H)%nat;
  wo_order : StronglySorted (fun x y => visit_lt (net_at H x) (net_at H y)) (filter (fun x => is_Some (H !! x)) l)
}.

Lemma sorted_filter {A} (R : A -> A -> Prop) (P : A -> Prop) `{!forall x, Decision (P x)} (l : list A) :
  StronglySorted R l -> StronglySorted R (filter P l).
Proof.
  induction 1 as [|x l Hs IH Hx]; [constructor|]. rewrite filter_cons. case_decide; [|done]. constructor; [done|].
  rewrite Forall_forall in Hx. apply Forall_forall. intros y [_ Hy]%list_elem_of_filter. by apply Hx.
Qed.

Lemma sorted_ext {A} (R R' : A -> A -> Prop) (l : list A) :
  (forall x y, x ∈ l -> y ∈ l -> R x y -> R' x y) -> StronglySorted R l -> StronglySorted R' l.
Proof.
  intros He. induction 1 as [|x l Hs IH Hx]; constructor.
  - apply IH. intros y z Hy Hz. apply He; by right.
  - rewrite Forall_forall in Hx. apply Forall_forall. intros y Hy. apply He; [by left|by right|by apply Hx].
Qed.

Lemma walk_of_nodes rt H ns t : view fam rt H ns t -> walk_of H (nodes t).
Proof.
  intros [Hw Hst Hh _]. pose proof (nodes_bound _ _ _ _ Hw Hst) as Hb.
  assert (Hin : forall x, is_Some (H !! x) -> x ∈ nodes t /\ netof ns x = net_at H x).
  { intros x [e He]. rewrite /net_at He. rewrite -Hh in He. by destruct (held_node _ _ _ _ Hw x e He) as (? & ? & _). }
  split.
  - intros x Hx. by apply Hin.
  - apply (tw_nodup _ _ _ _ Hw).
  - rewrite -(wf_size _ _ _ _ Hw). rewrite Hh in Hb. lia.
  - eapply sorted_ext; [|apply sorted_filter, (routed_sorted _ _ (tw_routed _ _ _ _ Hw))].
    intros x y [Hx _]%list_elem_of_filter [Hy _]%list_elem_of_filter. cbv beta.
    destruct (Hin x Hx) as [_ ->], (Hin y Hy) as [_ ->]. done.
Qed.

(** C37. An iteration with nothing between its steps ends: after any history, a
    walk over the table with a new iterator gives 0 after at most twice as
    many steps as there are nodes held, has given every node that is held, in
    the order of the networks and none twice, and leaves all reference counts
    as they were. *)
Theorem route_walk_complete next n (m : mem) :
  legal fam next n [] ∅ PStart ->
  (forall tr H pos, runs fam next [] ∅ PStart tr H pos -> length tr = n -> room H) ->
  exists rt x h tr H pos,
    route_history place stack next n m = Ret ((rt, x), h ∪ m) /\ runs fam next [] ∅ PStart tr H pos /\ length tr = n /\
    forall fuel, (2 * size H < fuel)%nat ->
      exists l h', route_walk fuel (route_table_iter_init rt) (h ∪ m) = Ret (l, h' ∪ m) /\
        walk_of H l /\ table_view place fam rt H h'.
Proof.
  intros Hl Hroom.
  destruct (wp_from_nothing (route_history place stack next n)
    (fun x => ∃ tr H pos, ⌜runs fam next [] ∅ PStart tr H pos /\ x.2.1 = ev_result <$> tr /\ length tr = n⌝ ∧
       inv x.1 H pos x.2.2)%I m) as ([rt x] & h & E & Hd & tr & H & pos & (Hr & _ & El) & [_ Hv]).
  { apply history_ok; [done|]. intros rt x tr H pos Hr Ex El. iIntros "H". iExists tr, H, pos. by iSplit. }
  exists rt, x, h, tr, H, pos. split_and!; [done|done|done|]. intros fuel Hf. pose proof (Hroom _ _ _ Hr El) as HR.
  assert (Hwp : table_view place fam rt H ⊢ wp (route_walk fuel (route_table_iter_init rt))
    (fun l => ⌜walk_of H l⌝ ∧ table_view place fam rt H)).
  { iIntros "(%ns & %t & %Hns & H)". pose proof Hns as [Hw Hst Hh Hs].
    pose proof (nodes_bound _ _ _ _ Hw Hst) as Hb. rewrite Hh in Hb.
    iApply (wp_walk rt fuel ns t with "H"); [done|done|apply room_lockable; by rewrite Hh|rewrite -(wf_size _ _ _ _ Hw); lia|].
    iIntros "H". iSplit; [iPureIntro; by eapply walk_of_nodes|]. iExists ns, t. by iSplit. }
  apply (hprop_entails_holds _ _ _ Hwp) in Hv. destruct (Hv m Hd) as (l & h' & Ew & _ & Hl' & Hv').
  by exists l, h'.
Qed.
End theorems.

(** ** A client *)
Definition ip4 (a b c d len : Z) : FrrPrefix.prefix := Prefix AF_INET len ([a; b; c; d] ++ replicate 36 0).
Definition no_stack : list Z := replicate 40 0.

(** It gets a node, puts something on it, and iterates with a pause. *)
Definition demo_client : client := fun past =>
  match past with
  | [] => RGet (ip4 10 0 0 1 8)
  | [a] => RSetInfo a 7
  | [_; _] => RIterNext
  | [_; _; _] => RIterPause
  | _ => RIterNext
  end.

Lemma ip4_query a b c d len : is_byte a -> is_byte b -> is_byte c -> is_byte d -> 0 <= len <= 32 -> query AF_INET (ip4 a b c d len).
Proof.
  intros Ha Hb Hc Hd Hl. split; [|done|by left; split; [|simpl; lia]]. split; [|done|simpl; lia].
  cbn [u ip4]. apply Forall_app. split; [rewrite !Forall_cons; split_and!; try done; by constructor|]. apply Forall_replicate. unfold is_byte. lia.
Qed.

Definition low (k : Z) H : Prop := map_Forall (fun _ e => 0 < e_lock e <= k) H /\ Z.of_nat (size H) <= k.

Lemma low_room k H : low k H -> k < 2 ^ 28 -> room H.
Proof. intros [Hl Hs] Hk. split; [|lia]. intros x e He. specialize (Hl x e He). simpl in *. lia. Qed.

Lemma low_taken k H r q H' : 0 <= k -> low k H -> taken H r q H' -> low (k + 1) H' /\ may_release H' r.
Proof.
  intros Hk [Hl Hs] Ht. pose proof (taken_size _ _ _ _ Ht). destruct Ht as (_ & _ & ->). split; [split; [|lia]|].
  - intros x e He. unfold hold in He. apply lookup_insert_Some in He as [[<- <-]|[_ He]].
    + destruct (H !! r) as [e|] eqn:Hr; [specialize (Hl r e Hr)|]; simpl in *; lia.
    + specialize (Hl x e He). simpl in *. lia.
  - unfold may_release, hold. rewrite lookup_insert_eq. eexists. split; [done|].
    destruct (H !! r) as [e|] eqn:Hr; [|done]. specialize (Hl r e Hr). simpl in *. lia.
Qed.

Lemma low_release k H a : low k H -> low k (release H a).
Proof.
  intros [Hl Hs]. pose proof (release_size H a). split; [|lia]. unfold release.
  destruct (H !! a) as [e|] eqn:Ha; [|done]. destruct (Z.eqb_spec (e_lock e) 1).
  - intros x e' [_ He]%lookup_delete_Some. by apply (Hl x).
  - intros x e' [[<- <-]|[_ He]]%lookup_insert_Some; [specialize (Hl a e Ha); simpl in *; lia|by apply (Hl x)].
Qed.

Lemma low_alter k H a i : low k H -> low k (alter (fun e => Entry (e_net e) (e_lock e) i) a H).
Proof.
  intros [Hl Hs]. split; [|by rewrite -size_dom dom_alter_L size_dom].
  intros x e [[_ (e' & He & ->)]|[_ He]]%lookup_alter_Some; by apply (Hl x) in He.
Qed.

Lemma low_empty : low 0 ∅.
Proof. split; [by intros x e ?%lookup_empty_Some|by rewrite map_size_empty]. Qed.

Lemma demo_client_legal : legal AF_INET demo_client 5 [] ∅ PStart.
Proof.
  split; [split; [apply ip4_query; unfold is_byte; lia|apply (low_room 0); [apply low_empty|lia]]|].
  intros r H1 pos1 (Ht1 & _ & ->). destruct (low_taken 0 _ _ _ _ ltac:(lia) low_empty Ht1) as [L1 M1].
  split; [destruct M1 as (e & He & _); by exists e|]. intros r2 H2 pos2 (_ & -> & ->). apply (low_alter _ _ r 7) in L1.
  split; [split; [by intros a|by apply (low_room _ _ L1); lia]|]. intros r3 H3 pos3 [Hn ->].
  assert (HL : low (0 + 1 + 1) H3 /\ iter_may_release H3 (moved_to r3)).
  { unfold moved_to. destruct Hn as [(-> & -> & _)|(q & _ & Ht3 & _)].
    - split; [|by intros a]. destruct L1 as [L1 S1]. split; [|lia]. intros x e He. specialize (L1 x e He). simpl in *. lia.
    - destruct (low_taken (0 + 1) _ _ _ _ ltac:(lia) L1 Ht3) as [L3 M3]. split; [done|].
      destruct (r3 =? 0); [by intros a|]. by intros a [= <-]. }
  destruct HL as [L3 M3]. split; [exact M3|]. intros r4 H4 pos4 [_ Hp].
  assert (HL4 : low 2 H4 /\ iter_may_release H4 pos4).
  { unfold moved_to in Hp. destruct (r3 =? 0); destruct Hp as [-> ->]; [by split|]. split; [by apply low_release|by intros a]. }
  destruct HL4 as [L4 M4]. split; [|by intros]. split; [exact M4|by apply (low_room _ _ L4); lia].
Qed.

Lemma no_stack_bytes : Forall is_byte no_stack.
Proof. apply Forall_replicate. unfold is_byte. lia. Qed.

Lemma route_table_refines_view_witness : exists rt rs it h tr H pos,
  route_history place_last no_stack demo_client 5 ∅ = Ret ((rt, (rs, it)), h ∪ ∅) /\ h ##ₘ ∅ /\
  runs AF_INET demo_client [] ∅ PStart tr H pos /\ rs = ev_result <$> tr /\ length tr = 5%nat /\
  route_inv place_last AF_INET rt H pos it h /\ (route_table_iter_is_done it = true <-> pos = PDone).
Proof.
  exact (route_table_refines_view place_last AF_INET no_stack no_stack_bytes eq_refl demo_client 5 ∅ demo_client_legal).
Defined.

Lemma route_iteration_complete_witness : exists rt rs it h tr H pos,
  route_history place_last no_stack demo_client 5 ∅ = Ret ((rt, (rs, it)), h ∪ ∅) /\
  runs AF_INET demo_client [] ∅ PStart tr H pos /\ rs = ev_result <$> tr /\
  StronglySorted (fun v w => visit_lt v.2 w.2) (visits tr) /\
  (route_table_iter_is_done it = true -> forall x q, stays tr x q -> (x, q) ∈ visits tr).
Proof.
  refine (route_iteration_complete place_last AF_INET no_stack no_stack_bytes eq_refl demo_client 5 ∅ demo_client_legal _).
  intros [|a [|b [|c [|d rs]]]]; reflexivity.
Defined.

Lemma route_memory_typed_witness : exists rt x h N tbl,
  route_history place_last no_stack demo_client 5 ∅ = Ret ((rt, x), h ∪ ∅) /\
  h !! rt = Some (CUser (RTable tbl)) /\ rt_count tbl = Z.of_nat (size N) /\ (rt_top tbl = 0 \/ rt_top tbl ∈ N) /\
  forall a, a ∈ N -> node_typed AF_INET rt h N a.
Proof.
  exact (route_memory_typed place_last AF_INET no_stack no_stack_bytes eq_refl demo_client 5 ∅ demo_client_legal).
Defined.

Lemma route_table_finish_frees_all_witness :
  (x ← route_history place_last no_stack demo_client 5; route_table_finish place_last x.1) ∅ = Ret (tt, ∅).
Proof.
  exact (route_table_finish_frees_all place_last AF_INET no_stack no_stack_bytes eq_refl demo_client 5 ∅ demo_client_legal).
Defined.

Lemma demo_client_legal_1 : legal AF_INET demo_client 1 [] ∅ PStart.
Proof.
  split; [split; [apply ip4_query; unfold is_byte; lia|apply (low_room 0); [apply low_empty|lia]]|]. by intros.
Qed.

Lemma demo_client_room tr H pos : runs AF_INET demo_client [] ∅ PStart tr H pos -> length tr = 1%nat -> room H.
Proof.
  intros Hr El. inversion Hr; subst; [done|].
  match goal with Hs : route_spec _ _ _ _ _ _, Hr : runs _ _ _ _ _ _ _ _ |- _ =>
    destruct Hs as (Ht & _ & _); inversion Hr; subst; [|done] end.
  destruct (low_taken 0 _ _ _ _ ltac:(lia) low_empty Ht) as [L _]. by apply (low_room _ _ L); lia.
Qed.

Lemma route_walk_complete_witness : exists rt x h tr H pos,
  route_history place_last no_stack demo_client 1 ∅ = Ret ((rt, x), h ∪ ∅) /\
  runs AF_INET demo_client [] ∅ PStart tr H pos /\ length tr = 1%nat /\
  forall fuel, (2 * size H < fuel)%nat ->
    exists l h', route_walk place_last no_stack fuel (route_table_iter_init rt) (h ∪ ∅) = Ret (l, h' ∪ ∅) /\
      walk_of H l /\ table_view place_last AF_INET rt H h'.
Proof.
  exact (route_walk_complete place_last AF_INET no_stack no_stack_bytes eq_refl demo_client 1 ∅ demo_client_legal_1 demo_client_room).
Defined.

(** What the operations give in a longer history: of 10/8, 10.1/16 and
    10.2/16, and the node 10.0/14 where the last two branch off, which goes
    away with 10.2/16 while the iteration is paused at it *)
Definition walk_client : client := fun past =>
  match length past with
  | 0%nat => RGet (ip4 10 0 0 0 8)
  | 1%nat => RSetInfo (nth 0 past 0) 1
  | 2%nat => RGet (ip4 10 1 0 0 16)
  | 3%nat => RSetInfo (nth 2 past 0) 2
  | 4%nat => RGet (ip4 10 2 0 0 16)
  | 5%nat => RCount
  | 6%nat => RMatch (ip4 10 1 2 3 32)
  | 7%nat => RMatch (ip4 10 2 2 3 32)
  | 8%nat => RLookup (ip4 10 2 0 0 16)
  | 9%nat => RLookupMaynull (ip4 10 2 0 0 16)
  | 10%nat | 11%nat => RIterNext
  | 12%nat => RIterPause
  | 13%nat | 14%nat => RUnlock (nth 4 past 0)
  | 15%nat => RCount
  | _ => RIterNext
  end.

Example walk_client_results :
  match route_history place_last no_stack walk_client 18 ∅ with
  | Ret ((_, (rs, it)), _) =>
      bool_decide (rs = [10; 0; 116; 0; 335; 4; 116; 10; 0; 335; 10; 238; 0; 0; 0; 2; 116; 0]) && route_table_iter_is_done it
  | _ => false
  end = true.
Proof. by vm_compute. Qed.
