(* ===== verification/Own.v ===== *)
(** * Computations on a part of memory, with plain propositions

    [own m h Q]: the computation [m] that owns the part [h] of memory ends
    normally, leaves the rest of memory as it was, and [Q] holds of its result
    and of what [h] has become.  It is the [wp] of [SepLogic] with
    propositions about the owned map for assertions; the structures that share
    links between many lists are easier to follow this way.  [faults m h]: the
    computation goes wrong instead. *)

From S2P Require Import Prelude SepLogic Heap.

#[local] Open Scope Z_scope.

Section own.
Context {V : Type}.
Abbreviation heap := (gmap Z V).
Implicit Types h : heap.

Definition own {A} (m : M heap A) h (Q : A -> heap -> Prop) : Prop :=
  forall hf, h ##ₘ hf -> exists a h', m (h ∪ hf) = Ret (a, h' ∪ hf) /\ h' ##ₘ hf /\ Q a h'.

Lemma own_wp {A} (m : M heap A) h (Q : A -> heap -> Prop) :
  own m h Q <-> wp m (fun a => {| hprop_holds h' := Q a h' |}) h.
Proof. done. Qed.

(** On the whole memory *)
Lemma own_run {A} (m : M heap A) h Q : own m h Q -> runs m h Q.
Proof.
  intros H. destruct (H ∅) as (a & h' & E & _ & HQ); [apply map_disjoint_empty_r|].
  rewrite !(right_id_L ∅ (∪)) in E. by exists a, h'.
Qed.

Lemma own_mono {A} (m : M heap A) h (P Q : A -> heap -> Prop) :
  own m h P -> (forall a h', P a h' -> Q a h') -> own m h Q.
Proof. intros H HPQ hf Hd. destruct (H hf Hd) as (a & h' & E & Hd' & HP). exists a, h'. auto. Qed.

Lemma own_ret {A} (a : A) h (Q : A -> heap -> Prop) : Q a h -> own (mret a) h Q.
Proof. intros HQ hf Hd. by exists a, h. Qed.

Lemma own_bind {A B} (m : M heap A) (k : A -> M heap B) h Q :
  own m h (fun a h' => own (k a) h' Q) -> own (m ≫= k) h Q.
Proof.
  intros H hf Hd. destruct (H hf Hd) as (a & h' & E & Hd' & H').
  destruct (H' hf Hd') as (b & h'' & E' & Hd'' & HQ). exists b, h''.
  split; [|done]. by rewrite (bind_ret_eq _ _ _ _ _ E).
Qed.

Lemma own_frame {A} (m : M heap A) h hr Q :
  own m h Q -> h ##ₘ hr ->
  own m (h ∪ hr) (fun a h' => exists h1, h' = h1 ∪ hr /\ h1 ##ₘ hr /\ Q a h1).
Proof.
  intros H Hr hf [Hd1 Hd2]%map_disjoint_union_l.
  destruct (H (hr ∪ hf)) as (a & h' & E & [Hd3 Hd4]%map_disjoint_union_r & HQ);
    [by apply map_disjoint_union_r_2|].
  exists a, (h' ∪ hr). rewrite <- !(assoc_L (∪)). split_and!; [done|by apply map_disjoint_union_l_2|eauto].
Qed.

Lemma own_load a v h (Q : V -> heap -> Prop) :
  h !! a = Some v -> a <> 0 -> Q v h -> own (mem_load a) h Q.
Proof.
  intros Ha Hn HQ hf Hd. exists v, h. split; [|done]. unfold mem_load.
  destruct (Z.eqb_spec a 0); [done|]. by rewrite (lookup_union_Some_l _ _ _ _ Ha).
Qed.

Lemma own_store a v w h (Q : unit -> heap -> Prop) :
  h !! a = Some v -> a <> 0 -> Q tt (<[a := w]> h) -> own (mem_store a w) h Q.
Proof.
  intros Ha Hn HQ hf Hd. exists tt, (<[a := w]> h). unfold mem_store.
  destruct (Z.eqb_spec a 0); [done|]. rewrite (lookup_union_Some_l _ _ _ _ Ha), insert_union_l.
  split_and!; [done| |done]. apply map_disjoint_insert_l_2; [|done].
  by eapply map_disjoint_Some_l.
Qed.

Lemma own_free a v h (Q : unit -> heap -> Prop) :
  h !! a = Some v -> a <> 0 -> Q tt (delete a h) -> own (mem_free a) h Q.
Proof.
  intros Ha Hn HQ hf Hd. exists tt, (delete a h). unfold mem_free.
  destruct (Z.eqb_spec a 0); [done|]. rewrite (lookup_union_Some_l _ _ _ _ Ha), delete_union.
  rewrite (delete_id hf) by by eapply map_disjoint_Some_l.
  split_and!; [done| |done]. by apply map_disjoint_delete_l.
Qed.

Lemma own_alloc (place : heap -> Z -> Z) `{!Placement place} n v h (Q : Z -> heap -> Prop) :
  0 < n -> (forall a, 0 < a -> h !! a = None -> Q a (<[a := v]> h)) ->
  own (mem_alloc place n [(0, v)]) h Q.
Proof.
  intros Hn HQ hf Hd. unfold mem_alloc. set (a := place (h ∪ hf) n).
  pose proof (place_pos (h ∪ hf) n) as Ha. fold a in Ha.
  pose proof (place_free (h ∪ hf) n 0 ltac:(lia)) as Hf. fold a in Hf. rewrite Z.add_0_r in Hf.
  apply lookup_union_None in Hf as [Hf1 Hf2]. exists a, (<[a := v]> h). simpl. rewrite Z.add_0_r.
  split_and!; [|by apply map_disjoint_insert_l_2|by apply HQ].
  by rewrite insert_empty, insert_union_singleton_l, (assoc_L (∪)).
Qed.

Lemma own_fuel h (Q : nat -> heap -> Prop) :
  (forall n, (size h <= n)%nat -> Q n h) -> own mem_fuel h Q.
Proof.
  intros HQ hf Hd. exists (size (h ∪ hf)), h. split_and!; [done..|]. apply HQ.
  rewrite map_size_disj_union by done. lia.
Qed.

Lemma own_massert (b : bool) h (Q : unit -> heap -> Prop) : b = true -> Q tt h -> own (massert b) h Q.
Proof. intros ->. apply own_ret. Qed.

Lemma own_mlift {A} (r : res A) a h (Q : A -> heap -> Prop) : r = Ret a -> Q a h -> own (mlift r) h Q.
Proof. intros ->. apply own_ret. Qed.

Lemma own_of_option {A} (o : option A) a h (Q : A -> heap -> Prop) :
  o = Some a -> Q a h -> own (of_option o) h Q.
Proof. intros ->. apply own_ret. Qed.

Lemma own_if {A} (b : bool) (m1 m2 : M heap A) h Q :
  (b = true -> own m1 h Q) -> (b = false -> own m2 h Q) -> own (if b then m1 else m2) h Q.
Proof. destruct b; auto. Qed.

(** A loop, with an invariant *)
Lemma own_mfor (I : Z -> heap -> Prop) (body : Z -> M heap unit) n from h (Q : unit -> heap -> Prop) :
  I from h ->
  (forall k h1, from <= k < from + Z.of_nat n -> I k h1 -> own (body k) h1 (fun _ => I (k + 1))) ->
  (forall h', I (from + Z.of_nat n) h' -> Q tt h') ->
  own (mfor n from body) h Q.
Proof.
  revert from h. induction n as [|n IH]; intros from h H0 Hstep HQ; cbn [mfor].
  - apply own_ret, HQ. by rewrite Z.add_0_r.
  - apply own_bind. eapply own_mono; [apply Hstep; [lia|done]|]. intros [] h1 H1.
    apply IH; [done|intros k h3 Hk; apply Hstep; lia|].
    intros h2 H2. apply HQ. by replace (from + Z.of_nat (S n)) with (from + 1 + Z.of_nat n) by lia.
Qed.

(** [faults m h]: the computation [m] that owns [h] goes wrong, whatever the
    rest of memory is. *)
Definition faults {A} (m : M heap A) h : Prop := forall hf, h ##ₘ hf -> m (h ∪ hf) = Fault.

Lemma faults_run {A} (m : M heap A) h : faults m h -> m h = Fault.
Proof. intros H. rewrite <- (right_id_L ∅ (∪) h). apply H, map_disjoint_empty_r. Qed.

Lemma faults_after {A B} (m : M heap A) (k : A -> M heap B) h :
  own m h (fun a => faults (k a)) -> faults (m ≫= k) h.
Proof. intros H hf Hd. destruct (H hf Hd) as (a & h' & E & Hd' & H'). rewrite (bind_ret_eq _ _ _ _ _ E). by apply H'. Qed.

Lemma faults_first {A B} (m : M heap A) (k : A -> M heap B) h : faults m h -> faults (m ≫= k) h.
Proof. intros H hf Hd. by apply bind_fault, H. Qed.

Lemma own_ext {A} (m1 m2 : M heap A) h (Q : A -> heap -> Prop) : (forall s, m1 s = m2 s) -> own m2 h Q -> own m1 h Q.
Proof. intros E H hf Hd. rewrite E. by apply H. Qed.

Lemma faults_ext {A} (m1 m2 : M heap A) h : (forall s, m1 s = m2 s) -> faults m2 h -> faults m1 h.
Proof. intros E H hf Hd. rewrite E. by apply H. Qed.

(** A loop that goes wrong after [n1] rounds *)
Lemma faults_mfor (I : Z -> heap -> Prop) (body : Z -> M heap unit) n1 n2 from h :
  I from h -> (0 < n2)%nat ->
  (forall k h1, from <= k < from + Z.of_nat n1 -> I k h1 -> own (body k) h1 (fun _ => I (k + 1))) ->
  (forall h', I (from + Z.of_nat n1) h' -> faults (body (from + Z.of_nat n1)) h') ->
  faults (mfor (n1 + n2) from body) h.
Proof.
  revert from h. induction n1 as [|n IH]; intros from h H0 Hn2 Hstep Hend; cbn [mfor Nat.add].
  - destruct n2 as [|n2]; [lia|]. cbn [mfor]. rewrite Z.add_0_r in Hend. by apply faults_first, Hend.
  - apply faults_after. eapply own_mono; [apply Hstep; [lia|done]|]. intros [] h1 H1.
    replace (from + Z.of_nat (S n)) with (from + 1 + Z.of_nat n) in Hend by lia.
    apply IH; [done|done|intros k h3 Hk; apply Hstep; lia|done].
Qed.
End own.

(** One structural step of an [own] goal *)
Ltac ostep :=
  lazymatch goal with
  | |- own (_ ≫= _) _ _ => apply own_bind
  | |- own (mret _) _ _ => apply own_ret
  | |- faults (_ ≫= _) _ => apply faults_after
  end.
Ltac osteps := repeat (cbv beta zeta; ostep).

(** ** Doubly linked lists

    [g a] gives the links (previous, next) of the node at [a].  [dseg g p l n]:
    the nodes [l] are linked in this order, between [p] and [n]. *)

Definition hd_or (n : Z) (l : list Z) : Z := match l with [] => n | a :: _ => a end.
Definition last_or (p : Z) (l : list Z) : Z := default p (last l).

Lemma last_or_cons p a l : last_or p (a :: l) = last_or a l.
Proof. unfold last_or. rewrite last_cons. by destruct (last l). Qed.
Lemma last_or_snoc p l a : last_or p (l ++ [a]) = a.
Proof. unfold last_or. by rewrite last_snoc. Qed.
Lemma hd_or_app n l1 l2 : hd_or n (l1 ++ l2) = hd_or (hd_or n l2) l1.
Proof. by destruct l1. Qed.
Lemma last_or_app p l1 l2 : last_or p (l1 ++ l2) = last_or (last_or p l1) l2.
Proof. revert p. induction l1 as [|a l1 IH]; intros p; [done|]. simpl. by rewrite !last_or_cons, IH. Qed.

Section dll.
Implicit Types (g : Z -> option (Z * Z)) (l : list Z).

Fixpoint dseg g (p : Z) l (n : Z) : Prop :=
  match l with
  | [] => True
  | a :: l => a <> 0 /\ g a = Some (p, hd_or n l) /\ dseg g a l n
  end.

Lemma dseg_app g p l1 l2 n : dseg g p (l1 ++ l2) n <-> dseg g p l1 (hd_or n l2) /\ dseg g (last_or p l1) l2 n.
Proof.
  revert p. induction l1 as [|a l1 IH]; intros p; simpl; [tauto|]. rewrite IH, last_or_cons, hd_or_app. tauto.
Qed.

Lemma dseg_ext g g' p l n : (forall a, a ∈ l -> g' a = g a) -> dseg g p l n -> dseg g' p l n.
Proof.
  revert p. induction l as [|a l IH]; intros p H; simpl; [done|]. intros (Ha & E & Hl). split_and!; [done| |].
  - rewrite H by left. done.
  - apply IH; [|done]. intros b Hb. apply H. by right.
Qed.

Lemma dseg_nonzero g p l n a : dseg g p l n -> a ∈ l -> a <> 0 /\ is_Some (g a).
Proof.
  revert p. induction l as [|b l IH]; intros p H Ha; [by apply not_elem_of_nil in Ha|].
  destruct H as (Hb & E & Hl). apply elem_of_cons in Ha as [->|Ha]; [by rewrite E|by eapply IH].
Qed.

Lemma hd_or_zero g p l : dseg g p l 0 -> hd_or 0 l = 0 <-> l = [].
Proof. destruct l; simpl; [done|]. intros (? & _). done. Qed.
Lemma last_or_zero g p l : dseg g p l 0 -> last_or 0 l = 0 <-> l = [].
Proof.
  intros H. destruct l as [|a l _] using rev_ind; [done|]. rewrite last_or_snoc.
  destruct (dseg_nonzero _ _ _ _ a H) as [? _]; [apply elem_of_app; right; by left|]. split; [done|]. intros E. by destruct l.
Qed.

(** The end of a segment is linked to another node. *)
Lemma dseg_end g g' p l n n' :
  NoDup l -> dseg g p l n ->
  (forall y, y ∈ l -> last l <> Some y -> g' y = g y) ->
  (forall y q, last l = Some y -> g y = Some (q, n) -> g' y = Some (q, n')) ->
  dseg g' p l n'.
Proof.
  revert p. induction l as [|a l IH]; intros p Hd; simpl; [done|]. apply NoDup_cons in Hd as [Ha Hd].
  intros (Ha0 & E & Hl) Hsame Hlast. destruct l as [|b l].
  - simpl in *. split_and!; [done| |done]. by apply Hlast.
  - split_and!; [done| |].
    + rewrite Hsame; [done|by left|]. rewrite last_cons_cons. intros E1. apply last_Some in E1 as (l' & E1).
      apply Ha. rewrite E1. apply elem_of_app. right. by left.
    + apply IH; [done|done| |].
      * intros y Hy Hne. apply Hsame; [by right|by rewrite last_cons_cons].
      * intros y q Hy. apply Hlast. by rewrite last_cons_cons.
Qed.

(** The front of a segment is linked to another node. *)
Lemma dseg_front g g' p p' l n :
  NoDup l -> dseg g p l n ->
  (forall y, y ∈ l -> head l <> Some y -> g' y = g y) ->
  (forall y m, head l = Some y -> g y = Some (p, m) -> g' y = Some (p', m)) ->
  dseg g' p' l n.
Proof.
  destruct l as [|a l]; simpl; [done|]. intros [Ha Hd]%NoDup_cons (Ha0 & E & Hl) Hsame Hhead.
  split_and!; [done|by apply Hhead|]. apply (dseg_ext g); [|done]. intros y Hy. apply Hsame; [by right|].
  by intros [= ->].
Qed.

(** A node enters between two segments. *)
Lemma dseg_insert g g' p n l1 a l2 :
  NoDup (l1 ++ l2) -> dseg g p (l1 ++ l2) n -> a <> 0 -> g' a = Some (last_or p l1, hd_or n l2) ->
  (forall y, y ∈ l1 ++ l2 -> last l1 <> Some y -> head l2 <> Some y -> g' y = g y) ->
  (forall y q m, last l1 = Some y -> g y = Some (q, m) -> g' y = Some (q, a)) ->
  (forall y q m, head l2 = Some y -> g y = Some (q, m) -> g' y = Some (a, m)) ->
  dseg g' p (l1 ++ a :: l2) n.
Proof.
  intros (Hd1 & Hd12 & Hd2)%NoDup_app (H1 & H2)%dseg_app Ha Ea Hsame Hlast Hhead.
  assert (Hh : forall y, y ∈ l1 -> head l2 <> Some y).
  { intros y Hy E. apply (Hd12 y Hy). destruct l2; [done|]. injection E as ->. by left. }
  assert (Hl : forall y, y ∈ l2 -> last l1 <> Some y).
  { intros y Hy E. apply last_Some in E as (l' & ->). apply (Hd12 y); [apply elem_of_app; right; by left|done]. }
  apply dseg_app. simpl. split_and!; [|done|done|].
  - eapply (dseg_end g); [done|exact H1| |].
    + intros y Hy Hne. apply Hsame; [apply elem_of_app; by left|done|by apply Hh].
    + intros y q Hy Ey. by eapply Hlast.
  - eapply (dseg_front g); [done|exact H2| |].
    + intros y Hy Hne. apply Hsame; [apply elem_of_app; by right|by apply Hl|done].
    + intros y q Hy Ey. by eapply Hhead.
Qed.

(** A node leaves. *)
Lemma dseg_remove g g' p n l1 a l2 :
  NoDup (l1 ++ a :: l2) -> dseg g p (l1 ++ a :: l2) n ->
  (forall y, y ∈ l1 ++ l2 -> last l1 <> Some y -> head l2 <> Some y -> g' y = g y) ->
  (forall y q m, last l1 = Some y -> g y = Some (q, m) -> g' y = Some (q, hd_or n l2)) ->
  (forall y q m, head l2 = Some y -> g y = Some (q, m) -> g' y = Some (last_or p l1, m)) ->
  dseg g' p (l1 ++ l2) n.
Proof.
  intros (Hd1 & Hd12 & Hd2)%NoDup_app (H1 & _ & _ & H2)%dseg_app Hsame Hlast Hhead.
  apply NoDup_cons in Hd2 as [_ Hd2].
  assert (Hh : forall y, y ∈ l1 -> head l2 <> Some y).
  { intros y Hy E. apply (Hd12 y Hy). destruct l2; [done|]. injection E as ->. right. by left. }
  assert (Hl : forall y, y ∈ l2 -> last l1 <> Some y).
  { intros y Hy E. apply last_Some in E as (l' & ->). apply (Hd12 y); [apply elem_of_app; right; by left|by right]. }
  apply dseg_app. split.
  - eapply (dseg_end g); [done|exact H1| |].
    + intros y Hy Hne. apply Hsame; [apply elem_of_app; by left|done|by apply Hh].
    + intros y q Hy Ey. by eapply Hlast.
  - eapply (dseg_front g); [done|exact H2| |].
    + intros y Hy Hne. apply Hsame; [apply elem_of_app; by right|by apply Hl|done].
    + intros y q Hy Ey. by eapply Hhead.
Qed.
End dll.
