(* ===== verification/Plist.v ===== *)
(** * Prefix lists (frr-frr-7.2/lib: plist.c, plist_int.h, plist.h)

    A prefix list is an ordered list of rules, each of which permits or denies
    the prefixes it matches; the rule with the smallest sequence number that
    matches decides.  The rules are kept in a doubly linked list in the order
    of their numbers and, for the decision, in a trie of tables with one slot
    per byte.  A slot has the chain of the rules that end in its byte
    ([up_chain]); the union beside it is the table of the next byte or, at the
    last level, the chain of the rules that are longer ([final_chain]).  A rule
    has one link for all the chains it is in ([next_best]).

    All objects are in one memory: rules, tables, lists and the four masters,
    which are static.  A pointer to a chain's link is a [link_to].  Calls of the
    hooks and of [route_map_notify_dependencies] are recorded in the log. *)

From S2P Require Import Prelude SepLogic Heap FrrPrefix.

#[local] Open Scope Z_scope.

Definition PLC_BITS : Z := 8.
Definition PLC_LEN : nat := 256.
Definition PLC_MAXLEVELV4 : nat := 2.
Definition PLC_MAXLEVELV6 : nat := 4.

(** ** Data *)
Inductive prefix_list_type := PREFIX_DENY | PREFIX_PERMIT.
#[export] Instance prefix_list_type_eq_dec : EqDecision prefix_list_type.
Proof. solve_decision. Defined.

Inductive prefix_name_type := PREFIX_TYPE_STRING | PREFIX_TYPE_NUMBER.

Record prefix_list_entry := Entry {
  e_seq : Z;
  e_le : Z;
  e_ge : Z;
  e_type : prefix_list_type;
  e_any : Z;
  e_prefix : prefix;
  e_refcnt : Z;
  e_hitcnt : Z;
  e_next : Z;
  e_prev : Z;
  e_next_best : Z
}.

(** The union of [next_table] and [final_chain], and [up_chain] *)
Record pltrie_entry := TrieSlot { next_table : Z; up_chain : Z }.

Record prefix_list := PrefixList {
  pl_name : list Z;
  pl_desc : option (list Z);
  pl_master : Z;
  pl_type : prefix_name_type;
  pl_count : Z;
  pl_rangecount : Z;
  pl_head : Z;
  pl_tail : Z;
  pl_trie : Z;
  pl_next : Z;
  pl_prev : Z
}.

Record prefix_master := Master {
  num_head : Z;
  num_tail : Z;
  str_head : Z;
  str_tail : Z;
  seqnum : bool;
  recent : Z;
  add_hook : Z;
  delete_hook : Z;
  trie_depth : nat
}.

Inductive pobj :=
  | OEntry (e : prefix_list_entry)
  | OTable (t : list pltrie_entry)
  | OList (l : prefix_list)
  | OMaster (m : prefix_master).

(** What the module tells the rest of the program *)
Inductive rmap_event := RMAP_EVENT_PLIST_ADDED | RMAP_EVENT_PLIST_DELETED.
Inductive event :=
  | EvHook (hook plist : Z)
  | EvNotify (name : list Z) (ev : rmap_event).

Record world := World { w_mem : gmap Z pobj; w_log : list event }.

(** *** Fields *)
Definition set_seq (v : Z) (e : prefix_list_entry) : prefix_list_entry :=
  Entry v (e_le e) (e_ge e) (e_type e) (e_any e) (e_prefix e) (e_refcnt e) (e_hitcnt e) (e_next e) (e_prev e) (e_next_best e).
Definition set_hitcnt (v : Z) (e : prefix_list_entry) : prefix_list_entry :=
  Entry (e_seq e) (e_le e) (e_ge e) (e_type e) (e_any e) (e_prefix e) (e_refcnt e) v (e_next e) (e_prev e) (e_next_best e).
Definition set_next (v : Z) (e : prefix_list_entry) : prefix_list_entry :=
  Entry (e_seq e) (e_le e) (e_ge e) (e_type e) (e_any e) (e_prefix e) (e_refcnt e) (e_hitcnt e) v (e_prev e) (e_next_best e).
Definition set_prev (v : Z) (e : prefix_list_entry) : prefix_list_entry :=
  Entry (e_seq e) (e_le e) (e_ge e) (e_type e) (e_any e) (e_prefix e) (e_refcnt e) (e_hitcnt e) (e_next e) v (e_next_best e).
Definition set_next_best (v : Z) (e : prefix_list_entry) : prefix_list_entry :=
  Entry (e_seq e) (e_le e) (e_ge e) (e_type e) (e_any e) (e_prefix e) (e_refcnt e) (e_hitcnt e) (e_next e) (e_prev e) v.

Definition set_next_table (v : Z) (s : pltrie_entry) : pltrie_entry := TrieSlot v (up_chain s).
Definition set_up_chain (v : Z) (s : pltrie_entry) : pltrie_entry := TrieSlot (next_table s) v.

Definition set_pl_count (v : Z) (l : prefix_list) : prefix_list :=
  PrefixList (pl_name l) (pl_desc l) (pl_master l) (pl_type l) v (pl_rangecount l) (pl_head l) (pl_tail l) (pl_trie l) (pl_next l) (pl_prev l).
Definition set_pl_head (v : Z) (l : prefix_list) : prefix_list :=
  PrefixList (pl_name l) (pl_desc l) (pl_master l) (pl_type l) (pl_count l) (pl_rangecount l) v (pl_tail l) (pl_trie l) (pl_next l) (pl_prev l).
Definition set_pl_tail (v : Z) (l : prefix_list) : prefix_list :=
  PrefixList (pl_name l) (pl_desc l) (pl_master l) (pl_type l) (pl_count l) (pl_rangecount l) (pl_head l) v (pl_trie l) (pl_next l) (pl_prev l).
Definition set_pl_type (v : prefix_name_type) (l : prefix_list) : prefix_list :=
  PrefixList (pl_name l) (pl_desc l) (pl_master l) v (pl_count l) (pl_rangecount l) (pl_head l) (pl_tail l) (pl_trie l) (pl_next l) (pl_prev l).
Definition set_pl_next (v : Z) (l : prefix_list) : prefix_list :=
  PrefixList (pl_name l) (pl_desc l) (pl_master l) (pl_type l) (pl_count l) (pl_rangecount l) (pl_head l) (pl_tail l) (pl_trie l) v (pl_prev l).
Definition set_pl_prev (v : Z) (l : prefix_list) : prefix_list :=
  PrefixList (pl_name l) (pl_desc l) (pl_master l) (pl_type l) (pl_count l) (pl_rangecount l) (pl_head l) (pl_tail l) (pl_trie l) (pl_next l) v.
Definition set_pl_desc (v : option (list Z)) (l : prefix_list) : prefix_list :=
  PrefixList (pl_name l) v (pl_master l) (pl_type l) (pl_count l) (pl_rangecount l) (pl_head l) (pl_tail l) (pl_trie l) (pl_next l) (pl_prev l).

Definition set_recent (v : Z) (m : prefix_master) : prefix_master :=
  Master (num_head m) (num_tail m) (str_head m) (str_tail m) (seqnum m) v (add_hook m) (delete_hook m) (trie_depth m).
Definition set_seqnum (v : bool) (m : prefix_master) : prefix_master :=
  Master (num_head m) (num_tail m) (str_head m) (str_tail m) v (recent m) (add_hook m) (delete_hook m) (trie_depth m).
Definition set_add_hook (v : Z) (m : prefix_master) : prefix_master :=
  Master (num_head m) (num_tail m) (str_head m) (str_tail m) (seqnum m) (recent m) v (delete_hook m) (trie_depth m).
Definition set_delete_hook (v : Z) (m : prefix_master) : prefix_master :=
  Master (num_head m) (num_tail m) (str_head m) (str_tail m) (seqnum m) (recent m) (add_hook m) v (trie_depth m).

(** [master->num] and [master->str], as [list->head] and [list->tail] *)
Definition list_head (t : prefix_name_type) (m : prefix_master) : Z :=
  match t with PREFIX_TYPE_NUMBER => num_head m | PREFIX_TYPE_STRING => str_head m end.
Definition list_tail (t : prefix_name_type) (m : prefix_master) : Z :=
  match t with PREFIX_TYPE_NUMBER => num_tail m | PREFIX_TYPE_STRING => str_tail m end.
Definition set_list_head (t : prefix_name_type) (v : Z) (m : prefix_master) : prefix_master :=
  match t with
  | PREFIX_TYPE_NUMBER => Master v (num_tail m) (str_head m) (str_tail m) (seqnum m) (recent m) (add_hook m) (delete_hook m) (trie_depth m)
  | PREFIX_TYPE_STRING => Master (num_head m) (num_tail m) v (str_tail m) (seqnum m) (recent m) (add_hook m) (delete_hook m) (trie_depth m)
  end.
Definition set_list_tail (t : prefix_name_type) (v : Z) (m : prefix_master) : prefix_master :=
  match t with
  | PREFIX_TYPE_NUMBER => Master (num_head m) v (str_head m) (str_tail m) (seqnum m) (recent m) (add_hook m) (delete_hook m) (trie_depth m)
  | PREFIX_TYPE_STRING => Master (num_head m) (num_tail m) (str_head m) v (seqnum m) (recent m) (add_hook m) (delete_hook m) (trie_depth m)
  end.

(** *** The masters *)
Inductive afi_t := AFI_IP | AFI_IP6 | AFI_L2VPN.

(** The addresses of the static masters *)
Definition prefix_master_ipv4 : Z := 8.
Definition prefix_master_ipv6 : Z := 16.
Definition prefix_master_orf_v4 : Z := 24.
Definition prefix_master_orf_v6 : Z := 32.

Definition empty_master (depth : nat) : prefix_master := Master 0 0 0 0 true 0 0 0 depth.

(** The memory at the start of the program *)
Definition static_masters : gmap Z pobj :=
  <[prefix_master_ipv4 := OMaster (empty_master PLC_MAXLEVELV4)]>
  (<[prefix_master_ipv6 := OMaster (empty_master PLC_MAXLEVELV6)]>
  (<[prefix_master_orf_v4 := OMaster (empty_master PLC_MAXLEVELV4)]>
  {[prefix_master_orf_v6 := OMaster (empty_master PLC_MAXLEVELV6)]})).

Definition prefix_master_get (afi : afi_t) (orf : bool) : Z :=
  match afi with
  | AFI_IP => if orf then prefix_master_orf_v4 else prefix_master_ipv4
  | AFI_IP6 => if orf then prefix_master_orf_v6 else prefix_master_ipv6
  | AFI_L2VPN => 0
  end.

(** ** Memory *)
Abbreviation pmem := (gmap Z pobj).

Definition load_entry (a : Z) : M pmem prefix_list_entry :=
  o ← mem_load a; match o with OEntry e => mret e | _ => mfault end.
Definition update_entry (a : Z) (f : prefix_list_entry -> prefix_list_entry) : M pmem unit :=
  e ← load_entry a; mem_store a (OEntry (f e)).
Definition load_list (a : Z) : M pmem prefix_list :=
  o ← mem_load a; match o with OList l => mret l | _ => mfault end.
Definition update_list (a : Z) (f : prefix_list -> prefix_list) : M pmem unit :=
  l ← load_list a; mem_store a (OList (f l)).
Definition load_master (a : Z) : M pmem prefix_master :=
  o ← mem_load a; match o with OMaster m => mret m | _ => mfault end.
Definition update_master (a : Z) (f : prefix_master -> prefix_master) : M pmem unit :=
  m ← load_master a; mem_store a (OMaster (f m)).
Definition load_trie (a : Z) : M pmem (list pltrie_entry) :=
  o ← mem_load a; match o with OTable t => mret t | _ => mfault end.
(** [table->entries[i]] *)
Definition load_slot (a i : Z) : M pmem pltrie_entry := t ← load_trie a; of_option (block_get t i).
Definition update_slot (a i : Z) (f : pltrie_entry -> pltrie_entry) : M pmem unit :=
  t ← load_trie a;
  s ← of_option (block_get t i);
  t ← of_option (block_set t i (f s));
  mem_store a (OTable t).

(** [struct prefix_list_entry **]: a slot's [final_chain] or [up_chain], or an
    entry's [next_best] *)
Inductive link_to := LFinal (table i : Z) | LUp (table i : Z) | LBest (entry : Z).

Definition load_link (l : link_to) : M pmem Z :=
  match l with
  | LFinal t i => s ← load_slot t i; mret (next_table s)
  | LUp t i => s ← load_slot t i; mret (up_chain s)
  | LBest a => e ← load_entry a; mret (e_next_best e)
  end.
Definition store_link (l : link_to) (v : Z) : M pmem unit :=
  match l with
  | LFinal t i => update_slot t i (set_next_table v)
  | LUp t i => update_slot t i (set_up_chain v)
  | LBest a => update_entry a (set_next_best v)
  end.

Definition prefix_list_name (plist : Z) : M pmem (list Z) := l ← load_list plist; mret (pl_name l).
Definition prefix_list_afi (plist : Z) : M pmem afi_t :=
  l ← load_list plist;
  mret (if (pl_master l =? prefix_master_ipv4) || (pl_master l =? prefix_master_orf_v4) then AFI_IP else AFI_IP6).

(** ** The trie *)

(** [trie_walk_affected]; [bwalk] is a [uint16_t]. *)
Definition trie_walk_affected (validbits : Z) (table byte object : Z)
    (fn : Z -> link_to -> M pmem unit) : M pmem unit :=
  if PLC_BITS <? validbits then fn object (LFinal table byte)
  else
    let mask := u8 (Z.shiftl 1 (8 - validbits) - 1) in
    let first := Z.land byte (Z.lnot mask) in
    mfor (Z.to_nat (byte + mask + 1 - first)) first (fun bwalk => fn object (LUp table bwalk)).

Fixpoint trie_uninstall_loop (fuel : nat) (object : Z) (updptr : link_to) : M pmem unit :=
  match fuel with
  | O => mnofuel
  | S fuel =>
      cur ← load_link updptr;
      if cur =? 0 then mret tt
      else if cur =? object then
        o ← load_entry object;
        store_link updptr (e_next_best o)
      else trie_uninstall_loop fuel object (LBest cur)
  end.
Definition trie_uninstall_fn (object : Z) (updptr : link_to) : M pmem unit :=
  fuel ← mem_fuel; trie_uninstall_loop (S fuel) object updptr.

(** The [while] of [trie_install_fn]: [None] when the object is in the chain
    already, otherwise the link to change. *)
Fixpoint trie_install_loop (fuel : nat) (object : Z) (updptr : link_to) : M pmem (option link_to) :=
  match fuel with
  | O => mnofuel
  | S fuel =>
      cur ← load_link updptr;
      if cur =? 0 then mret (Some updptr)
      else if cur =? object then mret None
      else
        c ← load_entry cur;
        o ← load_entry object;
        if prefixlen (e_prefix c) <? prefixlen (e_prefix o) then mret (Some updptr)
        else if (prefixlen (e_prefix c) =? prefixlen (e_prefix o)) && (e_seq o <? e_seq c)
        then mret (Some updptr)
        else trie_install_loop fuel object (LBest cur)
  end.
Definition trie_install_fn (object : Z) (updptr : link_to) : M pmem unit :=
  fuel ← mem_fuel;
  place ← trie_install_loop (S fuel) object updptr;
  match place with
  | None => mret tt
  | Some updptr =>
      cur ← load_link updptr;
      o ← load_entry object;
      (if e_next_best o =? 0 then update_entry object (set_next_best cur)
       else massert ((e_next_best o =? cur) || (cur =? 0))) ;;
      store_link updptr object
  end.

Definition slot_empty (s : pltrie_entry) : bool := (next_table s =? 0) && (up_chain s =? 0).
(** 1 when every slot is empty *)
Definition trie_table_empty (table : Z) : M pmem bool :=
  t ← load_trie table; mret (forallb slot_empty t).

Section plist.
Context (place : pmem -> Z -> Z).

(** The sizes of the objects *)
Definition sizeof_entry : Z := 128.
Definition sizeof_table : Z := 4096.
Definition sizeof_list : Z := 80.

Definition new_table : M pmem Z :=
  mem_alloc place sizeof_table [(0, OTable (replicate PLC_LEN (TrieSlot 0 0)))].

(** The [for] of [prefix_list_trie_del]: the table the walk ends in, its depth,
    what is left of [validbits] and the links [tables[1..depth]], the deepest
    first.  [fuel] is [maxdepth - 1 - depth]. *)
Fixpoint trie_del_descend (fuel : nat) (table : Z) (bytes : list Z) (depth validbits : Z)
    (tables : list link_to) : M pmem (Z * Z * Z * list link_to) :=
  match fuel with
  | O => mret (table, depth, validbits, tables)
  | S fuel =>
      if PLC_BITS <? validbits then
        b ← mlift (byte bytes depth);
        s ← load_slot table b;
        massert (negb (next_table s =? 0)) ;;
        trie_del_descend fuel (next_table s) bytes (depth + 1) (validbits - PLC_BITS)
          (LFinal table b :: tables)
      else mret (table, depth, validbits, tables)
  end.

(** [for (; depth > 0; depth--)] *)
Fixpoint trie_prune (tables : list link_to) : M pmem unit :=
  match tables with
  | [] => mret tt
  | l :: tables =>
      t ← load_link l;
      empty ← trie_table_empty t;
      mwhen empty (mem_free t ;; store_link l 0) ;;
      trie_prune tables
  end.

Definition prefix_list_trie_del (plist pentry : Z) : M pmem unit :=
  l ← load_list plist;
  m ← load_master (pl_master l);
  e ← load_entry pentry;
  let bytes := u (e_prefix e) in
  '(table, depth, validbits, tables) ←
    trie_del_descend (trie_depth m - 1) (pl_trie l) bytes 0 (prefixlen (e_prefix e)) [];
  b ← mlift (byte bytes depth);
  trie_walk_affected validbits table b pentry trie_uninstall_fn ;;
  trie_prune tables.

(** The [while] of [prefix_list_trie_add]: the last table, the position of
    [bytes] and what is left of [validbits].  [fuel] is [depth - 1]. *)
Fixpoint trie_add_descend (fuel : nat) (table : Z) (bytes : list Z) (i validbits : Z) : M pmem (Z * Z * Z) :=
  match fuel with
  | O => mret (table, i, validbits)
  | S fuel =>
      if PLC_BITS <? validbits then
        b ← mlift (byte bytes i);
        s ← load_slot table b;
        mwhen (next_table s =? 0)
          (t ← new_table; update_slot table b (set_next_table t)) ;;
        s ← load_slot table b;
        trie_add_descend fuel (next_table s) bytes (i + 1) (validbits - PLC_BITS)
      else mret (table, i, validbits)
  end.

Definition prefix_list_trie_add (plist pentry : Z) : M pmem unit :=
  l ← load_list plist;
  m ← load_master (pl_master l);
  e ← load_entry pentry;
  let bytes := u (e_prefix e) in
  '(table, i, validbits) ←
    trie_add_descend (trie_depth m - 1) (pl_trie l) bytes 0 (prefixlen (e_prefix e));
  b ← mlift (byte bytes i);
  trie_walk_affected validbits table b pentry trie_install_fn.

(** ** Entries *)

(** [int] and [long] arithmetic: overflow is undefined. *)
Definition checked (w v : Z) : res Z := if (- 2 ^ (w - 1) <=? v) && (v <? 2 ^ (w - 1)) then Ret v else Fault.
Definition add_count (plist d : Z) : M pmem unit :=
  l ← load_list plist;
  c ← mlift (checked 32 (pl_count l + d));
  update_list plist (set_pl_count c).

Definition zero_prefix : prefix := Prefix AF_UNSPEC 0 (replicate 40 0).
Definition prefix_list_entry_new : M pmem Z :=
  mem_alloc place sizeof_entry [(0, OEntry (Entry 0 0 0 PREFIX_DENY 0 zero_prefix 0 0 0 0 0))].
Definition prefix_list_entry_free (pentry : Z) : M pmem unit := mem_free pentry.

Definition prefix_list_entry_make (p : prefix) (type : prefix_list_type) (seq le ge any : Z) : M pmem Z :=
  pentry ← prefix_list_entry_new;
  e ← load_entry pentry;
  q ← mlift (prefix_copy (e_prefix e) p);
  update_entry pentry (fun e =>
    Entry seq le ge type (if any =? 0 then e_any e else 1) q (e_refcnt e) (e_hitcnt e)
      (e_next e) (e_prev e) (e_next_best e)) ;;
  mret pentry.

(** [for (pentry = plist->head; pentry; pentry = pentry->next)], keeping the
    largest number *)
Fixpoint max_seq (fuel : nat) (pentry maxseq : Z) : M pmem Z :=
  match fuel with
  | O => mnofuel
  | S fuel =>
      if pentry =? 0 then mret maxseq
      else
        e ← load_entry pentry;
        max_seq fuel (e_next e) (if maxseq <? e_seq e then e_seq e else maxseq)
  end.

Definition UINT_MAX : Z := 4294967295.
Definition prefix_new_seq_get (plist : Z) : M pmem Z :=
  fuel ← mem_fuel;
  l ← load_list plist;
  maxseq ← max_seq (S fuel) (pl_head l) 0;
  newseq ← mlift (checked 64 (Z.quot maxseq 5 * 5 + 5));
  mret (if UINT_MAX <? newseq then UINT_MAX else newseq).

(** A loop over the entries that stops at the first one [stop] holds of *)
Fixpoint find_entry (fuel : nat) (stop : prefix_list_entry -> res bool) (pentry : Z) : M pmem Z :=
  match fuel with
  | O => mnofuel
  | S fuel =>
      if pentry =? 0 then mret 0
      else
        e ← load_entry pentry;
        found ← mlift (stop e);
        if found : bool then mret pentry else find_entry fuel stop (e_next e)
  end.

Definition prefix_seq_check (plist seq : Z) : M pmem Z :=
  fuel ← mem_fuel;
  l ← load_list plist;
  find_entry (S fuel) (fun e => Ret (e_seq e =? seq)) (pl_head l).

(** Whether [prefix_list_entry_lookup] returns this entry *)
Definition entry_is (p : prefix) (type : prefix_list_type) (seq le ge : Z) (e : prefix_list_entry) : res bool :=
  same ← prefix_same (Some (e_prefix e)) (Some p);
  Ret (same && bool_decide (e_type e = type) && negb ((0 <=? seq) && negb (e_seq e =? seq))
       && (e_le e =? le) && (e_ge e =? ge)).

Definition prefix_list_entry_lookup (plist : Z) (p : prefix) (type : prefix_list_type) (seq le ge : Z) : M pmem Z :=
  fuel ← mem_fuel;
  l ← load_list plist;
  find_entry (S fuel) (entry_is p type seq le ge) (pl_head l).

(** ** The decision *)
Definition prefix_list_entry_match (e : prefix_list_entry) (p : prefix) : res bool :=
  if negb (family_code (p_family (e_prefix e)) =? family_code (p_family p)) then Ret false
  else
    m ← prefix_match (e_prefix e) p;
    if negb m then Ret false
    else if (e_le e =? 0) && (e_ge e =? 0) then
      Ret (prefixlen (e_prefix e) =? prefixlen p)
    else if negb (e_le e =? 0) && (e_le e <? prefixlen p) then Ret false
    else if negb (e_ge e =? 0) && (prefixlen p <? e_ge e) then Ret false
    else Ret true.

(** [for (; pentry; pentry = pentry->next_best)]: [pbest] afterwards *)
Fixpoint best_in_chain (fuel : nat) (p : prefix) (pentry pbest : Z) : M pmem Z :=
  match fuel with
  | O => mnofuel
  | S fuel =>
      if pentry =? 0 then mret pbest
      else
        e ← load_entry pentry;
        worse ← (if pbest =? 0 then mret false else b ← load_entry pbest; mret (e_seq b <? e_seq e));
        if worse : bool then best_in_chain fuel p (e_next_best e) pbest
        else
          m ← mlift (prefix_list_entry_match e p);
          best_in_chain fuel p (e_next_best e) (if m : bool then pentry else pbest)
  end.

(** The [while (1)]; [depth] is its variable, [i] the position of [byte]. *)
Fixpoint best_in_trie (depth : nat) (p : prefix) (table i validbits pbest : Z) : M pmem Z :=
  match depth with
  | O => mnofuel
  | S depth =>
      b ← mlift (byte (u p) i);
      s ← load_slot table b;
      fuel ← mem_fuel;
      pbest ← best_in_chain (S fuel) p (up_chain s) pbest;
      if validbits <=? PLC_BITS then mret pbest
      else
        match depth with
        | O => best_in_chain (S fuel) p (next_table s) pbest
        | S _ =>
            if next_table s =? 0 then mret pbest
            else best_in_trie depth p (next_table s) (i + 1) (validbits - PLC_BITS) pbest
        end
  end.

(** The verdict, and the entry whose prefix [*which] points to *)
Definition prefix_list_apply_which_prefix (plist : Z) (p : prefix) : M pmem (prefix_list_type * Z) :=
  if plist =? 0 then mret (PREFIX_DENY, 0)
  else
    l ← load_list plist;
    if pl_count l =? 0 then mret (PREFIX_PERMIT, 0)
    else
      m ← load_master (pl_master l);
      pbest ← best_in_trie (trie_depth m) p (pl_trie l) 0 (prefixlen p) 0;
      if pbest =? 0 then mret (PREFIX_DENY, 0)
      else
        update_entry pbest (fun e => set_hitcnt (u64 (e_hitcnt e + 1)) e) ;;
        e ← load_entry pbest;
        mret (e_type e, pbest).

Definition prefix_list_apply (plist : Z) (p : prefix) : M pmem prefix_list_type :=
  '(t, _) ← prefix_list_apply_which_prefix plist p; mret t.

(** The [for] of [prefix_entry_dup_check], over the levels: the chain's head *)
Fixpoint dup_chain (fuel : nat) (table : Z) (bytes : list Z) (depth validbits : Z) : M pmem Z :=
  let last :=
    b ← mlift (byte bytes depth);
    s ← load_slot table b;
    mret (if PLC_BITS <? validbits then next_table s else up_chain s) in
  match fuel with
  | O => last
  | S fuel =>
      if PLC_BITS <? validbits then
        b ← mlift (byte bytes depth);
        s ← load_slot table b;
        if next_table s =? 0 then mret 0
        else dup_chain fuel (next_table s) bytes (depth + 1) (validbits - PLC_BITS)
      else last
  end.

(** The [for] over the chain *)
Fixpoint dup_in_chain (fuel : nat) (n : prefix_list_entry) (seq pentry : Z) : M pmem Z :=
  match fuel with
  | O => mnofuel
  | S fuel =>
      if pentry =? 0 then mret 0
      else
        e ← load_entry pentry;
        same ← mlift (prefix_same (Some (e_prefix e)) (Some (e_prefix n)));
        if same && bool_decide (e_type e = e_type n) && (e_le e =? e_le n) && (e_ge e =? e_ge n)
             && negb (e_seq e =? seq)
        then mret pentry
        else dup_in_chain fuel n seq (e_next_best e)
  end.

(** The entry of the list with the policy of [new] and another number *)
Definition prefix_entry_dup_check (plist new : Z) : M pmem Z :=
  n ← load_entry new;
  seq ← (if e_seq n =? -1 then prefix_new_seq_get plist else mret (e_seq n));
  l ← load_list plist;
  m ← load_master (pl_master l);
  pentry ← dup_chain (trie_depth m - 1) (pl_trie l) (u (e_prefix n)) 0 (prefixlen (e_prefix n));
  fuel ← mem_fuel;
  dup_in_chain (S fuel) n seq pentry.

(** ** Lists of entries *)

(** [pentry] leaves the doubly linked list. *)
Definition entry_unlink (plist pentry : Z) : M pmem unit :=
  e ← load_entry pentry;
  (if negb (e_prev e =? 0) then update_entry (e_prev e) (set_next (e_next e))
   else update_list plist (set_pl_head (e_next e))) ;;
  e ← load_entry pentry;
  if negb (e_next e =? 0) then update_entry (e_next e) (set_prev (e_prev e))
  else update_list plist (set_pl_tail (e_prev e)).

(** [pentry] is linked before [point], or at the end when [point] is null. *)
Definition entry_link (plist pentry point : Z) : M pmem unit :=
  update_entry pentry (set_next point) ;;
  if negb (point =? 0) then
    pt ← load_entry point;
    (if negb (e_prev pt =? 0) then update_entry (e_prev pt) (set_next pentry)
     else update_list plist (set_pl_head pentry)) ;;
    pt ← load_entry point;
    update_entry pentry (set_prev (e_prev pt)) ;;
    update_entry point (set_prev pentry)
  else
    l ← load_list plist;
    (if negb (pl_tail l =? 0) then update_entry (pl_tail l) (set_next pentry)
     else update_list plist (set_pl_head pentry)) ;;
    l ← load_list plist;
    update_entry pentry (set_prev (pl_tail l)) ;;
    update_list plist (set_pl_tail pentry).

(** What [prefix_list_entry_delete] does when [update_list] is 0 *)
Definition prefix_list_entry_remove (plist pentry : Z) : M pmem unit :=
  prefix_list_trie_del plist pentry ;;
  entry_unlink plist pentry ;;
  prefix_list_entry_free pentry ;;
  add_count plist (-1).

(** [prefix_list_entry_add] up to the hooks *)
Definition prefix_list_entry_insert (plist pentry : Z) : M pmem unit :=
  e ← load_entry pentry;
  mwhen (e_seq e =? -1)
    (seq ← prefix_new_seq_get plist; update_entry pentry (set_seq seq)) ;;
  l ← load_list plist;
  e ← load_entry pentry;
  after ← (if negb (pl_tail l =? 0) then t ← load_entry (pl_tail l); mret (e_seq t <? e_seq e) else mret false);
  point ←
    (if after : bool then mret 0
     else
       replace ← prefix_seq_check plist (e_seq e);
       mwhen (negb (replace =? 0)) (prefix_list_entry_remove plist replace) ;;
       fuel ← mem_fuel;
       l ← load_list plist;
       find_entry (S fuel) (fun p => Ret (e_seq e <=? e_seq p)) (pl_head l));
  entry_link plist pentry point ;;
  prefix_list_trie_add plist pentry ;;
  add_count plist 1.

(** ** Lists by name *)
Fixpoint strcmp (s1 s2 : list Z) : Z :=
  match s1, s2 with
  | [], [] => 0
  | [], _ :: _ => -1
  | _ :: _, [] => 1
  | c1 :: s1, c2 :: s2 => if c1 =? c2 then strcmp s1 s2 else numcmp c1 c2
  end.

Definition isdigit (c : Z) : bool := (48 <=? c) && (c <=? 57).
(** In the C locale *)
Definition isspace (c : Z) : bool := (c =? 32) || ((9 <=? c) && (c <=? 13)).

Definition LONG_MAX : Z := 2 ^ 63 - 1.
(** [atol]: the C library's [strtol] stops at the limits of [long]. *)
Fixpoint digits_value (s : list Z) (v : Z) : Z :=
  match s with
  | c :: s => if isdigit c then digits_value s (v * 10 + (c - 48)) else v
  | [] => v
  end.
Fixpoint skip_spaces (s : list Z) : list Z :=
  match s with c :: s' => if isspace c then skip_spaces s' else s | [] => [] end.
Definition atol (s : list Z) : Z :=
  match skip_spaces s with
  | 45 :: s => Z.max (- 2 ^ 63) (- digits_value s 0)
  | 43 :: s => Z.min LONG_MAX (digits_value s 0)
  | s => Z.min LONG_MAX (digits_value s 0)
  end.

(** The [for] over the digits of a name: the number and how many there are *)
Fixpoint leading_number (name : list Z) (number i : Z) : res (Z * Z) :=
  match name with
  | [] => Ret (number, i)
  | c :: name =>
      if isdigit c then
        n ← checked 64 (number * 10);
        n ← checked 64 (n + (c - 48));
        leading_number name n (i + 1)
      else Ret (number, i)
  end.

(** A loop over the lists of a master, like [find_entry] *)
Fixpoint find_list (fuel : nat) (stop : prefix_list -> bool) (plist : Z) : M pmem Z :=
  match fuel with
  | O => mnofuel
  | S fuel =>
      if plist =? 0 then mret 0
      else
        l ← load_list plist;
        if stop l then mret plist else find_list fuel stop (pl_next l)
  end.

(** [name] is a string; the callers pass no null pointer. *)
Definition prefix_list_lookup_do (afi : afi_t) (orf : bool) (name : list Z) : M pmem Z :=
  let master := prefix_master_get afi orf in
  if master =? 0 then mret 0
  else
    fuel ← mem_fuel;
    m ← load_master master;
    plist ← find_list (S fuel) (fun l => strcmp (pl_name l) name =? 0) (num_head m);
    if negb (plist =? 0) then mret plist
    else find_list (S fuel) (fun l => strcmp (pl_name l) name =? 0) (str_head m).

Definition prefix_list_lookup (afi : afi_t) (name : list Z) : M pmem Z := prefix_list_lookup_do afi false name.
Definition prefix_bgp_orf_lookup (afi : afi_t) (name : list Z) : M pmem Z := prefix_list_lookup_do afi true name.

(** The four cases in which [plist] enters the list of type [type] *)
Definition list_link (master : Z) (type : prefix_name_type) (plist point : Z) : M pmem unit :=
  m ← load_master master;
  if list_head type m =? 0 then
    update_master master (set_list_head type plist) ;;
    update_master master (set_list_tail type plist)
  else if point =? 0 then
    update_list plist (set_pl_prev (list_tail type m)) ;;
    update_list (list_tail type m) (set_pl_next plist) ;;
    update_master master (set_list_tail type plist)
  else if point =? list_head type m then
    update_list plist (set_pl_next (list_head type m)) ;;
    update_list (list_head type m) (set_pl_prev plist) ;;
    update_master master (set_list_head type plist)
  else
    update_list plist (set_pl_next point) ;;
    pt ← load_list point;
    update_list plist (set_pl_prev (pl_prev pt)) ;;
    mwhen (negb (pl_prev pt =? 0)) (update_list (pl_prev pt) (set_pl_next plist)) ;;
    update_list point (set_pl_prev plist).

Definition prefix_list_insert (afi : afi_t) (orf : bool) (name : list Z) : M pmem Z :=
  let master := prefix_master_get afi orf in
  if master =? 0 then mret 0
  else
    plist ← mem_alloc place sizeof_list
      [(0, OList (PrefixList [] None 0 PREFIX_TYPE_STRING 0 0 0 0 0 0 0))];
    trie ← new_table;
    update_list plist (fun l =>
      PrefixList name (pl_desc l) master (pl_type l) (pl_count l) (pl_rangecount l)
        (pl_head l) (pl_tail l) trie (pl_next l) (pl_prev l)) ;;
    '(number, i) ← mlift (leading_number name 0 0);
    let '(type, stop) :=
      if i =? Z.of_nat (length name)
      then (PREFIX_TYPE_NUMBER, fun l => number <=? atol (pl_name l))
      else (PREFIX_TYPE_STRING, fun l => 0 <=? strcmp (pl_name l) name) in
    update_list plist (set_pl_type type) ;;
    fuel ← mem_fuel;
    m ← load_master master;
    point ← find_list (S fuel) stop (list_head type m);
    list_link master type plist point ;;
    mret plist.

Definition prefix_list_get (afi : afi_t) (orf : bool) (name : list Z) : M pmem Z :=
  plist ← prefix_list_lookup_do afi orf name;
  if plist =? 0 then prefix_list_insert afi orf name else mret plist.

(** The loop of [prefix_list_delete] over the entries *)
Fixpoint delete_entries (fuel : nat) (plist pentry : Z) : M pmem unit :=
  match fuel with
  | O => mnofuel
  | S fuel =>
      if pentry =? 0 then mret tt
      else
        e ← load_entry pentry;
        prefix_list_trie_del plist pentry ;;
        prefix_list_entry_free pentry ;;
        add_count plist (-1) ;;
        delete_entries fuel plist (e_next e)
  end.

(** [plist] leaves the list of its master. *)
Definition list_unlink (plist : Z) : M pmem unit :=
  l ← load_list plist;
  (if negb (pl_next l =? 0) then update_list (pl_next l) (set_pl_prev (pl_prev l))
   else update_master (pl_master l) (set_list_tail (pl_type l) (pl_prev l))) ;;
  l ← load_list plist;
  if negb (pl_prev l =? 0) then update_list (pl_prev l) (set_pl_next (pl_next l))
  else update_master (pl_master l) (set_list_head (pl_type l) (pl_next l)).

(** ** The rest of the program *)
Definition on_mem {A} (m : M pmem A) : M world A := fun w =>
  match m (w_mem w) with
  | Ret (a, h) => Ret (a, World h (w_log w))
  | AssertFail => AssertFail
  | Fault => Fault
  | NoFuel => NoFuel
  end.
Definition emit (e : event) : M world unit := fun w => Ret (tt, World (w_mem w) (w_log w ++ [e])).

Definition route_map_notify_dependencies (name : list Z) (ev : rmap_event) : M world unit :=
  emit (EvNotify name ev).
(** [if (hook) ( *hook)(plist);] *)
Definition run_hook (hook plist : Z) : M world unit :=
  mwhen (negb (hook =? 0)) (emit (EvHook hook plist)).

Definition prefix_list_delete (plist : Z) : M world unit :=
  on_mem (
    fuel ← mem_fuel;
    l ← load_list plist;
    delete_entries (S fuel) plist (pl_head l) ;;
    list_unlink plist ;;
    update_list plist (set_pl_desc None) ;;
    update_master (pl_master l) (set_recent 0)) ;;
  l ← on_mem (load_list plist);
  route_map_notify_dependencies (pl_name l) RMAP_EVENT_PLIST_DELETED ;;
  m ← on_mem (load_master (pl_master l));
  run_hook (delete_hook m) plist ;;
  on_mem (mem_free (pl_trie l) ;; mem_free plist).

Definition prefix_list_entry_delete (plist pentry : Z) (update : bool) : M world unit :=
  if (plist =? 0) || (pentry =? 0) then mret tt
  else
    on_mem (prefix_list_entry_remove plist pentry) ;;
    mwhen update (
      l ← on_mem (load_list plist);
      route_map_notify_dependencies (pl_name l) RMAP_EVENT_PLIST_DELETED ;;
      m ← on_mem (load_master (pl_master l));
      run_hook (delete_hook m) plist ;;
      if (pl_head l =? 0) && (pl_tail l =? 0) && bool_decide (pl_desc l = None)
      then prefix_list_delete plist
      else on_mem (update_master (pl_master l) (set_recent plist))).

Definition prefix_list_entry_add (plist pentry : Z) : M world unit :=
  on_mem (prefix_list_entry_insert plist pentry) ;;
  l ← on_mem (load_list plist);
  m ← on_mem (load_master (pl_master l));
  run_hook (add_hook m) plist ;;
  route_map_notify_dependencies (pl_name l) RMAP_EVENT_PLIST_ADDED ;;
  on_mem (update_master (pl_master l) (set_recent plist)).

Definition prefix_list_add_hook (func : Z) : M pmem unit :=
  update_master prefix_master_ipv4 (set_add_hook func) ;;
  update_master prefix_master_ipv6 (set_add_hook func).
Definition prefix_list_delete_hook (func : Z) : M pmem unit :=
  update_master prefix_master_ipv4 (set_delete_hook func) ;;
  update_master prefix_master_ipv6 (set_delete_hook func).

(** ** Filters received from BGP peers *)
Record orf_prefix := OrfPrefix { orf_seq : Z; orf_ge : Z; orf_le : Z; orf_p : prefix }.

Definition CMD_SUCCESS : Z := 0.
Definition CMD_WARNING_CONFIG_FAILED : Z := 13.

Definition permit_type (permit : bool) : prefix_list_type := if permit then PREFIX_PERMIT else PREFIX_DENY.

(** [orfp->le] can change, but the caller does not read it again. *)
Definition prefix_bgp_orf_set (name : list Z) (afi : afi_t) (orfp : orf_prefix) (permit set : bool) : M world Z :=
  if negb (orf_ge orfp =? 0) && (orf_ge orfp <=? prefixlen (orf_p orfp)) then mret CMD_WARNING_CONFIG_FAILED
  else if negb (orf_le orfp =? 0) && (orf_le orfp <=? prefixlen (orf_p orfp)) then mret CMD_WARNING_CONFIG_FAILED
  else if negb (orf_le orfp =? 0) && (orf_le orfp <? orf_ge orfp) then mret CMD_WARNING_CONFIG_FAILED
  else
    let le :=
      if negb (orf_ge orfp =? 0) && (orf_le orfp =? match afi with AFI_IP => 32 | _ => 128 end)
      then 0 else orf_le orfp in
    plist ← on_mem (prefix_list_get afi true name);
    if plist =? 0 then mret CMD_WARNING_CONFIG_FAILED
    else if set then
      pentry ← on_mem (prefix_list_entry_make (orf_p orfp) (permit_type permit) (orf_seq orfp) le (orf_ge orfp) 0);
      dup ← on_mem (prefix_entry_dup_check plist pentry);
      if negb (dup =? 0) then on_mem (prefix_list_entry_free pentry) ;; mret CMD_WARNING_CONFIG_FAILED
      else prefix_list_entry_add plist pentry ;; mret CMD_SUCCESS
    else
      pentry ← on_mem (prefix_list_entry_lookup plist (orf_p orfp) (permit_type permit) (orf_seq orfp) le (orf_ge orfp));
      if pentry =? 0 then mret CMD_WARNING_CONFIG_FAILED
      else prefix_list_entry_delete plist pentry true ;; mret CMD_SUCCESS.

Definition prefix_bgp_orf_remove_all (afi : afi_t) (name : list Z) : M world unit :=
  plist ← on_mem (prefix_bgp_orf_lookup afi name);
  mwhen (negb (plist =? 0)) (prefix_list_delete plist).

(** ** Reset *)
Fixpoint delete_lists (fuel : nat) (plist : Z) : M world unit :=
  match fuel with
  | O => mnofuel
  | S fuel =>
      if plist =? 0 then mret tt
      else
        l ← on_mem (load_list plist);
        prefix_list_delete plist ;;
        delete_lists fuel (pl_next l)
  end.

Definition prefix_list_reset_afi (afi : afi_t) (orf : bool) : M world unit :=
  let master := prefix_master_get afi orf in
  if master =? 0 then mret tt
  else
    fuel ← on_mem mem_fuel;
    m ← on_mem (load_master master);
    delete_lists (S fuel) (num_head m) ;;
    m ← on_mem (load_master master);
    delete_lists (S fuel) (str_head m) ;;
    m ← on_mem (load_master master);
    massert (num_head m =? 0) ;;
    massert (num_tail m =? 0) ;;
    massert (str_head m =? 0) ;;
    massert (str_tail m =? 0) ;;
    on_mem (update_master master (set_seqnum true)) ;;
    on_mem (update_master master (set_recent 0)).

Definition prefix_list_reset : M world unit :=
  prefix_list_reset_afi AFI_IP false ;;
  prefix_list_reset_afi AFI_IP6 false ;;
  prefix_list_reset_afi AFI_IP true ;;
  prefix_list_reset_afi AFI_IP6 true.
End plist.
