(* ===== verification/PlistVty.v ===== *)
(** * The commands of prefix lists (frr-frr-7.2/lib: plist.c, prefix.c)

    The functions behind the commands, from the texts of the arguments on: an
    argument that was left out is [None].  The [vty_out] messages are left out.
    [inet_pton] is the C library's: the bytes of the address, or [None] where it
    returns 0.  [uninit] is what the local [struct prefix]es hold before they
    are written. *)

From S2P Require Import Prelude SepLogic Heap FrrPrefix Plist.

#[local] Open Scope Z_scope.

(** ** Texts *)

(** What is before the first [c] and what is after it *)
Fixpoint strchr (s : list Z) (c : Z) : option (list Z * list Z) :=
  match s with
  | [] => None
  | x :: s =>
      if x =? c then Some ([], s)
      else match strchr s c with Some (before, after) => Some (x :: before, after) | None => None end
  end.

(** The C library's: [strtol], as an [int] *)
Definition atoi (s : list Z) : Z := u32 (atol s + 2 ^ 31) - 2 ^ 31.

(** [strncmp("any", s, strlen(s)) == 0] *)
Definition any_text : list Z := [97; 110; 121].
Definition is_any (s : list Z) : bool := bool_decide (s `prefix_of` any_text).
(** [strncmp("permit", s, 1) == 0], and for [deny] *)
Definition first_is (c : Z) (s : list Z) : bool := match s with x :: _ => x =? c | [] => false end.
Definition type_of (typestr : list Z) : option prefix_list_type :=
  if first_is 112 typestr then Some PREFIX_PERMIT
  else if first_is 100 typestr then Some PREFIX_DENY
  else None.

Section vty.
Context (place : pmem -> Z -> Z) (inet_pton : family -> list Z -> option (list Z)) (uninit : prefix).

(** [str2prefix_ipv4] and [str2prefix_ipv6]: [None] where they return 0.  The
    callers do not look at the prefix then. *)
Definition str2prefix_af (af : family) (bitlen : Z) (str : list Z) (p : prefix) : res (option prefix) :=
  match strchr str 47 with
  | None =>
      match inet_pton af str with
      | None => Ret None
      | Some bs => bs ← write_bytes (u p) 0 bs; Ret (Some (Prefix af bitlen bs))
      end
  | Some (cp, pnt) =>
      match inet_pton af cp with
      | None => Ret None
      | Some bs =>
          bs ← write_bytes (u p) 0 bs;
          let plen := u8 (atoi pnt) in
          if bitlen <? plen then Ret None else Ret (Some (Prefix af plen bs))
      end
  end.
Definition str2prefix_ipv4 : list Z -> prefix -> res (option prefix) := str2prefix_af AF_INET IPV4_MAX_BITLEN.
Definition str2prefix_ipv6 : list Z -> prefix -> res (option prefix) := str2prefix_af AF_INET6 IPV6_MAX_BITLEN.

Definition any_ipv4 : list Z := [48; 46; 48; 46; 48; 46; 48; 47; 48].
Definition any_ipv6 : list Z := [58; 58; 47; 48].

Definition afi_bitlen (afi : afi_t) : Z := match afi with AFI_IP => IPV4_MAX_BITLEN | _ => IPV6_MAX_BITLEN end.

(** The [switch] over [afi]: the prefix, [genum], [lenum] and [any] *)
Definition parse_prefix (afi : afi_t) (text : list Z) (genum lenum : Z) : res (option (prefix * Z * Z * Z)) :=
  let with_any (p : option prefix) : option (prefix * Z * Z * Z) := match p with Some p => Some (p, 0, afi_bitlen afi, 1) | None => None end in
  let without (p : option prefix) : option (prefix * Z * Z * Z) := match p with Some p => Some (p, genum, lenum, 0) | None => None end in
  match afi with
  | AFI_IP =>
      if is_any text then p ← str2prefix_ipv4 any_ipv4 uninit; Ret (with_any p)
      else p ← str2prefix_ipv4 text uninit; Ret (without p)
  | AFI_IP6 =>
      if is_any text then p ← str2prefix_ipv6 any_ipv6 uninit; Ret (with_any p)
      else p ← str2prefix_ipv6 text uninit; Ret (without p)
  | AFI_L2VPN => Ret None
  end.

(** The bits under the mask *)
Definition mask_prefix (afi : afi_t) (p : prefix) : res prefix :=
  p_tmp ← prefix_copy uninit p;
  p_tmp ← (match afi with AFI_IP => apply_mask_ipv4 p_tmp | _ => apply_mask_ipv6 p_tmp end);
  same ← prefix_same (Some p_tmp) (Some p);
  Ret (if same : bool then p else p_tmp).

Definition vty_prefix_list_install (afi : afi_t) (name : list Z)
    (seq typestr prefix ge le : option (list Z)) : M world Z :=
  match prefix, typestr with
  | Some prefix, Some typestr =>
      let seqnum := match seq with Some s => atol s | None => -1 end in
      let genum := match ge with Some s => atoi s | None => 0 end in
      let lenum := match le with Some s => atoi s | None => 0 end in
      match type_of typestr with
      | None => mret CMD_WARNING_CONFIG_FAILED
      | Some type =>
          parsed ← mlift (parse_prefix afi prefix genum lenum);
          match parsed with
          | None => mret CMD_WARNING_CONFIG_FAILED
          | Some (p, genum, lenum, any) =>
              p ← mlift (mask_prefix afi p);
              if negb (genum =? 0) && (genum <=? prefixlen p) then mret CMD_WARNING_CONFIG_FAILED
              else if negb (lenum =? 0) && (lenum <? prefixlen p) then mret CMD_WARNING_CONFIG_FAILED
              else if negb (lenum =? 0) && (lenum <? genum) then mret CMD_WARNING_CONFIG_FAILED
              else
                let lenum := if negb (genum =? 0) && (lenum =? match afi with AFI_IP => 32 | _ => 128 end) then 0 else lenum in
                plist ← on_mem (prefix_list_get place afi false name);
                pentry ← on_mem (prefix_list_entry_make place p type seqnum lenum genum any);
                dup ← on_mem (prefix_entry_dup_check plist pentry);
                if negb (dup =? 0) then on_mem (prefix_list_entry_free pentry) ;; mret CMD_SUCCESS
                else prefix_list_entry_add place plist pentry ;; mret CMD_SUCCESS
          end
      end
  | _, _ => mret CMD_WARNING_CONFIG_FAILED
  end.

Definition vty_prefix_list_uninstall (afi : afi_t) (name : list Z)
    (seq typestr prefix ge le : option (list Z)) : M world Z :=
  plist ← on_mem (prefix_list_lookup afi name);
  if plist =? 0 then mret CMD_WARNING_CONFIG_FAILED
  else
    match seq, typestr, prefix, ge, le with
    | None, None, None, None, None => prefix_list_delete plist ;; mret CMD_SUCCESS
    | Some seq, None, None, None, None =>
        pentry ← on_mem (prefix_seq_check plist (atol seq));
        if pentry =? 0 then mret CMD_WARNING_CONFIG_FAILED
        else prefix_list_entry_delete plist pentry true ;; mret CMD_SUCCESS
    | _, Some typestr, Some prefix, _, _ =>
        let seqnum := match seq with Some s => atol s | None => -1 end in
        let genum := match ge with Some s => atoi s | None => 0 end in
        let lenum := match le with Some s => atoi s | None => 0 end in
        match type_of typestr with
        | None => mret CMD_WARNING_CONFIG_FAILED
        | Some type =>
            parsed ← mlift (parse_prefix afi prefix genum lenum);
            match parsed with
            | None => mret CMD_WARNING_CONFIG_FAILED
            | Some (p, genum, lenum, _) =>
                pentry ← on_mem (prefix_list_entry_lookup plist p type seqnum lenum genum);
                if pentry =? 0 then mret CMD_WARNING_CONFIG_FAILED
                else prefix_list_entry_delete plist pentry true ;; mret CMD_SUCCESS
            end
        end
    | _, _, _, _, _ => mret CMD_WARNING_CONFIG_FAILED
    end.

(** [ip_prefix_list_description] and its IPv6 sibling *)
Definition prefix_list_description (afi : afi_t) (name desc : list Z) : M world Z :=
  plist ← on_mem (prefix_list_get place afi false name);
  on_mem (update_list plist (set_pl_desc None)) ;;
  on_mem (update_list plist (set_pl_desc (Some desc))) ;;
  mret CMD_SUCCESS.

Definition vty_prefix_list_desc_unset (afi : afi_t) (name : list Z) : M world Z :=
  plist ← on_mem (prefix_list_lookup afi name);
  if plist =? 0 then mret CMD_WARNING_CONFIG_FAILED
  else
    on_mem (update_list plist (set_pl_desc None)) ;;
    l ← on_mem (load_list plist);
    mwhen ((pl_head l =? 0) && (pl_tail l =? 0) && bool_decide (pl_desc l = None)) (prefix_list_delete plist) ;;
    mret CMD_SUCCESS.

(** [ip_prefix_list_sequence_number] and its IPv6 sibling *)
Definition prefix_list_sequence_number (afi : afi_t) (no : bool) : M world Z :=
  on_mem (update_master (prefix_master_get afi false) (set_seqnum (negb no))) ;;
  mret CMD_SUCCESS.
End vty.
