(* ===== verification/PlistChain.v ===== *)
(** * The chains of a prefix list

    A chain is a list of entries linked by [next_best].  Chains share their
    ends: the link of an entry is the same in all of them.  Here is what the
    installation and the removal of an entry do to the chain they are applied
    to and to the others. *)

From S2P Require Import Prelude SepLogic Own FrrPrefix Plist.

#[local] Open Scope Z_scope.

(** ** Chains of a link function *)
Section chain.
Implicit Types (nb : Z -> option Z) (l T : list Z).

Fixpoint chain nb (p : Z) l : Prop :=
  match l with
  | [] => p = 0
  | a :: l => p = a /\ a <> 0 /\ exists q, nb a = Some q /\ chain nb q l
  end.

(** The pointer to the first of a list *)
Definition hd_ptr l : Z := match l with [] => 0 | a :: _ => a end.

Lemma chain_hd nb p l : chain nb p l -> p = hd_ptr l.
Proof. destruct l; simpl; [done|]. by intros (-> & _). Qed.

Lemma chain_ext nb nb' p l : (forall a, a ∈ l -> nb' a = nb a) -> chain nb p l -> chain nb' p l.
Proof.
  revert p. induction l as [|a l IH]; intros p H; simpl; [done|]. intros (-> & Ha & q & E & Hq).
  split_and!; [done..|]. exists q. split; [rewrite H by left; done|]. apply IH; [|done]. intros b Hb. apply H. by right.
Qed.

Lemma chain_det nb p l l' : chain nb p l -> chain nb p l' -> l = l'.
Proof.
  revert p l'. induction l as [|a l IH]; intros p [|b l']; simpl; [done| | |].
  - by intros -> (<- & ? & _).
  - by intros (-> & ? & _) E.
  - intros (-> & _ & q & E & Hq) (<- & _ & q' & E' & Hq'). rewrite E in E'. injection E' as <-.
    f_equal. by eapply IH.
Qed.

Lemma chain_split nb p l1 a l2 :
  chain nb p (l1 ++ a :: l2) -> nb a = Some (hd_ptr l2) /\ a <> 0 /\ chain nb (hd_ptr l2) l2.
Proof.
  revert p. induction l1 as [|b l1 IH]; intros p; simpl.
  - intros (-> & Ha & q & E & Hq). by rewrite <- (chain_hd _ _ _ Hq).
  - intros (-> & _ & q & E & Hq). by eapply IH.
Qed.

Lemma chain_suffix nb p q l1 l2 l3 l4 a :
  chain nb p (l1 ++ a :: l2) -> chain nb q (l3 ++ a :: l4) -> l2 = l4.
Proof.
  intros (E1 & _ & H1)%chain_split (E2 & _ & H2)%chain_split. rewrite E1 in E2. injection E2 as E2.
  eapply chain_det; [exact H1|]. by rewrite E2.
Qed.

Lemma chain_NoDup nb p l : chain nb p l -> NoDup l.
Proof.
  revert p. induction l as [|a l IH]; intros p Hc; [constructor|]. constructor.
  - intros (l1 & l2 & ->)%list_elem_of_split.
    pose proof (chain_suffix nb p p (a :: l1) l2 [] (l1 ++ a :: l2) a Hc Hc) as E.
    apply (f_equal length) in E. rewrite length_app in E. simpl in E. lia.
  - destruct Hc as (_ & _ & q & _ & Hq). by eapply IH.
Qed.

(** The end of a chain behind [x] is exchanged. *)
Lemma chain_update nb nb' p l1 x X Y :
  nb' x = Some (hd_ptr Y) -> x ∉ l1 -> x ∉ Y -> (forall a, a <> x -> nb' a = nb a) ->
  chain nb (hd_ptr Y) Y -> chain nb p (l1 ++ x :: X) -> chain nb' p (l1 ++ x :: Y).
Proof.
  intros Ex H1 HY He Hc. revert p. induction l1 as [|b l1 IH]; intros p; simpl.
  - intros (-> & Hx & q & E & Hq). split_and!; [done..|]. exists (hd_ptr Y). split; [done|].
    eapply chain_ext; [|exact Hc]. intros a Ha. apply He. by intros ->.
  - apply not_elem_of_cons in H1 as [Hb H1]. intros (-> & Hb0 & q & E & Hq). split_and!; [done..|].
    exists q. split; [rewrite He; done|]. by apply IH.
Qed.
End chain.

(** ** Objects in memory *)
Implicit Types (h : pmem) (e : prefix_list_entry).

Definition best h (a : Z) : option Z :=
  match h !! a with Some (OEntry e) => Some (e_next_best e) | _ => None end.

Lemma best_insert h a e b :
  best (<[a := OEntry e]> h) b = if decide (b = a) then Some (e_next_best e) else best h b.
Proof.
  unfold best. case_decide as E; [by rewrite E, lookup_insert_eq|]. by rewrite lookup_insert_ne.
Qed.

Lemma best_other h a o b : b <> a -> best (<[a := o]> h) b = best h b.
Proof. intros. unfold best. by rewrite lookup_insert_ne. Qed.

Lemma best_table h a t b : (forall e, h !! a <> Some (OEntry e)) -> best (<[a := OTable t]> h) b = best h b.
Proof.
  intros H. destruct (decide (b = a)) as [->|]; [|by rewrite best_other].
  unfold best. rewrite lookup_insert_eq. destruct (h !! a) as [[]|] eqn:E; naive_solver.
Qed.

Section rules.
Context {A : Type}.
Implicit Types Q : A -> pmem -> Prop.

Lemma own_load_entry a e h (Q : prefix_list_entry -> pmem -> Prop) :
  h !! a = Some (OEntry e) -> a <> 0 -> Q e h -> own (load_entry a) h Q.
Proof. intros. unfold load_entry. ostep. eapply own_load; [done..|]. by apply own_ret. Qed.
Lemma own_update_entry a e h f (Q : unit -> pmem -> Prop) :
  h !! a = Some (OEntry e) -> a <> 0 -> Q tt (<[a := OEntry (f e)]> h) -> own (update_entry a f) h Q.
Proof. intros. unfold update_entry. ostep. eapply own_load_entry; [done..|]. by eapply own_store. Qed.
Lemma own_load_list a l h (Q : prefix_list -> pmem -> Prop) :
  h !! a = Some (OList l) -> a <> 0 -> Q l h -> own (load_list a) h Q.
Proof. intros. unfold load_list. ostep. eapply own_load; [done..|]. by apply own_ret. Qed.
Lemma own_update_list a l h f (Q : unit -> pmem -> Prop) :
  h !! a = Some (OList l) -> a <> 0 -> Q tt (<[a := OList (f l)]> h) -> own (update_list a f) h Q.
Proof. intros. unfold update_list. ostep. eapply own_load_list; [done..|]. by eapply own_store. Qed.
Lemma own_load_master a m h (Q : prefix_master -> pmem -> Prop) :
  h !! a = Some (OMaster m) -> a <> 0 -> Q m h -> own (load_master a) h Q.
Proof. intros. unfold load_master. ostep. eapply own_load; [done..|]. by apply own_ret. Qed.
Lemma own_update_master a m h f (Q : unit -> pmem -> Prop) :
  h !! a = Some (OMaster m) -> a <> 0 -> Q tt (<[a := OMaster (f m)]> h) -> own (update_master a f) h Q.
Proof. intros. unfold update_master. ostep. eapply own_load_master; [done..|]. by eapply own_store. Qed.
Lemma own_load_trie a t h (Q : list pltrie_entry -> pmem -> Prop) :
  h !! a = Some (OTable t) -> a <> 0 -> Q t h -> own (load_trie a) h Q.
Proof. intros. unfold load_trie. ostep. eapply own_load; [done..|]. by apply own_ret. Qed.
Lemma own_load_slot a t i s h (Q : pltrie_entry -> pmem -> Prop) :
  h !! a = Some (OTable t) -> a <> 0 -> block_get t i = Some s -> Q s h -> own (load_slot a i) h Q.
Proof. intros. unfold load_slot. ostep. eapply own_load_trie; [done..|]. by eapply own_of_option. Qed.
Lemma own_update_slot a t i s h f (Q : unit -> pmem -> Prop) :
  h !! a = Some (OTable t) -> a <> 0 -> block_get t i = Some s ->
  Q tt (<[a := OTable (<[Z.to_nat i := f s]> t)]> h) -> own (update_slot a i f) h Q.
Proof.
  intros Ha Hn Hi HQ. unfold update_slot. ostep. eapply own_load_trie; [done..|]. ostep.
  eapply own_of_option; [done|]. ostep. unfold block_get in Hi. case_bool_decide; [|done].
  eapply own_of_option; [by apply block_set_Some|]. by eapply own_store.
Qed.
End rules.

(** ** Links of slots *)

(** The two links of a slot: [true] is [final_chain], the union. *)
Definition slot_link (k : bool) (ta i : Z) : link_to := if k then LFinal ta i else LUp ta i.
Definition slot_get (k : bool) (s : pltrie_entry) : Z := if k then next_table s else up_chain s.
Definition slot_set (k : bool) (v : Z) (s : pltrie_entry) : pltrie_entry :=
  if k then set_next_table v s else set_up_chain v s.

Lemma slot_get_set k v s : slot_get k (slot_set k v s) = v.
Proof. by destruct k. Qed.
Lemma slot_get_set_other k v s : slot_get (negb k) (slot_set k v s) = slot_get (negb k) s.
Proof. by destruct k. Qed.

Lemma own_load_slot_link k ta t i s h (Q : Z -> pmem -> Prop) :
  h !! ta = Some (OTable t) -> ta <> 0 -> block_get t i = Some s -> Q (slot_get k s) h ->
  own (load_link (slot_link k ta i)) h Q.
Proof. intros. destruct k; simpl; ostep; (eapply own_load_slot; [done..|]); by apply own_ret. Qed.
Lemma own_store_slot_link k ta t i s v h (Q : unit -> pmem -> Prop) :
  h !! ta = Some (OTable t) -> ta <> 0 -> block_get t i = Some s ->
  Q tt (<[ta := OTable (<[Z.to_nat i := slot_set k v s]> t)]> h) ->
  own (store_link (slot_link k ta i) v) h Q.
Proof. intros. destruct k; simpl; by eapply own_update_slot. Qed.

Lemma own_load_best a h v (Q : Z -> pmem -> Prop) :
  best h a = Some v -> a <> 0 -> Q v h -> own (load_link (LBest a)) h Q.
Proof.
  unfold best. intros E Ha HQ. destruct (h !! a) as [[e| | |]|] eqn:Eh; try done. injection E as <-.
  simpl. ostep. eapply own_load_entry; [done..|]. by apply own_ret.
Qed.

(** ** Rules *)

(** What an entry says, without its links and its hit counter *)
Record rule := Rule {
  r_seq : Z;
  r_le : Z;
  r_ge : Z;
  r_type : prefix_list_type;
  r_any : Z;
  r_prefix : prefix;
  r_refcnt : Z
}.

Definition rule_of e : rule :=
  Rule (e_seq e) (e_le e) (e_ge e) (e_type e) (e_any e) (e_prefix e) (e_refcnt e).
Definition rule_at h (a : Z) : option rule :=
  match h !! a with Some (OEntry e) => Some (rule_of e) | _ => None end.

Lemma rule_at_entry h a r : rule_at h a = Some r -> exists e, h !! a = Some (OEntry e) /\ rule_of e = r.
Proof. unfold rule_at. destruct (h !! a) as [[e| | |]|]; [|done..]. intros [= <-]. eauto. Qed.

(** The order of a chain: longer prefixes first, then smaller numbers *)
Definition earlier (r1 r2 : rule) : Prop :=
  prefixlen (r_prefix r2) < prefixlen (r_prefix r1) \/
  prefixlen (r_prefix r1) = prefixlen (r_prefix r2) /\ r_seq r1 < r_seq r2.

Lemma chain_size h p l : chain (best h) p l -> (length l <= size h)%nat.
Proof.
  intros Hc. rewrite <- size_dom.
  assert (Hl : list_to_set l ⊆ dom h).
  { intros a Ha%elem_of_list_to_set. apply list_elem_of_split in Ha as (l1 & l2 & ->).
    apply chain_split in Hc as (E & _). unfold best in E. apply elem_of_dom. destruct (h !! a); [done|done]. }
  pose proof (chain_NoDup _ _ _ Hc) as Hn. apply subseteq_size in Hl. by rewrite size_list_to_set in Hl.
Qed.

Definition reads (k : link_to) h (p : Z) : Prop := forall Q : Z -> pmem -> Prop, Q p h -> own (load_link k) h Q.

(** The link that points behind the entries [l] *)
Definition last_link (k : link_to) (l : list Z) : link_to :=
  match last l with Some a => LBest a | None => k end.

Lemma last_link_cons k a l : last_link k (a :: l) = last_link (LBest a) l.
Proof. unfold last_link. rewrite last_cons. by destruct (last l). Qed.

Lemma reads_best h a v : best h a = Some v -> a <> 0 -> reads (LBest a) h v.
Proof. intros E Ha Q HQ. by eapply own_load_best. Qed.

Lemma install_loop_new fuel o ro h k p l T (Q : option link_to -> pmem -> Prop) :
  o <> 0 -> rule_at h o = Some ro -> chain (best h) p (l ++ T) -> reads k h p -> (length l < fuel)%nat ->
  (forall a, a ∈ l -> a <> o /\ exists r, rule_at h a = Some r /\ earlier r ro) ->
  match T with [] => True | a :: _ => a <> o /\ exists r, rule_at h a = Some r /\ earlier ro r end ->
  Q (Some (last_link k l)) h -> own (trie_install_loop fuel o k) h Q.
Proof.
  intros Ho Hro. destruct (rule_at_entry _ _ _ Hro) as (eo & Eo & Heo). revert fuel k p.
  induction l as [|a l IH]; intros [|fuel] k p Hc Hk Hf Hl HT HQ; simpl in Hf; try lia; cbn [trie_install_loop]; ostep; apply Hk.
  - destruct T as [|a T]; simpl in Hc.
    { subst p. by apply own_ret. }
    destruct Hc as (-> & Ha & _). destruct HT as (Hne & r & Hr & He).
    destruct (rule_at_entry _ _ _ Hr) as (e & Ee & Her).
    apply own_if; [by intros E%Z.eqb_eq|]. intros _. apply own_if; [by intros E%Z.eqb_eq|]. intros _.
    ostep. eapply own_load_entry; [done..|]. ostep. eapply own_load_entry; [done..|]. subst r ro. simpl in He.
    unfold earlier in He; simpl in He.
    destruct (Z.ltb_spec (prefixlen (e_prefix e)) (prefixlen (e_prefix eo))); [by apply own_ret|].
    destruct (Z.eqb_spec (prefixlen (e_prefix e)) (prefixlen (e_prefix eo))); [|lia].
    destruct (Z.ltb_spec (e_seq eo) (e_seq e)); [by apply own_ret|lia].
  - simpl in Hc. destruct Hc as (-> & Ha & q & Eq & Hq). destruct (Hl a) as (Hne & r & Hr & He); [by left|].
    destruct (rule_at_entry _ _ _ Hr) as (e & Ee & Her).
    apply own_if; [by intros E%Z.eqb_eq|]. intros _. apply own_if; [by intros E%Z.eqb_eq|]. intros _.
    ostep. eapply own_load_entry; [done..|]. ostep. eapply own_load_entry; [done..|]. subst r ro.
    unfold earlier in He; simpl in He.
    destruct (Z.ltb_spec (prefixlen (e_prefix e)) (prefixlen (e_prefix eo))); [lia|].
    destruct (Z.eqb_spec (prefixlen (e_prefix e)) (prefixlen (e_prefix eo))); simpl.
    1: destruct (Z.ltb_spec (e_seq eo) (e_seq e)); [lia|].
    all: eapply IH; [exact Hq|by apply reads_best|lia| |done|by rewrite last_link_cons in HQ];
      intros b Hb; apply Hl; by right.
Qed.

Lemma install_loop_old fuel o ro h k p l T (Q : option link_to -> pmem -> Prop) :
  o <> 0 -> rule_at h o = Some ro -> chain (best h) p (l ++ o :: T) -> reads k h p -> (length l < fuel)%nat ->
  (forall a, a ∈ l -> a <> o /\ exists r, rule_at h a = Some r /\ earlier r ro) ->
  Q None h -> own (trie_install_loop fuel o k) h Q.
Proof.
  intros Ho Hro. destruct (rule_at_entry _ _ _ Hro) as (eo & Eo & Heo). revert fuel k p.
  induction l as [|a l IH]; intros [|fuel] k p Hc Hk Hf Hl HQ; simpl in Hf; try lia; cbn [trie_install_loop]; ostep; apply Hk.
  - simpl in Hc. destruct Hc as (-> & _). apply own_if; [by intros E%Z.eqb_eq|]. intros _.
    rewrite Z.eqb_refl. by apply own_ret.
  - simpl in Hc. destruct Hc as (-> & Ha & q & Eq & Hq). destruct (Hl a) as (Hne & r & Hr & He); [by left|].
    destruct (rule_at_entry _ _ _ Hr) as (e & Ee & Her).
    apply own_if; [by intros E%Z.eqb_eq|]. intros _. apply own_if; [by intros E%Z.eqb_eq|]. intros _.
    ostep. eapply own_load_entry; [done..|]. ostep. eapply own_load_entry; [done..|]. subst r ro.
    unfold earlier in He; simpl in He.
    destruct (Z.ltb_spec (prefixlen (e_prefix e)) (prefixlen (e_prefix eo))); [lia|].
    destruct (Z.eqb_spec (prefixlen (e_prefix e)) (prefixlen (e_prefix eo))); simpl.
    1: destruct (Z.ltb_spec (e_seq eo) (e_seq e)); [lia|].
    all: eapply IH; [exact Hq|by apply reads_best|lia| |done]; intros b Hb; apply Hl; by right.
Qed.

Lemma uninstall_loop_found fuel o h k p l T v (Q : unit -> pmem -> Prop) :
  chain (best h) p (l ++ o :: T) -> reads k h p -> (length l < fuel)%nat -> o ∉ l -> best h o = Some v ->
  own (store_link (last_link k l) v) h Q -> own (trie_uninstall_loop fuel o k) h Q.
Proof.
  revert fuel k p. induction l as [|a l IH]; intros [|fuel] k p Hc Hk Hf Hl Hv HQ; simpl in Hf; try lia;
    cbn [trie_uninstall_loop]; ostep; apply Hk; simpl in Hc.
  - destruct Hc as (-> & Ho & _). apply own_if; [by intros E%Z.eqb_eq|]. intros _. rewrite Z.eqb_refl.
    unfold best in Hv. destruct (h !! o) as [[e| | |]|] eqn:Eh; try done. injection Hv as Hv.
    ostep. eapply own_load_entry; [done..|]. by rewrite Hv.
  - destruct Hc as (-> & Ha & q & Eq & Hq). apply not_elem_of_cons in Hl as [Hne Hl].
    apply own_if; [by intros E%Z.eqb_eq|]. intros _. apply own_if; [by intros E%Z.eqb_eq|]. intros _.
    eapply IH; [exact Hq|by apply reads_best|lia|done..|by rewrite last_link_cons in HQ].
Qed.

Lemma uninstall_loop_absent fuel o h k p l (Q : unit -> pmem -> Prop) :
  chain (best h) p l -> reads k h p -> (length l < fuel)%nat -> o ∉ l ->
  Q tt h -> own (trie_uninstall_loop fuel o k) h Q.
Proof.
  revert fuel k p. induction l as [|a l IH]; intros [|fuel] k p Hc Hk Hf Hl HQ; simpl in Hf; try lia;
    cbn [trie_uninstall_loop]; ostep; apply Hk; simpl in Hc.
  - subst p. by apply own_ret.
  - destruct Hc as (-> & Ha & q & Eq & Hq). apply not_elem_of_cons in Hl as [Hne Hl].
    apply own_if; [by intros E%Z.eqb_eq|]. intros _. apply own_if; [by intros E%Z.eqb_eq|]. intros _.
    eapply IH; [exact Hq|by apply reads_best|lia|done..].
Qed.
