(* ===== verification/PlistWalk.v ===== *)
(** * The walk over the slots of an entry

    [trie_walk_affected] applies [trie_install_fn] or [trie_uninstall_fn] to
    the slots an entry covers.  The chain of each of them is [A i ++ T] without
    the entry and [A i ++ o :: T] with it: the end [T] is the same in all of
    them, and the link of the last of [A i] may be shared. *)

From S2P Require Import Prelude SepLogic Own FrrPrefix Plist PlistChain.

#[local] Open Scope Z_scope.

(** [h'] differs from [h] in the links of entries and in the table [ta]. *)
Definition nb_only (ta : Z) (h h' : pmem) : Prop :=
  forall x, x <> ta ->
  match h !! x with
  | Some (OEntry e) => exists v, h' !! x = Some (OEntry (set_next_best v e))
  | o => h' !! x = o
  end.

Lemma nb_only_refl ta h : nb_only ta h h.
Proof. intros x _. destruct (h !! x) as [[e| | |]|]; try done. exists (e_next_best e). by destruct e. Qed.

Lemma nb_only_entry ta h h' a e v :
  nb_only ta h h' -> h' !! a = Some (OEntry e) -> a <> ta -> nb_only ta h (<[a := OEntry (set_next_best v e)]> h').
Proof.
  intros H Ha Hta x Hx. specialize (H x Hx). destruct (decide (x = a)) as [->|].
  - rewrite lookup_insert_eq. rewrite Ha in H. destruct (h !! a) as [[e0| | |]|]; try done.
    destruct H as (w & [= ->]). by exists v.
  - by rewrite lookup_insert_ne.
Qed.

Lemma nb_only_table ta h h' t : nb_only ta h h' -> nb_only ta h (<[ta := OTable t]> h').
Proof. intros H x Hx. specialize (H x Hx). by rewrite lookup_insert_ne. Qed.

Lemma nb_only_rule ta h h' a r t :
  nb_only ta h h' -> h !! ta = Some (OTable t) -> rule_at h a = Some r -> rule_at h' a = Some r.
Proof.
  intros H Ht Hr. destruct (rule_at_entry _ _ _ Hr) as (e & Ee & <-).
  assert (Hx : a <> ta) by (intros ->; congruence). specialize (H a Hx). rewrite Ee in H. destruct H as (v & Ev).
  unfold rule_at. by rewrite Ev.
Qed.

Lemma list_snoc_case {X} (l : list X) : l = [] \/ exists l' x, l = l' ++ [x].
Proof. induction l as [|x l _] using rev_ind; [by left|]. right. eauto. Qed.

Section walk.
Context (k : bool) (ta lo : Z) (n : nat) (A : Z -> list Z) (T : list Z) (o : Z) (ro : rule).
Context (h0 : pmem) (t0 : list pltrie_entry).

Definition covered (i : Z) : Prop := lo <= i < lo + Z.of_nat n.

Context (Hlo : 0 <= lo) (Hhi : lo + Z.of_nat n <= Z.of_nat (length t0)) (Hta : ta <> 0) (Ho : o <> 0).
Context (Ht0 : h0 !! ta = Some (OTable t0)) (Hro : rule_at h0 o = Some ro) (HoT : o ∉ T).
Context (HA : forall i a, covered i -> a ∈ A i -> a <> o /\ exists r, rule_at h0 a = Some r /\ earlier r ro).
Context (HT : forall a, a ∈ T -> exists r, rule_at h0 a = Some r /\ earlier ro r).

(** The walk has done the slots below [j]: their chains end in [new], those of
    the others in [new] or in [old]. *)
Record walk (old new : list Z) (j : Z) (h : pmem) : Prop := {
  wk_only : nb_only ta h0 h;
  wk_best : forall x, x <> o -> (forall i, covered i -> x ∉ A i) -> best h x = best h0 x;
  wk_object : exists v, best h o = Some v /\ (v = 0 \/ v = hd_ptr T);
  wk_table : exists t, h !! ta = Some (OTable t) /\ length t = length t0 /\
    forall i s0, t0 !! i = Some s0 -> exists s, t !! i = Some s /\
      slot_get (negb k) s = slot_get (negb k) s0 /\
      (~ covered (Z.of_nat i) -> slot_get k s = slot_get k s0) /\
      (covered (Z.of_nat i) ->
         chain (best h) (slot_get k s) (A (Z.of_nat i) ++ new) \/
         j <= Z.of_nat i /\ chain (best h) (slot_get k s) (A (Z.of_nat i) ++ old))
}.

(** The two tails: [T], and [T] behind the entry *)
Definition tail (with_o : bool) : list Z := if with_o then o :: T else T.

Lemma A_not_T i a : covered i -> a ∈ A i -> a ∉ tail true.
Proof.
  intros Hi Ha. destruct (HA i a Hi Ha) as (Hne & r & Hr & He). simpl. rewrite not_elem_of_cons. split; [done|].
  intros HaT. destruct (HT a HaT) as (r' & Hr' & He'). rewrite Hr in Hr'. injection Hr' as <-.
  unfold earlier in *. lia.
Qed.

Lemma A_not_tail ins i a : covered i -> a ∈ A i -> a ∉ tail ins.
Proof. intros Hi Ha Hm. apply (A_not_T i a Hi Ha). destruct ins; [done|by right]. Qed.

(** [x] is the last of [A j]; a chain with it ends as that of [j]. *)
Lemma shared_last h ins x p q B C D :
  chain (best h) p (B ++ x :: tail (negb ins)) ->
  (chain (best h) q ((C ++ x :: D) ++ tail (negb ins)) -> D = []) /\
  (chain (best h) q ((C ++ x :: D) ++ tail ins) -> o ∉ D -> False).
Proof.
  intros H1. split; rewrite <- app_assoc; simpl; intros H2.
  - pose proof (chain_suffix _ _ _ _ _ _ _ _ H1 H2) as E. apply (f_equal length) in E.
    rewrite length_app in E. destruct D; [done|]. simpl in E. lia.
  - pose proof (chain_suffix _ _ _ _ _ _ _ _ H1 H2) as E. intros HD. destruct ins; simpl in E.
    + apply (f_equal length) in E. rewrite length_app in E. simpl in E. lia.
    + destruct D as [|d D]; simpl in E.
      * apply (f_equal length) in E. simpl in E. lia.
      * injection E as <- _. apply HD. by left.
Qed.

(** The link in front of the tail is set to the other tail. *)
Lemma walk_write ins j h (Q : unit -> pmem -> Prop) :
  walk (tail (negb ins)) (tail ins) j h -> covered j ->
  best h o = Some (hd_ptr T) -> chain (best h) (hd_ptr T) T ->
  (forall t s, h !! ta = Some (OTable t) -> t !! Z.to_nat j = Some s ->
     chain (best h) (slot_get k s) (A j ++ tail (negb ins))) ->
  (forall h', walk (tail (negb ins)) (tail ins) (j + 1) h' -> Q tt h') ->
  own (store_link (last_link (slot_link k ta j) (A j)) (hd_ptr (tail ins))) h Q.
Proof.
  intros [Honly Hbest Hobj (t & Et & Hlen & Hslots)] Hj HoT' HcT Hold HQ.
  assert (Hcovered := Hj). unfold covered in Hj.
  destruct (lookup_lt_is_Some_2 t (Z.to_nat j)) as [s Es]; [lia|].
  destruct (lookup_lt_is_Some_2 t0 (Z.to_nat j)) as [s0 Es0]; [lia|].
  specialize (Hold t s Et Es).
  assert (HY : chain (best h) (hd_ptr (tail ins)) (tail ins)).
  { destruct ins; simpl; [|done]. split_and!; [done..|]. by exists (hd_ptr T). }
  destruct (list_snoc_case (A j)) as [EA|(B & x & EA)].
  - (* the slot itself *)
    rewrite EA in *. cbn [last_link last]. change (last_link (slot_link k ta j) []) with (slot_link k ta j).
    eapply own_store_slot_link; [exact Et|done|rewrite block_get_lookup by lia; exact Es|]. apply HQ.
    assert (Eb : forall b, best (<[ta:=OTable (<[Z.to_nat j := slot_set k (hd_ptr (tail ins)) s]> t)]> h) b = best h b).
    { intros b. apply best_table. congruence. }
    split.
    + by apply nb_only_table.
    + intros y Hy1 Hy2. rewrite Eb. by apply Hbest.
    + rewrite Eb. done.
    + eexists. split; [by rewrite lookup_insert_eq|]. split; [by rewrite length_insert|].
      intros i s1 Hi. destruct (Hslots i s1 Hi) as (s2 & E2 & Hother & Hout & Hin).
      destruct (decide (i = Z.to_nat j)) as [->|Hne].
      * rewrite Es in E2. injection E2 as <-. eexists. split; [apply list_lookup_insert_eq; by eapply lookup_lt_Some|].
        rewrite slot_get_set_other, slot_get_set, Z2Nat.id by lia. split_and!; [done|done|].
        intros _. left. rewrite EA. by apply (chain_ext (best h)).
      * exists s2. rewrite list_lookup_insert_ne by done. split_and!; [done..|].
        intros Hc. destruct (Hin Hc) as [H|[H1 H2]]; [left|right; split; [lia|]]; by apply (chain_ext (best h)).
  - (* the last of [A j] *)
    rewrite EA. unfold last_link. rewrite last_snoc. rewrite EA, <- app_assoc in Hold. simpl in Hold.
    assert (Hx : x ∈ A j) by (rewrite EA; apply elem_of_app; right; by left).
    destruct (HA j x Hcovered Hx) as (Hxo & rx & Hrx & _).
    pose proof (nb_only_rule ta h0 h x rx t0 Honly Ht0 Hrx) as Hrx'.
    destruct (rule_at_entry _ _ _ Hrx') as (e & Ee & _).
    destruct (chain_split _ _ _ _ _ Hold) as (_ & Hx0 & _).
    pose proof (chain_NoDup _ _ _ Hold) as Hnd.
    assert (HxB : x ∉ B).
    { apply NoDup_app in Hnd as (_ & Hd & _). intros HB. apply (Hd x HB). by left. }
    assert (Hxta : x <> ta) by congruence.
    simpl. eapply own_update_entry; [exact Ee|done|]. apply HQ.
    set (h1 := <[x := OEntry (set_next_best (hd_ptr (tail ins)) e)]> h).
    assert (Ex : best h1 x = Some (hd_ptr (tail ins))).
    { unfold h1. by rewrite best_insert, decide_True. }
    assert (Ene : forall b, b <> x -> best h1 b = best h b).
    { intros b Hb. unfold h1. by rewrite best_insert, decide_False. }
    assert (HxY : forall b, x ∉ tail b) by (intros b; by eapply A_not_tail).
    split.
    + by apply nb_only_entry.
    + intros y Hy1 Hy2. rewrite Ene; [by apply Hbest|]. intros ->. by apply (Hy2 j).
    + rewrite Ene by done. done.
    + exists t. unfold h1. rewrite lookup_insert_ne by done. split_and!; [done..|]. fold h1.
      intros i s1 Hi. destruct (Hslots i s1 Hi) as (s2 & E2 & Hother & Hout & Hin). exists s2.
      split_and!; [done..|]. intros Hc. specialize (Hin Hc).
      destruct (decide (x ∈ A (Z.of_nat i))) as [Hxi|Hxi].
      * left. destruct (list_elem_of_split _ _ Hxi) as (C & D & ECD).
        destruct (shared_last h ins x (slot_get k s) (slot_get k s2) B C D Hold) as [Hs1 Hs2].
        rewrite ECD in Hin |- *. destruct Hin as [Hin|[_ Hin]].
        { exfalso. apply (Hs2 Hin). intros HD. destruct (HA (Z.of_nat i) o Hc) as [? _]; [|done].
          rewrite ECD. apply elem_of_app. right. by right. }
        rewrite (Hs1 Hin) in *. rewrite <- app_assoc in *. simpl in *.
        eapply chain_update; [exact Ex| |apply HxY|exact Ene|exact HY|exact Hin].
        pose proof (chain_NoDup _ _ _ Hin) as Hnd2. apply NoDup_app in Hnd2 as (_ & Hd & _).
        intros HC. apply (Hd x HC). by left.
      * assert (Hext : forall b q, chain (best h) q (A (Z.of_nat i) ++ tail b) ->
            chain (best h1) q (A (Z.of_nat i) ++ tail b)).
        { intros b q. apply chain_ext. intros a Ha. apply Ene. intros ->.
          apply elem_of_app in Ha as [Ha|Ha]; [done|]. by apply (HxY b). }
        destruct (decide (Z.of_nat i = j)) as [<-|Hne]; [done|].
        destruct Hin as [Hin|[Hle Hin]]; [left|right; split; [lia|]]; by apply Hext.
Qed.

Lemma walk_skip old new j h :
  walk old new j h -> covered j ->
  (forall t s, h !! ta = Some (OTable t) -> t !! Z.to_nat j = Some s ->
     chain (best h) (slot_get k s) (A j ++ new)) ->
  walk old new (j + 1) h.
Proof.
  intros [Honly Hbest Hobj (t & Et & Hlen & Hslots)] Hj Hnew. split; [done..|].
  exists t. split_and!; [done..|]. intros i s1 Hi. destruct (Hslots i s1 Hi) as (s2 & E2 & Hother & Hout & Hin).
  exists s2. split_and!; [done..|]. intros Hc. destruct (decide (Z.of_nat i = j)) as [<-|].
  - left. apply (Hnew t); [done|]. by rewrite Nat2Z.id.
  - destruct (Hin Hc) as [?|[? ?]]; [by left|right; split; [lia|done]].
Qed.

Lemma walk_slot old new j h :
  walk old new j h -> covered j ->
  exists t s, h !! ta = Some (OTable t) /\ block_get t j = Some s /\ t !! Z.to_nat j = Some s /\
    (chain (best h) (slot_get k s) (A j ++ new) \/ chain (best h) (slot_get k s) (A j ++ old)).
Proof.
  intros [Honly Hbest Hobj (t & Et & Hlen & Hslots)] Hj. pose proof Hj as Hj'. unfold covered in Hj'.
  destruct (lookup_lt_is_Some_2 t0 (Z.to_nat j)) as [s0 Es0]; [lia|].
  destruct (Hslots _ _ Es0) as (s & Es & _ & _ & Hin). rewrite Z2Nat.id in Hin by lia.
  exists t, s. rewrite block_get_lookup by lia. split_and!; [done..|]. destruct (Hin Hj) as [?|[_ ?]]; auto.
Qed.

Lemma walk_rule old new j h a r : walk old new j h -> rule_at h0 a = Some r -> rule_at h a = Some r.
Proof. intros Hw. by eapply nb_only_rule; [apply Hw|]. Qed.

Lemma walk_earlier old new j h i a :
  walk old new j h -> covered i -> a ∈ A i -> a <> o /\ exists r, rule_at h a = Some r /\ earlier r ro.
Proof.
  intros Hw Hi Ha. destruct (HA i a Hi Ha) as (Hne & r & Hr & He). split; [done|]. exists r.
  split; [by eapply walk_rule|done].
Qed.

Lemma reads_last h kk p l X : chain (best h) p (l ++ X) -> reads kk h p -> reads (last_link kk l) h (hd_ptr X).
Proof.
  revert kk p. induction l as [|a l IH]; intros kk p Hc Hk.
  - simpl in Hc. by rewrite <- (chain_hd _ _ _ Hc).
  - rewrite last_link_cons. simpl in Hc. destruct Hc as (-> & Ha & q & Eq & Hq).
    eapply IH; [exact Hq|]. by apply reads_best.
Qed.

(** The entry's own link is set. *)
Lemma walk_set_object j h e :
  walk (tail false) (tail true) j h -> h !! o = Some (OEntry e) -> e_next_best e = 0 ->
  walk (tail false) (tail true) j (<[o := OEntry (set_next_best (hd_ptr T) e)]> h).
Proof.
  intros [Honly Hbest Hobj (t & Et & Hlen & Hslots)] Eo Enb. assert (Hota : o <> ta) by congruence.
  set (h1 := <[o := OEntry (set_next_best (hd_ptr T) e)]> h).
  assert (Eoo : best h1 o = Some (hd_ptr T)) by (unfold h1; by rewrite best_insert, decide_True).
  assert (Ene : forall b, b <> o -> best h1 b = best h b).
  { intros b Hb. unfold h1. by rewrite best_insert, decide_False. }
  split.
  - by apply nb_only_entry.
  - intros y Hy1 Hy2. rewrite Ene by done. by apply Hbest.
  - exists (hd_ptr T). auto.
  - exists t. split_and!; [unfold h1; by rewrite lookup_insert_ne|done|].
    intros i s1 Hi. destruct (Hslots i s1 Hi) as (s2 & E2 & Hother & Hout & Hin). exists s2. split_and!; [done..|].
    intros Hc. destruct (Hin Hc) as [H|[H1 H]]; [left|right; split; [done|]].
    + destruct (chain_split _ _ _ _ _ H) as (Eb & _). apply (chain_ext (best h)); [|done].
      intros b _. destruct (decide (b = o)) as [->|]; [by rewrite Eb|by apply Ene].
    + apply (chain_ext (best h)); [|done]. intros b Hb. apply Ene. intros ->.
      apply elem_of_app in Hb as [Hb|Hb]; [by destruct (HA _ _ Hc Hb)|done].
Qed.

Lemma walk_install_step j h :
  walk (tail false) (tail true) j h -> covered j ->
  own (trie_install_fn o (slot_link k ta j)) h (fun _ => walk (tail false) (tail true) (j + 1)).
Proof.
  intros Hw Hj. destruct (walk_slot _ _ _ _ Hw Hj) as (t & s & Et & Ebs & Es & Hc).
  pose proof (walk_rule _ _ _ _ _ _ Hw Hro) as Hro'.
  assert (Hk : reads (slot_link k ta j) h (slot_get k s)).
  { intros Q HQ. by eapply own_load_slot_link. }
  unfold trie_install_fn. ostep. apply own_fuel. intros fuel Hfuel. ostep. destruct Hc as [Hc|Hc].
  - pose proof (chain_size _ _ _ Hc) as Hsz. rewrite length_app in Hsz.
    eapply install_loop_old; [done|exact Hro'|exact Hc|exact Hk|lia| |].
    { intros a Ha. by eapply walk_earlier. }
    apply own_ret, walk_skip; [done..|]. intros t' s' Et' Es'. congruence.
  - pose proof (chain_size _ _ _ Hc) as Hsz. rewrite length_app in Hsz.
    eapply install_loop_new; [done|exact Hro'|exact Hc|exact Hk|lia| | |].
    { intros a Ha. by eapply walk_earlier. }
    { cbn [tail]. assert (Hlater : forall b, b ∈ T -> b <> o /\ exists r, rule_at h b = Some r /\ earlier ro r).
      { intros b Hb. destruct (HT b Hb) as (r & Hr & He). split; [by intros ->|]. exists r.
        split; [by eapply walk_rule|done]. }
      clear -Hlater. destruct T as [|b T']; [done|]. apply Hlater. by left. }
    cbv beta iota. ostep. apply (reads_last _ _ _ _ _ Hc Hk). simpl.
    destruct (rule_at_entry _ _ _ Hro') as (e & Ee & _). ostep. eapply own_load_entry; [done..|]. ostep.
    assert (HcT : chain (best h) (hd_ptr T) T).
    { destruct (list_snoc_case (A j)) as [EA|(B & x & EA)]; rewrite EA in Hc.
      - pose proof (chain_hd _ _ _ Hc) as Ehd. simpl in Hc, Ehd. by rewrite <- Ehd.
      - rewrite <- app_assoc in Hc. by apply chain_split in Hc as (_ & _ & ?). }
    destruct (wk_object _ _ _ _ Hw) as (v & Ev & Hv). unfold best in Ev. rewrite Ee in Ev. injection Ev as Ev.
    assert (Hwrite : forall h', walk (tail false) (tail true) j h' -> best h' o = Some (hd_ptr T) ->
        (forall b, b <> o -> best h' b = best h b) -> h' !! ta = h !! ta ->
        own (store_link (last_link (slot_link k ta j) (A j)) o) h'
          (fun _ => walk (tail false) (tail true) (j + 1))).
    { intros h' Hw' Hbo Hbne Hta'. apply (walk_write true j h'); [done..| | |auto].
      - apply (chain_ext (best h)); [|done]. intros b Hb. apply Hbne. by intros ->.
      - intros t' s' Et' Es'. rewrite Hta', Et in Et'. injection Et' as <-. rewrite Es in Es'. injection Es' as <-.
        apply (chain_ext (best h)); [|done]. intros b Hb. apply Hbne. intros ->.
        apply elem_of_app in Hb as [Hb|Hb]; [by destruct (HA _ _ Hj Hb)|done]. }
    apply own_if.
    + intros E0%Z.eqb_eq. eapply own_update_entry; [done..|]. apply Hwrite.
      * by apply walk_set_object.
      * by rewrite best_insert, decide_True.
      * intros b Hb. by rewrite best_insert, decide_False.
      * rewrite lookup_insert_ne; [done|congruence].
    + intros E0%Z.eqb_neq. destruct Hv as [Hv|Hv]; [congruence|]. apply own_massert.
      { apply orb_true_iff. left. apply Z.eqb_eq. congruence. }
      apply Hwrite; [done| |done..]. unfold best. rewrite Ee. congruence.
Qed.

Lemma walk_uninstall_step j h :
  walk (tail true) (tail false) j h -> covered j ->
  own (trie_uninstall_fn o (slot_link k ta j)) h (fun _ => walk (tail true) (tail false) (j + 1)).
Proof.
  intros Hw Hj. destruct (walk_slot _ _ _ _ Hw Hj) as (t & s & Et & Ebs & Es & Hc).
  assert (Hk : reads (slot_link k ta j) h (slot_get k s)).
  { intros Q HQ. by eapply own_load_slot_link. }
  assert (HoA : o ∉ A j) by (intros Ha; by destruct (HA _ _ Hj Ha)).
  unfold trie_uninstall_fn. ostep. apply own_fuel. intros fuel Hfuel.
  destruct Hc as [Hc|Hc]; pose proof (chain_size _ _ _ Hc) as Hsz; rewrite length_app in Hsz.
  - eapply uninstall_loop_absent; [exact Hc|exact Hk|rewrite length_app; lia| |].
    { rewrite elem_of_app. simpl. tauto. }
    apply walk_skip; [done..|]. intros t' s' Et' Es'. congruence.
  - destruct (chain_split _ _ _ _ _ Hc) as (Eo & _ & HcT).
    eapply uninstall_loop_found; [exact Hc|exact Hk|lia|done|exact Eo|].
    apply (walk_write false j h); [done..| |auto]. intros t' s' Et' Es'.
    rewrite Et in Et'. injection Et' as <-. rewrite Es in Es'. injection Es' as <-. exact Hc.
Qed.
End walk.
