(* ===== verification/PlistSlot.v ===== *)
(** * Where a rule is in the trie

    A rule of length [len] belongs to the table at depth [lvl len], whose path
    are the bytes of its prefix so far, and covers the slots that agree with
    it on the bits that are left. *)

From stdpp Require Import sorting.
From S2P Require Import Prelude SepLogic Own FrrPrefix FrrPrefixBits Plist PlistChain.

#[local] Open Scope Z_scope.

Abbreviation rules := (gmap Z rule).
Implicit Types (r : rule) (E : rules) (π : list Z).

Definition rlen r : Z := prefixlen (r_prefix r).
Definition rbytes r : list Z := u (r_prefix r).

(** Rules with the same number are the same rule. *)
Definition numbered E : Prop :=
  forall a b r r', E !! a = Some r -> E !! b = Some r' -> r_seq r = r_seq r' -> a = b.

Section slot.
Context (D : nat).

Definition lvl (len : Z) : nat := (D - 1) `min` Z.to_nat ((len - 1) / 8).
Definition vbits (len : Z) : Z := len - 8 * Z.of_nat (lvl len).
Definition rpath r : list Z := take (lvl (rlen r)) (rbytes r).
Definition rbyte r : Z := nth (lvl (rlen r)) (rbytes r) 0.
(** How many slots the rule covers *)
Definition width r : Z := 2 ^ (8 - vbits (rlen r)).

(** The rule is in the chain of kind [k] of the slot [i] of the table at [π]. *)
Definition in_slot (k : bool) r π (i : Z) : Prop :=
  rpath r = π /\
  if k then 8 < vbits (rlen r) /\ rbyte r = i
  else vbits (rlen r) <= 8 /\ rbyte r / width r = i / width r.
#[export] Instance in_slot_dec k r π i : Decision (in_slot k r π i).
Proof. unfold in_slot. destruct k; apply _. Defined.

(** No bits are set behind the prefix in the byte it ends in. *)
Record rule_ok r : Prop := {
  ro_wf : prefix_wf (r_prefix r);
  ro_len : rlen r <= 128;
  ro_aligned : vbits (rlen r) <= 8 -> rbyte r mod width r = 0
}.

(** *** Levels *)
Lemma lvl_le len : (lvl len <= D - 1)%nat.
Proof. unfold lvl. lia. Qed.

Lemma lvl_small len : len <= 128 -> (lvl len <= 15)%nat.
Proof.
  intros H. unfold lvl. pose proof (Z.div_le_mono (len - 1) 127 8 ltac:(lia) ltac:(lia)) as Hd.
  change (127 / 8) with 15 in Hd. lia.
Qed.

Lemma lvl_step (d : nat) len :
  (d <= lvl len)%nat -> 0 <= len ->
  (8 <? len - 8 * Z.of_nat d) = true /\ (d < D - 1)%nat <-> (d < lvl len)%nat.
Proof.
  intros Hd H0. unfold lvl in *. rewrite Z.ltb_lt.
  pose proof (Z.div_mod (len - 1) 8 ltac:(done)). pose proof (Z.mod_pos_bound (len - 1) 8 ltac:(done)). lia.
Qed.

Lemma vbits_nonneg len : 0 <= len -> 0 <= vbits len.
Proof.
  intros H. unfold vbits, lvl. pose proof (Z.div_mod (len - 1) 8 ltac:(done)).
  pose proof (Z.mod_pos_bound (len - 1) 8 ltac:(done)). lia.
Qed.

Lemma vbits_last len : 0 <= len -> 8 < vbits len -> lvl len = (D - 1)%nat.
Proof.
  intros H0. unfold vbits, lvl. pose proof (Z.div_mod (len - 1) 8 ltac:(done)).
  pose proof (Z.mod_pos_bound (len - 1) 8 ltac:(done)). lia.
Qed.

Lemma rpath_length r : prefix_wf (r_prefix r) -> rlen r <= 128 -> length (rpath r) = lvl (rlen r).
Proof.
  intros Hw Hl. unfold rpath, rbytes. rewrite length_take, (pw_size _ Hw). pose proof (lvl_small _ Hl). lia.
Qed.

Lemma rbyte_lookup r :
  prefix_wf (r_prefix r) -> rlen r <= 128 -> rbytes r !! lvl (rlen r) = Some (rbyte r) /\ is_byte (rbyte r).
Proof.
  intros Hw Hl. pose proof (lvl_small _ Hl).
  destruct (lookup_lt_is_Some_2 (rbytes r) (lvl (rlen r))) as [x Ex].
  { unfold rbytes. rewrite (pw_size _ Hw). lia. }
  unfold rbyte. rewrite (nth_lookup_Some _ _ _ _ Ex). split; [done|].
  by apply (proj1 (Forall_lookup _ _) (pw_bytes _ Hw) _ _ Ex).
Qed.

(** *** The slots a rule covers *)
Definition first_slot r : Z := rbyte r.
Definition slots r : nat := if decide (8 < vbits (rlen r)) then 1%nat else Z.to_nat (width r).
Definition kind r : bool := bool_decide (8 < vbits (rlen r)).

Lemma width_pos r : 0 <= rlen r -> vbits (rlen r) <= 8 -> 0 < width r <= 256 /\ width r * 2 ^ vbits (rlen r) = 256.
Proof.
  intros H0 Hv. unfold width. pose proof (vbits_nonneg _ H0).
  assert (E : 2 ^ (8 - vbits (rlen r)) * 2 ^ vbits (rlen r) = 256).
  { rewrite <- Z.pow_add_r by lia. by replace (8 - vbits (rlen r) + vbits (rlen r)) with 8 by lia. }
  assert (0 < 2 ^ (8 - vbits (rlen r))) by (apply Z.pow_pos_nonneg; lia).
  assert (0 < 2 ^ vbits (rlen r)) by (apply Z.pow_pos_nonneg; lia). split; [nia|done].
Qed.

Lemma div_range x w i : 0 < w -> x mod w = 0 -> x / w = i / w <-> x <= i < x + w.
Proof.
  intros Hw Hx. pose proof (Z.div_mod x w ltac:(lia)) as Ex. rewrite Hx, Z.add_0_r in Ex.
  pose proof (Z.div_mod i w ltac:(lia)) as Ei. pose proof (Z.mod_pos_bound i w Hw). split.
  - intros E. rewrite E in Ex. lia.
  - intros H0. apply (Z.div_unique i w (x / w) (i - x)); [left; lia|]. rewrite <- Ex. lia.
Qed.

Lemma in_slot_covered r i :
  rule_ok r -> in_slot (kind r) r (rpath r) i <-> first_slot r <= i < first_slot r + Z.of_nat (slots r).
Proof.
  intros [Hw Hl Ha]. unfold in_slot, kind, slots, first_slot. destruct (pw_len _ Hw) as [H0 _].
  case_bool_decide as Hv.
  - rewrite decide_True by done. split; [lia|]. intros H. split_and!; [done|done|lia].
  - rewrite decide_False by done. destruct (width_pos r H0 ltac:(lia)) as [Hp _].
    rewrite div_range by (try apply Ha; lia). rewrite Z2Nat.id by lia.
    split; [tauto|]. intros H. split; [done|]. split; [lia|done].
Qed.

Lemma slots_bound r : rule_ok r -> 0 <= first_slot r /\ first_slot r + Z.of_nat (slots r) <= 256.
Proof.
  intros [Hw Hl Ha]. destruct (pw_len _ Hw) as [H0 _]. destruct (rbyte_lookup r Hw Hl) as [_ Hb].
  unfold first_slot, slots, is_byte in *. case_decide as Hv; [lia|].
  destruct (width_pos r H0 ltac:(lia)) as [Hp Ep]. specialize (Ha ltac:(lia)).
  pose proof (Z.div_mod (rbyte r) (width r) ltac:(lia)) as E. rewrite Ha, Z.add_0_r in E.
  pose proof (vbits_nonneg (rlen r) H0). assert (0 < 2 ^ vbits (rlen r)) by (apply Z.pow_pos_nonneg; lia).
  assert (rbyte r / width r < 2 ^ vbits (rlen r)) by (apply Z.div_lt_upper_bound; [lia|]; rewrite Ep; lia).
  rewrite Z2Nat.id by lia. nia.
Qed.

Lemma slots_pos r : rule_ok r -> (0 < slots r)%nat.
Proof.
  intros [Hw Hl Ha]. destruct (pw_len _ Hw) as [H0 _]. unfold slots. case_decide; [lia|].
  destruct (width_pos r H0 ltac:(lia)). lia.
Qed.

(** A rule of a slot that is not longer than [r] is in all slots of [r]. *)
Lemma in_slot_kind r k π i : in_slot k r π i -> k = kind r /\ π = rpath r.
Proof. unfold in_slot, kind. destruct k; intros (<- & H & _); (split; [|done]); symmetry; [by apply bool_decide_eq_true|apply bool_decide_eq_false; lia]. Qed.

Lemma in_slot_shorter k rx r π i j :
  rule_ok rx -> rule_ok r -> rlen rx <= rlen r ->
  in_slot k rx π i -> in_slot k r π i -> in_slot k r π j -> in_slot k rx π j.
Proof.
  intros [Hwx Hlx _] [Hw Hl _] Hle (Epx & Hx) (Ep & Hi) (_ & Hj). split; [done|].
  assert (Elvl : lvl (rlen rx) = lvl (rlen r)).
  { rewrite <- !rpath_length by done. congruence. }
  destruct k; [destruct Hx as [? Hx], Hi as [_ Hi], Hj as [_ Hj]; split; [done|congruence]|].
  destruct Hx as [Hvx Hx], Hi as [Hv Hi], Hj as [_ Hj]. split; [done|]. rewrite Hx.
  destruct (pw_len _ Hwx) as [H0x _]. destruct (pw_len _ Hw) as [H0 _]. fold (rlen rx) in H0x. fold (rlen r) in H0.
  assert (Hd : exists c, 0 < c /\ width rx = width r * c).
  { exists (2 ^ (vbits (rlen r) - vbits (rlen rx))).
    assert (vbits (rlen rx) <= vbits (rlen r)) by (unfold vbits; lia).
    split; [apply Z.pow_pos_nonneg; lia|]. unfold width. rewrite <- Z.pow_add_r by lia. f_equal. lia. }
  destruct Hd as (c & Hc & ->). destruct (width_pos r H0 Hv) as [Hp _].
  rewrite <- !Z.div_div by lia. congruence.
Qed.

(** *** The rules of a slot, in the order of its chain *)
Definition le_rule (x y : Z * rule) : Prop :=
  rlen y.2 < rlen x.2 \/ rlen x.2 = rlen y.2 /\ r_seq x.2 <= r_seq y.2.
#[export] Instance le_rule_dec x y : Decision (le_rule x y).
Proof. unfold le_rule. apply _. Defined.
#[export] Instance le_rule_trans : Transitive le_rule.
Proof. intros x y z. unfold le_rule. lia. Qed.
#[export] Instance le_rule_total : Total le_rule.
Proof. intros x y. unfold le_rule. lia. Qed.

Definition slot_rules (k : bool) E π (i : Z) : list (Z * rule) :=
  merge_sort le_rule (filter (fun x => in_slot k x.2 π i) (map_to_list E)).

Lemma slot_rules_elem k E π i x :
  x ∈ slot_rules k E π i <-> E !! x.1 = Some x.2 /\ in_slot k x.2 π i.
Proof.
  unfold slot_rules. rewrite merge_sort_Permutation, list_elem_of_filter. destruct x as [a r].
  rewrite elem_of_map_to_list. simpl. tauto.
Qed.
Lemma slot_rules_sorted k E π i : StronglySorted le_rule (slot_rules k E π i).
Proof. apply StronglySorted_merge_sort; apply _. Qed.
Lemma slot_rules_NoDup k E π i : NoDup (slot_rules k E π i).
Proof. unfold slot_rules. rewrite merge_sort_Permutation. apply NoDup_filter, NoDup_map_to_list. Qed.

Lemma slot_rules_unique k E π i l :
  numbered E -> StronglySorted le_rule l -> NoDup l ->
  (forall x, x ∈ l <-> E !! x.1 = Some x.2 /\ in_slot k x.2 π i) -> l = slot_rules k E π i.
Proof.
  intros Hn Hs Hd Hl. apply (StronglySorted_unique_strong le_rule); [|done|apply slot_rules_sorted|].
  - intros [a r] [b r'] Hx [Hy _]%slot_rules_elem H1 H2. apply Hl in Hx as [Hx _]. simpl in *.
    assert (a = b); [|congruence]. eapply Hn; [done..|]. unfold le_rule in *. simpl in *. lia.
  - apply NoDup_Permutation; [done|apply slot_rules_NoDup|]. intros x. by rewrite Hl, slot_rules_elem.
Qed.

Lemma rules_sorted_filter (P : Z * rule -> Prop) `{!forall x, Decision (P x)} l :
  StronglySorted le_rule l -> StronglySorted le_rule (filter P l).
Proof.
  induction 1 as [|x l Hs IH Hx]; [constructor|]. rewrite filter_cons. case_decide; [|done].
  constructor; [done|]. apply Forall_forall. intros y [_ Hy]%list_elem_of_filter.
  by apply (proj1 (Forall_forall _ _) Hx).
Qed.

(** A new rule [r] at [a] splits the chains it enters. *)
Definition before (r : rule) (x : Z * rule) : Prop := earlier x.2 r.
#[export] Instance before_dec r x : Decision (before r x).
Proof. unfold before, earlier. apply _. Defined.

Definition slot_before k E r π i : list (Z * rule) := filter (before r) (slot_rules k E π i).
Definition slot_after k E r π i : list (Z * rule) := filter (fun x => ~ before r x) (slot_rules k E π i).

Lemma slot_rules_split k E r π i :
  numbered E -> slot_rules k E π i = slot_before k E r π i ++ slot_after k E r π i.
Proof.
  intros Hn. symmetry. apply slot_rules_unique; [done| | |].
  - apply StronglySorted_app_2; [|apply rules_sorted_filter, slot_rules_sorted..].
    intros x y [Hx _]%list_elem_of_filter [Hy _]%list_elem_of_filter. unfold before, earlier, le_rule, rlen in *. lia.
  - apply NoDup_app. split_and!; [apply NoDup_filter, slot_rules_NoDup| |apply NoDup_filter, slot_rules_NoDup].
    intros x [Hx _]%list_elem_of_filter [Hy _]%list_elem_of_filter. done.
  - intros x. unfold slot_before, slot_after. rewrite elem_of_app, !list_elem_of_filter, slot_rules_elem.
    destruct (decide (before r x)); tauto.
Qed.

Lemma numbered_later E r x :
  (forall y r', E !! y = Some r' -> r_seq r' <> r_seq r) -> E !! x.1 = Some x.2 -> ~ before r x -> earlier r x.2.
Proof. intros Hs Hx Hb. specialize (Hs _ _ Hx). unfold before, earlier in *. lia. Qed.

Lemma slot_rules_insert k E a r π i :
  numbered (<[a := r]> E) -> E !! a = None -> in_slot k r π i ->
  slot_rules k (<[a := r]> E) π i = slot_before k E r π i ++ (a, r) :: slot_after k E r π i.
Proof.
  intros Hn Ha Hin. symmetry.
  assert (Hs : forall y r', E !! y = Some r' -> r_seq r' <> r_seq r).
  { intros y r' Hy Heq. assert (y = a); [|congruence]. eapply Hn; [|apply lookup_insert_eq|exact Heq].
    rewrite lookup_insert_ne; [done|congruence]. }
  assert (Hne : forall x, x ∈ slot_rules k E π i -> x.1 <> a).
  { intros x [Hx _]%slot_rules_elem E1. rewrite E1 in Hx. congruence. }
  apply slot_rules_unique; [done| | |].
  - apply StronglySorted_app_2; [|apply rules_sorted_filter, slot_rules_sorted|].
    + intros x y [Hx _]%list_elem_of_filter [->|[Hy _]%list_elem_of_filter]%elem_of_cons;
        unfold before, earlier, le_rule, rlen in *; simpl; lia.
    + constructor; [apply rules_sorted_filter, slot_rules_sorted|]. apply Forall_forall.
      intros y [Hy [Hyin _]%slot_rules_elem]%list_elem_of_filter. pose proof (numbered_later E r y Hs Hyin Hy) as He.
      unfold earlier, le_rule, rlen in *. simpl. lia.
  - apply NoDup_app. split_and!; [apply NoDup_filter, slot_rules_NoDup| |].
    + intros x [Hx Hin']%list_elem_of_filter [->|[Hy _]%list_elem_of_filter]%elem_of_cons; [|done]. by apply Hne in Hin'.
    + constructor; [|apply NoDup_filter, slot_rules_NoDup]. intros [_ Hin']%list_elem_of_filter. by apply Hne in Hin'.
  - intros [b rb]. unfold slot_before, slot_after. rewrite elem_of_app, elem_of_cons, !list_elem_of_filter, slot_rules_elem. simpl.
    destruct (decide (b = a)) as [->|Hb].
    + rewrite lookup_insert_eq. split; [intros [(_ & E1 & _)|[E1|(_ & E1 & _)]]; [congruence| |congruence]|].
      * injection E1 as ->. done.
      * intros [[= <-] _]. right. by left.
    + rewrite lookup_insert_ne by done. destruct (decide (before r (b, rb))); split; try tauto;
        intros [?|[?|?]]; try tauto; congruence.
Qed.

Lemma slot_rules_other k E a r π i :
  ~ in_slot k r π i -> E !! a = None -> numbered (<[a := r]> E) ->
  slot_rules k (<[a := r]> E) π i = slot_rules k E π i.
Proof.
  intros Hout Ha Hn. symmetry. apply slot_rules_unique; [done|apply slot_rules_sorted|apply slot_rules_NoDup|].
  intros [b rb]. rewrite slot_rules_elem. simpl. destruct (decide (b = a)) as [->|Hb].
  - rewrite lookup_insert_eq. split; [intros []; congruence|]. by intros [[= <-] ?].
  - by rewrite lookup_insert_ne.
Qed.

(** The rules behind [r] are the same in all its slots. *)
Lemma slot_after_same k E r π i j :
  numbered E -> (forall b rb, E !! b = Some rb -> rule_ok rb) -> rule_ok r ->
  in_slot k r π i -> in_slot k r π j -> slot_after k E r π i = slot_after k E r π j.
Proof.
  intros Hn Hok Hr Hi Hj.
  assert (Hsame : forall i j x, in_slot k r π i -> in_slot k r π j ->
      x ∈ slot_after k E r π i -> x ∈ slot_after k E r π j).
  { clear i j Hi Hj. intros i j x Hi Hj [Hx [HxE Hxi]%slot_rules_elem]%list_elem_of_filter.
    apply list_elem_of_filter. split; [done|]. apply slot_rules_elem. split; [done|].
    eapply in_slot_shorter; [by eapply Hok|exact Hr| |done..].
    unfold before, earlier, rlen in *. lia. }
  apply (StronglySorted_unique_strong le_rule); [|apply rules_sorted_filter, slot_rules_sorted..|].
  - intros x y [_ [Hx _]%slot_rules_elem]%list_elem_of_filter [_ [Hy _]%slot_rules_elem]%list_elem_of_filter H1 H2.
    destruct x as [a ra], y as [b rb]. simpl in *.
    assert (a = b); [|congruence]. eapply Hn; [done..|]. unfold le_rule in *. simpl in *. lia.
  - apply NoDup_Permutation; [apply NoDup_filter, slot_rules_NoDup..|]. intros x.
    split; by apply Hsame.
Qed.
End slot.
