(* ===== verification/PlistTrie.v ===== *)
(** * The trie of a prefix list

    [trie_ok h root E ex tabs]: the tables of the part [h] of memory are the
    trie of the rules [E].  [tabs] gives the table of each path; there is one
    for every path that a rule goes through, and for the initial segments of
    [ex], the path that is being worked on.  The chain of each slot is the
    sorted list of the rules that belong to it. *)

From S2P Require Import Prelude SepLogic Heap Own FrrPrefix FrrPrefixBits Plist PlistChain PlistWalk PlistSlot.

#[local] Open Scope Z_scope.

(** What an operation on the trie may change: the links [next_best] and the
    tables *)
Definition trie_frame (h h' : pmem) : Prop :=
  forall x,
  match h !! x with
  | Some (OEntry e) => exists v, h' !! x = Some (OEntry (set_next_best v e))
  | Some (OTable _) | None => h' !! x = None \/ exists t, h' !! x = Some (OTable t)
  | o => h' !! x = o
  end.

Lemma trie_frame_refl h : trie_frame h h.
Proof.
  intros x. destruct (h !! x) as [[e| | |]|]; try done; [|by right; eexists|by left].
  exists (e_next_best e). by destruct e.
Qed.

Lemma trie_frame_trans h1 h2 h3 : trie_frame h1 h2 -> trie_frame h2 h3 -> trie_frame h1 h3.
Proof.
  intros H1 H2 x. specialize (H1 x). specialize (H2 x). destruct (h1 !! x) as [[e|t|l|m]|].
  - destruct H1 as (v & E). rewrite E in H2. destruct H2 as (w & E2). by exists w.
  - destruct H1 as [E|(t' & E)]; by rewrite E in H2.
  - by rewrite H1 in H2.
  - by rewrite H1 in H2.
  - destruct H1 as [E|(t' & E)]; by rewrite E in H2.
Qed.

(** Only tables *)
Definition table_frame (h h' : pmem) : Prop :=
  forall x,
  match h !! x with
  | Some (OTable _) | None => h' !! x = None \/ exists t, h' !! x = Some (OTable t)
  | o => h' !! x = o
  end.

Lemma table_frame_refl h : table_frame h h.
Proof. intros x. destruct (h !! x) as [[e| | |]|]; try done; [by right; eexists|by left]. Qed.

Lemma table_frame_trans h1 h2 h3 : table_frame h1 h2 -> table_frame h2 h3 -> table_frame h1 h3.
Proof.
  intros H1 H2 x. specialize (H1 x). specialize (H2 x). destruct (h1 !! x) as [[e|t|l|m]|];
    try (by rewrite H1 in H2); destruct H1 as [E|(t' & E)]; by rewrite E in H2.
Qed.

Lemma table_frame_alter h a o t :
  match h !! a with None | Some (OTable _) => True | _ => False end ->
  o = Some (OTable t) \/ o = None -> table_frame h (partial_alter (fun _ => o) a h).
Proof.
  intros Ha Ho x. destruct (decide (x = a)) as [->|Hne].
  - rewrite lookup_partial_alter_eq. destruct (h !! a) as [[]|]; naive_solver.
  - rewrite lookup_partial_alter_ne by done. apply table_frame_refl.
Qed.

Lemma table_frame_trie h h' : table_frame h h' -> trie_frame h h'.
Proof.
  intros H x. specialize (H x). destruct (h !! x) as [[e| | |]|]; try done. exists (e_next_best e). by destruct e.
Qed.

Lemma table_frame_best h h' a : table_frame h h' -> best h' a = best h a.
Proof.
  intros H. specialize (H a). unfold best. destruct (h !! a) as [[e|t| |]|]; try by rewrite H.
  all: by destruct H as [->|(? & ->)].
Qed.

Lemma table_frame_entry h h' a e : table_frame h h' -> h !! a = Some (OEntry e) -> h' !! a = Some (OEntry e).
Proof. intros H Ha. specialize (H a). by rewrite Ha in H. Qed.

Lemma nb_only_frame ta h h' t t' :
  nb_only ta h h' -> h !! ta = Some (OTable t) -> h' !! ta = Some (OTable t') -> trie_frame h h'.
Proof.
  intros H E E' x. destruct (decide (x = ta)) as [->|Hne]; [rewrite E; right; by exists t'|].
  specialize (H x Hne). destruct (h !! x) as [[]|]; [done|right; by eexists|done..|by left].
Qed.

Lemma trie_frame_rule h h' a r : trie_frame h h' -> rule_at h a = Some r -> rule_at h' a = Some r.
Proof.
  intros H Hr. destruct (rule_at_entry _ _ _ Hr) as (e & Ee & <-). specialize (H a). rewrite Ee in H.
  destruct H as (v & Ev). unfold rule_at. by rewrite Ev.
Qed.

Section trie.
Context (D : nat) (HD : (1 <= D)%nat).
Implicit Types tabs : gmap (list Z) Z.

Definition chain_ptrs k E π i : list Z := (slot_rules D k E π i).*1.

Definition slot_ok (h : pmem) E tabs π (i : nat) (s : pltrie_entry) : Prop :=
  chain (best h) (up_chain s) (chain_ptrs false E π (Z.of_nat i)) /\
  if decide (S (length π) < D)%nat
  then next_table s = default 0 (tabs !! (π ++ [Z.of_nat i]))
  else chain (best h) (next_table s) (chain_ptrs true E π (Z.of_nat i)).

Record trie_ok (h : pmem) (root : Z) E (ex : list Z) tabs : Prop := {
  to_root : tabs !! [] = Some root;
  to_dom : forall π, is_Some (tabs !! π) <->
    π = [] \/ π `prefix_of` ex \/ exists a r, E !! a = Some r /\ π `prefix_of` rpath D r;
  to_inj : forall π1 π2 a, tabs !! π1 = Some a -> tabs !! π2 = Some a -> π1 = π2;
  to_table : forall π a, tabs !! π = Some a -> a <> 0 /\ exists t, h !! a = Some (OTable t) /\
    length t = PLC_LEN /\ forall i s, t !! i = Some s -> slot_ok h E tabs π i s;
  to_all : forall a t, h !! a = Some (OTable t) -> exists π, tabs !! π = Some a;
  to_rules : forall a r, E !! a = Some r -> a <> 0 /\ rule_at h a = Some r /\ rule_ok D r;
  to_numbered : numbered E
}.

Lemma slot_ok_ext h h' E tabs tabs' π i s :
  (forall a, best h' a = best h a) ->
  ((S (length π) < D)%nat -> tabs' !! (π ++ [Z.of_nat i]) = tabs !! (π ++ [Z.of_nat i])) ->
  slot_ok h E tabs π i s -> slot_ok h' E tabs' π i s.
Proof.
  intros Hb Ht [H1 H2]. split; [by apply (chain_ext (best h))|]. case_decide; [by rewrite Ht|by apply (chain_ext (best h))].
Qed.

Lemma chain_ptrs_nil k E π i : (forall a r, E !! a = Some r -> ~ in_slot D k r π i) -> chain_ptrs k E π i = [].
Proof.
  intros H. unfold chain_ptrs. destruct (slot_rules D k E π i) as [|x l] eqn:El; [done|].
  assert (Hx : x ∈ slot_rules D k E π i) by (rewrite El; by left).
  apply slot_rules_elem in Hx as [Hx1 Hx2]. by destruct (H _ _ Hx1).
Qed.

Lemma to_dom_passed h root E ex tabs π b :
  trie_ok h root E ex tabs -> is_Some (tabs !! (π ++ [b])) -> is_Some (tabs !! π).
Proof.
  intros H Hb. apply (to_dom _ _ _ _ _ H) in Hb. apply (to_dom _ _ _ _ _ H).
  destruct Hb as [Hb|[Hb|(a & r & Ha & Hb)]]; [by destruct π| |].
  - right. left. etrans; [|exact Hb]. by apply prefix_app_r.
  - right. right. exists a, r. split; [done|]. etrans; [|exact Hb]. by apply prefix_app_r.
Qed.

(** *** A table is opened *)
Definition zero_table : list pltrie_entry := replicate PLC_LEN (TrieSlot 0 0).

Lemma trie_open h root E π ta t s (b : Z) tabs new :
  trie_ok h root E π tabs -> tabs !! π = Some ta -> h !! ta = Some (OTable t) ->
  t !! Z.to_nat b = Some s -> is_byte b -> tabs !! (π ++ [b]) = None -> (S (length π) < D)%nat ->
  h !! new = None -> new <> 0 ->
  trie_ok (<[ta := OTable (<[Z.to_nat b := set_next_table new s]> t)]> (<[new := OTable zero_table]> h))
    root E (π ++ [b]) (<[π ++ [b] := new]> tabs).
Proof.
  intros H Hπ Ht Hs Hb Hnone HlD Hnew Hnew0. unfold is_byte in Hb.
  assert (Hne : new <> ta) by congruence.
  assert (Hpass : forall a r, E !! a = Some r -> ~ π ++ [b] `prefix_of` rpath D r).
  { intros a r Ha Hp. assert (is_Some (tabs !! (π ++ [b]))) as [? ?]; [|congruence].
    apply (to_dom _ _ _ _ _ H). right. right. eauto. }
  set (h' := <[ta := _]> _).
  assert (Hbest : forall a, best h' a = best h a).
  { intros a. unfold h'. rewrite best_table by (rewrite lookup_insert_ne; congruence). apply best_table. congruence. }
  assert (Hta : h' !! ta = Some (OTable (<[Z.to_nat b := set_next_table new s]> t))) by (unfold h'; by rewrite lookup_insert_eq).
  assert (Hn' : h' !! new = Some (OTable zero_table)) by (unfold h'; by rewrite lookup_insert_ne, lookup_insert_eq).
  assert (Hx' : forall x, x <> ta -> x <> new -> h' !! x = h !! x) by (intros x ? ?; unfold h'; by rewrite !lookup_insert_ne).
  split.
  - rewrite lookup_insert_ne; [apply H|]. by destruct π.
  - intros π'. destruct (decide (π' = π ++ [b])) as [->|Hp].
    + rewrite lookup_insert_eq. split; [|by eexists]. intros _. right. by left.
    + rewrite lookup_insert_ne by done. rewrite (to_dom _ _ _ _ _ H). split; intros [?|[Hc|?]]; try tauto.
      * right. left. by apply prefix_app_r.
      * right. left. destruct Hc as [k Hk]. destruct (list_snoc_case k) as [->|(k' & y & ->)].
        -- rewrite app_nil_r in Hk. done.
        -- rewrite app_assoc in Hk. apply app_inj_2 in Hk as [-> _]; [|done]. by exists k'.
  - intros π1 π2 a. assert (Hin : forall π', tabs !! π' <> Some new).
    { intros π' Hp. destruct (to_table _ _ _ _ _ H _ _ Hp) as (_ & t' & Ht' & _). congruence. }
    destruct (decide (π1 = π ++ [b])) as [->|H1], (decide (π2 = π ++ [b])) as [->|H2];
      rewrite ?lookup_insert_eq, ?lookup_insert_ne by done; intros Ha1 Ha2; [done|exfalso..|].
    + injection Ha1 as <-. by apply (Hin π2).
    + injection Ha2 as <-. by apply (Hin π1).
    + by eapply (to_inj _ _ _ _ _ H).
  - intros π' a Ha. destruct (decide (π' = π ++ [b])) as [->|Hp].
    + rewrite lookup_insert_eq in Ha. injection Ha as <-. split; [done|]. exists zero_table. split; [done|].
      split; [apply length_replicate|]. intros i s' [-> _]%lookup_replicate. split; simpl.
      * rewrite chain_ptrs_nil; [done|]. intros a r Ha [Hr _]. apply (Hpass _ _ Ha). by rewrite Hr.
      * case_decide as Hl.
        -- rewrite lookup_insert_ne.
           2:{ intros E1. apply (f_equal length) in E1. rewrite !length_app in E1. simpl in E1. lia. }
           destruct (tabs !! ((π ++ [b]) ++ [Z.of_nat i])) eqn:E1; [|done]. exfalso.
           assert (is_Some (tabs !! (π ++ [b]))) as [? ?]; [|congruence]. by apply (to_dom_passed _ _ _ _ _ _ (Z.of_nat i) H); rewrite E1.
        -- rewrite chain_ptrs_nil; [done|]. intros a r Ha [Hr _]. apply (Hpass _ _ Ha). by rewrite Hr.
    + rewrite lookup_insert_ne in Ha by done. destruct (to_table _ _ _ _ _ H _ _ Ha) as (Ha0 & t' & Ht' & Hl' & Hs').
      split; [done|]. destruct (decide (a = ta)) as [->|Hne'].
      * assert (π' = π) as -> by (by eapply (to_inj _ _ _ _ _ H)). rewrite Ht in Ht'. injection Ht' as <-.
        eexists. split; [exact Hta|]. split; [by rewrite length_insert|]. intros i s' Hi.
        destruct (decide (i = Z.to_nat b)) as [->|Hib].
        -- rewrite list_lookup_insert_eq in Hi by by eapply lookup_lt_Some. injection Hi as <-.
           destruct (Hs' _ _ Hs) as [Hc _]. split; simpl; [by apply (chain_ext (best h))|].
           rewrite decide_True by done. by rewrite Z2Nat.id, lookup_insert_eq by lia.
        -- rewrite list_lookup_insert_ne in Hi by done. eapply slot_ok_ext; [exact Hbest| |by apply Hs'].
           intros _. rewrite lookup_insert_ne; [done|]. intros E1. apply app_inj_2 in E1 as [_ E1]; [|done].
           injection E1 as ->. by rewrite Nat2Z.id in Hib.
      * exists t'. rewrite Hx' by congruence. split_and!; [done..|]. intros i s' Hi.
        eapply slot_ok_ext; [exact Hbest| |by apply Hs']. intros _. rewrite lookup_insert_ne; [done|].
        intros E1. apply app_inj_2 in E1 as [-> _]; [|done]. congruence.
  - intros a t' Ha. destruct (decide (a = new)) as [->|]; [exists (π ++ [b]); by rewrite lookup_insert_eq|].
    assert (exists t0, h !! a = Some (OTable t0)) as [t0 Ha0].
    { destruct (decide (a = ta)) as [->|]; [eauto|]. rewrite Hx' in Ha by done. eauto. }
    destruct (to_all _ _ _ _ _ H _ _ Ha0) as [π' Hp]. exists π'. rewrite lookup_insert_ne; [done|]. congruence.
  - intros a r Ha. destruct (to_rules _ _ _ _ _ H _ _ Ha) as (Ha0 & Hr & Hok). split_and!; [done| |done].
    destruct (rule_at_entry _ _ _ Hr) as (e & Ee & _). unfold rule_at. rewrite Hx' by congruence. exact Hr.
  - apply H.
Qed.

(** A table that is there *)
Lemma trie_enter h root E ex π b tabs :
  trie_ok h root E π tabs -> ex = π ++ [b] -> is_Some (tabs !! ex) -> trie_ok h root E ex tabs.
Proof.
  intros H -> Hs. split; try apply H. intros π'. rewrite (to_dom _ _ _ _ _ H). split; intros [?|[Hc|?]]; try tauto.
  - right. left. by apply prefix_app_r.
  - destruct Hc as [k Hk]. destruct (list_snoc_case k) as [->|(k' & y & ->)].
    + rewrite app_nil_r in Hk. subst π'. by apply (to_dom _ _ _ _ _ H).
    + rewrite app_assoc in Hk. apply app_inj_2 in Hk as [-> _]; [|done]. right. left. by exists k'.
Qed.

(** *** The bytes on the way *)
Section descend.
Context (r : rule) (Hw : prefix_wf (r_prefix r)) (Hl : rlen r <= 128).
Abbreviation path_to d := (take d (rbytes r)).

Lemma length_path_to d : (d <= lvl D (rlen r))%nat -> length (path_to d) = d.
Proof. intros H. unfold rbytes. rewrite length_take, (pw_size _ Hw). pose proof (lvl_small D _ Hl). lia. Qed.

Lemma path_byte d :
  (d <= lvl D (rlen r))%nat ->
  exists b, byte (rbytes r) (Z.of_nat d) = Ret b /\ is_byte b /\ path_to (S d) = path_to d ++ [b].
Proof.
  intros H. pose proof (lvl_small D _ Hl). destruct (lookup_lt_is_Some_2 (rbytes r) d) as [b Eb].
  { unfold rbytes. rewrite (pw_size _ Hw). lia. }
  exists b. split_and!; [by apply byte_lookup|by apply (proj1 (Forall_lookup _ _) (pw_bytes _ Hw) _ _ Eb)|by apply take_S_r].
Qed.

Lemma last_byte : byte (rbytes r) (Z.of_nat (lvl D (rlen r))) = Ret (rbyte D r).
Proof. apply byte_lookup. by apply rbyte_lookup. Qed.

Lemma level_test (d : nat) :
  (d <= lvl D (rlen r))%nat ->
  (8 <? rlen r - 8 * Z.of_nat d) = true -> (d < D - 1)%nat -> (d < lvl D (rlen r))%nat.
Proof. intros Hd H1 H2. apply lvl_step; [done|apply (pw_len _ Hw)|done]. Qed.
Lemma level_end (d : nat) :
  (d <= lvl D (rlen r))%nat -> (8 <? rlen r - 8 * Z.of_nat d) = false \/ (D - 1 <= d)%nat -> d = lvl D (rlen r).
Proof.
  intros Hd H. destruct (decide (d = lvl D (rlen r))); [done|].
  destruct (proj2 (lvl_step D d (rlen r) Hd (proj1 (pw_len _ Hw)))) as [H1 H2]; [lia|].
  destruct H as [H|H]; [congruence|lia].
Qed.

(** The slot on the way down *)
Lemma slot_on_path h root E ex tabs d ta b :
  trie_ok h root E ex tabs -> tabs !! path_to d = Some ta -> is_byte b -> (d < lvl D (rlen r))%nat ->
  exists t s, h !! ta = Some (OTable t) /\ ta <> 0 /\ block_get t b = Some s /\ t !! Z.to_nat b = Some s /\
    next_table s = default 0 (tabs !! (path_to d ++ [b])).
Proof.
  intros H Hd Hb Hlt. unfold is_byte in Hb. destruct (to_table _ _ _ _ _ H _ _ Hd) as (H0 & t & Et & Elen & Hs).
  destruct (lookup_lt_is_Some_2 t (Z.to_nat b)) as [s Es]; [unfold PLC_LEN in Elen; lia|].
  exists t, s. rewrite block_get_lookup by lia. split_and!; [done..|].
  destruct (Hs _ _ Es) as [_ Hn]. rewrite length_path_to in Hn by lia. pose proof (lvl_le D (rlen r)).
  rewrite decide_True, Z2Nat.id in Hn by lia. done.
Qed.

Context (place : pmem -> Z -> Z) `{!Placement place}.

Lemma own_add_descend fuel d ta h root E tabs Q :
  fuel = (D - 1 - d)%nat -> (d <= lvl D (rlen r))%nat ->
  trie_ok h root E (path_to d) tabs -> tabs !! path_to d = Some ta ->
  (forall h' tabs' ta', trie_ok h' root E (rpath D r) tabs' -> tabs' !! rpath D r = Some ta' -> table_frame h h' ->
     Q (ta', Z.of_nat (lvl D (rlen r)), vbits D (rlen r)) h') ->
  own (trie_add_descend place fuel ta (rbytes r) (Z.of_nat d) (rlen r - 8 * Z.of_nat d)) h Q.
Proof.
  revert d ta h tabs. induction fuel as [|fuel IH]; intros d ta h tabs Ef Hd H Hta HQ; cbn [trie_add_descend].
  { assert (d = lvl D (rlen r)) as -> by (apply level_end; [done|right; lia]). apply own_ret. eapply HQ; [exact H|exact Hta|apply table_frame_refl]. }
  unfold PLC_BITS. destruct (8 <? rlen r - 8 * Z.of_nat d) eqn:Ebits.
  2:{ assert (d = lvl D (rlen r)) as -> by (apply level_end; auto). apply own_ret. eapply HQ; [exact H|exact Hta|apply table_frame_refl]. }
  pose proof (level_test d Hd Ebits ltac:(lia)) as Hlt.
  destruct (path_byte d Hd) as (b & Eb & Hb & Epath). pose proof (lvl_le D (rlen r)) as HlD.
  destruct (slot_on_path _ _ _ _ _ _ _ _ H Hta Hb Hlt) as (t & s & Et & Hta0 & Ebs & Es & En).
  assert (HS : (S d <= lvl D (rlen r))%nat) by lia. assert (Hb' := Hb). unfold is_byte in Hb'.
  replace (Z.of_nat d + 1) with (Z.of_nat (S d)) by lia.
  replace (rlen r - 8 * Z.of_nat d - 8) with (rlen r - 8 * Z.of_nat (S d)) by lia.
  ostep. eapply own_mlift; [exact Eb|]. ostep. eapply own_load_slot; [done..|]. ostep.
  unfold mwhen. destruct (tabs !! (path_to d ++ [b])) as [tn|] eqn:Etn; simpl in En; rewrite En.
  - destruct (to_table _ _ _ _ _ H _ _ Etn) as (Htn0 & _). destruct (Z.eqb_spec tn 0); [done|].
    apply own_ret. ostep. eapply own_load_slot; [done..|]. rewrite En.
    eapply (IH (S d)); [lia|done| |by rewrite Epath|done]. eapply trie_enter; [exact H|done|].
    rewrite Epath. by eexists.
  - rewrite Z.eqb_refl. ostep. unfold new_table. apply own_alloc; [done..|]. intros new Hnew Hnone.
    eapply own_update_slot; [rewrite lookup_insert_ne by congruence; exact Et|done|exact Ebs|].
    set (h1 := <[ta := _]> _). ostep.
    assert (Hok : trie_ok h1 root E (path_to (S d)) (<[path_to (S d) := new]> tabs)).
    { rewrite Epath. eapply trie_open; try done; [|lia]. rewrite length_path_to by lia. lia. }
    assert (Hfr : table_frame h h1).
    { eapply table_frame_trans; [|eapply table_frame_alter; [|left; done]].
      - eapply table_frame_alter; [by rewrite Hnone|by left].
      - rewrite lookup_insert_ne by congruence. by rewrite Et. }
    eapply own_load_slot; [unfold h1; by rewrite lookup_insert_eq|done| |].
    { rewrite block_get_lookup by lia. apply list_lookup_insert_eq. by eapply lookup_lt_Some. }
    simpl. eapply (IH (S d)); [lia|done|exact Hok|by rewrite lookup_insert_eq|].
    intros h' tabs' ta' H' Hta' Hfr'. eapply HQ; [done..|]. by eapply table_frame_trans.
Qed.
End descend.
End trie.
