(* ===== verification/PlistInstall.v ===== *)
(** * An entry enters and leaves the trie

    The slots of a rule hold the chains with the rule after
    [trie_install_fn] was applied to them, and without it after
    [trie_uninstall_fn]; all other chains stay as they are.  The walk for a
    rule with bits behind its prefix can leave the table. *)

From S2P Require Import Prelude SepLogic FrrPrefix FrrPrefixBits Heap Own Plist PlistChain PlistWalk.
From S2P Require Import PlistSlot PlistTrie.

#[local] Open Scope Z_scope.

Section install.
Context (D : nat).
Implicit Types tabs : gmap (list Z) Z.

Lemma kind_last r : prefix_wf (r_prefix r) -> rlen r <= 128 -> ~ (kind D r = true /\ (S (length (rpath D r)) < D)%nat).
Proof.
  intros Hw Hlen [Hk Hl]. unfold kind in Hk. apply bool_decide_eq_true in Hk.
  rewrite (rpath_length D r Hw Hlen) in Hl. rewrite (vbits_last D (rlen r) (proj1 (pw_len _ Hw)) Hk) in Hl. lia.
Qed.

(** [trie_walk_affected] as a loop over the slots of the rule *)
Lemma own_walk_affected r o ta (fn : Z -> link_to -> M pmem unit) h (I : Z -> pmem -> Prop) (Q : unit -> pmem -> Prop) :
  rule_ok D r -> I (first_slot D r) h ->
  (forall j h1, first_slot D r <= j < first_slot D r + Z.of_nat (slots D r) -> I j h1 ->
     own (fn o (slot_link (kind D r) ta j)) h1 (fun _ => I (j + 1))) ->
  (forall h', I (first_slot D r + Z.of_nat (slots D r)) h' -> Q tt h') ->
  own (trie_walk_affected (vbits D (rlen r)) ta (rbyte D r) o fn) h Q.
Proof.
  intros Hok H0 Hstep HQ. pose proof Hok as [Hw Hl Ha]. destruct (pw_len _ Hw) as [Hlen _].
  unfold trie_walk_affected, PLC_BITS. unfold first_slot, slots, kind in *.
  destruct (Z.ltb_spec 8 (vbits D (rlen r))) as [Hv|Hv].
  - rewrite decide_True in Hstep, HQ by done. rewrite bool_decide_true in Hstep by done.
    eapply own_mono; [apply Hstep; [lia|done]|]. intros [] h' H'. by apply HQ.
  - rewrite decide_False in Hstep, HQ by lia. rewrite bool_decide_false in Hstep by lia.
    specialize (Ha Hv). destruct (width_pos D r Hlen Hv) as [Hp _].
    assert (Em : u8 (Z.shiftl 1 (8 - vbits D (rlen r)) - 1) = width D r - 1).
    { rewrite Z.shiftl_mul_pow2, Z.mul_1_l by lia. fold (width D r). unfold wrap. apply Z.mod_small. lia. }
    assert (Ef : Z.land (rbyte D r) (Z.lnot (width D r - 1)) = rbyte D r).
    { change (Z.land (rbyte D r) (Z.lnot (width D r - 1))) with (Z.ldiff (rbyte D r) (width D r - 1)) || rewrite <- Z.ldiff_land.
      unfold width in *. rewrite Z.sub_1_r, <- Z.ones_equiv. rewrite Z.ldiff_ones_r by lia.
      rewrite Z.shiftr_div_pow2, Z.shiftl_mul_pow2 by lia.
      pose proof (Z.div_mod (rbyte D r) (2 ^ (8 - vbits D (rlen r))) ltac:(lia)). lia. }
    rewrite Em, Ef. cbv zeta. replace (rbyte D r + (width D r - 1) + 1 - rbyte D r) with (width D r) by lia.
    eapply own_mfor; [exact H0|exact Hstep|exact HQ].
Qed.

Section one.
Context (h0 : pmem) (root : Z) (E : rules) (tabs : gmap (list Z) Z) (ta o : Z) (r : rule).
Abbreviation E' := (<[o := r]> E).
Context (Hta : tabs !! rpath D r = Some ta) (HoE : E !! o = None) (Hn : numbered E').
Context (Ho0 : o <> 0) (Hro : rule_at h0 o = Some r) (Hok : rule_ok D r).
Context (Hrules : forall a ra, E !! a = Some ra -> a <> 0 /\ rule_at h0 a = Some ra /\ rule_ok D ra).

Abbreviation k := (kind D r).
Abbreviation π0 := (rpath D r).
Abbreviation lo := (first_slot D r).

Definition chain_front (i : Z) : list Z := (slot_before D k E r π0 i).*1.
Definition chain_end : list Z := (slot_after D k E r π0 lo).*1.

Lemma numbered_E : numbered E.
Proof.
  intros a b ra rb Ha Hb. apply Hn; rewrite lookup_insert_ne; congruence.
Qed.

Lemma covered_slot i : covered lo (slots D r) i <-> in_slot D k r π0 i.
Proof. symmetry. by apply in_slot_covered. Qed.

Lemma first_covered : in_slot D k r π0 lo.
Proof. apply covered_slot. unfold covered. pose proof (slots_pos D r Hok). lia. Qed.

Lemma ptrs_without i : covered lo (slots D r) i -> chain_ptrs D k E π0 i = chain_front i ++ chain_end.
Proof.
  intros Hi%covered_slot. unfold chain_ptrs, chain_front, chain_end. rewrite (slot_rules_split D k E r π0 i numbered_E), fmap_app.
  f_equal. f_equal. apply slot_after_same; [apply numbered_E| |done|done|apply first_covered].
  intros b rb Hb. by eapply Hrules.
Qed.

Lemma ptrs_with i : covered lo (slots D r) i -> chain_ptrs D k E' π0 i = chain_front i ++ o :: chain_end.
Proof.
  intros Hi. pose proof (proj1 (covered_slot i) Hi) as Hin. unfold chain_ptrs.
  rewrite slot_rules_insert by done. rewrite fmap_app, fmap_cons. simpl. unfold chain_front, chain_end. f_equal. f_equal. f_equal.
  apply slot_after_same; [apply numbered_E| |done|done|apply first_covered]. intros b rb Hb. by eapply Hrules.
Qed.

Lemma ptrs_other kk π i : ~ in_slot D kk r π i -> chain_ptrs D kk E' π i = chain_ptrs D kk E π i.
Proof. intros H. unfold chain_ptrs. by rewrite slot_rules_other. Qed.

(** Chains without the entry do not meet the ones it enters. *)
Lemma ptrs_apart kk π i a j :
  ~ in_slot D kk r π i -> a ∈ chain_ptrs D kk E π i -> covered lo (slots D r) j -> a <> o /\ a ∉ chain_front j.
Proof.
  intros Hout Ha Hj%covered_slot. unfold chain_ptrs in Ha. apply list_elem_of_fmap in Ha as ([b rb] & -> & [Hb Hin]%slot_rules_elem).
  simpl in *. split; [congruence|]. unfold chain_front.
  intros ([b' rb'] & E1 & [Hbef [Hb' Hin']%slot_rules_elem]%list_elem_of_filter)%list_elem_of_fmap. simpl in *. subst b'.
  rewrite Hb in Hb'. injection Hb' as <-. apply Hout.
  destruct (in_slot_kind _ _ _ _ _ Hin) as [Ek Ep]. destruct (in_slot_kind _ _ _ _ _ Hin') as [Ek' Ep'].
  rewrite <- Ek' in Ek. rewrite <- Ep' in Ep. subst kk π. eapply (in_slot_shorter D _ _ rb _ j); [done| | |done..].
  { by eapply Hrules. }
  unfold before, earlier, rlen in *. simpl in *. lia.
Qed.

Lemma A_earlier i a : covered lo (slots D r) i -> a ∈ chain_front i ->
  a <> o /\ exists ra, rule_at h0 a = Some ra /\ earlier ra r.
Proof.
  intros Hi ([b rb] & -> & [Hb [HbE _]%slot_rules_elem]%list_elem_of_filter)%list_elem_of_fmap. simpl in *.
  split; [congruence|]. exists rb. split; [by eapply Hrules|done].
Qed.

Lemma T_later a : a ∈ chain_end -> a <> o /\ exists ra, rule_at h0 a = Some ra /\ earlier r ra.
Proof.
  intros ([b rb] & -> & [Hb [HbE _]%slot_rules_elem]%list_elem_of_filter)%list_elem_of_fmap. simpl in *.
  split; [congruence|]. exists rb. split; [by eapply Hrules|]. change rb with (b, rb).2. eapply numbered_later; [|exact HbE|done].
  intros y r' Hy Heq. assert (y = o); [|congruence]. eapply Hn; [|apply lookup_insert_eq|exact Heq].
  rewrite lookup_insert_ne; [done|congruence].
Qed.

(** The rules before and after a walk, and what the walk changes *)
Definition rules_of (with_o : bool) : rules := if with_o then E' else E.

Lemma rules_of_ptrs b i : covered lo (slots D r) i -> chain_ptrs D k (rules_of b) π0 i = chain_front i ++ tail chain_end o b.
Proof. destruct b; [apply ptrs_with|apply ptrs_without]. Qed.

Lemma rules_of_other b kk π i :
  ~ in_slot D kk r π i -> chain_ptrs D kk (rules_of b) π i = chain_ptrs D kk E π i.
Proof. destruct b; [apply ptrs_other|done]. Qed.

Lemma slot_ok_kinds h b tabs' π i s :
  slot_ok D h (rules_of b) tabs' π i s -> forall kk, ~ (kk = true /\ (S (length π) < D)%nat) ->
  chain (best h) (slot_get kk s) (chain_ptrs D kk (rules_of b) π (Z.of_nat i)).
Proof. intros [H1 H2] [] Hkk; [|done]. rewrite decide_False in H2 by tauto. done. Qed.

Lemma own_kind_last : ~ (k = true /\ (S (length π0) < D)%nat).
Proof. destruct Hok as [Hw Hlen _]. by apply kind_last. Qed.

Lemma walk_start b ex t :
  trie_ok D h0 root (rules_of b) ex tabs -> h0 !! ta = Some (OTable t) ->
  (exists v, best h0 o = Some v /\ (v = 0 \/ v = hd_ptr chain_end)) ->
  walk k ta lo (slots D r) chain_front chain_end o h0 t (tail chain_end o b) (tail chain_end o (negb b)) lo h0.
Proof.
  intros H Ht Hnb. destruct (to_table _ _ _ _ _ _ H _ _ Hta) as (_ & t' & Ht' & Hlen & Hs).
  rewrite Ht in Ht'. injection Ht' as <-. split.
  - apply nb_only_refl.
  - done.
  - done.
  - exists t. split_and!; [done..|]. intros i s Hi. exists s. split_and!; [done..|]. intros Hc. right.
    split; [apply Hc|]. rewrite <- rules_of_ptrs by done.
    eapply slot_ok_kinds; [by apply Hs|apply own_kind_last].
Qed.

Lemma walk_end b ex t h :
  trie_ok D h0 root (rules_of b) ex tabs -> h0 !! ta = Some (OTable t) ->
  (forall π, is_Some (tabs !! π) <-> π = [] \/ π `prefix_of` π0 \/ exists a ra, E !! a = Some ra /\ π `prefix_of` rpath D ra) ->
  walk k ta lo (slots D r) chain_front chain_end o h0 t (tail chain_end o b) (tail chain_end o (negb b)) (lo + Z.of_nat (slots D r)) h ->
  trie_ok D h root (rules_of (negb b)) π0 tabs /\ trie_frame h0 h /\
    forall x, x <> o -> E !! x = None -> best h x = best h0 x.
Proof.
  intros H Ht Hdom [Honly Hbest Hobj (t' & Et' & Hlen & Hslots)].
  destruct (to_table _ _ _ _ _ _ H _ _ Hta) as (Hta0 & t'' & Ht'' & Hlen0 & Hs0).
  rewrite Ht in Ht''. injection Ht'' as <-.
  assert (Hfr : trie_frame h0 h) by by eapply nb_only_frame.
  assert (Hapart : forall kk π i q, ~ in_slot D kk r π i -> chain (best h0) q (chain_ptrs D kk (rules_of b) π i) ->
      chain (best h) q (chain_ptrs D kk (rules_of (negb b)) π i)).
  { intros kk π i q Hout Hc. rewrite rules_of_other in * by done. apply (chain_ext (best h0)); [|done].
    intros a Ha. apply Hbest; [apply (ptrs_apart kk π i a lo Hout Ha), covered_slot, first_covered|].
    intros j Hj. by eapply ptrs_apart. }
  split; [|split; [done|]].
  2:{ intros x Hxo HxE. apply Hbest; [done|]. intros i _.
      intros ([b' rb'] & -> & [_ [Hb' _]%slot_rules_elem]%list_elem_of_filter)%list_elem_of_fmap. simpl in *. congruence. }
  split.
  - apply H.
  - intros π. rewrite Hdom. destruct b; simpl; [done|]. split; intros [?|[?|(a & ra & Ha & Hp)]]; try tauto.
    + right. right. exists a, ra. rewrite lookup_insert_ne by congruence. done.
    + destruct (decide (a = o)) as [->|Hne].
      * rewrite lookup_insert_eq in Ha. injection Ha as <-. tauto.
      * rewrite lookup_insert_ne in Ha by done. right. right. eauto.
  - apply H.
  - intros π a Ha. destruct (to_table _ _ _ _ _ _ H _ _ Ha) as (Ha0 & u & Eu & Hlu & Hsu). split; [done|].
    destruct (decide (a = ta)) as [->|Hne].
    + assert (π = π0) as -> by by eapply (to_inj _ _ _ _ _ _ H). rewrite Ht in Eu. injection Eu as <-.
      exists t'. split_and!; [done|congruence|]. intros i s Hi.
      destruct (lookup_lt_is_Some_2 t i) as [s0 Es0]; [apply lookup_lt_Some in Hi; congruence|].
      destruct (Hslots i s0 Es0) as (s1 & Es1 & Hother & Hout & Hin). rewrite Hi in Es1. injection Es1 as <-.
      assert (Hgen : forall kk, ~ (kk = true /\ (S (length π0) < D)%nat) ->
          chain (best h) (slot_get kk s) (chain_ptrs D kk (rules_of (negb b)) π0 (Z.of_nat i))).
      { intros kk Hkk. pose proof (slot_ok_kinds _ _ _ _ _ _ (Hs0 _ _ Es0) kk Hkk) as Hc0.
        destruct (decide (kk = k)) as [->|Hkne].
        - destruct (decide (in_slot D k r π0 (Z.of_nat i))) as [Hcov|Hcov].
          + rewrite rules_of_ptrs by by apply covered_slot. destruct Hin as [Hc|[Hle _]]; [by apply covered_slot|done|].
            apply covered_slot in Hcov. unfold covered in Hcov. lia.
          + rewrite Hout by by rewrite covered_slot. by apply Hapart.
        - assert (Ekk : kk = negb k) by (revert Hkne; clear; destruct kk, (kind D r); naive_solver).
          rewrite Ekk, Hother, <- Ekk. apply Hapart; [|done]. intros [Ek _]%in_slot_kind. congruence. }
      split; [by apply (Hgen false); intros []|]. case_decide as Hl; [|apply (Hgen true); tauto].
      assert (Ekf : k = false).
      { pose proof own_kind_last as Hlast. revert Hlast Hl. clear. destruct (kind D r); [tauto|done]. }
      rewrite Ekf in Hother. simpl in Hother. rewrite Hother. destruct (Hs0 _ _ Es0) as [_ H2]. by rewrite decide_True in H2.
    + pose proof (Honly a Hne) as Hoa. rewrite Eu in Hoa. exists u. split_and!; [done..|]. intros i s Hi.
      assert (Hnot : forall kk i, ~ in_slot D kk r π i).
      { intros kk i' [_ ->]%in_slot_kind. congruence. }
      destruct (Hsu _ _ Hi) as [H1 H2]. split; [by apply Hapart|]. case_decide; [done|by apply Hapart].
  - intros a u Ha. destruct (decide (a = ta)) as [->|Hne]; [by exists π0|]. specialize (Honly a Hne).
    destruct (h0 !! a) as [[e|t2| |]|] eqn:E0; try congruence.
    + destruct Honly; congruence.
    + eapply (to_all _ _ _ _ _ _ H). exact E0.
  - intros a ra Ha. assert (Hcase : a <> 0 /\ rule_at h0 a = Some ra /\ rule_ok D ra).
    { destruct b; simpl in Ha; [by apply Hrules|]. destruct (decide (a = o)) as [->|Hne].
      - rewrite lookup_insert_eq in Ha. injection Ha as <-. done.
      - rewrite lookup_insert_ne in Ha by done. by apply Hrules. }
    destruct Hcase as (Ha0 & Hra & Hoka). split_and!; [done| |done]. by eapply trie_frame_rule.
  - destruct b; simpl; [apply numbered_E|done].
Qed.

(** The walk, in both directions *)
Lemma own_walk b ex h :
  trie_ok D h0 root (rules_of b) ex tabs ->
  (forall π, is_Some (tabs !! π) <-> π = [] \/ π `prefix_of` π0 \/ exists a ra, E !! a = Some ra /\ π `prefix_of` rpath D ra) ->
  (exists v, best h0 o = Some v /\ (v = 0 \/ v = hd_ptr chain_end)) ->
  (forall h2, trie_ok D h2 root (rules_of (negb b)) π0 tabs -> trie_frame h0 h2 ->
     (forall x, x <> o -> E !! x = None -> best h2 x = best h0 x) -> h tt h2) ->
  own (trie_walk_affected (vbits D (rlen r)) ta (rbyte D r) o (if b then trie_uninstall_fn else trie_install_fn)) h0 h.
Proof.
  intros H Hdom Hnb HQ. destruct (to_table _ _ _ _ _ _ H _ _ Hta) as (Hta0 & t & Et & Hlent & _).
  pose proof (slots_bound D _ Hok) as Hsb.
  eapply (own_walk_affected _ _ _ _ _ (walk k ta lo (slots D r) chain_front chain_end o h0 t
    (tail chain_end o b) (tail chain_end o (negb b)))); [done|by eapply walk_start| |].
  - intros j h2 Hj Hw2.
    assert (Hfront : forall i a, covered lo (slots D r) i -> a ∈ chain_front i ->
      a <> o /\ exists ra, rule_at h0 a = Some ra /\ earlier ra r) by apply A_earlier.
    assert (HoT : o ∉ chain_end) by (intros [? _]%T_later; done).
    assert (Hend : forall a, a ∈ chain_end -> exists ra, rule_at h0 a = Some ra /\ earlier r ra).
    { intros a Ha. by apply T_later in Ha as [_ ?]. }
    destruct b; simpl in *; [apply (walk_uninstall_step k ta lo _ _ chain_end o r h0 t)|
      apply (walk_install_step k ta lo _ _ chain_end o r h0 t)]; try done;
      rewrite ?Hlent; unfold PLC_LEN; lia.
  - intros h2 Hw2. destruct (walk_end b ex t h2 H Et Hdom Hw2) as (? & ? & ?). by apply HQ.
Qed.
End one.
End install.

(** ** Adding and deleting *)
Section update.
Context (D : nat) (HD : (1 <= D)%nat) (place : pmem -> Z -> Z) `{!Placement place}.

Lemma trie_ok_close h root E ex tabs :
  trie_ok D h root E ex tabs -> ex = [] \/ (exists a r, E !! a = Some r /\ ex = rpath D r) ->
  trie_ok D h root E [] tabs.
Proof.
  intros H Hex. split; try apply H. intros π. rewrite (to_dom _ _ _ _ _ _ H). split.
  - intros [?|[Hp|?]]; [by left| |by right; right]. destruct Hex as [->|(a & r & Ha & ->)].
    + left. by apply prefix_nil_inv.
    + right. right. eauto.
  - intros [?|[Hp|?]]; [by left| |by right; right]. left. by apply prefix_nil_inv.
Qed.

Lemma trie_ok_dom_insert h root E ex tabs o r :
  trie_ok D h root (<[o := r]> E) ex tabs -> ex = [] -> E !! o = None ->
  forall π, is_Some (tabs !! π) <->
    π = [] \/ π `prefix_of` rpath D r \/ exists a ra, E !! a = Some ra /\ π `prefix_of` rpath D ra.
Proof.
  intros H -> Ho π. rewrite (to_dom _ _ _ _ _ _ H). split.
  - intros [?|[->%prefix_nil_inv|(a & ra & Ha & Hp)]]; [by left|by left|]. destruct (decide (a = o)) as [->|Hne].
    + rewrite lookup_insert_eq in Ha. injection Ha as <-. tauto.
    + rewrite lookup_insert_ne in Ha by done. right. right. eauto.
  - intros [?|[Hp|(a & ra & Ha & Hp)]]; [by left| |].
    + right. right. exists o, r. by rewrite lookup_insert_eq.
    + right. right. exists a, ra. rewrite lookup_insert_ne by congruence. done.
Qed.

Lemma own_trie_add plist l m o e E tabs h Q :
  h !! plist = Some (OList l) -> plist <> 0 ->
  h !! pl_master l = Some (OMaster m) -> pl_master l <> 0 -> trie_depth m = D ->
  h !! o = Some (OEntry e) -> o <> 0 -> e_next_best e = 0 -> E !! o = None ->
  trie_ok D h (pl_trie l) E [] tabs -> numbered (<[o := rule_of e]> E) -> rule_ok D (rule_of e) ->
  (forall h' tabs', trie_ok D h' (pl_trie l) (<[o := rule_of e]> E) [] tabs' -> trie_frame h h' -> Q tt h') ->
  own (prefix_list_trie_add place plist o) h Q.
Proof.
  intros Hl Hl0 Hm Hm0 Hdep He Ho Hnb HoE H Hn Hok HQ. pose proof Hok as [Hw Hlen _].
  unfold prefix_list_trie_add. ostep. eapply own_load_list; [done..|]. ostep. eapply own_load_master; [done..|].
  ostep. eapply own_load_entry; [done..|]. cbv zeta. rewrite Hdep. ostep.
  assert (Hroot := to_root _ _ _ _ _ _ H).
  change (prefixlen (e_prefix e)) with (rlen (rule_of e)). change (u (e_prefix e)) with (rbytes (rule_of e)).
  replace (rlen (rule_of e)) with (rlen (rule_of e) - 8 * Z.of_nat 0) by lia.
  eapply (own_add_descend D HD (rule_of e) Hw Hlen place _ 0); [lia|lia|rewrite take_0; exact H|rewrite take_0; exact Hroot|].
  intros h1 tabs1 ta H1 Hta Hfr. cbv beta iota. ostep. eapply own_mlift; [by apply last_byte|].
  pose proof (table_frame_entry _ _ _ _ Hfr He) as He1.
  assert (Hro : rule_at h1 o = Some (rule_of e)) by (unfold rule_at; by rewrite He1).
  eapply (own_walk D h1 (pl_trie l) E tabs1 ta o (rule_of e) Hta HoE Hn Ho Hro Hok (to_rules _ _ _ _ _ _ H1) false);
    [exact H1|by apply (to_dom _ _ _ _ _ _ H1)| |].
  - exists 0. unfold best. rewrite He1, Hnb. auto.
  - intros h2 H2 Hfr2 _. apply (HQ h2 tabs1); [|eapply trie_frame_trans; [by apply table_frame_trie|done]].
    eapply trie_ok_close; [exact H2|]. right. exists o, (rule_of e). by rewrite lookup_insert_eq.
Qed.
End update.

(** ** A rule with bits behind its prefix

    The walk for a rule that is not [ro_aligned] begins at the same slot as
    that for the rule without the bits and goes further, by what the bits are
    worth; it can go past the end of the table. *)
Section past.
Context (D : nat) (HD : (1 <= D)%nat).

Definition past_end r : Prop := vbits D (rlen r) <= 8 /\ 256 < rbyte D r + width D r.

Definition without_bits r : rule :=
  Rule (r_seq r) (r_le r) (r_ge r) (r_type r) (r_any r)
    (Prefix (p_family (r_prefix r)) (rlen r) (<[lvl D (rlen r) := rbyte D r - rbyte D r mod width D r]> (rbytes r))) (r_refcnt r).

Lemma without_bits_path r : rpath D (without_bits r) = rpath D r.
Proof.
  unfold rpath. change (rlen (without_bits r)) with (rlen r). unfold rbytes at 1. cbn [without_bits r_prefix u]. by rewrite take_insert_ge.
Qed.

Lemma without_bits_byte r :
  prefix_wf (r_prefix r) -> rlen r <= 128 -> rbyte D (without_bits r) = rbyte D r - rbyte D r mod width D r.
Proof.
  intros Hw Hl. destruct (rbyte_lookup D r Hw Hl) as [Eb _]. unfold rbyte at 1. change (rlen (without_bits r)) with (rlen r).
  apply nth_lookup_Some. simpl. apply list_lookup_insert_eq. by eapply lookup_lt_Some.
Qed.

Lemma without_bits_ok r : prefix_wf (r_prefix r) -> rlen r <= 128 -> vbits D (rlen r) <= 8 -> rule_ok D (without_bits r).
Proof.
  intros Hw Hl Hv. destruct (pw_len _ Hw) as [H0 H1]. destruct (width_pos D r H0 Hv) as [Hp _].
  destruct (rbyte_lookup D r Hw Hl) as [_ Hb]. unfold is_byte in Hb.
  pose proof (Z.mod_pos_bound (rbyte D r) (width D r) ltac:(lia)). pose proof (Z.mod_le (rbyte D r) (width D r) ltac:(lia) ltac:(lia)).
  split; [|done|].
  - split; [|simpl; by rewrite length_insert; apply Hw|done]. simpl. apply Forall_insert; [apply Hw|]. unfold is_byte. lia.
  - intros _. rewrite without_bits_byte by done. change (width D (without_bits r)) with (width D r).
    replace (rbyte D r - _) with (rbyte D r / width D r * width D r) by (rewrite (Z.mod_eq (rbyte D r)) by lia; ring).
    apply Z.mod_mul. lia.
Qed.

(** The rule without the bits goes up to the end of the table. *)
Lemma past_end_slots r :
  prefix_wf (r_prefix r) -> rlen r <= 128 -> past_end r ->
  first_slot D (without_bits r) + Z.of_nat (slots D (without_bits r)) = 256 /\ 0 < rbyte D r mod width D r.
Proof.
  intros Hw Hl [Hv Hpast]. destruct (pw_len _ Hw) as [H0 _]. destruct (width_pos D r H0 Hv) as [Hp Ep].
  pose proof (slots_bound D _ (without_bits_ok r Hw Hl Hv)) as [_ Hb].
  unfold first_slot, slots in *. change (rlen (without_bits r)) with (rlen r) in Hb |- *. rewrite decide_False in Hb |- * by lia.
  change (width D (without_bits r)) with (width D r) in Hb |- *. rewrite without_bits_byte in Hb |- * by done. rewrite Z2Nat.id in Hb |- * by lia.
  pose proof (Z.mod_pos_bound (rbyte D r) (width D r) ltac:(lia)). split; [|lia].
  pose proof (Z.div_mod (rbyte D r) (width D r) ltac:(lia)) as Ed.
  generalize dependent (rbyte D r / width D r). generalize dependent (rbyte D r mod width D r).
  generalize dependent (2 ^ vbits D (rlen r)). generalize dependent (width D r). clear. intros w Hpast Hp n Ep m Hb Hm q Ed.
  assert (q + 1 <= n) by nia. assert (n < q + 2) by nia. assert (q = n - 1) by lia. nia.
Qed.

(** The number of rounds: the slots of the rule without the bits, and some more *)
Lemma past_end_walk r ta o fn s :
  prefix_wf (r_prefix r) -> rlen r <= 128 -> past_end r ->
  trie_walk_affected (vbits D (rlen r)) ta (rbyte D r) o fn s =
  mfor (slots D (without_bits r) + Z.to_nat (rbyte D r mod width D r)) (first_slot D (without_bits r)) (fun j => fn o (LUp ta j)) s.
Proof.
  intros Hw Hl [Hv Hpast]. destruct (pw_len _ Hw) as [H0 _]. fold (rlen r) in H0. destruct (width_pos D r H0 Hv) as [Hp _].
  pose proof (Z.mod_pos_bound (rbyte D r) (width D r) ltac:(lia)).
  assert (Hv0 : 0 <= vbits D (rlen r)) by by apply vbits_nonneg.
  unfold trie_walk_affected, PLC_BITS. destruct (Z.ltb_spec 8 (vbits D (rlen r))); [lia|].
  assert (Em : u8 (Z.shiftl 1 (8 - vbits D (rlen r)) - 1) = width D r - 1).
  { rewrite Z.shiftl_mul_pow2, Z.mul_1_l by lia. fold (width D r). unfold wrap. apply Z.mod_small. lia. }
  assert (Ef : Z.land (rbyte D r) (Z.lnot (width D r - 1)) = rbyte D r - rbyte D r mod width D r).
  { rewrite <- Z.ldiff_land. unfold width. rewrite Z.sub_1_r, <- Z.ones_equiv, Z.ldiff_ones_r by lia.
    rewrite Z.shiftr_div_pow2, Z.shiftl_mul_pow2, Z.mod_eq by lia. lia. }
  rewrite Em, Ef. cbv zeta. unfold first_slot, slots. change (rlen (without_bits r)) with (rlen r). rewrite decide_False by lia.
  change (width D (without_bits r)) with (width D r). rewrite without_bits_byte by done.
  f_equal. lia.
Qed.

Lemma faults_install_outside ta j o h t : h !! ta = Some (OTable t) -> ta <> 0 -> block_get t j = None ->
  faults (trie_install_fn o (LUp ta j)) h.
Proof.
  intros Ht Hta Hj. unfold trie_install_fn. ostep. apply own_fuel. intros n _. apply faults_first. cbn [trie_install_loop load_link].
  apply faults_first, faults_first. unfold load_slot. ostep. eapply own_load_trie; [done..|]. rewrite Hj. by intros hf _.
Qed.

Lemma faults_walk h0 root E ex tabs ta o r :
  trie_ok D h0 root E ex tabs -> tabs !! rpath D r = Some ta -> E !! o = None -> numbered (<[o := r]> E) -> o <> 0 ->
  rule_at h0 o = Some r -> best h0 o = Some 0 -> prefix_wf (r_prefix r) -> rlen r <= 128 -> past_end r ->
  faults (trie_walk_affected (vbits D (rlen r)) ta (rbyte D r) o trie_install_fn) h0.
Proof.
  intros H Hta HoE Hn Ho Hro Hb Hw Hl Hpast. pose proof Hpast as [Hv _]. set (r' := without_bits r).
  pose proof (without_bits_ok r Hw Hl Hv) as Hok. fold r' in Hok.
  destruct (past_end_slots r Hw Hl Hpast) as [Hend Hmore]. fold r' in Hend.
  assert (Hta' : tabs !! rpath D r' = Some ta) by (unfold r'; by rewrite without_bits_path).
  assert (Hn' : numbered (<[o := r']> E)).
  { intros a b ra rb Ha Hb' Es. destruct (decide (a = o)) as [->|Ha'], (decide (b = o)) as [->|Hb0]; [done|..];
      rewrite ?lookup_insert_eq, ?lookup_insert_ne in Ha by done; rewrite ?lookup_insert_eq, ?lookup_insert_ne in Hb' by done.
    - injection Ha as <-. apply (Hn o b r rb); [apply lookup_insert_eq|by rewrite lookup_insert_ne|done].
    - injection Hb' as <-. apply (Hn a o ra r); [by rewrite lookup_insert_ne|apply lookup_insert_eq|done].
    - apply (Hn a b ra rb); [by rewrite lookup_insert_ne..|done]. }
  pose proof (to_rules _ _ _ _ _ _ H) as Hrules.
  destruct (to_table _ _ _ _ _ _ H _ _ Hta) as (Hta0 & t & Et & Hlent & _).
  assert (Ek : kind D r' = false) by (unfold kind; change (rlen r') with (rlen r); by rewrite bool_decide_false by lia).
  assert (Hfront : forall i a, covered (first_slot D r') (slots D r') i -> a ∈ chain_front D E r' i ->
    a <> o /\ exists ra, rule_at h0 a = Some ra /\ earlier ra r).
  { intros i a Hi Ha. exact (A_earlier D h0 E o r' HoE Hrules i a Hi Ha). }
  assert (Hlater : forall a, a ∈ chain_end D E r' -> a <> o /\ exists ra, rule_at h0 a = Some ra /\ earlier r ra).
  { intros a Ha. exact (T_later D h0 E o r' HoE Hn' Hrules a Ha). }
  assert (HoT : o ∉ chain_end D E r') by (intros [? _]%Hlater; done).
  eapply faults_ext; [intros s; by apply past_end_walk|]. fold r'. pose proof (slots_bound D _ Hok) as [Hs0 _].
  eapply (faults_mfor (walk (kind D r') ta (first_slot D r') (slots D r') (chain_front D E r') (chain_end D E r') o h0 t
    (tail (chain_end D E r') o false) (tail (chain_end D E r') o true))); [|lia| |].
  - eapply (walk_start D h0 root E tabs ta o r' Hta' HoE Hn' Hok Hrules false); [exact H|exact Et|]. eauto.
  - rewrite Ek. intros j h1 Hj Hw1. apply (walk_install_step false ta (first_slot D r') (slots D r') (chain_front D E r') (chain_end D E r') o r h0 t);
      try done; rewrite ?Hlent; unfold PLC_LEN; try lia. intros a Ha. by apply Hlater in Ha as [_ ?].
  - intros h1 [_ _ _ (t1 & Et1 & Hlen1 & _)]. rewrite Hend. eapply faults_install_outside; [exact Et1|done|].
    unfold block_get. rewrite Hlen1, Hlent. done.
Qed.

Lemma faults_trie_add place `{!Placement place} plist l m o e E tabs h :
  h !! plist = Some (OList l) -> plist <> 0 ->
  h !! pl_master l = Some (OMaster m) -> pl_master l <> 0 -> trie_depth m = D ->
  h !! o = Some (OEntry e) -> o <> 0 -> e_next_best e = 0 -> E !! o = None ->
  trie_ok D h (pl_trie l) E [] tabs -> numbered (<[o := rule_of e]> E) ->
  prefix_wf (e_prefix e) -> prefixlen (e_prefix e) <= 128 -> past_end (rule_of e) ->
  faults (prefix_list_trie_add place plist o) h.
Proof.
  intros Hl Hl0 Hm Hm0 Hdep He Ho Hnb HoE H Hn Hw Hlen Hpast. set (r := rule_of e) in *.
  unfold prefix_list_trie_add. ostep. eapply own_load_list; [done..|]. ostep. eapply own_load_master; [done..|].
  ostep. eapply own_load_entry; [done..|]. cbv zeta. rewrite Hdep. ostep.
  change (prefixlen (e_prefix e)) with (rlen r) in Hlen |- *. change (u (e_prefix e)) with (rbytes r).
  replace (rlen r) with (rlen r - 8 * Z.of_nat 0) by lia.
  eapply (own_add_descend D HD r Hw Hlen place _ 0); [lia|lia|rewrite take_0; exact H|rewrite take_0; apply H|].
  intros h1 tabs1 ta H1 Hta Hfr. cbv beta iota. ostep. eapply own_mlift; [by apply last_byte|].
  pose proof (table_frame_entry _ _ _ _ Hfr He) as He1.
  eapply (faults_walk h1 (pl_trie l) E _ tabs1 ta o r); try done.
  - unfold rule_at. by rewrite He1.
  - unfold best. by rewrite He1, Hnb.
Qed.
End past.

(** ** An entry is deleted from the trie

    After the entry has left its chains, the tables on its path that no rule
    goes through any more are freed, from the deepest on. *)

Section remove.
Context (D : nat) (HD : (1 <= D)%nat).
Implicit Types tabs : gmap (list Z) Z.

(** *** A table is closed *)
Lemma trie_shut h root E π b tabs ta t s tn :
  trie_ok D h root E (π ++ [b]) tabs -> tabs !! π = Some ta -> h !! ta = Some (OTable t) ->
  t !! Z.to_nat b = Some s -> is_byte b -> tabs !! (π ++ [b]) = Some tn -> (S (length π) < D)%nat ->
  (forall a r, E !! a = Some r -> ~ π ++ [b] `prefix_of` rpath D r) ->
  trie_ok D (<[ta := OTable (<[Z.to_nat b := set_next_table 0 s]> t)]> (delete tn h))
    root E π (delete (π ++ [b]) tabs).
Proof.
  intros H Hπ Ht Hs Hb Htn HlD Hpass. unfold is_byte in Hb.
  destruct (to_table _ _ _ _ _ _ H _ _ Htn) as (Htn0 & ttn & Ettn & _).
  assert (Hne : tn <> ta).
  { intros ->. pose proof (to_inj _ _ _ _ _ _ H _ _ _ Htn Hπ) as E1. apply (f_equal length) in E1.
    rewrite length_app in E1. simpl in E1. lia. }
  set (h' := <[ta := _]> _).
  assert (Hx' : forall x, x <> ta -> x <> tn -> h' !! x = h !! x).
  { intros x ? ?. unfold h'. by rewrite lookup_insert_ne, lookup_delete_ne. }
  assert (Hta : h' !! ta = Some (OTable (<[Z.to_nat b := set_next_table 0 s]> t))) by (unfold h'; by rewrite lookup_insert_eq).
  assert (Htn' : h' !! tn = None) by (unfold h'; by rewrite lookup_insert_ne, lookup_delete_eq by done).
  assert (Hbest : forall a, best h' a = best h a).
  { intros a. unfold best. destruct (decide (a = ta)) as [->|]; [by rewrite Hta, Ht|].
    destruct (decide (a = tn)) as [->|]; [by rewrite Htn', Ettn|]. by rewrite Hx'. }
  split.
  - rewrite lookup_delete_ne; [apply H|]. by destruct π.
  - intros π'. destruct (decide (π' = π ++ [b])) as [->|Hp].
    + rewrite lookup_delete_eq. split; [by intros []|]. intros [?|[Hc|(a & r & Ha & Hc)]].
      * by destruct π.
      * apply prefix_length in Hc. rewrite length_app in Hc. simpl in Hc. lia.
      * by destruct (Hpass _ _ Ha).
    + rewrite lookup_delete_ne by done. rewrite (to_dom _ _ _ _ _ _ H). split; intros [?|[Hc|?]]; try tauto.
      * right. left. destruct Hc as [k Hk]. destruct (list_snoc_case k) as [->|(k' & y & ->)].
        -- rewrite app_nil_r in Hk. done.
        -- rewrite app_assoc in Hk. apply app_inj_2 in Hk as [-> _]; [|done]. by exists k'.
      * right. left. by apply prefix_app_r.
  - intros π1 π2 a [_ H1]%lookup_delete_Some [_ H2]%lookup_delete_Some. by eapply (to_inj _ _ _ _ _ _ H).
  - intros π' a [Hp Ha]%lookup_delete_Some.
    destruct (to_table _ _ _ _ _ _ H _ _ Ha) as (Ha0 & t' & Ht' & Hl' & Hs'). split; [done|].
    destruct (decide (a = ta)) as [->|Hne'].
    + assert (π' = π) as -> by (by eapply (to_inj _ _ _ _ _ _ H)). rewrite Ht in Ht'. injection Ht' as <-.
      eexists. split; [exact Hta|]. split; [by rewrite length_insert|]. intros i s' Hi.
      destruct (decide (i = Z.to_nat b)) as [->|Hib].
      * rewrite list_lookup_insert_eq in Hi by by eapply lookup_lt_Some. injection Hi as <-.
        destruct (Hs' _ _ Hs) as [Hc _]. split; simpl; [by apply (chain_ext (best h))|].
        rewrite decide_True by done. by rewrite Z2Nat.id, lookup_delete_eq by lia.
      * rewrite list_lookup_insert_ne in Hi by done. eapply slot_ok_ext; [exact Hbest| |by apply Hs'].
        intros _. rewrite lookup_delete_ne; [done|]. intros E1. apply app_inj_2 in E1 as [_ E1]; [|done].
        injection E1 as ->. by rewrite Nat2Z.id in Hib.
    + exists t'. rewrite Hx'; [|done|].
      2:{ intros ->. by pose proof (to_inj _ _ _ _ _ _ H _ _ _ Htn Ha). }
      split_and!; [done..|]. intros i s' Hi.
      eapply slot_ok_ext; [exact Hbest| |by apply Hs']. intros _. rewrite lookup_delete_ne; [done|].
      intros E1. apply app_inj_2 in E1 as [-> _]; [|done]. congruence.
  - intros a t' Ha. assert (Hant : a <> tn) by congruence.
    assert (exists t0, h !! a = Some (OTable t0)) as [t0 Ha0].
    { destruct (decide (a = ta)) as [->|]; [eauto|]. rewrite Hx' in Ha by done. eauto. }
    destruct (to_all _ _ _ _ _ _ H _ _ Ha0) as [π' Hp]. exists π'. rewrite lookup_delete_ne; [done|]. congruence.
  - intros a r Ha. destruct (to_rules _ _ _ _ _ _ H _ _ Ha) as (Ha0 & Hr & Hok). split_and!; [done| |done].
    destruct (rule_at_entry _ _ _ Hr) as (e & Ee & _). unfold rule_at. rewrite Hx' by congruence. exact Hr.
  - apply H.
Qed.

(** A table is empty when no rule goes through it. *)
Lemma table_not_empty_inv h root E π tabs a t :
  trie_ok D h root E π tabs -> tabs !! π = Some a -> h !! a = Some (OTable t) ->
  forallb slot_empty t = false -> exists o r, E !! o = Some r /\ π `prefix_of` rpath D r.
Proof.
  intros H Ha Ht. destruct (to_table _ _ _ _ _ _ H _ _ Ha) as (Ha0 & t' & Ht' & Hlen & Hs).
  rewrite Ht in Ht'. injection Ht' as <-.
  assert (Hptr : forall k i p, chain (best h) p (chain_ptrs D k E π i) -> p <> 0 -> exists o r, E !! o = Some r /\ π `prefix_of` rpath D r).
  { intros k i p Hc Hp. destruct (chain_ptrs D k E π i) as [|o l] eqn:El; [done|].
    assert (Ho : o ∈ chain_ptrs D k E π i) by (rewrite El; by left).
    apply list_elem_of_fmap in Ho as ([b rb] & -> & [Hb [Hin _]]%slot_rules_elem). exists b, rb. simpl in *.
    split; [done|]. by rewrite Hin. }
  intros Hf. apply not_true_iff_false in Hf. rewrite forallb_forall in Hf.
  assert (exists s, In s t /\ slot_empty s = false) as (s & Hin & Hse).
  { destruct (decide (Exists (fun s => slot_empty s = false) t)) as [Hex|Hex].
    - apply Exists_exists in Hex as (s & Hin & Hse). exists s. split; [by apply list_elem_of_In|done].
    - destruct Hf. intros s Hin. destruct (slot_empty s) eqn:Hse; [done|]. destruct Hex. apply Exists_exists.
      exists s. split; [by apply list_elem_of_In|done]. }
  apply list_elem_of_In, list_elem_of_lookup in Hin as [i Hi]. destruct (Hs _ _ Hi) as [Hup Hnext].
  unfold slot_empty in Hse. apply andb_false_iff in Hse as [Hz|Hz]; apply Z.eqb_neq in Hz; [|by eapply Hptr].
  case_decide; [|by eapply Hptr]. destruct (tabs !! (π ++ [Z.of_nat i])) as [tn|] eqn:E1; [|done].
  assert (Hd : is_Some (tabs !! (π ++ [Z.of_nat i]))) by by rewrite E1.
  apply (to_dom _ _ _ _ _ _ H) in Hd as [Hd|[Hd|(o & r & Ho & Hd)]].
  + by destruct π.
  + apply prefix_length in Hd. rewrite length_app in Hd. simpl in Hd. lia.
  + exists o, r. split; [done|]. etrans; [|exact Hd]. by apply prefix_app_r.
Qed.

Lemma table_not_empty h root E π tabs a t o r :
  trie_ok D h root E π tabs -> tabs !! π = Some a -> h !! a = Some (OTable t) ->
  E !! o = Some r -> π `prefix_of` rpath D r -> forallb slot_empty t = false.
Proof.
  intros H Ha Ht. destruct (to_table _ _ _ _ _ _ H _ _ Ha) as (Ha0 & t' & Ht' & Hlen & Hs).
  rewrite Ht in Ht'. injection Ht' as <-.
  intros Ho Hp. apply not_true_iff_false. rewrite forallb_forall. intros Hall.
  destruct (to_rules _ _ _ _ _ _ H _ _ Ho) as (Ho0 & Hro & Hok). pose proof Hok as [Hw Hl _].
  assert (Hempty : forall i s, t !! i = Some s -> next_table s = 0 /\ up_chain s = 0).
  { intros i s Hi. assert (He : slot_empty s = true) by (apply Hall, list_elem_of_In; by eapply list_elem_of_lookup_2).
    unfold slot_empty in He. apply andb_true_iff in He as [?%Z.eqb_eq ?%Z.eqb_eq]. done. }
  destruct Hp as [k Hk]. destruct k as [|b k].
  + rewrite app_nil_r in Hk. pose proof (slots_bound D r Hok) as Hsb. pose proof (slots_pos D r Hok).
    set (i := Z.to_nat (first_slot D r)). assert (Ei : Z.of_nat i = first_slot D r) by (unfold i; lia).
    destruct (lookup_lt_is_Some_2 t i) as [s Es]; [rewrite Hlen; unfold PLC_LEN; lia|].
    assert (Hin : in_slot D (kind D r) r π (Z.of_nat i)) by (rewrite <- Hk, Ei; apply in_slot_covered; [done|lia]).
    assert (Hmem : o ∈ chain_ptrs D (kind D r) E π (Z.of_nat i)).
    { apply list_elem_of_fmap. exists (o, r). split; [done|]. by apply slot_rules_elem. }
    destruct (Hs _ _ Es) as [Hup Hnext]. destruct (Hempty _ _ Es) as [En Eu].
    assert (Hc : chain (best h) 0 (chain_ptrs D (kind D r) E π (Z.of_nat i))).
    { destruct (kind D r) eqn:Ek; [|by rewrite Eu in Hup].
      rewrite decide_False in Hnext; [by rewrite En in Hnext|]. unfold kind in Ek. apply bool_decide_eq_true in Ek.
      rewrite <- Hk, (rpath_length D r Hw Hl), (vbits_last D (rlen r) (proj1 (pw_len _ Hw)) Ek). lia. }
    destruct (chain_ptrs D (kind D r) E π (Z.of_nat i)); [by apply not_elem_of_nil in Hmem|]. by destruct Hc as (<- & ? & _).
  + assert (Hb : is_byte b).
    { apply (proj1 (Forall_forall _ _) (pw_bytes _ Hw)). change (u (r_prefix r)) with (rbytes r).
      rewrite <- (take_drop (lvl D (rlen r)) (rbytes r)). unfold rpath in Hk. rewrite Hk.
      rewrite !elem_of_app. left. right. by left. }
    unfold is_byte in Hb. destruct (lookup_lt_is_Some_2 t (Z.to_nat b)) as [s Es]; [rewrite Hlen; unfold PLC_LEN; lia|].
    destruct (Hs _ _ Es) as [_ Hnext]. destruct (Hempty _ _ Es) as [En _]. rewrite Z2Nat.id in Hnext by lia.
    assert (HlenD : (S (length π) < D)%nat).
    { pose proof (f_equal length Hk) as El. rewrite (rpath_length D r Hw Hl), length_app in El. simpl in El.
      pose proof (lvl_le D (rlen r)). lia. }
    rewrite decide_True in Hnext by done.
    assert (is_Some (tabs !! (π ++ [b]))) as [tn Etn].
    { apply (to_dom _ _ _ _ _ _ H). right. right. exists o, r. split; [done|]. exists k. by rewrite Hk, <- app_assoc. }
    rewrite Etn in Hnext. simpl in Hnext. destruct (to_table _ _ _ _ _ _ H _ _ Etn) as (? & _). congruence.
Qed.

(** *** The way back *)
Section path.
Context (r : rule) (Hw : prefix_wf (r_prefix r)) (Hl : rlen r <= 128).
Abbreviation path_to d := (take d (rbytes r)).

(** The links to the tables of the path, the deepest first *)
Fixpoint path_links tabs (d : nat) : list link_to :=
  match d with
  | O => []
  | S d => LFinal (default 0 (tabs !! path_to d)) (nth d (rbytes r) 0) :: path_links tabs d
  end.

Lemma path_links_ext tabs tabs' d :
  (forall d', (d' < d)%nat -> tabs' !! path_to d' = tabs !! path_to d') -> path_links tabs' d = path_links tabs d.
Proof. induction d as [|d IH]; intros H; simpl; [done|]. rewrite H by lia. f_equal. apply IH. intros. apply H. lia. Qed.

Lemma path_nth d b : byte (rbytes r) (Z.of_nat d) = Ret b -> nth d (rbytes r) 0 = b.
Proof.
  unfold byte. rewrite block_get_lookup, Nat2Z.id by lia. destruct (rbytes r !! d) eqn:E; [|done].
  intros [= <-]. by apply nth_lookup_Some.
Qed.

Lemma own_del_descend fuel d ta h root E ex tabs (Q : Z * Z * Z * list link_to -> pmem -> Prop) :
  fuel = (D - 1 - d)%nat -> (d <= lvl D (rlen r))%nat ->
  trie_ok D h root E ex tabs -> tabs !! path_to d = Some ta -> is_Some (tabs !! rpath D r) ->
  (forall ta', tabs !! rpath D r = Some ta' ->
     Q (ta', Z.of_nat (lvl D (rlen r)), vbits D (rlen r), path_links tabs (lvl D (rlen r))) h) ->
  own (trie_del_descend fuel ta (rbytes r) (Z.of_nat d) (rlen r - 8 * Z.of_nat d) (path_links tabs d)) h Q.
Proof.
  revert d ta. induction fuel as [|fuel IH]; intros d ta Ef Hd H Hta Hend HQ; cbn [trie_del_descend].
  { assert (d = lvl D (rlen r)) as -> by (eapply level_end; [done..|right; lia]). apply own_ret. by apply HQ. }
  unfold PLC_BITS. destruct (8 <? rlen r - 8 * Z.of_nat d) eqn:Ebits.
  2:{ assert (d = lvl D (rlen r)) as -> by (eapply level_end; auto). apply own_ret. by apply HQ. }
  pose proof (level_test D r Hw d Hd Ebits ltac:(lia)) as Hlt.
  destruct (path_byte D HD r Hw Hl d Hd) as (b & Eb & Hb & Epath).
  destruct (slot_on_path D HD r Hw Hl _ _ _ _ _ _ _ _ H Hta Hb Hlt) as (t & s & Et & Hta0 & Ebs & Es & En).
  replace (Z.of_nat d + 1) with (Z.of_nat (S d)) by lia.
  replace (rlen r - 8 * Z.of_nat d - 8) with (rlen r - 8 * Z.of_nat (S d)) by lia.
  assert (is_Some (tabs !! path_to (S d))) as [tn Etn].
  { apply (to_dom _ _ _ _ _ _ H) in Hend. apply (to_dom _ _ _ _ _ _ H).
    assert (Hp : path_to (S d) `prefix_of` rpath D r).
    { unfold rpath. replace (lvl D (rlen r)) with (S d + (lvl D (rlen r) - S d))%nat by lia.
      rewrite <- take_take_drop. by apply prefix_app_r. }
    destruct Hend as [Hend|[Hend|(a & ra & Ha & Hend)]].
    - left. rewrite Hend in Hp. by apply prefix_nil_inv.
    - right. left. by etrans.
    - right. right. exists a, ra. split; [done|]. by etrans. }
  rewrite <- Epath, Etn in En. simpl in En.
  destruct (to_table _ _ _ _ _ _ H _ _ Etn) as (Htn0 & _).
  ostep. eapply own_mlift; [exact Eb|]. ostep. eapply own_load_slot; [done..|]. ostep. rewrite En.
  eapply own_massert; [by destruct (Z.eqb_spec tn 0)|].
  assert (Elinks : LFinal ta b :: path_links tabs d = path_links tabs (S d)).
  { simpl. by rewrite Hta, (path_nth _ _ Eb). }
  rewrite Elinks. apply IH; [lia|lia|done..].
Qed.

Lemma own_prune d h root E tabs Q :
  (d <= lvl D (rlen r))%nat -> trie_ok D h root E (path_to d) tabs ->
  (forall h' tabs', trie_ok D h' root E [] tabs' -> table_frame h h' -> Q tt h') ->
  own (trie_prune (path_links tabs d)) h Q.
Proof.
  revert h tabs. induction d as [|d IH]; intros h tabs Hd H HQ; cbn [path_links trie_prune].
  { apply own_ret. eapply HQ; [by rewrite take_0 in H|apply table_frame_refl]. }
  destruct (path_byte D HD r Hw Hl d ltac:(lia)) as (b & Eb & Hb & Epath). rewrite (path_nth _ _ Eb).
  assert (is_Some (tabs !! path_to (S d))) as [tn Etn] by (apply (to_dom _ _ _ _ _ _ H); right; by left).
  assert (is_Some (tabs !! path_to d)) as [ta Eta] by (eapply to_dom_passed; [exact H|by rewrite <- Epath, Etn]).
  destruct (slot_on_path D HD r Hw Hl _ _ _ _ _ _ _ _ H Eta Hb ltac:(lia)) as (t & s & Et & Hta0 & Ebs & Es & En).
  rewrite <- Epath, Etn in En. simpl in En. rewrite Eta. change (default 0 (Some ta)) with ta.
  destruct (to_table _ _ _ _ _ _ H _ _ Etn) as (Htn0 & ttn & Ettn & _).
  ostep. change (LFinal ta b) with (slot_link true ta b). eapply own_load_slot_link; [done..|]. cbn [slot_get]. rewrite En.
  ostep. unfold trie_table_empty. ostep. eapply own_load_trie; [done..|]. apply own_ret. ostep. unfold mwhen.
  pose proof (length_path_to D HD r Hw Hl d ltac:(lia)) as Hlend. pose proof (lvl_le D (rlen r)) as HlD.
  destruct (forallb slot_empty ttn) eqn:Hempty.
  - assert (Hpass : forall a ra, E !! a = Some ra -> ~ path_to d ++ [b] `prefix_of` rpath D ra).
    { intros a ra Ha Hp. rewrite <- Epath in Hp. pose proof (table_not_empty _ _ _ _ _ _ _ _ _ H Etn Ettn Ha Hp). congruence. }
    assert (Hne : ta <> tn).
    { intros ->. pose proof (to_inj _ _ _ _ _ _ H _ _ _ Etn Eta) as E1. apply (f_equal length) in E1.
      rewrite Hlend, (length_path_to D HD r Hw Hl) in E1 by lia. lia. }
    ostep. eapply own_free; [done..|]. change (LFinal ta b) with (slot_link true ta b).
    eapply own_store_slot_link; [rewrite lookup_delete_ne by done; exact Et|done|exact Ebs|]. cbn [slot_set].
    rewrite Epath in H, Etn.
    assert (H' := trie_shut _ _ _ _ _ _ _ _ _ _ H Eta Et Es Hb Etn ltac:(lia) Hpass).
    rewrite <- (path_links_ext tabs (delete (path_to d ++ [b]) tabs)).
    2:{ intros d' Hd'. rewrite lookup_delete_ne; [done|]. intros E1. apply (f_equal length) in E1.
        rewrite length_app, Hlend, (length_path_to D HD r Hw Hl) in E1 by lia. simpl in E1. lia. }
    apply IH; [lia|exact H'|]. intros h' tabs' Hok Hfr. eapply HQ; [exact Hok|].
    eapply table_frame_trans; [|exact Hfr]. apply (table_frame_trans _ (delete tn h)).
    + eapply (table_frame_alter h tn None []); [by rewrite Ettn|by right].
    + eapply table_frame_alter; [|left; done]. rewrite lookup_delete_ne by done. by rewrite Et.
  - apply own_ret. destruct (table_not_empty_inv _ _ _ _ _ _ _ H Etn Ettn Hempty) as (o & ro & Ho & Hp).
    apply IH; [lia| |done]. split; try apply H. intros π. rewrite (to_dom _ _ _ _ _ _ H). split.
    + intros [?|[Hpi|?]]; [tauto| |tauto]. right. right. exists o, ro. split; [done|]. by etrans.
    + intros [?|[Hpi|?]]; [tauto| |tauto]. right. left. rewrite Epath. by apply prefix_app_r.
Qed.
End path.

Lemma own_trie_del plist l m o e E tabs h Q :
  h !! plist = Some (OList l) -> plist <> 0 ->
  h !! pl_master l = Some (OMaster m) -> pl_master l <> 0 -> trie_depth m = D ->
  h !! o = Some (OEntry e) -> o <> 0 -> E !! o = None ->
  trie_ok D h (pl_trie l) (<[o := rule_of e]> E) [] tabs ->
  (forall h' tabs', trie_ok D h' (pl_trie l) E [] tabs' -> trie_frame h h' ->
     (forall x, x <> o -> E !! x = None -> best h' x = best h x) -> Q tt h') ->
  own (prefix_list_trie_del plist o) h Q.
Proof.
  intros Hpl Hl0 Hm Hm0 Hdep He Ho HoE H HQ. set (r := rule_of e) in *.
  destruct (to_rules _ _ _ _ _ _ H o r (lookup_insert_eq _ _ _)) as (_ & Hro & Hok). pose proof Hok as [Hw Hlen _].
  assert (Hn := to_numbered _ _ _ _ _ _ H). assert (Hroot := to_root _ _ _ _ _ _ H).
  assert (Hdom := trie_ok_dom_insert D _ _ _ _ _ _ _ H eq_refl HoE).
  assert (Hrules : forall a ra, E !! a = Some ra -> a <> 0 /\ rule_at h a = Some ra /\ rule_ok D ra).
  { intros a ra Ha. apply (to_rules _ _ _ _ _ _ H). rewrite lookup_insert_ne; [done|congruence]. }
  unfold prefix_list_trie_del. ostep. eapply own_load_list; [done..|]. ostep. eapply own_load_master; [done..|].
  ostep. eapply own_load_entry; [done..|]. cbv zeta. rewrite Hdep. ostep.
  change (prefixlen (e_prefix e)) with (rlen r). change (u (e_prefix e)) with (rbytes r).
  replace (rlen r) with (rlen r - 8 * Z.of_nat 0) by lia.
  assert (Hend : is_Some (tabs !! rpath D r)) by (apply Hdom; right; by left).
  eapply (own_del_descend r Hw Hlen _ 0); [lia|lia|exact H|by rewrite take_0|done|].
  intros ta Hta. cbv beta iota. ostep. eapply own_mlift; [by apply last_byte|]. ostep.
  eapply (own_walk D h (pl_trie l) E tabs ta o r Hta HoE Hn Ho Hro Hok Hrules true); [exact H|exact Hdom| |].
  - exists (hd_ptr (chain_end D E r)). split; [|by right].
    destruct (to_table _ _ _ _ _ _ H _ _ Hta) as (_ & t & Et & Hlent & Hs).
    pose proof (slots_bound D r Hok) as Hsb. pose proof (slots_pos D r Hok) as Hsp.
    destruct (lookup_lt_is_Some_2 t (Z.to_nat (first_slot D r))) as [s Es]; [unfold PLC_LEN in Hlent; lia|].
    assert (Hcov : covered (first_slot D r) (slots D r) (Z.of_nat (Z.to_nat (first_slot D r)))) by (unfold covered; lia).
    pose proof (slot_ok_kinds D E o r h true tabs _ _ _ (Hs _ _ Es) (kind D r) (own_kind_last D r Hok)) as Hc.
    rewrite (rules_of_ptrs D h E o r HoE Hn Hok Hrules true _ Hcov) in Hc. by apply chain_split in Hc as (? & _).
  - intros h2 H2 Hfr Hb2. apply (own_prune r Hw Hlen _ _ (pl_trie l) E tabs); [lia|exact H2|].
    intros h3 tabs3 H3 Hfr3. eapply HQ; [exact H3| |].
    + eapply trie_frame_trans; [done|by apply table_frame_trie].
    + intros x Hx HxE. rewrite <- Hb2 by done. by apply table_frame_best.
Qed.
End remove.
