(* ===== verification/PlistApply.v ===== *)
(** * The decision of a prefix list

    [best_in_trie] finds the matching rule with the smallest number among all
    rules, though it looks at the chains on the path of the prefix only; and
    [prefix_entry_dup_check] finds a rule with the same policy if there is one. *)

From S2P Require Import Prelude SepLogic Heap Own FrrPrefix FrrPrefixBits Plist PlistChain PlistWalk PlistSlot PlistTrie PlistInstall.

#[local] Open Scope Z_scope.

(** [prefix_list_entry_match] *)
Definition matches (r : rule) (p : prefix) : bool :=
  bool_decide (family_code (p_family (r_prefix r)) = family_code (p_family p)) &&
  bool_decide (net (r_prefix r) `prefix_of` net p) &&
  (if (r_le r =? 0) && (r_ge r =? 0) then rlen r =? prefixlen p
   else ((r_le r =? 0) || (prefixlen p <=? r_le r)) && ((r_ge r =? 0) || (r_ge r <=? prefixlen p))).

Lemma entry_match_eq e p :
  prefix_wf (e_prefix e) -> prefix_wf p -> prefix_list_entry_match e p = Ret (matches (rule_of e) p).
Proof.
  intros He Hp. unfold prefix_list_entry_match, matches, rlen. cbn [r_prefix r_le r_ge rule_of].
  destruct (Z.eqb_spec (family_code (p_family (e_prefix e))) (family_code (p_family p))) as [E|E]; cbn [negb].
  2:{ by rewrite bool_decide_false. }
  rewrite (bool_decide_true (_ = _)) by done. rewrite prefix_match_eq by done. cbn [mbind res_bind andb].
  case_bool_decide; cbn [negb andb]; [|done]. rewrite !Z.leb_antisym.
  destruct (Z.eqb_spec (e_le e) 0), (Z.eqb_spec (e_ge e) 0); cbn [negb andb orb]; try done;
    repeat (case_match; cbn [negb andb orb]); done.
Qed.

(** ** Equal prefixes *)
Definition samep (p q : prefix) : bool :=
  match prefix_same (Some p) (Some q) with Ret b => b | _ => false end.

Lemma samep_spec p q :
  prefix_wf p -> prefix_wf q -> prefix_same (Some p) (Some q) = Ret (samep p q) /\
  (samep p q = true -> prefixlen p = prefixlen q /\
     exists n, copied_bytes (p_family p) = Ret n /\ take (Z.to_nat n) (u p) = take (Z.to_nat n) (u q)).
Proof.
  intros Hp Hq. unfold samep, prefix_same. destruct (_ && _) eqn:Ecase; [|done].
  apply andb_true_iff in Ecase as [_ El%Z.eqb_eq].
  assert (Hcmp : forall n, (n <= 40)%nat -> copied_bytes (p_family p) = Ret (Z.of_nat n) ->
    (i ← memcmp (u p) (u q) (Z.of_nat n); Ret (i =? 0)) =
      Ret (match (i ← memcmp (u p) (u q) (Z.of_nat n); Ret (i =? 0)) with Ret b => b | _ => false end) /\
    (match (i ← memcmp (u p) (u q) (Z.of_nat n); Ret (i =? 0)) with Ret b => b | _ => false end = true ->
     prefixlen p = prefixlen q /\ exists n, copied_bytes (p_family p) = Ret n /\ take (Z.to_nat n) (u p) = take (Z.to_nat n) (u q))).
  { intros n Hn Ec. destruct (memcmp_eq (u p) (u q) n (pw_size _ Hp) (pw_size _ Hq) Hn) as (i & Ei & Hi).
    rewrite Ei. cbn [mbind res_bind]. split; [done|]. intros E0%Z.eqb_eq. split; [done|]. exists (Z.of_nat n).
    split; [done|]. rewrite Nat2Z.id. by apply Hi. }
  destruct (p_family p) eqn:Ef; try done.
  - apply (Hcmp 4%nat); [lia|done].
  - apply (Hcmp 16%nat); [lia|done].
  - apply (Hcmp 6%nat); [lia|done].
  - apply (Hcmp 36%nat); [lia|done].
Qed.

(** The policy of an entry without its number *)
Definition same_policy (r n : rule) : bool :=
  samep (r_prefix r) (r_prefix n) && bool_decide (r_type r = r_type n) && (r_le r =? r_le n) && (r_ge r =? r_ge n).

(** ** Matching rules are on the path of the prefix *)
Lemma bits_div x s :
  is_byte x -> (s <= 8)%nat -> x / 2 ^ (8 - Z.of_nat s) = bval (take s (bits8 x)).
Proof.
  intros Hx Hs. symmetry. apply (Z.div_unique _ _ _ (bval (drop s (bits8 x)))).
  - left. pose proof (bval_bound (drop s (bits8 x))) as Hb. rewrite length_drop, length_bits8 in Hb.
    by replace (Z.of_nat (8 - s)) with (8 - Z.of_nat s) in Hb by lia.
  - rewrite <- (bits8_val x Hx) at 1. rewrite <- (take_drop s (bits8 x)) at 1. rewrite bval_app, length_drop, length_bits8.
    replace (Z.of_nat (8 - s)) with (8 - Z.of_nat s) by lia. lia.
Qed.

Section apply.
Context (D : nat) (HD : (1 <= D)%nat).

Lemma matches_path r p :
  rule_ok D r -> prefix_wf p -> net (r_prefix r) `prefix_of` net p ->
  rlen r <= prefixlen p /\ rpath D r = take (lvl D (rlen r)) (u p) /\
  exists y, u p !! lvl D (rlen r) = Some y /\ is_byte y /\ in_slot D (kind D r) r (rpath D r) y.
Proof.
  intros [Hw Hl Ha] Hp Hpre. pose proof (length_net _ Hw) as Elr. pose proof (length_net _ Hp) as Elp.
  fold (rlen r) in Elr. pose proof (prefix_length _ _ Hpre) as Hlen. destruct (pw_len _ Hw) as [Hr0 _]. fold (rlen r) in Hr0.
  set (d := lvl D (rlen r)). pose proof (lvl_small D _ Hl) as Hd15. fold d in Hd15.
  assert (Hd : 8 * Z.of_nat d <= rlen r).
  { pose proof (vbits_nonneg D _ Hr0) as Hv. unfold vbits in Hv. fold d in Hv. lia. }
  assert (Ebits : take (Z.to_nat (rlen r)) (abits (rbytes r)) = take (Z.to_nat (rlen r)) (abits (u p))).
  { destruct Hpre as [k Hk].
    assert (E1 : take (Z.to_nat (rlen r)) (net p) = net (r_prefix r)) by (rewrite Hk, take_app_le, take_ge by lia; done).
    rewrite <- (Nat.min_l (Z.to_nat (rlen r)) (Z.to_nat (prefixlen p))) at 2 by lia. rewrite <- take_take. symmetry. exact E1. }
  assert (Epath : take d (rbytes r) = take d (u p)).
  { apply abits_inj; [by apply Forall_take, (pw_bytes _ Hw)|by apply Forall_take, (pw_bytes _ Hp)| |].
    - unfold rbytes. rewrite !length_take, (pw_size _ Hw), (pw_size _ Hp). done.
    - rewrite <- !take_abits_take. apply (f_equal (take (8 * d))) in Ebits. rewrite !take_take in Ebits.
      by rewrite !Nat.min_l in Ebits by lia. }
  destruct (rbyte_lookup D r Hw Hl) as [Ex Hx]. fold d in Ex.
  destruct (lookup_lt_is_Some_2 (u p) d) as [y Ey]; [rewrite (pw_size _ Hp); lia|].
  assert (Hy : is_byte y) by by apply (proj1 (Forall_lookup _ _) (pw_bytes _ Hp) _ _ Ey).
  split; [lia|]. split; [exact Epath|]. exists y. split_and!; [done|done|]. split; [done|]. unfold kind.
  assert (Erest : take (Z.to_nat (rlen r) - 8 * d) (abits (drop d (rbytes r))) = take (Z.to_nat (rlen r) - 8 * d) (abits (drop d (u p)))).
  { rewrite <- (take_drop d (rbytes r)), <- (take_drop d (u p)), Epath, !abits_app in Ebits.
    rewrite !take_app, length_abits, length_take, (pw_size _ Hp), Nat.min_l in Ebits by lia. by apply app_inv_head in Ebits. }
  rewrite (drop_S _ _ _ Ex), (drop_S _ _ _ Ey), !abits_cons in Erest.
  case_bool_decide as Hv.
  - split; [done|]. unfold vbits in Hv. fold d in Hv. apply bits8_inj; [done..|].
    apply (f_equal (take 8)) in Erest. rewrite !take_take, !Nat.min_l in Erest by lia.
    by rewrite !take_app_le, !take_ge in Erest by (rewrite length_bits8; lia).
  - split; [lia|]. unfold width. unfold vbits in *. fold d in Hv |- *.
    replace (rlen r - 8 * Z.of_nat d) with (Z.of_nat (Z.to_nat (rlen r) - 8 * d)) by lia.
    rewrite !bits_div by (done || lia). by rewrite !take_app_le in Erest by (rewrite length_bits8; lia); rewrite Erest.
Qed.

(** ** The best rule *)
Section best.
Context (E : rules) (p : prefix) (Hp : prefix_wf p).

(** [pbest] is the rule that decides among those [V] holds of. *)
Definition best_of (V : Z -> Prop) (pbest : Z) : Prop :=
  (pbest = 0 /\ forall a r, V a -> E !! a = Some r -> matches r p = false) \/
  (pbest <> 0 /\ exists rb, E !! pbest = Some rb /\ matches rb p = true /\
     forall a r, V a -> E !! a = Some r -> matches r p = true -> r_seq rb <= r_seq r).

Lemma best_of_mono (V W : Z -> Prop) pbest :
  (forall a r, W a -> E !! a = Some r -> matches r p = true -> V a) -> best_of V pbest -> best_of W pbest.
Proof.
  intros H [[-> Hb]|(Hb0 & rb & Eb & Hm & Hb)].
  - left. split; [done|]. intros a r Ha Er. destruct (matches r p) eqn:Em; [|done].
    rewrite <- Em. by eapply Hb; [eapply H|].
  - right. split; [done|]. exists rb. split_and!; [done..|]. intros a r Ha Er Em. by eapply Hb; [eapply H|..].
Qed.

Lemma own_best_in_chain fuel h q l (V : Z -> Prop) pbest (Q : Z -> pmem -> Prop) :
  (forall a r, E !! a = Some r -> a <> 0 /\ rule_at h a = Some r /\ rule_ok D r) ->
  chain (best h) q l -> (length l < fuel)%nat -> (forall a, a ∈ l -> is_Some (E !! a)) ->
  best_of V pbest -> (forall b, best_of (fun a => V a \/ a ∈ l) b -> Q b h) ->
  own (best_in_chain fuel p q pbest) h Q.
Proof.
  intros Hrules. revert q l V pbest. induction fuel as [|fuel IH]; intros q [|a l] V pbest Hc Hf Hl Hb HQ;
    simpl in Hf; try lia; cbn [best_in_chain]; simpl in Hc.
  - subst q. apply own_ret. apply HQ. eapply best_of_mono; [|exact Hb]. intros a r [?|?%not_elem_of_nil] _ _; done.
  - destruct Hc as (-> & Ha0 & q2 & Eq & Hq). destruct (Hl a) as [r Er]; [by left|].
    destruct (Hrules _ _ Er) as (_ & Hra & [Hw _ _]). destruct (rule_at_entry _ _ _ Hra) as (e & Ee & Ere).
    assert (Enb : e_next_best e = q2) by (unfold best in Eq; rewrite Ee in Eq; by injection Eq).
    apply own_if; [by intros E0%Z.eqb_eq|]. intros _. ostep. eapply own_load_entry; [done..|].
    assert (Hrest : forall b, best_of (fun x => V x \/ x = a) b -> own (best_in_chain fuel p (e_next_best e) b) h Q).
    { intros b Hb'. rewrite Enb. apply (IH q2 l (fun x => V x \/ x = a) b Hq ltac:(lia)); [|done|].
      - intros x Hx. apply Hl. by right.
      - intros b' Hb''. apply HQ. eapply best_of_mono; [|exact Hb'']. intros x rx. rewrite elem_of_cons. tauto. }
    assert (Ers : e_seq e = r_seq r) by by rewrite <- Ere.
    ostep. destruct Hb as [[-> Hb]|(Hb0 & rb & Eb & Hm & Hb)].
    + apply own_ret. ostep. rewrite <- Ere in Hw.
      eapply own_mlift; [by apply entry_match_eq|]. rewrite Ere. apply Hrest. destruct (matches r p) eqn:Em.
      * right. split; [done|]. exists r. split_and!; [done..|]. intros x rx [Hx| ->] Erx Emx; [|assert (rx = r) as -> by congruence; lia].
        by rewrite (Hb _ _ Hx Erx) in Emx.
      * left. split; [done|]. intros x rx [Hx| ->] Erx; [by eapply Hb|]. assert (rx = r) as -> by congruence. done.
    + destruct (Z.eqb_spec pbest 0); [done|]. destruct (Hrules _ _ Eb) as (_ & Hrb & _).
      destruct (rule_at_entry _ _ _ Hrb) as (eb & Eeb & Ereb).
      assert (Erbs : e_seq eb = r_seq rb) by by rewrite <- Ereb.
      ostep. eapply own_load_entry; [done..|]. apply own_ret. rewrite Ers, Erbs.
      destruct (Z.ltb_spec (r_seq rb) (r_seq r)) as [Hlt|Hge].
      * apply Hrest. right. split; [done|]. exists rb. split_and!; [done..|]. intros x rx [Hx| ->] Erx Emx; [by eapply Hb|].
        assert (rx = r) as -> by congruence. lia.
      * ostep. rewrite <- Ere in Hw. eapply own_mlift; [by apply entry_match_eq|]. rewrite Ere. apply Hrest.
        destruct (matches r p) eqn:Em; right.
        -- split; [done|]. exists r. split_and!; [done..|]. intros x rx [Hx| ->] Erx Emx.
           ++ pose proof (Hb _ _ Hx Erx Emx). lia.
           ++ assert (rx = r) as -> by congruence. lia.
        -- split; [done|]. exists rb. split_and!; [done..|]. intros x rx [Hx| ->] Erx Emx; [by eapply Hb|].
           assert (rx = r) as -> by congruence. congruence.
Qed.

(** A slot's chain of one kind, as the decision walks it *)
Lemma own_best_in_slot h root ex tabs fuel k π ta t s b V pbest (Q : Z -> pmem -> Prop) :
  trie_ok D h root E ex tabs -> tabs !! π = Some ta -> h !! ta = Some (OTable t) -> t !! b = Some s ->
  ~ (k = true /\ (S (length π) < D)%nat) -> (size h <= fuel)%nat -> best_of V pbest ->
  (forall b', best_of (fun a => V a \/ exists r, E !! a = Some r /\ in_slot D k r π (Z.of_nat b)) b' -> Q b' h) ->
  own (best_in_chain (S fuel) p (slot_get k s) pbest) h Q.
Proof.
  intros H Hta Ht Hs Hk Hf Hb HQ. destruct (to_table _ _ _ _ _ _ H _ _ Hta) as (_ & t' & Ht' & _ & Hslots).
  rewrite Ht in Ht'. injection Ht' as <-. destruct (Hslots _ _ Hs) as [Hup Hnext].
  assert (Hc : chain (best h) (slot_get k s) (chain_ptrs D k E π (Z.of_nat b))).
  { destruct k; [|done]. rewrite decide_False in Hnext by tauto. done. }
  pose proof (chain_size _ _ _ Hc) as Hsz.
  assert (Hmem : forall a, a ∈ chain_ptrs D k E π (Z.of_nat b) <-> exists r, E !! a = Some r /\ in_slot D k r π (Z.of_nat b)).
  { intros a. unfold chain_ptrs. rewrite list_elem_of_fmap. split.
    - intros ([a' r] & -> & [Ha Hin]%slot_rules_elem). by exists r.
    - intros (r & Ha & Hin). exists (a, r). split; [done|]. by apply slot_rules_elem. }
  eapply own_best_in_chain; [apply H|exact Hc|lia| |exact Hb|].
  - intros a (r & Ha & _)%Hmem. by eexists.
  - intros b' Hb'. apply HQ. eapply best_of_mono; [|exact Hb']. intros a r [?|?] _ _; [by left|right; by apply Hmem].
Qed.

(** *** The rules of a level *)
Section level.
Context (h : pmem) (root : Z) (tabs : gmap (list Z) Z) (H : trie_ok D h root E [] tabs).

Lemma match_at a r :
  E !! a = Some r -> matches r p = true ->
  0 <= rlen r <= prefixlen p /\ rpath D r = take (lvl D (rlen r)) (u p) /\
  exists y, u p !! lvl D (rlen r) = Some y /\ in_slot D (kind D r) r (rpath D r) y.
Proof.
  intros Er Em. destruct (to_rules _ _ _ _ _ _ H _ _ Er) as (_ & _ & Hok).
  unfold matches in Em. rewrite !andb_true_iff, !bool_decide_eq_true in Em. destruct Em as [[_ Hpre] _].
  destruct (matches_path r p Hok Hp Hpre) as (Hle & Epath & y & Ey & _ & Hin).
  destruct Hok as [[_ _ Hw] _ _]. fold (rlen r) in Hw. split; [lia|eauto].
Qed.

Lemma match_level a r y d :
  E !! a = Some r -> matches r p = true -> lvl D (rlen r) = d -> u p !! d = Some y ->
  in_slot D (kind D r) r (take d (u p)) y.
Proof.
  intros Er Em El Ey. destruct (match_at a r Er Em) as (_ & Epath & y' & Ey' & Hin).
  rewrite El in *. rewrite Epath in Hin. congruence.
Qed.

(** A rule further down is behind the table of the next byte. *)
Lemma match_deeper a r y d :
  E !! a = Some r -> matches r p = true -> (d < lvl D (rlen r))%nat -> u p !! d = Some y ->
  is_Some (tabs !! (take d (u p) ++ [y])).
Proof.
  intros Er Em Hlt Ey. apply (to_dom _ _ _ _ _ _ H). right. right. exists a, r. split; [done|].
  destruct (match_at a r Er Em) as (_ & -> & _). rewrite <- (take_S_r _ _ _ Ey).
  replace (lvl D (rlen r)) with (S d + (lvl D (rlen r) - S d))%nat by lia.
  rewrite <- take_take_drop. by apply prefix_app_r.
Qed.

(** Before the last level every rule ends in its byte. *)
Lemma level_up a r d :
  E !! a = Some r -> matches r p = true -> lvl D (rlen r) = d -> (d < D - 1)%nat -> vbits D (rlen r) <= 8.
Proof.
  intros Er Em El Hd. destruct (match_at a r Er Em) as ([Hr0 _] & _).
  destruct (Z.le_gt_cases (vbits D (rlen r)) 8) as [|Hv]; [done|].
  pose proof (vbits_last D (rlen r) Hr0 ltac:(lia)). lia.
Qed.

(** When the prefix has no bits left, no rule that matches is further down. *)
Lemma level_short a r d :
  E !! a = Some r -> matches r p = true -> prefixlen p - 8 * Z.of_nat d <= 8 -> (d < D)%nat ->
  (lvl D (rlen r) < d)%nat \/ lvl D (rlen r) = d /\ vbits D (rlen r) <= 8.
Proof.
  intros Er Em Hend Hd. destruct (match_at a r Er Em) as (Hle & _). unfold vbits, lvl.
  pose proof (Z.div_mod (rlen r - 1) 8 ltac:(done)). pose proof (Z.mod_pos_bound (rlen r - 1) 8 ltac:(done)). lia.
Qed.

(** The chain [up_chain] of a level has been walked. *)
Lemma best_of_up d y b :
  u p !! d = Some y ->
  best_of (fun a => (exists r, E !! a = Some r /\ (lvl D (rlen r) < d)%nat) \/
    exists r, E !! a = Some r /\ in_slot D false r (take d (u p)) y) b ->
  best_of (fun a => exists r, E !! a = Some r /\
    ((lvl D (rlen r) < d)%nat \/ lvl D (rlen r) = d /\ vbits D (rlen r) <= 8)) b.
Proof.
  intros Ey. apply best_of_mono. intros a r (r' & Er' & Hr') Er Em. assert (r' = r) as -> by congruence.
  destruct Hr' as [?|[El Hv]]; [left; eauto|right]. exists r. split; [done|].
  pose proof (match_level a r y d Er Em El Ey) as Hin. unfold kind in Hin. by rewrite bool_decide_false in Hin by lia.
Qed.
End level.

Lemma own_best_in_trie depth d ta pbest h root tabs (Q : Z -> pmem -> Prop) :
  trie_ok D h root E [] tabs -> depth = (D - d)%nat -> (d < D)%nat ->
  8 * Z.of_nat d <= prefixlen p -> tabs !! take d (u p) = Some ta ->
  best_of (fun a => exists r, E !! a = Some r /\ (lvl D (rlen r) < d)%nat) pbest ->
  (forall b, best_of (fun _ => True) b -> Q b h) ->
  own (best_in_trie depth p ta (Z.of_nat d) (prefixlen p - 8 * Z.of_nat d) pbest) h Q.
Proof.
  intros H. revert d ta pbest. induction depth as [|depth IH]; intros d ta pbest Edepth HdD Hd Hta Hb HQ; [lia|].
  cbn [best_in_trie]. destruct (pw_len _ Hp) as [_ Hp320].
  destruct (lookup_lt_is_Some_2 (u p) d) as [y Ey]; [rewrite (pw_size _ Hp); lia|].
  assert (Hy : is_byte y) by by apply (proj1 (Forall_lookup _ _) (pw_bytes _ Hp) _ _ Ey).
  destruct (to_table _ _ _ _ _ _ H _ _ Hta) as (Hta0 & t & Et & Hlent & Hslots).
  unfold is_byte in Hy. destruct (lookup_lt_is_Some_2 t (Z.to_nat y)) as [s Es]; [unfold PLC_LEN in Hlent; lia|].
  assert (Hlenpath : length (take d (u p)) = d) by (rewrite length_take, (pw_size _ Hp); lia).
  ostep. eapply own_mlift; [by apply byte_lookup|]. ostep.
  eapply own_load_slot; [done|done|rewrite block_get_lookup by lia; exact Es|]. ostep. apply own_fuel. intros fuel Hfuel. ostep.
  eapply (own_best_in_slot h root [] tabs fuel false (take d (u p)) ta t s (Z.to_nat y)); [done..|by intros []|done|exact Hb|].
  intros b1 Hb1. rewrite Z2Nat.id in Hb1 by lia. apply (best_of_up h root tabs H d y b1 Ey) in Hb1 as Hup.
  clear Hb Hb1. unfold PLC_BITS. destruct (Z.leb_spec (prefixlen p - 8 * Z.of_nat d) 8) as [Hend|Hmore].
  { apply own_ret, HQ. eapply best_of_mono; [|exact Hup]. intros a r _ Er Em. exists r. split; [done|].
    by apply (level_short h root tabs H a). }
  destruct depth as [|depth'].
  { eapply (own_best_in_slot h root [] tabs fuel true (take d (u p)) ta t s (Z.to_nat y)); [done..|rewrite Hlenpath; lia|done|exact Hup|].
    intros b2 Hb2. apply HQ. eapply best_of_mono; [|exact Hb2]. intros a r _ Er Em. rewrite Z2Nat.id by lia.
    pose proof (lvl_le D (rlen r)) as Hll. destruct (decide (lvl D (rlen r) < d)%nat); [left; eauto|].
    assert (El : lvl D (rlen r) = d) by lia. destruct (decide (vbits D (rlen r) <= 8)); [left; eauto|].
    right. exists r. split; [done|]. pose proof (match_level h root tabs H a r y d Er Em El Ey) as Hin. unfold kind in Hin.
    by rewrite bool_decide_true in Hin by lia. }
  destruct (Hslots _ _ Es) as [_ Hnext]. rewrite Hlenpath, decide_True, Z2Nat.id in Hnext by lia.
  destruct (tabs !! (take d (u p) ++ [y])) as [tn|] eqn:Etn; simpl in Hnext; rewrite Hnext.
  - destruct (to_table _ _ _ _ _ _ H _ _ Etn) as (Htn0 & _). destruct (Z.eqb_spec tn 0); [done|].
    replace (Z.of_nat d + 1) with (Z.of_nat (S d)) by lia.
    replace (prefixlen p - 8 * Z.of_nat d - 8) with (prefixlen p - 8 * Z.of_nat (S d)) by lia.
    apply IH; [lia|lia|lia|by rewrite (take_S_r _ _ _ Ey)| |done].
    eapply best_of_mono; [|exact Hup]. intros a r (r' & Er' & Hr') Er Em. assert (r' = r) as -> by congruence.
    exists r. split; [done|]. destruct (decide (lvl D (rlen r) < d)%nat); [by left|]. right.
    split; [lia|]. eapply (level_up h root tabs H a r d Er Em); lia.
  - simpl. apply own_ret, HQ. eapply best_of_mono; [|exact Hup]. intros a r _ Er Em. exists r. split; [done|].
    destruct (decide (lvl D (rlen r) < d)%nat); [by left|]. right.
    destruct (decide (lvl D (rlen r) = d)) as [El|].
    { split; [done|]. eapply (level_up h root tabs H a r d Er Em); lia. }
    destruct (match_deeper h root tabs H a r y d Er Em ltac:(lia) Ey) as [? ?]. congruence.
Qed.
End best.

(** ** Rules with the same policy *)
Section dup.
Context (E : rules) (n : rule) (Hwn : prefix_wf (r_prefix n)) (Hln : rlen n <= 128) (Hfits : fits (r_prefix n)).

(** A rule with the same prefix is in the same slots. *)
Lemma samep_slot r :
  prefix_wf (r_prefix r) -> samep (r_prefix r) (r_prefix n) = true ->
  rpath D r = rpath D n /\ in_slot D (kind D n) r (rpath D n) (rbyte D n).
Proof.
  intros Hw Hs. destruct (samep_spec _ _ Hw Hwn) as [_ Hsp].
  destruct (Hsp Hs) as (El & k & Ek & Eu). fold (rlen r) in El. fold (rlen n) in El.
  destruct Hfits as (k2 & Ek2 & Hk2).
  assert (k2 = k) as ->.
  { unfold samep, prefix_same in Hs. destruct (_ && _) eqn:Ec; [|done]. apply andb_true_iff in Ec as [Ef%Z.eqb_eq _].
    clear - Ef Ek Ek2. destruct (p_family (r_prefix r)), (p_family (r_prefix n)); simpl in *; congruence. }
  fold (rlen n) in Hk2. pose proof (copied_bytes_bound _ _ Ek) as Hk. destruct (pw_len _ Hwn) as [Hn0 _]. fold (rlen n) in Hn0.
  assert (Hlvl : (lvl D (rlen n) <= Z.to_nat ((rlen n - 1) / 8))%nat) by (unfold lvl; lia).
  pose proof (Z.div_mod (rlen n - 1) 8 ltac:(done)). pose proof (Z.mod_pos_bound (rlen n - 1) 8 ltac:(done)).
  assert (Etake : forall j, (j <= Z.to_nat k)%nat -> take j (rbytes r) = take j (rbytes n)).
  { intros j Hj. apply (f_equal (take j)) in Eu. by rewrite !take_take, !Nat.min_l in Eu by done. }
  assert (Epath : rpath D r = rpath D n) by (unfold rpath; rewrite El; apply Etake; lia).
  split; [done|]. split; [done|].
  assert (Eb : rlen n = 0 \/ rbyte D r = rbyte D n).
  { destruct (decide (rlen n = 0)); [by left|right]. destruct (rbyte_lookup D n Hwn Hln) as [En _].
    destruct (rbyte_lookup D r Hw ltac:(lia)) as [Er _]. rewrite El in Er.
    rewrite <- (lookup_take_lt (rbytes r) (S (lvl D (rlen n)))) in Er by lia.
    rewrite <- (lookup_take_lt (rbytes n) (S (lvl D (rlen n)))) in En by lia. rewrite Etake in Er by lia. congruence. }
  unfold kind, width. rewrite El. case_bool_decide as Hv.
  - split; [done|]. destruct Eb as [Eb|Eb]; [|done]. unfold vbits in Hv. lia.
  - split; [lia|]. destruct Eb as [Eb| ->]; [|done]. destruct (rbyte_lookup D n Hwn Hln) as [_ Hbn].
    destruct (rbyte_lookup D r Hw ltac:(lia)) as [_ Hbr]. unfold is_byte in *.
    rewrite Eb. change (vbits D 0) with (0 - 8 * Z.of_nat (lvl D 0)). unfold lvl. change (Z.to_nat ((0 - 1) / 8)) with 0%nat.
    rewrite Nat.min_0_r. change (2 ^ (8 - (0 - 8 * Z.of_nat 0))) with 256. by rewrite !Z.div_small.
Qed.

Definition dup_of (seq : Z) (r : rule) : bool := same_policy r n && negb (r_seq r =? seq).

Lemma own_dup_in_chain fuel h q l en seq (Q : Z -> pmem -> Prop) :
  (forall a r, E !! a = Some r -> a <> 0 /\ rule_at h a = Some r /\ rule_ok D r) -> rule_of en = n ->
  chain (best h) q l -> (length l < fuel)%nat -> (forall a, a ∈ l -> is_Some (E !! a)) ->
  ((forall a r, a ∈ l -> E !! a = Some r -> dup_of seq r = false) -> Q 0 h) ->
  (forall a r, E !! a = Some r -> dup_of seq r = true -> Q a h) ->
  own (dup_in_chain fuel en seq q) h Q.
Proof.
  intros Hrules Hen. revert q l. induction fuel as [|fuel IH]; intros q [|a l] Hc Hf Hl HQ0 HQ;
    simpl in Hf; try lia; cbn [dup_in_chain]; simpl in Hc.
  - subst q. apply own_ret, HQ0. by intros a r ?%not_elem_of_nil.
  - destruct Hc as (-> & Ha0 & q2 & Eq & Hq). destruct (Hl a) as [r Er]; [by left|].
    destruct (Hrules _ _ Er) as (_ & Hra & [Hw _ _]). destruct (rule_at_entry _ _ _ Hra) as (e & Ee & Ere).
    assert (Enb : e_next_best e = q2) by (unfold best in Eq; rewrite Ee in Eq; by injection Eq).
    apply own_if; [by intros E0%Z.eqb_eq|]. intros _. ostep. eapply own_load_entry; [done..|]. ostep.
    assert (Ep : e_prefix en = r_prefix n) by by rewrite <- Hen. assert (Epr : e_prefix e = r_prefix r) by by rewrite <- Ere.
    rewrite Ep, Epr. eapply own_mlift; [by apply (samep_spec _ _ Hw Hwn)|].
    assert (Ecase : samep (r_prefix r) (r_prefix n) && bool_decide (e_type e = e_type en) && (e_le e =? e_le en) &&
        (e_ge e =? e_ge en) && negb (e_seq e =? seq) = dup_of seq r) by (unfold dup_of, same_policy; by rewrite <- Ere, <- Hen).
    rewrite Ecase. destruct (dup_of seq r) eqn:Ed.
    + apply own_ret. by eapply HQ.
    + rewrite Enb. eapply (IH q2 l Hq); [lia| | |done].
      * intros b Hb. apply Hl. by right.
      * intros Hall. apply HQ0. intros b rb [->|Hb]%elem_of_cons Hbr; [congruence|by eapply Hall].
Qed.

(** The chain the rule itself would enter *)
Lemma own_last_chain ta h root tabs (Q : Z -> pmem -> Prop) :
  trie_ok D h root E [] tabs -> tabs !! rpath D n = Some ta ->
  (forall q l, chain (best h) q l -> (forall a, a ∈ l -> is_Some (E !! a)) ->
     (forall a r, E !! a = Some r -> samep (r_prefix r) (r_prefix n) = true -> a ∈ l) -> Q q h) ->
  own (b ← mlift (byte (rbytes n) (Z.of_nat (lvl D (rlen n)))); s ← load_slot ta b;
    mret (if PLC_BITS <? vbits D (rlen n) then next_table s else up_chain s)) h Q.
Proof.
  intros H Hta HQ. pose proof Hwn as Hw. pose proof Hln as Hl. ostep. eapply own_mlift; [by apply last_byte|]. ostep.
  destruct (to_table _ _ _ _ _ _ H _ _ Hta) as (Hta0 & t & Et & Hlent & Hslots).
  destruct (rbyte_lookup D n Hw Hl) as [_ Hbn]. unfold is_byte in Hbn.
  destruct (lookup_lt_is_Some_2 t (Z.to_nat (rbyte D n))) as [s Es]; [unfold PLC_LEN in Hlent; lia|].
  eapply own_load_slot; [exact Et|exact Hta0|rewrite block_get_lookup by lia; exact Es|]. apply own_ret.
  apply (HQ _ (chain_ptrs D (kind D n) E (rpath D n) (rbyte D n))).
  - unfold PLC_BITS. pose proof (kind_last D n Hw Hl) as Hk. destruct (Hslots _ _ Es) as [H1 H2].
    rewrite Z2Nat.id in H1, H2 by lia. unfold kind in *. destruct (Z.ltb_spec 8 (vbits D (rlen n))).
    + rewrite bool_decide_true in * by done. by rewrite decide_False in H2 by tauto.
    + by rewrite bool_decide_false by lia.
  - intros a ([a' r] & -> & [Ha _]%slot_rules_elem)%list_elem_of_fmap. by eexists.
  - intros a r Ha Hs. destruct (to_rules _ _ _ _ _ _ H _ _ Ha) as (_ & _ & [Hwr _ _]).
    apply list_elem_of_fmap. exists (a, r). split; [done|]. apply slot_rules_elem. split; [done|]. by apply samep_slot.
Qed.

Lemma own_dup_chain fuel d ta h root tabs (Q : Z -> pmem -> Prop) :
  trie_ok D h root E [] tabs -> fuel = (D - 1 - d)%nat -> (d <= lvl D (rlen n))%nat ->
  tabs !! take d (rbytes n) = Some ta ->
  (forall q l, chain (best h) q l -> (forall a, a ∈ l -> is_Some (E !! a)) ->
     (forall a r, E !! a = Some r -> samep (r_prefix r) (r_prefix n) = true -> a ∈ l) -> Q q h) ->
  own (dup_chain fuel ta (rbytes n) (Z.of_nat d) (rlen n - 8 * Z.of_nat d)) h Q.
Proof.
  intros H. revert d ta. pose proof Hwn as Hw. pose proof Hln as Hl. induction fuel as [|fuel IH]; intros d ta Ef Hd Hta HQ; cbn [dup_chain].
  - assert (d = lvl D (rlen n)) as -> by (apply level_end; [done..|right; lia]). by eapply own_last_chain.
  - destruct (path_byte D HD n Hw Hl d Hd) as (b & Eb & Hb & Epath).
    unfold PLC_BITS at 1. destruct (8 <? rlen n - 8 * Z.of_nat d) eqn:Ebits.
    2:{ assert (d = lvl D (rlen n)) as -> by (apply level_end; auto). by eapply own_last_chain. }
    pose proof (level_test D n Hw d Hd Ebits ltac:(lia)) as Hlt.
    destruct (slot_on_path D HD n Hw Hl _ _ _ _ _ _ _ _ H Hta Hb Hlt) as (t & s & Et & Hta0 & Ebs & Es & En).
    ostep. eapply own_mlift; [exact Eb|]. ostep. eapply own_load_slot; [done..|]. rewrite <- Epath in En.
    destruct (tabs !! take (S d) (rbytes n)) as [tn|] eqn:Etn; simpl in En; rewrite En.
    + destruct (to_table _ _ _ _ _ _ H _ _ Etn) as (Htn0 & _). destruct (Z.eqb_spec tn 0); [done|].
      replace (Z.of_nat d + 1) with (Z.of_nat (S d)) by lia.
      replace (rlen n - 8 * Z.of_nat d - PLC_BITS) with (rlen n - 8 * Z.of_nat (S d)) by (unfold PLC_BITS; lia).
      apply (IH (S d)); [lia|lia|done..].
    + simpl. apply own_ret, (HQ 0 []); [done|by intros a ?%not_elem_of_nil|]. intros a r Ha Hs. exfalso.
      destruct (to_rules _ _ _ _ _ _ H _ _ Ha) as (_ & _ & [Hwr _ _]). destruct (samep_slot r Hwr Hs) as [Er _].
      assert (is_Some (tabs !! take (S d) (rbytes n))) as [? ?]; [|congruence].
      apply (to_dom _ _ _ _ _ _ H). right. right. exists a, r. split; [done|]. rewrite Er. unfold rpath.
      replace (lvl D (rlen n)) with (S d + (lvl D (rlen n) - S d))%nat by lia.
      rewrite <- take_take_drop. by apply prefix_app_r.
Qed.
End dup.
End apply.
