(* ===== verification/PlistList.v ===== *)
(** * The entries of a prefix list

    The doubly linked list of the entries, beside the trie: what linking and
    unlinking change, and that neither disturbs the other. *)

From stdpp Require Import sorting.
From S2P Require Import Prelude SepLogic Heap Own FrrPrefix FrrPrefixBits Plist PlistChain PlistWalk PlistSlot PlistTrie.

#[local] Open Scope Z_scope.

Definition entry_links (h : pmem) (a : Z) : option (Z * Z) :=
  match h !! a with Some (OEntry e) => Some (e_prev e, e_next e) | _ => None end.

Lemma entry_links_insert h a e b :
  entry_links (<[a := OEntry e]> h) b = if decide (b = a) then Some (e_prev e, e_next e) else entry_links h b.
Proof. unfold entry_links. case_decide as E; [by rewrite E, lookup_insert_eq|by rewrite lookup_insert_ne]. Qed.

(** What linking and unlinking may change *)
Definition link_frame (plist : Z) (h h' : pmem) : Prop :=
  forall x,
  match h !! x with
  | Some (OEntry e) => exists p n, h' !! x = Some (OEntry (set_next n (set_prev p e)))
  | Some (OList l) =>
      if decide (x = plist) then exists hd tl, h' !! x = Some (OList (set_pl_head hd (set_pl_tail tl l)))
      else h' !! x = Some (OList l)
  | o => h' !! x = o
  end.

Lemma link_frame_refl plist h : link_frame plist h h.
Proof.
  intros x. destruct (h !! x) as [[e| |l|]|]; try done.
  - exists (e_prev e), (e_next e). by destruct e.
  - case_decide; [|done]. exists (pl_head l), (pl_tail l). by destruct l.
Qed.

Lemma link_frame_trans plist h1 h2 h3 : link_frame plist h1 h2 -> link_frame plist h2 h3 -> link_frame plist h1 h3.
Proof.
  intros H1 H2 x. specialize (H1 x). specialize (H2 x). destruct (h1 !! x) as [[e| |l|]|]; try by rewrite H1 in H2.
  - destruct H1 as (p & n & E). rewrite E in H2. destruct H2 as (p' & n' & E'). by exists p', n'.
  - case_decide.
    + destruct H1 as (p & n & E). rewrite E in H2. destruct H2 as (p' & n' & E'). by exists p', n'.
    + by rewrite H1 in H2.
Qed.

Lemma link_frame_entry plist h a e f :
  h !! a = Some (OEntry e) -> (exists p n, f e = set_next n (set_prev p e)) ->
  link_frame plist h (<[a := OEntry (f e)]> h).
Proof.
  intros Ha (p & n & Hf) x. destruct (decide (x = a)) as [->|Hne].
  - rewrite lookup_insert_eq, Ha, Hf. eauto.
  - rewrite lookup_insert_ne by done. apply link_frame_refl.
Qed.

Lemma link_frame_list plist h l f :
  h !! plist = Some (OList l) -> (exists hd tl, f l = set_pl_head hd (set_pl_tail tl l)) ->
  link_frame plist h (<[plist := OList (f l)]> h).
Proof.
  intros Ha (p & n & Hf) x. pose proof (link_frame_refl plist h x) as Hr. destruct (decide (x = plist)) as [->|Hne].
  - rewrite lookup_insert_eq, Ha, Hf. eauto.
  - rewrite lookup_insert_ne by done. exact Hr.
Qed.

Lemma set_next_frame v e : exists p n, set_next v e = set_next n (set_prev p e).
Proof. exists (e_prev e), v. by destruct e. Qed.
Lemma set_prev_frame v e : exists p n, set_prev v e = set_next n (set_prev p e).
Proof. exists v, (e_next e). by destruct e. Qed.
Lemma set_pl_head_frame v l : exists hd tl, set_pl_head v l = set_pl_head hd (set_pl_tail tl l).
Proof. exists v, (pl_tail l). by destruct l. Qed.
Lemma set_pl_tail_frame v l : exists hd tl, set_pl_tail v l = set_pl_head hd (set_pl_tail tl l).
Proof. exists (pl_head l), v. by destruct l. Qed.

Lemma link_frame_rule plist h h' a : link_frame plist h h' -> rule_at h' a = rule_at h a.
Proof.
  intros H. specialize (H a). unfold rule_at. destruct (h !! a) as [[e| |l|]|]; try by rewrite H.
  - destruct H as (p & n & ->). done.
  - case_decide; [by destruct H as (? & ? & ->)|by rewrite H].
Qed.
Lemma link_frame_best plist h h' a : link_frame plist h h' -> best h' a = best h a.
Proof.
  intros H. specialize (H a). unfold best. destruct (h !! a) as [[e| |l|]|]; try by rewrite H.
  - destruct H as (p & n & ->). done.
  - case_decide; [by destruct H as (? & ? & ->)|by rewrite H].
Qed.
Lemma link_frame_table plist h h' a t : link_frame plist h h' -> h' !! a = Some (OTable t) <-> h !! a = Some (OTable t).
Proof.
  intros H. specialize (H a). destruct (h !! a) as [[e| |l|]|]; try by rewrite H.
  - destruct H as (p & n & ->). done.
  - case_decide; [by destruct H as (? & ? & ->)|by rewrite H].
Qed.

(** The trie depends on the tables and on the rules and links of its entries. *)
Lemma trie_ok_ext D h h' root E ex tabs :
  (forall a t, h' !! a = Some (OTable t) <-> h !! a = Some (OTable t)) ->
  (forall a r, E !! a = Some r -> best h' a = best h a /\ rule_at h' a = rule_at h a) ->
  trie_ok D h root E ex tabs -> trie_ok D h' root E ex tabs.
Proof.
  intros Ht He H. split; try apply H.
  - intros π a Ha. destruct (to_table _ _ _ _ _ _ H _ _ Ha) as (Ha0 & t & Et & Hlen & Hs). split; [done|].
    exists t. split_and!; [by apply Ht|done|]. intros i s Hi. destruct (Hs _ _ Hi) as [H1 H2].
    assert (Hc : forall k q, chain (best h) q (chain_ptrs D k E π (Z.of_nat i)) ->
        chain (best h') q (chain_ptrs D k E π (Z.of_nat i))).
    { intros k q. apply chain_ext. intros b ([b' r] & -> & [Hb _]%slot_rules_elem)%list_elem_of_fmap.
      by apply (He _ _ Hb). }
    split; [by apply Hc|]. case_decide; [done|by apply Hc].
  - intros a t Ha. apply Ht in Ha. by eapply (to_all _ _ _ _ _ _ H).
  - intros a r Ha. destruct (to_rules _ _ _ _ _ _ H _ _ Ha) as (Ha0 & Hr & Hok). split_and!; [done| |done].
    destruct (He _ _ Ha) as [_ ->]. done.
Qed.

Lemma trie_ok_links D plist h h' root E ex tabs :
  link_frame plist h h' -> trie_ok D h root E ex tabs -> trie_ok D h' root E ex tabs.
Proof.
  intros Hf. apply trie_ok_ext; [intros; by eapply link_frame_table|]. intros a r _.
  split; [by eapply link_frame_best|by eapply link_frame_rule].
Qed.

Lemma trie_frame_links h h' a : trie_frame h h' -> entry_links h' a = entry_links h a.
Proof.
  intros H. specialize (H a). unfold entry_links. destruct (h !! a) as [[e|t| |]|]; try by rewrite H.
  - by destruct H as (v & ->).
  - by destruct H as [->|(t' & ->)].
  - by destruct H as [->|(t' & ->)].
Qed.
Lemma trie_frame_list h h' a l : trie_frame h h' -> h !! a = Some (OList l) -> h' !! a = Some (OList l).
Proof. intros H E. specialize (H a). by rewrite E in H. Qed.
Lemma trie_frame_master h h' a m : trie_frame h h' -> h !! a = Some (OMaster m) -> h' !! a = Some (OMaster m).
Proof. intros H E. specialize (H a). by rewrite E in H. Qed.
Lemma link_frame_master plist h h' a m : link_frame plist h h' -> h !! a = Some (OMaster m) -> h' !! a = Some (OMaster m).
Proof. intros H E. specialize (H a). by rewrite E in H. Qed.

(** ** Linking *)
Definition set_snd (v : Z) (pn : Z * Z) : Z * Z := (pn.1, v).
Definition set_fst (v : Z) (pn : Z * Z) : Z * Z := (v, pn.2).

Section links.
Context (plist : Z) (l : prefix_list) (Hpl : plist <> 0).

(** The link to a node from the left: [next] of the last node before it, or
    the head *)
Lemma own_link_left h l1 v Q :
  h !! plist = Some (OList l) ->
  (forall x, last l1 = Some x -> x <> 0 /\ exists e, h !! x = Some (OEntry e)) ->
  (forall h', h' !! plist = Some (OList (if l1 is [] then set_pl_head v l else l)) -> link_frame plist h h' ->
     (forall y, entry_links h' y = if decide (last l1 = Some y) then set_snd v <$> entry_links h y else entry_links h y) ->
     Q tt h') ->
  own (if negb (last_or 0 l1 =? 0) then update_entry (last_or 0 l1) (set_next v) else update_list plist (set_pl_head v)) h Q.
Proof.
  intros Hl Hlast HQ. destruct (list_snoc_case l1) as [->|(l1' & x & ->)].
  - eapply own_update_list; [done..|]. apply HQ.
    + by rewrite lookup_insert_eq.
    + apply link_frame_list; [done|apply set_pl_head_frame].
    + intros y. rewrite decide_False by done. unfold entry_links. destruct (decide (y = plist)) as [->|].
      * by rewrite lookup_insert_eq, Hl.
      * by rewrite lookup_insert_ne.
  - rewrite last_or_snoc. destruct (Hlast x) as (Hx & e & Ee); [by rewrite last_snoc|].
    destruct (Z.eqb_spec x 0); [done|]. cbn [negb]. eapply own_update_entry; [done..|]. apply HQ.
    + rewrite lookup_insert_ne by congruence. rewrite Hl. by destruct l1'.
    + apply link_frame_entry; [done|apply set_next_frame].
    + intros y. rewrite entry_links_insert, last_snoc. destruct (decide (y = x)) as [->|Hne].
      * rewrite decide_True by done. unfold entry_links. by rewrite Ee.
      * by rewrite decide_False by congruence.
Qed.

Lemma own_link_right h l2 v Q :
  h !! plist = Some (OList l) ->
  (forall x, head l2 = Some x -> x <> 0 /\ exists e, h !! x = Some (OEntry e)) ->
  (forall h', h' !! plist = Some (OList (if l2 is [] then set_pl_tail v l else l)) -> link_frame plist h h' ->
     (forall y, entry_links h' y = if decide (head l2 = Some y) then set_fst v <$> entry_links h y else entry_links h y) ->
     Q tt h') ->
  own (if negb (hd_or 0 l2 =? 0) then update_entry (hd_or 0 l2) (set_prev v) else update_list plist (set_pl_tail v)) h Q.
Proof.
  intros Hl Hhead HQ. destruct l2 as [|x l2].
  - eapply own_update_list; [done..|]. apply HQ.
    + by rewrite lookup_insert_eq.
    + apply link_frame_list; [done|apply set_pl_tail_frame].
    + intros y. rewrite decide_False by done. unfold entry_links. destruct (decide (y = plist)) as [->|].
      * by rewrite lookup_insert_eq, Hl.
      * by rewrite lookup_insert_ne.
  - simpl. destruct (Hhead x) as (Hx & e & Ee); [done|].
    destruct (Z.eqb_spec x 0); [done|]. cbn [negb]. eapply own_update_entry; [done..|]. apply HQ.
    + rewrite lookup_insert_ne by congruence. done.
    + apply link_frame_entry; [done|apply set_prev_frame].
    + intros y. rewrite entry_links_insert. simpl. destruct (decide (y = x)) as [->|Hne].
      * rewrite decide_True by done. unfold entry_links. by rewrite Ee.
      * by rewrite decide_False by congruence.
Qed.
End links.

(** The doubly linked list of the entries at [as] *)
Record dll_ok (h : pmem) (l : prefix_list) (ps : list Z) : Prop := {
  dk_seg : dseg (entry_links h) 0 ps 0;
  dk_head : pl_head l = hd_or 0 ps;
  dk_tail : pl_tail l = last_or 0 ps;
  dk_nodup : NoDup ps
}.

Lemma dll_entry h l ps a : dll_ok h l ps -> a ∈ ps -> a <> 0 /\ exists e, h !! a = Some (OEntry e).
Proof.
  intros H Ha. destruct (dseg_nonzero _ _ _ _ _ (dk_seg _ _ _ H) Ha) as [H0 [x Hx]]. split; [done|].
  unfold entry_links in Hx. destruct (h !! a) as [[]|]; try done. eauto.
Qed.

Lemma head_in_list {A} (l : list A) x : head l = Some x -> x ∈ l.
Proof. destruct l; [done|]. intros [= ->]. by left. Qed.
Lemma last_in_list {A} (l : list A) x : last l = Some x -> x ∈ l.
Proof. intros (l' & ->)%last_Some. apply elem_of_app. right. by left. Qed.

Lemma own_entry_unlink plist l o l1 l2 h Q :
  h !! plist = Some (OList l) -> plist <> 0 -> dll_ok h l (l1 ++ o :: l2) ->
  (forall h' l', h' !! plist = Some (OList l') -> (exists hd tl, l' = set_pl_head hd (set_pl_tail tl l)) ->
     dll_ok h' l' (l1 ++ l2) -> link_frame plist h h' -> Q tt h') ->
  own (entry_unlink plist o) h Q.
Proof.
  intros Hl Hpl [Hseg Hhd Htl Hnd] HQ. pose proof Hnd as (Hnd1 & Hnd12 & Hnd2)%NoDup_app.
  apply NoDup_cons in Hnd2 as [Ho2 Hnd2].
  assert (Ho1 : o ∉ l1) by (intros Ho; apply (Hnd12 o Ho); by left).
  assert (Hent : forall a, a ∈ l1 ++ o :: l2 -> a <> 0 /\ exists e, h !! a = Some (OEntry e)).
  { intros a Ha. by eapply dll_entry. }
  destruct (Hent o) as (Ho0 & e & Ee); [rewrite elem_of_app, elem_of_cons; auto|].
  pose proof Hseg as (_ & _ & Elo & _)%dseg_app. unfold entry_links in Elo. rewrite Ee in Elo.
  injection Elo as Eprev Enext. unfold entry_unlink. ostep. eapply own_load_entry; [done..|]. ostep. rewrite Eprev, Enext.
  eapply own_link_left; [done|done| |].
  { intros x Hx. apply Hent, elem_of_app. left. by apply last_in_list. }
  intros h1 Hl1 Hf1 Hlk1. ostep.
  assert (Ee1 : exists e1, h1 !! o = Some (OEntry e1) /\ e_prev e1 = last_or 0 l1 /\ e_next e1 = hd_or 0 l2).
  { pose proof (Hf1 o) as Hfo. rewrite Ee in Hfo. destruct Hfo as (p & n & Eo). eexists. split; [exact Eo|].
    specialize (Hlk1 o). rewrite decide_False in Hlk1 by (intros ?%last_in_list; done).
    unfold entry_links in Hlk1. rewrite Eo, Ee in Hlk1. simpl in Hlk1. injection Hlk1 as -> ->. done. }
  destruct Ee1 as (e1 & Ee1 & Ep1 & En1). eapply own_load_entry; [done..|]. rewrite Ep1, En1.
  eapply own_link_right; [done|exact Hl1| |].
  { intros x Hx%head_in_list. destruct (Hent x) as (Hx0 & ex & Eex); [rewrite elem_of_app, elem_of_cons; auto|].
    split; [done|]. pose proof (Hf1 x) as Hfx. rewrite Eex in Hfx. destruct Hfx as (p & n & Ex). eauto. }
  intros h2 Hl2 Hf2 Hlk2. eapply HQ; [exact Hl2| | |by eapply link_frame_trans].
  - destruct l1, l2; [exists (hd_or 0 []), (last_or 0 [])|exists (hd_or 0 (z :: l2)), (pl_tail l)|
      exists (pl_head l), (last_or 0 (z :: l1))|exists (pl_head l), (pl_tail l)]; by destruct l.
  - assert (Hoff : forall y, last l1 <> Some y -> head l2 <> Some y -> entry_links h2 y = entry_links h y).
    { intros y H1 H2. rewrite Hlk2, decide_False, Hlk1, decide_False; done. }
    split; [|destruct l1, l2; simpl; simpl in Hhd; done| |].
    + eapply (dseg_remove (entry_links h)); [exact Hnd|exact Hseg| | |].
      * intros y _ H1 H2. by apply Hoff.
      * intros y q m Hy Ey. rewrite Hlk2, decide_False; [|intros ?%head_in_list; apply (Hnd12 y); [by apply last_in_list|by right]].
        rewrite Hlk1, decide_True, Ey by done. done.
      * intros y q m Hy Ey. rewrite Hlk2, decide_True by done.
        rewrite Hlk1, decide_False; [|intros ?%last_in_list; apply (Hnd12 y); [done|right; by apply head_in_list]]. by rewrite Ey.
    + rewrite last_or_app, last_or_cons in Htl. rewrite last_or_app.
      destruct l2 as [|y l2]; simpl; [by destruct l1|]. rewrite last_or_cons in Htl |- *. destruct l1; done.
    + apply NoDup_app. split_and!; [done| |done]. intros x Hx1 Hx2. apply (Hnd12 x Hx1). by right.
Qed.

(** *** An entry enters *)
Section entry_link.
Context (plist : Z) (l : prefix_list) (o : Z) (l1 l2 : list Z) (e : prefix_list_entry) (h : pmem).
Context (Hl : h !! plist = Some (OList l)) (Hpl : plist <> 0) (Hdll : dll_ok h l (l1 ++ l2)).
Context (Ho : h !! o = Some (OEntry e)) (Ho0 : o <> 0) (Hnin : o ∉ l1 ++ l2).

(** After [pentry->next = point] *)
Definition linked_next : pmem := <[o := OEntry (set_next (hd_or 0 l2) e)]> h.

Lemma linked_next_frame : link_frame plist h linked_next.
Proof. apply link_frame_entry; [done|apply set_next_frame]. Qed.
Lemma linked_next_list : linked_next !! plist = Some (OList l).
Proof. unfold linked_next. rewrite lookup_insert_ne by congruence. done. Qed.
Lemma linked_next_links y : y <> o -> entry_links linked_next y = entry_links h y.
Proof. intros Hy. unfold linked_next. by rewrite entry_links_insert, decide_False. Qed.
Lemma linked_next_entry a : a ∈ l1 ++ l2 -> a <> o /\ a <> 0 /\ exists e, linked_next !! a = Some (OEntry e).
Proof.
  intros Ha. destruct (dll_entry _ _ _ _ Hdll Ha) as (Ha0 & ea & Ea).
  assert (Hao : a <> o) by (intros ->; apply Hnin, Ha).
  split_and!; [done|done|]. exists ea. unfold linked_next. by rewrite lookup_insert_ne.
Qed.

Lemma not_in_parts : o ∉ l1 /\ o ∉ l2.
Proof. by apply not_elem_of_app. Qed.

Lemma NoDup_linked : NoDup (l1 ++ o :: l2).
Proof.
  pose proof (dk_nodup _ _ _ Hdll) as (Hnd1 & Hnd12 & Hnd2)%NoDup_app. destruct not_in_parts as [Ho1 Ho2].
  apply NoDup_app. split_and!; [done| |by apply NoDup_cons].
  intros x Hx [->|Hx2]%elem_of_cons; [done|]. by apply (Hnd12 x).
Qed.

(** After the link from the left, and with the entry's own link to the left *)
Lemma linked_left h2 :
  link_frame plist linked_next h2 ->
  (forall y, entry_links h2 y =
     if decide (last l1 = Some y) then set_snd o <$> entry_links linked_next y else entry_links linked_next y) ->
  exists e2, h2 !! o = Some (OEntry e2) /\ e_next e2 = hd_or 0 l2 /\
    dseg (entry_links (<[o := OEntry (set_prev (last_or 0 l1) e2)]> h2)) 0 (l1 ++ [o]) (hd_or 0 l2) /\
    forall y, y ∈ l2 -> entry_links h2 y = entry_links h y.
Proof.
  intros Hf2 Hk2. destruct Hdll as [Hseg Hhd Htl Hnd]. apply NoDup_app in Hnd as (Hnd1 & Hnd12 & _).
  destruct not_in_parts as [Ho1 Ho2]. pose proof (Hf2 o) as Hfo. unfold linked_next in Hfo. rewrite lookup_insert_eq in Hfo.
  destruct Hfo as (p & n & Eo2). eexists. split; [exact Eo2|].
  pose proof (Hk2 o) as Ek. rewrite decide_False in Ek by (intros ?%last_in_list; done).
  unfold entry_links, linked_next in Ek. rewrite lookup_insert_eq, Eo2 in Ek. simpl in Ek. injection Ek as -> ->.
  split_and!; [done| |].
  - pose proof Hseg as (Hseg1 & _)%dseg_app. rewrite <- (app_nil_r l1) in Hseg1, Hnd1.
    apply (dseg_insert (entry_links h) _ _ _ _ _ []); [done| |done| | | |done].
    + rewrite app_nil_r in *. done.
    + by rewrite entry_links_insert, decide_True.
    + intros y Hy Hne _. rewrite app_nil_r in Hy. rewrite entry_links_insert, decide_False by (intros ->; done).
      rewrite Hk2, decide_False by done. apply linked_next_links. by intros ->.
    + intros y q m Hy Ey. apply last_in_list in Hy as Hy'. assert (y <> o) by (intros ->; done).
      rewrite entry_links_insert, decide_False by done. rewrite Hk2, decide_True, linked_next_links, Ey by done. done.
  - intros y Hy. rewrite Hk2, decide_False; [apply linked_next_links; by intros ->|].
    intros Hy'%last_in_list. by apply (Hnd12 y).
Qed.

Context (Q : unit -> pmem -> Prop).
Context (HQ : forall h' l', h' !! plist = Some (OList l') -> (exists hd tl, l' = set_pl_head hd (set_pl_tail tl l)) ->
  dll_ok h' l' (l1 ++ o :: l2) -> link_frame plist h h' -> Q tt h').

Lemma own_link_at_end : l2 = [] -> own (entry_link plist o 0) h Q.
Proof.
  intros El2. pose proof Hdll as [Hseg Hhd Htl Hnd]. pose proof NoDup_linked as Hnd'. rewrite El2, app_nil_r in Htl, Hhd.
  unfold entry_link. ostep. eapply own_update_entry; [done..|].
  replace (<[o := OEntry (set_next 0 e)]> h) with linked_next by (unfold linked_next; by rewrite El2).
  pose proof linked_next_list as Hl1. simpl. ostep. eapply own_load_list; [done..|]. rewrite Htl. ostep.
  eapply own_link_left; [done|exact Hl1| |].
  { intros x Hx. apply last_in_list in Hx. destruct (linked_next_entry x) as (_ & ? & ?); [by rewrite El2, app_nil_r|done]. }
  intros h2 Hl2 Hf2 Hk2. destruct (linked_left h2 Hf2 Hk2) as (e2 & Eo2 & En2 & Hs2 & _).
  ostep. eapply own_load_list; [exact Hl2|done|]. ostep.
  assert (Etl2 : pl_tail (if l1 is [] then set_pl_head o l else l) = last_or 0 l1) by by destruct l1.
  rewrite Etl2. eapply own_update_entry; [done..|]. set (h3 := <[o := _]> h2) in *.
  assert (Hl3 : h3 !! plist = Some (OList (if l1 is [] then set_pl_head o l else l))).
  { unfold h3. rewrite lookup_insert_ne by congruence. done. }
  eapply own_update_list; [exact Hl3|done|]. eapply HQ; [by rewrite lookup_insert_eq| | |].
  - destruct l1; [exists o, o|exists (pl_head l), o]; by destruct l.
  - rewrite El2 in *. split; [| | |done].
    + eapply dseg_ext; [|exact Hs2]. intros a _. unfold entry_links. destruct (decide (a = plist)) as [->|].
      * by rewrite lookup_insert_eq, Hl3.
      * by rewrite lookup_insert_ne.
    + destruct l1; simpl in *; done.
    + rewrite last_or_snoc. by destruct l1.
  - eapply link_frame_trans; [apply linked_next_frame|]. eapply link_frame_trans; [exact Hf2|].
    apply (link_frame_trans _ _ h3); [apply link_frame_entry; [done|apply set_prev_frame]|].
    apply link_frame_list; [done|apply set_pl_tail_frame].
Qed.

Lemma own_link_before y l2' : l2 = y :: l2' -> own (entry_link plist o y) h Q.
Proof.
  intros El2. pose proof Hdll as [Hseg Hhd Htl Hnd]. pose proof NoDup_linked as Hnd'. rewrite El2 in Hseg, Htl, Hhd, Hnd, Hnd'.
  pose proof Hnd as (_ & Hnd12 & Hnd2)%NoDup_app. pose proof Hseg as (_ & Hseg2)%dseg_app. destruct not_in_parts as [Ho1 Ho2]. rewrite El2 in Ho2.
  unfold entry_link. ostep. eapply own_update_entry; [done..|].
  replace (<[o := OEntry (set_next y e)]> h) with linked_next by (unfold linked_next; by rewrite El2). pose proof linked_next_list as Hl1.
  destruct (linked_next_entry y) as (Hyo & Hy0 & ey & Ey); [rewrite El2; apply elem_of_app; right; by left|].
  destruct (Z.eqb_spec y 0); [done|]. simpl. ostep. eapply own_load_entry; [done..|]. ostep.
  assert (Epy : e_prev ey = last_or 0 l1).
  { destruct Hseg2 as (_ & Ely & _). rewrite <- linked_next_links in Ely by done. unfold entry_links in Ely.
    rewrite Ey in Ely. by injection Ely. }
  rewrite Epy. eapply own_link_left; [done|exact Hl1| |].
  { intros x Hx. apply last_in_list in Hx. destruct (linked_next_entry x) as (_ & ? & ?); [apply elem_of_app; by left|done]. }
  intros h2 Hl2 Hf2 Hk2. destruct (linked_left h2 Hf2 Hk2) as (e2 & Eo2 & En2 & Hs2 & Hk2').
  assert (Ey2 : exists ey2, h2 !! y = Some (OEntry ey2) /\ e_prev ey2 = last_or 0 l1 /\ Some (e_prev ey2, e_next ey2) = entry_links h y).
  { pose proof (Hf2 y) as Hfy. rewrite Ey in Hfy. destruct Hfy as (p & n' & Ey2). eexists. split; [exact Ey2|].
    pose proof (Hk2' y ltac:(rewrite El2; by left)) as Ek. unfold entry_links in Ek at 1. rewrite Ey2 in Ek. rewrite Ek. split; [|done].
    destruct Hseg2 as (_ & Ely & _). rewrite Ely in Ek. by injection Ek as -> _. }
  destruct Ey2 as (ey2 & Ey2 & Epy2 & Eky2). ostep. eapply own_load_entry; [done..|]. ostep. rewrite Epy2.
  eapply own_update_entry; [done..|]. set (h3 := <[o := _]> h2) in *.
  assert (Ey3 : h3 !! y = Some (OEntry ey2)) by (unfold h3; by rewrite lookup_insert_ne).
  eapply own_update_entry; [exact Ey3|done|]. eapply HQ.
  - rewrite lookup_insert_ne by congruence. unfold h3. rewrite lookup_insert_ne by congruence. exact Hl2.
  - destruct l1; [exists o, (pl_tail l)|exists (pl_head l), (pl_tail l)]; by destruct l.
  - rewrite El2. split; [|destruct l1; simpl; simpl in Hhd; done| |done].
    + replace (l1 ++ o :: y :: l2') with ((l1 ++ [o]) ++ y :: l2') by by rewrite <- app_assoc.
      rewrite El2 in Hs2. apply dseg_app. split.
      * eapply dseg_ext; [|exact Hs2]. intros a Ha. rewrite entry_links_insert, decide_False; [done|]. intros ->.
        apply elem_of_app in Ha as [Ha|Ha%list_elem_of_singleton]; [|done]. apply (Hnd12 y Ha). by left.
      * rewrite last_or_snoc. eapply (dseg_front (entry_links h)); [done|exact Hseg2| |].
        -- intros z Hz Hne. rewrite entry_links_insert, decide_False by (intros ->; done).
           unfold h3. rewrite entry_links_insert, decide_False by (intros ->; done). apply Hk2'. by rewrite El2.
        -- intros z m [= <-] Ez. rewrite entry_links_insert, decide_True by done. rewrite <- Eky2 in Ez. simpl. congruence.
    + rewrite last_or_app, !last_or_cons. rewrite last_or_app, last_or_cons in Htl. destruct l1; done.
  - eapply link_frame_trans; [apply linked_next_frame|]. eapply link_frame_trans; [exact Hf2|].
    eapply link_frame_trans; apply link_frame_entry; [exact Eo2|apply set_prev_frame|exact Ey3|apply set_prev_frame].
Qed.

Lemma own_entry_link : own (entry_link plist o (hd_or 0 l2)) h Q.
Proof.
  assert (l2 = [] \/ exists y l2', l2 = y :: l2') as [E|(y & l2' & E)] by (clear; destruct l2; eauto).
  - rewrite E. by apply own_link_at_end.
  - rewrite E. by eapply own_link_before.
Qed.
End entry_link.
