(* ===== verification/PlistOps.v ===== *)
(** * The operations on one prefix list

    [plist_ok D h plist l m es extra]: the part [h] of memory is the prefix
    list at [plist], with the entries [es] in the order of their numbers, and
    the entries [extra] that are not in it. *)

From stdpp Require Import sorting.
From S2P Require Import Prelude SepLogic Heap Own FrrPrefix FrrPrefixBits.
From S2P Require Import Plist PlistChain PlistWalk PlistSlot PlistTrie PlistInstall PlistApply PlistList.

#[local] Open Scope Z_scope.

Abbreviation entries := (list (Z * rule)).

Definition seq_lt (x y : Z * rule) : Prop := r_seq x.2 < r_seq y.2.
#[export] Instance seq_lt_trans : Transitive seq_lt.
Proof. intros x y z. unfold seq_lt. lia. Qed.

(** ** What the operations compute *)

(** The first entry that [f] holds of *)
Fixpoint first_with (f : rule -> bool) (es : entries) : Z :=
  match es with
  | [] => 0
  | (a, r) :: es => if f r then a else first_with f es
  end.

Definition max_number (es : entries) : Z := foldl (fun m (x : Z * rule) => if m <? r_seq x.2 then r_seq x.2 else m) 0 es.
(** The next number: a multiple of five, if there is one *)
Definition next_number (es : entries) : Z :=
  let n := max_number es / 5 * 5 + 5 in if UINT_MAX <? n then UINT_MAX else n.

Definition with_seq (v : Z) (r : rule) : rule :=
  Rule v (r_le r) (r_ge r) (r_type r) (r_any r) (r_prefix r) (r_refcnt r).
(** The rule as it is added *)
Definition numbered_rule (es : entries) (r : rule) : rule :=
  if r_seq r =? -1 then with_seq (next_number es) r else r.

(** The entry takes its place; the one with its number is gone. *)
Definition lower (s : Z) (es : entries) : entries := filter (fun x => r_seq x.2 < s) es.
Definition higher (s : Z) (es : entries) : entries := filter (fun x => s < r_seq x.2) es.
Definition insert_entry (x : Z * rule) (es : entries) : entries :=
  lower (r_seq x.2) es ++ x :: higher (r_seq x.2) es.

Section ops.
Context (D : nat).

Record plist_ok (h : pmem) (plist : Z) (l : prefix_list) (m : prefix_master) (es : entries) (extra : list Z) : Prop := {
  pk_list : h !! plist = Some (OList l);
  pk_nonnull : plist <> 0;
  pk_master : h !! pl_master l = Some (OMaster m);
  pk_master_nonnull : pl_master l <> 0;
  pk_depth : trie_depth m = D;
  pk_dom : forall a o, h !! a = Some o ->
    match o with
    | OTable _ => True
    | OEntry _ => a ∈ es.*1 ++ extra
    | OList _ => a = plist
    | OMaster _ => a = pl_master l
    end;
  pk_extra : forall a, a ∈ extra -> a ∉ es.*1;
  pk_trie : exists tabs, trie_ok D h (pl_trie l) (list_to_map es) [] tabs;
  pk_dll : dll_ok h l es.*1;
  pk_count : pl_count l = Z.of_nat (length es);
  pk_small : Z.of_nat (length es) < 2 ^ 31;
  pk_sorted : StronglySorted seq_lt es;
  pk_numbers : Forall (fun x : Z * rule => 0 <= r_seq x.2 <= UINT_MAX) es
}.

(** The fields of a list that only creation and naming change *)
Definition same_list (l l' : prefix_list) : Prop :=
  exists hd tl c, l' = set_pl_count c (set_pl_head hd (set_pl_tail tl l)).

(** Entries outside the list keep what matters for their addition. *)
Definition keeps (extra : list Z) (h h' : pmem) : Prop :=
  forall x, x ∈ extra -> rule_at h' x = rule_at h x /\ best h' x = best h x.

Lemma list_to_map_middle (es1 es2 : entries) o r :
  NoDup (es1 ++ (o, r) :: es2).*1 ->
  list_to_map (es1 ++ (o, r) :: es2) = <[o := r]> (list_to_map (es1 ++ es2) : rules) /\
  (list_to_map (es1 ++ es2) : rules) !! o = None.
Proof.
  intros Hnd. split.
  - rewrite (list_to_map_proper _ ((o, r) :: es1 ++ es2)); [done|done|]. by rewrite Permutation_middle.
  - apply not_elem_of_list_to_map. rewrite fmap_app, fmap_cons in Hnd. simpl in Hnd.
    rewrite fmap_app. rewrite NoDup_app, NoDup_cons in Hnd. rewrite not_elem_of_app. split; [|tauto].
    intros Ho. destruct Hnd as (_ & Hd & _). apply (Hd o Ho). by left.
Qed.

Section facts.
Context (h : pmem) (plist : Z) (l : prefix_list) (m : prefix_master) (es : entries) (extra : list Z).
Context (H : plist_ok h plist l m es extra).

Lemma pk_nodup : NoDup es.*1.
Proof. apply (dk_nodup _ _ _ (pk_dll _ _ _ _ _ _ H)). Qed.

Lemma pk_lookup a r : (list_to_map es : rules) !! a = Some r <-> (a, r) ∈ es.
Proof. symmetry. apply elem_of_list_to_map, pk_nodup. Qed.

Lemma pk_entry a r : (a, r) ∈ es -> a <> 0 /\ exists e, h !! a = Some (OEntry e) /\ rule_of e = r /\ rule_ok D r.
Proof.
  intros Ha. destruct (pk_trie _ _ _ _ _ _ H) as [tabs Ht]. apply pk_lookup in Ha.
  destruct (to_rules _ _ _ _ _ _ Ht _ _ Ha) as (Ha0 & Hr & Hok). split; [done|].
  destruct (rule_at_entry _ _ _ Hr) as (e & Ee & Er). eauto.
Qed.

Lemma pk_size : (length es <= size h)%nat.
Proof.
  rewrite <- size_dom, <- (length_fmap fst es).
  assert (Hs : list_to_set es.*1 ⊆ dom h).
  { intros a Ha%elem_of_list_to_set. apply list_elem_of_fmap in Ha as ([b r] & -> & Hb).
    destruct (pk_entry _ _ Hb) as (_ & e & Ee & _). apply elem_of_dom. simpl. by rewrite Ee. }
  apply subseteq_size in Hs. by rewrite size_list_to_set in Hs by apply pk_nodup.
Qed.

(** *** Loops over the entries *)
Lemma own_find_entry fuel f stop p es' (Q : Z -> pmem -> Prop) :
  (forall a r, (a, r) ∈ es' -> (a, r) ∈ es) ->
  (forall e, (exists a, (a, rule_of e) ∈ es') -> stop e = Ret (f (rule_of e))) ->
  dseg (entry_links h) p es'.*1 0 -> (length es' < fuel)%nat -> Q (first_with f es') h ->
  own (find_entry fuel stop (hd_or 0 es'.*1)) h Q.
Proof.
  revert p es'. induction fuel as [|fuel IH]; intros p [|[a r] es'] Hsub Hstop Hseg Hf HQ; simpl in Hf; try lia; cbn [find_entry].
  - by apply own_ret.
  - destruct Hseg as (Ha0 & El & Hseg). destruct (pk_entry a r) as (_ & e & Ee & Er & _); [by apply Hsub; left|].
    unfold entry_links in El. simpl in El. rewrite Ee in El. injection El as _ En. simpl.
    destruct (Z.eqb_spec a 0); [done|]. ostep. eapply own_load_entry; [done..|]. ostep.
    eapply own_mlift; [apply Hstop; exists a; rewrite Er; by left|]. rewrite Er. simpl in HQ.
    destruct (f r); [by apply own_ret|]. simpl in En. rewrite En. eapply IH; [| |exact Hseg|lia|done].
    + intros b rb Hb. apply Hsub. by right.
    + intros e' (b & Hb). apply Hstop. exists b. by right.
Qed.

Lemma own_find_in_list fuel f stop (Q : Z -> pmem -> Prop) :
  (forall e, (exists a, (a, rule_of e) ∈ es) -> stop e = Ret (f (rule_of e))) ->
  (size h <= fuel)%nat -> Q (first_with f es) h -> own (find_entry (S fuel) stop (pl_head l)) h Q.
Proof.
  intros Hstop Hf HQ. rewrite (dk_head _ _ _ (pk_dll _ _ _ _ _ _ H)). pose proof pk_size.
  eapply own_find_entry; [done|exact Hstop|apply H|lia|done].
Qed.

Lemma own_seq_check seq (Q : Z -> pmem -> Prop) :
  Q (first_with (fun r => r_seq r =? seq) es) h -> own (prefix_seq_check plist seq) h Q.
Proof.
  intros HQ. unfold prefix_seq_check. ostep. apply own_fuel. intros fuel Hf. ostep. eapply own_load_list; [apply H..|].
  by eapply (own_find_in_list _ (fun r => r_seq r =? seq)).
Qed.

Lemma own_max_seq fuel p es' v (Q : Z -> pmem -> Prop) :
  (forall a r, (a, r) ∈ es' -> (a, r) ∈ es) ->
  dseg (entry_links h) p es'.*1 0 -> (length es' < fuel)%nat ->
  Q (foldl (fun m (x : Z * rule) => if m <? r_seq x.2 then r_seq x.2 else m) v es') h ->
  own (max_seq fuel (hd_or 0 es'.*1) v) h Q.
Proof.
  revert p v es'. induction fuel as [|fuel IH]; intros p v [|[a r] es'] Hsub Hseg Hf HQ; simpl in Hf; try lia; cbn [max_seq].
  - by apply own_ret.
  - destruct Hseg as (Ha0 & El & Hseg). destruct (pk_entry a r) as (_ & e & Ee & Er & _); [by apply Hsub; left|].
    unfold entry_links in El. simpl in El. rewrite Ee in El. injection El as _ En. simpl.
    destruct (Z.eqb_spec a 0); [done|]. ostep. eapply own_load_entry; [done..|].
    replace (e_seq e) with (r_seq r) by by rewrite <- Er. simpl in En. rewrite En. simpl in HQ.
    eapply IH; [|exact Hseg|lia|exact HQ]. intros b rb Hb. apply Hsub. by right.
Qed.

Lemma max_number_bound : 0 <= max_number es <= UINT_MAX /\ Forall (fun x : Z * rule => r_seq x.2 <= max_number es) es.
Proof.
  assert (Hg : forall (es' : entries) v, Forall (fun x : Z * rule => 0 <= r_seq x.2 <= UINT_MAX) es' -> 0 <= v <= UINT_MAX ->
      let w := foldl (fun m (x : Z * rule) => if m <? r_seq x.2 then r_seq x.2 else m) v es' in
      v <= w <= UINT_MAX /\ Forall (fun x : Z * rule => r_seq x.2 <= w) es').
  { induction es' as [|[a r] es' IH]; intros v Hes Hv; simpl; [split; [lia|done]|].
    apply Forall_cons in Hes as [Hr Hes]. simpl in Hr.
    destruct (Z.ltb_spec v (r_seq r)) as [Hlt|Hge].
    - destruct (IH (r_seq r) Hes Hr) as [H1 H2]. split; [lia|]. constructor; [simpl; lia|done].
    - destruct (IH v Hes Hv) as [H1 H2]. split; [lia|]. constructor; [simpl; lia|done]. }
  destruct (Hg es 0 (pk_numbers _ _ _ _ _ _ H)) as [H1 H2]; [unfold UINT_MAX; lia|]. split; [done|exact H2].
Qed.

Lemma next_number_bound : 0 <= next_number es <= UINT_MAX.
Proof.
  destruct max_number_bound as [Hm _]. unfold next_number.
  pose proof (Z.div_mod (max_number es) 5 ltac:(done)). pose proof (Z.mod_pos_bound (max_number es) 5 ltac:(done)).
  destruct (Z.ltb_spec UINT_MAX (max_number es / 5 * 5 + 5)); unfold UINT_MAX in *; lia.
Qed.

Lemma own_new_seq (Q : Z -> pmem -> Prop) : Q (next_number es) h -> own (prefix_new_seq_get plist) h Q.
Proof.
  intros HQ. unfold prefix_new_seq_get. ostep. apply own_fuel. intros fuel Hf. ostep. eapply own_load_list; [apply H..|].
  ostep. rewrite (dk_head _ _ _ (pk_dll _ _ _ _ _ _ H)). pose proof pk_size. eapply own_max_seq; [done|apply H|lia|].
  fold (max_number es). destruct max_number_bound as [Hm _]. ostep. eapply own_mlift.
  - unfold checked. rewrite Z.quot_div_nonneg by lia.
    pose proof (Z.div_mod (max_number es) 5 ltac:(done)). pose proof (Z.mod_pos_bound (max_number es) 5 ltac:(done)).
    unfold UINT_MAX in Hm. rewrite (proj2 (Z.leb_le _ _)), (proj2 (Z.ltb_lt _ _)) by lia. done.
  - by apply own_ret.
Qed.

Lemma own_entry_lookup p type seq le ge (Q : Z -> pmem -> Prop) :
  prefix_wf p ->
  Q (first_with (fun r => samep (r_prefix r) p && bool_decide (r_type r = type) &&
       negb ((0 <=? seq) && negb (r_seq r =? seq)) && (r_le r =? le) && (r_ge r =? ge)) es) h ->
  own (prefix_list_entry_lookup plist p type seq le ge) h Q.
Proof.
  intros Hp HQ. unfold prefix_list_entry_lookup. ostep. apply own_fuel. intros fuel Hf. ostep. eapply own_load_list; [apply H..|].
  eapply own_find_in_list; [|done|exact HQ]. intros e (a & Ha). destruct (pk_entry _ _ Ha) as (_ & _ & _ & _ & [Hw _ _]).
  unfold entry_is. change (e_prefix e) with (r_prefix (rule_of e)).
  destruct (samep_spec _ _ Hw Hp) as [-> _]. done.
Qed.
End facts.

(** ** Entries leave *)
Lemma dll_ok_ext h h' l ps : (forall a, a ∈ ps -> entry_links h' a = entry_links h a) -> dll_ok h l ps -> dll_ok h' l ps.
Proof. intros He [H1 H2 H3 H4]. split; [by eapply dseg_ext|done..]. Qed.

(** An entry changes in fields that the list does not depend on. *)
Lemma plist_ok_update h plist l m es extra o e e' :
  plist_ok h plist l m es extra -> h !! o = Some (OEntry e) -> e_prev e' = e_prev e -> e_next e' = e_next e ->
  e_next_best e' = e_next_best e -> (o ∈ es.*1 -> rule_of e' = rule_of e) ->
  plist_ok (<[o := OEntry e']> h) plist l m es extra.
Proof.
  intros H Ho Hp Hn Hb Hr.
  assert (Hlinks : forall a, entry_links (<[o := OEntry e']> h) a = entry_links h a).
  { intros a. unfold entry_links. destruct (decide (a = o)) as [->|]; [|by rewrite lookup_insert_ne].
    by rewrite lookup_insert_eq, Ho, Hp, Hn. }
  assert (Hbest : forall a, best (<[o := OEntry e']> h) a = best h a).
  { intros a. unfold best. destruct (decide (a = o)) as [->|]; [|by rewrite lookup_insert_ne].
    by rewrite lookup_insert_eq, Ho, Hb. }
  assert (Hother : forall a ob, (forall x, ob <> OEntry x) -> <[o := OEntry e']> h !! a = Some ob <-> h !! a = Some ob).
  { intros a ob Hob. destruct (decide (a = o)) as [->|]; [rewrite lookup_insert_eq, Ho; naive_solver|by rewrite lookup_insert_ne]. }
  destruct (pk_trie _ _ _ _ _ _ H) as [tabs Ht]. split; try apply H.
  - apply Hother; [done|apply H].
  - apply Hother; [done|apply H].
  - intros a ob Ha. destruct (decide (a = o)) as [->|]; [|apply (pk_dom _ _ _ _ _ _ H); by rewrite lookup_insert_ne in Ha].
    rewrite lookup_insert_eq in Ha. injection Ha as <-. by apply (pk_dom _ _ _ _ _ _ H _ _ Ho).
  - exists tabs. eapply trie_ok_ext; [intros a t; by apply Hother| |exact Ht]. intros a r Ha. split; [apply Hbest|].
    unfold rule_at. destruct (decide (a = o)) as [->|]; [|by rewrite lookup_insert_ne]. rewrite lookup_insert_eq, Ho, Hr; [done|].
    apply (pk_lookup _ _ _ _ _ _ H) in Ha. apply list_elem_of_fmap. by exists (o, r).
  - eapply dll_ok_ext; [intros a _; apply Hlinks|apply H].
Qed.

Lemma same_list_fields l l' :
  same_list l l' -> pl_name l' = pl_name l /\ pl_desc l' = pl_desc l /\ pl_master l' = pl_master l /\
    pl_type l' = pl_type l /\ pl_trie l' = pl_trie l /\ pl_next l' = pl_next l /\ pl_prev l' = pl_prev l.
Proof. intros (hd & tl & c & ->). done. Qed.

Lemma own_add_count plist l d h (Q : unit -> pmem -> Prop) :
  h !! plist = Some (OList l) -> plist <> 0 -> - 2 ^ 31 <= pl_count l + d < 2 ^ 31 ->
  Q tt (<[plist := OList (set_pl_count (pl_count l + d) l)]> h) -> own (add_count plist d) h Q.
Proof.
  intros Hl Hp Hc HQ. unfold add_count. ostep. eapply own_load_list; [done..|]. ostep. eapply own_mlift.
  - unfold checked. rewrite (proj2 (Z.leb_le _ _)), (proj2 (Z.ltb_lt _ _)) by lia. done.
  - by eapply own_update_list.
Qed.

Lemma insert_list_facts h plist l l' :
  h !! plist = Some (OList l) ->
  (forall a, entry_links (<[plist := OList l']> h) a = entry_links h a) /\
  (forall a, best (<[plist := OList l']> h) a = best h a) /\
  (forall a, rule_at (<[plist := OList l']> h) a = rule_at h a) /\
  (forall a t, <[plist := OList l']> h !! a = Some (OTable t) <-> h !! a = Some (OTable t)).
Proof.
  intros Hl. unfold entry_links, best, rule_at.
  split_and!; intros a; destruct (decide (a = plist)) as [->|];
    rewrite ?lookup_insert_eq, ?lookup_insert_ne, ?Hl by done; naive_solver.
Qed.

Lemma delete_entry_facts h o e (E : rules) :
  h !! o = Some (OEntry e) -> E !! o = None ->
  (forall a, a <> o -> entry_links (delete o h) a = entry_links h a) /\
  (forall a r, E !! a = Some r -> best (delete o h) a = best h a /\ rule_at (delete o h) a = rule_at h a) /\
  (forall a t, delete o h !! a = Some (OTable t) <-> h !! a = Some (OTable t)).
Proof.
  intros Ho HE. unfold entry_links, best, rule_at. split_and!.
  - intros a Ha. by rewrite lookup_delete_ne.
  - intros a r Ha. rewrite lookup_delete_ne by congruence. done.
  - intros a t. destruct (decide (a = o)) as [->|]; [rewrite lookup_delete_eq, Ho; naive_solver|by rewrite lookup_delete_ne].
Qed.

(** Frames of the domain *)
Lemma dom_after plist l ma h h' P :
  (forall x o, h !! x = Some o -> match o with OTable _ => True | OEntry _ => P x | OList _ => x = plist | OMaster _ => x = ma end) ->
  h !! plist = Some (OList l) -> trie_frame h h' \/ link_frame plist h h' ->
  forall x o, h' !! x = Some o -> match o with OTable _ => True | OEntry _ => P x | OList _ => x = plist | OMaster _ => x = ma end.
Proof.
  intros Hdom Hl Hf x o Ho. destruct Hf as [Hf|Hf]; specialize (Hf x); specialize (Hdom x);
    destruct (h !! x) as [[e|t|l0|m0]|]; try (specialize (Hdom _ eq_refl)).
  all: try (destruct Hf as [Hf|(t' & Hf)]; rewrite Ho in Hf; [done|injection Hf as ->; done]).
  - destruct Hf as (v & E). rewrite Ho in E. by injection E as ->.
  - rewrite Ho in Hf. by injection Hf as ->.
  - rewrite Ho in Hf. by injection Hf as ->.
  - destruct Hf as (p & n & E). rewrite Ho in E. by injection E as ->.
  - rewrite Ho in Hf. by injection Hf as ->.
  - case_decide; [destruct Hf as (p & n & E); rewrite Ho in E; by injection E as ->|]. rewrite Ho in Hf. by injection Hf as ->.
  - rewrite Ho in Hf. by injection Hf as ->.
  - congruence.
Qed.

Lemma sorted_middle (es1 es2 : entries) x : StronglySorted seq_lt (es1 ++ x :: es2) -> StronglySorted seq_lt (es1 ++ es2).
Proof.
  intros (H1 & H2 & H3)%StronglySorted_app. inversion H3 as [|? ? H4 H5]; subst.
  apply StronglySorted_app. split_and!; [|done|done]. intros y z Hy Hz. apply H1; [done|by right].
Qed.

(** *** Removal: the trie, the links, the object, the count *)
Section remove.
Context (h h1 h2 : pmem) (plist : Z) (l l2 : prefix_list) (m : prefix_master) (es1 es2 : entries) (o : Z) (r : rule) (extra : list Z).
Context (tabs1 : gmap (list Z) Z) (e2 : prefix_list_entry).
Context (H : plist_ok h plist l m (es1 ++ (o, r) :: es2) extra).
Context (Ht1 : trie_ok D h1 (pl_trie l) (list_to_map (es1 ++ es2)) [] tabs1) (Hf1 : trie_frame h h1).
Context (Hb1 : forall x, x <> o -> (list_to_map (es1 ++ es2) : rules) !! x = None -> best h1 x = best h x).
Context (Hl2 : h2 !! plist = Some (OList l2)) (Hsame2 : exists hd tl, l2 = set_pl_head hd (set_pl_tail tl l)).
Context (Hdll2 : dll_ok h2 l2 (es1.*1 ++ es2.*1)) (Hf2 : link_frame plist h1 h2) (Ee2 : h2 !! o = Some (OEntry e2)).

Definition removed_list : prefix_list := set_pl_count (pl_count l2 + -1) l2.
Definition removed_mem : pmem := <[plist := OList removed_list]> (delete o h2).

Lemma removed_fresh : (list_to_map (es1 ++ es2) : rules) !! o = None.
Proof. by apply (list_to_map_middle es1 es2 o r), (pk_nodup _ _ _ _ _ _ H). Qed.

Lemma removed_at : delete o h2 !! plist = Some (OList l2).
Proof. rewrite lookup_delete_ne; [done|]. intros ->. congruence. Qed.

Lemma removed_size : pl_count l2 = Z.of_nat (length (es1 ++ es2)) + 1 /\ Z.of_nat (length (es1 ++ es2)) < 2 ^ 31.
Proof.
  pose proof (pk_small _ _ _ _ _ _ H) as Hsmall. rewrite length_app in Hsmall. simpl in Hsmall.
  destruct Hsame2 as (hd & tl & ->). simpl. rewrite (pk_count _ _ _ _ _ _ H), !length_app. simpl. lia.
Qed.

Lemma removed_master : h2 !! pl_master l = Some (OMaster m).
Proof. eapply link_frame_master; [exact Hf2|]. eapply trie_frame_master; [exact Hf1|apply H]. Qed.

Lemma removed_dom a ob :
  removed_mem !! a = Some ob ->
  match ob with
  | OTable _ => True
  | OEntry _ => a ∈ (es1 ++ es2).*1 ++ extra
  | OList _ => a = plist
  | OMaster _ => a = pl_master l
  end.
Proof.
  assert (Hin : a ∈ (es1 ++ (o, r) :: es2).*1 ++ extra -> a <> o -> a ∈ (es1 ++ es2).*1 ++ extra).
  { rewrite !fmap_app, fmap_cons. simpl. rewrite !elem_of_app, elem_of_cons. tauto. }
  unfold removed_mem. intros Ha.
  destruct (decide (a = plist)) as [->|Hne]; [rewrite lookup_insert_eq in Ha; by injection Ha as <-|].
  rewrite lookup_insert_ne in Ha by done. apply lookup_delete_Some in Ha as [Hne' Ha].
  pose proof (dom_after plist l _ h h1 _ (pk_dom _ _ _ _ _ _ H) (pk_list _ _ _ _ _ _ H) (or_introl Hf1)) as Hdom1.
  pose proof (dom_after plist l _ h1 h2 _ Hdom1 (trie_frame_list _ _ _ _ Hf1 (pk_list _ _ _ _ _ _ H)) (or_intror Hf2) a ob Ha) as Hdom2.
  destruct ob; [|done..]. by apply Hin.
Qed.

Lemma removed_ok : plist_ok removed_mem plist removed_list m (es1 ++ es2) extra.
Proof.
  assert (Hd : pl_master l2 = pl_master l /\ pl_trie l2 = pl_trie l) by (destruct Hsame2 as (hd & tl & ->); done).
  destruct Hd as [Em Et]. pose proof removed_at as Hl3. pose proof removed_size as [Hcount Hsmall].
  destruct (delete_entry_facts h2 o e2 _ Ee2 removed_fresh) as (Hd1 & Hd2 & Hd3).
  destruct (insert_list_facts _ _ _ removed_list Hl3) as (Hi1 & Hi2 & Hi3 & Hi4).
  split.
  - unfold removed_mem. by rewrite lookup_insert_eq.
  - apply H.
  - pose proof removed_master as Hm. unfold removed_mem. simpl. rewrite Em.
    rewrite lookup_insert_ne, lookup_delete_ne; [done|congruence..].
  - simpl. rewrite Em. apply H.
  - apply H.
  - intros a ob Ha. simpl. rewrite Em. by apply removed_dom.
  - intros a Ha Hin. apply (pk_extra _ _ _ _ _ _ H a Ha). rewrite !fmap_app, fmap_cons in *. simpl.
    rewrite !elem_of_app, elem_of_cons in *. tauto.
  - exists tabs1. simpl. rewrite Et. eapply trie_ok_ext; [exact Hi4|by intros; split; [apply Hi2|apply Hi3]|].
    eapply trie_ok_ext; [exact Hd3|exact Hd2|]. by eapply trie_ok_links.
  - rewrite fmap_app. eapply dll_ok_ext; [intros a _; apply Hi1|]. apply (dll_ok_ext h2).
    + intros a Ha. apply Hd1. intros ->. rewrite <- fmap_app in Ha. pose proof removed_fresh as Hnone.
      by apply not_elem_of_list_to_map in Hnone.
    + destruct Hdll2 as [? ? ? ?]. by split.
  - simpl. rewrite Hcount. lia.
  - exact Hsmall.
  - eapply sorted_middle, H.
  - pose proof (pk_numbers _ _ _ _ _ _ H) as Hn. apply Forall_app in Hn as [? Hn]. apply Forall_cons in Hn as [_ ?].
    by apply Forall_app.
Qed.

Lemma removed_keeps : keeps extra h removed_mem.
Proof.
  intros x Hx. pose proof (pk_extra _ _ _ _ _ _ H x Hx) as Hxes. rewrite fmap_app, fmap_cons in Hxes. simpl in Hxes.
  rewrite elem_of_app, elem_of_cons in Hxes. assert (Hxo : x <> o) by tauto.
  destruct (insert_list_facts _ _ _ removed_list removed_at) as (_ & Hi2 & Hi3 & _). unfold removed_mem.
  rewrite Hi2, Hi3. unfold best at 1, rule_at at 1. rewrite lookup_delete_ne by done.
  fold (best h2 x) (rule_at h2 x). rewrite (link_frame_best _ _ _ _ Hf2), (link_frame_rule _ _ _ _ Hf2). split.
  - destruct (rule_at h x) as [rx|] eqn:Erx; [by eapply trie_frame_rule|].
    specialize (Hf1 x). unfold rule_at in *. destruct (h !! x) as [[ex|t| |]|]; try done; try by rewrite Hf1.
    all: by destruct Hf1 as [->|(? & ->)].
  - apply Hb1; [done|]. apply not_elem_of_list_to_map. rewrite fmap_app, elem_of_app. tauto.
Qed.
End remove.

Context (HD : (1 <= D)%nat).

Lemma own_entry_remove h plist l m es1 es2 o r extra (Q : unit -> pmem -> Prop) :
  plist_ok h plist l m (es1 ++ (o, r) :: es2) extra ->
  (forall h' l', plist_ok h' plist l' m (es1 ++ es2) extra -> same_list l l' -> keeps extra h h' -> Q tt h') ->
  own (prefix_list_entry_remove plist o) h Q.
Proof.
  intros H HQ. destruct (list_to_map_middle es1 es2 o r (pk_nodup _ _ _ _ _ _ H)) as [Emap HoE].
  destruct (pk_entry _ _ _ _ _ _ H o r) as (Ho0 & e & Ee & Er & _); [apply elem_of_app; right; by left|].
  destruct (pk_trie _ _ _ _ _ _ H) as [tabs Htrie]. rewrite Emap, <- Er in Htrie.
  unfold prefix_list_entry_remove. ostep.
  eapply (own_trie_del D HD _ l m o e (list_to_map (es1 ++ es2)) tabs); try done; try apply H.
  intros h1 tabs1 Ht1 Hf1 Hb1. ostep.
  pose proof (trie_frame_list _ _ _ _ Hf1 (pk_list _ _ _ _ _ _ H)) as Hl1.
  assert (Hdll1 : dll_ok h1 l (es1.*1 ++ o :: es2.*1)).
  { pose proof (pk_dll _ _ _ _ _ _ H) as Hd. rewrite fmap_app, fmap_cons in Hd. eapply dll_ok_ext; [|exact Hd].
    intros a _. by apply trie_frame_links. }
  eapply own_entry_unlink; [exact Hl1|apply H|exact Hdll1|]. intros h2 l2 Hl2 Hsame2 Hdll2 Hf2. ostep.
  assert (Ee2 : exists e2, h2 !! o = Some (OEntry e2)).
  { pose proof (Hf1 o) as Ho1. rewrite Ee in Ho1. destruct Ho1 as (v & Ev). pose proof (Hf2 o) as Ho2. rewrite Ev in Ho2.
    destruct Ho2 as (p & n & ->). eauto. }
  destruct Ee2 as (e2 & Ee2). unfold prefix_list_entry_free. eapply own_free; [exact Ee2|done|].
  assert (Hsize : pl_count l2 = Z.of_nat (length (es1 ++ es2)) + 1 /\ Z.of_nat (length (es1 ++ es2)) < 2 ^ 31).
  { eapply removed_size; eassumption. }
  destruct Hsize as [Hcount Hsmall].
  eapply own_add_count; [eapply removed_at; eassumption|apply H|lia|].
  eapply HQ; [eapply removed_ok; eassumption| |eapply removed_keeps; eassumption].
  destruct Hsame2 as (hd & tl & ->). by eexists _, _, _.
Qed.
End ops.
