(* ===== verification/PlistQuery.v ===== *)
(** * An entry enters a prefix list

    [prefix_list_entry_insert] gives the entry a number, takes away the one
    that has the number already, finds its place and links it in the list and
    in the trie. *)

From stdpp Require Import sorting.
From S2P Require Import Prelude SepLogic FrrPrefix FrrPrefixBits Heap Own Plist PlistChain PlistWalk.
From S2P Require Import PlistSlot PlistTrie PlistInstall PlistApply PlistList PlistOps.

#[local] Open Scope Z_scope.

Section enter.
Context (D : nat) (HD : (1 <= D)%nat).
Abbreviation plist_ok := (PlistOps.plist_ok D).

(** ** Order *)
Lemma sorted_lookup (es : entries) a r b r' :
  StronglySorted seq_lt es -> (a, r) ∈ es -> (b, r') ∈ es -> r_seq r = r_seq r' -> (a, r) = (b, r').
Proof.
  intros Hs Ha Hb E. apply list_elem_of_split in Ha as (es1 & es2 & ->).
  apply StronglySorted_app in Hs as (H12 & _ & H2). inversion H2 as [|? ? _ Hall]; subst. rewrite Forall_forall in Hall.
  apply elem_of_app in Hb as [Hb|[Hb|Hb]%elem_of_cons]; [|done|].
  - specialize (H12 (b, r') (a, r) Hb ltac:(by left)). unfold seq_lt in H12. simpl in H12. lia.
  - specialize (Hall _ Hb). unfold seq_lt in Hall. simpl in Hall. lia.
Qed.

Lemma sorted_insert (es1 es2 : entries) x :
  StronglySorted seq_lt (es1 ++ es2) -> Forall (fun y => seq_lt y x) es1 -> Forall (seq_lt x) es2 ->
  StronglySorted seq_lt (es1 ++ x :: es2).
Proof.
  intros (H12 & H1 & H2)%StronglySorted_app Hx1 Hx2. apply StronglySorted_app. split_and!; [|done|by constructor].
  intros y z Hy [->|Hz]%elem_of_cons; [|by apply H12]. by apply (proj1 (Forall_forall _ _) Hx1).
Qed.

Lemma sorted_numbered (es : entries) : NoDup es.*1 -> StronglySorted seq_lt es -> numbered (list_to_map es).
Proof.
  intros Hnd Hs a b ra rb Ha%elem_of_list_to_map Hb%elem_of_list_to_map Heq; [|done..].
  pose proof (sorted_lookup es a ra b rb Hs Ha Hb Heq) as E. by injection E.
Qed.

Section insert.
Context (place : pmem -> Z -> Z) `{!Placement place}.

(** *** The entry is linked *)
Section insert_at.
Context (h : pmem) (plist : Z) (l : prefix_list) (m : prefix_master) (es1 es2 : entries) (o : Z) (r : rule).
Context (H : plist_ok h plist l m (es1 ++ es2) [o]) (Ho0 : o <> 0) (Hr : rule_at h o = Some r) (Hb : best h o = Some 0).
Context (H1 : Forall (fun y => seq_lt y (o, r)) es1) (H2 : Forall (seq_lt (o, r)) es2).

Lemma insert_sorted : StronglySorted seq_lt (es1 ++ (o, r) :: es2).
Proof. by apply sorted_insert; [apply H|..]. Qed.

Lemma insert_map :
  (list_to_map (es1 ++ (o, r) :: es2) : rules) = <[o := r]> (list_to_map (es1 ++ es2)) /\
  (list_to_map (es1 ++ es2) : rules) !! o = None /\ numbered (<[o := r]> (list_to_map (es1 ++ es2))).
Proof.
  assert (Hofresh : o ∉ (es1 ++ es2).*1) by (apply (pk_extra _ _ _ _ _ _ _ H); by left).
  assert (Hnd : NoDup (es1 ++ (o, r) :: es2).*1).
  { pose proof (pk_nodup _ _ _ _ _ _ _ H) as Hnd. rewrite fmap_app, fmap_cons in *. simpl.
    rewrite NoDup_app, NoDup_cons in *. rewrite not_elem_of_app in Hofresh. destruct Hnd as (? & Hd & ?). destruct Hofresh.
    split_and!; [done| |done..]. intros x Hx [->|Hx']%elem_of_cons; [done|by apply (Hd x)]. }
  destruct (list_to_map_middle es1 es2 o r Hnd) as [Emap HoE]. split_and!; [done|done|]. rewrite <- Emap.
  apply sorted_numbered; [done|apply insert_sorted].
Qed.

(** [h1] is memory with the entry in the list, but not in the trie. *)
Record linked (h1 : pmem) (l1 : prefix_list) : Prop := {
  lk_list : h1 !! plist = Some (OList l1);
  lk_same : exists hd tl, l1 = set_pl_head hd (set_pl_tail tl l);
  lk_dll : dll_ok h1 l1 (es1.*1 ++ o :: es2.*1);
  lk_frame : link_frame plist h h1;
  lk_master : h1 !! pl_master l1 = Some (OMaster m);
  lk_trie : exists tabs, trie_ok D h1 (pl_trie l1) (list_to_map (es1 ++ es2)) [] tabs;
  lk_entry : exists e1, h1 !! o = Some (OEntry e1) /\ rule_of e1 = r /\ e_next_best e1 = 0
}.

Lemma own_linked (Q : unit -> pmem -> Prop) :
  (forall h1 l1, linked h1 l1 -> Q tt h1) -> own (entry_link plist o (hd_or 0 es2.*1)) h Q.
Proof.
  intros HQ. destruct (rule_at_entry _ _ _ Hr) as (e & Ee & Er).
  assert (Hofresh : o ∉ (es1 ++ es2).*1) by (apply (pk_extra _ _ _ _ _ _ _ H); by left).
  pose proof (pk_dll _ _ _ _ _ _ _ H) as Hdll. rewrite fmap_app in Hdll, Hofresh. destruct (pk_trie _ _ _ _ _ _ _ H) as [tabs Ht].
  eapply own_entry_link; [apply H|apply H|exact Hdll|exact Ee|done|done|].
  intros h1 l1 Hl1 Hsame1 Hdll1 Hf1. apply (HQ h1 l1). split; try done.
  - destruct Hsame1 as (hd & tl & ->). eapply link_frame_master; [exact Hf1|apply H].
  - exists tabs. replace (pl_trie l1) with (pl_trie l) by by destruct Hsame1 as (hd & tl & ->). by eapply trie_ok_links.
  - pose proof (Hf1 o) as Hfo. rewrite Ee in Hfo. destruct Hfo as (p & n & Eo). eexists. split; [exact Eo|]. split; [done|].
    unfold best in Hb. rewrite Ee in Hb. by injection Hb.
Qed.

Lemma own_insert_at (Q : unit -> pmem -> Prop) :
  rule_ok D r -> 0 <= r_seq r <= UINT_MAX -> Z.of_nat (length (es1 ++ es2)) + 1 < 2 ^ 31 ->
  (forall h' l', plist_ok h' plist l' m (es1 ++ (o, r) :: es2) [] -> same_list l l' -> Q tt h') ->
  own (entry_link plist o (hd_or 0 es2.*1) ;; prefix_list_trie_add place plist o ;; add_count plist 1) h Q.
Proof.
  intros Hok Hseq Hsmall HQ. destruct insert_map as (Emap & HoE & Hn).
  ostep. apply own_linked. intros h1 l1 [Hl1 Hsame1 Hdll1 Hf1 Hm1 [tabs Ht1] (e1 & Ee1 & Er1 & Enb1)]. ostep.
  assert (Em : pl_master l1 = pl_master l) by by destruct Hsame1 as (hd & tl & ->).
  eapply (own_trie_add D HD place plist l1 m o e1 (list_to_map (es1 ++ es2)) tabs); try done; try apply H.
  { rewrite Em. apply H. }
  { by rewrite Er1. }
  { by rewrite Er1. }
  rewrite Er1, <- Emap. intros h2 tabs2 Ht2 Hf2.
  pose proof (trie_frame_list _ _ _ _ Hf2 Hl1) as Hl2.
  assert (Hcount : pl_count l1 = Z.of_nat (length (es1 ++ es2))).
  { destruct Hsame1 as (hd & tl & ->). apply H. }
  eapply own_add_count; [exact Hl2|apply H|lia|].
  destruct (insert_list_facts _ _ _ (set_pl_count (pl_count l1 + 1) l1) Hl2) as (Hi1 & Hi2 & Hi3 & Hi4).
  assert (Elen : length (es1 ++ (o, r) :: es2) = S (length (es1 ++ es2))) by (rewrite !length_app; simpl; lia).
  apply (HQ _ (set_pl_count (pl_count l1 + 1) l1)).
  - split.
    + by rewrite lookup_insert_eq.
    + apply H.
    + simpl. pose proof (trie_frame_master _ _ _ _ Hf2 Hm1). rewrite lookup_insert_ne by congruence. done.
    + simpl. rewrite Em. apply H.
    + apply H.
    + intros a ob Ha. simpl. rewrite Em, app_nil_r.
      destruct (decide (a = plist)) as [->|Hne]; [rewrite lookup_insert_eq in Ha; by injection Ha as <-|].
      rewrite lookup_insert_ne in Ha by done.
      pose proof (dom_after plist l _ h h1 _ (pk_dom _ _ _ _ _ _ _ H) (pk_list _ _ _ _ _ _ _ H) (or_intror Hf1)) as Hdom1.
      pose proof (dom_after plist l1 _ h1 h2 _ Hdom1 Hl1 (or_introl Hf2) a ob Ha) as Hdom2.
      destruct ob; [|done..]. apply elem_of_app in Hdom2. rewrite list_elem_of_singleton, fmap_app, elem_of_app in Hdom2.
      rewrite fmap_app, fmap_cons, elem_of_app, elem_of_cons. simpl. tauto.
    + by intros a ?%not_elem_of_nil.
    + exists tabs2. simpl. eapply trie_ok_ext; [exact Hi4|by intros; split; [apply Hi2|apply Hi3]|exact Ht2].
    + rewrite fmap_app, fmap_cons. simpl. eapply dll_ok_ext; [intros a _; apply Hi1|].
      apply (dll_ok_ext h1); [intros a _; by apply trie_frame_links|]. destruct Hdll1. by split.
    + simpl. rewrite Hcount, Elen. lia.
    + rewrite Elen. lia.
    + apply insert_sorted.
    + pose proof (pk_numbers _ _ _ _ _ _ _ H) as Hns. apply Forall_app in Hns as [? ?]. by apply Forall_app; split; [|constructor].
  - destruct Hsame1 as (hd & tl & ->). by eexists _, _, _.
Qed.

(** A rule with bits behind its prefix *)
Lemma faults_insert_at :
  prefix_wf (r_prefix r) -> rlen r <= 128 -> past_end D r ->
  faults (entry_link plist o (hd_or 0 es2.*1) ;; prefix_list_trie_add place plist o ;; add_count plist 1) h.
Proof.
  intros Hw Hlen Hpast. destruct insert_map as (Emap & HoE & Hn).
  ostep. apply own_linked. intros h1 l1 [Hl1 Hsame1 Hdll1 Hf1 Hm1 [tabs Ht1] (e1 & Ee1 & Er1 & Enb1)]. apply faults_first.
  assert (Em : pl_master l1 = pl_master l) by by destruct Hsame1 as (hd & tl & ->).
  eapply (faults_trie_add D HD place plist l1 m o e1 (list_to_map (es1 ++ es2)) tabs); try done; try apply H.
  - rewrite Em. apply H.
  - by rewrite Er1.
  - change (prefix_wf (r_prefix (rule_of e1))). by rewrite Er1.
  - change (rlen (rule_of e1) <= 128). by rewrite Er1.
  - by rewrite Er1.
Qed.
End insert_at.

(** *** Where it enters *)
Lemma filter_keeps (P : Z * rule -> Prop) `{!forall x, Decision (P x)} (es : entries) :
  (forall x, x ∈ es -> P x) -> filter P es = es.
Proof.
  induction es as [|x es IH]; intros Hall; [done|]. rewrite filter_cons, decide_True by (apply Hall; by left).
  f_equal. apply IH. intros y Hy. apply Hall. by right.
Qed.

Lemma lower_nil (es : entries) s : Forall (fun x : Z * rule => s <= r_seq x.2) es -> lower s es = [].
Proof. induction 1 as [|x es Hx _ IH]; [done|]. unfold lower. rewrite filter_cons, decide_False by lia. exact IH. Qed.

Lemma lower_higher (es : entries) s :
  StronglySorted seq_lt es -> filter (fun x => r_seq x.2 <> s) es = lower s es ++ higher s es.
Proof.
  induction 1 as [|x es Hs IH Hx]; [done|]. unfold lower, higher. rewrite !filter_cons. fold (lower s es) (higher s es).
  assert (Hhi : s <= r_seq x.2 -> lower s es = []).
  { intros Hge. apply lower_nil. eapply Forall_impl; [exact Hx|]. unfold seq_lt. lia. }
  destruct (decide (r_seq x.2 < s)), (decide (s < r_seq x.2)), (decide (r_seq x.2 <> s)); try lia; simpl.
  - by rewrite IH.
  - by rewrite IH, Hhi by lia.
  - exact IH.
Qed.

Lemma first_higher (es : entries) s :
  StronglySorted seq_lt es -> (forall x, x ∈ es -> r_seq x.2 <> s) ->
  first_with (fun r => s <=? r_seq r) es = hd_or 0 (higher s es).*1.
Proof.
  intros Hs. induction es as [|[a r] es IH]; intros Hne; [done|]. simpl. unfold higher. rewrite filter_cons. simpl.
  specialize (Hne (a, r)) as Hr. destruct (Z.leb_spec s (r_seq r)).
  - rewrite decide_True; [done|]. assert (r_seq r <> s) by (apply Hr; by left). lia.
  - rewrite decide_False by lia. apply IH; [by inversion Hs|]. intros x Hx. apply Hne. by right.
Qed.

Lemma first_with_split f (es : entries) a :
  Forall (fun x : Z * rule => x.1 <> 0) es ->
  first_with f es = a -> a <> 0 -> exists es1 r es2, es = es1 ++ (a, r) :: es2 /\ f r = true.
Proof.
  intros Hnz. induction es as [|[b r] es IH]; simpl; [congruence|]. apply Forall_cons in Hnz as [Hb Hnz]. destruct (f r) eqn:Ef.
  - intros <- _. by exists [], r, es.
  - intros H Ha. destruct (IH Hnz H Ha) as (es1 & r' & es2 & -> & Hf). by exists ((b, r) :: es1), r', es2.
Qed.

Lemma first_with_none f (es : entries) :
  Forall (fun x : Z * rule => x.1 <> 0) es -> first_with f es = 0 -> forall x, x ∈ es -> f x.2 = false.
Proof.
  intros Hnz. induction es as [|[b r] es IH]; simpl; [by intros _ x ?%not_elem_of_nil|].
  apply Forall_cons in Hnz as [Hb Hnz]. simpl in Hb. destruct (f r) eqn:Ef; [done|].
  intros H x [->|Hx]%elem_of_cons; [done|by apply IH].
Qed.

Lemma rule_ok_with_seq v r : rule_ok D r -> rule_ok D (with_seq v r).
Proof. intros [? ? ?]. by split. Qed.

Section entry_insert.
Context (h : pmem) (plist : Z) (l : prefix_list) (m : prefix_master) (es : entries) (o : Z) (r : rule).
Context (H : plist_ok h plist l m es [o]) (Ho0 : o <> 0) (Hr : rule_at h o = Some r) (Hb : best h o = Some 0).
Context (Hok : rule_ok D r).

(** A rule without a number gets the next one. *)
Lemma own_number e (Q : unit -> pmem -> Prop) :
  h !! o = Some (OEntry e) ->
  (forall h', plist_ok h' plist l m es [o] -> rule_at h' o = Some (numbered_rule es r) -> best h' o = Some 0 -> Q tt h') ->
  own (mwhen (e_seq e =? -1) (seq ← prefix_new_seq_get plist; update_entry o (set_seq seq))) h Q.
Proof.
  intros Ee HQ. assert (Er : rule_of e = r) by (unfold rule_at in Hr; rewrite Ee in Hr; by injection Hr).
  unfold numbered_rule in HQ. rewrite <- Er in HQ. cbn [r_seq rule_of] in HQ.
  destruct (e_seq e =? -1); cbn [mwhen].
  - ostep. eapply own_new_seq; [exact H|]. eapply own_update_entry; [done..|]. apply HQ.
    + eapply plist_ok_update; [exact H|done..|]. intros Hin. exfalso. eapply (pk_extra _ _ _ _ _ _ _ H o); [by left|done].
    + unfold rule_at. by rewrite lookup_insert_eq.
    + unfold best in *. rewrite lookup_insert_eq. by rewrite Ee in Hb.
  - apply own_ret, HQ; [done| |done]. by rewrite Hr, Er.
Qed.

(** Nothing has a number as large as this one. *)
Lemma beyond_last : Forall (fun x : Z * rule => r_seq x.2 < r_seq r) es -> lower (r_seq r) es = es /\ higher (r_seq r) es = [].
Proof.
  clear. induction 1 as [|x es Hx _ [IH1 IH2]]; [done|]. unfold lower, higher in *. rewrite !filter_cons.
  rewrite decide_True, decide_False by lia. by rewrite IH1, IH2.
Qed.

Lemma last_is_largest es1 x : es = es1 ++ [x] -> r_seq x.2 < r_seq r -> Forall (fun x : Z * rule => r_seq x.2 < r_seq r) es.
Proof.
  intros E Hx. pose proof (pk_sorted _ _ _ _ _ _ _ H) as Hs. rewrite E in *. apply StronglySorted_app in Hs as (Hs & _ & _).
  apply Forall_forall. intros y [Hy|[->|[]%not_elem_of_nil]%elem_of_cons]%elem_of_app; [|done].
  specialize (Hs y x Hy ltac:(by left)). unfold seq_lt in Hs. lia.
Qed.

(** The entry before which the new one is linked *)
Lemma own_point (Q : Z -> pmem -> Prop) :
  (forall h' l', plist_ok h' plist l' m (lower (r_seq r) es ++ higher (r_seq r) es) [o] -> same_list l l' ->
     rule_at h' o = Some r -> best h' o = Some 0 -> Q (hd_or 0 (higher (r_seq r) es).*1) h') ->
  own (replace ← prefix_seq_check plist (r_seq r);
       mwhen (negb (replace =? 0)) (prefix_list_entry_remove plist replace) ;;
       fuel ← mem_fuel;
       l ← load_list plist;
       find_entry (S fuel) (fun p => Ret (r_seq r <=? e_seq p)) (pl_head l)) h Q.
Proof.
  intros HQ. pose proof (pk_sorted _ _ _ _ _ _ _ H) as Hs. pose proof (lower_higher es (r_seq r) Hs) as Hlh.
  assert (Hnz : Forall (fun x : Z * rule => x.1 <> 0) es).
  { apply Forall_forall. intros [a ra] Ha. by apply (pk_entry _ _ _ _ _ _ _ H) in Ha as [? _]. }
  ostep. eapply own_seq_check; [exact H|]. ostep.
  apply (own_mono _ _ (fun _ h' => exists l', plist_ok h' plist l' m (lower (r_seq r) es ++ higher (r_seq r) es) [o] /\
    same_list l l' /\ rule_at h' o = Some r /\ best h' o = Some 0)).
  - destruct (Z.eqb_spec (first_with (fun x => r_seq x =? r_seq r) es) 0) as [E|E]; cbn [negb mwhen].
    + apply own_ret. exists l. rewrite <- Hlh. split; [|by split; [exists (pl_head l), (pl_tail l), (pl_count l); destruct l|]].
      replace (filter _ es) with es; [done|]. symmetry.
      apply filter_keeps. intros x Hx. by apply Z.eqb_neq, (first_with_none _ _ Hnz E).
    + destruct (first_with_split _ _ _ Hnz eq_refl E) as (es1 & r' & es2 & Ees & Ef). apply Z.eqb_eq in Ef.
      remember (first_with _ es) as a eqn:Ea. clear Ea. rewrite <- Hlh.
      pose proof H as H'. rewrite Ees in H'.
      assert (Efilter : filter (fun x : Z * rule => r_seq x.2 <> r_seq r) es = es1 ++ es2).
      { rewrite Ees in Hs |- *. apply StronglySorted_app in Hs as (H12 & _ & H2). inversion H2 as [|? ? _ Hall]; subst.
        rewrite filter_app, filter_cons, decide_False by (simpl; lia). f_equal.
        - apply filter_keeps. intros x Hx. specialize (H12 x (a, r') Hx ltac:(by left)). unfold seq_lt in H12. simpl in H12. lia.
        - apply filter_keeps. intros x Hx. apply (proj1 (Forall_forall _ _) Hall) in Hx. unfold seq_lt in Hx. simpl in Hx. lia. }
      rewrite Efilter. eapply own_entry_remove; [exact HD|exact H'|]. intros h' l' Hok' Hsame Hkeeps. exists l'.
      destruct (Hkeeps o ltac:(by left)) as [-> ->]. done.
  - intros [] h1 (l1 & H1 & Hsame & Hr1 & Hb1). ostep. apply own_fuel. intros fuel Hf. ostep. eapply own_load_list; [apply H1..|].
    eapply (own_find_in_list _ _ _ _ _ _ _ H1 _ (fun x => r_seq r <=? r_seq x)); [done|done|].
    rewrite first_higher; [|apply H1|].
    + replace (higher (r_seq r) (lower (r_seq r) es ++ higher (r_seq r) es)) with (higher (r_seq r) es); [by apply (HQ h1 l1)|].
      rewrite <- Hlh. clear. unfold higher. induction es as [|x es' IH]; [done|]. rewrite !(filter_cons _ x).
      destruct (decide (r_seq x.2 <> r_seq r)); [rewrite filter_cons; case_decide; by rewrite IH|]. rewrite decide_False by lia. done.
    + intros x. rewrite <- Hlh. by intros [? _]%list_elem_of_filter.
Qed.
End entry_insert.

(** [prefix_list_entry_insert] up to the place the entry gets *)
Definition insert_point (plist pentry : Z) : M pmem Z :=
  e ← load_entry pentry;
  mwhen (e_seq e =? -1)
    (seq ← prefix_new_seq_get plist; update_entry pentry (set_seq seq)) ;;
  l ← load_list plist;
  e ← load_entry pentry;
  after ← (if negb (pl_tail l =? 0) then t ← load_entry (pl_tail l); mret (e_seq t <? e_seq e) else mret false);
  if after : bool then mret 0
  else
    replace ← prefix_seq_check plist (e_seq e);
    mwhen (negb (replace =? 0)) (prefix_list_entry_remove plist replace) ;;
    fuel ← mem_fuel;
    l ← load_list plist;
    find_entry (S fuel) (fun p => Ret (e_seq e <=? e_seq p)) (pl_head l).

Lemma entry_insert_point plist pentry s :
  prefix_list_entry_insert place plist pentry s =
  (point ← insert_point plist pentry;
   entry_link plist pentry point ;; prefix_list_trie_add place plist pentry ;; add_count plist 1) s.
Proof. unfold prefix_list_entry_insert, insert_point. by do 5 (rewrite bind_assoc; apply bind_ext; intros ? ?). Qed.

Lemma own_insert_point h plist l m es o r (Q : Z -> pmem -> Prop) :
  plist_ok h plist l m es [o] -> o <> 0 -> rule_at h o = Some r -> best h o = Some 0 ->
  (forall h2 l2, plist_ok h2 plist l2 m (lower (r_seq (numbered_rule es r)) es ++ higher (r_seq (numbered_rule es r)) es) [o] ->
     same_list l l2 -> rule_at h2 o = Some (numbered_rule es r) -> best h2 o = Some 0 ->
     Q (hd_or 0 (higher (r_seq (numbered_rule es r)) es).*1) h2) ->
  own (insert_point plist o) h Q.
Proof.
  intros H Ho0 Hr Hb HQ. destruct (rule_at_entry _ _ _ Hr) as (e & Ee & Er).
  unfold insert_point. ostep. eapply own_load_entry; [done..|]. ostep. eapply own_number; [done..|].
  clear Hr Hb Ee Er H. intros h1 H Hr Hb. generalize dependent (numbered_rule es r). clear r e.
  intros r HQ Hr. destruct (rule_at_entry _ _ _ Hr) as (e & Ee & Er).
  ostep. eapply own_load_list; [apply H..|]. ostep. eapply own_load_entry; [done..|].
  assert (Eseq : e_seq e = r_seq r) by by rewrite <- Er. rewrite Eseq. clear Eseq Ee Er e. ostep.
  apply (own_mono _ _ (fun after h' => h' = h1 /\ (after = true -> lower (r_seq r) es = es /\ higher (r_seq r) es = []))).
  { pose proof (dk_tail _ _ _ (pk_dll _ _ _ _ _ _ _ H)) as Etail. destruct (list_snoc_case es) as [Ees|(es1 & [a ra] & Ees)].
    - rewrite Etail, Ees. by apply own_ret.
    - rewrite Etail. replace (last_or 0 es.*1) with a by (rewrite Ees, fmap_app; symmetry; apply last_or_snoc).
      destruct (pk_entry _ _ _ _ _ _ _ H a ra) as (Ha0 & ea & Eea & Era & _); [rewrite Ees; apply elem_of_app; right; by left|].
      destruct (Z.eqb_spec a 0); [done|]. cbn [negb]. ostep. eapply own_load_entry; [done..|]. apply own_ret. split; [done|].
      intros Hlt%Z.ltb_lt. apply beyond_last. eapply last_is_largest; [exact H|exact Ees|]. by rewrite <- Era. }
  intros after h2 [-> Hafter]. destruct after.
  - destruct (Hafter eq_refl) as [El Eh]. apply own_ret. rewrite El, Eh, app_nil_r in HQ. eapply HQ; [exact H| |done..].
    exists (pl_head l), (pl_tail l), (pl_count l). by destruct l.
  - eapply own_point; [exact H|done..].
Qed.

Lemma below_number (es : entries) o r : Forall (fun y => seq_lt y (o, r)) (lower (r_seq r) es) /\ Forall (seq_lt (o, r)) (higher (r_seq r) es).
Proof. split; apply Forall_forall; by intros x [Hx _]%list_elem_of_filter. Qed.

Lemma own_entry_insert h plist l m es o r (Q : unit -> pmem -> Prop) :
  plist_ok h plist l m es [o] -> o <> 0 -> rule_at h o = Some r -> best h o = Some 0 -> rule_ok D r ->
  r_seq r = -1 \/ 0 <= r_seq r <= UINT_MAX -> Z.of_nat (length es) + 1 < 2 ^ 31 ->
  (forall h' l', plist_ok h' plist l' m (insert_entry (o, numbered_rule es r) es) [] -> same_list l l' -> Q tt h') ->
  own (prefix_list_entry_insert place plist o) h Q.
Proof.
  intros H Ho0 Hr Hb Hok Hseq Hsmall HQ.
  assert (Hn : 0 <= r_seq (numbered_rule es r) <= UINT_MAX).
  { unfold numbered_rule. destruct (Z.eqb_spec (r_seq r) (-1)); [|lia]. by eapply next_number_bound. }
  assert (Hokn : rule_ok D (numbered_rule es r)) by (unfold numbered_rule; case_match; [by apply rule_ok_with_seq|done]).
  eapply own_ext; [exact (entry_insert_point plist o)|]. ostep. eapply own_insert_point; [exact H|done..|].
  intros h2 l2 H2 Hsame Hr2 Hb2. destruct (below_number es o (numbered_rule es r)) as [Hlow Hhigh].
  eapply own_insert_at; try done.
  - rewrite <- (lower_higher es) by apply H.
    pose proof (length_filter (fun x : Z * rule => r_seq x.2 <> r_seq (numbered_rule es r)) es). lia.
  - intros h' l' H' Hsame'. eapply HQ; [exact H'|]. destruct Hsame as (? & ? & ? & ->), Hsame' as (? & ? & ? & ->).
    by eexists _, _, _.
Qed.

Lemma faults_entry_insert h plist l m es o r :
  plist_ok h plist l m es [o] -> o <> 0 -> rule_at h o = Some r -> best h o = Some 0 ->
  prefix_wf (r_prefix r) -> rlen r <= 128 -> past_end D r -> faults (prefix_list_entry_insert place plist o) h.
Proof.
  intros H Ho0 Hr Hb Hw Hlen Hpast.
  assert (Hn : r_prefix (numbered_rule es r) = r_prefix r) by (unfold numbered_rule; by case_match).
  eapply faults_ext; [exact (entry_insert_point plist o)|]. ostep. eapply own_insert_point; [exact H|done..|].
  intros h2 l2 H2 Hsame Hr2 Hb2. destruct (below_number es o (numbered_rule es r)) as [Hlow Hhigh].
  eapply faults_insert_at; try done; unfold past_end, rbyte, width, rlen, rbytes in *; by rewrite Hn.
Qed.
End insert.
End enter.

(** ** Questions to a prefix list, its creation and its end

    The answers are those of the entries in the order of their numbers: the
    first rule that matches decides ([verdict]). *)

(** What a policy says of a prefix *)
Fixpoint first_match (rs : list rule) (p : prefix) : option rule :=
  match rs with
  | [] => None
  | r :: rs => if matches r p then Some r else first_match rs p
  end.
Definition verdict (rs : list rule) (p : prefix) : prefix_list_type :=
  match rs with
  | [] => PREFIX_PERMIT
  | _ => match first_match rs p with Some r => r_type r | None => PREFIX_DENY end
  end.

(** Whether a policy has [n] under another number *)
Definition dup_number (rs : list rule) (next : Z) (n : rule) : Z := if r_seq n =? -1 then next else r_seq n.
Definition has_dup (seq : Z) (n : rule) (rs : list rule) : bool := existsb (dup_of n seq) rs.

Lemma first_match_some rs p r :
  first_match rs p = Some r -> exists rs1 rs2, rs = rs1 ++ r :: rs2 /\ matches r p = true /\ Forall (fun x => matches x p = false) rs1.
Proof.
  induction rs as [|x rs IH]; [done|]. simpl. destruct (matches x p) eqn:Em.
  - intros [= ->]. by exists [], rs.
  - intros (rs1 & rs2 & -> & ? & ?)%IH. exists (x :: rs1), rs2. split_and!; [done..|by constructor].
Qed.

Lemma first_match_none rs p : Forall (fun x => matches x p = false) rs -> first_match rs p = None.
Proof. induction 1 as [|x rs Hx _ IH]; [done|]. simpl. by rewrite Hx. Qed.

(** In the order of the numbers the first match is the one with the smallest. *)
Lemma first_match_least (es : entries) p a r :
  StronglySorted seq_lt es -> (a, r) ∈ es -> matches r p = true ->
  (forall b rb, (b, rb) ∈ es -> matches rb p = true -> r_seq r <= r_seq rb) -> first_match es.*2 p = Some r.
Proof.
  induction 1 as [|[b rb] es Hs IH Hall]; [by intros ?%not_elem_of_nil|]. intros Hin Hm Hleast. simpl.
  destruct (matches rb p) eqn:Em.
  - apply elem_of_cons in Hin as [[= -> ->]|Hin]; [done|]. rewrite Forall_forall in Hall. specialize (Hall _ Hin).
    unfold seq_lt in Hall. simpl in Hall. specialize (Hleast b rb ltac:(by left) Em). lia.
  - apply elem_of_cons in Hin as [[= -> ->]|Hin]; [congruence|]. apply IH; [done|done|]. intros c rc Hc. apply (Hleast c). by right.
Qed.

Section query.
Context (D : nat) (HD : (1 <= D)%nat).

(** ** The decision *)
Lemma own_apply_which h plist l m es p (Q : prefix_list_type * Z -> pmem -> Prop) :
  plist_ok D h plist l m es [] -> prefix_wf p ->
  (forall a h', plist_ok D h' plist l m es [] -> Q (verdict es.*2 p, a) h') ->
  own (prefix_list_apply_which_prefix plist p) h Q.
Proof.
  intros H Hp HQ. unfold prefix_list_apply_which_prefix. pose proof (pk_nonnull _ _ _ _ _ _ _ H) as Hp0.
  destruct (Z.eqb_spec plist 0); [done|]. ostep. eapply own_load_list; [apply H|done|].
  rewrite (pk_count _ _ _ _ _ _ _ H). destruct es as [|[a1 r1] es'] eqn:Ees; [by apply own_ret, HQ|].
  destruct (Z.eqb_spec (Z.of_nat (length ((a1, r1) :: es'))) 0) as [E|_]; [simpl in E; lia|]. rewrite <- Ees in *.
  assert (Hv : verdict es.*2 p = match first_match es.*2 p with Some r => r_type r | None => PREFIX_DENY end) by by rewrite Ees.
  clear a1 r1 es' Ees. rewrite Hv in HQ. clear Hv.
  destruct (pk_trie _ _ _ _ _ _ _ H) as [tabs Ht]. destruct (pw_len _ Hp) as [Hl0 _].
  ostep. eapply own_load_master; [apply H..|]. rewrite (pk_depth _ _ _ _ _ _ _ H). ostep.
  replace (prefixlen p) with (prefixlen p - 8 * Z.of_nat 0) by lia.
  eapply (own_best_in_trie D HD (list_to_map es) p Hp D 0); [exact Ht|lia|lia|lia|apply Ht| |].
  { left. split; [done|]. intros a r (r' & _ & Hr'). lia. }
  intros b [[-> Hnone]|(Hb0 & rb & Eb & Hm & Hleast)].
  - simpl. apply own_ret. rewrite first_match_none in HQ; [by apply HQ|]. apply Forall_forall.
    intros r ([a r'] & -> & Ha)%list_elem_of_fmap. apply (Hnone a); [done|]. by apply (pk_lookup _ _ _ _ _ _ _ H).
  - apply (pk_lookup _ _ _ _ _ _ _ H) in Eb as Hbin. rewrite (first_match_least es p b rb) in HQ; [|apply H|done|done|].
    2:{ intros c rc Hc. apply (Hleast c); [done|]. by apply (pk_lookup _ _ _ _ _ _ _ H). }
    destruct (pk_entry _ _ _ _ _ _ _ H b rb Hbin) as (_ & e & Ee & Er & _).
    destruct (Z.eqb_spec b 0); [done|]. ostep. eapply own_update_entry; [done..|]. ostep.
    eapply own_load_entry; [by rewrite lookup_insert_eq|done|]. apply own_ret.
    replace (e_type (set_hitcnt _ e)) with (r_type rb) by by rewrite <- Er. apply HQ. by eapply plist_ok_update.
Qed.

Lemma own_apply h plist l m es p (Q : prefix_list_type -> pmem -> Prop) :
  plist_ok D h plist l m es [] -> prefix_wf p ->
  (forall h', plist_ok D h' plist l m es [] -> Q (verdict es.*2 p) h') ->
  own (prefix_list_apply plist p) h Q.
Proof.
  intros H Hp HQ. unfold prefix_list_apply. ostep. eapply own_apply_which; [done..|]. intros a h' H'. by apply own_ret, HQ.
Qed.

(** ** The same policy under another number *)
Lemma own_dup_check h plist l m es o n (Q : Z -> pmem -> Prop) :
  plist_ok D h plist l m es [o] -> o <> 0 -> rule_at h o = Some n -> prefix_wf (r_prefix n) -> rlen n <= 128 -> fits (r_prefix n) ->
  (forall b, (b =? 0) = negb (has_dup (dup_number es.*2 (next_number es) n) n es.*2) -> Q b h) ->
  own (prefix_entry_dup_check plist o) h Q.
Proof.
  intros H Ho0 Hr Hw Hlen Hfits HQ. destruct (rule_at_entry _ _ _ Hr) as (e & Ee & Er).
  unfold prefix_entry_dup_check. ostep. eapply own_load_entry; [done..|]. ostep.
  apply (own_mono _ _ (fun seq h' => h' = h /\ seq = dup_number es.*2 (next_number es) n)).
  { unfold dup_number. rewrite <- Er. cbn [r_seq rule_of].
    destruct (e_seq e =? -1); [eapply own_new_seq; [exact H|done]|by apply own_ret]. }
  intros seq h1 [-> ->]. ostep. eapply own_load_list; [apply H..|]. ostep. eapply own_load_master; [apply H..|].
  rewrite (pk_depth _ _ _ _ _ _ _ H). destruct (pk_trie _ _ _ _ _ _ _ H) as [tabs Ht]. ostep.
  replace (u (e_prefix e)) with (rbytes n) by by rewrite <- Er. replace (prefixlen (e_prefix e)) with (rlen n - 8 * Z.of_nat 0).
  2:{ rewrite <- Er. unfold rlen. simpl. lia. }
  eapply (own_dup_chain D HD (list_to_map es) n Hw Hlen Hfits _ 0); [exact Ht|lia|lia|apply Ht|].
  intros q c Hc Hcin Hcall. ostep. apply own_fuel. intros fuel Hf. pose proof (chain_size _ _ _ Hc) as Hsize.
  set (seq := dup_number _ _ _) in *.
  eapply (own_dup_in_chain D HD (list_to_map es) n Hw _ _ _ c e seq); [apply Ht|done|exact Hc|lia|exact Hcin| |].
  - intros Hno. apply HQ. symmetry. apply negb_true_iff, not_true_is_false. intros (r & Hrin & Hd)%existsb_exists.
    apply list_elem_of_In, list_elem_of_fmap in Hrin as ([a r'] & -> & Ha). simpl in Hd.
    apply (pk_lookup _ _ _ _ _ _ _ H) in Ha. pose proof Hd as Hd'. unfold dup_of, same_policy in Hd'.
    rewrite !andb_true_iff in Hd'. destruct Hd' as [[[[Hs _] _] _] _].
    rewrite (Hno a r' (Hcall _ _ Ha Hs) Ha) in Hd. done.
  - intros a r Ha Hd. apply HQ. destruct (to_rules _ _ _ _ _ _ Ht _ _ Ha) as (Ha0 & _).
    destruct (Z.eqb_spec a 0); [done|]. symmetry. apply negb_false_iff, existsb_exists. exists r. split; [|done].
    apply list_elem_of_In, list_elem_of_fmap. exists (a, r). split; [done|]. by apply (pk_lookup _ _ _ _ _ _ _ H).
Qed.

(** ** The end *)

(** A list whose entries go one by one from the front *)
Record dying (h : pmem) (plist : Z) (l : prefix_list) (m : prefix_master) (es : entries) : Prop := {
  dy_list : h !! plist = Some (OList l);
  dy_nonnull : plist <> 0;
  dy_master : h !! pl_master l = Some (OMaster m);
  dy_master_nonnull : pl_master l <> 0;
  dy_depth : trie_depth m = D;
  dy_dom : forall a o, h !! a = Some o ->
    match o with
    | OTable _ => True
    | OEntry _ => a ∈ es.*1
    | OList _ => a = plist
    | OMaster _ => a = pl_master l
    end;
  dy_trie : exists tabs, trie_ok D h (pl_trie l) (list_to_map es) [] tabs;
  dy_seg : exists p, dseg (entry_links h) p es.*1 0;
  dy_nodup : NoDup es.*1;
  dy_count : pl_count l = Z.of_nat (length es);
  dy_small : Z.of_nat (length es) < 2 ^ 31
}.

Lemma plist_dying h plist l m es : plist_ok D h plist l m es [] -> dying h plist l m es.
Proof.
  intros H. split; try apply H.
  - intros a o Ho. pose proof (pk_dom _ _ _ _ _ _ _ H a o Ho) as Hd. by rewrite app_nil_r in Hd.
  - exists 0. apply H.
Qed.

Lemma dying_step h h1 plist l m a r es tabs1 e :
  dying h plist l m ((a, r) :: es) -> trie_ok D h1 (pl_trie l) (list_to_map es) [] tabs1 -> trie_frame h h1 ->
  h1 !! a = Some (OEntry e) ->
  dying (<[plist := OList (set_pl_count (pl_count l + -1) l)]> (delete a h1)) plist (set_pl_count (pl_count l + -1) l) m es.
Proof.
  intros H Ht Hf Ea. destruct (proj1 (NoDup_cons _ _) (dy_nodup _ _ _ _ _ H)) as [Hnin Hnd].
  assert (Hfresh : (list_to_map es : rules) !! a = None) by by apply not_elem_of_list_to_map.
  pose proof (trie_frame_list _ _ _ _ Hf (dy_list _ _ _ _ _ H)) as Hl1.
  pose proof (trie_frame_master _ _ _ _ Hf (dy_master _ _ _ _ _ H)) as Hm1.
  assert (Hap : a <> plist) by congruence. assert (Ham : a <> pl_master l) by congruence.
  assert (Hpm : plist <> pl_master l) by congruence.
  destruct (delete_entry_facts h1 a e _ Ea Hfresh) as (Hd1 & Hd2 & Hd3).
  assert (Hl2 : delete a h1 !! plist = Some (OList l)) by by rewrite lookup_delete_ne.
  destruct (insert_list_facts _ _ _ (set_pl_count (pl_count l + -1) l) Hl2) as (Hi1 & Hi2 & Hi3 & Hi4).
  split; simpl.
  - by rewrite lookup_insert_eq.
  - apply H.
  - by rewrite lookup_insert_ne, lookup_delete_ne.
  - apply H.
  - apply H.
  - intros x ob Hx. destruct (decide (x = plist)) as [->|Hne]; [rewrite lookup_insert_eq in Hx; by injection Hx as <-|].
    rewrite lookup_insert_ne in Hx by done. apply lookup_delete_Some in Hx as [Hne' Hx].
    pose proof (dom_after plist l _ h h1 _ (dy_dom _ _ _ _ _ H) (dy_list _ _ _ _ _ H) (or_introl Hf) x ob Hx) as Hdom.
    destruct ob; [|done..]. simpl in Hdom. apply elem_of_cons in Hdom as [->|]; done.
  - exists tabs1. eapply trie_ok_ext; [exact Hi4|by intros; split; [apply Hi2|apply Hi3]|].
    eapply trie_ok_ext; [exact Hd3|exact Hd2|done].
  - destruct (dy_seg _ _ _ _ _ H) as (p & _ & _ & Hseg). exists a. eapply dseg_ext; [|exact Hseg]. intros x Hx.
    rewrite Hi1, Hd1; [by apply trie_frame_links|]. by intros ->.
  - done.
  - rewrite (dy_count _ _ _ _ _ H). simpl. lia.
  - pose proof (dy_small _ _ _ _ _ H) as Hs. simpl in Hs. lia.
Qed.

Lemma own_delete_entries fuel h plist l m es (Q : unit -> pmem -> Prop) :
  dying h plist l m es -> (length es < fuel)%nat ->
  (forall h' c, dying h' plist (set_pl_count c l) m [] -> Q tt h') ->
  own (delete_entries fuel plist (hd_or 0 es.*1)) h Q.
Proof.
  revert h l es. induction fuel as [|fuel IH]; intros h l [|[a r] es] H Hf HQ; simpl in Hf; try lia; cbn [delete_entries].
  - apply own_ret. apply (HQ _ (pl_count l)). by destruct l.
  - destruct (dy_seg _ _ _ _ _ H) as (p & Ha0 & El & Hseg). unfold entry_links in El. simpl in El.
    destruct (h !! a) as [[e| | |]|] eqn:Ea; try done. injection El as _ En. simpl.
    destruct (dy_trie _ _ _ _ _ H) as [tabs Ht]. destruct (proj1 (NoDup_cons _ _) (dy_nodup _ _ _ _ _ H)) as [Hnin Hnd].
    assert (Er : rule_of e = r).
    { destruct (to_rules _ _ _ _ _ _ Ht a r) as (_ & Hra & _); [by apply lookup_insert_eq|].
      unfold rule_at in Hra. rewrite Ea in Hra. by injection Hra. }
    destruct (Z.eqb_spec a 0); [done|]. ostep. eapply own_load_entry; [done..|]. ostep.
    eapply (own_trie_del D HD plist l m a e (list_to_map es) tabs); try done; try apply H.
    { by apply not_elem_of_list_to_map. }
    { by rewrite Er. }
    intros h1 tabs1 Ht1 Hf1 _. ostep. pose proof (Hf1 a) as Ha1. rewrite Ea in Ha1. destruct Ha1 as (v & Ea1).
    unfold prefix_list_entry_free. eapply own_free; [done..|]. ostep.
    pose proof (dy_count _ _ _ _ _ H) as Hc. pose proof (dy_small _ _ _ _ _ H) as Hs. simpl in Hc, Hs.
    assert (Hap : a <> plist) by (pose proof (dy_list _ _ _ _ _ H); congruence).
    eapply own_add_count.
    + rewrite lookup_delete_ne by done. eapply trie_frame_list; [done|apply H].
    + apply H.
    + lia.
    + rewrite En. eapply IH; [by eapply dying_step|lia|]. intros h' c Hd. eapply HQ. exact Hd.
Qed.

(** What is left: the list, its empty root table and the master *)
Lemma dying_end h plist l m :
  dying h plist l m [] -> pl_trie l <> 0 /\ exists t, h = <[pl_master l := OMaster m]> {[plist := OList l; pl_trie l := OTable t]}.
Proof.
  intros H. destruct (dy_trie _ _ _ _ _ H) as [tabs Ht]. pose proof (to_root _ _ _ _ _ _ Ht) as Hroot.
  destruct (to_table _ _ _ _ _ _ Ht _ _ Hroot) as (Hr0 & t & Et & _). split; [done|]. exists t.
  pose proof (dy_list _ _ _ _ _ H) as Hl. pose proof (dy_master _ _ _ _ _ H) as Hm.
  apply map_eq. intros x. destruct (decide (x = pl_master l)) as [->|H1]; [by rewrite lookup_insert_eq|].
  rewrite lookup_insert_ne by done. destruct (decide (x = plist)) as [->|H2]; [by rewrite lookup_insert_eq|].
  rewrite lookup_insert_ne by done. destruct (decide (x = pl_trie l)) as [->|H3]; [by rewrite lookup_singleton_eq|].
  rewrite lookup_singleton_ne by done. destruct (h !! x) as [o|] eqn:Ex; [|done]. exfalso.
  pose proof (dy_dom _ _ _ _ _ H x o Ex) as Hd. destruct o; try done; [by apply not_elem_of_nil in Hd|].
  destruct (to_all _ _ _ _ _ _ Ht x t0 Ex) as [π Hπ]. destruct (proj1 (to_dom _ _ _ _ _ _ Ht π) (mk_is_Some _ _ Hπ)) as [->|[Hp|(a & r & Ha & _)]].
  - congruence.
  - apply prefix_nil_inv in Hp as ->. congruence.
  - done.
Qed.

(** ** The beginning *)
Lemma empty_trie_ok h root :
  root <> 0 -> h !! root = Some (OTable zero_table) -> (forall a t, h !! a = Some (OTable t) -> a = root) ->
  trie_ok D h root ∅ [] {[ [] := root ]}.
Proof.
  intros H0 Hr Hall. split.
  - apply lookup_singleton_eq.
  - intros π. rewrite lookup_singleton_is_Some. split; [by left|]. intros [->|[Hp|(a & r & Ha & _)]]; [done| |done].
    by apply prefix_nil_inv in Hp.
  - intros π1 π2 a [<- _]%lookup_singleton_Some [<- _]%lookup_singleton_Some. done.
  - intros π a [<- <-]%lookup_singleton_Some. split; [done|]. exists zero_table. split; [done|]. split; [done|].
    intros i s Hs. unfold zero_table in Hs. apply lookup_replicate in Hs as [-> _].
    unfold slot_ok. rewrite !chain_ptrs_nil by by intros a r Ha%lookup_empty_Some. simpl. split; [done|].
    case_decide; [|done]. by rewrite lookup_singleton_ne.
  - intros a t Ha. apply Hall in Ha as ->. exists []. apply lookup_singleton_eq.
  - by intros a r Ha%lookup_empty_Some.
  - by intros a b r r' Ha%lookup_empty_Some.
Qed.

Lemma new_plist_ok plist l m root :
  plist <> 0 -> root <> 0 -> pl_master l <> 0 -> plist <> root -> plist <> pl_master l -> root <> pl_master l ->
  trie_depth m = D -> pl_trie l = root -> pl_count l = 0 -> pl_head l = 0 -> pl_tail l = 0 ->
  plist_ok D (<[pl_master l := OMaster m]> {[plist := OList l; root := OTable zero_table]}) plist l m [] [].
Proof.
  intros Hp0 Hr0 Hm0 Hpr Hpm Hrm HD' Et Ec Eh El. split; try done.
  - by rewrite lookup_insert_ne, lookup_insert_eq.
  - by rewrite lookup_insert_eq.
  - intros a o [[<- <-]|[_ [[<- <-]|[_ [<- <-]%lookup_singleton_Some]]%lookup_insert_Some]]%lookup_insert_Some; done.
  - by intros a ?%not_elem_of_nil.
  - exists {[ [] := root ]}. rewrite Et. apply empty_trie_ok; [done| |].
    + by rewrite !lookup_insert_ne, lookup_singleton_eq.
    + by intros a t [[<- ?]|[_ [[<- ?]|[_ [<- ?]%lookup_singleton_Some]]%lookup_insert_Some]]%lookup_insert_Some.
  - by split; [| | |constructor].
  - constructor.
Qed.
End query.
