(* ===== verification/PlistBody.v ===== *)
(** * A prefix list as an assertion

    [body ma a l es] holds of the part of memory that is the prefix list at
    [a], without its master at [ma]: the object [l], the entries [es] and the
    tables.  The rules say what the operations on one list do with it. *)

From stdpp Require Import sorting.
From iris.proofmode Require Import proofmode.
From S2P Require Import Prelude SepLogic Heap Own FrrPrefix FrrPrefixBits.
From S2P Require Import Plist PlistChain PlistSlot PlistTrie PlistInstall PlistApply PlistList PlistOps PlistQuery.

#[local] Open Scope Z_scope.

Section body.
Context (D : nat) (HD : (1 <= D)%nat).

(** ** The master's other fields do not matter. *)
Lemma plist_ok_master h plist l m m' es extra :
  plist_ok D h plist l m es extra -> trie_depth m' = D ->
  plist_ok D (<[pl_master l := OMaster m']> h) plist l m' es extra.
Proof.
  intros H Hd. pose proof (pk_master _ _ _ _ _ _ _ H) as Hm.
  assert (Hlinks : forall a, entry_links (<[pl_master l := OMaster m']> h) a = entry_links h a).
  { intros a. unfold entry_links. destruct (decide (a = pl_master l)) as [->|]; [|by rewrite lookup_insert_ne].
    by rewrite lookup_insert_eq Hm. }
  assert (Hrest : forall a, best (<[pl_master l := OMaster m']> h) a = best h a /\
      rule_at (<[pl_master l := OMaster m']> h) a = rule_at h a).
  { intros a. unfold best, rule_at. destruct (decide (a = pl_master l)) as [->|]; [|by rewrite lookup_insert_ne].
    by rewrite lookup_insert_eq Hm. }
  assert (Hother : forall a ob, (forall x, ob <> OMaster x) -> <[pl_master l := OMaster m']> h !! a = Some ob <-> h !! a = Some ob).
  { intros a ob Hob. destruct (decide (a = pl_master l)) as [->|]; [rewrite lookup_insert_eq Hm; naive_solver|by rewrite lookup_insert_ne]. }
  destruct (pk_trie _ _ _ _ _ _ _ H) as [tabs Ht]. split; try apply H.
  - apply Hother; [done|apply H].
  - by rewrite lookup_insert_eq.
  - done.
  - intros a ob Ha. destruct (decide (a = pl_master l)) as [->|Hne]; [rewrite lookup_insert_eq in Ha; by injection Ha as <-|].
    rewrite lookup_insert_ne // in Ha. by apply (pk_dom _ _ _ _ _ _ _ H).
  - exists tabs. eapply trie_ok_ext; [intros a t; by apply Hother|by intros; apply Hrest|exact Ht].
  - eapply dll_ok_ext; [intros a _; apply Hlinks|apply H].
Qed.

(** The fields of the list that only its place among the lists, its name and
    its description depend on *)
Definition same_core (l l' : prefix_list) : Prop :=
  pl_master l' = pl_master l /\ pl_trie l' = pl_trie l /\ pl_count l' = pl_count l /\
  pl_head l' = pl_head l /\ pl_tail l' = pl_tail l.

Lemma plist_ok_core h plist l l' m es extra :
  plist_ok D h plist l m es extra -> same_core l l' ->
  plist_ok D (<[plist := OList l']> h) plist l' m es extra.
Proof.
  intros H (Em & Et & Ec & Eh & El). pose proof (pk_list _ _ _ _ _ _ _ H) as Hl.
  destruct (insert_list_facts _ _ _ l' Hl) as (Hi1 & Hi2 & Hi3 & Hi4).
  destruct (pk_trie _ _ _ _ _ _ _ H) as [tabs Ht]. split; rewrite ?Em ?Ec; try apply H.
  - by rewrite lookup_insert_eq.
  - rewrite lookup_insert_ne; [apply H|]. pose proof (pk_master _ _ _ _ _ _ _ H). congruence.
  - intros a ob Ha. destruct (decide (a = plist)) as [->|Hne]; [rewrite lookup_insert_eq in Ha; by injection Ha as <-|].
    rewrite lookup_insert_ne // in Ha. by apply (pk_dom _ _ _ _ _ _ _ H).
  - exists tabs. rewrite Et. eapply trie_ok_ext; [exact Hi4|by intros; split; [apply Hi2|apply Hi3]|exact Ht].
  - eapply dll_ok_ext; [intros a _; apply Hi1|]. destruct (pk_dll _ _ _ _ _ _ _ H). split; by rewrite ?Eh ?El.
Qed.

Lemma plist_ok_extra h plist l m es o e :
  plist_ok D h plist l m es [] -> h !! o = None -> plist_ok D (<[o := OEntry e]> h) plist l m es [o].
Proof.
  intros H Ho.
  assert (Hne : forall a, is_Some (h !! a) -> <[o := OEntry e]> h !! a = h !! a).
  { intros a [? Ha]. rewrite lookup_insert_ne //. congruence. }
  assert (Hin : forall a, a ∈ es.*1 -> is_Some (h !! a)).
  { intros a ([b r] & -> & Hb)%list_elem_of_fmap. destruct (pk_entry _ _ _ _ _ _ _ H b r Hb) as (_ & e' & Ee & _). by eexists. }
  destruct (pk_trie _ _ _ _ _ _ _ H) as [tabs Ht]. split; try apply H.
  - rewrite Hne; [apply H|by eexists; apply H].
  - rewrite Hne; [apply H|by eexists; apply H].
  - intros a ob Ha. destruct (decide (a = o)) as [->|Hao].
    + rewrite lookup_insert_eq in Ha. injection Ha as <-. apply elem_of_app. right. by left.
    + rewrite lookup_insert_ne // in Ha. pose proof (pk_dom _ _ _ _ _ _ _ H a ob Ha) as Hd.
      destruct ob; [|done..]. rewrite app_nil_r in Hd. apply elem_of_app. by left.
  - intros a ->%list_elem_of_singleton [? Hx]%Hin. congruence.
  - exists tabs. eapply trie_ok_ext; [| |exact Ht].
    + intros a t. destruct (decide (a = o)) as [->|]; [rewrite lookup_insert_eq Ho; naive_solver|by rewrite lookup_insert_ne].
    + intros a r Ha. unfold best, rule_at. rewrite Hne //. apply Hin, list_elem_of_fmap. exists (a, r). split; [done|].
      by apply (pk_lookup _ _ _ _ _ _ _ H).
  - eapply dll_ok_ext; [|apply H]. intros a Ha. unfold entry_links. by rewrite Hne; [|by apply Hin].
Qed.

(** ** The assertion *)
Definition body (ma a : Z) (l : prefix_list) (es : entries) : hprop pobj :=
  {| hprop_holds h := h !! ma = None /\ pl_master l = ma /\
       forall m, trie_depth m = D -> plist_ok D (<[ma := OMaster m]> h) a l m es [] |}.

Lemma body_open ma a l es m h1 h2 :
  body ma a l es h1 -> hprop_holds (ma ↦ OMaster m)%I h2 -> h1 ##ₘ h2 -> trie_depth m = D ->
  plist_ok D (h1 ∪ h2) a l m es [].
Proof.
  intros (Hn & Em & H) [Hma0 ->] Hd Hdep. rewrite map_union_comm // -insert_union_singleton_l. by apply H.
Qed.

Lemma body_close ma a l m es h :
  plist_ok D h a l m es [] -> pl_master l = ma -> (body ma a l es ∗ ma ↦ OMaster m : hpropI pobj)%I h.
Proof.
  intros H <-. pose proof (pk_master _ _ _ _ _ _ _ H) as Hm.
  exists (delete (pl_master l) h), {[pl_master l := OMaster m]}. split_and!.
  - rewrite map_union_comm; [|apply map_disjoint_singleton_r_2, lookup_delete_eq].
    by rewrite -insert_union_singleton_l insert_delete_id.
  - apply map_disjoint_singleton_r_2, lookup_delete_eq.
  - split; [apply lookup_delete_eq|]. split; [done|]. intros m' Hm'. rewrite insert_delete_eq. by eapply plist_ok_master.
  - split; [apply H|done].
Qed.

(** Operations on one list *)
Lemma body_wp {A} (c : M pmem A) ma a l m es (P : A -> entries -> Prop) (Q : A -> hpropI pobj) :
  trie_depth m = D ->
  (forall h (R : A -> pmem -> Prop), plist_ok D h a l m es [] ->
     (forall x h' l' es', plist_ok D h' a l' m es' [] -> same_list l l' -> P x es' -> R x h') -> own c h R) ->
  body ma a l es -∗ ma ↦ OMaster m -∗
  (∀ x l' es', ⌜same_list l l' /\ P x es'⌝ → body ma a l' es' -∗ ma ↦ OMaster m -∗ Q x) -∗ wp c Q.
Proof.
  intros Hdep Hc. iIntros "Hb Hm HQ".
  iApply (wp_wand _ (fun x => ∃ l' es', ⌜same_list l l' /\ P x es'⌝ ∧ (body ma a l' es' ∗ ma ↦ OMaster m))%I).
  iSplitL "Hb Hm"; last first.
  { iIntros (x) "(%l' & %es' & %HP & Hb & Hm)". by iApply ("HQ" with "[//] Hb Hm"). }
  iStopProof. constructor. intros h (h1 & h2 & -> & Hd & H1 & H2). pose proof (body_open _ _ _ _ _ _ _ H1 H2 Hd Hdep) as Hok.
  apply own_wp. apply (Hc _ _ Hok). intros x h' l' es' Hok' Hsame HP. exists l', es'. split; [by split|].
  destruct H1 as (_ & Em & _). destruct (same_list_fields _ _ Hsame) as (_ & _ & Em' & _).
  apply (body_close ma _ _ _ _ _ Hok'). congruence.
Qed.

(** ** Facts *)
Lemma body_fields ma a l es : body ma a l es ⊢@{hpropI pobj} ⌜a <> 0 /\ pl_master l = ma⌝.
Proof.
  constructor. intros h (_ & Em & H). split; [|done].
  by apply (pk_nonnull _ _ _ _ _ _ _ (H (empty_master D) eq_refl)).
Qed.

Lemma body_list ma a l es h : body ma a l es h -> h !! a = Some (OList l).
Proof.
  intros (Hn & Em & H). specialize (H (empty_master D) eq_refl). pose proof (pk_list _ _ _ _ _ _ _ H) as Hl.
  destruct (decide (ma = a)) as [->|]; [by rewrite lookup_insert_eq in Hl|by rewrite lookup_insert_ne in Hl].
Qed.

Lemma body_ne ma ma' a b l l' es es' : body ma a l es ∗ body ma' b l' es' ⊢@{hpropI pobj} ⌜a <> b⌝.
Proof.
  constructor. intros h (h1 & h2 & -> & Hd & H1%body_list & H2%body_list) ->. by eapply map_disjoint_spec.
Qed.

Lemma body_at_least ma a l es : body ma a l es ⊢@{hpropI pobj} at_least (S (length es)).
Proof.
  constructor. intros h Hb. pose proof (body_list _ _ _ _ _ Hb) as Hl. destruct Hb as (Hn & Em & H).
  specialize (H (empty_master D) eq_refl). simpl.
  assert (Hs : list_to_set (a :: es.*1) ⊆ dom h).
  { intros x Hx%elem_of_list_to_set. apply elem_of_cons in Hx as [->|([y r] & -> & Hy)%list_elem_of_fmap]; [by eapply elem_of_dom_2|].
    destruct (pk_entry _ _ _ _ _ _ _ H _ _ Hy) as (_ & e & Ee & _).
    destruct (decide (ma = y)) as [->|]; [by rewrite lookup_insert_eq in Ee|].
    rewrite lookup_insert_ne // in Ee. by eapply elem_of_dom_2. }
  apply subseteq_size in Hs. rewrite size_list_to_set in Hs; [|].
  - rewrite size_dom in Hs. simpl in Hs. by rewrite length_fmap in Hs.
  - constructor; [|by eapply pk_nodup]. intros ([y r] & Ey & Hy)%list_elem_of_fmap. simpl in Ey. subst y.
    destruct (pk_entry _ _ _ _ _ _ _ H _ _ Hy) as (_ & e & Ee & _).
    destruct (decide (ma = a)) as [->|]; [by rewrite lookup_insert_eq in Ee|]. rewrite lookup_insert_ne // in Ee. congruence.
Qed.

(** ** The object of the list *)
Lemma wp_own_body {A} (c : M pmem A) ma a l es (P : A -> hpropI pobj) (Q : A -> hpropI pobj) :
  (forall h, body ma a l es h -> own c h (fun x h' => P x h')) ->
  body ma a l es -∗ (∀ x, P x -∗ Q x) -∗ wp c Q.
Proof.
  intros Hc. iIntros "Hb HQ". iApply (wp_wand _ P). iFrame "HQ". iStopProof. constructor. intros h Hb. by apply own_wp, Hc.
Qed.

Lemma wp_body_load ma a l es (Q : prefix_list -> hpropI pobj) :
  body ma a l es -∗ (body ma a l es -∗ Q l) -∗ wp (load_list a) Q.
Proof.
  iIntros "Hb HQ". iDestruct (body_fields with "Hb") as %[Ha0 _].
  iApply (wp_own_body _ _ _ _ _ (fun x => ⌜x = l⌝ ∧ body ma a l es)%I with "Hb").
  { intros h Hb. eapply own_load_list; [by eapply body_list|done|]. by split. }
  iIntros (x) "[-> Hb]". by iApply "HQ".
Qed.

Lemma wp_body_update ma a l es f (Q : unit -> hpropI pobj) :
  same_core l (f l) ->
  body ma a l es -∗ (body ma a (f l) es -∗ Q tt) -∗ wp (update_list a f) Q.
Proof.
  intros Hf. iIntros "Hb HQ". iDestruct (body_fields with "Hb") as %[Ha0 _].
  iApply (wp_own_body _ _ _ _ _ (fun _ => body ma a (f l) es)%I with "Hb").
  - intros h Hb. eapply own_update_list; [by eapply body_list|done|]. pose proof (body_list _ _ _ _ _ Hb) as Hl.
    destruct Hb as (Hn & Em & H). assert (Hne : a <> ma) by (intros ->; congruence). split; [by rewrite lookup_insert_ne|].
    split; [by destruct Hf as (-> & _)|]. intros m Hm. rewrite insert_insert_ne //. by apply plist_ok_core with l; [apply H|].
  - iIntros ([]) "Hb". by iApply "HQ".
Qed.

(** ** Beginning and end *)
Lemma body_new ma a l root m :
  pl_master l = ma -> trie_depth m = D -> pl_trie l = root -> pl_count l = 0 -> pl_head l = 0 -> pl_tail l = 0 ->
  a ↦ OList l ∗ root ↦ OTable zero_table ∗ ma ↦ OMaster m ⊢@{hpropI pobj} body ma a l [] ∗ ma ↦ OMaster m.
Proof.
  intros <- Hdep Et Ec Eh El. constructor. intros h (h1 & h2 & -> & Hd & [Ha ->] & (h3 & h4 & -> & Hd' & [Hr ->] & [Hm ->])).
  apply map_disjoint_union_r in Hd as [Hd1 Hd2]. rewrite !map_disjoint_singleton_l !lookup_singleton_None in Hd1 Hd2 Hd'.
  replace (_ ∪ _) with (<[pl_master l := OMaster m]> {[a := OList l; root := OTable zero_table]} : pmem).
  - apply body_close; [|done]. by apply new_plist_ok.
  - rewrite (insert_union_singleton_l _ (pl_master l)) (insert_union_singleton_l _ a) map_union_comm.
    + by rewrite assoc_L.
    + rewrite map_disjoint_singleton_l lookup_union_None !lookup_singleton_None. done.
Qed.

Lemma body_destroy ma a l es m fuel (Q : unit -> hpropI pobj) :
  trie_depth m = D -> (length es < fuel)%nat ->
  body ma a l es -∗ ma ↦ OMaster m -∗
  (∀ c t, ⌜pl_trie l <> 0⌝ → a ↦ OList (set_pl_count c l) -∗ pl_trie l ↦ OTable t -∗ ma ↦ OMaster m -∗ Q tt) -∗
  wp (delete_entries fuel a (pl_head l)) Q.
Proof.
  intros Hdep Hf. iIntros "Hb Hm HQ". iDestruct (body_fields with "Hb") as %[Ha0 Em].
  iApply (wp_wand _ (fun _ => ∃ c t, ⌜pl_trie l <> 0⌝ ∧ (a ↦ OList (set_pl_count c l) ∗ pl_trie l ↦ OTable t ∗ ma ↦ OMaster m))%I).
  iSplitL "Hb Hm"; last first.
  { iIntros ([]) "(%c & %t & %Ht & Ha & Hr & Hm)". iApply ("HQ" with "[//] Ha Hr Hm"). }
  iStopProof. constructor. intros h (h1 & h2 & -> & Hd & H1 & H2). pose proof (body_open _ _ _ _ _ _ _ H1 H2 Hd Hdep) as Hok.
  apply own_wp. rewrite (dk_head _ _ _ (pk_dll _ _ _ _ _ _ _ Hok)).
  eapply (own_delete_entries D HD); [by apply plist_dying|done|]. intros h' c Hdy.
  destruct (dying_end _ _ _ _ _ Hdy) as (Hr0 & t & Eh). simpl in Hr0, Eh. exists c, t. split; [done|].
  pose proof (dy_list _ _ _ _ _ _ Hdy) as Hl. pose proof (dy_master _ _ _ _ _ _ Hdy) as Hm. simpl in Hm.
  destruct (dy_trie _ _ _ _ _ _ Hdy) as [tabs Ht]. destruct (to_table _ _ _ _ _ _ Ht _ _ (to_root _ _ _ _ _ _ Ht)) as (_ & t' & Et & _).
  simpl in Et. assert (Hat : a <> pl_trie l) by congruence. assert (Ham : a <> pl_master l) by congruence.
  assert (Htm : pl_trie l <> pl_master l) by congruence. rewrite -Em.
  exists {[a := OList (set_pl_count c l)]}, ({[pl_trie l := OTable t]} ∪ {[pl_master l := OMaster m]}).
  split_and!; [|rewrite map_disjoint_singleton_l lookup_union_None !lookup_singleton_None; done|done|].
  - rewrite Eh insert_union_singleton_l (insert_union_singleton_l _ a) map_union_comm ?assoc_L //.
    rewrite map_disjoint_singleton_l lookup_union_None !lookup_singleton_None. done.
  - exists {[pl_trie l := OTable t]}, {[pl_master l := OMaster m]}. split_and!; [done|by rewrite map_disjoint_singleton_l lookup_singleton_None|done|].
    split; [apply (dy_master_nonnull _ _ _ _ _ _ Hdy)|done].
Qed.

(** ** An entry that is not in the list *)
Lemma entry_open ma a l es m o e h1 h2 h3 :
  body ma a l es h1 -> hprop_holds (ma ↦ OMaster m)%I h2 -> hprop_holds (o ↦ OEntry e)%I h3 ->
  h1 ∪ h2 ##ₘ h3 -> h1 ##ₘ h2 -> trie_depth m = D ->
  plist_ok D ((h1 ∪ h2) ∪ h3) a l m es [o] /\ o <> 0 /\ ((h1 ∪ h2) ∪ h3) !! o = Some (OEntry e).
Proof.
  intros H1 H2 [Ho0 ->] Hd Hd' Hdep. pose proof (body_open _ _ _ _ _ _ _ H1 H2 Hd' Hdep) as Hok.
  rewrite map_union_comm // -insert_union_singleton_l. rewrite lookup_insert_eq. split_and!; [|done|done].
  apply plist_ok_extra; [done|]. by rewrite map_disjoint_singleton_r in Hd.
Qed.

Lemma wp_dup_check ma a l es m o e (Q : Z -> hpropI pobj) :
  trie_depth m = D -> prefix_wf (e_prefix e) -> prefixlen (e_prefix e) <= 128 -> fits (e_prefix e) ->
  body ma a l es -∗ ma ↦ OMaster m -∗ o ↦ OEntry e -∗
  (∀ b, ⌜(b =? 0) = negb (has_dup (dup_number es.*2 (next_number es) (rule_of e)) (rule_of e) es.*2)⌝ →
     body ma a l es -∗ ma ↦ OMaster m -∗ o ↦ OEntry e -∗ Q b) -∗
  wp (prefix_entry_dup_check a o) Q.
Proof.
  intros Hdep Hw Hlen Hf. iIntros "Hb Hm Ho HQ".
  iApply (wp_wand _ (fun b => ⌜(b =? 0) = negb (has_dup (dup_number es.*2 (next_number es) (rule_of e)) (rule_of e) es.*2)⌝ ∧
    ((body ma a l es ∗ ma ↦ OMaster m) ∗ o ↦ OEntry e))%I).
  iSplitL "Hb Hm Ho"; last first.
  { iIntros (b) "(%Hdup & (Hb & Hm) & Ho)". by iApply ("HQ" with "[//] Hb Hm Ho"). }
  iCombine "Hb Hm" as "H". iCombine "H Ho" as "H". iStopProof. constructor.
  intros h (h12 & h3 & -> & Hd & (h1 & h2 & -> & Hd' & H1 & H2) & H3).
  destruct (entry_open _ _ _ _ _ _ _ _ _ _ H1 H2 H3 Hd Hd' Hdep) as (Hp & Ho0 & Ho). apply own_wp.
  eapply (own_dup_check D HD _ _ _ _ _ _ (rule_of e)); [exact Hp|done|by rewrite /rule_at Ho|done|done|done|].
  intros b Eb. split; [done|]. exists (h1 ∪ h2), h3. split_and!; [done|done| |done]. by exists h1, h2.
Qed.

Lemma wp_entry_insert place `{!Placement place} ma a l es m o e (Q : unit -> hpropI pobj) :
  trie_depth m = D -> rule_ok D (rule_of e) -> e_next_best e = 0 ->
  e_seq e = -1 \/ 0 <= e_seq e <= UINT_MAX -> Z.of_nat (length es) + 1 < 2 ^ 31 ->
  body ma a l es -∗ ma ↦ OMaster m -∗ o ↦ OEntry e -∗
  (∀ l', ⌜same_list l l'⌝ → body ma a l' (insert_entry (o, numbered_rule es (rule_of e)) es) -∗ ma ↦ OMaster m -∗ Q tt) -∗
  wp (prefix_list_entry_insert place a o) Q.
Proof.
  intros Hdep Hok Hnb Hseq Hsmall. iIntros "Hb Hm Ho HQ". iDestruct (body_fields with "Hb") as %[_ Em].
  iApply (wp_wand _ (fun _ => ∃ l', ⌜same_list l l'⌝ ∧
    (body ma a l' (insert_entry (o, numbered_rule es (rule_of e)) es) ∗ ma ↦ OMaster m))%I).
  iSplitL "Hb Hm Ho"; last first.
  { iIntros ([]) "(%l' & %Hsame & Hb & Hm)". by iApply ("HQ" with "[//] Hb Hm"). }
  iCombine "Hb Hm" as "H". iCombine "H Ho" as "H". iStopProof. constructor.
  intros h (h12 & h3 & -> & Hd & (h1 & h2 & -> & Hd' & H1 & H2) & H3).
  destruct (entry_open _ _ _ _ _ _ _ _ _ _ H1 H2 H3 Hd Hd' Hdep) as (Hp & Ho0 & Ho). apply own_wp.
  eapply (own_entry_insert D HD place _ _ _ _ _ _ (rule_of e)); [exact Hp|done|by rewrite /rule_at Ho|by rewrite /best Ho Hnb|done|done|done|].
  intros h' l' Hp' Hsame. exists l'. split; [done|]. destruct (same_list_fields _ _ Hsame) as (_ & _ & Em' & _).
  apply (body_close _ _ _ _ _ _ Hp'). congruence.
Qed.

(** The entry's walk over the slots goes past the end of a table. *)
Definition wp_fault {A} (m : M pmem A) : hprop pobj := {| hprop_holds h := faults m h |}.

Lemma wp_fault_after {A B} (m : M pmem A) (k : A -> M pmem B) : wp m (fun a => wp_fault (k a)) ⊢@{hpropI pobj} wp_fault (m ≫= k).
Proof. constructor. intros h Hm. by apply faults_after, own_wp. Qed.

Lemma entry_insert_past place `{!Placement place} ma a l es m o e :
  trie_depth m = D -> e_next_best e = 0 ->
  prefix_wf (e_prefix e) -> prefixlen (e_prefix e) <= 128 -> past_end D (rule_of e) ->
  body ma a l es ∗ ma ↦ OMaster m ∗ o ↦ OEntry e ⊢@{hpropI pobj} wp_fault (prefix_list_entry_insert place a o).
Proof.
  intros Hdep Hnb Hw Hlen Hpast. rewrite assoc. constructor.
  intros h (h12 & h3 & -> & Hd & (h1 & h2 & -> & Hd' & H1 & H2) & H3).
  destruct (entry_open _ _ _ _ _ _ _ _ _ _ H1 H2 H3 Hd Hd' Hdep) as (Hp & Ho0 & Ho).
  eapply (faults_entry_insert D HD place _ _ _ _ _ _ (rule_of e)); [exact Hp|done|by rewrite /rule_at Ho|by rewrite /best Ho Hnb|done..].
Qed.

Lemma wp_entry_remove ma a l es1 es2 x m (Q : unit -> hpropI pobj) :
  trie_depth m = D ->
  body ma a l (es1 ++ x :: es2) -∗ ma ↦ OMaster m -∗
  (∀ l', ⌜same_list l l'⌝ → body ma a l' (es1 ++ es2) -∗ ma ↦ OMaster m -∗ Q tt) -∗
  wp (prefix_list_entry_remove a x.1) Q.
Proof.
  intros Hdep. destruct x as [o r]. iIntros "Hb Hm HQ".
  iApply (body_wp _ _ _ _ _ _ (fun _ es' => es' = es1 ++ es2) with "Hb Hm"); [done| |].
  - intros h R Hok HR. eapply own_entry_remove; [exact HD|exact Hok|]. intros h' l' Hok' Hsame _. by eapply HR.
  - iIntros ([] l' es' [Hsame ->]) "Hb Hm". by iApply ("HQ" with "[//] Hb Hm").
Qed.

(** Entries found by their fields *)
Lemma same_list_refl l : same_list l l.
Proof. exists (pl_head l), (pl_tail l), (pl_count l). by destruct l. Qed.

Definition entry_is_rule (p : prefix) (type : prefix_list_type) (seq le ge : Z) (r : rule) : bool :=
  samep (r_prefix r) p && bool_decide (r_type r = type) && negb ((0 <=? seq) && negb (r_seq r =? seq)) &&
  (r_le r =? le) && (r_ge r =? ge).

Lemma wp_entry_lookup ma a l es m p type seq le ge (Q : Z -> hpropI pobj) :
  trie_depth m = D -> prefix_wf p ->
  body ma a l es -∗ ma ↦ OMaster m -∗
  (∀ l', ⌜same_list l l'⌝ → body ma a l' es -∗ ma ↦ OMaster m -∗ Q (first_with (entry_is_rule p type seq le ge) es)) -∗
  wp (prefix_list_entry_lookup a p type seq le ge) Q.
Proof.
  intros Hdep Hp. iIntros "Hb Hm HQ".
  iApply (body_wp _ _ _ _ _ _ (fun o es' => es' = es /\ o = first_with (entry_is_rule p type seq le ge) es) with "Hb Hm"); [done| |].
  - intros h R Hok HR. eapply own_entry_lookup; [exact Hok|done|]. eapply HR; [exact Hok|apply same_list_refl|done].
  - iIntros (o l' es' [Hsame [-> ->]]) "Hb Hm". by iApply ("HQ" with "[//] Hb Hm").
Qed.

Lemma wp_seq_check ma a l es m seq (Q : Z -> hpropI pobj) :
  trie_depth m = D ->
  body ma a l es -∗ ma ↦ OMaster m -∗
  (∀ l', ⌜same_list l l'⌝ → body ma a l' es -∗ ma ↦ OMaster m -∗ Q (first_with (fun r => r_seq r =? seq) es)) -∗
  wp (prefix_seq_check a seq) Q.
Proof.
  intros Hdep. iIntros "Hb Hm HQ".
  iApply (body_wp _ _ _ _ _ _ (fun o es' => es' = es /\ o = first_with (fun r => r_seq r =? seq) es) with "Hb Hm"); [done| |].
  - intros h R Hok HR. eapply own_seq_check; [exact Hok|]. eapply HR; [exact Hok|apply same_list_refl|done].
  - iIntros (o l' es' [Hsame [-> ->]]) "Hb Hm". by iApply ("HQ" with "[//] Hb Hm").
Qed.

Lemma wp_apply ma a l es m p (Q : prefix_list_type -> hpropI pobj) :
  trie_depth m = D -> prefix_wf p ->
  body ma a l es -∗ ma ↦ OMaster m -∗
  (∀ l', ⌜same_list l l'⌝ → body ma a l' es -∗ ma ↦ OMaster m -∗ Q (verdict es.*2 p)) -∗
  wp (prefix_list_apply a p) Q.
Proof.
  intros Hdep Hp. iIntros "Hb Hm HQ".
  iApply (body_wp _ _ _ _ _ _ (fun v es' => es' = es /\ v = verdict es.*2 p) with "Hb Hm"); [done| |].
  - intros h R Hok HR. eapply (own_apply D HD); [exact Hok|done|]. intros h' Hok'. eapply HR; [exact Hok'|apply same_list_refl|done].
  - iIntros (o l' es' [Hsame [-> ->]]) "Hb Hm". by iApply ("HQ" with "[//] Hb Hm").
Qed.
End body.

(** ** A new entry *)
Definition made_rule (q : prefix) (type : prefix_list_type) (seq le ge any : Z) : rule :=
  Rule seq le ge type (if any =? 0 then 0 else 1) q 0.

Lemma wp_entry_make place `{!Placement place} p q type seq le ge any (Q : Z -> hpropI pobj) :
  prefix_copy zero_prefix p = Ret q ->
  (∀ o e, ⌜rule_of e = made_rule q type seq le ge any /\ e_next_best e = 0⌝ → o ↦ OEntry e -∗ Q o) ⊢
  wp (prefix_list_entry_make place p type seq le ge any) Q.
Proof.
  intros Eq. iIntros "HQ".
  iApply (wp_wand _ (fun o => ∃ e, ⌜rule_of e = made_rule q type seq le ge any /\ e_next_best e = 0⌝ ∧ o ↦ OEntry e)%I).
  iSplitR; last first.
  { iIntros (o) "(%e & %He & Ho)". by iApply ("HQ" with "[//] Ho"). }
  iStopProof. constructor. intros h ->. eapply (proj1 (own_wp _ _ _)). unfold prefix_list_entry_make, prefix_list_entry_new.
  ostep. eapply own_alloc; [done|done|]. intros o Ho _. ostep.
  eapply own_load_entry; [by rewrite lookup_insert_eq|lia|]. ostep. eapply own_mlift; [exact Eq|]. ostep.
  eapply own_update_entry; [by rewrite lookup_insert_eq|lia|]. apply own_ret. eexists. split; [|split; [lia|by rewrite insert_insert_eq]].
  split; [|done]. done.
Qed.
