(* ===== verification/PlistMaster.v ===== *)
(** * The lists of a master

    A master keeps its prefix lists in two doubly linked lists, one for the
    names that are numbers and one for the other names.  [dls] is a segment of
    such a list; [master_at] is a master with all its lists. *)

From stdpp Require Import sorting.
From iris.proofmode Require Import proofmode.
From S2P Require Import Prelude SepLogic FrrPrefix Heap Own Plist PlistWalk PlistTrie PlistOps.
From S2P Require Import PlistQuery PlistBody.

#[local] Open Scope Z_scope.

Abbreviation hP := (hpropI pobj).

Record node := Node {
  nd_at : Z;
  nd_name : list Z;
  nd_desc : option (list Z);
  nd_es : entries
}.

(** The first list whose name [f] holds of *)
Fixpoint first_node (f : list Z -> bool) (ns : list node) : Z :=
  match ns with
  | [] => 0
  | n :: ns => if f (nd_name n) then nd_at n else first_node f ns
  end.

Section names.
Context (D : nat).

Definition links_ok (t : prefix_name_type) (prev next : Z) (n : node) (l : prefix_list) : Prop :=
  pl_prev l = prev /\ pl_next l = next /\ pl_name l = nd_name n /\ pl_desc l = nd_desc n /\ pl_type l = t.

Definition node_ok (ma : Z) (t : prefix_name_type) (prev next : Z) (n : node) : hP :=
  ∃ l, ⌜links_ok t prev next n l⌝ ∧ body D ma (nd_at n) l (nd_es n).

Fixpoint dls (ma : Z) (t : prefix_name_type) (prev : Z) (ns : list node) (nxt : Z) : hP :=
  match ns with
  | [] => emp
  | n :: ns => node_ok ma t prev (hd_or nxt (nd_at <$> ns)) n ∗ dls ma t (nd_at n) ns nxt
  end.

Lemma node_ok_nonnull ma t p n x : node_ok ma t p n x ⊢ ⌜nd_at x <> 0⌝.
Proof. iIntros "(%l & _ & Hb)". by iDestruct (body_fields with "Hb") as %[? _]. Qed.

Lemma node_ok_ne ma ma' t t' p p' n n' x y : node_ok ma t p n x ∗ node_ok ma' t' p' n' y ⊢ ⌜nd_at x <> nd_at y⌝.
Proof. iIntros "[(%l & _ & Hb) (%l' & _ & Hb')]". by iDestruct (body_ne with "[$Hb $Hb']") as %?. Qed.

Lemma node_at_least ma t p n x : node_ok ma t p n x ⊢ at_least (S (length (nd_es x))).
Proof. iIntros "(%l & _ & Hb)". by iApply body_at_least. Qed.

Lemma hd_or_fmap_app nxt ns1 ns2 : hd_or nxt (nd_at <$> ns1 ++ ns2) = hd_or (hd_or nxt (nd_at <$> ns2)) (nd_at <$> ns1).
Proof. by rewrite fmap_app hd_or_app. Qed.

Lemma dls_app ma t p ns1 ns2 nxt :
  dls ma t p (ns1 ++ ns2) nxt ⊣⊢
  dls ma t p ns1 (hd_or nxt (nd_at <$> ns2)) ∗ dls ma t (last_or p (nd_at <$> ns1)) ns2 nxt.
Proof.
  revert p. induction ns1 as [|n ns1 IH]; intros p; simpl; [by rewrite left_id|].
  rewrite hd_or_fmap_app IH last_or_cons assoc //.
Qed.

Lemma dls_first ma t p ns nxt : dls ma t p ns nxt ⊢ ⌜hd_or 0 (nd_at <$> ns) = 0 <-> ns = []⌝.
Proof.
  destruct ns as [|n ns]; simpl; [by iIntros "_"|]. iIntros "[Hn _]". iDestruct (node_ok_nonnull with "Hn") as %Hn.
  iPureIntro. by split; [intros ?|].
Qed.

Lemma dls_at_least ma t p ns nxt : dls ma t p ns nxt ⊢ at_least (length ns).
Proof.
  revert p. induction ns as [|n ns IH]; intros p; simpl; [iIntros "_"; iApply at_least_0|].
  rewrite node_at_least IH at_least_sep. apply at_least_mono. simpl. lia.
Qed.

(** ** Loops over the lists *)
Lemma wp_find_list ma t f stop fuel p ns (Q : Z -> hP) :
  (forall l, stop l = f (pl_name l)) -> (length ns < fuel)%nat ->
  dls ma t p ns 0 -∗ (dls ma t p ns 0 -∗ Q (first_node f ns)) -∗
  wp (find_list fuel stop (hd_or 0 (nd_at <$> ns))) Q.
Proof.
  intros Hstop. revert p ns Q. induction fuel as [|fuel IH]; intros p ns Q Hf; [lia|].
  destruct ns as [|n ns]; cbn [find_list dls first_node fmap list_fmap hd_or]; iIntros "H HQ".
  { iApply wp_ret. by iApply "HQ". }
  iDestruct "H" as "[Hn H]". iDestruct (node_ok_nonnull with "Hn") as %Hn. destruct (Z.eqb_spec (nd_at n) 0); [done|].
  iDestruct "Hn" as "(%l & %Hl & Hb)". iApply wp_bind. iApply (wp_body_load with "Hb"). iIntros "Hb".
  pose proof Hl as (_ & En & Enm & _ & _). rewrite Hstop Enm. case_match.
  - iApply wp_ret. iApply "HQ". iFrame "H". iExists l. by iFrame.
  - rewrite En. iApply (IH with "H"); [simpl in Hf; lia|]. iIntros "H". iApply "HQ". iFrame "H". iExists l. by iFrame.
Qed.

(** ** Changes of the links *)
Lemma wp_set_first_prev ma t p p' n ns nxt (Q : unit -> hP) :
  dls ma t p (n :: ns) nxt -∗ (dls ma t p' (n :: ns) nxt -∗ Q tt) -∗
  wp (update_list (nd_at n) (set_pl_prev p')) Q.
Proof.
  iIntros "[(%l & %Hl & Hb) H] HQ". iApply (wp_body_update with "Hb"); [done|]. iIntros "Hb".
  iApply "HQ". iFrame "H". iExists _. iFrame. iPureIntro. destruct Hl as (? & ? & ? & ? & ?). done.
Qed.

Lemma wp_set_last_next ma t p n ns nxt nxt' (Q : unit -> hP) :
  dls ma t p (ns ++ [n]) nxt -∗ (dls ma t p (ns ++ [n]) nxt' -∗ Q tt) -∗
  wp (update_list (nd_at n) (set_pl_next nxt')) Q.
Proof.
  rewrite !dls_app /=. iIntros "(H & (%l & %Hl & Hb) & _) HQ". iApply (wp_body_update with "Hb"); [done|]. iIntros "Hb".
  iApply "HQ". iFrame "H". iSplitL; [|done]. iExists _. iFrame. iPureIntro. destruct Hl as (? & ? & ? & ? & ?). done.
Qed.

(** ** The masters *)
Definition other (t : prefix_name_type) : prefix_name_type :=
  match t with PREFIX_TYPE_NUMBER => PREFIX_TYPE_STRING | PREFIX_TYPE_STRING => PREFIX_TYPE_NUMBER end.

(** What stays when the list of type [t] changes *)
Definition same_master (t : prefix_name_type) (m m' : prefix_master) : Prop :=
  trie_depth m' = trie_depth m /\ seqnum m' = seqnum m /\ add_hook m' = add_hook m /\ delete_hook m' = delete_hook m /\
  list_head (other t) m' = list_head (other t) m /\ list_tail (other t) m' = list_tail (other t) m.

Definition heads (t : prefix_name_type) (m : prefix_master) (ns : list node) : Prop :=
  list_head t m = hd_or 0 (nd_at <$> ns) /\ list_tail t m = last_or 0 (nd_at <$> ns).

Lemma same_master_refl t m : same_master t m m.
Proof. done. Qed.
Lemma same_master_trans t m1 m2 m3 : same_master t m1 m2 -> same_master t m2 m3 -> same_master t m1 m3.
Proof. unfold same_master. intuition congruence. Qed.
Lemma same_master_head t v m : same_master t m (set_list_head t v m).
Proof. by destruct t. Qed.
Lemma same_master_tail t v m : same_master t m (set_list_tail t v m).
Proof. by destruct t. Qed.
Lemma head_set t v m : list_head t (set_list_head t v m) = v.
Proof. by destruct t. Qed.
Lemma tail_set t v m : list_tail t (set_list_tail t v m) = v.
Proof. by destruct t. Qed.
Lemma head_set_tail t v m : list_head t (set_list_tail t v m) = list_head t m.
Proof. by destruct t. Qed.
Lemma tail_set_head t v m : list_tail t (set_list_head t v m) = list_tail t m.
Proof. by destruct t. Qed.

Lemma wp_load_list a l (Q : prefix_list -> hP) : a ↦ OList l -∗ (a ↦ OList l -∗ Q l) -∗ wp (load_list a) Q.
Proof.
  iIntros "Ha HQ". iApply wp_bind. iApply (wp_load with "Ha"). iIntros "Ha". iApply wp_ret. by iApply "HQ".
Qed.
Lemma wp_update_list a l f (Q : unit -> hP) : a ↦ OList l -∗ (a ↦ OList (f l) -∗ Q tt) -∗ wp (update_list a f) Q.
Proof.
  iIntros "Ha HQ". iApply wp_bind. iApply (wp_load_list with "Ha"). iIntros "Ha". by iApply (wp_store with "Ha").
Qed.
Lemma wp_load_master a m (Q : prefix_master -> hP) : a ↦ OMaster m -∗ (a ↦ OMaster m -∗ Q m) -∗ wp (load_master a) Q.
Proof.
  iIntros "Ha HQ". iApply wp_bind. iApply (wp_load with "Ha"). iIntros "Ha". iApply wp_ret. by iApply "HQ".
Qed.
Lemma wp_update_master a m f (Q : unit -> hP) : a ↦ OMaster m -∗ (a ↦ OMaster (f m) -∗ Q tt) -∗ wp (update_master a f) Q.
Proof.
  iIntros "Ha HQ". iApply wp_bind. iApply (wp_load_master with "Ha"). iIntros "Ha". by iApply (wp_store with "Ha").
Qed.

(** A list leaves: first what comes after it, then what comes before. *)
Lemma wp_unlink_right ma t a p m ns2 (Q : unit -> hP) :
  (ns2 <> [] -> list_tail t m = last_or p (nd_at <$> ns2)) ->
  ma ↦ OMaster m -∗ dls ma t a ns2 0 -∗
  (∀ m', ⌜same_master t m m' /\ list_head t m' = list_head t m /\ list_tail t m' = last_or p (nd_at <$> ns2)⌝ →
     ma ↦ OMaster m' -∗ dls ma t p ns2 0 -∗ Q tt) -∗
  wp (if negb (hd_or 0 (nd_at <$> ns2) =? 0)
      then update_list (hd_or 0 (nd_at <$> ns2)) (set_pl_prev p)
      else update_master ma (set_list_tail t p)) Q.
Proof.
  intros Ht. iIntros "Hm H2 HQ". iDestruct (dls_first with "H2") as %Hf2. destruct ns2 as [|n2 ns2].
  - simpl. iApply (wp_update_master with "Hm"). iIntros "Hm". iApply ("HQ" with "[%] Hm H2").
    split_and!; [apply same_master_tail|apply head_set_tail|apply tail_set].
  - destruct (Z.eqb_spec (hd_or 0 (nd_at <$> n2 :: ns2)) 0) as [E0|_]; [by apply Hf2 in E0|]. cbn [negb].
    iApply (wp_set_first_prev with "H2"). iIntros "H2". iApply ("HQ" with "[%] Hm H2").
    split_and!; [apply same_master_refl|done|by apply Ht].
Qed.

Lemma wp_unlink_left ma t a n m ns1 (Q : unit -> hP) :
  (ns1 <> [] -> list_head t m = hd_or n (nd_at <$> ns1)) ->
  ma ↦ OMaster m -∗ dls ma t 0 ns1 a -∗
  (∀ m', ⌜same_master t m m' /\ list_tail t m' = list_tail t m /\ list_head t m' = hd_or n (nd_at <$> ns1)⌝ →
     ma ↦ OMaster m' -∗ dls ma t 0 ns1 n -∗ Q tt) -∗
  wp (if negb (last_or 0 (nd_at <$> ns1) =? 0)
      then update_list (last_or 0 (nd_at <$> ns1)) (set_pl_next n)
      else update_master ma (set_list_head t n)) Q.
Proof.
  intros Hh. iIntros "Hm H1 HQ". destruct (list_snoc_case ns1) as [->|(ns1' & n1 & ->)].
  - simpl. iApply (wp_update_master with "Hm"). iIntros "Hm". iApply ("HQ" with "[%] Hm H1").
    split_and!; [apply same_master_head|apply tail_set_head|apply head_set].
  - rewrite fmap_app last_or_snoc. iAssert ⌜nd_at n1 <> 0⌝%I as %Hn1.
    { rewrite dls_app /=. iDestruct "H1" as "(_ & Hn & _)". by iDestruct (node_ok_nonnull with "Hn") as %?. }
    destruct (Z.eqb_spec (nd_at n1) 0); [done|]. cbn [negb]. iApply (wp_set_last_next with "H1"). iIntros "H1".
    iApply ("HQ" with "[%] Hm H1"). split_and!; [apply same_master_refl|done|]. rewrite -fmap_app. apply Hh. by destruct ns1'.
Qed.

Lemma wp_list_unlink ma t a l m ns1 ns2 (Q : unit -> hP) :
  pl_master l = ma -> pl_type l = t -> pl_prev l = last_or 0 (nd_at <$> ns1) -> pl_next l = hd_or 0 (nd_at <$> ns2) ->
  list_head t m = hd_or a (nd_at <$> ns1) -> list_tail t m = last_or a (nd_at <$> ns2) ->
  a ↦ OList l -∗ ma ↦ OMaster m -∗ dls ma t 0 ns1 a -∗ dls ma t a ns2 0 -∗
  (∀ m', ⌜same_master t m m' /\ heads t m' (ns1 ++ ns2)⌝ →
     a ↦ OList l -∗ ma ↦ OMaster m' -∗ dls ma t 0 (ns1 ++ ns2) 0 -∗ Q tt) -∗
  wp (list_unlink a) Q.
Proof.
  intros Em Et Ep En Hh Ht. iIntros "Ha Hm H1 H2 HQ". iApply wp_bind. iApply (wp_load_list with "Ha"). iIntros "Ha".
  rewrite Ep En Em Et. iApply wp_bind. iApply (wp_unlink_right with "Hm H2").
  { intros Hne. rewrite Ht. destruct ns2; [done|]. simpl. by rewrite !last_or_cons. }
  iIntros (m1 (Hs1 & Hh1 & Ht1)) "Hm H2". iApply wp_bind. iApply (wp_load_list with "Ha"). iIntros "Ha".
  rewrite Ep En Em Et. iApply (wp_unlink_left with "Hm H1").
  { intros Hne. rewrite Hh1 Hh. by destruct ns1. }
  iIntros (m2 (Hs2 & Ht2 & Hh2)) "Hm H1". iApply ("HQ" with "[%] Ha Hm [H1 H2]").
  - split; [by eapply same_master_trans|]. split; [by rewrite Hh2 fmap_app hd_or_app|by rewrite Ht2 Ht1 fmap_app last_or_app].
  - rewrite dls_app. iFrame.
Qed.

(** A list enters before [hd_or 0 ns2]. *)
Lemma wp_list_link ma t a l es m ns1 ns2 name desc (Q : unit -> hP) :
  pl_prev l = 0 -> pl_next l = 0 -> pl_type l = t -> pl_name l = name -> pl_desc l = desc -> heads t m (ns1 ++ ns2) ->
  body D ma a l es -∗ ma ↦ OMaster m -∗ dls ma t 0 (ns1 ++ ns2) 0 -∗
  (∀ m', ⌜same_master t m m' /\ heads t m' (ns1 ++ Node a name desc es :: ns2)⌝ →
     ma ↦ OMaster m' -∗ dls ma t 0 (ns1 ++ Node a name desc es :: ns2) 0 -∗ Q tt) -∗
  wp (list_link ma t a (hd_or 0 (nd_at <$> ns2))) Q.
Proof.
  intros Ep En Et Enm Ed [Hh Ht]. iIntros "Hb Hm H HQ". iApply wp_bind. iApply (wp_load_master with "Hm"). iIntros "Hm".
  iDestruct (dls_first with "H") as %Hf. rewrite Hh. destruct (Z.eqb_spec (hd_or 0 (nd_at <$> ns1 ++ ns2)) 0) as [E0|E0].
  { apply Hf in E0 as [-> ->]%app_nil. iApply wp_bind. iApply (wp_update_master with "Hm"). iIntros "Hm".
    iApply (wp_update_master with "Hm"). iIntros "Hm". iApply ("HQ" with "[%] Hm [Hb]").
    - split; [eapply same_master_trans; [apply same_master_head|apply same_master_tail]|].
      split; [by rewrite head_set_tail head_set|by rewrite tail_set].
    - simpl. iSplitL; [|done]. iExists l. by iFrame. }
  rewrite dls_app. iDestruct "H" as "[H1 H2]". iDestruct (dls_first with "H2") as %Hf2.
  destruct (Z.eqb_spec (hd_or 0 (nd_at <$> ns2)) 0) as [E2|E2].
  { apply Hf2 in E2 as ->. rewrite app_nil_r in Hh Ht E0 |- *. clear Hf Hf2.
    destruct (list_snoc_case ns1) as [->|(ns1' & n1 & ->)]; [done|]. rewrite Ht fmap_app last_or_snoc.
    iApply wp_bind. iApply (wp_body_update with "Hb"); [done|]. iIntros "Hb". iApply wp_bind.
    iApply (wp_set_last_next with "H1"). iIntros "H1". iApply (wp_update_master with "Hm"). iIntros "Hm".
    iApply ("HQ" with "[%] Hm [H1 Hb]").
    - split; [apply same_master_tail|]. split; [|by rewrite tail_set !fmap_app last_or_snoc].
      rewrite head_set_tail Hh. by destruct ns1'.
    - rewrite (dls_app _ _ _ (ns1' ++ [n1])) fmap_app last_or_snoc /=. iFrame "H1". iSplitL; [|done].
      iExists _. iFrame. iPureIntro. by split_and!. }
  destruct ns2 as [|n2 ns2]; [done|]. clear Hf Hf2.
  destruct (list_snoc_case ns1) as [->|(ns1' & n1 & ->)].
  { simpl in Hh, Ht |- *. rewrite Z.eqb_refl. iApply wp_bind. iApply (wp_body_update with "Hb"); [done|]. iIntros "Hb".
    iApply wp_bind. iApply (wp_set_first_prev with "H2"). iIntros "H2". iApply (wp_update_master with "Hm"). iIntros "Hm".
    iApply ("HQ" with "[%] Hm [H2 Hb]").
    - split; [apply same_master_head|]. split; [by rewrite head_set|]. by rewrite tail_set_head Ht /= !last_or_cons.
    - simpl. iSplitL "Hb"; [|iFrame]. iExists _. iFrame. iPureIntro. by split_and!. }
  iAssert ⌜nd_at n2 <> hd_or 0 (nd_at <$> (ns1' ++ [n1]) ++ n2 :: ns2)⌝%I as %Hne.
  { iDestruct "H2" as "[Hn2 _]". destruct ns1' as [|n0 ns1']; iDestruct "H1" as "[Hn1 _]"; simpl;
      iDestruct (node_ok_ne with "[$Hn2 $Hn1]") as %?; done. }
  cbn [hd_or fmap list_fmap] in E2 |- *. destruct (Z.eqb_spec (nd_at n2) (hd_or 0 (nd_at <$> (ns1' ++ [n1]) ++ n2 :: ns2))); [done|].
  iApply wp_bind. iApply (wp_body_update with "Hb"); [done|]. iIntros "Hb". iApply wp_bind.
  iDestruct "H2" as "[(%l2 & %Hl2 & Hb2) H2]". iApply (wp_body_load with "Hb2"). iIntros "Hb2".
  pose proof Hl2 as (Ep2 & _). rewrite Ep2 !fmap_app last_or_snoc. iApply wp_bind.
  iApply (wp_body_update with "Hb"); [done|]. iIntros "Hb". iApply wp_bind.
  iAssert ⌜nd_at n1 <> 0⌝%I as %Hn1.
  { rewrite dls_app /=. iDestruct "H1" as "(_ & Hn & _)". by iDestruct (node_ok_nonnull with "Hn") as %?. }
  destruct (Z.eqb_spec (nd_at n1) 0); [done|]. cbn [negb mwhen]. iApply (wp_set_last_next with "H1"). iIntros "H1".
  iApply (wp_body_update with "Hb2"); [done|]. iIntros "Hb2". iApply ("HQ" with "[%] Hm [H1 H2 Hb Hb2]").
  - split; [apply same_master_refl|]. split; [rewrite Hh; by destruct ns1'|].
    by rewrite Ht !fmap_app !last_or_app /= !last_or_cons.
  - rewrite (dls_app _ _ _ (ns1' ++ [n1])) fmap_app last_or_snoc /=. iFrame "H1 H2". iSplitL "Hb".
    + iExists _. iFrame. iPureIntro. by split_and!.
    + iExists _. iFrame. iPureIntro. destruct Hl2 as (? & ? & ? & ? & ?). by split_and!.
Qed.
End names.

(** ** A master and its prefix lists

    [master_at ma cfg s]: the master at [ma] with the lists [s].  The rules are
    those of the functions that find, create and give up lists by name. *)

(** ** Lists of named things *)
Section named.
Context {X : Type} (nm : X -> list Z).

(** What comes before the first thing whose name [f] holds of, and the rest *)
Fixpoint upto (f : list Z -> bool) (l : list X) : list X * list X :=
  match l with
  | [] => ([], [])
  | x :: l' => if f (nm x) then ([], l) else let '(l1, l2) := upto f l' in (x :: l1, l2)
  end.

Lemma upto_eq f l : l = (upto f l).1 ++ (upto f l).2.
Proof.
  induction l as [|x l IH]; [done|]. simpl. destruct (f (nm x)); [done|]. destruct (upto f l). simpl in *. by rewrite {1}IH.
Qed.

Lemma upto_first f l x l2 : (upto f l).2 = x :: l2 -> f (nm x) = true.
Proof.
  induction l as [|y l IH]; [done|]. simpl. destruct (f (nm y)) eqn:E; [by intros [= <- _]|]. destruct (upto f l). apply IH.
Qed.

Record names := Names { nm_num : list X; nm_str : list X }.
Definition sel (t : prefix_name_type) (s : names) : list X :=
  match t with PREFIX_TYPE_NUMBER => nm_num s | PREFIX_TYPE_STRING => nm_str s end.
Definition put (t : prefix_name_type) (l : list X) (s : names) : names :=
  match t with PREFIX_TYPE_NUMBER => Names l (nm_str s) | PREFIX_TYPE_STRING => Names (nm_num s) l end.

Definition is_name (name name' : list Z) : bool := bool_decide (name' = name).

(** The thing with a name, and what is around it *)
Definition locate (name : list Z) (s : names) : option (prefix_name_type * list X * X * list X) :=
  match upto (is_name name) (nm_num s) with
  | (l1, x :: l2) => Some (PREFIX_TYPE_NUMBER, l1, x, l2)
  | _ => match upto (is_name name) (nm_str s) with
         | (l1, x :: l2) => Some (PREFIX_TYPE_STRING, l1, x, l2)
         | _ => None
         end
  end.

(** A new thing takes its place. *)
Definition name_place (name : list Z) : prefix_name_type * (list Z -> bool) :=
  match leading_number name 0 0 with
  | Ret (number, i) =>
      if i =? Z.of_nat (length name) then (PREFIX_TYPE_NUMBER, fun name' => number <=? atol name')
      else (PREFIX_TYPE_STRING, fun name' => 0 <=? strcmp name' name)
  | _ => (PREFIX_TYPE_STRING, fun _ => true)
  end.
Definition insert_name (x : X) (s : names) : names :=
  let '(t, f) := name_place (nm x) in
  let '(l1, l2) := upto f (sel t s) in
  put t (l1 ++ x :: l2) s.

Lemma locate_split name s t l1 x l2 :
  locate name s = Some (t, l1, x, l2) -> sel t s = l1 ++ x :: l2 /\ nm x = name.
Proof.
  unfold locate. pose proof (upto_eq (is_name name) (nm_num s)) as E1. pose proof (upto_eq (is_name name) (nm_str s)) as E2.
  pose proof (upto_first (is_name name) (nm_num s)) as F1. pose proof (upto_first (is_name name) (nm_str s)) as F2.
  destruct (upto (is_name name) (nm_num s)) as [a1 [|x1 b1]]; simpl in *.
  - destruct (upto (is_name name) (nm_str s)) as [a2 [|x2 b2]]; simpl in *; [done|]. intros [= <- <- <- <-].
    split; [done|]. by apply (bool_decide_eq_true _), (F2 x2 b2).
  - intros [= <- <- <- <-]. split; [done|]. by apply (bool_decide_eq_true _), (F1 x1 b1).
Qed.

Lemma sel_put t l s : sel t (put t l s) = l.
Proof. by destruct t. Qed.
Lemma sel_put_other t l s : sel (other t) (put t l s) = sel (other t) s.
Proof. by destruct t. Qed.
Lemma put_put t l l' s : put t l (put t l' s) = put t l s.
Proof. by destruct t. Qed.
Lemma put_sel t s : put t (sel t s) s = s.
Proof. by destruct t, s. Qed.
End named.
Arguments names : clear implicits.

(** ** Comparison of names *)
Lemma strcmp_0 s1 s2 : strcmp s1 s2 = 0 <-> s1 = s2.
Proof.
  revert s2. induction s1 as [|c1 s1 IH]; intros [|c2 s2]; simpl; try done.
  destruct (Z.eqb_spec c1 c2) as [->|Hne]; [rewrite IH; naive_solver|]. unfold numcmp.
  destruct (Z.ltb_spec c1 c2), (Z.ltb_spec c2 c1); try lia; naive_solver.
Qed.

Lemma strcmp_is_name name name' : (strcmp name' name =? 0) = is_name name name'.
Proof.
  unfold is_name. destruct (Z.eqb_spec (strcmp name' name) 0) as [E|E]; rewrite strcmp_0 in E; case_bool_decide; done.
Qed.

Lemma first_node_upto f ns : first_node f ns = hd_or 0 (nd_at <$> (upto nd_name f ns).2).
Proof.
  induction ns as [|n ns IH]; [done|]. simpl. destruct (f (nd_name n)); [done|]. rewrite IH. by destruct (upto nd_name f ns).
Qed.

Record config := Config { cf_seqnum : bool; cf_add : Z; cf_del : Z }.

Section master.
Context (D : nat) (HD : (1 <= D)%nat).

Definition master_ok (cfg : config) (m : prefix_master) (s : names node) : Prop :=
  trie_depth m = D /\ seqnum m = cf_seqnum cfg /\ add_hook m = cf_add cfg /\ delete_hook m = cf_del cfg /\
  heads PREFIX_TYPE_NUMBER m (nm_num s) /\ heads PREFIX_TYPE_STRING m (nm_str s).

Definition master_at (ma : Z) (cfg : config) (s : names node) : hP :=
  ∃ m, ⌜master_ok cfg m s⌝ ∧
    (ma ↦ OMaster m ∗ dls D ma PREFIX_TYPE_NUMBER 0 (nm_num s) 0 ∗ dls D ma PREFIX_TYPE_STRING 0 (nm_str s) 0).

Lemma dls_both ma t s :
  dls D ma PREFIX_TYPE_NUMBER 0 (nm_num s) 0 ∗ dls D ma PREFIX_TYPE_STRING 0 (nm_str s) 0 ⊣⊢
  dls D ma t 0 (sel t s) 0 ∗ dls D ma (other t) 0 (sel (other t) s) 0.
Proof. destruct t; simpl; [by rewrite comm|done]. Qed.

Lemma master_ok_heads cfg m s t : master_ok cfg m s -> heads t m (sel t s).
Proof. destruct t; unfold master_ok; tauto. Qed.

Lemma master_ok_put cfg m m' s t ns :
  master_ok cfg m s -> same_master t m m' -> heads t m' ns -> master_ok cfg m' (put t ns s).
Proof.
  unfold master_ok, same_master, heads. intros (E1 & E2 & E3 & E4 & H1 & H2) (F1 & F2 & F3 & F4 & F5 & F6) H.
  rewrite F1 F2 F3 F4. split_and!; try done; destruct t; simpl in *; rewrite ?F5 ?F6; tauto.
Qed.

(** The fields of the master that do not matter for its lists *)
Definition same_lists (m m' : prefix_master) : Prop := exists r, m' = set_recent r m.

Lemma master_ok_recent cfg m m' s : master_ok cfg m s -> same_lists m m' -> master_ok cfg m' s.
Proof. by intros H (r & ->). Qed.
Lemma same_lists_refl m : same_lists m m.
Proof. exists (recent m). by destruct m. Qed.

(** ** Finding a list *)
Definition found (o : option (prefix_name_type * list node * node * list node)) : Z :=
  match o with Some (_, _, n, _) => nd_at n | None => 0 end.

Lemma wp_lookup_do afi orf name cfg s (Q : Z -> hP) :
  prefix_master_get afi orf <> 0 ->
  master_at (prefix_master_get afi orf) cfg s -∗
  (⌜found (locate nd_name name s) = 0 <-> locate nd_name name s = None⌝ →
   master_at (prefix_master_get afi orf) cfg s -∗ Q (found (locate nd_name name s))) -∗
  wp (prefix_list_lookup_do afi orf name) Q.
Proof.
  intros Hma. unfold prefix_list_lookup_do. set (ma := prefix_master_get afi orf) in *. destruct (Z.eqb_spec ma 0); [done|].
  iIntros "(%m & %Hm & H) HQ". iApply wp_bind.
  iApply (wp_mem_fuel _ (length (nm_num s) + length (nm_str s)) with "H").
  { iIntros "(Hm & H1 & H2)". iDestruct (at_least_points_to with "Hm") as "Hm". iDestruct (dls_at_least with "H1") as "H1".
    iDestruct (dls_at_least with "H2") as "H2". iDestruct (at_least_sep with "[$H1 $H2]") as "H".
    iDestruct (at_least_sep with "[$Hm $H]") as "H". iApply (at_least_mono with "H"). lia. }
  iIntros (fuel Hfuel) "(Hm & H1 & H2)". iApply wp_bind. iApply (wp_load_master with "Hm"). iIntros "Hm".
  iDestruct (dls_first with "H1") as %F1. iDestruct (dls_first with "H2") as %F2.
  destruct (master_ok_heads _ _ _ PREFIX_TYPE_NUMBER Hm) as [Eh1 _]. destruct (master_ok_heads _ _ _ PREFIX_TYPE_STRING Hm) as [Eh2 _].
  simpl in Eh1, Eh2. rewrite Eh1. iApply wp_bind.
  iApply (wp_find_list D ma PREFIX_TYPE_NUMBER (is_name name) with "H1"); [intros l; apply strcmp_is_name|lia|]. iIntros "H1".
  unfold locate. rewrite first_node_upto.
  pose proof (upto_eq nd_name (is_name name) (nm_num s)) as E1. pose proof (upto_eq nd_name (is_name name) (nm_str s)) as E2.
  destruct (upto nd_name (is_name name) (nm_num s)) as [a1 [|x1 b1]]; cbn [fst snd fmap list_fmap hd_or Z.eqb negb] in *.
  - rewrite Eh2. iApply (wp_find_list D ma PREFIX_TYPE_STRING (is_name name) with "H2"); [intros l; apply strcmp_is_name|lia|]. iIntros "H2".
    rewrite first_node_upto. destruct (upto nd_name (is_name name) (nm_str s)) as [a2 [|x2 b2]]; cbn [fst snd fmap list_fmap hd_or] in *.
    + iApply ("HQ" with "[//]"). iExists m. by iFrame.
    + iAssert ⌜nd_at x2 <> 0⌝%I as %Hx.
      { rewrite E2 dls_app /=. iDestruct "H2" as "(_ & Hn & _)". by iDestruct (node_ok_nonnull with "Hn") as %?. }
      iApply ("HQ" with "[%]"); [by split|]. iExists m. by iFrame.
  - iAssert ⌜nd_at x1 <> 0⌝%I as %Hx.
    { rewrite E1 dls_app /=. iDestruct "H1" as "(_ & Hn & _)". by iDestruct (node_ok_nonnull with "Hn") as %?. }
    destruct (Z.eqb_spec (nd_at x1) 0); [done|]. iApply wp_ret. iApply ("HQ" with "[%]"); [by split|]. iExists m. by iFrame.
Qed.

(** ** A new list *)
Lemma zero_table_eq : zero_table = replicate PLC_LEN (TrieSlot 0 0).
Proof. done. Qed.

Lemma wp_alloc_obj place `{!Placement place} n (v : pobj) (Q : Z -> hP) :
  0 < n -> (∀ a, a ↦ v -∗ Q a) ⊢ wp (mem_alloc place n [(0, v)]) Q.
Proof.
  intros Hn. iIntros "HQ". iApply (wp_wand _ (fun a => a ↦ v)%I). iFrame "HQ". iStopProof. constructor. intros h ->.
  eapply (proj1 (own_wp _ _ _)). apply own_alloc; [done|done|]. intros a Ha _. split; [lia|by rewrite insert_empty].
Qed.

Definition name_number (name : list Z) : res (Z * Z) := leading_number name 0 0.

Lemma wp_list_insert place `{!Placement place} afi orf name cfg s r (Q : Z -> hP) :
  prefix_master_get afi orf <> 0 -> name_number name = Ret r ->
  master_at (prefix_master_get afi orf) cfg s -∗
  (∀ a, ⌜a <> 0⌝ → master_at (prefix_master_get afi orf) cfg (insert_name nd_name (Node a name None []) s) -∗ Q a) -∗
  wp (prefix_list_insert place afi orf name) Q.
Proof.
  intros Hma Enum. unfold prefix_list_insert. set (ma := prefix_master_get afi orf) in *. destruct (Z.eqb_spec ma 0); [done|].
  iIntros "(%m & %Hm & Hm & H) HQ". iApply wp_bind. iApply wp_alloc_obj; [done|]. iIntros (a) "Ha".
  iDestruct (points_to_nonnull with "Ha") as %Ha0. iApply wp_bind. iApply wp_alloc_obj; [done|]. iIntros (root) "Hr".
  iApply wp_bind. iApply (wp_update_list with "Ha"). iIntros "Ha". cbn [pl_desc pl_type pl_count pl_rangecount pl_head pl_tail pl_next pl_prev].
  iApply wp_bind. rewrite /name_number in Enum. rewrite Enum. iApply wp_ret. destruct r as [number i].
  unfold insert_name, name_place. cbn [nd_name]. rewrite Enum. clear Enum.
  set (tf := if i =? Z.of_nat (length name) then _ else _ : prefix_name_type * (list Z -> bool)) at 1.
  replace (if i =? Z.of_nat (length name) then _ else _ : prefix_name_type * (prefix_list -> bool))
    with (tf.1, fun l => tf.2 (pl_name l)) by (unfold tf; by destruct (i =? _)).
  clearbody tf. destruct tf as [t f]. cbn [fst snd]. iApply wp_bind. iApply (wp_update_list with "Ha"). iIntros "Ha".
  iDestruct (body_new D HD ma a _ root m with "[$Ha $Hr $Hm]") as "[Hb Hm]"; [done|apply Hm|done..|].
  rewrite (dls_both ma t). iDestruct "H" as "[H Ho]". iApply wp_bind.
  iApply (wp_mem_fuel _ (length (sel t s)) with "H"); [apply dls_at_least|]. iIntros (fuel Hfuel) "H".
  iApply wp_bind. iApply (wp_load_master with "Hm"). iIntros "Hm". pose proof (master_ok_heads _ _ _ t Hm) as [Eh Et].
  rewrite Eh. iApply wp_bind. iApply (wp_find_list D ma t f with "H"); [done|lia|]. iIntros "H". rewrite first_node_upto.
  pose proof (upto_eq nd_name f (sel t s)) as E. destruct (upto nd_name f (sel t s)) as [ns1 ns2]. cbn [fst snd] in *.
  rewrite {1}E. iApply wp_bind. rewrite E in Eh, Et.
  iApply (wp_list_link D ma t a _ _ m ns1 ns2 name None with "Hb Hm H"); [done..|].
  iIntros (m' [Hs Hh]) "Hm H". iApply wp_ret. iApply ("HQ" with "[//]"). iExists m'. iSplit.
  { iPureIntro. by eapply master_ok_put. }
  iFrame "Hm". rewrite (dls_both ma t) sel_put sel_put_other. iFrame.
Qed.

(** The list with a name, which may be new *)
Definition with_list (name : list Z) (n : node) (s : names node) : names node :=
  match locate nd_name name s with Some _ => s | None => insert_name nd_name n s end.

Lemma wp_list_get place `{!Placement place} afi orf name cfg s r (Q : Z -> hP) :
  prefix_master_get afi orf <> 0 -> name_number name = Ret r ->
  master_at (prefix_master_get afi orf) cfg s -∗
  (∀ a, ⌜a <> 0 /\ a = match locate nd_name name s with Some _ => found (locate nd_name name s) | None => a end⌝ →
     master_at (prefix_master_get afi orf) cfg (with_list name (Node a name None []) s) -∗ Q a) -∗
  wp (prefix_list_get place afi orf name) Q.
Proof.
  intros Hma Hr. iIntros "H HQ". iApply wp_bind. iApply (wp_lookup_do with "H"); [done|]. iIntros (Hf) "H".
  unfold with_list. destruct (locate nd_name name s) as [[[[t ns1] n] ns2]|].
  - destruct (Z.eqb_spec (found (Some (t, ns1, n, ns2))) 0) as [E|E]; [by apply Hf in E|]. iApply wp_ret.
    by iApply ("HQ" with "[//]").
  - simpl. iApply (wp_list_insert with "H"); [done..|]. iIntros (a Ha) "H". by iApply ("HQ" with "[//]").
Qed.

(** ** One list of a master *)
Lemma master_access ma cfg s t ns1 n ns2 :
  sel t s = ns1 ++ n :: ns2 ->
  master_at ma cfg s ⊢ ∃ m l, ⌜trie_depth m = D /\ add_hook m = cf_add cfg /\ delete_hook m = cf_del cfg /\
      links_ok t (last_or 0 (nd_at <$> ns1)) (hd_or 0 (nd_at <$> ns2)) n l⌝ ∧
    (ma ↦ OMaster m ∗ body D ma (nd_at n) l (nd_es n) ∗
     (∀ m' l' n', ⌜same_lists m m' /\ nd_at n' = nd_at n /\
         links_ok t (last_or 0 (nd_at <$> ns1)) (hd_or 0 (nd_at <$> ns2)) n' l'⌝ →
        ma ↦ OMaster m' -∗ body D ma (nd_at n') l' (nd_es n') -∗ master_at ma cfg (put t (ns1 ++ n' :: ns2) s))).
Proof.
  intros E. iIntros "(%m & %Hm & Hm & H)". rewrite (dls_both ma t) E dls_app. cbn [dls].
  iDestruct "H" as "((H1 & (%l & %Hl & Hb) & H2) & Ho)". iExists m, l. iSplit.
  { iPureIntro. destruct Hm as (? & ? & ? & ? & _). done. }
  iFrame "Hm Hb". iIntros (m' l' n' (Hs & Ea & Hl')) "Hm Hb". iExists m'. iSplit.
  { iPureIntro. destruct Hs as (r & ->). eapply master_ok_recent; [|by exists r].
    eapply master_ok_put; [exact Hm|apply same_master_refl|]. pose proof (master_ok_heads _ _ _ t Hm) as [Hh Ht].
    rewrite E in Hh, Ht. split.
    - rewrite Hh !fmap_app /= Ea. by destruct ns1.
    - rewrite Ht !fmap_app !last_or_app /= !last_or_cons. by rewrite Ea. }
  iFrame "Hm". rewrite (dls_both ma t) sel_put sel_put_other dls_app. cbn [dls].
  cbn [fmap list_fmap hd_or]. rewrite Ea. iFrame. iExists l'. iSplit; [done|]. by rewrite Ea.
Qed.
End master.
