(* ===== verification/PlistWorld.v ===== *)
(** * Prefix lists with the log

    [wpw m lg Q]: the computation [m], which also tells the rest of the program
    what happens, ends normally when the log is [lg], and [Q] holds of its
    result, the log it leaves and the part of memory it owns. *)

From stdpp Require Import sorting.
From iris.proofmode Require Import proofmode.
From S2P Require Import Prelude SepLogic Heap Own FrrPrefix.
From S2P Require Import Plist PlistSlot PlistChain PlistTrie PlistList PlistOps PlistQuery PlistBody PlistMaster.

#[local] Open Scope Z_scope.

(** ** Computations with the log *)
Definition wpw {A} (m : M world A) (lg : list event) (Q : A -> list event -> hP) : hP :=
  {| hprop_holds h := forall hf, h ##ₘ hf ->
       exists a h' lg', m (World (h ∪ hf) lg) = Ret (a, World (h' ∪ hf) lg') /\ h' ##ₘ hf /\ Q a lg' h' |}.

Lemma wpw_ret {A} (a : A) lg (Q : A -> list event -> hP) : Q a lg ⊢ wpw (mret a) lg Q.
Proof. constructor. intros h HQ hf Hd. by exists a, h, lg. Qed.

Lemma wpw_bind {A B} (m : M world A) (k : A -> M world B) lg (Q : B -> list event -> hP) :
  wpw m lg (fun a lg' => wpw (k a) lg' Q) ⊢ wpw (m ≫= k) lg Q.
Proof.
  constructor. intros h Hm hf Hd. destruct (Hm hf Hd) as (a & h' & lg' & E & Hd' & Hk).
  destruct (Hk hf Hd') as (b & h'' & lg'' & E' & Hd'' & HQ). exists b, h'', lg''. by rewrite (bind_ret_eq _ _ _ _ _ E).
Qed.

Lemma wpw_on_mem {A} (m : M pmem A) lg (Q : A -> list event -> hP) :
  wp m (fun a => Q a lg) ⊢ wpw (on_mem m) lg Q.
Proof.
  constructor. intros h Hm hf Hd. destruct (Hm hf Hd) as (a & h' & E & Hd' & HQ). exists a, h', lg.
  unfold on_mem. simpl. by rewrite E.
Qed.

Lemma wpw_emit e lg (Q : unit -> list event -> hP) : Q tt (lg ++ [e]) ⊢ wpw (emit e) lg Q.
Proof. constructor. intros h HQ hf Hd. by exists tt, h, (lg ++ [e]). Qed.

Lemma wpw_mlift {A} (r : res A) a lg (Q : A -> list event -> hP) : r = Ret a -> Q a lg ⊢ wpw (mlift r) lg Q.
Proof. intros ->. apply wpw_ret. Qed.

Lemma wpw_massert b lg (Q : unit -> list event -> hP) : b = true -> Q tt lg ⊢ wpw (massert b) lg Q.
Proof. intros ->. apply wpw_ret. Qed.

Lemma wpw_run {A} (m : M world A) lg (Q : A -> list event -> hP) h :
  wpw m lg Q h -> exists a h' lg', m (World h lg) = Ret (a, World h' lg') /\ Q a lg' h'.
Proof.
  intros H. destruct (H ∅) as (a & h' & lg' & E & _ & HQ); [apply map_disjoint_empty_r|].
  rewrite !right_id_L in E. by exists a, h', lg'.
Qed.

(** [m] goes wrong. *)
Definition wpw_fault {A} (m : M world A) (lg : list event) : hP :=
  {| hprop_holds h := forall hf, h ##ₘ hf -> m (World (h ∪ hf) lg) = Fault |}.

#[export] Instance wpw_fault_absorbing {A} (m : M world A) lg : Absorbing (wpw_fault m lg).
Proof.
  rewrite /Absorbing /bi_absorbingly. constructor. intros h (h1 & h2 & -> & Hd & _ & Hm) hf [Hd1 Hd2]%map_disjoint_union_l.
  rewrite (map_union_comm h1) // -assoc_L. apply Hm. by apply map_disjoint_union_r_2.
Qed.

Lemma wpw_fault_after {A B} (m : M world A) (k : A -> M world B) lg :
  wpw m lg (fun a lg' => wpw_fault (k a) lg') ⊢ wpw_fault (m ≫= k) lg.
Proof.
  constructor. intros h Hm hf Hd. destruct (Hm hf Hd) as (a & h' & lg' & E & Hd' & Hk). rewrite (bind_ret_eq _ _ _ _ _ E). by apply Hk.
Qed.

Lemma wpw_fault_first {A B} (m : M world A) (k : A -> M world B) lg : wpw_fault m lg ⊢ wpw_fault (m ≫= k) lg.
Proof. constructor. intros h Hm hf Hd. by apply bind_fault, Hm. Qed.

Lemma wpw_fault_on_mem {A} (m : M pmem A) lg : wp_fault m ⊢ wpw_fault (on_mem m) lg.
Proof. constructor. intros h Hm hf Hd. unfold on_mem. simpl. by rewrite (Hm hf Hd). Qed.

Lemma wpw_fault_run {A} (m : M world A) lg h : wpw_fault m lg h -> m (World h lg) = Fault.
Proof. intros H. specialize (H ∅ (map_disjoint_empty_r _)). by rewrite right_id_L in H. Qed.

(** ** What the hooks see *)
Definition hook_events (hook plist : Z) : list event := if hook =? 0 then [] else [EvHook hook plist].

Lemma wpw_hook hook plist lg (Q : unit -> list event -> hP) :
  Q tt (lg ++ hook_events hook plist) ⊢ wpw (run_hook hook plist) lg Q.
Proof.
  unfold run_hook, hook_events. destruct (hook =? 0); cbn [negb mwhen]; [by rewrite app_nil_r -wpw_ret|apply wpw_emit].
Qed.

Section world.
Context (D : nat) (HD : (1 <= D)%nat).

(** ** A list goes *)
Definition deleted_events (cfg : config) (n : node) : list event :=
  EvNotify (nd_name n) RMAP_EVENT_PLIST_DELETED :: hook_events (cf_del cfg) (nd_at n).

Lemma wpw_list_delete ma cfg s t ns1 n ns2 lg (Q : unit -> list event -> hP) :
  sel t s = ns1 ++ n :: ns2 ->
  master_at D ma cfg s -∗
  (master_at D ma cfg (put t (ns1 ++ ns2) s) -∗ Q tt (lg ++ deleted_events cfg n)) -∗
  wpw (prefix_list_delete (nd_at n)) lg Q.
Proof.
  intros E. iIntros "(%m & %Hm & Hm & H) HQ". rewrite (dls_both D ma t) E dls_app. cbn [dls].
  iDestruct "H" as "((H1 & (%l & %Hl & Hb) & H2) & Ho)". pose proof Hl as (Ep & En & Enm & Ed & Et).
  iDestruct (body_fields with "Hb") as %[Ha0 Ema].
  unfold prefix_list_delete. iApply wpw_bind. iApply wpw_on_mem. iApply wp_bind.
  iApply (wp_mem_fuel _ (S (length (nd_es n))) with "Hb"); [apply body_at_least|]. iIntros (fuel Hfuel) "Hb".
  iApply wp_bind. iApply (wp_body_load with "Hb"). iIntros "Hb". iApply wp_bind.
  iApply (body_destroy D HD with "Hb Hm"); [apply Hm|lia|]. iIntros (c tb Hr0) "Ha Hr Hm". iApply wp_bind.
  pose proof (master_ok_heads _ _ _ _ t Hm) as [Hh Ht]. rewrite E in Hh, Ht.
  iApply (wp_list_unlink D ma t (nd_at n) _ m ns1 ns2 with "Ha Hm [H1] H2"); try done.
  { rewrite Hh fmap_app hd_or_app. by destruct ns1. }
  { rewrite Ht fmap_app last_or_app /= last_or_cons. done. }
  iIntros (m' [Hs Hh']) "Ha Hm H". iApply wp_bind. iApply (wp_update_list with "Ha"). iIntros "Ha".
  rewrite Ema. iApply (wp_update_master with "Hm"). iIntros "Hm".
  iApply wpw_bind. iApply wpw_on_mem. iApply (wp_load_list with "Ha"). iIntros "Ha". cbn [pl_name pl_master pl_trie set_pl_desc set_pl_count].
  iApply wpw_bind. iApply wpw_emit. iApply wpw_bind. iApply wpw_on_mem. rewrite Ema. iApply (wp_load_master with "Hm"). iIntros "Hm".
  iApply wpw_bind. iApply wpw_hook. iApply wpw_on_mem. iApply wp_bind. iApply (wp_free with "Hr"). iApply (wp_free with "Ha").
  assert (Hok : master_ok D cfg m' (put t (ns1 ++ ns2) s)) by by eapply master_ok_put.
  rewrite -app_assoc Enm. replace (delete_hook (set_recent 0 m')) with (cf_del cfg) by (symmetry; apply Hok).
  iApply "HQ". iExists _. iSplit; [iPureIntro; eapply master_ok_recent; [exact Hok|by exists 0]|].
  iFrame "Hm". rewrite (dls_both D ma t) sel_put sel_put_other. iFrame.
Qed.

Definition set_es (es : entries) (n : node) : node := Node (nd_at n) (nd_name n) (nd_desc n) es.
Definition set_desc (d : option (list Z)) (n : node) : node := Node (nd_at n) (nd_name n) d (nd_es n).

Lemma links_same_list t p q n l l' es : links_ok t p q n l -> same_list l l' -> links_ok t p q (set_es es n) l'.
Proof.
  intros (? & ? & ? & ? & ?) Hsame. destruct (same_list_fields _ _ Hsame) as (E1 & E2 & _ & E3 & _ & E4 & E5).
  unfold links_ok. by rewrite E1 E2 E3 E4 E5.
Qed.

(** ** An entry goes *)

(** The list afterwards: without entries and description it goes as well. *)
Definition bare (n : node) : bool := bool_decide (nd_es n = []) && bool_decide (nd_desc n = None).
Definition keep_list (n : node) : list node := if bare n then [] else [n].
Definition entry_deleted_events (cfg : config) (n : node) : list event :=
  deleted_events cfg n ++ if bare n then deleted_events cfg n else [].

(** The list has no entries when both ends are null. *)
Lemma body_empty ma a l es :
  body D ma a l es ⊢@{hP} ⌜(pl_head l =? 0) && (pl_tail l =? 0) = bool_decide (es = [])⌝.
Proof.
  constructor. intros h (_ & _ & H). specialize (H (empty_master D) eq_refl).
  pose proof (pk_dll _ _ _ _ _ _ _ H) as Hd. rewrite (dk_head _ _ _ Hd) (dk_tail _ _ _ Hd). simpl.
  destruct es as [|[b r] es]; [done|]. destruct (pk_entry _ _ _ _ _ _ _ H b r) as (Hb & _); [by left|]. simpl.
  by destruct (Z.eqb_spec b 0).
Qed.

Lemma wpw_entry_delete ma cfg s t ns1 n ns2 es1 x es2 lg (Q : unit -> list event -> hP) :
  sel t s = ns1 ++ n :: ns2 -> nd_es n = es1 ++ x :: es2 -> x.1 <> 0 ->
  master_at D ma cfg s -∗
  (master_at D ma cfg (put t (ns1 ++ keep_list (set_es (es1 ++ es2) n) ++ ns2) s) -∗
     Q tt (lg ++ entry_deleted_events cfg (set_es (es1 ++ es2) n))) -∗
  wpw (prefix_list_entry_delete (nd_at n) x.1 true) lg Q.
Proof.
  intros E Ees Hx0. iIntros "H HQ". rewrite {1}(master_access _ _ _ _ _ _ _ _ E).
  iDestruct "H" as "(%m & %l & (%Hdep & %Ha & %Hd & %Hl) & Hm & Hb & Hclose)".
  iDestruct (body_fields with "Hb") as %[Ha0 Ema]. unfold prefix_list_entry_delete.
  destruct (Z.eqb_spec (nd_at n) 0); [done|]. destruct (Z.eqb_spec x.1 0); [done|]. cbn [orb mwhen].
  iApply wpw_bind. iApply wpw_on_mem. rewrite Ees. iApply (wp_entry_remove D HD with "Hb Hm"); [done|].
  iIntros (l' Hsame) "Hb Hm". iApply wpw_bind. iApply wpw_on_mem. iApply (wp_body_load with "Hb"). iIntros "Hb".
  pose proof (links_same_list _ _ _ _ _ _ (es1 ++ es2) Hl Hsame) as Hl'. pose proof Hl' as (_ & _ & Enm & Ed & _).
  iDestruct (body_fields with "Hb") as %[_ Ema']. iDestruct (body_empty with "Hb") as %Eempty.
  rewrite Enm Ema'. iApply wpw_bind. iApply wpw_emit. iApply wpw_bind. iApply wpw_on_mem. iApply (wp_load_master with "Hm").
  iIntros "Hm". rewrite Hd. iApply wpw_bind. iApply wpw_hook. rewrite -app_assoc Eempty Ed.
  change (bool_decide (es1 ++ es2 = []) && bool_decide (nd_desc (set_es (es1 ++ es2) n) = None)) with (bare (set_es (es1 ++ es2) n)).
  unfold keep_list, entry_deleted_events. change (nd_name (set_es (es1 ++ es2) n)) with (nd_name n).
  destruct (bare (set_es (es1 ++ es2) n)).
  - iDestruct ("Hclose" $! m l' (set_es (es1 ++ es2) n) with "[%] Hm Hb") as "H"; [by split; [apply same_lists_refl|]|].
    iApply (wpw_list_delete _ cfg _ t ns1 (set_es (es1 ++ es2) n) ns2 with "H"); [apply sel_put|]. iIntros "H". rewrite put_put.
    rewrite -app_assoc. by iApply "HQ".
  - iApply wpw_on_mem. iApply (wp_update_master with "Hm"). iIntros "Hm". rewrite app_nil_r. iApply "HQ".
    iApply ("Hclose" $! _ l' (set_es (es1 ++ es2) n) with "[%] Hm Hb"). split; [by eexists|]. by split.
Qed.

(** ** An entry comes *)
Definition entry_added_events (cfg : config) (n : node) : list event :=
  hook_events (cf_add cfg) (nd_at n) ++ [EvNotify (nd_name n) RMAP_EVENT_PLIST_ADDED].

Lemma wpw_entry_add place `{!Placement place} ma cfg s t ns1 n ns2 o e lg (Q : unit -> list event -> hP) :
  sel t s = ns1 ++ n :: ns2 -> rule_ok D (rule_of e) -> e_next_best e = 0 ->
  e_seq e = -1 \/ 0 <= e_seq e <= UINT_MAX -> Z.of_nat (length (nd_es n)) + 1 < 2 ^ 31 ->
  master_at D ma cfg s -∗ o ↦ OEntry e -∗
  (master_at D ma cfg (put t (ns1 ++ set_es (insert_entry (o, numbered_rule (nd_es n) (rule_of e)) (nd_es n)) n :: ns2) s) -∗
     Q tt (lg ++ entry_added_events cfg n)) -∗
  wpw (prefix_list_entry_add place (nd_at n) o) lg Q.
Proof.
  intros E Hok Hnb Hseq Hsmall. iIntros "H Ho HQ". rewrite {1}(master_access _ _ _ _ _ _ _ _ E).
  iDestruct "H" as "(%m & %l & (%Hdep & %Ha & %Hd & %Hl) & Hm & Hb & Hclose)". unfold prefix_list_entry_add.
  iApply wpw_bind. iApply wpw_on_mem. iApply (wp_entry_insert D HD with "Hb Hm Ho"); [done..|].
  iIntros (l' Hsame) "Hb Hm". iApply wpw_bind. iApply wpw_on_mem. iApply (wp_body_load with "Hb"). iIntros "Hb".
  set (n' := set_es _ n). assert (Hl' : links_ok t (last_or 0 (nd_at <$> ns1)) (hd_or 0 (nd_at <$> ns2)) n' l') by by eapply links_same_list.
  pose proof Hl' as (_ & _ & Enm & _). iDestruct (body_fields with "Hb") as %[_ Ema']. rewrite Ema' Enm.
  iApply wpw_bind. iApply wpw_on_mem. iApply (wp_load_master with "Hm"). iIntros "Hm". rewrite Ha.
  iApply wpw_bind. iApply wpw_hook. iApply wpw_bind. iApply wpw_emit. iApply wpw_on_mem.
  iApply (wp_update_master with "Hm"). iIntros "Hm". rewrite -app_assoc. iApply "HQ".
  iApply ("Hclose" $! _ l' n' with "[%] Hm Hb"). split; [by eexists|]. by split.
Qed.

(** ** Questions to a list *)
Lemma wp_on_list {A} (c : M pmem A) ma cfg s t ns1 n ns2 (v : A) (Q : A -> hP) :
  sel t s = ns1 ++ n :: ns2 ->
  (forall l m (R : A -> hP), trie_depth m = D ->
     body D ma (nd_at n) l (nd_es n) -∗ ma ↦ OMaster m -∗
     (∀ l', ⌜same_list l l'⌝ → body D ma (nd_at n) l' (nd_es n) -∗ ma ↦ OMaster m -∗ R v) -∗ wp c R) ->
  master_at D ma cfg s -∗ (master_at D ma cfg s -∗ Q v) -∗ wp c Q.
Proof.
  intros E Hc. iIntros "H HQ". rewrite {1}(master_access _ _ _ _ _ _ _ _ E).
  iDestruct "H" as "(%m & %l & (%Hdep & %Ha & %Hd & %Hl) & Hm & Hb & Hclose)".
  iApply (Hc with "Hb Hm"); [done|]. iIntros (l' Hsame) "Hb Hm". iApply "HQ".
  iDestruct ("Hclose" $! m l' n with "[%] Hm Hb") as "H".
  { split; [apply same_lists_refl|]. split; [done|]. pose proof (links_same_list _ _ _ _ _ _ (nd_es n) Hl Hsame) as Hl'. by destruct n. }
  by rewrite -E put_sel.
Qed.
End world.
