(* ===== verification/PlistSpec.v ===== *)
(** * What prefix lists are for

    The specification of the prefix lists: for each address family, and for
    the filters of BGP peers beside, named policies in an order of their names,
    each an ordered list of rules.  [sp_step] says what every command and call
    does to them, what it answers and what it tells the rest of the program.
    There are no addresses, links, counters or tries here. *)

From stdpp Require Import sorting.
From S2P Require Import Prelude SepLogic FrrPrefix FrrPrefixBits Heap Plist PlistVty PlistChain PlistApply.
From S2P Require Import PlistOps PlistQuery PlistBody PlistMaster PlistWorld.

#[local] Open Scope Z_scope.

(** ** Rules in order *)
Definition largest_number (rs : list rule) : Z := foldl (fun m r => if m <? r_seq r then r_seq r else m) 0 rs.
(** Numbers that nobody chose go up in steps of five. *)
Definition free_number (rs : list rule) : Z := Z.min UINT_MAX (largest_number rs / 5 * 5 + 5).
Definition give_number (rs : list rule) (r : rule) : rule :=
  if r_seq r =? -1
  then Rule (free_number rs) (r_le r) (r_ge r) (r_type r) (r_any r) (r_prefix r) (r_refcnt r)
  else r.

(** The rule takes its place in the order and that of the rule with its number. *)
Definition insert_rule (r : rule) (rs : list rule) : list rule :=
  filter (fun x => r_seq x < r_seq r) rs ++ r :: filter (fun x => r_seq r < r_seq x) rs.

(** The first rule that [f] holds of goes. *)
Fixpoint remove_rule (f : rule -> bool) (rs : list rule) : option (list rule) :=
  match rs with
  | [] => None
  | r :: rs => if f r then Some rs else match remove_rule f rs with Some rs => Some (r :: rs) | None => None end
  end.

(** The same policy under a number that differs from the one [r] gets *)
Definition known (r : rule) (rs : list rule) : bool :=
  existsb (fun x => same_policy x r && negb (r_seq x =? r_seq (give_number rs r))) rs.

(** ** Policies *)
Record policy := Policy { po_name : list Z; po_desc : option (list Z); po_rules : list rule }.
Abbreviation policies := (names policy).

Definition locate_policy (name : list Z) (ps : policies) : option policy :=
  match locate po_name name ps with Some (_, _, x, _) => Some x | None => None end.

(** The policy with a name changes, or goes when [f] gives none. *)
Definition change_policy (name : list Z) (f : policy -> option policy) (ps : policies) : policies :=
  match locate po_name name ps with
  | Some (t, l1, x, l2) => put t (l1 ++ option_list (f x) ++ l2) ps
  | None => ps
  end.
Definition get_policy (name : list Z) (ps : policies) : policies :=
  match locate po_name name ps with Some _ => ps | None => insert_name po_name (Policy name None []) ps end.

Definition with_rules (rs : list rule) (x : policy) : policy := Policy (po_name x) (po_desc x) rs.
Definition with_desc (d : option (list Z)) (x : policy) : policy := Policy (po_name x) d (po_rules x).
(** A policy with neither rules nor a description is given up. *)
Definition unless_bare (x : policy) : option policy :=
  match po_rules x, po_desc x with [], None => None | _, _ => Some x end.

(** ** All policies *)
Record masters (X : Type) := Masters { m_ipv4 : X; m_ipv6 : X; m_orf_v4 : X; m_orf_v6 : X }.
Arguments Masters {X}.
Arguments m_ipv4 {X}. Arguments m_ipv6 {X}. Arguments m_orf_v4 {X}. Arguments m_orf_v6 {X}.
Definition master_of {X} (afi : afi_t) (orf : bool) (st : masters X) : X :=
  match afi, orf with
  | AFI_IP, false => m_ipv4 st
  | AFI_IP, true => m_orf_v4 st
  | _, false => m_ipv6 st
  | _, true => m_orf_v6 st
  end.
Definition set_master {X} (afi : afi_t) (orf : bool) (x : X) (st : masters X) : masters X :=
  match afi, orf with
  | AFI_IP, false => Masters x (m_ipv6 st) (m_orf_v4 st) (m_orf_v6 st)
  | AFI_IP, true => Masters (m_ipv4 st) (m_ipv6 st) x (m_orf_v6 st)
  | _, false => Masters (m_ipv4 st) x (m_orf_v4 st) (m_orf_v6 st)
  | _, true => Masters (m_ipv4 st) (m_ipv6 st) (m_orf_v4 st) x
  end.
Abbreviation sp_state := (masters (config * policies)).

(** What the rest of the program is told *)
Inductive notice :=
  | NHook (hook : Z)
  | NNotify (name : list Z) (ev : rmap_event).
Definition notice_of (e : event) : notice :=
  match e with EvHook h _ => NHook h | EvNotify name ev => NNotify name ev end.
Definition hook_notice (hook : Z) : list notice := if hook =? 0 then [] else [NHook hook].
Definition deleted_notice (cfg : config) (name : list Z) : list notice :=
  NNotify name RMAP_EVENT_PLIST_DELETED :: hook_notice (cf_del cfg).
Definition added_notice (cfg : config) (name : list Z) : list notice :=
  hook_notice (cf_add cfg) ++ [NNotify name RMAP_EVENT_PLIST_ADDED].

(** ** Operations *)
Inductive plist_op :=
  | OpInstall (afi : afi_t) (name : list Z) (seq typestr text ge le : option (list Z))
  | OpUninstall (afi : afi_t) (name : list Z) (seq typestr text ge le : option (list Z))
  | OpDescription (afi : afi_t) (name desc : list Z)
  | OpNoDescription (afi : afi_t) (name : list Z)
  | OpSequenceNumber (afi : afi_t) (no : bool)
  | OpOrfSet (name : list Z) (afi : afi_t) (orfp : orf_prefix) (permit set : bool)
  | OpOrfRemoveAll (afi : afi_t) (name : list Z)
  | OpApply (afi : afi_t) (orf : bool) (name : list Z) (p : prefix)
  | OpHooks (add delete : Z)
  | OpReset.

Inductive answer := Code (c : Z) | Verdict (t : prefix_list_type) | Done.
#[export] Instance answer_eq_dec : EqDecision answer.
Proof. solve_decision. Defined.

Section spec.
Context (inet_pton : family -> list Z -> option (list Z)) (uninit : prefix).

(** The prefix as an entry keeps it *)
Definition kept_prefix (p : prefix) : prefix :=
  match prefix_copy zero_prefix p with Ret q => q | _ => p end.

(** *** Arguments *)
Definition number_of (seq : option (list Z)) : Z := match seq with Some s => atol s | None => -1 end.
Definition length_of (s : option (list Z)) : Z := match s with Some s => atoi s | None => 0 end.
(** [ge] below the mask or above [le] is refused, and so is [le] below [low]. *)
Definition bad_range (low ge le : Z) : bool := negb (le =? 0) && ((le <? low) || (le <? ge)).
Definition normal_le (afi : afi_t) (ge le : Z) : Z := if negb (ge =? 0) && (le =? afi_bitlen afi) then 0 else le.

(** The rule a command describes *)
Definition command_rule (afi : afi_t) (seq typestr text ge le : option (list Z)) : option rule :=
  match text, typestr with
  | Some text, Some typestr =>
      match type_of typestr, parse_prefix inet_pton uninit afi text (length_of ge) (length_of le) with
      | Some type, Ret (Some (p, ge, le, any)) =>
          match mask_prefix uninit afi p with
          | Ret p =>
              if (negb (ge =? 0) && (ge <=? prefixlen p)) || bad_range (prefixlen p) ge le then None
              else Some (made_rule (kept_prefix p) type (number_of seq) (normal_le afi ge le) ge any)
          | _ => None
          end
      | _, _ => None
      end
  | _, _ => None
  end.

(** The rules a command for removal means: [None] when it is malformed *)
Definition command_selects (afi : afi_t) (seq typestr text ge le : option (list Z)) : option (rule -> bool) :=
  match seq, typestr, text, ge, le with
  | Some seq, None, None, None, None => Some (fun r => r_seq r =? atol seq)
  | _, Some typestr, Some text, _, _ =>
      match type_of typestr, parse_prefix inet_pton uninit afi text (length_of ge) (length_of le) with
      | Some type, Ret (Some (p, ge, le, _)) => Some (entry_is_rule p type (number_of seq) le ge)
      | _, _ => None
      end
  | _, _, _, _, _ => None
  end.

(** The rule of a filter a peer sent *)
Definition orf_rule (afi : afi_t) (o : orf_prefix) (permit : bool) : option rule :=
  if (negb (orf_ge o =? 0) && (orf_ge o <=? prefixlen (orf_p o))) || bad_range (prefixlen (orf_p o) + 1) (orf_ge o) (orf_le o) then None
  else Some (made_rule (kept_prefix (orf_p o)) (permit_type permit) (orf_seq o) (normal_le afi (orf_ge o) (orf_le o)) (orf_ge o) 0).

(** *** Changes of one master: the policies, the code and the notices *)
Definition sp_add (cfg : config) (name : list Z) (r : rule) (dup : Z) (ps : policies) : policies * Z * list notice :=
  let ps := get_policy name ps in
  match locate_policy name ps with
  | None => (ps, CMD_WARNING_CONFIG_FAILED, [])
  | Some x =>
      if known r (po_rules x) then (ps, dup, [])
      else (change_policy name (fun x => Some (with_rules (insert_rule (give_number (po_rules x) r) (po_rules x)) x)) ps,
            CMD_SUCCESS, added_notice cfg name)
  end.

Definition sp_remove (cfg : config) (name : list Z) (f : rule -> bool) (ps : policies) : policies * Z * list notice :=
  match locate_policy name ps with
  | None => (ps, CMD_WARNING_CONFIG_FAILED, [])
  | Some x =>
      match remove_rule f (po_rules x) with
      | None => (ps, CMD_WARNING_CONFIG_FAILED, [])
      | Some rs =>
          (change_policy name (fun x => unless_bare (with_rules rs x)) ps, CMD_SUCCESS,
           deleted_notice cfg name ++ if unless_bare (with_rules rs x) then [] else deleted_notice cfg name)
      end
  end.

Definition sp_forget (cfg : config) (name : list Z) (ps : policies) : policies * list notice :=
  match locate_policy name ps with
  | None => (ps, [])
  | Some _ => (change_policy name (fun _ => None) ps, deleted_notice cfg name)
  end.

Definition sp_uninstall (cfg : config) (afi : afi_t) (name : list Z) (seq typestr text ge le : option (list Z))
    (ps : policies) : policies * Z * list notice :=
  match locate_policy name ps with
  | None => (ps, CMD_WARNING_CONFIG_FAILED, [])
  | Some _ =>
      match seq, typestr, text, ge, le with
      | None, None, None, None, None => let '(ps, ns) := sp_forget cfg name ps in (ps, CMD_SUCCESS, ns)
      | _, _, _, _, _ =>
          match command_selects afi seq typestr text ge le with
          | None => (ps, CMD_WARNING_CONFIG_FAILED, [])
          | Some f => sp_remove cfg name f ps
          end
      end
  end.

Definition sp_undescribe (cfg : config) (name : list Z) (ps : policies) : policies * Z * list notice :=
  match locate_policy name ps with
  | None => (ps, CMD_WARNING_CONFIG_FAILED, [])
  | Some x =>
      (change_policy name (fun x => unless_bare (with_desc None x)) ps, CMD_SUCCESS,
       if unless_bare (with_desc None x) then [] else deleted_notice cfg name)
  end.

Definition sp_orf_set (cfg : config) (name : list Z) (afi : afi_t) (o : orf_prefix) (permit set : bool)
    (ps : policies) : policies * Z * list notice :=
  match orf_rule afi o permit with
  | None => (ps, CMD_WARNING_CONFIG_FAILED, [])
  | Some r =>
      if set then sp_add cfg name r CMD_WARNING_CONFIG_FAILED ps
      else
        sp_remove cfg name
          (entry_is_rule (orf_p o) (permit_type permit) (orf_seq o) (normal_le afi (orf_ge o) (orf_le o)) (orf_ge o))
          (get_policy name ps)
  end.

Definition sp_reset (x : config * policies) : (config * policies) * list notice :=
  let '(cfg, ps) := x in
  ((Config true (cf_add cfg) (cf_del cfg), Names [] []),
   (nm_num ps ++ nm_str ps) ≫= (fun x => deleted_notice cfg (po_name x))).

(** *** A step *)
Definition on_master (afi : afi_t) (orf : bool) (f : config -> policies -> policies * Z * list notice) (st : sp_state) :
    sp_state * answer * list notice :=
  let '(cfg, ps) := master_of afi orf st in
  let '(ps, c, ns) := f cfg ps in
  (set_master afi orf (cfg, ps) st, Code c, ns).

Definition sp_step (op : plist_op) (st : sp_state) : sp_state * answer * list notice :=
  match op with
  | OpInstall afi name seq typestr text ge le =>
      on_master afi false (fun cfg ps =>
        match command_rule afi seq typestr text ge le with
        | None => (ps, CMD_WARNING_CONFIG_FAILED, [])
        | Some r => sp_add cfg name r CMD_SUCCESS ps
        end) st
  | OpUninstall afi name seq typestr text ge le =>
      on_master afi false (fun cfg => sp_uninstall cfg afi name seq typestr text ge le) st
  | OpDescription afi name desc =>
      on_master afi false (fun cfg ps =>
        (change_policy name (fun x => Some (with_desc (Some desc) x)) (get_policy name ps), CMD_SUCCESS, [])) st
  | OpNoDescription afi name => on_master afi false (fun cfg => sp_undescribe cfg name) st
  | OpSequenceNumber afi no =>
      let '(cfg, ps) := master_of afi false st in
      (set_master afi false (Config (negb no) (cf_add cfg) (cf_del cfg), ps) st, Code CMD_SUCCESS, [])
  | OpOrfSet name afi o permit set => on_master afi true (fun cfg => sp_orf_set cfg name afi o permit set) st
  | OpOrfRemoveAll afi name =>
      let '(cfg, ps) := master_of afi true st in
      let '(ps, ns) := sp_forget cfg name ps in
      (set_master afi true (cfg, ps) st, Done, ns)
  | OpApply afi orf name p =>
      (st, Verdict (match locate_policy name (master_of afi orf st).2 with
                    | Some x => verdict (po_rules x) p
                    | None => PREFIX_DENY
                    end), [])
  | OpHooks add delete =>
      let set x : config * policies := (Config (cf_seqnum x.1) add delete, x.2) in
      (Masters (set (m_ipv4 st)) (set (m_ipv6 st)) (m_orf_v4 st) (m_orf_v6 st), Done, [])
  | OpReset =>
      let '(a, n1) := sp_reset (m_ipv4 st) in
      let '(b, n2) := sp_reset (m_ipv6 st) in
      let '(c, n3) := sp_reset (m_orf_v4 st) in
      let '(d, n4) := sp_reset (m_orf_v6 st) in
      (Masters a b c d, Done, n1 ++ n2 ++ n3 ++ n4)
  end.

Fixpoint sp_run (ops : list plist_op) (st : sp_state) : sp_state * list answer * list notice :=
  match ops with
  | [] => (st, [], [])
  | op :: ops =>
      let '(st, a, ns) := sp_step op st in
      let '(st, answers, ns') := sp_run ops st in
      (st, a :: answers, ns ++ ns')
  end.
End spec.

Definition sp_init : sp_state :=
  let x := (Config true 0 0, Names [] []) in Masters x x x x.

(** ** From prefix lists in memory to policies

    [abs_names] forgets the addresses.  The lemmas say that finding, inserting
    and removing in memory's terms are finding, inserting and removing in the
    specification's terms. *)

Definition abs_node (n : node) : policy := Policy (nd_name n) (nd_desc n) (nd_es n).*2.
Definition abs_names (s : names node) : policies := Names (abs_node <$> nm_num s) (abs_node <$> nm_str s).

(** ** Rules in order *)
Lemma filter_fmap {A B} (f : A -> B) (P : B -> Prop) `{!forall x, Decision (P x)} (l : list A) :
  filter P (f <$> l) = f <$> filter (fun x => P (f x)) l.
Proof.
  induction l as [|x l IH]; [done|]. rewrite fmap_cons, !filter_cons. case_decide; [|done]. by rewrite fmap_cons, IH.
Qed.

Lemma insert_entry_rules (x : Z * rule) (es : entries) : (insert_entry x es).*2 = insert_rule x.2 es.*2.
Proof.
  unfold insert_entry, insert_rule, lower, higher. rewrite fmap_app, fmap_cons.
  rewrite (filter_fmap snd (fun r => r_seq r < r_seq x.2)), (filter_fmap snd (fun r => r_seq x.2 < r_seq r)). done.
Qed.

Lemma max_number_rules (es : entries) : max_number es = largest_number es.*2.
Proof.
  unfold max_number, largest_number. generalize 0. induction es as [|x es IH]; intros v; [done|]. simpl. apply IH.
Qed.

Lemma next_number_rules (es : entries) : next_number es = free_number es.*2.
Proof. unfold next_number, free_number. rewrite max_number_rules. destruct (Z.ltb_spec UINT_MAX (largest_number es.*2 / 5 * 5 + 5)); lia. Qed.

Lemma numbered_rules (es : entries) r : numbered_rule es r = give_number es.*2 r.
Proof. unfold numbered_rule, give_number. rewrite next_number_rules. done. Qed.

Lemma known_dup (es : entries) r :
  has_dup (dup_number es.*2 (next_number es) r) r es.*2 = known r es.*2.
Proof.
  unfold has_dup, known, dup_of, dup_number, give_number. rewrite next_number_rules. by destruct (r_seq r =? -1).
Qed.

(** The entry that is found, and the rest *)
Lemma remove_first f (es : entries) :
  Forall (fun x : Z * rule => x.1 <> 0) es ->
  match remove_rule f es.*2 with
  | None => first_with f es = 0
  | Some rs => exists es1 x es2, es = es1 ++ x :: es2 /\ first_with f es = x.1 /\ x.1 <> 0 /\ rs = (es1 ++ es2).*2
  end.
Proof.
  induction 1 as [|[a r] es Ha Hes IH]; [done|]. rewrite fmap_cons. cbn [remove_rule first_with fst snd] in *. destruct (f r).
  - exists [], (a, r), es. by split_and!.
  - destruct (remove_rule f es.*2) as [rs|]; [|done]. destruct IH as (es1 & x & es2 & -> & -> & Hx & ->).
    exists ((a, r) :: es1), x, es2. by split_and!.
Qed.

(** ** Names *)
Section maps.
Context {X Y : Type} (nx : X -> list Z) (ny : Y -> list Z) (g : X -> Y) (Hg : forall x, ny (g x) = nx x).

Definition map_names (s : names X) : names Y := Names (g <$> nm_num s) (g <$> nm_str s).

Lemma upto_map f l : upto ny f (g <$> l) = (g <$> (upto nx f l).1, g <$> (upto nx f l).2).
Proof.
  induction l as [|x l IH]; [done|]. rewrite fmap_cons. simpl. rewrite Hg. destruct (f (nx x)); [done|].
  rewrite IH. by destruct (upto nx f l).
Qed.

Lemma sel_map t s : sel t (map_names s) = g <$> sel t s.
Proof. by destruct t. Qed.
Lemma put_map t l s : put t (g <$> l) (map_names s) = map_names (put t l s).
Proof. by destruct t. Qed.

Lemma locate_map name s :
  locate ny name (map_names s) =
  match locate nx name s with Some (t, l1, x, l2) => Some (t, g <$> l1, g x, g <$> l2) | None => None end.
Proof.
  unfold locate. simpl. rewrite !upto_map. destruct (upto nx (is_name name) (nm_num s)) as [a1 [|x1 b1]]; simpl; [|done].
  by destruct (upto nx (is_name name) (nm_str s)) as [a2 [|x2 b2]].
Qed.

Lemma insert_name_map x s : insert_name ny (g x) (map_names s) = map_names (insert_name nx x s).
Proof.
  unfold insert_name. rewrite Hg. destruct (name_place (nx x)) as [t f]. rewrite sel_map, upto_map.
  destruct (upto nx f (sel t s)) as [l1 l2]. simpl. by rewrite <- fmap_cons, <- fmap_app, put_map.
Qed.
End maps.

Lemma abs_names_eq s : abs_names s = map_names abs_node s.
Proof. done. Qed.

Lemma locate_abs name s :
  locate po_name name (abs_names s) =
  match locate nd_name name s with
  | Some (t, l1, n, l2) => Some (t, abs_node <$> l1, abs_node n, abs_node <$> l2)
  | None => None
  end.
Proof. by apply locate_map. Qed.

Lemma locate_policy_abs name s :
  locate_policy name (abs_names s) = match locate nd_name name s with Some (_, _, n, _) => Some (abs_node n) | None => None end.
Proof. unfold locate_policy. rewrite locate_abs. by destruct (locate nd_name name s) as [[[[t l1] n] l2]|]. Qed.

Lemma get_policy_abs name a s : get_policy name (abs_names s) = abs_names (with_list name (Node a name None []) s).
Proof.
  unfold get_policy, with_list. rewrite locate_abs. destruct (locate nd_name name s) as [[[[t l1] n] l2]|]; [done|].
  apply (insert_name_map nd_name po_name abs_node (fun _ => eq_refl) (Node a name None [])).
Qed.

Lemma change_policy_abs name f s t l1 n l2 l :
  locate nd_name name s = Some (t, l1, n, l2) -> option_list (f (abs_node n)) = abs_node <$> l ->
  change_policy name f (abs_names s) = abs_names (put t (l1 ++ l ++ l2) s).
Proof.
  intros E Ef. unfold change_policy. rewrite locate_abs, E, Ef, <- !fmap_app. apply put_map.
Qed.

(** A list that was just made is found again. *)
Lemma upto_place {X} (nm : X -> list Z) f l1 x l2 l :
  l1 ++ x :: l2 = l -> (forall y, y ∈ l1 -> f (nm y) = false) -> f (nm x) = true -> upto nm f l = (l1, x :: l2).
Proof.
  intros <- H1 Hx. induction l1 as [|y l1 IH]; simpl; [by rewrite Hx|].
  rewrite H1 by by left. rewrite IH; [done|]. intros z Hz. apply H1. by right.
Qed.

Lemma upto_none {X} (nm : X -> list Z) f l : (upto nm f l).2 = [] -> forall y, y ∈ l -> f (nm y) = false.
Proof.
  induction l as [|x l IH]; [by intros _ y ?%not_elem_of_nil|]. simpl. destruct (f (nm x)) eqn:E; [done|].
  destruct (upto nm f l) as [a b]. simpl in *. intros -> y [->|Hy]%elem_of_cons; [done|by apply IH].
Qed.

Lemma locate_none {X} (nm : X -> list Z) name (s : names X) :
  locate nm name s = None -> forall t y, y ∈ sel t s -> nm y <> name.
Proof.
  unfold locate. intros H. assert (Hall : forall t, (upto nm (is_name name) (sel t s)).2 = []).
  { intros []; simpl; destruct (upto nm (is_name name) (nm_num s)) as [a1 [|x1 b1]]; try done;
      destruct (upto nm (is_name name) (nm_str s)) as [a2 [|x2 b2]]; done. }
  intros t y Hy E. pose proof (upto_none nm _ _ (Hall t) y Hy) as Hf. unfold is_name in Hf. by rewrite bool_decide_true in Hf.
Qed.

Lemma locate_inserted {X} (nm : X -> list Z) (x : X) s :
  locate nm (nm x) s = None ->
  exists t l1 l2, locate nm (nm x) (insert_name nm x s) = Some (t, l1, x, l2) /\
    l1 ++ l2 = sel t s /\ insert_name nm x s = put t (l1 ++ x :: l2) s.
Proof.
  intros Hnone. unfold insert_name. destruct (name_place (nm x)) as [t f]. pose proof (upto_eq nm f (sel t s)) as Ef.
  destruct (upto nm f (sel t s)) as [l1 l2]. simpl in Ef. exists t, l1, l2. split_and!; [|done|done].
  pose proof (locate_none nm (nm x) s Hnone) as Hne.
  assert (Hf : forall y, y ∈ l1 -> is_name (nm x) (nm y) = false).
  { intros y Hy. unfold is_name. apply bool_decide_false, (Hne t). rewrite Ef. apply elem_of_app. by left. }
  assert (Hx : is_name (nm x) (nm x) = true) by by apply bool_decide_true.
  unfold locate. destruct t; cbn [put sel nm_num nm_str] in *.
  - assert (E0 : (upto nm (is_name (nm x)) (nm_num s)).2 = []).
    { destruct (upto nm (is_name (nm x)) (nm_num s)) as [a [|y b]] eqn:E; [done|]. exfalso.
      pose proof (upto_first nm (is_name (nm x)) (nm_num s) y b) as F. rewrite E in F. specialize (F eq_refl).
      pose proof (upto_eq nm (is_name (nm x)) (nm_num s)) as Es. rewrite E in Es. simpl in Es.
      apply (Hne PREFIX_TYPE_NUMBER y); [simpl; rewrite Es; apply elem_of_app; right; by left|].
      by apply bool_decide_eq_true in F. }
    destruct (upto nm (is_name (nm x)) (nm_num s)) as [a b]. simpl in E0. subst b.
    by rewrite (upto_place nm _ l1 x l2 _ eq_refl Hf Hx).
  - by rewrite (upto_place nm _ l1 x l2 _ eq_refl Hf Hx).
Qed.
