(* ===== verification/PlistText.v ===== *)
(** * From the arguments of commands to the prefixes of rules

    [rule_prefix afi p]: [p] is a prefix of the address family without bits
    behind it in the byte it ends in.  Commands make such prefixes, whatever
    the text says, and copies of them fit the tries. *)

From S2P Require Import Prelude SepLogic Heap FrrPrefix FrrPrefixBits.
From S2P Require Import Plist PlistVty PlistChain PlistSlot PlistInstall PlistApply PlistSpec.

#[local] Open Scope Z_scope.

Definition afi_family (afi : afi_t) : family := match afi with AFI_IP => AF_INET | _ => AF_INET6 end.

(** The byte a prefix ends in *)
Definition last_byte (p : prefix) : nat := Z.to_nat ((prefixlen p - 1) / 8).
Definition no_host_bits (p : prefix) : Prop :=
  forall x, u p !! last_byte p = Some x -> x mod 2 ^ (8 * (Z.of_nat (last_byte p) + 1) - prefixlen p) = 0.

Record rule_prefix (afi : afi_t) (p : prefix) : Prop := {
  rp_wf : prefix_wf p;
  rp_family : p_family p = afi_family afi;
  rp_len : prefixlen p <= afi_bitlen afi;
  rp_clear : no_host_bits p
}.

(** ** In the tries *)
Lemma last_byte_bounds p : 0 <= prefixlen p -> prefixlen p <= 8 * (Z.of_nat (last_byte p) + 1) <= prefixlen p + 8.
Proof.
  intros H. unfold last_byte. pose proof (Z.div_mod (prefixlen p - 1) 8 ltac:(done)).
  pose proof (Z.mod_pos_bound (prefixlen p - 1) 8 ltac:(done)). lia.
Qed.

Lemma rule_prefix_ok D afi r : (1 <= D)%nat -> rule_prefix afi (r_prefix r) -> rule_ok D r /\ fits (r_prefix r).
Proof.
  intros HD [Hw Hf Hl Hc]. assert (Hl128 : rlen r <= 128) by (unfold rlen; destruct afi; simpl in Hl; unfold IPV4_MAX_BITLEN, IPV6_MAX_BITLEN in Hl; lia).
  split.
  - split; [done..|]. intros Hv. destruct (pw_len _ Hw) as [Hl0 _]. fold (rlen r) in Hl0.
    assert (El : lvl D (rlen r) = last_byte (r_prefix r)).
    { unfold lvl, vbits, last_byte, rlen in *. destruct (decide (Z.to_nat ((prefixlen (r_prefix r) - 1) / 8) <= D - 1)%nat); [lia|].
      unfold lvl in Hv. pose proof (Z.div_mod (prefixlen (r_prefix r) - 1) 8 ltac:(done)).
      pose proof (Z.mod_pos_bound (prefixlen (r_prefix r) - 1) 8 ltac:(done)). lia. }
    destruct (rbyte_lookup D r Hw Hl128) as [Eb _]. unfold width, vbits. rewrite El in Eb |- *. specialize (Hc _ Eb).
    by replace (8 - (rlen r - 8 * Z.of_nat (last_byte (r_prefix r)))) with
      (8 * (Z.of_nat (last_byte (r_prefix r)) + 1) - prefixlen (r_prefix r)) by (unfold rlen; lia).
  - unfold fits. rewrite Hf. destruct afi; simpl in *; (eexists; split; [done|]); unfold IPV4_MAX_BITLEN, IPV6_MAX_BITLEN, IPV4_MAX_BYTELEN, IPV6_MAX_BYTELEN in *; lia.
Qed.

(** ** Copies *)
Definition afi_bytes (afi : afi_t) : nat := match afi with AFI_IP => 4 | _ => 16 end.

Lemma afi_copied afi : copied_bytes (afi_family afi) = Ret (Z.of_nat (afi_bytes afi)).
Proof. by destruct afi. Qed.

Lemma last_byte_lt afi p : prefix_wf p -> prefixlen p <= afi_bitlen afi -> (last_byte p < afi_bytes afi)%nat.
Proof.
  intros Hw Hl. unfold last_byte. pose proof (Z.div_mod (prefixlen p - 1) 8 ltac:(done)).
  pose proof (Z.mod_pos_bound (prefixlen p - 1) 8 ltac:(done)).
  destruct afi; simpl in *; unfold IPV4_MAX_BITLEN, IPV6_MAX_BITLEN in *; lia.
Qed.

(** Prefixes that agree on the bytes of their family *)
Lemma rule_prefix_same afi p q :
  rule_prefix afi p -> prefix_wf q -> p_family q = p_family p -> prefixlen q = prefixlen p ->
  take (afi_bytes afi) (u q) = take (afi_bytes afi) (u p) -> rule_prefix afi q.
Proof.
  intros [Hw Hf Hl Hc] Hq Ef El Eu. split; [done|congruence|congruence|]. intros x Hx.
  pose proof (last_byte_lt afi p Hw Hl) as Hlt. assert (Elb : last_byte q = last_byte p) by (unfold last_byte; by rewrite El).
  rewrite Elb in Hx |- *. rewrite El. apply Hc. rewrite <- (lookup_take_lt (u q) (afi_bytes afi)) in Hx by done.
  by rewrite Eu, lookup_take_lt in Hx.
Qed.

Lemma prefix_copy_bytes afi dest p :
  prefix_wf dest -> prefix_wf p -> p_family p = afi_family afi ->
  exists q, prefix_copy dest p = Ret q /\ prefix_wf q /\ p_family q = p_family p /\ prefixlen q = prefixlen p /\
    take (afi_bytes afi) (u q) = take (afi_bytes afi) (u p).
Proof.
  intros [Hdb Hds _] [Hsb Hss Hsl] Hf. assert (Hn : (afi_bytes afi <= 16)%nat) by (destruct afi; simpl; lia).
  unfold prefix_copy. rewrite Hf, afi_copied. cbn [mbind res_bind].
  rewrite read_bytes_take by lia. cbn [mbind res_bind]. rewrite Nat2Z.id.
  rewrite write_bytes_0 by (rewrite length_take; lia). cbn [mbind res_bind]. eexists. split; [done|]. cbn [u p_family prefixlen].
  rewrite length_take, Nat.min_l by lia. split_and!; [|done..|].
  - split; cbn [u prefixlen]; [|rewrite length_app, length_take, length_drop; lia|lia].
    apply Forall_app. split; [by apply Forall_take|by apply Forall_drop].
  - rewrite take_app_le by (rewrite length_take; lia). by rewrite take_take, Nat.min_id.
Qed.

Lemma zero_prefix_ok : prefix_wf zero_prefix.
Proof. split; [by apply Forall_replicate|done|done]. Qed.

Lemma kept_prefix_ok afi p :
  rule_prefix afi p -> prefix_copy zero_prefix p = Ret (kept_prefix p) /\ rule_prefix afi (kept_prefix p).
Proof.
  intros H. destruct (prefix_copy_bytes afi zero_prefix p zero_prefix_ok (rp_wf _ _ H) (rp_family _ _ H)) as (q & E & Hq & Ef & El & Eu).
  unfold kept_prefix. rewrite E. split; [done|]. by apply (rule_prefix_same afi p).
Qed.

(** *** With bits behind the prefix *)
Record afi_prefix (afi : afi_t) (p : prefix) : Prop := {
  ap_wf : prefix_wf p;
  ap_family : p_family p = afi_family afi;
  ap_len : prefixlen p <= afi_bitlen afi
}.

(** The byte the prefix ends in, moved by the slots of the prefix, is past the
    end of a table; [D] is the number of levels. *)
Definition walks_past (D : nat) (p : prefix) : Prop :=
  prefixlen p <= 8 * Z.of_nat D /\
  exists x, u p !! last_byte p = Some x /\ 256 < x + 2 ^ (8 * (Z.of_nat (last_byte p) + 1) - prefixlen p).

Lemma kept_past D afi p r :
  (1 <= D)%nat -> afi_prefix afi p -> walks_past D p -> r_prefix r = kept_prefix p ->
  prefix_copy zero_prefix p = Ret (kept_prefix p) /\ prefix_wf (r_prefix r) /\ rlen r <= 128 /\ fits (r_prefix r) /\ past_end D r.
Proof.
  intros HD [Hw Hf Hl] (Hlen & x & Hx & Hpast) Er.
  destruct (prefix_copy_bytes afi zero_prefix p zero_prefix_ok Hw Hf) as (q & E & Hq & Ef & El & Eu).
  assert (Hl128 : prefixlen p <= 128) by (destruct afi; simpl in Hl; unfold IPV4_MAX_BITLEN, IPV6_MAX_BITLEN in Hl; lia).
  rewrite Er. unfold kept_prefix in Er |- *. rewrite E in Er |- *. split_and!; [done|done|unfold rlen; rewrite Er; lia| |].
  - unfold fits. rewrite Ef, El, Hf. destruct afi; simpl in *; (eexists; split; [done|]);
      unfold IPV4_MAX_BITLEN, IPV6_MAX_BITLEN, IPV4_MAX_BYTELEN, IPV6_MAX_BYTELEN in *; lia.
  - assert (Erl : rlen r = prefixlen p) by (unfold rlen; by rewrite Er). pose proof (last_byte_lt afi p Hw Hl) as Hlt.
    destruct (pw_len _ Hw) as [H0 _]. pose proof (last_byte_bounds p H0) as Hb.
    assert (Elvl : lvl D (rlen r) = last_byte p).
    { rewrite Erl. unfold lvl, last_byte in *. pose proof (Z.div_mod (prefixlen p - 1) 8 ltac:(done)).
      pose proof (Z.mod_pos_bound (prefixlen p - 1) 8 ltac:(done)). lia. }
    unfold past_end, width, vbits, rbyte. rewrite Elvl, Erl.
    replace (nth (last_byte p) (rbytes r) 0) with x.
    + replace (8 - (prefixlen p - 8 * Z.of_nat (last_byte p))) with (8 * (Z.of_nat (last_byte p) + 1) - prefixlen p) by lia. lia.
    + symmetry. apply nth_lookup_Some. unfold rbytes. rewrite Er, <- (lookup_take_lt (u q) (afi_bytes afi)), Eu, lookup_take_lt by done. done.
Qed.

(** ** Masks *)
Lemma byte_low_bits x s :
  is_byte x -> (s <= 8)%nat -> drop s (bits8 x) = replicate (8 - s) false -> x mod 2 ^ (8 - Z.of_nat s) = 0.
Proof.
  intros Hx Hs Hd.
  pose proof (forall_bytes (fun x => forallb (fun s => negb (bool_decide (drop s (bits8 x) = replicate (8 - s) false)) ||
    (x mod 2 ^ (8 - Z.of_nat s) =? 0)) (seq 0 9)) ltac:(vm_cast_no_check (eq_refl true)) x Hx) as H.
  rewrite forallb_forall in H. specialize (H s ltac:(apply in_seq; lia)). rewrite bool_decide_true in H by done. by apply Z.eqb_eq.
Qed.

Lemma masked_no_host_bits p : prefix_wf p -> 0 < prefixlen p -> masked p -> no_host_bits p.
Proof.
  intros Hw Hl [k Hk] x Hx. pose proof (last_byte_bounds p ltac:(lia)) as Hb. set (i := last_byte p) in *.
  assert (Hi : (Z.to_nat ((prefixlen p + 7) / 8) = S i)%nat).
  { unfold i, last_byte in *. replace (prefixlen p + 7) with (prefixlen p - 1 + 1 * 8) by lia. rewrite Z.div_add by done.
    pose proof (Z.div_pos (prefixlen p - 1) 8). lia. }
  assert (Hs : (0 < Z.to_nat (prefixlen p) - 8 * i <= 8)%nat).
  { unfold i, last_byte in *. pose proof (Z.div_pos (prefixlen p - 1) 8). pose proof (Z.div_mod (prefixlen p - 1) 8 ltac:(done)).
    pose proof (Z.mod_pos_bound (prefixlen p - 1) 8 ltac:(done)). lia. }
  set (s := (Z.to_nat (prefixlen p) - 8 * i)%nat) in *. pose proof (proj1 (Forall_lookup _ _) (pw_bytes _ Hw) _ _ Hx) as Hxb.
  rewrite Hi in Hk. unfold net in Hk. replace (Z.to_nat (prefixlen p)) with (8 * i + s)%nat in Hk by lia.
  replace (8 * S i)%nat with (8 * i + 8)%nat in Hk by lia. rewrite !(take_abits _ _ _ x) in Hk by (done || lia).
  rewrite <- app_assoc in Hk. apply app_inv_head in Hk. rewrite take_ge in Hk by (rewrite length_bits8; lia).
  assert (Hd : drop s (bits8 x) = replicate k false).
  { rewrite Hk, drop_app_length'; [done|]. rewrite length_take, length_bits8. lia. }
  assert (Ek : k = (8 - s)%nat) by (apply (f_equal length) in Hd; rewrite length_drop, length_bits8, length_replicate in Hd; lia).
  replace (8 * (Z.of_nat i + 1) - prefixlen p) with (8 - Z.of_nat s) by lia. apply byte_low_bits; [done|lia|]. by rewrite Hd, Ek.
Qed.

Lemma zero_no_host_bits p : prefixlen p = 0 -> (forall x, u p !! 0%nat = Some x -> x = 0) -> no_host_bits p.
Proof. intros Hl H x Hx. unfold last_byte in Hx. rewrite Hl in Hx. change (Z.to_nat ((0 - 1) / 8)) with 0%nat in Hx. by rewrite (H x Hx). Qed.

Definition mask_of (afi : afi_t) (p : prefix) : res prefix :=
  match afi with AFI_IP => apply_mask_ipv4 p | _ => apply_mask_ipv6 p end.

Lemma zero_mask afi p p' : prefix_wf p -> prefixlen p = 0 -> mask_of afi p = Ret p' -> forall x, u p' !! 0%nat = Some x -> x = 0.
Proof.
  intros Hp Hl H. pose proof (pw_size p Hp) as Hs. destruct (u p) as [|b0 [|b1 [|b2 [|b3 bs]]]] eqn:Eu; try (simpl in Hs; lia).
  assert (Hv4 : apply_mask_ipv4 p = Ret p' -> forall x, u p' !! 0%nat = Some x -> x = 0).
  { unfold apply_mask_ipv4. rewrite Hl, Eu. change (masklen2ip 0) with (Ret [0; 0; 0; 0]). cbn [mbind res_bind].
    rewrite read_bytes_take by (simpl; unfold IPV4_MAX_BYTELEN; lia). cbn [mbind res_bind].
    change (Z.to_nat IPV4_MAX_BYTELEN) with 4%nat. cbn [take zip_with]. rewrite write_bytes_0 by (simpl; lia). cbn [mbind res_bind].
    intros [= <-] x [= <-]. apply Z.land_0_r. }
  assert (Hv6 : apply_mask_ipv6 p = Ret p' -> forall x, u p' !! 0%nat = Some x -> x = 0).
  { unfold apply_mask_ipv6. rewrite Hl, Eu. change (0 / 8) with 0. change (0 mod 8) with 0. change (0 <? 16) with true. cbv iota zeta.
    change (byte (b0 :: b1 :: b2 :: b3 :: bs) 0) with (Ret b0). cbn [mbind res_bind].
    change (maskbit 0) with (Ret 0). cbn [mbind res_bind].
    rewrite write_bytes_0 by (simpl; lia). cbn [mbind res_bind].
    change (0 + 1) with (Z.of_nat 1). rewrite zero_bytes_eq; [|simpl in *; lia]. cbn [mbind res_bind].
    intros [= <-] x [= <-]. apply Z.land_0_r. }
  destruct afi; [by apply Hv4|by apply Hv6|by apply Hv6].
Qed.

Lemma mask_of_ok afi p :
  prefix_wf p -> p_family p = afi_family afi -> prefixlen p <= afi_bitlen afi ->
  exists p', mask_of afi p = Ret p' /\ rule_prefix afi p' /\ prefixlen p' = prefixlen p /\ net p' = net p.
Proof.
  intros Hp Hf Hl.
  assert (Hm : exists p', mask_of afi p = Ret p' /\ prefix_wf p' /\ p_family p' = p_family p /\
    prefixlen p' = prefixlen p /\ net p' = net p /\ masked p').
  { destruct afi; simpl in *; [by apply apply_mask_ipv4_eq|by apply apply_mask_ipv6_eq|by apply apply_mask_ipv6_eq]. }
  destruct Hm as (p' & E & Hp' & Ef & El & En & Hm). exists p'. split_and!; try done. split; [done|congruence|congruence|].
  destruct (pw_len _ Hp') as [Hl0 _]. destruct (decide (prefixlen p' = 0)) as [E0|E0].
  - apply zero_no_host_bits; [done|]. eapply zero_mask; [exact Hp|congruence|exact E].
  - apply masked_no_host_bits; [done|lia|done].
Qed.

(** ** Texts *)
Section text.
Context (inet_pton : family -> list Z -> option (list Z)) (uninit : prefix).

(** What the C library promises: 4 or 16 bytes *)
Definition pton_spec : Prop := forall afi s bs,
  inet_pton (afi_family afi) s = Some bs -> length bs = afi_bytes afi /\ Forall is_byte bs.
Context (Hpton : pton_spec) (Huninit : prefix_wf uninit).

Lemma str2prefix_af_ok afi s :
  exists r, str2prefix_af inet_pton (afi_family afi) (afi_bitlen afi) s uninit = Ret r /\
    forall p, r = Some p -> prefix_wf p /\ p_family p = afi_family afi /\ prefixlen p <= afi_bitlen afi.
Proof.
  destruct Huninit as [Hub Hus _].
  assert (Hnew : forall s' bs len, inet_pton (afi_family afi) s' = Some bs -> 0 <= len <= afi_bitlen afi ->
    exists bs', write_bytes (u uninit) 0 bs = Ret bs' /\ prefix_wf (Prefix (afi_family afi) len bs')).
  { intros s' bs len E Hlen. destruct (Hpton _ _ _ E) as [El Hb]. assert (Hn : (afi_bytes afi <= 16)%nat) by (destruct afi; simpl; lia).
    rewrite write_bytes_0 by lia. eexists. split; [done|]. split; cbn [u prefixlen].
    - apply Forall_app. split; [done|by apply Forall_drop].
    - rewrite length_app, length_drop. lia.
    - assert (afi_bitlen afi <= 128) by (destruct afi; by vm_compute). lia. }
  unfold str2prefix_af. destruct (strchr s 47) as [[cp pnt]|]; cycle 1.
  - destruct (inet_pton _ s) as [bs|] eqn:E; [|by exists None]. assert (0 <= afi_bitlen afi) by by destruct afi.
    destruct (Hnew s bs (afi_bitlen afi) E ltac:(lia)) as (bs' & -> & Hw). cbn [mbind res_bind].
    eexists. split; [done|]. intros p [= <-]. split; [done|]. split; [done|]. simpl. lia.
  - destruct (inet_pton _ cp) as [bs|] eqn:E; [|by exists None].
    assert (Hu8 : 0 <= u8 (atoi pnt)) by (unfold wrap; apply Z.mod_pos_bound; lia).
    destruct (Z.ltb_spec (afi_bitlen afi) (u8 (atoi pnt))).
    + assert (0 <= afi_bitlen afi) by by destruct afi. destruct (Hnew cp bs 0 E ltac:(lia)) as (bs' & -> & _). by exists None.
    + destruct (Hnew cp bs (u8 (atoi pnt)) E ltac:(lia)) as (bs' & -> & Hw). cbn [mbind res_bind].
      eexists. split; [done|]. by intros p [= <-].
Qed.

Lemma parse_prefix_ok afi s ge le :
  exists r, parse_prefix inet_pton uninit afi s ge le = Ret r /\
    forall p ge' le' any, r = Some (p, ge', le', any) ->
      prefix_wf p /\ p_family p = afi_family afi /\ prefixlen p <= afi_bitlen afi.
Proof.
  assert (Hcase : forall text (f : option prefix -> option (prefix * Z * Z * Z)),
    (forall p x, f p = Some x -> p = Some x.1.1.1) ->
    exists r, (p ← str2prefix_af inet_pton (afi_family afi) (afi_bitlen afi) text uninit; Ret (f p)) = Ret r /\
      forall p ge' le' any, r = Some (p, ge', le', any) ->
        prefix_wf p /\ p_family p = afi_family afi /\ prefixlen p <= afi_bitlen afi).
  { intros text f Hf. destruct (str2prefix_af_ok afi text) as (r & -> & Hr). cbn [mbind res_bind].
    eexists. split; [done|]. intros p ge' le' any Hp. apply Hr. by apply (Hf r (p, ge', le', any)). }
  unfold parse_prefix. destruct afi; [| |by exists None]; destruct (is_any s); apply Hcase; by intros [p|] x [= <-].
Qed.

Lemma mask_prefix_ok afi p :
  prefix_wf p -> p_family p = afi_family afi -> prefixlen p <= afi_bitlen afi ->
  exists p', mask_prefix uninit afi p = Ret p' /\ rule_prefix afi p'.
Proof.
  intros Hp Hf Hl. destruct (prefix_copy_bytes afi uninit p Huninit Hp Hf) as (q & E & Hq & Ef & El & Eu).
  destruct (mask_of_ok afi q Hq ltac:(congruence) ltac:(lia)) as (t & Et & Ht & Elt & _).
  unfold mask_prefix. rewrite E. cbn [mbind res_bind]. unfold mask_of in Et. rewrite Et. cbn [mbind res_bind].
  destruct (samep_spec t p (rp_wf _ _ Ht) Hp) as [Es Hs]. rewrite Es. cbn [mbind res_bind].
  destruct (samep t p) eqn:Esame; [|by eexists]. eexists. split; [done|]. destruct (Hs eq_refl) as (Elp & n & En & Etake).
  rewrite (rp_family _ _ Ht), afi_copied in En. injection En as <-. rewrite Nat2Z.id in Etake.
  apply (rule_prefix_same afi t); [done|done| |done|done]. by rewrite (rp_family _ _ Ht).
Qed.
End text.
