(* ===== verification/PlistSteps.v ===== *)
(** * The commands do what the specification says

    For one master at a time: each rule takes [master_at] with the lists [s] to
    [master_at] with lists whose policies, answer and notices are those of the
    specification. *)

From stdpp Require Import sorting.
From iris.proofmode Require Import proofmode.
From S2P Require Import Prelude SepLogic FrrPrefix FrrPrefixBits Heap Own Plist PlistVty PlistChain.
From S2P Require Import PlistSlot PlistTrie PlistApply PlistList PlistOps PlistQuery PlistBody PlistMaster PlistWorld.
From S2P Require Import PlistSpec PlistText.

#[local] Open Scope Z_scope.

(** Notices of events *)
Lemma hook_notices hook a : notice_of <$> hook_events hook a = hook_notice hook.
Proof. unfold hook_events, hook_notice. by destruct (hook =? 0). Qed.
Lemma deleted_notices cfg n : notice_of <$> deleted_events cfg n = deleted_notice cfg (nd_name n).
Proof. unfold deleted_events, deleted_notice. by rewrite fmap_cons hook_notices. Qed.
Lemma added_notices cfg n : notice_of <$> entry_added_events cfg n = added_notice cfg (nd_name n).
Proof. unfold entry_added_events, added_notice. by rewrite fmap_app hook_notices. Qed.

Lemma bare_unless n : unless_bare (abs_node n) = if bare n then None else Some (abs_node n).
Proof.
  unfold unless_bare, bare, abs_node. simpl. destruct (nd_es n) as [|x es]; simpl; [|by destruct (nd_desc n)].
  by destruct (nd_desc n).
Qed.

(** Room for one rule more *)
Definition room (name : list Z) (ps : policies) : Prop :=
  forall x, locate_policy name ps = Some x -> Z.of_nat (length (po_rules x)) + 1 < 2 ^ 31.
(** The digits at the start of the name are those of a [long]. *)
Definition name_ok (name : list Z) : bool := match name_number name with Ret _ => true | _ => false end.

Lemma name_ok_ret name : name_ok name = true -> exists r, name_number name = Ret r.
Proof. unfold name_ok. destruct (name_number name); try done. eauto. Qed.

Section refine.
Context (D : nat) (HD : (1 <= D)%nat) (place : pmem -> Z -> Z) `{!Placement place}.

(** ** The list with a name *)
Lemma wp_get_located afi orf name cfg s (Q : Z -> hP) :
  prefix_master_get afi orf <> 0 -> name_ok name = true ->
  master_at D (prefix_master_get afi orf) cfg s -∗
  (∀ s1 t l1 n l2, ⌜locate nd_name name s1 = Some (t, l1, n, l2) /\ abs_names s1 = get_policy name (abs_names s) /\ nd_at n <> 0⌝ →
     master_at D (prefix_master_get afi orf) cfg s1 -∗ Q (nd_at n)) -∗
  wp (prefix_list_get place afi orf name) Q.
Proof.
  intros Hma [r Hr]%name_ok_ret. iIntros "H HQ". iApply (wp_list_get D HD place with "H"); [done..|].
  iIntros (a [Ha0 Ea]) "H". pose proof (get_policy_abs name a s) as Eabs. unfold with_list in *.
  destruct (locate nd_name name s) as [[[[t l1] n] l2]|] eqn:Eloc.
  - simpl in Ea. rewrite Ea. iApply ("HQ" $! s t l1 n l2 with "[%] H"). split_and!; [done|done|congruence].
  - destruct (locate_inserted nd_name (Node a name None []) s Eloc) as (t & l1 & l2 & E1 & _).
    iApply ("HQ" $! _ t l1 (Node a name None []) l2 with "[%] H"). by split_and!.
Qed.

(** ** A rule comes *)
Definition add_rule_code (p : prefix) (type : prefix_list_type) (seq le ge any : Z) (plist : Z) (dup : Z) : M world Z :=
  pentry ← on_mem (prefix_list_entry_make place p type seq le ge any);
  d ← on_mem (prefix_entry_dup_check plist pentry);
  if negb (d =? 0) then on_mem (prefix_list_entry_free pentry) ;; mret dup
  else prefix_list_entry_add place plist pentry ;; mret CMD_SUCCESS.

(** [sp_add], once the policy is there *)
Lemma sp_add_get cfg name r dup ps x :
  locate_policy name (get_policy name ps) = Some x ->
  sp_add cfg name r dup ps =
    if known r (po_rules x) then (get_policy name ps, dup, [])
    else (change_policy name (fun x => Some (with_rules (insert_rule (give_number (po_rules x) r) (po_rules x)) x)) (get_policy name ps),
          CMD_SUCCESS, added_notice cfg name).
Proof. intros E. unfold sp_add. by rewrite E. Qed.

Lemma wpw_add_rule ma afi name cfg s0 s t l1 n l2 p type seq le ge any dup lg (Q : Z -> list event -> hP) :
  locate nd_name name s = Some (t, l1, n, l2) -> abs_names s = get_policy name (abs_names s0) ->
  rule_prefix afi p -> seq = -1 \/ 0 <= seq <= UINT_MAX -> room name (get_policy name (abs_names s0)) ->
  master_at D ma cfg s -∗
  (∀ s' c lg', ⌜sp_add cfg name (made_rule (kept_prefix p) type seq le ge any) dup (abs_names s0) = (abs_names s', c, notice_of <$> lg')⌝ →
     master_at D ma cfg s' -∗ Q c (lg ++ lg')) -∗
  wpw (add_rule_code p type seq le ge any (nd_at n) dup) lg Q.
Proof.
  intros Eloc Eabs Hp Hseq Hroom. destruct (kept_prefix_ok _ _ Hp) as [Ecopy Hq]. set (r := made_rule _ _ _ _ _ _).
  destruct (rule_prefix_ok D afi r HD Hq) as [Hok Hfits]. destruct (locate_split nd_name _ _ _ _ _ _ Eloc) as [Esel Enm].
  assert (Epol : locate_policy name (get_policy name (abs_names s0)) = Some (abs_node n)) by by rewrite -Eabs locate_policy_abs Eloc.
  rewrite (sp_add_get _ _ _ _ _ _ Epol). specialize (Hroom _ Epol). cbn [po_rules abs_node] in Hroom |- *. rewrite length_fmap in Hroom.
  iIntros "H HQ". iApply wpw_bind. iApply wpw_on_mem. iApply (wp_entry_make place p); [exact Ecopy|].
  iIntros (o e (He & Hnb)) "Ho". fold r in He. iApply wpw_bind. iApply wpw_on_mem.
  rewrite {1}(master_access _ _ _ _ _ _ _ _ Esel). iDestruct "H" as "(%m & %l & (%Hdep & %Ha & %Hd & %Hl) & Hm & Hb & Hclose)".
  assert (Epr : e_prefix e = r_prefix r) by by rewrite -He.
  iApply (wp_dup_check D HD with "Hb Hm Ho"); [done|rewrite Epr; apply Hok|rewrite Epr; apply Hok|by rewrite Epr|].
  iIntros (b Hdup) "Hb Hm Ho". rewrite He known_dup in Hdup.
  iDestruct ("Hclose" $! m l n with "[%] Hm Hb") as "H"; [by split; [apply same_lists_refl|]|]. rewrite -Esel put_sel.
  rewrite Hdup negb_involutive. destruct (known r (nd_es n).*2).
  - iApply wpw_bind. iApply wpw_on_mem. iApply (wp_free with "Ho"). iApply wpw_ret.
    iDestruct ("HQ" $! s dup [] with "[%] H") as "HQ"; [by rewrite Eabs|]. by rewrite app_nil_r.
  - iApply wpw_bind. assert (Eseq : e_seq e = seq) by (change (e_seq e) with (r_seq (rule_of e)); by rewrite He).
    iApply (wpw_entry_add D HD place ma cfg s t l1 n l2 o e with "H Ho"); [done|by rewrite He|done|by rewrite Eseq|lia|].
    iIntros "H". iApply wpw_ret. iApply ("HQ" with "[%] H"). rewrite added_notices Enm. f_equal. f_equal.
    rewrite -Eabs. eapply (change_policy_abs _ _ _ t l1 n l2 [_]); [done|]. simpl. unfold with_rules, abs_node. cbn [nd_name nd_desc nd_es set_es po_name po_desc po_rules].
    rewrite insert_entry_rules numbered_rules He. done.
Qed.

(** ** A rule comes whose walk goes past the end of a table *)
Lemma wpw_add_rule_past ma afi name cfg s t l1 n l2 p type seq le ge any dup lg :
  locate nd_name name s = Some (t, l1, n, l2) -> afi_prefix afi p -> walks_past D p ->
  known (made_rule (kept_prefix p) type seq le ge any) (nd_es n).*2 = false ->
  master_at D ma cfg s ⊢ wpw_fault (add_rule_code p type seq le ge any (nd_at n) dup) lg.
Proof.
  intros Eloc Hp Hpast Hknown. set (r := made_rule _ _ _ _ _ _) in *.
  destruct (kept_past D afi p r HD Hp Hpast eq_refl) as (Ecopy & Hw & Hlen & Hfits & Hend).
  destruct (locate_split nd_name _ _ _ _ _ _ Eloc) as [Esel Enm].
  iIntros "H". iApply wpw_fault_after. iApply wpw_on_mem. iApply (wp_entry_make place p); [exact Ecopy|].
  iIntros (o e (He & Hnb)) "Ho". fold r in He. iApply wpw_fault_after. iApply wpw_on_mem.
  rewrite {1}(master_access _ _ _ _ _ _ _ _ Esel). iDestruct "H" as "(%m & %l & (%Hdep & %Ha & %Hd & %Hl) & Hm & Hb & Hclose)".
  assert (Epr : e_prefix e = r_prefix r) by by rewrite -He.
  iApply (wp_dup_check D HD with "Hb Hm Ho"); [done|by rewrite Epr|by rewrite Epr|by rewrite Epr|].
  iIntros (b Hdup) "Hb Hm Ho". rewrite He known_dup Hknown in Hdup. rewrite Hdup. cbn [negb].
  iClear "Hclose". iApply wpw_fault_first. iApply wpw_fault_first. iApply wpw_fault_on_mem.
  iApply (entry_insert_past D HD place with "[$Hb $Hm $Ho]"); [done|done|by rewrite Epr|by rewrite Epr|by rewrite He].
Qed.

(** ** A rule goes *)
Lemma body_entries ma a l es : body D ma a l es ⊢@{hP} ⌜Forall (fun x : Z * rule => x.1 <> 0) es⌝.
Proof.
  constructor. intros h (_ & _ & Hb). specialize (Hb (empty_master D) eq_refl). simpl.
  apply Forall_forall. intros [b r] Hin. by apply (pk_entry _ _ _ _ _ _ _ Hb) in Hin as [? _].
Qed.

Definition remove_found_code (c : M pmem Z) (plist : Z) : M world Z :=
  pentry ← on_mem c;
  if pentry =? 0 then mret CMD_WARNING_CONFIG_FAILED
  else prefix_list_entry_delete plist pentry true ;; mret CMD_SUCCESS.

Lemma wpw_remove_found ma name cfg s t l1 n l2 f c lg (Q : Z -> list event -> hP) :
  locate nd_name name s = Some (t, l1, n, l2) ->
  (forall l m (R : Z -> hP), trie_depth m = D ->
     body D ma (nd_at n) l (nd_es n) -∗ ma ↦ OMaster m -∗
     (∀ l', ⌜same_list l l'⌝ → body D ma (nd_at n) l' (nd_es n) -∗ ma ↦ OMaster m -∗ R (first_with f (nd_es n))) -∗ wp c R) ->
  master_at D ma cfg s -∗
  (∀ s' a lg', ⌜sp_remove cfg name f (abs_names s) = (abs_names s', a, notice_of <$> lg')⌝ →
     master_at D ma cfg s' -∗ Q a (lg ++ lg')) -∗
  wpw (remove_found_code c (nd_at n)) lg Q.
Proof.
  intros Eloc Hc. destruct (locate_split nd_name _ _ _ _ _ _ Eloc) as [Esel Enm]. iIntros "H HQ".
  iApply wpw_bind. iApply wpw_on_mem. iAssert ⌜Forall (fun x : Z * rule => x.1 <> 0) (nd_es n)⌝%I as %Hnz.
  { rewrite (master_access _ _ _ _ _ _ _ _ Esel). iDestruct "H" as "(%m & %l & _ & Hm & Hb & _)".
    by iDestruct (body_entries with "Hb") as %?. }
  iApply (wp_on_list D c _ _ _ _ _ _ _ _ _ Esel Hc with "H"). iIntros "H".
  unfold sp_remove. rewrite locate_policy_abs Eloc. cbn [po_rules abs_node].
  pose proof (remove_first f (nd_es n) Hnz) as Hrem. destruct (remove_rule f (nd_es n).*2) as [rs|].
  - destruct Hrem as (es1 & x & es2 & Ees & -> & Hx & ->). destruct (Z.eqb_spec x.1 0); [done|]. iApply wpw_bind.
    iApply (wpw_entry_delete D HD with "H"); [exact Esel|exact Ees|done|]. iIntros "H". iApply wpw_ret.
    iApply ("HQ" with "[%] H"). set (n' := set_es (es1 ++ es2) n).
    assert (En' : with_rules (es1 ++ es2).*2 (abs_node n) = abs_node n') by done.
    rewrite En' bare_unless. unfold entry_deleted_events, keep_list. rewrite (fmap_app notice_of) deleted_notices. change (nd_name n') with (nd_name n).
    rewrite Enm. f_equal; [f_equal|].
    + eapply change_policy_abs; [done|]. rewrite En' bare_unless. by destruct (bare n').
    + destruct (bare n'); [|done]. by rewrite deleted_notices /= Enm.
  - rewrite Hrem. iApply wpw_ret. iDestruct ("HQ" $! s _ [] with "[//] H") as "HQ". by rewrite app_nil_r.
Qed.

(** ** A list goes *)
Lemma wpw_forget ma name cfg s t l1 n l2 lg (Q : unit -> list event -> hP) :
  locate nd_name name s = Some (t, l1, n, l2) ->
  master_at D ma cfg s -∗
  (∀ s' lg', ⌜sp_forget cfg name (abs_names s) = (abs_names s', notice_of <$> lg')⌝ →
     master_at D ma cfg s' -∗ Q tt (lg ++ lg')) -∗
  wpw (prefix_list_delete (nd_at n)) lg Q.
Proof.
  intros Eloc. destruct (locate_split nd_name _ _ _ _ _ _ Eloc) as [Esel Enm]. iIntros "H HQ".
  iApply (wpw_list_delete D HD with "H"); [exact Esel|]. iIntros "H". iApply ("HQ" with "[%] H").
  unfold sp_forget. rewrite locate_policy_abs Eloc deleted_notices Enm. f_equal. by eapply (change_policy_abs _ _ _ _ _ _ _ []).
Qed.
End refine.

(** ** Every command and call is a step of the specification

    [do_op] is what the program runs for an operation, [all_at st] the memory
    of the four masters.  [step_refines] is the simulation: an operation in
    memory does what [sp_step] says. *)

(** ** Programs of the operations *)
Section programs.
Context (place : pmem -> Z -> Z) (inet_pton : family -> list Z -> option (list Z)) (uninit : prefix).

Definition code (m : M world Z) : M world answer := c ← m; mret (Code c).

(** A client that applies a list looks it up by its name first. *)
Definition do_op (op : plist_op) : M world answer :=
  match op with
  | OpInstall afi name seq typestr text ge le =>
      code (vty_prefix_list_install place inet_pton uninit afi name seq typestr text ge le)
  | OpUninstall afi name seq typestr text ge le =>
      code (vty_prefix_list_uninstall inet_pton uninit afi name seq typestr text ge le)
  | OpDescription afi name desc => code (prefix_list_description place afi name desc)
  | OpNoDescription afi name => code (vty_prefix_list_desc_unset afi name)
  | OpSequenceNumber afi no => code (prefix_list_sequence_number afi no)
  | OpOrfSet name afi orfp permit set => code (prefix_bgp_orf_set place name afi orfp permit set)
  | OpOrfRemoveAll afi name => prefix_bgp_orf_remove_all afi name ;; mret Done
  | OpApply afi orf name p =>
      plist ← on_mem (prefix_list_lookup_do afi orf name);
      t ← on_mem (prefix_list_apply plist p);
      mret (Verdict t)
  | OpHooks add delete => on_mem (prefix_list_add_hook add ;; prefix_list_delete_hook delete) ;; mret Done
  | OpReset => prefix_list_reset ;; mret Done
  end.

Fixpoint do_ops (ops : list plist_op) : M world (list answer) :=
  match ops with
  | [] => mret []
  | op :: ops => a ← do_op op; answers ← do_ops ops; mret (a :: answers)
  end.
End programs.

(** ** Which operations are covered *)
Definition ip_afi (afi : afi_t) : Prop := afi <> AFI_L2VPN.
Definition number_ok (seq : Z) : Prop := seq = -1 \/ 0 <= seq <= UINT_MAX.

Definition op_ok (op : plist_op) (st : sp_state) : Prop :=
  match op with
  | OpInstall afi name seq typestr text ge le =>
      ip_afi afi /\ name_ok name = true /\ number_ok (number_of seq) /\
      room name (get_policy name (master_of afi false st).2)
  | OpUninstall afi name seq typestr text ge le => ip_afi afi
  | OpDescription afi name desc => ip_afi afi /\ name_ok name = true
  | OpNoDescription afi name => ip_afi afi
  | OpSequenceNumber afi no => ip_afi afi
  | OpOrfSet name afi o permit set =>
      ip_afi afi /\ name_ok name = true /\ 0 <= orf_seq o <= UINT_MAX /\ rule_prefix afi (orf_p o) /\
      room name (get_policy name (master_of afi true st).2)
  | OpOrfRemoveAll afi name => ip_afi afi
  | OpApply afi orf name p => ip_afi afi /\ prefix_wf p
  | OpHooks _ _ => True
  | OpReset => True
  end.

(** ** The commands *)
Definition meets (D : nat) (ma : Z) (c : M world Z) (f : config -> policies -> policies * Z * list notice)
    (cfg : config) (s : names node) : Prop :=
  forall lg (Q : Z -> list event -> hP),
    master_at D ma cfg s ⊢
    (∀ s' a lg', ⌜f cfg (abs_names s) = (abs_names s', a, notice_of <$> lg')⌝ →
       master_at D ma cfg s' -∗ Q a (lg ++ lg')) -∗
    wpw c lg Q.

Definition afi_depth (afi : afi_t) : nat := match afi with AFI_IP => PLC_MAXLEVELV4 | _ => PLC_MAXLEVELV6 end.
Lemma afi_depth_pos afi : (1 <= afi_depth afi)%nat.
Proof. destruct afi; simpl; unfold PLC_MAXLEVELV4, PLC_MAXLEVELV6; lia. Qed.
Lemma master_get_nonnull afi orf : ip_afi afi -> prefix_master_get afi orf <> 0.
Proof. by destruct afi, orf. Qed.

(** Nothing changes. *)
Lemma wpw_refused D ma cfg s c lg (Q : Z -> list event -> hP) :
  master_at D ma cfg s ⊢
  (∀ s' a lg', ⌜(abs_names s, c, []) = (abs_names s', a, notice_of <$> lg')⌝ →
     master_at D ma cfg s' -∗ Q a (lg ++ lg')) -∗
  wpw (mret c) lg Q.
Proof.
  iIntros "H HQ". iApply wpw_ret. iDestruct ("HQ" $! s c [] with "[//] H") as "HQ". by rewrite app_nil_r.
Qed.

Lemma meets_ret D ma c (f : config -> policies -> policies * Z * list notice) cfg s :
  f cfg (abs_names s) = (abs_names s, c, []) -> meets D ma (mret c) f cfg s.
Proof. intros E lg Q. rewrite E. apply wpw_refused. Qed.

Section commands.
Context (place : pmem -> Z -> Z) `{!Placement place}.
Context (inet_pton : family -> list Z -> option (list Z)) (Hpton : pton_spec inet_pton).
Context (uninit : prefix) (Huninit : prefix_wf uninit).

Lemma bad_range_ifs {X} low len ge le (a b : X) :
  (if negb (ge =? 0) && (ge <=? len) then a
   else if negb (le =? 0) && (le <? low) then a
   else if negb (le =? 0) && (le <? ge) then a else b) =
  (if (negb (ge =? 0) && (ge <=? len)) || bad_range low ge le then a else b).
Proof. unfold bad_range. by destruct (negb (ge =? 0) && (ge <=? len)), (negb (le =? 0)), (le <? low), (le <? ge). Qed.

Lemma install_meets afi name seq typestr text ge le cfg s :
  ip_afi afi -> name_ok name = true -> number_ok (number_of seq) -> room name (get_policy name (abs_names s)) ->
  meets (afi_depth afi) (prefix_master_get afi false) (vty_prefix_list_install place inet_pton uninit afi name seq typestr text ge le)
    (fun cfg ps => match command_rule inet_pton uninit afi seq typestr text ge le with
                   | None => (ps, CMD_WARNING_CONFIG_FAILED, [])
                   | Some r => sp_add cfg name r CMD_SUCCESS ps
                   end) cfg s.
Proof.
  intros Hafi Hname Hseq Hroom. unfold vty_prefix_list_install, command_rule.
  destruct text as [text|]; [|by apply meets_ret]. destruct typestr as [typestr|]; [|by apply meets_ret].
  destruct (type_of typestr) as [type|]; [|by apply meets_ret].
  destruct (parse_prefix_ok inet_pton uninit Hpton Huninit afi text (length_of ge) (length_of le)) as (pr & Ep & Hpr).
  change (match ge with Some s => atoi s | None => 0 end) with (length_of ge).
  change (match le with Some s => atoi s | None => 0 end) with (length_of le). rewrite Ep.
  destruct pr as [[[[p g] e] any]|].
  2:{ intros lg Q. iIntros "H HQ". iApply wpw_bind. iApply (wpw_mlift _ None); [done|]. iApply (wpw_refused with "H HQ"). }
  destruct (Hpr _ _ _ _ eq_refl) as (Hw & Hf & Hl). destruct (mask_prefix_ok uninit Huninit afi p Hw Hf Hl) as (p' & Em & Hp').
  rewrite Em. intros lg Q. iIntros "H HQ". iApply wpw_bind. iApply (wpw_mlift _ (Some (p, g, e, any))); [done|].
  iApply wpw_bind. iApply (wpw_mlift _ p'); [done|]. rewrite (bad_range_ifs (prefixlen p')).
  destruct (_ || bad_range (prefixlen p') g e).
  { iApply (wpw_refused with "H HQ"). }
  iApply wpw_bind. iApply wpw_on_mem. iApply (wp_get_located _ (afi_depth_pos afi) place with "H"); [by apply master_get_nonnull|done|].
  iIntros (s1 t l1 n l2 (Eloc & Eabs & Hn0)) "H".
  iApply (wpw_add_rule (afi_depth afi) (afi_depth_pos afi) place _ afi name cfg s s1 t l1 n l2 p' type (number_of seq)
    (normal_le afi g e) g any CMD_SUCCESS with "H [HQ]"); [done..|].
  iExact "HQ".
Qed.

Lemma orf_set_meets name afi o permit set cfg s :
  ip_afi afi -> name_ok name = true -> 0 <= orf_seq o <= UINT_MAX -> rule_prefix afi (orf_p o) ->
  room name (get_policy name (abs_names s)) ->
  meets (afi_depth afi) (prefix_master_get afi true) (prefix_bgp_orf_set place name afi o permit set)
    (fun cfg => sp_orf_set cfg name afi o permit set) cfg s.
Proof.
  intros Hafi Hname Hseq Hp Hroom. unfold prefix_bgp_orf_set, sp_orf_set, orf_rule.
  assert (Ele : (orf_le o <=? prefixlen (orf_p o)) = (orf_le o <? prefixlen (orf_p o) + 1)) by lia.
  rewrite Ele (bad_range_ifs (prefixlen (orf_p o) + 1)). destruct (_ || bad_range _ _ _); [by apply meets_ret|].
  intros lg Q. iIntros "H HQ".
  iApply wpw_bind. iApply wpw_on_mem. iApply (wp_get_located _ (afi_depth_pos afi) place with "H"); [by apply master_get_nonnull|done|].
  iIntros (s1 t l1 n l2 (Eloc & Eabs & Hn0)) "H". destruct (Z.eqb_spec (nd_at n) 0); [done|]. destruct set.
  - iApply (wpw_add_rule (afi_depth afi) (afi_depth_pos afi) place _ afi name cfg s s1 t l1 n l2 (orf_p o) (permit_type permit)
      (orf_seq o) (normal_le afi (orf_ge o) (orf_le o)) (orf_ge o) 0 CMD_WARNING_CONFIG_FAILED with "H [HQ]"); [done|done|done|by right|done|].
    iExact "HQ".
  - iApply (wpw_remove_found (afi_depth afi) (afi_depth_pos afi) _ name cfg s1 t l1 n l2
      (entry_is_rule (orf_p o) (permit_type permit) (orf_seq o) (normal_le afi (orf_ge o) (orf_le o)) (orf_ge o)) with "H [HQ]"); [done| |].
    + intros l m R Hdep. apply (wp_entry_lookup _ (afi_depth_pos afi)); [done|apply Hp].
    + rewrite Eabs. iExact "HQ".
Qed.

Lemma orf_set_past name afi o permit r cfg s lg :
  ip_afi afi -> name_ok name = true -> afi_prefix afi (orf_p o) -> walks_past (afi_depth afi) (orf_p o) ->
  orf_rule afi o permit = Some r ->
  (forall x, locate_policy name (get_policy name (abs_names s)) = Some x -> known r (po_rules x) = false) ->
  master_at (afi_depth afi) (prefix_master_get afi true) cfg s ⊢ wpw_fault (prefix_bgp_orf_set place name afi o permit true) lg.
Proof.
  intros Hafi Hname Hp Hpast Hr Hknown. unfold prefix_bgp_orf_set. unfold orf_rule in Hr.
  assert (Ele : (orf_le o <=? prefixlen (orf_p o)) = (orf_le o <? prefixlen (orf_p o) + 1)) by lia.
  rewrite Ele (bad_range_ifs (prefixlen (orf_p o) + 1)). destruct (_ || bad_range _ _ _); [done|]. injection Hr as <-.
  iIntros "H". iApply wpw_fault_after. iApply wpw_on_mem.
  iApply (wp_get_located _ (afi_depth_pos afi) place with "H"); [by apply master_get_nonnull|done|].
  iIntros (s1 t l1 n l2 (Eloc & Eabs & Hn0)) "H". destruct (Z.eqb_spec (nd_at n) 0); [done|].
  iApply (wpw_add_rule_past (afi_depth afi) (afi_depth_pos afi) place _ afi name cfg s1 t l1 n l2 (orf_p o) (permit_type permit)
      (orf_seq o) (normal_le afi (orf_ge o) (orf_le o)) (orf_ge o) 0 CMD_WARNING_CONFIG_FAILED with "H"); [done..|].
  apply (Hknown (abs_node n)). by rewrite -Eabs locate_policy_abs Eloc.
Qed.

(** *** Removal *)
Lemma uninstall_meets afi name seq typestr text ge le cfg s :
  ip_afi afi ->
  meets (afi_depth afi) (prefix_master_get afi false) (vty_prefix_list_uninstall inet_pton uninit afi name seq typestr text ge le)
    (fun cfg => sp_uninstall inet_pton uninit cfg afi name seq typestr text ge le) cfg s.
Proof.
  intros Hafi lg Q. unfold vty_prefix_list_uninstall, sp_uninstall. iIntros "H HQ".
  iApply wpw_bind. iApply wpw_on_mem. iApply (wp_lookup_do _ (afi_depth_pos afi) with "H"); [by apply master_get_nonnull|].
  iIntros (Hfound) "H". rewrite locate_policy_abs. destruct (locate nd_name name s) as [[[[t l1] n] l2]|] eqn:Eloc.
  2:{ simpl. iApply (wpw_refused with "H HQ"). }
  cbn [found] in *. destruct (Z.eqb_spec (nd_at n) 0) as [E0|E0]; [by apply Hfound in E0|].
  assert (Hseq : forall sq, master_at (afi_depth afi) (prefix_master_get afi false) cfg s ⊢
    (∀ s' a lg', ⌜sp_remove cfg name (fun r => r_seq r =? atol sq) (abs_names s) = (abs_names s', a, notice_of <$> lg')⌝ →
       master_at (afi_depth afi) (prefix_master_get afi false) cfg s' -∗ Q a (lg ++ lg')) -∗
    wpw (remove_found_code (prefix_seq_check (nd_at n) (atol sq)) (nd_at n)) lg Q).
  { intros sq. iIntros "H HQ". iApply (wpw_remove_found _ (afi_depth_pos afi) _ name cfg s t l1 n l2 (fun r => r_seq r =? atol sq) with "H HQ"); [done|].
    intros l m R Hdep. by apply (wp_seq_check _ (afi_depth_pos afi)). }
  assert (Hpref : forall ty tx, master_at (afi_depth afi) (prefix_master_get afi false) cfg s ⊢
    (∀ s' a lg', ⌜match match type_of ty, parse_prefix inet_pton uninit afi tx (length_of ge) (length_of le) with
        | Some type, Ret (Some (p, ge, le, _)) => Some (entry_is_rule p type (number_of seq) le ge)
        | _, _ => None
        end with None => (abs_names s, CMD_WARNING_CONFIG_FAILED, []) | Some f => sp_remove cfg name f (abs_names s) end
        = (abs_names s', a, notice_of <$> lg')⌝ →
       master_at (afi_depth afi) (prefix_master_get afi false) cfg s' -∗ Q a (lg ++ lg')) -∗
    wpw (match type_of ty with
        | None => mret CMD_WARNING_CONFIG_FAILED
        | Some type =>
            parsed ← mlift (parse_prefix inet_pton uninit afi tx (length_of ge) (length_of le));
            match parsed with
            | None => mret CMD_WARNING_CONFIG_FAILED
            | Some (p, genum, lenum, _) =>
                remove_found_code (prefix_list_entry_lookup (nd_at n) p type (number_of seq) lenum genum) (nd_at n)
            end
        end) lg Q).
  { intros ty tx. destruct (type_of ty) as [type|]; [|apply wpw_refused].
    destruct (parse_prefix_ok inet_pton uninit Hpton Huninit afi tx (length_of ge) (length_of le)) as (pr & Ep & Hpr).
    rewrite Ep. iIntros "H HQ". iApply wpw_bind. iApply (wpw_mlift _ pr); [done|].
    destruct pr as [[[[p g] e] any]|]; [|by iApply (wpw_refused with "H HQ")]. destruct (Hpr _ _ _ _ eq_refl) as (Hw & _ & _).
    iApply (wpw_remove_found _ (afi_depth_pos afi) _ name cfg s t l1 n l2 (entry_is_rule p type (number_of seq) e g) with "H HQ"); [done|].
    intros l m R Hdep. by apply (wp_entry_lookup _ (afi_depth_pos afi)). }
  destruct seq as [sq|], typestr as [ty|], text as [tx|], ge as [g|], le as [e|];
    first [iApply (Hpref with "H HQ") | iApply (Hseq with "H HQ") | iApply (wpw_refused with "H HQ") | idtac].
  iApply wpw_bind. iApply (wpw_forget _ (afi_depth_pos afi) _ name with "H"); [done|]. iIntros (s' lg' Hsp) "H".
  iApply wpw_ret. iApply ("HQ" with "[%] H"). by rewrite Hsp.
Qed.

(** *** Descriptions *)
Lemma links_set_desc t p q n l d : links_ok t p q n l -> links_ok t p q (set_desc d n) (set_pl_desc d l).
Proof. by intros (? & ? & ? & ? & ?). Qed.

(** The list at hand gets another description. *)
Lemma wp_set_desc D ma cfg s t l1 n l2 d (Q : unit -> hP) :
  sel t s = l1 ++ n :: l2 ->
  master_at D ma cfg s -∗ (master_at D ma cfg (put t (l1 ++ set_desc d n :: l2) s) -∗ Q tt) -∗
  wp (update_list (nd_at n) (set_pl_desc d)) Q.
Proof.
  intros E. iIntros "H HQ". rewrite {1}(master_access _ _ _ _ _ _ _ _ E).
  iDestruct "H" as "(%m & %l & (%Hdep & %Ha & %Hd & %Hl) & Hm & Hb & Hclose)".
  iApply (wp_body_update with "Hb"); [done|]. iIntros "Hb". iApply "HQ".
  iApply ("Hclose" $! m _ (set_desc d n) with "[%] Hm Hb").
  split; [apply same_lists_refl|]. split; [done|]. by apply links_set_desc.
Qed.

Lemma description_meets afi name desc cfg s :
  ip_afi afi -> name_ok name = true ->
  meets (afi_depth afi) (prefix_master_get afi false) (prefix_list_description place afi name desc)
    (fun _ ps => (change_policy name (fun x => Some (with_desc (Some desc) x)) (get_policy name ps), CMD_SUCCESS, [])) cfg s.
Proof.
  intros Hafi Hname lg Q. iIntros "H HQ". unfold prefix_list_description. iApply wpw_bind. iApply wpw_on_mem.
  iApply (wp_get_located _ (afi_depth_pos afi) place with "H"); [by apply master_get_nonnull|done|].
  iIntros (s1 t l1 n l2 (Eloc & Eabs & Hn0)) "H". destruct (locate_split nd_name _ _ _ _ _ _ Eloc) as [Esel Enm].
  iApply wpw_bind. iApply wpw_on_mem. iApply (wp_set_desc with "H"); [exact Esel|]. iIntros "H".
  iApply wpw_bind. iApply wpw_on_mem. change (nd_at n) with (nd_at (set_desc None n)).
  iApply (wp_set_desc with "H"); [by apply sel_put|]. iIntros "H". rewrite put_put. iApply wpw_ret.
  iDestruct ("HQ" $! _ CMD_SUCCESS [] with "[%] H") as "HQ"; [|by rewrite app_nil_r].
  f_equal. f_equal. rewrite -Eabs. by eapply (change_policy_abs _ _ _ t l1 n l2 [_]).
Qed.

Lemma undescribe_meets afi name cfg s :
  ip_afi afi ->
  meets (afi_depth afi) (prefix_master_get afi false) (vty_prefix_list_desc_unset afi name)
    (fun cfg => sp_undescribe cfg name) cfg s.
Proof.
  intros Hafi lg Q. iIntros "H HQ". unfold vty_prefix_list_desc_unset, sp_undescribe. iApply wpw_bind. iApply wpw_on_mem.
  iApply (wp_lookup_do _ (afi_depth_pos afi) with "H"); [by apply master_get_nonnull|].
  iIntros (Hfound) "H". rewrite locate_policy_abs. destruct (locate nd_name name s) as [[[[t l1] n] l2]|] eqn:Eloc.
  2:{ simpl. iApply (wpw_refused with "H HQ"). }
  cbn [found] in *. destruct (Z.eqb_spec (nd_at n) 0) as [E0|E0]; [by apply Hfound in E0|].
  destruct (locate_split nd_name _ _ _ _ _ _ Eloc) as [Esel Enm].
  iApply wpw_bind. iApply wpw_on_mem. iApply (wp_set_desc with "H"); [exact Esel|]. iIntros "H". set (n' := set_desc None n).
  assert (Esel' : sel t (put t (l1 ++ n' :: l2) s) = l1 ++ n' :: l2) by apply sel_put.
  rewrite {1}(master_access _ _ _ _ _ _ _ _ Esel').
  iDestruct "H" as "(%m & %l & (%Hdep & %Ha & %Hd & %Hl) & Hm & Hb & Hclose)".
  iApply wpw_bind. iApply wpw_on_mem. change (nd_at n) with (nd_at n'). iApply (wp_body_load with "Hb"). iIntros "Hb".
  iDestruct (body_empty with "Hb") as %Eempty. pose proof Hl as (_ & _ & _ & Ed & _). rewrite Eempty Ed.
  change (bool_decide (nd_es n' = []) && bool_decide (nd_desc n' = None)) with (bare n').
  iDestruct ("Hclose" $! m l n' with "[%] Hm Hb") as "H"; [by split; [apply same_lists_refl|]|]. rewrite put_put.
  assert (En : with_desc None (abs_node n) = abs_node n') by done. rewrite En bare_unless.
  assert (Echange : change_policy name (fun x => unless_bare (with_desc None x)) (abs_names s) =
      abs_names (put t (l1 ++ keep_list n' ++ l2) s)).
  { eapply change_policy_abs; [done|]. rewrite En bare_unless /keep_list. by destruct (bare n'). }
  unfold keep_list in Echange. iApply wpw_bind. destruct (bare n'); cbn [mwhen].
  - iApply (wpw_list_delete _ (afi_depth_pos afi) with "H"); [exact Esel'|]. iIntros "H". rewrite put_put. iApply wpw_ret.
    iApply ("HQ" with "[%] H"). by rewrite Echange deleted_notices -Enm.
  - iApply wpw_ret. iApply wpw_ret. iDestruct ("HQ" $! _ CMD_SUCCESS [] with "[%] H") as "HQ"; [by rewrite Echange|].
    by rewrite app_nil_r.
Qed.

Lemma orf_remove_all_meets afi name cfg s lg (Q : unit -> list event -> hP) :
  ip_afi afi ->
  master_at (afi_depth afi) (prefix_master_get afi true) cfg s -∗
  (∀ s' lg', ⌜sp_forget cfg name (abs_names s) = (abs_names s', notice_of <$> lg')⌝ →
     master_at (afi_depth afi) (prefix_master_get afi true) cfg s' -∗ Q tt (lg ++ lg')) -∗
  wpw (prefix_bgp_orf_remove_all afi name) lg Q.
Proof.
  intros Hafi. iIntros "H HQ". unfold prefix_bgp_orf_remove_all. iApply wpw_bind. iApply wpw_on_mem.
  iApply (wp_lookup_do _ (afi_depth_pos afi) with "H"); [by apply master_get_nonnull|].
  iIntros (Hfound) "H". destruct (locate nd_name name s) as [[[[t l1] n] l2]|] eqn:Eloc; cbn [found] in *.
  - destruct (Z.eqb_spec (nd_at n) 0) as [E0|E0]; [by apply Hfound in E0|]. cbn [negb mwhen].
    by iApply (wpw_forget _ (afi_depth_pos afi) _ name with "H").
  - simpl. iApply wpw_ret. iDestruct ("HQ" $! s [] with "[%] H") as "HQ"; [|by rewrite app_nil_r].
    unfold sp_forget. by rewrite locate_policy_abs Eloc.
Qed.

Lemma apply_meets afi orf name p cfg s lg (Q : prefix_list_type -> list event -> hP) :
  ip_afi afi -> prefix_wf p ->
  master_at (afi_depth afi) (prefix_master_get afi orf) cfg s -∗
  (master_at (afi_depth afi) (prefix_master_get afi orf) cfg s -∗
     Q (match locate_policy name (abs_names s) with Some x => verdict (po_rules x) p | None => PREFIX_DENY end) lg) -∗
  wpw (plist ← on_mem (prefix_list_lookup_do afi orf name); on_mem (prefix_list_apply plist p)) lg Q.
Proof.
  intros Hafi Hp. iIntros "H HQ". iApply wpw_bind. iApply wpw_on_mem.
  iApply (wp_lookup_do _ (afi_depth_pos afi) with "H"); [by apply master_get_nonnull|].
  iIntros (Hfound) "H". rewrite locate_policy_abs. iApply wpw_on_mem.
  destruct (locate nd_name name s) as [[[[t l1] n] l2]|] eqn:Eloc; cbn [found] in *.
  - destruct (locate_split nd_name _ _ _ _ _ _ Eloc) as [Esel Enm].
    iApply (wp_on_list _ _ _ _ _ _ _ _ _ (verdict (nd_es n).*2 p) _ Esel with "H"); [|done].
    intros l m R Hdep. by apply (wp_apply _ (afi_depth_pos afi)).
  - iApply wp_bind. iApply wp_ret. iApply wp_ret. by iApply "HQ".
Qed.

(** *** The masters' own fields *)
Lemma wp_set_config D ma cfg cfg' s f (Q : unit -> hP) :
  (forall m, master_ok D cfg m s -> master_ok D cfg' (f m) s) ->
  master_at D ma cfg s -∗ (master_at D ma cfg' s -∗ Q tt) -∗ wp (update_master ma f) Q.
Proof.
  intros Hf. iIntros "(%m & %Hm & Hm & H) HQ". iApply (wp_update_master with "Hm"). iIntros "Hm". iApply "HQ".
  iExists (f m). iSplit; [iPureIntro; by apply Hf|]. iFrame.
Qed.
End commands.
