(* ===== verification/PlistReset.v ===== *)
(** * All masters, and the operations on them

    [prefix_list_reset] gives up every list; [all_at] is the memory of the four
    masters and [step_refines] the simulation of the specification. *)

From stdpp Require Import sorting.
From iris.proofmode Require Import proofmode.
From S2P Require Import Prelude SepLogic Heap Own FrrPrefix FrrPrefixBits.
From S2P Require Import Plist PlistVty PlistChain PlistSlot PlistApply PlistList PlistOps PlistQuery.
From S2P Require Import PlistBody PlistMaster PlistWorld PlistSpec PlistText PlistSteps.

#[local] Open Scope Z_scope.

(** Rules of [wpw] *)
Lemma wpw_mono {A} (m : M world A) lg (P Q : A -> list event -> hP) :
  (forall a lg', P a lg' ⊢ Q a lg') -> wpw m lg P ⊢ wpw m lg Q.
Proof.
  intros HPQ. constructor. intros h Hm hf Hd. destruct (Hm hf Hd) as (a & h' & lg' & E & Hd' & HP). exists a, h', lg'.
  split_and!; [done|done|]. by apply (hprop_entails_holds _ _ _ (HPQ a lg')).
Qed.

Lemma wpw_assoc {A B C} (m : M world A) (k : A -> M world B) (l : B -> M world C) lg (Q : C -> list event -> hP) :
  wpw ((a ← m; k a) ≫= l) lg Q ⊢ wpw (a ← m; b ← k a; l b) lg Q.
Proof.
  constructor. intros h Hm hf Hd. destruct (Hm hf Hd) as (a & h' & lg' & E & Hd' & HQ). exists a, h', lg'.
  split_and!; [|done|done]. by rewrite -bind_assoc.
Qed.

Section reset.
Context (D : nat) (HD : (1 <= D)%nat).

Definition all_deleted (cfg : config) (ns : list node) : list event := ns ≫= deleted_events cfg.

Lemma wpw_delete_lists ma cfg t fuel s lg (Q : unit -> list event -> hP) :
  (length (sel t s) < fuel)%nat ->
  master_at D ma cfg s -∗
  (master_at D ma cfg (put t [] s) -∗ Q tt (lg ++ all_deleted cfg (sel t s))) -∗
  wpw (delete_lists fuel (hd_or 0 (nd_at <$> sel t s))) lg Q.
Proof.
  revert s lg. induction fuel as [|fuel IH]; intros s lg Hf; [lia|]. iIntros "H HQ". cbn [delete_lists].
  destruct (sel t s) as [|n ns] eqn:Esel; cbn [fmap list_fmap hd_or].
  - iApply wpw_ret. rewrite app_nil_r. iApply "HQ". by rewrite -Esel put_sel.
  - iAssert ⌜nd_at n <> 0⌝%I as %Hn.
    { rewrite (master_access _ _ _ _ _ [] _ _ Esel). iDestruct "H" as "(%m & %l & _ & _ & Hb & _)".
      by iDestruct (body_fields with "Hb") as %[? _]. }
    destruct (Z.eqb_spec (nd_at n) 0); [done|]. rewrite {1}(master_access _ _ _ _ _ [] _ _ Esel).
    iDestruct "H" as "(%m & %l & (%Hdep & %Ha & %Hd & %Hl) & Hm & Hb & Hclose)".
    iApply wpw_bind. iApply wpw_on_mem. iApply (wp_body_load with "Hb"). iIntros "Hb".
    iDestruct ("Hclose" $! m l n with "[%] Hm Hb") as "H"; [by split; [apply same_lists_refl|]|].
    cbn [app]. rewrite -{2}Esel put_sel. iApply wpw_bind. iApply (wpw_list_delete D HD ma cfg s t [] n ns with "H"); [done|]. iIntros "H".
    pose proof Hl as (_ & -> & _). cbn [app]. rewrite -{3}(sel_put t ns s). iApply (IH with "H").
    { rewrite sel_put. simpl in Hf. lia. }
    rewrite put_put sel_put -app_assoc. iExact "HQ".
Qed.
End reset.

(** ** A master is reset. *)
Definition reset_config (cfg : config) : config := Config true (cf_add cfg) (cf_del cfg).

Lemma wpw_reset_afi afi orf cfg s lg (Q : unit -> list event -> hP) :
  ip_afi afi ->
  master_at (afi_depth afi) (prefix_master_get afi orf) cfg s -∗
  (master_at (afi_depth afi) (prefix_master_get afi orf) (reset_config cfg) (Names [] []) -∗
     Q tt (lg ++ all_deleted cfg (nm_num s ++ nm_str s))) -∗
  wpw (prefix_list_reset_afi afi orf) lg Q.
Proof.
  intros Hafi. pose proof (master_get_nonnull afi orf Hafi) as Hma. unfold prefix_list_reset_afi.
  set (ma := prefix_master_get afi orf) in *. destruct (Z.eqb_spec ma 0); [done|].
  assert (Hload : forall cfg s (lg : list event) (R : prefix_master -> list event -> hP),
    master_at (afi_depth afi) ma cfg s -∗
    (∀ m, ⌜master_ok (afi_depth afi) cfg m s⌝ → master_at (afi_depth afi) ma cfg s -∗ R m lg) -∗ wpw (on_mem (load_master ma)) lg R).
  { intros cfg' s' lg' R. iIntros "(%m & %Hm & Hm & H) HR". iApply wpw_on_mem. iApply (wp_load_master with "Hm"). iIntros "Hm".
    iApply ("HR" with "[//]"). iExists m. by iFrame. }
  iIntros "H HQ". iApply wpw_bind. iApply wpw_on_mem.
  iApply (wp_mem_fuel _ (length (nm_num s) + length (nm_str s)) with "H").
  { iIntros "(%m & %Hm & Hm & H1 & H2)". iDestruct (at_least_points_to with "Hm") as "Hm". iDestruct (dls_at_least with "H1") as "H1".
    iDestruct (dls_at_least with "H2") as "H2". iDestruct (at_least_sep with "[$H1 $H2]") as "H".
    iDestruct (at_least_sep with "[$Hm $H]") as "H". iApply (at_least_mono with "H"). lia. }
  iIntros (fuel Hfuel) "H". iApply wpw_bind. iApply (Hload with "H"). iIntros (m1 Hm1) "H".
  destruct (master_ok_heads _ _ _ _ PREFIX_TYPE_NUMBER Hm1) as [E1 _]. simpl in E1. rewrite E1. iApply wpw_bind.
  iApply (wpw_delete_lists _ (afi_depth_pos afi) ma cfg PREFIX_TYPE_NUMBER with "H"); [simpl; lia|]. iIntros "H". cbn [put sel].
  iApply wpw_bind. iApply (Hload with "H"). iIntros (m2 Hm2) "H".
  destruct (master_ok_heads _ _ _ _ PREFIX_TYPE_STRING Hm2) as [E2 _]. simpl in E2. rewrite E2. iApply wpw_bind.
  iApply (wpw_delete_lists _ (afi_depth_pos afi) ma cfg PREFIX_TYPE_STRING (S fuel) (Names [] (nm_str s)) with "H"); [simpl; lia|].
  iIntros "H". cbn [put sel nm_num nm_str]. iApply wpw_bind. iApply (Hload with "H"). iIntros (m3 Hm3) "H".
  destruct Hm3 as (_ & _ & _ & _ & [Ea Eb] & [Ec Ed]). simpl in Ea, Eb, Ec, Ed.
  iApply wpw_bind. iApply wpw_massert; [by rewrite Ea|]. iApply wpw_bind. iApply wpw_massert; [by rewrite Eb|].
  iApply wpw_bind. iApply wpw_massert; [by rewrite Ec|]. iApply wpw_bind. iApply wpw_massert; [by rewrite Ed|].
  iApply wpw_bind. iApply wpw_on_mem.
  iApply (wp_set_config _ _ _ (reset_config cfg) with "H"); [by intros m (? & ? & ? & ? & ? & ?)|]. iIntros "H".
  iApply wpw_on_mem. iApply (wp_set_config _ _ _ (reset_config cfg) with "H").
  { intros m Hm. eapply master_ok_recent; [exact Hm|by exists 0]. }
  iIntros "H". rewrite -app_assoc. unfold all_deleted. rewrite -bind_app. by iApply "HQ".
Qed.

(** ** The four masters *)
Abbreviation mstate := (masters (config * names node)).

Definition at_master (afi : afi_t) (orf : bool) (x : config * names node) : hP :=
  master_at (afi_depth afi) (prefix_master_get afi orf) x.1 x.2.

Definition all_at (st : mstate) : hP :=
  at_master AFI_IP false (m_ipv4 st) ∗ at_master AFI_IP6 false (m_ipv6 st) ∗
  at_master AFI_IP true (m_orf_v4 st) ∗ at_master AFI_IP6 true (m_orf_v6 st).

Lemma all_at_access afi orf st :
  ip_afi afi ->
  all_at st ⊢ at_master afi orf (master_of afi orf st) ∗
    (∀ x, at_master afi orf x -∗ all_at (set_master afi orf x st)).
Proof.
  intros Hafi. unfold all_at. destruct afi, orf; try done; simpl; iIntros "(H1 & H2 & H3 & H4)"; iFrame;
    iIntros (x) "Hx"; iFrame.
Qed.

(** What the specification sees *)
Definition map_masters {X Y} (f : X -> Y) (st : masters X) : masters Y :=
  Masters (f (m_ipv4 st)) (f (m_ipv6 st)) (f (m_orf_v4 st)) (f (m_orf_v6 st)).
Definition abs_master (x : config * names node) : config * policies := (x.1, abs_names x.2).
Definition abs_state (st : mstate) : sp_state := map_masters abs_master st.

Lemma master_of_abs afi orf st : master_of afi orf (abs_state st) = abs_master (master_of afi orf st).
Proof. by destruct afi, orf. Qed.
Lemma set_master_abs afi orf x st : set_master afi orf (abs_master x) (abs_state st) = abs_state (set_master afi orf x st).
Proof. by destruct afi, orf. Qed.

Lemma reset_abs cfg s :
  sp_reset (abs_master (cfg, s)) =
  (abs_master (reset_config cfg, Names [] []), notice_of <$> all_deleted cfg (nm_num s ++ nm_str s)).
Proof.
  unfold sp_reset, abs_master, all_deleted. cbn [fst snd]. f_equal. cbn [abs_names nm_num nm_str]. rewrite -fmap_app.
  induction (nm_num s ++ nm_str s) as [|n ns IH]; [done|]. rewrite fmap_cons !bind_cons fmap_app deleted_notices. by rewrite -IH.
Qed.

(** ** Every operation is a step. *)
Section steps.
Context (place : pmem -> Z -> Z) `{!Placement place}.
Context (inet_pton : family -> list Z -> option (list Z)) (Hpton : pton_spec inet_pton).
Context (uninit : prefix) (Huninit : prefix_wf uninit).

Definition refines (op : plist_op) (st : mstate) : Prop :=
  forall lg (Q : answer -> list event -> hP),
    all_at st ⊢
    (∀ st' a evs, ⌜sp_step inet_pton uninit op (abs_state st) = (abs_state st', a, notice_of <$> evs)⌝ →
       all_at st' -∗ Q a (lg ++ evs)) -∗
    wpw (do_op place inet_pton uninit op) lg Q.

(** Operations that answer with a code *)
Lemma refines_command op afi orf c f st :
  ip_afi afi -> do_op place inet_pton uninit op = code c ->
  (forall st, sp_step inet_pton uninit op st = on_master afi orf f st) ->
  meets (afi_depth afi) (prefix_master_get afi orf) c f (master_of afi orf st).1 (master_of afi orf st).2 ->
  refines op st.
Proof.
  intros Hafi Eop Esp Hc lg Q. rewrite Eop Esp. iIntros "H HQ". rewrite {1}(all_at_access afi orf st Hafi).
  iDestruct "H" as "[Hx Hclose]". iApply wpw_bind. iApply (Hc with "Hx"). iIntros (s' a lg' Hf) "Hx". iApply wpw_ret.
  iApply ("HQ" with "[%]"); last first.
  - iApply ("Hclose" $! ((master_of afi orf st).1, s')). iExact "Hx".
  - unfold on_master. rewrite master_of_abs. unfold abs_master at 1. rewrite Hf. by rewrite -set_master_abs.
Qed.

Lemma sequence_number_refines afi no st : ip_afi afi -> refines (OpSequenceNumber afi no) st.
Proof.
  intros Hafi lg Q. iIntros "H HQ". rewrite {1}(all_at_access afi false st Hafi). iDestruct "H" as "[Hx Hclose]".
  iApply wpw_bind. iApply wpw_bind. iApply wpw_on_mem. set (x := master_of afi false st).
  iApply (wp_set_config _ _ _ (Config (negb no) (cf_add x.1) (cf_del x.1)) with "Hx").
  { intros m (? & ? & ? & ? & ? & ?). by split_and!. }
  iIntros "Hx". iApply wpw_ret. iApply wpw_ret. iDestruct ("Hclose" $! (Config (negb no) (cf_add x.1) (cf_del x.1), x.2) with "Hx") as "H".
  iDestruct ("HQ" $! _ (Code CMD_SUCCESS) [] with "[%] H") as "HQ"; [|by rewrite app_nil_r].
  cbn [sp_step]. rewrite master_of_abs. by rewrite -set_master_abs.
Qed.

Lemma orf_remove_all_refines afi name st : ip_afi afi -> refines (OpOrfRemoveAll afi name) st.
Proof.
  intros Hafi lg Q. iIntros "H HQ". rewrite {1}(all_at_access afi true st Hafi). iDestruct "H" as "[Hx Hclose]".
  iApply wpw_bind. iApply (orf_remove_all_meets afi name with "Hx"); [done|]. iIntros (s' lg' Hf) "Hx". iApply wpw_ret.
  iApply ("HQ" with "[%]"); last first.
  - iApply ("Hclose" $! ((master_of afi true st).1, s')). iExact "Hx".
  - cbn [sp_step]. rewrite master_of_abs. unfold abs_master at 1. rewrite Hf. by rewrite -set_master_abs.
Qed.

Lemma apply_refines afi orf name p st : ip_afi afi -> prefix_wf p -> refines (OpApply afi orf name p) st.
Proof.
  intros Hafi Hp lg Q. iIntros "H HQ". rewrite {1}(all_at_access afi orf st Hafi). iDestruct "H" as "[Hx Hclose]".
  set (x := master_of afi orf st). cbn [do_op].
  iAssert (wpw (plist ← on_mem (prefix_list_lookup_do afi orf name); on_mem (prefix_list_apply plist p)) lg
    (fun t lg' => ⌜lg' = lg /\ t = match locate_policy name (abs_names x.2) with Some x => verdict (po_rules x) p | None => PREFIX_DENY end⌝ ∧
       (at_master afi orf x ∗ (∀ x, at_master afi orf x -∗ all_at (set_master afi orf x st)) ∗
        (∀ st' a evs, ⌜sp_step inet_pton uninit (OpApply afi orf name p) (abs_state st) = (abs_state st', a, notice_of <$> evs)⌝ →
           all_at st' -∗ Q a (lg ++ evs)))))%I with "[Hx Hclose HQ]" as "H".
  { iApply (apply_meets afi orf name p x.1 x.2 with "Hx"); [done..|]. iIntros "Hx". iSplit; [done|]. iFrame. }
  iApply wpw_assoc. iApply wpw_bind. iApply (wpw_mono with "H"). intros t lg'. iIntros "(%Ht & Hx & Hclose & HQ)". destruct Ht as [-> ->].
  iApply wpw_ret. iDestruct ("Hclose" $! x with "Hx") as "H".
  iDestruct ("HQ" $! _ _ [] with "[%] H") as "HQ"; [|by rewrite app_nil_r].
  cbn [sp_step]. rewrite master_of_abs. unfold x. replace (set_master afi orf (master_of afi orf st) st) with st; [done|].
  by destruct afi, orf, st.
Qed.

Lemma hooks_refines add delete st : refines (OpHooks add delete) st.
Proof.
  intros lg Q. iIntros "(H1 & H2 & H3 & H4) HQ". cbn [do_op]. iApply wpw_bind. iApply wpw_on_mem. unfold prefix_list_add_hook, prefix_list_delete_hook.
  set (c1 x := Config (cf_seqnum x) add (cf_del x)). set (c2 x := Config (cf_seqnum x) add delete).
  iApply wp_bind. iApply wp_bind.
  iApply (wp_set_config _ _ _ (c1 (m_ipv4 st).1) with "H1"); [by intros m (? & ? & ? & ? & ? & ?)|]. iIntros "H1".
  iApply (wp_set_config _ _ _ (c1 (m_ipv6 st).1) with "H2"); [by intros m (? & ? & ? & ? & ? & ?)|]. iIntros "H2".
  iApply wp_bind.
  iApply (wp_set_config _ _ _ (c2 (m_ipv4 st).1) with "H1"); [by intros m (? & ? & ? & ? & ? & ?)|]. iIntros "H1".
  iApply (wp_set_config _ _ _ (c2 (m_ipv6 st).1) with "H2"); [by intros m (? & ? & ? & ? & ? & ?)|]. iIntros "H2".
  iApply wpw_ret.
  iDestruct ("HQ" $! (Masters (c2 (m_ipv4 st).1, (m_ipv4 st).2) (c2 (m_ipv6 st).1, (m_ipv6 st).2) (m_orf_v4 st) (m_orf_v6 st)) Done []
    with "[%] [H1 H2 H3 H4]") as "HQ"; [done|iFrame|by rewrite app_nil_r].
Qed.

Lemma reset_refines st : refines OpReset st.
Proof.
  intros lg Q. iIntros "(H1 & H2 & H3 & H4) HQ". cbn [do_op]. iApply wpw_bind. unfold prefix_list_reset.
  iApply wpw_bind. iApply (wpw_reset_afi AFI_IP false with "H1"); [done|]. iIntros "H1".
  iApply wpw_bind. iApply (wpw_reset_afi AFI_IP6 false with "H2"); [done|]. iIntros "H2".
  iApply wpw_bind. iApply (wpw_reset_afi AFI_IP true with "H3"); [done|]. iIntros "H3".
  iApply (wpw_reset_afi AFI_IP6 true with "H4"); [done|]. iIntros "H4". iApply wpw_ret. rewrite -!app_assoc.
  iApply ("HQ" $! (map_masters (fun x => (reset_config x.1, Names [] [])) st) with "[%] [H1 H2 H3 H4]"); [|iFrame].
  cbn [sp_step]. destruct st as [[cf1 s1] [cf2 s2] [cf3 s3] [cf4 s4]]. cbn [abs_state map_masters m_ipv4 m_ipv6 m_orf_v4 m_orf_v6].
  rewrite !reset_abs. cbn [fst snd]. by rewrite !fmap_app.
Qed.

Lemma step_refines op st : op_ok op (abs_state st) -> refines op st.
Proof.
  destruct op; cbn [op_ok]; rewrite ?master_of_abs.
  - intros (Hafi & Hname & Hseq & Hroom). eapply (refines_command _ afi false); [done|done|done|]. by apply install_meets.
  - intros Hafi. eapply (refines_command _ afi false); [done|done|done|]. by apply uninstall_meets.
  - intros (Hafi & Hname). eapply (refines_command _ afi false); [done|done|done|]. by apply description_meets.
  - intros Hafi. eapply (refines_command _ afi false); [done|done|done|]. by apply undescribe_meets.
  - apply sequence_number_refines.
  - intros (Hafi & Hname & Hseq & Hp & Hroom). eapply (refines_command _ afi true); [done|done|done|]. by apply orf_set_meets.
  - apply orf_remove_all_refines.
  - intros [Hafi Hp]. by apply apply_refines.
  - intros _. apply hooks_refines.
  - intros _. apply reset_refines.
Qed.

(** ** Histories *)
Fixpoint ops_ok (ops : list plist_op) (st : sp_state) : Prop :=
  match ops with
  | [] => True
  | op :: ops => op_ok op st /\ ops_ok ops (sp_step inet_pton uninit op st).1.1
  end.

Lemma run_refines ops st lg (Q : list answer -> list event -> hP) :
  ops_ok ops (abs_state st) ->
  all_at st ⊢
  (∀ st' answers evs, ⌜sp_run inet_pton uninit ops (abs_state st) = (abs_state st', answers, notice_of <$> evs)⌝ →
     all_at st' -∗ Q answers (lg ++ evs)) -∗
  wpw (do_ops place inet_pton uninit ops) lg Q.
Proof.
  revert st lg Q. induction ops as [|op ops IH]; intros st lg Q Hok; iIntros "H HQ"; cbn [do_ops sp_run].
  - iApply wpw_ret. iDestruct ("HQ" $! st [] [] with "[//] H") as "HQ". by rewrite app_nil_r.
  - destruct Hok as [Hop Hok]. iApply wpw_bind. iApply (step_refines op st Hop with "H"). iIntros (st1 a evs Hst) "H".
    rewrite Hst in Hok. rewrite Hst. iApply wpw_bind. iApply (IH with "H"); [done|]. iIntros (st2 answers evs2 Hrun) "H". iApply wpw_ret.
    rewrite -app_assoc. iApply ("HQ" with "[%] H"). by rewrite Hrun fmap_app.
Qed.
End steps.

(** ** The start *)
Definition init_state : mstate := let x := (Config true 0 0, Names [] []) in Masters x x x x.

Lemma init_master ma D :
  ma ↦ OMaster (empty_master D) ⊢ master_at D ma (Config true 0 0) (Names [] []).
Proof. iIntros "H". iExists (empty_master D). iSplit; [iPureIntro; by repeat split|]. iFrame. by iSplit. Qed.

Definition static_cells : list (Z * pobj) :=
  [(prefix_master_ipv4, OMaster (empty_master PLC_MAXLEVELV4)); (prefix_master_ipv6, OMaster (empty_master PLC_MAXLEVELV6));
   (prefix_master_orf_v4, OMaster (empty_master PLC_MAXLEVELV4)); (prefix_master_orf_v6, OMaster (empty_master PLC_MAXLEVELV6))].

Lemma static_masters_hold : all_at init_state static_masters.
Proof.
  replace static_masters with (list_to_map static_cells : pmem) by (rewrite /static_cells /static_masters /= insert_empty //).
  apply (hprop_entails_holds ([∗ list] p ∈ static_cells, p.1 ↦ p.2)%I).
  - simpl. rewrite !init_master. iIntros "(H1 & H2 & H3 & H4 & _)". iFrame.
  - apply cells_hold; [by apply (bool_decide_unpack _)|by repeat constructor].
Qed.

(** Masters without lists are all there is. *)
Lemma empty_masters_dom h st :
  all_at st h -> (forall afi orf, ip_afi afi -> (master_of afi orf st).2 = Names [] []) ->
  dom h = dom static_masters.
Proof.
  intros H Hempty.
  assert (Hone : forall afi orf, ip_afi afi -> at_master afi orf (master_of afi orf st) ⊢
    ∃ m, prefix_master_get afi orf ↦ OMaster m).
  { intros afi orf Hafi. unfold at_master, master_at. rewrite Hempty //. iIntros "(%m & _ & Hm & _ & _)". by iExists m. }
  unfold all_at in H. pose proof (Hone AFI_IP false ltac:(done)) as E1. pose proof (Hone AFI_IP6 false ltac:(done)) as E2.
  pose proof (Hone AFI_IP true ltac:(done)) as E3. pose proof (Hone AFI_IP6 true ltac:(done)) as E4. simpl in E1, E2, E3, E4.
  destruct H as (h1 & h' & -> & _ & H1 & (h2 & h'' & -> & _ & H2 & (h3 & h4 & -> & _ & H3 & H4))).
  apply (hprop_entails_holds _ _ _ E1) in H1 as (m1 & _ & ->). apply (hprop_entails_holds _ _ _ E2) in H2 as (m2 & _ & ->).
  apply (hprop_entails_holds _ _ _ E3) in H3 as (m3 & _ & ->). apply (hprop_entails_holds _ _ _ E4) in H4 as (m4 & _ & ->).
  rewrite !dom_union_L !dom_singleton_L. vm_compute. done.
Qed.
