(* ===== verification/PlistHistory.v ===== *)
(** * Histories of the prefix lists

    Executable checks of the conditions on a history, what holds of the
    policies after every history, and a small allocator and address parser
    with which histories can be run. *)

From stdpp Require Import sorting.
From iris.proofmode Require Import proofmode.
From S2P Require Import Prelude SepLogic Heap Own FrrPrefix FrrPrefixBits.
From S2P Require Import Plist PlistVty PlistChain PlistSlot PlistApply PlistList PlistOps PlistQuery.
From S2P Require Import PlistBody PlistMaster PlistWorld PlistSpec PlistText PlistSteps PlistReset.

#[local] Open Scope Z_scope.

(** ** Checks *)
Definition prefix_wfb (p : prefix) : bool :=
  forallb (fun b => (0 <=? b) && (b <? 256)) (u p) && (length (u p) =? 40)%nat && (0 <=? prefixlen p) && (prefixlen p <? 320).

Definition rule_prefixb (afi : afi_t) (p : prefix) : bool :=
  prefix_wfb p && (family_code (p_family p) =? family_code (afi_family afi)) &&
  match p_family p with AF_INET | AF_INET6 => true | _ => false end && (prefixlen p <=? afi_bitlen afi) &&
  match u p !! last_byte p with
  | Some x => x mod 2 ^ (8 * (Z.of_nat (last_byte p) + 1) - prefixlen p) =? 0
  | None => true
  end.

Lemma prefix_wfb_sound p : prefix_wfb p = true -> prefix_wf p.
Proof.
  unfold prefix_wfb. rewrite !andb_true_iff Nat.eqb_eq Z.leb_le Z.ltb_lt forallb_forall. intros [[[Hb Hs] Hl1] Hl2].
  split; [|done|done]. apply Forall_forall. intros b Hin%list_elem_of_In. specialize (Hb b Hin).
  unfold is_byte. lia.
Qed.

Lemma rule_prefixb_sound afi p : rule_prefixb afi p = true -> rule_prefix afi p.
Proof.
  unfold rule_prefixb. intros [H Hc]%andb_prop. apply andb_prop in H as [H Hl%Z.leb_le]. apply andb_prop in H as [H Hfam].
  apply andb_prop in H as [Hw%prefix_wfb_sound Hf%Z.eqb_eq].
  split; [done| |done|].
  - destruct (p_family p); try done; by destruct afi.
  - intros x Hx. rewrite Hx in Hc. by apply Z.eqb_eq.
Qed.

Definition ip_afib (afi : afi_t) : bool := match afi with AFI_L2VPN => false | _ => true end.
Definition number_okb (seq : Z) : bool := (seq =? -1) || ((0 <=? seq) && (seq <=? UINT_MAX)).
Definition roomb (name : list Z) (ps : policies) : bool :=
  match locate_policy name ps with Some x => Z.of_nat (length (po_rules x)) + 1 <? 2 ^ 31 | None => true end.

Definition op_okb (op : plist_op) (st : sp_state) : bool :=
  match op with
  | OpInstall afi name seq typestr text ge le =>
      ip_afib afi && name_ok name && number_okb (number_of seq) && roomb name (get_policy name (master_of afi false st).2)
  | OpUninstall afi name seq typestr text ge le => ip_afib afi
  | OpDescription afi name desc => ip_afib afi && name_ok name
  | OpNoDescription afi name => ip_afib afi
  | OpSequenceNumber afi no => ip_afib afi
  | OpOrfSet name afi o permit set =>
      ip_afib afi && name_ok name && (0 <=? orf_seq o) && (orf_seq o <=? UINT_MAX) && rule_prefixb afi (orf_p o) &&
      roomb name (get_policy name (master_of afi true st).2)
  | OpOrfRemoveAll afi name => ip_afib afi
  | OpApply afi orf name p => ip_afib afi && prefix_wfb p
  | OpHooks _ _ => true
  | OpReset => true
  end.

Lemma ip_afib_sound afi : ip_afib afi = true -> ip_afi afi.
Proof. by destruct afi. Qed.
Lemma number_okb_sound seq : number_okb seq = true -> number_ok seq.
Proof. unfold number_okb, number_ok. lia. Qed.
Lemma roomb_sound name ps : roomb name ps = true -> room name ps.
Proof. unfold roomb, room. intros H x E. rewrite E in H. by apply Z.ltb_lt. Qed.

Lemma op_okb_sound op st : op_okb op st = true -> op_ok op st.
Proof.
  destruct op; cbn [op_okb op_ok]; intros H; try done; try by apply ip_afib_sound.
  - apply andb_prop in H as [H ?%roomb_sound]. apply andb_prop in H as [H ?%number_okb_sound].
    by apply andb_prop in H as [?%ip_afib_sound ?].
  - by apply andb_prop in H as [?%ip_afib_sound ?].
  - apply andb_prop in H as [H ?%roomb_sound]. apply andb_prop in H as [H ?%rule_prefixb_sound].
    apply andb_prop in H as [H ?%Z.leb_le]. apply andb_prop in H as [H ?%Z.leb_le].
    by apply andb_prop in H as [?%ip_afib_sound ?].
  - by apply andb_prop in H as [?%ip_afib_sound ?%prefix_wfb_sound].
Qed.

Section histories.
Context (inet_pton : family -> list Z -> option (list Z)) (uninit : prefix).

Fixpoint ops_okb (ops : list plist_op) (st : sp_state) : bool :=
  match ops with
  | [] => true
  | op :: ops => op_okb op st && ops_okb ops (sp_step inet_pton uninit op st).1.1
  end.

Lemma ops_okb_sound ops st : ops_okb ops st = true -> ops_ok inet_pton uninit ops st.
Proof.
  revert st. induction ops as [|op ops IH]; intros st; [done|]. cbn [ops_okb ops_ok]. rewrite andb_true_iff. intros [H1 H2].
  split; [by apply op_okb_sound|by apply IH].
Qed.

Lemma ops_ok_app ops1 ops2 st :
  ops_ok inet_pton uninit (ops1 ++ ops2) st <->
  ops_ok inet_pton uninit ops1 st /\ ops_ok inet_pton uninit ops2 (sp_run inet_pton uninit ops1 st).1.1.
Proof.
  revert st. induction ops1 as [|op ops1 IH]; intros st; cbn [app ops_ok sp_run]; [tauto|]. rewrite IH.
  destruct (sp_step inet_pton uninit op st) as [[st1 a] ns]. simpl. destruct (sp_run inet_pton uninit ops1 st1) as [[st2 answers] ns2].
  simpl. tauto.
Qed.

Lemma sp_run_app ops1 ops2 st :
  sp_run inet_pton uninit (ops1 ++ ops2) st =
  let '(st1, a1, n1) := sp_run inet_pton uninit ops1 st in
  let '(st2, a2, n2) := sp_run inet_pton uninit ops2 st1 in
  (st2, a1 ++ a2, n1 ++ n2).
Proof.
  revert st. induction ops1 as [|op ops1 IH]; intros st; cbn [app sp_run].
  - by destruct (sp_run inet_pton uninit ops2 st) as [[st2 a2] n2].
  - destruct (sp_step inet_pton uninit op st) as [[st1 a] ns]. rewrite IH.
    destruct (sp_run inet_pton uninit ops1 st1) as [[st2 a2] n2]. destruct (sp_run inet_pton uninit ops2 st2) as [[st3 a3] n3].
    by rewrite app_assoc.
Qed.
End histories.

(** ** After a history *)

(** The memory [h] holds the policies [st]. *)
Definition keeps_policies (h : pmem) (st : sp_state) : Prop := exists s, all_at s h /\ abs_state s = st.

Section run.
Context (place : pmem -> Z -> Z) `{!Placement place}.
Context (inet_pton : family -> list Z -> option (list Z)) (Hpton : pton_spec inet_pton).
Context (uninit : prefix) (Huninit : prefix_wf uninit).

Lemma history_runs ops :
  ops_ok inet_pton uninit ops sp_init ->
  exists h lg, do_ops place inet_pton uninit ops (World static_masters []) =
      Ret ((sp_run inet_pton uninit ops sp_init).1.2, World h lg) /\
    notice_of <$> lg = (sp_run inet_pton uninit ops sp_init).2 /\
    keeps_policies h (sp_run inet_pton uninit ops sp_init).1.1.
Proof.
  intros Hok. change sp_init with (abs_state init_state) in Hok |- *.
  pose proof (run_refines place inet_pton Hpton uninit Huninit ops init_state []
    (fun answers lg => ∃ st', ⌜sp_run inet_pton uninit ops (abs_state init_state) = (abs_state st', answers, notice_of <$> lg)⌝ ∧ all_at st')%I Hok) as Hrun.
  assert (Hw : wpw (do_ops place inet_pton uninit ops) [] (fun answers lg =>
    ∃ st', ⌜sp_run inet_pton uninit ops (abs_state init_state) = (abs_state st', answers, notice_of <$> lg)⌝ ∧ all_at st')%I static_masters).
  { apply (hprop_entails_holds (all_at init_state)); [|apply static_masters_hold]. iIntros "H". iApply (Hrun with "H").
    iIntros (st' answers evs E) "H". iExists st'. by iSplit. }
  apply wpw_run in Hw as (answers & h & lg & E & st' & Esp & Hst). exists h, lg. rewrite Esp. cbn [fst snd].
  split_and!; [done|done|]. by exists st'.
Qed.

Lemma step_keeps op h st lg :
  keeps_policies h st -> op_ok op st ->
  exists h' lg', do_op place inet_pton uninit op (World h lg) = Ret ((sp_step inet_pton uninit op st).1.2, World h' (lg ++ lg')) /\
    notice_of <$> lg' = (sp_step inet_pton uninit op st).2 /\ keeps_policies h' (sp_step inet_pton uninit op st).1.1.
Proof.
  intros (s & Hs & <-) Hok.
  assert (Hw : wpw (do_op place inet_pton uninit op) lg (fun a lg' =>
    ∃ st' evs, ⌜lg' = lg ++ evs /\ sp_step inet_pton uninit op (abs_state s) = (abs_state st', a, notice_of <$> evs)⌝ ∧ all_at st')%I h).
  { apply (hprop_entails_holds (all_at s)); [|done]. iIntros "H". iApply (step_refines place inet_pton Hpton uninit Huninit op s Hok with "H").
    iIntros (st' a evs E) "H". iExists st', evs. by iSplit. }
  apply wpw_run in Hw as (a & h' & lg' & E & st' & evs & [-> Est] & Hst). exists h', evs. rewrite Est. cbn [fst snd].
  split_and!; [done|done|]. by exists st'.
Qed.
(** A filter of a peer with bits behind its prefix *)
Lemma orf_set_faults name afi o permit r h st lg :
  keeps_policies h st -> ip_afi afi -> name_ok name = true -> afi_prefix afi (orf_p o) -> walks_past (afi_depth afi) (orf_p o) ->
  orf_rule afi o permit = Some r ->
  (forall x, locate_policy name (get_policy name (master_of afi true st).2) = Some x -> known r (po_rules x) = false) ->
  prefix_bgp_orf_set place name afi o permit true (World h lg) = Fault.
Proof.
  intros (s & Hs & <-) Hafi Hname Hp Hpast Hr Hknown. rewrite master_of_abs in Hknown. apply wpw_fault_run.
  apply (hprop_entails_holds (all_at s)); [|done]. rewrite (all_at_access afi true s Hafi). iIntros "[Hx _]".
  by iApply (orf_set_past place with "Hx").
Qed.

Lemma do_ops_fault ops op w answers w' :
  do_ops place inet_pton uninit ops w = Ret (answers, w') -> do_op place inet_pton uninit op w' = Fault ->
  do_ops place inet_pton uninit (ops ++ [op]) w = Fault.
Proof.
  revert w answers. induction ops as [|op1 ops IH]; intros w answers E Hf; cbn [app do_ops] in *.
  - injection E as _ ->. by apply bind_fault.
  - apply bind_Ret_inv in E as (a & w1 & E1 & E). apply bind_Ret_inv in E as (as' & w2 & E2 & E). injection E as _ ->.
    rewrite (bind_ret_eq _ _ _ _ _ E1). apply bind_fault. by eapply IH.
Qed.
End run.

(** The rules of every policy are in the order of their numbers. *)
Lemma body_sorted D ma a l es :
  body D ma a l es ⊢@{hP} ⌜StronglySorted seq_lt es /\ Forall (fun x : Z * rule => 0 <= r_seq x.2 <= UINT_MAX) es⌝.
Proof.
  constructor. intros h (_ & _ & H). specialize (H (empty_master D) eq_refl). split; [apply (pk_sorted _ _ _ _ _ _ _ H)|].
  apply (pk_numbers _ _ _ _ _ _ _ H).
Qed.

Definition ordered_rules (rs : list rule) : Prop :=
  StronglySorted (fun r1 r2 => r_seq r1 < r_seq r2) rs /\ Forall (fun r => 0 <= r_seq r <= UINT_MAX) rs.

Lemma keeps_ordered h st afi orf x :
  keeps_policies h st -> ip_afi afi ->
  x ∈ nm_num (master_of afi orf st).2 ++ nm_str (master_of afi orf st).2 -> ordered_rules (po_rules x).
Proof.
  intros (s & Hs & <-) Hafi Hx. rewrite master_of_abs in Hx.
  assert (Hn : exists t n, n ∈ sel t (master_of afi orf s).2 /\ x = abs_node n).
  { simpl in Hx. rewrite -fmap_app in Hx. apply list_elem_of_fmap in Hx as (n & -> & [Hn|Hn]%elem_of_app);
      [exists PREFIX_TYPE_NUMBER, n|exists PREFIX_TYPE_STRING, n]; done. }
  destruct Hn as (t & n & Hn & ->). apply list_elem_of_split in Hn as (l1 & l2 & E).
  assert (Hent : all_at s ⊢ ⌜StronglySorted seq_lt (nd_es n) /\ Forall (fun x : Z * rule => 0 <= r_seq x.2 <= UINT_MAX) (nd_es n)⌝).
  { rewrite (all_at_access afi orf s Hafi). iIntros "[Hx _]". unfold at_master. rewrite (master_access _ _ _ _ _ _ _ _ E).
    iDestruct "Hx" as "(%m & %l & _ & _ & Hb & _)". by iDestruct (body_sorted with "Hb") as %?. }
  destruct (hprop_entails_holds _ _ _ Hent Hs) as [H1 H2]. split; simpl.
  - induction H1 as [|y es H1 IH Hy]; [constructor|]. rewrite fmap_cons. apply Forall_cons in H2 as [? H2].
    constructor; [by apply IH|]. apply Forall_fmap. eapply Forall_impl; [exact Hy|]. done.
  - by apply Forall_fmap.
Qed.

(** ** Lists in memory *)

(** The entries that start at [p] are the rules [rs]. *)
Fixpoint chained (h : pmem) (p : Z) (rs : list rule) : Prop :=
  match rs with
  | [] => p = 0
  | r :: rs => p <> 0 /\ exists e, h !! p = Some (OEntry e) /\ rule_of e = r /\ chained h (e_next e) rs
  end.

Lemma chained_mono h h' p rs : h ⊆ h' -> chained h p rs -> chained h' p rs.
Proof.
  intros Hsub. revert p. induction rs as [|r rs IH]; intros p; [done|]. simpl. intros (Hp & e & He & Hr & Hc).
  split; [done|]. exists e. split_and!; [by eapply lookup_weaken|done|by apply IH].
Qed.

(** The list at [a] has the rules [rs]. *)
Definition list_here (a : Z) (rs : list rule) (h : pmem) : Prop :=
  a <> 0 /\ (length rs < size h)%nat /\ exists l, h !! a = Some (OList l) /\ chained h (pl_head l) rs.

Lemma body_chained D ma a l es h : body D ma a l es h -> list_here a es.*2 h.
Proof.
  intros Hb. pose proof (body_list _ _ _ _ _ _ Hb) as Hl. pose proof Hb as (Hn & Em & H). specialize (H (empty_master D) eq_refl).
  split; [by apply (pk_nonnull _ _ _ _ _ _ _ H)|]. split.
  { rewrite length_fmap. apply (body_at_least D ma a l es). exact Hb. }
  exists l. split; [done|]. destruct (pk_dll _ _ _ _ _ _ _ H) as [Hseg -> _ _]. clear Hl.
  assert (Hin : forall x r, (x, r) ∈ es -> x <> 0 /\ exists e, h !! x = Some (OEntry e) /\ rule_of e = r).
  { intros x r Hx. destruct (pk_entry _ _ _ _ _ _ _ H x r Hx) as (Hx0 & e & Ee & Er & _). split; [done|]. exists e. split; [|done].
    destruct (decide (x = ma)) as [->|]; [by rewrite lookup_insert_eq in Ee|by rewrite lookup_insert_ne in Ee]. }
  revert Hseg. generalize 0 at 1. clear H Hb Em. induction es as [|[x r] es IH]; intros p Hseg; [done|]. simpl in Hseg |- *.
  destruct Hseg as (Hx0 & Hg & Hseg). destruct (Hin x r ltac:(by left)) as (_ & e & Ee & Er). split; [done|]. exists e.
  split_and!; [done|done|]. unfold entry_links in Hg. destruct (decide (x = ma)) as [->|Hne]; [congruence|].
  rewrite lookup_insert_ne // Ee in Hg. injection Hg as Hp Hnx. rewrite Hnx. eapply (IH ltac:(intros; apply Hin; by right)). exact Hseg.
Qed.

Lemma list_here_sub a rs h h' : h ⊆ h' -> list_here a rs h -> list_here a rs h'.
Proof.
  intros Hsub (Ha & Hs & l & Hl & Hc). split; [done|]. split.
  - pose proof (map_subseteq_size _ _ Hsub). lia.
  - exists l. split; [by eapply lookup_weaken|by eapply chained_mono].
Qed.

Lemma mem_load_reads (p : Z) (h h' : pmem) o : mem_load p h = Ret (o, h') -> h' = h.
Proof. unfold mem_load. destruct (p =? 0); [done|]. simpl. destruct (h !! p); by [|intros [= _ ->]]. Qed.

Lemma find_list_reads fuel stop p h a h' : find_list fuel stop p h = Ret (a, h') -> h' = h.
Proof.
  revert p. induction fuel as [|fuel IH]; intros p; [done|]. simpl. destruct (p =? 0); [by intros [= _ ->]|].
  intros (l & h1 & E1 & E2)%bind_Ret_inv. unfold load_list in E1. apply bind_Ret_inv in E1 as (o & h2 & E1' & E3). rename E1' into E1.
  apply mem_load_reads in E1 as ->.
  destruct o; try done. injection E3 as <- <-. destruct (stop _); [by injection E2|by eapply IH].
Qed.

Lemma lookup_do_reads afi orf name h a h' : prefix_list_lookup_do afi orf name h = Ret (a, h') -> h' = h.
Proof.
  unfold prefix_list_lookup_do. destruct (_ =? 0); [by intros [= _ ->]|].
  intros (fuel & h1 & E0 & E)%bind_Ret_inv. injection E0 as <- <-. apply bind_Ret_inv in E as (m & h1 & E1 & E).
  assert (h1 = h) as ->.
  { unfold load_master in E1. apply bind_Ret_inv in E1 as (o & h2 & E1' & E3). rename E1' into E1.
    apply mem_load_reads in E1 as ->. destruct o; try done. by injection E3. }
  clear E1. apply bind_Ret_inv in E as (p & h1 & E1 & E). apply find_list_reads in E1 as ->.
  destruct (negb _); [by injection E|by apply find_list_reads in E].
Qed.

(** Looking up a name finds the list with the rules of its policy. *)
Lemma lookup_keeps afi orf name h st :
  keeps_policies h st -> ip_afi afi ->
  exists a, prefix_list_lookup_do afi orf name h = Ret (a, h) /\
    match locate_policy name (master_of afi orf st).2 with
    | None => a = 0
    | Some x => list_here a (po_rules x) h
    end.
Proof.
  intros (s & Hs & <-) Hafi. rewrite master_of_abs. unfold abs_master. cbn [snd]. rewrite locate_policy_abs.
  set (x := master_of afi orf s).
  assert (Hent : all_at s ⊢ wp (prefix_list_lookup_do afi orf name) (fun a =>
    {| hprop_holds h := match locate nd_name name x.2 with None => a = 0 | Some (_, _, n, _) => list_here a (po_rules (abs_node n)) h end |})).
  { rewrite (all_at_access afi orf s Hafi). iIntros "[Hx Hclose]". unfold at_master.
    iApply (wp_lookup_do (afi_depth afi) (afi_depth_pos afi) with "Hx"); [by apply master_get_nonnull|]. iIntros (Hf) "Hx". fold x.
    destruct (locate nd_name name x.2) as [[[[t l1] n] l2]|] eqn:El.
    - destruct (locate_split _ _ _ _ _ _ _ El) as [Esel _]. rewrite (master_access _ _ _ _ _ _ _ _ Esel).
      iDestruct "Hx" as "(%m & %l & _ & Hm & Hb & Hrest)". iStopProof. constructor.
      intros h' (h1 & h2 & -> & Hd & _ & (h3 & h4 & -> & Hd' & _ & (h5 & h6 & -> & Hd'' & Hbody & _))).
      apply (list_here_sub _ _ h5); [|by apply body_chained in Hbody]. simpl in Hd.
      etransitivity; [apply map_union_subseteq_l|]. etransitivity; [by apply map_union_subseteq_r|]. by apply map_union_subseteq_r.
    - iStopProof. constructor. by intros h' _. }
  apply (hprop_entails_holds _ _ _ Hent) in Hs. destruct (Hs ∅) as (a & h' & E & _ & Ha); [apply map_disjoint_empty_r|].
  rewrite !right_id_L in E.
  pose proof (lookup_do_reads _ _ _ _ _ _ E) as ->. exists a. split; [done|]. simpl in Ha.
  by destruct (locate nd_name name x.2) as [[[[t l1] n] l2]|].
Qed.

(** ** Names are used once. *)
Definition named_once (ps : policies) : Prop := NoDup (po_name <$> nm_num ps ++ nm_str ps).

Lemma put_perm {X} t (l : list X) s : nm_num (put t l s) ++ nm_str (put t l s) ≡ₚ l ++ sel (other t) s.
Proof. destruct t; simpl; [by rewrite Permutation_app_comm|done]. Qed.
Lemma sel_perm {X} t (s : names X) : nm_num s ++ nm_str s ≡ₚ sel t s ++ sel (other t) s.
Proof. destruct t; simpl; [by rewrite Permutation_app_comm|done]. Qed.

Lemma change_named_once name f ps :
  (forall x y, f x = Some y -> po_name y = po_name x) -> named_once ps -> named_once (change_policy name f ps).
Proof.
  intros Hf Hps. unfold change_policy. destruct (locate po_name name ps) as [[[[t l1] x] l2]|] eqn:E; [|done].
  destruct (locate_split po_name _ _ _ _ _ _ E) as [Esel _]. unfold named_once in *. rewrite put_perm.
  rewrite (sel_perm t) Esel in Hps. rewrite !fmap_app fmap_cons in Hps. rewrite !fmap_app.
  destruct (f x) as [y|] eqn:Ef; simpl; [by rewrite (Hf _ _ Ef)|].
  rewrite -(Permutation_middle _ _ (po_name x)) /= in Hps. by apply NoDup_cons in Hps as [_ Hps].
Qed.

Lemma get_named_once name ps : named_once ps -> named_once (get_policy name ps).
Proof.
  intros Hps. unfold get_policy. destruct (locate po_name name ps) as [[[[t l1] x] l2]|] eqn:E; [done|].
  pose proof (locate_none po_name name ps E) as Hnone.
  destruct (locate_inserted po_name (Policy name None []) ps E) as (t & l1 & l2 & _ & Esel & ->).
  unfold named_once in *. rewrite put_perm. rewrite (sel_perm t) -Esel in Hps. rewrite !fmap_app fmap_cons.
  rewrite -app_assoc /= -(Permutation_middle _ _ name) /=. rewrite !fmap_app -app_assoc in Hps. apply NoDup_cons. split; [|done].
  rewrite !elem_of_app. intros Hin.
  assert (Hy : exists t' y, y ∈ sel t' ps /\ po_name y = name).
  { destruct Hin as [Hin|[Hin|Hin]]; apply list_elem_of_fmap in Hin as (y & -> & Hy);
      [exists t, y|exists t, y|exists (other t), y]; (split; [|done]); rewrite -?Esel; [apply elem_of_app; by left|apply elem_of_app; by right|done]. }
  destruct Hy as (t' & y & Hy & Ey). by apply (Hnone t' y Hy).
Qed.

Lemma unless_bare_name x y : unless_bare x = Some y -> po_name y = po_name x.
Proof. unfold unless_bare. destruct (po_rules x), (po_desc x); by intros [= <-]. Qed.

Definition once_state (st : sp_state) : Prop := forall afi orf, named_once (master_of afi orf st).2.

Lemma set_master_once afi orf cfg ps st : named_once ps -> once_state st -> once_state (set_master afi orf (cfg, ps) st).
Proof. intros Hps Hst afi' orf'. specialize (Hst afi' orf'). by destruct afi, orf, afi', orf'. Qed.

Section once.
Context (inet_pton : family -> list Z -> option (list Z)) (uninit : prefix).

Lemma add_once cfg name r dup ps : named_once ps -> named_once (sp_add cfg name r dup ps).1.1.
Proof.
  intros Hps. unfold sp_add. pose proof (get_named_once name ps Hps) as Hget.
  destruct (locate_policy name (get_policy name ps)) as [x|]; [|done]. destruct (known r (po_rules x)); [done|].
  by apply change_named_once; [intros ? ? [= <-]|].
Qed.

Lemma remove_once cfg name f ps : named_once ps -> named_once (sp_remove cfg name f ps).1.1.
Proof.
  intros Hps. unfold sp_remove. destruct (locate_policy name ps) as [x|]; [|done]. destruct (remove_rule f (po_rules x)); [|done].
  apply change_named_once; [|done]. intros y z Hz. by rewrite (unless_bare_name _ _ Hz).
Qed.

Lemma forget_once cfg name ps : named_once ps -> named_once (sp_forget cfg name ps).1.
Proof. intros Hps. unfold sp_forget. destruct (locate_policy name ps); [|done]. by apply change_named_once. Qed.

Lemma uninstall_once cfg afi name seq typestr text ge le ps :
  named_once ps -> named_once (sp_uninstall inet_pton uninit cfg afi name seq typestr text ge le ps).1.1.
Proof.
  intros Hps. unfold sp_uninstall. pose proof (forget_once cfg name ps Hps) as Hforget.
  destruct (locate_policy name ps); [|done].
  destruct (command_selects inet_pton uninit afi seq typestr text ge le) as [f|]; destruct seq, typestr, text, ge, le; cbn [fst];
    try done; try (by apply remove_once); by destruct (sp_forget cfg name ps).
Qed.

Lemma on_master_once afi orf f st :
  (forall cfg ps, named_once ps -> named_once (f cfg ps).1.1) -> once_state st -> once_state (on_master afi orf f st).1.1.
Proof.
  intros Hf Hst. unfold on_master. specialize (Hst afi orf) as Hps. destruct (master_of afi orf st) as [cfg ps].
  specialize (Hf cfg ps Hps). destruct (f cfg ps) as [[ps' c] ns]. by apply set_master_once.
Qed.

Lemma step_once op st : once_state st -> once_state (sp_step inet_pton uninit op st).1.1.
Proof.
  intros Hst. destruct op; cbn [sp_step].
  - apply on_master_once; [|done]. intros cfg ps Hps. destruct (command_rule inet_pton uninit afi seq typestr text ge le); [|done].
    by apply add_once.
  - apply on_master_once; [|done]. intros cfg ps Hps. by apply uninstall_once.
  - apply on_master_once; [|done]. intros cfg ps Hps. apply change_named_once; [by intros ? ? [= <-]|]. by apply get_named_once.
  - apply on_master_once; [|done]. intros cfg ps Hps. unfold sp_undescribe. destruct (locate_policy name ps); [|done].
    apply change_named_once; [|done]. intros y z Hz. by rewrite (unless_bare_name _ _ Hz).
  - pose proof (Hst afi false) as Hps. destruct (master_of afi false st) as [cfg ps]. by apply set_master_once.
  - apply on_master_once; [|done]. intros cfg ps Hps. unfold sp_orf_set. destruct (orf_rule afi orfp permit); [|done].
    destruct set; [by apply add_once|]. by apply remove_once, get_named_once.
  - pose proof (Hst afi true) as Hps. destruct (master_of afi true st) as [cfg ps].
    pose proof (forget_once cfg name ps Hps) as Hf. destruct (sp_forget cfg name ps). by apply set_master_once.
  - done.
  - intros afi orf. specialize (Hst afi orf). by destruct afi, orf.
  - intros afi orf. destruct st as [[? ?] [? ?] [? ?] [? ?]]. destruct afi, orf; apply NoDup_nil_2.
Qed.

Lemma run_once ops st : once_state st -> once_state (sp_run inet_pton uninit ops st).1.1.
Proof.
  revert st. induction ops as [|op ops IH]; intros st Hst; [done|]. cbn [sp_run]. pose proof (step_once op st Hst) as H1.
  destruct (sp_step inet_pton uninit op st) as [[st1 a] ns]. specialize (IH st1 H1).
  by destruct (sp_run inet_pton uninit ops st1) as [[st2 answers] ns2].
Qed.

Lemma init_once : once_state sp_init.
Proof. intros [] []; apply NoDup_nil_2. Qed.
End once.

(** ** An address parser to run histories with *)

(** The parts between the dots *)
Fixpoint dotted (s part : list Z) : list (list Z) :=
  match s with
  | [] => [part]
  | c :: s => if c =? 46 then part :: dotted s [] else dotted s (part ++ [c])
  end.
Definition quad_part (s : list Z) : option Z :=
  match s with
  | [] => None
  | _ => if forallb isdigit s && (length s <=? 3)%nat && (digits_value s 0 <=? 255) then Some (digits_value s 0) else None
  end.
(** Dotted quads, and [::] *)
Definition demo_pton (af : family) (s : list Z) : option (list Z) :=
  match af with
  | AF_INET =>
      match quad_part <$> dotted s [] with
      | [Some a; Some b; Some c; Some d] => Some [a; b; c; d]
      | _ => None
      end
  | _ => if bool_decide (s = [58; 58]) then Some (replicate 16 0) else None
  end.

Lemma digits_value_pos s v : 0 <= v -> 0 <= digits_value s v.
Proof.
  revert v. induction s as [|c s IH]; intros v Hv; [done|]. simpl. destruct (isdigit c) eqn:E; [|done].
  unfold isdigit in E. apply andb_prop in E as [H1%Z.leb_le H2%Z.leb_le]. apply IH. lia.
Qed.

Lemma quad_part_byte s v : quad_part s = Some v -> is_byte v.
Proof.
  unfold quad_part. destruct s as [|c s]; [done|]. remember (c :: s) as t eqn:Et. clear Et. destruct (_ && _) eqn:E; [|done]. intros [= <-].
  apply andb_prop in E as [_ H%Z.leb_le]. pose proof (digits_value_pos t 0 ltac:(done)). unfold is_byte. lia.
Qed.

Lemma demo_pton_ok : pton_spec demo_pton.
Proof.
  intros afi s bs. assert (H6 : (if bool_decide (s = [58; 58]) then Some (replicate 16 0) else None) = Some bs -> length bs = 16%nat /\ Forall is_byte bs).
  { case_bool_decide; [|done]. intros [= <-]. split; [done|]. by repeat constructor. }
  destruct afi; [|exact H6|exact H6]. cbn [afi_family demo_pton afi_bytes]. generalize (dotted s []). intros parts.
  destruct parts as [|p1 [|p2 [|p3 [|p4 [|p5 parts]]]]]; try done; cbn [fmap list_fmap];
    destruct (quad_part p1) as [a|] eqn:E1; try done; destruct (quad_part p2) as [b|] eqn:E2; try done;
    destruct (quad_part p3) as [c|] eqn:E3; try done; destruct (quad_part p4) as [d|] eqn:E4; try done.
  intros [= <-]. split; [done|]. repeat constructor; by eapply quad_part_byte.
Qed.
