(* ===== verification/PlistCorrect.v ===== *)
(** * The properties of the prefix lists

    A history is a list of commands and calls, run from the start of the
    program.  The conditions on it ([ops_ok]) are that names and numbers are in
    the ranges the code works with, that filters of BGP peers have no bits
    behind their prefixes, and that no list gets [2^31] rules. *)

From stdpp Require Import sorting.
From S2P Require Import Prelude SepLogic Heap FrrPrefix FrrPrefixBits.
From S2P Require Import Plist PlistVty PlistChain PlistApply PlistQuery PlistMaster PlistBody PlistSpec.
From S2P Require Import PlistText PlistSteps PlistReset PlistHistory.

#[local] Open Scope Z_scope.

(** ** Facts of the specification *)
Definition decides (rs : list rule) (p : prefix) (t : prefix_list_type) : Prop :=
  (rs = [] /\ t = PREFIX_PERMIT) \/
  (rs <> [] /\ (forall r, r ∈ rs -> matches r p = false) /\ t = PREFIX_DENY) \/
  (exists r, r ∈ rs /\ matches r p = true /\ t = r_type r /\
     forall r', r' ∈ rs -> matches r' p = true -> r' <> r -> r_seq r < r_seq r').

Lemma verdict_decides rs p : ordered_rules rs -> decides rs p (verdict rs p).
Proof.
  intros [Hs _]. destruct rs as [|r0 rs0] eqn:Ers; [by left|]. rewrite <- Ers in *. right.
  assert (Hv : verdict rs p = match first_match rs p with Some r => r_type r | None => PREFIX_DENY end) by by rewrite Ers.
  rewrite Hv. destruct (first_match rs p) as [r|] eqn:Ef.
  - right. destruct (first_match_some _ _ _ Ef) as (rs1 & rs2 & E & Hm & Hno). exists r. rewrite E in Hs |- *.
    split; [apply elem_of_app; right; by left|]. split; [done|]. split; [done|].
    apply StronglySorted_app in Hs as (_ & _ & H2). inversion H2 as [|? ? _ Hall]; subst.
    intros r' [Hr|[->|Hr]%elem_of_cons]%elem_of_app Hm' Hne; [|done|by apply (proj1 (Forall_forall _ _) Hall)].
    pose proof (proj1 (Forall_forall _ _) Hno _ Hr) as Hf. simpl in Hf. congruence.
  - left. split; [by rewrite Ers|]. split; [|done]. clear -Ef. induction rs as [|x rs IH]; [by intros r ?%not_elem_of_nil|].
    simpl in Ef. destruct (matches x p) eqn:Em; [done|]. intros r [->|Hr]%elem_of_cons; [done|by apply IH].
Qed.

Lemma locate_policy_elem name ps x : locate_policy name ps = Some x -> x ∈ nm_num ps ++ nm_str ps /\ po_name x = name.
Proof.
  unfold locate_policy. destruct (locate po_name name ps) as [[[[t l1] y] l2]|] eqn:E; [|done]. intros [= ->].
  destruct (locate_split po_name _ _ _ _ _ _ E) as [Esel Enm]. split; [|done].
  rewrite (sel_perm t), Esel. apply elem_of_app. left. apply elem_of_app. right. by left.
Qed.

(** *** One policy alone *)
Lemma locate_single t name (x : policy) :
  po_name x = name -> locate po_name name (put t [x] (Names [] [])) = Some (t, [], x, []).
Proof.
  intros <-. assert (E : is_name (po_name x) (po_name x) = true) by by apply bool_decide_true.
  unfold locate. destruct t; simpl; by rewrite E.
Qed.

Lemma fresh_policy name :
  get_policy name (Names [] []) = put (name_place name).1 [Policy name None []] (Names [] []).
Proof.
  unfold get_policy. change (locate po_name name (Names [] [])) with (@None (prefix_name_type * list policy * policy * list policy)).
  unfold insert_name. cbn [po_name]. destruct (name_place name) as [t f]. by destruct t.
Qed.

Lemma fresh_room afi name : room name (get_policy name (master_of afi false sp_init).2).
Proof.
  assert (E : (master_of afi false sp_init).2 = Names [] []) by by destruct afi. rewrite E, fresh_policy. intros x.
  unfold locate_policy. rewrite (locate_single _ _ (Policy name None [])) by done. intros [= <-]. done.
Qed.

Lemma change_single t name (x : policy) f :
  po_name x = name -> change_policy name (fun y => Some (f y)) (put t [x] (Names [] [])) = put t [f x] (Names [] []).
Proof. intros Hx. unfold change_policy. rewrite (locate_single t name x Hx). simpl. by destruct t. Qed.

Section range.
Context (inet_pton : family -> list Z -> option (list Z)) (uninit : prefix).
Context (afi : afi_t) (text : list Z) (Hany : is_any text = false).

Lemma parsed_numbers g e p g' e' any : parse_prefix inet_pton uninit afi text g e = Ret (Some (p, g', e', any)) -> g' = g /\ e' = e.
Proof.
  unfold parse_prefix. rewrite Hany. destruct afi; [| |done].
  - destruct (str2prefix_ipv4 inet_pton text uninit) as [[q|]| | |]; by intros [=].
  - destruct (str2prefix_ipv6 inet_pton text uninit) as [[q|]| | |]; by intros [=].
Qed.

Context (seq : option (list Z)) (typestr ge le : list Z) (r : rule).
Context (Hge : atoi ge <> 0) (Hle : atoi le = afi_bitlen afi) (Hafi : ip_afi afi).
Context (Hr : command_rule inet_pton uninit afi seq (Some typestr) (Some text) (Some ge) (Some le) = Some r).

(** The rule is kept with [le] 0, and the removal looks for [le]. *)
Lemma range_selects r' : r_le r' = r_le r ->
  match command_selects inet_pton uninit afi seq (Some typestr) (Some text) (Some ge) (Some le) with
  | None => True
  | Some f => f r' = false
  end.
Proof.
  intros Er. unfold command_rule in Hr. unfold command_selects.
  assert (Hgoal : match
      match type_of typestr, parse_prefix inet_pton uninit afi text (length_of (Some ge)) (length_of (Some le)) with
      | Some type, Ret (Some (p, ge, le, _)) => Some (entry_is_rule p type (number_of seq) le ge)
      | _, _ => None
      end with None => True | Some f => f r' = false end).
  { destruct (type_of typestr) as [type|]; [|done].
    destruct (parse_prefix inet_pton uninit afi text (length_of (Some ge)) (length_of (Some le))) as [[[[[p g] e] any]|]| | |] eqn:Ep; try done.
    apply parsed_numbers in Ep as [-> ->]. destruct (mask_prefix uninit afi p) as [p'| | |]; try done.
    destruct (_ || bad_range _ _ _); [done|]. injection Hr as <-. unfold entry_is_rule. rewrite Er. cbn [r_le made_rule length_of].
    assert (E0 : normal_le afi (atoi ge) (atoi le) = 0).
    { unfold normal_le. rewrite Hle, Z.eqb_refl. by destruct (Z.eqb_spec (atoi ge) 0). }
    rewrite E0. assert (E1 : (0 =? atoi le) = false) by (rewrite Hle; by destruct afi). by rewrite E1, andb_false_r. }
  by destruct seq.
Qed.

Lemma range_answers name :
  (sp_run inet_pton uninit
    [OpInstall afi name seq (Some typestr) (Some text) (Some ge) (Some le);
     OpUninstall afi name seq (Some typestr) (Some text) (Some ge) (Some le)] sp_init).1.2 =
  [Code CMD_SUCCESS; Code CMD_WARNING_CONFIG_FAILED].
Proof.
  set (t := (name_place name).1). set (r' := give_number [] r).
  assert (Er : r_le r' = r_le r) by (unfold r', give_number; by destruct (r_seq r =? -1)).
  assert (Ecfg : exists cfg, master_of afi false sp_init = (cfg, Names [] [])) by (destruct afi; by eexists). destruct Ecfg as [cfg Ecfg].
  assert (E1 : sp_step inet_pton uninit (OpInstall afi name seq (Some typestr) (Some text) (Some ge) (Some le)) sp_init =
    (set_master afi false (cfg, put t [Policy name None [r']] (Names [] [])) sp_init, Code CMD_SUCCESS, added_notice cfg name)).
  { cbn [sp_step]. unfold on_master. rewrite Ecfg, Hr. unfold sp_add. rewrite fresh_policy. fold t.
    unfold locate_policy. rewrite (locate_single t name (Policy name None [])) by done. cbn [po_rules known existsb].
    by rewrite (change_single t name (Policy name None [])). }
  cbn [sp_run]. rewrite E1. clear E1. cbn [sp_step]. unfold on_master.
  assert (E2 : master_of afi false (set_master afi false (cfg, put t [Policy name None [r']] (Names [] [])) sp_init) =
    (cfg, put t [Policy name None [r']] (Names [] []))) by by destruct afi.
  rewrite E2. unfold sp_uninstall, sp_remove, locate_policy. rewrite (locate_single t name (Policy name None [r'])) by done.
  pose proof (range_selects r' Er) as Hsel.
  destruct (command_selects inet_pton uninit afi seq (Some typestr) (Some text) (Some ge) (Some le)) as [f|];
    [cbn [po_rules remove_rule]; rewrite Hsel|]; by destruct seq.
Qed.
End range.

Section properties.
Context (place : pmem -> Z -> Z) `{!Placement place}.
Context (inet_pton : family -> list Z -> option (list Z)) (uninit : prefix).

Abbreviation run := (sp_run inet_pton uninit).

(** C3. Whatever commands and calls follow each other, the lists in memory,
    with their tries and their links, answer and notify as the ordered policies
    of the specification do, and no step reads or writes outside its objects,
    fails an assertion or runs on. *)
Theorem prefix_lists_refine_policies ops :
  pton_spec inet_pton -> prefix_wf uninit -> ops_ok inet_pton uninit ops sp_init ->
  exists h lg,
    do_ops place inet_pton uninit ops (World static_masters []) = Ret ((run ops sp_init).1.2, World h lg) /\
    notice_of <$> lg = (run ops sp_init).2 /\ keeps_policies h (run ops sp_init).1.1.
Proof. intros Hpton Hun Hok. by apply history_runs. Qed.

(** C12. The answer of [prefix_list_apply], which searches the trie, is that of
    the matching rule with the smallest number of all the rules of the list;
    a list without rules permits and one without a match denies. *)
Theorem prefix_list_apply_first_match ops afi orf name p x :
  pton_spec inet_pton -> prefix_wf uninit -> ops_ok inet_pton uninit ops sp_init -> ip_afi afi -> prefix_wf p ->
  locate_policy name (master_of afi orf (run ops sp_init).1.1).2 = Some x ->
  exists w t,
    do_ops place inet_pton uninit (ops ++ [OpApply afi orf name p]) (World static_masters []) =
      Ret ((run ops sp_init).1.2 ++ [Verdict t], w) /\
    decides (po_rules x) p t.
Proof.
  intros Hpton Hun Hok Hafi Hp Ex.
  destruct (history_runs place inet_pton Hpton uninit Hun ops Hok) as (h & lg & _ & _ & Hkeep).
  destruct (history_runs place inet_pton Hpton uninit Hun (ops ++ [OpApply afi orf name p])) as (h2 & lg2 & E & _).
  { apply ops_ok_app. split; [done|]. split; [by split|done]. }
  exists (World h2 lg2), (verdict (po_rules x) p). split.
  - rewrite E. f_equal. f_equal. rewrite sp_run_app. destruct (run ops sp_init) as [[st answers] ns]. simpl in *. by rewrite Ex.
  - apply verdict_decides. eapply (keeps_ordered h); [exact Hkeep|exact Hafi|]. by apply locate_policy_elem in Ex as [? _].
Qed.

(** C24. After every history the rules of each list have ascending numbers that
    fit an [unsigned int], and no two lists of a master have one name. *)
Theorem prefix_lists_ordered ops afi orf :
  pton_spec inet_pton -> prefix_wf uninit -> ops_ok inet_pton uninit ops sp_init -> ip_afi afi ->
  exists h lg ps,
    do_ops place inet_pton uninit ops (World static_masters []) = Ret ((run ops sp_init).1.2, World h lg) /\
    keeps_policies h (run ops sp_init).1.1 /\ ps = (master_of afi orf (run ops sp_init).1.1).2 /\
    Forall (fun x => ordered_rules (po_rules x)) (nm_num ps ++ nm_str ps) /\ NoDup (po_name <$> nm_num ps ++ nm_str ps).
Proof.
  intros Hpton Hun Hok Hafi. destruct (history_runs place inet_pton Hpton uninit Hun ops Hok) as (h & lg & E & _ & Hkeep).
  eexists h, lg, _. split; [exact E|]. split; [done|]. split; [done|]. split.
  - apply Forall_forall. intros x Hx. by eapply keeps_ordered.
  - apply (run_once inet_pton uninit ops sp_init init_once afi orf).
Qed.

(** C17. [prefix_list_reset] frees every list, rule and table, whatever was
    built before: only the four static masters are left. *)
Theorem prefix_list_reset_frees_all ops :
  pton_spec inet_pton -> prefix_wf uninit -> ops_ok inet_pton uninit ops sp_init ->
  exists answers h lg,
    do_ops place inet_pton uninit (ops ++ [OpReset]) (World static_masters []) = Ret (answers, World h lg) /\
    dom h = dom static_masters.
Proof.
  intros Hpton Hun Hok.
  destruct (history_runs place inet_pton Hpton uninit Hun (ops ++ [OpReset])) as (h & lg & E & _ & (s & Hs & Eabs)).
  { apply ops_ok_app. by split. }
  eexists _, h, lg. split; [exact E|]. eapply empty_masters_dom; [exact Hs|]. intros afi orf Hafi.
  assert (Hempty : (master_of afi orf (abs_state s)).2 = Names [] []).
  { rewrite Eabs, sp_run_app. destruct (run ops sp_init) as [[st answers] ns]. simpl.
    destruct st as [[? ?] [? ?] [? ?] [? ?]]. simpl. by destruct afi, orf. }
  rewrite master_of_abs in Hempty. destruct (master_of afi orf s) as [cfg [ns1 ns2]]. unfold abs_master, abs_names in Hempty.
  simpl in *. injection Hempty as H1%fmap_nil_inv H2%fmap_nil_inv. by rewrite H1, H2.
Qed.

(** C38. A rule installed with [ge] and with [le] equal to the address length is
    kept without [le]; the command for removal does not do the same, so the
    text that made the rule cannot take it away. *)
Theorem command_range_not_removed afi name seq typestr text ge le r :
  pton_spec inet_pton -> prefix_wf uninit -> ip_afi afi -> name_ok name = true -> number_ok (number_of seq) ->
  is_any text = false -> atoi ge <> 0 -> atoi le = afi_bitlen afi ->
  command_rule inet_pton uninit afi seq (Some typestr) (Some text) (Some ge) (Some le) = Some r ->
  exists w,
    do_ops place inet_pton uninit
      [OpInstall afi name seq (Some typestr) (Some text) (Some ge) (Some le);
       OpUninstall afi name seq (Some typestr) (Some text) (Some ge) (Some le)] (World static_masters []) =
      Ret ([Code CMD_SUCCESS; Code CMD_WARNING_CONFIG_FAILED], w).
Proof.
  intros Hpton Hun Hafi Hname Hseq Hany Hge Hle Hr. destruct (name_ok_ret _ Hname) as [num Hnum].
  destruct (history_runs place inet_pton Hpton uninit Hun
    [OpInstall afi name seq (Some typestr) (Some text) (Some ge) (Some le);
     OpUninstall afi name seq (Some typestr) (Some text) (Some ge) (Some le)]) as (h & lg & E & _).
  { split; [|by split]. split_and!; [done|done|done|]. by apply fresh_room. }
  exists (World h lg). rewrite E. f_equal. f_equal. by eapply range_answers.
Qed.

(** C39. A filter of a BGP peer is stored without its mask being applied.  After
    any history, when the bits behind the prefix move the slots of the filter
    past the end of a table, storing it goes past that end, unless its numbers
    are refused or its policy is in the list already. *)
Theorem prefix_bgp_orf_set_overrun ops name afi o permit r :
  pton_spec inet_pton -> prefix_wf uninit -> ops_ok inet_pton uninit ops sp_init ->
  ip_afi afi -> name_ok name = true -> afi_prefix afi (orf_p o) -> walks_past (afi_depth afi) (orf_p o) ->
  orf_rule afi o permit = Some r ->
  (forall x, locate_policy name (get_policy name (master_of afi true (run ops sp_init).1.1).2) = Some x -> known r (po_rules x) = false) ->
  do_ops place inet_pton uninit (ops ++ [OpOrfSet name afi o permit true]) (World static_masters []) = Fault.
Proof.
  intros Hpton Hun Hok Hafi Hname Hp Hpast Hr Hknown.
  destruct (history_runs place inet_pton Hpton uninit Hun ops Hok) as (h & lg & E & _ & Hk).
  eapply do_ops_fault; [exact E|]. cbn [do_op]. apply bind_fault. by eapply orf_set_faults.
Qed.
End properties.

(** ** A history *)
Definition demo_prefix (a b c d len : Z) : prefix := Prefix AF_INET len ([a; b; c; d] ++ replicate 36 0).
Definition demo_name : list Z := [99; 111; 114; 101].
Definition permit_text : list Z := [112; 101; 114; 109; 105; 116].
Definition deny_text : list Z := [100; 101; 110; 121].
(** [10.1.2.3/8], [10.9.0.0/16], [9] and [32] *)
Definition net8_text : list Z := [49; 48; 46; 49; 46; 50; 46; 51; 47; 56].
Definition net16_text : list Z := [49; 48; 46; 57; 46; 48; 46; 48; 47; 49; 54].
Definition ge_text : list Z := [57].
Definition le_text : list Z := [51; 50].

Definition demo_ops : list plist_op :=
  [OpHooks 5 6;
   OpInstall AFI_IP demo_name None (Some permit_text) (Some net8_text) (Some ge_text) (Some le_text);
   OpInstall AFI_IP demo_name (Some [51]) (Some deny_text) (Some net16_text) None (Some le_text);
   OpOrfSet demo_name AFI_IP (OrfPrefix 7 0 0 (demo_prefix 10 0 0 0 8)) true true;
   OpApply AFI_IP false demo_name (demo_prefix 10 9 1 1 24);
   OpApply AFI_IP false demo_name (demo_prefix 10 8 1 1 24);
   OpApply AFI_IP true demo_name (demo_prefix 11 0 0 0 8)].

Lemma demo_ops_ok : ops_ok demo_pton zero_prefix demo_ops sp_init.
Proof. apply ops_okb_sound. vm_compute. reflexivity. Qed.

Lemma prefix_lists_refine_policies_witness :
  exists h lg, do_ops place_last demo_pton zero_prefix demo_ops (World static_masters []) =
      Ret ([Done; Code 0; Code 0; Code 0; Verdict PREFIX_DENY; Verdict PREFIX_PERMIT; Verdict PREFIX_DENY], World h lg) /\
    notice_of <$> lg = [NHook 5; NNotify demo_name RMAP_EVENT_PLIST_ADDED; NHook 5; NNotify demo_name RMAP_EVENT_PLIST_ADDED;
                        NNotify demo_name RMAP_EVENT_PLIST_ADDED] /\
    keeps_policies h (sp_run demo_pton zero_prefix demo_ops sp_init).1.1.
Proof.
  exact (prefix_lists_refine_policies place_last demo_pton zero_prefix demo_ops demo_pton_ok zero_prefix_ok demo_ops_ok).
Defined.

Lemma prefix_list_apply_first_match_witness :
  exists x w t,
    do_ops place_last demo_pton zero_prefix (demo_ops ++ [OpApply AFI_IP false demo_name (demo_prefix 10 9 1 1 24)]) (World static_masters []) =
      Ret ((sp_run demo_pton zero_prefix demo_ops sp_init).1.2 ++ [Verdict t], w) /\ decides (po_rules x) (demo_prefix 10 9 1 1 24) t.
Proof.
  eexists. apply (prefix_list_apply_first_match place_last demo_pton zero_prefix demo_ops AFI_IP false demo_name);
    [apply demo_pton_ok|apply zero_prefix_ok|apply demo_ops_ok|discriminate|apply prefix_wfb_sound; vm_compute; reflexivity|vm_compute; reflexivity].
Defined.

Lemma prefix_lists_ordered_witness :
  exists h lg ps,
    do_ops place_last demo_pton zero_prefix demo_ops (World static_masters []) =
      Ret ((sp_run demo_pton zero_prefix demo_ops sp_init).1.2, World h lg) /\
    keeps_policies h (sp_run demo_pton zero_prefix demo_ops sp_init).1.1 /\
    ps = (master_of AFI_IP false (sp_run demo_pton zero_prefix demo_ops sp_init).1.1).2 /\
    Forall (fun x => ordered_rules (po_rules x)) (nm_num ps ++ nm_str ps) /\ NoDup (po_name <$> nm_num ps ++ nm_str ps).
Proof.
  apply (prefix_lists_ordered place_last demo_pton zero_prefix demo_ops AFI_IP false);
    [apply demo_pton_ok|apply zero_prefix_ok|apply demo_ops_ok|discriminate].
Defined.

Lemma prefix_list_reset_frees_all_witness :
  exists answers h lg,
    do_ops place_last demo_pton zero_prefix (demo_ops ++ [OpReset]) (World static_masters []) = Ret (answers, World h lg) /\
    dom h = dom static_masters.
Proof.
  exact (prefix_list_reset_frees_all place_last demo_pton zero_prefix demo_ops demo_pton_ok zero_prefix_ok demo_ops_ok).
Defined.

Lemma command_range_not_removed_witness :
  exists w,
    do_ops place_last demo_pton zero_prefix
      [OpInstall AFI_IP demo_name None (Some permit_text) (Some net8_text) (Some ge_text) (Some le_text);
       OpUninstall AFI_IP demo_name None (Some permit_text) (Some net8_text) (Some ge_text) (Some le_text)] (World static_masters []) =
      Ret ([Code CMD_SUCCESS; Code CMD_WARNING_CONFIG_FAILED], w).
Proof.
  eapply (command_range_not_removed place_last demo_pton zero_prefix AFI_IP demo_name None permit_text net8_text ge_text le_text);
    [apply demo_pton_ok|apply zero_prefix_ok|discriminate|reflexivity|left; reflexivity|vm_compute; reflexivity|vm_compute; discriminate
    |vm_compute; reflexivity|vm_compute; reflexivity].
Defined.

Definition stray_filter : orf_prefix := OrfPrefix 5 0 0 (demo_prefix 255 0 0 0 3).

Lemma prefix_bgp_orf_set_overrun_witness :
  do_ops place_last demo_pton zero_prefix (demo_ops ++ [OpOrfSet demo_name AFI_IP stray_filter true true]) (World static_masters []) = Fault.
Proof.
  eapply (prefix_bgp_orf_set_overrun place_last demo_pton zero_prefix demo_ops demo_name AFI_IP stray_filter true);
    [apply demo_pton_ok|apply zero_prefix_ok|apply demo_ops_ok|discriminate|reflexivity
    |split; [apply prefix_wfb_sound; vm_compute; reflexivity|reflexivity|vm_compute; discriminate]
    |split; [vm_compute; discriminate|exists 255; split; [reflexivity|vm_compute; reflexivity]]
    |vm_compute; reflexivity|].
  vm_compute. intros x [= <-]. reflexivity.
Defined.

(** Shorter prefixes go past the end with smaller last bytes. *)
Example stray_filter_runs (x len : Z) :
  (x, len) ∈ [(255, 3); (192, 1); (129, 1); (1, 0)] ->
  do_op place_last demo_pton zero_prefix (OpOrfSet demo_name AFI_IP (OrfPrefix 5 0 0 (demo_prefix x 0 0 0 len)) true true)
    (World static_masters []) = Fault.
Proof. intros H. repeat (apply elem_of_cons in H as [[= -> ->]|H]; [vm_compute; reflexivity|]). by apply not_elem_of_nil in H. Qed.
