(* ===== verification/BgpOrf.v ===== *)
(** * Outbound route filters (frr-frr-7.2/bgpd: bgp_packet.c, bgpd.c, bgp_route.c; lib: iana_afi.h)

    A BGP speaker can ask its peer to filter routes before they are sent: it
    puts its inbound prefix list into a ROUTE-REFRESH message
    ([bgp_route_refresh_send]) and the peer keeps the rules as a prefix list of
    its own ([bgp_route_refresh_receive]), under a name made of the host and the
    address family.  The routes for the members of an update group are checked
    against the list the group's configuration points to ([orf_check]).

    The state is that of the program as far as these functions see it: the
    prefix lists, the peer, the packet it receives and the one that is built,
    the update groups, and what was sent or started. *)

From S2P Require Import Prelude Stream SepLogic Heap FrrPrefix Plist.

#[local] Open Scope Z_scope.

(** ** Address families *)
#[export] Instance afi_eq_dec : EqDecision afi_t.
Proof. solve_decision. Defined.

Inductive safi_t :=
  | SAFI_UNICAST | SAFI_MULTICAST | SAFI_MPLS_VPN | SAFI_ENCAP | SAFI_EVPN | SAFI_LABELED_UNICAST | SAFI_FLOWSPEC.
#[export] Instance safi_eq_dec : EqDecision safi_t.
Proof. solve_decision. Defined.

(** The numbers inside the program *)
Definition afi_number (afi : afi_t) : Z := match afi with AFI_IP => 1 | AFI_IP6 => 2 | AFI_L2VPN => 3 end.
Definition safi_number (safi : safi_t) : Z :=
  match safi with
  | SAFI_UNICAST => 1 | SAFI_MULTICAST => 2 | SAFI_MPLS_VPN => 3 | SAFI_ENCAP => 4 | SAFI_EVPN => 5
  | SAFI_LABELED_UNICAST => 6 | SAFI_FLOWSPEC => 7
  end.

(** The numbers of the protocol; [None] is [AFI_MAX] and [SAFI_MAX]. *)
Definition afi_int2iana (afi : afi_t) : Z := match afi with AFI_IP => 1 | AFI_IP6 => 2 | AFI_L2VPN => 25 end.
Definition safi_int2iana (safi : safi_t) : Z :=
  match safi with
  | SAFI_UNICAST => 1 | SAFI_MULTICAST => 2 | SAFI_MPLS_VPN => 128 | SAFI_ENCAP => 7 | SAFI_EVPN => 70
  | SAFI_LABELED_UNICAST => 4 | SAFI_FLOWSPEC => 133
  end.
Definition afi_iana2int (afi : Z) : option afi_t :=
  if afi =? 1 then Some AFI_IP else if afi =? 2 then Some AFI_IP6 else if afi =? 25 then Some AFI_L2VPN else None.
Definition safi_iana2int (safi : Z) : option safi_t :=
  if safi =? 1 then Some SAFI_UNICAST
  else if safi =? 2 then Some SAFI_MULTICAST
  else if safi =? 128 then Some SAFI_MPLS_VPN
  else if safi =? 7 then Some SAFI_ENCAP
  else if safi =? 70 then Some SAFI_EVPN
  else if safi =? 4 then Some SAFI_LABELED_UNICAST
  else if safi =? 133 then Some SAFI_FLOWSPEC
  else None.

Abbreviation slot := (afi_t * safi_t)%type.
Definition bgp_map_afi_safi_iana2int (pkt_afi pkt_safi : Z) : option slot :=
  match afi_iana2int pkt_afi, safi_iana2int pkt_safi with
  | Some afi, Some safi => Some (afi, safi)
  | _, _ => None
  end.
Definition bgp_map_afi_safi_int2iana (sl : slot) : Z * Z := (afi_int2iana sl.1, safi_int2iana sl.2).

Definition afi2family (afi : afi_t) : family :=
  match afi with AFI_IP => AF_INET | AFI_IP6 => AF_INET6 | AFI_L2VPN => AF_ETHERNET end.
Definition prefix_blen (p : prefix) : Z :=
  match p_family p with
  | AF_INET => IPV4_MAX_BYTELEN
  | AF_INET6 => IPV6_MAX_BYTELEN
  | AF_ETHERNET => ETH_ALEN
  | _ => 0
  end.

(** ** Constants *)
Definition BGP_MARKER_SIZE : nat := 16.
Definition BGP_HEADER_SIZE : Z := 19.
Definition BGP_MAX_PACKET_SIZE : Z := 4096.
Definition BGP_MSG_ROUTE_REFRESH_MIN_SIZE : Z := BGP_HEADER_SIZE + 4.
Definition BGP_MSG_ROUTE_REFRESH_NEW : Z := 5.
Definition BGP_MSG_ROUTE_REFRESH_OLD : Z := 128.
Definition BGP_NOTIFY_HEADER_ERR : Z := 1.
Definition BGP_NOTIFY_HEADER_BAD_MESTYPE : Z := 3.
Definition BGP_NOTIFY_FSM_ERR : Z := 5.
Definition BGP_NOTIFY_CEASE : Z := 6.
Definition BGP_PACKET_NOOP : Z := 0.
Definition BGP_Stop : Z := 2.
Definition REFRESH_IMMEDIATE : Z := 1.
Definition REFRESH_DEFER : Z := 2.
Definition ORF_TYPE_PREFIX : Z := 64.
Definition ORF_TYPE_PREFIX_OLD : Z := 128.
Definition ORF_COMMON_PART_ADD : Z := 0x00.
Definition ORF_COMMON_PART_REMOVE : Z := 0x80.
Definition ORF_COMMON_PART_REMOVE_ALL : Z := 0xC0.
Definition ORF_COMMON_PART_PERMIT : Z := 0x00.
Definition ORF_COMMON_PART_DENY : Z := 0x20.

(** ** State *)

(** The fields of [struct peer] that are used; [pr_subgroup] is the subgroup
    that [peer_af_find] leads to. *)
Record bgp_peer := BgpPeer {
  pr_host : list Z;
  pr_refresh_adv : bool;
  pr_refresh_new_rcv : bool;
  pr_established : bool;
  pr_filter_in : slot -> Z;
  pr_orf_plist : slot -> Z;
  pr_orf_send : slot -> bool;
  pr_wait_refresh : slot -> bool;
  pr_subgroup : slot -> option Z
}.

Record subgroup := Subgroup { sg_default_originate : bool; sg_group : Z }.
(** The [conf] of an update group *)
Record group_conf := GroupConf {
  gc_orf_plist : slot -> Z;
  gc_orf_rm_adv : slot -> bool;
  gc_orf_sm_rcv : slot -> bool;
  gc_orf_sm_old_rcv : slot -> bool
}.

Inductive bgp_event :=
  | BgpNotify (code subcode : Z)
  | BgpSend (s : stream)
  | BgpAnnounce (sl : slot).

Record bgp_state := BgpState {
  b_world : world;
  b_peer : bgp_peer;
  b_curr : stream;
  b_work : stream;
  b_subgroups : gmap Z subgroup;
  b_groups : gmap Z group_conf;
  b_log : list bgp_event
}.

Definition set_orf_plist (sl : slot) (v : Z) (p : bgp_peer) : bgp_peer :=
  BgpPeer (pr_host p) (pr_refresh_adv p) (pr_refresh_new_rcv p) (pr_established p) (pr_filter_in p)
    (<[sl := v]> (pr_orf_plist p)) (pr_orf_send p) (pr_wait_refresh p) (pr_subgroup p).
Definition set_orf_send (sl : slot) (v : bool) (p : bgp_peer) : bgp_peer :=
  BgpPeer (pr_host p) (pr_refresh_adv p) (pr_refresh_new_rcv p) (pr_established p) (pr_filter_in p)
    (pr_orf_plist p) (<[sl := v]> (pr_orf_send p)) (pr_wait_refresh p) (pr_subgroup p).
Definition set_wait_refresh (sl : slot) (v : bool) (p : bgp_peer) : bgp_peer :=
  BgpPeer (pr_host p) (pr_refresh_adv p) (pr_refresh_new_rcv p) (pr_established p) (pr_filter_in p)
    (pr_orf_plist p) (pr_orf_send p) (<[sl := v]> (pr_wait_refresh p)) (pr_subgroup p).
Definition set_group_orf (sl : slot) (v : Z) (g : group_conf) : group_conf :=
  GroupConf (<[sl := v]> (gc_orf_plist g)) (gc_orf_rm_adv g) (gc_orf_sm_rcv g) (gc_orf_sm_old_rcv g).

Definition set_world (w : world) (b : bgp_state) : bgp_state :=
  BgpState w (b_peer b) (b_curr b) (b_work b) (b_subgroups b) (b_groups b) (b_log b).
Definition set_peer (p : bgp_peer) (b : bgp_state) : bgp_state :=
  BgpState (b_world b) p (b_curr b) (b_work b) (b_subgroups b) (b_groups b) (b_log b).
Definition set_curr (s : stream) (b : bgp_state) : bgp_state :=
  BgpState (b_world b) (b_peer b) s (b_work b) (b_subgroups b) (b_groups b) (b_log b).
Definition set_work (s : stream) (b : bgp_state) : bgp_state :=
  BgpState (b_world b) (b_peer b) (b_curr b) s (b_subgroups b) (b_groups b) (b_log b).
Definition set_subgroups (g : gmap Z subgroup) (b : bgp_state) : bgp_state :=
  BgpState (b_world b) (b_peer b) (b_curr b) (b_work b) g (b_groups b) (b_log b).
Definition set_groups (g : gmap Z group_conf) (b : bgp_state) : bgp_state :=
  BgpState (b_world b) (b_peer b) (b_curr b) (b_work b) (b_subgroups b) g (b_log b).
Definition add_event (e : bgp_event) (b : bgp_state) : bgp_state :=
  BgpState (b_world b) (b_peer b) (b_curr b) (b_work b) (b_subgroups b) (b_groups b) (b_log b ++ [e]).

(** A computation on a part of the state *)
Definition zoom {S T A} (get : S -> T) (put : T -> S -> S) (m : M T A) : M S A := fun s =>
  match m (get s) with
  | Ret (a, t) => Ret (a, put t s)
  | AssertFail => AssertFail
  | Fault => Fault
  | NoFuel => NoFuel
  end.
Definition on_world {A} : M world A -> M bgp_state A := zoom b_world set_world.
Definition on_curr {A} : St A -> M bgp_state A := zoom b_curr set_curr.
Definition on_work {A} : St A -> M bgp_state A := zoom b_work set_work.
Definition get_peer : M bgp_state bgp_peer := b ← mget; mret (b_peer b).
Definition update_peer (f : bgp_peer -> bgp_peer) : M bgp_state unit := mmodify (fun b => set_peer (f (b_peer b)) b).
Definition bgp_emit (e : bgp_event) : M bgp_state unit := mmodify (add_event e).
Definition bgp_notify_send (code subcode : Z) : M bgp_state unit := bgp_emit (BgpNotify code subcode).

(** ** Sending *)
Definition bgp_packet_set_marker (type : Z) : St Z :=
  mfor BGP_MARKER_SIZE 0 (fun _ => stream_putc 0xff ;; mret tt) ;;
  stream_putw 0 ;;
  stream_putc type ;;
  stream_get_endp.

(** [cp] is an [int]. *)
Definition bgp_packet_set_size : St Z :=
  cp ← stream_get_endp;
  stream_putw_at (Z.of_nat BGP_MARKER_SIZE) cp ;;
  mret cp.

(** The loop of [prefix_bgp_orf_entry] (lib/plist.c); the stream is the packet
    that is built. *)
Fixpoint send_entries (fuel : nat) (pentry init_flag permit_flag deny_flag : Z) : M bgp_state unit :=
  match fuel with
  | O => mnofuel
  | S fuel =>
      if pentry =? 0 then mret tt
      else
        e ← on_world (on_mem (load_entry pentry));
        let flag := u8 (Z.lor init_flag (match e_type e with PREFIX_PERMIT => permit_flag | PREFIX_DENY => deny_flag end)) in
        on_work (
          stream_putc flag ;;
          stream_putl (u32 (e_seq e)) ;;
          stream_putc (u8 (e_ge e)) ;;
          stream_putc (u8 (e_le e)) ;;
          stream_put_prefix (Stream.Prefix (prefixlen (e_prefix e)) (u (e_prefix e)))) ;;
        send_entries fuel (e_next e) init_flag permit_flag deny_flag
  end.
Definition prefix_bgp_orf_entry (plist init_flag permit_flag deny_flag : Z) : M bgp_state unit :=
  if plist =? 0 then mret tt
  else
    fuel ← on_world (on_mem mem_fuel);
    l ← on_world (on_mem (load_list plist));
    send_entries (S fuel) (pl_head l) init_flag permit_flag deny_flag.

Section send.
Context (malloc_bytes : Z -> list Z).

Definition is_orf_prefix (orf_type : Z) : bool := (orf_type =? ORF_TYPE_PREFIX) || (orf_type =? ORF_TYPE_PREFIX_OLD).

(** The packet is queued for the peer ([bgp_packet_add], [bgp_writes_on]):
    the event. *)
Definition bgp_route_refresh_send (sl : slot) (orf_type when_to_refresh : Z) (remove : bool) : M bgp_state unit :=
  peer ← get_peer;
  let '(pkt_afi, pkt_safi) := bgp_map_afi_safi_int2iana sl in
  s ← mlift (stream_new malloc_bytes BGP_MAX_PACKET_SIZE);
  mmodify (set_work s) ;;
  on_work (bgp_packet_set_marker
    (if pr_refresh_new_rcv peer then BGP_MSG_ROUTE_REFRESH_NEW else BGP_MSG_ROUTE_REFRESH_OLD)) ;;
  on_work (stream_putw pkt_afi ;; stream_putc 0 ;; stream_putc pkt_safi) ;;
  mwhen (is_orf_prefix orf_type && (remove || negb (pr_filter_in peer sl =? 0))) (
    on_work (stream_putc when_to_refresh ;; stream_putc orf_type) ;;
    orfp ← on_work stream_get_endp;
    on_work (stream_putw 0) ;;
    (if remove then
       update_peer (set_orf_send sl false) ;;
       on_work (stream_putc ORF_COMMON_PART_REMOVE_ALL ;; mret tt)
     else
       update_peer (set_orf_send sl true) ;;
       prefix_bgp_orf_entry (pr_filter_in peer sl) ORF_COMMON_PART_ADD ORF_COMMON_PART_PERMIT ORF_COMMON_PART_DENY) ;;
    endp ← on_work stream_get_endp;
    let orf_len := u16 (endp - orfp - 2) in
    on_work (stream_putw_at orfp orf_len) ;;
    mret tt) ;;
  on_work bgp_packet_set_size ;;
  b ← mget;
  bgp_emit (BgpSend (b_work b)).
End send.

(** ** Receiving *)

(** A pointer into the packet is the offset in its data. *)
Definition stream_pnt : St Z := STREAM_VERIFY_SANE ;; s ← mget; mret (s_getp s).

(** [if ((ok = (p_pnt < p_end))) x = *p_pnt++;] on a field that was zeroed *)
Definition next_byte (p_pnt p_end : Z) : St (Z * bool * Z) :=
  if p_pnt <? p_end then x ← data_at p_pnt; mret (x, true, p_pnt + 1)
  else mret (0, false, p_pnt).

(** The fields of an entry after its common part: the filter, [ok] and
    [p_pnt] *)
Definition orf_entry (afi : afi_t) (p_pnt p_end : Z) : St (orf_prefix * bool * Z) :=
  '(seq, p_pnt) ←
    (if 4 <=? p_end - p_pnt then bs ← memcpy_from p_pnt 4; mret (be_val bs, p_pnt + 4)
     else mret (0, p_end));
  '(ge, _, p_pnt) ← next_byte p_pnt p_end;
  '(le, _, p_pnt) ← next_byte p_pnt p_end;
  '(len, ok, p_pnt) ← next_byte p_pnt p_end;
  let p := Prefix (afi2family afi) len (replicate 40 0) in
  let psize := PSIZE len in
  let '(ok, psize) := if prefix_blen p <? psize then (false, prefix_blen p) else (ok, psize) in
  let '(ok, psize) := if p_end - p_pnt <? psize then (false, p_end - p_pnt) else (ok, psize) in
  bs ← (if 0 <? psize then memcpy_from p_pnt psize else mret []);
  u ← mlift (write_bytes (u p) 0 bs);
  mret (OrfPrefix seq ge le (Prefix (p_family p) len u), ok, p_pnt + psize).

Section receive.
Context (place : pmem -> Z -> Z).

(** [sprintf(name, "%s.%d.%d", peer->host, afi, safi)] *)
Definition orf_name (host : list Z) (sl : slot) : list Z :=
  host ++ [46; 48 + afi_number sl.1; 46; 48 + safi_number sl.2].

(** [while (p_pnt < p_end)] *)
Fixpoint orf_entries (fuel : nat) (afi : afi_t) (name : list Z) (p_pnt p_end : Z) : M bgp_state unit :=
  match fuel with
  | O => mnofuel
  | S fuel =>
      if negb (p_pnt <? p_end) then mret tt
      else
        common ← on_curr (data_at p_pnt);
        if negb (Z.land common ORF_COMMON_PART_REMOVE_ALL =? 0) then on_world (prefix_bgp_orf_remove_all afi name)
        else
          '(orfp, ok, p_pnt) ← on_curr (orf_entry afi (p_pnt + 1) p_end);
          ret ←
            (if ok : bool then
               on_world (prefix_bgp_orf_set place name afi orfp (Z.land common ORF_COMMON_PART_DENY =? 0)
                           (Z.land common ORF_COMMON_PART_REMOVE =? 0))
             else mret CMD_SUCCESS);
          if negb ok || negb (ret =? CMD_SUCCESS) then on_world (prefix_bgp_orf_remove_all afi name)
          else orf_entries fuel afi name p_pnt p_end
  end.

(** [while ((stream_pnt(s) + 2) < end)] *)
Fixpoint orf_blocks (fuel : nat) (sl : slot) (last : Z) : M bgp_state unit :=
  match fuel with
  | O => mnofuel
  | S fuel =>
      pnt ← on_curr stream_pnt;
      if negb (pnt + 2 <? last) then mret tt
      else
        orf_type ← on_curr stream_getc;
        orf_len ← on_curr stream_getw;
        pnt ← on_curr stream_pnt;
        if last <? pnt + orf_len then mret tt
        else if is_orf_prefix orf_type then
          if orf_len <? 7 then mret tt
          else
            peer ← get_peer;
            let name := orf_name (pr_host peer) sl in
            orf_entries (S (Z.to_nat orf_len)) sl.1 name pnt (pnt + orf_len) ;;
            plist ← on_world (on_mem (prefix_bgp_orf_lookup sl.1 name));
            update_peer (set_orf_plist sl plist) ;;
            on_curr (stream_forward_getp orf_len) ;;
            orf_blocks fuel sl last
        else
          on_curr (stream_forward_getp orf_len) ;;
          orf_blocks fuel sl last
  end.

(** What follows the filters: the update group points to the list, and the
    routes are announced again. *)
Definition refresh_routes (sl : slot) : M bgp_state unit :=
  update_peer (fun p => if pr_wait_refresh p sl then set_wait_refresh sl false p else p) ;;
  peer ← get_peer;
  (match pr_subgroup peer sl with
   | None => mret tt
   | Some a =>
       b ← mget;
       sg ← of_option (b_subgroups b !! a);
       mwhen (negb (pr_orf_plist peer sl =? 0))
         (g ← of_option (b_groups b !! sg_group sg);
          mmodify (set_groups (<[sg_group sg := set_group_orf sl (pr_orf_plist peer sl) g]> (b_groups b)))) ;;
       mwhen (sg_default_originate sg)
         (mmodify (fun b => set_subgroups (<[a := Subgroup false (sg_group sg)]> (b_subgroups b)) b))
   end) ;;
  bgp_emit (BgpAnnounce sl).

(** [size] is that of the message without its header. *)
Definition bgp_route_refresh_receive (size : Z) : M bgp_state Z :=
  peer ← get_peer;
  if negb (pr_refresh_adv peer) then
    bgp_notify_send BGP_NOTIFY_HEADER_ERR BGP_NOTIFY_HEADER_BAD_MESTYPE ;; mret BGP_Stop
  else if negb (pr_established peer) then
    bgp_notify_send BGP_NOTIFY_FSM_ERR 0 ;; mret BGP_Stop
  else
    pkt_afi ← on_curr stream_getw;
    on_curr stream_getc ;;
    pkt_safi ← on_curr stream_getc;
    match bgp_map_afi_safi_iana2int pkt_afi pkt_safi with
    | None => mret BGP_PACKET_NOOP
    | Some sl =>
        let plain := size =? BGP_MSG_ROUTE_REFRESH_MIN_SIZE - BGP_HEADER_SIZE in
        if negb plain && (size - (BGP_MSG_ROUTE_REFRESH_MIN_SIZE - BGP_HEADER_SIZE) <? 5) then
          bgp_notify_send BGP_NOTIFY_CEASE 0 ;; mret BGP_Stop
        else
          deferred ←
            (if plain then mret false
             else
               when_to_refresh ← on_curr stream_getc;
               pnt ← on_curr stream_pnt;
               orf_blocks (S (Z.to_nat size)) sl (pnt + (size - 5)) ;;
               mret (when_to_refresh =? REFRESH_DEFER));
          if deferred : bool then mret BGP_PACKET_NOOP
          else refresh_routes sl ;; mret BGP_PACKET_NOOP
    end.
End receive.

(** ** Filtering

    What [subgroup_announce_check] does with the filter of a peer: whether the
    route to [p] goes on to the next check. *)
Definition orf_check (g : group_conf) (sl : slot) (p : prefix) : M bgp_state bool :=
  if gc_orf_rm_adv g sl && (gc_orf_sm_rcv g sl || gc_orf_sm_old_rcv g sl) && negb (gc_orf_plist g sl =? 0) then
    t ← on_world (on_mem (prefix_list_apply (gc_orf_plist g sl) p));
    mret (match t with PREFIX_DENY => false | PREFIX_PERMIT => true end)
  else mret true.
