(* ===== verification/BgpOrfRecv.v ===== *)
(** * What a ROUTE-REFRESH message does to the filters of a peer

    [block_ops] reads the bytes of a message as calls of the prefix lists:
    the filters it sets and removes, up to the first one that is malformed or
    refused.  [receive_run] says that [bgp_route_refresh_receive] makes these
    calls and no others, if they are within the conditions of the prefix lists
    ([ops_ok]): above all, no filter has bits behind its prefix. *)

From stdpp Require Import functions.
From S2P Require Import Prelude Stream StreamRefine SepLogic Heap FrrPrefix FrrPrefixBits.
From S2P Require Import Plist PlistVty PlistQuery PlistBody PlistMaster PlistWorld PlistSpec PlistText PlistSteps PlistReset PlistHistory.
From S2P Require Import BgpOrf.

#[local] Open Scope Z_scope.

(** ** Bytes of a packet *)

(** The bytes of [s] between the offsets [p] and [e] *)
Definition window (s : stream) (p e : Z) (bs : list Z) : Prop := block_read (s_data s) p (e - p) = Some bs.

Lemma window_bounds s p e bs : window s p e bs -> 0 <= p /\ e = p + Z.of_nat (length bs) /\ e <= Z.of_nat (length (s_data s)).
Proof.
  unfold window, block_read. case_bool_decide as H; [|done]. intros [= <-]. rewrite length_take, length_drop. lia.
Qed.

Lemma window_split s p e bs1 bs2 :
  window s p e (bs1 ++ bs2) ->
  block_read (s_data s) p (Z.of_nat (length bs1)) = Some bs1 /\ window s (p + Z.of_nat (length bs1)) e bs2.
Proof.
  intros H. pose proof (window_bounds _ _ _ _ H) as (H0 & He & Hd). rewrite length_app in He.
  unfold window, block_read in *. rewrite bool_decide_true in H by lia. injection H as H.
  rewrite bool_decide_true by lia. rewrite bool_decide_true by lia. split; f_equal.
  - rewrite Nat2Z.id. replace (Z.to_nat (e - p)) with (length bs1 + length bs2)%nat in H by lia.
    apply (f_equal (take (length bs1))) in H. rewrite take_take, take_app_length in H. by rewrite Nat.min_l in H by lia.
  - apply (f_equal (drop (length bs1))) in H. rewrite drop_app_length in H. rewrite <- H, skipn_firstn_comm, drop_drop.
    f_equal; [lia|]. f_equal. lia.
Qed.

Lemma window_cons s p e x bs : window s p e (x :: bs) -> data_at p s = Ret (x, s) /\ window s (p + 1) e bs.
Proof.
  intros H. destruct (window_split s p e [x] bs H) as [H1 H2]. split; [|done]. unfold data_at.
  rewrite (bind_ret_eq mget _ s s s) by done. assert (E : block_get (s_data s) p = Some x).
  { apply window_bounds in H as (H0 & He & Hd). simpl in He. pose proof (block_read_lookup _ _ _ 0 H0 H1 ltac:(simpl; lia)) as E.
    unfold block_get. rewrite bool_decide_true by lia. rewrite Nat.add_0_r in E. by rewrite E. }
  by rewrite E.
Qed.

Lemma window_memcpy s p e bs1 bs2 :
  window s p e (bs1 ++ bs2) ->
  memcpy_from p (Z.of_nat (length bs1)) s = Ret (bs1, s) /\ window s (p + Z.of_nat (length bs1)) e bs2.
Proof.
  intros [H1 H2]%window_split. split; [|done]. unfold memcpy_from. rewrite (bind_ret_eq mget _ s s s) by done. by rewrite H1.
Qed.

Lemma window_bytes s p e bs : Forall is_byte (s_data s) -> window s p e bs -> Forall is_byte bs.
Proof.
  intros Hd. unfold window, block_read. case_bool_decide; [|done]. intros [= <-]. by apply Forall_take, Forall_drop.
Qed.

Lemma window_end s p e bs : window s p e bs -> (p <? e) = match bs with [] => false | _ => true end.
Proof. intros (_ & -> & _)%window_bounds. destruct bs; simpl; [apply Z.ltb_ge|apply Z.ltb_lt]; lia. Qed.

(** ** An entry *)
Definition take_byte (bs : list Z) : Z * bool * list Z := match bs with x :: bs => (x, true, bs) | [] => (0, false, []) end.

Definition parse_entry (afi : afi_t) (bs : list Z) : orf_prefix * bool * list Z :=
  let '(seq, bs) := match bs with b0 :: b1 :: b2 :: b3 :: bs => (be_val [b0; b1; b2; b3], bs) | _ => (0, []) end in
  let '(ge, _, bs) := take_byte bs in
  let '(le, _, bs) := take_byte bs in
  let '(len, ok, bs) := take_byte bs in
  let size := Z.to_nat (PSIZE len) in
  let n := Nat.min (Nat.min size (afi_bytes afi)) (length bs) in
  (OrfPrefix seq ge le (Prefix (afi_family afi) len (take n bs ++ replicate (40 - n) 0)),
   ok && (n =? size)%nat, drop n bs).

Lemma take_byte_window s p e bs x ok rest :
  window s p e bs -> take_byte bs = (x, ok, rest) ->
  exists p', next_byte p e s = Ret ((x, ok, p'), s) /\ window s p' e rest /\ (length rest <= length bs)%nat.
Proof.
  intros H E. unfold next_byte. rewrite (window_end _ _ _ _ H). destruct bs as [|y bs]; injection E as <- <- <-.
  - by exists p.
  - destruct (window_cons _ _ _ _ _ H) as [Ex Hw]. exists (p + 1). rewrite (bind_ret_eq _ _ _ _ _ Ex). split_and!; [done..|simpl; lia].
Qed.

Lemma parse_entry_window s p e afi bs o ok rest :
  ip_afi afi -> Forall is_byte bs -> window s p e bs -> parse_entry afi bs = (o, ok, rest) ->
  exists p', orf_entry afi p e s = Ret ((o, ok, p'), s) /\ window s p' e rest /\ (length rest <= length bs)%nat.
Proof.
  intros Hafi Hb H E. unfold orf_entry.
  set (first := match bs with b0 :: b1 :: b2 :: b3 :: bs => (be_val [b0; b1; b2; b3], bs) | _ => (0, []) end).
  assert (Hfirst : exists p0,
    (if 4 <=? e - p then bs ← memcpy_from p 4; mret (be_val bs, p + 4) else mret (0, e)) s = Ret ((first.1, p0), s) /\
    window s p0 e first.2 /\ (length first.2 <= length bs)%nat /\ Forall is_byte first.2).
  { pose proof (window_bounds _ _ _ _ H) as (H0 & He & Hd). destruct (Z.leb_spec 4 (e - p)) as [Hle|Hgt].
    - destruct bs as [|b0 [|b1 [|b2 [|b3 bs']]]]; simpl in He; try lia.
      destruct (window_memcpy s p e [b0; b1; b2; b3] bs' H) as [Em Hw]. exists (p + 4).
      change (Z.of_nat (length [b0; b1; b2; b3])) with 4 in Em. rewrite (bind_ret_eq _ _ _ _ _ Em).
      split_and!; [done|exact Hw|simpl; lia|]. by repeat apply Forall_cons in Hb as [_ Hb].
    - exists e. assert (first = (0, [])) as -> by (unfold first; destruct bs as [|b0 [|b1 [|b2 [|b3 bs']]]]; simpl in He; (done || lia)).
      split_and!; [done| |simpl; lia|by constructor]. unfold window. rewrite Z.sub_diag, block_read_Some by lia. done. }
  destruct Hfirst as (p0 & Ef & Hw0 & Hl0 & Hb0). rewrite (bind_ret_eq _ _ _ _ _ Ef). cbn [fst snd] in *.
  unfold parse_entry in E. fold first in E. destruct first as [seq bs0]. cbn [fst snd] in *.
  assert (Hbyte : forall l x b r, Forall is_byte l -> take_byte l = (x, b, r) -> 0 <= x < 256 /\ Forall is_byte r).
  { intros l x b r Hl Et. destruct l as [|y l]; injection Et as <- <- <-; [by split; [lia|]|]. apply Forall_cons in Hl as [Hy Hl]. by split. }
  destruct (take_byte bs0) as [[ge b1] bs1] eqn:E1. destruct (take_byte_window _ _ _ _ _ _ _ Hw0 E1) as (p1 & En1 & Hw1 & Hl1).
  destruct (Hbyte _ _ _ _ Hb0 E1) as [_ Hb1]. rewrite (bind_ret_eq _ _ _ _ _ En1). clear En1.
  destruct (take_byte bs1) as [[le b2] bs2] eqn:E2. destruct (take_byte_window _ _ _ _ _ _ _ Hw1 E2) as (p2 & En2 & Hw2 & Hl2).
  destruct (Hbyte _ _ _ _ Hb1 E2) as [_ Hb2]. rewrite (bind_ret_eq _ _ _ _ _ En2). clear En2.
  destruct (take_byte bs2) as [[len b3] bs3] eqn:E3. destruct (take_byte_window _ _ _ _ _ _ _ Hw2 E3) as (p3 & En3 & Hw3 & Hl3).
  destruct (Hbyte _ _ _ _ Hb2 E3) as [Hlen _]. rewrite (bind_ret_eq _ _ _ _ _ En3). clear En3.
  assert (Hsize : 0 <= PSIZE len) by (apply Z.div_pos; lia).
  assert (Hblen : prefix_blen (Prefix (afi2family afi) len (replicate 40 0)) = Z.of_nat (afi_bytes afi)) by by destruct afi.
  assert (Hfam : afi2family afi = afi_family afi) by by destruct afi. rewrite Hblen. cbn [p_family u]. rewrite Hfam.
  pose proof (window_bounds _ _ _ _ Hw3) as (H03 & He3 & Hd3).
  set (n := Nat.min (Nat.min (Z.to_nat (PSIZE len)) (afi_bytes afi)) (length bs3)) in E.
  set (blen := Z.of_nat (afi_bytes afi)).
  assert (Hn : (if e - p3 <? (if blen <? PSIZE len then blen else PSIZE len)
                then (false, e - p3) else (if blen <? PSIZE len then false else b3, if blen <? PSIZE len then blen else PSIZE len)) =
               (b3 && (n =? Z.to_nat (PSIZE len))%nat, Z.of_nat n)).
  { unfold n, blen. destruct (Z.ltb_spec (Z.of_nat (afi_bytes afi)) (PSIZE len)).
    - destruct (Z.ltb_spec (e - p3) (Z.of_nat (afi_bytes afi))); f_equal; try lia;
        symmetry; apply andb_false_intro2, Nat.eqb_neq; lia.
    - destruct (Z.ltb_spec (e - p3) (PSIZE len)); f_equal; try lia.
      + symmetry; apply andb_false_intro2, Nat.eqb_neq; lia.
      + rewrite (proj2 (Nat.eqb_eq _ _)) by lia. by rewrite andb_true_r. }
  assert (Htail : exists p',
    (bs ← (if 0 <? Z.of_nat n then memcpy_from p3 (Z.of_nat n) else mret []);
     u ← mlift (write_bytes (replicate 40 0) 0 bs);
     mret (OrfPrefix seq ge le (Prefix (afi_family afi) len u), b3 && (n =? Z.to_nat (PSIZE len))%nat, p3 + Z.of_nat n)) s =
    Ret ((o, ok, p'), s) /\ window s p' e rest /\ (length rest <= length bs)%nat).
  { injection E as <- <- <-. exists (p3 + Z.of_nat n).
    assert (Hln : length (take n bs3) = n) by (rewrite length_take; lia).
    rewrite <- (take_drop n bs3) in Hw3. destruct (window_memcpy s p3 e _ _ Hw3) as [Em Hw]. rewrite Hln in Em, Hw.
    assert (Eread : (if 0 <? Z.of_nat n then memcpy_from p3 (Z.of_nat n) else mret []) s = Ret (take n bs3, s)).
    { destruct (Z.ltb_spec 0 (Z.of_nat n)); [done|]. replace n with 0%nat by lia. done. }
    rewrite (bind_ret_eq _ _ _ _ _ Eread), write_bytes_0 by (rewrite Hln, length_replicate; destruct afi; simpl in n; lia).
    rewrite Hln, drop_replicate. split_and!; [done..|rewrite length_drop; lia]. }
  destruct Htail as (p' & Et & Hw & Hl). exists p'. split; [|done].
  destruct (blen <? PSIZE len); destruct (_ <? _); injection Hn as Ho Hp; rewrite ?Hp, Ho; exact Et.
Qed.

(** ** Reading *)
Definition reading (s : stream) (e : Z) (bs : list Z) : Prop :=
  stream_ok s /\ window s (s_getp s) e bs /\ e <= s_endp s.

Lemma reading_step s e bs1 bs2 :
  reading s e (bs1 ++ bs2) -> reading (set_getp (s_getp s + Z.of_nat (length bs1)) s) e bs2.
Proof.
  intros (Hok & Hw & He). pose proof (window_bounds _ _ _ _ Hw) as (H0 & Ee & Hd). rewrite length_app in Ee.
  destruct (window_split _ _ _ _ _ Hw) as [_ Hw2]. split; [|by split]. destruct Hok as [Hg Hend Hs Hdat Hb].
  split; simpl; [lia|done..].
Qed.

Lemma reading_room s e x bs : reading s e (x :: bs) -> Z.of_nat (S (length bs)) <= STREAM_READABLE s /\ s_getp s + 1 < 2 ^ 63.
Proof.
  intros (Hok & Hw & He). pose proof (window_bounds _ _ _ _ Hw) as (H0 & Ee & Hd). simpl in Ee. destruct Hok as [Hg Hend Hs Hdat Hb].
  unfold STREAM_READABLE. rewrite wrap_small by lia. split; lia.
Qed.

Lemma getp_pp_reading s e x bs :
  reading s e (x :: bs) -> data_getp_pp s = Ret (x, set_getp (s_getp s + 1) s) /\ reading (set_getp (s_getp s + 1) s) e bs.
Proof.
  intros H. split; [|by apply (reading_step s e [x] bs)]. pose proof (reading_room _ _ _ _ H) as [_ Hr]. destruct H as (Hok & Hw & _).
  destruct (window_cons _ _ _ _ _ Hw) as [Ed _]. unfold data_getp_pp. rewrite (bind_ret_eq mget _ s s s) by done.
  rewrite (bind_ret_eq _ _ _ _ _ Ed). pose proof (ok_getp _ Hok). unfold mmodify, mbind, M_bind. rewrite wrap_small by lia. done.
Qed.

Lemma getc_reading s e x bs :
  reading s e (x :: bs) -> stream_getc s = Ret (x, set_getp (s_getp s + 1) s) /\ reading (set_getp (s_getp s + 1) s) e bs.
Proof.
  intros H. destruct (getp_pp_reading _ _ _ _ H) as [Ed Hn]. split; [|done]. pose proof (reading_room _ _ _ _ H) as [Hr _].
  unfold stream_getc. rewrite (bind_ret_eq _ _ _ _ _ (sane_ok s (proj1 H))), (bind_ret_eq mget _ s s s) by done.
  destruct (Z.ltb_spec (STREAM_READABLE s) 1); [lia|]. by rewrite (bind_ret_eq _ _ _ _ _ Ed).
Qed.

Lemma getw_reading s e x y bs :
  reading s e (x :: y :: bs) ->
  stream_getw s = Ret (be_val [x; y], set_getp (s_getp s + 2) s) /\ reading (set_getp (s_getp s + 2) s) e bs.
Proof.
  intros H. destruct (getp_pp_reading _ _ _ _ H) as [E1 H1]. destruct (getp_pp_reading _ _ _ _ H1) as [E2 H2].
  split; [|by apply (reading_step s e [x; y] bs)]. pose proof (reading_room _ _ _ _ H) as [Hr _].
  pose proof (window_bytes _ _ _ _ (ok_bytes _ (proj1 H)) (proj1 (proj2 H))) as Hb.
  apply Forall_cons in Hb as [Hx Hb]. apply Forall_cons in Hb as [Hy _].
  unfold stream_getw. rewrite (bind_ret_eq _ _ _ _ _ (sane_ok s (proj1 H))), (bind_ret_eq mget _ s s s) by done.
  destruct (Z.ltb_spec (STREAM_READABLE s) 2); [simpl in Hr; lia|].
  rewrite (bind_ret_eq _ _ _ _ _ E1). cbv zeta. rewrite (bind_ret_eq _ _ _ _ _ E2).
  assert (Ew : u16 (Z.lor (u16 (Z.shiftl x 8)) y) = be_val [x; y]).
  { be_norm. done. }
  rewrite Ew. unfold mret, M_ret. f_equal. f_equal. unfold set_getp. simpl. f_equal. lia.
Qed.

Lemma pnt_reading s e bs : reading s e bs -> stream_pnt s = Ret (s_getp s, s).
Proof. intros [H _]. unfold stream_pnt. by rewrite (bind_ret_eq _ _ _ _ _ (sane_ok s H)). Qed.

Lemma forward_reading s e bs1 bs2 :
  reading s e (bs1 ++ bs2) ->
  stream_forward_getp (Z.of_nat (length bs1)) s = Ret (tt, set_getp (s_getp s + Z.of_nat (length bs1)) s) /\
  reading (set_getp (s_getp s + Z.of_nat (length bs1)) s) e bs2.
Proof.
  intros H. split; [|by apply reading_step]. destruct H as (Hok & Hw & He).
  pose proof (window_bounds _ _ _ _ Hw) as (H0 & Ee & Hd). rewrite length_app in Ee. destruct (id Hok) as [Hg Hend Hs Hdat Hb].
  unfold stream_forward_getp. rewrite (bind_ret_eq _ _ _ _ _ (sane_ok s Hok)), (bind_ret_eq mget _ s s s) by done.
  unfold GETP_VALID. rewrite wrap_small by lia. destruct (Z.leb_spec (s_getp s + Z.of_nat (length bs1)) (s_endp s)); [done|lia].
Qed.

(** ** Operations from any state *)
Section receive.
Context (place : pmem -> Z -> Z) `{!Placement place}.
Context (inet_pton : family -> list Z -> option (list Z)) (Hpton : pton_spec inet_pton).
Context (uninit : prefix) (Huninit : prefix_wf uninit).

Abbreviation step := (sp_step inet_pton uninit).
Abbreviation run := (sp_run inet_pton uninit).

(** [w'] is what [ops] make of the policies [st] in [w]. *)
Definition follows (w : world) (st : sp_state) (ops : list plist_op) (w' : world) : Prop :=
  keeps_policies (w_mem w') (run ops st).1.1 /\
  notice_of <$> w_log w' = (notice_of <$> w_log w) ++ (run ops st).2.

Lemma follows_nil w st : keeps_policies (w_mem w) st -> follows w st [] w.
Proof. intros H. split; [done|]. by rewrite app_nil_r. Qed.

Lemma follows_app w st ops1 w1 ops2 w2 :
  follows w st ops1 w1 -> follows w1 (run ops1 st).1.1 ops2 w2 -> follows w st (ops1 ++ ops2) w2.
Proof.
  intros [_ H1] [H2 H3]. unfold follows. rewrite (sp_run_app inet_pton uninit).
  destruct (run ops1 st) as [[st1 a1] n1]. cbn [fst snd] in *. destruct (run ops2 st1) as [[st2 a2] n2]. cbn [fst snd] in *.
  split; [done|]. by rewrite H3, H1, app_assoc.
Qed.

Lemma run_op op w st :
  keeps_policies (w_mem w) st -> op_ok op st ->
  exists w', do_op place inet_pton uninit op w = Ret ((step op st).1.2, w') /\ follows w st [op] w'.
Proof.
  intros Hk Hok. destruct w as [h lg].
  destruct (step_keeps place inet_pton Hpton uninit Huninit op h st lg Hk Hok) as (h' & lg' & E & Hn & Hk').
  exists (World h' (lg ++ lg')). split; [done|]. unfold follows. cbn [w_mem w_log sp_run].
  destruct (step op st) as [[st' a] ns]. cbn [fst snd] in *. split; [done|]. by rewrite fmap_app, Hn, app_nil_r.
Qed.

(** The calls that make the operations *)
Lemma orf_set_runs w st name afi o permit set :
  keeps_policies (w_mem w) st -> op_ok (OpOrfSet name afi o permit set) st ->
  exists w' c, prefix_bgp_orf_set place name afi o permit set w = Ret (c, w') /\
    Code c = (step (OpOrfSet name afi o permit set) st).1.2 /\ follows w st [OpOrfSet name afi o permit set] w'.
Proof.
  intros Hk Hok. destruct (run_op _ w st Hk Hok) as (w' & E & Hf). cbn [do_op] in E. unfold code in E.
  apply bind_Ret_inv in E as (c & w1 & E1 & E2). injection E2 as E2 <-. by exists w1, c.
Qed.

Lemma orf_remove_all_runs w st afi name :
  keeps_policies (w_mem w) st -> ip_afi afi ->
  exists w', prefix_bgp_orf_remove_all afi name w = Ret (tt, w') /\ follows w st [OpOrfRemoveAll afi name] w'.
Proof.
  intros Hk Hafi. destruct (run_op (OpOrfRemoveAll afi name) w st Hk Hafi) as (w' & E & Hf). cbn [do_op] in E.
  apply bind_Ret_inv in E as ([] & w1 & E1 & E2). injection E2 as _ <-. by exists w1.
Qed.

(** ** Entries *)
Definition entry_op (name : list Z) (afi : afi_t) (common : Z) (o : orf_prefix) : plist_op :=
  OpOrfSet name afi o (Z.land common ORF_COMMON_PART_DENY =? 0) (Z.land common ORF_COMMON_PART_REMOVE =? 0).

(** [fuel] bounds the bytes. *)
Fixpoint entries_ops (fuel : nat) (name : list Z) (afi : afi_t) (bs : list Z) (st : sp_state) : list plist_op :=
  match fuel, bs with
  | S fuel, common :: bs =>
      if negb (Z.land common ORF_COMMON_PART_REMOVE_ALL =? 0) then [OpOrfRemoveAll afi name]
      else
        let '(o, ok, bs) := parse_entry afi bs in
        if negb ok then [OpOrfRemoveAll afi name]
        else
          let op := entry_op name afi common o in
          op ::
          (if bool_decide ((step op st).1.2 = Code CMD_SUCCESS) then entries_ops fuel name afi bs (step op st).1.1
           else [OpOrfRemoveAll afi name])
  | _, _ => []
  end.

Lemma entries_ops_cons fuel name afi common bs st : (0 < fuel)%nat -> entries_ops fuel name afi (common :: bs) st <> [].
Proof.
  destruct fuel as [|fuel]; [lia|]. intros _. cbn [entries_ops]. destruct (negb _); [done|].
  destruct (parse_entry afi bs) as [[o []] rest]; done.
Qed.

Lemma zoom_bind {S T A B} (get : S -> T) (put : T -> S -> S) (m : M T A) (k : A -> M S B) s a t :
  m (get s) = Ret (a, t) -> (zoom get put m ≫= k) s = k a (put t s).
Proof. intros E. unfold mbind, M_bind, zoom. by rewrite E. Qed.
Lemma zoom_eq {S T A} (get : S -> T) (put : T -> S -> S) (m : M T A) s a t :
  m (get s) = Ret (a, t) -> zoom get put m s = Ret (a, put t s).
Proof. intros E. unfold zoom. by rewrite E. Qed.

Lemma set_curr_id b : set_curr (b_curr b) b = b.
Proof. by destruct b. Qed.
Lemma set_world_id b : set_world (b_world b) b = b.
Proof. by destruct b. Qed.

(** Reading the packet does not change the state. *)
Lemma curr_bind {A B} (m : St A) (k : A -> M bgp_state B) b a :
  m (b_curr b) = Ret (a, b_curr b) -> (on_curr m ≫= k) b = k a b.
Proof. intros E. unfold on_curr. by rewrite (zoom_bind _ _ _ _ _ _ _ E), set_curr_id. Qed.

Lemma world_bind {A B} (m : M world A) (k : A -> M bgp_state B) b a w :
  m (b_world b) = Ret (a, w) -> (on_world m ≫= k) b = k a (set_world w b).
Proof. intros E. unfold on_world. by rewrite (zoom_bind _ _ _ _ _ _ _ E). Qed.

Lemma entries_run fuel name afi p e bs b st :
  ip_afi afi -> Forall is_byte (s_data (b_curr b)) -> (length bs <= fuel)%nat -> window (b_curr b) p e bs ->
  keeps_policies (w_mem (b_world b)) st -> ops_ok inet_pton uninit (entries_ops fuel name afi bs st) st ->
  exists w', orf_entries place (S fuel) afi name p e b = Ret (tt, set_world w' b) /\
    follows (b_world b) st (entries_ops fuel name afi bs st) w'.
Proof.
  intros Hafi. revert p bs b st. induction fuel as [|fuel IH]; intros p bs b st Hb Hl Hw Hk Hok; cbn [orf_entries];
    rewrite (window_end _ _ _ _ Hw); destruct bs as [|common bs]; cbn [negb length entries_ops] in *; try lia;
    try (exists (b_world b); rewrite set_world_id; split; [done|by apply follows_nil]).
  destruct (window_cons _ _ _ _ _ Hw) as [Ec Hw1]. rewrite (curr_bind _ _ _ _ Ec).
  assert (Hrm : forall w st1, keeps_policies (w_mem w) st1 ->
    exists w', on_world (prefix_bgp_orf_remove_all afi name) (set_world w b) = Ret (tt, set_world w' b) /\
      follows w st1 [OpOrfRemoveAll afi name] w').
  { intros w st1 Hk1. destruct (orf_remove_all_runs w st1 afi name Hk1 Hafi) as (w' & E & Hf). exists w'. split; [|done].
    by apply (zoom_eq b_world set_world _ (set_world w b)). }
  pose proof (Hrm (b_world b) st Hk) as Hrm0. rewrite set_world_id in Hrm0.
  destruct (negb (Z.land common ORF_COMMON_PART_REMOVE_ALL =? 0)); [done|].
  destruct (parse_entry afi bs) as [[o ok] rest] eqn:Ep.
  destruct (parse_entry_window _ _ _ _ _ _ _ _ Hafi (window_bytes _ _ _ _ Hb Hw1) Hw1 Ep) as (p' & Ee & Hw' & Hlr).
  rewrite (curr_bind _ _ _ _ Ee). destruct ok; cbn [negb orb] in *; [|exact Hrm0].
  destruct Hok as [Hop Hok].
  destruct (orf_set_runs (b_world b) st name afi o _ _ Hk Hop) as (w1 & c & E1 & Ec1 & Hf1).
  rewrite (world_bind _ _ _ _ _ E1). unfold entry_op in *. rewrite <- Ec1 in *.
  pose proof (proj1 Hf1) as Hk1. cbn [sp_run] in Hk1. set (op := OpOrfSet name afi o _ _) in *.
  assert (Est : (run [op] st).1.1 = (step op st).1.1) by (cbn [sp_run]; by destruct (step op st) as [[? ?] ?]).
  assert (Hk1' : keeps_policies (w_mem w1) (step op st).1.1) by (rewrite <- Est; apply Hf1).
  destruct (Z.eqb_spec c CMD_SUCCESS) as [->|Hne]; cbn [negb].
  - rewrite bool_decide_true in * by done.
    destruct (IH p' rest (set_world w1 b) (step op st).1.1) as (w' & E & Hf); [exact Hb|lia|exact Hw'|done|done|].
    exists w'. split; [exact E|]. apply (follows_app _ _ [op] w1); [done|by rewrite Est].
  - rewrite bool_decide_false in * by congruence. destruct (Hrm w1 _ Hk1') as (w' & E & Hf).
    exists w'. split; [exact E|]. apply (follows_app _ _ [op] w1); [done|by rewrite Est].
Qed.

(** ** Blocks *)

(** The calls that the blocks of a message make for the slot [sl] *)
Fixpoint block_ops (fuel : nat) (name : list Z) (sl : slot) (bs : list Z) (st : sp_state) : list plist_op :=
  match fuel, bs with
  | S fuel, orf_type :: l1 :: l2 :: bs =>
      let len := Z.to_nat (be_val [l1; l2]) in
      if (length bs <? len)%nat then []
      else if is_orf_prefix orf_type then
        if (len <? 7)%nat then []
        else
          let ops := entries_ops len name sl.1 (take len bs) st in
          ops ++ block_ops fuel name sl (drop len bs) (run ops st).1.1
      else block_ops fuel name sl (drop len bs) st
  | _, _ => []
  end.

(** The parts of the state that the blocks change *)
Definition moved (w : world) (s : stream) (f : slot -> Z) (b : bgp_state) : bgp_state :=
  let p := b_peer b in
  set_curr s (set_world w (set_peer
    (BgpPeer (pr_host p) (pr_refresh_adv p) (pr_refresh_new_rcv p) (pr_established p) (pr_filter_in p) f
       (pr_orf_send p) (pr_wait_refresh p) (pr_subgroup p)) b)).

Lemma moved_curr s b : moved (b_world b) s (pr_orf_plist (b_peer b)) b = set_curr s b.
Proof. by destruct b as [w [] ? ? ? ? ?]. Qed.

Lemma curr_step {A B} (m : St A) (k : A -> M bgp_state B) b a s :
  m (b_curr b) = Ret (a, s) -> (on_curr m ≫= k) b = k a (set_curr s b).
Proof. intros E. unfold on_curr. by rewrite (zoom_bind _ _ _ _ _ _ _ E). Qed.

(** The list of the peer after the blocks: the one they left, or the old one when there was none *)
Definition list_found (sl : slot) (name : list Z) (ops : list plist_op) (b : bgp_state) (w' : world) (f : slot -> Z) : Prop :=
  (ops = [] /\ w' = b_world b /\ f = pr_orf_plist (b_peer b)) \/
  (ops <> [] /\ (forall sl', sl' <> sl -> f sl' = pr_orf_plist (b_peer b) sl') /\
   prefix_bgp_orf_lookup sl.1 name (w_mem w') = Ret (f sl, w_mem w')).

Lemma lookup_world (sl : slot) name w st :
  keeps_policies (w_mem w) st -> ip_afi sl.1 ->
  exists a, prefix_bgp_orf_lookup sl.1 name (w_mem w) = Ret (a, w_mem w) /\
    on_mem (prefix_bgp_orf_lookup sl.1 name) w = Ret (a, w).
Proof.
  intros Hk Hafi. destruct (lookup_keeps sl.1 true name _ _ Hk Hafi) as (a & E & _). exists a. split; [done|].
  unfold on_mem, prefix_bgp_orf_lookup. rewrite E. by destruct w.
Qed.

Lemma blocks_run fuel (sl : slot) e bs b st :
  let name := orf_name (pr_host (b_peer b)) sl in
  let ops := block_ops fuel name sl bs st in
  ip_afi sl.1 -> reading (b_curr b) e bs -> (length bs <= fuel)%nat ->
  keeps_policies (w_mem (b_world b)) st -> ops_ok inet_pton uninit ops st ->
  exists w' s' f, orf_blocks place (S fuel) sl e b = Ret (tt, moved w' s' f b) /\
    follows (b_world b) st ops w' /\ list_found sl name ops b w' f.
Proof.
  intros name ops Hafi. subst ops. revert bs b st name. induction fuel as [|fuel IH]; intros bs b st name Hr Hl Hk Hok;
    cbn [orf_blocks]; rewrite (curr_bind _ _ _ _ (pnt_reading _ _ _ Hr));
    pose proof (window_bounds _ _ _ _ (proj1 (proj2 Hr))) as (H0 & He & Hd);
    assert (Hstop : forall s, exists w' s' f, (Ret (tt, set_curr s b) : res (unit * bgp_state)) = Ret (tt, moved w' s' f b) /\
      follows (b_world b) st [] w' /\ list_found sl name [] b w' f)
      by (intros s; exists (b_world b), s, (pr_orf_plist (b_peer b)); rewrite moved_curr;
          split_and!; [done|by apply follows_nil|by left]);
    pose proof (Hstop (b_curr b)) as Hstop0; rewrite set_curr_id in Hstop0.
  { destruct bs; [|simpl in Hl; lia]. simpl in He. destruct (Z.ltb_spec (s_getp (b_curr b) + 2) e); [lia|exact Hstop0]. }
  destruct bs as [|orf_type [|l1 [|l2 bs]]]; simpl in He;
    try (destruct (Z.ltb_spec (s_getp (b_curr b) + 2) e); [lia|exact Hstop0]).
  destruct (Z.ltb_spec (s_getp (b_curr b) + 2) e); [|lia]. cbn [negb].
  destruct (getc_reading _ _ _ _ Hr) as [E1 H1]. rewrite (curr_step _ _ _ _ _ E1).
  set (s1 := set_getp _ (b_curr b)) in *. destruct (getw_reading _ _ _ _ _ H1) as [E2 H2].
  rewrite (curr_step _ _ (set_curr s1 b) _ _ E2). set (s2 := set_getp _ s1) in *.
  change (set_curr s2 (set_curr s1 b)) with (set_curr s2 b). rewrite (curr_bind _ _ (set_curr s2 b) _ (pnt_reading _ _ _ H2)).
  pose proof (window_bytes _ _ _ _ (ok_bytes _ (proj1 Hr)) (proj1 (proj2 Hr))) as Hb. apply Forall_cons in Hb as [_ Hb].
  apply Forall_cons in Hb as [Hb1 Hb]. apply Forall_cons in Hb as [Hb2 Hb].
  assert (Hlen : be_val [l1; l2] = Z.of_nat (Z.to_nat (be_val [l1; l2]))).
  { rewrite Z2Nat.id; [done|]. apply (be_val_bound [l1; l2]). by do 2 (apply Forall_cons_2; [done|]). }
  cbn [block_ops] in *. set (len := Z.to_nat (be_val [l1; l2])) in *. rewrite Hlen.
  pose proof (window_bounds _ _ _ _ (proj1 (proj2 H2))) as (H02 & He2 & Hd2). cbn [b_curr set_curr].
  destruct (Nat.ltb_spec (length bs) len); destruct (Z.ltb_spec e (s_getp s2 + Z.of_nat len)); try lia; [apply Hstop|].
  assert (Hbs : reading s2 e (take len bs ++ drop len bs)) by by rewrite take_drop.
  assert (Htake : length (take len bs) = len) by (rewrite length_take; lia).
  destruct (forward_reading _ _ _ _ Hbs) as [E3 Hs3]. rewrite Htake in E3, Hs3. set (s3 := set_getp _ s2) in *.
  assert (Hrest : (length (drop len bs) <= fuel)%nat) by (rewrite length_drop; simpl in Hl; lia).
  destruct (is_orf_prefix orf_type).
  - destruct (Nat.ltb_spec len 7); destruct (Z.ltb_spec (Z.of_nat len) 7); try lia; [apply Hstop|].
    rewrite (bind_ret_eq get_peer _ _ (b_peer b) (set_curr s2 b)) by done. fold name.
    apply (ops_ok_app inet_pton uninit) in Hok as [Hok1 Hok2].
    destruct (window_split _ _ _ _ _ (proj1 (proj2 Hbs))) as [Hw _].
    destruct (entries_run len name sl.1 (s_getp s2) (s_getp s2 + Z.of_nat len) (take len bs) (set_curr s2 b) st) as (w1 & E4 & Hf1);
      [done|apply (proj1 H2)|lia| |done|done|].
    { unfold window. rewrite Htake in Hw. cbn [b_curr set_curr]. by replace (s_getp s2 + Z.of_nat len - s_getp s2) with (Z.of_nat len) by lia. }
    rewrite (bind_ret_eq _ _ _ _ _ E4). destruct (lookup_world sl name w1 _ (proj1 Hf1) Hafi) as (a & Ea & Ew).
    rewrite (world_bind _ _ (set_world w1 (set_curr s2 b)) _ _ Ew).
    set (b3 := set_peer (set_orf_plist sl a (b_peer b)) (set_world w1 (set_curr s2 b))).
    rewrite (bind_ret_eq (update_peer _) _ _ tt b3) by done. rewrite (curr_step _ _ b3 _ _ E3).
    destruct (IH (drop len bs) (set_curr s3 b3) (run (entries_ops len name sl.1 (take len bs) st) st).1.1) as (w' & s' & f & E5 & Hf2 & Hfound);
      [exact Hs3|done|apply Hf1|exact Hok2|].
    exists w', s', f. split; [exact E5|]. split; [by eapply follows_app|]. right.
    split. { destruct (take len bs) as [|c l] eqn:El; [simpl in Htake; lia|]. intros [E _]%app_nil. by apply (entries_ops_cons len name sl.1 c l st ltac:(lia)). }
    cbn [b_peer set_curr b3 set_peer pr_host set_orf_plist] in *.
    destruct Hfound as [(_ & -> & ->)|(_ & Hoth & Hlk)].
    + split; [|unfold b3; cbn [b_world b_peer set_curr set_peer set_world set_orf_plist pr_orf_plist]; by rewrite fn_lookup_insert].
      intros sl' Hne. unfold b3. cbn [b_peer set_curr set_peer set_orf_plist pr_orf_plist].
      by rewrite fn_lookup_insert_ne.
    + split; [|exact Hlk]. intros sl' Hne. rewrite Hoth by done. unfold b3. cbn [b_peer set_curr set_peer set_orf_plist pr_orf_plist].
      by rewrite fn_lookup_insert_ne.
  - rewrite (curr_step _ _ (set_curr s2 b) _ _ E3).
    destruct (IH (drop len bs) (set_curr s3 b) st) as (w' & s' & f & E5 & Hf2 & Hfound); [exact Hs3|done..|].
    exists w', s', f. split_and!; [exact E5|exact Hf2|exact Hfound].
Qed.

(** ** The whole message *)

(** The configuration of the update group the peer's subgroup is in *)
Definition has_group (b : bgp_state) (sl : slot) (g : group_conf) : Prop :=
  exists a sg, pr_subgroup (b_peer b) sl = Some a /\ b_subgroups b !! a = Some sg /\ b_groups b !! sg_group sg = Some g.

Lemma refresh_routes_run sl b g :
  has_group b sl g ->
  exists b', refresh_routes sl b = Ret (tt, b') /\ b_world b' = b_world b /\ b_log b' = b_log b ++ [BgpAnnounce sl] /\
    pr_orf_plist (b_peer b') = pr_orf_plist (b_peer b) /\
    has_group b' sl (if pr_orf_plist (b_peer b) sl =? 0 then g else set_group_orf sl (pr_orf_plist (b_peer b) sl) g).
Proof.
  intros (a & sg & Ea & Esg & Eg). unfold refresh_routes.
  set (p := if pr_wait_refresh (b_peer b) sl then set_wait_refresh sl false (b_peer b) else b_peer b).
  rewrite (bind_ret_eq (update_peer _) _ _ tt (set_peer p b)) by done.
  rewrite (bind_ret_eq get_peer _ _ p (set_peer p b)) by done.
  assert (Hp : pr_orf_plist p = pr_orf_plist (b_peer b) /\ pr_subgroup p = pr_subgroup (b_peer b)) by (unfold p; by destruct (pr_wait_refresh _ _)).
  destruct Hp as [Ep Es]. rewrite Es, Ea, Ep. set (v := pr_orf_plist (b_peer b) sl).
  set (gs := if v =? 0 then b_groups b else <[sg_group sg := set_group_orf sl v g]> (b_groups b)).
  set (sgs := if sg_default_originate sg then <[a := Subgroup false (sg_group sg)]> (b_subgroups b) else b_subgroups b).
  set (b2 := set_subgroups sgs (set_groups gs (set_peer p b))). exists (add_event (BgpAnnounce sl) b2). split.
  - match goal with |- (?m ≫= ?k) ?s = _ => rewrite (bind_ret_eq m k s tt b2); [done|] end.
    rewrite (bind_ret_eq mget _ _ (set_peer p b) (set_peer p b)) by done. cbn [b_subgroups b_groups set_peer]. rewrite Esg.
    rewrite (bind_ret_eq (of_option _) _ _ sg (set_peer p b)) by done. unfold b2, gs, sgs, mwhen.
    destruct (v =? 0); cbn [negb].
    + rewrite (bind_ret_eq (mret tt) _ _ tt (set_peer p b)) by done. by destruct (sg_default_originate sg).
    + rewrite Eg. by destruct (sg_default_originate sg).
  - split_and!; [done|done|exact Ep|]. exists a, (if sg_default_originate sg then Subgroup false (sg_group sg) else sg).
    split_and!.
    + cbn [b_peer add_event b2 set_subgroups set_groups set_peer]. by rewrite Es.
    + cbn [b_subgroups add_event b2 set_subgroups]. unfold sgs. destruct (sg_default_originate sg); [apply lookup_insert_eq|done].
    + cbn [b_groups add_event b2 set_subgroups set_groups]. unfold gs.
      assert (Hsg : sg_group (if sg_default_originate sg then Subgroup false (sg_group sg) else sg) = sg_group sg) by by destruct (sg_default_originate sg).
      rewrite Hsg. destruct (v =? 0); [done|apply lookup_insert_eq].
Qed.

(** A message with filters *)
Lemma receive_run (sl : slot) a1 a2 r sf when bs b st g :
  let name := orf_name (pr_host (b_peer b)) sl in
  let ops := block_ops (5 + length bs) name sl bs st in
  pr_refresh_adv (b_peer b) = true -> pr_established (b_peer b) = true ->
  bgp_map_afi_safi_iana2int (be_val [a1; a2]) sf = Some sl -> ip_afi sl.1 ->
  reading (b_curr b) (s_getp (b_curr b) + 5 + Z.of_nat (length bs)) (a1 :: a2 :: r :: sf :: when :: bs) ->
  (4 <= length bs)%nat -> has_group b sl g -> keeps_policies (w_mem (b_world b)) st -> ops_ok inet_pton uninit ops st ->
  exists b' w' f, bgp_route_refresh_receive place (5 + Z.of_nat (length bs)) b = Ret (BGP_PACKET_NOOP, b') /\
    b_world b' = w' /\ pr_orf_plist (b_peer b') = f /\ follows (b_world b) st ops w' /\ list_found sl name ops b w' f /\
    (if when =? REFRESH_DEFER then has_group b' sl g /\ b_log b' = b_log b
     else has_group b' sl (if f sl =? 0 then g else set_group_orf sl (f sl) g) /\ b_log b' = b_log b ++ [BgpAnnounce sl]).
Proof.
  intros name ops Hadv Hest Hmap Hafi Hr Hlen Hg Hk Hok. unfold bgp_route_refresh_receive.
  rewrite (bind_ret_eq get_peer _ _ (b_peer b) b) by done. rewrite Hadv, Hest. cbn [negb].
  destruct (getw_reading _ _ _ _ _ Hr) as [E1 H1]. rewrite (curr_step _ _ _ _ _ E1). set (s1 := set_getp _ (b_curr b)) in *.
  destruct (getc_reading _ _ _ _ H1) as [E2 H2]. rewrite (curr_step _ _ (set_curr s1 b) _ _ E2). set (s2 := set_getp _ s1) in *.
  destruct (getc_reading _ _ _ _ H2) as [E3 H3]. rewrite (curr_step _ _ (set_curr s2 (set_curr s1 b)) _ _ E3).
  set (s3 := set_getp _ s2) in *. rewrite Hmap.
  change (BGP_MSG_ROUTE_REFRESH_MIN_SIZE - BGP_HEADER_SIZE) with 4.
  destruct (Z.eqb_spec (5 + Z.of_nat (length bs)) 4); [lia|]. destruct (Z.ltb_spec (5 + Z.of_nat (length bs) - 4) 5); [lia|]. cbn [negb andb].
  change (set_curr s3 (set_curr s2 (set_curr s1 b))) with (set_curr s3 b).
  destruct (getc_reading _ _ _ _ H3) as [E4 H4]. set (s4 := set_getp _ s3) in *. set (e := s_getp (b_curr b) + 5 + Z.of_nat (length bs)) in *.
  assert (Ee : s_getp s4 + (5 + Z.of_nat (length bs) - 5) = e) by (unfold e, s4, s3, s2, s1; simpl; lia).
  destruct (blocks_run (5 + length bs) sl e bs (set_curr s4 b) st) as (w' & s' & f & E5 & Hf & Hfound); [done|exact H4|lia|done..|].
  set (b5 := moved w' s' f (set_curr s4 b)) in *.
  match goal with |- exists _ _ _, (?m ≫= ?k) ?s = _ /\ _ =>
    assert (Em : m s = Ret (when =? REFRESH_DEFER, b5)) end.
  { rewrite (curr_step _ _ (set_curr s3 b) _ _ E4). change (set_curr s4 (set_curr s3 b)) with (set_curr s4 b).
    rewrite (curr_bind _ _ (set_curr s4 b) _ (pnt_reading _ _ _ H4)). rewrite Ee.
    replace (Z.to_nat (5 + Z.of_nat (length bs))) with (5 + length bs)%nat by lia. by rewrite (bind_ret_eq _ _ _ _ _ E5). }
  rewrite (bind_ret_eq _ _ _ _ _ Em). assert (Hg5 : has_group b5 sl g) by exact Hg.
  destruct (when =? REFRESH_DEFER).
  - exists b5, w', f. by split_and!.
  - destruct (refresh_routes_run sl b5 g Hg5) as (b' & Er & Ew & El & Ep & Hg'). rewrite (bind_ret_eq _ _ _ _ _ Er).
    exists b', w', f. by split_and!.
Qed.
End receive.
