(* ===== verification/BgpOrfKept.v ===== *)
(** * The rules of lists that commands made

    Commands mask their prefixes, refuse ranges that make no sense, and do not
    take the same policy under two numbers.  So the rules of a list made by
    commands can be sent to a peer without losing anything ([history_kept]):
    nothing is behind the bytes that are sent, and the receiver will not take
    two rules for one. *)

From stdpp Require Import functions.
From S2P Require Import Prelude Stream StreamRefine StreamSafety SepLogic Heap FrrPrefix FrrPrefixBits.
From S2P Require Import Plist PlistVty PlistChain PlistApply PlistQuery PlistBody PlistMaster PlistWorld PlistSpec PlistText.
From S2P Require Import PlistSteps PlistReset PlistHistory BgpOrf BgpOrfRecv.

#[local] Open Scope Z_scope.

(** ** Clean prefixes *)

(** The bytes of an address that a prefix is sent with *)
Definition sent_bytes (p : prefix) : nat := Z.to_nat (PSIZE (prefixlen p)).
(** Nothing is behind them. *)
Definition clean (p : prefix) : Prop := u p = take (sent_bytes p) (u p) ++ replicate (40 - sent_bytes p) 0.

Lemma sent_bytes_split p o s :
  prefixlen p = 8 * Z.of_nat o + Z.of_nat s -> (s < 8)%nat -> sent_bytes p = if decide (s = 0)%nat then o else S o.
Proof.
  intros El Hs. unfold sent_bytes, PSIZE. rewrite El. case_decide as E.
  - rewrite E. replace ((8 * Z.of_nat o + Z.of_nat 0 + 7) / 8) with (Z.of_nat o); [lia|]. apply (Z.div_unique _ _ _ 7); lia.
  - replace ((8 * Z.of_nat o + Z.of_nat s + 7) / 8) with (Z.of_nat (S o)); [lia|]. apply (Z.div_unique _ _ _ (Z.of_nat s - 1)); lia.
Qed.

(** Behind the byte with the last bit a mask leaves nothing in [n] bytes. *)
Definition zero_behind (n : nat) (p : prefix) : Prop := drop (sent_bytes p) (take n (u p)) = replicate (n - sent_bytes p) 0.

Lemma zero_behind_tail n p o s x rest :
  prefixlen p = 8 * Z.of_nat o + Z.of_nat s -> (s < 8)%nat -> (o < n)%nat ->
  (exists bs, length bs = o /\ u p = bs ++ Z.land x (nth s maskbits 0) :: replicate (n - S o) 0 ++ rest) -> zero_behind n p.
Proof.
  intros El Hs Ho (bs & Hbs & Eu). unfold zero_behind. rewrite (sent_bytes_split p o s El Hs), Eu.
  rewrite (cons_middle _ bs), (app_assoc (A := Z) [_]), app_assoc, take_app_length'
    by (rewrite length_app, Hbs; cbn [app length]; rewrite length_replicate; lia).
  case_decide as E.
  - rewrite <- Hbs at 1. rewrite drop_app_length, E. cbn [nth maskbits]. rewrite Z.land_0_r. replace (n - o)%nat with (S (n - S o)) by lia. done.
  - rewrite app_assoc. replace (S o) with (length (bs ++ [Z.land x (nth s maskbits 0)])) at 1 by (rewrite length_app; simpl; lia).
    by rewrite drop_app_length.
Qed.

Lemma mask_zero_behind afi p p' :
  prefix_wf p -> prefixlen p <= afi_bitlen afi -> mask_of afi p = Ret p' -> zero_behind (afi_bytes afi) p'.
Proof.
  intros Hp Hle Em. destruct (prefix_wf_split p Hp) as (o & s & x & El & Hs & Ex & Hx & Eo & Es). pose proof (pw_size p Hp) as Hsz.
  assert (H4 : apply_mask_ipv4 p = Ret p' -> prefixlen p <= 32 -> zero_behind 4 p').
  { intros E Hl. unfold apply_mask_ipv4 in E. rewrite read_bytes_take in E by (unfold IPV4_MAX_BYTELEN; lia).
    change (Z.to_nat IPV4_MAX_BYTELEN) with 4%nat in E. destruct (decide (o < 4)%nat) as [Ho|Ho].
    - rewrite El, masklen2ip_bytes, <- El in E by done. cbn [mbind res_bind] in E.
      rewrite write_bytes_0 in E by (rewrite length_zip_with, length_take; lia). injection E as <-.
      eapply (zero_behind_tail 4 _ o s x); [exact El|done|done|].
      rewrite <- (take_drop_middle (take 4 (u p)) o x) by (rewrite lookup_take_lt by lia; done).
      rewrite take_take, Nat.min_l by lia. rewrite zip_with_app by (rewrite length_take, length_replicate; lia). cbn [zip_with u].
      exists (zip_with Z.land (take o (u p)) (replicate o 255)). split; [rewrite length_zip_with, length_take, length_replicate; lia|].
      replace (3 - o)%nat with (length (drop (S o) (take 4 (u p)))) at 1 by (rewrite length_drop, length_take; lia).
      rewrite zip_land_0, length_drop, length_take, <- app_assoc. cbn [app]. do 4 f_equal. lia.
    - unfold zero_behind, sent_bytes. assert (Elen : prefixlen p' = prefixlen p).
      { destruct (masklen2ip (prefixlen p)) as [m| | |]; try done. cbn [mbind res_bind] in E.
        destruct (write_bytes _ _ _); try done. by injection E as <-. }
      rewrite Elen. replace (prefixlen p) with 32 by lia. change (Z.to_nat (PSIZE 32)) with 4%nat.
      rewrite drop_ge by (rewrite length_take; lia). done. }
  assert (H6 : apply_mask_ipv6 p = Ret p' -> prefixlen p <= 128 -> zero_behind 16 p').
  { intros E Hl. unfold apply_mask_ipv6 in E. rewrite Eo, Es in E. destruct (Z.ltb_spec (Z.of_nat o) 16) as [Ho|Ho].
    - rewrite (byte_lookup _ _ _ Ex), maskbit_nth in E by lia. cbn [mbind res_bind] in E.
      rewrite lookup_write_bytes in E by (simpl; lia). cbn [mbind res_bind length] in E.
      replace (Z.of_nat o + 1) with (Z.of_nat (S o)) in E by lia.
      rewrite zero_bytes_eq in E by (rewrite !length_app, length_take, length_drop; simpl; lia). injection E as <-.
      replace (Z.to_nat (16 - Z.of_nat (S o))) with (16 - S o)%nat by lia.
      eapply (zero_behind_tail 16 _ o s x); [exact El|done|lia|]. cbn [u]. exists (take o (u p)). split; [rewrite length_take; lia|].
      rewrite take_app, length_take, Nat.min_l, take_take, Nat.min_r by lia. replace (S o - o)%nat with 1%nat by lia.
      cbn [app]. rewrite firstn_cons, take_0, <- app_assoc. done.
    - injection E as <-. unfold zero_behind, sent_bytes. replace (prefixlen p) with 128 by lia. change (Z.to_nat (PSIZE 128)) with 16%nat.
      rewrite drop_ge by (rewrite length_take; lia). done. }
  destruct afi; [by apply H4|by apply H6|by apply H6].
Qed.

Lemma sent_bytes_le afi p : prefixlen p <= afi_bitlen afi -> (sent_bytes p <= afi_bytes afi)%nat.
Proof.
  intros Hl. unfold sent_bytes, PSIZE. enough ((prefixlen p + 7) / 8 <= Z.of_nat (afi_bytes afi)) by lia.
  apply Z.lt_succ_r, Z.div_lt_upper_bound; [done|]. destruct afi; cbn [afi_bitlen afi_bytes] in *; unfold IPV4_MAX_BITLEN, IPV6_MAX_BITLEN in *; lia.
Qed.

Lemma kept_clean afi p : rule_prefix afi p -> zero_behind (afi_bytes afi) p -> clean (kept_prefix p).
Proof.
  intros [Hw Hf Hl _] Hz. pose proof (sent_bytes_le afi p Hl) as Hn. pose proof (pw_size p Hw) as Hs.
  assert (H16 : (afi_bytes afi <= 16)%nat) by (destruct afi; simpl; lia).
  assert (E : kept_prefix p = Prefix (p_family p) (prefixlen p) (take (afi_bytes afi) (u p) ++ replicate (40 - afi_bytes afi) 0)).
  { unfold kept_prefix, prefix_copy. rewrite Hf, afi_copied. cbn [mbind res_bind]. rewrite read_bytes_take by lia. cbn [mbind res_bind].
    rewrite Nat2Z.id, write_bytes_0 by (rewrite length_take, Hs; simpl; lia). cbn [mbind res_bind].
    rewrite length_take, Nat.min_l by lia. unfold zero_prefix. cbn [u]. by rewrite drop_replicate. }
  unfold clean. rewrite E. cbn [u]. change (sent_bytes (Prefix _ _ _)) with (sent_bytes p).
  rewrite take_app_le, take_take, Nat.min_l by (rewrite ?length_take; lia).
  rewrite <- (take_drop (sent_bytes p) (take (afi_bytes afi) (u p))) at 1. rewrite Hz, take_take, Nat.min_l, <- app_assoc, <- replicate_add by lia.
  do 2 f_equal. lia.
Qed.

(** Clean prefixes are the same exactly when they are equal. *)
Lemma samep_clean afi p q : rule_prefix afi p -> rule_prefix afi q -> clean p -> clean q -> samep p q = true <-> p = q.
Proof.
  intros Hp Hq Hcp Hcq. destruct (samep_spec p q (rp_wf _ _ Hp) (rp_wf _ _ Hq)) as [E Hs]. split.
  - intros (El & n & En & Et)%Hs. rewrite (rp_family _ _ Hp), afi_copied in En. injection En as <-. rewrite Nat2Z.id in Et.
    assert (Eu : u p = u q).
    { unfold clean in *. assert (Esb : sent_bytes p = sent_bytes q) by (unfold sent_bytes; by rewrite El). rewrite Hcp, Hcq, Esb. f_equal.
      pose proof (sent_bytes_le afi q (rp_len _ _ Hq)) as Hn. apply (f_equal (take (sent_bytes q))) in Et.
      by rewrite !take_take, Nat.min_l in Et by lia. }
    pose proof (rp_family _ _ Hp) as Hf. rewrite <- (rp_family _ _ Hq) in Hf. destruct p as [f1 l1 u1], q as [f2 l2 u2].
    cbn [p_family prefixlen u] in *. congruence.
  - intros <-. unfold samep, prefix_same. rewrite !Z.eqb_refl. cbn [andb]. rewrite (rp_family _ _ Hp).
    assert (Hm : forall n : nat, (n <= 40)%nat -> (i ← memcmp (u p) (u p) (Z.of_nat n); Ret (i =? 0)) = Ret true).
    { intros n Hn. destruct (memcmp_eq (u p) (u p) n (pw_size _ (rp_wf _ _ Hp)) (pw_size _ (rp_wf _ _ Hp)) Hn) as (i & -> & Hi).
      cbn [mbind res_bind]. by rewrite (proj2 Hi eq_refl). }
    pose proof (Hm 4%nat ltac:(lia)) as H4. pose proof (Hm 16%nat ltac:(lia)) as H16.
    destruct afi; unfold afi_family, IPV4_MAX_BYTELEN, IPV6_MAX_BYTELEN; [change 4 with (Z.of_nat 4)|change 16 with (Z.of_nat 16)..];
      rewrite ?H4, ?H16; done.
Qed.

(** ** Rules that commands made *)
Record kept_rule (afi : afi_t) (r : rule) : Prop := {
  kr_prefix : rule_prefix afi (r_prefix r);
  kr_clean : clean (r_prefix r);
  kr_ge : r_ge r = 0 \/ prefixlen (r_prefix r) < r_ge r;
  kr_le : r_le r = 0 \/ prefixlen (r_prefix r) <= r_le r /\ r_ge r <= r_le r;
  kr_normal : normal_le afi (r_ge r) (r_le r) = r_le r;
  kr_refcnt : r_refcnt r = 0
}.

Definition policy_of (r : rule) : prefix * prefix_list_type * Z * Z := (r_prefix r, r_type r, r_le r, r_ge r).
(** No two rules differ in their numbers only. *)
Definition kept_rules (afi : afi_t) (rs : list rule) : Prop := Forall (kept_rule afi) rs /\ NoDup (policy_of <$> rs).

Lemma same_policy_kept afi r n : kept_rule afi r -> kept_rule afi n -> same_policy r n = true <-> policy_of r = policy_of n.
Proof.
  intros Hr Hn. unfold same_policy, policy_of. rewrite !andb_true_iff, !Z.eqb_eq, bool_decide_eq_true.
  rewrite (samep_clean afi) by apply Hr || apply Hn. split; [by intros [[[-> ->] ->] ->]|]. by intros [= -> -> -> ->].
Qed.

Lemma NoDup_fmap_inj {A B} (f : A -> B) l x y : NoDup (f <$> l) -> x ∈ l -> y ∈ l -> f x = f y -> x = y.
Proof.
  induction l as [|z l IH]; [by intros _ ?%not_elem_of_nil|]. rewrite fmap_cons. intros [Hz Hl]%NoDup_cons.
  intros [->|Hx]%elem_of_cons [->|Hy]%elem_of_cons E; [done| | |by apply IH].
  - destruct Hz. rewrite E. by apply list_elem_of_fmap_2.
  - destruct Hz. rewrite <- E. by apply list_elem_of_fmap_2.
Qed.

Lemma NoDup_fmap_filter {A B} (f : A -> B) (P : A -> Prop) `{!forall x, Decision (P x)} l : NoDup (f <$> l) -> NoDup (f <$> filter P l).
Proof.
  induction l as [|x l IH]; [done|]. rewrite fmap_cons, filter_cons. intros [Hx Hl]%NoDup_cons. case_decide; [|by apply IH].
  rewrite fmap_cons. apply NoDup_cons. split; [|by apply IH]. intros (y & E & [_ Hy]%list_elem_of_filter)%list_elem_of_fmap.
  destruct Hx. rewrite E. by apply list_elem_of_fmap_2.
Qed.

Lemma Forall_filter {A} (Q P : A -> Prop) `{!forall x, Decision (P x)} l : Forall Q l -> Forall Q (filter P l).
Proof. induction 1 as [|x l Hx _ IH]; [done|]. rewrite filter_cons. case_decide; [by constructor|done]. Qed.

Lemma give_number_kept afi r rs : kept_rule afi r -> kept_rule afi (give_number rs r) /\ policy_of (give_number rs r) = policy_of r.
Proof. intros Hr. unfold give_number. destruct (r_seq r =? -1); [|done]. split; [|done]. split; apply Hr. Qed.

Lemma insert_kept afi r rs :
  kept_rule afi r -> kept_rules afi rs -> known r rs = false -> kept_rules afi (insert_rule (give_number rs r) rs).
Proof.
  intros Hr [Hk Hnd] Hnew. destruct (give_number_kept afi r rs Hr) as [Hg Ep]. set (r' := give_number rs r) in *.
  assert (Hother : forall x, x ∈ rs -> r_seq x <> r_seq r' -> policy_of x <> policy_of r').
  { intros x Hx Hne E. rewrite Ep in E. apply (same_policy_kept afi) in E; [|by apply (proj1 (Forall_forall _ _) Hk)|done].
    assert (known r rs = true); [|congruence]. apply existsb_exists. exists x. split; [by apply list_elem_of_In|]. fold r'.
    rewrite E. by apply negb_true_iff, Z.eqb_neq. }
  unfold insert_rule. split.
  - apply Forall_app. split; [by apply Forall_filter|]. constructor; [done|by apply Forall_filter].
  - rewrite fmap_app, fmap_cons. apply NoDup_app. split_and!; [by apply NoDup_fmap_filter| |].
    + intros ? (x & -> & [Hlt Hx]%list_elem_of_filter)%list_elem_of_fmap. apply not_elem_of_cons.
      split; [apply Hother; [done|lia]|]. intros (y & E & [Hlt' Hy]%list_elem_of_filter)%list_elem_of_fmap.
      pose proof (NoDup_fmap_inj policy_of rs x y Hnd Hx Hy E) as ->. lia.
    + apply NoDup_cons. split; [|by apply NoDup_fmap_filter].
      intros (y & E & [Hlt' Hy]%list_elem_of_filter)%list_elem_of_fmap. by apply (Hother y); [|lia|].
Qed.

Lemma remove_rule_split f rs rs' : remove_rule f rs = Some rs' -> exists rs1 x rs2, rs = rs1 ++ x :: rs2 /\ rs' = rs1 ++ rs2.
Proof.
  revert rs'. induction rs as [|r rs IH]; intros rs'; [done|]. simpl. destruct (f r); [intros [= ->]; by exists [], r, rs'|].
  destruct (remove_rule f rs) as [rs0|]; [|done]. intros [= <-]. destruct (IH rs0 eq_refl) as (rs1 & x & rs2 & -> & ->). by exists (r :: rs1), x, rs2.
Qed.

Lemma remove_kept afi f rs rs' : remove_rule f rs = Some rs' -> kept_rules afi rs -> kept_rules afi rs'.
Proof.
  intros (rs1 & x & rs2 & -> & ->)%remove_rule_split [Hk Hnd]. split.
  - apply Forall_app in Hk as [H1 [_ H2]%Forall_cons]. by apply Forall_app.
  - rewrite fmap_app, fmap_cons in Hnd. rewrite fmap_app. apply NoDup_app in Hnd as (H1 & H2 & [_ H3]%NoDup_cons).
    apply NoDup_app. split_and!; [done| |done]. intros y Hy Hy'. by apply (H2 y Hy), elem_of_cons; right.
Qed.

(** ** Through the commands *)
Definition kept_policies (afi : afi_t) (ps : policies) : Prop :=
  Forall (fun x => kept_rules afi (po_rules x)) (nm_num ps ++ nm_str ps).

Lemma change_kept afi name f ps :
  (forall x y, locate_policy name ps = Some x -> kept_rules afi (po_rules x) -> f x = Some y -> kept_rules afi (po_rules y)) ->
  kept_policies afi ps -> kept_policies afi (change_policy name f ps).
Proof.
  intros Hf Hps. unfold change_policy, locate_policy in *. destruct (locate po_name name ps) as [[[[t l1] x] l2]|] eqn:E; [|done].
  destruct (locate_split po_name _ _ _ _ _ _ E) as [Esel _]. unfold kept_policies in *. rewrite put_perm.
  rewrite (sel_perm t), Esel in Hps. rewrite !Forall_app, Forall_cons in Hps. destruct Hps as ((H1 & Hx & H2) & H3).
  rewrite !Forall_app. split_and!; [done| |done|done]. destruct (f x) as [y|] eqn:Ef; [|done]. apply Forall_singleton. by eapply Hf.
Qed.

Lemma get_kept afi name ps : kept_policies afi ps -> kept_policies afi (get_policy name ps).
Proof.
  intros Hps. unfold get_policy. destruct (locate po_name name ps) as [[[[t l1] x] l2]|] eqn:E; [done|].
  destruct (locate_inserted po_name (Policy name None []) ps E) as (t & l1 & l2 & _ & Esel & ->).
  unfold kept_policies in *. rewrite put_perm. rewrite (sel_perm t), <- Esel in Hps. rewrite !Forall_app, Forall_cons.
  rewrite !Forall_app in Hps. destruct Hps as ((H1 & H2) & H3). split_and!; [done| |done|done]. split; [done|apply NoDup_nil_2].
Qed.

Lemma located_kept afi name ps x : locate_policy name ps = Some x -> kept_policies afi ps -> kept_rules afi (po_rules x).
Proof.
  unfold locate_policy. destruct (locate po_name name ps) as [[[[t l1] y] l2]|] eqn:E; [|done]. intros [= ->] Hps.
  destruct (locate_split po_name _ _ _ _ _ _ E) as [Esel _]. unfold kept_policies in Hps. rewrite (sel_perm t), Esel in Hps.
  rewrite !Forall_app, Forall_cons in Hps. by destruct Hps as ((_ & Hx & _) & _).
Qed.

Lemma unless_bare_rules x y : unless_bare x = Some y -> po_rules y = po_rules x.
Proof. unfold unless_bare. destruct (po_rules x) eqn:E, (po_desc x); by intros [= <-]. Qed.

Section commands.
Context (inet_pton : family -> list Z -> option (list Z)) (Hpton : pton_spec inet_pton).
Context (uninit : prefix) (Huninit : prefix_wf uninit).

Lemma mask_prefix_zero afi p p' :
  prefix_wf p -> p_family p = afi_family afi -> prefixlen p <= afi_bitlen afi ->
  mask_prefix uninit afi p = Ret p' -> zero_behind (afi_bytes afi) p'.
Proof.
  intros Hp Hf Hl. destruct (prefix_copy_bytes afi uninit p Huninit Hp Hf) as (q & E & Hq & Ef & El & Eu).
  destruct (mask_of_ok afi q Hq ltac:(congruence) ltac:(lia)) as (t & Et & Ht & Elt & _).
  unfold mask_prefix. rewrite E. cbn [mbind res_bind]. pose proof Et as Et'. unfold mask_of in Et'. rewrite Et'. cbn [mbind res_bind].
  assert (Hz : zero_behind (afi_bytes afi) t) by (apply (mask_zero_behind afi q); [done|lia|done]).
  destruct (samep_spec t p (rp_wf _ _ Ht) Hp) as [Es Hs]. rewrite Es. cbn [mbind res_bind].
  destruct (samep t p); [|by intros [= <-]]. intros [= <-]. destruct (Hs eq_refl) as (Elp & n & En & Etake).
  rewrite (rp_family _ _ Ht), afi_copied in En. injection En as <-. rewrite Nat2Z.id in Etake.
  unfold zero_behind, sent_bytes in *. by rewrite <- Elp, <- Etake.
Qed.

Lemma command_rule_kept afi seq typestr text ge le r :
  command_rule inet_pton uninit afi seq typestr text ge le = Some r -> kept_rule afi r.
Proof.
  unfold command_rule. destruct text as [text|]; [|done]. destruct typestr as [typestr|]; [|done].
  destruct (type_of typestr) as [type|]; [|done].
  destruct (parse_prefix_ok inet_pton uninit Hpton Huninit afi text (length_of ge) (length_of le)) as (pr & -> & Hpr).
  destruct pr as [[[[p g] e] any]|]; [|done]. destruct (Hpr _ _ _ _ eq_refl) as (Hw & Hf & Hl).
  destruct (mask_prefix_ok uninit Huninit afi p Hw Hf Hl) as (p' & Em & Hp'). rewrite Em.
  destruct (negb (g =? 0) && (g <=? prefixlen p') || bad_range (prefixlen p') g e) eqn:Ec; [done|]. intros [= <-].
  apply orb_false_iff in Ec as [Eg Ee]. destruct (kept_prefix_ok afi p' Hp') as [Ek Hk].
  assert (El : prefixlen (kept_prefix p') = prefixlen p').
  { unfold prefix_copy in Ek. rewrite (rp_family _ _ Hp'), afi_copied in Ek. cbn [mbind res_bind] in Ek.
    destruct (read_bytes _ _ _) as [bs| | |]; try done. cbn [mbind res_bind] in Ek. destruct (write_bytes _ _ _); try done. by injection Ek as <-. }
  split; cbn [made_rule r_prefix r_ge r_le r_refcnt]; rewrite ?El.
  - done.
  - apply (kept_clean afi); [done|]. by eapply mask_prefix_zero.
  - apply andb_false_iff in Eg as [Eg|Eg]; [left|right]; lia.
  - unfold normal_le, bad_range in *. destruct (negb (g =? 0) && (e =? afi_bitlen afi)); [by left|]. lia.
  - unfold normal_le. destruct (Z.eqb_spec g 0); cbn [negb andb]; [done|]. destruct (Z.eqb_spec e (afi_bitlen afi)) as [E|E]; [by destruct (0 =? _)|].
    by rewrite (proj2 (Z.eqb_neq _ _) E).
  - done.
Qed.

(** The lists of the commands *)
Definition kept_state (st : sp_state) : Prop := kept_policies AFI_IP (m_ipv4 st).2 /\ kept_policies AFI_IP6 (m_ipv6 st).2.

Lemma on_master_kept afi f st :
  ip_afi afi -> (forall cfg ps, kept_policies afi ps -> kept_policies afi (f cfg ps).1.1) -> kept_state st ->
  kept_state (on_master afi false f st).1.1.
Proof.
  intros Hafi Hf [H4 H6]. unfold on_master. destruct afi; [| |done]; simpl.
  - destruct (m_ipv4 st) as [cfg ps]. specialize (Hf cfg ps H4). destruct (f cfg ps) as [[ps' c] ns]. by split.
  - destruct (m_ipv6 st) as [cfg ps]. specialize (Hf cfg ps H6). destruct (f cfg ps) as [[ps' c] ns]. by split.
Qed.
Lemma on_orf_kept afi f st : kept_state st -> kept_state (on_master afi true f st).1.1.
Proof. intros Hst. unfold on_master. destruct (master_of afi true st) as [cfg ps]. destruct (f cfg ps) as [[ps' c] ns]. by destruct afi. Qed.

Lemma forget_kept afi cfg name ps : kept_policies afi ps -> kept_policies afi (sp_forget cfg name ps).1.
Proof. intros Hps. unfold sp_forget. destruct (locate_policy name ps); [|done]. by apply change_kept. Qed.

Lemma sp_remove_kept afi cfg name f ps : kept_policies afi ps -> kept_policies afi (sp_remove cfg name f ps).1.1.
Proof.
  intros Hps. unfold sp_remove. destruct (locate_policy name ps) as [x|] eqn:El; [|done].
  destruct (remove_rule f (po_rules x)) as [rs|] eqn:Er; [|done]. apply change_kept; [|done]. intros y z E Hy Hz.
  rewrite (unless_bare_rules _ _ Hz). cbn [with_rules po_rules]. rewrite El in E. injection E as ->. by eapply remove_kept.
Qed.

Lemma sp_add_kept afi cfg name r dup ps :
  kept_rule afi r -> kept_policies afi ps -> kept_policies afi (sp_add cfg name r dup ps).1.1.
Proof.
  intros Hr Hps. unfold sp_add. pose proof (get_kept afi name ps Hps) as Hget.
  destruct (locate_policy name (get_policy name ps)) as [x|] eqn:El; [|done]. destruct (known r (po_rules x)) eqn:Ek; [done|].
  apply change_kept; [|done]. intros y z E Hy [= <-]. cbn [with_rules po_rules]. rewrite El in E. injection E as <-. by apply insert_kept.
Qed.

Lemma step_kept op st : op_ok op st -> kept_state st -> kept_state (sp_step inet_pton uninit op st).1.1.
Proof.
  intros Hop Hst. destruct op; cbn [sp_step op_ok] in *.
  - apply on_master_kept; [by apply Hop| |done]. intros cfg ps Hps.
    destruct (command_rule inet_pton uninit afi seq typestr text ge le) as [r|] eqn:Er; [|done].
    apply command_rule_kept in Er. by apply sp_add_kept.
  - apply on_master_kept; [done| |done]. intros cfg ps Hps. unfold sp_uninstall. pose proof (forget_kept afi cfg name ps Hps) as Hf.
    destruct (locate_policy name ps); [|done].
    destruct (command_selects inet_pton uninit afi seq typestr text ge le) as [f|]; destruct seq, typestr, text, ge, le; cbn [fst];
      try done; try (by apply sp_remove_kept); by destruct (sp_forget cfg name ps).
  - apply on_master_kept; [by apply Hop| |done]. intros cfg ps Hps. apply change_kept; [|by apply get_kept].
    by intros x y _ Hx [= <-].
  - apply on_master_kept; [done| |done]. intros cfg ps Hps. unfold sp_undescribe. destruct (locate_policy name ps); [|done].
    apply change_kept; [|done]. intros x y _ Hx Hy. by rewrite (unless_bare_rules _ _ Hy).
  - destruct Hst as [H4 H6]. destruct st as [[c4 p4] [c6 p6] x y]. destruct afi; by split.
  - by apply on_orf_kept.
  - destruct (master_of afi true st) as [cfg ps]. destruct (sp_forget cfg name ps). by destruct afi.
  - done.
  - done.
  - destruct st as [[? ?] [? ?] [? ?] [? ?]]. split; apply Forall_nil_2.
Qed.

Lemma run_kept ops st : ops_ok inet_pton uninit ops st -> kept_state st -> kept_state (sp_run inet_pton uninit ops st).1.1.
Proof.
  revert st. induction ops as [|op ops IH]; intros st; [done|]. cbn [sp_run ops_ok]. intros [Hop Hok] Hst.
  pose proof (step_kept op st Hop Hst) as H1.
  destruct (sp_step inet_pton uninit op st) as [[st1 a] ns]. specialize (IH st1 Hok H1).
  by destruct (sp_run inet_pton uninit ops st1) as [[st2 answers] ns2].
Qed.

(** What a history of commands leaves in a list *)
Lemma history_kept ops afi name x :
  ops_ok inet_pton uninit ops sp_init -> ip_afi afi ->
  locate_policy name (master_of afi false (sp_run inet_pton uninit ops sp_init).1.1).2 = Some x -> kept_rules afi (po_rules x).
Proof.
  intros Hok Hafi El. assert (H0 : kept_state sp_init) by (split; apply Forall_nil_2).
  destruct (run_kept ops sp_init Hok H0) as [H4 H6]. destruct afi; [by eapply located_kept|by eapply located_kept|done].
Qed.
End commands.
