(* ===== verification/BgpOrfSend.v ===== *)
(** * Filters on their way to a peer

    The sender writes the rules of its list one after the other, as the bytes
    [wire_rules].  [send_run] says what the message is, and that the program
    stops when the rules do not fit the packet. *)

From stdpp Require Import functions.
From S2P Require Import Prelude Stream StreamRefine StreamSafety SepLogic Heap FrrPrefix FrrPrefixBits.
From S2P Require Import Plist PlistVty PlistChain PlistApply PlistQuery PlistBody PlistMaster PlistWorld PlistSpec PlistText.
From S2P Require Import PlistSteps PlistReset PlistHistory BgpOrf BgpOrfRecv.

#[local] Open Scope Z_scope.

(** ** Writing *)

(** [m] appends [bs] to the stream, or fails an assertion when they do not fit. *)
Definition appends {A} (m : St A) (bs : list Z) : Prop := forall s, stream_ok s ->
  if decide (Z.of_nat (length bs) <= q_room (abs s))
  then exists a s', m s = Ret (a, s') /\ stream_ok s' /\ abs s' = q_push bs (abs s)
  else m s = AssertFail.

Lemma appends_then {A B} (m1 : St A) (m2 : St B) bs1 bs2 :
  appends m1 bs1 -> appends m2 bs2 -> appends (m1 ;; m2) (bs1 ++ bs2).
Proof.
  intros H1 H2 s Hs. specialize (H1 s Hs). rewrite length_app.
  destruct (decide (Z.of_nat (length bs1) <= q_room (abs s))) as [Ha|Ha].
  - destruct H1 as (a & s1 & E1 & Hs1 & Ea). specialize (H2 s1 Hs1). rewrite Ea in H2. cbn [q_push q_room] in H2.
    rewrite (bind_ret_eq _ _ _ _ _ E1). case_decide; [rewrite decide_True by lia|by rewrite decide_False by lia].
    destruct H2 as (c & s2 & E2 & Hs2 & Eb). exists c, s2. split_and!; [done..|]. rewrite Eb. apply q_push_push.
  - rewrite decide_False by lia. by apply bind_assertfail.
Qed.

Lemma appends_ret {A} (m : St A) bs : appends m bs -> appends (m ;; mret tt) bs.
Proof.
  intros H. rewrite <- (app_nil_r bs). apply (appends_then m (mret tt)); [done|]. intros s Hs. rewrite decide_True by (apply room_bounds; done).
  exists tt, s. by rewrite q_push_nil.
Qed.

Lemma appends_op o (m : St Z) bs :
  sop_run o = ret_as VInt m -> sop_typed o -> queue_step o = q_put bs -> appends m bs.
Proof.
  intros Er Ht Eq s Hs. pose proof (sop_run_refines s o Hs Ht) as H. rewrite Er, Eq in H. unfold implements, q_put in H.
  case_decide; [rewrite decide_False by lia|rewrite decide_True by lia].
  - unfold ret_as in H. unfold mbind, M_bind in H. by destruct (m s) as [[? ?]| | |].
  - destruct H as (v & s' & E & _ & Hs' & Ea). unfold ret_as in E. apply bind_Ret_inv in E as (a & s1 & E & E').
    injection E' as _ <-. by exists a, s1.
Qed.

Lemma putc_appends c : is_byte c -> appends (stream_putc c) [c].
Proof.
  intros Hc. replace [c] with (be_bytes 1 c); [by apply (appends_op (PutC c))|].
  unfold be_bytes. f_equal. rewrite Z.shiftr_0_r. by apply wrap_small.
Qed.
Lemma putw_appends w : appends (stream_putw w) (be_bytes 2 w).
Proof. by apply (appends_op (PutW w)). Qed.
Lemma putl_appends w : appends (stream_putl w) (be_bytes 4 w).
Proof. by apply (appends_op (PutL w)). Qed.

Lemma put_prefix_appends len bs :
  0 <= len < 256 -> Forall is_byte bs -> PSIZE len <= Z.of_nat (length bs) ->
  appends (stream_put_prefix (Stream.Prefix len bs)) (len :: take (Z.to_nat (PSIZE len)) bs).
Proof.
  intros Hlen Hb Hsize s Hs. assert (H0 : 0 <= PSIZE len) by (apply Z.div_pos; lia). pose proof (room_bounds s Hs) as Hroom.
  assert (Elen : Z.of_nat (length (len :: take (Z.to_nat (PSIZE len)) bs)) = PSIZE len + 1) by (simpl; rewrite length_take; lia).
  rewrite Elen. unfold stream_put_prefix, stream_put_prefix_addpath. cbn [p_prefixlen p_u].
  rewrite (bind_ret_eq _ _ _ _ _ (sane_ok s Hs)), (bind_ret_eq mget _ s s s) by done. rewrite writeable_ok by done.
  case_decide as Hfit; [|destruct (Z.ltb_spec (q_room (abs s)) (PSIZE len + 1)); [done|lia]].
  destruct (Z.ltb_spec (q_room (abs s)) (PSIZE len + 1)); [lia|]. cbn [mwhen].
  rewrite (bind_ret_eq (mret tt) _ s tt s) by done.
  enough (runs (data_endp_pp (u8 len) ;; s ← mget; memcpy_to (s_endp s) bs (PSIZE len) ;;
      mmodify (set_endp (usz (s_endp s + PSIZE len))) ;; mret (PSIZE len)) s
    (fun _ s' => stream_ok s' /\ abs s' = q_push (len :: take (Z.to_nat (PSIZE len)) bs) (abs s))) as (a & s' & E & ? & ?) by (by exists a, s').
  assert (Eu : u8 len = len) by by apply wrap_small. rewrite Eu.
  apply runs_bind, runs_data_endp_pp; [done|done|lia|]. intros s1 Hs1 Ea1. apply runs_bind, runs_mget. apply runs_bind.
  apply runs_memcpy_to_endp; [done|done|lia|rewrite Ea1; cbn [q_push q_room length]; lia|]. intros s2 Hs2 Ea2 Ee2. msteps.
  assert (Hw : usz (s_endp s1 + PSIZE len) = s_endp s1 + PSIZE len).
  { apply wrap_small. pose proof (ok_getp _ Hs2). pose proof (ok_endp _ Hs2). pose proof (ok_size _ Hs2). cbn [set_endp s_endp s_getp s_size] in *. lia. }
  rewrite Hw. split; [done|]. by rewrite Ea2, Ea1, q_push_push.
Qed.

(** ** Rules on the wire *)
Definition wire_type (t : prefix_list_type) : Z :=
  match t with PREFIX_PERMIT => ORF_COMMON_PART_PERMIT | PREFIX_DENY => ORF_COMMON_PART_DENY end.
Definition wire_rule (r : rule) : list Z :=
  [wire_type (r_type r)] ++ be_bytes 4 (u32 (r_seq r)) ++ [u8 (r_ge r)] ++ [u8 (r_le r)] ++
  prefixlen (r_prefix r) :: take (Z.to_nat (PSIZE (prefixlen (r_prefix r)))) (u (r_prefix r)).
Definition wire_rules (rs : list rule) : list Z := rs ≫= wire_rule.

Lemma u8_in_byte x : is_byte (u8 x).
Proof. by apply (wrap_bounds 8). Qed.

Lemma rule_prefix_len afi p : rule_prefix afi p -> 0 <= prefixlen p < 256 /\ PSIZE (prefixlen p) <= Z.of_nat (length (u p)).
Proof.
  intros [[Hb Hs Hl] _ Hlen _]. assert (prefixlen p <= 128) by (destruct afi; simpl in Hlen; unfold IPV4_MAX_BITLEN, IPV6_MAX_BITLEN in Hlen; lia).
  rewrite Hs. split; [lia|]. unfold PSIZE. apply Z.lt_succ_r, Z.div_lt_upper_bound; lia.
Qed.

(** What [send_entries] writes for one entry *)
Definition send_entry (r : rule) : St Z :=
  stream_putc (u8 (Z.lor ORF_COMMON_PART_ADD (wire_type (r_type r)))) ;;
  stream_putl (u32 (r_seq r)) ;;
  stream_putc (u8 (r_ge r)) ;;
  stream_putc (u8 (r_le r)) ;;
  stream_put_prefix (Stream.Prefix (prefixlen (r_prefix r)) (u (r_prefix r))).

Lemma send_entry_appends afi r : rule_prefix afi (r_prefix r) -> appends (send_entry r) (wire_rule r).
Proof.
  intros Hp. destruct (rule_prefix_len _ _ Hp) as [Hlen Hsize]. unfold send_entry, wire_rule.
  replace (u8 (Z.lor ORF_COMMON_PART_ADD (wire_type (r_type r)))) with (wire_type (r_type r)) by by destruct (r_type r).
  repeat apply appends_then; try apply putc_appends, u8_in_byte.
  - apply putc_appends. by destruct (r_type r).
  - apply putl_appends.
  - apply put_prefix_appends; [done|apply (rp_wf _ _ Hp)|done].
Qed.

Lemma work_bind {A B} (m : St A) (k : A -> M bgp_state B) b a s :
  m (b_work b) = Ret (a, s) -> (on_work m ≫= k) b = k a (set_work s b).
Proof. intros E. unfold on_work. by rewrite (zoom_bind _ _ _ _ _ _ _ E). Qed.
Lemma work_fails {A B} (m : St A) (k : A -> M bgp_state B) b :
  m (b_work b) = AssertFail -> (on_work m ≫= k) b = AssertFail.
Proof. intros E. apply bind_assertfail. unfold on_work, zoom. by rewrite E. Qed.

Lemma mem_bind {A B} (m : M pmem A) (k : A -> M bgp_state B) b a :
  m (w_mem (b_world b)) = Ret (a, w_mem (b_world b)) -> (on_world (on_mem m) ≫= k) b = k a b.
Proof.
  intros E. rewrite (world_bind _ _ _ a (b_world b)); [by destruct b as [[] ? ? ? ? ? ?]|].
  unfold on_mem. rewrite E. by destruct (b_world b).
Qed.

(** [bs] go into the packet that is built, if there is room. *)
Definition sends (m : M bgp_state unit) (b : bgp_state) (bs : list Z) : Prop :=
  if decide (Z.of_nat (length bs) <= q_room (abs (b_work b)))
  then exists s, m b = Ret (tt, set_work s b) /\ stream_ok s /\ abs s = q_push bs (abs (b_work b))
  else m b = AssertFail.

Lemma send_entries_sends afi fuel p rs b :
  stream_ok (b_work b) -> chained (w_mem (b_world b)) p rs -> (length rs < fuel)%nat ->
  Forall (fun r => rule_prefix afi (r_prefix r)) rs ->
  sends (send_entries fuel p ORF_COMMON_PART_ADD ORF_COMMON_PART_PERMIT ORF_COMMON_PART_DENY) b (wire_rules rs).
Proof.
  revert p rs b. induction fuel as [|fuel IH]; intros p rs b Hs Hc Hf Hp; [lia|]. unfold sends. cbn [send_entries].
  destruct rs as [|r rs]; simpl in Hc.
  - subst p. cbn. rewrite decide_True by (pose proof (room_bounds _ Hs); simpl in *; lia).
    exists (b_work b). split_and!; [by destruct b|done|by rewrite q_push_nil].
  - destruct Hc as (Hp0 & e & He & Er & Hc). apply Forall_cons in Hp as [Hr Hp]. destruct (Z.eqb_spec p 0); [done|].
    assert (Ele : load_entry p (w_mem (b_world b)) = Ret (e, w_mem (b_world b))).
    { unfold load_entry, mem_load, mbind, M_bind. destruct (Z.eqb_spec p 0); [done|]. by rewrite He. }
    rewrite (mem_bind _ _ _ _ Ele). change (wire_rules (r :: rs)) with (wire_rule r ++ wire_rules rs).
    assert (Em : (stream_putc (u8 (Z.lor ORF_COMMON_PART_ADD
          match e_type e with PREFIX_PERMIT => ORF_COMMON_PART_PERMIT | PREFIX_DENY => ORF_COMMON_PART_DENY end)) ;;
          stream_putl (u32 (e_seq e)) ;; stream_putc (u8 (e_ge e)) ;; stream_putc (u8 (e_le e)) ;;
          stream_put_prefix (Stream.Prefix (prefixlen (e_prefix e)) (u (e_prefix e)))) = send_entry r).
    { rewrite <- Er. unfold send_entry, wire_type, rule_of. cbn. by destruct (e_type e). }
    rewrite Em. pose proof (send_entry_appends afi r Hr (b_work b) Hs) as Ha. rewrite length_app.
    destruct (decide (Z.of_nat (length (wire_rule r)) <= q_room (abs (b_work b)))) as [Hfit|Hfull].
    + destruct Ha as (a & s1 & E1 & Hs1 & Ea1). rewrite (work_bind _ _ _ _ _ E1).
      specialize (IH (e_next e) rs (set_work s1 b) Hs1 Hc ltac:(simpl in Hf; lia) Hp). unfold sends in IH.
      cbn [b_work set_work] in IH. rewrite Ea1 in IH. cbn [q_push q_room] in IH.
      case_decide; [rewrite decide_True by lia|by rewrite decide_False by lia].
      destruct IH as (s & E & Hs' & Ea). exists s. split_and!; [done..|]. rewrite Ea. apply q_push_push.
    + rewrite decide_False by lia. by apply work_fails.
Qed.

Lemma orf_entry_sends afi a rs b :
  stream_ok (b_work b) -> list_here a rs (w_mem (b_world b)) -> Forall (fun r => rule_prefix afi (r_prefix r)) rs ->
  sends (prefix_bgp_orf_entry a ORF_COMMON_PART_ADD ORF_COMMON_PART_PERMIT ORF_COMMON_PART_DENY) b (wire_rules rs).
Proof.
  intros Hs (Ha & Hsize & l & Hl & Hc) Hp. unfold sends, prefix_bgp_orf_entry. destruct (Z.eqb_spec a 0); [done|].
  rewrite (mem_bind mem_fuel _ b (size (w_mem (b_world b)))) by done.
  assert (Ell : load_list a (w_mem (b_world b)) = Ret (l, w_mem (b_world b))).
  { unfold load_list, mem_load, mbind, M_bind. destruct (Z.eqb_spec a 0); [done|]. by rewrite Hl. }
  rewrite (mem_bind _ _ _ _ Ell). eapply send_entries_sends; [done|done|lia|done].
Qed.

(** *** Offsets *)
Lemma abs_offsets s :
  stream_ok s -> s_getp s = Z.of_nat (length (q_done (abs s))) /\
    s_endp s = Z.of_nat (length (q_done (abs s))) + Z.of_nat (length (q_pend (abs s))).
Proof.
  intros Hs. pose proof (length_pend s Hs) as Hp. destruct Hs as [Hg He Hsz Hd Hb].
  assert (E : Z.of_nat (length (q_done (abs s))) = s_getp s) by (simpl; rewrite length_take; lia). lia.
Qed.

Lemma get_endp_reads s l n : stream_ok s -> abs s = Queue [] l n -> stream_get_endp s = Ret (Z.of_nat (length l), s).
Proof.
  intros Hs Ea. unfold stream_get_endp. rewrite (bind_ret_eq _ _ _ _ _ (sane_ok s Hs)), (bind_ret_eq mget _ s s s) by done.
  destruct (abs_offsets s Hs) as [_ ->]. by rewrite Ea.
Qed.

Lemma putw_at_patches s l1 x y l2 n w :
  stream_ok s -> abs s = Queue [] (l1 ++ [x; y] ++ l2) n ->
  exists s', stream_putw_at (Z.of_nat (length l1)) w s = Ret (2, s') /\ stream_ok s' /\
    abs s' = Queue [] (l1 ++ be_bytes 2 w ++ l2) n.
Proof.
  intros Hs Ea. destruct (abs_offsets s Hs) as [Eg Ee]. rewrite Ea in Eg, Ee. cbn [q_done q_pend length] in Eg, Ee.
  rewrite !length_app in Ee. cbn [length] in Ee.
  destruct (put_at_of_ok s Hs FW (Z.of_nat (length l1)) w) as (d & Hd & E); [lia|simpl; lia|done|].
  exists (set_data d s). split; [exact E|]. pose proof (block_write_length _ _ _ _ Hd) as Hlen. simpl field_width in Hd.
  assert (Hw : d = take (length l1) (s_data s) ++ be_bytes 2 w ++ drop (length l1 + 2) (s_data s)).
  { unfold block_write in Hd. case_bool_decide; [|done]. injection Hd as <-. by rewrite Nat2Z.id. }
  assert (Epend : take (length (l1 ++ [x; y] ++ l2)) (s_data s) = l1 ++ [x; y] ++ l2).
  { unfold abs in Ea. injection Ea as _ Ea _. rewrite Eg in Ea. cbn [Z.to_nat] in Ea. rewrite drop_0 in Ea.
    rewrite <- Ea at 2. f_equal. rewrite !length_app. simpl. lia. }
  destruct (id Hs) as [Hg1 He1 Hs1 Hd1 Hb1]. split.
  - split; cbn [set_data s_getp s_endp s_size s_data]; [done|done|done|lia|]. rewrite Hw.
    apply Forall_app. split; [by apply Forall_take|]. apply Forall_app. split; [apply be_bytes_is_byte|by apply Forall_drop].
  - unfold abs in Ea |- *. cbn [set_data s_getp s_endp s_size s_data]. rewrite Eg in *. cbn [Z.to_nat] in *.
    injection Ea as _ En. rewrite take_0, drop_0, <- En. f_equal.
    replace (Z.to_nat (s_endp s - 0)) with (length l1 + (2 + length l2))%nat by lia. rewrite Hw.
    set (rest := drop (length (l1 ++ [x; y] ++ l2)) (s_data s)).
    assert (Edata : s_data s = l1 ++ [x; y] ++ l2 ++ rest) by (rewrite <- (take_drop (length (l1 ++ [x; y] ++ l2)) (s_data s)), Epend; by rewrite <- !app_assoc).
    rewrite Edata. rewrite take_app_length, <- drop_drop, drop_app_length. cbn [drop app].
    rewrite drop_0, (app_assoc (be_bytes 2 w)), (app_assoc l1). apply take_app_length'.
    rewrite !length_app, length_be_bytes. lia.
Qed.

(** *** The packet *)
Lemma work_append {A B} (m : St A) bs (k : A -> M bgp_state B) b :
  appends m bs -> stream_ok (b_work b) -> Z.of_nat (length bs) <= q_room (abs (b_work b)) ->
  exists a s, (on_work m ≫= k) b = k a (set_work s b) /\ stream_ok s /\ abs s = q_push bs (abs (b_work b)).
Proof.
  intros Hm Hs Hr. specialize (Hm _ Hs). rewrite decide_True in Hm by done. destruct Hm as (a & s & E & Hs' & Ea).
  exists a, s. by rewrite (work_bind _ _ _ _ _ E).
Qed.

Lemma get_endp_appends : appends stream_get_endp [].
Proof.
  intros s Hs. rewrite decide_True by (pose proof (room_bounds _ Hs); simpl in *; lia). unfold stream_get_endp.
  rewrite (bind_ret_eq _ _ _ _ _ (sane_ok s Hs)), (bind_ret_eq mget _ s s s) by done. exists (s_endp s), s. by rewrite q_push_nil.
Qed.

Lemma marker_appends type : is_byte type -> appends (bgp_packet_set_marker type) (replicate 16 255 ++ [0; 0] ++ [type]).
Proof.
  intros Ht. unfold bgp_packet_set_marker. apply appends_then.
  - change 16%nat with BGP_MARKER_SIZE. generalize 0. induction BGP_MARKER_SIZE as [|n IH]; intros i; cbn [mfor replicate].
    + intros s Hs. rewrite decide_True by (pose proof (room_bounds _ Hs); simpl in *; lia). exists tt, s. by rewrite q_push_nil.
    + apply (appends_then _ _ [255]); [|apply IH]. apply appends_ret, putc_appends. done.
  - apply (appends_then _ _ [0; 0]); [apply putw_appends|]. rewrite <- (app_nil_r [type]).
    apply appends_then; [by apply putc_appends|apply get_endp_appends].
Qed.

Definition marker : list Z := replicate 16 255.
(** A message with one block of filters [body] *)
Definition refresh_message (type afi safi when orf_type : Z) (body : list Z) : list Z :=
  let orf := [when; orf_type] ++ be_bytes 2 (Z.of_nat (length body)) ++ body in
  marker ++ be_bytes 2 (23 + Z.of_nat (length orf)) ++ [type] ++ be_bytes 2 afi ++ [0; safi] ++ orf.

(** [m] adds [bs] to the packet that is built, and changes nothing else but flags of the peer. *)
Definition sends_body (m : M bgp_state unit) (b : bgp_state) (bs : list Z) : Prop := forall s, stream_ok s ->
  if decide (Z.of_nat (length bs) <= q_room (abs s))
  then exists s' p, m (set_work s b) = Ret (tt, set_work s' (set_peer p b)) /\ stream_ok s' /\ abs s' = q_push bs (abs s)
  else m (set_work s b) = AssertFail.

Section send_message.
Context (malloc_bytes : Z -> list Z).
Context (Hmalloc : forall n, 0 < n -> Z.of_nat (length (malloc_bytes n)) = n /\ Forall is_byte (malloc_bytes n)).

Definition message_type (p : bgp_peer) : Z :=
  if pr_refresh_new_rcv p then BGP_MSG_ROUTE_REFRESH_NEW else BGP_MSG_ROUTE_REFRESH_OLD.

Lemma send_run (sl : slot) orf_type when remove body b :
  is_orf_prefix orf_type = true -> is_byte when ->
  remove || negb (pr_filter_in (b_peer b) sl =? 0) = true ->
  sends_body
    (if remove then
       update_peer (set_orf_send sl false) ;;
       on_work (stream_putc ORF_COMMON_PART_REMOVE_ALL ;; mret tt)
     else
       update_peer (set_orf_send sl true) ;;
       prefix_bgp_orf_entry (pr_filter_in (b_peer b) sl) ORF_COMMON_PART_ADD ORF_COMMON_PART_PERMIT ORF_COMMON_PART_DENY) b body ->
  if decide (27 + Z.of_nat (length body) <= BGP_MAX_PACKET_SIZE)
  then exists s p, bgp_route_refresh_send malloc_bytes sl orf_type when remove b =
      Ret (tt, add_event (BgpSend s) (set_work s (set_peer p b))) /\ stream_ok s /\
      abs s = Queue [] (refresh_message (message_type (b_peer b)) (afi_int2iana sl.1) (safi_int2iana sl.2) when orf_type body)
                (BGP_MAX_PACKET_SIZE - 27 - Z.of_nat (length body))
  else bgp_route_refresh_send malloc_bytes sl orf_type when remove b = AssertFail.
Proof.
  intros Hot Hwhen Hcond Hbody. set (inner := if remove then _ else _) in *. unfold bgp_route_refresh_send.
  rewrite (bind_ret_eq get_peer _ _ (b_peer b) b) by done. cbn [bgp_map_afi_safi_int2iana].
  destruct (Hmalloc BGP_MAX_PACKET_SIZE ltac:(done)) as [Hml Hmb].
  set (s0 := Stream 0 0 BGP_MAX_PACKET_SIZE (malloc_bytes BGP_MAX_PACKET_SIZE)).
  assert (Hs0 : stream_ok s0) by (split; simpl; [lia|done|done|done|done]).
  rewrite (bind_ret_eq (mlift _) _ _ s0 b) by done. rewrite (bind_ret_eq (mmodify _) _ _ tt (set_work s0 b)) by done.
  assert (Ea0 : abs s0 = Queue [] [] BGP_MAX_PACKET_SIZE) by done.
  fold (message_type (b_peer b)). assert (Htype : is_byte (message_type (b_peer b))) by (unfold message_type; by destruct (pr_refresh_new_rcv _)).
  set (type := message_type (b_peer b)) in *.
  assert (Hbytes : is_byte (safi_int2iana sl.2) /\ is_byte orf_type).
  { split; [by destruct sl as [? []]|]. unfold is_orf_prefix in Hot. apply orb_prop in Hot as [->%Z.eqb_eq| ->%Z.eqb_eq]; done. }
  destruct Hbytes as [Hsafi Horf].
  match goal with |- context [(on_work (bgp_packet_set_marker type) ≫= ?k) (set_work s0 b)] =>
    destruct (work_append _ _ k (set_work s0 b) (marker_appends type Htype) Hs0 ltac:(simpl; unfold BGP_MAX_PACKET_SIZE; lia)) as (? & s1 & E1 & Hs1 & Ea1) end.
  rewrite E1. clear E1. cbn [b_work set_work] in Ea1. rewrite Ea0 in Ea1.
  match goal with |- context [(on_work (?m) ≫= ?k) ?st] =>
    destruct (work_append m (be_bytes 2 (afi_int2iana sl.1) ++ [0] ++ [safi_int2iana sl.2]) k st) as (? & s2 & E2 & Hs2 & Ea2) end.
  { apply appends_then; [apply putw_appends|]. apply appends_then; by apply putc_appends. }
  { exact Hs1. }
  { cbn [b_work set_work]. rewrite Ea1. simpl. unfold BGP_MAX_PACKET_SIZE. lia. }
  rewrite E2. clear E2. cbn [b_work set_work] in Ea2. rewrite Ea1, q_push_push in Ea2. rewrite Hot, Hcond. cbn [andb mwhen].
  change (set_work s2 (set_work s1 (set_work s0 b))) with (set_work s2 b).
  set (head := (replicate 16 255 ++ [0; 0] ++ [type]) ++ be_bytes 2 (afi_int2iana sl.1) ++ [0] ++ [safi_int2iana sl.2]) in *.
  set (orf := [when; orf_type] ++ be_bytes 2 (Z.of_nat (length body)) ++ body).
  assert (Hlhead : length head = 23%nat) by done.
  match goal with |- context [(?m ≫= ?k) (set_work s2 b)] =>
    assert (Hmid : if decide (27 + Z.of_nat (length body) <= BGP_MAX_PACKET_SIZE)
      then exists s p, m (set_work s2 b) = Ret (tt, set_work s (set_peer p b)) /\ stream_ok s /\
        abs s = Queue [] (head ++ orf) (BGP_MAX_PACKET_SIZE - 27 - Z.of_nat (length body))
      else m (set_work s2 b) = AssertFail) end.
  { match goal with |- context [(on_work (?m) ≫= ?k) (set_work s2 b)] =>
      destruct (work_append m ([when] ++ [orf_type]) k (set_work s2 b)) as (? & s3 & E3 & Hs3 & Ea3) end.
    { apply appends_then; by apply putc_appends. }
    { exact Hs2. }
    { cbn [b_work set_work]. rewrite Ea2. simpl. unfold BGP_MAX_PACKET_SIZE. lia. }
    rewrite !E3. clear E3. cbn [b_work set_work] in Ea3. rewrite Ea2, q_push_push in Ea3.
    change (set_work s3 (set_work s2 b)) with (set_work s3 b).
    rewrite !(work_bind _ _ (set_work s3 b) _ _ (get_endp_reads s3 _ _ Hs3 Ea3)).
    change (set_work s3 (set_work s3 b)) with (set_work s3 b). cbn [app].
    match goal with |- context [(on_work (?m) ≫= ?k) (set_work s3 b)] =>
      destruct (work_append m (be_bytes 2 0) k (set_work s3 b)) as (? & s4 & E4 & Hs4 & Ea4) end.
    { apply putw_appends. }
    { exact Hs3. }
    { cbn [b_work set_work]. rewrite Ea3. simpl. unfold BGP_MAX_PACKET_SIZE. lia. }
    rewrite !E4. clear E4. cbn [b_work set_work] in Ea4. rewrite Ea3, q_push_push in Ea4.
    change (set_work s4 (set_work s3 b)) with (set_work s4 b).
    assert (Eroom : q_room (abs s4) = BGP_MAX_PACKET_SIZE - 27) by (rewrite Ea4; reflexivity).
    specialize (Hbody s4 Hs4). rewrite Eroom in Hbody.
    destruct (decide (27 + Z.of_nat (length body) <= BGP_MAX_PACKET_SIZE)) as [Hfit|Hfull].
    - rewrite decide_True in Hbody by lia. destruct Hbody as (s5 & p & E5 & Hs5 & Ea5).
      rewrite (bind_ret_eq _ _ _ _ _ E5). rewrite Ea4, q_push_push in Ea5.
      unfold q_push in Ea5. cbn [q_done q_pend q_room app] in Ea5.
      rewrite (work_bind _ _ (set_work s5 (set_peer p b)) _ _ (get_endp_reads s5 _ _ Hs5 Ea5)).
      change (set_work s5 (set_work s5 (set_peer p b))) with (set_work s5 (set_peer p b)).
      set (first := head ++ [when; orf_type]) in *. assert (Hlfirst : length first = 25%nat) by (unfold first; by rewrite length_app, Hlhead).
      assert (Elen : length ((first ++ be_bytes 2 0) ++ body) = (27 + length body)%nat).
      { rewrite !length_app, Hlfirst, length_be_bytes. lia. }
      change (head ++ [when] ++ [orf_type]) with first. cbn [q_pend app]. rewrite Hlfirst, Elen.
      rewrite Elen, <- app_assoc in Ea5.
      destruct (putw_at_patches s5 first 0 0 body _ (u16 (Z.of_nat (27 + length body) - 25 - 2)) Hs5 Ea5) as (s6 & E6 & Hs6 & Ea6).
      rewrite Hlfirst in E6. exists s6, p.
      rewrite (work_bind _ _ (set_work s5 (set_peer p b)) _ _ E6). split; [done|]. split; [done|]. rewrite Ea6.
      assert (Eu : u16 (Z.of_nat (27 + length body) - 25 - 2) = Z.of_nat (length body)).
      { unfold BGP_MAX_PACKET_SIZE in Hfit. replace (Z.of_nat (27 + length body) - 25 - 2) with (Z.of_nat (length body)) by lia.
        apply wrap_small. lia. }
      rewrite Eu. unfold first, orf. rewrite <- app_assoc. f_equal. lia.
    - rewrite decide_False in Hbody by lia. by apply bind_assertfail. }
  case_decide as Hfit; [|by apply bind_assertfail].
  destruct Hmid as (s3 & p & E3 & Hs3 & Ea3). rewrite (bind_ret_eq _ _ _ _ _ E3). clear E3.
  assert (Hsplit : head ++ orf = marker ++ [0; 0] ++ ([type] ++ be_bytes 2 (afi_int2iana sl.1) ++ [0; safi_int2iana sl.2] ++ orf)) by done.
  assert (Hset : exists s4, bgp_packet_set_size s3 = Ret (Z.of_nat (length (head ++ orf)), s4) /\ stream_ok s4 /\
    abs s4 = Queue [] (marker ++ be_bytes 2 (Z.of_nat (length (head ++ orf))) ++ [type] ++ be_bytes 2 (afi_int2iana sl.1) ++ [0; safi_int2iana sl.2] ++ orf)
              (BGP_MAX_PACKET_SIZE - 27 - Z.of_nat (length body))).
  { unfold bgp_packet_set_size. rewrite (bind_ret_eq _ _ _ _ _ (get_endp_reads s3 _ _ Hs3 Ea3)). rewrite Hsplit in Ea3.
    destruct (putw_at_patches s3 marker 0 0 _ _ (Z.of_nat (length (head ++ orf))) Hs3 Ea3) as (s4 & E4 & Hs4 & Ea4).
    exists s4. change (Z.of_nat BGP_MARKER_SIZE) with (Z.of_nat (length marker)). rewrite (bind_ret_eq _ _ _ _ _ E4). by split. }
  destruct Hset as (s4 & E4 & Hs4 & Ea4). rewrite (work_bind _ _ (set_work s3 (set_peer p b)) _ _ E4).
  exists s4, p. split; [done|]. split; [done|]. rewrite Ea4. unfold refresh_message. fold orf.
  by rewrite length_app, Hlhead, Nat2Z.inj_add.
Qed.
End send_message.
