(* ===== verification/BgpOrfCorrect.v ===== *)
(** * The properties of outbound route filters

    What a peer makes of the messages: it decides about every route as the list
    that was sent to it, and what happens when filters are taken back or do not
    fit a packet. *)

From stdpp Require Import functions sorting.
From S2P Require Import Prelude Stream StreamRefine StreamSafety SepLogic Heap FrrPrefix FrrPrefixBits.
From S2P Require Import Plist PlistVty PlistChain PlistApply PlistQuery PlistBody PlistMaster PlistWorld PlistSpec PlistText.
From S2P Require Import PlistSteps PlistReset PlistHistory PlistCorrect BgpOrf BgpOrfRecv BgpOrfKept BgpOrfSend.

#[local] Open Scope Z_scope.

(** ** The rules at the receiver *)

(** A rule whose range fits the bytes it is sent in, and that a receiver accepts *)
Definition sendable (r : rule) : bool :=
  (r_ge r <=? 255) && (r_le r <=? 255) && ((r_le r =? 0) || (prefixlen (r_prefix r) <? r_le r)).
Definition as_received (r : rule) : rule := Rule (r_seq r) (r_le r) (r_ge r) (r_type r) 0 (r_prefix r) 0.

Lemma as_received_kept afi r : kept_rule afi r -> kept_rule afi (as_received r).
Proof. intros [? ? ? ? ? ?]. by split. Qed.
Lemma received_kept afi rs : kept_rules afi rs -> kept_rules afi (as_received <$> rs).
Proof.
  intros [H1 H2]. split; [apply Forall_fmap; eapply Forall_impl; [exact H1|]; by apply as_received_kept|].
  rewrite <- list_fmap_compose. done.
Qed.
Lemma verdict_received rs p : verdict (as_received <$> rs) p = verdict rs p.
Proof.
  assert (E : forall rs, first_match (as_received <$> rs) p = as_received <$> first_match rs p).
  { intros l. induction l as [|r l IH]; [done|]. rewrite fmap_cons. cbn [first_match].
    change (matches (as_received r) p) with (matches r p). by destruct (matches r p). }
  unfold verdict. destruct rs as [|r rs]; [done|]. pose proof (E (r :: rs)) as E1. rewrite fmap_cons in E1 |- *. rewrite E1.
  by destruct (first_match (r :: rs) p).
Qed.

Lemma kept_prefix_clean afi p : rule_prefix afi p -> clean p -> kept_prefix p = p.
Proof.
  intros [Hw Hf Hl _] Hc. pose proof (sent_bytes_le afi p Hl) as Hn. pose proof (pw_size p Hw) as Hs.
  assert (H16 : (afi_bytes afi <= 16)%nat) by (destruct afi; simpl; lia).
  unfold kept_prefix, prefix_copy. rewrite Hf, afi_copied. cbn [mbind res_bind]. rewrite read_bytes_take by lia. cbn [mbind res_bind].
  rewrite Nat2Z.id, write_bytes_0 by (rewrite length_take, Hs; simpl; lia). cbn [mbind res_bind].
  rewrite length_take, Nat.min_l by lia. unfold zero_prefix. cbn [u]. rewrite drop_replicate.
  destruct p as [f l b]. cbn [p_family prefixlen u] in *. f_equal; [done|]. unfold clean in Hc. cbn [u prefixlen] in Hc.
  set (n := sent_bytes (Prefix f l b)) in *. assert (Ht : length (take n b) = n) by (rewrite length_take; lia).
  clearbody n. remember (take n b) as t eqn:Et. clear Et. subst b. rewrite take_app_ge, Ht, <- app_assoc by lia. f_equal.
  rewrite take_replicate, <- replicate_add. f_equal. lia.
Qed.

Definition entry_of (afi : afi_t) (r : rule) : orf_prefix := OrfPrefix (r_seq r) (r_ge r) (r_le r) (r_prefix r).

Lemma parse_wire_rule afi r bs :
  ip_afi afi -> kept_rule afi r -> sendable r = true -> 0 <= r_seq r <= UINT_MAX ->
  exists common tail, wire_rule r ++ bs = common :: tail /\ Z.land common ORF_COMMON_PART_REMOVE_ALL = 0 /\
    entry_op [] afi common (entry_of afi r) = OpOrfSet [] afi (entry_of afi r) (Z.land common ORF_COMMON_PART_DENY =? 0) true /\
    permit_type (Z.land common ORF_COMMON_PART_DENY =? 0) = r_type r /\
    parse_entry afi tail = (entry_of afi r, true, bs).
Proof.
  intros Hafi Hk Hs Hseq. unfold sendable in Hs. destruct (rule_prefix_len _ _ (kr_prefix _ _ Hk)) as [Hlen Hsize].
  pose proof (kr_ge _ _ Hk) as Hge. pose proof (kr_le _ _ Hk) as Hle. pose proof (kr_prefix _ _ Hk) as Hp.
  assert (Ege : u8 (r_ge r) = r_ge r) by (apply wrap_small; lia). assert (Ele : u8 (r_le r) = r_le r) by (apply wrap_small; lia).
  assert (Eseq : u32 (r_seq r) = r_seq r) by (apply wrap_small; unfold UINT_MAX in *; lia).
  eexists _, _. split; [unfold wire_rule; cbn [app]; reflexivity|]. split; [by destruct (r_type r)|]. split; [by destruct (r_type r)|].
  split; [by destruct (r_type r)|]. rewrite Ege, Ele, Eseq.
  destruct (be_bytes 4 (r_seq r)) as [|b0 [|b1 [|b2 [|b3 [|? ?]]]]] eqn:Eb; try (by apply (f_equal length) in Eb; rewrite length_be_bytes in Eb).
  rewrite <- !app_assoc. cbn [app parse_entry]. unfold parse_entry. cbn [take_byte app].
  assert (Ev : be_val [b0; b1; b2; b3] = r_seq r).
  { rewrite <- Eb, be_val_bytes. apply wrap_small. unfold UINT_MAX in *. lia. }
  rewrite Ev. fold (sent_bytes (r_prefix r)). pose proof (sent_bytes_le afi _ (rp_len _ _ Hp)) as Hn.
  set (n := sent_bytes (r_prefix r)) in *. pose proof (pw_size _ (rp_wf _ _ Hp)) as Hu.
  assert (Hafb : (afi_bytes afi <= 16)%nat) by (destruct afi; simpl; lia).
  assert (En : Nat.min (Nat.min n (afi_bytes afi)) (length (take n (u (r_prefix r)) ++ bs)) = n).
  { rewrite length_app, length_take. lia. }
  change (Z.to_nat (PSIZE (prefixlen (r_prefix r)))) with n. rewrite En, Nat.eqb_refl.
  rewrite take_app_length', drop_app_length' by (rewrite length_take; lia). unfold entry_of.
  do 3 f_equal. pose proof (kr_clean _ _ Hk) as Hc. unfold clean in Hc. fold n in Hc. rewrite <- Hc, <- (rp_family _ _ Hp). by destruct (r_prefix r).
Qed.

Lemma orf_rule_received afi r permit :
  kept_rule afi r -> sendable r = true -> permit_type permit = r_type r ->
  orf_rule afi (entry_of afi r) permit = Some (as_received r).
Proof.
  intros Hk Hs Ep. unfold sendable in Hs. unfold orf_rule, entry_of. cbn [orf_ge orf_le orf_p orf_seq].
  pose proof (kr_ge _ _ Hk) as Hge. pose proof (kr_le _ _ Hk) as Hle.
  assert (E1 : negb (r_ge r =? 0) && (r_ge r <=? prefixlen (r_prefix r)) = false) by lia.
  assert (E2 : bad_range (prefixlen (r_prefix r) + 1) (r_ge r) (r_le r) = false) by (unfold bad_range; lia).
  rewrite E1, E2. cbn [orb]. rewrite (kept_prefix_clean afi) by apply Hk. rewrite (kr_normal _ _ Hk), Ep. done.
Qed.

(** ** A policy by its name *)
Lemma upto_replace {X} (nm : X -> list Z) f l l1 x y l2 :
  upto nm f l = (l1, x :: l2) -> f (nm y) = true -> upto nm f (l1 ++ y :: l2) = (l1, y :: l2).
Proof.
  revert l1. induction l as [|z l IH]; intros l1; [done|]. simpl. destruct (f (nm z)) eqn:Ez.
  - intros [= <- _ _] Hy. simpl. by rewrite Hy.
  - destruct (upto nm f l) as [a b]. intros [= <- ->] Hy. simpl. by rewrite Ez, (IH a eq_refl Hy).
Qed.

Lemma locate_put name t l1 x y l2 ps :
  locate po_name name ps = Some (t, l1, x, l2) -> po_name y = name ->
  locate po_name name (put t (l1 ++ y :: l2) ps) = Some (t, l1, y, l2).
Proof.
  intros E Hy. assert (Hf : is_name name (po_name y) = true) by by apply bool_decide_true.
  unfold locate in *. destruct (upto po_name (is_name name) (nm_num ps)) as [a1 [|x1 b1]] eqn:E1.
  - destruct (upto po_name (is_name name) (nm_str ps)) as [a2 [|x2 b2]] eqn:E2; [done|]. injection E as <- <- <- <-.
    cbn [put nm_num nm_str]. rewrite E1. by rewrite (upto_replace _ _ _ _ _ y _ E2 Hf).
  - injection E as <- <- <- <-. cbn [put nm_num nm_str]. by rewrite (upto_replace _ _ _ _ _ y _ E1 Hf).
Qed.

Lemma locate_changed name f ps x y :
  locate_policy name ps = Some x -> f x = Some y -> po_name y = name -> locate_policy name (change_policy name f ps) = Some y.
Proof.
  unfold locate_policy, change_policy. destruct (locate po_name name ps) as [[[[t l1] z] l2]|] eqn:E; [|done].
  intros [= ->] Ef Ey. rewrite Ef. change (option_list (Some y) ++ l2) with (y :: l2). by rewrite (locate_put _ _ _ _ _ _ _ E Ey).
Qed.

Lemma forget_located cfg name ps : named_once ps -> locate_policy name (sp_forget cfg name ps).1 = None.
Proof.
  intros Honce. unfold sp_forget. destruct (locate_policy name ps) as [x|] eqn:E0; [|done]. cbn [fst]. 
  destruct (locate_policy name (change_policy name (fun _ => None) ps)) as [y|] eqn:E; [exfalso|done].
  apply locate_policy_elem in E as [Hy Ey]. unfold locate_policy, change_policy in *. destruct (locate po_name name ps) as [[[[t l1] z] l2]|] eqn:El; [|done].
  destruct (locate_split po_name _ _ _ _ _ _ El) as [Esel Ez]. change (option_list None ++ l2) with l2 in Hy.
  rewrite put_perm in Hy. unfold named_once in Honce. rewrite (sel_perm t), Esel in Honce.
  rewrite <- (Permutation_middle l1 l2 z), <- app_comm_cons, fmap_cons in Honce. apply NoDup_cons in Honce as [Hnot _]. destruct Hnot.
  rewrite Ez, <- Ey. by apply list_elem_of_fmap_2.
Qed.

Lemma get_located name ps x : locate_policy name ps = Some x -> get_policy name ps = ps.
Proof. unfold locate_policy, get_policy. by destruct (locate po_name name ps). Qed.

Lemma locate_got name ps :
  exists x, locate_policy name (get_policy name ps) = Some x /\ po_name x = name /\
    (locate_policy name ps = None -> po_rules x = []) /\ (forall y, locate_policy name ps = Some y -> x = y).
Proof.
  unfold locate_policy, get_policy. destruct (locate po_name name ps) as [[[[t l1] x] l2]|] eqn:E.
  - exists x. rewrite E. destruct (locate_split po_name _ _ _ _ _ _ E) as [_ En]. split_and!; [done|done|done|by intros y [= ->]].
  - destruct (locate_inserted po_name (Policy name None []) ps E) as (t & l1 & l2 & El & _ & _). cbn [po_name] in El. rewrite El.
    exists (Policy name None []). by split_and!.
Qed.

Lemma locate_policy_name name ps x : locate_policy name ps = Some x -> po_name x = name.
Proof.
  unfold locate_policy. destruct (locate po_name name ps) as [[[[t l1] y] l2]|] eqn:E; [|done]. intros [= ->].
  by destruct (locate_split po_name _ _ _ _ _ _ E).
Qed.

(** ** One rule after the other *)
Section received.
Context (inet_pton : family -> list Z -> option (list Z)) (uninit : prefix).
Context (afi : afi_t) (Hafi : ip_afi afi) (name : list Z) (Hname : name_ok name = true).
Abbreviation step := (sp_step inet_pton uninit).
Abbreviation run := (sp_run inet_pton uninit).

(** The list of the peer has the rules [rs], or there is none yet and [rs] is empty. *)
Definition listed (st : sp_state) (rs : list rule) : Prop :=
  exists x, locate_policy name (get_policy name (master_of afi true st).2) = Some x /\ po_rules x = rs.

Lemma insert_last r rs : Forall (fun x => r_seq x < r_seq r) rs -> insert_rule r rs = rs ++ [r].
Proof.
  intros H. unfold insert_rule.
  assert (E1 : filter (fun x => r_seq x < r_seq r) rs = rs).
  { induction H as [|x l Hx _ IH]; [done|]. rewrite filter_cons_True by done. by rewrite IH. }
  assert (E2 : filter (fun x => r_seq r < r_seq x) rs = []).
  { clear E1. induction H as [|x l Hx _ IH]; [done|]. by rewrite filter_cons_False by lia. }
  by rewrite E1, E2.
Qed.

Lemma unknown_rule r rs :
  kept_rules afi (rs ++ [r]) -> known (as_received r) (as_received <$> rs) = false.
Proof.
  intros [Hk Hnd]. apply not_true_iff_false. intros H. apply existsb_exists in H as (x & Hx%list_elem_of_In & H).
  apply andb_prop in H as [H _]. apply list_elem_of_fmap in Hx as (y & -> & Hy). apply Forall_app in Hk as [Hk [Hr _]%Forall_cons].
  pose proof (as_received_kept _ _ (proj1 (Forall_forall _ _) Hk _ Hy)) as Hy'. pose proof (as_received_kept _ _ Hr) as Hr'.
  apply (same_policy_kept afi _ _ Hy' Hr') in H.
  rewrite fmap_app in Hnd. apply NoDup_app in Hnd as (_ & Hnd & _). apply (Hnd (policy_of y)); [by apply list_elem_of_fmap_2|].
  apply list_elem_of_singleton. exact H.
Qed.

Lemma set_step r rs permit st :
  kept_rules afi (rs ++ [r]) -> Forall (fun x => r_seq x < r_seq r) rs -> sendable r = true -> 0 <= r_seq r <= UINT_MAX ->
  permit_type permit = r_type r -> Z.of_nat (length rs) + 1 < 2 ^ 31 -> listed st (as_received <$> rs) ->
  let op := OpOrfSet name afi (entry_of afi r) permit true in
  op_ok op st /\ (step op st).1.2 = Code CMD_SUCCESS /\
  exists x, locate_policy name (master_of afi true (step op st).1.1).2 = Some x /\ po_rules x = as_received <$> rs ++ [r].
Proof.
  intros Hk Hlt Hs Hseq Hperm Hroom (x & El & Erules) op.
  assert (Hr : kept_rule afi r) by by apply proj1, Forall_app in Hk as [_ [Hk _]%Forall_cons].
  split.
  { split_and!; [done|done|apply Hseq..|apply Hr|]. intros y Ey. rewrite El in Ey. injection Ey as <-. by rewrite Erules, length_fmap. }
  assert (Hon : forall f, (on_master afi true f st).1.2 = Code (f (master_of afi true st).1 (master_of afi true st).2).1.2 /\
    (master_of afi true (on_master afi true f st).1.1).2 = (f (master_of afi true st).1 (master_of afi true st).2).1.1).
  { intros f. unfold on_master. destruct (master_of afi true st) as [cfg ps]. cbn [fst snd]. destruct (f cfg ps) as [[ps' c] ns]. by destruct afi. }
  subst op. cbn [sp_step]. match goal with |- (on_master _ _ ?f _).1.2 = _ /\ _ => destruct (Hon f) as [-> ->] end.
  destruct (master_of afi true st) as [cfg ps]. cbn [fst snd] in *. unfold sp_orf_set.
  rewrite orf_rule_received by done. unfold sp_add. rewrite El, Erules, (unknown_rule r rs Hk). cbn [fst snd]. split; [done|].
  eexists. split; [by apply (locate_changed _ _ _ x); [|reflexivity|apply (locate_policy_name _ _ _ El)]|].
  cbn [with_rules po_rules]. rewrite Erules. unfold give_number. cbn [as_received r_seq].
  destruct (Z.eqb_spec (r_seq r) (-1)); [lia|]. rewrite insert_last by (by apply Forall_fmap). by rewrite fmap_app.
Qed.

Lemma listed_after st x rs : locate_policy name (master_of afi true st).2 = Some x -> po_rules x = rs -> listed st rs.
Proof. intros El Er. exists x. by rewrite (get_located _ _ _ El). Qed.

Lemma wire_entries fuel rs2 rs1 st :
  kept_rules afi (rs1 ++ rs2) -> ordered_rules (rs1 ++ rs2) -> Forall (fun r => sendable r = true) rs2 ->
  Z.of_nat (length (rs1 ++ rs2)) < 2 ^ 31 -> (length (wire_rules rs2) <= fuel)%nat -> rs2 <> [] -> listed st (as_received <$> rs1) ->
  let ops := entries_ops inet_pton uninit fuel name afi (wire_rules rs2) st in
  ops <> [] /\ ops_ok inet_pton uninit ops st /\
  exists x, locate_policy name (master_of afi true (run ops st).1.1).2 = Some x /\ po_rules x = as_received <$> rs1 ++ rs2.
Proof.
  revert rs2 rs1 st. induction fuel as [|fuel IH]; intros [|r rs2] rs1 st Hk Ho Hs Hlen Hfuel Hne Hst; try done.
  { exfalso. cbn in Hfuel. lia. }
  rewrite cons_middle, app_assoc in Hk, Ho, Hlen |- *. apply Forall_cons in Hs as [Hsr Hs].
  assert (Hk1 : kept_rules afi (rs1 ++ [r])).
  { destruct Hk as [H1 H2]. split; [by apply Forall_app in H1 as [H1 _]|]. rewrite fmap_app in H2. by apply NoDup_app in H2 as [H2 _]. }
  assert (Hr : kept_rule afi r) by (pose proof (proj1 Hk1) as H; by apply Forall_app in H as [_ [H _]%Forall_cons]).
  destruct Ho as [Hsort Hnum]. pose proof (proj1 (Forall_app _ _ _) Hnum) as [Hnum1 _]. apply Forall_app in Hnum1 as [_ [Hseq _]%Forall_cons].
  assert (Hlt : Forall (fun x => r_seq x < r_seq r) rs1).
  { apply StronglySorted_app in Hsort as (_ & Hsort & _). apply StronglySorted_app in Hsort as (Hlt & _ & _).
    apply Forall_forall. intros x Hx. apply (Hlt x r Hx). by left. }
  destruct (parse_wire_rule afi r (wire_rules rs2) Hafi Hr Hsr Hseq) as (common & tail & Ew & Ec & Eop & Ep & Epar).
  intros ops. subst ops. change (wire_rules (r :: rs2)) with (wire_rule r ++ wire_rules rs2). rewrite Ew. cbn [entries_ops].
  rewrite Ec. cbn [negb Z.eqb]. rewrite Epar. cbn [negb].
  assert (Eop' : entry_op name afi common (entry_of afi r) = OpOrfSet name afi (entry_of afi r) (Z.land common ORF_COMMON_PART_DENY =? 0) true).
  { unfold entry_op in *. injection Eop as ->. done. }
  rewrite Eop'. set (op := OpOrfSet name afi _ _ _).
  destruct (set_step r rs1 _ st Hk1 Hlt Hsr Hseq Ep ltac:(rewrite !length_app in Hlen; simpl in Hlen; lia) Hst) as (Hop & Ea & x & El & Erules).
  fold op in Hop, Ea, El. rewrite bool_decide_true by done. split; [done|].
  assert (Hrun : forall ops, (run (op :: ops) st).1.1 = (run ops (step op st).1.1).1.1).
  { intros ops. cbn [sp_run]. destruct (step op st) as [[st1 a] ns]. cbn [fst]. by destruct (run ops st1) as [[? ?] ?]. }
  rewrite Hrun. cbn [ops_ok]. destruct rs2 as [|r2 rs2].
  - assert (E0 : entries_ops inet_pton uninit fuel name afi (wire_rules []) (step op st).1.1 = []) by by destruct fuel.
    rewrite E0, app_nil_r. split_and!; [done|done|]. by exists x.
  - destruct (IH (r2 :: rs2) (rs1 ++ [r]) (step op st).1.1 Hk (conj Hsort Hnum) Hs Hlen) as (_ & Hok & Hx).
    + change (wire_rules (r :: r2 :: rs2)) with (wire_rule r ++ wire_rules (r2 :: rs2)) in Hfuel.
      rewrite length_app in Hfuel. assert (0 < length (wire_rule r))%nat by (cbn; lia). lia.
    + done.
    + by eapply listed_after.
    + split_and!; [done|done|]. exact Hx.
Qed.
End received.

(** ** The message at the receiver *)

(** The packet [s] is read up to its header, and the rest is [bs]. *)
Definition carries (s : stream) (bs : list Z) : Prop := stream_ok s /\ q_pend (abs s) = bs.

Lemma carries_reading s bs : carries s bs -> reading s (s_getp s + Z.of_nat (length bs)) bs.
Proof.
  intros [Hs <-]. pose proof (length_pend s Hs) as Hl. destruct (id Hs) as [Hg He Hsz Hd Hb]. split; [done|]. split; [|lia].
  unfold window, block_read. rewrite bool_decide_true by lia. rewrite Hl. f_equal. unfold abs. cbn [q_pend]. f_equal. lia.
Qed.

(** A packet that was built, before anything of it is read *)
Definition unread (s : stream) (m : list Z) : Prop := stream_ok s /\ q_done (abs s) = [] /\ q_pend (abs s) = m.

Lemma header_read s m :
  unread s m -> BGP_HEADER_SIZE <= Z.of_nat (length m) -> carries (set_getp BGP_HEADER_SIZE s) (drop (Z.to_nat BGP_HEADER_SIZE) m).
Proof.
  intros (Hs & E0 & <-) Hl. pose proof (length_pend s Hs) as Hp. destruct (abs_offsets s Hs) as [Eg _]. rewrite E0 in Eg. cbn [length] in Eg.
  destruct (id Hs) as [Hg He Hsz Hd Hb]. unfold BGP_HEADER_SIZE in *.
  split; [split; cbn [set_getp s_getp s_endp s_size s_data]; [lia|done..]|].
  unfold abs. cbn [set_getp q_pend s_getp s_endp s_data]. rewrite Eg. cbn [Z.of_nat Z.to_nat]. rewrite drop_0, skipn_firstn_comm.
  f_equal. lia.
Qed.

Lemma map_back (sl : slot) : bgp_map_afi_safi_iana2int (afi_int2iana sl.1) (safi_int2iana sl.2) = Some sl.
Proof. by destruct sl as [[] []]. Qed.

(** What follows the header *)
Lemma message_tail type (sl : slot) when orf_type body :
  exists a1 a2 l1 l2,
    drop (Z.to_nat BGP_HEADER_SIZE) (refresh_message type (afi_int2iana sl.1) (safi_int2iana sl.2) when orf_type body) =
      a1 :: a2 :: 0 :: safi_int2iana sl.2 :: when :: orf_type :: l1 :: l2 :: body /\
    be_val [a1; a2] = afi_int2iana sl.1 /\ be_val [l1; l2] = wrap 16 (Z.of_nat (length body)).
Proof.
  assert (Htwo : forall z, exists x y, be_bytes 2 z = [x; y]) by (intros z; by do 2 eexists).
  pose proof (be_val_bytes 2 (Z.of_nat (length body))) as Eb. pose proof (be_val_bytes 2 (afi_int2iana sl.1)) as Ea.
  destruct (Htwo (Z.of_nat (length body))) as (l1 & l2 & El). destruct (Htwo (afi_int2iana sl.1)) as (a1 & a2 & Ela). rewrite El in Eb. rewrite Ela in Ea.
  exists a1, a2, l1, l2. split; [|split; [|exact Eb]].
  - unfold refresh_message. cbv zeta. rewrite El, Ela. destruct (Htwo (23 + Z.of_nat (length ([when; orf_type] ++ [l1; l2] ++ body)))) as (x1 & x2 & ->). done.
  - rewrite Ea. by destruct sl as [[] ?].
Qed.

(** The peer accepts ROUTE-REFRESH messages for [sl]. *)
Record listens (b : bgp_state) (sl : slot) (st : sp_state) : Prop := {
  ls_adv : pr_refresh_adv (b_peer b) = true;
  ls_established : pr_established (b_peer b) = true;
  ls_afi : ip_afi sl.1;
  ls_keeps : keeps_policies (w_mem (b_world b)) st
}.

Section properties.
Context (place : pmem -> Z -> Z) `{!Placement place}.
Context (inet_pton : family -> list Z -> option (list Z)) (Hpton : pton_spec inet_pton).
Context (uninit : prefix) (Huninit : prefix_wf uninit).
Context (malloc_bytes : Z -> list Z).
Context (Hmalloc : forall n, 0 < n -> Z.of_nat (length (malloc_bytes n)) = n /\ Forall is_byte (malloc_bytes n)).
Abbreviation step := (sp_step inet_pton uninit).
Abbreviation run := (sp_run inet_pton uninit).

(** The decision of a group that points to the list of the peer *)
Lemma orf_check_verdict sl name b st x g p :
  keeps_policies (w_mem (b_world b)) st -> ip_afi sl.1 ->
  locate_policy name (master_of sl.1 true st).2 = Some x ->
  prefix_bgp_orf_lookup sl.1 name (w_mem (b_world b)) = Ret (gc_orf_plist g sl, w_mem (b_world b)) ->
  gc_orf_rm_adv g sl = true -> gc_orf_sm_rcv g sl || gc_orf_sm_old_rcv g sl = true -> prefix_wf p ->
  gc_orf_plist g sl <> 0 /\
  exists b', orf_check g sl p b = Ret (match verdict (po_rules x) p with PREFIX_DENY => false | PREFIX_PERMIT => true end, b').
Proof.
  intros Hk Hafi El Elook Hrm Hsm Hp. destruct (lookup_keeps sl.1 true name _ _ Hk Hafi) as (a & Ea & Hlist). rewrite El in Hlist.
  unfold prefix_bgp_orf_lookup in Elook. rewrite Ea in Elook. injection Elook as Eg. destruct Hlist as [Ha _].
  assert (H0 : gc_orf_plist g sl <> 0) by congruence. split; [done|].
  destruct (run_op place inet_pton Hpton uninit Huninit (OpApply sl.1 true name p) (b_world b) st Hk (conj Hafi Hp)) as (w' & E & _).
  cbn [do_op sp_step fst snd] in E. rewrite El in E. apply bind_Ret_inv in E as (a' & w1 & E1 & E).
  unfold on_mem in E1. rewrite Ea in E1. injection E1 as <- <-. apply bind_Ret_inv in E as (t & w2 & E2 & E). injection E as -> <-.
  exists (set_world w2 b). unfold orf_check. rewrite Hrm, Hsm. destruct (Z.eqb_spec (gc_orf_plist g sl) 0); [done|]. cbn [andb negb].
  rewrite <- Eg, (world_bind _ _ b (verdict (po_rules x) p) w2); [done|]. rewrite <- E2. by destruct (b_world b).
Qed.

(** C13. A ROUTE-REFRESH message with filters is received without a fault, however
    its blocks and entries are cut off or malformed, as long as no filter has
    bits behind its prefix ([ops_ok]); and the prefix lists become what the
    specification of the prefix lists makes of the operations that [block_ops]
    reads from the bytes: a filter set for every entry, up to the first
    malformed or refused one, which removes the list.  The group of the peer points to the list that is
    there then, unless there is none. *)
Theorem orf_message_received sl a1 a2 r sf when bs b st g :
  let name := orf_name (pr_host (b_peer b)) sl in
  let ops := block_ops inet_pton uninit (5 + length bs) name sl bs st in
  listens b sl st -> has_group b sl g ->
  bgp_map_afi_safi_iana2int (be_val [a1; a2]) sf = Some sl -> (4 <= length bs)%nat ->
  carries (b_curr b) (a1 :: a2 :: r :: sf :: when :: bs) -> ops_ok inet_pton uninit ops st ->
  exists b', bgp_route_refresh_receive place (5 + Z.of_nat (length bs)) b = Ret (BGP_PACKET_NOOP, b') /\
    keeps_policies (w_mem (b_world b')) (run ops st).1.1 /\
    notice_of <$> w_log (b_world b') = (notice_of <$> w_log (b_world b)) ++ (run ops st).2 /\
    let a := pr_orf_plist (b_peer b') sl in
    (ops <> [] -> prefix_bgp_orf_lookup sl.1 name (w_mem (b_world b')) = Ret (a, w_mem (b_world b'))) /\
    has_group b' sl (if (when =? REFRESH_DEFER) || (a =? 0) then g else set_group_orf sl a g).
Proof.
  intros name ops [Hadv Hest Hafi Hk] Hg Hmap Hlen Hc Hok. apply carries_reading in Hc.
  replace (s_getp (b_curr b) + _) with (s_getp (b_curr b) + 5 + Z.of_nat (length bs)) in Hc by (cbn [length]; lia).
  destruct (receive_run place inet_pton Hpton uninit Huninit sl a1 a2 r sf when bs b st g Hadv Hest Hmap Hafi Hc Hlen Hg Hk Hok)
    as (b' & w' & f & E & <- & <- & [Hk' Hn] & Hfound & Hgroup).
  exists b'. split; [exact E|]. split; [exact Hk'|]. split; [exact Hn|]. split.
  - intros Hne. destruct Hfound as [[E0 _]|(_ & _ & Hl)]; [by destruct Hne|exact Hl].
  - destruct (when =? REFRESH_DEFER); cbn [orb]; [apply Hgroup|]. apply Hgroup.
Qed.
(** What a history of commands leaves in a list that is sent *)
Lemma sent_list ops b sname (sl : slot) x :
  ops_ok inet_pton uninit ops sp_init -> keeps_policies (w_mem (b_world b)) (run ops sp_init).1.1 -> ip_afi sl.1 ->
  locate_policy sname (master_of sl.1 false (run ops sp_init).1.1).2 = Some x ->
  prefix_list_lookup sl.1 sname (w_mem (b_world b)) = Ret (pr_filter_in (b_peer b) sl, w_mem (b_world b)) ->
  kept_rules sl.1 (po_rules x) /\ ordered_rules (po_rules x) /\
  list_here (pr_filter_in (b_peer b) sl) (po_rules x) (w_mem (b_world b)).
Proof.
  intros Hok Hk Hafi El Elook. split; [by eapply (history_kept inet_pton Hpton uninit Huninit)|].
  destruct (locate_policy_elem _ _ _ El) as [Hin _]. split; [by eapply keeps_ordered|].
  destruct (lookup_keeps sl.1 false sname _ _ Hk Hafi) as (a & Ea & Hlist). rewrite El in Hlist.
  unfold prefix_list_lookup in Elook. rewrite Ea in Elook. by injection Elook as <-.
Qed.

Lemma sends_list (sl : slot) b rs :
  list_here (pr_filter_in (b_peer b) sl) rs (w_mem (b_world b)) -> Forall (fun r => rule_prefix sl.1 (r_prefix r)) rs ->
  sends_body
    (update_peer (set_orf_send sl true) ;;
     prefix_bgp_orf_entry (pr_filter_in (b_peer b) sl) ORF_COMMON_PART_ADD ORF_COMMON_PART_PERMIT ORF_COMMON_PART_DENY) b (wire_rules rs).
Proof.
  intros Hl Hp s Hs. set (p := set_orf_send sl true (b_peer b)).
  rewrite (bind_ret_eq (update_peer _) _ _ tt (set_work s (set_peer p b))) by done.
  pose proof (orf_entry_sends sl.1 _ rs (set_work s (set_peer p b)) Hs Hl Hp) as H. unfold sends in H. cbn [b_work set_work] in H.
  case_decide; [|exact H]. destruct H as (s' & E & Hs' & Ea). by exists s', p.
Qed.

(** A message with one block *)
Lemma block_single fuel name (sl : slot) orf_type l1 l2 body st :
  is_orf_prefix orf_type = true -> be_val [l1; l2] = Z.of_nat (length body) ->
  block_ops inet_pton uninit (S fuel) name sl (orf_type :: l1 :: l2 :: body) st =
    if (length body <? 7)%nat then [] else entries_ops inet_pton uninit (length body) name sl.1 body st.
Proof.
  intros Hot Hlen. cbn [block_ops]. rewrite Hlen, Nat2Z.id, Nat.ltb_irrefl, Hot. destruct (length body <? 7)%nat; [done|].
  rewrite firstn_all, drop_all. destruct fuel; by rewrite app_nil_r.
Qed.

Lemma wire_rule_length r : (8 <= length (wire_rule r))%nat.
Proof. unfold wire_rule. rewrite !length_app, length_be_bytes. cbn [length]. lia. Qed.
Lemma wire_rules_length rs : (8 * length rs <= length (wire_rules rs))%nat.
Proof.
  induction rs as [|r rs IH]; [done|]. change (wire_rules (r :: rs)) with (wire_rule r ++ wire_rules rs).
  rewrite length_app. pose proof (wire_rule_length r). cbn [length]. lia.
Qed.

(** C4. A prefix list that commands made is sent to a peer with
    [bgp_route_refresh_send], and the peer receives the message with
    [bgp_route_refresh_receive]: from then on the peer decides about every
    route as the list does, although it gets the rules one by one, without
    their order being given, with the bytes of their prefixes cut off, and
    keeps them in tries of its own.  The rules are those a receiver accepts,
    they fit the packet, and the peer had no filters from this host. *)
Theorem orf_filters_as_sent ops1 sname (sl : slot) orf_type x b1 :
  let st1 := (run ops1 sp_init).1.1 in
  ops_ok inet_pton uninit ops1 sp_init -> keeps_policies (w_mem (b_world b1)) st1 -> ip_afi sl.1 ->
  locate_policy sname (master_of sl.1 false st1).2 = Some x ->
  prefix_list_lookup sl.1 sname (w_mem (b_world b1)) = Ret (pr_filter_in (b_peer b1) sl, w_mem (b_world b1)) ->
  is_orf_prefix orf_type = true -> po_rules x <> [] -> forallb sendable (po_rules x) = true ->
  27 + Z.of_nat (length (wire_rules (po_rules x))) <= BGP_MAX_PACKET_SIZE ->
  exists s b1', bgp_route_refresh_send malloc_bytes sl orf_type REFRESH_IMMEDIATE false b1 = Ret (tt, add_event (BgpSend s) b1') /\
    unread s (refresh_message (message_type (b_peer b1)) (afi_int2iana sl.1) (safi_int2iana sl.2) REFRESH_IMMEDIATE orf_type (wire_rules (po_rules x))) /\
    forall b2 st2 g, let name := orf_name (pr_host (b_peer b2)) sl in
      listens b2 sl st2 -> has_group b2 sl g -> name_ok name = true -> locate_policy name (master_of sl.1 true st2).2 = None ->
      gc_orf_rm_adv g sl = true -> gc_orf_sm_rcv g sl || gc_orf_sm_old_rcv g sl = true ->
      carries (b_curr b2) (drop (Z.to_nat BGP_HEADER_SIZE) (q_pend (abs s))) ->
      exists b3 g', bgp_route_refresh_receive place (Z.of_nat (length (q_pend (abs s))) - BGP_HEADER_SIZE) b2 = Ret (BGP_PACKET_NOOP, b3) /\
        has_group b3 sl g' /\
        forall p, prefix_wf p -> exists b4, orf_check g' sl p b3 =
          Ret (match verdict (po_rules x) p with PREFIX_DENY => false | PREFIX_PERMIT => true end, b4).
Proof.
  intros st1 Hok1 Hk1 Hafi Elx Elook Hot Hne Hs Hfit. destruct (sent_list ops1 b1 sname sl x Hok1 Hk1 Hafi Elx Elook) as (Hkept & Hord & Hlist).
  set (rs := po_rules x) in *. assert (Hp : Forall (fun r => rule_prefix sl.1 (r_prefix r)) rs).
  { eapply Forall_impl; [apply Hkept|]. intros r Hr. apply Hr. }
  assert (Hcond : false || negb (pr_filter_in (b_peer b1) sl =? 0) = true).
  { destruct Hlist as [Ha _]. by destruct (Z.eqb_spec (pr_filter_in (b_peer b1) sl) 0). }
  pose proof (send_run malloc_bytes Hmalloc sl orf_type REFRESH_IMMEDIATE false (wire_rules rs) b1 Hot ltac:(done) Hcond (sends_list sl b1 rs Hlist Hp)) as H.
  rewrite decide_True in H by done. destruct H as (s & p & Esend & Hsok & Eabs). exists s, (set_work s (set_peer p b1)). split; [exact Esend|].
  split; [by split; [|rewrite Eabs]|].
  intros b2 st2 g name Hl Hg Hname Hnone Hrm Hsm Hc. rewrite Eabs in Hc |- *. cbn [q_pend] in *.
  destruct (message_tail (message_type (b_peer b1)) sl REFRESH_IMMEDIATE orf_type (wire_rules rs)) as (a1 & a2 & l1 & l2 & Et & Ea & El).
  rewrite Et in Hc. set (bs := orf_type :: l1 :: l2 :: wire_rules rs) in *.
  assert (Hsize : (7 <= length (wire_rules rs) < 4096)%nat).
  { pose proof (wire_rules_length rs). unfold BGP_MAX_PACKET_SIZE in Hfit. destruct rs; [done|]. cbn [length] in *. lia. }
  assert (Elen : Z.of_nat (length (refresh_message (message_type (b_peer b1)) (afi_int2iana sl.1) (safi_int2iana sl.2) REFRESH_IMMEDIATE orf_type (wire_rules rs))) -
    BGP_HEADER_SIZE = 5 + Z.of_nat (length bs)).
  { apply (f_equal length) in Et. rewrite length_drop in Et. unfold BGP_HEADER_SIZE in *. cbn [length] in Et. lia. }
  rewrite Elen. assert (Eops : block_ops inet_pton uninit (5 + length bs) name sl bs st2 =
    entries_ops inet_pton uninit (length (wire_rules rs)) name sl.1 (wire_rules rs) st2).
  { unfold bs at 2. rewrite (block_single (4 + length bs)); [|done|rewrite El; apply wrap_small; simpl; lia].
    by rewrite (proj2 (Nat.ltb_ge _ _)) by lia. }
  assert (Hempty : listed sl.1 name st2 (as_received <$> [])).
  { destruct (locate_got name (master_of sl.1 true st2).2) as (y & Ey & _ & Hy & _). exists y. split; [done|]. by apply Hy. }
  destruct (wire_entries inet_pton uninit sl.1 Hafi name Hname (length (wire_rules rs)) rs [] st2 Hkept Hord) as (Hnn & Hok & y & Ey & Er);
    [by apply Forall_forall; intros r Hr%list_elem_of_In; apply (proj1 (forallb_forall _ _) Hs)| |lia|done|exact Hempty|].
  { pose proof (wire_rules_length rs). cbn [app]. lia. }
  rewrite <- Eops in Hnn, Hok, Ey. destruct (id Hl) as [Hadv Hest _ Hk2]. apply carries_reading in Hc.
  replace (s_getp (b_curr b2) + _) with (s_getp (b_curr b2) + 5 + Z.of_nat (length bs)) in Hc by (cbn [length]; lia).
  destruct (receive_run place inet_pton Hpton uninit Huninit sl a1 a2 0 (safi_int2iana sl.2) REFRESH_IMMEDIATE bs b2 st2 g Hadv Hest
    ltac:(rewrite Ea; apply map_back) Hafi Hc ltac:(unfold bs; cbn [length]; lia) Hg Hk2 Hok)
    as (b3 & w' & f & E & <- & <- & [Hk' _] & Hfound & [Hg3 _]).
  destruct Hfound as [[E0 _]|(_ & _ & Hfl)]; [by destruct Hnn|].
  set (g' := set_group_orf sl (pr_orf_plist (b_peer b3) sl) g) in *.
  assert (Eg : gc_orf_plist g' sl = pr_orf_plist (b_peer b3) sl) by (unfold g'; cbn [set_group_orf gc_orf_plist]; by rewrite fn_lookup_insert).
  assert (Hv : forall p, prefix_wf p -> gc_orf_plist g' sl <> 0 /\ exists b4, orf_check g' sl p b3 =
    Ret (match verdict rs p with PREFIX_DENY => false | PREFIX_PERMIT => true end, b4)).
  { intros p0 Hp0. rewrite <- (verdict_received rs p0). cbn [app] in Er. rewrite <- Er.
    eapply orf_check_verdict; [exact Hk'|done|exact Ey|by rewrite Eg|done|done|done]. }
  exists b3, g'. split; [exact E|]. split; [|intros p0 Hp0; by apply Hv].
  destruct (Hv zero_prefix zero_prefix_ok) as [H0 _]. rewrite Eg in H0.
  destruct (Z.eqb_spec (pr_orf_plist (b_peer b3) sl) 0); [done|exact Hg3].
Qed.
Lemma sends_removal (sl : slot) b :
  sends_body (update_peer (set_orf_send sl false) ;; on_work (stream_putc ORF_COMMON_PART_REMOVE_ALL ;; mret tt)) b [ORF_COMMON_PART_REMOVE_ALL].
Proof.
  intros s Hs. set (p := set_orf_send sl false (b_peer b)).
  rewrite (bind_ret_eq (update_peer _) _ _ tt (set_work s (set_peer p b))) by done.
  pose proof (appends_ret _ _ (putc_appends ORF_COMMON_PART_REMOVE_ALL ltac:(done)) s Hs) as H. case_decide.
  - destruct H as ([] & s' & E & Hs' & Ea). exists s', p. split; [|done]. by apply (zoom_eq b_work set_work _ (set_work s (set_peer p b))).
  - unfold on_work, zoom. cbn [b_work set_work]. by rewrite H.
Qed.

(** C26. The message with which [bgp_route_refresh_send] takes the filters back
    does not take them back: its block has one byte, and
    [bgp_route_refresh_receive] gives up on blocks with less than seven.  The
    policies of the receiver stay as they are, and a group that points to the
    list of the peer goes on deciding as that list does. *)
Theorem orf_removal_ignored (sl : slot) orf_type when b1 :
  is_orf_prefix orf_type = true -> is_byte when ->
  exists s b1', bgp_route_refresh_send malloc_bytes sl orf_type when true b1 = Ret (tt, add_event (BgpSend s) b1') /\
    unread s (refresh_message (message_type (b_peer b1)) (afi_int2iana sl.1) (safi_int2iana sl.2) when orf_type [ORF_COMMON_PART_REMOVE_ALL]) /\
    forall b2 st2 g, let name := orf_name (pr_host (b_peer b2)) sl in
      listens b2 sl st2 -> has_group b2 sl g ->
      carries (b_curr b2) (drop (Z.to_nat BGP_HEADER_SIZE) (q_pend (abs s))) ->
      exists b3, bgp_route_refresh_receive place (Z.of_nat (length (q_pend (abs s))) - BGP_HEADER_SIZE) b2 = Ret (BGP_PACKET_NOOP, b3) /\
        b_world b3 = b_world b2 /\ pr_orf_plist (b_peer b3) = pr_orf_plist (b_peer b2) /\
        forall x p, locate_policy name (master_of sl.1 true st2).2 = Some x -> prefix_wf p ->
          prefix_bgp_orf_lookup sl.1 name (w_mem (b_world b2)) = Ret (gc_orf_plist g sl, w_mem (b_world b2)) ->
          gc_orf_plist g sl = pr_orf_plist (b_peer b2) sl ->
          gc_orf_rm_adv g sl = true -> gc_orf_sm_rcv g sl || gc_orf_sm_old_rcv g sl = true ->
          exists g' b4, has_group b3 sl g' /\ orf_check g' sl p b3 =
            Ret (match verdict (po_rules x) p with PREFIX_DENY => false | PREFIX_PERMIT => true end, b4).
Proof.
  intros Hot Hwhen. pose proof (send_run malloc_bytes Hmalloc sl orf_type when true [ORF_COMMON_PART_REMOVE_ALL] b1 Hot Hwhen eq_refl (sends_removal sl b1)) as H.
  rewrite decide_True in H by done. destruct H as (s & p & Esend & Hsok & Eabs). exists s, (set_work s (set_peer p b1)). split; [exact Esend|].
  split; [by split; [|rewrite Eabs]|].
  intros b2 st2 g name [Hadv Hest Hafi Hk2] Hg Hc. rewrite Eabs in Hc |- *. cbn [q_pend] in *.
  destruct (message_tail (message_type (b_peer b1)) sl when orf_type [ORF_COMMON_PART_REMOVE_ALL]) as (a1 & a2 & l1 & l2 & Et & Ea & El).
  rewrite Et in Hc. set (bs := [orf_type; l1; l2; ORF_COMMON_PART_REMOVE_ALL]) in *.
  assert (Eops : block_ops inet_pton uninit (5 + length bs) name sl bs st2 = []).
  { unfold bs at 2. by rewrite (block_single (4 + length bs)). }
  apply carries_reading in Hc. replace (s_getp (b_curr b2) + _) with (s_getp (b_curr b2) + 5 + Z.of_nat (length bs)) in Hc by (cbn [length bs]; lia).
  destruct (receive_run place inet_pton Hpton uninit Huninit sl a1 a2 0 (safi_int2iana sl.2) when bs b2 st2 g Hadv Hest
    ltac:(rewrite Ea; apply map_back) Hafi Hc ltac:(unfold bs; cbn [length]; lia) Hg Hk2 ltac:(fold name; by rewrite Eops))
    as (b3 & w' & f & E & <- & <- & _ & Hfound & Hg3). fold name in Hfound. rewrite Eops in Hfound.
  destruct Hfound as [(_ & Ew & Ef)|[? _]]; [|done]. exists b3. split; [exact E|]. split; [done|]. split; [done|].
  intros x p0 Elx Hp0 Elook Eg Hrm Hsm. rewrite Ef in Hg3.
  assert (Hg' : exists g', has_group b3 sl g' /\ gc_orf_plist g' sl = gc_orf_plist g sl /\ gc_orf_rm_adv g' sl = true /\
    gc_orf_sm_rcv g' sl || gc_orf_sm_old_rcv g' sl = true).
  { destruct (when =? REFRESH_DEFER); [exists g; split; [apply Hg3|done]|]. destruct Hg3 as [Hg3 _].
    destruct (_ =? 0) in Hg3; (eexists; split; [exact Hg3|]); [done|]. split_and!; [|done|done].
    cbn [set_group_orf gc_orf_plist]. by rewrite fn_lookup_insert. }
  destruct Hg' as (g' & Hg' & Eg' & Hrm' & Hsm'). exists g'.
  destruct (orf_check_verdict sl name b3 st2 x g' p0) as [_ (b4 & E4)]; rewrite ?Ew, ?Eg'; try done. by exists b4.
Qed.

(** C25. An entry of a message that asks for the removal of one rule removes the
    whole list, because the test for removing everything looks at a bit that
    both share; and when no list is left, the group of the peer is not told:
    it goes on pointing to where the list was. *)
Theorem orf_remove_frees_list (sl : slot) a1 a2 r sf when orf_type l1 l2 common rest b st g :
  let name := orf_name (pr_host (b_peer b)) sl in
  let bs := orf_type :: l1 :: l2 :: common :: rest in
  listens b sl st -> has_group b sl g -> once_state st ->
  bgp_map_afi_safi_iana2int (be_val [a1; a2]) sf = Some sl -> is_orf_prefix orf_type = true ->
  be_val [l1; l2] = Z.of_nat (length (common :: rest)) -> (6 <= length rest)%nat ->
  Z.land common ORF_COMMON_PART_REMOVE = ORF_COMMON_PART_REMOVE ->
  carries (b_curr b) (a1 :: a2 :: r :: sf :: when :: bs) ->
  exists b', bgp_route_refresh_receive place (5 + Z.of_nat (length bs)) b = Ret (BGP_PACKET_NOOP, b') /\
    keeps_policies (w_mem (b_world b')) (step (OpOrfRemoveAll sl.1 name) st).1.1 /\
    locate_policy name (master_of sl.1 true (step (OpOrfRemoveAll sl.1 name) st).1.1).2 = None /\
    pr_orf_plist (b_peer b') sl = 0 /\ has_group b' sl g.
Proof.
  intros name bs [Hadv Hest Hafi Hk] Hg Honce Hmap Hot Hlen Hrest Hcommon Hc.
  assert (Hany : negb (Z.land common ORF_COMMON_PART_REMOVE_ALL =? 0) = true).
  { apply negb_true_iff, Z.eqb_neq. intros E. apply (f_equal (fun z => Z.land z ORF_COMMON_PART_REMOVE)) in E.
    rewrite <- Z.land_assoc in E. change (Z.land ORF_COMMON_PART_REMOVE_ALL ORF_COMMON_PART_REMOVE) with ORF_COMMON_PART_REMOVE in E.
    by rewrite Hcommon in E. }
  assert (Eops : block_ops inet_pton uninit (5 + length bs) name sl bs st = [OpOrfRemoveAll sl.1 name]).
  { unfold bs at 2. rewrite (block_single (4 + length bs)) by done. rewrite (proj2 (Nat.ltb_ge _ _)) by (cbn [length]; lia).
    cbn [length entries_ops]. by rewrite Hany. }
  apply carries_reading in Hc. replace (s_getp (b_curr b) + _) with (s_getp (b_curr b) + 5 + Z.of_nat (length bs)) in Hc by (cbn [length]; lia).
  destruct (receive_run place inet_pton Hpton uninit Huninit sl a1 a2 r sf when bs b st g Hadv Hest Hmap Hafi Hc
    ltac:(unfold bs; cbn [length]; lia) Hg Hk ltac:(fold name; by rewrite Eops)) as (b' & w' & f & E & <- & <- & [Hk' _] & Hfound & Hg').
  fold name in Hk', Hfound. rewrite Eops in Hk', Hfound. destruct Hfound as [[? _]|(_ & _ & Elook)]; [done|].
  assert (Est : (run [OpOrfRemoveAll sl.1 name] st).1.1 = (step (OpOrfRemoveAll sl.1 name) st).1.1).
  { cbn [sp_run]. by destruct (step (OpOrfRemoveAll sl.1 name) st) as [[? ?] ?]. }
  rewrite Est in Hk'. assert (Hnone : locate_policy name (master_of sl.1 true (step (OpOrfRemoveAll sl.1 name) st).1.1).2 = None).
  { cbn [sp_step]. pose proof (Honce sl.1 true) as Hps. destruct (master_of sl.1 true st) as [cfg ps] eqn:Em.
    assert (Hgone : locate_policy name (sp_forget cfg name ps).1 = None) by by apply forget_located.
    destruct (sp_forget cfg name ps) as [ps' ns]. cbn [fst] in *. by destruct sl.1. }
  assert (E0 : pr_orf_plist (b_peer b') sl = 0).
  { destruct (lookup_keeps sl.1 true name _ _ Hk' Hafi) as (a & Elook' & Ha). rewrite Hnone in Ha.
    unfold prefix_bgp_orf_lookup in Elook. rewrite Elook' in Elook. injection Elook as <-. done. }
  exists b'. split; [exact E|]. split; [exact Hk'|]. split; [exact Hnone|]. split; [exact E0|].
  rewrite E0 in Hg'. destruct (when =? REFRESH_DEFER); apply Hg'.
Qed.

(** C40. A prefix list whose rules do not fit into one packet cannot be sent:
    [bgp_route_refresh_send] stops the program in an assertion. *)
Theorem orf_send_overflow ops1 sname (sl : slot) orf_type when x b1 :
  let st1 := (run ops1 sp_init).1.1 in
  ops_ok inet_pton uninit ops1 sp_init -> keeps_policies (w_mem (b_world b1)) st1 -> ip_afi sl.1 ->
  locate_policy sname (master_of sl.1 false st1).2 = Some x ->
  prefix_list_lookup sl.1 sname (w_mem (b_world b1)) = Ret (pr_filter_in (b_peer b1) sl, w_mem (b_world b1)) ->
  is_orf_prefix orf_type = true -> is_byte when ->
  BGP_MAX_PACKET_SIZE < 27 + Z.of_nat (length (wire_rules (po_rules x))) ->
  bgp_route_refresh_send malloc_bytes sl orf_type when false b1 = AssertFail.
Proof.
  intros st1 Hok1 Hk1 Hafi Elx Elook Hot Hwhen Hbig. destruct (sent_list ops1 b1 sname sl x Hok1 Hk1 Hafi Elx Elook) as (Hkept & _ & Hlist).
  assert (Hp : Forall (fun r => rule_prefix sl.1 (r_prefix r)) (po_rules x)) by (eapply Forall_impl; [apply Hkept|]; intros r Hr; apply Hr).
  assert (Hcond : false || negb (pr_filter_in (b_peer b1) sl =? 0) = true).
  { destruct Hlist as [Ha _]. by destruct (Z.eqb_spec (pr_filter_in (b_peer b1) sl) 0). }
  pose proof (send_run malloc_bytes Hmalloc sl orf_type when false _ b1 Hot Hwhen Hcond (sends_list sl b1 _ Hlist Hp)) as H.
  by rewrite decide_False in H by lia.
Qed.
End properties.

(** ** Two speakers *)
Definition zeros (n : Z) : list Z := replicate (Z.to_nat n) 0.
Lemma zeros_fresh n : 0 < n -> Z.of_nat (length (zeros n)) = n /\ Forall is_byte (zeros n).
Proof. intros Hn. unfold zeros. rewrite length_replicate. split; [lia|by apply Forall_replicate]. Qed.

Definition demo_slot : slot := (AFI_IP, SAFI_UNICAST).
(** The peer 1.1; its inbound list is at [filter], the filters it sent at [orf]. *)
Definition demo_peer (filter orf : Z) : bgp_peer :=
  BgpPeer [49; 46; 49] true true true (fun _ => filter) (fun _ => orf) (fun _ => false) (fun _ => true) (fun _ => Some 1).
Definition demo_conf (orf : Z) : group_conf := GroupConf (fun _ => orf) (fun _ => true) (fun _ => true) (fun _ => false).
Definition demo_state (w : world) (filter orf : Z) (s : stream) : bgp_state :=
  BgpState w (demo_peer filter orf) s (Stream 0 0 0 []) {[1 := Subgroup true 2]} {[2 := demo_conf orf]} [].

Lemma demo_group w filter orf s : has_group (demo_state w filter orf s) demo_slot (demo_conf orf).
Proof. exists 1, (Subgroup true 2). by split_and!. Qed.
Lemma demo_listens w filter orf s st : keeps_policies (w_mem w) st -> listens (demo_state w filter orf s) demo_slot st.
Proof. intros H. by split. Qed.
Lemma demo_start : keeps_policies static_masters sp_init.
Proof.
  destruct (history_runs place_last demo_pton demo_pton_ok zero_prefix zero_prefix_ok [] I) as (h & lg & E & _ & Hk). injection E as <- <-. exact Hk.
Qed.

(** The packet of a list of bytes *)
Definition packet (bs : list Z) : stream := Stream 0 (Z.of_nat (length bs)) (Z.of_nat (length bs)) bs.
Lemma packet_carries bs : Forall is_byte bs -> Z.of_nat (length bs) < 2 ^ 63 -> carries (packet bs) bs.
Proof.
  intros Hb Hl. split; [by split; simpl; [lia|lia|..]|]. unfold packet, abs. cbn [q_pend s_getp s_endp s_data].
  rewrite drop_0, Z.sub_0_r, Nat2Z.id. apply firstn_all.
Qed.

Definition sent_ops : list plist_op :=
  [OpInstall AFI_IP demo_name None (Some permit_text) (Some net8_text) (Some ge_text) (Some le_text);
   OpInstall AFI_IP demo_name (Some [51]) (Some deny_text) (Some net16_text) None (Some le_text)].
Definition policy_named (name : list Z) (afi : afi_t) (orf : bool) (ops : list plist_op) : policy :=
  match locate_policy name (master_of afi orf (sp_run demo_pton zero_prefix ops sp_init).1.1).2 with Some x => x | None => Policy [] None [] end.
Definition demo_policy : policy := policy_named demo_name AFI_IP false sent_ops.

(** A state after a history, with the address of one of its lists *)
Lemma demo_history ops afi orf name :
  ops_okb demo_pton zero_prefix ops sp_init = true -> ip_afi afi ->
  exists w a, keeps_policies (w_mem w) (sp_run demo_pton zero_prefix ops sp_init).1.1 /\ prefix_list_lookup_do afi orf name (w_mem w) = Ret (a, w_mem w).
Proof.
  intros Hok%ops_okb_sound Hafi. destruct (history_runs place_last demo_pton demo_pton_ok zero_prefix zero_prefix_ok ops Hok) as (h & lg & _ & _ & Hk).
  destruct (lookup_keeps afi orf name h _ Hk Hafi) as (a & Ea & _). by exists (World h lg), a.
Qed.

Definition entry_message : list Z := [0; 1; 0; 1; 1; 64; 0; 9; 0; 0; 0; 0; 7; 0; 24; 8; 10].
Lemma orf_message_received_witness :
  exists b', bgp_route_refresh_receive place_last 17 (demo_state (World static_masters []) 0 0 (packet entry_message)) = Ret (BGP_PACKET_NOOP, b') /\
    keeps_policies (w_mem (b_world b'))
      (sp_run demo_pton zero_prefix
         [OpOrfSet (orf_name [49; 46; 49] demo_slot) AFI_IP (OrfPrefix 7 0 24 (demo_prefix 10 0 0 0 8)) true true] sp_init).1.1.
Proof.
  destruct (orf_message_received place_last demo_pton demo_pton_ok zero_prefix zero_prefix_ok demo_slot 0 1 0 1 1
    [64; 0; 9; 0; 0; 0; 0; 7; 0; 24; 8; 10] (demo_state (World static_masters []) 0 0 (packet entry_message)) sp_init (demo_conf 0)
    (demo_listens (World static_masters []) 0 0 _ _ demo_start) (demo_group _ _ _ _) eq_refl ltac:(simpl; lia)
    ltac:(apply packet_carries; [by repeat constructor|reflexivity]) ltac:(apply ops_okb_sound; vm_compute; reflexivity)) as (b' & E & Hk & _).
  exists b'. split; [exact E|]. exact Hk.
Defined.

Lemma orf_filters_as_sent_witness :
  exists b1 s b2 b3 g,
    bgp_route_refresh_send zeros demo_slot ORF_TYPE_PREFIX REFRESH_IMMEDIATE false b1 = Ret (tt, add_event (BgpSend s) b2) /\
    bgp_route_refresh_receive place_last (Z.of_nat (length (q_pend (abs s))) - BGP_HEADER_SIZE)
      (demo_state (World static_masters []) 0 0 (set_getp BGP_HEADER_SIZE s)) = Ret (BGP_PACKET_NOOP, b3) /\
    (exists b4, orf_check g demo_slot (demo_prefix 10 9 1 1 24) b3 = Ret (false, b4)) /\
    (exists b4, orf_check g demo_slot (demo_prefix 10 8 1 1 24) b3 = Ret (true, b4)).
Proof.
  destruct (demo_history sent_ops AFI_IP false demo_name ltac:(vm_compute; reflexivity) ltac:(done)) as (w & a & Hk & Ea).
  set (b1 := demo_state w a 0 (Stream 0 0 0 [])).
  destruct (orf_filters_as_sent place_last demo_pton demo_pton_ok zero_prefix zero_prefix_ok zeros zeros_fresh sent_ops demo_name demo_slot
    ORF_TYPE_PREFIX demo_policy b1 ltac:(apply ops_okb_sound; vm_compute; reflexivity) Hk ltac:(done) ltac:(vm_compute; reflexivity) Ea
    eq_refl ltac:(vm_compute; discriminate) ltac:(vm_compute; reflexivity) ltac:(vm_compute; discriminate)) as (s & b2 & Es & Hs & Hrecv).
  destruct (Hrecv (demo_state (World static_masters []) 0 0 (set_getp BGP_HEADER_SIZE s)) sp_init (demo_conf 0)) as (b3 & g & Er & _ & Hv);
    [by apply demo_listens, demo_start|apply demo_group|reflexivity|reflexivity|reflexivity|reflexivity| |].
  { destruct (id Hs) as (_ & _ & ->). apply header_read; [exact Hs|vm_compute; discriminate]. }
  exists b1, s, b2, b3, g. split; [exact Es|]. split; [exact Er|].
  split; [apply (Hv (demo_prefix 10 9 1 1 24))|apply (Hv (demo_prefix 10 8 1 1 24))]; apply prefix_wfb_sound; reflexivity.
Defined.

(** A peer that sent the filter [permit 10.0.0.0/8 le 24] *)
Definition demo_orf_name : list Z := orf_name [49; 46; 49] demo_slot.
Definition demo_filters : list plist_op := [OpOrfSet demo_orf_name AFI_IP (OrfPrefix 7 0 24 (demo_prefix 10 0 0 0 8)) true true].
Definition demo_world : world :=
  match do_ops place_last demo_pton zero_prefix demo_filters (World static_masters []) with Ret (_, w) => w | _ => World static_masters [] end.
Definition demo_list : Z := match prefix_bgp_orf_lookup AFI_IP demo_orf_name (w_mem demo_world) with Ret (a, _) => a | _ => 0 end.

Lemma demo_world_keeps : keeps_policies (w_mem demo_world) (sp_run demo_pton zero_prefix demo_filters sp_init).1.1.
Proof.
  destruct (history_runs place_last demo_pton demo_pton_ok zero_prefix zero_prefix_ok demo_filters ltac:(apply ops_okb_sound; vm_compute; reflexivity))
    as (h & lg & E & _ & Hk). unfold demo_world. by rewrite E.
Qed.
Lemma demo_list_found : prefix_bgp_orf_lookup AFI_IP demo_orf_name (w_mem demo_world) = Ret (demo_list, w_mem demo_world).
Proof.
  destruct (lookup_keeps AFI_IP true demo_orf_name _ _ demo_world_keeps ltac:(done)) as (a & E & _). unfold demo_list, prefix_bgp_orf_lookup. by rewrite E.
Qed.

Lemma orf_removal_ignored_witness :
  exists s b1' b3 g b4 b5,
    bgp_route_refresh_send zeros demo_slot ORF_TYPE_PREFIX REFRESH_IMMEDIATE true (demo_state (World static_masters []) 0 0 (Stream 0 0 0 [])) =
      Ret (tt, add_event (BgpSend s) b1') /\
    bgp_route_refresh_receive place_last (Z.of_nat (length (q_pend (abs s))) - BGP_HEADER_SIZE)
      (demo_state demo_world 0 demo_list (set_getp BGP_HEADER_SIZE s)) = Ret (BGP_PACKET_NOOP, b3) /\
    orf_check g demo_slot (demo_prefix 10 9 1 1 24) b3 = Ret (true, b4) /\ orf_check g demo_slot (demo_prefix 11 0 0 0 8) b3 = Ret (false, b5).
Proof.
  destruct (orf_removal_ignored place_last demo_pton demo_pton_ok zero_prefix zero_prefix_ok zeros zeros_fresh demo_slot ORF_TYPE_PREFIX REFRESH_IMMEDIATE
    (demo_state (World static_masters []) 0 0 (Stream 0 0 0 [])) eq_refl ltac:(done)) as (s & b1' & Es & Hs & Hrecv).
  destruct (Hrecv (demo_state demo_world 0 demo_list (set_getp BGP_HEADER_SIZE s)) _ (demo_conf demo_list)
    (demo_listens _ 0 demo_list _ _ demo_world_keeps) (demo_group _ _ _ _)) as (b3 & Er & _ & _ & Hv).
  { destruct (id Hs) as (_ & _ & ->). apply header_read; [exact Hs|vm_compute; discriminate]. }
  destruct (Hv (policy_named demo_orf_name AFI_IP true demo_filters) (demo_prefix 10 9 1 1 24)) as (g & b4 & Hg & E4);
    [vm_compute; reflexivity|apply prefix_wfb_sound; reflexivity|apply demo_list_found|done..|].
  destruct (Hv (policy_named demo_orf_name AFI_IP true demo_filters) (demo_prefix 11 0 0 0 8)) as (g' & b5 & Hg' & E5);
    [vm_compute; reflexivity|apply prefix_wfb_sound; reflexivity|apply demo_list_found|done..|].
  assert (g' = g) as -> by (destruct Hg as (? & ? & Ha & Hb & Hc), Hg' as (? & ? & Ha' & Hb' & Hc'); congruence).
  exists s, b1', b3, g, b4, b5. split; [exact Es|]. split; [exact Er|]. split; [exact E4|exact E5].
Defined.

(** The filter is taken back on its own: [0x80]. *)
Definition removal_message : list Z := [0; 1; 0; 1; 1; 64; 0; 9; 128; 0; 0; 0; 7; 0; 24; 8; 10].

(** Looking at a route afterwards reads the list that was freed. *)
Lemma orf_remove_frees_list_witness :
  exists b', bgp_route_refresh_receive place_last 17 (demo_state demo_world 0 demo_list (packet removal_message)) = Ret (BGP_PACKET_NOOP, b') /\
    pr_orf_plist (b_peer b') demo_slot = 0 /\ has_group b' demo_slot (demo_conf demo_list) /\
    orf_check (demo_conf demo_list) demo_slot (demo_prefix 10 9 1 1 24) b' = Fault.
Proof.
  destruct (orf_remove_frees_list place_last demo_pton demo_pton_ok zero_prefix zero_prefix_ok demo_slot 0 1 0 1 1 64 0 9 128
    [0; 0; 0; 7; 0; 24; 8; 10] (demo_state demo_world 0 demo_list (packet removal_message)) _ (demo_conf demo_list)
    (demo_listens _ 0 demo_list _ _ demo_world_keeps) (demo_group _ _ _ _)) as (b' & E & _ & _ & E0 & Hg);
    [apply run_once, init_once|reflexivity|reflexivity|reflexivity|simpl; lia|reflexivity
    |apply packet_carries; [by repeat constructor|reflexivity]|].
  exists b'. split; [exact E|]. split; [exact E0|]. split; [exact Hg|].
  assert (H : match bgp_route_refresh_receive place_last 17 (demo_state demo_world 0 demo_list (packet removal_message)) with
    | Ret (_, b') => orf_check (demo_conf demo_list) demo_slot (demo_prefix 10 9 1 1 24) b' | _ => AssertFail end = Fault) by (vm_compute; reflexivity).
  change (5 + Z.of_nat (length [64; 0; 9; 128; 0; 0; 0; 7; 0; 24; 8; 10])) with 17 in E. by rewrite E in H.
Defined.

(** Three hundred and forty rules: [permit 10.1.a.b], one after the other *)
Definition decimal (n : Z) : list Z := [48 + n / 100; 48 + n / 10 mod 10; 48 + n mod 10].
Definition host_text (n : Z) : list Z := [49; 48; 46; 49; 46] ++ decimal (n / 100) ++ [46] ++ decimal (n mod 100).
Definition many_ops : list plist_op :=
  (fun n => OpInstall AFI_IP demo_name None (Some permit_text) (Some (host_text n)) None None) <$> seqZ 0 340.

Lemma many_ops_ok : ops_okb demo_pton zero_prefix many_ops sp_init = true.
Proof. vm_cast_no_check (eq_refl true). Qed.

Lemma many_rules :
  match locate_policy demo_name (master_of AFI_IP false (sp_run demo_pton zero_prefix many_ops sp_init).1.1).2 with
  | Some x => BGP_MAX_PACKET_SIZE <? 27 + Z.of_nat (length (wire_rules (po_rules x)))
  | None => false
  end = true.
Proof. vm_cast_no_check (eq_refl true). Qed.

Lemma orf_send_overflow_witness :
  exists w a, bgp_route_refresh_send zeros demo_slot ORF_TYPE_PREFIX REFRESH_IMMEDIATE false (demo_state w a 0 (Stream 0 0 0 [])) = AssertFail.
Proof.
  destruct (demo_history many_ops AFI_IP false demo_name many_ops_ok ltac:(done)) as (w & a & Hk & Ea). exists w, a.
  assert (Hafi : ip_afi (demo_slot.1)) by done. assert (Hwhen : is_byte REFRESH_IMMEDIATE) by done.
  pose proof many_rules as Hbig. change AFI_IP with demo_slot.1 in Hbig.
  destruct (locate_policy demo_name (master_of demo_slot.1 false (sp_run demo_pton zero_prefix many_ops sp_init).1.1).2)
    as [x|] eqn:Ex; [|discriminate Hbig].
  exact (orf_send_overflow demo_pton demo_pton_ok zero_prefix zero_prefix_ok zeros zeros_fresh many_ops demo_name demo_slot
    ORF_TYPE_PREFIX REFRESH_IMMEDIATE x (demo_state w a 0 (Stream 0 0 0 [])) (ops_okb_sound _ _ _ _ many_ops_ok) Hk Hafi Ex Ea eq_refl Hwhen (proj1 (Z.ltb_lt _ _) Hbig)).
Defined.
