(* ===== verification/Vis.v ===== *)
(** * Visual encoding of characters (libnvedit: vis.c, unvis.c)

    Arbitrary bytes written as printable text and read back.  Characters are
    bytes, 0 to 255; the classification of <ctype.h> is that of the C locale,
    which is ASCII's. *)

From Stdlib Require Import String Ascii.
From S2P Require Import Prelude.

(** ** Characters *)
Definition chr (a : ascii) : Z := Z.of_N (N_of_ascii a).
Definition str (s : string) : list Z := chr <$> list_ascii_of_string s.

Definition isascii (c : Z) : bool := (0 <=? c) && (c <=? 127).
Definition isgraph (c : Z) : bool := (33 <=? c) && (c <=? 126).
Definition iscntrl (c : Z) : bool := (0 <=? c) && (c <=? 31) || (c =? 127).
Definition isspace (c : Z) : bool := (9 <=? c) && (c <=? 13) || (c =? 32).
Definition isdigit (c : Z) : bool := (48 <=? c) && (c <=? 57).
Definition isupper (c : Z) : bool := (65 <=? c) && (c <=? 90).
Definition islower (c : Z) : bool := (97 <=? c) && (c <=? 122).
Definition isalnum (c : Z) : bool := isdigit c || isupper c || islower c.
Definition isxdigit (c : Z) : bool :=
  isdigit c || (65 <=? c) && (c <=? 70) || (97 <=? c) && (c <=? 102).
Definition tolower (c : Z) : Z := if isupper c then c + 32 else c.

Definition isoctal (c : Z) : bool := (48 <=? u8 c) && (u8 c <=? 55).
Definition iswhite (c : Z) : bool := (c =? 32) || (c =? 9) || (c =? 10).
Definition issafe (c : Z) : bool := (c =? 8) || (c =? 7) || (c =? 13).
Definition digits_lower : list Z := Eval vm_compute in str "0123456789abcdef".
Definition digits_upper : list Z := Eval vm_compute in str "0123456789ABCDEF".
Definition xtoa (c : Z) : Z := nth (Z.to_nat c) digits_lower 0.
Definition XTOA (c : Z) : Z := nth (Z.to_nat c) digits_upper 0.

(** [strchr(s, c) != NULL]: the terminator belongs to the string. *)
Definition in_string (s : list Z) (c : Z) : bool := bool_decide (u8 c ∈ s ++ [0]).

(** ** Flags *)
Definition VIS_OCTAL : Z := 1.
Definition VIS_CSTYLE : Z := 2.
Definition VIS_SP : Z := 4.
Definition VIS_TAB : Z := 8.
Definition VIS_NL : Z := 16.
Definition VIS_SAFE : Z := 32.
Definition VIS_NOSLASH : Z := 64.
Definition VIS_HTTPSTYLE : Z := 128.
Definition VIS_MIMESTYLE : Z := 256.
Definition VIS_HTTP1866 : Z := 512.
Definition VIS_NOESCAPE : Z := 1024.
Definition UNVIS_END : Z := 2048.

Definition has (flag k : Z) : bool := negb (Z.land flag k =? 0).

(** [MAKEEXTRALIST] *)
Definition make_extra_list (flag : Z) (extra : list Z) : list Z :=
  extra ++ (if has flag VIS_SP then [32] else []) ++ (if has flag VIS_TAB then [9] else []) ++
  (if has flag VIS_NL then [10] else []) ++ (if has flag VIS_NOSLASH then [] else [92]).

(** ** The output

    [room] is what [dlen] points to, if anything; [out] the bytes written
    through [dst].  An operation tells whether it succeeded. *)
Record vout := VOut { room : option Z; out : list Z }.
Definition V : Type := vout -> bool * vout.

Definition v_seq (f g : V) : V := fun s =>
  let '(ok, s) := f s in if ok : bool then g s else (false, s).
Declare Scope vis_scope.
Delimit Scope vis_scope with vis.
Bind Scope vis_scope with V.
Infix ";;;" := v_seq (at level 100, right associativity) : vis_scope.

Definition v_ret : V := fun s => (true, s).
Definition v_fail : V := fun s => (false, s).
Definition put (c : Z) : V := fun s => (true, VOut (room s) (out s ++ [u8 c])).
Definition set_room (r : option Z) : V := fun s => (true, VOut r (out s)).

(** [HAVE(x)], and the test in the other styles *)
Definition HAVE (x : Z) : V := fun s =>
  match room s with
  | None => (true, s)
  | Some n => if n <? x then (false, s) else (true, VOut (Some (n - x)) (out s))
  end.

(** A failure resets [*dlen]. *)
Definition or_reset (f : V) : V := fun s =>
  let '(ok, s') := f s in
  if ok : bool then (true, s') else (false, VOut (room s) (out s')).

(** ** vis.c *)
Open Scope vis_scope.

(** The letter of the C escape of [c] *)
Definition cstyle_letter (c : Z) : option Z :=
  if c =? 10 then Some (chr "n")
  else if c =? 13 then Some (chr "r")
  else if c =? 8 then Some (chr "b")
  else if c =? 7 then Some (chr "a")
  else if c =? 11 then Some (chr "v")
  else if c =? 9 then Some (chr "t")
  else if c =? 12 then Some (chr "f")
  else if c =? 32 then Some (chr "s")
  else if isgraph c then Some c
  else None.

(** From the test of [VIS_OCTAL] on *)
Definition svis_rest (c flag : Z) (isextra : bool) : V :=
  if isextra || (Z.land c 127 =? 32) || has flag VIS_OCTAL then
    HAVE 4 ;;; put 92 ;;;
    put (Z.land (Z.shiftr (u8 c) 6) 3 + 48) ;;;
    put (Z.land (Z.shiftr (u8 c) 3) 7 + 48) ;;;
    put (Z.land c 7 + 48)
  else
    (if has flag VIS_NOSLASH then v_ret else HAVE 1 ;;; put 92) ;;;
    (if has c 128 then HAVE 1 ;;; put (chr "M") else v_ret) ;;;
    let c := if has c 128 then Z.land c 127 else c in
    if iscntrl c then
      HAVE 2 ;;; put (chr "^") ;;; put (if c =? 127 then chr "?" else c + chr "@")
    else
      HAVE 2 ;;; put (chr "-") ;;; put c.

Definition do_svis (c flag nextc : Z) (extra : list Z) : V := or_reset (fun s =>
  let odlen := room s in
  let isextra := in_string extra c in
  (if negb isextra && isascii c && (isgraph c || iswhite c || has flag VIS_SAFE && issafe c) then
     HAVE 1 ;;; put c
   else if has flag VIS_CSTYLE then
     HAVE 2 ;;;
     if c =? 0 then
       put 92 ;;; put (chr "0") ;;;
       (if isoctal nextc then HAVE 2 ;;; put (chr "0") ;;; put (chr "0") else v_ret)
     else
       match cstyle_letter c with
       | Some x => put 92 ;;; put x
       | None => set_room odlen ;;; svis_rest c flag isextra
       end
   else svis_rest c flag isextra) s).

Definition http_safe : list Z := Eval vm_compute in str "$-_.+!*'(),".
Definition do_hvis (c flag nextc : Z) (extra : list Z) : V :=
  if isascii c && isalnum c || existsb (Z.eqb c) http_safe then
    do_svis c flag nextc extra
  else
    HAVE 3 ;;; put (chr "%") ;;;
    put (xtoa (Z.land (Z.shiftr c 4) 15)) ;;; put (xtoa (Z.land c 15)).

Definition mime_special : list Z := Eval vm_compute in str "#$@[\]^`{|}~".
Definition do_mvis (c flag nextc : Z) (extra : list Z) : V :=
  if negb (c =? 10) &&
     (isspace c && ((nextc =? 13) || (nextc =? 10)) ||
      negb (isspace c) && ((c <? 33) || (60 <? c) && (c <? 62) || (126 <? c)) ||
      in_string mime_special c) then
    HAVE 3 ;;; put (chr "=") ;;;
    put (XTOA (Z.land (Z.shiftr c 4) 15)) ;;; put (XTOA (Z.land c 15))
  else do_svis c flag nextc extra.

Definition getvisfun (flag : Z) : Z -> Z -> Z -> list Z -> V :=
  if has flag VIS_HTTPSTYLE then do_hvis
  else if has flag VIS_MIMESTYLE then do_mvis
  else do_svis.

(** The conversion to [int] *)
Definition to_int (z : Z) : Z := (z + 2 ^ 31) mod 2 ^ 32 - 2 ^ 31.

(** The end of an encoding function: the terminator *)
Definition terminate : V := fun s =>
  match room s with
  | Some n => if n =? 0 then (false, s) else put 0 s
  | None => put 0 s
  end.

(** [alloc] tells whether the list of extra characters could be allocated. *)
Definition isnvis (alloc : bool) (c flag nextc : Z) (extra : list Z) : V :=
  if alloc then getvisfun flag c flag nextc (make_extra_list flag extra) ;;; terminate
  else terminate.

(** Where the source is a string, [src] is the array without the terminator at
    its end; a null before it ends the string. *)
Fixpoint string_loop (f : Z -> Z -> Z -> list Z -> V) (flag : Z) (extra src : list Z) : V :=
  match src with
  | [] => v_ret
  | c :: rest =>
      if c =? 0 then v_ret
      else f c flag (hd 0 rest) extra ;;; string_loop f flag extra rest
  end.

(** A source of a given length *)
Fixpoint encode_loop (f : Z -> Z -> Z -> list Z -> V) (flag : Z) (extra src : list Z) : V :=
  match src with
  | [] => v_ret
  | c :: rest => f c flag (hd 0 rest) extra ;;; encode_loop f flag extra rest
  end.

(** The result is the number of bytes, or -1. *)
Definition istrsnvis (alloc : bool) (src : list Z) (flag : Z) (extra : list Z) (s : vout) : Z * vout :=
  if alloc then
    let '(ok, s') :=
      (string_loop (getvisfun flag) flag (make_extra_list flag extra) src ;;; terminate) s in
    if ok : bool then (to_int (Z.of_nat (length (out s')) - Z.of_nat (length (out s)) - 1), s')
    else (-1, s')
  else (0, snd (put 0 s)).

(** [len] bytes of [src] *)
Definition istrsnvisx (alloc : bool) (src : list Z) (flag : Z) (extra : list Z) (s : vout) : Z * vout :=
  if alloc then
    let '(ok, s') :=
      (encode_loop (getvisfun flag) flag (make_extra_list flag extra) src ;;; terminate) s in
    if ok : bool then (to_int (Z.of_nat (length (out s')) - Z.of_nat (length (out s)) - 1), s')
    else (-1, s')
  else let '(ok, s') := terminate s in (if ok : bool then 0 else -1, s').

Definition invis (alloc : bool) (c flag nextc : Z) : V := isnvis alloc (u8 c) flag nextc [].

(** The list of extra characters is made twice. *)
Definition istrnvis (alloc1 alloc2 : bool) (src : list Z) (flag : Z) (s : vout) : Z * vout :=
  if alloc1 then istrsnvis alloc2 src flag (make_extra_list flag []) s
  else let '(ok, s') := terminate s in (if ok : bool then 0 else -1, s').
Definition istrnvisx (alloc1 alloc2 : bool) (src : list Z) (flag : Z) (s : vout) : Z * vout :=
  if alloc1 then istrsnvisx alloc2 src flag (make_extra_list flag []) s
  else let '(ok, s') := terminate s in (if ok : bool then 0 else -1, s').

(** The functions of the interface: what they return and write *)
Definition strvis (src : list Z) (flag : Z) : Z * vout := istrnvis true true src flag (VOut None []).
Definition strnvis (dlen : Z) (src : list Z) (flag : Z) : Z * vout :=
  istrnvis true true src flag (VOut (Some dlen) []).
Definition strvisx (src : list Z) (flag : Z) : Z * vout := istrnvisx true true src flag (VOut None []).
Definition strnvisx (dlen : Z) (src : list Z) (flag : Z) : Z * vout :=
  istrnvisx true true src flag (VOut (Some dlen) []).
Close Scope vis_scope.

(** ** unvis.c *)
Definition S_GROUND : Z := 0.
Definition S_START : Z := 1.
Definition S_META : Z := 2.
Definition S_META1 : Z := 3.
Definition S_CTRL : Z := 4.
Definition S_OCTAL2 : Z := 5.
Definition S_OCTAL3 : Z := 6.
Definition S_HEX1 : Z := 7.
Definition S_HEX2 : Z := 8.
Definition S_MIME1 : Z := 9.
Definition S_MIME2 : Z := 10.
Definition S_EATCRNL : Z := 11.
Definition S_AMP : Z := 12.
Definition S_NUMBER : Z := 13.
Definition S_STRING : Z := 14.

Inductive unvis_result := UNVIS_VALID | UNVIS_VALIDPUSH | UNVIS_NOCHAR | UNVIS_SYNBAD.

Definition xtod (c : Z) : Z := if isdigit c then c - 48 else tolower c - 97 + 10.
Definition XTOD (c : Z) : Z := if isdigit c then c - 48 else c - 65 + 10.

(** The state in the low byte of [astate], the index in the high one *)
Definition GS (a : Z) : Z := Z.land a 255.
Definition SS (a b : Z) : Z := Z.lor (u32 (Z.shiftl a 24)) b.
Definition GI (a : Z) : Z := Z.shiftr (u32 a) 24.

(** RFC 1866 *)
Definition nv : list (list Z * Z) :=
  [(str "AElig", 198); (str "Aacute", 193); (str "Acirc", 194); (str "Agrave", 192);
   (str "Aring", 197); (str "Atilde", 195); (str "Auml", 196); (str "Ccedil", 199);
   (str "ETH", 208); (str "Eacute", 201); (str "Ecirc", 202); (str "Egrave", 200);
   (str "Euml", 203); (str "Iacute", 205); (str "Icirc", 206); (str "Igrave", 204);
   (str "Iuml", 207); (str "Ntilde", 209); (str "Oacute", 211); (str "Ocirc", 212);
   (str "Ograve", 210); (str "Oslash", 216); (str "Otilde", 213); (str "Ouml", 214);
   (str "THORN", 222); (str "Uacute", 218); (str "Ucirc", 219); (str "Ugrave", 217);
   (str "Uuml", 220); (str "Yacute", 221); (str "aacute", 225); (str "acirc", 226);
   (str "acute", 180); (str "aelig", 230); (str "agrave", 224); (str "amp", 38);
   (str "aring", 229); (str "atilde", 227); (str "auml", 228); (str "brvbar", 166);
   (str "ccedil", 231); (str "cedil", 184); (str "cent", 162); (str "copy", 169);
   (str "curren", 164); (str "deg", 176); (str "divide", 247); (str "eacute", 233);
   (str "ecirc", 234); (str "egrave", 232); (str "eth", 240); (str "euml", 235);
   (str "frac12", 189); (str "frac14", 188); (str "frac34", 190); (str "gt", 62);
   (str "iacute", 237); (str "icirc", 238); (str "iexcl", 161); (str "igrave", 236);
   (str "iquest", 191); (str "iuml", 239); (str "laquo", 171); (str "lt", 60);
   (str "macr", 175); (str "micro", 181); (str "middot", 183); (str "nbsp", 160);
   (str "not", 172); (str "ntilde", 241); (str "oacute", 243); (str "ocirc", 244);
   (str "ograve", 242); (str "ordf", 170); (str "ordm", 186); (str "oslash", 248);
   (str "otilde", 245); (str "ouml", 246); (str "para", 182); (str "plusmn", 177);
   (str "pound", 163); (str "quot", 34); (str "raquo", 187); (str "reg", 174);
   (str "sect", 167); (str "shy", 173); (str "sup1", 185); (str "sup2", 178);
   (str "sup3", 179); (str "szlig", 223); (str "thorn", 254); (str "times", 215);
   (str "uacute", 250); (str "ucirc", 251); (str "ugrave", 249); (str "uml", 168);
   (str "uuml", 252); (str "yacute", 253); (str "yen", 165); (str "yuml", 255)].

(** [nv[ia].name[i]], which includes the terminator *)
Definition nv_char (ia i : Z) : res Z :=
  match nv !! Z.to_nat ia with
  | None => Fault
  | Some (name, _) =>
      if i <? 0 then Fault
      else match (name ++ [0]) !! Z.to_nat i with Some c => Ret c | None => Fault end
  end.

(** The search of state [S_STRING], from entry [ia] on: the entry found, if
    the search does not fail *)
Fixpoint nv_search (fuel : nat) (ia k lc uc : Z) : res (option Z) :=
  match fuel with
  | O => Ret None
  | S fuel' =>
      bad ← (if k =? 0 then Ret false else c ← nv_char ia (k - 1); Ret (negb (c =? lc)));
      if bad : bool then Ret None
      else
        c ← nv_char ia k;
        if c =? uc then Ret (Some ia) else nv_search fuel' (ia + 1) k lc uc
  end.

Definition unvis_string (cp uc astate : Z) : res (Z * Z * unvis_result) :=
  let ia := u8 cp in
  let i := u8 (GI astate) in
  lc ← (if i =? 0 then Ret 0 else nv_char ia (i - 1));
  let uc := if uc =? 59 then 0 else uc in
  found ← nv_search (length nv - Z.to_nat ia) ia i lc uc;
  match found with
  | None => Ret (cp, SS 0 S_GROUND, UNVIS_SYNBAD)
  | Some ia =>
      if uc =? 0 then
        match nv !! Z.to_nat ia with
        | None => Fault
        | Some (_, value) => Ret (value, SS 0 S_GROUND, UNVIS_VALID)
        end
      else Ret (ia, SS (i + 1) S_STRING, UNVIS_NOCHAR)
  end.

Definition unvis_start (cp c astate : Z) : Z * Z * unvis_result :=
  let valid x := (x, SS 0 S_GROUND, UNVIS_VALID) in
  if c =? 92 then valid c
  else if (48 <=? c) && (c <=? 55) then (c - 48, SS 0 S_OCTAL2, UNVIS_NOCHAR)
  else if c =? chr "M" then (128, SS 0 S_META, UNVIS_NOCHAR)
  else if c =? chr "^" then (cp, SS 0 S_CTRL, UNVIS_NOCHAR)
  else if c =? chr "n" then valid 10
  else if c =? chr "r" then valid 13
  else if c =? chr "b" then valid 8
  else if c =? chr "a" then valid 7
  else if c =? chr "v" then valid 11
  else if c =? chr "t" then valid 9
  else if c =? chr "f" then valid 12
  else if c =? chr "s" then valid 32
  else if c =? chr "E" then valid 27
  else if c =? 10 then (cp, SS 0 S_GROUND, UNVIS_NOCHAR)
  else if c =? chr "$" then (cp, SS 0 S_GROUND, UNVIS_NOCHAR)
  else (cp, SS 0 S_GROUND, UNVIS_SYNBAD).

(** One character: the new [*cp] and [*astate], and the result *)
Definition unvis (cp c astate flag : Z) : res (Z * Z * unvis_result) :=
  let uc := u8 c in
  let st := u8 (GS astate) in
  let bad := Ret (cp, SS 0 S_GROUND, UNVIS_SYNBAD) in
  if has flag UNVIS_END then
    if (st =? S_OCTAL2) || (st =? S_OCTAL3) || (st =? S_HEX2) then
      Ret (cp, SS 0 S_GROUND, UNVIS_VALID)
    else if st =? S_GROUND then Ret (cp, astate, UNVIS_NOCHAR)
    else Ret (cp, astate, UNVIS_SYNBAD)
  else if st =? S_GROUND then
    if negb (has flag VIS_NOESCAPE) && (c =? 92) then Ret (0, SS 0 S_START, UNVIS_NOCHAR)
    else if has flag VIS_HTTPSTYLE && (c =? chr "%") then Ret (0, SS 0 S_HEX1, UNVIS_NOCHAR)
    else if has flag VIS_HTTP1866 && (c =? chr "&") then Ret (0, SS 0 S_AMP, UNVIS_NOCHAR)
    else if has flag VIS_MIMESTYLE && (c =? chr "=") then Ret (0, SS 0 S_MIME1, UNVIS_NOCHAR)
    else Ret (u8 c, astate, UNVIS_VALID)
  else if st =? S_START then Ret (unvis_start cp c astate)
  else if st =? S_META then
    if c =? chr "-" then Ret (cp, SS 0 S_META1, UNVIS_NOCHAR)
    else if c =? chr "^" then Ret (cp, SS 0 S_CTRL, UNVIS_NOCHAR)
    else bad
  else if st =? S_META1 then Ret (u8 (Z.lor cp c), SS 0 S_GROUND, UNVIS_VALID)
  else if st =? S_CTRL then
    Ret (u8 (Z.lor cp (if c =? chr "?" then 127 else Z.land c 31)), SS 0 S_GROUND, UNVIS_VALID)
  else if st =? S_OCTAL2 then
    if isoctal uc then Ret (u8 (Z.shiftl cp 3 + (c - 48)), SS 0 S_OCTAL3, UNVIS_NOCHAR)
    else Ret (cp, SS 0 S_GROUND, UNVIS_VALIDPUSH)
  else if st =? S_OCTAL3 then
    if isoctal uc then Ret (u8 (Z.shiftl cp 3 + (c - 48)), SS 0 S_GROUND, UNVIS_VALID)
    else Ret (cp, SS 0 S_GROUND, UNVIS_VALIDPUSH)
  else if st =? S_HEX1 then
    if isxdigit uc then Ret (u8 (xtod uc), SS 0 S_HEX2, UNVIS_NOCHAR)
    else Ret (cp, SS 0 S_GROUND, UNVIS_VALIDPUSH)
  else if st =? S_HEX2 then
    if isxdigit uc then Ret (u8 (Z.lor (xtod uc) (Z.shiftl cp 4)), S_GROUND, UNVIS_VALID)
    else Ret (cp, S_GROUND, UNVIS_VALIDPUSH)
  else if st =? S_MIME1 then
    if (uc =? 10) || (uc =? 13) then Ret (cp, SS 0 S_EATCRNL, UNVIS_NOCHAR)
    else if isxdigit uc && (isdigit uc || isupper uc) then
      Ret (u8 (XTOD uc), SS 0 S_MIME2, UNVIS_NOCHAR)
    else bad
  else if st =? S_MIME2 then
    if isxdigit uc && (isdigit uc || isupper uc) then
      Ret (u8 (Z.lor (XTOD uc) (Z.shiftl cp 4)), SS 0 S_GROUND, UNVIS_VALID)
    else bad
  else if st =? S_EATCRNL then
    if (uc =? 13) || (uc =? 10) then Ret (cp, astate, UNVIS_NOCHAR)
    else if uc =? chr "=" then Ret (cp, SS 0 S_MIME1, UNVIS_NOCHAR)
    else Ret (uc, SS 0 S_GROUND, UNVIS_VALID)
  else if st =? S_AMP then
    if uc =? chr "#" then Ret (0, SS 0 S_NUMBER, UNVIS_NOCHAR)
    else unvis_string 0 uc (SS 0 S_STRING)
  else if st =? S_STRING then unvis_string cp uc astate
  else if st =? S_NUMBER then
    if uc =? 59 then Ret (cp, astate, UNVIS_VALID)
    else if negb (isdigit uc) then bad
    else Ret (u8 (cp + (cp * 10 + uc - 48)), astate, UNVIS_NOCHAR)
  else bad.

(** The local variables of [strnunvisx] *)
Record ust := UState { u_t : Z; u_state : Z; u_dlen : Z; u_dst : list Z }.

(** [CHECKSPACE] and the store; [None] without space *)
Definition store (c : Z) (s : ust) : option ust :=
  if u_dlen s =? 0 then None
  else Some (UState (u_t s) (u_state s) (u_dlen s - 1) (u_dst s ++ [c])).

(** One character of the source, again after a push back; [None] is -1. *)
Fixpoint unvis_char (fuel : nat) (flag c : Z) (s : ust) : res (option ust) :=
  match fuel with
  | O => NoFuel
  | S fuel' =>
      '(t, st, r) ← unvis (u_t s) c (u_state s) flag;
      let s := UState t st (u_dlen s) (u_dst s) in
      match r with
      | UNVIS_VALID => Ret (store t s)
      | UNVIS_VALIDPUSH =>
          match store t s with None => Ret None | Some s => unvis_char fuel' flag c s end
      | UNVIS_NOCHAR => Ret (Some s)
      | UNVIS_SYNBAD => Ret None
      end
  end.

Fixpoint unvis_loop (flag : Z) (src : list Z) (s : ust) : res (option ust) :=
  match src with
  | [] => Ret (Some s)
  | c :: src =>
      if c =? 0 then Ret (Some s)
      else
        s ← unvis_char 2 flag c s;
        match s with None => Ret None | Some s => unvis_loop flag src s end
  end.

(** The bytes decoded, without the terminator; [None] is -1.  [t0] is what
    the variable [t] holds at first. *)
Definition strnunvisx (t0 dlen : Z) (src : list Z) (flag : Z) : res (option (list Z)) :=
  s ← unvis_loop flag src (UState t0 0 dlen []);
  match s with
  | None => Ret None
  | Some s =>
      '(t, st, r) ← unvis (u_t s) 0 (u_state s) UNVIS_END;
      let s := UState t st (u_dlen s) (u_dst s) in
      match (match r with UNVIS_VALID => store t s | _ => Some s end) with
      | None => Ret None
      | Some s => match store 0 s with None => Ret None | Some _ => Ret (Some (u_dst s)) end
      end
  end.

Definition strunvisx (t0 : Z) (src : list Z) (flag : Z) := strnunvisx t0 (2 ^ 64 - 1) src flag.
Definition strunvis (t0 : Z) (src : list Z) := strnunvisx t0 (2 ^ 64 - 1) src 0.
Definition strnunvis (t0 dlen : Z) (src : list Z) := strnunvisx t0 dlen src 0.
