(* ===== verification/VisCorrect.v ===== *)
(** * What visual encoding guarantees (libnvedit: vis.c, unvis.c)

    A reference definition of the encoding, that the functions of vis.c
    produce it within the room they have, and that unvis.c reads it back. *)

From Stdlib Require Import String Ascii.
From S2P Require Import Prelude Vis.

(** ** The encoding of one character *)

(** The flags, and what matters of the character that follows: whether it is
    an octal digit or ends a line *)
Record style := Style {
  st_octal : bool; st_cstyle : bool; st_sp : bool; st_tab : bool; st_nl : bool; st_safe : bool;
  st_noslash : bool; st_http : bool; st_mime : bool
}.

Definition style_of (flag : Z) : style :=
  Style (has flag VIS_OCTAL) (has flag VIS_CSTYLE) (has flag VIS_SP) (has flag VIS_TAB)
    (has flag VIS_NL) (has flag VIS_SAFE) (has flag VIS_NOSLASH) (has flag VIS_HTTPSTYLE)
    (has flag VIS_MIMESTYLE).

(** The characters never printed as they are *)
Definition is_extra (y : style) (c : Z) : bool :=
  (c =? 0) || st_sp y && (c =? 32) || st_tab y && (c =? 9) || st_nl y && (c =? 10) ||
  negb (st_noslash y) && (c =? 92).

Definition octal_code (c : Z) : list Z :=
  [92; Z.land (Z.shiftr c 6) 3 + 48; Z.land (Z.shiftr c 3) 7 + 48; Z.land c 7 + 48].

Definition meta_code (y : style) (c : Z) : list Z :=
  (if st_noslash y then [] else [92]) ++ (if has c 128 then [chr "M"] else []) ++
  (let c := Z.land c 127 in
   if iscntrl c then [chr "^"; if c =? 127 then chr "?" else c + chr "@"] else [chr "-"; c]).

Definition rest_code (y : style) (extra : bool) (c : Z) : list Z :=
  if extra || (Z.land c 127 =? 32) || st_octal y then octal_code c else meta_code y c.

Definition svis_code (y : style) (extra : bool) (c : Z) (octal_next : bool) : list Z :=
  if negb extra && isascii c && (isgraph c || iswhite c || st_safe y && issafe c) then [c]
  else if st_cstyle y then
    if c =? 0 then [92; 48] ++ (if octal_next then [48; 48] else [])
    else match cstyle_letter c with Some x => [92; x] | None => rest_code y extra c end
  else rest_code y extra c.

Definition vis_code (y : style) (c : Z) (octal_next eol_next : bool) : list Z :=
  if st_http y then
    if isascii c && isalnum c || existsb (Z.eqb c) http_safe then svis_code y (is_extra y c) c octal_next
    else [chr "%"; xtoa (Z.land (Z.shiftr c 4) 15); xtoa (Z.land c 15)]
  else if st_mime y then
    if negb (c =? 10) &&
       (isspace c && eol_next ||
        negb (isspace c) && ((c <? 33) || (60 <? c) && (c <? 62) || (126 <? c)) ||
        in_string mime_special c)
    then [chr "="; XTOA (Z.land (Z.shiftr c 4) 15); XTOA (Z.land c 15)]
    else svis_code y (is_extra y c) c octal_next
  else svis_code y (is_extra y c) c octal_next.

(** The encoding of a list of bytes, followed by a terminator *)
Fixpoint visual (y : style) (src : list Z) : list Z :=
  match src with
  | [] => []
  | c :: rest =>
      let nextc := hd 0 rest in
      vis_code y c (isoctal nextc) ((nextc =? 13) || (nextc =? 10)) ++ visual y rest
  end.

(** ** Writing within the room *)

Local Open Scope vis_scope.

(** [f] writes the bytes [bs] when they fit, and otherwise fails within the
    room. *)
Definition emits (f : V) (bs : list Z) : Prop := forall s,
  match room s with
  | None => f s = (true, VOut None (out s ++ bs))
  | Some n => 0 <= n ->
      if Z.of_nat (length bs) <=? n
      then f s = (true, VOut (Some (n - Z.of_nat (length bs))) (out s ++ bs))
      else exists ws r, f s = (false, VOut r (out s ++ ws)) /\ Z.of_nat (length ws) <= n
  end.

Definition byte (c : Z) : Prop := 0 <= c < 256.

Lemma u8_byte c : byte c -> u8 c = c.
Proof. intros ?. by apply wrap_small. Qed.

Lemma emits_ret : emits v_ret [].
Proof.
  intros [[n|] o]; cbn [room out]; change (Z.of_nat (length (@nil Z))) with 0; rewrite app_nil_r; [|done]. intros Hn.
  destruct (Z.leb_spec 0 n); [|lia]. by rewrite Z.sub_0_r.
Qed.

Lemma emits_seq f g a b : emits f a -> emits g b -> emits (f ;;; g) (a ++ b).
Proof.
  intros Hf Hg [[n|] o]; unfold v_seq; cbn [room out].
  - intros Hn. specialize (Hf (VOut (Some n) o)). cbn [room out] in Hf. specialize (Hf Hn).
    rewrite length_app, Nat2Z.inj_add.
    destruct (Z.leb_spec (Z.of_nat (length a)) n) as [Ha|Ha].
    + rewrite Hf. specialize (Hg (VOut (Some (n - Z.of_nat (length a))) (o ++ a))).
      cbn [room out] in Hg. specialize (Hg ltac:(lia)).
      destruct (Z.leb_spec (Z.of_nat (length b)) (n - Z.of_nat (length a))) as [Hb|Hb].
      * destruct (Z.leb_spec (Z.of_nat (length a) + Z.of_nat (length b)) n); [|lia].
        rewrite Hg, <- app_assoc. do 3 f_equal. lia.
      * destruct (Z.leb_spec (Z.of_nat (length a) + Z.of_nat (length b)) n); [lia|].
        destruct Hg as (ws & r & -> & Hl). exists (a ++ ws), r. rewrite <- app_assoc.
        split; [done|]. rewrite length_app. lia.
    + destruct (Z.leb_spec (Z.of_nat (length a) + Z.of_nat (length b)) n); [lia|].
      destruct Hf as (ws & r & -> & Hl). by exists ws, r.
  - specialize (Hf (VOut None o)). cbn [room out] in Hf. rewrite Hf.
    specialize (Hg (VOut None (o ++ a))). cbn [room out] in Hg. by rewrite Hg, <- app_assoc.
Qed.

(** [*dst++ = c] for each byte *)
Fixpoint puts (bs : list Z) : V :=
  match bs with [] => v_ret | c :: bs => put c ;;; puts bs end.

Lemma puts_eq bs s : Forall byte bs -> puts bs s = (true, VOut (room s) (out s ++ bs)).
Proof.
  intros H. revert s. induction H as [|c bs Hc Hbs IH]; intros [r o]; cbn [puts].
  { by rewrite app_nil_r. }
  unfold v_seq, put. cbn [room out]. rewrite IH, u8_byte by done. cbn [room out].
  by rewrite <- app_assoc.
Qed.

(** Room is made for as many bytes as are written. *)
Lemma emits_have x f bs :
  (forall s, f s = puts bs s) -> Forall byte bs -> x = Z.of_nat (length bs) -> emits (HAVE x ;;; f) bs.
Proof.
  intros Hf Hbs -> [[n|] o]; unfold v_seq, HAVE; cbn [room out].
  - intros Hn. destruct (Z.ltb_spec n (Z.of_nat (length bs))) as [Hlt|Hge].
    + destruct (Z.leb_spec (Z.of_nat (length bs)) n); [lia|]. exists [], (Some n).
      rewrite app_nil_r. split; [done|simpl; lia].
    + destruct (Z.leb_spec (Z.of_nat (length bs)) n); [|lia]. by rewrite Hf, puts_eq.
  - by rewrite Hf, puts_eq.
Qed.

Lemma emits_reset f bs : emits f bs -> emits (or_reset f) bs.
Proof.
  intros Hf s. specialize (Hf s). unfold or_reset. destruct (room s) as [n|]; [|by rewrite Hf].
  intros Hn. specialize (Hf Hn). destruct (_ <=? n); [by rewrite Hf|].
  destruct Hf as (ws & r & -> & Hl). by exists ws, (Some n).
Qed.

Lemma emits_ext f g bs : (forall s, f s = g s) -> emits f bs -> emits g bs.
Proof. intros E Hf s. specialize (Hf s). by rewrite E in Hf. Qed.

(** The C escapes make room before they know whether one applies. *)
Lemma emits_retry x f bs :
  emits f bs -> 0 <= x <= Z.of_nat (length bs) ->
  emits (fun s => (HAVE x ;;; set_room (room s) ;;; f) s) bs.
Proof.
  intros Hf Hx [[n|] o]; unfold v_seq, HAVE, set_room; cbn [room out].
  - intros Hn. specialize (Hf (VOut (Some n) o)). cbn [room out] in Hf.
    destruct (Z.ltb_spec n x) as [Hlt|Hge]; [|by apply Hf].
    destruct (Z.leb_spec (Z.of_nat (length bs)) n); [lia|]. exists [], (Some n).
    rewrite app_nil_r. split; [done|simpl; lia].
  - by specialize (Hf (VOut None o)).
Qed.

(** ** Checking a property of all bytes *)
Lemma byte_forall (P : Z -> bool) : forallb P (seqZ 0 256) = true -> forall c, byte c -> P c = true.
Proof.
  intros H c Hc. rewrite forallb_forall in H. apply H. apply list_elem_of_In, elem_of_seqZ.
  unfold byte in Hc. lia.
Qed.

Definition byteb (c : Z) : bool := (0 <=? c) && (c <? 256).
Lemma byteb_spec l : forallb byteb l = true -> Forall byte l.
Proof.
  intros H. rewrite forallb_forall in H. apply Forall_forall. intros c Hc.
  specialize (H c (proj1 (list_elem_of_In _ _) Hc)). unfold byteb in H. unfold byte. lia.
Qed.

(** ** The encoders of vis.c *)
Lemma in_string_extra flag c :
  byte c ->
  in_string (make_extra_list flag (make_extra_list flag [])) c = is_extra (style_of flag) c /\
  in_string (make_extra_list flag []) c = is_extra (style_of flag) c.
Proof.
  intros Hc. unfold in_string, make_extra_list, is_extra. rewrite u8_byte by done.
  cbn [style_of st_sp st_tab st_nl st_noslash].
  destruct (has flag VIS_SP), (has flag VIS_TAB), (has flag VIS_NL), (has flag VIS_NOSLASH);
    cbn [app andb orb negb];
    repeat match goal with |- context [c =? ?k] => destruct (Z.eqb_spec c k) end; cbn [orb];
    (split; [try (apply bool_decide_eq_true; set_solver); apply bool_decide_eq_false; set_solver..|
             try (apply bool_decide_eq_true; set_solver); apply bool_decide_eq_false; set_solver]).
Qed.

Lemma masked c : byte c -> (if has c 128 then Z.land c 127 else c) = Z.land c 127.
Proof.
  intros Hc. apply Z.eqb_eq. revert c Hc.
  apply (byte_forall (fun c => (if has c 128 then Z.land c 127 else c) =? Z.land c 127)).
  vm_compute. reflexivity.
Qed.

Lemma octal_code_bytes c : byte c -> Forall byte (octal_code c).
Proof.
  intros Hc. apply byteb_spec. revert c Hc. apply (byte_forall (fun c => forallb byteb (octal_code c))).
  vm_compute. reflexivity.
Qed.

Lemma tail_code_bytes c :
  byte c ->
  byte (if Z.land c 127 =? 127 then chr "?" else Z.land c 127 + chr "@") /\ byte (Z.land c 127).
Proof.
  intros Hc.
  assert (H : Forall byte [if Z.land c 127 =? 127 then chr "?" else Z.land c 127 + chr "@"; Z.land c 127]).
  { apply byteb_spec. revert c Hc. apply (byte_forall (fun c => forallb byteb
      [if Z.land c 127 =? 127 then chr "?" else Z.land c 127 + chr "@"; Z.land c 127])).
    vm_compute. reflexivity. }
  apply Forall_cons in H as [H1 H]. by apply Forall_cons in H as [H2 _].
Qed.

Ltac have_bytes := apply emits_have; [reflexivity|repeat constructor; done|done].

Lemma svis_rest_emits flag c :
  byte c -> emits (svis_rest c flag (is_extra (style_of flag) c)) (rest_code (style_of flag) (is_extra (style_of flag) c) c).
Proof.
  intros Hc. unfold svis_rest, rest_code. cbn [style_of st_octal].
  destruct (is_extra _ c || _ || _).
  { rewrite u8_byte by done. apply emits_have; [reflexivity|by apply octal_code_bytes|done]. }
  unfold meta_code. cbn [style_of st_noslash]. apply emits_seq.
  { destruct (has flag VIS_NOSLASH); [apply emits_ret|have_bytes]. }
  apply emits_seq.
  { destruct (has c 128); [have_bytes|apply emits_ret]. }
  cbv zeta. rewrite masked by done. destruct (tail_code_bytes c Hc) as [H1 H2].
  destruct (iscntrl (Z.land c 127)); (apply emits_have; [reflexivity| |done]);
    (apply Forall_cons; split; [done|]; by apply Forall_singleton).
Qed.

Lemma rest_code_length y x c : (2 <= length (rest_code y x c) <= 4)%nat.
Proof.
  unfold rest_code. destruct (_ || _); [simpl; lia|]. unfold meta_code. cbv zeta.
  rewrite !length_app. destruct (st_noslash y), (has c 128), (iscntrl _); simpl; lia.
Qed.

Lemma do_svis_emits flag c nextc extra :
  byte c -> in_string extra c = is_extra (style_of flag) c ->
  emits (do_svis c flag nextc extra) (svis_code (style_of flag) (is_extra (style_of flag) c) c (isoctal nextc)).
Proof.
  intros Hc He. unfold do_svis. apply emits_reset. rewrite He. unfold svis_code.
  cbn [style_of st_safe st_cstyle].
  destruct (negb _ && _ && _).
  { apply (emits_ext (HAVE 1 ;;; put c)); [done|]. apply emits_have; [reflexivity| |done].
    by apply Forall_singleton. }
  destruct (has flag VIS_CSTYLE); [|by apply svis_rest_emits].
  destruct (Z.eqb_spec c 0) as [->|Hc0].
  { apply (emits_ext ((HAVE 2 ;;; put 92 ;;; put (chr "0")) ;;;
      (if isoctal nextc then HAVE 2 ;;; put (chr "0") ;;; put (chr "0") else v_ret))).
    { intros [r o]. unfold v_seq, HAVE. destruct r as [n|]; cbn [room]; [|done].
      by destruct (n <? 2). }
    apply emits_seq; [have_bytes|]. destruct (isoctal nextc); [have_bytes|apply emits_ret]. }
  destruct (cstyle_letter c) as [x|] eqn:Ex.
  - apply (emits_ext (HAVE 2 ;;; put 92 ;;; put x)); [done|]. apply emits_have; [reflexivity| |done].
    apply Forall_cons. split; [done|]. apply Forall_singleton. revert Ex. unfold cstyle_letter.
    by repeat (case_match; [by intros [= <-]|]).
  - apply emits_retry; [by apply svis_rest_emits|]. pose proof (rest_code_length (style_of flag) (is_extra (style_of flag) c) c). lia.
Qed.

Lemma hex_bytes c :
  byte c -> Forall byte [xtoa (Z.land (Z.shiftr c 4) 15); xtoa (Z.land c 15);
                         XTOA (Z.land (Z.shiftr c 4) 15); XTOA (Z.land c 15)].
Proof.
  intros Hc. apply byteb_spec. revert c Hc. apply (byte_forall (fun c => forallb byteb
    [xtoa (Z.land (Z.shiftr c 4) 15); xtoa (Z.land c 15);
     XTOA (Z.land (Z.shiftr c 4) 15); XTOA (Z.land c 15)])).
  vm_compute. reflexivity.
Qed.

(** Whichever function [getvisfun] chooses *)
Lemma getvisfun_emits flag c nextc extra :
  byte c -> in_string extra c = is_extra (style_of flag) c ->
  emits (getvisfun flag c flag nextc extra)
    (vis_code (style_of flag) c (isoctal nextc) ((nextc =? 13) || (nextc =? 10))).
Proof.
  intros Hc He. pose proof (hex_bytes c Hc) as Hx. rewrite !Forall_cons in Hx.
  destruct Hx as (H1 & H2 & H3 & H4 & _). unfold getvisfun, vis_code. cbn [style_of st_http st_mime].
  destruct (has flag VIS_HTTPSTYLE); [|destruct (has flag VIS_MIMESTYLE); [|by apply do_svis_emits]].
  - unfold do_hvis. destruct (_ || _); [by apply do_svis_emits|].
    apply emits_have; [reflexivity|by rewrite !Forall_cons|done].
  - unfold do_mvis. destruct (negb _ && _); [|by apply do_svis_emits].
    apply emits_have; [reflexivity|by rewrite !Forall_cons|done].
Qed.

Lemma encode_loop_emits flag extra src :
  Forall byte src -> (forall c, byte c -> in_string extra c = is_extra (style_of flag) c) ->
  emits (encode_loop (getvisfun flag) flag extra src) (visual (style_of flag) src).
Proof.
  intros Hsrc He. induction Hsrc as [|c src Hc Hsrc IH]; cbn [encode_loop visual].
  { apply emits_ret. }
  apply emits_seq; [|done]. apply getvisfun_emits; auto.
Qed.

(** The encoding with its terminator *)
Lemma terminated f bs s :
  emits f bs ->
  match room s with
  | None => (f ;;; terminate) s = (true, VOut None (out s ++ bs ++ [0]))
  | Some n => 0 <= n ->
      if Z.of_nat (length bs) <? n
      then exists r, (f ;;; terminate) s = (true, VOut r (out s ++ bs ++ [0]))
      else exists ws r, (f ;;; terminate) s = (false, VOut r (out s ++ ws)) /\ Z.of_nat (length ws) <= n
  end.
Proof.
  intros Hf. specialize (Hf s). unfold v_seq. destruct (room s) as [n|].
  - intros Hn. specialize (Hf Hn). destruct (Z.ltb_spec (Z.of_nat (length bs)) n) as [Hlt|Hge].
    + destruct (Z.leb_spec (Z.of_nat (length bs)) n); [|lia]. rewrite Hf. unfold terminate.
      cbn [room]. destruct (Z.eqb_spec (n - Z.of_nat (length bs)) 0); [lia|].
      eexists. unfold put. cbn [room out]. by rewrite <- app_assoc.
    + destruct (Z.leb_spec (Z.of_nat (length bs)) n) as [Hle|Hgt].
      * rewrite Hf. unfold terminate. cbn [room]. destruct (Z.eqb_spec (n - Z.of_nat (length bs)) 0); [|lia].
        by exists bs, (Some (n - Z.of_nat (length bs))).
      * destruct Hf as (ws & r & -> & Hl). by exists ws, r.
  - rewrite Hf. unfold terminate, put. cbn [room out]. by rewrite <- app_assoc.
Qed.

(** The encoding is at most four times as long as the source. *)
Lemma svis_code_length y x c o : (1 <= length (svis_code y x c o) <= 4)%nat.
Proof.
  unfold svis_code. destruct (negb _ && _ && _); [simpl; lia|].
  pose proof (rest_code_length y x c).
  destruct (st_cstyle y); [|lia]. destruct (c =? 0); [destruct o; simpl; lia|].
  destruct (cstyle_letter c); simpl; lia.
Qed.

Lemma vis_code_length y c o e : (1 <= length (vis_code y c o e) <= 4)%nat.
Proof.
  unfold vis_code. pose proof (svis_code_length y (is_extra y c) c o).
  destruct (st_http y); [destruct (_ || _); simpl; lia|].
  destruct (st_mime y); [|lia]. destruct (negb _ && _); simpl; lia.
Qed.

Lemma visual_length y src : (length src <= length (visual y src) <= 4 * length src)%nat.
Proof.
  induction src as [|c src IH]; cbn [visual length]; [lia|]. rewrite length_app.
  pose proof (vis_code_length y c (isoctal (hd 0 src)) ((hd 0 src =? 13) || (hd 0 src =? 10))). lia.
Qed.

(** The string in an array *)
Fixpoint c_string (src : list Z) : list Z :=
  match src with
  | [] => []
  | c :: src => if c =? 0 then [] else c :: c_string src
  end.

Lemma string_loop_string f flag extra src : string_loop f flag extra src = encode_loop f flag extra (c_string src).
Proof.
  induction src as [|c src IH]; cbn [string_loop c_string]; [done|]. destruct (c =? 0); [done|]. cbn [encode_loop]. rewrite IH.
  replace (hd 0 (c_string src)) with (hd 0 src); [done|]. destruct src as [|d src]; [done|]. simpl. by destruct (Z.eqb_spec d 0).
Qed.

(** C15. The encoders and their buffers.  [strvisx] stores the encoding of the
    source, as [visual] defines it, with a terminator, and returns its length,
    which is at most four times that of the source; so does [strnvisx] when
    the encoding and the terminator fit into the room it is given.  When they
    do not it returns -1.  In no case does it store more bytes than that room.
    [strvis] and [strnvis] do the same with the bytes before the first null. *)
Theorem vis_within_room (flag dlen : Z) (src : list Z) :
  Forall byte src -> 0 <= dlen -> 4 * Z.of_nat (length src) < 2 ^ 31 ->
  let enc := visual (style_of flag) src in
  strvisx src flag = (Z.of_nat (length enc), VOut None (enc ++ [0])) /\
  strvis src flag = strvisx (c_string src) flag /\ (length enc <= 4 * length src)%nat /\
  strnvis dlen src flag = strnvisx dlen (c_string src) flag /\
  exists r s, strnvisx dlen src flag = (r, s) /\
    Z.of_nat (length (out s)) <= dlen /\
    if Z.of_nat (length enc) <? dlen
    then r = Z.of_nat (length enc) /\ out s = enc ++ [0]
    else r = -1.
Proof.
  intros Hsrc Hd Hint enc.
  assert (Hi : forall n, n = Z.of_nat (length enc) -> to_int n = n).
  { intros n ->. pose proof (visual_length (style_of flag) src). unfold to_int. fold enc in H.
    rewrite Z.mod_small; lia. }
  pose proof (encode_loop_emits flag (make_extra_list flag (make_extra_list flag [])) src Hsrc
    (fun c Hc => proj1 (in_string_extra flag c Hc))) as He. fold enc in He.
  unfold strvisx, strvis, strnvisx, strnvis, istrnvisx, istrnvis, istrsnvisx, istrsnvis. rewrite string_loop_string.
  split; [|split; [done|split; [by apply visual_length|split; [done|]]]].
  - pose proof (terminated _ _ (VOut None []) He) as Ht. cbn [room out app] in Ht. rewrite Ht.
    cbn [out]. rewrite length_app. rewrite Hi; [f_equal|]; simpl; lia.
  - pose proof (terminated _ _ (VOut (Some dlen) []) He) as Ht. cbn [room out app] in Ht.
    specialize (Ht Hd). destruct (Z.ltb_spec (Z.of_nat (length enc)) dlen) as [Hlt|Hge].
    + destruct Ht as [r ->]. eexists _, _. split; [reflexivity|]. cbn [out].
      rewrite length_app. split; [simpl; lia|]. rewrite Hi; [split; [|done]|]; simpl; lia.
    + destruct Ht as (ws & r & -> & Hl). by eexists _, _.
Qed.

Lemma vis_within_room_witness :
  strvisx (str "a b" ++ [0; 49; 200; 10]) VIS_CSTYLE =
    (13, VOut None (str "a b\0001\M-H" ++ [10; 0])) /\
  strvis (str "a b" ++ [0; 49; 200; 10]) VIS_CSTYLE = (3, VOut None (str "a b" ++ [0])) /\
  fst (strnvisx 13 (str "a b" ++ [0; 49; 200; 10]) VIS_CSTYLE) = -1.
Proof.
  destruct (vis_within_room VIS_CSTYLE 13 (str "a b" ++ [0; 49; 200; 10])) as (E1 & E0 & _ & _ & r & s & E2 & _ & E3).
  - repeat constructor; done.
  - done.
  - done.
  - split; [rewrite E1; vm_compute; reflexivity|]. split; [rewrite E0; vm_compute; reflexivity|]. rewrite E2. cbn [fst]. exact E3.
Defined.

(** ** Reading back *)

(** The characters that decoding [bs] produces, from the variables [t] and
    [astate] of [strnunvisx] *)
Fixpoint unvis_emit (fuel : nat) (flag c t astate : Z) : res (option (Z * Z * list Z)) :=
  match fuel with
  | O => NoFuel
  | S fuel' =>
      '(t, st, r) ← unvis t c astate flag;
      match r with
      | UNVIS_VALID => Ret (Some (t, st, [t]))
      | UNVIS_VALIDPUSH =>
          r ← unvis_emit fuel' flag c t st;
          match r with None => Ret None | Some (t', st', em) => Ret (Some (t', st', t :: em)) end
      | UNVIS_NOCHAR => Ret (Some (t, st, []))
      | UNVIS_SYNBAD => Ret None
      end
  end.

Fixpoint unvis_emits (flag : Z) (bs : list Z) (t astate : Z) : res (option (Z * Z * list Z)) :=
  match bs with
  | [] => Ret (Some (t, astate, []))
  | c :: bs =>
      r ← unvis_emit 2 flag c t astate;
      match r with
      | None => Ret None
      | Some (t, st, em) =>
          r ← unvis_emits flag bs t st;
          match r with None => Ret None | Some (t', st', em') => Ret (Some (t', st', em ++ em')) end
      end
  end.

(** The loop of [strnunvisx] stores them while there is space. *)
Definition stored (t st dlen : Z) (dst em : list Z) : option ust :=
  if Z.of_nat (length em) <=? dlen
  then Some (UState t st (dlen - Z.of_nat (length em)) (dst ++ em)) else None.

Lemma stored_nil t st dlen dst : 0 <= dlen -> stored t st dlen dst [] = Some (UState t st dlen dst).
Proof.
  intros Hd. unfold stored. change (Z.of_nat (length (@nil Z))) with 0.
  destruct (Z.leb_spec 0 dlen); [|lia]. by rewrite Z.sub_0_r, app_nil_r.
Qed.

Lemma store_stored t st dlen dst :
  0 <= dlen -> store t (UState t st dlen dst) = stored t st dlen dst [t].
Proof.
  intros Hd. unfold store, stored. cbn [u_t u_state u_dlen u_dst].
  change (Z.of_nat (length [t])) with 1.
  destruct (Z.eqb_spec dlen 0) as [->|]; [done|]. by destruct (Z.leb_spec 1 dlen); [|lia].
Qed.

Ltac same_state :=
  match goal with |- Some (UState _ _ ?a _) = Some (UState _ _ ?b _) => by replace a with b by lia end.

Lemma unvis_emit_char fuel flag c t st t' st' em dlen dst :
  0 <= dlen -> unvis_emit fuel flag c t st = Ret (Some (t', st', em)) ->
  unvis_char fuel flag c (UState t st dlen dst) = Ret (stored t' st' dlen dst em).
Proof.
  revert t st em dlen dst. induction fuel as [|fuel IH]; intros t st em dlen dst Hd; [done|].
  cbn [unvis_emit unvis_char u_t u_state u_dlen u_dst].
  destruct (unvis t c st flag) as [[[t1 st1] r]| | |]; [|done..]. cbn [mbind res_bind].
  destruct r; [..|done].
  - intros [= <- <- <-]. f_equal. by apply store_stored.
  - destruct (unvis_emit fuel flag c t1 st1) as [[[[t2 st2] em2]|]| | |] eqn:E; [|done..].
    cbn [mbind res_bind]. intros [= -> -> <-]. rewrite store_stored by done. unfold stored at 1.
    change (Z.of_nat (length [t1])) with 1. destruct (Z.leb_spec 1 dlen) as [H1|H1].
    + rewrite (IH t1 st1 em2 (dlen - 1) (dst ++ [t1])); [|lia|done]. f_equal. unfold stored. cbn [length].
      rewrite Nat2Z.inj_succ, <- app_assoc. cbn [app].
      destruct (Z.leb_spec (Z.of_nat (length em2)) (dlen - 1)), (Z.leb_spec (Z.succ (Z.of_nat (length em2))) dlen);
        try lia; [|done]. same_state.
    + unfold stored. cbn [length]. rewrite Nat2Z.inj_succ.
      by destruct (Z.leb_spec (Z.succ (Z.of_nat (length em2))) dlen); [lia|].
  - intros [= <- <- <-]. by rewrite stored_nil.
Qed.

Lemma unvis_emits_loop flag bs t st t' st' em dlen dst :
  Forall (fun x => x <> 0) bs -> 0 <= dlen -> unvis_emits flag bs t st = Ret (Some (t', st', em)) ->
  unvis_loop flag bs (UState t st dlen dst) = Ret (stored t' st' dlen dst em).
Proof.
  intros Hnz. revert t st em dlen dst. induction Hnz as [|c bs Hc _ IH]; intros t st em dlen dst Hd; cbn [unvis_emits unvis_loop].
  { intros [= <- <- <-]. by rewrite stored_nil. }
  destruct (Z.eqb_spec c 0); [done|].
  destruct (unvis_emit 2 flag c t st) as [[[[t1 st1] em1]|]| | |] eqn:E1; cbn [mbind res_bind]; [|done..].
  rewrite (unvis_emit_char _ _ _ _ _ _ _ _ _ _ Hd E1). cbn [mbind res_bind].
  destruct (unvis_emits flag bs t1 st1) as [[[[t2 st2] em2]|]| | |] eqn:E2; cbn [mbind res_bind]; [|done..].
  intros [= -> -> <-]. unfold stored at 1.
  destruct (Z.leb_spec (Z.of_nat (length em1)) dlen) as [H1|H1].
  - rewrite (IH t1 st1 em2 (dlen - Z.of_nat (length em1)) (dst ++ em1)); [|lia|done]. f_equal. unfold stored.
    rewrite length_app, Nat2Z.inj_add, app_assoc.
    destruct (Z.leb_spec (Z.of_nat (length em2)) (dlen - Z.of_nat (length em1))),
      (Z.leb_spec (Z.of_nat (length em1) + Z.of_nat (length em2)) dlen); try lia; [|done].
    same_state.
  - unfold stored. rewrite length_app, Nat2Z.inj_add.
    by destruct (Z.leb_spec (Z.of_nat (length em1) + Z.of_nat (length em2)) dlen); [lia|].
Qed.

Lemma unvis_emits_app flag bs1 bs2 t st t1 st1 em1 :
  unvis_emits flag bs1 t st = Ret (Some (t1, st1, em1)) ->
  unvis_emits flag (bs1 ++ bs2) t st =
    r ← unvis_emits flag bs2 t1 st1;
    match r with None => Ret None | Some (t', st', em') => Ret (Some (t', st', em1 ++ em')) end.
Proof.
  revert t st em1. induction bs1 as [|c bs1 IH]; intros t st em1; cbn [unvis_emits app].
  { intros [= <- <- <-]. by destruct (unvis_emits flag bs2 t st) as [[[[? ?] ?]|]| | |]. }
  destruct (unvis_emit 2 flag c t st) as [[[[t2 st2] em2]|]| | |]; cbn [mbind res_bind]; [|done..].
  destruct (unvis_emits flag bs1 t2 st2) as [[[[t3 st3] em3]|]| | |] eqn:E; cbn [mbind res_bind]; [|done..].
  intros [= -> -> <-]. rewrite (IH _ _ _ E).
  destruct (unvis_emits flag bs2 t1 st1) as [[[[? ?] ?]|]| | |]; cbn [mbind res_bind]; [|done..].
  by rewrite <- app_assoc.
Qed.

(** Only some flags matter to decoding. *)
Lemma unvis_flags f1 f2 t c st :
  has f1 UNVIS_END = has f2 UNVIS_END -> has f1 VIS_NOESCAPE = has f2 VIS_NOESCAPE ->
  has f1 VIS_HTTPSTYLE = has f2 VIS_HTTPSTYLE -> has f1 VIS_HTTP1866 = has f2 VIS_HTTP1866 ->
  has f1 VIS_MIMESTYLE = has f2 VIS_MIMESTYLE -> unvis t c st f1 = unvis t c st f2.
Proof. intros E1 E2 E3 E4 E5. unfold unvis. by rewrite E1, E2, E3, E4, E5. Qed.

Definition decode_flag (y : style) : Z :=
  (if st_http y then VIS_HTTPSTYLE else 0) + (if st_mime y then VIS_MIMESTYLE else 0).

(** The flags under which what is encoded can be decoded *)
Record readable (flag : Z) : Prop := {
  rd_noslash : has flag VIS_NOSLASH = false;
  rd_noescape : has flag VIS_NOESCAPE = false;
  rd_entities : has flag VIS_HTTP1866 = false;
  rd_end : has flag UNVIS_END = false
}.

Lemma unvis_emits_flag flag bs t st :
  readable flag -> unvis_emits flag bs t st = unvis_emits (decode_flag (style_of flag)) bs t st.
Proof.
  intros [_ H2 H3 H4].
  assert (E : forall t c st, unvis t c st flag = unvis t c st (decode_flag (style_of flag))).
  { intros. apply unvis_flags; rewrite ?H2, ?H3, ?H4; unfold decode_flag; cbn [style_of st_http st_mime];
      by destruct (has flag VIS_HTTPSTYLE), (has flag VIS_MIMESTYLE). }
  assert (E1 : forall n t c st, unvis_emit n flag c t st = unvis_emit n (decode_flag (style_of flag)) c t st).
  { induction n as [|n IH]; intros; [done|]. cbn [unvis_emit]. rewrite E.
    destruct (unvis _ _ _ _) as [[[? ?] []]| | |]; cbn [mbind res_bind]; [done| |done..].
    by rewrite IH. }
  revert t st. induction bs as [|c bs IH]; intros t st; [done|]. cbn [unvis_emits]. rewrite E1.
  destruct (unvis_emit 2 _ c t st) as [[[[? ?] ?]|]| | |]; cbn [mbind res_bind]; [|done..]. by rewrite IH.
Qed.

(** ** Every byte reads back *)

(** Decoding the bytes [bs] ends in the ground state with [c], or with a null
    that the next character, not an octal digit, will complete; and they
    start with an octal digit only if [c] is one. *)
Definition reads_back (flag : Z) (bs : list Z) (c : Z) (o : bool) : bool :=
  match unvis_emits flag bs 0 S_GROUND with
  | Ret (Some (t, st, [])) => (st =? S_OCTAL2) && (t =? 0) && (c =? 0) && negb o
  | Ret (Some (t, st, [c'])) => (st =? S_GROUND) && (c' =? c)
  | _ => false
  end &&
  forallb (fun x => negb (x =? 0)) bs && (isoctal c || negb (isoctal (hd 0 bs))).

Definition all_bool (P : bool -> bool) : bool := P true && P false.
Lemma all_bool_spec P b : all_bool P = true -> P b = true.
Proof. unfold all_bool. destruct b, (P true), (P false); done. Qed.

(** Which characters the list of extra characters may hold, and must *)
Definition may_be_extra (x : bool) (c : Z) : bool :=
  if (c =? 0) || (c =? 92) then x
  else if (c =? 32) || (c =? 9) || (c =? 10) then true else negb x.

(** The characters that decoding in the other styles takes for an escape *)
Definition style_escape (h m : bool) (c : Z) : bool := h && (c =? 37) || m && (c =? 61).

Definition svis_check (c : Z) : bool :=
  all_bool (fun oct => all_bool (fun cst => all_bool (fun safe => all_bool (fun h => all_bool (fun m =>
  all_bool (fun o => all_bool (fun x =>
    let y := Style oct cst false false false safe false h m in
    negb (may_be_extra x c) || style_escape h m c ||
    reads_back (decode_flag y) (svis_code y x c o) c o))))))).

Lemma svis_check_bytes : forallb svis_check (seqZ 0 256) = true.
Proof. vm_compute. reflexivity. Qed.

Definition hex_check (c : Z) : bool :=
  all_bool (fun b => all_bool (fun o =>
    reads_back (decode_flag (Style false false false false false false false true b))
      [chr "%"; xtoa (Z.land (Z.shiftr c 4) 15); xtoa (Z.land c 15)] c o &&
    reads_back (decode_flag (Style false false false false false false false b true))
      [chr "="; XTOA (Z.land (Z.shiftr c 4) 15); XTOA (Z.land c 15)] c o)).

Lemma hex_check_bytes : forallb hex_check (seqZ 0 256) = true.
Proof. vm_compute. reflexivity. Qed.

Lemma is_extra_may y c : st_noslash y = false -> may_be_extra (is_extra y c) c = true.
Proof.
  intros Hn. unfold may_be_extra, is_extra. rewrite Hn.
  destruct (c =? 0), (c =? 92), (c =? 32), (c =? 9), (c =? 10); simpl;
    rewrite ?orb_true_r, ?andb_false_r, ?andb_true_r; done.
Qed.

Lemma svis_reads_back y c o :
  st_noslash y = false -> byte c -> style_escape (st_http y) (st_mime y) c = false ->
  reads_back (decode_flag y) (svis_code y (is_extra y c) c o) c o = true.
Proof.
  intros Hn Hc He. pose proof (byte_forall _ svis_check_bytes c Hc) as H. unfold svis_check in H.
  apply (all_bool_spec _ (st_octal y)), (all_bool_spec _ (st_cstyle y)), (all_bool_spec _ (st_safe y)),
    (all_bool_spec _ (st_http y)), (all_bool_spec _ (st_mime y)), (all_bool_spec _ o),
    (all_bool_spec _ (is_extra y c)) in H.
  rewrite He, is_extra_may in H by done. cbn [negb orb] in H. cbv zeta in H.
  destruct y as [oct cst sp tab nl safe n h m]. simpl in Hn. by rewrite Hn in *.
Qed.

Lemma vis_reads_back y c o e :
  st_noslash y = false -> byte c -> reads_back (decode_flag y) (vis_code y c o e) c o = true.
Proof.
  intros Hn Hc. pose proof (byte_forall _ hex_check_bytes c Hc) as Hx. unfold hex_check in Hx.
  assert (Hf : decode_flag y = decode_flag (Style false false false false false false false (st_http y) (st_mime y))) by done.
  unfold vis_code. destruct (st_http y) eqn:Eh; [|destruct (st_mime y) eqn:Em].
  - destruct (_ || _) eqn:Ep.
    + apply svis_reads_back; [done..|]. rewrite Eh. unfold style_escape. cbn [andb].
      destruct (Z.eqb_spec c 37) as [->|]; [by vm_compute in Ep|].
      destruct (Z.eqb_spec c 61) as [->|]; [by vm_compute in Ep|]. by destruct (st_mime y).
    + apply (all_bool_spec _ (st_mime y)), (all_bool_spec _ o) in Hx.
      apply andb_true_iff in Hx as [Hx _]. by rewrite Hf.
  - destruct (negb _ && _) eqn:Ep.
    + apply (all_bool_spec _ false), (all_bool_spec _ o) in Hx.
      apply andb_true_iff in Hx as [_ Hx]. by rewrite Hf.
    + apply svis_reads_back; [done..|]. rewrite Eh, Em. unfold style_escape. cbn [andb orb].
      destruct (Z.eqb_spec c 61) as [->|]; [|done]. by destruct e; vm_compute in Ep.
  - apply svis_reads_back; [done..|]. by rewrite Eh, Em.
Qed.

(** ** Strings read back *)

(** In the ground state decoding does not look at [t]. *)
Lemma unvis_emits_ground flag c bs t t' :
  has flag UNVIS_END = false ->
  unvis_emits flag (c :: bs) t S_GROUND = unvis_emits flag (c :: bs) t' S_GROUND.
Proof.
  intros He. assert (E : unvis t c S_GROUND flag = unvis t' c S_GROUND flag).
  { unfold unvis. by rewrite He. }
  cbn [unvis_emits unvis_emit]. by rewrite E.
Qed.

(** A null that was begun is completed by anything but an octal digit. *)
Lemma unvis_emits_pending flag c bs :
  has flag UNVIS_END = false -> isoctal c = false ->
  unvis_emits flag (c :: bs) 0 S_OCTAL2 =
    r ← unvis_emits flag (c :: bs) 0 S_GROUND;
    match r with None => Ret None | Some (t, st, em) => Ret (Some (t, st, 0 :: em)) end.
Proof.
  intros He Ho.
  assert (E : unvis 0 c S_OCTAL2 flag = Ret (0, S_GROUND, UNVIS_VALIDPUSH)).
  { unfold unvis. rewrite He. cbv zeta.
    change (u8 (GS S_OCTAL2)) with S_OCTAL2. unfold isoctal in *. 
    rewrite (wrap_small 8 (u8 c)) by (apply Z.mod_pos_bound; done). by rewrite Ho. }
  assert (Hg : exists t st r, unvis 0 c S_GROUND flag = Ret (t, st, r) /\ r <> UNVIS_VALIDPUSH).
  { unfold unvis. rewrite He. cbv zeta. change (u8 (GS S_GROUND) =? S_GROUND) with true. cbv iota.
    repeat case_match; by eexists _, _, _. }
  destruct Hg as (t & st & r & Hg & Hr).
  cbn [unvis_emits unvis_emit]. rewrite E. cbn [mbind res_bind unvis_emit]. rewrite Hg. cbn [mbind res_bind].
  destruct r; [|done|..]; cbn [mbind res_bind]; try done;
    (destruct (unvis_emits flag bs t st) as [[[[? ?] ?]|]| | |]; cbn [mbind res_bind]; done).
Qed.

(** What [reads_back] says, from any [t] *)
Lemma reads_back_spec flag bs c o t :
  has flag UNVIS_END = false -> bs <> [] -> reads_back flag bs c o = true ->
  Forall (fun x => x <> 0) bs /\ (isoctal c = false -> isoctal (hd 0 bs) = false) /\
  exists t' st em, unvis_emits flag bs t S_GROUND = Ret (Some (t', st, em)) /\
    (st = S_GROUND /\ em = [c] \/ st = S_OCTAL2 /\ t' = 0 /\ em = [] /\ c = 0 /\ o = false).
Proof.
  intros He Hne H. unfold reads_back in H. apply andb_true_iff in H as [H Hoct].
  apply andb_true_iff in H as [H Hnz].
  split; [|split].
  - apply Forall_forall. intros x Hx. rewrite forallb_forall in Hnz.
    specialize (Hnz x (proj1 (list_elem_of_In _ _) Hx)). by destruct (Z.eqb_spec x 0).
  - intros Hc. rewrite Hc in Hoct. by destruct (isoctal (hd 0 bs)).
  - destruct bs as [|b bs]; [done|]. rewrite (unvis_emits_ground flag b bs t 0) by done.
    destruct (unvis_emits flag (b :: bs) 0 S_GROUND) as [[[[t' st] em]|]| | |]; try done.
    exists t', st, em. split; [done|]. destruct em as [|c' [|]]; [| |done].
    + right. apply andb_true_iff in H as [H Ho]. apply andb_true_iff in H as [H Hc].
      apply andb_true_iff in H as [Hst Ht].
      apply Z.eqb_eq in Hst, Ht, Hc. by destruct o.
    + left. apply andb_true_iff in H as [Hst Hc]. by apply Z.eqb_eq in Hst as ->, Hc as ->.
Qed.

(** The decoder after a whole encoding: all characters produced, but for a
    null at the end that is still to be completed *)
Definition decoded (src : list Z) (t st : Z) (em : list Z) : Prop :=
  st = S_GROUND /\ em = src \/ st = S_OCTAL2 /\ t = 0 /\ em ++ [0] = src.

Lemma decode_flag_end y : has (decode_flag y) UNVIS_END = false.
Proof. unfold decode_flag. by destruct (st_http y), (st_mime y). Qed.

Lemma visual_reads_back y src t :
  st_noslash y = false -> Forall byte src ->
  Forall (fun x => x <> 0) (visual y src) /\
  (forall c rest, src = c :: rest -> isoctal c = false -> isoctal (hd 0 (visual y src)) = false) /\
  exists t' st em, unvis_emits (decode_flag y) (visual y src) t S_GROUND = Ret (Some (t', st, em)) /\
    decoded src t' st em.
Proof.
  intros Hn Hsrc. revert t. pose proof (decode_flag_end y) as He.
  induction Hsrc as [|c src Hc Hsrc IH]; intros t; cbn [visual].
  { split; [done|]. split; [done|]. eexists _, _, _. split; [reflexivity|]. by left. }
  set (o := isoctal (hd 0 src)). set (e := (hd 0 src =? 13) || (hd 0 src =? 10)).
  assert (Hne : vis_code y c o e <> []).
  { pose proof (vis_code_length y c o e). by destruct (vis_code y c o e); simpl in *; [lia|]. }
  destruct (reads_back_spec _ _ c o t He Hne (vis_reads_back y c o e Hn Hc))
    as (Hnz & Hhd & t1 & st1 & em1 & E1 & Hcase).
  destruct (IH t1) as (IHz & IHh & IHe).
  split; [by apply Forall_app|]. split.
  { intros ? ? [= <- <-] Ho. destruct (vis_code y c o e); [done|]. by apply Hhd. }
  rewrite (unvis_emits_app _ _ _ _ _ _ _ _ E1).
  destruct Hcase as [[-> ->]|(-> & -> & -> & -> & Ho)].
  - destruct IHe as (t2 & st2 & em2 & -> & Hd). cbn [mbind res_bind].
    eexists _, _, _. split; [reflexivity|].
    destruct Hd as [[-> ->]|(-> & -> & <-)]; [by left|by right].
  - destruct src as [|d src].
    { cbn [visual unvis_emits mbind res_bind]. eexists _, _, _. split; [reflexivity|]. by right. }
    specialize (IHh d src eq_refl Ho). destruct IHe as (t2 & st2 & em2 & E2 & Hd).
    assert (Hl : (1 <= length (visual y (d :: src)))%nat).
    { pose proof (visual_length y (d :: src)). simpl in *. lia. }
    destruct (visual y (d :: src)) as [|b bs]; [simpl in Hl; lia|].
    rewrite unvis_emits_pending by done. rewrite E2. cbn [mbind res_bind].
    eexists _, _, _. split; [reflexivity|].
    destruct Hd as [[-> ->]|(-> & -> & <-)]; [by left|by right].
Qed.

(** C9. Decoding inverts encoding.  Under any flags but [VIS_NOSLASH],
    [VIS_NOESCAPE] and [VIS_HTTP1866], whatever the style, [strvisx] stores a
    string without a null before its terminator, and [strnunvisx] with the
    same flags reads the source bytes back, nulls included, provided there is
    space for them and a terminator; without, it returns -1. *)
Theorem vis_unvis_roundtrip (flag t0 dlen : Z) (src enc : list Z) :
  readable flag -> Forall byte src -> 0 <= dlen ->
  out (snd (strvisx src flag)) = enc ++ [0] ->
  Forall (fun x => x <> 0) enc /\
  strnunvisx t0 dlen enc flag = Ret (if Z.of_nat (length src) <? dlen then Some src else None).
Proof.
  intros Hf Hsrc Hd Henc.
  assert (enc = visual (style_of flag) src) as ->.
  { pose proof (encode_loop_emits flag (make_extra_list flag (make_extra_list flag [])) src Hsrc
      (fun c Hc => proj1 (in_string_extra flag c Hc))) as Hem.
    pose proof (terminated _ _ (VOut None []) Hem) as Ht. cbn [room out app] in Ht.
    unfold strvisx, istrnvisx, istrsnvisx in Henc. rewrite Ht in Henc. cbn [snd out] in Henc.
    by apply app_inj_2 in Henc as [-> _]. }
  destruct (visual_reads_back (style_of flag) src t0 (rd_noslash flag Hf) Hsrc)
    as (Hnz & _ & t' & st & em & E & Hdec).
  split; [done|]. rewrite <- unvis_emits_flag in E by done.
  unfold strnunvisx. change (UState t0 0 dlen []) with (UState t0 S_GROUND dlen []).
  rewrite (unvis_emits_loop _ _ _ _ _ _ _ _ _ Hnz Hd E). cbn [mbind res_bind]. unfold stored.
  destruct Hdec as [[-> ->]|(-> & -> & <-)].
  - destruct (Z.leb_spec (Z.of_nat (length src)) dlen) as [Hle|Hgt].
    + cbn [u_t u_state u_dlen u_dst app]. change (unvis t' 0 S_GROUND UNVIS_END) with
        (@Ret (Z * Z * unvis_result) (t', S_GROUND, UNVIS_NOCHAR)). cbn [mbind res_bind].
      unfold store. cbn [u_t u_state u_dlen u_dst].
      destruct (Z.eqb_spec (dlen - Z.of_nat (length src)) 0), (Z.ltb_spec (Z.of_nat (length src)) dlen); try lia; done.
    + by destruct (Z.ltb_spec (Z.of_nat (length src)) dlen); [lia|].
  - rewrite length_app, Nat2Z.inj_add. change (Z.of_nat (length [0])) with 1.
    destruct (Z.leb_spec (Z.of_nat (length em)) dlen) as [Hle|Hgt].
    + cbn [u_t u_state u_dlen u_dst app]. change (unvis 0 0 S_OCTAL2 UNVIS_END) with
        (@Ret (Z * Z * unvis_result) (0, S_GROUND, UNVIS_VALID)). cbn [mbind res_bind].
      unfold store. cbn [u_t u_state u_dlen u_dst].
      destruct (Z.eqb_spec (dlen - Z.of_nat (length em)) 0), (Z.ltb_spec (Z.of_nat (length em) + 1) dlen);
        try lia; [done|..]; cbn [u_t u_state u_dlen u_dst];
        destruct (Z.eqb_spec (dlen - Z.of_nat (length em) - 1) 0); try lia; done.
    + by destruct (Z.ltb_spec (Z.of_nat (length em) + 1) dlen); [lia|].
Qed.

Definition sample_bytes : list Z := str "a=b\c" ++ [0; 49; 200; 10; 0; 97; 0].

Lemma vis_unvis_roundtrip_witness :
  strnunvisx 7 13 (visual (style_of (VIS_CSTYLE + VIS_MIMESTYLE)) sample_bytes)
    (VIS_CSTYLE + VIS_MIMESTYLE) = Ret (Some sample_bytes) /\
  strnunvisx 7 12 (visual (style_of VIS_CSTYLE) sample_bytes) VIS_CSTYLE = Ret None.
Proof.
  assert (Forall byte sample_bytes) by (repeat constructor; done). split.
  - apply (vis_unvis_roundtrip (VIS_CSTYLE + VIS_MIMESTYLE) 7 13 sample_bytes); [by split|done|done|].
    vm_compute. reflexivity.
  - apply (vis_unvis_roundtrip VIS_CSTYLE 7 12 sample_bytes); [by split|done|done|].
    vm_compute. reflexivity.
Defined.

(** ** Character references

    Decoding with [VIS_HTTP1866] is not an inverse of anything: a numeric
    reference adds eleven times the number so far and never leaves its state,
    and a name that ends early makes the search read past the end of the
    next, shorter name. *)
Example numeric_reference_wrong : strunvisx 0 (str "&#65;") VIS_HTTP1866 = Ret (Some (str "G")).
Proof. vm_compute. reflexivity. Qed.
Example numeric_reference_stuck : strunvisx 0 (str "&#9; x") VIS_HTTP1866 = Ret None.
Proof. vm_compute. reflexivity. Qed.
Example named_reference : strunvisx 0 (str "&lt;&yuml;") VIS_HTTP1866 = Ret (Some [60; 255]).
Proof. vm_compute. reflexivity. Qed.
Example named_reference_overrun : strunvisx 0 (str "&frac5;") VIS_HTTP1866 = Fault.
Proof. vm_compute. reflexivity. Qed.

(** A character the caller asks to protect can be lost as well: with
    [VIS_CSTYLE] it is written after a backslash, which decoding reads as
    another escape. *)
Example protected_character_lost :
  let '(_, s) := istrsnvis true (str "$") VIS_CSTYLE (str "$") (VOut None []) in
  out s = str "\$" ++ [0] /\ strunvis 0 (str "\$") = Ret (Some []).
Proof. vm_compute. done. Qed.
